(* ===== verification/_CoqProject ===== *)
-Q . S2P
Prelude.v
Net.v
Buf.v
AddrCodec.v
KcpSegment.v
KcpCommon.v
KcpReceiving.v
KcpSending.v
KcpConn.v
KcpInvariant.v
KcpReliable.v
Pipe.v
MuxSession.v
MuxFrame.v
StrMatcher.v
StrAutomaton.v
StrMph.v
IpMatcher.v
GeoLoader.v
GeoDomain.v
RouteCond.v
Balancing.v
Router.v
Vision.v
VisionStream.v
Handlers.v
Lru.v
FakeDns.v
UploadQueue.v
BufReader.v
CryptoFrame.v
ProxyHeaders.v
DnsCache.v
Dns.v
Sniff.v
SniffHttp.v
Dispatch.v
Socks.v
MuxWorker.v
Vmess.v
Shadowsocks.v
