(* ===== verification/Prelude.v ===== *)
(** * Xray-core in Rocq: the data plane of a proxy, verified

    A shallow embedding of the parts of Xray-core (the Go program under [xray-go/]) that
    move bytes between the ends of a proxied connection: the names of network ends, the
    buffers, the address codec, the mKCP transport, the pipes, the mux protocol, and of the
    part that decides where the bytes go: geo data, domain and address matching, routing
    rules, the router and its balancers, the DNS client, and the dispatcher that sniffs a
    connection and hands it to an outbound. Every definition is executable; every theorem is
    closed under the global context (no axioms).

    ** The parts and how they interact

    A proxied connection reads [MultiBuffer]s ([common/buf]) from an inbound, passes them
    through a pipe ([transport/pipe]), and writes them to an outbound, whose header names the
    destination ([common/net]) with the address codec ([common/protocol]). Where to send it is
    decided by the router ([app/router]): the first rule whose conditions hold names an
    outbound or a balancer, which picks one by a strategy. Conditions are matchers of domains
    ([common/geodata/strmatcher]), of addresses ([common/geodata/ip_matcher.go]) and of fields
    of the session; their rules are parsed from texts and geo data files ([common/geodata]).
    Handlers are registered with the inbound and outbound managers ([app/proxyman]), from
    which a balancer selects by prefix. Where a domain is not resolved, fake DNS
    ([app/dns/fakedns]) lends it an address of a pool and finds the domain again when a
    connection to the address comes in; the DNS client ([app/dns]) resolves the others, and its
    answers are what the rules on addresses see. The dispatcher ([app/dispatcher]) joins these
    parts: it reads the first bytes of a connection, asks the sniffers of [common/protocol] for
    its protocol and domain, may put the domain in the place of the target, asks the router for
    an outbound, and hands the link with all its bytes to the handler. VLESS with XTLS Vision ([proxy/proxy.go]) pads the first records of a
    TLS connection it carries. The outbound may multiplex many connections as sessions of one mux connection
    ([common/mux]), and may run over mKCP ([transport/internet/kcp]), a reliable transport
    over UDP. Other protocols carry the same bytes differently: VLESS and Trojan put a header
    with user and destination in front, VMess seals its header and finds the user by trying the
    keys of all users, VMess and Shadowsocks cut the stream into sealed
    chunks ([common/crypto]), and SplitHTTP ([transport/internet/splithttp]) sends an upload
    as numbered posts that a queue puts back in order. SOCKS ([proxy/socks]) agrees on user and
    destination in a handshake of several messages.

    ** The files

    - [Prelude]: machine integers with their wrap-around ([u8], [u16], [u32], [i32], [u64]),
      outcomes of a Go call ([go]: a value, an error or a panic), slices with their bounds
      checks, bytes and big-endian words, readers ([Stream]) and writers (the classes
      [WriterOps] and [Writer]: a client of an [io.Writer] is proved against the class).
    - [Net] ([common/net/address.go], [port.go], [destination.go], [network.go]): addresses,
      ports, port lists, destinations.
    - [Buf]: [Bytespool] ([common/bytespool/pool.go]), [Buffer] ([common/buf/buffer.go], a
      window of an array, and an instance of [Writer]) and [MultiBuffer]
      ([common/buf/multi_buffer.go]).
    - [AddrCodec] ([common/protocol/address.go]): the serializer of address and port, with
      the options the protocols give it.
    - [KcpSegment] ([kcp/segment.go], [io.go], [output.go]): the segments and their wire
      format. [KcpCommon] ([kcp/config.go], the states and round-trip estimator of
      [connection.go], [KCPConfig.Build] of [infra/conf]). [KcpReceiving] ([receiving.go]:
      window, acknowledgement list, worker), [KcpSending] ([sending.go]: window, worker),
      [KcpConn] ([connection.go]: input, flush, ping, read, write, close, the state machine).
    - [KcpInvariant]: the invariant of one connection, kept by every handler.
      [KcpReliable]: two connections and a network that may lose, repeat, delay and reorder
      packets, as a step relation, and what the applications see.
    - [Pipe] ([transport/pipe]): the pipe's state and the threads of a reader and a writer as
      a step relation.
    - [MuxSession] ([common/mux/session.go]): the session manager; sessions are shared by
      pointer, so they live in a store. [MuxFrame] ([common/mux/frame.go], [writer.go],
      [reader.go]): frame metadata, the frame writer, the packet reader. [MuxWorker]
      ([common/mux/server.go], [client.go], the chunk reader of [common/crypto/chunk.go]): the
      handlers that take a mux connection apart, a client and a server as a step relation, and
      the choice of a connection for a new session.
    - [StrMatcher] ([common/geodata/strmatcher]): matchers, the hash, trie and list groups,
      the linear matchers. [StrAutomaton] ([matchergroup_ac_automation.go]): the Aho-Corasick
      automaton over an array of nodes. [StrMph] ([matchergroup_mph.go],
      [valuematcher_mph.go], [indexmatcher_mph.go]): the perfect hash table with its search
      for seeds, and the matchers made of table, automaton and regular expressions.
    - [IpMatcher] ([common/geodata/ip_matcher.go], [ip_registry.go]): address matchers, their
      buckets, the cache of geo data, the matcher of a list of rules. The set library netipx
      is the class [Netipx], with lists of prefixes as an instance.
    - [GeoLoader] ([geodat_loader.go], [rule_parser.go]): the search for an entry of a geo data
      file without decoding it, and the texts of rules. [GeoDomain] ([domain_matcher.go],
      [domain_registry.go]): the two factories of domain matchers as instances of
      [DomainFactory], and the registry with its reload, proved against the class.
    - [RouteCond] ([app/router/condition.go], [BuildCondition] of [config.go],
      [features/routing]): sessions, contexts that resolve on demand, conditions.
      [Balancing] ([balancing.go], [strategy_*.go], [weight.go]): strategies and balancers.
      [Router] ([router.go]): initialisation, reload, removal, picking; webhook notifiers by
      number.
    - [Vision] ([proxy/proxy.go]): padding and unpadding of XTLS Vision, its filter of TLS
      handshakes, its reader and writer up to the switch to direct copying. [VisionStream]: a
      writer and a reader joined by any stream.
    - [Handlers] ([app/proxyman/outbound/outbound.go], [inbound/inbound.go]): the managers, and
      a balancer over the outbound manager as an instance of its selector.
    - [Lru] ([common/cache/lru.go]): the list and the two maps that share its elements.
      [FakeDns] ([app/dns/fakedns/fake.go]): pools, leases, reverse lookup, several pools.
    - [UploadQueue] ([splithttp/upload_queue.go]): the queue of posts and its binary heap.
    - [BufReader] ([common/buf/reader.go], [copy.go]): buffered readers over a reader that
      delivers as it likes, and the copy loop.
    - [CryptoFrame] ([common/crypto/auth.go], the size parsers of [chunk.go], and the parsers
      VMess and Shadowsocks give them): sealed chunks, written and read, proved against the
      class [FramingLaws], with the protocols' framings as instances.
    - [ProxyHeaders]: [Trojan] ([proxy/trojan/protocol.go]) and [Vless]
      ([proxy/vless/encoding], [validator.go]): headers, packets and users.
    - [Socks] ([proxy/socks/protocol.go], [config.go]): the handshakes of versions 4, 4a and 5 as
      programs that read and write, run on a stream or against each other (a step relation in
      which either end may move), and the UDP packets.
    - [Vmess] ([proxy/vmess/aead], [proxy/vmess/encoding], [proxy/vmess/validator.go],
      [common/antireplay]): key derivation, authentication IDs, sealed headers, the history of
      sessions, the replay filter, the users, and a server as a step relation. Hashes with keys
      and ciphers are the classes [VmessOps] and [VmessLaws], with an instance.
    - [Shadowsocks] ([proxy/shadowsocks/config.go], [validator.go], [protocol.go]): ciphers and
      keys of accounts, users, packets of UDP; key derivation and ciphers are the classes
      [SsOps] and [SsLaws], with an instance.
    - [DnsCache] ([app/dns/cache_controller.go], [nameserver_cached.go], [dnscommon.go],
      [nameserver_udp.go], [common/signal/pubsub]): the cache with its cleaning and migration
      as a step relation, queries over it, requests over UDP. [Dns] ([dns.go],
      [nameserver.go], [hosts.go], [config.go]): hosts, clients, their order, serial and
      parallel queries.
    - [Sniff] ([common/protocol/tls/sniff.go], [quic/sniff.go]): TLS and QUIC; key derivation,
      ciphers and integers of QUIC are the classes [QuicOps] and [QuicLaws], with an instance.
      [SniffHttp] ([common/protocol/http], [common/protocol/bittorrent]): HTTP and BitTorrent.
    - [Dispatch] ([app/dispatcher]): the sniffers in turn, the reader that keeps what was
      sniffed, the change of the target, routing to a handler. The fake DNS engine is the class
      [FakeDNSEngine], with the holder of [FakeDns] as an instance.

    ** What the theorems show

    - Reliable delivery (KcpReliable): in every reachable state of the two connections what
      each application read is a prefix of what the other wrote ([kcp_stream_prefix]), every
      payload is held by the sender until the peer has it ([kcp_no_loss]), two reads of
      a connection that is still open, after the sender's window has drained, complete the stream
      ([kcp_delivery_complete]), and with an Mtu that fits a buffer no packet and no call panics,
      the writing of the segments included ([kcp_no_panic]).
    - The connection alone: threads that load and store the state without a lock move it only
      along the state machine, from a state it had before, and never make it active again
      ([conn_state_machine]); termination when the peer is silent ([silent_peer_terminates]) or the connection closes.
    - The workers: in-order delivery, the sending window under any run, exact
      acknowledgements, the congestion window, retransmission and the estimator.
    - Wire formats as round trips: mKCP packets, addresses, mux metadata and frames, Trojan headers and packets, VLESS requests
      ([vless_request_roundtrip]), sealed chunks under any delivery of the bytes
      ([auth_stream_roundtrip]).
    - Uploads: what is read is the posts in the order of their numbers, whatever the order
      they came in, unless a number is posted again while it waits ([upload_in_order]), and a read
      ends when the next post is there.
    - Pipes: first-in first-out under every interleaving ([pipe_fifo]), no lost wake-up
      ([pipe_no_lost_wakeup]). Mux sessions: limits, distinct IDs, no panic,
      up to 65535 sessions of a connection or with a limit on them ([session_manager_runs]); the
      sessions of one client's connection, without XUDP, do not mix, whatever the order of
      their frames and whatever is stopped ([mux_sessions_apart]); a new session finds a
      connection that has room ([mux_dispatch_finds]).
    - Domain matching: the linear matchers answer like the matchers one by one, in the
      documented priority; the automaton is built
      without a panic and answers like the same matchers ([ac_automaton_exact]); the perfect-hash
      matcher is built exactly when every bucket has a seed, and then answers like them
      ([mph_value_matcher_exact]).
    - Address matching: the matcher built from a list of rules answers what the rules say
      ([ip_rules_exact]); filtering by one set is a split.
    - Geo data: the search ends on any bytes, and an entry that is found is loaded, cut off or
      too large ([geo_find_total]); parsed rules are well formed
      ([parsed_ip_rules_checked]); both domain factories, where they
      build a matcher, answer what the rules say ([domain_rules_exact]); a reload is all or nothing.
    - Routing: a rule's conditions hold exactly when its fields say so
      ([rule_condition_exact]); the router picks the first rule that holds by the addresses
      its strategy allows ([router_picks_first]); no operation breaks its invariant
      ([router_runs]), a failed reload included ([failed_reload]). Balancers: the cheapest
      outbounds ([least_load_exact]), each in its turn ([round_robin_fair]), and over the
      outbound manager never one that is not registered or reported dead. Managers: selection,
      cached or not, is exact; inbounds run exactly while they should.
    - Dispatching: a link goes where the forced tag, else the router, says, and nothing a client
      sends can force a tag ([dispatch_obeys_router]); sniffing takes no byte from the stream
      ([sniffing_keeps_stream]); the rules see the name of a TLS hello however it is cut
      ([tls_hello_routed]). Sniffing: a QUIC hello is answered as soon as the
      crypto data received can be read, with its name when no gap could be ([quic_hello_sniffed]);
      the host of an HTTP request is found when no other line looks like one
      ([http_host_sniffed]), and no bytes make a sniffer panic
      ([sniffers_never_panic]).
    - DNS: the cache answers as if every last answer were kept ([dns_cache_transparent]); the
      parallel query answers by the groups, in any order of the answers ([dns_parallel_exact]);
      clients are asked in the configured order; with servers that answer,
      every lookup of a host name ends with addresses or an error, which is what routing assumes
      ([dns_lookup_answers]).
    - SOCKS: whatever the order in which the ends move, client and server end the handshake
      of a TCP request with the same destination ([socks_handshake_agrees]); where accounts are asked for, no
      bytes get a request accepted without one ([socks_needs_account]).
    - VMess: a request arrives as it was sent, in whatever order the server tries its users
      ([vmess_request_roundtrip]); a header that was accepted is not accepted again, but for
      one from a clock well ahead, after three minutes ([vmess_no_replay]). Shadowsocks: a packet
      is read back by a server of many users, or does not fit a buffer ([ss_udp_packets]).
    - Vision: whatever the padding, and however the bytes are cut on the way as long as the first
      piece holds a header and none ends inside the last one, the reader gives the writer's stream back
      ([vision_stream]).
    - Fake DNS: the cache behaves like a list; a request of a pool that does not begin with a
      zero byte ends with an address that is the domain's alone and leads back to it ([fake_ip_lease]).
    - Buffers: a [Buffer] and a [MultiBufferContainer] refine byte queues; the window invariant,
      splitting, compaction, pools, ports and addresses.
    - Behaviour that differs from what the code means: a 256-byte domain, an empty buffer in
      [Compact], an Mtu above the buffer size, an empty data segment, metadata over 512
      bytes, a connection limit of 65536, an empty keyword, a pattern with a leading dot,
      values repeated along the failure links, filtering by several sets, keys of rule lists
      that collide, balancers left by a failed append, selectors that collide, a rejected
      handler that becomes the default, a value replaced in the cache, a fake DNS pool that
      begins with a zero byte, a post read twice, data that comes with an error, a packet too
      large for its chunk, chunk nonces that repeat, two users with one ID, a TTL of expired
      answers above 2^31, the lost error of a failed fetch, a skipped fake DNS client in a
      parallel query, uTP packets that are never recognised, a host in the body of a request,
      attributes of a request in two reads, the sniffer of fake DNS with others, a domain as the
      UDP address of a SOCKS server, a full connection that is picked, an ID of a session used
      again, a VMess header from a clock ahead, VMess users that share an ID, a Shadowsocks packet
      too large for its buffer, a close that is overtaken and reopens a connection, a clock read
      late that terminates one, session IDs that wrap without a limit on sessions, a QUIC hello
      read over a gap.

    ** Modelling choices and bounds

    - State is passed explicitly; an error or a panic is a value of [go]. Where the
      code holds a lock the handler is one step. The state of an mKCP connection has no lock: its
      threads are programs of loads and stores in KcpConn, and [SetState] reads the clock again;
      the invariants of KcpInvariant and KcpReliable are about handlers that run one after
      another, and so are the router's operations, of which picking takes no lock. Effects on the outside are lists of
      events (packets written, wake-ups, closes).
    - Recursion that is not structural has fuel, and the theorems show that the fuel given is
      enough: [read_packet] the length of the packet (a segment takes at least sixteen
      bytes), [read_loop] the size of the window and one more, [write_loop] of KcpConn the
      length of the data and two, [write_loop] of MuxFrame the buffers and bytes and one, the
      trie loops the length of the string, [occurrences] the length of the input and one, the
      automaton's [build_loop] the number of nodes and [fail_loop] twice that, [find_loop] of
      GeoLoader the length of the file and one, [unpad_loop] of Vision the bytes of the buffer
      and one, [free_ip] of FakeDns the size of the cache and one, the heap's [up] and [down]
      its length, [read_loop] of UploadQueue the heap and one, [ReadFull] the bytes and results
      of the reader, [copyInternal] its deliveries and one, [writeStream_loop] the length of
      the content, [read_payload] and [read_parts] the length of the packet and one, the loops
      over names, extensions, frames and packets of a hello the length of the bytes and one,
      [utp_extensions] the same, [content_loop] of Dispatch the results of the reader and one, [copy_loop]
      of MuxWorker the cuts of the link and three;
      [hosts_lookup] has the depth of the code, five.
      The search for a seed ([seed_loop]) takes its fuel as an argument; the theorem says
      that it returns exactly when each bucket has a seed within that fuel.
      [ToDomain] takes its fuel as an argument, because it loops on what a library returns.
    - mKCP numbers are 32-bit and compared by their distance; the theorems about two
      connections assume fewer than 2^31 - 1 segments per direction. Buffers are arrays below
      2^31 bytes, which the [int32] window needs.
    - A pool may hand out any array: [pooled] is an argument of the allocating functions, and
      the theorems hold for all of them. Regular expressions and Punycode are arguments.

    ** Not modelled

    The proxy protocols beside their headers (of Vision: the unwrapping of TLS and REALITY
    connections and splicing), the other transports and their masks, the DNS servers over TCP,
    HTTPS and QUIC, the links and counters of the dispatcher and the rest of [app/], the
    goroutines of the mux workers, TLS and the ciphers, configuration translation, commands,
    generated code, and the Python and C++ bindings: they are glue around libraries, the
    network or the operating system, or protocols left for later. *)

From Stdlib Require Export ZArith Lia.
From Stdlib Require Export Strings.Byte.
From stdpp Require Export base tactics option list gmap strings numbers.

#[global] Open Scope Z_scope.
#[global] Set Default Goal Selector "!".

Declare Scope go_scope.
Delimit Scope go_scope with go.

(** ** Machine integers

    A Go integer of width [w] is a [Z] that the operations keep in range by the
    wrap-around below, written where the source's arithmetic can overflow. *)

Definition u8 (z : Z) : Z := z mod 256.
Definition u16 (z : Z) : Z := z mod 65536.
Definition u32 (z : Z) : Z := z mod 4294967296.
Definition i32 (z : Z) : Z := (z + 2147483648) mod 4294967296 - 2147483648.
Definition u64 (z : Z) : Z := z mod 18446744073709551616.

Definition is_u8 (z : Z) : Prop := 0 <= z < 256.
Definition is_u16 (z : Z) : Prop := 0 <= z < 65536.
Definition is_u32 (z : Z) : Prop := 0 <= z < 4294967296.
Definition is_i32 (z : Z) : Prop := -2147483648 <= z < 2147483648.

Notation "a +32 b" := (u32 (a + b)) (at level 50, left associativity) : go_scope.
Notation "a -32 b" := (u32 (a - b)) (at level 50, left associativity) : go_scope.
Notation "a *32 b" := (u32 (a * b)) (at level 40, left associativity) : go_scope.
#[global] Open Scope go_scope.

(** Linear arithmetic with division and remainder by constants. *)
Ltac dlia := Z.to_euclidean_division_equations; lia.

(** The unsigned distance test [a - b < 2^31 - 1] the KCP sources use to compare
    sequence numbers and clocks. *)
Definition half32 : Z := 0x7FFFFFFF.

Lemma u32_range z : is_u32 (u32 z).
Proof. unfold is_u32, u32. apply Z.mod_pos_bound. lia. Qed.

Lemma u16_range z : is_u16 (u16 z).
Proof. unfold is_u16, u16. apply Z.mod_pos_bound. lia. Qed.

Lemma u32_small z : is_u32 z → u32 z = z.
Proof. unfold is_u32, u32. intros ?. by apply Z.mod_small. Qed.

Lemma u16_small z : is_u16 z → u16 z = z.
Proof. unfold is_u16, u16. intros ?. by apply Z.mod_small. Qed.

Lemma u8_small z : is_u8 z → u8 z = z.
Proof. unfold is_u8, u8. intros ?. by apply Z.mod_small. Qed.

Lemma i32_small z : is_i32 z → i32 z = z.
Proof. unfold is_i32, i32. intros ?. rewrite Z.mod_small; lia. Qed.

(** What an unsigned 32-bit subtraction gives, by the sign of the difference. *)
Lemma sub32_case a b :
  is_u32 a → is_u32 b →
  (b ≤ a ∧ a -32 b = a - b) ∨ (a < b ∧ a -32 b = a - b + 4294967296).
Proof.
  unfold is_u32, u32. intros Ha Hb. destruct (decide (b ≤ a)).
  - left. split; [done|]. apply Z.mod_small. lia.
  - right. split; [lia|].
    rewrite <- (Z.mod_small (a - b + 4294967296) 4294967296) by lia.
    rewrite <- (Z.mul_1_l 4294967296) at 2. by rewrite Z_mod_plus_full.
Qed.

(** ** Outcomes

    A Go call returns a value, returns a non-nil error, or panics. *)

Inductive GoError : Type :=
| EOF
| ErrUnexpectedEOF
| ErrBufferFull
| ErrClosedPipe
| ErrMsg (m : string).

#[global] Instance GoError_eq_dec : EqDecision GoError.
Proof. solve_decision. Defined.

Inductive go (A : Type) : Type :=
| Ok (a : A)
| Err (e : GoError)
| Panic.
Arguments Ok {_} _.
Arguments Err {_} _.
Arguments Panic {_}.

#[global] Instance go_ret : MRet go := @Ok.
#[global] Instance go_bind : MBind go := λ A B f m,
  match m with Ok a => f a | Err e => Err e | Panic => Panic end.

Definition ok_or_panic {A} (o : option A) : go A :=
  match o with Some a => Ok a | None => Panic end.

Lemma Ok_inj {A} (a b : A) : Ok a = Ok b → a = b.
Proof. by intros [= ->]. Qed.

Lemma go_bind_ok {A B} (m : go A) (f : A → go B) b :
  m ≫= f = Ok b ↔ ∃ a, m = Ok a ∧ f a = Ok b.
Proof. destruct m; cbn; (split; [intros H|intros (?&?&?)]); simplify_eq; eauto. Qed.

(** ** Slices *)

Definition len {A} (l : list A) : Z := Z.of_nat (length l).

(** [l[lo:hi]]: bounds checked. The slices of the sources are used at
    [len = cap], so the upper bound of a re-slice is the length. *)
Definition slice {A} (l : list A) (lo hi : Z) : option (list A) :=
  if decide (0 ≤ lo ∧ lo ≤ hi ∧ hi ≤ len l)
  then Some (take (Z.to_nat (hi - lo)) (drop (Z.to_nat lo) l)) else None.

(** [l[i]]: bounds checked. *)
Definition index {A} (l : list A) (i : Z) : option A :=
  if decide (0 ≤ i) then l !! Z.to_nat i else None.

(** [copy(dst[off:], src)]: the destination after the copy and the number of
    elements copied; [off] is in range at every use. *)
Definition copy_at {A} (dst : list A) (off : Z) (src : list A) : list A * Z :=
  let n := Z.to_nat (Z.min (len dst - off) (len src)) in
  (take (Z.to_nat off) dst ++ take n src ++ drop (Z.to_nat off + n) dst, Z.of_nat n).

Lemma len_nonneg {A} (l : list A) : 0 ≤ len l.
Proof. unfold len. lia. Qed.

Lemma len_app {A} (l k : list A) : len (l ++ k) = len l + len k.
Proof. unfold len. rewrite length_app. lia. Qed.

Lemma len_cons {A} (x : A) (l : list A) : len (x :: l) = 1 + len l.
Proof. unfold len. cbn [length]. lia. Qed.

Lemma len_nil {A} : len (@nil A) = 0.
Proof. done. Qed.

Lemma len_snoc {A} (l : list A) (x : A) : len (l ++ [x]) = len l + 1.
Proof. unfold len. rewrite length_app. cbn [length]. lia. Qed.

Lemma len_0_nil {A} (l : list A) : len l = 0 → l = [].
Proof. destruct l; [done|]. rewrite len_cons. pose proof (len_nonneg l). lia. Qed.

Lemma len_pos {A} (l : list A) : l ≠ [] → 0 < len l.
Proof. destruct l; [done|]. rewrite len_cons. pose proof (len_nonneg l). lia. Qed.

Lemma to_nat_len {A} (l : list A) : Z.to_nat (len l) = length l.
Proof. unfold len. lia. Qed.

Lemma take_drop_length {A} k (l : list A) : take k l ++ drop (length (take k l)) l = l.
Proof.
  rewrite length_take. destruct (decide (k ≤ length l)%nat).
  - rewrite Nat.min_l by lia. apply take_drop.
  - rewrite take_ge, drop_ge by lia. apply app_nil_r.
Qed.

Lemma slice_Some {A} (l : list A) lo hi :
  0 ≤ lo → lo ≤ hi → hi ≤ len l →
  slice l lo hi = Some (take (Z.to_nat (hi - lo)) (drop (Z.to_nat lo) l)).
Proof. intros. unfold slice. rewrite decide_True; [done|lia]. Qed.

Lemma slice_len {A} (l k : list A) lo hi :
  slice l lo hi = Some k → len k = hi - lo.
Proof.
  unfold slice, len. case_decide as H; [|done]. intros [= <-].
  rewrite length_take, length_drop. unfold len in H. lia.
Qed.

Lemma copy_at_len {A} (dst : list A) off src :
  0 ≤ off ≤ len dst → len (copy_at dst off src).1 = len dst.
Proof.
  intros H. unfold copy_at, len in *. cbn.
  rewrite !length_app, !length_take, length_drop. lia.
Qed.

(** A copy moves as much as fits. *)
Lemma copy_at_take {A} (dst : list A) off src :
  0 ≤ off ≤ len dst →
  let got := take (Z.to_nat (len dst - off)) src in
  copy_at dst off src = ((copy_at dst off got).1, len got).
Proof.
  intros H got. assert (Hg : len got = Z.min (len dst - off) (len src)).
  { unfold got, len in *. rewrite length_take. lia. }
  unfold copy_at. cbn [fst]. rewrite <- Hg, Z.min_r, to_nat_len by lia.
  f_equal. f_equal. f_equal. unfold got. rewrite take_take. f_equal.
  rewrite length_take. unfold len in *. lia.
Qed.

(** A property of all elements passes to any list of some of them. *)
Lemma Forall_elem_sub {A} (P : A → Prop) (l k : list A) :
  (∀ x, x ∈ k → x ∈ l) → Forall P l → Forall P k.
Proof. intros Hs. rewrite !list.Forall_forall. eauto. Qed.

(** ** Bytes and big-endian words *)

Definition byte_to_Z (b : byte) : Z := Z.of_N (Byte.to_N b).
Definition byte_of_Z (z : Z) : byte := default x00 (Byte.of_N (Z.to_N (z mod 256))).

#[global] Instance byte_EqDecision : EqDecision byte := Byte.byte_eq_dec.
#[global] Instance byte_Countable : Countable byte.
Proof.
  refine (inj_countable Byte.to_N Byte.of_N _). apply Byte.of_to_N.
Defined.

Lemma byte_to_Z_range b : is_u8 (byte_to_Z b).
Proof.
  unfold is_u8, byte_to_Z. pose proof (Byte.to_N_bounded b). lia.
Qed.

Lemma byte_to_of_Z z : byte_to_Z (byte_of_Z z) = z mod 256.
Proof.
  unfold byte_to_Z, byte_of_Z.
  pose proof (Z.mod_pos_bound z 256 ltac:(lia)) as Hb.
  destruct (Byte.of_N (Z.to_N (z mod 256))) as [b|] eqn:E.
  - apply Byte.to_of_N in E. cbn. rewrite E. lia.
  - apply Byte.of_N_None_iff in E. lia.
Qed.

Lemma byte_to_of_Z_small z : is_u8 z → byte_to_Z (byte_of_Z z) = z.
Proof. intros. rewrite byte_to_of_Z. by apply u8_small. Qed.

Lemma byte_of_to_Z b : byte_of_Z (byte_to_Z b) = b.
Proof.
  unfold byte_of_Z. rewrite Z.mod_small by (apply byte_to_Z_range).
  unfold byte_to_Z. by rewrite N2Z.id, Byte.of_to_N.
Qed.

Lemma byte_to_Z_inj b c : byte_to_Z b = byte_to_Z c → b = c.
Proof. intros H. by rewrite <- (byte_of_to_Z b), H, byte_of_to_Z. Qed.

(** [binary.BigEndian.PutUint16] and [PutUint32]: the bytes written. *)
Definition put_be16 (z : Z) : list byte :=
  [byte_of_Z (Z.shiftr z 8); byte_of_Z z].
Definition put_be32 (z : Z) : list byte :=
  [byte_of_Z (Z.shiftr z 24); byte_of_Z (Z.shiftr z 16);
   byte_of_Z (Z.shiftr z 8); byte_of_Z z].

(** [binary.BigEndian.Uint16] and [Uint32]: panic on a short slice. *)
Definition be16 (bs : list byte) : option Z :=
  match bs with
  | b0 :: b1 :: _ => Some (Z.lor (byte_to_Z b1) (Z.shiftl (byte_to_Z b0) 8))
  | _ => None
  end.
Definition be32 (bs : list byte) : option Z :=
  match bs with
  | b0 :: b1 :: b2 :: b3 :: _ =>
      Some (Z.lor (Z.lor (Z.lor (byte_to_Z b3) (Z.shiftl (byte_to_Z b2) 8))
                         (Z.shiftl (byte_to_Z b1) 16))
                  (Z.shiftl (byte_to_Z b0) 24))
  | _ => None
  end.

Lemma lor_shiftl_add a b n :
  0 ≤ n → 0 ≤ a < 2 ^ n → Z.lor a (Z.shiftl b n) = a + b * 2 ^ n.
Proof.
  intros Hn Ha. rewrite <- Z.shiftl_mul_pow2 by done. symmetry.
  apply Z.add_nocarry_lor, Z.bits_inj'. intros i Hi.
  rewrite Z.land_spec, Z.bits_0, Z.shiftl_spec by done.
  destruct (decide (i < n)).
  - rewrite (Z.testbit_neg_r b) by lia. apply andb_false_r.
  - destruct (decide (a = 0)) as [->|]; [by rewrite Z.bits_0|].
    rewrite (Z.bits_above_log2 a); [done|lia|].
    apply Z.log2_lt_pow2; [lia|]. eapply Z.lt_le_trans; [apply Ha|].
    apply Z.pow_le_mono_r; lia.
Qed.

Lemma lxor_below n a b : 0 ≤ n → 0 ≤ a < 2 ^ n → 0 ≤ b < 2 ^ n → 0 ≤ Z.lxor a b < 2 ^ n.
Proof.
  intros Hn Ha Hb. assert (Hx : 0 ≤ Z.lxor a b) by (apply Z.lxor_nonneg; lia). split; [done|].
  destruct (decide (Z.lxor a b = 0)) as [->|Hne]; [lia|]. destruct (decide (n = 0)) as [->|Hn0].
  { assert (a = 0 ∧ b = 0) as [-> ->] by (change (2 ^ 0) with 1 in *; lia). done. }
  assert (Hl : ∀ x, 0 ≤ x < 2 ^ n → Z.log2 x < n).
  { intros x Hxx. destruct (decide (x = 0)) as [->|]; [cbn; lia|]. apply Z.log2_lt_pow2; lia. }
  apply Z.log2_lt_pow2; [lia|]. pose proof (Z.log2_lxor a b ltac:(lia) ltac:(lia)). pose proof (Hl a Ha). pose proof (Hl b Hb). lia.
Qed.

Lemma lor4_add a b c d :
  is_u8 a → is_u8 b → is_u8 c → is_u8 d →
  Z.lor (Z.lor (Z.lor a (Z.shiftl b 8)) (Z.shiftl c 16)) (Z.shiftl d 24)
  = a + b * 256 + c * 65536 + d * 16777216.
Proof.
  unfold is_u8. intros. rewrite (lor_shiftl_add a b 8) by lia.
  rewrite (lor_shiftl_add _ c 16) by lia. rewrite (lor_shiftl_add _ d 24) by lia. lia.
Qed.

Lemma be16_put z rest : is_u16 z → be16 (put_be16 z ++ rest) = Some z.
Proof.
  unfold is_u16. intros H. cbn [be16 put_be16 app]. rewrite !byte_to_of_Z.
  rewrite lor_shiftl_add by (try apply Z.mod_pos_bound; lia).
  rewrite Z.shiftr_div_pow2 by lia. f_equal. change (2 ^ 8) with 256.
  rewrite (Z.mod_small (z / 256)) by dlia. dlia.
Qed.

Lemma be32_put z rest : is_u32 z → be32 (put_be32 z ++ rest) = Some z.
Proof.
  unfold is_u32. intros H. cbn [be32 put_be32 app]. rewrite !byte_to_of_Z.
  rewrite lor4_add by (unfold is_u8; apply Z.mod_pos_bound; lia).
  rewrite !Z.shiftr_div_pow2 by lia. f_equal.
  change (2 ^ 8) with 256. change (2 ^ 16) with 65536. change (2 ^ 24) with 16777216.
  rewrite (Z.mod_small (z / 16777216)) by dlia. dlia.
Qed.

Lemma be16_range bs z : be16 bs = Some z → is_u16 z.
Proof.
  destruct bs as [|b0 [|b1 ?]]; try done. cbn. intros [= <-].
  pose proof (byte_to_Z_range b0). pose proof (byte_to_Z_range b1).
  unfold is_u8, is_u16 in *. rewrite lor_shiftl_add by lia. lia.
Qed.

Lemma be32_range bs z : be32 bs = Some z → is_u32 z.
Proof.
  destruct bs as [|b0 [|b1 [|b2 [|b3 ?]]]]; try done. cbn. intros [= <-].
  pose proof (byte_to_Z_range b0). pose proof (byte_to_Z_range b1).
  pose proof (byte_to_Z_range b2). pose proof (byte_to_Z_range b3).
  rewrite lor4_add by done. unfold is_u8, is_u32 in *. lia.
Qed.

(** ** Readers

    An [io.Reader] is the bytes it delivers and the error it ends with; that is
    all [io.ReadFull] depends on, whatever the sizes of the single reads. *)

Record Stream := mkStream { sdata : list byte; serr : GoError }.

(** [io.ReadFull(r, make([]byte, n))]: the bytes read, the error, and the reader
    afterwards. *)
Definition read_full (r : Stream) (n : Z) : list byte * option GoError * Stream :=
  if decide (n ≤ len (sdata r)) then
    (take (Z.to_nat n) (sdata r), None, mkStream (drop (Z.to_nat n) (sdata r)) (serr r))
  else
    (sdata r,
     Some (match sdata r, serr r with _ :: _, EOF => ErrUnexpectedEOF | _, e => e end),
     mkStream [] (serr r)).

(** ** Writers

    An [io.Writer]: one [Write] gives the writer afterwards and the error. A client
    is written against [WriterOps] and verified against [Writer]: as long as the
    bytes fit, they are appended to the output and no error is returned. *)

Class WriterOps (W : Type) : Type := {
  write : W → list byte → go (W * option GoError)
}.

Class Writer (W : Type) `{!WriterOps W} : Type := {
  output : W → list byte;
  fits : W → Z → Prop;
  write_fits w bs n :
    0 ≤ n → fits w (len bs + n) →
    ∃ w', write w bs = Ok (w', None) ∧ output w' = output w ++ bs ∧ fits w' n
}.

(** [if _, err := w.Write(bs); err != nil { return err }]. *)
Definition write_or {W} `{WriterOps W} (w : W) (bs : list byte) : go W :=
  match write w bs with
  | Ok (w, None) => Ok w
  | Ok (_, Some e) => Err e
  | Err e => Err e
  | Panic => Panic
  end.

Lemma write_or_fits `{Writer W} w bs n :
  0 ≤ n → fits w (len bs + n) →
  ∃ w', write_or w bs = Ok w' ∧ output w' = output w ++ bs ∧ fits w' n.
Proof.
  intros Hn Hf. destruct (write_fits w bs n Hn Hf) as (w' & E & ? & ?).
  exists w'. unfold write_or. by rewrite E.
Qed.

(** A [bytes.Buffer]-like writer takes everything. *)
#[global] Instance bytes_WriterOps : WriterOps (list byte) :=
  {| write w bs := Ok (w ++ bs, None) |}.
#[global] Program Instance bytes_Writer : Writer (list byte) :=
  {| output w := w; fits _ _ := True |}.
Next Obligation. intros w bs n _ _. by eexists. Qed.

(** ** Automation *)

Create HintDb golib.
Create Rewrite HintDb golen.
#[export] Hint Resolve len_nonneg u32_range u16_range : golib.
#[export] Hint Rewrite @len_app @len_cons @len_nil : golen.
#[export] Hint Rewrite @length_app @length_take @length_drop @length_replicate : golen.

(** Split every conjunction and existential of the context and clean up. *)
Ltac inv_go :=
  repeat match goal with
  | H : _ ≫= _ = Ok _ |- _ => apply go_bind_ok in H
  | H : ∃ _, _ |- _ => destruct H
  | H : _ ∧ _ |- _ => destruct H
  | H : Ok _ = Ok _ |- _ => injection H as H
  | H : Some _ = Some _ |- _ => injection H as H
  | H : (_, _) = (_, _) |- _ => injection H as H
  end; subst; try done.

(** Lengths to linear arithmetic on [nat] and [Z]. *)
Ltac len_lia :=
  unfold len in *; autorewrite with golen in *; cbn [length] in *; lia.

(** [Forall] over a concrete list, each element by [tac]. *)
Ltac solve_Forall tac := repeat (apply Forall_cons_2; [tac|]); apply Forall_nil_2.
