(* ===== verification/Net.v ===== *)
(** * Network names: addresses, ports and destinations

    Models [common/net/address.go], [port.go], [destination.go] and [network.go]:
    the address sum type with its constructors and parsers, port ranges and lists,
    and destinations. A Go string is the list of its bytes. The parts of the Go
    standard library the sources call ([net.ParseIP], [net.IP.String],
    [strings.TrimSpace], [strconv.ParseUint], [strconv.Itoa]) are the functions of
    module [GoText]. *)

From S2P Require Import Prelude.

(** [s2b "abc"] is a Go string literal. *)
Definition s2b (s : string) : list byte := String.list_byte_of_string s.

Definition chr (z : Z) : byte := byte_of_Z z.

(** ** Text functions of the Go standard library *)
Module GoText.

Definition is_digit (b : byte) : bool :=
  bool_decide (48 ≤ byte_to_Z b ≤ 57).

(** [strconv.Itoa] on a non-negative integer, least significant digit last. *)
Fixpoint itoa_aux (fuel : nat) (z : Z) (acc : list byte) : list byte :=
  match fuel with
  | O => acc
  | S fuel =>
      let acc := byte_of_Z (48 + z mod 10) :: acc in
      if decide (z < 10) then acc else itoa_aux fuel (z / 10) acc
  end.
Definition itoa (z : Z) : list byte := itoa_aux 20 z [].

(** The value of a string of decimal digits. *)
Fixpoint digits_value (acc : Z) (s : list byte) : option Z :=
  match s with
  | [] => Some acc
  | c :: s => if is_digit c then digits_value (acc * 10 + (byte_to_Z c - 48)) s else None
  end.

(** [strconv.ParseUint(s, 10, 32)], [None] for its errors. *)
Definition parse_uint32 (s : list byte) : option Z :=
  match s with
  | [] => None
  | _ =>
      match digits_value 0 s with
      | Some v => if decide (v < 4294967296) then Some v else None
      | None => None
      end
  end.

(** The UTF-8 encodings of the runes [unicode.IsSpace] accepts. *)
Definition space_runes : list (list byte) :=
  [[x09]; [x0a]; [x0b]; [x0c]; [x0d]; [x20]; [xc2; x85]; [xc2; xa0]; [xe1; x9a; x80]]
  ++ ((λ i, [xe2; x80; byte_of_Z (128 + Z.of_nat i)]) <$> seq 0 11)
  ++ [[xe2; x80; xa8]; [xe2; x80; xa9]; [xe2; x80; xaf]; [xe2; x81; x9f]; [xe3; x80; x80]].

Fixpoint strip_prefix (p s : list byte) : option (list byte) :=
  match p, s with
  | [], _ => Some s
  | a :: p, b :: s => if decide (a = b) then strip_prefix p s else None
  | _ :: _, [] => None
  end.

Definition strip_any (ps : list (list byte)) (s : list byte) : option (list byte) :=
  foldr (λ p r, match strip_prefix p s with Some s' => Some s' | None => r end) None ps.

Fixpoint trim_left (ps : list (list byte)) (fuel : nat) (s : list byte) : list byte :=
  match fuel with
  | O => s
  | S fuel => match strip_any ps s with Some s' => trim_left ps fuel s' | None => s end
  end.

(** [strings.TrimSpace]. *)
Definition trim_space (s : list byte) : list byte :=
  let s := trim_left space_runes (length s) s in
  reverse (trim_left (reverse <$> space_runes) (length s) (reverse s)).

(** [netip.parseIPv4Fields]: [val] and [digLen] of the current octet, the octets
    read so far. [prev] is the preceding byte. *)
Fixpoint parse_ipv4_fields (s : list byte) (prev : option byte) (val digLen : Z)
    (fields : list byte) : option (list byte) :=
  match s with
  | [] =>
      if decide (length fields < 3)%nat then None
      else Some (fields ++ [byte_of_Z val])
  | c :: s' =>
      if is_digit c then
        if decide (digLen = 1 ∧ val = 0) then None
        else
          let val := val * 10 + (byte_to_Z c - 48) in
          if decide (255 < val) then None
          else parse_ipv4_fields s' (Some c) val (digLen + 1) fields
      else if decide (c = x2e) then
        if decide (prev = None ∨ s' = [] ∨ prev = Some x2e) then None
        else if decide (length fields = 3%nat) then None
        else parse_ipv4_fields s' (Some c) 0 0 (fields ++ [byte_of_Z val])
      else None
  end.

Definition hex_value (c : byte) : option Z :=
  let z := byte_to_Z c in
  if decide (48 ≤ z ≤ 57) then Some (z - 48)
  else if decide (97 ≤ z ≤ 102) then Some (z - 97 + 10)
  else if decide (65 ≤ z ≤ 70) then Some (z - 65 + 10)
  else None.

(** The hexadecimal group at the head of [s]: its value, its length and the rest;
    [None] when it has more than four digits. *)
Fixpoint hex_group (s : list byte) (off acc : Z) : option (Z * Z * list byte) :=
  match s with
  | [] => Some (acc, off, [])
  | c :: s' =>
      match hex_value c with
      | None => Some (acc, off, s)
      | Some d => if decide (3 < off) then None else hex_group s' (off + 1) (acc * 16 + d)
      end
  end.

(** The loop of [netip.parseIPv6]: [s] the rest of the text, [ip] the bytes so
    far, [ellipsis] their number when [::] was met. Returns the bytes and the
    ellipsis once the text is used up. *)
Fixpoint parse_ipv6_loop (fuel : nat) (s ip : list byte) (ellipsis : option nat)
    : option (list byte * option nat) :=
  match fuel with
  | O => None
  | S fuel =>
      if decide (16 ≤ length ip)%nat then
        match s with [] => Some (ip, ellipsis) | _ => None end
      else
      match hex_group s 0 0 with
      | None => None
      | Some (acc, off, rest) =>
          if decide (off = 0) then None
          else
          match rest with
          | [] => Some (ip ++ [byte_of_Z (Z.shiftr acc 8); byte_of_Z acc], ellipsis)
          | c :: rest =>
              if decide (c = x2e) then
                if decide (ellipsis = None ∧ length ip ≠ 12%nat) then None
                else if decide (16 < length ip + 4)%nat then None
                else
                  match parse_ipv4_fields s None 0 0 [] with
                  | Some f => Some (ip ++ f, ellipsis)
                  | None => None
                  end
              else
                let ip := ip ++ [byte_of_Z (Z.shiftr acc 8); byte_of_Z acc] in
                if decide (c ≠ x3a) then None
                else
                  match rest with
                  | [] => None
                  | d :: rest' =>
                      if decide (d ≠ x3a) then parse_ipv6_loop fuel rest ip ellipsis
                      else
                        match ellipsis with
                        | Some _ => None
                        | None =>
                            match rest' with
                            | [] => Some (ip, Some (length ip))
                            | _ => parse_ipv6_loop fuel rest' ip (Some (length ip))
                            end
                        end
                  end
          end
      end
  end.

Definition parse_ipv6 (s : list byte) : option (list byte) :=
  let expand r :=
    match r with
    | None => None
    | Some (ip, ellipsis) =>
        if decide (length ip < 16)%nat then
          match ellipsis with
          | None => None
          | Some e => Some (take e ip ++ replicate (16 - length ip) x00 ++ drop e ip)
          end
        else match ellipsis with Some _ => None | None => Some ip end
    end in
  match s with
  | c :: d :: s' =>
      if decide (c = x3a ∧ d = x3a) then
        match s' with
        | [] => Some (replicate 16 x00)
        | _ => expand (parse_ipv6_loop 9 s' [] (Some 0%nat))
        end
      else expand (parse_ipv6_loop 9 s [] None)
  | _ => expand (parse_ipv6_loop 9 s [] None)
  end.

(** The first of [.], [:] and [%] decides the syntax, as in [netip.ParseAddr]. *)
Fixpoint first_sep (s : list byte) : option byte :=
  match s with
  | [] => None
  | c :: s =>
      if decide (c = x2e ∨ c = x3a ∨ c = x25) then Some c else first_sep s
  end.

Definition v4_mapped_prefix : list byte := replicate 10 x00 ++ [xff; xff].

(** [net.ParseIP]: sixteen bytes, or [None] for nil. A zone makes it nil. *)
Definition ParseIP (s : list byte) : option (list byte) :=
  match first_sep s with
  | None => None
  | Some c =>
      if decide (c = x2e) then
        match parse_ipv4_fields s None 0 0 [] with
        | Some f => Some (v4_mapped_prefix ++ f)
        | None => None
        end
      else if decide (c = x3a) then
        if decide (x25 ∈ s) then None else parse_ipv6 s
      else None
  end.

(** [netip.Addr.String] for four bytes. *)
Definition ipv4_string (a : list byte) : list byte :=
  match (λ b, itoa (byte_to_Z b)) <$> a with
  | [f0; f1; f2; f3] => f0 ++ [x2e] ++ f1 ++ [x2e] ++ f2 ++ [x2e] ++ f3
  | _ => []
  end.

End GoText.
Import GoText.

(** ** Addresses ([address.go]) *)

Abbreviation AddressFamily := Z (only parsing).
Definition AddressFamilyIPv4 : AddressFamily := 0.
Definition AddressFamilyIPv6 : AddressFamily := 1.
Definition AddressFamilyDomain : AddressFamily := 2.

Definition IsIPv4 (af : AddressFamily) : bool := bool_decide (af = AddressFamilyIPv4).
Definition IsIPv6 (af : AddressFamily) : bool := bool_decide (af = AddressFamilyIPv6).
Definition IsIP (af : AddressFamily) : bool :=
  bool_decide (af = AddressFamilyIPv4) || bool_decide (af = AddressFamilyIPv6).
Definition IsDomain (af : AddressFamily) : bool := bool_decide (af = AddressFamilyDomain).

(** The three implementations of the [Address] interface. A nil interface value
    is [None] of [option Address]. *)
Inductive Address : Type :=
| ipv4Address (a : list byte)
| ipv6Address (a : list byte)
| domainAddress (d : list byte).

#[global] Instance Address_eq_dec : EqDecision Address.
Proof. solve_decision. Defined.

(** The arrays [[4]byte] and [[16]byte] have their lengths. *)
Definition wf_address (a : Address) : Prop :=
  match a with
  | ipv4Address l => length l = 4%nat
  | ipv6Address l => length l = 16%nat ∧ take 12 l ≠ v4_mapped_prefix
  | domainAddress _ => True
  end.

Definition Family (a : Address) : AddressFamily :=
  match a with
  | ipv4Address _ => AddressFamilyIPv4
  | ipv6Address _ => AddressFamilyIPv6
  | domainAddress _ => AddressFamilyDomain
  end.

Definition IP (a : Address) : go (list byte) :=
  match a with
  | ipv4Address l | ipv6Address l => Ok l
  | domainAddress _ => Panic
  end.

Definition Domain (a : Address) : go (list byte) :=
  match a with
  | ipv4Address _ | ipv6Address _ => Panic
  | domainAddress d => Ok d
  end.

Definition DomainAddress (domain : list byte) : Address := domainAddress domain.

(** [IPAddress]: nil for a slice of any other length. *)
Definition IPAddress (ip : list byte) : option Address :=
  if decide (length ip = 4%nat) then Some (ipv4Address ip)
  else if decide (length ip = 16%nat) then
    if decide (take 10 ip = replicate 10 x00 ∧ ip !! 10%nat = Some xff ∧ ip !! 11%nat = Some xff)
    then Some (ipv4Address (take 4 (drop 12 ip)))
    else Some (ipv6Address ip)
  else None.

Definition isAlphaNum (c : byte) : bool :=
  let z := byte_to_Z c in
  bool_decide (48 ≤ z ≤ 57) || bool_decide (97 ≤ z ≤ 122) || bool_decide (65 ≤ z ≤ 90).

(** [ParseAddress]. The text of length one made of an opening bracket is not
    bracketed: [addr[0] == '['] and [addr[len-1] == ']'] cannot both hold. *)
Definition ParseAddress (addr : list byte) : option Address :=
  let addr :=
    match list.head addr, list.last addr with
    | Some x5b, Some x5d => take (length addr - 2) (drop 1 addr)
    | _, _ => addr
    end in
  let addr :=
    match list.head addr, list.last addr with
    | Some c, Some d => if negb (isAlphaNum c) || negb (isAlphaNum d) then trim_space addr else addr
    | _, _ => addr
    end in
  match ParseIP addr with
  | Some ip => IPAddress ip
  | None => Some (DomainAddress addr)
  end.

(** The generated [IPOrDomain] message: the oneof, nil when unset. *)
Inductive IPOrDomain : Type :=
| IPOrDomain_Ip (ip : list byte)
| IPOrDomain_Domain (domain : list byte)
| IPOrDomain_Unset.

Definition AsAddress (d : option IPOrDomain) : go (option Address) :=
  match d with
  | None => Ok None
  | Some (IPOrDomain_Ip ip) => Ok (IPAddress ip)
  | Some (IPOrDomain_Domain domain) => Ok (Some (DomainAddress domain))
  | Some IPOrDomain_Unset => Panic
  end.

Definition NewIPOrDomain (addr : Address) : go IPOrDomain :=
  if decide (Family addr = AddressFamilyDomain) then
    d ← Domain addr; Ok (IPOrDomain_Domain d)
  else if decide (Family addr = AddressFamilyIPv4 ∨ Family addr = AddressFamilyIPv6) then
    ip ← IP addr; Ok (IPOrDomain_Ip ip)
  else Panic.

(** ** Ports ([port.go]) *)

Abbreviation Port := Z (only parsing).

(** [PortFromBytes]: the caller guarantees two bytes; a shorter slice panics. *)
Definition PortFromBytes (port : list byte) : go Port := ok_or_panic (be16 port).

Definition PortFromInt (val : Z) : go Port :=
  if decide (65535 < val) then Err (ErrMsg "invalid port range: ") else Ok (u16 val).

Definition PortFromString (s : list byte) : go Port :=
  match parse_uint32 s with
  | None => Err (ErrMsg "invalid port range: ")
  | Some val => PortFromInt (u32 val)
  end.

Definition Port_String (p : Port) : list byte := itoa p.

(** The generated [PortRange] message, its bounds [uint32]. *)
Record PortRange := mkPortRange { pr_From : Z; pr_To : Z }.

Definition FromPort (p : PortRange) : Port := u16 (pr_From p).
Definition ToPort (p : PortRange) : Port := u16 (pr_To p).
Definition PortRange_Contains (p : PortRange) (port : Port) : bool :=
  bool_decide (FromPort p ≤ port) && bool_decide (port ≤ ToPort p).
Definition SinglePortRange (p : Port) : PortRange := mkPortRange (u32 p) (u32 p).

Record MemoryPortRange := mkMemoryPortRange { mpr_From : Port; mpr_To : Port }.

Definition MemoryPortRange_Contains (r : MemoryPortRange) (port : Port) : bool :=
  bool_decide (mpr_From r ≤ port) && bool_decide (port ≤ mpr_To r).

Definition PortListFromProto (l : list PortRange) : list MemoryPortRange :=
  (λ r, mkMemoryPortRange (u16 (pr_From r)) (u16 (pr_To r))) <$> l.

Fixpoint MemoryPortList_Contains (mpl : list MemoryPortRange) (port : Port) : bool :=
  match mpl with
  | [] => false
  | pr :: mpl => if MemoryPortRange_Contains pr port then true else MemoryPortList_Contains mpl port
  end.

(** The inner loop of [PortList.Ports]: [for i := From; i <= To; i++] on
    [uint32]. [None] is the loop still running when the fuel is spent. *)
Fixpoint Ports_range (fuel : nat) (i to : Z) : option (list Z) :=
  match fuel with
  | O => None
  | S fuel =>
      if decide (i ≤ to) then
        match Ports_range fuel (i +32 1) to with
        | Some l => Some (i :: l)
        | None => None
        end
      else Some []
  end.

Fixpoint Ports (fuel : nat) (l : list PortRange) : option (list Z) :=
  match l with
  | [] => Some []
  | r :: l =>
      match Ports_range fuel (pr_From r) (pr_To r), Ports fuel l with
      | Some a, Some b => Some (a ++ b)
      | _, _ => None
      end
  end.

(** ** Networks ([network.go]) and destinations ([destination.go]) *)

Inductive Network := Network_Unknown | Network_TCP | Network_UDP | Network_UNIX.

#[global] Instance Network_eq_dec : EqDecision Network.
Proof. solve_decision. Defined.

(** The numbers of the generated enumeration ([network.proto]). *)
Definition Network_number (n : Network) : Z :=
  match n with
  | Network_Unknown => 0 | Network_TCP => 2 | Network_UDP => 3 | Network_UNIX => 4
  end.

Definition SystemString (n : Network) : list byte :=
  match n with
  | Network_TCP => s2b "tcp"
  | Network_UDP => s2b "udp"
  | Network_UNIX => s2b "unix"
  | Network_Unknown => s2b "unknown"
  end.

Fixpoint HasNetwork (l : list Network) (network : Network) : bool :=
  match l with
  | [] => false
  | value :: l => if decide (value = network) then true else HasNetwork l network
  end.

Record Destination := mkDestination {
  d_Address : option Address;
  d_Port : Port;
  d_Network : Network
}.

#[global] Instance Destination_eq_dec : EqDecision Destination.
Proof. solve_decision. Defined.

Definition TCPDestination (address : option Address) (port : Port) : Destination :=
  mkDestination address port Network_TCP.
Definition UDPDestination (address : option Address) (port : Port) : Destination :=
  mkDestination address port Network_UDP.
Definition UnixDestination (address : option Address) : Destination :=
  mkDestination address 0 Network_UNIX.

(** The dynamic types of [net.Addr]. *)
Inductive NetAddress : Type :=
| TCPAddr (ip : list byte) (port : Z)
| UDPAddr (ip : list byte) (port : Z)
| UnixAddr (name net : list byte)
| OtherAddr.

Definition DestinationFromAddr (addr : NetAddress) : go Destination :=
  match addr with
  | TCPAddr ip port => Ok (TCPDestination (IPAddress ip) (u16 port))
  | UDPAddr ip port => Ok (UDPDestination (IPAddress ip) (u16 port))
  | UnixAddr name _ => Ok (UnixDestination (Some (DomainAddress name)))
  | OtherAddr => Panic
  end.

(** [RawNetAddr]: nil when the family does not fit the network; a nil address is
    a nil-interface call. *)
Definition RawNetAddr (d : Destination) : go (option NetAddress) :=
  match d_Network d with
  | Network_Unknown => Ok None
  | nw =>
      match d_Address d with
      | None => Panic
      | Some a =>
          match nw with
          | Network_TCP =>
              if IsIP (Family a) then ip ← IP a; Ok (Some (TCPAddr ip (d_Port d))) else Ok None
          | Network_UDP =>
              if IsIP (Family a) then ip ← IP a; Ok (Some (UDPAddr ip (d_Port d))) else Ok None
          | _ =>
              if IsDomain (Family a) then
                s ← Domain a; Ok (Some (UnixAddr s (SystemString nw)))
              else Ok None
          end
      end
  end.

Definition IsValid (d : Destination) : bool :=
  bool_decide (d_Network d ≠ Network_Unknown).

(** ** Lemmas *)

Lemma IPAddress_wf ip a : IPAddress ip = Some a → wf_address a.
Proof.
  unfold IPAddress. repeat case_decide; intros [= <-]; cbn; try done.
  - rewrite length_take, length_drop. lia.
  - split; [done|]. intros E. apply H1. unfold v4_mapped_prefix in E.
    rewrite <- (take_drop 12 ip), E. done.
Qed.

(** The bytes of a well-formed IP address make the same address again. *)
Lemma IPAddress_IP a ip : wf_address a → IP a = Ok ip → IPAddress ip = Some a.
Proof.
  destruct a as [l|l|d]; cbn; intros H [= <-].
  - unfold IPAddress. by rewrite decide_True.
  - destruct H as [H Hne]. unfold IPAddress.
    rewrite decide_False by lia. rewrite decide_True by done.
    rewrite decide_False; [done|]. intros (Ht & H10 & H11). apply Hne.
    unfold v4_mapped_prefix. rewrite (take_S_r l 11 xff) by done.
    rewrite (take_S_r l 10 xff) by done. by rewrite Ht.
Qed.

(** ** Properties of the parsers *)

Lemma is_digit_spec b : is_digit b = true ↔ 48 ≤ byte_to_Z b ≤ 57.
Proof. unfold is_digit. by rewrite bool_decide_eq_true. Qed.

Lemma digits_value_app acc s t v :
  digits_value acc s = Some v → digits_value acc (s ++ t) = digits_value v t.
Proof.
  revert acc. induction s as [|c s IH]; intros acc; cbn; [by intros [= ->]|].
  destruct (is_digit c); [apply IH|done].
Qed.

(** Printing a number and reading its digits back gives the number. *)
Lemma digits_value_itoa_aux fuel z s :
  0 ≤ z < 10 ^ Z.of_nat fuel →
  digits_value 0 (itoa_aux fuel z s) = digits_value z s.
Proof.
  revert z s. induction fuel as [|fuel IH]; intros z s Hz.
  { change (10 ^ Z.of_nat 0) with 1 in Hz. cbn. f_equal. lia. }
  rewrite Nat2Z.inj_succ, Z.pow_succ_r in Hz by lia.
  assert (Hd : byte_to_Z (byte_of_Z (48 + z mod 10)) = 48 + z mod 10).
  { apply byte_to_of_Z_small. unfold is_u8. dlia. }
  assert (Hdig : is_digit (byte_of_Z (48 + z mod 10)) = true).
  { apply is_digit_spec. rewrite Hd. dlia. }
  cbn [itoa_aux]. case_decide as Hlt.
  - cbn [digits_value]. rewrite Hdig, Hd. f_equal. dlia.
  - rewrite IH by dlia. cbn [digits_value]. rewrite Hdig, Hd. f_equal. dlia.
Qed.

Lemma itoa_aux_nonempty fuel z s : itoa_aux (S fuel) z s ≠ [].
Proof.
  revert z s. induction fuel as [|fuel IH]; intros z s; cbn; case_decide; try done. apply IH.
Qed.

Lemma parse_uint32_itoa z : is_u32 z → parse_uint32 (itoa z) = Some z.
Proof.
  intros Hz. unfold parse_uint32, itoa.
  destruct (itoa_aux 20 z []) as [|c s] eqn:E.
  { by apply itoa_aux_nonempty in E. }
  rewrite <- E, digits_value_itoa_aux; unfold is_u32 in Hz; [|lia].
  cbn. by rewrite decide_True by lia.
Qed.

(** A port printed in decimal parses back to the same port. *)
Theorem PortFromString_String p :
  is_u16 p → PortFromString (Port_String p) = Ok p.
Proof.
  intros Hp. unfold PortFromString, Port_String.
  rewrite parse_uint32_itoa by (unfold is_u32, is_u16 in *; lia).
  rewrite u32_small by (unfold is_u32, is_u16 in *; lia).
  unfold PortFromInt. rewrite decide_False by (unfold is_u16 in Hp; lia).
  by rewrite u16_small.
Qed.

Lemma PortFromString_String_witness :
  is_u16 65535 ∧ PortFromString (Port_String 65535) = Ok 65535.
Proof. split; [unfold is_u16; lia|]. apply (PortFromString_String 65535). unfold is_u16; lia. Defined.

(** The decimal text of one byte, as the octet parser sees it. *)
Lemma parse_ipv4_fields_octet b rest prev fields :
  parse_ipv4_fields (itoa (byte_to_Z b) ++ rest) prev 0 0 fields =
  parse_ipv4_fields rest (Some (byte_of_Z (48 + byte_to_Z b mod 10))) (byte_to_Z b)
    (len (itoa (byte_to_Z b))) fields.
Proof. destruct b; reflexivity. Qed.

Lemma first_sep_octet b rest : first_sep (itoa (byte_to_Z b) ++ rest) = first_sep rest.
Proof. destruct b; reflexivity. Qed.

Lemma octet_not_dot b : Some (byte_of_Z (48 + byte_to_Z b mod 10)) ≠ Some x2e.
Proof. destruct b; discriminate. Qed.

(** First and last characters of the text are digits, so nothing is trimmed. *)
Lemma octet_ends b :
  match list.head (itoa (byte_to_Z b)), list.last (itoa (byte_to_Z b)) with
  | Some c, Some d => isAlphaNum c && isAlphaNum d && bool_decide (c ≠ x5b)
  | _, _ => false
  end = true.
Proof. destruct b; reflexivity. Qed.

Lemma octet_head b :
  ∃ c s, itoa (byte_to_Z b) = c :: s ∧ isAlphaNum c = true ∧ c ≠ x5b.
Proof.
  pose proof (octet_ends b) as H. destruct (itoa (byte_to_Z b)) as [|c s]; [done|].
  exists c, s. split; [done|]. destruct (list.last (c :: s)); [|done].
  cbn in H. apply andb_prop in H as [H ?%bool_decide_eq_true].
  by apply andb_prop in H as [? _].
Qed.

Lemma octet_last b : ∃ s d, itoa (byte_to_Z b) = s ++ [d] ∧ isAlphaNum d = true.
Proof.
  pose proof (octet_ends b) as H. destruct (list.last _) as [d|] eqn:E.
  - apply last_Some in E as [s E]. exists s, d. split; [done|].
    destruct (list.head _); [|done]. apply andb_prop in H as [H _].
    by apply andb_prop in H as [_ ?].
  - by destruct (list.head _).
Qed.

Lemma parse_ipv4_fields_text a b c d :
  parse_ipv4_fields (ipv4_string [a; b; c; d]) None 0 0 [] = Some [a; b; c; d].
Proof.
  assert (Hstep : ∀ x y rest prev fields,
    length fields ≠ 3%nat →
    parse_ipv4_fields (itoa (byte_to_Z x) ++ x2e :: itoa (byte_to_Z y) ++ rest) prev 0 0 fields =
    parse_ipv4_fields (itoa (byte_to_Z y) ++ rest) (Some x2e) 0 0 (fields ++ [x])).
  { intros x y rest prev fields Hf. rewrite parse_ipv4_fields_octet.
    destruct (octet_head y) as (c0 & s & Ey & _). rewrite Ey.
    cbn [parse_ipv4_fields app]. change (is_digit x2e) with false. cbn match.
    rewrite (decide_True (P := x2e = x2e)) by done.
    rewrite decide_False by (pose proof (octet_not_dot x); intros [?|[?|?]]; done).
    rewrite decide_False by done. by rewrite byte_of_to_Z. }
  unfold ipv4_string. cbn [fmap list_fmap app].
  rewrite !Hstep by (cbn; lia).
  rewrite <- (app_nil_r (itoa (byte_to_Z d))) at 1.
  rewrite Hstep by (cbn; lia). rewrite parse_ipv4_fields_octet.
  cbn. by rewrite byte_of_to_Z.
Qed.

(** Parsing the dotted text of an IPv4 address gives that address back, for
    every one of the 2^32 addresses: no trimming, bracket or domain case
    interferes. *)
Lemma ParseAddress_ipv4_string a b c d :
  ParseAddress (ipv4_string [a; b; c; d]) = Some (ipv4Address [a; b; c; d]).
Proof.
  pose proof (parse_ipv4_fields_text a b c d) as Hf.
  destruct (octet_head a) as (ca & sa & Ea & Hca & Hne).
  destruct (octet_last d) as (td & cd & Ed & Hcd).
  assert (Hhead : list.head (ipv4_string [a; b; c; d]) = Some ca).
  { unfold ipv4_string. cbn [fmap list_fmap]. by rewrite Ea. }
  assert (Hlast : list.last (ipv4_string [a; b; c; d]) = Some cd).
  { unfold ipv4_string. cbn [fmap list_fmap]. rewrite Ed, !(app_assoc _ _ [cd]).
    rewrite !app_assoc. by rewrite last_snoc. }
  assert (Hsep : first_sep (ipv4_string [a; b; c; d]) = Some x2e).
  { unfold ipv4_string. cbn [fmap list_fmap]. by rewrite first_sep_octet. }
  unfold ParseAddress. rewrite Hhead, Hlast.
  destruct ca; try done; rewrite ?Hhead, ?Hlast, Hca, Hcd; cbn [negb orb];
    unfold ParseIP; rewrite Hsep, Hf; reflexivity.
Qed.

(** ** Port lists *)

Lemma Ports_range_spec fuel i to :
  0 ≤ i → to < 4294967295 → (Z.to_nat (to - i + 1) < fuel)%nat →
  Ports_range fuel i to = Some (seqZ i (to - i + 1)).
Proof.
  revert i. induction fuel as [|fuel IH]; intros i Hi Hto Hf.
  - cbn [Ports_range]. lia.
  - cbn [Ports_range]. case_decide as Hle.
    + rewrite u32_small by (unfold is_u32; lia). rewrite IH by lia.
      rewrite (seqZ_cons i) by lia. f_equal. f_equal. f_equal; lia.
    + by rewrite seqZ_nil by lia.
Qed.

(** The upper bound [MaxUint32] is never passed: the loop variable wraps. *)
Lemma Ports_range_diverges fuel i :
  is_u32 i → Ports_range fuel i 4294967295 = None.
Proof.
  revert i. induction fuel as [|fuel IH]; intros i Hi; [done|].
  cbn [Ports_range]. rewrite decide_True by (unfold is_u32 in Hi; lia).
  by rewrite IH by apply u32_range.
Qed.

Lemma Ports_spec fuel l :
  Forall (λ r, is_u16 (pr_From r) ∧ is_u16 (pr_To r)) l → 65536 < Z.of_nat fuel →
  ∃ ps, Ports fuel l = Some ps ∧
    ∀ p, p ∈ ps ↔ Exists (λ r, pr_From r ≤ p ≤ pr_To r) l.
Proof.
  intros Hl Hf. induction Hl as [|r l [Hr1 Hr2] _ (ps & Hps & Hin)]; cbn [Ports].
  { exists []. split; [done|]. intros p. rewrite Exists_nil. set_solver. }
  unfold is_u16 in *. rewrite Ports_range_spec by lia. rewrite Hps.
  eexists. split; [done|]. intros p. rewrite elem_of_app, Exists_cons, elem_of_seqZ, Hin. split; (intros [?|?]; [left; lia|by right]).
Qed.

Lemma MemoryPortList_Contains_spec l p :
  MemoryPortList_Contains l p = true ↔ Exists (λ r, mpr_From r ≤ p ≤ mpr_To r) l.
Proof.
  induction l as [|r l IH]; cbn [MemoryPortList_Contains].
  { rewrite Exists_nil. done. }
  rewrite Exists_cons, <- IH. unfold MemoryPortRange_Contains.
  repeat case_bool_decide; cbn; (split; [intros ?|intros [?|?]]);
    first [done | lia | by left | by right | by left; lia | idtac].
Qed.

(** The two views of a port list agree. For ranges whose bounds are ports,
    [PortList.Ports] terminates and enumerates exactly the ports that the
    in-memory list built by [PortListFromProto] contains. *)
Lemma Ports_iff_Contains fuel l :
  Forall (λ r, is_u16 (pr_From r) ∧ is_u16 (pr_To r)) l → 65536 < Z.of_nat fuel →
  ∃ ps, Ports fuel l = Some ps ∧
    ∀ p, p ∈ ps ↔ MemoryPortList_Contains (PortListFromProto l) p = true.
Proof.
  intros Hl Hf. destruct (Ports_spec fuel l Hl Hf) as (ps & Hps & Hin).
  exists ps. split; [done|]. intros p. rewrite Hin, MemoryPortList_Contains_spec.
  unfold PortListFromProto. rewrite Exists_fmap. clear - Hl.
  induction Hl as [|r l [H1 H2] _ IH]; [by rewrite !Exists_nil|].
  rewrite !Exists_cons, IH. cbn. by rewrite !u16_small.
Qed.

Lemma Ports_iff_Contains_witness :
  ∃ ps, Ports (Z.to_nat 65537) [mkPortRange 80 81; mkPortRange 443 443] = Some ps ∧
    ∀ p, p ∈ ps ↔
      MemoryPortList_Contains
        (PortListFromProto [mkPortRange 80 81; mkPortRange 443 443]) p = true.
Proof.
  apply (Ports_iff_Contains (Z.to_nat 65537)).
  - repeat constructor; cbn; lia.
  - lia.
Defined.

(** ** Destinations *)

(** Turning a destination into a [net.Addr] and back is the identity wherever
    [RawNetAddr] produces an address: the network, the IP family and the port
    survive. *)
Theorem DestinationFromAddr_RawNetAddr d na :
  (∀ a, d_Address d = Some a → wf_address a) →
  is_u16 (d_Port d) → (d_Network d = Network_UNIX → d_Port d = 0) →
  RawNetAddr d = Ok (Some na) → DestinationFromAddr na = Ok d.
Proof.
  intros Hwf Hp Hunix. destruct d as [[a|] port nw]; cbn in *; [|by destruct nw].
  specialize (Hwf a eq_refl). unfold RawNetAddr. cbn.
  assert (Hip : ∀ ip, IP a = Ok ip → IPAddress ip = Some a).
  { intros ip. by apply IPAddress_IP. }
  destruct nw; cbn; [done|..].
  1,2: destruct (IsIP (Family a)); [|done]; destruct (IP a) as [ip| |] eqn:E; cbn;
       intros [= <-]; cbn; by rewrite (Hip _ eq_refl), u16_small.
  destruct a; cbn; try done. intros [= <-]. cbn. by rewrite Hunix.
Qed.

Lemma DestinationFromAddr_RawNetAddr_witness :
  DestinationFromAddr (UDPAddr [x08; x08; x08; x08] 53)
  = Ok (UDPDestination (Some (ipv4Address [x08; x08; x08; x08])) 53).
Proof.
  apply (DestinationFromAddr_RawNetAddr
           (UDPDestination (Some (ipv4Address [x08; x08; x08; x08])) 53)).
  - intros a [= <-]. reflexivity.
  - cbn. unfold is_u16. lia.
  - discriminate.
  - reflexivity.
Defined.

(** Addresses survive the protobuf representation. *)
Lemma AsAddress_NewIPOrDomain a :
  wf_address a → NewIPOrDomain a ≫= (λ d, AsAddress (Some d)) = Ok (Some a).
Proof.
  intros Hwf. destruct a as [l|l|d]; [..|done].
  - change (Ok (IPAddress l) = Ok (Some (ipv4Address l))).
    by rewrite (IPAddress_IP _ _ Hwf eq_refl).
  - change (Ok (IPAddress l) = Ok (Some (ipv6Address l))).
    by rewrite (IPAddress_IP _ _ Hwf eq_refl).
Qed.
