(* ===== verification/Buf.v ===== *)
(** * Buffers

    Models [common/bytespool/pool.go] (module [Bytespool]), [common/buf/buffer.go]
    (module [Buffer]) and [common/buf/multi_buffer.go] (module [MultiBuffer]).
    A [Buffer] is its backing array and the [int32] window [start, end) of it; the
    operations are the source's, with the slice bounds that make them panic. The
    theorems give the window invariant, the refinement of a buffer to the byte
    queue it stands for, and the content of every [MultiBuffer] operation. *)

From S2P Require Import Prelude Net.

(** ** The size-classed pools of [bytespool] *)
Module Bytespool.

Definition numPools : nat := 4.
Definition sizeMulti : Z := 4.

(** [init]: the sizes 2048, 8192, 32768 and 131072. *)
Fixpoint init_sizes (n : nat) (size : Z) : list Z :=
  match n with O => [] | S n => size :: init_sizes n (i32 (size * sizeMulti)) end.
Definition poolSize : list Z := init_sizes numPools 2048.

(** The arrays each [sync.Pool] holds; it may lose any of them at any time. *)
Abbreviation pools := (list (list (list byte))).

(** [GetPool]: the index of the first pool whose size is enough. *)
Fixpoint find_pool (size : Z) (sizes : list Z) (idx : nat) : option nat :=
  match sizes with
  | [] => None
  | ps :: sizes => if decide (size ≤ ps) then Some idx else find_pool size sizes (S idx)
  end.
Definition GetPool (size : Z) : option nat := find_pool size poolSize 0.

(** [sync.Pool.Get] of pool [idx]: one of the arrays put there ([choice]), or a
    new array of the pool's size. *)
Definition pool_Get (p : pools) (idx : nat) (choice : option nat) : list byte * pools :=
  let fresh := replicate (Z.to_nat (default 0 (poolSize !! idx))) x00 in
  match choice with
  | None => (fresh, p)
  | Some c =>
      match p !! idx with
      | Some bag =>
          match bag !! c with
          | Some a => (a, <[idx := take c bag ++ drop (S c) bag]> p)
          | None => (fresh, p)
          end
      | None => (fresh, p)
      end
  end.

(** [Alloc] and [Free]. *)
Definition Alloc (p : pools) (choice : option nat) (size : Z) : list byte * pools :=
  match GetPool size with
  | Some idx => pool_Get p idx choice
  | None => (replicate (Z.to_nat size) x00, p)
  end.

Fixpoint free_index (size : Z) (n : nat) : option nat :=
  match n with
  | O => None
  | S i => if decide (default 0 (poolSize !! i) ≤ size) then Some i else free_index size i
  end.

Definition Free (p : pools) (b : list byte) : pools :=
  match free_index (i32 (len b)) numPools with
  | Some i => alter (cons b) i p
  | None => p
  end.

(** Every array of a pool has at least the pool's size. *)
Definition wf (p : pools) : Prop :=
  ∀ i bag a, p !! i = Some bag → a ∈ bag → default 0 (poolSize !! i) ≤ len a.

Lemma find_pool_spec size sizes idx i :
  find_pool size sizes idx = Some i →
  ∃ j ps, i = (idx + j)%nat ∧ sizes !! j = Some ps ∧ size ≤ ps.
Proof.
  revert idx. induction sizes as [|ps sizes IH]; intros idx; cbn; [done|].
  case_decide; [intros [= <-]|intros H'].
  - exists 0%nat, ps. rewrite Nat.add_0_r. done.
  - apply IH in H' as (j & q & -> & ? & ?). exists (S j), q. split; [lia|done].
Qed.

Lemma free_index_spec size n i :
  free_index size n = Some i → default 0 (poolSize !! i) ≤ size.
Proof. induction n as [|n IH]; cbn; [done|]. case_decide; [by intros [= <-]|done]. Qed.

(** What [pool_Get] returns is as large as the pool says, and the pool keeps its
    promise. *)
Lemma pool_Get_spec p idx choice :
  wf p → wf (pool_Get p idx choice).2 ∧
  default 0 (poolSize !! idx) ≤ len (pool_Get p idx choice).1.
Proof.
  intros Hp. unfold pool_Get.
  assert (Hf : default 0 (poolSize !! idx)
               ≤ len (replicate (Z.to_nat (default 0 (poolSize !! idx))) x00)) by len_lia.
  destruct choice as [c|]; [|done]. destruct (p !! idx) as [bag|] eqn:Eb; [|done].
  destruct (bag !! c) as [a|] eqn:Ea; [|done]. cbn [fst snd]. split.
  - intros i bag' x Hi Hx. destruct (decide (i = idx)) as [->|Hne].
    + rewrite list_lookup_insert_eq in Hi by (by apply lookup_lt_Some in Eb).
      injection Hi as <-. apply (Hp idx bag x Eb).
      apply elem_of_app in Hx as [Hx|Hx]; [by eapply elem_of_take in Hx as (?&?&_); eapply list_elem_of_lookup_2|].
      by eapply subseteq_drop.
    + rewrite list_lookup_insert_ne in Hi by done. by eapply Hp.
  - apply (Hp idx bag a Eb). by eapply list_elem_of_lookup_2.
Qed.

(** The byte pools never hand out a slice that is too small. Whatever was
    freed into them and whichever array the pool picks, [Alloc] returns at least
    [size] bytes and at least 2048, and [Alloc] and [Free] keep every array in a
    pool whose size it covers. *)
Lemma Bytespool_Alloc_enough p choice size b :
  wf p → len b < 2147483648 →
  wf (Alloc p choice size).2 ∧ size ≤ len (Alloc p choice size).1
  ∧ 2048 ≤ len (Alloc p choice size).1 ∧ wf (Free p b).
Proof.
  intros Hp Hb. unfold Alloc, Free, GetPool.
  assert (HF : wf (match free_index (i32 (len b)) numPools with
                   | Some i => alter (cons b) i p | None => p end)).
  { destruct (free_index _ _) as [i|] eqn:Ei; [|done]. apply free_index_spec in Ei.
    pose proof (len_nonneg b). rewrite i32_small in Ei by (unfold is_i32; lia).
    intros j bag a Hj Ha. destruct (decide (j = i)) as [->|Hne].
    - rewrite list_lookup_alter_eq in Hj. destruct (p !! i) as [bag0|] eqn:Eb; [|done].
      injection Hj as <-. apply elem_of_cons in Ha as [->|Ha]; [done|]. by eapply Hp.
    - rewrite list_lookup_alter_ne in Hj by done. by eapply Hp. }
  destruct (find_pool size poolSize 0) as [idx|] eqn:E.
  - pose proof (pool_Get_spec p idx choice Hp) as [Hw Hl]. split; [done|].
    apply find_pool_spec in E as (j & ps & -> & Hj & Hs). cbn [Nat.add] in *.
    rewrite Hj in Hl. change (default 0 (Some ps)) with ps in Hl.
    assert (2048 ≤ ps).
    { clear - Hj. vm_compute in Hj.
      do 4 (destruct j as [|j]; [injection Hj as <-; lia|]). by destruct j. }
    split_and!; [lia|lia|done].
  - split; [done|]. cbn [fst]. assert (131072 < size).
    { clear - E. change poolSize with [2048; 8192; 32768; 131072] in E. cbn [find_pool] in E.
      repeat case_decide; try done. lia. }
    split_and!; [len_lia|len_lia|done].
Qed.

Lemma Bytespool_Alloc_enough_witness :
  wf [] ∧ 3000 ≤ len (Alloc [] None 3000).1.
Proof.
  assert (H : wf []) by (intros i bag a Hi; by rewrite lookup_nil in Hi).
  split; [done|].
  apply (Bytespool_Alloc_enough [] None 3000 []); [done|]. unfold len. cbn. lia.
Defined.

End Bytespool.

(** ** Buffer *)
Module Buffer.

Definition Size : Z := 8192.

Inductive Ownership := managed | unmanaged | bytespools.

(** A nil slice [v] is [None]. *)
Record t := mk {
  v : option (list byte);
  start : Z;
  end_ : Z;
  ownership : Ownership;
  UDP : option Destination
}.

Definition arr (b : t) : list byte := default [] (v b).
Definition set_window (b : t) (s e : Z) : t := mk (v b) s e (ownership b) (UDP b).
(** Overwriting the array in place leaves a nil slice nil. *)
Definition set_arr (b : t) (a : list byte) : t :=
  mk ((λ _, a) <$> v b) (start b) (end_ b) (ownership b) (UDP b).
Definition set_UDP (b : t) (d : option Destination) : t :=
  mk (v b) (start b) (end_ b) (ownership b) d.

(** [New] on the array the pool hands out, whatever its content. *)
Definition New (pooled : list byte) : t :=
  let buf := if decide (Size ≤ len pooled) then take (Z.to_nat Size) pooled
             else replicate (Z.to_nat Size) x00 in
  mk (Some buf) 0 0 managed None.

(** [NewExisted] on a slice of length [oLen] over the array [backing]. *)
Definition NewExisted (backing : list byte) (oLen : Z) : go t :=
  if decide (len backing < Size) then Panic
  else
    let b := take (Z.to_nat (if decide (oLen < Size) then Size else oLen)) backing in
    Ok (mk (Some b) 0 (i32 oLen) managed None).

Definition FromBytes (b : list byte) : t := mk (Some b) 0 (i32 (len b)) unmanaged None.

Definition NewWithSize (p : Bytespool.pools) (choice : option nat) (size : Z)
    : t * Bytespool.pools :=
  let '(a, p) := Bytespool.Alloc p choice size in
  (mk (Some a) 0 0 bytespools None, p).

Definition Clear (b : t) : t := set_window b 0 0.

(** Where [Release] puts the array. *)
Inductive Recycled := Kept | ToPool (p : list byte) | ToBytespool (p : list byte).

Definition Release (b : t) : t * Recycled :=
  match v b, ownership b with
  | None, _ | _, unmanaged => (b, Kept)
  | Some p, o =>
      let b := Clear (mk None (start b) (end_ b) o (UDP b)) in
      (set_UDP b None,
       match o with
       | managed => if decide (len p = Size) then ToPool p else Kept
       | _ => ToBytespool p
       end)
  end.

Definition Byte (b : t) (idx : Z) : go byte :=
  ok_or_panic (index (arr b) (i32 (start b + idx))).

Definition SetByte (b : t) (idx : Z) (value : byte) : go t :=
  let i := i32 (start b + idx) in
  if decide (0 ≤ i ∧ i < len (arr b))
  then Ok (set_arr b (<[Z.to_nat i := value]> (arr b))) else Panic.

Definition Bytes (b : t) : go (list byte) := ok_or_panic (slice (arr b) (start b) (end_ b)).

Definition Len (b : t) : Z := i32 (end_ b - start b).
Definition Cap (b : t) : Z := i32 (len (arr b)).
Definition Available (b : t) : Z := i32 (i32 (len (arr b)) - end_ b).
Definition IsEmpty (b : t) : bool := bool_decide (Len b = 0).
Definition IsFull (b : t) : bool := bool_decide (end_ b = i32 (len (arr b))).

(** [clear(v[lo:hi])]. *)
Definition clear_range (a : list byte) (lo hi : Z) : option (list byte) :=
  match slice a lo hi with
  | Some _ =>
      Some (take (Z.to_nat lo) a ++ replicate (Z.to_nat (hi - lo)) x00 ++ drop (Z.to_nat hi) a)
  | None => None
  end.

(** [Extend]: the new buffer; the returned slice is its last [n] bytes, which
    [fill_last] overwrites in place. *)
Definition Extend (b : t) (n : Z) : go t :=
  let e := i32 (end_ b + n) in
  if decide (i32 (len (arr b)) < e) then Panic
  else
    a ← ok_or_panic (clear_range (arr b) (end_ b) e);
    Ok (set_window (set_arr b a) (start b) e).

(** Writing [bs] at offset [off] of the backing array: what a caller does through
    the slice that [Extend] returned. *)
Definition poke (b : t) (off : Z) (bs : list byte) : t :=
  set_arr b (take (Z.to_nat off) (arr b) ++ bs ++ drop (Z.to_nat off + length bs) (arr b)).

Definition from_end (b : t) (i : Z) : Z := if decide (i < 0) then i32 (i + Len b) else i.

Definition BytesRange (b : t) (from to : Z) : go (list byte) :=
  ok_or_panic (slice (arr b) (i32 (start b + from_end b from)) (i32 (start b + from_end b to))).

Definition BytesFrom (b : t) (from : Z) : go (list byte) :=
  ok_or_panic (slice (arr b) (i32 (start b + from_end b from)) (end_ b)).

Definition BytesTo (b : t) (to : Z) : go (list byte) :=
  let to := from_end b to in
  let to := if decide (to < 0) then 0 else to in
  ok_or_panic (slice (arr b) (start b) (i32 (start b + to))).

Definition Check (b : t) : t :=
  let s := if decide (start b < 0) then 0 else start b in
  let e := if decide (end_ b < 0) then 0 else end_ b in
  let s := if decide (e < s) then e else s in
  set_window b s e.

Definition Resize (b : t) (from to : Z) : go t :=
  let oldEnd := end_ b in
  let from := from_end b from in
  let to := from_end b to in
  if decide (to < from) then Panic
  else
    let b := Check (set_window b (i32 (start b + from)) (i32 (start b + to))) in
    if decide (oldEnd < end_ b) then
      a ← ok_or_panic (clear_range (arr b) oldEnd (end_ b)); Ok (set_arr b a)
    else Ok b.

Definition Advance (b : t) (from : Z) : t :=
  Check (set_window b (i32 (start b + from_end b from)) (end_ b)).

(** [Write]: the buffer, the count and the error. [v[end:]] panics when the end
    is past the array. *)
Definition Write (b : t) (data : list byte) : go (t * Z * option GoError) :=
  if decide (0 ≤ end_ b ∧ end_ b ≤ len (arr b)) then
    let '(a, n) := copy_at (arr b) (end_ b) data in
    Ok (set_window (set_arr b a) (start b) (i32 (end_ b + i32 n)), n, if decide (n < len data) then Some ErrBufferFull else None)
  else Panic.

Definition WriteByte (b : t) (value : byte) : go (t * option GoError) :=
  if IsFull b then Ok (b, Some ErrBufferFull)
  else if decide (0 ≤ end_ b ∧ end_ b < len (arr b)) then
    Ok (set_window (set_arr b (<[Z.to_nat (end_ b) := value]> (arr b)))
                   (start b) (i32 (end_ b + 1)), None)
  else Panic.

Definition WriteString (b : t) (s : list byte) : go (t * Z * option GoError) := Write b s.

Definition ReadByte (b : t) : go (t * (byte + GoError)) :=
  if decide (start b = end_ b) then Ok (b, inr EOF)
  else
    nb ← ok_or_panic (index (arr b) (start b));
    Ok (set_window b (i32 (start b + 1)) (end_ b), inl nb).

Definition ReadBytes (b : t) (length : Z) : go (t * (list byte + GoError)) :=
  if decide (i32 (end_ b - start b) < length) then Ok (b, inr EOF)
  else
    nb ← ok_or_panic (slice (arr b) (start b) (i32 (start b + length)));
    Ok (set_window b (i32 (start b + length)) (end_ b), inl nb).

(** [Read] into a slice of [n] bytes: the buffer, the bytes copied, the error. *)
Definition Read (b : t) (n : Z) : go (t * list byte * option GoError) :=
  if decide (Len b = 0) then Ok (b, [], Some EOF)
  else
    src ← ok_or_panic (slice (arr b) (start b) (end_ b));
    let got := take (Z.to_nat n) src in
    let b := if decide (i32 (len got) = Len b) then Clear b
             else set_window b (i32 (start b + i32 (len got))) (end_ b) in
    Ok (b, got, None).

(** [ReadFrom]: [rd n] is what one [reader.Read] of a slice of [n] bytes gives. *)
Definition ReadFrom (b : t) (rd : Z → list byte * option GoError) : go (t * Z * option GoError) :=
  if decide (0 ≤ end_ b ∧ end_ b ≤ len (arr b)) then
    let '(chunk, err) := rd (len (arr b) - end_ b) in
    let '(a, n) := copy_at (arr b) (end_ b) chunk in
    Ok (set_window (set_arr b a) (start b) (i32 (end_ b + i32 n)), n, err)
  else Panic.

(** [ReadFullFrom]: the buffer, the reader afterwards, the count and the error. *)
Definition ReadFullFrom (b : t) (r : Stream) (size : Z) : go (t * Stream * Z * option GoError) :=
  let e := i32 (end_ b + size) in
  if decide (i32 (len (arr b)) < e) then
    Ok (b, r, 0, Some (ErrMsg "out of bound: "))
  else
    w ← ok_or_panic (slice (arr b) (end_ b) e);
    let '(got, err, r) := read_full r (len w) in
    Ok (set_window (set_arr b (copy_at (arr b) (end_ b) got).1)
                   (start b) (i32 (end_ b + i32 (len got))), r, len got, err).

(** *** The window invariant *)

Definition wf (b : t) : Prop :=
  0 ≤ start b ∧ start b ≤ end_ b ∧ end_ b ≤ len (arr b) ∧ len (arr b) < 2147483648.

(** The bytes between start and end. *)
Definition content (b : t) : list byte :=
  take (Z.to_nat (end_ b - start b)) (drop (Z.to_nat (start b)) (arr b)).

#[global] Arguments content : simpl never.
#[global] Arguments arr : simpl never.

(** Room left behind the window. *)
Definition room (b : t) : Z := len (arr b) - end_ b.

Ltac wf_i32 :=
  repeat match goal with
  | |- context [i32 ?z] => rewrite (i32_small z) by (unfold is_i32; lia)
  | H : context [i32 ?z] |- _ => rewrite (i32_small z) in H by (unfold is_i32; lia)
  end.

Ltac buf_simpl := cbn [start end_ set_window UDP ownership].

Lemma arr_set_window b s e : arr (set_window b s e) = arr b.
Proof. done. Qed.

Lemma arr_set_arr b a : (v b = None → a = []) → arr (set_arr b a) = a.
Proof. unfold arr, set_arr. destruct (v b); cbn; [done|]. intros H. by rewrite H. Qed.

Lemma arr_nil b : v b = None → arr b = [].
Proof. unfold arr. by intros ->. Qed.

Lemma copy_at_nil {A} off (src : list A) : 0 ≤ off → (copy_at [] off src).1 = [].
Proof.
  intros H. unfold copy_at. cbn [fst]. rewrite take_nil, drop_nil.
  replace (Z.to_nat _) with 0%nat by len_lia. done.
Qed.

Lemma len_content b : wf b → len (content b) = end_ b - start b.
Proof. unfold wf, content. intros. len_lia. Qed.

Lemma Len_wf b : wf b → Len b = len (content b).
Proof. intros H. rewrite len_content by done. unfold wf, Len in *. by wf_i32. Qed.

Lemma Bytes_wf b : wf b → Bytes b = Ok (content b).
Proof. unfold wf, Bytes, content. intros. by rewrite slice_Some by lia. Qed.

Lemma IsEmpty_wf b : wf b → IsEmpty b = true ↔ content b = [].
Proof.
  intros H. unfold IsEmpty. rewrite bool_decide_eq_true, Len_wf by done.
  split; [apply len_0_nil|by intros ->].
Qed.

Lemma Available_wf b : wf b → Available b = room b.
Proof. unfold wf, Available, room. intros. by wf_i32. Qed.

Lemma IsFull_wf b : wf b → IsFull b = true ↔ room b = 0.
Proof.
  unfold wf, IsFull, room. intros. rewrite bool_decide_eq_true. wf_i32. lia.
Qed.

Lemma wf_New p : wf (New p).
Proof.
  unfold wf, New, arr, Size. cbn -[replicate Z.to_nat]. case_decide; len_lia.
Qed.

Lemma content_New p : content (New p) = [].
Proof. done. Qed.

Lemma wf_Clear b : wf b → wf (Clear b).
Proof. unfold wf, Clear. buf_simpl. rewrite arr_set_window. lia. Qed.

Lemma content_Clear b : content (Clear b) = [].
Proof. done. Qed.

Lemma wf_FromBytes l : len l < 2147483648 → wf (FromBytes l) ∧ content (FromBytes l) = l.
Proof.
  intros H. pose proof (len_nonneg l). unfold wf, content, FromBytes, arr. cbn.
  wf_i32. split; [lia|]. rewrite Z.sub_0_r, to_nat_len. cbn. apply firstn_all.
Qed.

(** The window of [Check] is ordered and non-negative, and never reaches past
    the old end. *)
Lemma wf_Check b :
  end_ b ≤ len (arr b) → len (arr b) < 2147483648 → wf (Check b).
Proof.
  intros. pose proof (len_nonneg (arr b)). unfold wf, Check. buf_simpl. rewrite arr_set_window.
  repeat case_decide; lia.
Qed.

(** *** Writing and reading *)

Lemma content_app_window b k :
  wf b → 0 ≤ k → end_ b + k ≤ len (arr b) →
  take (Z.to_nat (end_ b + k - start b)) (drop (Z.to_nat (start b)) (arr b))
  = content b ++ take (Z.to_nat k) (drop (Z.to_nat (end_ b)) (arr b)).
Proof.
  unfold wf, content. intros.
  replace (Z.to_nat (end_ b + k - start b))
    with (Z.to_nat (end_ b - start b) + Z.to_nat k)%nat by lia.
  rewrite <- take_take_drop. f_equal. rewrite drop_drop. do 2 f_equal. lia.
Qed.

(** Appending [bs] behind the window, in place. *)
Lemma append_window b bs b' :
  wf b → len bs ≤ room b →
  b' = set_window (set_arr b (copy_at (arr b) (end_ b) bs).1)
         (start b) (end_ b + len bs) →
  wf b' ∧ content b' = content b ++ bs ∧ room b' = room b - len bs ∧
  len (arr b') = len (arr b) ∧ UDP b' = UDP b.
Proof.
  intros Hwf Hroom ->. pose proof (len_nonneg bs).
  set (a := (copy_at (arr b) (end_ b) bs).1).
  assert (Ha : arr (set_arr b a) = a).
  { apply arr_set_arr. intros Hn. unfold a. rewrite (arr_nil _ Hn).
    apply copy_at_nil. unfold wf in Hwf. lia. }
  unfold wf, room in *. unfold content, wf, room. cbn [start end_ set_window UDP].
  rewrite arr_set_window, Ha.
  assert (Hl : len a = len (arr b)) by (apply copy_at_len; lia).
  split_and!; [lia..| |lia|done|done].
  unfold a, copy_at. cbn [fst].
  rewrite Z.min_r, to_nat_len by lia. rewrite (firstn_all bs).
  rewrite drop_app_le by len_lia.
  replace (Z.to_nat (end_ b + len bs - start b))
    with (length (drop (Z.to_nat (start b)) (take (Z.to_nat (end_ b)) (arr b))) + length bs)%nat
    by len_lia.
  rewrite take_app_add, take_app_length. f_equal.
  rewrite skipn_firstn_comm. f_equal. lia.
Qed.

Lemma Write_spec b data :
  wf b → ∃ b', let got := take (Z.to_nat (room b)) data in
    Write b data = Ok (b', len got, if decide (len got < len data) then Some ErrBufferFull else None)
    ∧ wf b' ∧ content b' = content b ++ got ∧ room b' = room b - len got
    ∧ len (arr b') = len (arr b) ∧ UDP b' = UDP b.
Proof.
  intros Hwf. set (got := take (Z.to_nat (room b)) data).
  assert (Hg : len got = Z.min (room b) (len data)).
  { unfold got, room, wf in *. len_lia. }
  eexists. cbv zeta. unfold Write.
  rewrite decide_True by (unfold wf in Hwf; lia).
  rewrite copy_at_take by (unfold wf in Hwf; lia). fold (room b). fold got.
  split; [reflexivity|].
  assert (i32 (end_ b + i32 (len got)) = end_ b + len got) as ->.
  { unfold room, wf in *. pose proof (len_nonneg data). wf_i32. done. }
  eapply append_window; [done|lia|done].
Qed.

Lemma drop_content b k :
  wf b → 0 ≤ k ≤ len (content b) →
  wf (set_window b (start b + k) (end_ b)) ∧
  content (set_window b (start b + k) (end_ b)) = drop (Z.to_nat k) (content b).
Proof.
  intros Hwf Hk. rewrite len_content in Hk by done. unfold wf, content in *. buf_simpl.
  rewrite arr_set_window. split; [lia|].
  rewrite skipn_firstn_comm, drop_drop. f_equal; [lia|]. f_equal. lia.
Qed.

Lemma Read_spec b n :
  wf b → 0 ≤ n → ∃ b',
    Read b n = Ok (b', take (Z.to_nat n) (content b),
                   if decide (content b = []) then Some EOF else None)
    ∧ wf b' ∧ content b' = drop (Z.to_nat n) (content b) ∧ len (arr b') = len (arr b).
Proof.
  intros Hwf Hn. unfold Read. rewrite Len_wf by done.
  destruct (decide (len (content b) = 0)) as [H0|H0].
  { pose proof (len_0_nil _ H0) as E. rewrite E. eexists.
    rewrite take_nil, drop_nil. rewrite decide_True by done. done. }
  rewrite slice_Some by (unfold wf in Hwf; lia). cbn [ok_or_panic mbind go_bind].
  fold (content b). rewrite (decide_False (P := content b = [])) by (intros Hn0; by rewrite Hn0 in H0).
  set (got := take (Z.to_nat n) (content b)).
  assert (Hg : len got = Z.min n (len (content b))) by (unfold got; len_lia).
  pose proof (len_content b Hwf). pose proof (len_nonneg (content b)).
  eexists. split; [reflexivity|]. unfold wf in Hwf. wf_i32. case_decide as Hall.
  - split; [by apply wf_Clear|]. split; [|done]. rewrite content_Clear. symmetry.
    apply drop_ge. len_lia.
  - destruct (drop_content b (len got)) as [Hw Hc]; [done|lia|]. split; [done|].
    split; [|done]. rewrite Hc. f_equal. lia.
Qed.

Lemma WriteByte_spec b c :
  wf b → ∃ b' err, WriteByte b c = Ok (b', err) ∧ wf b' ∧ UDP b' = UDP b ∧
    (if decide (room b = 0) then b' = b ∧ err = Some ErrBufferFull
     else err = None ∧ content b' = content b ++ [c] ∧ room b' = room b - 1
          ∧ len (arr b') = len (arr b)).
Proof.
  intros Hwf. unfold WriteByte. pose proof (IsFull_wf b Hwf) as Hf.
  destruct (IsFull b); destruct (decide (room b = 0)) as [Hr|Hr].
  - by eexists _, _.
  - by destruct Hr; apply Hf.
  - by apply Hf in Hr.
  - rewrite decide_True by (unfold wf, room in *; lia).
    assert (E : <[Z.to_nat (end_ b) := c]> (arr b) = (copy_at (arr b) (end_ b) [c]).1).
    { unfold copy_at. cbn [fst].
      rewrite insert_take_drop by (unfold wf, room in *; len_lia).
      replace (Z.to_nat (Z.min _ _)) with 1%nat by (unfold wf, room in *; len_lia).
      by rewrite Nat.add_1_r. }
    rewrite E. rewrite i32_small by (unfold is_i32, wf, room in *; lia).
    eexists _, _. split; [reflexivity|].
    destruct (append_window b [c] _ Hwf ltac:(unfold wf, room in *; rewrite len_cons, len_nil; lia) eq_refl)
      as (?&?&?&?&?). rewrite len_cons, len_nil in *. done.
Qed.

Lemma ReadByte_spec b :
  wf b → ∃ b' r, ReadByte b = Ok (b', r) ∧ wf b' ∧ len (arr b') = len (arr b) ∧
    match content b with
    | [] => b' = b ∧ r = inr EOF
    | c :: q => content b' = q ∧ r = inl c
    end.
Proof.
  intros Hwf. unfold ReadByte. pose proof (len_content b Hwf) as Hl.
  destruct (content b) as [|c q] eqn:E.
  { rewrite len_nil in Hl. rewrite decide_True by lia. by eexists _, _. }
  rewrite len_cons in Hl. pose proof (len_nonneg q).
  rewrite decide_False by lia.
  destruct (drop_content b 1) as [Hw Hc]; [done|rewrite E, len_cons; lia|].
  assert (Hi : index (arr b) (start b) = Some c).
  { unfold index. rewrite decide_True by (unfold wf in Hwf; lia).
    unfold content in E.
    assert (Hh : take (Z.to_nat (end_ b - start b)) (drop (Z.to_nat (start b)) (arr b)) !! 0%nat = Some c)
      by (by rewrite E).
    rewrite lookup_take_lt, lookup_drop in Hh by lia. rewrite <- Hh. f_equal. lia. }
  rewrite Hi. rewrite i32_small by (unfold is_i32, wf in *; lia).
  eexists _, _. split; [reflexivity|]. split; [done|]. split; [done|]. by rewrite Hc, E.
Qed.

Lemma ReadBytes_spec b n :
  wf b → 0 ≤ n → ∃ b' r, ReadBytes b n = Ok (b', r) ∧ wf b' ∧ len (arr b') = len (arr b) ∧
    if decide (len (content b) < n) then b' = b ∧ r = inr EOF
    else content b' = drop (Z.to_nat n) (content b) ∧ r = inl (take (Z.to_nat n) (content b)).
Proof.
  intros Hwf Hn. unfold ReadBytes. pose proof (len_content b Hwf) as Hl.
  rewrite i32_small by (unfold is_i32, wf in *; lia). rewrite <- Hl.
  case_decide as Hd; [by eexists _, _|].
  rewrite i32_small by (unfold is_i32, wf in *; lia).
  rewrite slice_Some by (unfold wf in *; lia). cbn [ok_or_panic mbind go_bind].
  destruct (drop_content b n) as [Hw Hc]; [done|lia|].
  eexists _, _. split; [reflexivity|]. split; [done|]. split; [done|]. split; [done|]. f_equal.
  unfold content. rewrite take_take. f_equal. lia.
Qed.

Lemma Advance_spec b n :
  wf b → 0 ≤ n → start b + n < 2147483648 →
  wf (Advance b n) ∧ content (Advance b n) = drop (Z.to_nat n) (content b)
  ∧ end_ (Advance b n) = end_ b ∧ arr (Advance b n) = arr b ∧ UDP (Advance b n) = UDP b.
Proof.
  intros Hwf Hn Hbig. pose proof (len_content b Hwf) as Hl.
  unfold Advance, from_end, Check. rewrite (decide_False (P := n < 0)) by lia.
  unfold wf in Hwf. wf_i32. buf_simpl.
  rewrite (decide_False (P := start b + n < 0)), (decide_False (P := end_ b < 0)) by lia.
  case_decide as Hd.
  - split; [unfold wf; buf_simpl; rewrite !arr_set_window; lia|].
    split; [|done]. rewrite drop_ge by len_lia. unfold content. buf_simpl.
    by rewrite Z.sub_diag.
  - destruct (drop_content b n) as [Hw Hc]; [done|lia|]. done.
Qed.

(** *** A buffer is a byte queue *)

Inductive Op :=
| OWrite (data : list byte)
| OWriteByte (c : byte)
| ORead (n : Z)
| OReadByte
| OReadBytes (n : Z)
| OAdvance (n : Z)
| OClear.

Inductive Res :=
| RCount (n : Z) (err : option GoError)
| RBytes (bs : list byte) (err : option GoError)
| RUnit.

Definition run (b : t) (o : Op) : go (t * Res) :=
  match o with
  | OWrite data => '(b, n, err) ← Write b data; Ok (b, RCount n err)
  | OWriteByte c => '(b, err) ← WriteByte b c; Ok (b, RCount (match err with Some _ => 0 | None => 1 end) err)
  | ORead n => '(b, bs, err) ← Read b n; Ok (b, RBytes bs err)
  | OReadByte =>
      '(b, r) ← ReadByte b;
      Ok (b, match r with inl c => RBytes [c] None | inr e => RBytes [] (Some e) end)
  | OReadBytes n =>
      '(b, r) ← ReadBytes b n;
      Ok (b, match r with inl bs => RBytes bs None | inr e => RBytes [] (Some e) end)
  | OAdvance n => Ok (Advance b n, RUnit)
  | OClear => Ok (Clear b, RUnit)
  end.

(** The queue the buffer promises: at most [space] more bytes go in at the back,
    bytes come out at the front in order. *)
Definition queue_step (space : Z) (q : list byte) (o : Op) : list byte * Res :=
  match o with
  | OWrite data =>
      let got := take (Z.to_nat space) data in
      (q ++ got, RCount (len got) (if decide (len got < len data) then Some ErrBufferFull else None))
  | OWriteByte c =>
      if decide (space = 0) then (q, RCount 0 (Some ErrBufferFull)) else (q ++ [c], RCount 1 None)
  | ORead n =>
      (drop (Z.to_nat n) q, RBytes (take (Z.to_nat n) q) (if decide (q = []) then Some EOF else None))
  | OReadByte =>
      match q with [] => ([], RBytes [] (Some EOF)) | c :: q => (q, RBytes [c] None) end
  | OReadBytes n =>
      if decide (len q < n) then (q, RBytes [] (Some EOF))
      else (drop (Z.to_nat n) q, RBytes (take (Z.to_nat n) q) None)
  | OAdvance n => (drop (Z.to_nat n) q, RUnit)
  | OClear => ([], RUnit)
  end.

(** Lengths passed to the reading operations are lengths; an [Advance] stays
    within [int32]. *)
Definition op_ok (cap : Z) (o : Op) : Prop :=
  match o with
  | ORead n | OReadBytes n => 0 ≤ n
  | OAdvance n => 0 ≤ n ∧ cap + n < 2147483648
  | _ => True
  end.

Lemma run_refines b o :
  wf b → op_ok (len (arr b)) o →
  ∃ b' r, run b o = Ok (b', r) ∧ wf b' ∧ len (arr b') = len (arr b) ∧
    queue_step (room b) (content b) o = (content b', r).
Proof.
  intros Hwf Ho. destruct o as [data|c|n| |n|n|]; cbn [run queue_step op_ok] in *.
  - destruct (Write_spec b data Hwf) as (b' & -> & ? & Hc & _ & ? & _). cbn.
    eexists _, _. by rewrite Hc.
  - destruct (WriteByte_spec b c Hwf) as (b' & err & -> & ? & _ & H). cbn.
    case_decide; destruct H as [-> H]; [subst err|destruct H as (H & _ & ?)]; eexists _, _;
      rewrite ?H; done.
  - destruct (Read_spec b n Hwf Ho) as (b' & -> & ? & Hc & ?). cbn. eexists _, _. by rewrite Hc.
  - destruct (ReadByte_spec b Hwf) as (b' & r & -> & ? & ? & H). cbn.
    destruct (content b) eqn:E; destruct H as [H ->]; eexists _, _; [|by rewrite H].
    subst b'. by rewrite E.
  - destruct (ReadBytes_spec b n Hwf Ho) as (b' & r & -> & ? & ? & H). cbn.
    case_decide; destruct H as [H ->]; eexists _, _; [by subst|by rewrite H].
  - destruct (Advance_spec b n Hwf) as (? & Hc & _ & ? & _); [lia|unfold wf in Hwf; lia|]. eexists _, _.
    rewrite Hc. split; [done|]. split; [done|]. split; [congruence|done].
  - eexists _, _. split; [done|]. split; [by apply wf_Clear|]. by rewrite content_Clear.
Qed.

(** A run of operations and the results they return. *)
Fixpoint run_all (b : t) (os : list Op) : go (t * list Res) :=
  match os with
  | [] => Ok (b, [])
  | o :: os =>
      '(b, r) ← run b o;
      '(b, rs) ← run_all b os;
      Ok (b, r :: rs)
  end.

(** A run of the queue of capacity [cap]: the space before each step is some
    number that leaves the queue within the capacity. *)
Inductive queue_run (cap : Z) : list byte → list Op → list Res → list byte → Prop :=
| queue_run_nil q : queue_run cap q [] [] q
| queue_run_cons q o os r rs q1 q2 space :
    0 ≤ space ≤ cap - len q →
    queue_step space q o = (q1, r) →
    queue_run cap q1 os rs q2 →
    queue_run cap q (o :: os) (r :: rs) q2.

(** A [Buffer] implements a bounded byte queue. From a well-formed window,
    any sequence of operations succeeds without panicking, returns what the queue
    of the same capacity returns, keeps the window well formed, and leaves exactly
    the queue's bytes in it. *)
Lemma Buffer_refines_queue b os :
  wf b → Forall (op_ok (len (arr b))) os →
  ∃ b' rs, run_all b os = Ok (b', rs) ∧ wf b' ∧
    queue_run (len (arr b)) (content b) os rs (content b').
Proof.
  intros Hwf Hos. remember (len (arr b)) as cap eqn:Hcap. revert b Hwf Hcap.
  induction Hos as [|o os Ho _ IH]; intros b Hwf Hcap.
  { eexists b, []. repeat split; [apply Hwf..|constructor]. }
  subst cap. destruct (run_refines b o Hwf Ho) as (b1 & r & Hr & Hwf1 & Ha1 & Hq).
  destruct (IH b1 Hwf1 (eq_sym Ha1)) as (b2 & rs & Hrs & Hwf2 & Hq2).
  exists b2, (r :: rs). split; [cbn; rewrite Hr; cbn; by rewrite Hrs|]. split; [done|].
  econstructor; [|done|done]. pose proof (len_content b Hwf).
  unfold room, wf in *. lia.
Qed.

Lemma Buffer_refines_queue_witness :
  ∃ b' rs, run_all (FromBytes [x01; x02; x03]) [ORead 2; OAdvance 1] = Ok (b', rs) ∧ wf b' ∧
    queue_run 3 [x01; x02; x03] [ORead 2; OAdvance 1] rs (content b').
Proof.
  apply (Buffer_refines_queue (FromBytes [x01; x02; x03]) [ORead 2; OAdvance 1]).
  - apply wf_FromBytes. vm_compute. reflexivity.
  - change (len (arr (FromBytes [x01; x02; x03]))) with 3.
    solve_Forall ltac:(unfold op_ok; lia).
Defined.

(** *** The other operations on the window *)

Lemma clear_range_spec a lo hi a' :
  clear_range a lo hi = Some a' →
  len a' = len a ∧ 0 ≤ lo ∧ lo ≤ hi ∧ hi ≤ len a ∧
  a' = (copy_at a lo (replicate (Z.to_nat (hi - lo)) x00)).1.
Proof.
  unfold clear_range, slice. case_decide as H; [|done]. intros [= <-].
  split; [len_lia|]. split_and!; [lia..|].
  unfold copy_at. cbn [fst]. f_equal.
  replace (Z.to_nat (Z.min _ _)) with (Z.to_nat (hi - lo)) by len_lia.
  rewrite (take_ge (replicate _ _)) by len_lia. f_equal. f_equal. lia.
Qed.

(** [Extend] appends [n] zero bytes or panics. *)
Lemma Extend_spec b n :
  wf b → 0 ≤ n ≤ room b →
  ∃ b', Extend b n = Ok b' ∧ wf b' ∧ content b' = content b ++ replicate (Z.to_nat n) x00
    ∧ room b' = room b - n ∧ len (arr b') = len (arr b) ∧ end_ b' = end_ b + n
    ∧ start b' = start b ∧ UDP b' = UDP b.
Proof.
  intros Hwf Hn. unfold Extend.
  assert (E : i32 (end_ b + n) = end_ b + n) by (apply i32_small; unfold is_i32, wf, room in *; lia).
  rewrite E. rewrite (i32_small (len (arr b))) by (unfold is_i32, wf, room in *; lia).
  rewrite decide_False by (unfold room in *; lia).
  destruct (clear_range (arr b) (end_ b) (end_ b + n)) as [a|] eqn:Ec.
  - apply clear_range_spec in Ec as (_ & _ & _ & _ & ->).
    replace (end_ b + n - end_ b) with n by lia. cbn [ok_or_panic mbind go_bind].
    eexists. split; [reflexivity|].
    set (z := replicate (Z.to_nat n) x00).
    assert (Hz : len z = n) by (unfold z; len_lia).
    destruct (append_window b z _ Hwf ltac:(lia) eq_refl) as (?&?&?&?&?).
    rewrite Hz in *. done.
  - unfold clear_range in Ec. rewrite slice_Some in Ec; [done|unfold wf, room in *; lia..].
Qed.

(** Overwriting the extension in place: the bytes the caller serialised there. *)
Lemma poke_spec b bs n :
  wf b → len bs = n → n ≤ end_ b - start b →
  ∃ p, content b = p ++ drop (length p) (content b) ∧ len p = end_ b - start b - n ∧
  wf (poke b (end_ b - n) bs) ∧ content (poke b (end_ b - n) bs) = p ++ bs
  ∧ UDP (poke b (end_ b - n) bs) = UDP b ∧ room (poke b (end_ b - n) bs) = room b.
Proof.
  intros Hwf Hbs Hn. pose proof (len_content b Hwf) as Hl. pose proof (len_nonneg bs).
  exists (take (Z.to_nat (end_ b - start b - n)) (content b)).
  set (a := take (Z.to_nat (end_ b - n)) (arr b) ++ bs
            ++ drop (Z.to_nat (end_ b - n) + length bs) (arr b)).
  assert (Hla : len a = len (arr b)) by (unfold a, wf in *; len_lia).
  assert (Ha : arr (poke b (end_ b - n) bs) = a).
  { unfold poke. apply arr_set_arr. intros Hv. apply arr_nil in Hv. rewrite Hv in Hla.
    by apply len_0_nil. }
  split; [|split; [len_lia|]].
  { rewrite length_take, Nat.min_l by len_lia. by rewrite take_drop. }
  assert (Hs : start (poke b (end_ b - n) bs) = start b) by done.
  assert (He : end_ (poke b (end_ b - n) bs) = end_ b) by done.
  unfold wf, room in *. rewrite Ha, Hs, He. split; [lia|]. split; [|split; [done|lia]].
  unfold content. rewrite Ha, Hs, He. unfold a.
  rewrite drop_app_le by len_lia.
  rewrite take_take. rewrite skipn_firstn_comm.
  rewrite take_app_ge by len_lia. rewrite take_app_le by len_lia.
  rewrite (take_ge bs) by len_lia. f_equal. f_equal. lia.
Qed.

(** The backing array around the window. *)
Lemma arr_split b :
  wf b → ∃ pre post, arr b = pre ++ content b ++ post ∧ len pre = start b.
Proof.
  intros Hb. unfold wf in Hb.
  exists (take (Z.to_nat (start b)) (arr b)), (drop (Z.to_nat (end_ b - start b)) (drop (Z.to_nat (start b)) (arr b))).
  unfold content. rewrite take_drop, take_drop. split; [done|]. len_lia.
Qed.

(** Overwriting bytes in the middle of the window. *)
Lemma poke_mid b p x s bs :
  wf b → content b = p ++ x ++ s → len bs = len x → bs ≠ [] →
  wf (poke b (start b + len p) bs) ∧ content (poke b (start b + len p) bs) = p ++ bs ++ s
  ∧ room (poke b (start b + len p) bs) = room b ∧ UDP (poke b (start b + len p) bs) = UDP b.
Proof.
  intros Hb Hc Hbs Hne. destruct (arr_split b Hb) as (pre & post & Ha & Hp).
  pose proof (len_content b Hb) as Hl. pose proof (len_nonneg p). pose proof (len_nonneg pre).
  rewrite Hc in Ha, Hl. assert (Hx : length x = length bs) by (unfold len in Hbs; lia).
  assert (Ha' : arr (poke b (start b + len p) bs) = (pre ++ p) ++ bs ++ s ++ post).
  { unfold poke. rewrite arr_set_arr.
    - rewrite Ha. rewrite <- Hp. replace (Z.to_nat (len pre + len p)) with (length (pre ++ p)) by len_lia.
      replace (pre ++ (p ++ x ++ s) ++ post) with ((pre ++ p) ++ x ++ s ++ post) by (by rewrite <- !app_assoc).
      rewrite take_app_length, <- drop_drop, drop_app_length, <- Hx, drop_app_length. done.
    - intros Hv. apply arr_nil in Hv. rewrite Hv in Ha. destruct bs; [done|].
      apply (f_equal length) in Ha. rewrite !length_app, Hx in Ha. cbn in Ha. lia. }
  assert (len (arr (poke b (start b + len p) bs)) = len (arr b)) as Hla by (rewrite Ha', Ha; len_lia).
  unfold wf, room in *. rewrite Hla. split; [done|]. split; [|done].
  unfold content. rewrite Ha'. cbn [start end_ poke set_arr]. rewrite <- Hp, to_nat_len.
  rewrite <- app_assoc, drop_app_length. rewrite !(app_assoc p), !(app_assoc _ s).
  replace (Z.to_nat (end_ b - len pre)) with (length ((p ++ bs) ++ s)) by len_lia.
  by rewrite take_app_length.
Qed.

Lemma ReadFullFrom_spec b r n :
  wf b → 0 ≤ n ≤ room b →
  ∃ b', ReadFullFrom b r n =
      Ok (b', (read_full r n).2, len (read_full r n).1.1, (read_full r n).1.2)
    ∧ wf b' ∧ content b' = content b ++ (read_full r n).1.1
    ∧ room b' = room b - len (read_full r n).1.1 ∧ len (arr b') = len (arr b) ∧ UDP b' = UDP b.
Proof.
  intros Hwf Hn. unfold ReadFullFrom.
  assert (E : i32 (end_ b + n) = end_ b + n) by (apply i32_small; unfold is_i32, wf, room in *; lia).
  rewrite E. rewrite (i32_small (len (arr b))) by (unfold is_i32, wf, room in *; lia).
  rewrite decide_False by (unfold room in *; lia).
  destruct (slice (arr b) (end_ b) (end_ b + n)) as [w|] eqn:Es.
  2:{ rewrite slice_Some in Es; [done|unfold wf, room in *; lia..]. }
  apply slice_len in Es. cbn [ok_or_panic mbind go_bind].
  replace (len w) with n by lia.
  destruct (read_full r n) as [[got err] r'] eqn:Er. cbn [fst snd].
  assert (Hg : len got ≤ n).
  { unfold read_full in Er. case_decide; simplify_eq; unfold len in *; rewrite ?length_take; lia. }
  eexists. split; [reflexivity|]. pose proof (len_nonneg got).
  assert (i32 (end_ b + i32 (len got)) = end_ b + len got) as ->.
  { unfold room, wf in *. wf_i32. done. }
  eapply append_window; [done|lia|done].
Qed.

(** The last [n] bytes of the window. *)
Lemma BytesFrom_neg b m p s :
  wf b → content b = p ++ s → len s = - m → m < 0 →
  BytesFrom b m = Ok s.
Proof.
  intros Hwf Hc Hs Hn. pose proof (len_content b Hwf) as Hl. rewrite Hc, len_app in Hl.
  pose proof (len_nonneg p).
  unfold BytesFrom, from_end. rewrite decide_True by lia.
  rewrite Len_wf, Hc, len_app by done. unfold wf in Hwf. wf_i32.
  rewrite slice_Some by lia. cbn [ok_or_panic]. f_equal.
  replace (start b + (m + (len p + len s))) with (start b + len p) by lia.
  destruct (drop_content b (len p)) as [_ Hd]; [done|rewrite Hc, len_app; lia|].
  unfold content in Hd at 1. cbn [start end_ set_window] in Hd. rewrite arr_set_window in Hd.
  rewrite Hd, Hc, to_nat_len. apply drop_app_length.
Qed.

Lemma Byte_last b p c :
  wf b → content b = p ++ [c] → Byte b (Len b - 1) = Ok c.
Proof.
  intros Hwf Hc. pose proof (len_content b Hwf) as Hl. rewrite Hc, len_app, len_cons, len_nil in Hl.
  pose proof (len_nonneg p).
  unfold Byte. rewrite Len_wf, Hc, len_app, len_cons, len_nil by done. unfold wf in Hwf. wf_i32.
  unfold index. rewrite decide_True by lia.
  assert (Hk : content b !! length p = Some c) by (by rewrite Hc, lookup_app_r, Nat.sub_diag by lia).
  unfold content in Hk. rewrite lookup_take_lt, lookup_drop in Hk by len_lia.
  replace (Z.to_nat (start b + (len p + (1 + 0) - 1))) with (Z.to_nat (start b) + length p)%nat
    by len_lia.
  by rewrite Hk.
Qed.

(** Every mutator of the package, for the window invariant. *)
Inductive Mutator :=
| MOp (o : Op)
| MExtend (n : Z)
| MResize (from to : Z)
| MAdvance (n : Z)
| MSetByte (i : Z) (c : byte)
| MReadFullFrom (r : Stream) (n : Z)
| MRelease.

Definition mutate (b : t) (m : Mutator) : go t :=
  match m with
  | MOp o => '(b, _) ← run b o; Ok b
  | MExtend n => Extend b n
  | MResize from to => Resize b from to
  | MAdvance n => Ok (Advance b n)
  | MSetByte i c => SetByte b i c
  | MReadFullFrom r n => '(b, _, _, _) ← ReadFullFrom b r n; Ok b
  | MRelease => Ok (Release b).1
  end.

Lemma wf_set_arr b a s e :
  len a = len (arr b) → 0 ≤ s → s ≤ e → e ≤ len (arr b) → len (arr b) < 2147483648 →
  wf (set_window (set_arr b a) s e).
Proof.
  intros Ha Hs Hse He Hb. unfold wf. buf_simpl. rewrite arr_set_window.
  rewrite arr_set_arr; [lia|]. intros Hv. apply arr_nil in Hv. rewrite Hv in Ha.
  by apply len_0_nil.
Qed.

Lemma wf_Extend b n b' : wf b → Extend b n = Ok b' → wf b'.
Proof.
  intros Hwf. unfold Extend. case_decide; [done|].
  destruct (clear_range _ _ _) as [a|] eqn:Ec; [|done]. cbn. intros [= <-].
  apply clear_range_spec in Ec as (Hl & ? & ? & ? & _). unfold wf in Hwf.
  apply wf_set_arr; lia.
Qed.

Lemma wf_Resize b from to b' : wf b → Resize b from to = Ok b' → wf b'.
Proof.
  intros Hwf. unfold Resize. case_decide; [done|].
  set (c := Check _).
  assert (Hc : 0 ≤ start c ∧ start c ≤ end_ c ∧ arr c = arr b ∧ v c = v b).
  { unfold c, Check. buf_simpl. repeat case_decide; split_and!; try done; lia. }
  destruct Hc as (? & ? & Ha & Hv). unfold wf in Hwf.
  case_decide.
  - destruct (clear_range _ _ _) as [a|] eqn:Ec; [|done]. cbn. intros [= <-].
    apply clear_range_spec in Ec as (Hl & ? & ? & ? & _).
    change (set_arr c a) with (set_window (set_arr c a) (start c) (end_ c)).
    rewrite Ha in *. apply wf_set_arr; rewrite ?Ha; lia.
  - intros [= <-]. unfold wf. rewrite Ha. lia.
Qed.

(** Whatever the arguments, negative, past the end or overflowing [int32]
    ones included, an operation on a buffer either panics on a slice bound or
    leaves [0 <= start <= end <= len(v)]. *)
Lemma Buffer_window_invariant b m b' :
  wf b → (∀ o, m = MOp o → op_ok (len (arr b)) o) → mutate b m = Ok b' → wf b'.
Proof.
  intros Hwf Hop. destruct m as [o|n|from to|n|i c|r n|]; cbn [mutate].
  - destruct (run_refines b o Hwf (Hop o eq_refl)) as (b1 & res & -> & ? & _).
    cbn. by intros [= <-].
  - by apply wf_Extend.
  - by apply wf_Resize.
  - intros [= <-]. unfold wf in Hwf. apply wf_Check; cbn [end_ set_window];
      rewrite ?arr_set_window; lia.
  - unfold SetByte. case_decide; [|done]. intros [= <-].
    change (set_arr b ?a) with (set_window (set_arr b a) (start b) (end_ b)).
    unfold wf in Hwf. apply wf_set_arr; [unfold len; by rewrite length_insert|lia..].
  - unfold ReadFullFrom. case_decide as Hd; [cbn; by intros [= <-]|].
    destruct (slice _ _ _) as [w|] eqn:Es; [|done]. cbn.
    destruct (read_full r (len w)) as [[got err] r'] eqn:Er. cbn. intros [= <-].
    pose proof (slice_len _ _ _ _ Es) as Hw. unfold slice in Es.
    case_decide as Hin; [|done]. clear Es.
    assert (Hg : len got ≤ len w).
    { unfold read_full in Er. case_decide; simplify_eq; unfold len in *; rewrite ?length_take; lia. }
    pose proof (len_nonneg got). unfold wf in Hwf.
    rewrite (i32_small (len got)) by (unfold is_i32; lia).
    rewrite (i32_small (end_ b + len got)) by (unfold is_i32; lia).
    apply wf_set_arr; [apply copy_at_len; lia|lia..].
  - intros [= <-]. unfold Release. destruct (v b); [|done].
    destruct (ownership b); [|done|]; unfold wf, set_UDP, Clear, arr, len; cbn; lia.
Qed.

Lemma Buffer_window_invariant_witness :
  wf (Advance (FromBytes [x01; x02]) (-2147483648)).
Proof.
  apply (Buffer_window_invariant (FromBytes [x01; x02]) (MAdvance (-2147483648))).
  - apply wf_FromBytes. vm_compute. reflexivity.
  - discriminate.
  - reflexivity.
Defined.

End Buffer.

(** A buffer is a writer with its remaining room. *)
#[global] Instance Buffer_WriterOps : WriterOps Buffer.t :=
  {| write b bs := '(b, _, err) ← Buffer.Write b bs; Ok (b, err) |}.

#[global] Program Instance Buffer_Writer : Writer Buffer.t :=
  {| output := Buffer.content; fits b n := Buffer.wf b ∧ n ≤ Buffer.room b |}.
Next Obligation.
  intros b bs n Hn [Hwf Hfit]. destruct (Buffer.Write_spec b bs Hwf) as (b' & E & H).
  exists b'. cbn [write Buffer_WriterOps]. rewrite E. cbn [mbind go_bind].
  pose proof (len_nonneg bs). rewrite (take_ge bs) in * by len_lia.
  rewrite decide_False by lia. destruct H as (? & ? & ? & _). split; [done|]. split; [done|].
  split; [done|lia].
Qed.

(** ** MultiBuffer *)
Module MultiBuffer.
Import Buffer.

Abbreviation mbuf := (list Buffer.t).

Definition MergeMulti (dest src : mbuf) : mbuf * mbuf := (dest ++ src, []).

Section WithPool.
(** What the pool hands out; its content never shows. *)
Context (pooled : list byte).

Fixpoint merge_loop (fuel : nat) (dest : mbuf) (src : list byte) : go mbuf :=
  match fuel, src with
  | _, [] => Ok dest
  | O, _ => Panic
  | S fuel, _ =>
      '(b, nBytes, _) ← Write (New pooled) src;
      merge_loop fuel (dest ++ [b]) (drop (Z.to_nat nBytes) src)
  end.

Definition MergeBytes (dest : mbuf) (src : list byte) : go mbuf :=
  match list.last dest with
  | Some l =>
      if IsFull l then merge_loop (length src) dest src
      else
        '(l, nBytes, _) ← Write l src;
        let src := drop (Z.to_nat nBytes) src in
        merge_loop (length src) (take (length dest - 1) dest ++ [l]) src
  | None => merge_loop (length src) dest src
  end.

(** [ReadFrom]: read until the reader ends; the two end-of-file errors are not
    errors. The fuel is one more than the bytes the reader holds. *)
Fixpoint ReadFrom_loop (fuel : nat) (mb : mbuf) (r : Stream)
    : go (mbuf * option GoError) :=
  match fuel with
  | O => Panic
  | S fuel =>
      '(b, r, _, err) ← ReadFullFrom (New pooled) r Size;
      let mb := if IsEmpty b then mb else mb ++ [b] in
      match err with
      | Some EOF | Some ErrUnexpectedEOF => Ok (mb, None)
      | Some e => Ok (mb, Some e)
      | None => ReadFrom_loop fuel mb r
      end
  end.
Definition ReadFrom (r : Stream) : go (mbuf * option GoError) :=
  ReadFrom_loop (S (length (sdata r))) [] r.

(** [SplitBytes] into a slice of [n] bytes: the leftover and the bytes written. *)
Fixpoint SplitBytes (mb : mbuf) (n : Z) : go (mbuf * list byte) :=
  match mb with
  | [] => Ok ([], [])
  | pBuffer :: rest =>
      '(pBuffer, got, _) ← Read pBuffer n;
      if IsEmpty pBuffer then
        '(mb, got') ← SplitBytes rest (n - len got);
        Ok (mb, got ++ got')
      else Ok (pBuffer :: rest, got)
  end.

Fixpoint Len_loop (mb : mbuf) (size : Z) : Z :=
  match mb with [] => size | b :: mb => Len_loop mb (i32 (size + Buffer.Len b)) end.
Definition Len (mb : mbuf) : Z := Len_loop mb 0.

Definition IsEmpty (mb : mbuf) : bool := forallb Buffer.IsEmpty mb.

Definition ReadAllToBytes (r : Stream) : go (list byte) :=
  '(mb, err) ← ReadFrom r;
  match err with
  | Some e => Err e
  | None =>
      if decide (Len mb = 0) then Ok []
      else '(_, b) ← SplitBytes mb (Len mb); Ok b
  end.

(** [Copy] into a slice of [n] bytes: the bytes copied. *)
Fixpoint Copy (mb : mbuf) (n : Z) : go (list byte) :=
  match mb with
  | [] => Ok []
  | bb :: mb =>
      bs ← Bytes bb;
      let got := take (Z.to_nat n) bs in
      if decide (i32 (len got) < Buffer.Len bb) then Ok got
      else rest ← Copy mb (n - len got); Ok (got ++ rest)
  end.

Definition SplitFirst (mb : mbuf) : mbuf * option Buffer.t :=
  match mb with [] => ([], None) | b :: mb => (mb, Some b) end.

Definition SplitFirstBytes (mb : mbuf) (n : Z) : go (mbuf * list byte) :=
  match SplitFirst mb with
  | (mb, None) => Ok (mb, [])
  | (mb, Some b) => bs ← Bytes b; Ok (mb, take (Z.to_nat n) bs)
  end.

(** [common.Must2(last.ReadFrom(curr))]: an error panics. *)
Fixpoint Compact_loop (mb2 : mbuf) (last : Buffer.t) (mb : mbuf) : go mbuf :=
  match mb with
  | [] => Ok (mb2 ++ [last])
  | curr :: mb =>
      if decide (Available last < Buffer.Len curr) then Compact_loop (mb2 ++ [last]) curr mb
      else
        '(_, chunk, e) ← Read curr (len (arr last) - end_ last);
        '(last, _, err) ← Buffer.ReadFrom last (λ _, (chunk, e));
        match err with
        | Some _ => Panic
        | None => Compact_loop mb2 last mb
        end
  end.
Definition Compact (mb : mbuf) : go mbuf :=
  match mb with [] => Ok [] | last :: mb => Compact_loop [] last mb end.

(** The loop of [SplitSize]: the rest and the part split off. *)
Fixpoint split_loop (mb : mbuf) (size totalBytes : Z) : mbuf * mbuf :=
  match mb with
  | [] => ([], [])
  | b :: mb' =>
      let total := i32 (totalBytes + Buffer.Len b) in
      if decide (size < total) then (mb, [])
      else let '(rest, r) := split_loop mb' size total in (rest, b :: r)
  end.

Definition SplitSize (mb : mbuf) (size : Z) : go (mbuf * mbuf) :=
  match mb with
  | [] => Ok ([], [])
  | b0 :: mb' =>
      if decide (size < Buffer.Len b0) then
        b ← Extend (New pooled) size;
        bs ← BytesTo b0 size;
        Ok (Advance b0 size :: mb', [poke b (end_ b - size) bs])
      else Ok (split_loop mb size 0)
  end.

Definition SplitMulti (mb : mbuf) (i : Z) : mbuf * mbuf :=
  if decide (i < len mb ∧ 0 ≤ i) then (take (Z.to_nat i) mb, drop (Z.to_nat i) mb) else (mb, []).

Definition ReleaseMulti (mb : mbuf) : mbuf * list Recycled := ([], (λ b, (Release b).2) <$> mb).

(** [WriteMultiBuffer] to a writer with state [W]. *)
Fixpoint WriteMultiBuffer {W} (write : W → list byte → W * option GoError) (w : W) (mb : mbuf)
    : go (W * mbuf * option GoError) :=
  match mb with
  | [] => Ok (w, [], None)
  | b :: mb =>
      bs ← Bytes b;
      match write w bs with
      | (w, Some e) => Ok (w, mb, Some e)
      | (w, None) => WriteMultiBuffer write w mb
      end
  end.

(** *** MultiBufferContainer *)

Definition Container_Read (c : mbuf) (n : Z) : go (mbuf * list byte * option GoError) :=
  if IsEmpty c then Ok (c, [], Some EOF)
  else '(mb, got) ← SplitBytes c n; Ok (mb, got, None).
Definition Container_ReadMultiBuffer (c : mbuf) : mbuf * mbuf := ([], c).
Definition Container_Write (c : mbuf) (b : list byte) : go (mbuf * Z) :=
  mb ← MergeBytes c b; Ok (mb, len b).
Definition Container_WriteMultiBuffer (c b : mbuf) : mbuf := (MergeMulti c b).1.
Definition Container_Close (c : mbuf) : mbuf := (ReleaseMulti c).1.

(** *** Contents *)

Abbreviation wfs := (Forall wf).
Definition mcontent (mb : mbuf) : list byte := concat (content <$> mb).

#[global] Arguments mcontent : simpl never.

Lemma mcontent_app a b : mcontent (a ++ b) = mcontent a ++ mcontent b.
Proof. unfold mcontent. by rewrite fmap_app, concat_app. Qed.

Lemma wfs_snoc mb b : wfs mb → wf b → wfs (mb ++ [b]).
Proof. intros. apply Forall_app. split; [done|]. by apply Forall_singleton. Qed.

Lemma mcontent_cons b mb : mcontent (b :: mb) = content b ++ mcontent mb.
Proof. done. Qed.

Lemma IsEmpty_spec mb : wfs mb → IsEmpty mb = true ↔ mcontent mb = [].
Proof.
  induction 1 as [|b mb Hb _ IH]; [done|]. cbn [IsEmpty forallb].
  rewrite andb_true_iff, IsEmpty_wf by done. fold (IsEmpty mb). rewrite IH, mcontent_cons.
  split; [by intros [-> ->]|]. intros [? ?]%app_eq_nil. done.
Qed.

Lemma SplitBytes_spec mb n :
  wfs mb → 0 ≤ n →
  ∃ mb', SplitBytes mb n = Ok (mb', take (Z.to_nat n) (mcontent mb))
    ∧ wfs mb' ∧ mcontent mb' = drop (Z.to_nat n) (mcontent mb).
Proof.
  intros Hmb. revert n. induction Hmb as [|b mb Hb Hmb IH]; intros n Hn.
  { exists []. change (mcontent []) with (@nil byte). rewrite take_nil, drop_nil.
    split; [done|]. split; [constructor|done]. }
  cbn [SplitBytes]. destruct (Read_spec b n Hb Hn) as (b' & -> & Hb' & Hc & _). cbn.
  rewrite mcontent_cons.
  destruct (Buffer.IsEmpty b') eqn:He.
  - apply IsEmpty_wf in He; [|done]. rewrite Hc in He.
    assert (Hle : len (content b) ≤ n).
    { apply (f_equal len) in He. len_lia. }
    rewrite (take_ge (content b)) by len_lia.
    destruct (IH (n - len (content b))) as (mb' & -> & ? & Hd); [lia|]. cbn.
    exists mb'. rewrite take_app_ge, drop_app_ge by len_lia.
    replace (Z.to_nat (n - len (content b))) with (Z.to_nat n - length (content b))%nat in * by len_lia.
    done.
  - exists (b' :: mb).
    assert (Hlt : n < len (content b)).
    { destruct (decide (n < len (content b))); [done|]. exfalso.
      assert (content b' = []) as He' by (rewrite Hc; apply drop_ge; len_lia).
      apply IsEmpty_wf in He'; [congruence|done]. }
    rewrite take_app_le, drop_app_le by len_lia. split; [done|]. split; [by constructor|].
    by rewrite mcontent_cons, Hc.
Qed.

Lemma merge_loop_spec fuel dest src :
  wfs dest → (length src ≤ fuel)%nat →
  ∃ mb, merge_loop fuel dest src = Ok mb ∧ wfs mb ∧ mcontent mb = mcontent dest ++ src.
Proof.
  revert dest src. induction fuel as [|fuel IH]; intros dest src Hd Hf.
  { destruct src; [|cbn in Hf; lia]. exists dest. by rewrite app_nil_r. }
  destruct src as [|c src]; [exists dest; by rewrite app_nil_r|].
  cbn [merge_loop]. set (s := c :: src) in *.
  destruct (Write_spec (New pooled) s (wf_New pooled)) as (b & -> & Hb & Hc & _). cbn [mbind go_bind].
  set (got := take _ s) in *. rewrite content_New in Hc. cbn in Hc.
  assert (Hr : room (New pooled) = Size).
  { unfold room, New, Buffer.arr, Size. cbn -[Z.to_nat replicate]. case_decide; len_lia. }
  assert (Hg : 0 < len got).
  { unfold got. rewrite Hr. unfold Size, s. len_lia. }
  destruct (IH (dest ++ [b]) (drop (Z.to_nat (len got)) s)) as (mb & -> & Hmb & Hcon).
  { by apply wfs_snoc. }
  { len_lia. }
  exists mb. split; [done|]. split; [done|].
  rewrite Hcon, mcontent_app. unfold mcontent at 2. cbn. rewrite app_nil_r, Hc.
  rewrite <- app_assoc. f_equal. rewrite to_nat_len. apply take_drop_length.
Qed.

Lemma MergeBytes_spec dest src :
  wfs dest →
  ∃ mb, MergeBytes dest src = Ok mb ∧ wfs mb ∧ mcontent mb = mcontent dest ++ src.
Proof.
  intros Hd. unfold MergeBytes. destruct (list.last dest) as [l|] eqn:El.
  2:{ by apply merge_loop_spec. }
  apply last_Some in El as [d ->]. apply Forall_app in Hd as [Hd Hl]. rewrite Forall_singleton in Hl.
  destruct (IsFull l).
  { apply merge_loop_spec; [by apply wfs_snoc|done]. }
  destruct (Write_spec l src Hl) as (l' & -> & Hl' & Hc & _). cbn [mbind go_bind].
  set (got := take _ src) in *.
  replace (length (d ++ [l]) - 1)%nat with (length d) by (rewrite length_app; cbn; lia).
  rewrite take_app_length.
  destruct (merge_loop_spec (length (drop (Z.to_nat (len got)) src)) (d ++ [l'])
              (drop (Z.to_nat (len got)) src)) as (mb & -> & ? & Hm); [|done|].
  { by apply wfs_snoc. }
  exists mb. split; [done|]. split; [done|].
  rewrite Hm, !mcontent_app. unfold mcontent at 2 4. cbn. rewrite !app_nil_r, Hc.
  rewrite <- !app_assoc. do 2 f_equal. rewrite to_nat_len. apply take_drop_length.
Qed.

(** *** The container is an unbounded byte queue *)

Inductive COp := CWrite (b : list byte) | CRead (n : Z) | CWriteMulti (b : mbuf) | CTake.
Inductive CRes := CWrote (n : Z) | CGot (bs : list byte) (err : option GoError) | CDone.

Definition crun (c : mbuf) (o : COp) : go (mbuf * CRes) :=
  match o with
  | CWrite b => '(c, n) ← Container_Write c b; Ok (c, CWrote n)
  | CRead n => '(c, got, err) ← Container_Read c n; Ok (c, CGot got err)
  | CWriteMulti b => Ok (Container_WriteMultiBuffer c b, CDone)
  | CTake => let '(c, mb) := Container_ReadMultiBuffer c in Ok (c, CGot (mcontent mb) None)
  end.

Definition cqueue (q : list byte) (o : COp) : list byte * CRes :=
  match o with
  | CWrite b => (q ++ b, CWrote (len b))
  | CRead n =>
      if decide (q = []) then (q, CGot [] (Some EOF))
      else (drop (Z.to_nat n) q, CGot (take (Z.to_nat n) q) None)
  | CWriteMulti b => (q ++ mcontent b, CDone)
  | CTake => ([], CGot q None)
  end.

Definition cop_ok (o : COp) : Prop :=
  match o with CRead n => 0 ≤ n | CWriteMulti b => wfs b | _ => True end.

Fixpoint crun_all (c : mbuf) (os : list COp) : go (mbuf * list CRes) :=
  match os with
  | [] => Ok (c, [])
  | o :: os => '(c, r) ← crun c o; '(c, rs) ← crun_all c os; Ok (c, r :: rs)
  end.

Fixpoint cqueue_all (q : list byte) (os : list COp) : list byte * list CRes :=
  match os with
  | [] => (q, [])
  | o :: os => let '(q, r) := cqueue q o in let '(q, rs) := cqueue_all q os in (q, r :: rs)
  end.

Lemma crun_refines c o :
  wfs c → cop_ok o →
  ∃ c' r, crun c o = Ok (c', r) ∧ wfs c' ∧ cqueue (mcontent c) o = (mcontent c', r).
Proof.
  intros Hc Ho. destruct o as [b|n|b|]; cbn [crun cqueue cop_ok] in *.
  - unfold Container_Write. destruct (MergeBytes_spec c b Hc) as (mb & -> & ? & Hm). cbn.
    eexists _, _. by rewrite Hm.
  - unfold Container_Read. pose proof (IsEmpty_spec c Hc) as He.
    destruct (IsEmpty c); case_decide as Hd.
    + cbn. by eexists _, _.
    + by destruct Hd; apply He.
    + by apply He in Hd.
    + destruct (SplitBytes_spec c n Hc Ho) as (mb & -> & ? & Hm). cbn. eexists _, _. by rewrite Hm.
  - eexists _, _. split; [reflexivity|]. split; [by apply Forall_app|].
    cbn. by rewrite mcontent_app.
  - eexists _, _. split; [reflexivity|]. split; [constructor|done].
Qed.

(** A [MultiBufferContainer] is an unbounded byte queue: any sequence of byte
    writes, buffer writes and reads returns, in order, exactly the bytes written,
    across every buffer boundary, and never panics. *)
Lemma Container_refines_queue c os :
  wfs c → Forall cop_ok os →
  ∃ c' rs, crun_all c os = Ok (c', rs) ∧ wfs c' ∧ cqueue_all (mcontent c) os = (mcontent c', rs).
Proof.
  intros Hc Hos. revert c Hc. induction Hos as [|o os Ho _ IH]; intros c Hc.
  { by eexists c, []. }
  destruct (crun_refines c o Hc Ho) as (c1 & r & Hr & Hc1 & Hq).
  destruct (IH c1 Hc1) as (c2 & rs & Hrs & Hc2 & Hq2).
  exists c2, (r :: rs). cbn. rewrite Hr. cbn. rewrite Hrs. split; [done|]. split; [done|].
  by rewrite Hq, Hq2.
Qed.

(** *** Reading a whole stream *)

Lemma ReadFrom_loop_spec fuel mb r :
  wfs mb → (length (sdata r) < fuel)%nat →
  ∃ mb', ReadFrom_loop fuel mb r =
      Ok (mb', match serr r with EOF | ErrUnexpectedEOF => None | e => Some e end)
    ∧ wfs mb' ∧ mcontent mb' = mcontent mb ++ sdata r.
Proof.
  revert mb r. induction fuel as [|fuel IH]; intros mb r Hmb Hf; [lia|].
  cbn [ReadFrom_loop].
  assert (Hr : room (New pooled) = Size).
  { unfold room, New, Buffer.arr, Size. cbn -[Z.to_nat replicate]. case_decide; len_lia. }
  destruct (ReadFullFrom_spec (New pooled) r Size (wf_New pooled)) as (b & -> & Hb & Hc & _);
    [rewrite Hr; unfold Size; lia|].
  rewrite content_New in Hc. cbn [app mbind go_bind] in *.
  assert (Hadd : wfs (if Buffer.IsEmpty b then mb else mb ++ [b]) ∧
    mcontent (if Buffer.IsEmpty b then mb else mb ++ [b]) = mcontent mb ++ content b).
  { destruct (Buffer.IsEmpty b) eqn:He.
    - apply IsEmpty_wf in He; [|done]. by rewrite He, app_nil_r.
    - split; [by apply wfs_snoc|].
      rewrite mcontent_app. f_equal. unfold mcontent. cbn. apply app_nil_r. }
  destruct Hadd as [Hw Hm]. revert Hc. unfold read_full. case_decide as Hd; cbn [fst snd]; intros Hc.
  - destruct (IH _ (mkStream (drop (Z.to_nat Size) (sdata r)) (serr r)) Hw) as (mb' & -> & ? & Hm').
    { unfold Size in *. cbn [sdata]. len_lia. }
    exists mb'. split; [done|]. split; [done|]. cbn [sdata] in Hm'.
    rewrite Hm', Hm, Hc, <- app_assoc. by rewrite take_drop.
  - exists (if Buffer.IsEmpty b then mb else mb ++ [b]). split; [|split; [done|]].
    + by destruct (sdata r), (serr r).
    + by rewrite Hm, Hc.
Qed.

Lemma Len_loop_spec mb size :
  wfs mb → 0 ≤ size → size + len (mcontent mb) < 2147483648 →
  Len_loop mb size = size + len (mcontent mb).
Proof.
  intros Hmb. revert size. induction Hmb as [|b mb Hb _ IH]; intros size Hs Hl.
  { cbn. change (mcontent []) with (@nil byte). rewrite len_nil. lia. }
  rewrite mcontent_cons, len_app in *. cbn [Len_loop]. rewrite Len_wf by done.
  pose proof (len_nonneg (content b)). pose proof (len_nonneg (mcontent mb)).
  rewrite i32_small by (unfold is_i32; lia). rewrite IH by lia. lia.
Qed.

(** [ReadAllToBytes] returns all bytes of a reader that ends normally, however
    many buffers they fill; its loop terminates. Any other final error is
    returned instead. *)
Lemma ReadAllToBytes_all r :
  len (sdata r) < 2147483648 →
  ReadAllToBytes r =
    match serr r with EOF | ErrUnexpectedEOF => Ok (sdata r) | e => Err e end.
Proof.
  intros Hl. unfold ReadAllToBytes, ReadFrom.
  destruct (ReadFrom_loop_spec (S (length (sdata r))) [] r) as (mb & -> & Hmb & Hc);
    [constructor|lia|].
  change (mcontent []) with (@nil byte) in Hc. cbn [app] in Hc. cbn [mbind go_bind].
  assert (HL : Len mb = len (sdata r)).
  { unfold Len. rewrite Len_loop_spec; rewrite ?Hc; lia || done. }
  assert (Hok : (if decide (Len mb = 0) then Ok [] else '(_, b) ← SplitBytes mb (Len mb); Ok b)
                = Ok (sdata r)).
  { rewrite HL. case_decide as H0.
    - by rewrite (len_0_nil (sdata r) H0).
    - destruct (SplitBytes_spec mb (len (sdata r)) Hmb (len_nonneg _)) as (? & -> & _). cbn.
      rewrite Hc, to_nat_len. f_equal. apply firstn_all. }
  by destruct (serr r).
Qed.

(** *** Splitting by size and compaction *)

Lemma split_loop_spec mb size total rest r :
  wfs mb → 0 ≤ total → total + len (mcontent mb) < 2147483648 → total ≤ size →
  split_loop mb size total = (rest, r) →
  mb = r ++ rest ∧ total + len (mcontent r) ≤ size ∧
  match rest with [] => True | b :: _ => size < total + len (mcontent r) + len (content b) end.
Proof.
  intros Hmb. revert total rest r.
  induction Hmb as [|b mb Hb _ IH]; intros total rest r Ht Hl Hs.
  { cbn. intros [= <- <-]. change (mcontent []) with (@nil byte). rewrite len_nil.
    split; [done|]. split; [lia|done]. }
  rewrite mcontent_cons, len_app in Hl. pose proof (len_nonneg (content b)).
  pose proof (len_nonneg (mcontent mb)). cbn [split_loop]. rewrite Len_wf by done.
  rewrite i32_small by (unfold is_i32; lia). case_decide.
  - intros [= <- <-]. change (mcontent []) with (@nil byte). rewrite len_nil.
    split; [done|]. split; lia.
  - destruct (split_loop mb size _) as [rest' r'] eqn:E. intros [= <- <-].
    apply IH in E as (-> & Hle & Hnext); [|lia..].
    rewrite mcontent_cons, len_app. split; [done|]. split; [lia|].
    destruct rest'; [done|]. lia.
Qed.

Lemma BytesTo_spec b n :
  wf b → 0 ≤ n ≤ len (content b) → BytesTo b n = Ok (take (Z.to_nat n) (content b)).
Proof.
  intros Hb Hn. pose proof (len_content b Hb). unfold BytesTo, from_end.
  rewrite !(decide_False (P := n < 0)) by lia. unfold wf in Hb.
  rewrite i32_small by (unfold is_i32; lia). rewrite slice_Some by lia. cbn. f_equal.
  unfold content. rewrite take_take. f_equal. lia.
Qed.

(** [SplitSize] in full: besides the bytes, what it consumes and where the packet
    destinations of the buffers go. *)
Lemma SplitSize_spec mb size :
  wfs mb → 0 ≤ size ≤ Size → len (mcontent mb) < 2147483648 - Size →
  ∃ rest r, SplitSize mb size = Ok (rest, r) ∧ wfs rest ∧ wfs r ∧
    mcontent r ++ mcontent rest = mcontent mb ∧ len (mcontent r) ≤ size ∧
    match rest with [] => True | b :: _ => size < len (mcontent r) + len (content b) end ∧
    (mb ≠ [] → 0 < size → (length rest + length (mcontent rest) < length mb + length (mcontent mb))%nat) ∧
    (∀ P : option Destination → Prop, P None → Forall (λ b, P (UDP b)) mb → Forall (λ b, P (UDP b)) (r ++ rest)).
Proof.
  intros Hmb Hs Hl. destruct Hmb as [|b mb Hb Hmb].
  { exists [], []. split; [done|]. do 2 (split; [apply Forall_nil_2|]).
    change (mcontent []) with (@nil byte). rewrite len_nil. do 2 (split; [done || lia|]). done. }
  rewrite mcontent_cons, len_app in Hl. pose proof (len_nonneg (mcontent mb)).
  cbn [SplitSize]. rewrite Len_wf by done. case_decide as Hd.
  - assert (Hr : room (New pooled) = Size).
    { unfold room, New, Buffer.arr, Size. cbn -[Z.to_nat replicate]. case_decide; len_lia. }
    destruct (Extend_spec (New pooled) size (wf_New _)) as (e & -> & He & Hce & _ & _ & Hee & Hse & Hue);
      [lia|]. cbn [mbind go_bind]. rewrite BytesTo_spec by (done || lia). cbn [mbind go_bind].
    destruct (poke_spec e (take (Z.to_nat size) (content b)) size He) as (p & _ & Hlp & Hwp & Hcp & Hup & _).
    { len_lia. } { rewrite Hee, Hse. unfold New. cbn. lia. }
    assert (p = []) as ->.
    { apply len_0_nil. rewrite Hlp, Hee, Hse. unfold New. cbn. lia. }
    destruct (Advance_spec b size Hb) as (Hwa & Hca & _ & _ & Hua); [lia| |].
    { pose proof (len_content b Hb). unfold wf in Hb. lia. }
    eexists _, _. split; [reflexivity|]. split; [by apply Forall_cons_2|].
    split; [apply Forall_cons_2; [done|apply Forall_nil_2]|].
    rewrite !mcontent_cons, Hcp, Hca. change (mcontent []) with (@nil byte).
    rewrite !app_nil_r. cbn [app]. rewrite app_assoc, take_drop. split; [done|].
    split; [len_lia|]. split; [len_lia|]. split; [intros _ ?; len_lia|].
    intros P HP [? ?]%Forall_cons_1. apply Forall_cons_2; [by rewrite Hup, Hue|].
    apply Forall_cons_2; [by rewrite Hua|done].
  - destruct (split_loop (b :: mb) size 0) as [rest r] eqn:E.
    assert (Hall : wfs (b :: mb)) by (by apply Forall_cons_2).
    assert (Hne : r ≠ []).
    { revert E. cbn [split_loop]. rewrite Len_wf by done. unfold wf in Hb.
      pose proof (len_nonneg (content b)).
      rewrite i32_small by (unfold is_i32; lia). rewrite decide_False by lia.
      destruct (split_loop mb size _). by intros [= _ <-]. }
    apply split_loop_spec in E as (Eq & Hle & Hn); [|done|lia| |lia].
    2:{ rewrite mcontent_cons, len_app. lia. }
    rewrite Eq in Hall. apply Forall_app in Hall as [? ?].
    exists rest, r. split; [done|]. split; [done|]. split; [done|].
    rewrite Eq, mcontent_app. split; [done|]. split; [lia|].
    split; [destruct rest; [done|]; lia|]. split; [|done].
    intros _ _. rewrite !length_app. destruct r; [done|]. cbn [length]. lia.
Qed.

(** [SplitSize] splits a [MultiBuffer] at a byte boundary: the split part and
    the rest together are the original bytes in order, the split part has at most
    [size] bytes, and when something is left the split part cannot take the next
    buffer whole. Sizes up to one buffer never panic. *)
Lemma SplitSize_correct mb size :
  wfs mb → 0 ≤ size ≤ Size → len (mcontent mb) < 2147483648 - Size →
  ∃ rest r, SplitSize mb size = Ok (rest, r) ∧ wfs rest ∧ wfs r ∧
    mcontent r ++ mcontent rest = mcontent mb ∧ len (mcontent r) ≤ size ∧
    match rest with [] => True | b :: _ => size < len (mcontent r) + len (content b) end.
Proof.
  intros Hmb Hs Hl.
  destruct (SplitSize_spec mb size Hmb Hs Hl) as (rest & r & ? & ? & ? & ? & ? & ? & _). by exists rest, r.
Qed.

(** Taking a non-empty buffer that fits whole onto the end of another. *)
Lemma ReadFrom_whole b chunk :
  wf b → len chunk ≤ room b →
  ∃ b' n, Buffer.ReadFrom b (λ _, (chunk, None)) = Ok (b', n, None) ∧ wf b'
    ∧ content b' = content b ++ chunk.
Proof.
  intros Hb Hl. unfold Buffer.ReadFrom. rewrite decide_True by (unfold wf in Hb; lia).
  rewrite copy_at_take by (unfold wf in Hb; lia). fold (room b).
  rewrite (take_ge chunk) by len_lia. pose proof (len_nonneg chunk).
  assert (i32 (end_ b + i32 (len chunk)) = end_ b + len chunk) as ->.
  { unfold room, wf in *. wf_i32. done. }
  eexists _, _. split; [reflexivity|].
  destruct (append_window b chunk _ Hb Hl eq_refl) as (?&?&_). done.
Qed.

Lemma Compact_loop_spec mb2 last mb :
  wfs mb2 → wf last → wfs mb → Forall (λ b, content b ≠ []) mb →
  ∃ r, Compact_loop mb2 last mb = Ok r ∧ wfs r ∧
    mcontent r = mcontent mb2 ++ content last ++ mcontent mb ∧
    (length r ≤ length mb2 + 1 + length mb)%nat.
Proof.
  intros H2 Hl Hmb Hne. revert mb2 last H2 Hl. induction Hmb as [|c mb Hc Hmb IH]; intros mb2 last H2 Hl.
  { exists (mb2 ++ [last]). split; [done|]. split; [by apply wfs_snoc|].
    rewrite mcontent_app, length_app. split; [done|]. cbn. lia. }
  apply Forall_cons_iff in Hne as [Hnc Hne]. cbn [Compact_loop].
  rewrite Available_wf, Len_wf by done. case_decide as Hd.
  - destruct (IH Hne (mb2 ++ [last]) c (wfs_snoc _ _ H2 Hl) Hc) as (r & -> & ? & Hm & Hn).
    exists r. split; [done|]. split; [done|]. rewrite Hm, mcontent_app, mcontent_cons.
    split; [|rewrite length_app in Hn; cbn in *; lia].
    rewrite <- app_assoc. f_equal. unfold mcontent at 1. cbn. by rewrite app_nil_r.
  - fold (room last). assert (0 ≤ room last) by (unfold room, wf in *; lia).
    destruct (Read_spec c (room last) Hc) as (c' & -> & _); [done|]. cbn [mbind go_bind].
    rewrite (decide_False (P := content c = [])) by done.
    rewrite (take_ge (content c)) by len_lia.
    destruct (ReadFrom_whole last (content c) Hl) as (l' & n & -> & Hl' & Hcl); [lia|].
    cbn [mbind go_bind].
    destruct (IH Hne mb2 l' H2 Hl') as (r & -> & ? & Hm & Hn).
    exists r. split; [done|]. split; [done|]. rewrite Hm, Hcl, mcontent_cons, <- app_assoc.
    split; [done|]. cbn. lia.
Qed.

(** [Compact] merges neighbouring buffers without changing, losing or
    reordering a byte, and never makes more buffers, when every buffer after the
    first has content. *)
Lemma Compact_content b mb :
  wf b → wfs mb → Forall (λ b, content b ≠ []) mb →
  ∃ r, Compact (b :: mb) = Ok r ∧ wfs r ∧ mcontent r = mcontent (b :: mb) ∧
    (length r ≤ length (b :: mb))%nat.
Proof.
  intros Hb Hmb Hne.
  destruct (Compact_loop_spec [] b mb (Forall_nil_2 _) Hb Hmb Hne) as (r & H & ? & Hm & Hn).
  exists r. split; [done|]. split; [done|]. rewrite mcontent_cons. split; [done|]. cbn in *. lia.
Qed.

(** An empty buffer behind the first one makes [Compact] panic: it always
    fits, [last.ReadFrom(curr)] then reports [io.EOF] from the empty buffer, and
    [common.Must2] turns that into a panic. *)
Lemma Compact_empty_buffer_panics b e mb :
  wf b → wf e → content e = [] → Compact (b :: e :: mb) = Panic.
Proof.
  intros Hb He Hc. cbn [Compact Compact_loop].
  rewrite Available_wf, (Len_wf e), Hc, len_nil by done.
  assert (0 ≤ room b) by (unfold room, wf in *; lia).
  rewrite decide_False by lia. fold (room b).
  destruct (Read_spec e (room b) He) as (e' & -> & _); [done|]. cbn [mbind go_bind].
  rewrite (decide_True (P := content e = [])) by done. rewrite Hc, take_nil.
  unfold Buffer.ReadFrom. rewrite decide_True by (unfold wf in Hb; lia).
  destruct (copy_at (arr b) (end_ b) []) as [a n]. done.
Qed.

End WithPool.

Lemma Container_refines_queue_witness :
  ∃ c' rs, crun_all [] [] [CWrite [x01; x02; x03]; CRead 2; CRead 5; CRead 1] = Ok (c', rs) ∧
    rs = [CWrote 3; CGot [x01; x02] None; CGot [x03] None; CGot [] (Some EOF)].
Proof.
  destruct (Container_refines_queue [] [] [CWrite [x01; x02; x03]; CRead 2; CRead 5; CRead 1])
    as (c & rs & H & _ & Hq).
  - apply Forall_nil_2.
  - solve_Forall ltac:(cbn; first [lia|done]).
  - exists c, rs. split; [exact H|]. vm_compute in Hq. congruence.
Defined.

Lemma SplitSize_correct_witness :
  ∃ rest r, SplitSize [] [FromBytes [x01; x02]; FromBytes [x03]] 1 = Ok (rest, r) ∧
    len (mcontent r) ≤ 1.
Proof.
  destruct (SplitSize_correct [] [FromBytes [x01; x02]; FromBytes [x03]] 1)
    as (rest & r & H & _ & _ & _ & Hl & _).
  - solve_Forall ltac:(apply wf_FromBytes; vm_compute; reflexivity).
  - unfold Size. lia.
  - vm_compute. reflexivity.
  - by exists rest, r.
Defined.

Lemma Compact_content_witness :
  ∃ r, Compact [FromBytes [x01; x02]; FromBytes [x03]] = Ok r ∧ mcontent r = [x01; x02; x03].
Proof.
  destruct (Compact_content (FromBytes [x01; x02]) [FromBytes [x03]]) as (r & H & _ & Hm & _).
  - apply wf_FromBytes. vm_compute. reflexivity.
  - solve_Forall ltac:(apply wf_FromBytes; vm_compute; reflexivity).
  - solve_Forall ltac:(vm_compute; discriminate).
  - exists r. split; [exact H|]. rewrite Hm. reflexivity.
Defined.

Lemma Compact_empty_buffer_panics_witness :
  Compact [FromBytes [x01]; Clear (FromBytes [x02])] = Panic.
Proof.
  apply (Compact_empty_buffer_panics (FromBytes [x01]) (Clear (FromBytes [x02])) []).
  - apply wf_FromBytes. vm_compute. reflexivity.
  - apply wf_Clear, wf_FromBytes. vm_compute. reflexivity.
  - reflexivity.
Defined.

Lemma ReadAllToBytes_all_witness :
  ReadAllToBytes [] (mkStream [x01; x02] EOF) = Ok [x01; x02].
Proof. apply (ReadAllToBytes_all [] (mkStream [x01; x02] EOF)). vm_compute. reflexivity. Defined.

End MultiBuffer.
