(* ===== verification/AddrCodec.v ===== *)
(** * The address codec

    Models [common/protocol/address.go] and [isDomainTooLong] of [headers.go]: the
    configurable serializer of address and port that the mux, VMess, VLESS, XUDP,
    SOCKS, Trojan and Shadowsocks headers share. The writers are any [io.Writer]
    ([Prelude.Writer]); the readers are streams. *)

From S2P Require Import Prelude Net Buf.
Import Buffer.

(** ** Options *)

Definition afInvalid : Z := 255.

Inductive AddressOption :=
| PortThenAddress
| AddressFamilyByte (b f : Z)
| WithAddressTypeParser (atp : Z → Z).

Record option_t := mkOption {
  o_addrTypeMap : list Z;
  o_addrByteMap : list Z;
  o_portFirst : bool;
  o_typeParser : option (Z → Z)
}.

(** [AddressFamilyByte(b, f)] panics on a byte that is no index; the other
    options only set a field. *)
Definition apply_option (o : option_t) (opt : AddressOption) : go option_t :=
  match opt with
  | PortThenAddress => Ok (mkOption (o_addrTypeMap o) (o_addrByteMap o) true (o_typeParser o))
  | AddressFamilyByte b f =>
      if decide (16 ≤ b) then Panic
      else Ok (mkOption (<[Z.to_nat b := f]> (o_addrTypeMap o))
                        (<[Z.to_nat f := b]> (o_addrByteMap o))
                        (o_portFirst o) (o_typeParser o))
  | WithAddressTypeParser atp =>
      Ok (mkOption (o_addrTypeMap o) (o_addrByteMap o) (o_portFirst o) (Some atp))
  end.

Record addressParser := mkAddressParser {
  addrTypeMap : list Z;
  addrByteMap : list Z;
  typeParser : option (Z → Z)
}.

Inductive AddressSerializer :=
| portFirstAddressParser (ap : addressParser)
| portLastAddressParser (ap : addressParser).

Fixpoint apply_options (o : option_t) (options : list AddressOption) : go option_t :=
  match options with
  | [] => Ok o
  | opt :: options => o ← apply_option o opt; apply_options o options
  end.

Definition NewAddressParser (options : list AddressOption) : go AddressSerializer :=
  o ← apply_options (mkOption (replicate 16 afInvalid) (replicate 16 afInvalid) false None) options;
  let ap := mkAddressParser (o_addrTypeMap o) (o_addrByteMap o) (o_typeParser o) in
  Ok (if o_portFirst o then portFirstAddressParser ap else portLastAddressParser ap).

(** ** Reading *)

(** [if _, err := b.ReadFullFrom(reader, n); err != nil { return err }]. *)
Definition read_or (b : Buffer.t) (r : Stream) (n : Z) : go (Buffer.t * Stream) :=
  '(b, r, _, err) ← ReadFullFrom b r n;
  match err with
  | Some e => Err e
  | None => Ok (b, r)
  end.

Definition readPort (b : Buffer.t) (r : Stream) : go (Buffer.t * Stream * Port) :=
  '(b, r) ← read_or b r 2;
  bs ← BytesFrom b (-2);
  p ← PortFromBytes bs;
  Ok (b, r, p).

Definition maybeIPPrefix (b : byte) : bool :=
  bool_decide (b = x5b) || bool_decide (48 ≤ byte_to_Z b ≤ 57).

(** The runes of a string that are not ASCII are above every character allowed
    here, so the test of the runes is the test of the bytes. *)
Definition isValidDomain (d : list byte) : bool :=
  forallb (λ c, let z := byte_to_Z c in
    bool_decide (48 ≤ z ≤ 57) || bool_decide (97 ≤ z ≤ 122) || bool_decide (65 ≤ z ≤ 90)
    || bool_decide (c = x2d) || bool_decide (c = x2e) || bool_decide (c = x5f)) d.

Definition readAddress (p : addressParser) (b : Buffer.t) (r : Stream)
    : go (Buffer.t * Stream * option Address) :=
  '(b, r) ← read_or b r 1;
  tb ← Byte b (Len b - 1);
  let addrType :=
    match typeParser p with Some f => f (byte_to_Z tb) | None => byte_to_Z tb end in
  if decide (16 ≤ addrType) then Err (ErrMsg "unknown address type: ")
  else
  addrFamily ← ok_or_panic (index (addrTypeMap p) addrType);
  if decide (addrFamily = afInvalid) then Err (ErrMsg "unknown address type: ")
  else if decide (addrFamily = AddressFamilyIPv4) then
    '(b, r) ← read_or b r 4;
    ip ← BytesFrom b (-4);
    Ok (b, r, IPAddress ip)
  else if decide (addrFamily = AddressFamilyIPv6) then
    '(b, r) ← read_or b r 16;
    ip ← BytesFrom b (-16);
    Ok (b, r, IPAddress ip)
  else if decide (addrFamily = AddressFamilyDomain) then
    '(b, r) ← read_or b r 1;
    lb ← Byte b (Len b - 1);
    let domainLength := byte_to_Z lb in
    '(b, r) ← read_or b r domainLength;
    domain ← BytesFrom b (- domainLength);
    c ← ok_or_panic (index domain 0);
    let addr := if maybeIPPrefix c then ParseAddress domain else Some (DomainAddress domain) in
    match addr with
    | None => Panic
    | Some a =>
        if IsIP (Family a) then Ok (b, r, Some a)
        else if negb (isValidDomain domain) then Err (ErrMsg "invalid domain name: ")
        else Ok (b, r, Some (DomainAddress domain))
    end
  else Panic.

(** [ReadAddressPort]: a nil buffer is replaced by a new one, released at the
    end, so only the caller's buffer shows. *)
Definition ReadAddressPort (pooled : list byte) (s : AddressSerializer)
    (buffer : option Buffer.t) (r : Stream)
    : go (option Buffer.t * Stream * option Address * Port) :=
  let b := default (New pooled) buffer in
  let back b := match buffer with Some _ => Some b | None => None end in
  match s with
  | portFirstAddressParser ap =>
      '(b, r, port) ← readPort b r;
      '(b, r, addr) ← readAddress ap b r;
      Ok (back b, r, addr, port)
  | portLastAddressParser ap =>
      '(b, r, addr) ← readAddress ap b r;
      '(b, r, port) ← readPort b r;
      Ok (back b, r, addr, port)
  end.

(** ** Writing *)

Definition isDomainTooLong (domain : list byte) : bool := bool_decide (256 < len domain).

Section Write.
Context {W : Type} `{WriterOps W}.

Definition writePort (w : W) (port : Port) : go W := write_or w (put_be16 port).

Definition writeAddress (p : addressParser) (w : W) (address : Address) : go W :=
  tb ← ok_or_panic (index (addrByteMap p) (Family address));
  if decide (tb = afInvalid) then Err (ErrMsg "unknown address family")
  else
    match address with
    | ipv4Address ip | ipv6Address ip =>
        w ← write_or w [byte_of_Z tb];
        write_or w ip
    | domainAddress domain =>
        if isDomainTooLong domain then Err (ErrMsg "Super long domain is not supported: ")
        else
          w ← write_or w [byte_of_Z tb; byte_of_Z (len domain)];
          write_or w domain
    end.

Definition WriteAddressPort (s : AddressSerializer) (w : W) (addr : Address) (port : Port) : go W :=
  match s with
  | portFirstAddressParser ap => w ← writePort w port; writeAddress ap w addr
  | portLastAddressParser ap => w ← writeAddress ap w addr; writePort w port
  end.

End Write.

(** ** The wire format *)

(** The serializer [s] writes and reads family [f] with consistent tables. *)
Definition the_parser (s : AddressSerializer) : addressParser :=
  match s with portFirstAddressParser ap | portLastAddressParser ap => ap end.

Definition parse_type (ap : addressParser) (tb : Z) : Z :=
  match typeParser ap with Some f => f tb | None => tb end.

Definition supports (ap : addressParser) (f : AddressFamily) : Prop :=
  ∃ tb, index (addrByteMap ap) f = Some tb ∧ 0 ≤ tb < 255 ∧
    0 ≤ parse_type ap tb < 16 ∧ index (addrTypeMap ap) (parse_type ap tb) = Some f.

(** Domains the reader gives back as they were written. *)
Definition domain_ok (d : list byte) : Prop :=
  1 ≤ len d ≤ 255 ∧ isValidDomain d = true ∧
  match d with
  | c :: _ => maybeIPPrefix c = true → ∃ d', ParseAddress d = Some (domainAddress d')
  | [] => False
  end.

Definition encodable (a : Address) : Prop :=
  wf_address a ∧ match a with domainAddress d => domain_ok d | _ => True end.

Definition enc_size (a : Address) : Z :=
  match a with ipv4Address _ => 5 | ipv6Address _ => 17 | domainAddress d => 2 + len d end.

Definition enc_address (tb : Z) (a : Address) : list byte :=
  match a with
  | ipv4Address ip | ipv6Address ip => byte_of_Z tb :: ip
  | domainAddress d => byte_of_Z tb :: byte_of_Z (len d) :: d
  end.

Lemma enc_size_bound a : encodable a → 5 ≤ enc_size a ≤ 257 ∨ 3 ≤ enc_size a ≤ 257.
Proof. destruct a; cbn; unfold encodable, domain_ok; lia. Qed.

Lemma len_enc_address tb a : encodable a → len (enc_address tb a) = enc_size a.
Proof.
  intros [Hwf _]. destruct a as [l|l|d]; cbn in *; unfold len; cbn [length]; [lia|lia|].
  fold (len d). unfold len. lia.
Qed.

Lemma read_or_spec b x rest e n :
  wf b → len x = n → n ≤ room b →
  ∃ b', read_or b (mkStream (x ++ rest) e) n = Ok (b', mkStream rest e) ∧
    wf b' ∧ content b' = content b ++ x ∧ room b' = room b - n.
Proof.
  intros Hb Hx Hr. pose proof (len_nonneg x).
  destruct (ReadFullFrom_spec b (mkStream (x ++ rest) e) n Hb) as (b' & E & Hb' & Hc & Hroom & _); [lia|].
  assert (Hf : read_full (mkStream (x ++ rest) e) n = (x, None, mkStream rest e)).
  { unfold read_full. cbn [sdata serr]. pose proof (len_nonneg rest).
    rewrite decide_True by (rewrite len_app; lia).
    rewrite <- Hx, to_nat_len, take_app_length, drop_app_length. done. }
  rewrite Hf in *. cbn [fst snd] in *. exists b'. unfold read_or. rewrite E. cbn.
  rewrite Hx in Hroom. done.
Qed.

Lemma readPort_spec b port rest e :
  wf b → is_u16 port → 2 ≤ room b →
  ∃ b', readPort b (mkStream (put_be16 port ++ rest) e) = Ok (b', mkStream rest e, port) ∧
    wf b' ∧ content b' = content b ++ put_be16 port ∧ room b' = room b - 2.
Proof.
  intros Hb Hp Hr. unfold readPort.
  destruct (read_or_spec b (put_be16 port) rest e 2 Hb eq_refl Hr) as (b' & -> & Hb' & Hc & Hroom).
  cbn [mbind go_bind].
  rewrite (BytesFrom_neg b' (-2) (content b) (put_be16 port)) by (done || lia). cbn [mbind go_bind].
  unfold PortFromBytes. rewrite <- (app_nil_r (put_be16 port)), be16_put by done. cbn.
  by exists b'.
Qed.

(** Reading an encoded address, whatever precedes it in the buffer. *)
Lemma readAddress_spec ap b a tb rest e :
  wf b → encodable a → enc_size a ≤ room b →
  index (addrByteMap ap) (Family a) = Some tb → 0 ≤ tb < 255 →
  0 ≤ parse_type ap tb < 16 → index (addrTypeMap ap) (parse_type ap tb) = Some (Family a) →
  ∃ b', readAddress ap b (mkStream (enc_address tb a ++ rest) e) = Ok (b', mkStream rest e, Some a) ∧
    wf b' ∧ room b' = room b - enc_size a.
Proof.
  intros Hb [Hwf Hdom] Hr Htb Hrange Ht Hf. unfold readAddress.
  set (after := match a with ipv4Address ip | ipv6Address ip => ip
                | domainAddress d => byte_of_Z (len d) :: d end).
  assert (Henc : enc_address tb a ++ rest = [byte_of_Z tb] ++ (after ++ rest)) by (by destruct a).
  rewrite Henc.
  destruct (read_or_spec b [byte_of_Z tb] (after ++ rest) e 1 Hb eq_refl) as (b1 & -> & Hb1 & Hc1 & Hr1).
  { destruct a; cbn in *; unfold domain_ok in *; lia. }
  cbn [mbind go_bind]. rewrite (Byte_last b1 (content b) (byte_of_Z tb) Hb1 Hc1). cbn [mbind go_bind].
  rewrite byte_to_of_Z_small by (unfold is_u8; lia). fold (parse_type ap tb).
  rewrite decide_False by lia. rewrite Hf. cbn [ok_or_panic mbind go_bind].
  destruct a as [ip|ip|d]; cbn [Family] in *; unfold after; clear after Henc.
  - rewrite decide_False by done. rewrite decide_True by done.
    destruct (read_or_spec b1 ip rest e 4 Hb1) as (b2 & -> & Hb2 & Hc2 & Hr2).
    { cbn in Hwf. unfold len. lia. } { cbn in Hr. lia. }
    cbn [mbind go_bind]. rewrite (BytesFrom_neg b2 (-4) (content b1) ip) by (done || cbn in Hwf; unfold len; lia).
    cbn [mbind go_bind]. rewrite (IPAddress_IP (ipv4Address ip) ip Hwf eq_refl).
    exists b2. split; [done|]. split; [done|]. cbn. lia.
  - rewrite decide_False by done. rewrite decide_False by done. rewrite decide_True by done.
    destruct (read_or_spec b1 ip rest e 16 Hb1) as (b2 & -> & Hb2 & Hc2 & Hr2).
    { cbn in Hwf. unfold len. lia. } { cbn in Hr. lia. }
    cbn [mbind go_bind]. rewrite (BytesFrom_neg b2 (-16) (content b1) ip) by (done || cbn in Hwf; unfold len; lia).
    cbn [mbind go_bind]. rewrite (IPAddress_IP (ipv6Address ip) ip Hwf eq_refl).
    exists b2. split; [done|]. split; [done|]. cbn. lia.
  - do 3 rewrite decide_False by done. rewrite decide_True by done.
    destruct Hdom as (Hlen & Hval & Hhd). cbn in Hr.
    change ((byte_of_Z (len d) :: d) ++ rest) with ([byte_of_Z (len d)] ++ d ++ rest).
    destruct (read_or_spec b1 [byte_of_Z (len d)] (d ++ rest) e 1 Hb1 eq_refl) as (b2 & -> & Hb2 & Hc2 & Hr2);
      [lia|].
    cbn [mbind go_bind]. rewrite (Byte_last b2 (content b1) _ Hb2 Hc2). cbn [mbind go_bind].
    rewrite byte_to_of_Z_small by (unfold is_u8; lia).
    destruct (read_or_spec b2 d rest e (len d) Hb2 eq_refl) as (b3 & -> & Hb3 & Hc3 & Hr3); [lia|].
    cbn [mbind go_bind]. rewrite (BytesFrom_neg b3 (- len d) (content b2) d) by (done || lia).
    cbn [mbind go_bind]. destruct d as [|c d]; [done|].
    change (index (c :: d) 0) with (Some c). cbn [ok_or_panic mbind go_bind].
    exists b3. assert (Hroom : room b3 = room b - enc_size (domainAddress (c :: d))) by (cbn; lia).
    destruct (maybeIPPrefix c).
    + destruct (Hhd eq_refl) as [d' ->]. cbn [Family]. change (IsIP AddressFamilyDomain) with false.
      rewrite Hval. done.
    + change (IsIP (Family (DomainAddress (c :: d)))) with false. cbn [negb]. rewrite Hval. done.
Qed.

Lemma writeAddress_spec {W} `{Writer W} ap w a tb n :
  encodable a → index (addrByteMap ap) (Family a) = Some tb → 0 ≤ tb < 255 →
  0 ≤ n → fits w (enc_size a + n) →
  ∃ w', writeAddress ap w a = Ok w' ∧ output w' = output w ++ enc_address tb a ∧ fits w' n.
Proof.
  intros [Hwf Hdom] Htb Hrange Hn Hfit. unfold writeAddress. rewrite Htb.
  cbn [ok_or_panic mbind go_bind]. rewrite decide_False by (unfold afInvalid; lia).
  assert (Hchain : ∀ x y, enc_address tb a = x ++ y → len x + len y = enc_size a →
    ∃ w', (write_or w x ≫= λ w, write_or w y) = Ok w' ∧ output w' = output w ++ enc_address tb a
          ∧ fits w' n).
  { intros x y Henc Hl. pose proof (len_nonneg y).
    destruct (write_or_fits w x (len y + n)) as (w1 & -> & Ho1 & Hf1);
      [lia|by replace (len x + (len y + n)) with (enc_size a + n) by lia|].
    cbn [mbind go_bind]. destruct (write_or_fits w1 y n Hn Hf1) as (w2 & -> & Ho2 & Hf2).
    exists w2. split; [done|]. split; [|done]. by rewrite Ho2, Ho1, Henc, app_assoc. }
  destruct a as [ip|ip|d].
  - apply Hchain; [done|]. cbn in Hwf. unfold len. cbn. lia.
  - apply Hchain; [done|]. cbn in Hwf. unfold len. cbn. lia.
  - unfold isDomainTooLong. rewrite bool_decide_eq_false_2 by (destruct Hdom; lia).
    apply Hchain; [done|]. unfold enc_size. rewrite !len_cons, len_nil. lia.
Qed.

(** What is written is read back, into a buffer of the caller or a new one. *)
Lemma address_port_ok {W} `{Writer W} pooled s (w : W) a port n :
  supports (the_parser s) (Family a) → encodable a → is_u16 port →
  0 ≤ n → fits w (2 + enc_size a + n) →
  ∃ w' enc, WriteAddressPort s w a port = Ok w' ∧ fits w' n ∧ output w' = output w ++ enc ∧ len enc = 2 + enc_size a ∧
    ∀ buffer rest e, wf (default (New pooled) buffer) → 2 + enc_size a ≤ room (default (New pooled) buffer) →
      ∃ b', ReadAddressPort pooled s buffer (mkStream (enc ++ rest) e) = Ok (b', mkStream rest e, Some a, port) ∧ (buffer = None → b' = None).
Proof.
  intros (tb & Htb & Hrange & Ht & Hf) Ha Hp Hn Hfit.
  assert (Hl2 : ∀ z, len (put_be16 z) = 2) by done. pose proof (len_enc_address tb a Ha) as Hla. pose proof (enc_size_bound a Ha) as Hsz.
  destruct s as [ap|ap]; cbn [the_parser] in *.
  - destruct (write_or_fits w (put_be16 port) (enc_size a + n)) as (w1 & E1 & Ho1 & Hf1);
      [lia|by rewrite Hl2, Z.add_assoc|].
    destruct (writeAddress_spec ap w1 a tb n Ha Htb Hrange Hn Hf1) as (w2 & E2 & Ho2 & Hf2).
    exists w2, (put_be16 port ++ enc_address tb a). split; [|split; [done|split; [by rewrite Ho2, Ho1, app_assoc|split; [by rewrite len_app, Hl2, Hla|]]]].
    + cbn. unfold writePort. rewrite E1. exact E2.
    + intros buffer rest e Hb Hr. cbn [ReadAddressPort]. rewrite <- app_assoc.
      destruct (readPort_spec _ port (enc_address tb a ++ rest) e Hb Hp) as (b1 & -> & Hb1 & _ & Hr1); [lia|]. cbn [mbind go_bind].
      destruct (readAddress_spec ap b1 a tb rest e Hb1 Ha ltac:(lia) Htb Hrange Ht Hf) as (b2 & -> & _).
      eexists. split; [reflexivity|]. by intros ->.
  - destruct (writeAddress_spec ap w a tb (2 + n) Ha Htb Hrange) as (w1 & E1 & Ho1 & Hf1);
      [lia|by replace (enc_size a + (2 + n)) with (2 + enc_size a + n) by lia|].
    destruct (write_or_fits w1 (put_be16 port) n Hn) as (w2 & E2 & Ho2 & Hf2); [by rewrite Hl2|].
    exists w2, (enc_address tb a ++ put_be16 port). split; [|split; [done|split; [by rewrite Ho2, Ho1, app_assoc|split; [rewrite len_app, Hl2, Hla; lia|]]]].
    + cbn. rewrite E1. exact E2.
    + intros buffer rest e Hb Hr. cbn [ReadAddressPort]. rewrite <- app_assoc.
      destruct (readAddress_spec ap _ a tb (put_be16 port ++ rest) e Hb Ha ltac:(lia) Htb Hrange Ht Hf) as (b1 & -> & Hb1 & Hr1). cbn [mbind go_bind].
      destruct (readPort_spec b1 port rest e Hb1 Hp) as (b2 & -> & _); [lia|]. eexists. split; [reflexivity|]. by intros ->.
Qed.

Lemma room_new pooled : room (New pooled) = 8192.
Proof. unfold room, New, arr, Size. cbn -[Z.to_nat replicate]. case_decide; len_lia. Qed.

(** The address codec round-trips through any writer. For every supported
    family, every port and every encodable address, [WriteAddressPort] succeeds on
    a writer with room, and [ReadAddressPort] reads the same address and port back
    from its output, consuming exactly those bytes. Both field orders. *)
Lemma AddressPort_roundtrip {W} `{Writer W} pooled s (w : W) a port n :
  supports (the_parser s) (Family a) → encodable a → is_u16 port →
  0 ≤ n → fits w (2 + enc_size a + n) →
  ∃ w' enc, WriteAddressPort s w a port = Ok w' ∧ fits w' n ∧ output w' = output w ++ enc ∧
    ∀ rest e, ReadAddressPort pooled s None (mkStream (enc ++ rest) e)
              = Ok (None, mkStream rest e, Some a, port).
Proof.
  intros Hs Ha Hp Hn Hfit. destruct (address_port_ok pooled s w a port n Hs Ha Hp Hn Hfit) as (w' & enc & Hw & Hf & Ho & _ & Hr).
  exists w', enc. split; [done|]. split; [done|]. split; [done|]. intros rest e. pose proof (enc_size_bound a Ha).
  destruct (Hr None rest e (wf_New _)) as (b' & -> & Hb'); [cbn [default]; rewrite room_new; lia|]. by rewrite Hb'.
Qed.

(** ** The serializers of the protocols *)

Definition AddressTypeIPv4 : Z := 1.
Definition AddressTypeDomain : Z := 2.
Definition AddressTypeIPv6 : Z := 3.

(** [addrParser] of the mux, XUDP, VMess and VLESS packages. *)
Definition mux_options : list AddressOption :=
  [AddressFamilyByte AddressTypeIPv4 AddressFamilyIPv4;
   AddressFamilyByte AddressTypeDomain AddressFamilyDomain;
   AddressFamilyByte AddressTypeIPv6 AddressFamilyIPv6;
   PortThenAddress].

(** [addrParser] of the SOCKS and Trojan packages. *)
Definition socks_options : list AddressOption :=
  [AddressFamilyByte 1 AddressFamilyIPv4;
   AddressFamilyByte 4 AddressFamilyIPv6;
   AddressFamilyByte 3 AddressFamilyDomain].

(** [addrParser] of the Shadowsocks package: only the low four bits count. *)
Definition shadowsocks_options : list AddressOption :=
  socks_options ++ [WithAddressTypeParser (λ b, Z.land b 15)].

Definition built (options : list AddressOption) : AddressSerializer :=
  match NewAddressParser options with
  | Ok s => s
  | _ => portLastAddressParser (mkAddressParser [] [] None)
  end.

Definition muxParser : AddressSerializer := Eval vm_compute in built mux_options.
Definition socksParser : AddressSerializer := Eval vm_compute in built socks_options.
Definition ssParser : AddressSerializer := built shadowsocks_options.

Lemma parsers_support a s :
  s ∈ [muxParser; socksParser; ssParser] → supports (the_parser s) (Family a).
Proof.
  intros Hs. assert (Hf : Family a = 0 ∨ Family a = 1 ∨ Family a = 2) by (destruct a; auto).
  repeat (apply elem_of_cons in Hs as [->|Hs]); [..|by apply elem_of_nil in Hs].
  all: destruct Hf as [Hf|[Hf|Hf]]; rewrite Hf; eexists;
    (split; [reflexivity|]); vm_compute; repeat split; done.
Qed.

Lemma NewAddressParser_parsers :
  NewAddressParser mux_options = Ok muxParser ∧ NewAddressParser socks_options = Ok socksParser
  ∧ NewAddressParser shadowsocks_options = Ok ssParser.
Proof. repeat split. Qed.

Lemma AddressPort_roundtrip_witness :
  ∃ w' enc, WriteAddressPort muxParser (@nil byte) (domainAddress (s2b "example.com")) 443 = Ok w' ∧
    w' = enc ∧
    ReadAddressPort [] muxParser None (mkStream (enc ++ [x01]) EOF)
    = Ok (None, mkStream [x01] EOF, Some (domainAddress (s2b "example.com")), 443).
Proof.
  destruct (AddressPort_roundtrip [] muxParser (@nil byte)
              (domainAddress (s2b "example.com")) 443 0) as (w & enc & E & _ & Ho & Hr).
  - apply parsers_support. left.
  - split; [done|]. split; [vm_compute; split; discriminate|]. split; [reflexivity|]. discriminate.
  - unfold is_u16. lia.
  - lia.
  - exact I.
  - exists w, enc. split; [exact E|]. split; [exact Ho|]. apply Hr.
Defined.

(** ** A domain of 256 bytes *)

Definition all_bytes : list byte := byte_of_Z <$> seqZ 0 256.

Lemma elem_of_all_bytes b : b ∈ all_bytes.
Proof.
  apply list_elem_of_lookup. exists (Z.to_nat (byte_to_Z b)). destruct b; reflexivity.
Qed.

Definition is_domain (a : option Address) : bool :=
  match a with Some (domainAddress _) => true | _ => false end.

(** No text that ends in the type byte and a zero length is an IP address. *)
Lemma zero_length_not_ip p1 p2 : is_domain (ParseAddress [p1; p2; x02; x00]) = true.
Proof.
  assert (H : forallb (λ a, forallb (λ b, is_domain (ParseAddress [a; b; x02; x00])) all_bytes)
                all_bytes = true) by (vm_compute; reflexivity).
  rewrite forallb_forall in H. specialize (H p1).
  rewrite forallb_forall in H. apply H; apply list_elem_of_In, elem_of_all_bytes.
Qed.

(** Reading a domain of length zero takes the whole buffer for the domain and
    refuses it. *)
Lemma readAddress_zero_length pooled port rest e :
  is_u16 port →
  ReadAddressPort pooled muxParser None (mkStream (put_be16 port ++ x02 :: x00 :: rest) e)
  = Err (ErrMsg "invalid domain name: ").
Proof.
  intros Hp. cbn [ReadAddressPort muxParser].
  change (default (New pooled) None) with (New pooled).
  assert (Hroom : room (New pooled) = 8192).
  { unfold room, New, arr, Size. cbn -[Z.to_nat replicate]. case_decide; len_lia. }
  destruct (readPort_spec (New pooled) port (x02 :: x00 :: rest) e (wf_New _) Hp)
    as (b1 & -> & Hb1 & Hc1 & Hr1); [lia|]. cbn [mbind go_bind].
  rewrite content_New in Hc1. cbn [app] in Hc1. unfold readAddress.
  change (x02 :: x00 :: rest) with ([x02] ++ [x00] ++ [] ++ rest).
  destruct (read_or_spec b1 [x02] ([x00] ++ [] ++ rest) e 1 Hb1 eq_refl) as (b2 & -> & Hb2 & Hc2 & Hr2);
    [lia|]. cbn [mbind go_bind].
  rewrite (Byte_last b2 _ _ Hb2 Hc2). cbn [mbind go_bind typeParser].
  change (byte_to_Z x02) with 2. rewrite decide_False by lia.
  change (index _ 2) with (Some AddressFamilyDomain). cbn [ok_or_panic mbind go_bind].
  do 3 rewrite decide_False by done. rewrite decide_True by done.
  destruct (read_or_spec b2 [x00] ([] ++ rest) e 1 Hb2 eq_refl) as (b3 & -> & Hb3 & Hc3 & Hr3); [lia|].
  cbn [mbind go_bind]. rewrite (Byte_last b3 _ _ Hb3 Hc3). cbn [mbind go_bind].
  change (byte_to_Z x00) with 0.
  destruct (read_or_spec b3 [] rest e 0 Hb3 eq_refl) as (b4 & -> & Hb4 & Hc4 & Hr4); [lia|].
  cbn [mbind go_bind]. rewrite Hc3, Hc2, Hc1, app_nil_r in Hc4. cbn [put_be16 app] in Hc4.
  assert (HB : BytesFrom b4 (- 0) = Ok (content b4)).
  { unfold BytesFrom, from_end. rewrite decide_False by lia. unfold wf in Hb4.
    rewrite i32_small by (unfold is_i32; lia). rewrite slice_Some by lia. cbn.
    unfold content. by rewrite Z.add_0_r. }
  rewrite HB, Hc4. cbn [mbind go_bind]. unfold index. rewrite decide_True by lia.
  change (Z.to_nat 0) with 0%nat. cbn [lookup list_lookup ok_or_panic mbind go_bind].
  pose proof (zero_length_not_ip (byte_of_Z (Z.shiftr port 8)) (byte_of_Z port)) as Hd.
  assert (Hv : isValidDomain [byte_of_Z (Z.shiftr port 8); byte_of_Z port; x02; x00] = false).
  { unfold isValidDomain. cbn [forallb].
    replace (bool_decide (48 ≤ byte_to_Z x00 ≤ 57)) with false by done.
    rewrite !andb_false_r. reflexivity. }
  destruct (maybeIPPrefix _).
  - destruct (ParseAddress _) as [[?|?|d]|]; try done. cbn [Family].
    change (IsIP AddressFamilyDomain) with false. by rewrite Hv.
  - change (IsIP (Family (DomainAddress _))) with false. cbn [negb]. by rewrite Hv.
Qed.

(** A domain of exactly 256 bytes passes [isDomainTooLong] but its length does
    not fit the length byte: the writer succeeds with a length of zero, and the
    reader rejects what was written as an invalid domain. *)
Lemma domain_256_written_but_unreadable pooled d port :
  len d = 256 → is_u16 port →
  ∃ w, WriteAddressPort muxParser (@nil byte) (domainAddress d) port = Ok w ∧
    ∀ rest e, ReadAddressPort pooled muxParser None (mkStream (w ++ rest) e)
              = Err (ErrMsg "invalid domain name: ").
Proof.
  intros Hd Hp. exists (put_be16 port ++ [x02; x00] ++ d). split.
  - cbn [WriteAddressPort muxParser]. unfold writePort, writeAddress, isDomainTooLong.
    rewrite Hd. rewrite bool_decide_eq_false_2 by lia. done.
  - intros rest e. rewrite <- !app_assoc. cbn [app put_be16].
    by apply (readAddress_zero_length pooled port (d ++ rest)).
Qed.

Lemma domain_256_written_but_unreadable_witness :
  ∃ w, WriteAddressPort muxParser (@nil byte) (domainAddress (replicate 256 x61)) 80 = Ok w ∧
    ReadAddressPort [] muxParser None (mkStream (w ++ []) EOF) = Err (ErrMsg "invalid domain name: ").
Proof.
  destruct (domain_256_written_but_unreadable [] (replicate 256 x61) 80) as (w & E & H).
  - vm_compute. reflexivity.
  - unfold is_u16. lia.
  - exists w. split; [exact E|]. apply H.
Defined.
