(* ===== verification/KcpSegment.v ===== *)
(** * mKCP segments and their wire format

    Models [transport/internet/kcp/segment.go] (the three kinds of segment, their
    serialisation and [ReadSegment]), [io.go] (several segments in one packet) and
    [output.go] (the segment writer). [buf.New] is used with a new array here: what
    a recycled array holds never shows in a buffer's content. *)

From S2P Require Import Prelude Net Buf.

Definition CommandACK : Z := 0.
Definition CommandData : Z := 1.
Definition CommandTerminate : Z := 2.
Definition CommandPing : Z := 3.
Definition SegmentOptionClose : Z := 1.
Definition DataSegmentOverhead : Z := 18.
Definition ackNumberLimit : Z := 128.

Record DataSegment := mkData {
  ds_Conv : Z;
  ds_Option : Z;
  ds_Timestamp : Z;
  ds_Number : Z;
  ds_SendingNext : Z;
  ds_payload : option Buffer.t;
  ds_timeout : Z;
  ds_transmit : Z
}.

Record AckSegment := mkAck {
  as_Conv : Z;
  as_Option : Z;
  as_ReceivingWindow : Z;
  as_ReceivingNext : Z;
  as_Timestamp : Z;
  as_NumberList : list Z;
  as_Limit : Z
}.

Record CmdOnlySegment := mkCmd {
  cs_Conv : Z;
  cs_Cmd : Z;
  cs_Option : Z;
  cs_SendingNext : Z;
  cs_ReceivingNext : Z;
  cs_PeerRTO : Z
}.

Inductive Segment :=
| SegData (s : DataSegment)
| SegAck (s : AckSegment)
| SegCmd (s : CmdOnlySegment).

Definition NewDataSegment : DataSegment := mkData 0 0 0 0 0 None 0 0.

Definition NewAckSegment (limit : Z) : AckSegment :=
  let limit := if decide (limit ≤ 0) then 1 else limit in
  let limit := if decide (ackNumberLimit < limit) then ackNumberLimit else limit in
  mkAck 0 0 0 0 0 [] limit.

Definition NewCmdOnlySegment : CmdOnlySegment := mkCmd 0 0 0 0 0 0.

Definition Conversation (s : Segment) : Z :=
  match s with SegData s => ds_Conv s | SegAck s => as_Conv s | SegCmd s => cs_Conv s end.

Definition Command (s : Segment) : Z :=
  match s with SegData _ => CommandData | SegAck _ => CommandACK | SegCmd s => cs_Cmd s end.

(** ** Data segments *)

Definition set_payload (s : DataSegment) (p : option Buffer.t) : DataSegment :=
  mkData (ds_Conv s) (ds_Option s) (ds_Timestamp s) (ds_Number s) (ds_SendingNext s) p
         (ds_timeout s) (ds_transmit s).

(** [Data]: the payload, created when nil. *)
Definition Data (s : DataSegment) : Buffer.t := default (Buffer.New []) (ds_payload s).

Definition Detach (s : DataSegment) : option Buffer.t * DataSegment :=
  (ds_payload s, set_payload s None).

Definition DataSegment_Release (s : DataSegment) : DataSegment := set_payload s None.

(** [Len] of a possibly nil buffer. *)
Definition payload_Len (p : option Buffer.t) : Z :=
  match p with Some b => Buffer.Len b | None => 0 end.

(** [parse]: [None] is an invalid segment. *)
Definition DataSegment_parse (s : DataSegment) (conv opt : Z) (buf : list byte)
    : go (option (DataSegment * list byte)) :=
  if decide (len buf < 15) then Ok None
  else
    ts ← ok_or_panic (be32 buf);
    let buf := drop 4 buf in
    number ← ok_or_panic (be32 buf);
    let buf := drop 4 buf in
    next ← ok_or_panic (be32 buf);
    let buf := drop 4 buf in
    dataLen ← ok_or_panic (be16 buf);
    let buf := drop 2 buf in
    if decide (len buf < dataLen) then Ok None
    else
      '(p, _, _) ← Buffer.Write (Buffer.Clear (Data s)) (take (Z.to_nat dataLen) buf);
      Ok (Some (mkData conv opt ts number next (Some p) (ds_timeout s) (ds_transmit s),
                drop (Z.to_nat dataLen) buf)).

(** [Serialize] into a slice of [ByteSize] bytes; a nil payload is dereferenced. *)
Definition DataSegment_Serialize (s : DataSegment) : go (list byte) :=
  p ← ok_or_panic (ds_payload s);
  bs ← Buffer.Bytes p;
  Ok (put_be16 (ds_Conv s) ++ [byte_of_Z CommandData; byte_of_Z (ds_Option s)]
      ++ put_be32 (ds_Timestamp s) ++ put_be32 (ds_Number s) ++ put_be32 (ds_SendingNext s)
      ++ put_be16 (u16 (Buffer.Len p)) ++ bs).

Definition DataSegment_ByteSize (s : DataSegment) : Z :=
  i32 (2 + 1 + 1 + 4 + 4 + 4 + 2 + payload_Len (ds_payload s)).

(** ** Acknowledgements *)

Definition PutNumber (s : AckSegment) (number : Z) : AckSegment :=
  mkAck (as_Conv s) (as_Option s) (as_ReceivingWindow s) (as_ReceivingNext s) (as_Timestamp s)
        (as_NumberList s ++ [number]) (as_Limit s).

Definition PutTimestamp (s : AckSegment) (timestamp : Z) : AckSegment :=
  if decide (timestamp -32 as_Timestamp s < half32) then
    mkAck (as_Conv s) (as_Option s) (as_ReceivingWindow s) (as_ReceivingNext s) timestamp
          (as_NumberList s) (as_Limit s)
  else s.

Definition AckSegment_IsFull (s : AckSegment) : bool :=
  bool_decide (len (as_NumberList s) = as_Limit s).
Definition AckSegment_IsEmpty (s : AckSegment) : bool :=
  bool_decide (len (as_NumberList s) = 0).

Definition AckSegment_ByteSize (s : AckSegment) : Z :=
  i32 (2 + 1 + 1 + 4 + 4 + 4 + 1 + i32 (len (as_NumberList s) * 4)).

Fixpoint read_numbers (count : nat) (s : AckSegment) (buf : list byte)
    : go (AckSegment * list byte) :=
  match count with
  | O => Ok (s, buf)
  | S count =>
      n ← ok_or_panic (be32 buf);
      read_numbers count (PutNumber s n) (drop 4 buf)
  end.

Definition AckSegment_parse (s : AckSegment) (conv opt : Z) (buf : list byte)
    : go (option (AckSegment * list byte)) :=
  if decide (len buf < 13) then Ok None
  else
    wnd ← ok_or_panic (be32 buf);
    let buf := drop 4 buf in
    next ← ok_or_panic (be32 buf);
    let buf := drop 4 buf in
    ts ← ok_or_panic (be32 buf);
    let buf := drop 4 buf in
    c ← ok_or_panic (index buf 0);
    let count := byte_to_Z c in
    let buf := drop 1 buf in
    if decide (len buf < count * 4) then Ok None
    else
      '(s, buf) ← read_numbers (Z.to_nat count)
                    (mkAck conv opt wnd next ts (as_NumberList s) (as_Limit s)) buf;
      Ok (Some (s, buf)).

Definition AckSegment_Serialize (s : AckSegment) : list byte :=
  put_be16 (as_Conv s) ++ [byte_of_Z CommandACK; byte_of_Z (as_Option s)]
  ++ put_be32 (as_ReceivingWindow s) ++ put_be32 (as_ReceivingNext s)
  ++ put_be32 (as_Timestamp s) ++ [byte_of_Z (len (as_NumberList s))]
  ++ concat (put_be32 <$> as_NumberList s).

(** ** Commands *)

Definition CmdOnlySegment_ByteSize : Z := 2 + 1 + 1 + 4 + 4 + 4.

Definition CmdOnlySegment_parse (s : CmdOnlySegment) (conv cmd opt : Z) (buf : list byte)
    : go (option (CmdOnlySegment * list byte)) :=
  if decide (len buf < 12) then Ok None
  else
    next ← ok_or_panic (be32 buf);
    let buf := drop 4 buf in
    rnext ← ok_or_panic (be32 buf);
    let buf := drop 4 buf in
    rto ← ok_or_panic (be32 buf);
    let buf := drop 4 buf in
    Ok (Some (mkCmd conv cmd opt next rnext rto, buf)).

Definition CmdOnlySegment_Serialize (s : CmdOnlySegment) : list byte :=
  put_be16 (cs_Conv s) ++ [byte_of_Z (cs_Cmd s); byte_of_Z (cs_Option s)]
  ++ put_be32 (cs_SendingNext s) ++ put_be32 (cs_ReceivingNext s) ++ put_be32 (cs_PeerRTO s).

(** ** Any segment *)

Definition ByteSize (s : Segment) : Z :=
  match s with
  | SegData s => DataSegment_ByteSize s
  | SegAck s => AckSegment_ByteSize s
  | SegCmd _ => CmdOnlySegment_ByteSize
  end.

Definition Serialize (s : Segment) : go (list byte) :=
  match s with
  | SegData s => DataSegment_Serialize s
  | SegAck s => Ok (AckSegment_Serialize s)
  | SegCmd s => Ok (CmdOnlySegment_Serialize s)
  end.

Definition ReadSegment (buf : list byte) : go (option (Segment * list byte)) :=
  if decide (len buf < 4) then Ok None
  else
    conv ← ok_or_panic (be16 buf);
    let buf := drop 2 buf in
    cmd ← ok_or_panic (index buf 0);
    opt ← ok_or_panic (index buf 1);
    let cmd := byte_to_Z cmd in
    let opt := byte_to_Z opt in
    let buf := drop 2 buf in
    if decide (cmd = CommandData) then
      r ← DataSegment_parse NewDataSegment conv opt buf;
      Ok (match r with Some (s, extra) => Some (SegData s, extra) | None => None end)
    else if decide (cmd = CommandACK) then
      r ← AckSegment_parse (NewAckSegment 128) conv opt buf;
      Ok (match r with Some (s, extra) => Some (SegAck s, extra) | None => None end)
    else
      r ← CmdOnlySegment_parse NewCmdOnlySegment conv cmd opt buf;
      Ok (match r with Some (s, extra) => Some (SegCmd s, extra) | None => None end).

(** [KCPPacketReader.Read]: the segments up to the first invalid one. Every
    segment takes at least sixteen bytes, so the length of the packet is fuel
    enough. *)
Fixpoint read_packet (fuel : nat) (b : list byte) : go (list Segment) :=
  match fuel with
  | O => Ok []
  | S fuel =>
      match b with
      | [] => Ok []
      | _ =>
          r ← ReadSegment b;
          match r with
          | None => Ok []
          | Some (seg, x) => rest ← read_packet fuel x; Ok (seg :: rest)
          end
      end
  end.
Definition KCPPacketReader_Read (b : list byte) : go (list Segment) := read_packet (length b) b.

(** [SimpleSegmentWriter.Write]: the reused buffer and the packet handed to the
    underlying writer. *)
Definition SimpleSegmentWriter_Write (buffer : Buffer.t) (seg : Segment)
    : go (Buffer.t * list byte) :=
  let buffer := Buffer.Clear buffer in
  let n := ByteSize seg in
  buffer ← Buffer.Extend buffer n;
  bs ← Serialize seg;
  let buffer := Buffer.poke buffer (Buffer.end_ buffer - n) bs in
  out ← Buffer.Bytes buffer;
  Ok (buffer, out).

(** ** Well-formed segments and what the wire carries *)

Definition wf_data (s : DataSegment) : Prop :=
  is_u16 (ds_Conv s) ∧ is_u8 (ds_Option s) ∧ is_u32 (ds_Timestamp s) ∧ is_u32 (ds_Number s)
  ∧ is_u32 (ds_SendingNext s) ∧
  ∃ p, ds_payload s = Some p ∧ Buffer.wf p ∧ len (Buffer.content p) ≤ Buffer.Size.

Definition wf_ack (s : AckSegment) : Prop :=
  is_u16 (as_Conv s) ∧ is_u8 (as_Option s) ∧ is_u32 (as_ReceivingWindow s)
  ∧ is_u32 (as_ReceivingNext s) ∧ is_u32 (as_Timestamp s) ∧ Forall is_u32 (as_NumberList s)
  ∧ len (as_NumberList s) ≤ 255.

Definition wf_cmd (s : CmdOnlySegment) : Prop :=
  is_u16 (cs_Conv s) ∧ is_u8 (cs_Cmd s) ∧ is_u8 (cs_Option s) ∧ is_u32 (cs_SendingNext s)
  ∧ is_u32 (cs_ReceivingNext s) ∧ is_u32 (cs_PeerRTO s) ∧ cs_Cmd s ≠ CommandACK
  ∧ cs_Cmd s ≠ CommandData.

Definition wf_segment (s : Segment) : Prop :=
  match s with SegData s => wf_data s | SegAck s => wf_ack s | SegCmd s => wf_cmd s end.

Definition payload_bytes (s : DataSegment) : list byte :=
  match ds_payload s with Some p => Buffer.content p | None => [] end.

Definition nonempty_data (s : Segment) : Prop :=
  match s with SegData s => payload_bytes s ≠ [] | _ => True end.

(** Equal but for what does not travel: the retransmission bookkeeping, the
    buffer the payload sits in, and the limit of an acknowledgement. *)
Definition wire_eq (s t : Segment) : Prop :=
  match s, t with
  | SegData s, SegData t =>
      ds_Conv s = ds_Conv t ∧ ds_Option s = ds_Option t ∧ ds_Timestamp s = ds_Timestamp t
      ∧ ds_Number s = ds_Number t ∧ ds_SendingNext s = ds_SendingNext t
      ∧ payload_bytes s = payload_bytes t ∧ wf_data t
  | SegAck s, SegAck t =>
      as_Conv s = as_Conv t ∧ as_Option s = as_Option t
      ∧ as_ReceivingWindow s = as_ReceivingWindow t ∧ as_ReceivingNext s = as_ReceivingNext t
      ∧ as_Timestamp s = as_Timestamp t ∧ as_NumberList s = as_NumberList t
  | SegCmd s, SegCmd t => s = t
  | _, _ => False
  end.

(** A data segment carries the message its number stands for. *)
Definition valid_data (msgs : list (list byte)) (seg : DataSegment) : Prop :=
  wf_data seg ∧ msgs !! Z.to_nat (ds_Number seg) = Some (payload_bytes seg).

Lemma valid_number msgs seg : valid_data msgs seg → 0 ≤ ds_Number seg < len msgs.
Proof.
  intros [(_ & _ & _ & Hn & _) Hl]. unfold is_u32 in Hn. apply lookup_lt_Some in Hl. unfold len. lia.
Qed.

Lemma valid_mono msgs more seg : valid_data msgs seg → valid_data (msgs ++ more) seg.
Proof. intros [? ?]. split; [done|]. by apply lookup_app_l_Some. Qed.

(** ** Round trip *)

Lemma len_put_be16 z : len (put_be16 z) = 2. Proof. done. Qed.
Lemma len_put_be32 z : len (put_be32 z) = 4. Proof. done. Qed.
Lemma drop_put_be16 z rest : drop 2 (put_be16 z ++ rest) = rest. Proof. done. Qed.
Lemma drop_put_be32 z rest : drop 4 (put_be32 z ++ rest) = rest. Proof. done. Qed.

Ltac kcp_len := rewrite ?len_app, ?len_put_be16, ?len_put_be32, ?len_cons, ?len_nil.

(** Reading the next word of a serialised header. *)
Ltac kcp_word :=
  rewrite be32_put by done; cbn [ok_or_panic mbind go_bind]; rewrite drop_put_be32.

Lemma DataSegment_parse_Serialize s p rest :
  wf_data s → ds_payload s = Some p → (Buffer.content p ≠ [] ∨ rest ≠ []) →
  ∃ s', DataSegment_parse NewDataSegment (ds_Conv s) (ds_Option s)
      (put_be32 (ds_Timestamp s) ++ put_be32 (ds_Number s) ++ put_be32 (ds_SendingNext s)
       ++ put_be16 (u16 (Buffer.Len p)) ++ Buffer.content p ++ rest) = Ok (Some (s', rest))
    ∧ wire_eq (SegData s) (SegData s').
Proof.
  intros (Hc & Ho & Ht & Hn & Hs & q & Hq & Hwf & Hsz) Hp Hne.
  rewrite Hp in Hq. injection Hq as <-. pose proof (len_nonneg (Buffer.content p)).
  pose proof (len_nonneg rest).
  assert (0 < len (Buffer.content p) + len rest).
  { destruct Hne as [Hne%len_pos|Hne%len_pos]; lia. }
  unfold DataSegment_parse. rewrite decide_False by (kcp_len; lia).
  do 3 kcp_word. rewrite Buffer.Len_wf by done.
  rewrite u16_small by (unfold is_u16, Buffer.Size in *; lia).
  rewrite be16_put by (unfold is_u16, Buffer.Size in *; lia). cbn [ok_or_panic mbind go_bind].
  rewrite drop_put_be16. rewrite decide_False by (kcp_len; lia).
  rewrite to_nat_len, take_app_length, drop_app_length.
  destruct (Buffer.Write_spec (Buffer.Clear (Data NewDataSegment)) (Buffer.content p))
    as (p' & -> & Hp' & Hc' & _).
  { apply Buffer.wf_Clear, Buffer.wf_New. }
  cbn [mbind go_bind]. eexists. split; [reflexivity|]. rewrite Buffer.content_Clear in Hc'.
  rewrite take_ge in Hc'.
  2:{ change (Buffer.room (Buffer.Clear (Data NewDataSegment))) with 8192.
      unfold Buffer.Size in *. len_lia. }
  cbn [wire_eq ds_Conv ds_Option ds_Timestamp ds_Number ds_SendingNext payload_bytes ds_payload].
  unfold payload_bytes, wf_data. cbn. rewrite Hp, Hc'. split_and!; try done.
  exists p'. rewrite Hc'. done.
Qed.

Lemma read_numbers_put ns s rest :
  Forall is_u32 ns →
  read_numbers (length ns) s (concat (put_be32 <$> ns) ++ rest)
  = Ok (mkAck (as_Conv s) (as_Option s) (as_ReceivingWindow s) (as_ReceivingNext s)
              (as_Timestamp s) (as_NumberList s ++ ns) (as_Limit s), rest).
Proof.
  intros Hns. revert s. induction Hns as [|n ns Hn _ IH]; intros s.
  { cbn. rewrite app_nil_r. by destruct s. }
  cbn [length read_numbers]. rewrite fmap_cons. cbn [concat]. rewrite <- app_assoc.
  kcp_word. rewrite IH. cbn. by rewrite <- app_assoc.
Qed.

Lemma len_numbers ns : len (concat (put_be32 <$> ns)) = 4 * len ns.
Proof.
  induction ns as [|n ns IH]; [done|]. rewrite fmap_cons. cbn [concat].
  rewrite len_app, IH, len_cons, len_put_be32. lia.
Qed.

Lemma AckSegment_parse_Serialize s rest :
  wf_ack s →
  ∃ s', AckSegment_parse (NewAckSegment 128) (as_Conv s) (as_Option s)
      (put_be32 (as_ReceivingWindow s) ++ put_be32 (as_ReceivingNext s)
       ++ put_be32 (as_Timestamp s) ++ [byte_of_Z (len (as_NumberList s))]
       ++ concat (put_be32 <$> as_NumberList s) ++ rest) = Ok (Some (s', rest))
    ∧ wire_eq (SegAck s) (SegAck s').
Proof.
  intros (Hc & Ho & Hw & Hr & Ht & Hn & Hl). pose proof (len_nonneg (as_NumberList s)).
  pose proof (len_nonneg rest).
  unfold AckSegment_parse. rewrite decide_False by (kcp_len; rewrite len_numbers; lia).
  do 3 kcp_word. change (index ([?b] ++ ?l) 0) with (Some b). cbn [ok_or_panic mbind go_bind].
  rewrite byte_to_of_Z_small by (unfold is_u8; lia). cbn [app].
  change (drop 1 (?b :: ?l)) with l.
  rewrite decide_False by (kcp_len; rewrite len_numbers; lia).
  rewrite to_nat_len, read_numbers_put by done. cbn.
  eexists. split; [reflexivity|]. done.
Qed.

Lemma CmdOnlySegment_parse_Serialize s rest :
  wf_cmd s →
  CmdOnlySegment_parse NewCmdOnlySegment (cs_Conv s) (cs_Cmd s) (cs_Option s)
    (put_be32 (cs_SendingNext s) ++ put_be32 (cs_ReceivingNext s) ++ put_be32 (cs_PeerRTO s) ++ rest)
  = Ok (Some (s, rest)).
Proof.
  intros (? & ? & ? & ? & ? & ? & _). pose proof (len_nonneg rest).
  unfold CmdOnlySegment_parse. rewrite decide_False by (kcp_len; lia).
  do 3 kcp_word. by destruct s.
Qed.

Lemma ReadSegment_header conv cmd opt body :
  is_u16 conv → is_u8 cmd → is_u8 opt →
  ReadSegment (put_be16 conv ++ [byte_of_Z cmd; byte_of_Z opt] ++ body)
  = if decide (cmd = CommandData) then
      r ← DataSegment_parse NewDataSegment conv opt body;
      Ok (match r with Some (s, extra) => Some (SegData s, extra) | None => None end)
    else if decide (cmd = CommandACK) then
      r ← AckSegment_parse (NewAckSegment 128) conv opt body;
      Ok (match r with Some (s, extra) => Some (SegAck s, extra) | None => None end)
    else
      r ← CmdOnlySegment_parse NewCmdOnlySegment conv cmd opt body;
      Ok (match r with Some (s, extra) => Some (SegCmd s, extra) | None => None end).
Proof.
  intros Hc Hd Ho. unfold ReadSegment. pose proof (len_nonneg body).
  rewrite decide_False by (kcp_len; lia).
  rewrite be16_put by done. cbn [ok_or_panic mbind go_bind]. rewrite drop_put_be16.
  change (index ([?a; ?b] ++ ?l) 0) with (Some a).
  change (index ([?a; ?b] ++ ?l) 1) with (Some b). cbn [ok_or_panic mbind go_bind].
  rewrite !byte_to_of_Z_small by done. reflexivity.
Qed.

(** A serialised segment, with anything behind it, reads back. *)
Lemma ReadSegment_Serialize s rest :
  wf_segment s → (nonempty_data s ∨ rest ≠ []) →
  ∃ bs s', Serialize s = Ok bs ∧ ReadSegment (bs ++ rest) = Ok (Some (s', rest))
    ∧ wire_eq s s' ∧ len bs = ByteSize s ∧ 16 ≤ len bs ≤ 8210.
Proof.
  intros Hwf Hne. destruct s as [s|s|s]; cbn [wf_segment nonempty_data Serialize ByteSize] in *.
  - pose proof Hwf as (Hc & Ho & _ & _ & _ & p & Hp & Hpw & Hsz).
    destruct (DataSegment_parse_Serialize s p rest Hwf Hp) as (s' & E & Hw).
    { destruct Hne as [Hne|]; [left|by right]. unfold payload_bytes in Hne. by rewrite Hp in Hne. }
    unfold DataSegment_Serialize. rewrite Hp. cbn [ok_or_panic mbind go_bind].
    rewrite Buffer.Bytes_wf by done. cbn [mbind go_bind].
    eexists _, (SegData s'). split; [reflexivity|]. split; [|split; [done|]].
    + rewrite <- !app_assoc. rewrite ReadSegment_header by done.
      rewrite decide_True by done. rewrite E. done.
    + pose proof (len_nonneg (Buffer.content p)). unfold Buffer.Size in Hsz.
      kcp_len. unfold DataSegment_ByteSize. rewrite Hp. cbn [payload_Len].
      rewrite Buffer.Len_wf by done. rewrite i32_small by (unfold is_i32; lia). lia.
  - pose proof Hwf as (Hc & Ho & _ & _ & _ & _ & Hl).
    destruct (AckSegment_parse_Serialize s rest Hwf) as (s' & E & Hw).
    eexists _, (SegAck s'). split; [reflexivity|]. split; [|split; [done|]].
    + unfold AckSegment_Serialize. rewrite <- !app_assoc.
      rewrite ReadSegment_header by done. rewrite decide_False by done. rewrite decide_True by done.
      rewrite E. done.
    + pose proof (len_nonneg (as_NumberList s)). unfold AckSegment_Serialize.
      kcp_len. rewrite len_numbers. unfold AckSegment_ByteSize.
      rewrite !i32_small by (unfold is_i32; try rewrite i32_small by (unfold is_i32; lia); lia). lia.
  - pose proof Hwf as (Hc & Hd & Ho & _ & _ & _ & Hna & Hnd).
    eexists _, (SegCmd s). split; [reflexivity|]. split; [|split; [done|done]].
    unfold CmdOnlySegment_Serialize. rewrite <- !app_assoc.
    rewrite ReadSegment_header by done. do 2 rewrite decide_False by done.
    by rewrite CmdOnlySegment_parse_Serialize.
Qed.

(** All segments of a packet, serialised one after the other. *)
Fixpoint serialize_all (ss : list Segment) : go (list byte) :=
  match ss with
  | [] => Ok []
  | s :: ss => a ← Serialize s; b ← serialize_all ss; Ok (a ++ b)
  end.

Lemma read_packet_serialize_all fuel ss bs :
  Forall (λ s, wf_segment s ∧ nonempty_data s) ss → serialize_all ss = Ok bs →
  (length bs ≤ fuel)%nat →
  ∃ ss', read_packet fuel bs = Ok ss' ∧ Forall2 wire_eq ss ss'.
Proof.
  intros Hss. revert fuel bs. induction Hss as [|s ss [Hwf Hne] _ IH]; intros fuel bs.
  { intros [= <-] _. exists []. split; [by destruct fuel|constructor]. }
  cbn [serialize_all]. destruct (serialize_all ss) as [b| |] eqn:Eb;
    [|by destruct (Serialize s)..].
  destruct (ReadSegment_Serialize s b Hwf) as (a & s' & Ea & Er & Hw & _ & Hl); [by left|].
  rewrite Ea. cbn. intros [= <-] Hf. unfold len in Hl. rewrite length_app in Hf.
  destruct fuel as [|fuel]; [lia|].
  destruct (IH fuel b eq_refl) as (ss' & E & Hws); [lia|].
  exists (s' :: ss'). cbn [read_packet].
  destruct (a ++ b) eqn:Eab; [by destruct a; cbn in *; [lia|]|].
  rewrite <- Eab in *. rewrite Er. cbn. rewrite E. split; [done|by constructor].
Qed.

(** A packet of several segments reads back whole and in order:
    [KCPPacketReader.Read] on the concatenated serialisations returns exactly those
    segments, field by field and payload byte by byte. *)
Lemma packet_roundtrip ss :
  Forall (λ s, wf_segment s ∧ nonempty_data s) ss →
  ∃ bs ss', serialize_all ss = Ok bs ∧ KCPPacketReader_Read bs = Ok ss' ∧ Forall2 wire_eq ss ss'.
Proof.
  intros Hss. assert (∃ bs, serialize_all ss = Ok bs) as [bs Hbs].
  { clear -Hss. induction Hss as [|s ss [Hwf Hne] _ [b IH]]; [by eexists|].
    destruct (ReadSegment_Serialize s [] Hwf) as (a & _ & Ea & _); [by left|].
    cbn. rewrite Ea. cbn. rewrite IH. by eexists. }
  destruct (read_packet_serialize_all (length bs) ss bs Hss Hbs) as (ss' & ? & ?); [done|].
  by exists bs, ss'.
Qed.

(** What the segment writer hands to the socket is the serialisation. *)
Lemma SimpleSegmentWriter_Write_spec buffer seg :
  Buffer.wf buffer → wf_segment seg → ByteSize seg ≤ len (Buffer.arr buffer) →
  ∃ buffer' bs, SimpleSegmentWriter_Write buffer seg = Ok (buffer', bs) ∧ Serialize seg = Ok bs
    ∧ Buffer.wf buffer'.
Proof.
  intros Hb Hwf Hsz. destruct (ReadSegment_Serialize seg [x00] Hwf) as (bs & _ & Es & _ & _ & Hl & Hr);
    [by right|].
  unfold SimpleSegmentWriter_Write. pose proof (Buffer.wf_Clear buffer Hb) as Hc.
  destruct (Buffer.Extend_spec (Buffer.Clear buffer) (ByteSize seg) Hc)
    as (e & -> & He & Hce & _ & _ & Hee & Hse & _).
  { unfold Buffer.room. cbn [Buffer.end_ Buffer.Clear Buffer.set_window].
    change (Buffer.arr (Buffer.Clear buffer)) with (Buffer.arr buffer). lia. }
  cbn [mbind go_bind]. rewrite Es. cbn [mbind go_bind].
  destruct (Buffer.poke_spec e bs (ByteSize seg) He Hl) as (p & _ & Hlp & Hwp & Hcp & _).
  { rewrite Hee, Hse. cbn. lia. }
  assert (p = []) as -> by (apply len_0_nil; rewrite Hlp, Hee, Hse; cbn; lia).
  rewrite Buffer.Bytes_wf, Hcp by done. cbn. by eexists _, _.
Qed.

(** Whatever the segment writer sends, the packet reader of the peer reads:
    one segment, equal to the one written. *)
Theorem segment_writer_reader buffer seg :
  Buffer.wf buffer → len (Buffer.arr buffer) = Buffer.Size →
  wf_segment seg → nonempty_data seg → ByteSize seg ≤ Buffer.Size →
  ∃ buffer' bs seg', SimpleSegmentWriter_Write buffer seg = Ok (buffer', bs) ∧ Buffer.wf buffer' ∧
    KCPPacketReader_Read bs = Ok [seg'] ∧ wire_eq seg seg'.
Proof.
  intros Hb Ha Hwf Hne Hsz.
  destruct (SimpleSegmentWriter_Write_spec buffer seg Hb Hwf) as (b' & bs & Ew & Es & Hb'); [lia|].
  destruct (read_packet_serialize_all (length bs) [seg] bs) as (ss' & Er & Hw).
  - by apply Forall_cons_2; [|apply Forall_nil_2].
  - cbn. rewrite Es. cbn. by rewrite app_nil_r.
  - done.
  - inversion Hw as [|? s' ? l ? Hl]; subst. inversion Hl; subst. by eexists b', bs, s'.
Qed.

(** ** Totality of the parser *)

Lemma be32_Some bs : 4 ≤ len bs → ∃ z, be32 bs = Some z ∧ is_u32 z.
Proof.
  intros H. destruct (be32 bs) as [z|] eqn:E; [exists z; split; [done|by eapply be32_range]|].
  exfalso. do 4 (destruct bs as [|? bs]; [rewrite ?len_cons, len_nil in H; lia|]). done.
Qed.

Lemma be16_Some bs : 2 ≤ len bs → ∃ z, be16 bs = Some z ∧ is_u16 z.
Proof.
  intros H. destruct (be16 bs) as [z|] eqn:E; [exists z; split; [done|by eapply be16_range]|].
  exfalso. do 2 (destruct bs as [|? bs]; [rewrite ?len_cons, len_nil in H; lia|]). done.
Qed.

Lemma index_Some {A} (l : list A) i : 0 ≤ i < len l → ∃ x, index l i = Some x.
Proof.
  intros H. unfold index. rewrite decide_True by lia.
  destruct (lookup_lt_is_Some_2 l (Z.to_nat i)) as [x Hx]; [len_lia|]. by exists x.
Qed.

Lemma len_drop {A} n (l : list A) : len (drop n l) = Z.max 0 (len l - Z.of_nat n).
Proof. unfold len. rewrite length_drop. lia. Qed.

Lemma read_numbers_total count s buf :
  4 * Z.of_nat count ≤ len buf → ∃ s' x, read_numbers count s buf = Ok (s', x) ∧ len x ≤ len buf.
Proof.
  revert s buf. induction count as [|count IH]; intros s buf H; [by eexists _, _|].
  cbn [read_numbers]. destruct (be32_Some buf) as (z & -> & _); [lia|]. cbn [ok_or_panic mbind go_bind].
  destruct (IH (PutNumber s z) (drop 4 buf)) as (s' & x & -> & Hx); [rewrite len_drop; lia|].
  rewrite len_drop in Hx. eexists _, _. split; [done|]. pose proof (len_nonneg x). lia.
Qed.

Ltac next_word z Hz :=
  match goal with
  | |- context [ok_or_panic (be32 ?b)] =>
      destruct (be32_Some b) as (z & -> & Hz); [rewrite ?len_drop; lia|]
  end; cbn [ok_or_panic mbind go_bind].

Lemma DataSegment_parse_total conv opt buf :
  ∃ r, DataSegment_parse NewDataSegment conv opt buf = Ok r ∧
    match r with Some (_, x) => len x < len buf | None => True end.
Proof.
  unfold DataSegment_parse. case_decide as Hl; [by eexists|].
  next_word a Ha. next_word b Hb. next_word c Hc.
  destruct (be16_Some (drop 4 (drop 4 (drop 4 buf)))) as (n & -> & Hn); [rewrite !len_drop; lia|].
  cbn [ok_or_panic mbind go_bind]. case_decide as Hn'; [by eexists|].
  destruct (Buffer.Write_spec (Buffer.Clear (Data NewDataSegment))
    (take (Z.to_nat n) (drop 2 (drop 4 (drop 4 (drop 4 buf)))))) as (p & -> & _).
  { apply Buffer.wf_Clear, Buffer.wf_New. }
  cbn [mbind go_bind]. eexists. split; [reflexivity|]. cbv beta iota. rewrite !len_drop. lia.
Qed.

Lemma AckSegment_parse_total conv opt buf :
  ∃ r, AckSegment_parse (NewAckSegment 128) conv opt buf = Ok r ∧
    match r with Some (_, x) => len x < len buf | None => True end.
Proof.
  unfold AckSegment_parse. case_decide as Hl; [by eexists|].
  next_word a Ha. next_word b Hb. next_word c Hc.
  destruct (index_Some (drop 4 (drop 4 (drop 4 buf))) 0) as (n & ->); [rewrite !len_drop; lia|].
  cbn [ok_or_panic mbind go_bind]. case_decide as Hn; [by eexists|].
  pose proof (byte_to_Z_range n) as Hr. unfold is_u8 in Hr.
  edestruct (read_numbers_total (Z.to_nat (byte_to_Z n))) as (s' & x & -> & Hx);
    [rewrite !len_drop in *; lia|].
  cbn [mbind go_bind]. eexists. split; [reflexivity|]. cbv beta iota. rewrite !len_drop in Hx. pose proof (len_nonneg x). lia.
Qed.

Lemma CmdOnlySegment_parse_total conv cmd opt buf :
  ∃ r, CmdOnlySegment_parse NewCmdOnlySegment conv cmd opt buf = Ok r ∧
    match r with Some (_, x) => len x < len buf | None => True end.
Proof.
  unfold CmdOnlySegment_parse. case_decide as Hl; [by eexists|].
  next_word a Ha. next_word b Hb. next_word c Hc.
  eexists. split; [reflexivity|]. cbv beta iota. rewrite !len_drop. lia.
Qed.

Lemma ReadSegment_total buf :
  ∃ r, ReadSegment buf = Ok r ∧
    match r with Some (_, x) => len x < len buf | None => True end.
Proof.
  unfold ReadSegment. case_decide as Hl; [by eexists|].
  destruct (be16_Some buf) as (conv & -> & _); [lia|]. cbn [ok_or_panic mbind go_bind].
  destruct (index_Some (drop 2 buf) 0) as (cmd & ->); [rewrite !len_drop; lia|].
  cbn [ok_or_panic mbind go_bind].
  destruct (index_Some (drop 2 buf) 1) as (opt & ->); [rewrite !len_drop; lia|].
  cbn [ok_or_panic mbind go_bind]. repeat case_decide.
  1: edestruct DataSegment_parse_total as (r & -> & Hr).
  2: edestruct AckSegment_parse_total as (r & -> & Hr).
  3: edestruct CmdOnlySegment_parse_total as (r & -> & Hr).
  all: cbn; eexists; (split; [reflexivity|]); destruct r as [[s x]|]; [|done];
    rewrite !len_drop in Hr; lia.
Qed.

Lemma read_packet_fuel n : ∀ b, (length b ≤ n)%nat →
  ∃ ss, ∀ fuel, (n ≤ fuel)%nat → read_packet fuel b = Ok ss.
Proof.
  induction n as [|n IH]; intros b Hb.
  - destruct b; [|cbn in Hb; lia]. exists []. by intros [|fuel].
  - destruct b as [|c b]; [exists []; by intros [|fuel]|].
    destruct (ReadSegment_total (c :: b)) as (r & Er & Hr). destruct r as [[s x]|].
    + destruct (IH x) as [ss Hss]; [unfold len in Hr; lia|]. exists (s :: ss).
      intros [|fuel] Hn; [lia|]. cbn [read_packet]. rewrite Er. cbn [mbind go_bind].
      rewrite Hss; [done|lia].
    + exists []. intros [|fuel] Hn; [lia|]. cbn [read_packet]. by rewrite Er.
Qed.

Lemma packet_read_total b : ∃ ss, KCPPacketReader_Read b = Ok ss.
Proof. destruct (read_packet_fuel (length b) b) as [ss H]; [done|]. exists ss. by apply H. Qed.

(** No packet makes the segment parser panic. On any bytes at all
    [KCPPacketReader.Read] returns, without error, and more fuel changes nothing:
    every accepted segment shortens the packet. *)
Lemma packet_reader_total b fuel :
  (length b ≤ fuel)%nat →
  ∃ ss, KCPPacketReader_Read b = Ok ss ∧ read_packet fuel b = Ok ss.
Proof.
  intros Hf. destruct (read_packet_fuel (length b) b) as [ss H]; [done|]. exists ss.
  split; by apply H.
Qed.

Lemma ReadSegment_empty s bs :
  wf_data s → payload_bytes s = [] → Serialize (SegData s) = Ok bs →
  len bs = DataSegmentOverhead ∧ ReadSegment bs = Ok None.
Proof.
  intros (Hc & Ho & _ & _ & _ & p & Hp & Hpw & _) He. unfold payload_bytes in He. rewrite Hp in He.
  cbn [Serialize]. unfold DataSegment_Serialize. rewrite Hp. cbn [ok_or_panic mbind go_bind].
  rewrite Buffer.Bytes_wf, He by done. cbn [mbind go_bind]. intros [= <-].
  split; [done|]. etransitivity; [apply (ReadSegment_header (ds_Conv s) CommandData (ds_Option s)
    (put_be32 (ds_Timestamp s) ++ put_be32 (ds_Number s) ++ put_be32 (ds_SendingNext s)
     ++ put_be16 (u16 (Buffer.Len p)))); done|].
  rewrite decide_True by done. unfold DataSegment_parse. by rewrite decide_True by (kcp_len; lia).
Qed.

(** A data segment with an empty payload is written but not read: the parser
    asks for fifteen bytes after the header where fourteen make a whole segment. *)
Lemma empty_data_segment_not_read s bs :
  wf_data s → payload_bytes s = [] → Serialize (SegData s) = Ok bs →
  len bs = DataSegmentOverhead ∧ ReadSegment bs = Ok None.
Proof. apply ReadSegment_empty. Qed.

(** What the peer reads of one packet: the segment, or nothing for an empty payload. *)
Lemma packet_read seg bs segs :
  wf_segment seg → Serialize seg = Ok bs → KCPPacketReader_Read bs = Ok segs →
  Forall (wire_eq seg) segs.
Proof.
  intros Hwf Es Er.
  assert (nonempty_data seg ∨ ∃ s, seg = SegData s ∧ payload_bytes s = []) as [Hne|(s & -> & He)].
  { destruct seg as [s| |]; [|by left..]. cbn. destruct (payload_bytes s) eqn:E; [|by left].
    right. by exists s. }
  - destruct (read_packet_serialize_all (length bs) [seg] bs) as (ss & E & Hw).
    + by apply Forall_cons_2; [|apply Forall_nil_2].
    + cbn. rewrite Es. cbn. by rewrite app_nil_r.
    + done.
    + unfold KCPPacketReader_Read in Er. rewrite E in Er. injection Er as <-.
      inversion Hw as [|? s' ? l ? Hl]; subst. inversion Hl; subst.
      by apply Forall_cons_2; [|apply Forall_nil_2].
  - destruct (ReadSegment_empty s bs Hwf He Es) as [_ E]. unfold KCPPacketReader_Read in Er.
    destruct bs as [|x bs]; [injection Er as <-; apply Forall_nil_2|]. cbn [length read_packet] in Er.
    rewrite E in Er. injection Er as <-. apply Forall_nil_2.
Qed.

(** ** Witnesses *)

Definition sample_data : DataSegment :=
  mkData 7 0 1000 3 1 (Some (Buffer.FromBytes [x61; x62])) 0 0.
Definition sample_empty : DataSegment :=
  mkData 7 0 1000 3 1 (Some (Buffer.FromBytes [])) 0 0.
Definition sample_ack : AckSegment := mkAck 7 1 40 8 999 [5; 6] 128.
Definition sample_cmd : CmdOnlySegment := mkCmd 7 CommandPing 0 1 8 100.

Lemma sample_data_wf : wf_data sample_data.
Proof.
  unfold wf_data, is_u16, is_u8, is_u32. cbn. split_and!; try lia. eexists. split; [done|].
  split; [apply Buffer.wf_FromBytes; vm_compute; done|vm_compute; discriminate].
Qed.

Lemma sample_segments_wf :
  Forall (λ s, wf_segment s ∧ nonempty_data s) [SegData sample_data; SegAck sample_ack; SegCmd sample_cmd].
Proof.
  apply Forall_cons_2; [split; [apply sample_data_wf|discriminate]|].
  apply Forall_cons_2; [|apply Forall_cons_2; [|apply Forall_nil_2]]; (split; [|done]).
  - unfold wf_segment, wf_ack, is_u16, is_u8, is_u32. cbn. split_and!; try lia.
    + solve_Forall ltac:(unfold is_u32; lia).
    + vm_compute. discriminate.
  - unfold wf_segment, wf_cmd, is_u16, is_u8, is_u32. cbn. vm_compute. intuition discriminate.
Qed.

Lemma packet_roundtrip_witness :
  ∃ bs ss', serialize_all [SegData sample_data; SegAck sample_ack; SegCmd sample_cmd] = Ok bs ∧
    KCPPacketReader_Read bs = Ok ss' ∧
    Forall2 wire_eq [SegData sample_data; SegAck sample_ack; SegCmd sample_cmd] ss'.
Proof. apply (packet_roundtrip _ sample_segments_wf). Defined.

Lemma segment_writer_reader_witness :
  ∃ buffer' bs seg', SimpleSegmentWriter_Write (Buffer.New []) (SegData sample_data) = Ok (buffer', bs)
    ∧ Buffer.wf buffer' ∧ KCPPacketReader_Read bs = Ok [seg'] ∧ wire_eq (SegData sample_data) seg'.
Proof.
  apply (segment_writer_reader (Buffer.New []) (SegData sample_data)).
  - apply Buffer.wf_New.
  - vm_compute. reflexivity.
  - apply sample_data_wf.
  - discriminate.
  - vm_compute. discriminate.
Defined.

Lemma packet_reader_total_witness :
  ∃ ss, KCPPacketReader_Read [x00; x07; x01] = Ok ss ∧ read_packet 3 [x00; x07; x01] = Ok ss.
Proof. apply (packet_reader_total [x00; x07; x01] 3). cbn. lia. Defined.

Lemma empty_data_segment_not_read_witness :
  ∃ bs, Serialize (SegData sample_empty) = Ok bs ∧ ReadSegment bs = Ok None.
Proof.
  eexists. split; [reflexivity|].
  apply (empty_data_segment_not_read sample_empty).
  - unfold wf_data, is_u16, is_u8, is_u32. cbn. split_and!; try lia. eexists. split; [done|].
    split; [apply Buffer.wf_FromBytes; vm_compute; done|vm_compute; discriminate].
  - reflexivity.
  - reflexivity.
Defined.
