(* ===== verification/KcpCommon.v ===== *)
(** * mKCP configuration, clocks and connection states

    Models [transport/internet/kcp/config.go] (window sizes), the configuration
    builder [KCPConfig.Build] of [infra/conf/transport_method.go], and the parts of
    [connection.go] both workers read: [State] and [RoundTripInfo]. *)

From S2P Require Import Prelude.

(** ** Configuration *)

Record Config := mkConfig {
  Mtu : Z;
  Tti : Z;
  UplinkCapacity : Z;
  DownlinkCapacity : Z;
  CwndMultiplier : Z;
  MaxSendingWindow : Z
}.

(** The fields of the message are [uint32]. *)
Definition wf_config (c : Config) : Prop :=
  is_u32 (Mtu c) ∧ is_u32 (Tti c) ∧ is_u32 (UplinkCapacity c) ∧ is_u32 (DownlinkCapacity c)
  ∧ is_u32 (CwndMultiplier c) ∧ is_u32 (MaxSendingWindow c).

(** [a / b] on unsigned integers. *)
Definition udiv (a b : Z) : go Z := if decide (b = 0) then Panic else Ok (a / b).

Definition in_flight_size (capacity mtu tti : Z) : go Z :=
  a ← udiv (capacity *32 1024 *32 1024) mtu;
  b ← udiv 1000 tti;
  size ← udiv a b;
  Ok (if decide (size < 8) then 8 else size).

Definition GetSendingInFlightSize (c : Config) : go Z :=
  in_flight_size (UplinkCapacity c) (Mtu c) (Tti c).
Definition GetReceivingInFlightSize (c : Config) : go Z :=
  in_flight_size (DownlinkCapacity c) (Mtu c) (Tti c).
Definition GetSendingBufferSize (c : Config) : go Z := udiv (MaxSendingWindow c) (Mtu c).

Definition default_config : Config := mkConfig 1350 50 5 20 1 (2 * 1024 * 1024).

(** The JSON configuration: every field may be left out. *)
Record KCPConfig := mkKCPConfig {
  j_Mtu : option Z;
  j_Tti : option Z;
  j_UpCap : option Z;
  j_DownCap : option Z;
  j_CwndMultiplier : option Z;
  j_MaxSendingWindow : option Z;
  j_header_or_seed : bool
}.

Definition KCPConfig_Build (c : KCPConfig) : go Config :=
  if j_header_or_seed c then Err (ErrMsg "mkcp header & seed")
  else
    let config := mkConfig (default (Mtu default_config) (j_Mtu c))
                           (default (Tti default_config) (j_Tti c))
                           (default (UplinkCapacity default_config) (j_UpCap c))
                           (default (DownlinkCapacity default_config) (j_DownCap c))
                           (default (CwndMultiplier default_config) (j_CwndMultiplier c))
                           (default (MaxSendingWindow default_config) (j_MaxSendingWindow c)) in
    if decide (Mtu config < 21) then Err (ErrMsg "Mtu must be at least 21")
    else if decide (Tti config < 10 ∨ Tti config > 1000) then Err (ErrMsg "invalid mKCP TTI: ")
    else if decide (CwndMultiplier config < 1) then
      Err (ErrMsg "CwndMultiplier must be at least 1")
    else
      n ← GetSendingBufferSize config;
      if decide (n = 0) then Err (ErrMsg "MaxSendingWindow must be >= Mtu") else Ok config.

(** What the builder guarantees. *)
Definition usable_config (c : Config) : Prop :=
  21 ≤ Mtu c ∧ 10 ≤ Tti c ≤ 1000 ∧ 1 ≤ CwndMultiplier c
  ∧ MaxSendingWindow c / Mtu c ≠ 0.

Lemma in_flight_size_ok capacity mtu tti :
  0 < mtu → 1 ≤ tti ≤ 1000 →
  ∃ n, in_flight_size capacity mtu tti = Ok n ∧ 8 ≤ n < 4294967296 ∧
    (21 ≤ mtu → n ≤ 204522253) ∧ (0 ≤ capacity < 4096 → n = Z.max 8 (capacity * 1048576 / mtu / (1000 / tti))).
Proof.
  intros Hm Ht. unfold in_flight_size, udiv.
  assert (1 ≤ 1000 / tti) by (apply Z.div_le_lower_bound; lia).
  repeat (rewrite decide_False by lia; cbn [mbind go_bind]).
  set (k := u32 (u32 (capacity * 1024) * 1024)).
  assert (Hk : is_u32 k) by (unfold k; auto with golib). unfold is_u32 in Hk.
  assert (0 ≤ k / mtu ≤ k) by (split; [apply Z.div_pos; lia|apply Z.div_le_upper_bound; nia]).
  assert (0 ≤ k / mtu / (1000 / tti) ≤ k / mtu)
    by (split; [apply Z.div_pos; lia|apply Z.div_le_upper_bound; nia]).
  eexists. split; [done|]. split; [case_decide; lia|]. split.
  { intros H2. assert (k / mtu ≤ 204522253)
      by (apply Z.div_le_upper_bound; [lia|]; nia). case_decide; lia. }
  intros Hc.
  assert (k = capacity * 1048576) as <-.
  { unfold k. rewrite (u32_small (capacity * 1024)) by (unfold is_u32; lia).
    rewrite u32_small by (unfold is_u32; lia). lia. }
  case_decide; lia.
Qed.

Lemma sending_in_flight c :
  usable_config c → ∃ n, GetSendingInFlightSize c = Ok n ∧ 8 ≤ n ≤ 204522253.
Proof.
  intros (? & ? & _). destruct (in_flight_size_ok (UplinkCapacity c) (Mtu c) (Tti c))
    as (n & E & ? & Hn & _); [lia..|]. exists n. split; [done|]. lia.
Qed.

Lemma receiving_in_flight c :
  usable_config c → ∃ n, GetReceivingInFlightSize c = Ok n ∧ 8 ≤ n ≤ 204522253.
Proof.
  intros (? & ? & _). destruct (in_flight_size_ok (DownlinkCapacity c) (Mtu c) (Tti c))
    as (n & E & ? & Hn & _); [lia..|]. exists n. split; [done|]. lia.
Qed.

(** A configuration the builder accepts is usable at run time: none of the
    window-size computations divides by zero, both in-flight windows have room for at
    least eight segments, the send buffer for at least one, and for capacities below
    4096 MB/s the sizes are the exact quotients, without wrap-around. *)
Lemma built_config_sizes j c :
  KCPConfig_Build j = Ok c →
  usable_config c ∧
  (∃ n, GetSendingInFlightSize c = Ok n ∧ 8 ≤ n ∧
     (0 ≤ UplinkCapacity c < 4096 →
      n = Z.max 8 (UplinkCapacity c * 1048576 / Mtu c / (1000 / Tti c)))) ∧
  (∃ n, GetReceivingInFlightSize c = Ok n ∧ 8 ≤ n ∧
     (0 ≤ DownlinkCapacity c < 4096 →
      n = Z.max 8 (DownlinkCapacity c * 1048576 / Mtu c / (1000 / Tti c)))) ∧
  (∃ n, GetSendingBufferSize c = Ok n ∧ n = MaxSendingWindow c / Mtu c ∧ n ≠ 0).
Proof.
  unfold KCPConfig_Build. destruct (j_header_or_seed j); [done|].
  set (cfg := mkConfig _ _ _ _ _ _). clearbody cfg.
  destruct (decide (Mtu cfg < 21)) as [|Hm]; [done|]. destruct (decide (_ ∨ _)) as [|Ht]; [done|].
  destruct (decide (CwndMultiplier cfg < 1)) as [|Hw]; [done|].
  unfold GetSendingBufferSize at 1. unfold udiv. rewrite decide_False by lia. cbn [mbind go_bind].
  destruct (decide (_ = 0)) as [|Hn]; [done|]. intros [= <-].
  destruct (in_flight_size_ok (UplinkCapacity cfg) (Mtu cfg) (Tti cfg)) as (n & E & ? & _ & ?); [lia..|].
  destruct (in_flight_size_ok (DownlinkCapacity cfg) (Mtu cfg) (Tti cfg)) as (m & F & ? & _ & ?); [lia..|].
  split_and!.
  - by split_and!; try lia.
  - exists n. split_and!; [done|lia|done].
  - exists m. split_and!; [done|lia|done].
  - eexists. unfold GetSendingBufferSize, udiv. by rewrite decide_False by lia.
Qed.

(** ** Connection states *)

Inductive State :=
| StateActive
| StateReadyToClose
| StatePeerClosed
| StateTerminating
| StatePeerTerminating
| StateTerminated.

#[global] Instance State_eq_dec : EqDecision State.
Proof. solve_decision. Defined.

Definition Is (s : State) (states : list State) : bool := bool_decide (s ∈ states).

(** ** Round-trip estimation *)

Record RoundTripInfo := mkRTT {
  variation : Z;
  srtt : Z;
  rto : Z;
  minRtt : Z;
  updatedTimestamp : Z
}.

Definition UpdatePeerRTO (info : RoundTripInfo) (peer_rto current : Z) : RoundTripInfo :=
  if decide (current -32 updatedTimestamp info < 3000) then info
  else mkRTT (variation info) (srtt info) peer_rto (minRtt info) current.

Definition Update (info : RoundTripInfo) (rtt current : Z) : RoundTripInfo :=
  if decide (rtt > half32) then info
  else
    let '(srtt', variation') :=
      if decide (srtt info = 0) then (rtt, rtt / 2)
      else
        let delta := if decide (srtt info > rtt) then srtt info -32 rtt else rtt -32 srtt info in
        let v := ((3 *32 variation info) +32 delta) / 4 in
        let s := ((7 *32 srtt info) +32 rtt) / 8 in
        (if decide (s < minRtt info) then minRtt info else s, v) in
    let r := if decide (minRtt info < 4 *32 variation')
             then srtt' +32 (4 *32 variation') else srtt' +32 variation' in
    let r := if decide (r > 10000) then 10000 else r in
    mkRTT variation' srtt' ((r *32 5) / 4) (minRtt info) current.

Definition Timeout (info : RoundTripInfo) : Z := rto info.
Definition SmoothedTime (info : RoundTripInfo) : Z := srtt info.

(** The estimator of RFC 6298 on unbounded integers, with the floor and the
    ceiling of the implementation. *)
Definition rfc6298 (info : RoundTripInfo) (rtt : Z) : Z * Z * Z :=
  let '(s, v) :=
    if decide (srtt info = 0) then (rtt, rtt / 2)
    else (Z.max (minRtt info) ((7 * srtt info + rtt) / 8),
          (3 * variation info + Z.abs (srtt info - rtt)) / 4) in
  let k := if decide (minRtt info < 4 * v) then 4 * v else v in
  (s, v, 5 * Z.min 10000 (s + k) / 4).

(** Estimates stay below ten seconds. *)
Definition wf_rtt (info : RoundTripInfo) : Prop :=
  0 ≤ variation info ≤ 10000 ∧ 0 ≤ srtt info ≤ 10000 ∧ 0 ≤ minRtt info ≤ 10000.

Lemma u32_id z : 0 ≤ z < 4294967296 → u32 z = z.
Proof. apply u32_small. Qed.

(** The round-trip estimator never overflows. With samples below ten seconds (the
    guard of its only caller) the 32-bit code computes exactly the estimator of RFC 6298
    on unbounded integers, keeps both averages within ten seconds, and leaves a
    retransmission timeout of at most 12.5 seconds. *)
Lemma rtt_update_exact info rtt current :
  wf_rtt info → 0 ≤ rtt < 10000 →
  let info' := Update info rtt current in
  (srtt info', variation info', rto info') = rfc6298 info rtt ∧
  wf_rtt info' ∧ 0 ≤ Timeout info' ≤ 12500.
Proof.
  intros (Hv & Hs & Hm) Hr. unfold Update, rfc6298, Timeout, wf_rtt.
  rewrite decide_False by (unfold half32; lia).
  assert (Hd : (if decide (srtt info > rtt) then srtt info -32 rtt else rtt -32 srtt info)
               = Z.abs (srtt info - rtt)).
  { case_decide; rewrite u32_id; lia. }
  rewrite Hd. clear Hd. rewrite (u32_id (3 * variation info)), (u32_id (7 * srtt info)) by lia.
  rewrite (u32_id (3 * variation info + _)), (u32_id (7 * srtt info + _)) by lia.
  set (p := if decide (srtt info = 0) then _ else _).
  set (q := if decide (srtt info = 0) then _ else _).
  assert (p = q) as <-.
  { unfold p, q. destruct (decide (srtt info = 0)); [done|]. f_equal. case_decide; lia. }
  assert (0 ≤ p.1 ≤ 10000 ∧ 0 ≤ p.2 ≤ 10000) as [H1 H2].
  { unfold p. destruct (decide (srtt info = 0)); cbn [fst snd]; [dlia|].
    case_decide; (split; [|]); dlia. }
  destruct p as [s v]. cbn [fst snd] in *. rewrite (u32_id (4 * v)) by lia.
  rewrite (u32_id (s + v)), (u32_id (s + 4 * v)) by lia.
  assert (Hk : (if decide (minRtt info < 4 * v) then s + 4 * v else s + v)
               = s + (if decide (minRtt info < 4 * v) then 4 * v else v)) by (case_decide; lia).
  rewrite Hk. clear Hk. set (k := if decide (minRtt info < 4 * v) then 4 * v else v).
  assert (0 ≤ k) by (unfold k; case_decide; lia).
  assert (Hc : (if decide (s + k > 10000) then 10000 else s + k) = Z.min 10000 (s + k))
    by (case_decide; lia).
  rewrite Hc, (u32_id (_ * 5)) by lia. cbn. rewrite (Z.mul_comm 5). split; [done|]. dlia.
Qed.

(** Whatever the sample, an update leaves the timeout at 12.5 seconds or less. *)
Lemma Update_rto_range info rtt current :
  is_u32 (rto info) → is_u32 (rto (Update info rtt current)).
Proof.
  intros H. unfold Update. case_decide; [done|].
  destruct (if decide (srtt info = 0) then _ else _) as [s v]. cbn.
  set (r := if decide (minRtt info < u32 (4 * v)) then _ else _).
  assert (is_u32 r) as Hr by (unfold r; case_decide; auto with golib).
  unfold is_u32 in *. case_decide; rewrite u32_id by lia; dlia.
Qed.

Lemma built_config_sizes_witness :
  ∃ c, KCPConfig_Build (mkKCPConfig (Some 1400) None (Some 100) None None None false) = Ok c ∧
    usable_config c.
Proof.
  eexists. split; [vm_compute; reflexivity|].
  refine (proj1 (built_config_sizes (mkKCPConfig (Some 1400) None (Some 100) None None None false) _ _)).
  vm_compute. reflexivity.
Defined.

Lemma rtt_update_exact_witness :
  rto (Update (mkRTT 30 80 100 50 0) 120 5000) = 266 ∧
  wf_rtt (Update (mkRTT 30 80 100 50 0) 120 5000).
Proof.
  split; [vm_compute; reflexivity|].
  apply (rtt_update_exact (mkRTT 30 80 100 50 0) 120 5000); unfold wf_rtt; cbn; lia.
Defined.
