(* ===== verification/KcpReceiving.v ===== *)
(** * The mKCP receiving worker

    Models [transport/internet/kcp/receiving.go]: the window of out-of-order segments,
    the list of acknowledgements to send, and the worker that puts received segments
    back in order. What a method writes to the connection's output is a result of the
    definition, in order; what it reads of the connection (conversation, state, timeout)
    is an argument. *)

From S2P Require Import Prelude Net Buf KcpSegment KcpCommon.

(** ** Receiving window *)

Module ReceivingWindow.

Abbreviation t := (gmap Z DataSegment).

Definition Set_ (w : t) (id : Z) (value : DataSegment) : bool * t :=
  match w !! id with
  | Some _ => (false, w)
  | None => (true, <[id := value]> w)
  end.

Definition Has (w : t) (id : Z) : bool := bool_decide (is_Some (w !! id)).

Definition Remove (w : t) (id : Z) : option DataSegment * t :=
  match w !! id with
  | None => (None, w)
  | Some v => (Some v, delete id w)
  end.

End ReceivingWindow.

(** ** Acknowledgements to send *)

Module AckList.

(** Three parallel arrays, the candidates of the last flush, the dirty flag and the
    segment size. *)
Record t := mk {
  timestamps : list Z;
  numbers : list Z;
  nextFlush : list Z;
  flushCandidates : list Z;
  dirty : bool;
  mss : Z
}.

(** The capacity [NewAckList] gives [flushCandidates]. *)
Definition candidatesCap : Z := 128.

Definition NewAckList (mss : Z) : t := mk [] [] [] [] false mss.

Definition Add (l : t) (number timestamp : Z) : t :=
  mk (timestamps l ++ [timestamp]) (numbers l ++ [number]) (nextFlush l ++ [0])
     (flushCandidates l) true (mss l).

(** The loop of [Clear]: [fuel] iterations from [i], compacting in place. *)
Fixpoint clear_loop (fuel i count : nat) (una : Z) (ns ts fs : list Z)
    : go (nat * list Z * list Z * list Z) :=
  match fuel with
  | O => Ok (count, ns, ts, fs)
  | S fuel =>
      n ← ok_or_panic (ns !! i);
      if decide (n < una) then clear_loop fuel (S i) count una ns ts fs
      else if decide (i ≠ count) then
        t ← ok_or_panic (ts !! i);
        f ← ok_or_panic (fs !! i);
        clear_loop fuel (S i) (S count) una
          (<[count := n]> ns) (<[count := t]> ts) (<[count := f]> fs)
      else clear_loop fuel (S i) (S count) una ns ts fs
  end.

Definition Clear (l : t) (una : Z) : go t :=
  '(count, ns, ts, fs) ←
    clear_loop (length (numbers l)) 0 0 una (numbers l) (timestamps l) (nextFlush l);
  if decide (count < length ns)%nat then
    Ok (mk (take count ts) (take count ns) (take count fs) (flushCandidates l) true (mss l))
  else Ok (mk ts ns fs (flushCandidates l) (dirty l) (mss l)).

Definition ack_limit (l : t) : Z := Z.quot (mss l - 17) 4.

Definition flush_timeout (rto : Z) : Z :=
  let timeout := rto / 2 in if decide (timeout < 20) then 20 else timeout.

(** The first loop of [Flush]: the new flush times, the candidates, the segment being
    filled, the dirty flag and the segments written. *)
Fixpoint flush_loop (limit current rto : Z) (ns ts fs : list Z) (cands : list Z)
    (seg : AckSegment) (dirty : bool) (written : list AckSegment)
    : list Z * list Z * AckSegment * bool * list AckSegment :=
  match ns, ts, fs with
  | n :: ns, t :: ts, f :: fs =>
      if decide (f > current) then
        let cands := if decide (len cands < candidatesCap) then cands ++ [n] else cands in
        let '(fs, cands, seg, dirty, written) :=
          flush_loop limit current rto ns ts fs cands seg dirty written in
        (f :: fs, cands, seg, dirty, written)
      else
        let seg := PutTimestamp (PutNumber seg n) t in
        let f := current +32 flush_timeout rto in
        let '(seg, dirty, written) :=
          if AckSegment_IsFull seg then (NewAckSegment limit, false, written ++ [seg])
          else (seg, dirty, written) in
        let '(fs, cands, seg, dirty, written) :=
          flush_loop limit current rto ns ts fs cands seg dirty written in
        (f :: fs, cands, seg, dirty, written)
  | _, _, _ => (fs, cands, seg, dirty, written)
  end.

(** The second loop: candidates fill up the last segment. *)
Fixpoint fill (seg : AckSegment) (cands : list Z) : AckSegment :=
  match cands with
  | [] => seg
  | number :: cands => if AckSegment_IsFull seg then seg else fill (PutNumber seg number) cands
  end.

(** [Flush]: the list afterwards and the segments given to the writer, in order. *)
Definition Flush (l : t) (current rto : Z) : t * list AckSegment :=
  let '(fs, cands, seg, dirty, written) :=
    flush_loop (ack_limit l) current rto (numbers l) (timestamps l) (nextFlush l) []
      (NewAckSegment (ack_limit l)) (dirty l) [] in
  let '(dirty, written) :=
    if (dirty || negb (AckSegment_IsEmpty seg))%bool
    then (false, written ++ [fill seg cands]) else (dirty, written) in
  (mk (timestamps l) (numbers l) fs cands dirty (mss l), written).

(** *** The list of entries behind the three arrays *)

Definition wf (l : t) : Prop :=
  length (timestamps l) = length (numbers l) ∧ length (nextFlush l) = length (numbers l).

Definition entries (l : t) : list (Z * (Z * Z)) := zip (numbers l) (zip (timestamps l) (nextFlush l)).

Definition keep (una : Z) : list (Z * (Z * Z)) → list (Z * (Z * Z)) := filter (λ e, ¬ e.1 < una).

Lemma zip3_app (a b c a' b' c' : list Z) :
  length b = length a → length c = length a →
  zip (a ++ a') (zip (b ++ b') (c ++ c')) = zip a (zip b c) ++ zip a' (zip b' c').
Proof.
  intros. rewrite (zip_with_app _ b b' c c') by lia.
  rewrite zip_with_app; [done|]. rewrite length_zip_with. lia.
Qed.

(** Moving [x] from behind the gap [j] to its front shifts the gap by one. *)
Lemma insert_shift {A} (k j : list A) (x : A) r m :
  m = length k →
  ∃ j', <[m := x]> (k ++ j ++ x :: r) = (k ++ [x]) ++ j' ++ r ∧ length j' = length j.
Proof.
  intros ->. rewrite insert_app_r_alt by lia. rewrite Nat.sub_diag.
  destruct j as [|y j].
  - exists []. by rewrite <- app_assoc.
  - exists (j ++ [x]). cbn. rewrite <- !app_assoc. split; [done|]. rewrite length_app. cbn. lia.
Qed.

Lemma lookup_gap {A} (k j : list A) (x : A) r m :
  m = (length k + length j)%nat → (k ++ j ++ x :: r) !! m = Some x.
Proof. intros ->. rewrite app_assoc. apply list_lookup_middle. by rewrite length_app. Qed.

(** The two ways the loop keeps an entry are the same write. *)
Lemma clear_loop_keep fuel una kn kt kf jn jt jf n t f rn rt rf :
  length kt = length kn → length kf = length kn →
  length jt = length jn → length jf = length jn → ¬ n < una →
  ∃ jn' jt' jf', length jn' = length jn ∧ length jt' = length jn ∧ length jf' = length jn ∧
    clear_loop (S fuel) (length kn + length jn) (length kn) una
      (kn ++ jn ++ n :: rn) (kt ++ jt ++ t :: rt) (kf ++ jf ++ f :: rf)
    = clear_loop fuel (length (kn ++ [n]) + length jn') (length (kn ++ [n])) una
      ((kn ++ [n]) ++ jn' ++ rn) ((kt ++ [t]) ++ jt' ++ rt) ((kf ++ [f]) ++ jf' ++ rf).
Proof.
  intros H1 H2 H3 H4 Hn.
  destruct (insert_shift kn jn n rn (length kn)) as (jn' & En & Ln); [done|].
  destruct (insert_shift kt jt t rt (length kn)) as (jt' & Et & Lt); [done|].
  destruct (insert_shift kf jf f rf (length kn)) as (jf' & Ef & Lf); [done|].
  exists jn', jt', jf'. split_and!; try lia. rewrite <- En, <- Et, <- Ef, Ln, length_app.
  cbn [clear_loop]. rewrite (lookup_gap kn) by lia. cbn [ok_or_panic mbind go_bind length].
  rewrite decide_False by done.
  replace (length kn + 1 + length jn)%nat with (S (length kn + length jn)) by lia.
  replace (length kn + 1)%nat with (S (length kn)) by lia. case_decide as Hd.
  - rewrite !lookup_gap by lia. done.
  - destruct jn; [|cbn in Hd; lia]. destruct jt, jf; try done. cbn [app].
    rewrite !list_insert_id; [done|..]; apply list_lookup_middle; lia.
Qed.

(** The in-place compaction keeps exactly the entries not below [una]. *)
Lemma clear_loop_spec una rn : ∀ kn kt kf jn jt jf rt rf,
  length kt = length kn → length kf = length kn →
  length jt = length jn → length jf = length jn →
  length rt = length rn → length rf = length rn →
  ∃ kn' kt' kf' jn' jt' jf',
    clear_loop (length rn) (length kn + length jn) (length kn) una
      (kn ++ jn ++ rn) (kt ++ jt ++ rt) (kf ++ jf ++ rf)
    = Ok (length kn', kn' ++ jn', kt' ++ jt', kf' ++ jf') ∧
    (length kt' = length kn' ∧ length kf' = length kn' ∧
     length jt' = length jn' ∧ length jf' = length jn') ∧
    zip kn' (zip kt' kf') = zip kn (zip kt kf) ++ keep una (zip rn (zip rt rf)) ∧
    (length kn' + length jn' = length kn + length jn + length rn)%nat.
Proof.
  induction rn as [|n rn IH]; intros kn kt kf jn jt jf rt rf H1 H2 H3 H4 H5 H6.
  { destruct rt, rf; try done. exists kn, kt, kf, jn, jt, jf. rewrite !app_nil_r. cbn.
    split_and!; done || lia. }
  destruct rt as [|t rt], rf as [|f rf]; try done. cbn [length] in H5, H6 |- *.
  destruct (decide (n < una)) as [Hlt|Hge].
  - cbn [clear_loop]. rewrite (lookup_gap kn) by done. cbn [ok_or_panic mbind go_bind].
    rewrite decide_True by done. rewrite !(cons_middle _ (_ : list Z)), !(app_assoc _ [_]).
    destruct (IH kn kt kf (jn ++ [n]) (jt ++ [t]) (jf ++ [f]) rt rf)
      as (a & b & c & d & e & g & E & ? & Z & L); try (rewrite ?length_app; cbn; lia).
    exists a, b, c, d, e, g. rewrite length_app in E, L. cbn in E, L.
    replace (length kn + (length jn + 1))%nat with (S (length kn + length jn)) in E by lia.
    rewrite Z. split; [done|]. split; [done|]. split; [|lia]. f_equal. unfold keep. cbn [zip zip_with].
    rewrite filter_cons_False; [done|]. cbn. lia.
  - destruct (clear_loop_keep (length rn) una kn kt kf jn jt jf n t f rn rt rf)
      as (jn' & jt' & jf' & ? & ? & ? & ->); try done.
    destruct (IH (kn ++ [n]) (kt ++ [t]) (kf ++ [f]) jn' jt' jf' rt rf)
      as (a & b & c & d & e & g & E & ? & Z & L); try (rewrite ?length_app; cbn; lia).
    exists a, b, c, d, e, g. rewrite length_app in L. cbn in L.
    split; [done|]. split; [done|]. split; [|lia].
    rewrite Z, zip3_app, <- app_assoc by done. unfold keep at 2. cbn [zip zip_with].
    by rewrite filter_cons_True.
Qed.

(** [Clear] is a filter on the entries; it marks the list dirty when it dropped one. *)
Lemma Clear_spec l una :
  wf l → ∃ l', Clear l una = Ok l' ∧ wf l' ∧ entries l' = keep una (entries l) ∧ mss l' = mss l ∧
    dirty l' = (dirty l || bool_decide (length (numbers l') < length (numbers l))%nat)%bool.
Proof.
  intros [Ht Hf]. unfold Clear.
  destruct (clear_loop_spec una (numbers l) [] [] [] [] [] [] (timestamps l) (nextFlush l))
    as (a & b & c & d & e & g & E & (La & Lb & Ld & Le) & Z & L); try done.
  cbn [app length Nat.add] in E, Z, L. rewrite E. cbn [mbind go_bind].
  rewrite length_app. destruct d as [|x d].
  - destruct e, g; try done. rewrite !app_nil_r. cbn [length] in *. rewrite decide_False by lia.
    eexists. split; [done|]. unfold wf, entries. cbn. rewrite bool_decide_eq_false_2 by lia.
    by rewrite orb_false_r.
  - cbn [length] in *. rewrite decide_True by lia.
    rewrite !take_app_length' by done. eexists. split; [done|].
    unfold wf, entries. cbn. rewrite bool_decide_eq_true_2 by lia. by rewrite orb_true_r.
Qed.

(** *** What a flush sends *)

(** The numbers whose flush time has come. *)
Definition due (ns fs : list Z) (current : Z) : list Z :=
  (filter (λ p, ¬ p.2 > current) (zip ns fs)).*1.

Abbreviation acked := (λ written : list AckSegment, concat (as_NumberList <$> written)).

Definition room_left (limit : Z) (seg : AckSegment) : Prop :=
  as_Limit seg = limit ∧ len (as_NumberList seg) < limit.

Definition fits (limit : Z) (seg : AckSegment) : Prop :=
  as_Limit seg = limit ∧ len (as_NumberList seg) ≤ limit.

Lemma NewAckSegment_limit limit :
  as_Limit (NewAckSegment limit) = Z.max 1 (Z.min 128 limit) ∧
  as_NumberList (NewAckSegment limit) = [].
Proof.
  unfold NewAckSegment, ackNumberLimit. cbn. split; [|done].
  destruct (decide (limit ≤ 0)); case_decide; lia.
Qed.

Lemma NewAckSegment_room limit : room_left (as_Limit (NewAckSegment limit)) (NewAckSegment limit).
Proof.
  destruct (NewAckSegment_limit limit) as [Hl Hn]. unfold room_left. rewrite Hn, len_nil. split; [done|lia].
Qed.

Lemma put_numbers seg n ts :
  as_NumberList (PutTimestamp (PutNumber seg n) ts) = as_NumberList seg ++ [n] ∧
  as_Limit (PutTimestamp (PutNumber seg n) ts) = as_Limit seg.
Proof. unfold PutTimestamp. by case_decide. Qed.

Lemma flush_loop_spec limit current rto :
  let L := as_Limit (NewAckSegment limit) in
  ∀ ns ts fs cands seg d written fs' cands' seg' d' written',
  length ts = length ns → length fs = length ns →
  room_left L seg → Forall (fits L) written →
  flush_loop limit current rto ns ts fs cands seg d written = (fs', cands', seg', d', written') →
  fs' = ((λ f, if decide (f > current) then f else current +32 flush_timeout rto) <$> fs) ∧
  room_left L seg' ∧ Forall (fits L) written' ∧
  acked written' ++ as_NumberList seg' = acked written ++ as_NumberList seg ++ due ns fs current ∧
  (∀ n, n ∈ cands' → n ∈ cands ∨ n ∈ ns) ∧
  (written `prefix_of` written' ∧ (d' = d ∨ d' = false ∧ written' ≠ [])).
Proof.
  intros L. induction ns as [|n ns IH]; intros [|t ts] [|f fs] cands seg d written;
    intros fs' cands' seg' d' written' Ht Hf Hs Hw; try done; cbn [flush_loop].
  { intros [= <- <- <- <- <-]. rewrite app_nil_r. split_and!; auto. }
  cbn [length] in Ht, Hf. unfold due. cbn [zip zip_with]. rewrite fmap_cons. cbn beta.
  destruct (decide (f > current)) as [Hd|Hd].
  - destruct (flush_loop _ _ _ _ _ _ _ _ _ _) as [[[[a b] c] e] g] eqn:E. intros [= <- <- <- <- <-].
    apply IH in E as (-> & ? & ? & ? & Hc & ? & ?); [|lia..|done|done].
    rewrite filter_cons_False by (cbn; lia). split_and!; try done.
    intros m Hm. rewrite elem_of_cons. apply Hc in Hm as [Hm|]; [|tauto].
    destruct (decide (len cands < candidatesCap)); [|tauto].
    apply elem_of_app in Hm as [|Hm]; [tauto|]. apply list_elem_of_singleton in Hm. tauto.
  - destruct (put_numbers seg n t) as [Hpn Hpl]. set (s := PutTimestamp (PutNumber seg n) t) in *.
    destruct Hs as [Hsl Hsn]. rewrite filter_cons_True by (cbn; lia). rewrite fmap_cons.
    destruct (AckSegment_IsFull s) eqn:Ef; unfold AckSegment_IsFull in Ef;
      [apply bool_decide_eq_true in Ef|apply bool_decide_eq_false in Ef];
      destruct (flush_loop _ _ _ _ _ _ _ _ _ _) as [[[[a b] c] e] g] eqn:E; intros [= <- <- <- <- <-].
    + apply IH in E as (-> & ? & ? & Ha & Hc & Hp & Hd'); [|lia..|apply NewAckSegment_room|].
      2: { apply Forall_app; split; [done|]. apply Forall_cons_2; [|apply Forall_nil_2].
           split; [congruence|lia]. }
      destruct (NewAckSegment_limit limit) as [_ Hn]. rewrite Hn in Ha.
      split_and!; try done.
      * rewrite Ha, fmap_app, concat_app. cbn. rewrite Hpn, app_nil_r, <- !app_assoc. done.
      * intros m Hm. rewrite elem_of_cons. apply Hc in Hm. tauto.
      * by eapply prefix_app_l.
      * right. split; [by destruct Hd' as [|[]]|]. destruct Hp as [k ->]. by destruct written.
    + apply IH in E as (-> & ? & ? & Ha & Hc & Hp & Hd'); [|lia..| |done].
      2: { split; [congruence|]. rewrite Hpn, len_app, len_cons, len_nil in *. lia. }
      split_and!; try done; [|intros m Hm; rewrite elem_of_cons; apply Hc in Hm; tauto].
      by rewrite Ha, Hpn, <- !app_assoc.
Qed.

Lemma fill_spec seg cands :
  len (as_NumberList seg) ≤ as_Limit seg →
  ∃ extra, as_NumberList (fill seg cands) = as_NumberList seg ++ extra ∧ extra `prefix_of` cands ∧
    as_Limit (fill seg cands) = as_Limit seg ∧ len (as_NumberList (fill seg cands)) ≤ as_Limit seg.
Proof.
  revert seg. induction cands as [|n cands IH]; intros seg H; cbn [fill].
  { exists []. by rewrite app_nil_r. }
  destruct (AckSegment_IsFull seg) eqn:E.
  { exists []. rewrite app_nil_r. split_and!; try done. apply prefix_nil. }
  unfold AckSegment_IsFull in E. apply bool_decide_eq_false in E.
  destruct (IH (PutNumber seg n)) as (x & Hx & Hp & Hl & Hb).
  { cbn. rewrite len_app, len_cons, len_nil. lia. }
  exists (n :: x). rewrite Hx, Hl. cbn in *. rewrite <- app_assoc. rewrite Hx, <- app_assoc in Hb. 
  split_and!; try done. by apply prefix_cons.
Qed.

Lemma due_subseteq ns fs current n : n ∈ due ns fs current → n ∈ ns.
Proof.
  unfold due. intros (p & -> & Hp)%list_elem_of_fmap. apply list_elem_of_filter in Hp as [_ Hp].
  destruct p as [a b]. by apply elem_of_zip_l in Hp.
Qed.

Lemma AckList_Flush_spec l current rto l' written :
  wf l → Flush l current rto = (l', written) →
  (wf l' ∧ numbers l' = numbers l ∧ timestamps l' = timestamps l ∧ mss l' = mss l ∧ dirty l' = false ∧
   nextFlush l' = (λ f, if decide (f > current) then f else current +32 flush_timeout rto) <$> nextFlush l) ∧
  Forall (fits (as_Limit (NewAckSegment (ack_limit l)))) written ∧
  (∃ extra, acked written = due (numbers l) (nextFlush l) current ++ extra ∧
     ∀ n, n ∈ extra → n ∈ numbers l) ∧
  (dirty l = true → written ≠ []).
Proof.
  intros [Ht Hf]. unfold Flush.
  destruct (flush_loop _ _ _ _ _ _ _ _ _ _) as [[[[fs cands] seg] d] w] eqn:E.
  apply flush_loop_spec in E as (-> & [Hs Hn] & Hw & Ha & Hc & Hp & Hd); [|lia..|apply NewAckSegment_room|done].
  destruct (NewAckSegment_limit (ack_limit l)) as [_ Hnil]. rewrite Hnil in Ha. cbn [app concat fmap list_fmap] in Ha.
  destruct (fill_spec seg cands) as (x & Hx & Hxp & Hxl & Hxb); [lia|].
  destruct (d || negb (AckSegment_IsEmpty seg))%bool eqn:Eb; intros [= <- <-]; unfold wf;
    cbn [numbers timestamps nextFlush mss dirty].
  - rewrite length_fmap. split; [done|]. split.
    { apply Forall_app; split; [done|]. apply Forall_cons_2; [|apply Forall_nil_2]. unfold fits. rewrite Hxl. lia. }
    split; [|by destruct w]. exists x. rewrite fmap_app, concat_app. cbn. rewrite Hx, app_nil_r.
    rewrite app_assoc, Ha. split; [done|]. intros n Hin. destruct Hxp as [k ->].
    destruct (Hc n) as [H|H]; [apply elem_of_app; by left|by apply elem_of_nil in H|done].
  - apply orb_false_iff in Eb as [-> He]. apply negb_false_iff in He. unfold AckSegment_IsEmpty in He.
    apply bool_decide_eq_true, len_0_nil in He. rewrite He, app_nil_r in Ha.
    rewrite length_fmap. split; [done|]. split; [done|]. split.
    + exists []. rewrite app_nil_r. split; [done|]. by intros ? ?%not_elem_of_nil.
    + intros Hdl. destruct Hd as [Hd|[]]; congruence.
Qed.

(** [AckList.Clear] compacts its three parallel arrays in place and is equivalent to
    filtering a single list of entries: the entries whose number is not below [una] stay,
    in order, with their own timestamps and flush times; the list becomes dirty exactly
    when an entry went. It never indexes out of range. *)
Lemma ack_clear_filters l una :
  wf l → ∃ l', Clear l una = Ok l' ∧ wf l' ∧
    entries l' = filter (λ e, ¬ e.1 < una) (entries l) ∧
    dirty l' = (dirty l || bool_decide (length (numbers l') < length (numbers l))%nat)%bool.
Proof.
  intros H. destruct (Clear_spec l una H) as (l' & ? & ? & ? & _ & ?). by exists l'.
Qed.

(** A flush of the acknowledgement list loses nothing and oversizes nothing. The
    segments written acknowledge every number whose time has come, in list order, before
    any number sent ahead of time, and acknowledge nothing that was not received; each
    holds at most 128 numbers and serialises within the segment size; the flush times of
    exactly the numbers due are pushed back; a dirty list always sends something. *)
Lemma ack_flush_complete l current rto l' written :
  wf l → 21 ≤ mss l < 4294967296 → Flush l current rto = (l', written) →
  numbers l' = numbers l ∧ dirty l' = false ∧
  nextFlush l' = (λ f, if decide (f > current) then f else current +32 flush_timeout rto) <$> nextFlush l ∧
  (∃ extra, concat (as_NumberList <$> written) = due (numbers l) (nextFlush l) current ++ extra ∧
     ∀ n, n ∈ extra → n ∈ numbers l) ∧
  Forall (λ s, len (as_NumberList s) ≤ ackNumberLimit ∧ AckSegment_ByteSize s ≤ mss l) written ∧
  (dirty l = true → written ≠ []).
Proof.
  intros Hwf Hm E. apply AckList_Flush_spec in E as ((? & ? & ? & ? & ? & ?) & Hf & ? & ?); [|done].
  split_and!; try done. eapply list.Forall_impl; [exact Hf|]. intros s [_ Hl]. revert Hl.
  destruct (NewAckSegment_limit (ack_limit l)) as [-> _]. unfold ack_limit, ackNumberLimit.
  rewrite Z.quot_div_nonneg by lia. intros Hl. pose proof (len_nonneg (as_NumberList s)).
  assert ((mss l - 17) / 4 * 4 ≤ mss l - 17) by dlia. assert (1 ≤ (mss l - 17) / 4) by dlia.
  split; [lia|]. unfold AckSegment_ByteSize. rewrite !i32_small; unfold is_i32; try rewrite i32_small;
    unfold is_i32; lia.
Qed.

Definition stamped (s : AckSegment) : Prop := is_u32 (as_Timestamp s).

Lemma put_stamped seg n t : stamped seg → is_u32 t → stamped (PutTimestamp (PutNumber seg n) t).
Proof. unfold stamped, PutTimestamp. intros. by case_decide. Qed.

Lemma fill_stamped seg cands : stamped seg → stamped (fill seg cands).
Proof.
  revert seg. induction cands as [|n cands IH]; intros seg H; [done|]. cbn [fill].
  destruct (AckSegment_IsFull seg); [done|]. by apply IH.
Qed.

Lemma new_stamped limit : stamped (NewAckSegment limit).
Proof. unfold stamped, is_u32. cbn. lia. Qed.

Lemma flush_loop_stamped limit current rto ns : ∀ ts fs cands seg d written,
  Forall is_u32 ts → stamped seg → Forall stamped written →
  stamped (flush_loop limit current rto ns ts fs cands seg d written).1.1.2 ∧
  Forall stamped (flush_loop limit current rto ns ts fs cands seg d written).2.
Proof.
  induction ns as [|n ns IH]; intros [|t ts] [|f fs] cands seg d written Hts Hs Hw; try done.
  cbn [flush_loop]. apply Forall_cons_1 in Hts as [Ht Hts]. case_decide.
  - destruct (IH ts fs (if decide (len cands < candidatesCap) then cands ++ [n] else cands) seg d written)
      as [H1 H2]; try done.
    by destruct (flush_loop _ _ _ _ _ _ _ _ _ _) as [[[[a b] c] e] g].
  - pose proof (put_stamped seg n t Hs Ht) as Hp. destruct (AckSegment_IsFull _).
    + destruct (IH ts fs cands (NewAckSegment limit) false
        (written ++ [PutTimestamp (PutNumber seg n) t])) as [H1 H2];
        [done|apply new_stamped|by apply Forall_app; split; [|apply Forall_singleton]|].
      by destruct (flush_loop _ _ _ _ _ _ _ _ _ _) as [[[[a b] c] e] g].
    + destruct (IH ts fs cands (PutTimestamp (PutNumber seg n) t) d written) as [H1 H2]; try done.
      by destruct (flush_loop _ _ _ _ _ _ _ _ _ _) as [[[[a b] c] e] g].
Qed.

Lemma Flush_stamped l current rto :
  Forall is_u32 (timestamps l) → Forall stamped (Flush l current rto).2.
Proof.
  intros H. unfold Flush. destruct (flush_loop_stamped (ack_limit l) current rto (numbers l)
    (timestamps l) (nextFlush l) [] (NewAckSegment (ack_limit l)) (dirty l) []) as [H1 H2];
    [done|apply new_stamped|done|].
  destruct (flush_loop _ _ _ _ _ _ _ _ _ _) as [[[[a b] c] e] g]. cbn in H1, H2.
  destruct (e || _)%bool; cbn; [|done].
  apply Forall_app; split; [done|]. apply Forall_singleton. by apply fill_stamped.
Qed.

End AckList.

(** ** Receiving worker *)

Module ReceivingWorker.

Record t := mk {
  leftOver : option MultiBuffer.mbuf;
  window : ReceivingWindow.t;
  acklist : AckList.t;
  nextNumber : Z;
  windowSize : Z
}.

Definition set_acklist (w : t) (l : AckList.t) : t :=
  mk (leftOver w) (window w) l (nextNumber w) (windowSize w).
Definition set_leftOver (w : t) (mb : option MultiBuffer.mbuf) : t :=
  mk mb (window w) (acklist w) (nextNumber w) (windowSize w).

Definition NewReceivingWorker (cfg : Config) (mss : Z) : go t :=
  size ← GetReceivingInFlightSize cfg;
  Ok (mk None ∅ (AckList.NewAckList (mss +32 DataSegmentOverhead)) 0 size).

Definition Release (w : t) : t := set_leftOver w None.

Definition ProcessSendingNext (w : t) (number : Z) : go t :=
  l ← AckList.Clear (acklist w) number;
  Ok (set_acklist w l).

Definition ProcessSegment (w : t) (seg : DataSegment) : go t :=
  let number := ds_Number seg in
  let idx := number -32 nextNumber w in
  if decide (windowSize w ≤ idx) then Ok w
  else
    l ← AckList.Clear (acklist w) (ds_SendingNext seg);
    let l := AckList.Add l number (ds_Timestamp seg) in
    let '(_, win) := ReceivingWindow.Set_ (window w) (ds_Number seg) seg in
    Ok (mk (leftOver w) win l (nextNumber w) (windowSize w)).

(** The loop of [ReadMultiBuffer]: every iteration takes a segment out of the window,
    so the size of the window and one more is fuel enough. A nil payload would behave as
    a released buffer. *)
Fixpoint read_loop (fuel : nat) (win : ReceivingWindow.t) (next : Z) (mb : MultiBuffer.mbuf)
    : ReceivingWindow.t * Z * MultiBuffer.mbuf :=
  match fuel with
  | O => (win, next, mb)
  | S fuel =>
      match ReceivingWindow.Remove win next with
      | (None, win) => (win, next, mb)
      | (Some seg, win) =>
          let b := default (Buffer.mk None 0 0 Buffer.managed None) (Detach seg).1 in
          read_loop fuel win (next +32 1) (mb ++ [b])
      end
  end.

Definition ReadMultiBuffer (w : t) : t * MultiBuffer.mbuf :=
  match leftOver w with
  | Some mb => (set_leftOver w None, mb)
  | None =>
      let '(win, next, mb) := read_loop (S (size (window w))) (window w) (nextNumber w) [] in
      (mk None win (acklist w) next (windowSize w), mb)
  end.

(** [Read] into a slice of [n] bytes: the bytes copied. *)
Definition Read (w : t) (n : Z) : go (t * list byte) :=
  let '(w, mb) := ReadMultiBuffer w in
  if MultiBuffer.IsEmpty mb then Ok (w, [])
  else
    '(mb, got) ← MultiBuffer.SplitBytes mb n;
    Ok (if MultiBuffer.IsEmpty mb then w else set_leftOver w (Some mb), got).

Definition IsDataAvailable (w : t) : bool := ReceivingWindow.Has (window w) (nextNumber w).

(** [Write]: the acknowledgement as it goes out. *)
Definition Write (conv : Z) (st : State) (w : t) (ackSeg : AckSegment) : AckSegment :=
  mkAck conv (if decide (st = StateReadyToClose) then SegmentOptionClose else 0)
        (nextNumber w +32 windowSize w) (nextNumber w) (as_Timestamp ackSeg)
        (as_NumberList ackSeg) (as_Limit ackSeg).

Definition Flush (conv : Z) (st : State) (rto : Z) (w : t) (current : Z) : t * list AckSegment :=
  let '(l, written) := AckList.Flush (acklist w) current rto in
  (set_acklist w l, Write conv st w <$> written).

Definition UpdateNecessary (w : t) : bool := bool_decide (len (AckList.numbers (acklist w)) > 0).

(** *** In-order delivery

    [msgs] is what the peer's sender numbered, payload by payload. *)

Section in_order.
Context (msgs : list (list byte)).

(** A segment is held when it was delivered or waits in the window. *)
Definition held (w : t) (n : Z) : Prop := n < nextNumber w ∨ is_Some (window w !! n).

Definition stream (w : t) (delivered : list byte) : Prop :=
  delivered ++ MultiBuffer.mcontent (default [] (leftOver w))
  = concat (take (Z.to_nat (nextNumber w)) msgs).

Record rinv (w : t) : Prop := {
  r_next : 0 ≤ nextNumber w ≤ len msgs;
  r_len : len msgs ≤ 2147483648;
  r_size : 0 ≤ windowSize w ≤ 2147483648;
  r_ack : AckList.wf (acklist w);
  r_stamps : Forall is_u32 (AckList.timestamps (acklist w));
  r_held : Forall (λ n, is_u32 n ∧ held w n) (AckList.numbers (acklist w));
  r_win : map_Forall (λ k seg, nextNumber w ≤ k ∧ ds_Number seg = k ∧ valid_data msgs seg) (window w);
  r_left : Forall Buffer.wf (default [] (leftOver w))
}.

Lemma keep_numbers l l' una :
  AckList.wf l → AckList.wf l' → AckList.entries l' = AckList.keep una (AckList.entries l) →
  (∀ n, n ∈ AckList.numbers l' → n ∈ AckList.numbers l) ∧
  (∀ n, n ∈ AckList.timestamps l' → n ∈ AckList.timestamps l).
Proof.
  intros [Ht Hf] [Ht' Hf'] E.
  assert (Hn : ∀ k, AckList.wf k → AckList.numbers k = (AckList.entries k).*1
                    ∧ AckList.timestamps k = (AckList.entries k).*2.*1).
  { intros k [H1 H2]. unfold AckList.entries. rewrite fst_zip, snd_zip, fst_zip;
      rewrite ?length_zip_with; try lia. done. }
  destruct (Hn l) as [E1 E2]; [done|]. destruct (Hn l') as [E3 E4]; [done|].
  rewrite E1, E2, E3, E4, E. unfold AckList.keep.
  split; intros n; rewrite !list_elem_of_fmap.
  - intros (e & -> & He). apply list_elem_of_filter in He as [_ He]. by exists e.
  - intros (p & -> & Hp). exists p. split; [done|]. apply list_elem_of_fmap in Hp as (e & -> & He).
    apply list_elem_of_filter in He as [_ He]. apply list_elem_of_fmap. by exists e.
Qed.

Lemma Clear_rinv w una :
  rinv w → ∃ l, AckList.Clear (acklist w) una = Ok l ∧ rinv (set_acklist w l).
Proof.
  intros H. destruct (AckList.Clear_spec (acklist w) una) as (l & E & Hl & He & _); [apply H|].
  exists l. split; [done|]. destruct (keep_numbers (acklist w) l una) as [Hn Ht]; [apply H|done|done|].
  split; try apply H; cbn; [done|..].
  - eapply Forall_elem_sub; [apply Ht|apply H].
  - eapply Forall_elem_sub; [apply Hn|apply H].
Qed.

Lemma ProcessSendingNext_rinv w n :
  rinv w → ∃ l, ProcessSendingNext w n = Ok (set_acklist w l) ∧ rinv (set_acklist w l).
Proof.
  intros H. destruct (Clear_rinv w n H) as (l & E & Hl). unfold ProcessSendingNext. rewrite E.
  by exists l.
Qed.

(** A valid segment is accepted, refused or ignored without harm, and what is held
    stays held. *)
Lemma ProcessSegment_rinv w seg :
  rinv w → valid_data msgs seg →
  ∃ w', ProcessSegment w seg = Ok w' ∧ rinv w' ∧ nextNumber w' = nextNumber w ∧
    windowSize w' = windowSize w ∧ leftOver w' = leftOver w ∧ (∀ n, held w n → held w' n) ∧
    (ds_Number seg < nextNumber w + windowSize w → held w' (ds_Number seg)).
Proof.
  intros H Hv. pose proof (valid_number msgs seg Hv) as Hn. pose proof Hv as [(_ & _ & Hts & Hnu & _) _].
  pose proof (r_next _ H) as Hnext. pose proof (r_size _ H). pose proof (r_len _ H).
  unfold ProcessSegment. destruct (sub32_case (ds_Number seg) (nextNumber w)) as [[Hle E]|[Hlt E]];
    [done|unfold is_u32; lia|..]; rewrite E.
  2: { rewrite decide_True by lia. exists w. split_and!; try done. intros _. left. lia. }
  case_decide as Hd.
  { exists w. split_and!; try done. intros. lia. }
  destruct (Clear_rinv w (ds_SendingNext seg) H) as (l & -> & Hl). cbn [mbind go_bind].
  set (win := (ReceivingWindow.Set_ (window w) (ds_Number seg) seg).2).
  assert (Hwin : ReceivingWindow.Set_ (window w) (ds_Number seg) seg
                 = ((ReceivingWindow.Set_ (window w) (ds_Number seg) seg).1, win))
    by (unfold win; by destruct (ReceivingWindow.Set_ _ _ _)).
  assert (Hk : ∀ k, is_Some (win !! k) ↔ is_Some (window w !! k) ∨ k = ds_Number seg).
  { intros k. unfold win, ReceivingWindow.Set_. destruct (window w !! ds_Number seg) eqn:El; cbn.
    - split; [tauto|]. intros [| ->]; [done|by eexists].
    - rewrite lookup_insert_is_Some. destruct (decide (ds_Number seg = k)); naive_solver. }
  assert (Hf : map_Forall (λ k seg, nextNumber w ≤ k ∧ ds_Number seg = k ∧ valid_data msgs seg) win).
  { unfold win, ReceivingWindow.Set_. pose proof (r_win _ H). destruct (window w !! _); [done|].
    apply map_Forall_insert_2; [|done]. split_and!; try done. }
  rewrite Hwin. eexists. split; [done|]. cbn [nextNumber windowSize leftOver].
  assert (Hh : ∀ n, held w n → held (mk (leftOver w) win (AckList.Add l (ds_Number seg) (ds_Timestamp seg))
                                      (nextNumber w) (windowSize w)) n).
  { intros n [?|?]; [by left|]. right. cbn. rewrite Hk. by left. }
  split_and!; try done.
  - split; try apply H; cbn; [|..|done].
    + destruct Hl as [_ _ _ [? ?] _ _ _ _]. unfold AckList.wf. cbn in *. rewrite !length_app. cbn. lia.
    + apply Forall_app; split; [apply (r_stamps _ Hl)|]. by apply Forall_singleton.
    + apply Forall_app; split.
      * eapply list.Forall_impl; [apply (r_held _ Hl)|]. cbn. intros n [? ?]. split; [done|by apply Hh].
      * apply Forall_singleton. split; [done|]. right. cbn. rewrite Hk. by right.
  - intros _. right. cbn. rewrite Hk. by right.
Qed.

Lemma read_loop_spec fuel : ∀ win next mb,
  0 ≤ next ≤ len msgs → len msgs ≤ 2147483648 →
  map_Forall (λ k seg, next ≤ k ∧ ds_Number seg = k ∧ valid_data msgs seg) win → (size win < fuel)%nat →
  ∃ win' next' mb', read_loop fuel win next mb = (win', next', mb ++ mb') ∧
    next ≤ next' ≤ len msgs ∧ Forall Buffer.wf mb' ∧ win' !! next' = None ∧
    map_Forall (λ k seg, next' ≤ k ∧ ds_Number seg = k ∧ valid_data msgs seg) win' ∧
    concat (take (Z.to_nat next) msgs) ++ MultiBuffer.mcontent mb'
    = concat (take (Z.to_nat next') msgs) ∧
    (∀ k, is_Some (win !! k) → k < next' ∨ is_Some (win' !! k)).
Proof.
  induction fuel as [|fuel IH]; intros win next mb Hn Hm Hw Hs; [lia|].
  cbn [read_loop]. unfold ReceivingWindow.Remove. destruct (win !! next) as [seg|] eqn:E.
  2: { exists win, next, []. rewrite !app_nil_r. split_and!; try done; try lia. auto. }
  destruct (Hw next seg E) as (_ & Hnum & Hv). pose proof (valid_number msgs seg Hv) as Hlt.
  rewrite u32_small by (unfold is_u32; lia).
  pose proof Hv as [(_ & _ & _ & _ & _ & p & Hp & Hpw & _) Hl]. rewrite Hnum in Hl.
  unfold payload_bytes in Hl. unfold Detach. rewrite Hp in *. cbn [fst default from_option id].
  destruct (IH (delete next win) (next + 1) (mb ++ [p])) as (win' & next' & mb' & Er & ? & Hb & Hnone & Hw' & Hc & Hk);
    [lia|done|..].
  { intros k s Hk. apply lookup_delete_Some in Hk as [Hne Hk]. apply Hw in Hk as (? & ? & ?).
    split_and!; try done. lia. }
  { rewrite map_size_delete_Some by (by eexists).
    assert (size win ≠ 0%nat) by (intros ->%map_size_empty_inv; by rewrite lookup_empty in E). lia. }
  exists win', next', (p :: mb'). rewrite Er, <- app_assoc, MultiBuffer.mcontent_cons.
  split; [done|]. split; [lia|]. split; [by apply Forall_cons_2|]. split; [done|]. split; [done|]. split.
  - rewrite <- Hc. rewrite Z2Nat.inj_add, Nat.add_1_r by lia.
    rewrite (take_S_r _ _ (Buffer.content p)) by done.
    rewrite concat_app, <- app_assoc. cbn. by rewrite app_nil_r.
  - intros k Hsk. destruct (decide (k = next)) as [->|]; [left; lia|].
    apply Hk. by rewrite lookup_delete_ne.
Qed.

(** Reading takes the longest run of consecutive segments, in order. *)
Lemma ReadMultiBuffer_rinv w delivered w' mb :
  rinv w → stream w delivered → ReadMultiBuffer w = (w', mb) →
  rinv w' ∧ stream w' (delivered ++ MultiBuffer.mcontent mb) ∧ Forall Buffer.wf mb ∧
  leftOver w' = None ∧ windowSize w' = windowSize w ∧ nextNumber w ≤ nextNumber w' ∧
  (∀ n, held w n → held w' n) ∧ (leftOver w = None → IsDataAvailable w' = false).
Proof.
  intros H Hs. unfold ReadMultiBuffer. destruct (leftOver w) as [lo|] eqn:El.
  { intros [= <- <-]. unfold stream in *. rewrite El in Hs. cbn in *. rewrite app_nil_r.
    pose proof (r_left _ H) as Hlo. rewrite El in Hlo.
    split_and!; try done. split; try apply H; apply Forall_nil_2. }
  destruct (read_loop_spec (S (size (window w))) (window w) (nextNumber w) [])
    as (win & next & mb' & -> & Hn & Hb & Hnone & Hw & Hc & Hk); [apply H|apply H|apply (r_win _ H)|lia|].
  cbn [app]. intros [= <- <-]. pose proof (r_next _ H).
  assert (Hh : ∀ n, held w n → held (mk None win (acklist w) next (windowSize w)) n).
  { intros n [?|?]; [left; cbn; lia|]. destruct (Hk n) as [|]; [done|by left|by right]. }
  unfold stream in *. rewrite El in Hs. cbn in *. rewrite app_nil_r in *. rewrite Hs, Hc.
  split_and!; try done.
  - split; try apply H; cbn; [lia|..|done|apply Forall_nil_2].
    eapply list.Forall_impl; [apply (r_held _ H)|]. cbn. intros n [? ?]. split; [done|by apply Hh].
  - lia.
  - intros _. unfold IsDataAvailable, ReceivingWindow.Has. cbn. rewrite Hnone.
    apply bool_decide_eq_false. by intros [? ?].
Qed.

Lemma Read_rinv w delivered n :
  rinv w → stream w delivered → 0 ≤ n →
  ∃ w' got, Read w n = Ok (w', got) ∧ rinv w' ∧ stream w' (delivered ++ got) ∧ len got ≤ n ∧
    windowSize w' = windowSize w ∧ nextNumber w ≤ nextNumber w' ∧ (∀ n, held w n → held w' n).
Proof.
  intros H Hs Hn. unfold Read. destruct (ReadMultiBuffer w) as [w' mb] eqn:E.
  destruct (ReadMultiBuffer_rinv w delivered w' mb H Hs E) as (H' & Hs' & Hb & Hl & ? & ? & Hh & _).
  destruct (MultiBuffer.IsEmpty mb) eqn:Ee.
  { apply MultiBuffer.IsEmpty_spec in Ee; [|done]. rewrite Ee in Hs'. exists w', []. split_and!; done. }
  destruct (MultiBuffer.SplitBytes_spec mb n Hb Hn) as (mb' & -> & Hb' & Hc). cbn [mbind go_bind].
  eexists _, _. split; [done|].
  assert (Hle : len (take (Z.to_nat n) (MultiBuffer.mcontent mb)) ≤ n) by len_lia.
  unfold stream in *. rewrite Hl in Hs'. cbn in Hs'. rewrite app_nil_r in Hs'.
  destruct (MultiBuffer.IsEmpty mb') eqn:Em.
  - apply MultiBuffer.IsEmpty_spec in Em; [|done]. rewrite Hc in Em. split_and!; try done.
    rewrite <- Hs', Hl. cbn. rewrite app_nil_r. f_equal.
    rewrite <- (take_drop (Z.to_nat n) (MultiBuffer.mcontent mb)) at 2. by rewrite Em, app_nil_r.
  - split_and!; try done.
    + split; try apply H'. done.
    + cbn. by rewrite <- Hs', Hc, <- app_assoc, take_drop.
Qed.

(** What the acknowledgements of a flush say is true of the worker. *)
Definition true_ack (conv : Z) (w : t) (s : AckSegment) : Prop :=
  wf_ack s ∧ as_Conv s = conv ∧ as_ReceivingNext s = nextNumber w ∧ Forall (held w) (as_NumberList s).

Lemma Flush_rinv conv st rto w current w' outs :
  is_u16 conv → rinv w → Flush conv st rto w current = (w', outs) →
  (∃ l, w' = set_acklist w l) ∧ rinv w' ∧ Forall (true_ack conv w) outs.
Proof.
  intros Hconv H. unfold Flush.
  pose proof (AckList.Flush_stamped (acklist w) current rto (r_stamps _ H)) as Hst.
  destruct (AckList.Flush (acklist w) current rto) as [l written] eqn:E. intros [= <- <-].
  apply AckList.AckList_Flush_spec in E as ((Hl & Hn & Ht & _) & Hfit & (extra & Ha & Hx) & _); [|apply H].
  split; [by exists l|]. split.
  { split; try apply H; cbn; [done|rewrite Ht; apply H|rewrite Hn; apply H]. }
  rewrite Forall_fmap, list.Forall_forall. intros s Hs. cbn in Hst.
  rewrite list.Forall_forall in Hst, Hfit. specialize (Hst s Hs). destruct (Hfit s Hs) as [Hlim Hlen].
  assert (Hsub : ∀ n, n ∈ as_NumberList s → n ∈ AckList.numbers (acklist w)).
  { intros n Hin. assert (n ∈ concat (as_NumberList <$> written)) as Hc.
    { rewrite list_elem_of_In, in_concat. exists (as_NumberList s).
      rewrite <- !list_elem_of_In. split; [|done]. apply list_elem_of_fmap. by exists s. }
    rewrite Ha in Hc. apply elem_of_app in Hc as [Hc|Hc]; [by apply AckList.due_subseteq in Hc|by apply Hx]. }
  assert (Hall : Forall (λ n, is_u32 n ∧ held w n) (as_NumberList s))
    by (eapply Forall_elem_sub; [exact Hsub|apply (r_held _ H)]).
  destruct (AckList.NewAckSegment_limit (AckList.ack_limit (acklist w))) as [Hm _].
  pose proof (r_next _ H). pose proof (r_len _ H).
  unfold compose, true_ack, wf_ack, Write. cbn. split_and!; try done; auto with golib.
  - unfold is_u8, SegmentOptionClose. case_decide; lia.
  - unfold is_u32. lia.
  - eapply list.Forall_impl; [exact Hall|]. by intros ? [? ?].
  - lia.
  - eapply list.Forall_impl; [exact Hall|]. by intros ? [? ?].
Qed.

End in_order.

(** More messages of the peer change nothing for what was received. *)
Lemma rinv_mono msgs more w : len (msgs ++ more) ≤ 2147483648 → rinv msgs w → rinv (msgs ++ more) w.
Proof.
  intros Hl H. pose proof (r_next _ _ H). pose proof (len_nonneg more). rewrite len_app in *.
  split; try apply H; [rewrite len_app; lia|rewrite len_app; lia|].
  eapply map_Forall_impl; [apply (r_win _ _ H)|]. cbn. intros k seg (? & ? & ? & Hv).
  split; [done|]. split; [done|]. split; [done|]. by apply lookup_app_l_Some.
Qed.

Lemma stream_mono msgs more w d :
  rinv msgs w → stream msgs w d → stream (msgs ++ more) w d.
Proof.
  intros H. unfold stream. intros ->. pose proof (r_next _ _ H). rewrite take_app_le; [done|]. len_lia.
Qed.

Lemma stream_prefix msgs w d : stream msgs w d → d `prefix_of` concat msgs.
Proof.
  unfold stream. intros H. exists (MultiBuffer.mcontent (default [] (leftOver w))
    ++ concat (drop (Z.to_nat (nextNumber w)) msgs)).
  by rewrite app_assoc, H, <- concat_app, take_drop.
Qed.

(** *** Runs of the worker *)

Inductive Op :=
| OSegment (seg : DataSegment)
| OSendingNext (n : Z)
| ORead (n : Z)
| OReadMulti
| OFlush (st : State) (rto current : Z).

(** One operation: the worker afterwards and the bytes it delivered. *)
Definition run (conv : Z) (w : t) (o : Op) : go (t * list byte) :=
  match o with
  | OSegment seg => w ← ProcessSegment w seg; Ok (w, [])
  | OSendingNext n => w ← ProcessSendingNext w n; Ok (w, [])
  | ORead n => Read w n
  | OReadMulti => let '(w, mb) := ReadMultiBuffer w in Ok (w, MultiBuffer.mcontent mb)
  | OFlush st rto current => Ok ((Flush conv st rto w current).1, [])
  end.

Fixpoint run_all (conv : Z) (w : t) (os : list Op) : go (t * list byte) :=
  match os with
  | [] => Ok (w, [])
  | o :: os => '(w, a) ← run conv w o; '(w, b) ← run_all conv w os; Ok (w, a ++ b)
  end.

Definition op_ok (msgs : list (list byte)) (o : Op) : Prop :=
  match o with OSegment seg => valid_data msgs seg | ORead n => 0 ≤ n | _ => True end.

Lemma run_rinv msgs conv w d o :
  is_u16 conv → rinv msgs w → stream msgs w d → op_ok msgs o →
  ∃ w' got, run conv w o = Ok (w', got) ∧ rinv msgs w' ∧ stream msgs w' (d ++ got) ∧
    windowSize w' = windowSize w ∧ ∀ n, held w n → held w' n.
Proof.
  intros Hc H Hs Ho. destruct o as [seg|n|n| |st rto current]; cbn [run op_ok] in *.
  - destruct (ProcessSegment_rinv msgs w seg H Ho) as (w' & -> & H' & En & ? & El & ? & _).
    exists w', []. unfold stream in *. rewrite app_nil_r, En, El. done.
  - destruct (ProcessSendingNext_rinv msgs w n H) as (l & -> & H'). eexists _, [].
    rewrite app_nil_r. by split_and!.
  - destruct (Read_rinv msgs w d n H Hs Ho) as (w' & got & -> & ? & ? & ? & ? & ? & ?).
    by exists w', got.
  - destruct (ReadMultiBuffer w) as [w' mb] eqn:E.
    destruct (ReadMultiBuffer_rinv msgs w d w' mb H Hs E) as (? & ? & ? & ? & ? & ? & ? & ?).
    by eexists w', _.
  - destruct (Flush conv st rto w current) as [w' outs] eqn:E.
    destruct (Flush_rinv msgs conv st rto w current w' outs Hc H E) as ((l & ->) & ? & _).
    eexists _, []. rewrite app_nil_r. by split_and!.
Qed.

Lemma run_all_rinv msgs conv os : ∀ w d,
  is_u16 conv → rinv msgs w → stream msgs w d → Forall (op_ok msgs) os →
  ∃ w' got, run_all conv w os = Ok (w', got) ∧ rinv msgs w' ∧ stream msgs w' (d ++ got) ∧
    windowSize w' = windowSize w ∧ ∀ n, held w n → held w' n.
Proof.
  induction os as [|o os IH]; intros w d Hc H Hs Ho.
  { exists w, []. rewrite app_nil_r. by split_and!. }
  apply Forall_cons_1 in Ho as [Ho Hos]. cbn [run_all].
  destruct (run_rinv msgs conv w d o) as (w1 & a & -> & H1 & Hs1 & E1 & Hh1); try done.
  destruct (IH w1 (d ++ a)) as (w2 & b & E2 & H2 & Hs2 & Ew & Hh2); try done.
  cbn [mbind go_bind]. rewrite E2. exists w2, (a ++ b). rewrite app_assoc.
  split_and!; try done; [congruence|auto].
Qed.

Lemma new_worker_rinv msgs cfg mss w :
  len msgs ≤ 2147483648 → usable_config cfg → NewReceivingWorker cfg mss = Ok w →
  rinv msgs w ∧ stream msgs w [].
Proof.
  intros Hm Hu. unfold NewReceivingWorker. pose proof (len_nonneg msgs).
  destruct (receiving_in_flight cfg Hu) as (n & -> & Hn). cbn. intros [= <-].
  split; [|done]. by split; cbn; try done; try lia; try apply map_Forall_empty.
Qed.

(** In-order delivery by the receiving worker. Whatever the order in which the
    peer's segments arrive, however often, mixed in any way with reads, flushes and
    notices of the peer, no operation panics and the bytes delivered are a prefix of
    the concatenation of the peer's messages; when nothing is left over and a read finds
    the window without the next segment, everything received in sequence has been
    delivered. *)
Lemma receiving_in_order msgs cfg mss conv w os :
  len msgs ≤ 2147483648 → usable_config cfg → is_u16 conv → NewReceivingWorker cfg mss = Ok w →
  Forall (op_ok msgs) os →
  ∃ w' got, run_all conv w os = Ok (w', got) ∧ got `prefix_of` concat msgs ∧
    (leftOver w' = None → got = concat (take (Z.to_nat (nextNumber w')) msgs)).
Proof.
  intros Hm Hu Hc E Ho. destruct (new_worker_rinv msgs cfg mss w Hm Hu E) as [H Hs].
  destruct (run_all_rinv msgs conv os w [] Hc H Hs Ho) as (w' & got & Er & H' & Hs' & _).
  exists w', got. split; [done|]. split; [by eapply stream_prefix|].
  intros Hl. unfold stream in Hs'. rewrite Hl in Hs'. cbn in Hs'. by rewrite app_nil_r in Hs'.
Qed.

(** Reads make progress: once every segment up to the end was processed inside the
    window, one [ReadMultiBuffer] with nothing left over delivers all that was not
    delivered before. *)
Theorem receiving_complete msgs w delivered w' mb :
  rinv msgs w → stream msgs w delivered → leftOver w = None →
  (∀ n, 0 ≤ n < len msgs → held w n) →
  ReadMultiBuffer w = (w', mb) →
  delivered ++ MultiBuffer.mcontent mb = concat msgs ∧ nextNumber w' = len msgs.
Proof.
  intros H Hs Hl Hall E.
  destruct (ReadMultiBuffer_rinv msgs w delivered w' mb H Hs E) as (H' & Hs' & _ & Hl' & _ & _ & Hh & Hav).
  specialize (Hav Hl). unfold IsDataAvailable, ReceivingWindow.Has in Hav.
  apply bool_decide_eq_false in Hav. pose proof (r_next _ _ H') as Hn.
  assert (nextNumber w' = len msgs) as En.
  { destruct (decide (nextNumber w' = len msgs)); [done|]. exfalso.
    destruct (Hh (nextNumber w')) as [?|?]; [apply Hall; lia|lia|done]. }
  split; [|done]. unfold stream in Hs'. rewrite Hl' in Hs'. cbn in Hs'.
  rewrite app_nil_r in Hs'. rewrite Hs', En. f_equal. apply take_ge. len_lia.
Qed.

End ReceivingWorker.

(** ** Witnesses *)

Lemma ack_clear_filters_witness :
  ∃ l', AckList.Clear (AckList.Add (AckList.Add (AckList.Add (AckList.NewAckList 1350) 5 50) 3 30) 7 70) 5
        = Ok l' ∧ AckList.entries l' = [(5, (50, 0)); (7, (70, 0))].
Proof.
  destruct (AckList.ack_clear_filters
    (AckList.Add (AckList.Add (AckList.Add (AckList.NewAckList 1350) 5 50) 3 30) 7 70) 5)
    as (l' & E & _ & He & _); [by split|]. exists l'. split; [exact E|]. rewrite He. reflexivity.
Defined.

Lemma ack_flush_complete_witness :
  ∃ l' s, AckList.Flush (AckList.Add (AckList.Add (AckList.NewAckList 1350) 5 50) 3 30) 1000 100 = (l', [s])
    ∧ as_NumberList s = [5; 3] ∧ AckSegment_ByteSize s ≤ 1350.
Proof.
  eexists _, _. split; [vm_compute; reflexivity|]. split; [reflexivity|].
  edestruct (AckList.ack_flush_complete
    (AckList.Add (AckList.Add (AckList.NewAckList 1350) 5 50) 3 30) 1000 100)
    as (_ & _ & _ & _ & Hf & _); [by split|cbn; lia|vm_compute; reflexivity|].
  apply Forall_cons_1 in Hf as [[_ Hf] _]. exact Hf.
Defined.

Definition sample_msgs : list (list byte) := [[x61]; [x62; x63]].
Definition sample_seg (n : Z) (bs : list byte) : DataSegment :=
  mkData 7 0 1000 n 0 (Some (Buffer.FromBytes bs)) 0 0.

Lemma sample_seg_valid n bs :
  is_u32 n → len bs ≤ Buffer.Size → sample_msgs !! Z.to_nat n = Some bs →
  valid_data sample_msgs (sample_seg n bs).
Proof.
  intros Hn Hl Hs. destruct (Buffer.wf_FromBytes bs) as [Hw Hc]; [unfold Buffer.Size in Hl; lia|].
  split.
  - unfold wf_data, is_u16, is_u8, is_u32 in *. cbn. split_and!; try lia. eexists. split; [done|].
    by rewrite Hc.
  - cbn. unfold payload_bytes. cbn. by rewrite Hc.
Qed.

Definition sample_ops : list ReceivingWorker.Op :=
  [ReceivingWorker.OSegment (sample_seg 1 [x62; x63]); ReceivingWorker.OReadMulti;
   ReceivingWorker.OSegment (sample_seg 0 [x61]); ReceivingWorker.OSegment (sample_seg 1 [x62; x63]);
   ReceivingWorker.ORead 2; ReceivingWorker.ORead 8].

Lemma receiving_in_order_witness :
  ∃ w w' got, ReceivingWorker.NewReceivingWorker default_config 1332 = Ok w ∧
    ReceivingWorker.run_all 7 w sample_ops = Ok (w', got) ∧ got `prefix_of` [x61; x62; x63].
Proof.
  destruct (ReceivingWorker.NewReceivingWorker default_config 1332) as [w| |] eqn:E;
    [|vm_compute in E; discriminate..].
  destruct (ReceivingWorker.receiving_in_order sample_msgs default_config 1332 7 w sample_ops)
    as (w' & got & Er & Hp & _).
  - vm_compute. discriminate.
  - vm_compute. intuition discriminate.
  - unfold is_u16. lia.
  - exact E.
  - solve_Forall ltac:(cbn; first [exact I | lia | apply sample_seg_valid; [unfold is_u32; lia|vm_compute; discriminate|reflexivity]]).
  - exists w, w', got. split_and!; [reflexivity|exact Er|exact Hp].
Defined.

Definition sample_worker : ReceivingWorker.t :=
  ReceivingWorker.mk None {[ 1 := sample_seg 1 [x62; x63] ]} (AckList.NewAckList 1350) 1 8.

Lemma receiving_complete_witness :
  ∃ w' mb, ReceivingWorker.ReadMultiBuffer sample_worker = (w', mb) ∧
    [x61] ++ MultiBuffer.mcontent mb = [x61; x62; x63].
Proof.
  destruct (ReceivingWorker.ReadMultiBuffer sample_worker) as [w' mb] eqn:E.
  exists w', mb. split; [reflexivity|].
  apply (ReceivingWorker.receiving_complete sample_msgs sample_worker [x61] w' mb).
  - split.
    + split; vm_compute; discriminate.
    + vm_compute. discriminate.
    + split; vm_compute; discriminate.
    + by split.
    + apply Forall_nil_2.
    + apply Forall_nil_2.
    + unfold sample_worker. cbn [ReceivingWorker.window ReceivingWorker.nextNumber].
      intros k seg [<- <-]%lookup_singleton_Some. split; [reflexivity|]. split; [reflexivity|].
      apply sample_seg_valid; [unfold is_u32; lia|vm_compute; discriminate|reflexivity].
    + apply Forall_nil_2.
  - reflexivity.
  - reflexivity.
  - intros n Hn. change (len sample_msgs) with 2 in Hn. unfold ReceivingWorker.held. cbn.
    destruct (decide (n < 1)); [by left|]. right. assert (n = 1) as -> by lia. by eexists.
  - exact E.
Defined.
