(* ===== verification/KcpSending.v ===== *)
(** * The mKCP sending worker

    Models [transport/internet/kcp/sending.go]: the window of unacknowledged segments,
    in the order of their numbers, and the worker that numbers, sends, resends and
    retires them. A segment of the window is mutated only through the window, so the
    list of segments is the whole store. What is written to the connection's output is a
    result, in order; [stamp] is what [SendingWorker.Write] does to a segment before it
    goes out. *)

From Stdlib Require Import Sorted.
From S2P Require Import Prelude Net Buf KcpSegment KcpCommon.

(** ** Sending window *)

Module SendingWindow.

Record t := mk {
  cache : list DataSegment;
  totalInFlightSize : Z
}.

Definition NewSendingWindow : t := mk [] 0.

Definition Release (sw : t) : t := mk [] (totalInFlightSize sw).

Definition Len (sw : t) : Z := u32 (len (cache sw)).
Definition IsEmpty (sw : t) : bool := bool_decide (cache sw = []).

Definition Push (sw : t) (number : Z) (b : Buffer.t) : t :=
  mk (cache sw ++ [mkData 0 0 0 number 0 (Some b) 0 0]) (totalInFlightSize sw).

(** A nil front is dereferenced. *)
Definition FirstNumber (sw : t) : go Z :=
  match cache sw with [] => Panic | seg :: _ => Ok (ds_Number seg) end.

Fixpoint clear_front (cache : list DataSegment) (una : Z) : list DataSegment :=
  match cache with
  | [] => []
  | seg :: rest => if decide (una ≤ ds_Number seg) then cache else clear_front rest una
  end.
Definition Clear (sw : t) (una : Z) : t := mk (clear_front (cache sw) una) (totalInFlightSize sw).

(** [Visit]: the visitor may change the segment and stops the visit with [false]. *)
Fixpoint visit {S} (visitor : S → DataSegment → S * DataSegment * bool) (s : S)
    (cache : list DataSegment) : S * list DataSegment :=
  match cache with
  | [] => (s, [])
  | seg :: rest =>
      let '(s, seg, continue) := visitor s seg in
      if (continue : bool) then let '(s, rest) := visit visitor s rest in (s, seg :: rest)
      else (s, seg :: rest)
  end.

Definition set_timeout (seg : DataSegment) (timeout : Z) : DataSegment :=
  mkData (ds_Conv seg) (ds_Option seg) (ds_Timestamp seg) (ds_Number seg) (ds_SendingNext seg)
         (ds_payload seg) timeout (ds_transmit seg).

Definition HandleFastAck (sw : t) (number rto : Z) : t :=
  if IsEmpty sw then sw
  else
    let visitor (_ : ()) (seg : DataSegment) :=
      if decide (number = ds_Number seg ∨ number -32 ds_Number seg > half32) then ((), seg, false)
      else
        let seg := if decide (ds_transmit seg > 0 ∧ ds_timeout seg > rto / 3)
                   then set_timeout seg (ds_timeout seg -32 rto / 3) else seg in
        ((), seg, true) in
    mk (visit visitor () (cache sw)).2 (totalInFlightSize sw).

(** What the closure of [Flush] captures: the in-flight total of the window, the lost
    and sent counts, and the segments written. *)
Record FlushState := mkFlush {
  f_total : Z;
  f_lost : Z;
  f_inFlight : Z;
  f_out : list DataSegment
}.

Definition flush_visitor (stamp : DataSegment → DataSegment) (current rto maxInFlightSize : Z)
    (s : FlushState) (segment : DataSegment) : FlushState * DataSegment * bool :=
  if decide (half32 ≤ current -32 ds_timeout segment) then (s, segment, true)
  else
    let '(total, lost) :=
      if decide (ds_transmit segment = 0) then (f_total s +32 1, f_lost s)
      else (f_total s, f_lost s +32 1) in
    let segment := mkData (ds_Conv segment) (ds_Option segment) current (ds_Number segment)
                     (ds_SendingNext segment) (ds_payload segment) (current +32 rto)
                     (ds_transmit segment +32 1) in
    let segment := stamp segment in
    let n := f_inFlight s +32 1 in
    (mkFlush total lost n (f_out s ++ [segment]), segment, bool_decide (n < maxInFlightSize)).

(** [Flush]: the window, the segments written and the loss rate reported, if any. *)
Definition Flush (stamp : DataSegment → DataSegment) (sw : t) (current rto maxInFlightSize : Z)
    : t * list DataSegment * option Z :=
  if IsEmpty sw then (sw, [], None)
  else
    let '(s, cache) :=
      visit (flush_visitor stamp current rto maxInFlightSize)
            (mkFlush (totalInFlightSize sw) 0 0 []) (cache sw) in
    (mk cache (f_total s), f_out s,
     if decide (f_inFlight s > 0 ∧ f_total s ≠ 0)
     then Some ((f_lost s *32 100) / f_total s) else None).

Fixpoint remove_from (cache : list DataSegment) (number : Z) : option (list DataSegment) :=
  match cache with
  | [] => None
  | seg :: rest =>
      if decide (ds_Number seg > number) then None
      else if decide (ds_Number seg = number) then Some rest
      else rest' ← remove_from rest number; Some (seg :: rest')
  end.

Definition Remove (sw : t) (number : Z) : bool * t :=
  match remove_from (cache sw) number with
  | None => (false, sw)
  | Some cache =>
      (true, mk cache (if decide (totalInFlightSize sw > 0) then totalInFlightSize sw -32 1
                       else totalInFlightSize sw))
  end.

(** *** The window as an ordered set of numbers *)

Definition sorted (c : list DataSegment) : Prop := StronglySorted Z.lt (ds_Number <$> c).

Lemma sorted_cons seg c :
  sorted (seg :: c) ↔ sorted c ∧ Forall (λ s, ds_Number seg < ds_Number s) c.
Proof.
  unfold sorted. rewrite fmap_cons. split.
  - intros [? H]%StronglySorted_inv. by rewrite Forall_fmap in H.
  - intros [? H]. constructor; [done|]. by rewrite Forall_fmap.
Qed.

Lemma sorted_filter (P : DataSegment → Prop) `{!∀ s, Decision (P s)} c : sorted c → sorted (filter P c).
Proof.
  induction c as [|seg c IH]; [done|]. intros [Hs Hf]%sorted_cons. rewrite filter_cons.
  case_decide; [|auto]. apply sorted_cons. split; [auto|].
  eapply Forall_elem_sub; [|exact Hf]. by intros x [_ ?]%list_elem_of_filter.
Qed.

Lemma sorted_snoc c seg :
  sorted c → Forall (λ s, ds_Number s < ds_Number seg) c → sorted (c ++ [seg]).
Proof.
  induction c as [|s c IH]; intros Hs Hf; [by repeat constructor|]. cbn.
  apply sorted_cons in Hs as [Hs Hlt]. apply Forall_cons_1 in Hf as [? Hf].
  apply sorted_cons. split; [auto|]. apply Forall_app. split; [done|]. by apply Forall_singleton.
Qed.

Lemma filter_all {A} (P : A → Prop) `{!∀ x, Decision (P x)} (l : list A) : Forall P l → filter P l = l.
Proof. induction 1; [done|]. rewrite filter_cons_True by done. by f_equal. Qed.

Lemma clear_front_filter c una :
  sorted c → clear_front c una = filter (λ s, ¬ ds_Number s < una) c.
Proof.
  induction c as [|seg c IH]; [done|]. intros [Hs Hf]%sorted_cons. cbn [clear_front].
  case_decide as Hd.
  - symmetry. apply filter_all. apply Forall_cons_2; [lia|].
    eapply list.Forall_impl; [exact Hf|]. cbn. lia.
  - rewrite filter_cons_False by lia. auto.
Qed.

Lemma remove_from_filter c n :
  sorted c →
  remove_from c n = if decide (n ∈ ds_Number <$> c)
                    then Some (filter (λ s, ds_Number s ≠ n) c) else None.
Proof.
  induction c as [|seg c IH]; [done|]. intros [Hs Hf]%sorted_cons. cbn [remove_from].
  assert (Hin : n ∈ ds_Number <$> c → ds_Number seg < n).
  { intros (s & -> & Hin)%list_elem_of_fmap. rewrite list.Forall_forall in Hf. by apply Hf. }
  rewrite fmap_cons. destruct (decide (ds_Number seg > n)) as [H1|H1].
  { rewrite decide_False; [done|]. rewrite elem_of_cons. intros [?|?%Hin]; lia. }
  destruct (decide (ds_Number seg = n)) as [H2|H2].
  - rewrite decide_True by (apply elem_of_cons; auto). rewrite filter_cons_False by auto.
    f_equal. symmetry. apply filter_all. eapply list.Forall_impl; [exact Hf|]. cbn. lia.
  - rewrite IH by done. rewrite filter_cons_True by done. destruct (decide (n ∈ ds_Number <$> c)) as [Hc|Hc].
    + rewrite decide_True by (apply elem_of_cons; auto). done.
    + rewrite decide_False; [done|]. rewrite elem_of_cons. intros [|]; [lia|done].
Qed.

(** *** What a flush sends *)

Definition due (current : Z) (seg : DataSegment) : Prop := ¬ half32 ≤ current -32 ds_timeout seg.
#[global] Instance due_dec current seg : Decision (due current seg).
Proof. unfold due. apply _. Defined.

Definition sent (stamp : DataSegment → DataSegment) (current rto : Z) (seg : DataSegment) : DataSegment :=
  stamp (mkData (ds_Conv seg) (ds_Option seg) current (ds_Number seg) (ds_SendingNext seg)
           (ds_payload seg) (current +32 rto) (ds_transmit seg +32 1)).

Lemma visit_flush_spec stamp current rto maxIn c : ∀ s s' c',
  visit (flush_visitor stamp current rto maxIn) s c = (s', c') →
  0 ≤ f_inFlight s → f_inFlight s + len c < 4294967296 →
  let k := Z.to_nat (Z.max 1 (maxIn - f_inFlight s)) in
  f_out s' = f_out s ++ (sent stamp current rto <$> take k (filter (due current) c)) ∧
  Forall2 (λ a b, b = a ∨ due current a ∧ b = sent stamp current rto a) c c'.
Proof.
  induction c as [|seg c IH]; intros s s' c' E H0 Hlen; cbv zeta; cbn [visit] in E.
  { injection E as <- <-. rewrite filter_nil, take_nil, app_nil_r. done. }
  rewrite len_cons in Hlen. unfold flush_visitor at 1 in E.
  destruct (decide (half32 ≤ current -32 ds_timeout seg)) as [Hd|Hd].
  - destruct (visit _ s c) as [s1 c1] eqn:E1. injection E as <- <-.
    destruct (IH _ _ _ E1) as [Ho Hf]; [lia..|]. rewrite filter_cons_False by (unfold due; tauto).
    split; [done|]. constructor; auto.
  - rewrite filter_cons_True by done. fold (sent stamp current rto seg) in E.
    destruct (if decide (ds_transmit seg = 0) then _ else _) as [tot lost].
    rewrite u32_small in E by (unfold is_u32; pose proof (len_nonneg c); lia).
    destruct (bool_decide (f_inFlight s + 1 < maxIn)) eqn:Eb.
    + apply bool_decide_eq_true in Eb.
      destruct (visit _ _ c) as [s1 c1] eqn:E1. injection E as <- <-.
      destruct (IH _ _ _ E1) as [Ho Hf]; cbn [f_inFlight f_out] in *; [lia..|].
      split; [|constructor; [by right|done]]. rewrite Ho, <- app_assoc. f_equal. cbn.
      replace (Z.to_nat (Z.max 1 (maxIn - f_inFlight s)))
        with (S (Z.to_nat (Z.max 1 (maxIn - (f_inFlight s + 1))))) by lia. done.
    + apply bool_decide_eq_false in Eb. injection E as <- <-. cbn [f_out].
      replace (Z.max 1 (maxIn - f_inFlight s)) with 1 by lia. split; [done|].
      constructor; [by right|]. apply Forall2_same_length_lookup_2; [done|].
      intros i a b Ha Hb. left. congruence.
Qed.

Lemma IsEmpty_true sw : IsEmpty sw = true ↔ cache sw = [].
Proof. unfold IsEmpty. by rewrite bool_decide_eq_true. Qed.

Lemma Flush_spec stamp sw current rto maxIn sw' out loss :
  len (cache sw) < 4294967296 → Flush stamp sw current rto maxIn = (sw', out, loss) →
  out = sent stamp current rto <$> take (Z.to_nat (Z.max 1 maxIn)) (filter (due current) (cache sw)) ∧
  Forall2 (λ a b, b = a ∨ due current a ∧ b = sent stamp current rto a) (cache sw) (cache sw').
Proof.
  intros Hl. unfold Flush. destruct (IsEmpty sw) eqn:Ee.
  { apply IsEmpty_true in Ee. intros [= <- <- <-]. rewrite Ee, filter_nil, take_nil. done. }
  destruct (visit _ _ _) as [s c] eqn:E. intros [= <- <- <-].
  apply visit_flush_spec in E as [Ho Hf]; cbn [f_inFlight] in *; [|lia..].
  rewrite Ho, Z.sub_0_r. done.
Qed.

Lemma sorted_len c : ∀ lo hi,
  lo ≤ hi → sorted c → Forall (λ s, lo ≤ ds_Number s < hi) c → len c ≤ hi - lo.
Proof.
  induction c as [|s c IH]; intros lo hi Hle Hs Hf; [rewrite len_nil; lia|].
  apply sorted_cons in Hs as [Hs Hlt]. apply Forall_cons_1 in Hf as [? Hf]. rewrite len_cons.
  enough (len c ≤ hi - (ds_Number s + 1)) by lia. apply IH; [lia|done|].
  rewrite list.Forall_forall in *. intros x Hx. specialize (Hlt x Hx). specialize (Hf x Hx).
  cbn in *. lia.
Qed.

(** Two segments that stand for the same message. *)
Definition same_msg (a b : DataSegment) : Prop :=
  ds_Number b = ds_Number a ∧ ds_payload b = ds_payload a ∧ (wf_data a → wf_data b).

Lemma visit_Forall2 {S} (R : DataSegment → DataSegment → Prop)
    (visitor : S → DataSegment → S * DataSegment * bool) s c :
  (∀ a, R a a) → (∀ s a, R a (visitor s a).1.2) → Forall2 R c (visit visitor s c).2.
Proof.
  intros Hr Hv. revert s. induction c as [|a c IH]; intros s; [constructor|]. cbn [visit].
  specialize (Hv s a). destruct (visitor s a) as [[s1 a1] [|]]; cbn in Hv.
  - specialize (IH s1). destruct (visit visitor s1 c). by constructor.
  - constructor; [done|]. clear IH. by induction c; constructor.
Qed.

Lemma HandleFastAck_same sw number rto :
  Forall2 same_msg (cache sw) (cache (HandleFastAck sw number rto)).
Proof.
  unfold HandleFastAck. destruct (IsEmpty sw) eqn:E.
  { apply IsEmpty_true in E. rewrite E. constructor. }
  apply visit_Forall2; [done|]. intros _ a. repeat case_decide; done.
Qed.

Lemma same_numbers c c' : Forall2 same_msg c c' → ds_Number <$> c' = ds_Number <$> c.
Proof. induction 1 as [|a b c c' (? & _) _ IH]; [done|]. rewrite !fmap_cons. by f_equal. Qed.

Lemma same_sorted c c' : Forall2 same_msg c c' → sorted c → sorted c'.
Proof. intros H. unfold sorted. by rewrite (same_numbers c c' H). Qed.

Lemma same_valid msgs c c' :
  Forall2 same_msg c c' → Forall (valid_data msgs) c → Forall (valid_data msgs) c'.
Proof.
  induction 1 as [|a b c c' (Hn & Hp & Hw) _ IH]; [done|]. intros [[? Hl] ?]%Forall_cons_1.
  apply Forall_cons_2; [|auto]. split; [auto|]. unfold payload_bytes in *. by rewrite Hn, Hp.
Qed.

Lemma same_low f c c' :
  Forall2 same_msg c c' → Forall (λ s, f ≤ ds_Number s) c → Forall (λ s, f ≤ ds_Number s) c'.
Proof.
  induction 1 as [|a b c c' (Hn & _) _ IH]; [done|]. intros [? ?]%Forall_cons_1.
  apply Forall_cons_2; [|auto]. by rewrite Hn.
Qed.

End SendingWindow.

(** ** Sending worker *)

Module SendingWorker.

Record t := mk {
  window : SendingWindow.t;
  firstUnacknowledged : Z;
  nextNumber : Z;
  remoteNextNumber : Z;
  controlWindow : Z;
  fastResend : Z;
  windowSize : Z;
  firstUnacknowledgedUpdated : bool;
  closed : bool
}.

Definition set_window (w : t) (sw : SendingWindow.t) : t :=
  mk sw (firstUnacknowledged w) (nextNumber w) (remoteNextNumber w) (controlWindow w)
     (fastResend w) (windowSize w) (firstUnacknowledgedUpdated w) (closed w).
Definition set_first (w : t) (first : Z) (updated : bool) : t :=
  mk (window w) first (nextNumber w) (remoteNextNumber w) (controlWindow w)
     (fastResend w) (windowSize w) updated (closed w).
Definition set_remote (w : t) (n : Z) : t :=
  mk (window w) (firstUnacknowledged w) (nextNumber w) n (controlWindow w)
     (fastResend w) (windowSize w) (firstUnacknowledgedUpdated w) (closed w).
Definition set_control (w : t) (n : Z) : t :=
  mk (window w) (firstUnacknowledged w) (nextNumber w) (remoteNextNumber w) n
     (fastResend w) (windowSize w) (firstUnacknowledgedUpdated w) (closed w).

Definition NewSendingWorker (cfg : Config) : go t :=
  cwnd ← GetSendingInFlightSize cfg;
  size ← GetSendingBufferSize cfg;
  Ok (mk SendingWindow.NewSendingWindow 0 0 32 cwnd 2 size false false).

Definition Release (w : t) : t :=
  mk (SendingWindow.Release (window w)) (firstUnacknowledged w) (nextNumber w)
     (remoteNextNumber w) (controlWindow w) (fastResend w) (windowSize w)
     (firstUnacknowledgedUpdated w) true.

Definition FindFirstUnacknowledged (w : t) : go t :=
  let first := firstUnacknowledged w in
  now ← (if SendingWindow.IsEmpty (window w) then Ok (nextNumber w)
         else SendingWindow.FirstNumber (window w));
  Ok (set_first w now (if decide (first ≠ now) then true else firstUnacknowledgedUpdated w)).

Definition ProcessReceivingNextWithoutLock (w : t) (nextNumber : Z) : go t :=
  FindFirstUnacknowledged (set_window w (SendingWindow.Clear (window w) nextNumber)).
Definition ProcessReceivingNext (w : t) (nextNumber : Z) : go t :=
  ProcessReceivingNextWithoutLock w nextNumber.

Definition processAck (w : t) (number : Z) : go (t * bool) :=
  if decide (number -32 firstUnacknowledged w > half32 ∨ number -32 nextNumber w < half32)
  then Ok (w, false)
  else
    let '(removed, sw) := SendingWindow.Remove (window w) number in
    let w := set_window w sw in
    if (removed : bool) then w ← FindFirstUnacknowledged w; Ok (w, true) else Ok (w, false).

(** The loop over the acknowledged numbers. *)
Fixpoint ack_loop (w : t) (numbers : list Z) (maxack : Z) (maxackRemoved : bool)
    : go (t * Z * bool) :=
  match numbers with
  | [] => Ok (w, maxack, maxackRemoved)
  | number :: numbers =>
      '(w, removed) ← processAck w number;
      if decide (maxack < number) then ack_loop w numbers number removed
      else ack_loop w numbers maxack maxackRemoved
  end.

(** [ProcessSegment]: the worker and the connection's round-trip estimate. *)
Definition ProcessSegment (w : t) (roundTrip : RoundTripInfo) (current : Z) (seg : AckSegment)
    (rto : Z) : go (t * RoundTripInfo) :=
  if closed w then Ok (w, roundTrip)
  else
    let w := if decide (remoteNextNumber w < as_ReceivingWindow seg)
             then set_remote w (as_ReceivingWindow seg) else w in
    w ← ProcessReceivingNextWithoutLock w (as_ReceivingNext seg);
    if AckSegment_IsEmpty seg then Ok (w, roundTrip)
    else
      '(w, maxack, maxackRemoved) ← ack_loop w (as_NumberList seg) 0 false;
      if (maxackRemoved : bool) then
        let w := set_window w (SendingWindow.HandleFastAck (window w) maxack rto) in
        Ok (w, if decide (current -32 as_Timestamp seg < 10000)
               then Update roundTrip (current -32 as_Timestamp seg) current else roundTrip)
      else Ok (w, roundTrip).

Definition Push (w : t) (b : Buffer.t) : t * bool :=
  if closed w then (w, false)
  else if decide (SendingWindow.Len (window w) > windowSize w) then (w, false)
  else
    (mk (SendingWindow.Push (window w) (nextNumber w) b) (firstUnacknowledged w)
        (nextNumber w +32 1) (remoteNextNumber w) (controlWindow w) (fastResend w) (windowSize w)
        (firstUnacknowledgedUpdated w) (closed w), true).

(** [Write]: the segment as it goes out. *)
Definition Write (conv : Z) (st : State) (w : t) (dataSeg : DataSegment) : DataSegment :=
  mkData conv (if decide (st = StateReadyToClose) then SegmentOptionClose else 0)
         (ds_Timestamp dataSeg) (ds_Number dataSeg) (firstUnacknowledged w)
         (ds_payload dataSeg) (ds_timeout dataSeg) (ds_transmit dataSeg).

Definition OnPacketLoss (cfg : Config) (roundTrip : RoundTripInfo) (w : t) (lossRate : Z) : go t :=
  if decide (Timeout roundTrip = 0) then Ok w
  else
    let c := controlWindow w in
    let c := if decide (15 ≤ lossRate) then (3 *32 c) / 4 else c in
    let c := if decide (lossRate ≤ 5) then c +32 c / 4 else c in
    let c := if decide (c < 16) then 16 else c in
    cwnd ← GetSendingInFlightSize cfg;
    Ok (set_control w (if decide (c > cwnd) then cwnd else c)).

(** The congestion window of one flush. *)
Definition flush_cwnd (cfg : Config) (w : t) : go Z :=
  cwnd ← GetSendingInFlightSize cfg;
  let room := remoteNextNumber w -32 firstUnacknowledged w in
  let cwnd := if decide (cwnd > room) then room else cwnd in
  let cwnd := if decide (cwnd > controlWindow w) then controlWindow w else cwnd in
  Ok (cwnd *32 CwndMultiplier cfg).

(** [Flush] up to the release of the lock: the worker, the segments written, and
    whether a ping has to follow. *)
Definition Flush (cfg : Config) (conv : Z) (st : State) (roundTrip : RoundTripInfo) (w : t)
    (current : Z) : go (t * list DataSegment * bool) :=
  if closed w then Ok (w, [], false)
  else
    cwnd ← flush_cwnd cfg w;
    if SendingWindow.IsEmpty (window w) then
      Ok (set_first w (firstUnacknowledged w) false, [], firstUnacknowledgedUpdated w)
    else
      let '(sw, out, loss) :=
        SendingWindow.Flush (Write conv st w) (window w) current (Timeout roundTrip) cwnd in
      let w := set_window w sw in
      w ← (match loss with Some rate => OnPacketLoss cfg roundTrip w rate | None => Ok w end);
      Ok (set_first w (firstUnacknowledged w) false, out, false).

Definition CloseWrite (w : t) : t := set_window w (SendingWindow.Clear (window w) 0xFFFFFFFF).
Definition IsEmpty (w : t) : bool := SendingWindow.IsEmpty (window w).
Definition UpdateNecessary (w : t) : bool := negb (IsEmpty w).
Definition FirstUnacknowledged (w : t) : Z := firstUnacknowledged w.

(** *** The invariant of the worker

    [msgs] is what was pushed so far, payload by payload. *)

(** What no operation but [Push] and [Release] changes. *)
Definition kept (w w' : t) : Prop :=
  closed w' = closed w ∧ windowSize w' = windowSize w ∧ nextNumber w' = nextNumber w.

Lemma kept_trans w1 w2 w3 : kept w1 w2 → kept w2 w3 → kept w1 w3.
Proof. unfold kept. intuition congruence. Qed.

Section sending.
Context (msgs : list (list byte)).

Record sinv (w : t) : Prop := {
  s_next : nextNumber w = len msgs;
  s_len : len msgs < 2147483648;
  s_first : 0 ≤ firstUnacknowledged w ≤ len msgs;
  s_sorted : SendingWindow.sorted (SendingWindow.cache (window w));
  s_win : Forall (valid_data msgs) (SendingWindow.cache (window w));
  s_low : Forall (λ s, firstUnacknowledged w ≤ ds_Number s) (SendingWindow.cache (window w))
}.

Abbreviation numbers w := (ds_Number <$> SendingWindow.cache (window w)).

(** Dropping segments keeps the invariant. *)
Lemma sinv_filter (P : DataSegment → Prop) `{!∀ s, Decision (P s)} w total :
  sinv w → sinv (set_window w (SendingWindow.mk (filter P (SendingWindow.cache (window w))) total)).
Proof.
  intros Hi. split; try apply Hi; cbn.
  - apply SendingWindow.sorted_filter, Hi.
  - eapply Forall_elem_sub; [|apply (s_win _ Hi)]. by intros x [_ ?]%list_elem_of_filter.
  - eapply Forall_elem_sub; [|apply (s_low _ Hi)]. by intros x [_ ?]%list_elem_of_filter.
Qed.

(** So does changing segments in what does not identify them. *)
Lemma sinv_same w sw :
  sinv w → Forall2 SendingWindow.same_msg (SendingWindow.cache (window w)) (SendingWindow.cache sw) →
  sinv (set_window w sw).
Proof.
  intros H Hs. split; try apply H; cbn.
  - eapply SendingWindow.same_sorted; [exact Hs|apply H].
  - eapply SendingWindow.same_valid; [exact Hs|apply H].
  - eapply SendingWindow.same_low; [exact Hs|apply H].
Qed.

Lemma window_len w : sinv w → len (SendingWindow.cache (window w)) ≤ len msgs.
Proof.
  intros H. pose proof (s_first _ H). rewrite <- (Z.sub_0_r (len msgs)).
  apply SendingWindow.sorted_len; [lia|apply H|].
  eapply list.Forall_impl; [apply (s_win _ H)|]. apply valid_number.
Qed.

Lemma FindFirst_sinv w :
  sinv w → ∃ first upd, FindFirstUnacknowledged w = Ok (set_first w first upd) ∧
    sinv (set_first w first upd) ∧
    first = match numbers w with n :: _ => n | [] => nextNumber w end.
Proof.
  intros H. pose proof (s_next _ H) as Hn. pose proof (len_nonneg msgs).
  unfold FindFirstUnacknowledged, SendingWindow.FirstNumber.
  destruct (SendingWindow.IsEmpty (window w)) eqn:E.
  - apply SendingWindow.IsEmpty_true in E. rewrite E. cbn [mbind go_bind fmap list_fmap].
    eexists _, _. split; [done|]. split; [|done].
    split; try apply H; cbn; [lia|]. rewrite E. apply Forall_nil_2.
  - destruct (SendingWindow.cache (window w)) as [|seg c] eqn:Ec.
    { by rewrite (proj2 (SendingWindow.IsEmpty_true _) Ec) in E. }
    cbn [mbind go_bind]. eexists _, _. split; [done|]. split; [|done].
    pose proof (s_win _ H) as Hw. pose proof (s_sorted _ H) as Hs. rewrite Ec in Hw, Hs.
    apply Forall_cons_1 in Hw as [Hv _]. apply valid_number in Hv.
    apply SendingWindow.sorted_cons in Hs as [_ Hs].
    split; try apply H; cbn; [lia|]. rewrite Ec. apply Forall_cons_2; [lia|].
    eapply list.Forall_impl; [exact Hs|]. cbn. lia.
Qed.

Lemma filter_fmap_numbers (P : Z → Prop) `{!∀ n, Decision (P n)}
    `{!∀ s : DataSegment, Decision (P (ds_Number s))} (c : list DataSegment) :
  ds_Number <$> filter (λ s, P (ds_Number s)) c = filter P (ds_Number <$> c).
Proof.
  induction c as [|s c IH]; [done|]. rewrite fmap_cons. destruct (decide (P (ds_Number s))).
  - rewrite !filter_cons_True by done. rewrite fmap_cons. by f_equal.
  - by rewrite !filter_cons_False.
Qed.

(** A cumulative acknowledgement retires exactly the numbers below it. *)
Lemma ProcessReceivingNext_sinv w una :
  sinv w → ∃ w', ProcessReceivingNext w una = Ok w' ∧ sinv w' ∧ kept w w' ∧
    numbers w' = filter (λ n, ¬ n < una) (numbers w).
Proof.
  intros H. unfold ProcessReceivingNext, ProcessReceivingNextWithoutLock, SendingWindow.Clear.
  rewrite SendingWindow.clear_front_filter by apply H.
  destruct (FindFirst_sinv _ (sinv_filter (λ s, ¬ ds_Number s < una) w
    (SendingWindow.totalInFlightSize (window w)) H)) as (first & upd & -> & H' & _).
  eexists. split; [done|]. split; [done|]. split; [done|].
  cbn [window set_first set_window SendingWindow.cache]. apply (filter_fmap_numbers (λ n, ¬ n < una)).
Qed.

(** A selective acknowledgement retires exactly its number. *)
Lemma processAck_sinv w n :
  sinv w → is_u32 n → ∃ w', processAck w n = Ok (w', bool_decide (n ∈ numbers w)) ∧ sinv w' ∧
    kept w w' ∧ numbers w' = filter (λ m, m ≠ n) (numbers w).
Proof.
  intros H Hn. pose proof (s_first _ H). pose proof (s_next _ H) as En. pose proof (s_len _ H).
  assert (Hrange : n ∈ numbers w → firstUnacknowledged w ≤ n < len msgs).
  { intros (s & -> & Hs)%list_elem_of_fmap. pose proof (s_low _ H) as Hl. pose proof (s_win _ H) as Hv.
    rewrite list.Forall_forall in Hl, Hv. specialize (Hl s Hs). apply Hv, valid_number in Hs. lia. }
  assert (Hnone : n ∉ numbers w → filter (λ m, m ≠ n) (numbers w) = numbers w).
  { intros Hin. apply SendingWindow.filter_all, list.Forall_forall. intros m Hm ->. done. }
  unfold processAck, half32. case_decide as Hd.
  - assert (n ∉ numbers w) as Hin.
    { intros Hin%Hrange. unfold is_u32 in Hn. rewrite En in Hd.
      rewrite u32_small in Hd by (unfold is_u32; lia).
      destruct (sub32_case n (len msgs)) as [[]|[? E]]; [done|unfold is_u32; lia|lia|]. rewrite E in Hd. lia. }
    rewrite bool_decide_eq_false_2 by done. exists w. split_and!; try done. by rewrite Hnone.
  - unfold SendingWindow.Remove. rewrite SendingWindow.remove_from_filter by apply H.
    destruct (decide (n ∈ numbers w)) as [Hin|Hin].
    + destruct (FindFirst_sinv _ (sinv_filter (λ s, ds_Number s ≠ n) w
        (if decide (SendingWindow.totalInFlightSize (window w) > 0)
         then SendingWindow.totalInFlightSize (window w) -32 1
         else SendingWindow.totalInFlightSize (window w)) H)) as (first & upd & E & H' & _).
      rewrite E. cbn [mbind go_bind]. rewrite bool_decide_eq_true_2 by done.
      eexists. split; [done|]. split; [done|]. split; [done|].
      cbn [window set_first set_window SendingWindow.cache]. apply (filter_fmap_numbers (λ m, m ≠ n)).
    + rewrite bool_decide_eq_false_2 by done. eexists. split; [done|]. destruct w as [[]]; cbn in *.
      split; [done|]. split; [done|]. by rewrite Hnone.
Qed.

Lemma filter_filter_list {A} (P Q R : A → Prop) `{!∀ x, Decision (P x)} `{!∀ x, Decision (Q x)}
    `{!∀ x, Decision (R x)} (l : list A) :
  (∀ x, R x ↔ P x ∧ Q x) → filter P (filter Q l) = filter R l.
Proof.
  intros HR. induction l as [|x l IH]; [done|]. destruct (decide (Q x)).
  - rewrite (filter_cons_True Q) by done. destruct (decide (P x)).
    + rewrite !filter_cons_True by naive_solver. by rewrite IH.
    + rewrite !filter_cons_False by naive_solver. done.
  - rewrite (filter_cons_False Q), (filter_cons_False R) by naive_solver. done.
Qed.

Lemma ack_loop_sinv ns : ∀ w maxack removed,
  sinv w → Forall is_u32 ns →
  ∃ w' m r, ack_loop w ns maxack removed = Ok (w', m, r) ∧ sinv w' ∧ kept w w' ∧
    numbers w' = filter (λ n, n ∉ ns) (numbers w).
Proof.
  induction ns as [|n ns IH]; intros w maxack removed H Hns.
  { eexists w, _, _. split; [done|]. split; [done|]. split; [done|].
    symmetry. apply SendingWindow.filter_all, list.Forall_forall. intros ? _. by apply not_elem_of_nil. }
  apply Forall_cons_1 in Hns as [Hn Hns]. cbn [ack_loop].
  destruct (processAck_sinv w n H Hn) as (w1 & -> & H1 & C1 & N1). cbn [mbind go_bind].
  assert (Hx : ∃ w' m r, (if decide (maxack < n) then ack_loop w1 ns n (bool_decide (n ∈ numbers w))
      else ack_loop w1 ns maxack removed) = Ok (w', m, r) ∧ sinv w' ∧ kept w1 w' ∧
      numbers w' = filter (λ n, n ∉ ns) (numbers w1)) by (case_decide; by apply IH).
  destruct Hx as (w' & m & r & E & H' & C & N). exists w', m, r.
  split; [done|]. split; [done|]. split; [by eapply kept_trans|]. rewrite N, N1.
  apply filter_filter_list. intros x. rewrite elem_of_cons. tauto.
Qed.

(** An acknowledgement retires exactly what it acknowledges. *)
Lemma ProcessSegment_sinv w rt current seg rto :
  sinv w → closed w = false → Forall is_u32 (as_NumberList seg) →
  ∃ w' rt', ProcessSegment w rt current seg rto = Ok (w', rt') ∧ sinv w' ∧ kept w w' ∧
    numbers w' = filter (λ n, ¬ n < as_ReceivingNext seg ∧ n ∉ as_NumberList seg) (numbers w).
Proof.
  intros H Hc Hns. unfold ProcessSegment. rewrite Hc.
  set (w0 := if decide (remoteNextNumber w < as_ReceivingWindow seg) then _ else w).
  assert (sinv w0 ∧ kept w w0 ∧ numbers w0 = numbers w) as (H0 & C0 & N0).
  { unfold w0. case_decide; [|done]. split; [|done]. by split; apply H. }
  clearbody w0.
  destruct (ProcessReceivingNext_sinv w0 (as_ReceivingNext seg) H0) as (w1 & E1 & H1 & C1 & N1).
  unfold ProcessReceivingNext in E1. rewrite E1. cbn [mbind go_bind]. rewrite N0 in N1.
  unfold AckSegment_IsEmpty. case_bool_decide as Hem.
  { apply len_0_nil in Hem. eexists w1, rt. split; [done|]. split; [done|]. split; [by eapply kept_trans|].
    rewrite N1, Hem. apply list_filter_iff. intros n. rewrite elem_of_nil. tauto. }
  destruct (ack_loop_sinv (as_NumberList seg) w1 0 false H1 Hns) as (w2 & m & r & -> & H2 & C2 & N2).
  cbn [mbind go_bind]. rewrite N1 in N2.
  rewrite (filter_filter_list _ _ (λ n, ¬ n < as_ReceivingNext seg ∧ n ∉ as_NumberList seg)) in N2
    by (intros; tauto).
  destruct r.
  - eexists _, _. split; [done|]. pose proof (SendingWindow.HandleFastAck_same (window w2) m rto) as Hs.
    split; [by apply sinv_same|]. split; [by do 2 (eapply kept_trans; [done|])|]. cbn [window set_window].
    by rewrite (SendingWindow.same_numbers _ _ Hs).
  - eexists _, _. split; [done|]. split; [done|]. split; [by do 2 (eapply kept_trans; [done|])|done].
Qed.

Lemma ProcessSegment_rto w rt current seg rto w' rt' :
  ProcessSegment w rt current seg rto = Ok (w', rt') → is_u32 (KcpCommon.rto rt) →
  is_u32 (KcpCommon.rto rt').
Proof.
  unfold ProcessSegment. destruct (closed w); [by intros [= _ <-]|].
  intros (w1 & _ & H)%go_bind_ok Hr. destruct (AckSegment_IsEmpty seg); [by injection H as _ <-|].
  apply go_bind_ok in H as ([[w2 m] r] & _ & H). destruct r; injection H as _ <-; [|done].
  case_decide; [by apply Update_rto_range|done].
Qed.

(** What goes out in a flush. *)
Definition true_data (conv : Z) (w : t) (seg : DataSegment) : Prop :=
  valid_data msgs seg ∧ ds_Conv seg = conv ∧ ds_SendingNext seg = firstUnacknowledged w.

Lemma sent_same conv st w current rto seg :
  is_u16 conv → is_u32 current → is_u32 (firstUnacknowledged w) →
  SendingWindow.same_msg seg (SendingWindow.sent (Write conv st w) current rto seg).
Proof.
  intros Hc Hcu Hf. unfold SendingWindow.same_msg, SendingWindow.sent, Write, wf_data. cbn.
  split; [done|]. split; [done|]. intros (_ & _ & _ & ? & _ & ?). split_and!; try done.
  unfold is_u8, SegmentOptionClose. case_decide; lia.
Qed.

Lemma OnPacketLoss_only cfg rt w rate :
  usable_config cfg → ∃ c, OnPacketLoss cfg rt w rate = Ok (set_control w c).
Proof.
  intros Hu. unfold OnPacketLoss. destruct (decide (Timeout rt = 0)).
  { exists (controlWindow w). by destruct w. }
  destruct (sending_in_flight cfg Hu) as (size & -> & _). cbn [mbind go_bind]. by eexists.
Qed.

Lemma Flush_sinv cfg conv st rt w current :
  usable_config cfg → is_u16 conv → is_u32 current → sinv w →
  ∃ w' out upd, Flush cfg conv st rt w current = Ok (w', out, upd) ∧ sinv w' ∧
    kept w w' ∧ numbers w' = numbers w ∧
    firstUnacknowledged w' = firstUnacknowledged w ∧ Forall (true_data conv w) out ∧
    (closed w = false → ∃ cwnd, flush_cwnd cfg w = Ok cwnd ∧
       ds_Number <$> out = ds_Number <$> take (Z.to_nat (Z.max 1 cwnd))
         (filter (SendingWindow.due current) (SendingWindow.cache (window w)))).
Proof.
  intros Hu Hc Hcu H. unfold Flush. destruct (closed w) eqn:Ec.
  { eexists w, [], _. split_and!; try done. }
  destruct (sending_in_flight cfg Hu) as (n & En & _).
  assert (∃ cwnd, flush_cwnd cfg w = Ok cwnd) as [cwnd Ecw]
    by (unfold flush_cwnd; rewrite En; by eexists).
  rewrite Ecw. cbn [mbind go_bind]. destruct (SendingWindow.IsEmpty (window w)) eqn:Ee.
  { apply SendingWindow.IsEmpty_true in Ee. eexists _, [], _. split; [done|].
    split; [by split; apply H|]. split_and!; try done. intros _. exists cwnd. by rewrite Ee, filter_nil, take_nil. }
  destruct (SendingWindow.Flush _ _ _ _ _) as [[sw out] loss] eqn:Ef.
  pose proof (s_first _ H). pose proof (s_len _ H).
  apply SendingWindow.Flush_spec in Ef as [Eo Hf2].
  2: { pose proof (window_len w H). lia. }
  assert (Hs2 : Forall2 SendingWindow.same_msg (SendingWindow.cache (window w)) (SendingWindow.cache sw)).
  { eapply list.Forall2_impl; [exact Hf2|]. intros a b [->|[_ ->]]; [done|].
    apply sent_same; [done|done|unfold is_u32; lia]. }
  pose proof (sinv_same w sw H Hs2) as H'.
  assert (∃ c, match loss with Some rate => OnPacketLoss cfg rt (set_window w sw) rate
          | None => Ok (set_window w sw) end = Ok (set_control (set_window w sw) c)) as [c ->].
  { destruct loss; [by apply OnPacketLoss_only|]. by exists (controlWindow w). }
  cbn [mbind go_bind]. eexists _, out, _. split; [done|]. cbn.
  split; [by split; apply H'|]. rewrite (SendingWindow.same_numbers _ _ Hs2).
  split_and!; try done.
  - rewrite Eo. apply Forall_fmap, list.Forall_forall. intros s Hs.
    assert (s ∈ SendingWindow.cache (window w)) as Hin.
    { apply elem_of_take in Hs as (i & Hi & _). apply list_elem_of_lookup_2 in Hi.
      by apply list_elem_of_filter in Hi as [_ ?]. }
    pose proof (s_win _ H) as Hv. rewrite list.Forall_forall in Hv. specialize (Hv s Hin).
    split; [|done]. assert (Forall (valid_data msgs) [SendingWindow.sent (Write conv st w) current (Timeout rt) s])
      as [? _]%Forall_cons_1; [|done].
    eapply SendingWindow.same_valid; [|apply Forall_singleton; exact Hv].
    constructor; [|constructor]. apply sent_same; [done|done|unfold is_u32; lia].
  - intros _. exists cwnd. split; [done|]. rewrite Eo, <- list_fmap_compose. done.
Qed.

End sending.

Lemma CloseWrite_sinv msgs w : sinv msgs w → sinv msgs (CloseWrite w).
Proof.
  intros H. unfold CloseWrite, SendingWindow.Clear.
  rewrite SendingWindow.clear_front_filter by apply H. by apply sinv_filter.
Qed.

Lemma Release_sinv msgs w : sinv msgs w → sinv msgs (Release w).
Proof.
  intros H. split; try apply H; cbn; [constructor|apply Forall_nil_2|apply Forall_nil_2].
Qed.

(** A pushed payload gets the next number and joins the end of the window. *)
Lemma Push_sinv msgs w b w' :
  sinv msgs w → Buffer.wf b → len (Buffer.content b) ≤ Buffer.Size → len msgs + 1 < 2147483648 →
  Push w b = (w', true) →
  sinv (msgs ++ [Buffer.content b]) w' ∧ closed w = false ∧ closed w' = false ∧
  (ds_Number <$> SendingWindow.cache (window w'))
  = (ds_Number <$> SendingWindow.cache (window w)) ++ [len msgs] ∧
  SendingWindow.Len (window w) ≤ windowSize w.
Proof.
  intros H Hb Hl Hm. unfold Push. destruct (closed w) eqn:Ec; [done|].
  case_decide as Hlen; [done|]. intros [= <-]. pose proof (s_next _ _ H) as En.
  pose proof (s_first _ _ H). pose proof (len_nonneg msgs). cbn [window SendingWindow.Push SendingWindow.cache].
  rewrite fmap_app, En. split; [|split_and!; try done; lia].
  pose proof (len_snoc msgs (Buffer.content b)) as Hlen'.
  split; cbn; rewrite ?Hlen'; try lia.
  - apply u32_small. unfold is_u32. lia.
  - apply SendingWindow.sorted_snoc; [apply H|]. cbn.
    eapply list.Forall_impl; [apply (s_win _ _ H)|]. intros s ?%valid_number. cbn. lia.
  - apply Forall_app. split.
    + eapply list.Forall_impl; [apply (s_win _ _ H)|]. intros s. apply valid_mono.
    + apply Forall_singleton. split.
      * unfold wf_data, is_u16, is_u8, is_u32. cbn. split_and!; try lia. by eexists.
      * cbn. rewrite to_nat_len. unfold payload_bytes. cbn. by rewrite list_lookup_middle.
  - apply Forall_app. split; [apply H|]. apply Forall_singleton. cbn. lia.
Qed.

Lemma new_worker_sinv cfg :
  usable_config cfg → ∃ w, NewSendingWorker cfg = Ok w ∧ sinv [] w ∧ closed w = false ∧
    SendingWindow.cache (window w) = [] ∧ windowSize w = MaxSendingWindow cfg / Mtu cfg.
Proof.
  intros Hu. unfold NewSendingWorker. destruct (sending_in_flight cfg Hu) as (n & -> & Hn).
  cbn [mbind go_bind]. unfold GetSendingBufferSize, udiv. destruct Hu as (? & ? & ? & Hz).
  rewrite decide_False by lia. cbn [mbind go_bind]. eexists. split; [done|]. split; [|done].
  split; cbn; try done; try lia. constructor.
Qed.

(** *** Runs of the worker *)

Inductive Op :=
| OPush (b : Buffer.t)
| OAck (rt : RoundTripInfo) (current : Z) (seg : AckSegment) (rto : Z)
| OReceivingNext (n : Z)
| OFlush (st : State) (rt : RoundTripInfo) (current : Z)
| OCloseWrite
| ORelease.

(** One operation: the worker afterwards and the payloads it accepted. *)
Definition run (cfg : Config) (conv : Z) (w : t) (o : Op) : go (t * list (list byte)) :=
  match o with
  | OPush b => let '(w, ok) := Push w b in Ok (w, if (ok : bool) then [Buffer.content b] else [])
  | OAck rt current seg rto => '(w, _) ← ProcessSegment w rt current seg rto; Ok (w, [])
  | OReceivingNext n => w ← ProcessReceivingNext w n; Ok (w, [])
  | OFlush st rt current => '(w, _, _) ← Flush cfg conv st rt w current; Ok (w, [])
  | OCloseWrite => Ok (CloseWrite w, [])
  | ORelease => Ok (Release w, [])
  end.

Fixpoint run_all (cfg : Config) (conv : Z) (w : t) (os : list Op) : go (t * list (list byte)) :=
  match os with
  | [] => Ok (w, [])
  | o :: os => '(w, a) ← run cfg conv w o; '(w, b) ← run_all cfg conv w os; Ok (w, a ++ b)
  end.

Definition op_ok (o : Op) : Prop :=
  match o with
  | OPush b => Buffer.wf b ∧ len (Buffer.content b) ≤ Buffer.Size
  | OAck _ _ seg _ => Forall is_u32 (as_NumberList seg)
  | OFlush _ _ current => is_u32 current
  | _ => True
  end.

Definition bounded (w : t) : Prop :=
  0 ≤ windowSize w ∧ len (SendingWindow.cache (window w)) ≤ windowSize w + 1.

Abbreviation wnumbers w := (ds_Number <$> SendingWindow.cache (window w)).

Lemma bounded_kept w w' P `{!∀ n : Z, Decision (P n)} :
  kept w w' → wnumbers w' = filter P (wnumbers w) → bounded w → bounded w'.
Proof.
  intros (_ & Hs & _) N [? ?]. unfold bounded. rewrite Hs. split; [done|].
  assert (len (wnumbers w') ≤ len (wnumbers w)) as Hl
    by (rewrite N; unfold len; pose proof (length_filter P (wnumbers w)); lia).
  unfold len in *. rewrite !length_fmap in Hl. lia.
Qed.

Lemma Push_bounded msgs w b w' ok :
  sinv msgs w → bounded w → Push w b = (w', ok) → bounded w' ∧ (ok = false → w' = w).
Proof.
  intros H Hb. unfold Push. destruct (closed w); [by intros [= <- <-]|].
  case_decide as Hd; intros [= <- <-]; [done|]. split; [|done]. destruct Hb as [? ?].
  pose proof (window_len msgs w H). pose proof (s_len _ _ H). unfold bounded. cbn.
  pose proof (len_nonneg (SendingWindow.cache (window w))).
  unfold SendingWindow.Len in Hd. rewrite u32_small in Hd by (unfold is_u32; lia).
  rewrite len_snoc. lia.
Qed.

Lemma run_sinv cfg conv msgs w o :
  usable_config cfg → is_u16 conv → op_ok o → len msgs + 1 < 2147483648 → sinv msgs w → bounded w →
  ∃ w' a, run cfg conv w o = Ok (w', a) ∧ sinv (msgs ++ a) w' ∧ bounded w' ∧ len a ≤ 1.
Proof.
  intros Hu Hc Ho Hm H Hb. destruct o as [b|rt current seg rto|n|st rt current| |]; cbn [run op_ok] in *.
  - destruct Ho as [Hw Hl]. destruct (Push w b) as [w' ok] eqn:E.
    destruct (Push_bounded msgs w b w' ok H Hb E) as [Hb' Hno]. destruct ok.
    + destruct (Push_sinv msgs w b w' H Hw Hl Hm E) as (H' & _). by eexists w', _.
    + rewrite Hno by done. exists w, []. by rewrite app_nil_r.
  - destruct (closed w) eqn:Ec.
    { unfold ProcessSegment. rewrite Ec. exists w, []. by rewrite app_nil_r. }
    destruct (ProcessSegment_sinv msgs w rt current seg rto H Ec Ho) as (w' & rt' & -> & H' & K & N).
    exists w', []. rewrite app_nil_r. split; [done|]. split; [done|]. split; [|done].
    by eapply bounded_kept.
  - destruct (ProcessReceivingNext_sinv msgs w n H) as (w' & -> & H' & K & N).
    exists w', []. rewrite app_nil_r. split; [done|]. split; [done|]. split; [|done].
    by eapply bounded_kept.
  - destruct (Flush_sinv msgs cfg conv st rt w current Hu Hc Ho H)
      as (w' & out & upd & -> & H' & K & N & _).
    exists w', []. rewrite app_nil_r. split; [done|]. split; [done|]. split; [|done].
    eapply (bounded_kept w w' (λ _, True)); [done|rewrite N; symmetry|done].
    by apply SendingWindow.filter_all, list.Forall_forall.
  - eexists _, []. rewrite app_nil_r. split; [done|]. split; [by apply CloseWrite_sinv|]. split; [|done].
    eapply (bounded_kept w _ (λ n, ¬ n < 0xFFFFFFFF)); [done| |done]. unfold CloseWrite, SendingWindow.Clear.
    rewrite SendingWindow.clear_front_filter by apply H. apply (filter_fmap_numbers (λ n, ¬ n < 0xFFFFFFFF)).
  - eexists _, []. rewrite app_nil_r. split; [done|]. split; [by apply Release_sinv|]. split; [|done].
    destruct Hb as [? ?]. split; [done|]. unfold len. cbn. lia.
Qed.

Lemma run_all_sinv cfg conv os : ∀ msgs w,
  usable_config cfg → is_u16 conv → Forall op_ok os → len msgs + len os < 2147483648 →
  sinv msgs w → bounded w →
  ∃ w' a, run_all cfg conv w os = Ok (w', a) ∧ sinv (msgs ++ a) w' ∧ bounded w'.
Proof.
  induction os as [|o os IH]; intros msgs w Hu Hc Ho Hm H Hb.
  { exists w, []. by rewrite app_nil_r. }
  apply Forall_cons_1 in Ho as [Ho Hos]. rewrite len_cons in Hm. pose proof (len_nonneg os).
  cbn [run_all]. destruct (run_sinv cfg conv msgs w o) as (w1 & a & -> & H1 & B1 & L1); try done; [lia|].
  destruct (IH (msgs ++ a) w1) as (w2 & b & E2 & H2 & B2); try done; [rewrite len_app; lia|].
  cbn [mbind go_bind]. rewrite E2. exists w2, (a ++ b). by rewrite app_assoc.
Qed.

(** The sending window under any run. Whatever mix of pushes, acknowledgements,
    flushes and closings a worker sees, nothing panics, the unacknowledged segments stay
    in strictly increasing number order with each number standing for the payload pushed
    under it, the next number counts the accepted payloads, and the window never holds
    more than one segment above its configured size. *)
Lemma sending_window_runs cfg conv os :
  wf_config cfg → usable_config cfg → is_u16 conv → Forall op_ok os → len os < 2147483648 →
  ∃ w w' msgs, NewSendingWorker cfg = Ok w ∧ run_all cfg conv w os = Ok (w', msgs) ∧
    nextNumber w' = len msgs ∧ SendingWindow.sorted (SendingWindow.cache (window w')) ∧
    Forall (valid_data msgs) (SendingWindow.cache (window w')) ∧
    len (SendingWindow.cache (window w')) ≤ windowSize w' + 1.
Proof.
  intros Hwf Hu Hc Ho Hm. destruct (new_worker_sinv cfg Hu) as (w & E & H & _ & Hempty & Hsz).
  destruct (run_all_sinv cfg conv os [] w) as (w' & msgs & Er & H' & [_ B]); try done.
  { split; rewrite Hsz; [|rewrite Hempty, len_nil]; destruct Hwf as (Hm1 & _ & _ & _ & _ & Hm2);
      unfold is_u32 in *; destruct Hu as (? & _); assert (0 ≤ MaxSendingWindow cfg / Mtu cfg)
      by (apply Z.div_pos; lia); lia. }
  exists w, w', msgs. split_and!; try done; apply H'.
Qed.

(** An acknowledgement retires exactly the segments it acknowledges: those below its
    cumulative number and those it lists, wherever they are in the window, and no other;
    the rest keep their order, numbers and payloads. *)
Lemma sending_ack_exact msgs w rt current seg rto :
  sinv msgs w → closed w = false → Forall is_u32 (as_NumberList seg) →
  ∃ w' rt', ProcessSegment w rt current seg rto = Ok (w', rt') ∧ sinv msgs w' ∧
    ds_Number <$> SendingWindow.cache (window w')
    = filter (λ n, ¬ n < as_ReceivingNext seg ∧ n ∉ as_NumberList seg)
        (ds_Number <$> SendingWindow.cache (window w)).
Proof.
  intros H Hc Hn. destruct (ProcessSegment_sinv msgs w rt current seg rto H Hc Hn)
    as (w' & rt' & ? & ? & _ & ?). by exists w', rt'.
Qed.

(** A flush sends the segments that are due, oldest first, up to the congestion
    window and at least one when any is due; what goes out carries the payload of its
    number, the conversation, and the oldest unacknowledged number; the window keeps
    every segment. *)
Lemma sending_flush_due msgs cfg conv st rt w current :
  usable_config cfg → is_u16 conv → is_u32 current → sinv msgs w → closed w = false →
  ∃ w' out upd cwnd, Flush cfg conv st rt w current = Ok (w', out, upd) ∧
    flush_cwnd cfg w = Ok cwnd ∧
    ds_Number <$> out = ds_Number <$> take (Z.to_nat (Z.max 1 cwnd))
      (filter (SendingWindow.due current) (SendingWindow.cache (window w))) ∧
    Forall (true_data msgs conv w) out ∧
    ds_Number <$> SendingWindow.cache (window w') = ds_Number <$> SendingWindow.cache (window w).
Proof.
  intros Hu Hc Hcu H Hcl. destruct (Flush_sinv msgs cfg conv st rt w current Hu Hc Hcu H)
    as (w' & out & upd & E & _ & _ & N & _ & Ht & Ho).
  destruct (Ho Hcl) as (cwnd & Ec & En). by exists w', out, upd, cwnd.
Qed.

(** The congestion window does not overflow: after a loss report it is the window scaled by 3/4
    from 15 percent loss, by 5/4 up to 5 percent, floored at 16 and then capped at the configured
    in-flight size, which may be below 16. *)
Lemma control_window_aimd cfg rt w rate cwnd :
  usable_config cfg → GetSendingInFlightSize cfg = Ok cwnd → Timeout rt ≠ 0 →
  0 ≤ controlWindow w ≤ cwnd →
  ∃ c, OnPacketLoss cfg rt w rate = Ok (set_control w c) ∧ Z.min 16 cwnd ≤ c ≤ cwnd ∧
    c = Z.min cwnd (Z.max 16
          (if decide (15 ≤ rate) then 3 * controlWindow w / 4
           else if decide (rate ≤ 5) then controlWindow w + controlWindow w / 4
           else controlWindow w)).
Proof.
  intros Hu E Hr Hc. destruct (sending_in_flight cfg Hu) as (n & En & Hn).
  rewrite E in En. injection En as <-. unfold OnPacketLoss. rewrite decide_False by done. rewrite E.
  cbn [mbind go_bind]. eexists. split; [done|]. rewrite (u32_small (3 * _)) by (unfold is_u32; lia).
  assert (0 ≤ controlWindow w / 4 ≤ controlWindow w) by dlia.
  rewrite (Z.min_comm cwnd).
  assert (Heq : (if decide (rate ≤ 5)
    then u32 ((if decide (15 ≤ rate) then 3 * controlWindow w / 4 else controlWindow w) +
              (if decide (15 ≤ rate) then 3 * controlWindow w / 4 else controlWindow w) / 4)
    else if decide (15 ≤ rate) then 3 * controlWindow w / 4 else controlWindow w)
    = (if decide (15 ≤ rate) then 3 * controlWindow w / 4
       else if decide (rate ≤ 5) then controlWindow w + controlWindow w / 4 else controlWindow w)).
  { destruct (decide (15 ≤ rate)), (decide (rate ≤ 5)); try lia.
    rewrite u32_small; [done|unfold is_u32; lia]. }
  rewrite Heq. clear Heq. set (x := if decide (15 ≤ rate) then _ else _). clearbody x.
  destruct (decide (x < 16)); case_decide; lia.
Qed.

End SendingWorker.

(** ** Witnesses *)

Definition sample_payload (bs : list byte) : Buffer.t := Buffer.FromBytes bs.

Definition sample_ops : list SendingWorker.Op :=
  [SendingWorker.OPush (sample_payload [x61]); SendingWorker.OPush (sample_payload [x62]);
   SendingWorker.OFlush StateActive (mkRTT 0 0 100 50 0) 10;
   SendingWorker.OAck (mkRTT 0 0 100 50 0) 20 (mkAck 7 0 40 0 10 [1] 128) 100].

Lemma sample_ops_ok : Forall SendingWorker.op_ok sample_ops.
Proof.
  assert (∀ c, Buffer.wf (sample_payload [c]) ∧ len (Buffer.content (sample_payload [c])) ≤ Buffer.Size).
  { intros c. destruct (Buffer.wf_FromBytes [c]) as [? Hc]; [done|]. split; [done|].
    unfold sample_payload. by rewrite Hc. }
  solve_Forall ltac:(cbn; first [apply H | unfold is_u32; lia | apply Forall_singleton; unfold is_u32; lia]).
Qed.

Lemma default_usable : usable_config default_config.
Proof. vm_compute. intuition discriminate. Qed.

Lemma default_wf : wf_config default_config.
Proof. unfold wf_config, is_u32. cbn. lia. Qed.

Lemma sending_window_runs_witness :
  ∃ w w' msgs, SendingWorker.NewSendingWorker default_config = Ok w ∧
    SendingWorker.run_all default_config 7 w sample_ops = Ok (w', msgs) ∧
    SendingWorker.nextNumber w' = len msgs.
Proof.
  destruct (SendingWorker.sending_window_runs default_config 7 sample_ops)
    as (w & w' & msgs & E & Er & En & _).
  - apply default_wf.
  - apply default_usable.
  - unfold is_u16. lia.
  - apply sample_ops_ok.
  - vm_compute. reflexivity.
  - exists w, w', msgs. split_and!; [exact E|exact Er|exact En].
Defined.

Definition sample_window (n : nat) : SendingWindow.t :=
  SendingWindow.mk ((λ i, mkData 0 0 0 (Z.of_nat i) 0 (Some (sample_payload [x61])) 0 0) <$> seq 0 n) 0.

Definition sample_sender : SendingWorker.t :=
  SendingWorker.mk (sample_window 3) 0 3 32 77 2 1553 false false.

Lemma sample_sender_sinv : SendingWorker.sinv [[x61]; [x61]; [x61]] sample_sender.
Proof.
  split.
  - reflexivity.
  - reflexivity.
  - split; vm_compute; discriminate.
  - cbn. unfold SendingWindow.sorted. cbn. repeat constructor.
  - cbn. destruct (Buffer.wf_FromBytes [x61]) as [? Hc]; [done|].
    assert (∀ n, 0 ≤ n < 3 → valid_data [[x61]; [x61]; [x61]]
      (mkData 0 0 0 n 0 (Some (sample_payload [x61])) 0 0)) as Hv.
    { intros n Hn. split.
      - unfold wf_data, is_u16, is_u8, is_u32. cbn. split_and!; try lia. eexists. split; [done|].
        split; [done|]. unfold sample_payload. by rewrite Hc.
      - cbn. unfold payload_bytes. cbn. unfold sample_payload. rewrite Hc.
        destruct (decide (n = 0)) as [->|]; [done|]. destruct (decide (n = 1)) as [->|]; [done|].
        assert (n = 2) as -> by lia. done. }
    solve_Forall ltac:(apply Hv; lia).
  - cbn. solve_Forall ltac:(cbn; lia).
Qed.

Lemma sending_ack_exact_witness :
  ∃ w' rt', SendingWorker.ProcessSegment sample_sender (mkRTT 0 0 100 50 0) 20
              (mkAck 7 0 40 1 10 [2] 128) 100 = Ok (w', rt') ∧
    ds_Number <$> SendingWindow.cache (SendingWorker.window w') = [1].
Proof.
  destruct (SendingWorker.sending_ack_exact _ sample_sender (mkRTT 0 0 100 50 0) 20
    (mkAck 7 0 40 1 10 [2] 128) 100 sample_sender_sinv) as (w' & rt' & E & _ & N).
  - reflexivity.
  - apply Forall_singleton. unfold is_u32. lia.
  - exists w', rt'. split; [exact E|]. rewrite N. reflexivity.
Defined.

Lemma sending_flush_due_witness :
  ∃ w' out upd, SendingWorker.Flush default_config 7 StateActive (mkRTT 0 0 100 50 0) sample_sender 10
                = Ok (w', out, upd) ∧ ds_Number <$> out = [0; 1; 2].
Proof.
  destruct (SendingWorker.sending_flush_due [[x61]; [x61]; [x61]] default_config 7 StateActive (mkRTT 0 0 100 50 0)
    sample_sender 10 default_usable) as (w' & out & upd & cwnd & E & Ec & En & _).
  - unfold is_u16. lia.
  - unfold is_u32. lia.
  - apply sample_sender_sinv.
  - reflexivity.
  - exists w', out, upd. split; [exact E|]. rewrite En. vm_compute in Ec. injection Ec as <-.
    vm_compute. reflexivity.
Defined.

Lemma control_window_aimd_witness :
  ∃ c, SendingWorker.OnPacketLoss default_config (mkRTT 0 0 100 50 0) sample_sender 20
       = Ok (SendingWorker.set_control sample_sender c) ∧ c = 57.
Proof.
  destruct (SendingWorker.control_window_aimd default_config (mkRTT 0 0 100 50 0) sample_sender 20 194)
    as (c & E & _ & Hc).
  - apply default_usable.
  - vm_compute. reflexivity.
  - discriminate.
  - cbn. lia.
  - exists c. split; [exact E|]. rewrite Hc. vm_compute. reflexivity.
Defined.
