(* ===== verification/KcpConn.v ===== *)
(** * The mKCP connection

    Models [transport/internet/kcp/connection.go]: the connection with its state
    machine, its input and flush handlers and the calls of the application. [current] is what
    [Elapsed] gives at the start of a handler; [SetState] reads the clock again, and [now st]
    is what it reads when it enters the state [st] (a handler enters a state at most once).
    What a handler does to the outside (segments written, goroutines woken or started, channels
    signalled) is appended to the connection's list of events, in order; that the segments can
    be written is part of the theorems. At the end the loads and stores of the state are taken
    apart, because the goroutines of a connection take no lock around them. The goroutines
    that call the handlers (tickers, waits) are not modelled: any handler may run at any
    time. *)

From S2P Require Import Prelude Net Buf KcpSegment KcpCommon KcpReceiving KcpSending.

Inductive Event :=
| EvOut (seg : Segment)       (* output.Write *)
| EvDataInput                 (* dataInput.Signal *)
| EvDataOutput                (* dataOutput.Signal *)
| EvWakeData                  (* dataUpdater.WakeUp *)
| EvWakePing                  (* pingUpdater.WakeUp *)
| EvPingInterval (ms : Z)     (* pingUpdater.SetInterval *)
| EvTerminate                 (* go Terminate *)
| EvCloser.                   (* closer.Close *)

Record Connection := mkConn {
  c_conv : Z;
  c_config : Config;
  c_mss : Z;
  c_state : State;
  c_stateBeginTime : Z;
  c_lastIncomingTime : Z;
  c_lastPingTime : Z;
  c_roundTrip : RoundTripInfo;
  c_receiving : ReceivingWorker.t;
  c_sending : SendingWorker.t;
  c_events : list Event
}.

Definition set_state (c : Connection) (st : State) (current : Z) : Connection :=
  mkConn (c_conv c) (c_config c) (c_mss c) st current (c_lastIncomingTime c) (c_lastPingTime c)
    (c_roundTrip c) (c_receiving c) (c_sending c) (c_events c).
Definition set_incoming (c : Connection) (current : Z) : Connection :=
  mkConn (c_conv c) (c_config c) (c_mss c) (c_state c) (c_stateBeginTime c) current (c_lastPingTime c)
    (c_roundTrip c) (c_receiving c) (c_sending c) (c_events c).
Definition set_ping (c : Connection) (current : Z) : Connection :=
  mkConn (c_conv c) (c_config c) (c_mss c) (c_state c) (c_stateBeginTime c) (c_lastIncomingTime c) current
    (c_roundTrip c) (c_receiving c) (c_sending c) (c_events c).
Definition set_roundTrip (c : Connection) (rt : RoundTripInfo) : Connection :=
  mkConn (c_conv c) (c_config c) (c_mss c) (c_state c) (c_stateBeginTime c) (c_lastIncomingTime c)
    (c_lastPingTime c) rt (c_receiving c) (c_sending c) (c_events c).
Definition set_receiving (c : Connection) (w : ReceivingWorker.t) : Connection :=
  mkConn (c_conv c) (c_config c) (c_mss c) (c_state c) (c_stateBeginTime c) (c_lastIncomingTime c)
    (c_lastPingTime c) (c_roundTrip c) w (c_sending c) (c_events c).
Definition set_sending (c : Connection) (w : SendingWorker.t) : Connection :=
  mkConn (c_conv c) (c_config c) (c_mss c) (c_state c) (c_stateBeginTime c) (c_lastIncomingTime c)
    (c_lastPingTime c) (c_roundTrip c) (c_receiving c) w (c_events c).
Definition emit (c : Connection) (evs : list Event) : Connection :=
  mkConn (c_conv c) (c_config c) (c_mss c) (c_state c) (c_stateBeginTime c) (c_lastIncomingTime c)
    (c_lastPingTime c) (c_roundTrip c) (c_receiving c) (c_sending c) (c_events c ++ evs).

Definition NewConnection (conv : Z) (config : Config) : go Connection :=
  let mss := Mtu config -32 DataSegmentOverhead in
  rw ← ReceivingWorker.NewReceivingWorker config mss;
  sw ← SendingWorker.NewSendingWorker config;
  Ok (mkConn conv config mss StateActive 0 0 0 (mkRTT 0 0 100 (Tti config) 0) rw sw [EvWakePing]).

(** ** States *)

Definition SetState (c : Connection) (now : State → Z) (st : State) : Connection :=
  let c := set_state c st (now st) in
  match st with
  | StateActive | StateReadyToClose => c
  | StatePeerClosed => set_sending c (SendingWorker.CloseWrite (c_sending c))
  | StateTerminating | StatePeerTerminating =>
      emit (set_sending c (SendingWorker.CloseWrite (c_sending c))) [EvPingInterval 1000]
  | StateTerminated =>
      emit (set_sending c (SendingWorker.CloseWrite (c_sending c)))
        [EvPingInterval 1000; EvWakeData; EvWakePing; EvTerminate]
  end.

(** [Close]: [false] is [ErrClosedConnection]. *)
Definition Close (c : Connection) (now : State → Z) : Connection * bool :=
  let c := emit c [EvDataInput; EvDataOutput] in
  match c_state c with
  | StateReadyToClose | StateTerminating | StateTerminated => (c, false)
  | StateActive => (SetState c now StateReadyToClose, true)
  | StatePeerClosed => (SetState c now StateTerminating, true)
  | StatePeerTerminating => (SetState c now StateTerminated, true)
  end.

Definition Terminate (c : Connection) : Connection :=
  let c := emit c [EvDataInput; EvDataOutput; EvCloser] in
  let c := set_sending c (SendingWorker.Release (c_sending c)) in
  set_receiving c (ReceivingWorker.Release (c_receiving c)).

Definition OnPeerClosed (c : Connection) (now : State → Z) : Connection :=
  match c_state c with
  | StateReadyToClose => SetState c now StateTerminating
  | StateActive => SetState c now StatePeerClosed
  | _ => c
  end.

Definition HandleOption (c : Connection) (now : State → Z) (opt : Z) : Connection :=
  if decide (Z.land opt SegmentOptionClose = SegmentOptionClose) then OnPeerClosed c now else c.

(** The command of a [CmdOnlySegment], on the state. *)
Definition OnTerminate (c : Connection) (now : State → Z) : Connection :=
  match c_state c with
  | StateActive | StatePeerClosed => SetState c now StatePeerTerminating
  | StateReadyToClose => SetState c now StateTerminating
  | StateTerminating => SetState c now StateTerminated
  | _ => c
  end.

(** ** Input *)

Definition input_segment (c : Connection) (current : Z) (now : State → Z) (seg : Segment) : go Connection :=
  match seg with
  | SegData seg =>
      let c := HandleOption c now (ds_Option seg) in
      rw ← ReceivingWorker.ProcessSegment (c_receiving c) seg;
      let c := set_receiving c rw in
      let c := if ReceivingWorker.IsDataAvailable (c_receiving c) then emit c [EvDataInput] else c in
      Ok (emit c [EvWakeData])
  | SegAck seg =>
      let c := HandleOption c now (as_Option seg) in
      '(sw, rt) ← SendingWorker.ProcessSegment (c_sending c) (c_roundTrip c) current seg
                    (Timeout (c_roundTrip c));
      Ok (emit (set_roundTrip (set_sending c sw) rt) [EvDataOutput; EvWakeData])
  | SegCmd seg =>
      let c := HandleOption c now (cs_Option seg) in
      let c := if decide (cs_Cmd seg = CommandTerminate) then OnTerminate c now else c in
      let c := if decide (cs_Option seg = SegmentOptionClose ∨ cs_Cmd seg = CommandTerminate)
               then emit c [EvDataInput; EvDataOutput] else c in
      sw ← SendingWorker.ProcessReceivingNext (c_sending c) (cs_ReceivingNext seg);
      let c := set_sending c sw in
      rw ← ReceivingWorker.ProcessSendingNext (c_receiving c) (cs_SendingNext seg);
      let c := set_receiving c rw in
      Ok (set_roundTrip c (UpdatePeerRTO (c_roundTrip c) (cs_PeerRTO seg) current))
  end.

Fixpoint input_loop (c : Connection) (current : Z) (now : State → Z) (segments : list Segment) : go Connection :=
  match segments with
  | [] => Ok c
  | seg :: segments =>
      if decide (Conversation seg ≠ c_conv c) then Ok c
      else c ← input_segment c current now seg; input_loop c current now segments
  end.

Definition Input (c : Connection) (current : Z) (now : State → Z) (segments : list Segment) : go Connection :=
  input_loop (set_incoming c current) current now segments.

(** ** Flush *)

Definition Ping (c : Connection) (current cmd : Z) : Connection :=
  let seg := mkCmd (c_conv c) cmd
               (if decide (c_state c = StateReadyToClose) then SegmentOptionClose else 0)
               (SendingWorker.FirstUnacknowledged (c_sending c))
               (ReceivingWorker.nextNumber (c_receiving c)) (Timeout (c_roundTrip c)) in
  set_ping (emit c [EvOut (SegCmd seg)]) current.

Definition flush_receiving (c : Connection) (current : Z) : Connection :=
  let '(rw, out) := ReceivingWorker.Flush (c_conv c) (c_state c) (Timeout (c_roundTrip c))
                      (c_receiving c) current in
  emit (set_receiving c rw) (EvOut ∘ SegAck <$> out).

(** [SendingWorker.Flush] with the ping that follows the release of its lock. *)
Definition flush_sending (c : Connection) (current : Z) : go Connection :=
  '(sw, out, updated) ← SendingWorker.Flush (c_config c) (c_conv c) (c_state c) (c_roundTrip c)
                          (c_sending c) current;
  let c := emit (set_sending c sw) (EvOut ∘ SegData <$> out) in
  Ok (if (updated : bool) then Ping c current CommandPing else c).

(** The state changes [flush] makes before it looks for [StateTerminating]. *)
Definition flush_idle (c : Connection) (current : Z) (now : State → Z) : Connection :=
  let c := if decide (c_state c = StateActive ∧ 30000 ≤ current -32 c_lastIncomingTime c)
           then (Close c now).1 else c in
  if decide (c_state c = StateReadyToClose ∧ SendingWorker.IsEmpty (c_sending c) = true)
  then SetState c now StateTerminating else c.

Definition flush_late (c : Connection) (current : Z) (now : State → Z) : Connection :=
  let c := if decide (c_state c = StatePeerTerminating ∧ current -32 c_stateBeginTime c > 4000)
           then SetState c now StateTerminating else c in
  if decide (c_state c = StateReadyToClose ∧ current -32 c_stateBeginTime c > 15000)
  then SetState c now StateTerminating else c.

Definition flush (c : Connection) (current : Z) (now : State → Z) : go Connection :=
  if decide (c_state c = StateTerminated) then Ok c
  else
    let c := flush_idle c current now in
    if decide (c_state c = StateTerminating) then
      let c := Ping c current CommandTerminate in
      Ok (if decide (current -32 c_stateBeginTime c > 8000)
          then SetState c now StateTerminated else c)
    else
      let c := flush_late c current now in
      let c := flush_receiving c current in
      c ← flush_sending c current;
      Ok (if decide (3000 ≤ current -32 c_lastPingTime c) then Ping c current CommandPing else c).

(** ** Calls of the application *)

(** One turn of the loop of [ReadMultiBuffer]: end of file, data, or a wait. *)
Inductive ReadResult (A : Type) := ReadEOF | ReadData (a : A) | ReadWait.
Arguments ReadEOF {_}.
Arguments ReadData {_} _.
Arguments ReadWait {_}.

Definition Conn_ReadMultiBuffer (c : Connection) : Connection * ReadResult MultiBuffer.mbuf :=
  if Is (c_state c) [StateReadyToClose; StateTerminating; StateTerminated] then (c, ReadEOF)
  else
    let '(rw, mb) := ReceivingWorker.ReadMultiBuffer (c_receiving c) in
    let c := set_receiving c rw in
    if negb (MultiBuffer.IsEmpty mb) then (emit c [EvWakeData], ReadData mb)
    else if decide (c_state c = StatePeerTerminating) then (c, ReadEOF)
    else (c, ReadWait).

(** One turn of the loop of [Read] into a slice of [n] bytes. *)
Definition Conn_Read (c : Connection) (n : Z) : go (Connection * ReadResult (list byte)) :=
  if Is (c_state c) [StateReadyToClose; StateTerminating; StateTerminated] then Ok (c, ReadEOF)
  else
    '(rw, got) ← ReceivingWorker.Read (c_receiving c) n;
    let c := set_receiving c rw in
    if decide (len got > 0) then Ok (emit c [EvWakeData], ReadData got) else Ok (c, ReadWait).

(** The inner loop of [writeMultiBufferInternal], up to the refusal of a push, the end
    of the data or a state other than active: the buffer not yet pushed, the data left,
    and the payloads pushed. Each turn but the last reads at least one byte or pushes a
    buffer, so the length of the data and two more is fuel enough. *)
Inductive WriteResult := WriteClosed | WriteDone | WriteFull (b : Buffer.t) | WriteFuel.

Definition limit_read (data : list byte) (mss n : Z) : list byte * option GoError :=
  (take (Z.to_nat (Z.min n mss)) data, match data with [] => Some EOF | _ => None end).

Fixpoint write_loop (fuel : nat) (c : Connection) (b : option Buffer.t) (data : list byte)
    (pushed : list (list byte)) : go (Connection * WriteResult * list byte * list (list byte)) :=
  match fuel with
  | O => Ok (c, WriteFuel, data, pushed)
  | S fuel =>
      if decide (c_state c ≠ StateActive) then Ok (c, WriteClosed, data, pushed)
      else
        '(b, data, err) ←
          (match b with
           | Some b => Ok (b, data, None)
           | None =>
               '(b, n, err) ← Buffer.ReadFrom (Buffer.New []) (limit_read data (c_mss c));
               Ok (b, drop (Z.to_nat n) data, err)
           end);
        match (err : option GoError) with
        | Some _ => Ok (c, WriteDone, data, pushed)
        | None =>
            let '(sw, ok) := SendingWorker.Push (c_sending c) b in
            let c := set_sending c sw in
            if (ok : bool) then write_loop fuel c None data (pushed ++ [Buffer.content b])
            else Ok (c, WriteFull b, data, pushed)
        end
  end.

Definition writeMultiBufferInternal (c : Connection) (b : option Buffer.t) (data : list byte)
    : go (Connection * WriteResult * list byte * list (list byte)) :=
  '(c, r, data, pushed) ← write_loop (length data + 2) c b data [];
  Ok (if decide (pushed = []) then c else emit c [EvWakeData], r, data, pushed).

(** ** The handlers of a connection *)

Inductive Handler :=
| HInput (current : Z) (now : State → Z) (segments : list Segment)
| HFlush (current : Z) (now : State → Z)
| HClose (now : State → Z)
| HTerminate
| HRead (n : Z)
| HReadMultiBuffer
| HWrite (b : option Buffer.t) (data : list byte).

(** One handler: the connection afterwards, the bytes given to the application and the
    payloads taken from it. *)
Definition handle (c : Connection) (h : Handler) : go (Connection * list byte * list (list byte)) :=
  match h with
  | HInput current now segments => c ← Input c current now segments; Ok (c, [], [])
  | HFlush current now => c ← flush c current now; Ok (c, [], [])
  | HClose now => Ok ((Close c now).1, [], [])
  | HTerminate => Ok (Terminate c, [], [])
  | HRead n =>
      '(c, r) ← Conn_Read c n;
      Ok (c, match r with ReadData got => got | _ => [] end, [])
  | HReadMultiBuffer =>
      let '(c, r) := Conn_ReadMultiBuffer c in
      Ok (c, match r with ReadData mb => MultiBuffer.mcontent mb | _ => [] end, [])
  | HWrite b data =>
      '(c, _, _, pushed) ← writeMultiBufferInternal c b data;
      Ok (c, [], pushed)
  end.

(** ** The state machine *)

(** The transitions, with what causes each. *)
Inductive edge : State → State → Prop :=
| edge_close : edge StateActive StateReadyToClose
| edge_peer_close : edge StateActive StatePeerClosed
| edge_peer_terminate : edge StateActive StatePeerTerminating
| edge_peer_closed_terminate : edge StatePeerClosed StatePeerTerminating
| edge_peer_closed_close : edge StatePeerClosed StateTerminating
| edge_ready_terminating : edge StateReadyToClose StateTerminating
| edge_peer_terminating_late : edge StatePeerTerminating StateTerminating
| edge_peer_terminating_close : edge StatePeerTerminating StateTerminated
| edge_terminated : edge StateTerminating StateTerminated.

(** How far a connection is on its way to the end. *)
Definition rank (s : State) : Z :=
  match s with
  | StateActive => 0
  | StateReadyToClose | StatePeerClosed => 1
  | StatePeerTerminating => 2
  | StateTerminating => 3
  | StateTerminated => 4
  end.

Lemma edge_rank s t : edge s t → rank s < rank t.
Proof. by destruct 1. Qed.

Lemma rtc_edge_rank s t : rtc edge s t → rank s ≤ rank t ∧ (rank s = rank t → s = t).
Proof.
  induction 1 as [|s t u H%edge_rank _ [? ?]]; (split; [lia|]; intros; first [done|exfalso; lia]).
Qed.

Create HintDb kcp.
#[export] Hint Constructors edge : kcp.
Ltac solve_edge := first [apply rtc_refl | apply rtc_once; solve [auto with kcp]].

Lemma SetState_state c now st : c_state (SetState c now st) = st.
Proof. by destruct st. Qed.

Lemma SetState_edge c now st :
  edge (c_state c) st → rtc edge (c_state c) (c_state (SetState c now st)).
Proof. intros. rewrite SetState_state. by apply rtc_once. Qed.

Lemma OnPeerClosed_edge c now : rtc edge (c_state c) (c_state (OnPeerClosed c now)).
Proof.
  unfold OnPeerClosed. destruct (c_state c) eqn:E; rewrite ?SetState_state, ?E;
    solve_edge.
Qed.

Lemma OnTerminate_edge c now : rtc edge (c_state c) (c_state (OnTerminate c now)).
Proof.
  unfold OnTerminate. destruct (c_state c) eqn:E; rewrite ?SetState_state, ?E;
    solve_edge.
Qed.

Lemma HandleOption_edge c now opt : rtc edge (c_state c) (c_state (HandleOption c now opt)).
Proof. unfold HandleOption. case_decide; [apply OnPeerClosed_edge|done]. Qed.

Lemma Close_edge c now : rtc edge (c_state c) (c_state (Close c now).1).
Proof.
  unfold Close. cbn [c_state emit]. destruct (c_state c) eqn:E; cbn [fst]; rewrite ?SetState_state;
    cbn; rewrite ?E; solve_edge.
Qed.

Lemma input_segment_edge c current now seg c' :
  input_segment c current now seg = Ok c' → rtc edge (c_state c) (c_state c').
Proof.
  destruct seg as [seg|seg|seg]; cbn [input_segment]; intros H.
  - pose proof (HandleOption_edge c now (ds_Option seg)) as He.
    apply go_bind_ok in H as (rw & _ & [= <-]). by destruct (ReceivingWorker.IsDataAvailable _).
  - pose proof (HandleOption_edge c now (as_Option seg)) as He.
    apply go_bind_ok in H as ([sw rt] & _ & [= <-]). done.
  - pose proof (HandleOption_edge c now (cs_Option seg)) as He.
    apply go_bind_ok in H as (sw & _ & H). apply go_bind_ok in H as (rw & _ & [= <-]).
    cbn. etransitivity; [exact He|]. clear He. set (c1 := HandleOption _ _ _).
    pose proof (OnTerminate_edge c1 now). by do 2 case_decide.
Qed.

Lemma Input_edge c current now segs c' : Input c current now segs = Ok c' → rtc edge (c_state c) (c_state c').
Proof.
  unfold Input. change (c_state c) with (c_state (set_incoming c current)).
  generalize (set_incoming c current). clear c. induction segs as [|seg segs IH]; intros c; cbn [input_loop].
  { by intros [= <-]. }
  case_decide; [by intros [= <-]|]. intros (c1 & H1%input_segment_edge & H2)%go_bind_ok.
  etransitivity; [exact H1|]. by apply IH.
Qed.

Lemma flush_idle_edge c current now : rtc edge (c_state c) (c_state (flush_idle c current now)).
Proof.
  unfold flush_idle. set (c1 := if decide (c_state c = StateActive ∧ _) then _ else c).
  assert (rtc edge (c_state c) (c_state c1)) as H by (unfold c1; case_decide; [apply Close_edge|done]).
  etransitivity; [exact H|]. case_decide as Hd; [|done]. destruct Hd as [Hd _].
  apply SetState_edge. rewrite Hd. auto with kcp.
Qed.

Lemma flush_late_edge c current now : rtc edge (c_state c) (c_state (flush_late c current now)).
Proof.
  unfold flush_late. set (c1 := if decide (c_state c = StatePeerTerminating ∧ _) then _ else c).
  assert (rtc edge (c_state c) (c_state c1)) as H.
  { unfold c1. case_decide as Hd; [|done]. destruct Hd as [Hd _]. apply SetState_edge. rewrite Hd. auto with kcp. }
  etransitivity; [exact H|]. case_decide as Hd; [|done]. destruct Hd as [Hd _].
  apply SetState_edge. rewrite Hd. auto with kcp.
Qed.

Lemma flush_sending_edge c current c' : flush_sending c current = Ok c' → c_state c' = c_state c.
Proof.
  unfold flush_sending. intros ([[sw out] upd] & _ & <-%Ok_inj)%go_bind_ok. by destruct upd.
Qed.

Lemma flush_receiving_state c current : c_state (flush_receiving c current) = c_state c.
Proof. unfold flush_receiving. by destruct (ReceivingWorker.Flush _ _ _ _ _). Qed.

Lemma flush_edge c current now c' : flush c current now = Ok c' → rtc edge (c_state c) (c_state c').
Proof.
  unfold flush. destruct (decide (c_state c = StateTerminated)); [by intros <-%Ok_inj|].
  pose proof (flush_idle_edge c current now) as H1.
  destruct (decide (c_state (flush_idle c current now) = StateTerminating)) as [Ht|Ht].
  { intros <-%Ok_inj. etransitivity; [exact H1|]. destruct (decide (_ > 8000)); [|done].
    rewrite SetState_state, Ht. solve_edge. }
  pose proof (flush_late_edge (flush_idle c current now) current now) as H2.
  intros (c3 & E%flush_sending_edge & <-%Ok_inj)%go_bind_ok. rewrite flush_receiving_state in E.
  etransitivity; [exact H1|]. etransitivity; [exact H2|]. rewrite <- E.
  by destruct (decide (3000 ≤ _)).
Qed.

Lemma write_loop_state fuel : ∀ c b data pushed c' r rest pushed',
  write_loop fuel c b data pushed = Ok (c', r, rest, pushed') →
  c_state c' = c_state c ∧ c_conv c' = c_conv c ∧ c_events c' = c_events c.
Proof.
  induction fuel as [|fuel IH]; intros c b data pushed c' r rest pushed'; cbn [write_loop].
  { by intros [= <- <- <- <-]. }
  case_decide as Hact; [by intros [= <- <- <- <-]|]. intros ([[b1 d1] err] & _ & H)%go_bind_ok.
  destruct err; [by injection H as <- <- <- <-|].
  destruct (SendingWorker.Push _ _) as [sw [|]]; [by apply IH in H|]. by injection H as <- <- <- <-.
Qed.

Lemma handle_edge c h c' got pushed :
  handle c h = Ok (c', got, pushed) → rtc edge (c_state c) (c_state c').
Proof.
  destruct h as [current now segs|current now|now| |n| |b data]; cbn [handle].
  - intros (c1 & H%Input_edge & [= <- <- <-])%go_bind_ok. done.
  - intros (c1 & H%flush_edge & [= <- <- <-])%go_bind_ok. done.
  - intros [= <- <- <-]. apply Close_edge.
  - by intros [= <- <- <-].
  - intros ([c1 r] & H & [= <- <- <-])%go_bind_ok. unfold Conn_Read in H.
    destruct (Is _ _); [by injection H as <- <-|].
    apply go_bind_ok in H as ([rw g] & _ & H). case_decide; by injection H as <- <-.
  - unfold Conn_ReadMultiBuffer. destruct (Is _ _); [by intros [= <- <- <-]|].
    destruct (ReceivingWorker.ReadMultiBuffer _) as [rw mb]. destruct (negb _); [by intros [= <- <- <-]|].
    case_decide; by intros [= <- <- <-].
  - intros ([[[c1 r] rest] p] & H & [= <- <- <-])%go_bind_ok.
    unfold writeMultiBufferInternal in H. apply go_bind_ok in H as ([[[c2 r2] rest2] p2] & H & [= <- <- <- <-]).
    apply write_loop_state in H as (Hs & _). case_decide; cbn; by rewrite Hs.
Qed.

(** A handler that no other one disturbs only moves along the nine transitions, each nearer to the
    end, and a terminated connection stays terminated. *)
Lemma handle_moves c h c' got pushed :
  handle c h = Ok (c', got, pushed) →
  rtc edge (c_state c) (c_state c') ∧ rank (c_state c) ≤ rank (c_state c') ∧
  (c_state c = StateTerminated → c_state c' = StateTerminated).
Proof.
  intros H%handle_edge. destruct (rtc_edge_rank _ _ H) as [Hr Heq]. split_and!; try done.
  intros Ht. rewrite Ht in *. assert (rank (c_state c') ≤ 4) by (destruct (c_state c'); cbn; lia).
  symmetry. apply Heq. cbn in *. lia.
Qed.

(** ** Loads and stores of the state

    [Close], [Input] and [flush] run in goroutines of their own and read and write the state
    without a lock: what each does to it, as a program of loads and stores. *)
Inductive SProg := SDone | SLoad (k : State → SProg) | SStore (st : State) (k : SProg).

(** [switch c.State()] with a [SetState] in some cases. *)
Definition choose (f : State → option State) (k : SProg) : SProg :=
  SLoad (λ s, match f s with Some t => SStore t k | None => k end).
Definition close_to (s : State) : option State :=
  match s with
  | StateActive => Some StateReadyToClose
  | StatePeerClosed => Some StateTerminating
  | StatePeerTerminating => Some StateTerminated
  | _ => None
  end.
Definition peer_closed_to (s : State) : option State :=
  match s with StateReadyToClose => Some StateTerminating | StateActive => Some StatePeerClosed | _ => None end.
Definition terminate_to (s : State) : option State :=
  match s with
  | StateActive | StatePeerClosed => Some StatePeerTerminating
  | StateReadyToClose => Some StateTerminating
  | StateTerminating => Some StateTerminated
  | _ => None
  end.
(** [if c.State() == s0 && b { c.SetState(t) }]. *)
Definition only (s0 : State) (b : bool) (t s : State) : option State := if decide (s = s0 ∧ b = true) then Some t else None.

(** [Input]: for each segment, whether it has the closing option and whether it is the command to
    terminate. *)
Fixpoint input_prog (l : list (bool * bool)) (k : SProg) : SProg :=
  match l with
  | [] => k
  | (close, terminate) :: l =>
      let k := input_prog l k in
      let k := if (terminate : bool) then choose terminate_to k else k in
      if (close : bool) then choose peer_closed_to k else k
  end.
(** [flush], with what it finds of the clock and of the sending worker. *)
Definition flush_prog (idle empty late8 late4 late15 : bool) (k : SProg) : SProg :=
  let rest :=
    choose (only StateReadyToClose empty StateTerminating)
      (SLoad (λ s, if decide (s = StateTerminating) then if late8 then SStore StateTerminated k else k
                   else choose (only StatePeerTerminating late4 StateTerminating)
                          (choose (only StateReadyToClose late15 StateTerminating) k))) in
  SLoad (λ s, if decide (s = StateTerminated) then k
              else SLoad (λ s, if decide (s = StateActive ∧ idle = true) then choose close_to rest else rest)).

Inductive handler_prog : SProg → Prop :=
| prog_close : handler_prog (choose close_to SDone)
| prog_input l : handler_prog (input_prog l SDone)
| prog_flush idle empty late8 late4 late15 : handler_prog (flush_prog idle empty late8 late4 late15 SDone).

(** The program alone. *)
Fixpoint srun (p : SProg) (s : State) : State :=
  match p with SDone => s | SLoad k => srun (k s) s | SStore t k => srun k t end.

(** Programs side by side: the state, the states it had so far, and what is left of each program.
    Any program may start at any time. *)
Record SWorld := mkSWorld { sw_state : State; sw_past : list State; sw_threads : list SProg }.
Inductive sstep : SWorld → SWorld → Prop :=
| sstep_start w p : handler_prog p → sstep w (mkSWorld (sw_state w) (sw_past w) (sw_threads w ++ [p]))
| sstep_load w i k : sw_threads w !! i = Some (SLoad k) →
    sstep w (mkSWorld (sw_state w) (sw_past w) (<[i := k (sw_state w)]> (sw_threads w)))
| sstep_store w i t k : sw_threads w !! i = Some (SStore t k) →
    sstep w (mkSWorld t (sw_past w ++ [t]) (<[i := k]> (sw_threads w))).
Definition sw_init : SWorld := mkSWorld StateActive [StateActive] [].

(** *** The programs are what the handlers do *)

Lemma close_runs c now : c_state (Close c now).1 = srun (choose close_to SDone) (c_state c).
Proof. unfold Close. cbn. destruct (c_state c) eqn:E; cbn [fst]; rewrite ?SetState_state; done. Qed.

Lemma srun_choose f k s : srun (choose f k) s = srun k (default s (f s)).
Proof. cbn. by destruct (f s). Qed.

Lemma option_runs c now opt k : srun (if bool_decide (Z.land opt SegmentOptionClose = SegmentOptionClose) then choose peer_closed_to k else k) (c_state c)
  = srun k (c_state (HandleOption c now opt)).
Proof.
  unfold HandleOption, OnPeerClosed. destruct (decide (Z.land opt SegmentOptionClose = SegmentOptionClose)); [rewrite bool_decide_true by done|by rewrite bool_decide_false by done].
  rewrite srun_choose. destruct (c_state c) eqn:E; rewrite ?SetState_state, ?E; done.
Qed.

Lemma terminate_runs c now cmd k : srun (if bool_decide (cmd = CommandTerminate) then choose terminate_to k else k) (c_state c)
  = srun k (c_state (if decide (cmd = CommandTerminate) then OnTerminate c now else c)).
Proof.
  unfold OnTerminate. destruct (decide (cmd = CommandTerminate)); [rewrite bool_decide_true by done|by rewrite bool_decide_false by done].
  rewrite srun_choose. destruct (c_state c) eqn:E; rewrite ?SetState_state, ?E; done.
Qed.

Lemma input_segment_runs c current now seg c' : input_segment c current now seg = Ok c' →
  ∃ x, ∀ l k, srun (input_prog (x :: l) k) (c_state c) = srun (input_prog l k) (c_state c').
Proof.
  destruct seg as [seg|seg|seg]; cbn [input_segment]; intros H.
  - exists (bool_decide (Z.land (ds_Option seg) SegmentOptionClose = SegmentOptionClose), false). intros l k. cbn [input_prog]. rewrite (option_runs c now).
    apply go_bind_ok in H as (rw & _ & [= <-]). by destruct (ReceivingWorker.IsDataAvailable _).
  - exists (bool_decide (Z.land (as_Option seg) SegmentOptionClose = SegmentOptionClose), false). intros l k. cbn [input_prog]. rewrite (option_runs c now).
    by apply go_bind_ok in H as ([sw rt] & _ & [= <-]).
  - exists (bool_decide (Z.land (cs_Option seg) SegmentOptionClose = SegmentOptionClose), bool_decide (cs_Cmd seg = CommandTerminate)). intros l k. cbn [input_prog].
    rewrite (option_runs c now), (terminate_runs _ now). apply go_bind_ok in H as (sw & _ & H). apply go_bind_ok in H as (rw & _ & [= <-]). cbn. by do 2 case_decide.
Qed.

Lemma input_runs c current now segs c' : Input c current now segs = Ok c' → ∃ l, c_state c' = srun (input_prog l SDone) (c_state c).
Proof.
  unfold Input. change (c_state c) with (c_state (set_incoming c current)). generalize (set_incoming c current). clear c.
  induction segs as [|seg segs IH]; intros c; cbn [input_loop]; [by intros [= <-]; exists []|]. case_decide; [by intros [= <-]; exists []|].
  intros (c1 & H1 & H2)%go_bind_ok. destruct (input_segment_runs _ _ _ _ _ H1) as (x & Hx). destruct (IH _ H2) as (l & ->). exists (x :: l). by rewrite Hx.
Qed.

Lemma flush_idle_runs c current now : ∃ idle empty, ∀ k,
  srun (SLoad (λ s, if decide (s = StateActive ∧ idle = true) then choose close_to (choose (only StateReadyToClose empty StateTerminating) k)
                    else choose (only StateReadyToClose empty StateTerminating) k)) (c_state c) = srun k (c_state (flush_idle c current now)).
Proof.
  unfold flush_idle. set (c1 := if decide (c_state c = StateActive ∧ 30000 ≤ _) then _ else c). exists (bool_decide (30000 ≤ current -32 c_lastIncomingTime c)), (SendingWorker.IsEmpty (c_sending c1)). intros k. cbn [srun].
  assert (H1 : ∀ k, srun (if decide (c_state c = StateActive ∧ bool_decide (30000 ≤ current -32 c_lastIncomingTime c) = true) then choose close_to k else k) (c_state c) = srun k (c_state c1)).
  { intros k'. unfold c1. destruct (decide (c_state c = StateActive ∧ 30000 ≤ _)) as [[Ha Ht]|Hn].
    - rewrite decide_True by (split; [done|by apply bool_decide_eq_true]). by rewrite srun_choose, close_runs, srun_choose.
    - rewrite decide_False; [done|]. intros [Ha Ht%bool_decide_eq_true]. by apply Hn. }
  rewrite H1, srun_choose. unfold only. destruct (decide (c_state c1 = StateReadyToClose ∧ _)); [by rewrite SetState_state|done].
Qed.

Lemma only_runs c now s0 (b : Prop) `{!Decision b} t k :
  srun (choose (only s0 (bool_decide b) t) k) (c_state c) = srun k (c_state (if decide (c_state c = s0 ∧ b) then SetState c now t else c)).
Proof.
  rewrite srun_choose. unfold only. destruct (decide (c_state c = s0 ∧ b)) as [[? ?]|Hn]; [rewrite decide_True by (split; [done|by apply bool_decide_eq_true]); by rewrite SetState_state|].
  rewrite decide_False; [done|]. intros [? ?%bool_decide_eq_true]. by apply Hn.
Qed.

Lemma flush_late_runs c current now : ∃ late4 late15, ∀ k,
  srun (choose (only StatePeerTerminating late4 StateTerminating) (choose (only StateReadyToClose late15 StateTerminating) k)) (c_state c)
  = srun k (c_state (flush_late c current now)).
Proof.
  unfold flush_late. set (c1 := if decide (c_state c = StatePeerTerminating ∧ _) then _ else c).
  exists (bool_decide (current -32 c_stateBeginTime c > 4000)), (bool_decide (current -32 c_stateBeginTime c1 > 15000)). intros k. by rewrite (only_runs c now), (only_runs c1 now).
Qed.

Lemma flush_runs c current now c' : flush c current now = Ok c' →
  ∃ idle empty late8 late4 late15, c_state c' = srun (flush_prog idle empty late8 late4 late15 SDone) (c_state c).
Proof.
  unfold flush. destruct (flush_idle_runs c current now) as (idle & empty & Hidle). set (c1 := flush_idle c current now) in *. destruct (flush_late_runs c1 current now) as (late4 & late15 & Hlate).
  intros H. exists idle, empty, (bool_decide (current -32 c_stateBeginTime c1 > 8000)), late4, late15. unfold flush_prog. cbv zeta. cbn [srun].
  destruct (decide (c_state c = StateTerminated)); [by injection H as <-|]. cbn [srun] in Hidle |- *. rewrite Hidle. clear Hidle. cbn [srun].
  destruct (decide (c_state c1 = StateTerminating)) as [Et|Et].
  - apply Ok_inj in H as <-. cbn [c_stateBeginTime Ping set_ping emit]. destruct (decide (_ > 8000)); [rewrite bool_decide_true by done; by rewrite SetState_state|by rewrite bool_decide_false by done].
  - apply go_bind_ok in H as (c3 & E%flush_sending_edge & <-%Ok_inj). rewrite flush_receiving_state in E. rewrite Hlate. cbn [srun]. rewrite <- E. by destruct (decide (3000 ≤ _)).
Qed.

Lemma handle_runs c h c' got pushed : handle c h = Ok (c', got, pushed) →
  c_state c' = c_state c ∨ ∃ p, handler_prog p ∧ c_state c' = srun p (c_state c).
Proof.
  intros H. destruct h as [current now segs|current now|now| |n| |b data].
  - right. cbn in H. apply go_bind_ok in H as (c1 & E & [= <- <- <-]). destruct (input_runs _ _ _ _ _ E) as (l & Hl). exists (input_prog l SDone). split; [apply prog_input|done].
  - right. cbn in H. apply go_bind_ok in H as (c1 & E & [= <- <- <-]). destruct (flush_runs _ _ _ _ E) as (a & b & x & y & z & Hl). exists (flush_prog a b x y z SDone). split; [apply prog_flush|done].
  - right. cbn [handle] in H. injection H as <- <- <-. eexists. split; [apply prog_close|apply close_runs].
  - left. by injection H as <- <- <-.
  - left. cbn [handle] in H. apply go_bind_ok in H as ([c1 r] & H & [= <- <- <-]). unfold Conn_Read in H.
    destruct (Is _ _); [by injection H as <- <-|]. apply go_bind_ok in H as ([rw g] & _ & H). case_decide; by injection H as <- <-.
  - left. cbn [handle] in H. unfold Conn_ReadMultiBuffer in H. destruct (Is _ _); [by injection H as <- <- <-|].
    destruct (ReceivingWorker.ReadMultiBuffer _) as [rw mb]. destruct (negb _); [by injection H as <- <- <-|]. case_decide; by injection H as <- <- <-.
  - left. cbn [handle] in H. apply go_bind_ok in H as ([[[c1 r] rest] p] & H & [= <- <- <-]).
    unfold writeMultiBufferInternal in H. apply go_bind_ok in H as ([[[c2 r2] rest2] p2] & H & [= <- <- <- <-]). apply write_loop_state in H as (Hs & _). case_decide; cbn; by rewrite Hs.
Qed.

(** *** Interleavings *)

(** Every store follows a load, along a transition from what was loaded. *)
Inductive sound : SProg → Prop :=
| sound_done : sound SDone
| sound_load k : (∀ s, sound (k s) ∨ ∃ t k', k s = SStore t k' ∧ edge s t ∧ sound k') → sound (SLoad k).

Lemma sound_choose f k : (∀ s t, f s = Some t → edge s t) → sound k → sound (choose f k).
Proof. intros Hf Hk. constructor. intros s. destruct (f s) as [t|] eqn:E; [right; exists t, k; auto|by left]. Qed.

Lemma sound_only s0 b t k : edge s0 t → sound k → sound (choose (only s0 b t) k).
Proof. intros He Hk. apply sound_choose; [|done]. intros s u. unfold only. case_decide as Hd; [|done]. destruct Hd as [-> _]. by intros [= <-]. Qed.

Lemma handler_sound p : handler_prog p → sound p.
Proof.
  assert (Hclose : ∀ k, sound k → sound (choose close_to k)) by (intros k Hk; apply sound_choose; [|done]; intros [] t [= <-]; auto with kcp).
  destruct 1 as [|l|idle empty late8 late4 late15].
  - apply Hclose, sound_done.
  - induction l as [|[close terminate] l IH]; [apply sound_done|]. cbn [input_prog]. set (k := if terminate then _ else _).
    assert (Hk : sound k) by (unfold k; destruct terminate; [apply sound_choose; [intros [] t [= <-]; auto with kcp|done]|done]).
    destruct close; [apply sound_choose; [intros [] t [= <-]; auto with kcp|done]|done].
  - unfold flush_prog. set (rest := choose (only StateReadyToClose empty StateTerminating) _). assert (Hr : sound rest).
    { apply sound_only; [auto with kcp|]. constructor. intros s. destruct (decide (s = StateTerminating)) as [->|].
      - destruct late8; [right; exists StateTerminated, SDone; split; [done|split; [auto with kcp|apply sound_done]]|left; apply sound_done].
      - left. apply sound_only; [auto with kcp|]. apply sound_only; [auto with kcp|apply sound_done]. }
    constructor. intros s. left. case_decide; [apply sound_done|]. constructor. intros s'. left. case_decide; [by apply Hclose|done].
Qed.

(** What is left of a program that another one may have overtaken. *)
Definition pending_ok (past : list State) (p : SProg) : Prop :=
  sound p ∨ ∃ s t k, p = SStore t k ∧ edge s t ∧ s ∈ past ∧ sound k.
Definition sw_inv (w : SWorld) : Prop := sw_state w ∈ sw_past w ∧ Forall (pending_ok (sw_past w)) (sw_threads w).

Lemma pending_mono past more p : pending_ok past p → pending_ok (past ++ more) p.
Proof. intros [|(s & t & k & -> & He & Hs & Hk)]; [by left|]. right. exists s, t, k. split; [done|]. split; [done|]. split; [|done]. apply elem_of_app. by left. Qed.

Lemma sstep_inv w w' : sw_inv w → sstep w w' → sw_inv w'.
Proof.
  intros [Hst Hth] Hs. destruct Hs as [w p Hp|w i k Hi|w i t k Hi].
  - split; [done|]. cbn. apply Forall_app. split; [done|]. apply Forall_singleton. left. by apply handler_sound.
  - split; [done|]. cbn. apply Forall_insert; [done|]. pose proof (Forall_lookup_1 _ _ _ _ Hth Hi) as [Hk|(s & t & k' & E & _)]; [|done].
    inversion Hk as [|? Hn]; subst. destruct (Hn (sw_state w)) as [|(t & k' & E & He & Hk')]; [by left|]. right. by exists (sw_state w), t, k'.
  - pose proof (Forall_lookup_1 _ _ _ _ Hth Hi) as [Hk|(s & t' & k' & [= -> ->] & He & _ & Hk')]; [inversion Hk|]. split; [cbn; apply elem_of_app; right; by apply list_elem_of_singleton|].
    cbn. apply Forall_insert; [|by left]. eapply list.Forall_impl; [exact Hth|]. intros q. apply pending_mono.
Qed.

Lemma sreach_inv w w' : sw_inv w → rtc sstep w w' → sw_inv w'.
Proof. intros H. induction 1 as [|w1 w2 w3 Hs _ IH]; [done|]. apply IH. by eapply sstep_inv. Qed.

Lemma sstep_edge w w' : sw_inv w → sstep w w' → sw_state w' = sw_state w ∨ ∃ s, s ∈ sw_past w ∧ edge s (sw_state w').
Proof.
  intros [_ Hth] Hs. destruct Hs as [w p Hp|w i k Hi|w i t k Hi]; [by left|by left|]. right.
  pose proof (Forall_lookup_1 _ _ _ _ Hth Hi) as [Hk|(s & t' & k' & [= -> ->] & He & Hin & _)]; [inversion Hk|]. by exists s.
Qed.

(** C5: the state of a connection is read and written by goroutines without a lock. However their loads
    and stores interleave, every state that is stored is one of the nine transitions away from a state
    the connection was in before, and a connection that has left the active state never gets back to it.
    A handler that no other one overtakes runs one of these programs and moves along the transitions,
    each nearer to the end, and a terminated connection stays terminated. *)
Theorem conn_state_machine :
  (∀ w w', rtc sstep sw_init w → sstep w w' → sw_state w' = sw_state w ∨ ∃ s, s ∈ sw_past w ∧ edge s (sw_state w')) ∧
  (∀ w w', rtc sstep sw_init w → sw_state w ≠ StateActive → rtc sstep w w' → sw_state w' ≠ StateActive) ∧
  (∀ c h c' got pushed, handle c h = Ok (c', got, pushed) →
     (c_state c' = c_state c ∨ ∃ p, handler_prog p ∧ c_state c' = srun p (c_state c)) ∧
     rtc edge (c_state c) (c_state c') ∧ rank (c_state c) ≤ rank (c_state c') ∧
     (c_state c = StateTerminated → c_state c' = StateTerminated)).
Proof.
  assert (H0 : sw_inv sw_init) by (split; [by apply list_elem_of_singleton|apply Forall_nil_2]). split; [|split].
  - intros w w' Hr. apply sstep_edge. by eapply sreach_inv.
  - intros w w' Hr Hne Hr'. pose proof (sreach_inv _ _ H0 Hr) as Hw. clear Hr. induction Hr' as [|w1 w2 w3 Hs _ IH]; [done|]. apply IH; [|by eapply sstep_inv].
    destruct (sstep_edge _ _ Hw Hs) as [->|(s & _ & He)]; [done|]. intros E. rewrite E in He. inversion He.
  - intros c h c' got pushed H. split; [by eapply handle_runs|by eapply handle_moves].
Qed.

(** A connection can leave the terminated state: [Close] finds it active, the peer's terminate command
    and another [Close] terminate it, and then the first [Close] stores its state. *)
Lemma overtaken_close_reopens : ∃ w w', rtc sstep sw_init w ∧ sw_state w = StateTerminated ∧ sstep w w' ∧ sw_state w' = StateReadyToClose.
Proof.
  eexists _, _. split.
  { eapply rtc_l; [apply sstep_start, prog_close|]. eapply rtc_l; [by apply (sstep_load _ 0)|]. eapply rtc_l; [apply sstep_start, (prog_input [(false, true)])|].
    eapply rtc_l; [by apply (sstep_load _ 1)|]. eapply rtc_l; [by apply (sstep_store _ 1)|]. eapply rtc_l; [apply sstep_start, prog_close|].
    eapply rtc_l; [by apply (sstep_load _ 2)|]. eapply rtc_l; [by apply (sstep_store _ 2)|]. apply rtc_refl. }
  split; [reflexivity|]. split; [by apply (sstep_store _ 0)|reflexivity].
Qed.

(** ** Witnesses *)

(** A new connection of conversation 7 with the default configuration. *)
Definition sample_conn : Connection :=
  mkConn 7 default_config 1332 StateActive 0 0 0 (mkRTT 0 0 100 50 0)
    (ReceivingWorker.mk None ∅ (AckList.NewAckList 1350) 0 776)
    (SendingWorker.mk SendingWindow.NewSendingWindow 0 0 32 194 2 1553 false false) [EvWakePing].

Lemma sample_conn_new : NewConnection 7 default_config = Ok sample_conn.
Proof. vm_compute. reflexivity. Qed.

(** A flush that closes an idle connection compares its time with a time that [SetState] read after it:
    when a millisecond lies in between, the difference wraps around, and the connection is terminated at
    once instead of after eight seconds. *)
Lemma late_clock_terminates :
  (∃ c, flush sample_conn 30000 (λ _, 30000) = Ok c ∧ c_state c = StateTerminating) ∧
  (∃ c, flush sample_conn 30000 (λ _, 30001) = Ok c ∧ c_state c = StateTerminated).
Proof. split; eexists; vm_compute; split; reflexivity. Qed.
