(* ===== verification/KcpInvariant.v ===== *)
(** * The invariant of an mKCP connection

    What holds of a connection of [KcpConn] whatever handlers ran: both workers are
    well formed, the configuration and clocks are in range, and every segment it ever
    wrote is true of it (a data segment carries the payload of its number, an
    acknowledgement names only what was received). Every handler keeps it and none
    panics. [ms] lists the payloads pushed here, [mr] those the peer pushed. *)

From S2P Require Import Prelude Net Buf KcpSegment KcpCommon KcpReceiving KcpSending KcpConn.

Import ReceivingWorker (rinv, held, stream).
Import SendingWorker (sinv).

Definition outs (evs : list Event) : list Segment :=
  omap (λ e, match e with EvOut s => Some s | _ => None end) evs.

Lemma outs_app a b : outs (a ++ b) = outs a ++ outs b.
Proof. apply omap_app. Qed.

Lemma outs_fmap {A} (f : A → Segment) l : outs (EvOut ∘ f <$> l) = f <$> l.
Proof. induction l as [|a l IH]; [done|]. cbn. by f_equal. Qed.

(** What a written segment says is true of the connection. *)
Definition ok_seg (ms : list (list byte)) (c : Connection) (seg : Segment) : Prop :=
  wf_segment seg ∧ Conversation seg = c_conv c ∧
  match seg with
  | SegData d => valid_data ms d
  | SegAck a => as_ReceivingNext a ≤ ReceivingWorker.nextNumber (c_receiving c)
                ∧ Forall (held (c_receiving c)) (as_NumberList a)
  | SegCmd s => cs_ReceivingNext s ≤ ReceivingWorker.nextNumber (c_receiving c)
  end.

Record cinv (ms mr : list (list byte)) (c : Connection) : Prop := {
  ci_cfg : usable_config (c_config c);
  ci_conv : is_u16 (c_conv c);
  ci_mss : 0 < c_mss c;
  ci_rto : is_u32 (rto (c_roundTrip c));
  ci_s : sinv ms (c_sending c);
  ci_r : rinv mr (c_receiving c);
  ci_log : Forall (ok_seg ms c) (outs (c_events c))
}.

(** What grows or stays as a connection goes on. *)
Definition later (c c' : Connection) : Prop :=
  c_conv c' = c_conv c ∧ c_config c' = c_config c ∧ c_mss c' = c_mss c ∧
  ReceivingWorker.nextNumber (c_receiving c) ≤ ReceivingWorker.nextNumber (c_receiving c') ∧
  ∀ n, held (c_receiving c) n → held (c_receiving c') n.

#[global] Instance later_preorder : PreOrder later.
Proof.
  split.
  - intros c. unfold later. split_and!; try done.
  - intros a b c (? & ? & ? & ? & ?) (? & ? & ? & ? & ?). unfold later.
    split_and!; try congruence; [lia|auto].
Qed.

Lemma ok_seg_later ms c c' seg : later c c' → ok_seg ms c seg → ok_seg ms c' seg.
Proof.
  intros (Hc & _ & _ & Hn & Hh) (? & ? & Hs). split; [done|]. split; [congruence|].
  destruct seg; [done| |lia]. destruct Hs as [? Hs]. split; [lia|].
  eapply list.Forall_impl; [exact Hs|done].
Qed.

Lemma later_worker c rw :
  ReceivingWorker.nextNumber (c_receiving c) ≤ ReceivingWorker.nextNumber rw →
  (∀ n, held (c_receiving c) n → held rw n) → later c (set_receiving c rw).
Proof. intros. by split_and!. Qed.

(** The parts of a connection the invariant does not mention may change. *)
Definition same_core (c c' : Connection) : Prop :=
  c_conv c' = c_conv c ∧ c_config c' = c_config c ∧ c_mss c' = c_mss c ∧
  c_roundTrip c' = c_roundTrip c ∧ c_receiving c' = c_receiving c ∧ c_sending c' = c_sending c ∧
  outs (c_events c') = outs (c_events c).

Lemma same_core_later c c' : same_core c c' → later c c'.
Proof. intros (? & ? & ? & _ & E & _). unfold later. rewrite E. by split_and!. Qed.

Section handlers.
Context (ms mr : list (list byte)).

Lemma cinv_same c c' : same_core c c' → cinv ms mr c → cinv ms mr c'.
Proof.
  intros Hs H. pose proof (same_core_later _ _ Hs) as Hl.
  destruct Hs as (E1 & E2 & E3 & E4 & E5 & E6 & E7).
  split; rewrite ?E1, ?E2, ?E3, ?E4, ?E5, ?E6, ?E7; try apply H.
  eapply list.Forall_impl; [apply (ci_log _ _ _ H)|]. intros s. by apply ok_seg_later.
Qed.

Lemma cinv_sending c sw : sinv ms sw → cinv ms mr c → cinv ms mr (set_sending c sw).
Proof. intros Hs H. split; try apply H. done. Qed.

Lemma cinv_roundTrip c rt : is_u32 (rto rt) → cinv ms mr c → cinv ms mr (set_roundTrip c rt).
Proof. intros Hs H. split; try apply H. done. Qed.

Lemma cinv_receiving c rw :
  rinv mr rw → later c (set_receiving c rw) → cinv ms mr c → cinv ms mr (set_receiving c rw).
Proof.
  intros Hr Hl H. split; try apply H; [done|].
  eapply list.Forall_impl; [apply (ci_log _ _ _ H)|]. intros s. by apply ok_seg_later.
Qed.

Lemma cinv_emit c evs :
  Forall (ok_seg ms c) (outs evs) → cinv ms mr c → cinv ms mr (emit c evs).
Proof.
  intros Ho H. split; try apply H. cbn. rewrite outs_app. apply Forall_app. split; [apply H|done].
Qed.

(** Segments still waiting for an acknowledgement. *)
Abbreviation unacked c := (ds_Number <$> SendingWindow.cache (SendingWorker.window (c_sending c))).

(** Before the peer closes or the connection ends, nothing leaves the sending window
    but by acknowledgement. *)
Definition live (st : State) : Prop := st = StateActive ∨ st = StateReadyToClose.

(** [P] is what the peer holds. *)
Context (P : Z → Prop).

Definition retains (c c' : Connection) : Prop :=
  rtc edge (c_state c) (c_state c') ∧
  (live (c_state c') → ∀ n, n ∈ unacked c → n ∈ unacked c' ∨ P n).

Lemma live_back s t : rtc edge s t → live t → live s.
Proof.
  induction 1 as [|s t u He _ IH]; [done|]. intros H%IH. destruct He, H; unfold live; simplify_eq; auto.
Qed.

#[local] Instance retains_preorder : PreOrder retains.
Proof.
  split.
  - intros c. split; [done|]. auto.
  - intros a b c [E1 H1] [E2 H2]. split; [by etransitivity|]. intros Hl n Hn.
    destruct (H1 (live_back _ _ E2 Hl) n Hn) as [Hb|]; [|by right]. auto.
Qed.

(** Nothing was read. *)
Definition unread (c c' : Connection) : Prop :=
  ReceivingWorker.nextNumber (c_receiving c') = ReceivingWorker.nextNumber (c_receiving c) ∧
  ReceivingWorker.leftOver (c_receiving c') = ReceivingWorker.leftOver (c_receiving c).

(** A step of a handler: the invariant, the growth, the retention, and no read. *)
Definition good (c c' : Connection) : Prop :=
  cinv ms mr c' ∧ later c c' ∧ retains c c' ∧ unread c c'.

Lemma good_trans c1 c2 c3 : good c1 c2 → good c2 c3 → good c1 c3.
Proof.
  intros (? & ? & ? & ? & ?) (? & ? & ? & ? & ?). split; [done|]. split; [by etransitivity|].
  split; [by etransitivity|]. split; congruence.
Qed.

Lemma good_same c c' : cinv ms mr c → same_core c c' → c_state c' = c_state c → good c c'.
Proof.
  intros H Hs Est. split; [by eapply cinv_same|]. split; [by apply same_core_later|].
  destruct Hs as (_ & _ & _ & _ & Er & E & _). split; [|unfold unread; by rewrite Er].
  split; [by rewrite Est|]. rewrite E. auto.
Qed.

Lemma good_emit c evs : cinv ms mr c → Forall (ok_seg ms c) (outs evs) → good c (emit c evs).
Proof. intros H Ho. split; [by apply cinv_emit|]. split; [by split_and!|]. split; [|done]. split; [done|auto]. Qed.

Lemma SetState_good c now st :
  cinv ms mr c → edge (c_state c) st → good c (SetState c now st).
Proof.
  intros H He. assert (Hsw : cinv ms mr (set_sending (set_state c st (now st))
      (SendingWorker.CloseWrite (c_sending c)))).
  { apply cinv_sending; [apply SendingWorker.CloseWrite_sinv, H|]. by eapply cinv_same; [|exact H]. }
  assert (Hr : ∀ c', c_state c' = st → (live st → c_sending c' = c_sending c) → retains c c').
  { intros c' E1 E2. split; [rewrite E1; by apply rtc_once|]. rewrite E1. intros Hl. rewrite E2; auto. }
  destruct st; cbn [SetState] in *.
  - inversion He.
  - split; [by eapply cinv_same; [|exact H]|]. split; [by split_and!|]. split; [by apply Hr|done].
  - split; [done|]. split; [by split_and!|]. split; [apply Hr; [done|by intros [|]]|done].
  - split; [by apply cinv_emit|]. split; [by split_and!|]. split; [apply Hr; [done|by intros [|]]|done].
  - split; [by apply cinv_emit|]. split; [by split_and!|]. split; [apply Hr; [done|by intros [|]]|done].
  - split; [by apply cinv_emit|]. split; [by split_and!|]. split; [apply Hr; [done|by intros [|]]|done].
Qed.

Lemma good_refl c : cinv ms mr c → good c c.
Proof. intros H. by apply good_same. Qed.

Lemma OnPeerClosed_good c now : cinv ms mr c → good c (OnPeerClosed c now).
Proof.
  intros H. unfold OnPeerClosed. destruct (c_state c) eqn:E; try by apply good_refl.
  all: apply SetState_good; [done|rewrite E; auto with kcp].
Qed.

Lemma HandleOption_good c now opt : cinv ms mr c → good c (HandleOption c now opt).
Proof.
  intros H. unfold HandleOption. case_decide; [by apply OnPeerClosed_good|by apply good_refl].
Qed.

Lemma OnTerminate_good c now : cinv ms mr c → good c (OnTerminate c now).
Proof.
  intros H. unfold OnTerminate. destruct (c_state c) eqn:E; try by apply good_refl.
  all: apply SetState_good; [done|rewrite E; auto with kcp].
Qed.

Lemma Close_good c now : cinv ms mr c → good c (Close c now).1.
Proof.
  intros H. unfold Close. set (c1 := emit c _). assert (good c c1) as G by (by apply good_emit).
  destruct G as (H1 & G2). destruct (c_state c1) eqn:E; cbn [fst]; try done.
  all: eapply good_trans; [split; [exact H1|exact G2]|]; apply SetState_good; [done|rewrite E; auto with kcp].
Qed.

(** What an incoming segment claims is true of the peer. *)
Definition claims (seg : Segment) : Prop :=
  match seg with
  | SegData d => valid_data mr d
  | SegAck a => Forall is_u32 (as_NumberList a) ∧ (∀ n, 0 ≤ n < as_ReceivingNext a → P n)
                ∧ Forall P (as_NumberList a)
  | SegCmd s => is_u32 (cs_PeerRTO s) ∧ (∀ n, 0 ≤ n < cs_ReceivingNext s → P n)
  end.

Lemma unacked_nonneg c n : cinv ms mr c → n ∈ unacked c → 0 ≤ n.
Proof.
  intros H (s & -> & Hs)%list_elem_of_fmap. pose proof (SendingWorker.s_win _ _ (ci_s _ _ _ H)) as Hv.
  rewrite list.Forall_forall in Hv. apply Hv, valid_number in Hs. lia.
Qed.

Lemma good_roundTrip c rt : cinv ms mr c → is_u32 (rto rt) → good c (set_roundTrip c rt).
Proof. intros H Hr. split; [by apply cinv_roundTrip|]. split; [by split_and!|]. split; [|done]. split; [done|auto]. Qed.

Lemma process_ack_good c current seg :
  cinv ms mr c → Forall is_u32 (as_NumberList seg) → (∀ n, 0 ≤ n < as_ReceivingNext seg → P n) →
  Forall P (as_NumberList seg) →
  ∃ sw rt, SendingWorker.ProcessSegment (c_sending c) (c_roundTrip c) current seg
    (Timeout (c_roundTrip c)) = Ok (sw, rt) ∧ sinv ms sw ∧ is_u32 (rto rt) ∧
    ∀ n, n ∈ unacked c → n ∈ unacked (set_sending c sw) ∨ P n.
Proof.
  intros H Hu Hlow Hlist. destruct (SendingWorker.closed (c_sending c)) eqn:Ec.
  { eexists _, _. unfold SendingWorker.ProcessSegment. rewrite Ec. split; [done|].
    split; [apply H|]. split; [apply H|]. auto. }
  destruct (SendingWorker.ProcessSegment_sinv ms (c_sending c) (c_roundTrip c) current seg
    (Timeout (c_roundTrip c)) (ci_s _ _ _ H) Ec Hu) as (sw & rt & E & Hs & _ & N).
  exists sw, rt. split; [done|]. split; [done|]. split.
  - eapply SendingWorker.ProcessSegment_rto; [exact E|apply H].
  - intros n Hn. cbn. rewrite N. rewrite list.Forall_forall in Hlist.
    destruct (decide (n < as_ReceivingNext seg)).
    { right. apply Hlow. split; [by eapply unacked_nonneg|done]. }
    destruct (decide (n ∈ as_NumberList seg)); [by right; apply Hlist|].
    left. by apply list_elem_of_filter.
Qed.

Lemma good_receiving c rw :
  cinv ms mr c → rinv mr rw → ReceivingWorker.nextNumber rw = ReceivingWorker.nextNumber (c_receiving c) →
  ReceivingWorker.leftOver rw = ReceivingWorker.leftOver (c_receiving c) →
  (∀ n, held (c_receiving c) n → held rw n) → good c (set_receiving c rw).
Proof.
  intros H Hr En El Hh. assert (later c (set_receiving c rw)) by (apply later_worker; [lia|done]).
  split; [by apply cinv_receiving|]. split; [done|]. split; [|by split]. split; [done|auto].
Qed.

Lemma good_sending c sw :
  cinv ms mr c → sinv ms sw →
  (∀ n, n ∈ unacked c → n ∈ unacked (set_sending c sw) ∨ P n) → good c (set_sending c sw).
Proof.
  intros H Hs Hn. split; [by apply cinv_sending|]. split; [by split_and!|]. split; [|done]. split; [done|auto].
Qed.

Lemma input_segment_good c current now seg :
  cinv ms mr c → claims seg → ∃ c', input_segment c current now seg = Ok c' ∧ good c c'.
Proof.
  intros H Hseg. destruct seg as [seg|seg|seg]; cbn [input_segment claims] in *.
  - pose proof (HandleOption_good c now (ds_Option seg) H) as G.
    set (c1 := HandleOption c now (ds_Option seg)) in *. pose proof G as (H1 & _).
    destruct (ReceivingWorker.ProcessSegment_rinv mr (c_receiving c1) seg (ci_r _ _ _ H1) Hseg)
      as (rw & -> & Hr & En & _ & El & Hh & _). cbn [mbind go_bind]. eexists. split; [done|].
    eapply good_trans; [exact G|]. pose proof (good_receiving c1 rw H1 Hr En El Hh) as G2.
    eapply good_trans; [exact G2|]. destruct G2 as (H2 & _).
    destruct (ReceivingWorker.IsDataAvailable _); [|by apply good_emit].
    eapply good_trans; [by apply (good_emit _ [EvDataInput])|]. apply good_emit; [by apply cinv_emit|done].
  - pose proof (HandleOption_good c now (as_Option seg) H) as G.
    set (c1 := HandleOption c now (as_Option seg)) in *. pose proof G as (H1 & _).
    destruct Hseg as (Hu & Hlow & Hlist).
    assert (∃ sw rt, SendingWorker.ProcessSegment (c_sending c1) (c_roundTrip c1) current seg
      (Timeout (c_roundTrip c1)) = Ok (sw, rt) ∧ sinv ms sw ∧ is_u32 (rto rt) ∧
      ∀ n, n ∈ unacked c1 → n ∈ unacked (set_sending c1 sw) ∨ P n) as (sw & rt & -> & Hs & Hrt & Hn).
    { by apply process_ack_good. }
    cbn [mbind go_bind]. eexists. split; [done|]. eapply good_trans; [exact G|].
    pose proof (good_sending c1 sw H1 Hs Hn) as G2. eapply good_trans; [exact G2|]. destruct G2 as (H2 & _).
    eapply good_trans; [by apply (good_roundTrip _ rt)|]. apply good_emit; [by apply cinv_roundTrip|done].
  - pose proof (HandleOption_good c now (cs_Option seg) H) as G.
    set (c1 := HandleOption c now (cs_Option seg)) in *. pose proof G as (H1 & _).
    destruct Hseg as (Hrto & Hlow).
    set (c2 := if decide (cs_Cmd seg = CommandTerminate) then OnTerminate c1 now else c1).
    assert (good c1 c2) as G2 by (unfold c2; case_decide; [by apply OnTerminate_good|by apply good_refl]).
    set (c3 := if decide (_ ∨ _) then emit c2 _ else c2). pose proof G2 as (H2 & _).
    assert (good c2 c3) as G3 by (unfold c3; case_decide; [by apply good_emit|by apply good_refl]).
    pose proof G3 as (H3 & _). clearbody c1 c2 c3.
    destruct (SendingWorker.ProcessReceivingNext_sinv ms (c_sending c3) (cs_ReceivingNext seg) (ci_s _ _ _ H3))
      as (sw & -> & Hs & _ & N). cbn [mbind go_bind].
    assert (good c3 (set_sending c3 sw)) as G4.
    { apply good_sending; [done|done|]. intros n Hn. cbn. rewrite N.
      destruct (decide (n < cs_ReceivingNext seg)) as [|Hlt].
      - right. apply Hlow. split; [by eapply unacked_nonneg|done].
      - left. apply list_elem_of_filter. done. }
    pose proof G4 as (H4 & _).
    destruct (ReceivingWorker.ProcessSendingNext_rinv mr (c_receiving (set_sending c3 sw)) (cs_SendingNext seg)
      (ci_r _ _ _ H4)) as (l & -> & Hr). cbn [mbind go_bind].
    pose proof (good_receiving (set_sending c3 sw) _ H4 Hr eq_refl eq_refl (λ n Hn, Hn)) as G5.
    eexists. split; [done|]. eapply good_trans; [exact G|]. eapply good_trans; [exact G2|].
    eapply good_trans; [exact G3|]. eapply good_trans; [exact G4|]. eapply good_trans; [exact G5|].
    destruct G5 as (H5 & _). apply good_roundTrip; [done|].
    unfold UpdatePeerRTO. case_decide; [apply H5|done].
Qed.

Lemma input_loop_good current now segs : ∀ c,
  cinv ms mr c → Forall claims segs → ∃ c', input_loop c current now segs = Ok c' ∧ good c c'.
Proof.
  induction segs as [|seg segs IH]; intros c H Hs; cbn [input_loop].
  { exists c. split; [done|by apply good_refl]. }
  apply Forall_cons_1 in Hs as [Hseg Hs].
  case_decide; [exists c; split; [done|by apply good_refl]|].
  destruct (input_segment_good c current now seg H Hseg) as (c1 & -> & G). pose proof G as (H1 & _).
  destruct (IH c1 H1 Hs) as (c2 & E & G2). exists c2. split; [done|]. eapply good_trans; [exact G|exact G2].
Qed.

Lemma Input_good c current now segs :
  cinv ms mr c → Forall claims segs → ∃ c', Input c current now segs = Ok c' ∧ good c c'.
Proof.
  intros H Hs. assert (good c (set_incoming c current)) as G by (by apply good_same).
  pose proof G as (H1 & _). destruct (input_loop_good current now segs _ H1 Hs) as (c' & E & G').
  exists c'. split; [done|]. eapply good_trans; [exact G|exact G'].
Qed.

Lemma Ping_good c current cmd :
  cinv ms mr c → cmd = CommandPing ∨ cmd = CommandTerminate → good c (Ping c current cmd).
Proof.
  intros H Hcmd. unfold Ping. set (seg := mkCmd _ _ _ _ _ _).
  pose proof (SendingWorker.s_first _ _ (ci_s _ _ _ H)). pose proof (SendingWorker.s_len _ _ (ci_s _ _ _ H)).
  pose proof (ReceivingWorker.r_next _ _ (ci_r _ _ _ H)). pose proof (ReceivingWorker.r_len _ _ (ci_r _ _ _ H)).
  assert (Hok : ok_seg ms c (SegCmd seg)).
  { split; [|split; [done|cbn; lia]]. unfold wf_segment, wf_cmd, is_u8, is_u32. cbn.
    unfold Timeout, SendingWorker.FirstUnacknowledged, CommandPing, CommandTerminate, CommandACK, CommandData,
      SegmentOptionClose in *. pose proof (ci_rto _ _ _ H) as Hr. unfold is_u32 in Hr.
    split; [apply H|]. case_decide; lia. }
  eapply good_trans; [apply (good_emit c [EvOut (SegCmd seg)] H); by apply Forall_singleton|].
  apply good_same; [|done|done]. apply cinv_emit; [by apply Forall_singleton|done].
Qed.

Lemma flush_receiving_good c current : cinv ms mr c → good c (flush_receiving c current).
Proof.
  intros H. unfold flush_receiving. destruct (ReceivingWorker.Flush _ _ _ _ _) as [rw out] eqn:E.
  apply (ReceivingWorker.Flush_rinv mr) in E as ((l & ->) & Hr & Ho); [|apply H|apply H].
  pose proof (good_receiving c _ H Hr eq_refl eq_refl (λ n Hn, Hn)) as G.
  eapply good_trans; [exact G|]. apply good_emit; [apply G|]. rewrite outs_fmap. apply Forall_fmap.
  eapply list.Forall_impl; [exact Ho|]. intros s (Hw & Hc & Hn & Hh). split; [done|]. split; [done|].
  cbn. split; [by rewrite Hn|done].
Qed.

Lemma flush_sending_good c current :
  cinv ms mr c → is_u32 current → ∃ c', flush_sending c current = Ok c' ∧ good c c'.
Proof.
  intros H Hcu. unfold flush_sending.
  destruct (SendingWorker.Flush_sinv ms (c_config c) (c_conv c) (c_state c) (c_roundTrip c) (c_sending c) current)
    as (sw & out & upd & -> & Hs & _ & N & _ & Ho & _); [apply H|apply H|done|apply H|].
  cbn [mbind go_bind]. eexists. split; [done|].
  assert (good c (set_sending c sw)) as G.
  { apply good_sending; [done|done|]. intros n Hn. left. cbn. by rewrite N. }
  assert (good c (emit (set_sending c sw) (EvOut ∘ SegData <$> out))) as G2.
  { eapply good_trans; [exact G|]. apply good_emit; [apply G|]. rewrite outs_fmap. apply Forall_fmap.
    eapply list.Forall_impl; [exact Ho|]. intros s (Hv & Hc & _). pose proof Hv as [? _]. by split. }
  destruct upd; [|done]. eapply good_trans; [exact G2|]. apply Ping_good; [apply G2|by left].
Qed.

Lemma flush_idle_good c current now : cinv ms mr c → good c (flush_idle c current now).
Proof.
  intros H. unfold flush_idle. set (c1 := if decide (c_state c = StateActive ∧ _) then _ else c).
  assert (good c c1) as G by (unfold c1; case_decide; [by apply Close_good|by apply good_refl]).
  eapply good_trans; [exact G|]. destruct G as (H1 & _).
  case_decide as Hd; [|by apply good_refl]. apply SetState_good; [done|]. destruct Hd as [-> _]. auto with kcp.
Qed.

Lemma flush_late_good c current now : cinv ms mr c → good c (flush_late c current now).
Proof.
  intros H. unfold flush_late. set (c1 := if decide (c_state c = StatePeerTerminating ∧ _) then _ else c).
  assert (good c c1) as G.
  { unfold c1. case_decide as Hd; [|by apply good_refl]. apply SetState_good; [done|].
    destruct Hd as [-> _]. auto with kcp. }
  eapply good_trans; [exact G|]. destruct G as (H1 & _).
  case_decide as Hd; [|by apply good_refl]. apply SetState_good; [done|]. destruct Hd as [-> _]. auto with kcp.
Qed.

Lemma flush_good c current now :
  cinv ms mr c → is_u32 current → ∃ c', flush c current now = Ok c' ∧ good c c'.
Proof.
  intros H Hcu. unfold flush. destruct (decide (c_state c = StateTerminated)).
  { exists c. split; [done|by apply good_refl]. }
  pose proof (flush_idle_good c current now H) as G1. pose proof G1 as (H1 & _).
  destruct (decide (c_state (flush_idle c current now) = StateTerminating)) as [Et|Et].
  - pose proof (Ping_good _ current CommandTerminate H1 (or_intror eq_refl)) as G2.
    eexists. split; [done|]. eapply good_trans; [exact G1|]. eapply good_trans; [exact G2|].
    destruct (decide (_ > 8000)); [|by apply good_refl, G2].
    apply SetState_good; [apply G2|]. cbn. rewrite Et. auto with kcp.
  - pose proof (flush_late_good _ current now H1) as G2. pose proof G2 as (H2 & _).
    pose proof (flush_receiving_good _ current H2) as G3. pose proof G3 as (H3 & _).
    destruct (flush_sending_good _ current H3 Hcu) as (c4 & -> & G4). cbn [mbind go_bind].
    eexists. split; [done|]. eapply good_trans; [exact G1|]. eapply good_trans; [exact G2|].
    eapply good_trans; [exact G3|]. eapply good_trans; [exact G4|].
    destruct (decide (3000 ≤ _)); [|by apply good_refl, G4]. apply Ping_good; [apply G4|by left].
Qed.

(** *** Reads *)

(** A read: the invariant, the growth, and the stream with the bytes read. *)
Definition good_read (c c' : Connection) (d got : list byte) : Prop :=
  cinv ms mr c' ∧ later c c' ∧ retains c c' ∧ c_state c' = c_state c ∧
  stream mr (c_receiving c') (d ++ got).

Lemma read_worker_good c rw d got evs :
  cinv ms mr c → rinv mr rw →
  ReceivingWorker.nextNumber (c_receiving c) ≤ ReceivingWorker.nextNumber rw →
  (∀ n, held (c_receiving c) n → held rw n) → stream mr rw (d ++ got) → outs evs = [] →
  good_read c (emit (set_receiving c rw) evs) d got.
Proof.
  intros H Hr Hn Hh Hs Ho. assert (later c (set_receiving c rw)) as Hl by (by apply later_worker).
  split; [apply cinv_emit; [by rewrite Ho|by apply cinv_receiving]|].
  split; [done|]. split; [split; [done|auto]|]. done.
Qed.

Lemma good_read_refl c d : cinv ms mr c → stream mr (c_receiving c) d → good_read c c d [].
Proof. intros H Hs. split; [done|]. split; [done|]. split; [done|]. split; [done|]. by rewrite app_nil_r. Qed.

Lemma emit_nil c : emit c [] = c.
Proof. destruct c. unfold emit. cbn. by rewrite app_nil_r. Qed.

Lemma Conn_Read_good c n d :
  cinv ms mr c → 0 ≤ n → stream mr (c_receiving c) d →
  ∃ c' r, Conn_Read c n = Ok (c', r) ∧
    good_read c c' d (match r with ReadData got => got | _ => [] end).
Proof.
  intros H Hn Hs. unfold Conn_Read. destruct (Is _ _).
  { exists c, ReadEOF. split; [done|]. by apply good_read_refl. }
  destruct (ReceivingWorker.Read_rinv mr (c_receiving c) d n) as (rw & got & -> & Hr & Hs' & _ & _ & Hnx & Hh);
    [apply H|done|done|]. cbn [mbind go_bind]. case_decide as Hg.
  - eexists _, (ReadData got). split; [done|]. by apply read_worker_good.
  - assert (got = []) as -> by (apply len_0_nil; pose proof (len_nonneg got); lia).
    eexists _, ReadWait. split; [done|]. rewrite <- (emit_nil (set_receiving c rw)). by apply read_worker_good.
Qed.

Lemma Conn_ReadMultiBuffer_good c d c' r :
  cinv ms mr c → stream mr (c_receiving c) d → Conn_ReadMultiBuffer c = (c', r) →
  good_read c c' d (match r with ReadData mb => MultiBuffer.mcontent mb | _ => [] end).
Proof.
  intros H Hs. unfold Conn_ReadMultiBuffer. destruct (Is _ _).
  { intros [= <- <-]. by apply good_read_refl. }
  destruct (ReceivingWorker.ReadMultiBuffer (c_receiving c)) as [rw mb] eqn:E.
  apply (ReceivingWorker.ReadMultiBuffer_rinv mr _ d) in E as (Hr & Hs' & Hb & _ & _ & Hnx & Hh & _);
    [|apply H|done].
  destruct (negb (MultiBuffer.IsEmpty mb)) eqn:Em.
  { intros [= <- <-]. by apply read_worker_good. }
  apply negb_false_iff, MultiBuffer.IsEmpty_spec in Em; [|done]. rewrite Em in Hs'.
  case_decide; intros [= <- <-]; rewrite <- (emit_nil (set_receiving c rw));
    by apply read_worker_good.
Qed.

End handlers.

(** *** Writes *)

Lemma read_chunk data mss :
  0 < mss → ∃ b, Buffer.ReadFrom (Buffer.New []) (limit_read data mss)
    = Ok (b, len (take (Z.to_nat (Z.min Buffer.Size mss)) data),
          match data with [] => Some EOF | _ => None end) ∧
    Buffer.wf b ∧ Buffer.content b = take (Z.to_nat (Z.min Buffer.Size mss)) data.
Proof.
  intros Hm. pose proof (Buffer.wf_New []) as Hw. unfold Buffer.ReadFrom.
  assert (Ha : len (Buffer.arr (Buffer.New [])) = Buffer.Size) by (vm_compute; reflexivity).
  change (Buffer.end_ (Buffer.New [])) with 0. rewrite Ha, Z.sub_0_r.
  rewrite decide_True by (unfold Buffer.Size; lia). unfold limit_read.
  set (chunk := take (Z.to_nat (Z.min Buffer.Size mss)) data).
  assert (Hl : len chunk ≤ Buffer.Size) by (unfold chunk, Buffer.Size; len_lia).
  pose proof (len_nonneg chunk). rewrite copy_at_take by (rewrite Ha; unfold Buffer.Size; lia).
  rewrite Ha, Z.sub_0_r. rewrite (take_ge chunk) by (unfold len in Hl; lia).
  destruct (Buffer.append_window (Buffer.New []) chunk
    (Buffer.set_window (Buffer.set_arr (Buffer.New []) (copy_at (Buffer.arr (Buffer.New [])) 0 chunk).1)
       0 (i32 (0 + i32 (len chunk))))) as (Hb & Hc & _); [done|..].
  - unfold Buffer.room. rewrite Ha. change (Buffer.end_ (Buffer.New [])) with 0. lia.
  - assert (i32 (0 + i32 (len chunk)) = 0 + len chunk) as ->; [|reflexivity].
    unfold Buffer.Size in Hl. rewrite (i32_small (len chunk)) by (unfold is_i32; lia).
    apply i32_small. unfold is_i32. lia.
  - eexists. split; [reflexivity|]. split; [exact Hb|].
    etransitivity; [exact Hc|]. by rewrite Buffer.content_New.
Qed.

Definition pending (b : option Buffer.t) : list byte := from_option Buffer.content [] b.
Definition left_pending (r : WriteResult) : list byte :=
  match r with WriteFull b => Buffer.content b | _ => [] end.
Definition ok_buffer (b : Buffer.t) : Prop := Buffer.wf b ∧ len (Buffer.content b) ≤ Buffer.Size.

(** A push at the level of the connection. *)
Lemma push_cinv ms mr c b sw :
  cinv ms mr c → ok_buffer b → len ms + 1 < 2147483648 → SendingWorker.Push (c_sending c) b = (sw, true) →
  cinv (ms ++ [Buffer.content b]) mr (set_sending c sw) ∧
  ds_Number <$> SendingWindow.cache (SendingWorker.window sw)
  = (ds_Number <$> SendingWindow.cache (SendingWorker.window (c_sending c))) ++ [len ms].
Proof.
  intros H [Hw Hl] Hm E.
  destruct (SendingWorker.Push_sinv ms (c_sending c) b sw (ci_s _ _ _ H) Hw Hl Hm E) as (Hs & _ & _ & N & _).
  split; [|done]. split; try apply H; [done|]. eapply list.Forall_impl; [apply (ci_log _ _ _ H)|].
  intros s (? & ? & Hs'). split; [done|]. split; [done|]. destruct s; try done. by apply valid_mono.
Qed.

Lemma Push_false w b w' : SendingWorker.Push w b = (w', false) → w' = w.
Proof.
  unfold SendingWorker.Push. destruct (SendingWorker.closed w); [by intros [= <-]|].
  case_decide; [by intros [= <-]|done].
Qed.

Abbreviation unacked c := (ds_Number <$> SendingWindow.cache (SendingWorker.window (c_sending c))).

(** What the write loop leaves behind, with [new] payloads pushed. *)
Record wrote (mr ms : list (list byte)) (c : Connection) (b : option Buffer.t) (data : list byte)
    (sw : SendingWorker.t) (r : WriteResult) (rest : list byte) (new : list (list byte)) : Prop := {
  wr_cinv : cinv (ms ++ new) mr (set_sending c sw);
  wr_unacked n : n ∈ unacked c ∨ len ms ≤ n < len (ms ++ new) → n ∈ unacked (set_sending c sw);
  wr_active : c_state c = StateActive → r ≠ WriteClosed ∧ r ≠ WriteFuel ∧ (r = WriteDone → rest = []) ∧
    pending b ++ data = concat new ++ left_pending r ++ rest;
  wr_sizes : Forall (λ m, len m ≤ Buffer.Size ∧ (b = None → 0 < len m ≤ c_mss c) ∧ (len (pending b) ≤ c_mss c → len m ≤ c_mss c)) new
}.

Lemma wrote_nothing mr ms c b data r rest :
  cinv ms mr c →
  (c_state c = StateActive → r ≠ WriteClosed ∧ r ≠ WriteFuel ∧ (r = WriteDone → rest = []) ∧
    pending b ++ data = left_pending r ++ rest) →
  wrote mr ms c b data (c_sending c) r rest [].
Proof.
  intros H Ha. assert (set_sending c (c_sending c) = c) as E by (by destruct c).
  split; [rewrite E, app_nil_r; done| |done|apply Forall_nil_2].
  rewrite app_nil_r, E. intros n [|]; [done|lia].
Qed.

Lemma wrote_push mr ms c b data b1 d1 sw sw2 r rest new :
  cinv ms mr c → ok_buffer b1 → (b = None → 0 < len (Buffer.content b1) ≤ c_mss c) → (len (pending b) ≤ c_mss c → len (Buffer.content b1) ≤ c_mss c) →
  len ms + 1 < 2147483648 → c_state c = StateActive → pending b ++ data = Buffer.content b1 ++ d1 →
  SendingWorker.Push (c_sending c) b1 = (sw, true) →
  wrote mr (ms ++ [Buffer.content b1]) (set_sending c sw) None d1 sw2 r rest new →
  wrote mr ms c b data sw2 r rest (Buffer.content b1 :: new).
Proof.
  intros H Hb Hsz Hsz' Hm Ha Ed Ep [W1 W2 W3 W4]. destruct (push_cinv ms mr c b1 sw H Hb Hm Ep) as [H1 N1].
  rewrite <- app_assoc in W1, W2. cbn [app] in W1, W2. split.
  - exact W1.
  - intros n Hn. apply W2. cbn [c_sending set_sending]. rewrite N1, elem_of_app, list_elem_of_singleton.
    destruct Hn as [|Hn]; [by left; left|]. rewrite len_snoc.
    destruct (decide (n = len ms)); [by left; right|]. right. lia.
  - intros _. destruct (W3 Ha) as (? & ? & ? & E). split_and!; try done. cbn [concat pending] in *.
    rewrite Ed. cbn in E. rewrite E. by rewrite app_assoc.
  - apply Forall_cons_2; [split; [apply Hb|done]|]. eapply list.Forall_impl; [exact W4|].
    cbn. intros m (? & Hx & _). specialize (Hx eq_refl). split; [done|]. split; [done|]. intros _. lia.
Qed.

Lemma write_loop_good mr fuel : ∀ ms c b data pushed,
  cinv ms mr c → (∀ x, b = Some x → ok_buffer x) →
  (length data + (match b with Some _ => 1 | None => 0 end) < fuel)%nat → len ms + Z.of_nat fuel < 2147483648 →
  ∃ sw r rest new, write_loop fuel c b data pushed = Ok (set_sending c sw, r, rest, pushed ++ new) ∧
    wrote mr ms c b data sw r rest new.
Proof.
  induction fuel as [|fuel IH]; intros ms c b data pushed H Hb Hf Hm; [lia|]. cbn [write_loop].
  assert (set_sending c (c_sending c) = c) as Ec by (by destruct c).
  destruct (decide (c_state c ≠ StateActive)) as [Hna|Ha].
  { exists (c_sending c), WriteClosed, data, []. rewrite Ec, app_nil_r. split; [done|].
    by apply wrote_nothing. }
  apply dec_stable in Ha.
  assert (Hturn : ∀ b1 d1, ok_buffer b1 → (b = None → 0 < len (Buffer.content b1) ≤ c_mss c) → (len (pending b) ≤ c_mss c → len (Buffer.content b1) ≤ c_mss c) →
    pending b ++ data = Buffer.content b1 ++ d1 → (length d1 < fuel)%nat →
    ∃ sw r rest new, (let '(sw, ok) := SendingWorker.Push (c_sending c) b1 in
        if (ok : bool) then write_loop fuel (set_sending c sw) None d1 (pushed ++ [Buffer.content b1])
        else Ok (set_sending c sw, WriteFull b1, d1, pushed))
      = Ok (set_sending c sw, r, rest, pushed ++ new) ∧ wrote mr ms c b data sw r rest new).
  { intros b1 d1 Hb1 Hsz Hsz' Ed Hd1. destruct (SendingWorker.Push (c_sending c) b1) as [sw [|]] eqn:Ep.
    - destruct (push_cinv ms mr c b1 sw H Hb1) as [H1 _]; [lia|done|].
      destruct (IH (ms ++ [Buffer.content b1]) (set_sending c sw) None d1 (pushed ++ [Buffer.content b1]) H1)
        as (sw2 & r & rest & new & E & W); [done|lia|rewrite len_snoc; lia|].
      exists sw2, r, rest, (Buffer.content b1 :: new). rewrite E, <- app_assoc. split; [done|].
      eapply wrote_push; try done. lia.
    - apply Push_false in Ep as ->. exists (c_sending c), (WriteFull b1), d1, [].
      rewrite Ec, app_nil_r. split; [done|]. apply wrote_nothing; [done|]. intros _. by split_and!. }
  destruct b as [x|].
  - cbn [mbind go_bind]. apply Hturn; [by apply Hb|done|done|done|lia].
  - destruct (read_chunk data (c_mss c) (ci_mss _ _ _ H)) as (b1 & -> & Hb1 & Hc). cbn [mbind go_bind].
    rewrite to_nat_len, <- Hc. destruct data as [|y data].
    { exists (c_sending c), WriteDone, [], []. rewrite Ec, app_nil_r, drop_nil. split; [done|].
      by apply wrote_nothing. }
    pose proof (ci_mss _ _ _ H) as Hmss. unfold Buffer.Size in *.
    assert (Hlc : len (Buffer.content b1) = Z.min (Z.min 8192 (c_mss c)) (len (y :: data)))
      by (rewrite Hc; unfold len; rewrite length_take; lia).
    rewrite len_cons in Hlc. pose proof (len_nonneg data).
    assert (Hpre : Buffer.content b1 ++ drop (length (Buffer.content b1)) (y :: data) = y :: data)
      by (rewrite Hc; apply take_drop_length).
    apply Hturn; [split; [done|unfold Buffer.Size; lia]|intros _; lia|intros _; lia|done|].
    rewrite length_drop. unfold len in Hlc, Hf. cbn [length] in *. lia.
Qed.

(** *** Any handler *)

Definition handler_ok (ms mr : list (list byte)) (P : Z → Prop) (c : Connection) (h : Handler) : Prop :=
  match h with
  | HInput _ _ segs => Forall (claims mr P) segs
  | HFlush current _ => is_u32 current
  | HClose _ | HReadMultiBuffer => True
  | HTerminate => c_state c = StateTerminated
  | HRead n => 0 ≤ n
  | HWrite b data => (∀ x, b = Some x → ok_buffer x) ∧ len ms + len data + 2 < 2147483648
  end.

(** The bytes [d] are all that was read, as long as the connection is not terminated. *)
Definition delivered (mr : list (list byte)) (c : Connection) (d : list byte) : Prop :=
  d `prefix_of` concat mr ∧ (c_state c ≠ StateTerminated → stream mr (c_receiving c) d).

Record good_handle (ms mr : list (list byte)) (P : Z → Prop) (c c' : Connection)
    (d got : list byte) (pushed : list (list byte)) : Prop := {
  gh_cinv : cinv (ms ++ pushed) mr c';
  gh_later : later c c';
  gh_edge : rtc edge (c_state c) (c_state c');
  gh_unacked n : live (c_state c') → n ∈ unacked c ∨ len ms ≤ n < len (ms ++ pushed) →
    n ∈ unacked c' ∨ P n;
  gh_delivered : delivered mr c' (d ++ got)
}.

Lemma good_good_handle ms mr P c c' d :
  good ms mr P c c' → delivered mr c d → good_handle ms mr P c c' d [] [].
Proof.
  intros (H & Hl & [He Hr] & [En El]) [Hp Hd]. split; rewrite ?app_nil_r; try done.
  - intros n Hlive [|]; [auto|lia].
  - split; [done|]. intros Hnt. unfold stream in *. rewrite En, El. apply Hd. intros Ht. rewrite Ht in He.
    apply Hnt. destruct (rtc_edge_rank _ _ He) as [Hle Heq]. symmetry. apply Heq.
    destruct (c_state c'); cbn in *; lia.
Qed.

Lemma read_good_handle ms mr P c c' d got :
  good_read ms mr P c c' d got → good_handle ms mr P c c' d got [].
Proof.
  intros (H & Hl & [He Hr] & Est & Hs). split; rewrite ?app_nil_r; try done.
  - intros n Hlive [|]; [auto|lia].
  - split; [by eapply ReceivingWorker.stream_prefix|done].
Qed.

Lemma Terminate_good_handle ms mr P c d :
  cinv ms mr c → c_state c = StateTerminated → delivered mr c d →
  good_handle ms mr P c (Terminate c) d [] [].
Proof.
  intros H Ht [Hp _]. split; rewrite ?app_nil_r.
  - unfold Terminate. set (c1 := emit c _). assert (cinv ms mr c1) as H1 by (by apply cinv_emit).
    apply cinv_receiving; [| |by apply cinv_sending; [apply SendingWorker.Release_sinv, H1|]].
    + pose proof (ci_r _ _ _ H) as Hr. split; try apply Hr. apply Forall_nil_2.
    + by apply later_worker.
  - by split_and!.
  - done.
  - intros n [Hl|Hl]; cbn in Hl; congruence.
  - split; [done|]. by intros Hn.
Qed.

Lemma write_good_handle ms mr P c b data d :
  cinv ms mr c → delivered mr c d → (∀ x, b = Some x → ok_buffer x) →
  len ms + len data + 2 < 2147483648 →
  ∃ c' r rest pushed, writeMultiBufferInternal c b data = Ok (c', r, rest, pushed) ∧
    good_handle ms mr P c c' d [] pushed ∧
    ∃ sw, wrote mr ms c b data sw r rest pushed.
Proof.
  intros H [Hp Hd] Hb Hm. unfold writeMultiBufferInternal.
  destruct (write_loop_good mr (length data + 2) ms c b data [] H Hb) as (sw & r & rest & new & -> & W);
    [destruct b; lia|unfold len in *; lia|]. cbn [mbind go_bind app].
  eexists _, r, rest, new. split; [done|]. split; [|by exists sw]. destruct W as [W1 W2 _ _].
  assert (good_handle ms mr P c (set_sending c sw) d [] new) as G.
  { split; rewrite ?app_nil_r; try done. auto. }
  case_decide; [done|]. destruct G as [G1 G2 G3 G4 G5]. split; try done. by apply cinv_emit.
Qed.

Lemma delivered_refl_read ms mr P c d :
  cinv ms mr c → delivered mr c d → good_handle ms mr P c c d [] [].
Proof. intros H Hd. apply good_good_handle; [by apply good_refl|done]. Qed.

(** Any handler, on any connection that satisfies the invariant, runs to its end without
    a panic and keeps it. *)
Lemma handle_good ms mr P c h d :
  cinv ms mr c → delivered mr c d → handler_ok ms mr P c h →
  ∃ c' got pushed, handle c h = Ok (c', got, pushed) ∧ good_handle ms mr P c c' d got pushed.
Proof.
  intros H Hd Hok. destruct h as [current now segs|current now|now| |n| |b data]; cbn [handle handler_ok] in *.
  - destruct (Input_good ms mr P c current now segs H Hok) as (c' & -> & G).
    exists c', [], []. split; [done|]. by apply good_good_handle.
  - destruct (flush_good ms mr P c current now H Hok) as (c' & -> & G).
    exists c', [], []. split; [done|]. by apply good_good_handle.
  - eexists _, [], []. split; [done|]. apply good_good_handle; [by apply Close_good|done].
  - eexists _, [], []. split; [done|]. by apply Terminate_good_handle.
  - destruct (decide (c_state c = StateTerminated)) as [Et|Et].
    { unfold Conn_Read. rewrite Et. cbn. eexists _, [], []. split; [done|]. by apply delivered_refl_read. }
    destruct (Conn_Read_good ms mr P c n d H Hok) as (c' & r & -> & G); [by apply Hd|].
    cbn [mbind go_bind]. eexists _, _, []. split; [done|]. by apply read_good_handle.
  - destruct (decide (c_state c = StateTerminated)) as [Et|Et].
    { unfold Conn_ReadMultiBuffer. rewrite Et. cbn. eexists _, [], []. split; [done|].
      by apply delivered_refl_read. }
    destruct (Conn_ReadMultiBuffer c) as [c' r] eqn:E. eexists _, _, []. split; [done|].
    apply read_good_handle. eapply Conn_ReadMultiBuffer_good; [done|by apply Hd|done].
  - destruct Hok as [Hb Hm].
    destruct (write_good_handle ms mr P c b data d H Hd Hb Hm) as (c' & r & rest & pushed & -> & G & _).
    cbn [mbind go_bind]. by eexists _, [], pushed.
Qed.

(** *** A new connection *)

Lemma new_connection_cinv conv cfg mr :
  is_u16 conv → usable_config cfg → is_u32 (Mtu cfg) → len mr ≤ 2147483648 →
  ∃ c, NewConnection conv cfg = Ok c ∧ cinv [] mr c ∧ delivered mr c [] ∧
    c_state c = StateActive ∧ unacked c = [] ∧ c_conv c = conv.
Proof.
  intros Hc Hu Hmtu Hm. unfold NewConnection.
  destruct (receiving_in_flight cfg Hu) as (n & En & _).
  destruct (ReceivingWorker.NewReceivingWorker cfg (Mtu cfg -32 DataSegmentOverhead)) as [rw| |] eqn:Er;
    [|by unfold ReceivingWorker.NewReceivingWorker in Er; rewrite En in Er..].
  destruct (ReceivingWorker.new_worker_rinv mr cfg _ rw Hm Hu Er) as [Hr Hs].
  destruct (SendingWorker.new_worker_sinv cfg Hu) as (sw & -> & Hsw & _ & Hempty & _).
  cbn [mbind go_bind]. eexists. split; [done|]. split.
  - split; cbn; try done. destruct Hu as (? & _).
    unfold DataSegmentOverhead, is_u32 in *. rewrite u32_small; unfold is_u32; lia.
  - split; [split; [apply prefix_nil|done]|]. split; [done|]. split; [|done]. cbn. by rewrite Hempty.
Qed.

(** ** What the invariant gives *)

(** No handler of a connection panics. On a connection that satisfies the invariant,
    whatever segments arrive (as long as the peer numbers its own payloads), whatever the
    clock says, and whatever the application calls, the handler returns, and the invariant
    holds afterwards. *)
Theorem conn_handlers_total ms mr c h d :
  cinv ms mr c → delivered mr c d → handler_ok ms mr (λ _, True) c h →
  ∃ c' got pushed, handle c h = Ok (c', got, pushed) ∧ cinv (ms ++ pushed) mr c' ∧
    delivered mr c' (d ++ got).
Proof.
  intros H Hd Hok. destruct (handle_good ms mr (λ _, True) c h d H Hd Hok)
    as (c' & got & pushed & E & [G1 _ _ _ G5]). by exists c', got, pushed.
Qed.

(** A write loses, repeats and reorders nothing. On an active connection
    [writeMultiBufferInternal] cuts the data into payloads of at least one byte and at most
    the segment size, pushes them in order, and ends either done, with everything pushed,
    or full, with the refused chunk and the unread rest following what was pushed; its
    loop never runs out of turns. *)
Lemma conn_write_chunks ms mr c data :
  cinv ms mr c → delivered mr c [] → c_state c = StateActive → len ms + len data + 2 < 2147483648 →
  ∃ c' r rest pushed, writeMultiBufferInternal c None data = Ok (c', r, rest, pushed) ∧
    Forall (λ m, 0 < len m ≤ Z.min (c_mss c) Buffer.Size) pushed ∧
    match r with
    | WriteDone => concat pushed = data
    | WriteFull b => concat pushed ++ Buffer.content b ++ rest = data
    | _ => False
    end ∧ cinv (ms ++ pushed) mr c'.
Proof.
  intros H Hd Ha Hm. destruct (write_good_handle ms mr (λ _, True) c None data [] H Hd)
    as (c' & r & rest & pushed & E & G & sw & [_ _ W3 W4]); [done|done|].
  exists c', r, rest, pushed. split; [done|]. destruct (W3 Ha) as (Hr1 & Hr2 & Hr3 & Eq). cbn in Eq.
  split.
  - eapply list.Forall_impl; [exact W4|]. cbn. intros m (? & Hx & _). specialize (Hx eq_refl). lia.
  - split; [|apply G]. destruct r; try done. rewrite Hr3 in Eq by done. cbn in Eq. by rewrite app_nil_r in Eq.
Qed.

(** *** Termination of a connection by its own clock

    Here the clock stands still during a flush; where it does not, a connection may be terminated
    sooner ([late_clock_terminates]). *)

(** Where a connection is and since when. *)
Abbreviation at_state c := (c_state c, c_stateBeginTime c).

Lemma SetState_at c now st : at_state (SetState c now st) = (st, now st).
Proof. by destruct st. Qed.

Lemma flush_sending_at c current c' : flush_sending c current = Ok c' → at_state c' = at_state c.
Proof.
  unfold flush_sending. intros ([[sw out] upd] & _ & <-%Ok_inj)%go_bind_ok. by destruct upd.
Qed.

Lemma flush_receiving_at c current : at_state (flush_receiving c current) = at_state c.
Proof. unfold flush_receiving. by destruct (ReceivingWorker.Flush _ _ _ _ _). Qed.

(** What [flush] does to the state, when it does not end in the terminating branch. *)
Lemma flush_at ms mr c current :
  cinv ms mr c → is_u32 current → c_state c ≠ StateTerminated →
  ∃ c', flush c current (λ _, current) = Ok c' ∧ cinv ms mr c' ∧
    at_state c' =
      (if decide (c_state (flush_idle c current (λ _, current)) = StateTerminating) then
         if decide (current -32 c_stateBeginTime (flush_idle c current (λ _, current)) > 8000)
         then (StateTerminated, current) else at_state (flush_idle c current (λ _, current))
       else at_state (flush_late (flush_idle c current (λ _, current)) current (λ _, current))).
Proof.
  intros H Hcu Ht. destruct (flush_good ms mr (λ _, True) c current (λ _, current) H Hcu) as (c' & E & H' & _).
  exists c'. split; [done|]. split; [done|]. revert E. unfold flush. rewrite decide_False by done.
  destruct (decide (c_state (flush_idle c current (λ _, current)) = StateTerminating)).
  - intros <-%Ok_inj. cbn [c_stateBeginTime Ping set_ping emit].
    destruct (decide (_ > 8000)); [by rewrite SetState_at|done].
  - intros (c1 & E1%flush_sending_at & <-%Ok_inj)%go_bind_ok. rewrite flush_receiving_at in E1.
    rewrite <- E1. by destruct (decide (3000 ≤ _)).
Qed.

Lemma sub32_self a : a -32 a = 0.
Proof. by rewrite Z.sub_diag. Qed.

Lemma flush_late_at c current :
  at_state (flush_late c current (λ _, current)) =
    match c_state c with
    | StatePeerTerminating =>
        if decide (current -32 c_stateBeginTime c > 4000) then (StateTerminating, current) else at_state c
    | StateReadyToClose =>
        if decide (current -32 c_stateBeginTime c > 15000) then (StateTerminating, current) else at_state c
    | _ => at_state c
    end.
Proof.
  unfold flush_late. set (c1 := if decide (c_state c = StatePeerTerminating ∧ _) then _ else c).
  assert (E1 : at_state c1 = if decide (c_state c = StatePeerTerminating ∧ current -32 c_stateBeginTime c > 4000)
    then (StateTerminating, current) else at_state c) by (unfold c1; case_decide; [apply SetState_at|done]).
  clearbody c1. destruct (decide (c_state c1 = StateReadyToClose ∧ _)) as [[Hr Ht]|Hn].
  - rewrite SetState_at. destruct (decide (c_state c = StatePeerTerminating ∧ _)); injection E1 as E1 E2; [congruence|].
    rewrite <- E1, Hr, <- E2. by rewrite decide_True.
  - rewrite E1. destruct (decide (c_state c = StatePeerTerminating ∧ _)) as [[-> ?]|Hd].
    + by rewrite decide_True.
    + injection E1 as E1 E2. rewrite E1, E2 in Hn. destruct (c_state c); try done; rewrite decide_False; auto.
Qed.

Lemma flush_idle_active c current :
  c_state c = StateActive → 30000 ≤ current -32 c_lastIncomingTime c →
  at_state (flush_idle c current (λ _, current)) = (StateReadyToClose, current) ∨
  at_state (flush_idle c current (λ _, current)) = (StateTerminating, current).
Proof.
  intros Ha Hs. unfold flush_idle. rewrite (decide_True (P := c_state c = StateActive ∧ _)) by done.
  unfold Close. cbn [c_state emit]. rewrite Ha. cbn [fst].
  destruct (decide (_ ∧ _)); [right; apply SetState_at|left; apply SetState_at].
Qed.

Lemma flush_idle_other c current :
  c_state c ≠ StateActive →
  at_state (flush_idle c current (λ _, current)) = at_state c ∨
  c_state c = StateReadyToClose ∧ at_state (flush_idle c current (λ _, current)) = (StateTerminating, current).
Proof.
  intros Ha. unfold flush_idle. rewrite (decide_False (P := c_state c = StateActive ∧ _)) by tauto.
  destruct (decide (_ ∧ _)) as [[? _]|]; [|by left]. right. split; [done|apply SetState_at].
Qed.

Ltac at_cases Hat :=
  repeat case_decide; first [lia | congruence | injection Hat as -> ->; auto].

(** The first flush after thirty seconds of silence starts the closing. *)
Lemma flush_silent ms mr c t0 :
  cinv ms mr c → is_u32 t0 → c_state c = StateActive → 30000 ≤ t0 -32 c_lastIncomingTime c →
  ∃ c', flush c t0 (λ _, t0) = Ok c' ∧ cinv ms mr c' ∧ c_stateBeginTime c' = t0 ∧
    (c_state c' = StateReadyToClose ∨ c_state c' = StateTerminating).
Proof.
  intros H Hcu Ha Hs. destruct (flush_at ms mr c t0 H Hcu) as (c' & E & H' & Hat); [by rewrite Ha|].
  exists c'. split; [done|]. split; [done|]. rewrite flush_late_at in Hat.
  destruct (flush_idle_active c t0 Ha Hs) as [Hi|Hi]; rewrite Hi in Hat; injection Hi as Hi1 Hi2;
    rewrite Hi1, Hi2, sub32_self in Hat; at_cases Hat.
Qed.

(** Fifteen seconds later the connection is terminating or gone. *)
Lemma flush_closing ms mr c t1 :
  cinv ms mr c → is_u32 t1 →
  c_state c = StateReadyToClose ∨ c_state c = StatePeerTerminating ∨ c_state c = StateTerminating →
  t1 -32 c_stateBeginTime c > 15000 →
  ∃ c', flush c t1 (λ _, t1) = Ok c' ∧ cinv ms mr c' ∧
    (c_state c' = StateTerminated ∨ c_state c' = StateTerminating ∧ c_stateBeginTime c' = t1).
Proof.
  intros H Hcu Hst Ht. destruct (flush_at ms mr c t1 H Hcu) as (c' & E & H' & Hat);
    [by destruct Hst as [->|[->| ->]]|].
  exists c'. split; [done|]. split; [done|]. rewrite flush_late_at in Hat.
  destruct (flush_idle_other c t1) as [Hi|[_ Hi]]; [by destruct Hst as [->|[->| ->]]|..];
    rewrite Hi in Hat; injection Hi as Hi1 Hi2; rewrite Hi1, Hi2 in Hat.
  - destruct Hst as [Hst|[Hst|Hst]]; rewrite Hst in Hat; cbn in Hat; at_cases Hat.
  - rewrite sub32_self in Hat. at_cases Hat.
Qed.

Lemma flush_terminating ms mr c t2 :
  cinv ms mr c → is_u32 t2 →
  c_state c = StateTerminated ∨ c_state c = StateTerminating ∧ t2 -32 c_stateBeginTime c > 8000 →
  ∃ c', flush c t2 (λ _, t2) = Ok c' ∧ c_state c' = StateTerminated.
Proof.
  intros H Hcu [Ht|[Ht Hb]].
  { exists c. unfold flush. by rewrite decide_True. }
  destruct (flush_at ms mr c t2 H Hcu) as (c' & E & _ & Hat); [by rewrite Ht|].
  exists c'. split; [done|].
  destruct (flush_idle_other c t2) as [Hi|[? _]]; [by rewrite Ht| |congruence].
  rewrite Hi in Hat. injection Hi as Hi1 Hi2. rewrite Hi1, Hi2, Ht in Hat.
  rewrite (decide_True (P := StateTerminating = StateTerminating)) in Hat by done.
  rewrite decide_True in Hat by done. by injection Hat.
Qed.

(** A connection whose peer fell silent ends by itself. When nothing arrived for
    thirty seconds, the flush of that time closes an active connection, and two more
    flushes, one at least fifteen seconds later and one eight seconds after that, bring it
    to the terminated state, also when the send window never empties. *)
Lemma silent_peer_terminates ms mr c t0 t1 t2 :
  cinv ms mr c → is_u32 t0 → is_u32 t1 → is_u32 t2 → c_state c = StateActive →
  30000 ≤ t0 -32 c_lastIncomingTime c → t1 -32 t0 > 15000 → t2 -32 t1 > 8000 →
  ∃ c1 c2 c3, flush c t0 (λ _, t0) = Ok c1 ∧ flush c1 t1 (λ _, t1) = Ok c2 ∧ flush c2 t2 (λ _, t2) = Ok c3 ∧
    c_state c3 = StateTerminated.
Proof.
  intros H H0 H1 H2 Ha Hs Ht1 Ht2. destruct (flush_silent ms mr c t0 H H0 Ha Hs) as (c1 & E1 & I1 & B1 & S1).
  destruct (flush_closing ms mr c1 t1 I1 H1) as (c2 & E2 & I2 & S2); [tauto|by rewrite B1|].
  destruct (flush_terminating ms mr c2 t2 I2 H2) as (c3 & E3 & S3).
  { destruct S2 as [|[? B2]]; [by left|]. right. by rewrite B2. }
  by exists c1, c2, c3.
Qed.

(** A connection that is closing, on this side or by the peer's terminate command,
    is terminated after two flushes: one more than fifteen seconds into its state and one
    more than eight seconds later. *)
Lemma closing_connection_terminates ms mr c t1 t2 :
  cinv ms mr c → is_u32 t1 → is_u32 t2 →
  c_state c = StateReadyToClose ∨ c_state c = StatePeerTerminating ∨ c_state c = StateTerminating →
  t1 -32 c_stateBeginTime c > 15000 → t2 -32 t1 > 8000 →
  ∃ c1 c2, flush c t1 (λ _, t1) = Ok c1 ∧ flush c1 t2 (λ _, t2) = Ok c2 ∧ c_state c2 = StateTerminated.
Proof.
  intros H H1 H2 Hst Ht1 Ht2.
  destruct (flush_closing ms mr c t1 H H1 Hst Ht1) as (c1 & E1 & I1 & S1).
  destruct (flush_terminating ms mr c1 t2 I1 H2) as (c2 & E2 & S2).
  { destruct S1 as [|[? B1]]; [by left|]. right. by rewrite B1. }
  by exists c1, c2.
Qed.

(** ** Witnesses *)

Lemma sample_conn_cinv mr : len mr ≤ 2147483648 → cinv [] mr sample_conn ∧ delivered mr sample_conn [].
Proof.
  intros Hm. destruct (new_connection_cinv 7 default_config mr) as (c & E & H & Hd & _);
    [unfold is_u16; lia|apply default_usable|unfold is_u32; cbn; lia|done|].
  rewrite sample_conn_new in E. injection E as <-. done.
Qed.

Lemma conn_handlers_total_witness :
  ∃ c' got pushed, handle sample_conn (HFlush 100 (λ _, 100)) = Ok (c', got, pushed).
Proof.
  destruct (sample_conn_cinv []) as [H Hd]; [vm_compute; discriminate|].
  destruct (conn_handlers_total [] [] sample_conn (HFlush 100 (λ _, 100)) [] H Hd) as (c' & got & pushed & E & _).
  - cbn. unfold is_u32. lia.
  - exists c', got, pushed. exact E.
Defined.

Lemma conn_write_chunks_witness :
  ∃ c' r rest pushed, writeMultiBufferInternal sample_conn None [x61; x62; x63] = Ok (c', r, rest, pushed)
    ∧ Forall (λ m, 0 < len m ≤ Z.min (c_mss sample_conn) Buffer.Size) pushed.
Proof.
  destruct (sample_conn_cinv []) as [H Hd]; [vm_compute; discriminate|].
  destruct (conn_write_chunks [] [] sample_conn [x61; x62; x63] H Hd) as (c' & r & rest & pushed & E & Hf & _).
  - reflexivity.
  - vm_compute. reflexivity.
  - exists c', r, rest, pushed. split; [exact E|exact Hf].
Defined.

Lemma silent_peer_terminates_witness :
  ∃ c1 c2 c3, flush sample_conn 30000 (λ _, 30000) = Ok c1 ∧ flush c1 46000 (λ _, 46000) = Ok c2 ∧ flush c2 55000 (λ _, 55000) = Ok c3 ∧
    c_state c3 = StateTerminated.
Proof.
  destruct (sample_conn_cinv []) as [H _]; [vm_compute; discriminate|].
  apply (silent_peer_terminates [] [] sample_conn 30000 46000 55000 H);
    first [unfold is_u32; lia | reflexivity | vm_compute; first [discriminate | reflexivity]].
Defined.

Lemma closing_connection_terminates_witness :
  ∃ c1 c2, flush (Close sample_conn (λ _, 10)).1 16000 (λ _, 16000) = Ok c1 ∧ flush c1 25000 (λ _, 25000) = Ok c2 ∧
    c_state c2 = StateTerminated.
Proof.
  destruct (sample_conn_cinv []) as [H _]; [vm_compute; discriminate|].
  destruct (Close_good [] [] (λ _, True) sample_conn (λ _, 10) H) as (Hc & _).
  apply (closing_connection_terminates [] [] (Close sample_conn (λ _, 10)).1 16000 25000 Hc);
    first [unfold is_u32; lia | by left | vm_compute; reflexivity].
Defined.
