(* ===== verification/KcpReliable.v ===== *)
(** * Reliable delivery over an unreliable network

    Two mKCP connections and the network between them. Every packet a connection ever
    wrote may be delivered to the other at any time, any number of times, in any order,
    or never; it travels as bytes, written by the sender's segment writer and read by the
    receiver's packet reader. Between deliveries either side may flush at any clock value,
    write, read, close, and run the termination its state machine started. The theorems
    say what survives all of that. *)

From S2P Require Import Prelude Net Buf KcpSegment KcpCommon KcpReceiving KcpSending KcpConn KcpInvariant.

Import ReceivingWorker (rinv, held, stream).
Import SendingWorker (sinv).

(** ** The system *)

(** What a side may do by itself. Its pushes stay below 2^31 segments. *)
Definition local_ok (ms : list (list byte)) (me : Connection) (h : Handler) : Prop :=
  match h with
  | HInput _ _ _ => False
  | HFlush current _ => is_u32 current
  | HClose _ | HReadMultiBuffer => True
  | HTerminate => c_state me = StateTerminated
  | HRead n => 0 ≤ n
  | HWrite b data => (∀ x, b = Some x → ok_buffer x) ∧ len ms + len data + 2 < 2147483648
  end.

(** One turn of a side: it takes a packet of the peer or acts by itself. [ms] are the
    payloads it pushed, [got] the bytes its application read. *)
Inductive turn (me peer : Connection) (ms : list (list byte)) (got : list byte)
    : Connection → list (list byte) → list byte → Prop :=
| turn_receive seg bs segs current now me' g p :
    seg ∈ outs (c_events peer) → Serialize seg = Ok bs → KCPPacketReader_Read bs = Ok segs →
    handle me (HInput current now segs) = Ok (me', g, p) →
    turn me peer ms got me' (ms ++ p) (got ++ g)
| turn_local h me' g p :
    local_ok ms me h → handle me h = Ok (me', g, p) →
    turn me peer ms got me' (ms ++ p) (got ++ g).

Record Sys := mkSys {
  sideA : Connection;
  sideB : Connection;
  pushedA : list (list byte);
  pushedB : list (list byte);
  gotA : list byte;
  gotB : list byte
}.

Inductive step : Sys → Sys → Prop :=
| step_A s a ms got :
    turn (sideA s) (sideB s) (pushedA s) (gotA s) a ms got →
    step s (mkSys a (sideB s) ms (pushedB s) got (gotB s))
| step_B s b ms got :
    turn (sideB s) (sideA s) (pushedB s) (gotB s) b ms got →
    step s (mkSys (sideA s) b (pushedA s) ms (gotA s) got).

(** Two new connections of one conversation. *)
Definition init (conv : Z) (cfgA cfgB : Config) (s : Sys) : Prop :=
  NewConnection conv cfgA = Ok (sideA s) ∧ NewConnection conv cfgB = Ok (sideB s) ∧
  pushedA s = [] ∧ pushedB s = [] ∧ gotA s = [] ∧ gotB s = [].

Definition reachable (conv : Z) (cfgA cfgB : Config) (s : Sys) : Prop :=
  ∃ s0, init conv cfgA cfgB s0 ∧ rtc step s0 s.

(** ** The invariant *)

Definition side_inv (me peer : Connection) (ms mp : list (list byte)) (got : list byte) : Prop :=
  cinv ms mp me ∧ delivered mp me got ∧
  (live (c_state me) → ∀ n, 0 ≤ n < len ms → n ∈ unacked me ∨ held (c_receiving peer) n).

Definition sys_inv (s : Sys) : Prop :=
  side_inv (sideA s) (sideB s) (pushedA s) (pushedB s) (gotA s) ∧
  side_inv (sideB s) (sideA s) (pushedB s) (pushedA s) (gotB s).

(** What comes out of the network is what went in. *)
Lemma network_claims mp ms peer seg bs segs :
  cinv mp ms peer → seg ∈ outs (c_events peer) → Serialize seg = Ok bs →
  KCPPacketReader_Read bs = Ok segs → Forall (claims mp (held (c_receiving peer))) segs.
Proof.
  intros H Hin Es Er. pose proof (ci_log _ _ _ H) as Hlog. rewrite list.Forall_forall in Hlog.
  destruct (Hlog seg Hin) as (Hwf & _ & Hok).
  eapply list.Forall_impl; [by eapply packet_read|]. intros seg' Hw.
  destruct seg as [s|s|s], seg' as [t|t|t]; try done; cbn [wire_eq claims] in *.
  - destruct Hw as (_ & _ & _ & Hn & _ & Hp & Ht). destruct Hok as [_ Hok]. split; [done|].
    by rewrite <- Hn, <- Hp.
  - destruct Hw as (_ & _ & _ & Hn & _ & Hl). destruct Hok as [Hle Hh]. rewrite <- Hn, <- Hl.
    split_and!; [by apply Hwf| |done]. intros n Hlt. left. lia.
  - subst t. split; [apply Hwf|]. intros n Hlt. left. lia.
Qed.

Lemma cinv_mono ms mr more c :
  len (mr ++ more) ≤ 2147483648 → cinv ms mr c → cinv ms (mr ++ more) c.
Proof. intros Hl H. split; try apply H. apply ReceivingWorker.rinv_mono; [done|apply H]. Qed.

Lemma delivered_mono mr more c d :
  rinv mr (c_receiving c) → delivered mr c d → delivered (mr ++ more) c d.
Proof.
  intros Hr [Hp Hs]. split.
  - rewrite concat_app. by apply prefix_app_r.
  - intros Hn. apply ReceivingWorker.stream_mono; [done|auto].
Qed.

Lemma turn_good me peer ms mp got gotp me' ms' got' :
  side_inv me peer ms mp got → side_inv peer me mp ms gotp → turn me peer ms got me' ms' got' →
  ∃ g p, ms' = ms ++ p ∧ got' = got ++ g ∧ good_handle ms mp (held (c_receiving peer)) me me' got g p.
Proof.
  intros (H & Hd & _) (Hp & _) Ht. destruct Ht as [seg bs segs current now me' g p Hin Es Er E|h me' g p Hok E].
  - assert (handler_ok ms mp (held (c_receiving peer)) me (HInput current now segs)) as Hok by (by eapply network_claims).
    destruct (handle_good ms mp _ me _ got H Hd Hok) as (c & g' & p' & E' & G). rewrite E in E'. injection E' as <- <- <-. by exists g, p.
  - assert (handler_ok ms mp (held (c_receiving peer)) me h) as Hok' by (by destruct h).
    destruct (handle_good ms mp _ me _ got H Hd Hok') as (c & g' & p' & E' & G). rewrite E in E'. injection E' as <- <- <-. by exists g, p.
Qed.

(** A turn keeps the invariant of both sides. *)
Lemma turn_inv me peer ms mp got gotp me' ms' got' :
  side_inv me peer ms mp got → side_inv peer me mp ms gotp → turn me peer ms got me' ms' got' →
  side_inv me' peer ms' mp got' ∧ side_inv peer me' mp ms' gotp.
Proof.
  intros HI HIp Ht. destruct (turn_good _ _ _ _ _ _ _ _ _ HI HIp Ht) as (g & p & -> & -> & G). destruct HI as (H & Hd & Hlive), HIp as (Hp & Hdp & Hlivep).
  destruct G as [G1 G2 G3 G4 G5]. pose proof (SendingWorker.s_len _ _ (ci_s _ _ _ G1)) as Hlen.
  split.
  - split; [done|]. split; [done|]. intros Hl n Hn.
    destruct (decide (n < len ms)).
    + destruct (Hlive (live_back _ _ G3 Hl) n) as [Hin|Hin]; [lia|by apply G4; [|left]|by right].
    + apply G4; [done|]. right. lia.
  - split; [apply cinv_mono; [lia|done]|]. split; [by apply delivered_mono; [apply Hp|]|].
    intros Hl n Hn. destruct (Hlivep Hl n Hn) as [|Hh]; [by left|]. right. by apply G2.
Qed.

Lemma step_inv s s' : sys_inv s → step s s' → sys_inv s'.
Proof.
  intros [HA HB] Hst. destruct Hst as [s a ms got Ht|s b ms got Ht].
  - destruct (turn_inv _ _ _ _ _ _ _ _ _ HA HB Ht). by split.
  - destruct (turn_inv _ _ _ _ _ _ _ _ _ HB HA Ht). by split.
Qed.

Section reachable.
Context (conv : Z) (cfgA cfgB : Config).
Context (Hconv : is_u16 conv) (HA : usable_config cfgA) (HB : usable_config cfgB).
Context (HmA : is_u32 (Mtu cfgA)) (HmB : is_u32 (Mtu cfgB)).

Lemma init_inv s : init conv cfgA cfgB s → sys_inv s.
Proof.
  intros (EA & EB & E1 & E2 & E3 & E4).
  destruct (new_connection_cinv conv cfgA [] Hconv HA HmA) as (a & Ea & Ia & Da & _); [vm_compute; discriminate|].
  destruct (new_connection_cinv conv cfgB [] Hconv HB HmB) as (b & Eb & Ib & Db & _); [vm_compute; discriminate|].
  rewrite Ea in EA. rewrite Eb in EB. injection EA as ->. injection EB as ->.
  unfold sys_inv, side_inv. rewrite E1, E2, E3, E4. split_and!; try done;
    intros _ n Hn; unfold len in Hn; cbn in Hn; lia.
Qed.

Lemma reachable_inv s : reachable conv cfgA cfgB s → sys_inv s.
Proof.
  intros (s0 & H0%init_inv & Hr). induction Hr as [|s1 s2 s3 Hst _ IH]; [done|].
  apply IH. by eapply step_inv.
Qed.

(** C1: Two mKCP connections over a network that loses, repeats, delays and reorders
    packets deliver a faithful stream: whatever happened, the bytes each application read
    are a prefix of the bytes the other application wrote, with nothing missing, repeated,
    reordered or altered inside it. *)
Theorem kcp_stream_prefix s :
  reachable conv cfgA cfgB s →
  gotB s `prefix_of` concat (pushedA s) ∧ gotA s `prefix_of` concat (pushedB s).
Proof. intros Hr. destruct (reachable_inv s Hr) as [(_ & [? _] & _) (_ & [? _] & _)]. done. Qed.

(** C2: No segment is forgotten: as long as a side has not been told to stop by its peer
    and has not started terminating, every payload it pushed is still in its sending window,
    to be sent again, or has reached the peer's receiving worker. In particular, when the
    sending window is empty, which is when a closing connection starts to terminate,
    everything has arrived. *)
Theorem kcp_no_loss s :
  reachable conv cfgA cfgB s → live (c_state (sideA s)) →
  (∀ n, 0 ≤ n < len (pushedA s) → n ∈ unacked (sideA s) ∨ held (c_receiving (sideB s)) n) ∧
  (SendingWorker.IsEmpty (c_sending (sideA s)) = true →
   ∀ n, 0 ≤ n < len (pushedA s) → held (c_receiving (sideB s)) n).
Proof.
  intros Hr Hl. destruct (reachable_inv s Hr) as [(_ & _ & Hlive) _]. split; [by apply Hlive|].
  intros He n Hn. apply SendingWindow.IsEmpty_true in He.
  destruct (Hlive Hl n Hn) as [Hin|]; [|done]. rewrite He in Hin. by apply elem_of_nil in Hin.
Qed.

(** The segment size of a side. *)
Lemma reachable_mss s : reachable conv cfgA cfgB s → c_mss (sideA s) = Mtu cfgA -32 DataSegmentOverhead.
Proof.
  intros (s0 & H0 & Hr). pose proof (init_inv s0 H0) as Hi. assert (Hm : c_mss (sideA s0) = Mtu cfgA -32 DataSegmentOverhead).
  { destruct H0 as (E & _). unfold NewConnection in E. apply go_bind_ok in E as (rw & _ & E). apply go_bind_ok in E as (sw & _ & [= <-]). done. }
  clear H0. induction Hr as [|s1 s2 s3 Hst _ IH]; [done|]. apply IH; [by eapply step_inv|]. destruct Hi as [HA' HB']. destruct Hst as [s1 a ms got Ht|s1 b ms got Ht]; [|done].
  destruct (turn_good _ _ _ _ _ _ _ _ _ HA' HB' Ht) as (g & p & _ & _ & [_ (_ & _ & Hmss & _) _ _ _]). cbn. by rewrite Hmss.
Qed.

(** What a read gave the application. *)
Definition read_bytes (r : ReadResult MultiBuffer.mbuf) : list byte := match r with ReadData mb => MultiBuffer.mcontent mb | _ => [] end.
(** The connection can be read: it was not closed on this side and is not terminating. *)
Definition readable (c : Connection) : Prop := Is (c_state c) [StateReadyToClose; StateTerminating; StateTerminated] = false.

Lemma readable_live c : readable c → c_state c ≠ StateTerminated.
Proof. unfold readable. by destruct (c_state c). Qed.

(** One read with nothing left over of an earlier one. *)
Lemma read_completes s : reachable conv cfgA cfgB s → live (c_state (sideA s)) → SendingWorker.IsEmpty (c_sending (sideA s)) = true →
  readable (sideB s) → ReceivingWorker.leftOver (c_receiving (sideB s)) = None →
  gotB s ++ read_bytes (Conn_ReadMultiBuffer (sideB s)).2 = concat (pushedA s).
Proof.
  intros Hr Hl He Hread Hlo. destruct (ReceivingWorker.ReadMultiBuffer (c_receiving (sideB s))) as [rw mb] eqn:Em.
  destruct (reachable_inv s Hr) as [(_ & _ & Hlive) (HB' & [_ Hd] & _)].
  apply SendingWindow.IsEmpty_true in He. specialize (Hd (readable_live _ Hread)).
  destruct (ReceivingWorker.ReadMultiBuffer_rinv _ _ _ _ _ (ci_r _ _ _ HB') Hd Em)
    as (Hr' & Hs & Hbs & Hlo' & _ & _ & Hh & Hav). specialize (Hav Hlo).
  assert (ReceivingWorker.nextNumber rw = len (pushedA s)) as En.
  { pose proof (ReceivingWorker.r_next _ _ Hr') as Hn.
    destruct (decide (ReceivingWorker.nextNumber rw = len (pushedA s))); [done|]. exfalso.
    destruct (Hlive Hl (ReceivingWorker.nextNumber rw)) as [Hin|Hin]; [lia| |].
    - rewrite He in Hin. by apply elem_of_nil in Hin.
    - apply Hh in Hin as [|Hin]; [lia|]. unfold ReceivingWorker.IsDataAvailable, ReceivingWindow.Has in Hav.
      by apply bool_decide_eq_false in Hav. }
  unfold stream in Hs. rewrite Hlo' in Hs. cbn in Hs. rewrite app_nil_r in Hs. rewrite En, (take_ge (pushedA s)) in Hs by len_lia.
  unfold Conn_ReadMultiBuffer. rewrite Hread, Em. destruct (negb (MultiBuffer.IsEmpty mb)) eqn:Ene; [exact Hs|].
  apply negb_false_iff, MultiBuffer.IsEmpty_spec in Ene; [|done]. rewrite Ene in Hs. by case_decide.
Qed.

(** C3: what was written arrives. Let a sender that has not started to terminate and was not told to stop
    by its peer have an empty sending window, and let the peer's application have neither closed its
    connection nor seen it terminate. Then two calls of the peer's [ReadMultiBuffer] complete the stream,
    and one call does where the last read left nothing over: the application then has exactly the bytes
    written. *)
Theorem kcp_delivery_complete s :
  reachable conv cfgA cfgB s → live (c_state (sideA s)) →
  SendingWorker.IsEmpty (c_sending (sideA s)) = true → readable (sideB s) →
  let '(c1, r1) := Conn_ReadMultiBuffer (sideB s) in
  let '(c2, r2) := Conn_ReadMultiBuffer c1 in
  gotB s ++ read_bytes r1 ++ read_bytes r2 = concat (pushedA s) ∧
  (ReceivingWorker.leftOver (c_receiving (sideB s)) = None → gotB s ++ read_bytes r1 = concat (pushedA s)).
Proof.
  intros Hr Hl He Hread. destruct (Conn_ReadMultiBuffer (sideB s)) as [c1 r1] eqn:E1. destruct (Conn_ReadMultiBuffer c1) as [c2 r2] eqn:E2.
  assert (Hs1 : reachable conv cfgA cfgB (mkSys (sideA s) c1 (pushedA s) (pushedB s ++ []) (gotA s) (gotB s ++ read_bytes r1))).
  { destruct Hr as (s0 & H0 & Hr). exists s0. split; [done|]. eapply rtc_r; [exact Hr|]. apply step_B. apply turn_local with (h := HReadMultiBuffer); [done|]. cbn [handle]. by rewrite E1. }
  assert (Hst : c_state c1 = c_state (sideB s) ∧ ReceivingWorker.leftOver (c_receiving c1) = None).
  { unfold Conn_ReadMultiBuffer in E1. rewrite Hread in E1. destruct (ReceivingWorker.ReadMultiBuffer (c_receiving (sideB s))) as [rw mb] eqn:Em.
    assert (Hlo : ReceivingWorker.leftOver rw = None) by (unfold ReceivingWorker.ReadMultiBuffer in Em; destruct (ReceivingWorker.leftOver _); [by injection Em as <- _|]; destruct (ReceivingWorker.read_loop _ _ _ _) as [[win next] mb']; by injection Em as <- _).
    destruct (negb _); [by injection E1 as <- _|]. case_decide; by injection E1 as <- _. }
  destruct Hst as [Hst Hlo]. split.
  - assert (Hread1 : readable c1) by (unfold readable; by rewrite Hst). pose proof (read_completes _ Hs1 Hl He Hread1 Hlo) as Hc. cbn [gotB sideB pushedA] in Hc. rewrite E2 in Hc. cbn in Hc. by rewrite app_assoc.
  - intros Hn. pose proof (read_completes s Hr Hl He Hread Hn) as Hc. by rewrite E1 in Hc.
Qed.

(** The segments a connection has to write go through the segment writer, whatever its buffer held. *)
Definition writable (c : Connection) : Prop := ∀ seg buffer,
  seg ∈ outs (c_events c) → Buffer.wf buffer → len (Buffer.arr buffer) = Buffer.Size →
  ∃ r, SimpleSegmentWriter_Write buffer seg = Ok r.
Definition short (mss : Z) (ms : list (list byte)) : Prop := Forall (λ m, len m ≤ mss) ms.

Lemma cinv_writable ms mr c : cinv ms mr c → short (c_mss c) ms → c_mss c + DataSegmentOverhead ≤ Buffer.Size → writable c.
Proof.
  intros H Hsz Hm seg buffer Hin Hb Ha. pose proof (ci_log _ _ _ H) as Hlog. rewrite list.Forall_forall in Hlog. destruct (Hlog seg Hin) as (Hwf & _ & Hok).
  destruct (SimpleSegmentWriter_Write_spec buffer seg Hb Hwf) as (b' & bs & E & _); [|by eexists]. rewrite Ha. unfold Buffer.Size, DataSegmentOverhead in *. destruct seg as [d|a|x]; cbn [ByteSize wf_segment] in *.
  - destruct Hwf as (_ & _ & _ & _ & _ & p & Hp & Hw & Hl). destruct Hok as [_ Hok]. pose proof (Forall_lookup_1 _ _ _ _ Hsz Hok) as Hlen. cbn in Hlen. unfold payload_bytes in Hlen. rewrite Hp in Hlen.
    unfold DataSegment_ByteSize, payload_Len. rewrite Hp, Buffer.Len_wf by done. pose proof (len_nonneg (Buffer.content p)). rewrite i32_small by (unfold is_i32; lia). lia.
  - destruct Hwf as (_ & _ & _ & _ & _ & _ & Hl). pose proof (len_nonneg (as_NumberList a)). unfold AckSegment_ByteSize. rewrite (i32_small (len _ * 4)), i32_small by (unfold is_i32; lia). lia.
  - unfold CmdOnlySegment_ByteSize. lia.
Qed.

(** A write goes on with the buffer that a push refused, of at most a segment. *)
Definition refused_fits (me : Connection) (h : Handler) : Prop := match h with HWrite (Some x) _ => len (Buffer.content x) ≤ c_mss me | _ => True end.

Lemma handle_short ms mr c h c' got pushed d : cinv ms mr c → delivered mr c d → local_ok ms c h → refused_fits c h → handle c h = Ok (c', got, pushed) → short (c_mss c) pushed.
Proof.
  intros H Hd Hok Hf E. destruct h as [current now segs|current now|now| |n| |b data]; cbn [handle] in E.
  - done.
  - apply go_bind_ok in E as (? & _ & [= _ _ <-]). apply Forall_nil_2.
  - injection E as _ _ <-. apply Forall_nil_2.
  - injection E as _ _ <-. apply Forall_nil_2.
  - apply go_bind_ok in E as ([? ?] & _ & [= _ _ <-]). apply Forall_nil_2.
  - destruct (Conn_ReadMultiBuffer c). injection E as _ _ <-. apply Forall_nil_2.
  - destruct Hok as [Hb Hm]. destruct (write_good_handle ms mr (λ _, True) c b data d H Hd Hb Hm) as (c2 & r & rest & p & E2 & _ & sw & [_ _ _ W4]). rewrite E2 in E. cbn [mbind go_bind] in E. injection E as _ _ <-.
    eapply list.Forall_impl; [exact W4|]. intros m (_ & _ & Hx). apply Hx. destruct b as [x|]; [done|]. cbn. pose proof (ci_mss _ _ _ H). change (len []) with 0. lia.
Qed.

(** C14: no packet and no call can crash a side whose Mtu is at most the size of a buffer. In every
    reachable state in which the payloads pushed were of at most a segment, any packet the peer wrote,
    delivered at any clock values, and any call the application may make, is handled without a panic; the
    payloads pushed are again of at most a segment, and every segment the connection has to write goes
    through its segment writer without a panic. *)
Theorem kcp_no_panic s :
  reachable conv cfgA cfgB s → Mtu cfgA ≤ Buffer.Size → short (c_mss (sideA s)) (pushedA s) →
  (∀ seg bs current now, seg ∈ outs (c_events (sideB s)) → Serialize seg = Ok bs →
     ∃ segs c' got, KCPPacketReader_Read bs = Ok segs ∧ handle (sideA s) (HInput current now segs) = Ok (c', got, []) ∧ writable c') ∧
  (∀ h, local_ok (pushedA s) (sideA s) h → refused_fits (sideA s) h →
     ∃ c' got pushed, handle (sideA s) h = Ok (c', got, pushed) ∧ short (c_mss c') (pushedA s ++ pushed) ∧ writable c').
Proof.
  intros Hr Hmtu Hsh. destruct (reachable_inv s Hr) as [(HA' & Hd & _) (HB' & _)]. pose proof (reachable_mss s Hr) as Hmss. unfold DataSegmentOverhead in Hmss. rewrite u32_small in Hmss by (destruct HA; unfold is_u32 in *; lia).
  assert (Hw : ∀ c' p, cinv (pushedA s ++ p) (pushedB s) c' → c_mss c' = c_mss (sideA s) → short (c_mss (sideA s)) p → short (c_mss c') (pushedA s ++ p) ∧ writable c').
  { intros c' p Hc Em Hp. assert (Hall : short (c_mss c') (pushedA s ++ p)) by (rewrite Em; by apply Forall_app_2). split; [done|]. eapply cinv_writable; [exact Hc|done|]. rewrite Em, Hmss. unfold DataSegmentOverhead. lia. }
  split.
  - intros seg bs current now Hin Es. destruct (packet_read_total bs) as [segs Er].
    destruct (handle_good _ _ (held (c_receiving (sideB s))) _ (HInput current now segs) _ HA' Hd) as (c & g & p & E & [G1 (_ & _ & Em & _) _ _ _]); [by eapply network_claims|].
    assert (p = []) as -> by (cbn [handle] in E; apply go_bind_ok in E as (? & _ & [= _ _ <-]); done). exists segs, c, g. split; [done|]. split; [done|]. apply (Hw c [] G1 Em), Forall_nil_2.
  - intros h Hok Hf. destruct (handle_good _ _ (λ _, True) _ h _ HA' Hd) as (c & g & p & E & [G1 (_ & _ & Em & _) _ _ _]); [by destruct h|].
    exists c, g, p. split; [done|]. apply (Hw c p G1 Em). by eapply handle_short.
Qed.

End reachable.

(** ** Witnesses

    A run: A writes three bytes and flushes, B receives the packet and reads, B flushes
    its acknowledgement, A receives it. *)

Definition result (c : Connection) (h : Handler) : Connection * list byte * list (list byte) :=
  match handle c h with Ok r => r | _ => (c, [], []) end.
Definition is_ok {A} (m : go A) : bool := match m with Ok _ => true | _ => false end.

Lemma result_ok c h :
  is_ok (handle c h) = true → handle c h = Ok ((result c h).1.1, (result c h).1.2, (result c h).2).
Proof. unfold result. by destruct (handle c h) as [[[? ?] ?]| |]. Qed.

(** The segments the last packet of [c] carries, and what its reader makes of it. *)
Definition last_packet (c : Connection) : Segment := default (SegCmd (mkCmd 0 3 0 0 0 0)) (list.last (outs (c_events c))).
Definition wire (s : Segment) : list byte := match Serialize s with Ok bs => bs | _ => [] end.
Definition parsed (bs : list byte) : list Segment :=
  match KCPPacketReader_Read bs with Ok ss => ss | _ => [] end.

Definition local (c : Connection) (h : Handler) : Connection := (result c h).1.1.
Definition receive (c peer : Connection) (current : Z) : Connection :=
  local c (HInput current (λ _, current) (parsed (wire (last_packet peer)))).

Definition a1 := local sample_conn (HWrite None [x61; x62; x63]).
Definition a2 := local a1 (HFlush 100 (λ _, 100)).
Definition b1 := receive sample_conn a2 50.
Definition b2 := local b1 (HRead 10).
Definition b3 := local b2 (HFlush 60 (λ _, 60)).
Definition a3 := receive a2 b3 120.

Definition final : Sys := mkSys a3 b3 [[x61; x62; x63]] [] [] [x61; x62; x63].

Lemma turn_local' me peer ms got h me' ms' got' :
  local_ok ms me h → is_ok (handle me h) = true → local me h = me' →
  ms ++ (result me h).2 = ms' → got ++ (result me h).1.2 = got' → turn me peer ms got me' ms' got'.
Proof. intros Hok Hr <- <- <-. apply turn_local with (h := h); [done|]. by apply result_ok. Qed.

Lemma turn_receive' me peer ms got current me' ms' got' :
  is_Some (list.last (outs (c_events peer))) → is_ok (Serialize (last_packet peer)) = true →
  is_ok (KCPPacketReader_Read (wire (last_packet peer))) = true →
  is_ok (handle me (HInput current (λ _, current) (parsed (wire (last_packet peer))))) = true →
  receive me peer current = me' →
  ms ++ (result me (HInput current (λ _, current) (parsed (wire (last_packet peer))))).2 = ms' →
  got ++ (result me (HInput current (λ _, current) (parsed (wire (last_packet peer))))).1.2 = got' →
  turn me peer ms got me' ms' got'.
Proof.
  intros [s Hs] H1 H2 H3 <- <- <-.
  apply turn_receive with (seg := last_packet peer) (bs := wire (last_packet peer))
    (segs := parsed (wire (last_packet peer))) (current := current) (now := λ _, current); [| | |by apply result_ok].
  - unfold last_packet. rewrite Hs. cbn. rewrite last_lookup in Hs. by eapply list_elem_of_lookup_2.
  - unfold wire. by destruct (Serialize (last_packet peer)).
  - unfold parsed. by destruct (KCPPacketReader_Read _).
Qed.

Lemma final_reachable : reachable 7 default_config default_config final.
Proof.
  exists (mkSys sample_conn sample_conn [] [] [] []). split.
  { split_and!; try done; apply sample_conn_new. }
  eapply rtc_l; [eapply step_A, (turn_local' _ _ _ _ (HWrite None [x61; x62; x63]) a1 [[x61; x62; x63]] []);
    [split; [done|vm_compute; done]|vm_compute; reflexivity..]|]. cbn.
  eapply rtc_l; [eapply step_A, (turn_local' _ _ _ _ (HFlush 100 (λ _, 100)) a2 [[x61; x62; x63]] []);
    [cbn; unfold is_u32; lia|vm_compute; reflexivity..]|]. cbn.
  eapply rtc_l; [eapply step_B, (turn_receive' _ _ _ _ 50 b1 [] []);
    [by eexists; vm_compute; reflexivity|vm_compute; reflexivity..]|]. cbn.
  eapply rtc_l; [eapply step_B, (turn_local' _ _ _ _ (HRead 10) b2 [] [x61; x62; x63]);
    [cbn; lia|vm_compute; reflexivity..]|]. cbn.
  eapply rtc_l; [eapply step_B, (turn_local' _ _ _ _ (HFlush 60 (λ _, 60)) b3 [] [x61; x62; x63]);
    [cbn; unfold is_u32; lia|vm_compute; reflexivity..]|]. cbn.
  eapply rtc_l; [eapply step_A, (turn_receive' _ _ _ _ 120 a3 [[x61; x62; x63]] []);
    [by eexists; vm_compute; reflexivity|vm_compute; reflexivity..]|]. cbn.
  apply rtc_refl.
Qed.

Lemma sample_conv : is_u16 7.
Proof. unfold is_u16. lia. Qed.
Lemma sample_mtu : is_u32 (Mtu default_config).
Proof. unfold is_u32. cbn. lia. Qed.

Lemma kcp_stream_prefix_witness :
  reachable 7 default_config default_config final ∧
  gotB final `prefix_of` concat (pushedA final) ∧ gotA final `prefix_of` concat (pushedB final).
Proof.
  split; [apply final_reachable|].
  apply (kcp_stream_prefix 7 default_config default_config sample_conv default_usable default_usable
           sample_mtu sample_mtu final final_reachable).
Defined.

Lemma kcp_no_loss_witness :
  SendingWorker.IsEmpty (c_sending (sideA final)) = true ∧ held (c_receiving (sideB final)) 0.
Proof.
  assert (SendingWorker.IsEmpty (c_sending (sideA final)) = true) as He by (vm_compute; reflexivity).
  split; [exact He|].
  refine (proj2 (kcp_no_loss 7 default_config default_config sample_conv default_usable default_usable
           sample_mtu sample_mtu final final_reachable _) He 0 _).
  - left. vm_compute. reflexivity.
  - vm_compute. split; [discriminate|reflexivity].
Defined.

Lemma kcp_delivery_complete_witness :
  gotB final ++ read_bytes (Conn_ReadMultiBuffer (sideB final)).2 = concat (pushedA final).
Proof.
  pose proof (kcp_delivery_complete 7 default_config default_config sample_conv default_usable default_usable
           sample_mtu sample_mtu final final_reachable) as H.
  destruct (Conn_ReadMultiBuffer (sideB final)) as [c1 r1], (Conn_ReadMultiBuffer c1) as [c2 r2].
  apply H; [left|..]; vm_compute; reflexivity.
Defined.

Lemma kcp_no_panic_witness : ∃ c got pushed, handle (sideA final) (HFlush 200 (λ _, 201)) = Ok (c, got, pushed) ∧ writable c.
Proof.
  destruct (kcp_no_panic 7 default_config default_config sample_conv default_usable default_usable
           sample_mtu sample_mtu final final_reachable) as [_ H]; [vm_compute; discriminate| |].
  - apply Forall_singleton. vm_compute. discriminate.
  - destruct (H (HFlush 200 (λ _, 201))) as (c & got & pushed & E & _ & Hw); [cbn; unfold is_u32; lia|exact I|]. exists c, got, pushed. split; [exact E|exact Hw].
Defined.

(** ** Segments larger than the writer's buffer *)

Definition big_payload : list byte := replicate (Z.to_nat Buffer.Size) x61.
Definition jumbo : Config := mkConfig 9000 50 5 20 1 2097152.
Definition jumbo0 : Connection :=
  match NewConnection 7 jumbo with Ok c => c | _ => sample_conn end.
Definition jumbo1 := local jumbo0 (HWrite None big_payload).
Definition jumbo2 := local jumbo1 (HFlush 100 (λ _, 100)).

(** The configuration accepts segment sizes the segment writer cannot write. A
    connection built from a configuration with an Mtu of 9000 takes a payload of 8192 bytes,
    and the first flush hands its segment writer a segment that is larger than the writer's
    8192-byte buffer, whatever that buffer held before: the write panics. *)
Lemma oversized_mtu_panics buffer :
  Buffer.wf buffer → len (Buffer.arr buffer) = Buffer.Size →
  ∃ cfg c c1 c2 seg,
    KCPConfig_Build (mkKCPConfig (Some 9000) None None None None None false) = Ok cfg ∧
    NewConnection 7 cfg = Ok c ∧
    handle c (HWrite None big_payload) = Ok (c1, [], [big_payload]) ∧
    handle c1 (HFlush 100 (λ _, 100)) = Ok (c2, [], []) ∧
    seg ∈ outs (c_events c2) ∧ SimpleSegmentWriter_Write buffer seg = Panic.
Proof.
  intros Hw Ha. exists jumbo, jumbo0, jumbo1, jumbo2, (last_packet jumbo2). split; [vm_compute; reflexivity|].
  split; [vm_compute; reflexivity|].
  split; [etransitivity; [apply (result_ok jumbo0 (HWrite None big_payload)); vm_compute; reflexivity|];
    fold jumbo1; vm_compute; reflexivity|].
  split; [etransitivity; [apply (result_ok jumbo1 (HFlush 100 (λ _, 100))); vm_compute; reflexivity|];
    fold jumbo2; vm_compute; reflexivity|].
  split.
  - unfold last_packet. destruct (list.last (outs (c_events jumbo2))) as [s|] eqn:E.
    + cbn. rewrite last_lookup in E. by eapply list_elem_of_lookup_2.
    + vm_compute in E. discriminate.
  - unfold SimpleSegmentWriter_Write, Buffer.Extend. change (Buffer.arr (Buffer.Clear buffer)) with (Buffer.arr buffer). rewrite Ha.
    assert (ByteSize (last_packet jumbo2) = 8210) as -> by (vm_compute; reflexivity).
    cbn. by rewrite decide_True.
Qed.

Lemma oversized_mtu_panics_witness :
  ∃ c2 seg, seg ∈ outs (c_events c2) ∧ SimpleSegmentWriter_Write (Buffer.New []) seg = Panic.
Proof.
  destruct (oversized_mtu_panics (Buffer.New [])) as (cfg & c & c1 & c2 & seg & _ & _ & _ & _ & Hin & Hp).
  - apply Buffer.wf_New.
  - vm_compute. reflexivity.
  - exists c2, seg. split; [exact Hin|exact Hp].
Defined.
