(* ===== verification/Pipe.v ===== *)
(** * Pipes

    Models [transport/pipe]: the buffer with back-pressure that connects the two halves of
    every proxied connection. The state and the operations under the pipe's mutex are
    functions; the loops of [ReadMultiBuffer] and [WriteMultiBuffer], with their waits on
    channels, are the transitions of two threads, a reader and a writer, interleaved with
    [Close], [Interrupt], [ReturnAnError] and [Recover] at any point. A [signal.Notifier]
    is a channel of capacity one, so a boolean; [done.Instance] is a flag that is set
    once. *)

From S2P Require Import Prelude Net Buf.

Inductive state := open | closed | errord.

#[global] Instance state_eq_dec : EqDecision state.
Proof. solve_decision. Defined.

Record pipeOption := mkOption { limit : Z; discardOverflow : bool }.

Definition isFull (o : pipeOption) (curSize : Z) : bool :=
  bool_decide (0 ≤ limit o ∧ curSize > limit o).

Record pipe := mkPipe {
  p_data : option MultiBuffer.mbuf;
  p_readSignal : bool;
  p_writeSignal : bool;
  p_done : bool;
  p_errChan : option GoError;
  p_option : pipeOption;
  p_state : state
}.

(** The options of [New]. *)
Inductive Option_ := WithoutSizeLimit | WithSizeLimit (l : Z) | DiscardOverflow.

Definition apply_opt (o : pipeOption) (opt : Option_) : pipeOption :=
  match opt with
  | WithoutSizeLimit => mkOption (-1) (discardOverflow o)
  | WithSizeLimit l => mkOption l (discardOverflow o)
  | DiscardOverflow => mkOption (limit o) true
  end.

(** [perConnection] is the buffer size of the policy of the context. *)
Definition OptionsFromContext (perConnection : Z) : list Option_ :=
  if decide (0 ≤ perConnection) then [WithSizeLimit perConnection] else [WithoutSizeLimit].

Definition New (opts : list Option_) : pipe :=
  mkPipe None false false false None (foldl apply_opt (mkOption (-1) false) opts) open.

Definition set_data (p : pipe) (d : option MultiBuffer.mbuf) : pipe :=
  mkPipe d (p_readSignal p) (p_writeSignal p) (p_done p) (p_errChan p) (p_option p) (p_state p).
Definition set_readSignal (p : pipe) (b : bool) : pipe :=
  mkPipe (p_data p) b (p_writeSignal p) (p_done p) (p_errChan p) (p_option p) (p_state p).
Definition set_writeSignal (p : pipe) (b : bool) : pipe :=
  mkPipe (p_data p) (p_readSignal p) b (p_done p) (p_errChan p) (p_option p) (p_state p).
Definition set_errChan (p : pipe) (e : option GoError) : pipe :=
  mkPipe (p_data p) (p_readSignal p) (p_writeSignal p) (p_done p) e (p_option p) (p_state p).
Definition set_state (p : pipe) (st : state) (d : bool) : pipe :=
  mkPipe (p_data p) (p_readSignal p) (p_writeSignal p) d (p_errChan p) (p_option p) st.

(** A nil multi-buffer has no buffers. *)
Definition buffers (p : pipe) : MultiBuffer.mbuf := default [] (p_data p).

Definition Len (p : pipe) : Z :=
  match p_data p with None => 0 | Some data => MultiBuffer.Len data end.

Definition getState (p : pipe) (forRead : bool) : option GoError :=
  match p_state p with
  | open =>
      if (negb forRead && isFull (p_option p) (MultiBuffer.Len (buffers p)))%bool
      then Some ErrBufferFull else None
  | closed =>
      if negb forRead then Some ErrClosedPipe
      else if negb (MultiBuffer.IsEmpty (buffers p)) then None else Some EOF
  | errord => Some ErrClosedPipe
  end.

Definition readMultiBufferInternal (p : pipe) : pipe * option MultiBuffer.mbuf * option GoError :=
  match getState p true with
  | Some err => (p, None, Some err)
  | None => (set_data p None, p_data p, None)
  end.

Definition pipe_writeMultiBufferInternal (p : pipe) (mb : MultiBuffer.mbuf) : pipe * option GoError :=
  match getState p false with
  | Some err => (p, Some err)
  | None =>
      (match p_data p with
       | None => set_data p (Some mb)
       | Some data => set_data p (Some (MultiBuffer.MergeMulti data mb).1)
       end, None)
  end.

Definition pipe_Close (p : pipe) : pipe :=
  match p_state p with
  | closed | errord => p
  | open => set_state p closed true
  end.

Definition Interrupt (p : pipe) : pipe :=
  let p :=
    if negb (MultiBuffer.IsEmpty (buffers p)) then
      let p := set_data p None in
      match p_state p with closed => set_state p errord (p_done p) | _ => p end
    else p in
  match p_state p with
  | closed | errord => p
  | open => set_state p errord true
  end.

(** [ReturnAnError] blocks while the channel of capacity one is full. *)
Definition ReturnAnError (p : pipe) (err : GoError) : option pipe :=
  match p_errChan p with Some _ => None | None => Some (set_errChan p (Some err)) end.
Definition Recover (p : pipe) : pipe * option GoError := (set_errChan p None, p_errChan p).

(** ** The threads *)

(** Where the reader is in [ReadMultiBuffer] (or [ReadMultiBufferTimeout]): not in a call, about to look, with a result
    in hand and the signal to the writer still to send, or in the [select]. *)
Inductive Reader := RIdle | RTry | RSignal (data : option MultiBuffer.mbuf) (err : option GoError) | RBlock.

(** Where the writer is in [WriteMultiBuffer]: [WSignal] has the signal to the reader still
    to send, after a success or an error. *)
Inductive Writer := WIdle | WTry (mb : MultiBuffer.mbuf) | WSignal (err : option GoError)
  | WBlock (mb : MultiBuffer.mbuf).

Record Sys := mkSys {
  s_pipe : pipe;
  s_rd : Reader;
  s_wr : Writer;
  s_accepted : list byte;   (* every byte a write put into the pipe *)
  s_got : list byte         (* every byte a read returned *)
}.

Definition content_of (d : option MultiBuffer.mbuf) : list byte := MultiBuffer.mcontent (default [] d).

(** One attempt of the reader, the body of its loop up to the [select]. *)
Definition read_try (s : Sys) : Sys :=
  let '(p, data, err) := readMultiBufferInternal (s_pipe s) in
  match data, err with
  | None, None => mkSys p RBlock (s_wr s) (s_accepted s) (s_got s)
  | _, _ => mkSys p (RSignal data err) (s_wr s) (s_accepted s) (s_got s)
  end.

(** One attempt of the writer. *)
Definition write_try (s : Sys) (mb : MultiBuffer.mbuf) : Sys :=
  let '(p, err) := pipe_writeMultiBufferInternal (s_pipe s) mb in
  match err with
  | None => mkSys p (s_rd s) (WSignal None) (s_accepted s ++ MultiBuffer.mcontent mb) (s_got s)
  | Some ErrBufferFull =>
      if discardOverflow (p_option p)
      then mkSys p (s_rd s) WIdle (s_accepted s) (s_got s)
      else mkSys p (s_rd s) (WBlock mb) (s_accepted s) (s_got s)
  | Some e => mkSys p (s_rd s) (WSignal (Some e)) (s_accepted s) (s_got s)
  end.

Inductive step : Sys → Sys → Prop :=
| read_call s : s_rd s = RIdle → step s (mkSys (s_pipe s) RTry (s_wr s) (s_accepted s) (s_got s))
| read_attempt s : s_rd s = RTry → step s (read_try s)
| read_return s data err : s_rd s = RSignal data err →
    step s (mkSys (set_writeSignal (s_pipe s) true) RIdle (s_wr s) (s_accepted s)
                  (s_got s ++ content_of data))
| read_woken s : s_rd s = RBlock → p_readSignal (s_pipe s) = true →
    step s (mkSys (set_readSignal (s_pipe s) false) RTry (s_wr s) (s_accepted s) (s_got s))
| read_done s : s_rd s = RBlock → p_done (s_pipe s) = true →
    step s (mkSys (s_pipe s) RTry (s_wr s) (s_accepted s) (s_got s))
| read_error s e : s_rd s = RBlock → p_errChan (s_pipe s) = Some e →
    step s (mkSys (set_errChan (s_pipe s) None) RIdle (s_wr s) (s_accepted s) (s_got s))
| read_timeout s : s_rd s = RBlock →
    step s (mkSys (s_pipe s) RIdle (s_wr s) (s_accepted s) (s_got s))
| write_call s mb : s_wr s = WIdle → Forall Buffer.wf mb → MultiBuffer.IsEmpty mb = false →
    step s (mkSys (s_pipe s) (s_rd s) (WTry mb) (s_accepted s) (s_got s))
| write_attempt s mb : s_wr s = WTry mb → step s (write_try s mb)
| write_return s err : s_wr s = WSignal err →
    step s (mkSys (set_readSignal (s_pipe s) true) (s_rd s) WIdle (s_accepted s) (s_got s))
| write_woken s mb : s_wr s = WBlock mb → p_writeSignal (s_pipe s) = true →
    step s (mkSys (set_writeSignal (s_pipe s) false) (s_rd s) (WTry mb) (s_accepted s) (s_got s))
| write_done s mb : s_wr s = WBlock mb → p_done (s_pipe s) = true →
    step s (mkSys (s_pipe s) (s_rd s) WIdle (s_accepted s) (s_got s))
| call_close s : step s (mkSys (pipe_Close (s_pipe s)) (s_rd s) (s_wr s) (s_accepted s) (s_got s))
| call_interrupt s : step s (mkSys (Interrupt (s_pipe s)) (s_rd s) (s_wr s) (s_accepted s) (s_got s))
| call_return_error s e p : ReturnAnError (s_pipe s) e = Some p →
    step s (mkSys p (s_rd s) (s_wr s) (s_accepted s) (s_got s))
| call_recover s :
    step s (mkSys (Recover (s_pipe s)).1 (s_rd s) (s_wr s) (s_accepted s) (s_got s)).

Definition initial (opts : list Option_) : Sys := mkSys (New opts) RIdle WIdle [] [].
Definition reachable (opts : list Option_) (s : Sys) : Prop := rtc step (initial opts) s.

(** ** The invariant *)

(** The bytes a reader took out but has not returned yet. *)
Definition in_hand (s : Sys) : list byte :=
  match s_rd s with RSignal data _ => content_of data | _ => [] end.

Record inv (s : Sys) : Prop := {
  i_wf : Forall Buffer.wf (buffers (s_pipe s));
  i_ne : ∀ d, p_data (s_pipe s) = Some d → MultiBuffer.IsEmpty d = false;
  i_writer : ∀ mb, s_wr s = WTry mb ∨ s_wr s = WBlock mb →
    Forall Buffer.wf mb ∧ MultiBuffer.IsEmpty mb = false;
  i_done : p_state (s_pipe s) ≠ open → p_done (s_pipe s) = true;
  i_flow : ∃ lost, s_got s ++ in_hand s ++ content_of (p_data (s_pipe s)) ++ lost = s_accepted s ∧
    (p_state (s_pipe s) ≠ errord → lost = []);
  i_errord : p_state (s_pipe s) = errord → p_data (s_pipe s) = None;
  i_reader_wake : s_rd s = RBlock → p_data (s_pipe s) ≠ None →
    p_readSignal (s_pipe s) = true ∨ ∃ err, s_wr s = WSignal err;
  i_writer_wake : ∀ mb, s_wr s = WBlock mb → getState (s_pipe s) false ≠ Some ErrBufferFull →
    p_writeSignal (s_pipe s) = true ∨ p_done (s_pipe s) = true ∨ ∃ d e, s_rd s = RSignal d e
}.

Lemma pipe_initial_inv opts : inv (initial opts).
Proof. split; cbn; try done; [by intros ? []|by exists []]. Qed.

Lemma content_nil d : Forall Buffer.wf (default [] d) → MultiBuffer.IsEmpty (default [] d) = true →
  content_of d = [].
Proof. intros Hw He. by apply MultiBuffer.IsEmpty_spec in He. Qed.

Lemma read_try_inv s : inv s → s_rd s = RTry → inv (read_try s).
Proof.
  intros [Hwf Hne Hwr Hdone (lost & Hflow & Hlost) Herr Hrw Hww] Hrd.
  unfold read_try, readMultiBufferInternal. destruct (getState (s_pipe s) true) as [e|] eqn:Eg.
  - split; cbn; try done; [exists lost; unfold in_hand in *; rewrite Hrd in Hflow; done|].
    intros mb Hb Hf. right. right. by eexists _, _.
  - assert (p_state (s_pipe s) ≠ errord) as Hst by (intros E; unfold getState in Eg; by rewrite E in Eg).
    specialize (Hlost Hst). subst lost. unfold in_hand in Hflow. rewrite Hrd in Hflow. cbn in Hflow.
    destruct (p_data (s_pipe s)) as [d|] eqn:Ed.
    + split; cbn; try done; [exists []; split; [|done]; by rewrite !app_nil_r in *|].
      intros mb Hb Hf. right. right. by eexists _, _.
    + split; cbn; try done; [exists []; split; [|done]; done|].
      intros mb Hb Hf. destruct (Hww mb Hb) as [?|[?|(? & ? & ?)]]; [|by left|by right; left|congruence].
      intros E. apply Hf. unfold getState, buffers in *. cbn. rewrite Ed in E. exact E.
Qed.

Lemma MergeMulti_empty d mb :
  MultiBuffer.IsEmpty mb = false → MultiBuffer.IsEmpty (MultiBuffer.MergeMulti d mb).1 = false.
Proof.
  unfold MultiBuffer.MergeMulti, MultiBuffer.IsEmpty. cbn. rewrite forallb_app. intros ->. apply andb_false_r.
Qed.

Lemma write_try_inv s mb : inv s → s_wr s = WTry mb → inv (write_try s mb).
Proof.
  intros [Hwf Hne Hwr Hdone (lost & Hflow & Hlost) Herr Hrw Hww] Hw.
  destruct (Hwr mb (or_introl Hw)) as [Hmb Hmbe].
  unfold write_try, pipe_writeMultiBufferInternal. destruct (getState (s_pipe s) false) as [e|] eqn:Eg.
  - assert (Hkeep : ∀ w, (∀ m, w = WTry m ∨ w = WBlock m → m = mb) →
      (w = WSignal (Some e) ∨ ∀ err, s_wr s ≠ WSignal err) →
      (∀ m, w = WBlock m → e = ErrBufferFull) →
      inv (mkSys (s_pipe s) (s_rd s) w (s_accepted s) (s_got s))).
    { intros w Hwm Hws Hwb. split; cbn; try done.
      - intros m Hm. by rewrite (Hwm m Hm).
      - by exists lost.
      - intros Hr Hd. destruct Hws as [->|Hws]; [right; by eexists|].
        destruct (Hrw Hr Hd) as [|(err & ?)]; [by left|]. by destruct (Hws err).
      - intros m Hm Hf. rewrite (Hwb m Hm) in Eg. done. }
    assert (∀ err, s_wr s ≠ WSignal err) as Hns by (intros err; rewrite Hw; done).
    destruct e; try (apply Hkeep; [by intros ? [|]|by left|done]).
    destruct (discardOverflow (p_option (s_pipe s))); apply Hkeep; auto; try done;
      intros m [|]; congruence.
  - assert (p_state (s_pipe s) = open) as Hst by (unfold getState in Eg; by destruct (p_state (s_pipe s))).
    assert (lost = []) as -> by (apply Hlost; by rewrite Hst).
    assert (Hgood : ∀ d, Forall Buffer.wf d → MultiBuffer.IsEmpty d = false →
      MultiBuffer.mcontent d = content_of (p_data (s_pipe s)) ++ MultiBuffer.mcontent mb →
      inv (mkSys (set_data (s_pipe s) (Some d)) (s_rd s) (WSignal None)
             (s_accepted s ++ MultiBuffer.mcontent mb) (s_got s))).
    { intros d Hd Hde Hc. split; cbn; try done.
      - by intros ? [= <-].
      - by intros m [|].
      - exists []. split; [|done]. rewrite <- Hflow. unfold in_hand, content_of in *. cbn in *.
        rewrite !app_nil_r, Hc, <- !app_assoc. done.
      - congruence.
      - intros _ _. right. by eexists. }
    destruct (p_data (s_pipe s)) as [d|] eqn:Ed; apply Hgood; try done.
    + apply Forall_app. split; [|done]. unfold buffers in Hwf. by rewrite Ed in Hwf.
    + by apply MergeMulti_empty.
    + apply MultiBuffer.mcontent_app.
Qed.

Lemma Close_inv s :
  inv s → inv (mkSys (pipe_Close (s_pipe s)) (s_rd s) (s_wr s) (s_accepted s) (s_got s)).
Proof.
  intros [Hwf Hne Hwr Hdone (lost & Hflow & Hlost) Herr Hrw Hww]. unfold pipe_Close.
  destruct (p_state (s_pipe s)) eqn:Es; split; cbn; rewrite ?Es; try done; try (by exists lost); try congruence.
  - exists lost. split; [done|]. intros _. by apply Hlost.
  - intros mb Hb _. auto.
Qed.

Lemma Interrupt_state p :
  Forall Buffer.wf (buffers p) → (p_state p ≠ open → p_done p = true) →
  let p' := Interrupt p in
  p_done p' = true ∧ p_state p' ≠ open ∧ p_readSignal p' = p_readSignal p ∧
  p_writeSignal p' = p_writeSignal p ∧ (p_state p = errord → p_state p' = errord) ∧
  (p_data p' = p_data p ∧ content_of (p_data p) = [] ∧ (p_state p' = closed → p_state p = closed) ∨
   p_data p' = None ∧ p_state p' = errord).
Proof.
  intros Hwf Hd. destruct p as [d rs ws dn ec o st]. unfold Interrupt, buffers in *.
  cbn [p_data p_state p_done] in *.
  destruct (MultiBuffer.IsEmpty (default [] d)) eqn:Ee; cbn [negb].
  - apply (content_nil d) in Ee; [|done].
    destruct st; cbn; split_and!; try done; try (by apply Hd); left; by split_and!.
  - destruct st; cbn; split_and!; try done; try (by apply Hd); by right.
Qed.

Lemma Interrupt_inv s :
  inv s → inv (mkSys (Interrupt (s_pipe s)) (s_rd s) (s_wr s) (s_accepted s) (s_got s)).
Proof.
  intros [Hwf Hne Hwr Hdone (lost & Hflow & Hlost) Herr Hrw Hww].
  destruct (Interrupt_state (s_pipe s) Hwf Hdone) as (D & S & R & W & SE & Hdata).
  set (p' := Interrupt (s_pipe s)) in *. clearbody p'.
  split; cbn; try done.
  - unfold buffers in *. destruct Hdata as [(-> & _)|(-> & _)]; [done|apply Forall_nil_2].
  - intros d. destruct Hdata as [(-> & _)|(-> & _)]; [apply Hne|done].
  - destruct Hdata as [(-> & Hc & Hst)|(-> & Hst)].
    + exists lost. split; [done|]. intros Hne'. apply Hlost. intros He. auto.
    + exists (content_of (p_data (s_pipe s)) ++ lost). split; [|congruence]. exact Hflow.
  - intros He. destruct Hdata as [(-> & Hc & Hst)|(-> & _)]; [|done].
    destruct (p_data (s_pipe s)) as [d|] eqn:Ed; [|done]. exfalso.
    specialize (Hne d eq_refl). unfold buffers in Hwf. rewrite Ed in Hwf. cbn in Hwf, Hc.
    unfold content_of in Hc. cbn in Hc. apply MultiBuffer.IsEmpty_spec in Hc; [|done]. congruence.
  - intros Hr Hd. rewrite R. apply Hrw; [done|]. by destruct Hdata as [(<- & _)|(? & _)].
  - intros mb Hb _. auto.
Qed.

(** Two pipes that differ in signals only. *)
Definition same_pipe (p p' : pipe) : Prop :=
  p_data p' = p_data p ∧ p_done p' = p_done p ∧ p_option p' = p_option p ∧ p_state p' = p_state p.

Lemma same_getState p p' r : same_pipe p p' → getState p' r = getState p r.
Proof. intros (Hd & _ & Ho & Hs). unfold getState, buffers. by rewrite Hd, Ho, Hs. Qed.

(** The reader leaves the call or goes on to look; it consumed its wake-up or none. *)
Lemma reader_move s p' r :
  inv s → (∀ d e, s_rd s ≠ RSignal d e) → r = RIdle ∨ r = RTry →
  same_pipe (s_pipe s) p' → p_writeSignal p' = p_writeSignal (s_pipe s) →
  inv (mkSys p' r (s_wr s) (s_accepted s) (s_got s)).
Proof.
  intros [Hwf Hne Hwr Hdone (lost & Hflow & Hlost) Herr Hrw Hww] Hns Hr Hp Hws.
  pose proof (same_getState _ _ false Hp) as Hg. destruct Hp as (Hd & Hdn & Ho & Hst).
  split; cbn [s_pipe s_rd s_wr s_accepted s_got]; unfold buffers in *; rewrite ?Hd, ?Hdn, ?Hst, ?Hg, ?Hws; try done.
  - exists lost. split; [|done]. rewrite <- Hflow. unfold in_hand. cbn.
    destruct (s_rd s) eqn:E; [by destruct Hr as [-> | ->]..|by destruct (Hns data err)|by destruct Hr as [-> | ->]].
  - intros E. destruct Hr; congruence.
  - intros mb Hb Hf. destruct (Hww mb Hb Hf) as [|[|(? & ? & ?)]]; [auto..|]. by destruct (Hns x x0).
Qed.

(** The writer leaves the call or tries again. *)
Lemma writer_move s p' w :
  inv s → w = WIdle ∨ (∃ mb, w = WTry mb ∧ Forall Buffer.wf mb ∧ MultiBuffer.IsEmpty mb = false) →
  same_pipe (s_pipe s) p' →
  (p_readSignal p' = p_readSignal (s_pipe s) ∧ (∀ err, s_wr s ≠ WSignal err) ∨ p_readSignal p' = true) →
  inv (mkSys p' (s_rd s) w (s_accepted s) (s_got s)).
Proof.
  intros [Hwf Hne Hwr Hdone (lost & Hflow & Hlost) Herr Hrw Hww] Hw (Hd & Hdn & Ho & Hst) Hrs.
  split; cbn [s_pipe s_rd s_wr s_accepted s_got]; unfold buffers in *; rewrite ?Hd, ?Hdn, ?Hst; try done.
  - intros m. destruct Hw as [->|(mb & -> & ? & ?)]; intros [|]; by simplify_eq.
  - by exists lost.
  - intros Hr Hn. left. destruct Hrs as [[-> Hns]|]; [|done].
    destruct (Hrw Hr Hn) as [|(err & ?)]; [done|]. by destruct (Hns err).
  - intros m Hm. destruct Hw as [->|(mb & -> & _)]; done.
Qed.

Lemma read_return_inv s data err :
  inv s → s_rd s = RSignal data err →
  inv (mkSys (set_writeSignal (s_pipe s) true) RIdle (s_wr s) (s_accepted s) (s_got s ++ content_of data)).
Proof.
  intros [Hwf Hne Hwr Hdone (lost & Hflow & Hlost) Herr Hrw Hww] Hr. split; cbn; try done; [|auto].
  exists lost. split; [|done]. rewrite <- Hflow. unfold in_hand. rewrite Hr. by rewrite <- app_assoc.
Qed.

Lemma errChan_inv s e :
  inv s → inv (mkSys (set_errChan (s_pipe s) e) (s_rd s) (s_wr s) (s_accepted s) (s_got s)).
Proof. intros [Hwf Hne Hwr Hdone (lost & Hflow & Hlost) Herr Hrw Hww]. split; try done. by exists lost. Qed.

Lemma pipe_step_inv s s' : inv s → step s s' → inv s'.
Proof.
  intros H Hst. destruct Hst as [s Hr|s Hr|s data err Hr|s Hr _|s Hr _|s e Hr _|s Hr|s mb Hw Hm He|s mb Hw
    |s err Hw|s mb Hw _|s mb Hw _|s|s|s e p Hp|s].
  - apply reader_move; auto; [by rewrite Hr|done].
  - by apply read_try_inv.
  - by eapply read_return_inv.
  - apply reader_move; auto; [by rewrite Hr|done].
  - apply reader_move; auto; [by rewrite Hr|done].
  - apply reader_move; auto; [by rewrite Hr|done].
  - apply reader_move; auto; [by rewrite Hr|done].
  - apply writer_move; eauto; [done|]. left. split; [done|]. by rewrite Hw.
  - by apply write_try_inv.
  - apply writer_move; auto. done.
  - destruct (i_writer _ H mb) as [? ?]; [by right|]. apply writer_move; eauto; [done|].
    left. split; [done|]. by rewrite Hw.
  - apply writer_move; eauto; [done|]. left. split; [done|]. by rewrite Hw.
  - by apply Close_inv.
  - by apply Interrupt_inv.
  - unfold ReturnAnError in Hp. destruct (p_errChan (s_pipe s)); [done|]. injection Hp as <-. by apply errChan_inv.
  - by apply errChan_inv.
Qed.

Lemma pipe_reachable_inv opts s : reachable opts s → inv s.
Proof.
  intros Hr. assert (∀ a b, rtc step a b → inv a → inv b) as Hx.
  { induction 1 as [|x y z Hxy _ IH]; [done|]. intros Hi. apply IH. by eapply pipe_step_inv. }
  eapply Hx; [exact Hr|apply pipe_initial_inv].
Qed.

(** C21: A pipe is a first-in first-out stream: under every interleaving of a reader and a
    writer with closing, interrupting and injected errors, the bytes reads returned are a
    prefix of the bytes writes accepted, and as long as the pipe is not in the error state
    the rest is exactly what the pipe still holds. *)
Theorem pipe_fifo opts s :
  reachable opts s →
  s_got s `prefix_of` s_accepted s ∧
  (p_state (s_pipe s) ≠ errord →
   s_got s ++ in_hand s ++ content_of (p_data (s_pipe s)) = s_accepted s).
Proof.
  intros Hr. destruct (i_flow _ (pipe_reachable_inv opts s Hr)) as (lost & Hf & Hl). split.
  - rewrite <- Hf. by eexists.
  - intros Hn. rewrite (Hl Hn), app_nil_r in Hf. done.
Qed.

(** C25: No wake-up is lost. Whenever the reader waits and there is something for it (data,
    or the end of the pipe), and whenever the writer waits and it could go on, a transition
    is enabled that wakes it, at once or after the other thread's pending signal: the pipe
    cannot stall. *)
Theorem pipe_no_lost_wakeup opts s :
  reachable opts s →
  (s_rd s = RBlock → p_data (s_pipe s) ≠ None ∨ p_state (s_pipe s) ≠ open →
   p_readSignal (s_pipe s) = true ∨ p_done (s_pipe s) = true ∨ ∃ err, s_wr s = WSignal err) ∧
  (∀ mb, s_wr s = WBlock mb → getState (s_pipe s) false ≠ Some ErrBufferFull →
   p_writeSignal (s_pipe s) = true ∨ p_done (s_pipe s) = true ∨ ∃ d e, s_rd s = RSignal d e).
Proof.
  intros Hr. pose proof (pipe_reachable_inv opts s Hr) as H. split.
  - intros Hb [Hd|Hd]; [|right; left; by apply (i_done _ H)].
    destruct (i_reader_wake _ H Hb Hd); auto.
  - apply (i_writer_wake _ H).
Qed.

(** ** Witnesses *)

Definition sample_mb : MultiBuffer.mbuf := [Buffer.FromBytes [x61; x62]].

(** A write and the read that takes it, then a reader that waits. *)
Definition sample_full : Sys := write_try (mkSys (New [WithSizeLimit 1]) RBlock (WTry sample_mb) [] []) sample_mb.
Definition sample_read : Sys :=
  read_try (mkSys (set_readSignal (set_readSignal (s_pipe sample_full) true) false) RTry WIdle
              (s_accepted sample_full) []).
Definition sample_final : Sys :=
  mkSys (set_writeSignal (s_pipe sample_read) true) RIdle WIdle (s_accepted sample_read) [x61; x62].

Lemma sample_full_reachable : reachable [WithSizeLimit 1] sample_full.
Proof.
  eapply rtc_l; [by apply read_call|]. cbn.
  eapply rtc_l; [by apply read_attempt|]. cbn.
  eapply rtc_l; [apply (write_call _ sample_mb); [done| |reflexivity]|].
  { apply Forall_singleton. by apply Buffer.wf_FromBytes. }
  cbn. eapply rtc_l; [by apply write_attempt|]. apply rtc_refl.
Qed.

Lemma sample_final_reachable : reachable [WithSizeLimit 1] sample_final.
Proof.
  unfold reachable. etransitivity; [apply sample_full_reachable|].
  eapply rtc_l; [by eapply write_return|]. cbn.
  eapply rtc_l; [by apply read_woken|]. cbn.
  eapply rtc_l; [by apply read_attempt|].
  eapply rtc_l; [by eapply read_return|]. apply rtc_refl.
Qed.

Lemma pipe_fifo_witness :
  s_got sample_final = [x61; x62] ∧ s_got sample_final `prefix_of` s_accepted sample_final.
Proof.
  split; [reflexivity|]. apply (pipe_fifo [WithSizeLimit 1] sample_final sample_final_reachable).
Defined.

Lemma pipe_no_lost_wakeup_witness :
  s_rd sample_full = RBlock ∧ p_data (s_pipe sample_full) ≠ None ∧ ∃ err, s_wr sample_full = WSignal err.
Proof.
  assert (s_rd sample_full = RBlock) as Hb by reflexivity.
  assert (p_data (s_pipe sample_full) ≠ None) as Hd by discriminate.
  split; [exact Hb|]. split; [exact Hd|].
  destruct (proj1 (pipe_no_lost_wakeup [WithSizeLimit 1] sample_full sample_full_reachable) Hb (or_introl Hd))
    as [H|[H|H]]; [discriminate H|discriminate H|exact H].
Defined.
