(* ===== verification/MuxSession.v ===== *)
(** * Mux sessions

    Models [common/mux/session.go]: the session manager of a mux connection, its sessions,
    and the table of UDP sessions that survive a reconnection (XUDP). Sessions and XUDP
    entries are shared by pointer, so they live in a store and the manager's map holds
    references; closing a session through any reference is seen through all. What a close
    does to the session's link (interrupt, close, injected error) is a list of events. *)

From S2P Require Import Prelude.

Inductive XStatus := Initializing | Active | Expiring.

#[global] Instance XStatus_eq_dec : EqDecision XStatus.
Proof. solve_decision. Defined.

Record XUDP := mkXUDP {
  x_GlobalID : list byte;
  x_Status : XStatus;
  x_Expire : Z;          (* seconds *)
  x_Mux : nat
}.

Record Session := mkSession {
  s_ID : Z;
  s_closed : bool;
  s_done : option bool;   (* nil, or whether the channel was closed *)
  s_XUDP : option nat
}.

Record SessionManager := mkManager {
  sessions : option (gmap Z nat);   (* nil after closing *)
  count : Z;
  closed : bool
}.

Inductive Event :=
| EvInterruptInput (r : nat)
| EvCloseOutput (r : nat)
| EvReturnError (r : nat)
| EvRecover (r : nat).

Record World := mkWorld {
  mgr : SessionManager;
  store : gmap nat Session;
  xudps : gmap nat XUDP;
  xmap : gmap (list byte) nat;    (* XUDPManager.Map *)
  events : list Event
}.

Record ClientStrategy := mkStrategy { MaxConcurrency : Z; MaxConnection : Z }.

Definition set_mgr (w : World) (m : SessionManager) : World :=
  mkWorld m (store w) (xudps w) (xmap w) (events w).
Definition set_session (w : World) (r : nat) (s : Session) : World :=
  mkWorld (mgr w) (<[r := s]> (store w)) (xudps w) (xmap w) (events w).
Definition set_xudp (w : World) (x : nat) (v : XUDP) : World :=
  mkWorld (mgr w) (store w) (<[x := v]> (xudps w)) (xmap w) (events w).
Definition emit (w : World) (evs : list Event) : World :=
  mkWorld (mgr w) (store w) (xudps w) (xmap w) (events w ++ evs).

Definition NewSessionManager : SessionManager := mkManager (Some ∅) 0 false.

Definition Closed (w : World) : bool := closed (mgr w).
Definition Size (w : World) : Z := Z.of_nat (size (default ∅ (sessions (mgr w)))).
Definition Count (w : World) : Z := count (mgr w).

(** Writing to a nil map panics. *)
Definition map_set (m : option (gmap Z nat)) (id : Z) (r : nat) : go (option (gmap Z nat)) :=
  match m with None => Panic | Some m => Ok (Some (<[id := r]> m)) end.

(** [Allocate]: a fresh session, or [None]. *)
Definition Allocate (w : World) (strategy : ClientStrategy) : go (World * option nat) :=
  let m := mgr w in
  let MaxConnection := u16 (MaxConnection strategy) in
  if decide (closed m = true ∨ (MaxConcurrency strategy > 0 ∧ MaxConcurrency strategy ≤ Size w)
             ∨ (MaxConnection > 0 ∧ MaxConnection ≤ count m))
  then Ok (w, None)
  else
    let c := u16 (count m + 1) in
    let r := fresh (dom (store w)) in
    ss ← map_set (sessions m) c r;
    Ok (set_session (set_mgr w (mkManager ss c (closed m))) r (mkSession c false (Some false) None), Some r).

Definition Add (w : World) (r : nat) : go (World * bool) :=
  let m := mgr w in
  if closed m then Ok (w, false)
  else
    s ← ok_or_panic (store w !! r);
    ss ← map_set (sessions m) (s_ID s) r;
    Ok (set_mgr w (mkManager ss (u16 (count m + 1)) (closed m)), true).

Definition Remove (w : World) (id : Z) : World :=
  let m := mgr w in
  if closed m then w
  else set_mgr w (mkManager (delete id <$> sessions m) (count m) (closed m)).

Definition Get (w : World) (id : Z) : option nat :=
  let m := mgr w in
  if closed m then None else sessions m ≫= (.!! id).

Definition CloseIfNoSessionAndIdle (w : World) (checkSize checkCount : Z) : World * bool :=
  let m := mgr w in
  if closed m then (w, true)
  else if decide (Size w ≠ 0 ∨ checkSize ≠ 0 ∨ checkCount ≠ count m) then (w, false)
  else (set_mgr w (mkManager None (count m) true), true).

(** [Session.Close] at time [now]. *)
Definition Session_Close (now : Z) (w : World) (r : nat) : go World :=
  s ← ok_or_panic (store w !! r);
  if s_closed s then Ok w
  else
    let w := set_session w r (mkSession (s_ID s) true ((λ _, true) <$> s_done s) (s_XUDP s)) in
    w ← (match s_XUDP s with
         | None => Ok (emit w [EvInterruptInput r; EvCloseOutput r])
         | Some x =>
             v ← ok_or_panic (xudps w !! x);
             let w := emit w [EvReturnError r; EvRecover r] in
             Ok (if decide (x_Status v = Active)
                 then set_xudp w x (mkXUDP (x_GlobalID v) Expiring (now + 60) (x_Mux v)) else w)
         end);
    Ok (Remove w (s_ID s)).

Fixpoint close_all (now : Z) (w : World) (rs : list nat) : go World :=
  match rs with
  | [] => Ok w
  | r :: rs => w ← Session_Close now w r; close_all now w rs
  end.

(** [SessionManager.Close]: the sessions of the map in some order. *)
Definition Manager_Close (now : Z) (w : World) : go World :=
  let m := mgr w in
  if closed m then Ok w
  else
    let w := set_mgr w (mkManager (sessions m) (count m) true) in
    w ← close_all now w ((map_to_list (default ∅ (sessions m))).*2);
    Ok (set_mgr w (mkManager None (count (mgr w)) true)).

(** One pass of the goroutine that expires XUDP entries. *)
Definition xudp_expired (w : World) (now : Z) (x : nat) : bool :=
  match xudps w !! x with
  | Some v => bool_decide (x_Status v = Expiring ∧ x_Expire v < now)
  | None => false
  end.

Definition xudp_sweep (w : World) (now : Z) : World :=
  let dead := filter (λ p, xudp_expired w now p.2 = true) (map_to_list (xmap w)) in
  mkWorld (mgr w) (store w) (xudps w) (foldr (λ p m, delete p.1 m) (xmap w) dead)
    (events w ++ concat ((λ p, match xudps w !! p.2 with
                               | Some v => [EvInterruptInput (x_Mux v); EvCloseOutput (x_Mux v)]
                               | None => [] end) <$> dead)).

(** ** Runs of a client's manager *)

Inductive Op :=
| OAllocate
| OClose (r : nat)
| OIdle (checkSize checkCount : Z)
| OManagerClose
| OSweep.
#[global] Instance Op_eq_dec : EqDecision Op.
Proof. solve_decision. Defined.

(** One operation at time [now]; a reference nobody holds cannot be closed. *)
Definition run (strategy : ClientStrategy) (now : Z) (w : World) (o : Op) : go World :=
  match o with
  | OAllocate => '(w, _) ← Allocate w strategy; Ok w
  | OClose r => match store w !! r with Some _ => Session_Close now w r | None => Ok w end
  | OIdle a b => Ok (CloseIfNoSessionAndIdle w a b).1
  | OManagerClose => Manager_Close now w
  | OSweep => Ok (xudp_sweep w now)
  end.

Fixpoint run_all (strategy : ClientStrategy) (w : World) (os : list (Z * Op)) : go World :=
  match os with
  | [] => Ok w
  | (now, o) :: os => w ← run strategy now w o; run_all strategy w os
  end.

Definition initial : World := mkWorld NewSessionManager ∅ ∅ ∅ [].

Definition in_map (w : World) : gmap Z nat := default ∅ (sessions (mgr w)).

Section runs.
Context (strategy : ClientStrategy).

Record inv (w : World) : Prop := {
  i_count : 0 ≤ count (mgr w);
  i_nil : sessions (mgr w) = None ↔ closed (mgr w) = true;
  i_map : ∀ id r, in_map w !! id = Some r → ∃ s, store w !! r = Some s ∧ s_ID s = id ∧ s_closed s = false;
  i_store : ∀ r s, store w !! r = Some s → 1 ≤ s_ID s ≤ count (mgr w) ∧ s_XUDP s = None;
  i_inj : ∀ r1 r2 s1 s2, store w !! r1 = Some s1 → store w !! r2 = Some s2 → s_ID s1 = s_ID s2 → r1 = r2;
  i_closed : closed (mgr w) = true → ∀ r s, store w !! r = Some s → s_closed s = true;
  i_open : closed (mgr w) = false → ∀ r s, store w !! r = Some s → s_closed s = false →
    in_map w !! s_ID s = Some r;
  i_size : MaxConcurrency strategy > 0 → Z.of_nat (size (in_map w)) ≤ MaxConcurrency strategy
}.

Lemma manager_initial_inv : inv initial.
Proof.
  split; cbn; try done; try lia; try (intros *; by rewrite lookup_empty).
  rewrite map_size_empty. lia.
Qed.

(** How many sessions there may be after an operation. *)
Definition may_grow (w w' : World) (o : Op) : Prop :=
  match o with
  | OAllocate => count (mgr w') ≤ count (mgr w) + 1 ∧
      (0 < u16 (MaxConnection strategy) → count (mgr w) ≤ u16 (MaxConnection strategy) → count (mgr w') ≤ u16 (MaxConnection strategy))
  | _ => count (mgr w') = count (mgr w)
  end.

Lemma Allocate_inv w : inv w → 0 < u16 (MaxConnection strategy) ∨ count (mgr w) < 65535 →
  ∃ w' r, Allocate w strategy = Ok (w', r) ∧ inv w' ∧ may_grow w w' OAllocate.
Proof.
  intros H Hroom. unfold Allocate. case_decide as Hd; [exists w, None; split; [done|]; split; [done|]; cbn; lia|].
  assert (closed (mgr w) = false) as Hc by (destruct (closed (mgr w)); [exfalso; tauto|done]).
  assert (u16 (MaxConnection strategy) ≤ count (mgr w) → ¬ 0 < u16 (MaxConnection strategy)) as Hlt by (intros ? ?; apply Hd; right; right; lia).
  pose proof (i_count _ H) as Hcnt. pose proof (u16_range (MaxConnection strategy)) as Hr. unfold is_u16 in Hr.
  rewrite u16_small by (unfold is_u16; lia). set (r := fresh (dom (store w))).
  assert (store w !! r = None) as Hfr by (apply not_elem_of_dom, is_fresh).
  destruct (sessions (mgr w)) as [m|] eqn:Em; [|by rewrite (proj1 (i_nil _ H) Em) in Hc].
  assert (in_map w = m) as Hm by (unfold in_map; by rewrite Em).
  cbn [map_set mbind go_bind]. eexists _, _. split; [done|]. split; [|cbn; lia].
  assert (m !! (count (mgr w) + 1) = None) as Hnew.
  { destruct (m !! (count (mgr w) + 1)) as [r'|] eqn:E; [|done]. rewrite <- Hm in E.
    destruct (i_map _ H _ _ E) as (s & Hs & Hid & _). apply (i_store _ H) in Hs as [? _]. lia. }
  split; cbn; try rewrite Hc; try done; try lia.
  - intros id r'. destruct (decide (id = count (mgr w) + 1)) as [->|Hne].
    + rewrite lookup_insert_eq. intros [= <-]. eexists. by rewrite lookup_insert_eq.
    + rewrite lookup_insert_ne by done. intros Hl. rewrite <- Hm in Hl.
      destruct (i_map _ H _ _ Hl) as (s & Hs & ?). exists s. rewrite lookup_insert_ne; [done|congruence].
  - intros r' s. destruct (decide (r' = r)) as [->|Hne].
    + rewrite lookup_insert_eq. intros [= <-]. cbn. split; [lia|done].
    + rewrite lookup_insert_ne by done. intros [? ?]%(i_store _ H). split; [lia|done].
  - intros r1 r2 s1 s2. destruct (decide (r1 = r)) as [->|H1], (decide (r2 = r)) as [->|H2];
      rewrite ?lookup_insert_eq, ?lookup_insert_ne by done; try done.
    + intros [= <-] [? _]%(i_store _ H). cbn. lia.
    + intros [? _]%(i_store _ H) [= <-]. cbn. lia.
    + apply (i_inj _ H).
  - intros _ r' s. destruct (decide (r' = r)) as [->|Hne].
    + rewrite lookup_insert_eq. intros [= <-] _. cbn. by rewrite lookup_insert_eq.
    + rewrite lookup_insert_ne by done. intros Hs Ho. pose proof (i_store _ H _ _ Hs) as [? _].
      rewrite lookup_insert_ne by lia. rewrite <- Hm. by apply (i_open _ H).
  - intros Hmax. change (in_map _) with (<[count (mgr w) + 1:=r]> m). rewrite map_size_insert_None by done.
    assert (¬ MaxConcurrency strategy ≤ Size w) as Hs by (intros ?; apply Hd; right; left; lia).
    unfold Size in Hs. fold (in_map w) in Hs. rewrite Hm in Hs. lia.
Qed.

(** What closing the sessions [rs] does to the store. *)
Definition closes (rs : list nat) (st st' : gmap nat Session) : Prop :=
  ∀ r, match st !! r, st' !! r with
       | Some s, Some s' => s_ID s' = s_ID s ∧ s_XUDP s' = s_XUDP s ∧
                            (s_closed s' = true ↔ s_closed s = true ∨ r ∈ rs)
       | None, None => True
       | _, _ => False
       end.

Lemma Session_Close_spec now w r s :
  store w !! r = Some s → s_XUDP s = None →
  ∃ w', Session_Close now w r = Ok w' ∧ closes [r] (store w) (store w') ∧
    mgr w' = if s_closed s then mgr w else mgr (Remove w (s_ID s)).
Proof.
  intros Hs Hx. unfold Session_Close. rewrite Hs. cbn [ok_or_panic mbind go_bind].
  destruct (s_closed s) eqn:Ec.
  { exists w. split; [done|]. split; [|done]. intros r'. destruct (store w !! r') as [s'|] eqn:E; [|done].
    split; [done|]. split; [done|]. rewrite list_elem_of_singleton. split; [by left|].
    intros [| ->]; [done|]. rewrite Hs in E. by injection E as <-. }
  rewrite Hx. cbn [mbind go_bind]. eexists. split; [done|]. split.
  - intros r'. unfold Remove. cbn [mgr emit set_session].
    assert (store (if closed (mgr w)
      then emit (set_session w r (mkSession (s_ID s) true ((λ _, true) <$> s_done s) None)) [EvInterruptInput r; EvCloseOutput r]
      else set_mgr (emit (set_session w r (mkSession (s_ID s) true ((λ _, true) <$> s_done s) None))
             [EvInterruptInput r; EvCloseOutput r])
             (mkManager (delete (s_ID s) <$> sessions (mgr w)) (count (mgr w)) (closed (mgr w))))
      = <[r := mkSession (s_ID s) true ((λ _, true) <$> s_done s) None]> (store w)) as E
      by (by destruct (closed (mgr w))).
    rewrite E. destruct (decide (r' = r)) as [->|Hne].
    + rewrite Hs, lookup_insert_eq. cbn. split; [done|]. split; [done|]. rewrite list_elem_of_singleton. tauto.
    + rewrite lookup_insert_ne by done. destruct (store w !! r'); [|done].
      split; [done|]. split; [done|]. rewrite list_elem_of_singleton. tauto.
  - unfold Remove. cbn [mgr emit set_session]. by destruct (closed (mgr w)).
Qed.

Lemma closes_lookup rs st st' r s' :
  closes rs st st' → st' !! r = Some s' →
  ∃ s, st !! r = Some s ∧ s_ID s' = s_ID s ∧ s_XUDP s' = s_XUDP s ∧
    (s_closed s' = true ↔ s_closed s = true ∨ r ∈ rs).
Proof. intros H E. specialize (H r). rewrite E in H. destruct (st !! r); [by eexists|done]. Qed.

Lemma closes_trans rs r st1 st2 st3 :
  closes [r] st1 st2 → closes rs st2 st3 → closes (r :: rs) st1 st3.
Proof.
  intros H1 H2 x. specialize (H1 x). specialize (H2 x).
  destruct (st1 !! x), (st2 !! x), (st3 !! x); try done.
  destruct H2 as (-> & -> & E2), H1 as (-> & -> & E1). split; [done|]. split; [done|].
  rewrite E2, E1, !elem_of_cons, elem_of_nil. tauto.
Qed.

Lemma close_all_closed now rs : ∀ w,
  closed (mgr w) = true → (∀ r, r ∈ rs → ∃ s, store w !! r = Some s ∧ s_XUDP s = None) →
  ∃ w', close_all now w rs = Ok w' ∧ mgr w' = mgr w ∧ closes rs (store w) (store w').
Proof.
  induction rs as [|r rs IH]; intros w Hc Hrs.
  { exists w. split; [done|]. split; [done|]. intros r. destruct (store w !! r); [|done].
    split; [done|]. split; [done|]. rewrite elem_of_nil. tauto. }
  destruct (Hrs r) as (s & Hs & Hx); [apply elem_of_cons; by left|]. cbn [close_all].
  destruct (Session_Close_spec now w r s Hs Hx) as (w1 & -> & C1 & M1). cbn [mbind go_bind].
  assert (mgr w1 = mgr w) as M1' by (rewrite M1; destruct (s_closed s); [done|]; unfold Remove; by rewrite Hc).
  destruct (IH w1) as (w2 & -> & M2 & C2).
  - by rewrite M1'.
  - intros r' Hr'. destruct (Hrs r') as (s' & Hs' & Hx'); [apply elem_of_cons; by right|].
    specialize (C1 r'). rewrite Hs' in C1. destruct (store w1 !! r') as [s1|]; [|done].
    exists s1. split; [done|]. destruct C1 as (_ & -> & _). done.
  - exists w2. split; [done|]. split; [congruence|]. by eapply closes_trans.
Qed.

(** A store with sessions closed, and a manager that knows it. *)
Lemma inv_closes w w' rs :
  inv w → closes rs (store w) (store w') → count (mgr w') = count (mgr w) →
  (sessions (mgr w') = None ↔ closed (mgr w') = true) →
  (∀ id r, in_map w' !! id = Some r → in_map w !! id = Some r ∧ r ∉ rs) →
  (closed (mgr w') = true → ∀ r s, store w !! r = Some s → s_closed s = true ∨ r ∈ rs) →
  (closed (mgr w') = false → closed (mgr w) = false ∧
     ∀ r s, store w !! r = Some s → r ∉ rs → in_map w !! s_ID s = Some r → in_map w' !! s_ID s = Some r) →
  (size (in_map w') ≤ size (in_map w))%nat → inv w'.
Proof.
  intros H Hcl Hcnt Hnil Hmap Hclosed Hopen Hsize. split.
  - rewrite Hcnt. apply H.
  - done.
  - intros id r Hl. destruct (Hmap id r Hl) as [Hl' Hnr]. destruct (i_map _ H _ _ Hl') as (s & Hs & Hid & Ho).
    specialize (Hcl r). rewrite Hs in Hcl. destruct (store w' !! r) as [s'|]; [|done].
    destruct Hcl as (Ei & _ & Ec). exists s'. split; [done|]. split; [congruence|].
    destruct (s_closed s'); [|done]. destruct (proj1 Ec eq_refl); [congruence|done].
  - intros r s' Hs'. destruct (closes_lookup _ _ _ _ _ Hcl Hs') as (s & Hs & -> & -> & _).
    rewrite Hcnt. by apply (i_store _ H r).
  - intros r1 r2 s1 s2 H1 H2. destruct (closes_lookup _ _ _ _ _ Hcl H1) as (t1 & T1 & -> & _).
    destruct (closes_lookup _ _ _ _ _ Hcl H2) as (t2 & T2 & -> & _). by apply (i_inj _ H).
  - intros Hc r s' Hs'. destruct (closes_lookup _ _ _ _ _ Hcl Hs') as (s & Hs & _ & _ & Ec).
    apply Ec. by eapply Hclosed.
  - intros Hc r s' Hs' Ho. destruct (Hopen Hc) as [Hcw Hkeep].
    destruct (closes_lookup _ _ _ _ _ Hcl Hs') as (s & Hs & -> & _ & Ec).
    assert (s_closed s = false ∧ r ∉ rs) as [Hso Hnr].
    { destruct (s_closed s); [rewrite (proj2 Ec) in Ho by auto; done|]. split; [done|].
      intros Hin. rewrite (proj2 Ec) in Ho by auto. done. }
    apply Hkeep; [done|done|]. by apply (i_open _ H).
  - intros Hm. pose proof (i_size _ H Hm). lia.
Qed.

Lemma Session_Close_inv now w r s :
  inv w → store w !! r = Some s → ∃ w', Session_Close now w r = Ok w' ∧ inv w' ∧ count (mgr w') = count (mgr w).
Proof.
  intros H Hs. destruct (i_store _ H _ _ Hs) as [_ Hx].
  destruct (Session_Close_spec now w r s Hs Hx) as (w' & E & C & M). exists w'. split; [done|].
  split; [|rewrite M; unfold Remove; by destruct (s_closed s), (closed (mgr w))].
  destruct (s_closed s) eqn:Ec.
  - assert (∀ id, in_map w !! id = Some r → False) as Hno.
    { intros id Hl. destruct (i_map _ H _ _ Hl) as (t & Ht & _ & Ho). rewrite Hs in Ht. congruence. }
    eapply (inv_closes w w' [r] H C); unfold in_map in *; rewrite ?M; try done; try apply H.
    + intros id r' Hl. split; [done|]. rewrite list_elem_of_singleton. intros ->. by eapply Hno.
    + intros Hc r' s' Hs'. left. by eapply (i_closed _ H).
  - assert (closed (mgr w) = false) as Hc.
    { destruct (closed (mgr w)) eqn:E2; [|done]. by rewrite (i_closed _ H E2 _ _ Hs) in Ec. }
    unfold Remove in M. rewrite Hc in M.
    destruct (sessions (mgr w)) as [m|] eqn:Em; [|by rewrite (proj1 (i_nil _ H) Em) in Hc].
    assert (in_map w = m) as Hm by (unfold in_map; by rewrite Em).
    assert (in_map w' = delete (s_ID s) m) as Hm' by (unfold in_map; by rewrite M).
    eapply (inv_closes w w' [r] H C); rewrite ?M; cbn; try rewrite Hm'; try rewrite Hm; try done.
    + intros id r' [Hne Hl]%lookup_delete_Some. split; [done|]. rewrite list_elem_of_singleton. intros ->.
      rewrite <- Hm in Hl. destruct (i_map _ H _ _ Hl) as (t & Ht & Hid & _). congruence.
    + intros _. split; [done|]. intros r' s' Hs' Hnr Hl. apply lookup_delete_Some. split; [|done].
      intros Heq. rewrite list_elem_of_singleton in Hnr. apply Hnr. symmetry. by eapply (i_inj _ H).
    + apply map_subseteq_size, delete_subseteq.
Qed.

Lemma CloseIfNoSessionAndIdle_inv w a b : inv w → inv (CloseIfNoSessionAndIdle w a b).1.
Proof.
  intros H. unfold CloseIfNoSessionAndIdle. destruct (closed (mgr w)) eqn:Hc; [done|].
  case_decide as Hd; [done|]. cbn [fst].
  assert (in_map w = ∅) as Hm.
  { apply map_size_empty_inv. unfold Size in Hd. fold (in_map w) in Hd. lia. }
  apply (inv_closes w _ [] H); cbn; try done.
  - intros r. destruct (store w !! r); [|done]. split; [done|]. split; [done|]. rewrite elem_of_nil. tauto.
  - intros _ r s Hs. destruct (s_closed s) eqn:Ho; [by left|].
    pose proof (i_open _ H Hc _ _ Hs Ho) as Hl. by rewrite Hm in Hl.
  - apply map_subseteq_size, map_empty_subseteq.
Qed.

Lemma Manager_Close_inv now w : inv w → ∃ w', Manager_Close now w = Ok w' ∧ inv w' ∧ count (mgr w') = count (mgr w).
Proof.
  intros H. unfold Manager_Close. destruct (closed (mgr w)) eqn:Hc; [by exists w|].
  fold (in_map w). set (rs := (map_to_list (in_map w)).*2). set (w0 := set_mgr _ _).
  assert (∀ r, r ∈ rs ↔ ∃ id, in_map w !! id = Some r) as Hrs.
  { intros r. unfold rs. rewrite list_elem_of_fmap. split.
    - intros ([id r'] & -> & Hl%elem_of_map_to_list). by exists id.
    - intros [id Hl]. exists (id, r). by rewrite elem_of_map_to_list. }
  destruct (close_all_closed now rs w0) as (w1 & -> & M & C); [done| |].
  { intros r [id Hl]%Hrs. destruct (i_map _ H _ _ Hl) as (s & Hs & _). exists s. split; [done|].
    by apply (i_store _ H r). }
  cbn [mbind go_bind]. eexists. split; [done|]. split; [|cbn; by rewrite M].
  apply (inv_closes w _ rs H); cbn; try done.
  - by rewrite M.
  - intros _ r s Hs. destruct (s_closed s) eqn:Ho; [by left|]. right. apply Hrs.
    exists (s_ID s). by apply (i_open _ H).
  - apply map_subseteq_size, map_empty_subseteq.
Qed.

Lemma run_inv now w o : inv w → 0 < u16 (MaxConnection strategy) ∨ count (mgr w) < 65535 ∨ o ≠ OAllocate →
  ∃ w', run strategy now w o = Ok w' ∧ inv w' ∧ may_grow w w' o.
Proof.
  intros H Hroom. destruct o as [|r|a b| |]; cbn [run].
  - destruct (Allocate_inv w H) as (w' & r & -> & H'); [tauto|]. by exists w'.
  - destruct (store w !! r) as [s|] eqn:E; [by eapply Session_Close_inv|by exists w].
  - eexists. split; [done|]. split; [by apply CloseIfNoSessionAndIdle_inv|].
    unfold CloseIfNoSessionAndIdle. destruct (closed (mgr w)); [done|]. by case_decide.
  - by apply Manager_Close_inv.
  - eexists. split; [done|]. split; [by split; apply H|done].
Qed.

Lemma Get_spec w id r : inv w →
  Get w id = Some r ↔
  Closed w = false ∧ ∃ s, store w !! r = Some s ∧ s_ID s = id ∧ s_closed s = false.
Proof.
  intros H. unfold Get, Closed. destruct (closed (mgr w)) eqn:Hc; [split; [done|by intros []]|].
  assert (sessions (mgr w) ≫= (.!! id) = in_map w !! id) as ->.
  { unfold in_map. destruct (sessions (mgr w)) eqn:E; [done|]. by rewrite (proj1 (i_nil _ H) E) in Hc. }
  split; [intros Hl; split; [done|by apply (i_map _ H)]|].
  intros (_ & s & Hs & <- & Ho). by apply (i_open _ H).
Qed.

(** The allocations of a run. *)
Definition allocations (os : list (Z * Op)) : Z := len (filter (λ o, o.2 = OAllocate) os).

Lemma run_all_inv os : ∀ w, inv w → 0 < u16 (MaxConnection strategy) ∨ count (mgr w) + allocations os ≤ 65535 →
  ∃ w', run_all strategy w os = Ok w' ∧ inv w' ∧ count (mgr w') ≤ count (mgr w) + allocations os ∧
    (0 < u16 (MaxConnection strategy) → count (mgr w) ≤ u16 (MaxConnection strategy) → count (mgr w') ≤ u16 (MaxConnection strategy)).
Proof.
  induction os as [|[now o] os IH]; intros w H Hroom; cbn [run_all].
  { exists w. split; [done|]. split; [done|]. change (allocations []) with 0. split; [lia|done]. }
  assert (Ha : allocations ((now, o) :: os) = allocations os + if decide (o = OAllocate) then 1 else 0).
  { unfold allocations. rewrite filter_cons. cbn [snd]. destruct (decide (o = OAllocate)); [rewrite len_cons|]; lia. }
  pose proof (len_nonneg (filter (λ o : Z * Op, o.2 = OAllocate) os)) as H0. fold (allocations os) in H0. rewrite Ha in *.
  destruct (run_inv now w o H) as (w1 & -> & H1 & Hg); [destruct (decide (o = OAllocate)); [|tauto]; destruct Hroom; [by left|right; left; lia]|].
  cbn [mbind go_bind]. assert (Hstep : count (mgr w1) ≤ count (mgr w) + if decide (o = OAllocate) then 1 else 0).
  { destruct (decide (o = OAllocate)) as [->|]; [apply Hg|]. destruct o; cbn in Hg; [done|lia..]. }
  destruct (IH w1 H1) as (w2 & -> & H2 & Hc & Hl); [destruct Hroom; [by left|right; lia]|].
  exists w2. split; [done|]. split; [done|]. split; [lia|]. intros Hp Hle. apply Hl; [done|].
  destruct o; cbn in Hg; [by apply Hg|lia..].
Qed.

End runs.

(** C32: a client's session manager, after any sequence of allocations, session closes, idle
    checks, manager closes and sweeps: nothing panics (no write to the nil map of a closed
    manager); with a limit on connections no more than [MaxConnection] sessions were ever
    numbered; no two of them share an ID, and with a limit on concurrency at most
    [MaxConcurrency] are open at a time; [Get] finds exactly the open sessions of an open
    manager; once the manager is closed every session is closed and [Allocate] refuses. Without
    a limit on connections (or with a multiple of 65536, which is none) this holds for runs with
    at most 65535 allocations: the numbers of sessions are 16 bits and wrap after that. *)
Theorem session_manager_runs strategy os :
  0 < u16 (MaxConnection strategy) ∨ allocations os ≤ 65535 →
  ∃ w, run_all strategy initial os = Ok w ∧
    (0 < u16 (MaxConnection strategy) → Count w ≤ MaxConnection strategy `mod` 2^16) ∧
    (0 < MaxConcurrency strategy → Size w ≤ MaxConcurrency strategy) ∧
    (∀ r1 r2 s1 s2, store w !! r1 = Some s1 → store w !! r2 = Some s2 → s_ID s1 = s_ID s2 → r1 = r2) ∧
    (∀ id r, Get w id = Some r ↔
       Closed w = false ∧ ∃ s, store w !! r = Some s ∧ s_ID s = id ∧ s_closed s = false) ∧
    (Closed w = true →
       (∀ r s, store w !! r = Some s → s_closed s = true) ∧ Allocate w strategy = Ok (w, None)).
Proof.
  intros Hroom. destruct (run_all_inv strategy os initial (manager_initial_inv _)) as (w & E & H & _ & Hl); [cbn; by rewrite Z.add_0_l|].
  exists w. split; [done|]. split; [intros Hp; apply Hl; [done|cbn; lia]|].
  split; [intros Hm; apply (i_size _ _ H); lia|]. split; [apply (i_inj _ _ H)|].
  split; [intros; by eapply Get_spec|].
  intros Hc. split; [by apply (i_closed _ _ H)|].
  unfold Allocate. rewrite decide_True; [done|by left].
Qed.

Definition demo_ops : list (Z * Op) :=
  [(0, OAllocate); (0, OAllocate); (0, OAllocate); (1, OClose 0%nat); (2, OAllocate); (3, OManagerClose); (4, OAllocate)].

Lemma session_manager_runs_witness :
  (∃ w, run_all (mkStrategy 2 128) initial demo_ops = Ok w ∧ Count w = 3 ∧ Closed w = true ∧
    ∀ r s, store w !! r = Some s → s_closed s = true) ∧
  (∃ w, run_all (mkStrategy 0 0) initial demo_ops = Ok w ∧ Count w = 4 ∧ Allocate w (mkStrategy 0 0) = Ok (w, None)).
Proof.
  split.
  - destruct (session_manager_runs (mkStrategy 2 128) demo_ops) as (w & E & _ & _ & _ & _ & Hc); [by left|].
    assert (Count w = 3 ∧ Closed w = true) as [H1 H2].
    { revert E. vm_compute. by intros [= <-]. }
    exists w. split; [done|]. split; [done|]. split; [done|]. by apply Hc.
  - destruct (session_manager_runs (mkStrategy 0 0) demo_ops) as (w & E & _ & _ & _ & _ & Hc); [right; by vm_compute|].
    assert (Count w = 4 ∧ Closed w = true) as [H1 H2].
    { revert E. vm_compute. by intros [= <-]. }
    exists w. split; [done|]. split; [done|]. by apply Hc.
Defined.

(** The connection limit is truncated to 16 bits: with a limit that is a multiple of 65536 an
    open manager with room numbers another session whatever its count, so that after 65536
    allocations an ID is used again and the map forgets the older session. *)
Lemma connection_limit_truncated w strategy m :
  u16 (MaxConnection strategy) = 0 → closed (mgr w) = false → sessions (mgr w) = Some m →
  (MaxConcurrency strategy > 0 → Size w < MaxConcurrency strategy) →
  ∃ w' r, Allocate w strategy = Ok (w', Some r) ∧ store w !! r = None ∧
    Get w' (u16 (count (mgr w) + 1)) = Some r.
Proof.
  intros Hz Hc Hm Hs. unfold Allocate. rewrite Hz, Hc, Hm.
  rewrite decide_False by (intros [?|[?|?]]; [done|lia|lia]). cbn [map_set mbind go_bind].
  eexists _, _. split; [done|]. split; [apply not_elem_of_dom, is_fresh|].
  unfold Get. cbn. by rewrite lookup_insert_eq.
Qed.
