(* ===== verification/MuxFrame.v ===== *)
(** * Mux frames

    Models [common/mux/frame.go], [writer.go], the packet reader of [reader.go],
    [common/bitmask/byte.go] and the 16-bit helpers of [common/serial]: the metadata that
    heads every frame of a mux connection, the writer that cuts a session's data into
    frames, and the reader of one frame. A [buf.Writer] is a state with a function. *)

From S2P Require Import Prelude Net Buf AddrCodec.
Import Buffer MultiBuffer.

(** ** Bit masks *)
Module Bitmask.

Definition Has (b bb : Z) : bool := bool_decide (Z.land b bb ≠ 0).
Definition Set_ (b bb : Z) : Z := Z.lor b bb.
Definition Clear (b bb : Z) : Z := Z.ldiff b bb.
Definition Toggle (b bb : Z) : Z := Z.lxor b bb.

End Bitmask.

(** ** Frame metadata *)

Definition SessionStatusNew : Z := 1.
Definition SessionStatusKeep : Z := 2.
Definition SessionStatusEnd : Z := 3.
Definition SessionStatusKeepAlive : Z := 4.

Definition OptionData : Z := 1.
Definition OptionError : Z := 2.

Definition TargetNetworkTCP : Z := 1.
Definition TargetNetworkUDP : Z := 2.

(** The two fields of [session.Inbound] that frames carry. *)
Record Inbound := mkInbound { Source : Destination; Local : Destination }.

Record FrameMetadata := mkFrame {
  Target : Destination;
  SessionID : Z;
  Option : Z;
  SessionStatus : Z;
  GlobalID : list byte;    (* 8 bytes *)
  f_Inbound : option Inbound
}.

Definition no_destination : Destination := mkDestination None 0 Network_Unknown.
Definition zero_frame : FrameMetadata := mkFrame no_destination 0 0 0 (replicate 8 x00) None.

(** [common.Must(b.WriteByte(c))]. *)
Definition must_byte (b : Buffer.t) (c : Z) : go Buffer.t :=
  '(b, err) ← WriteByte b (byte_of_Z c);
  match err with Some _ => Panic | None => Ok b end.

(** [addrParser.WriteAddressPort] on an address that may be nil: the port goes
    first, then the nil address is dereferenced. *)
Definition write_address_port (b : Buffer.t) (addr : option Address) (port : Port) : go Buffer.t :=
  match addr with
  | Some a => WriteAddressPort muxParser b a port
  | None => _ ← writePort b port; Panic
  end.

(** The same call with its error ignored: the buffer keeps what was written before
    the error. *)
Definition write_address_port_ignored (b : Buffer.t) (addr : option Address) (port : Port) : go Buffer.t :=
  let step b bs (k : Buffer.t → go Buffer.t) :=
    '(b, err) ← write b bs; match err with Some _ => Ok b | None => k b end in
  step b (put_be16 port) (λ b,
    match addr with
    | None => Panic
    | Some a =>
        tb ← ok_or_panic (index (addrByteMap (the_parser muxParser)) (Family a));
        if decide (tb = afInvalid) then Ok b
        else match a with
        | ipv4Address ip | ipv6Address ip => step b [byte_of_Z tb] (λ b, step b ip Ok)
        | domainAddress d =>
            if isDomainTooLong d then Ok b
            else step b [byte_of_Z tb; byte_of_Z (len d)] (λ b, step b d Ok)
        end
    end).

Definition is_tcp_udp (n : Network) : bool := bool_decide (n = Network_TCP ∨ n = Network_UDP).

Definition write_inbound (f : FrameMetadata) (b : Buffer.t) : go Buffer.t :=
  match f_Inbound f with
  | Some i =>
      if is_tcp_udp (d_Network (Source i)) then
        b ← must_byte b (Network_number (d_Network (Source i)) - 1);
        b ← write_address_port b (d_Address (Source i)) (d_Port (Source i));
        if is_tcp_udp (d_Network (Local i)) then
          b ← must_byte b (Network_number (d_Network (Local i)) - 1);
          write_address_port b (d_Address (Local i)) (d_Port (Local i))
        else Ok b
      else Ok b
  | None =>
      match UDP b with
      | Some _ => '(b, _, _) ← Write b (GlobalID f); Ok b
      | None => Ok b
      end
  end.

Definition write_target (f : FrameMetadata) (b : Buffer.t) : go Buffer.t :=
  if decide (SessionStatus f = SessionStatusNew) then
    b ← (match d_Network (Target f) with
         | Network_TCP => must_byte b TargetNetworkTCP
         | Network_UDP => must_byte b TargetNetworkUDP
         | _ => Ok b
         end);
    b ← write_address_port b (d_Address (Target f)) (d_Port (Target f));
    write_inbound f b
  else
    match UDP b with
    | Some d =>
        '(b, _) ← WriteByte b (byte_of_Z TargetNetworkUDP);
        write_address_port_ignored b (d_Address d) (d_Port d)
    | None => Ok b
    end.

(** [FrameMetadata.WriteTo]: [lenBytes] is the slice at offset [at_] of the array,
    written last. *)
Definition WriteTo (f : FrameMetadata) (b : Buffer.t) : go Buffer.t :=
  let at_ := end_ b in
  b ← Extend b 2;
  let len0 := Buffer.Len b in
  b ← Extend b 2;
  let b := poke b (end_ b - 2) (put_be16 (SessionID f)) in
  b ← must_byte b (SessionStatus f);
  b ← must_byte b (Option f);
  b ← write_target f b;
  let len1 := Buffer.Len b in
  Ok (poke b at_ (put_be16 (u16 (len1 - len0)))).

Section Unmarshal.
Context (pooled : list byte).

(** Reading an address through the buffer [b]; the network switch comes after. *)
Definition read_destination (what : string) (b : Buffer.t) (network : Z) : go (Destination * Buffer.t) :=
  bs ← Bytes b;
  match ReadAddressPort pooled muxParser None (mkStream bs EOF) with
  | Panic => Panic
  | Err _ => Err (ErrMsg (what +:+ "failed to parse address and port"))
  | Ok (_, s, addr, port) =>
      let b := Advance b (len bs - len (sdata s)) in
      if decide (network = TargetNetworkTCP) then Ok (TCPDestination addr port, b)
      else if decide (network = TargetNetworkUDP) then Ok (UDPDestination addr port, b)
      else Err (ErrMsg (what +:+ "unknown network type: "))
  end.

(** One of the optional source and local addresses. *)
Definition read_optional (what : string) (b : Buffer.t) : go (option (Destination * Buffer.t)) :=
  if decide (Buffer.Len b = 0) then Ok None
  else
    network ← Byte b 0;
    if decide (byte_to_Z network = 0) then Ok None
    else
      r ← read_destination what (Advance b 1) (byte_to_Z network);
      Ok (Some r).

Definition has_target (status : Z) (b : Buffer.t) : go bool :=
  if decide (status = SessionStatusNew) then Ok true
  else if decide (status = SessionStatusKeep ∧ 4 < Buffer.Len b) then
    c ← Byte b 4; Ok (bool_decide (byte_to_Z c = TargetNetworkUDP))
  else Ok false.

Definition read_inbound (b : Buffer.t) : go Inbound :=
  src ← read_optional "reading source: " b;
  match src with
  | None => Ok (mkInbound no_destination no_destination)
  | Some (source, b) =>
      loc ← read_optional "reading local: " b;
      match loc with
      | None => Ok (mkInbound source no_destination)
      | Some (local, _) => Ok (mkInbound source local)
      end
  end.

(** What follows the target: the source and local addresses, or the global ID. *)
Definition finish (f : FrameMetadata) (target : Destination) (id op status : Z) (b : Buffer.t)
    (readSourceAndLocal : bool) : go FrameMetadata :=
  if decide (status = SessionStatusNew ∧ readSourceAndLocal = true) then
    i ← read_inbound b;
    Ok (mkFrame target id op status (GlobalID f) (Some i))
  else if decide (status = SessionStatusNew ∧ Bitmask.Has op OptionData = true
                  ∧ d_Network target = Network_UDP ∧ 8 ≤ Buffer.Len b) then
    bs ← Bytes b;
    Ok (mkFrame target id op status (take 8 bs) (f_Inbound f))
  else Ok (mkFrame target id op status (GlobalID f) (f_Inbound f)).

(** [UnmarshalFromBuffer] on the frame [f]; a failure leaves the frame to be thrown
    away. *)
Definition UnmarshalFromBuffer (f : FrameMetadata) (b : Buffer.t) (readSourceAndLocal : bool)
    : go FrameMetadata :=
  if decide (Buffer.Len b < 4) then Err (ErrMsg "insufficient buffer: ")
  else
    bs ← BytesTo b 2;
    id ← ok_or_panic (be16 bs);
    st ← Byte b 2;
    op ← Byte b 3;
    let status := byte_to_Z st in
    let unknown := mkDestination (d_Address (Target f)) (d_Port (Target f)) Network_Unknown in
    t ← has_target status b;
    '(target, b) ←
      (if t : bool then
         if decide (Buffer.Len b < 8) then Err (ErrMsg "insufficient buffer: ")
         else network ← Byte b 4; read_destination "" (Advance b 5) (byte_to_Z network)
       else Ok (unknown, b));
    finish f target id (byte_to_Z op) status b readSourceAndLocal.

(** [serial.ReadUint16]. *)
Definition ReadUint16 (r : Stream) : go (Z * Stream) :=
  match read_full r 2 with
  | (_, Some e, _) => Err e
  | (bs, None, r) => z ← ok_or_panic (be16 bs); Ok (z, r)
  end.

Definition Unmarshal (f : FrameMetadata) (r : Stream) (readSourceAndLocal : bool)
    : go (FrameMetadata * Stream) :=
  '(metaLen, r) ← ReadUint16 r;
  if decide (512 < metaLen) then Err (ErrMsg "invalid metalen ")
  else
    '(b, r) ← read_or (New pooled) r metaLen;
    f ← UnmarshalFromBuffer f b readSourceAndLocal;
    Ok (f, r).

End Unmarshal.

(** ** What is written *)

(** A computation that appends [bs] to the window of [b]. *)
Definition appends (b : Buffer.t) (bs : list byte) (m : go Buffer.t) : Prop :=
  ∃ b', m = Ok b' ∧ wf b' ∧ content b' = content b ++ bs ∧ room b' = room b - len bs
        ∧ UDP b' = UDP b ∧ start b' = start b.

Lemma appends_ret b : wf b → appends b [] (Ok b).
Proof. intros Hb. exists b. rewrite app_nil_r, len_nil, Z.sub_0_r. done. Qed.

Lemma appends_bind b bs cs m (k : Buffer.t → go Buffer.t) :
  appends b bs m →
  (∀ b', wf b' → room b' = room b - len bs → UDP b' = UDP b → appends b' cs (k b')) →
  appends b (bs ++ cs) (m ≫= k).
Proof.
  intros (b1 & -> & Hb & Hc & Hr & Hu & Hs) Hk. cbn [mbind go_bind].
  destruct (Hk b1 Hb Hr Hu) as (b2 & -> & Hb2 & Hc2 & Hr2 & Hu2 & Hs2).
  exists b2. split; [done|]. split; [done|]. rewrite Hc2, Hc, app_assoc, len_app.
  split; [done|]. split; [lia|]. split; congruence.
Qed.

Lemma Write_appends b bs :
  wf b → len bs ≤ room b → appends b bs ('(b, _, _) ← Write b bs; Ok b).
Proof.
  intros Hb Hr. destruct (Write_spec b bs Hb) as (b' & E & Hb' & Hc & Hr' & _ & Hu).
  rewrite take_ge in * by len_lia. rewrite E. exists b'. split; [done|]. do 4 (split; [done|]).
  revert E. unfold Write. destruct (decide _); [|done]. destruct (copy_at _ _ _). by intros [= <- _ _].
Qed.

Lemma write_step_appends b bs (k : Buffer.t → go Buffer.t) cs :
  wf b → len bs ≤ room b →
  (∀ b', wf b' → room b' = room b - len bs → UDP b' = UDP b → appends b' cs (k b')) →
  appends b (bs ++ cs) ('(b, err) ← write b bs; match err with Some _ => Ok b | None => k b end).
Proof.
  intros Hb Hr Hk. pose proof (Write_appends b bs Hb Hr) as Ha.
  cbn [write Buffer_WriterOps]. destruct (Write_spec b bs Hb) as (b' & E & _).
  rewrite take_ge in E by len_lia. rewrite decide_False in E by lia. rewrite E in *. cbn [mbind go_bind] in *.
  by apply (appends_bind b bs cs (Ok b') k).
Qed.

Lemma write_or_appends b bs : wf b → len bs ≤ room b → appends b bs (write_or b bs).
Proof.
  intros Hb Hr. pose proof (Write_appends b bs Hb Hr) as Ha. unfold write_or.
  cbn [write Buffer_WriterOps]. destruct (Write_spec b bs Hb) as (b' & E & _).
  rewrite take_ge in E by len_lia. rewrite decide_False in E by lia. by rewrite E in *.
Qed.

Lemma WriteByte_appends b c :
  wf b → 1 ≤ room b → ∃ b', WriteByte b c = Ok (b', None) ∧ appends b [c] (Ok b').
Proof.
  intros Hb Hr. destruct (WriteByte_spec b c Hb) as (b' & err & E & Hb' & Hu & H).
  rewrite decide_False in H by lia. destruct H as (-> & Hc & Hr' & _). exists b'. split; [done|].
  exists b'. split; [done|]. split; [done|]. split; [done|]. split; [done|]. split; [done|].
  revert E. unfold WriteByte. destruct (IsFull b); [done|]. destruct (decide _); [|done]. by intros [= <-].
Qed.

Lemma must_byte_appends b c : wf b → 1 ≤ room b → appends b [byte_of_Z c] (must_byte b c).
Proof.
  intros Hb Hr. unfold must_byte. by destruct (WriteByte_appends b (byte_of_Z c) Hb Hr) as (b' & -> & ?).
Qed.

(** The bytes of an address and port. *)
Definition type_byte (a : Address) : Z :=
  match a with ipv4Address _ => 1 | domainAddress _ => 2 | ipv6Address _ => 3 end.
Definition enc_addr_port (a : Address) (port : Port) : list byte :=
  put_be16 port ++ enc_address (type_byte a) a.

Lemma len_enc_addr_port a port :
  encodable a → len (enc_addr_port a port) = 2 + enc_size a ∧ 5 ≤ 2 + enc_size a ≤ 259.
Proof.
  intros Ha. pose proof (enc_size_bound a Ha). unfold enc_addr_port. rewrite len_app, len_enc_address by done.
  change (len (put_be16 port)) with 2. lia.
Qed.

Lemma WriteAddressPort_appends b a port :
  wf b → encodable a → 2 + enc_size a ≤ room b →
  appends b (enc_addr_port a port) (write_address_port b (Some a) port).
Proof.
  intros Hb Ha Hr. pose proof (enc_size_bound a Ha). pose proof (len_enc_address (type_byte a) a Ha) as Hl.
  cbn [write_address_port WriteAddressPort muxParser]. apply appends_bind.
  { apply write_or_appends; [done|]. change (len (put_be16 port)) with 2. lia. }
  intros b1 Hb1 Hr1 _. change (len (put_be16 port)) with 2 in Hr1. unfold writeAddress.
  destruct a as [ip|ip|d]; cbn [Family].
  1-2: cbn [addrByteMap]; change (index _ _) with (Some (type_byte (ipv4Address ip))) ||
       change (index _ _) with (Some (type_byte (ipv6Address ip)));
       cbn [ok_or_panic mbind go_bind]; rewrite decide_False by done; cbn [enc_address type_byte] in *;
       rewrite len_cons in Hl; pose proof (len_nonneg ip);
       apply (appends_bind b1 [byte_of_Z _] ip); [apply write_or_appends; [done|len_lia]|];
       intros b2 Hb2 Hr2 _; apply write_or_appends; [done|len_lia].
  cbn [addrByteMap]. change (index _ _) with (Some 2). cbn [ok_or_panic mbind go_bind].
  rewrite decide_False by done. unfold isDomainTooLong. destruct Ha as [_ Hd].
  rewrite bool_decide_eq_false_2 by (destruct Hd; lia). cbn [enc_address type_byte enc_size] in *.
  apply (appends_bind b1 [byte_of_Z 2; byte_of_Z (len d)] d).
  - apply write_or_appends; [done|]. change (len [byte_of_Z 2; byte_of_Z (len d)]) with 2. lia.
  - intros b2 Hb2 Hr2 _. change (len [byte_of_Z 2; byte_of_Z (len d)]) with 2 in Hr2.
    apply write_or_appends; [done|lia].
Qed.

Lemma write_address_port_ignored_appends b a port :
  wf b → encodable a → 2 + enc_size a ≤ room b →
  appends b (enc_addr_port a port) (write_address_port_ignored b (Some a) port).
Proof.
  intros Hb Ha Hr. pose proof (enc_size_bound a Ha). pose proof (len_enc_address (type_byte a) a Ha) as Hl.
  unfold write_address_port_ignored. cbv zeta. apply write_step_appends; [done| |].
  { change (len (put_be16 port)) with 2. lia. }
  intros b1 Hb1 Hr1 _. change (len (put_be16 port)) with 2 in Hr1. cbn [the_parser muxParser addrByteMap].
  assert (Hend : ∀ b x, wf b → len x ≤ room b →
    appends b x ('(b, err) ← write b x; match err with Some _ => Ok b | None => Ok b end)).
  { intros b' x Hb' Hx. rewrite <- (app_nil_r x) at 1. apply write_step_appends; [done|done|].
    intros. by apply appends_ret. }
  destruct a as [ip|ip|d]; cbn [Family].
  1-2: change (index _ _) with (Some (type_byte (ipv4Address ip))) ||
       change (index _ _) with (Some (type_byte (ipv6Address ip)));
       cbn [ok_or_panic mbind go_bind]; rewrite decide_False by done; cbn [enc_address type_byte] in *;
       rewrite len_cons in Hl; pose proof (len_nonneg ip);
       apply (write_step_appends b1 [byte_of_Z _] _ ip); [done|len_lia|];
       intros b2 Hb2 Hr2 _; apply Hend; [done|len_lia].
  change (index _ _) with (Some 2). cbn [ok_or_panic mbind go_bind].
  rewrite decide_False by done. unfold isDomainTooLong. destruct Ha as [_ Hd].
  rewrite bool_decide_eq_false_2 by (destruct Hd; lia). cbn [enc_address type_byte enc_size] in *.
  apply (write_step_appends b1 [byte_of_Z 2; byte_of_Z (len d)] _ d).
  - done.
  - change (len [byte_of_Z 2; byte_of_Z (len d)]) with 2. lia.
  - intros b2 Hb2 Hr2 _. change (len [byte_of_Z 2; byte_of_Z (len d)]) with 2 in Hr2.
    apply Hend; [done|lia].
Qed.

(** Destinations that a frame can carry, and their bytes. *)
Definition addr_ok (d : Destination) : Prop :=
  is_u16 (d_Port d) ∧ match d_Address d with Some a => encodable a | None => False end.
Definition enc_dest (d : Destination) : list byte :=
  match d_Address d with Some a => enc_addr_port a (d_Port d) | None => [] end.
Definition net_byte (d : Destination) : byte :=
  byte_of_Z (Network_number (d_Network d) - 1).

Lemma len_enc_dest d : addr_ok d → 5 ≤ len (enc_dest d) ≤ 259.
Proof.
  intros [_ Ha]. unfold enc_dest. destruct (d_Address d) as [a|]; [|done].
  destruct (len_enc_addr_port a (d_Port d) Ha) as [-> ?]. lia.
Qed.

Lemma write_dest_appends b d :
  wf b → addr_ok d → len (enc_dest d) ≤ room b →
  appends b (enc_dest d) (write_address_port b (d_Address d) (d_Port d)).
Proof.
  intros Hb [_ Ha] Hr. unfold enc_dest in *. destruct (d_Address d) as [a|]; [|done].
  destruct (len_enc_addr_port a (d_Port d) Ha) as [E _]. rewrite E in Hr. by apply WriteAddressPort_appends.
Qed.

Definition enc_optional (d : Destination) (more : list byte) : list byte :=
  if is_tcp_udp (d_Network d) then net_byte d :: enc_dest d ++ more else [].

Definition enc_inbound (f : FrameMetadata) (udp : option Destination) : list byte :=
  match f_Inbound f with
  | Some i => enc_optional (Source i) (enc_optional (Local i) [])
  | None => match udp with Some _ => GlobalID f | None => [] end
  end.

Definition enc_target (f : FrameMetadata) (udp : option Destination) : list byte :=
  if decide (SessionStatus f = SessionStatusNew) then
    net_byte (Target f) :: enc_dest (Target f) ++ enc_inbound f udp
  else match udp with Some d => x02 :: enc_dest d | None => [] end.

Definition enc_meta (f : FrameMetadata) (udp : option Destination) : list byte :=
  put_be16 (SessionID f) ++ byte_of_Z (SessionStatus f) :: byte_of_Z (Option f) :: enc_target f udp.

Lemma len_enc_meta f udp : len (enc_meta f udp) = 4 + len (enc_target f udp).
Proof. unfold enc_meta. rewrite len_app, !len_cons. change (len (put_be16 _)) with 2. lia. Qed.

Definition optional_ok (d : Destination) : Prop := is_tcp_udp (d_Network d) = true → addr_ok d.

Record frame_ok (f : FrameMetadata) (udp : option Destination) : Prop := {
  fo_id : is_u16 (SessionID f);
  fo_opt : is_u8 (Option f);
  fo_status : is_u8 (SessionStatus f);
  fo_gid : length (GlobalID f) = 8%nat;
  fo_target : SessionStatus f = SessionStatusNew →
    is_tcp_udp (d_Network (Target f)) = true ∧ addr_ok (Target f);
  fo_inbound : match f_Inbound f with Some i => optional_ok (Source i) ∧ optional_ok (Local i) | None => True end;
  fo_udp : match udp with Some d => addr_ok d | None => True end
}.

Lemma len_enc_optional d more : optional_ok d → len (enc_optional d more) ≤ 260 + len more.
Proof.
  intros H. unfold enc_optional. pose proof (len_nonneg more).
  destruct (is_tcp_udp _) eqn:E; [|rewrite len_nil; lia].
  pose proof (len_enc_dest d (H E)). rewrite len_cons, len_app. lia.
Qed.

Lemma len_enc_inbound f udp : frame_ok f udp → len (enc_inbound f udp) ≤ 520.
Proof.
  intros H. unfold enc_inbound. pose proof (fo_inbound _ _ H) as Hi. destruct (f_Inbound f) as [i|].
  - destruct Hi as [Hs Hl]. pose proof (len_enc_optional (Local i) [] Hl).
    pose proof (len_enc_optional (Source i) (enc_optional (Local i) []) Hs). rewrite len_nil in *. lia.
  - destruct udp; [|rewrite len_nil; lia]. unfold len. rewrite (fo_gid _ _ H). lia.
Qed.

Lemma len_enc_target f udp : frame_ok f udp → len (enc_target f udp) ≤ 780.
Proof.
  intros H. unfold enc_target. pose proof (len_enc_inbound f udp H). case_decide as Hn.
  - destruct (fo_target _ _ H Hn) as [_ Ha]. pose proof (len_enc_dest _ Ha). rewrite len_cons, len_app. lia.
  - pose proof (fo_udp _ _ H) as Hu. destruct udp as [d|]; [|rewrite len_nil; lia].
    pose proof (len_enc_dest _ Hu). rewrite len_cons. lia.
Qed.

Lemma write_inbound_appends f b :
  frame_ok f (UDP b) → wf b → len (enc_inbound f (UDP b)) ≤ room b →
  appends b (enc_inbound f (UDP b)) (write_inbound f b).
Proof.
  intros H Hb Hr. unfold write_inbound, enc_inbound in *. pose proof (fo_inbound _ _ H) as Hi.
  assert (Hopt : ∀ b d more (k : Buffer.t → go Buffer.t), wf b → optional_ok d →
    len (enc_optional d more) ≤ room b →
    (∀ b', wf b' → len more ≤ room b' → appends b' more (k b')) →
    appends b (enc_optional d more)
      (if is_tcp_udp (d_Network d)
       then b ← must_byte b (Network_number (d_Network d) - 1);
            b ← write_address_port b (d_Address d) (d_Port d); k b
       else Ok b)).
  { clear. intros b d more k Hb Hd Hr Hk. unfold enc_optional in *.
    destruct (is_tcp_udp (d_Network d)) eqn:E; [|by apply appends_ret]. pose proof (len_nonneg more).
    specialize (Hd E). pose proof (len_enc_dest d Hd). rewrite len_cons, len_app in Hr.
    apply (appends_bind b [net_byte d]); [apply must_byte_appends; [done|lia]|].
    intros b1 Hb1 Hr1 _. change (len [net_byte d]) with 1 in Hr1.
    apply appends_bind; [apply write_dest_appends; [done|done|lia]|].
    intros b2 Hb2 Hr2 _. apply Hk; [done|lia]. }
  destruct (f_Inbound f) as [i|].
  - destruct Hi as [Hs Hl]. apply Hopt; [done|done|done|]. intros b1 Hb1 Hr1.
    pose proof (Hopt b1 (Local i) [] Ok Hb1 Hl Hr1) as Hlast.
    destruct (is_tcp_udp (d_Network (Local i))) eqn:E; [|apply Hlast; intros; by apply appends_ret].
    unfold mbind, go_bind in *.
    destruct (must_byte _ _) as [b2| |]; [|apply Hlast; intros; by apply appends_ret..].
    destruct (write_address_port _ _ _) as [b3| |]; apply Hlast; intros; by apply appends_ret.
  - destruct (UDP b); [by apply Write_appends|by apply appends_ret].
Qed.

Lemma write_target_appends f b :
  frame_ok f (UDP b) → wf b → len (enc_target f (UDP b)) ≤ room b →
  appends b (enc_target f (UDP b)) (write_target f b).
Proof.
  intros H Hb Hr. unfold write_target, enc_target in *. destruct (decide _) as [Hn|Hn].
  - destruct (fo_target _ _ H Hn) as [Hnet Ha]. pose proof (len_enc_dest _ Ha).
    pose proof (len_nonneg (enc_inbound f (UDP b))). rewrite len_cons, len_app in Hr.
    apply (appends_bind b [net_byte (Target f)]).
    { unfold net_byte. apply bool_decide_eq_true in Hnet.
      destruct Hnet as [-> | ->]; (apply must_byte_appends; [done|lia]). }
    intros b1 Hb1 Hr1 Hu1. change (len [net_byte (Target f)]) with 1 in Hr1.
    apply appends_bind; [apply write_dest_appends; [done|done|lia]|].
    intros b2 Hb2 Hr2 Hu2. rewrite <- Hu1, <- Hu2 in *. apply write_inbound_appends; [done|done|lia].
  - pose proof (fo_udp _ _ H) as Hu. destruct (UDP b) as [d|]; [|by apply appends_ret].
    pose proof (len_enc_dest _ Hu) as Hld. rewrite len_cons in Hr.
    destruct (WriteByte_appends b (byte_of_Z TargetNetworkUDP) Hb) as (b1 & -> & Hap); [lia|].
    cbn [mbind go_bind]. destruct Hu as [_ Ha]. unfold enc_dest in *.
    destruct (d_Address d) as [a|]; [|done]. destruct (len_enc_addr_port a (d_Port d) Ha) as [El _].
    apply (appends_bind b [x02] _ (Ok b1) (λ b, write_address_port_ignored b (Some a) (d_Port d)) Hap).
    intros b2 Hb2 Hr2 _. change (len [x02]) with 1 in Hr2.
    apply write_address_port_ignored_appends; [done|done|lia].
Qed.

Lemma Extend_poke_appends b bs :
  wf b → bs ≠ [] → len bs ≤ room b →
  appends b bs (b ← Extend b (len bs); Ok (poke b (end_ b - len bs) bs)).
Proof.
  intros Hb Hne Hr. pose proof (len_nonneg bs). pose proof (len_content b Hb).
  destruct (Extend_spec b (len bs) Hb) as (b1 & -> & Hb1 & Hc & Hr1 & _ & He & Hs & Hu); [lia|].
  cbn [mbind go_bind]. eexists. split; [done|].
  destruct (poke_mid b1 (content b) (replicate (Z.to_nat (len bs)) x00) [] bs Hb1) as (? & ? & ? & ?);
    [by rewrite app_nil_r|len_lia|done|].
  replace (end_ b1 - len bs) with (start b1 + len (content b)) by lia.
  rewrite app_nil_r in *. split; [done|]. split; [done|]. split; [lia|]. split; [congruence|done].
Qed.

(** [WriteTo] appends the length and the metadata, and never fails on what a frame can
    carry. *)
Lemma WriteTo_appends f b :
  frame_ok f (UDP b) → wf b → 2 + len (enc_meta f (UDP b)) ≤ room b →
  appends b (put_be16 (len (enc_meta f (UDP b))) ++ enc_meta f (UDP b)) (WriteTo f b).
Proof.
  intros H Hb Hr. pose proof (len_enc_target f _ H) as Hlt. pose proof (len_content b Hb) as Hlc.
  pose proof (len_enc_meta f (UDP b)) as Hl.
  pose proof (len_nonneg (enc_target f (UDP b))). unfold WriteTo.
  destruct (Extend_spec b 2 Hb) as (b1 & -> & Hb1 & Hc1 & Hr1 & _ & He1 & Hs1 & Hu1); [lia|].
  cbn [mbind go_bind].
  assert (Hin : appends b1 (enc_meta f (UDP b))
    (b ← (b ← Extend b1 2; Ok (poke b (end_ b - 2) (put_be16 (SessionID f))));
     b ← must_byte b (SessionStatus f); b ← must_byte b (Option f); write_target f b)).
  { apply appends_bind.
    { apply (Extend_poke_appends b1 (put_be16 (SessionID f)) Hb1); [done|].
      change (len (put_be16 (SessionID f))) with 2. lia. }
    intros b2 Hb2 Hr2 Hu2. change (len (put_be16 (SessionID f))) with 2 in Hr2.
    apply (appends_bind b2 [byte_of_Z (SessionStatus f)]); [apply must_byte_appends; [done|lia]|].
    intros b3 Hb3 Hr3 Hu3. change (len [byte_of_Z (SessionStatus f)]) with 1 in Hr3.
    apply (appends_bind b3 [byte_of_Z (Option f)]); [apply must_byte_appends; [done|lia]|].
    intros b4 Hb4 Hr4 Hu4. change (len [byte_of_Z (Option f)]) with 1 in Hr4.
    assert (UDP b = UDP b4) as Hu by congruence. rewrite Hu in *. apply write_target_appends; [done|done|lia]. }
  destruct Hin as (b' & E & Hb' & Hc' & Hr' & Hu' & Hs').
  destruct (Extend b1 2) as [b2| |]; cbn [mbind go_bind] in *; [|done..].
  destruct (must_byte _ _) as [b3| |]; cbn [mbind go_bind] in *; [|done..].
  destruct (must_byte _ _) as [b4| |]; cbn [mbind go_bind] in *; [|done..].
  rewrite E. cbn [mbind go_bind]. rewrite !Len_wf by done.
  rewrite Hc', len_app. replace (len (content b1) + len (enc_meta f (UDP b)) - len (content b1))
    with (len (enc_meta f (UDP b))) by lia.
  rewrite u16_small by (unfold is_u16; lia). rewrite Hc1, <- app_assoc in Hc'.
  destruct (poke_mid b' _ _ _ (put_be16 (len (enc_meta f (UDP b)))) Hb' Hc' eq_refl) as (Hw & Hc & Hrm & Hu); [done|].
  eexists. split; [done|]. replace (end_ b) with (start b' + len (content b)) by lia.
  split; [done|]. split; [done|]. rewrite len_app. change (len (put_be16 _)) with 2.
  split; [lia|]. split; [congruence|]. cbn. congruence.
Qed.

(** ** What is read back *)

Lemma Byte_at b i c :
  wf b → content b !! Z.to_nat i = Some c → 0 ≤ i → Byte b i = Ok c.
Proof.
  intros Hb Hc Hi. pose proof (len_content b Hb) as Hl.
  pose proof (lookup_lt_Some _ _ _ Hc) as Hlt. unfold wf in Hb.
  unfold Byte. rewrite i32_small by (unfold is_i32; len_lia).
  unfold index. rewrite decide_True by lia. unfold content in Hc.
  rewrite lookup_take_lt, lookup_drop in Hc by len_lia.
  replace (Z.to_nat (start b + i)) with (Z.to_nat (start b) + Z.to_nat i)%nat by lia. by rewrite Hc.
Qed.

Lemma Advance_prefix b p s :
  wf b → content b = p ++ s → wf (Advance b (len p)) ∧ content (Advance b (len p)) = s.
Proof.
  intros Hb Hc. pose proof (len_content b Hb) as Hl. rewrite Hc, len_app in Hl.
  pose proof (len_nonneg p). pose proof (len_nonneg s).
  destruct (Advance_spec b (len p) Hb) as (Hw & Hca & _); [lia|unfold wf in Hb; lia|].
  split; [done|]. by rewrite Hca, Hc, to_nat_len, drop_app_length.
Qed.

Section read_back.
Context (pooled : list byte).

Lemma ReadAddressPort_enc a port rest e :
  encodable a → is_u16 port →
  ReadAddressPort pooled muxParser None (mkStream (enc_addr_port a port ++ rest) e)
  = Ok (None, mkStream rest e, Some a, port).
Proof.
  intros Ha Hp. pose proof (enc_size_bound a Ha).
  assert (Hroom : room (New pooled) = 8192).
  { unfold room, New, arr, Size. cbn -[Z.to_nat replicate]. case_decide; len_lia. }
  unfold enc_addr_port. rewrite <- app_assoc.
  cbn [ReadAddressPort muxParser]. change (default (New pooled) None) with (New pooled).
  destruct (readPort_spec (New pooled) port (enc_address (type_byte a) a ++ rest) e (wf_New _) Hp)
    as (b1 & -> & Hb1 & _ & Hr1); [lia|]. cbn [mbind go_bind].
  match goal with |- context [readAddress ?ap] =>
    destruct (readAddress_spec ap b1 a (type_byte a) rest e Hb1 Ha ltac:(lia)) as (b2 & -> & _) end.
  - by destruct a.
  - destruct a; cbn; lia.
  - destruct a; cbn; lia.
  - by destruct a.
  - done.
Qed.

Lemma read_destination_spec what b d rest :
  wf b → addr_ok d → is_tcp_udp (d_Network d) = true → content b = enc_dest d ++ rest →
  ∃ b', read_destination pooled what b (Network_number (d_Network d) - 1) = Ok (d, b') ∧
    wf b' ∧ content b' = rest.
Proof.
  intros Hb [Hp Ha] Hnet Hc. unfold read_destination. rewrite Bytes_wf, Hc by done. cbn [mbind go_bind].
  unfold enc_dest in *. destruct d as [[a|] port net]; [|done]. cbn [d_Address d_Port d_Network] in *.
  rewrite ReadAddressPort_enc by done. rewrite len_app. cbn [sdata].
  replace (len (enc_addr_port a port) + len rest - len rest) with (len (enc_addr_port a port)) by lia.
  destruct (Advance_prefix b _ _ Hb Hc) as [Hw Hca]. exists (Advance b (len (enc_addr_port a port))).
  split; [|done]. apply bool_decide_eq_true in Hnet. destruct Hnet as [-> | ->]; done.
Qed.

Lemma read_optional_spec what b d more :
  wf b → optional_ok d → content b = enc_optional d more →
  if is_tcp_udp (d_Network d)
  then ∃ b', read_optional pooled what b = Ok (Some (d, b')) ∧ wf b' ∧ content b' = more
  else read_optional pooled what b = Ok None.
Proof.
  intros Hb Hd Hc. unfold enc_optional, read_optional in *. rewrite Len_wf by done.
  destruct (is_tcp_udp (d_Network d)) eqn:E; [|by rewrite Hc].
  rewrite Hc. rewrite decide_False by (rewrite len_cons; pose proof (len_nonneg (enc_dest d ++ more)); lia).
  rewrite (Byte_at b 0 (net_byte d)) by (done || by rewrite Hc). cbn [mbind go_bind].
  assert (byte_to_Z (net_byte d) = Network_number (d_Network d) - 1 ∧ Network_number (d_Network d) - 1 ≠ 0) as [-> Hnz].
  { unfold net_byte. apply bool_decide_eq_true in E. by destruct E as [-> | ->]. }
  rewrite decide_False by done.
  destruct (Advance_prefix b [net_byte d] (enc_dest d ++ more) Hb Hc) as [Hw Hca].
  change (len [net_byte d]) with 1 in *.
  destruct (read_destination_spec what (Advance b 1) d more Hw (Hd E) E Hca) as (b' & -> & ?). by exists b'.
Qed.

(** What the reader makes of the source and local addresses. *)
Definition optional_back (d : Destination) : Destination :=
  if is_tcp_udp (d_Network d) then d else no_destination.
Definition inbound_back (f : FrameMetadata) : Inbound :=
  match f_Inbound f with
  | Some i => mkInbound (optional_back (Source i))
      (if is_tcp_udp (d_Network (Source i)) then optional_back (Local i) else no_destination)
  | None => mkInbound no_destination no_destination
  end.

Lemma read_inbound_spec f udp b :
  frame_ok f udp → wf b → content b = enc_inbound f udp → (f_Inbound f ≠ None ∨ udp = None) →
  read_inbound pooled b = Ok (inbound_back f).
Proof.
  intros H Hb Hc Hor. unfold read_inbound, inbound_back, enc_inbound, optional_back in *.
  pose proof (fo_inbound _ _ H) as Hi. destruct (f_Inbound f) as [i|].
  - destruct Hi as [Hs Hl]. pose proof (read_optional_spec "reading source: " b _ _ Hb Hs Hc) as Hread.
    destruct (is_tcp_udp (d_Network (Source i))); [|by rewrite Hread].
    destruct Hread as (b1 & -> & Hb1 & Hc1). cbn [mbind go_bind].
    pose proof (read_optional_spec "reading local: " b1 _ _ Hb1 Hl Hc1) as Hread.
    destruct (is_tcp_udp (d_Network (Local i))); [|by rewrite Hread].
    by destruct Hread as (b2 & -> & _).
  - destruct Hor as [| ->]; [done|]. unfold read_optional. rewrite Len_wf, Hc by done. done.
Qed.

(** The frame a reader gets from the metadata of [f], written on a frame whose packet
    destination is [udp]. *)
Definition read_back (f : FrameMetadata) (udp : option Destination) (readSourceAndLocal : bool) : FrameMetadata :=
  let new := bool_decide (SessionStatus f = SessionStatusNew) in
  mkFrame
    (if new then Target f
     else match udp with
          | Some d => if decide (SessionStatus f = SessionStatusKeep)
                      then UDPDestination (d_Address d) (d_Port d) else no_destination
          | None => no_destination
          end)
    (SessionID f) (Option f) (SessionStatus f)
    (if new && negb readSourceAndLocal && Bitmask.Has (Option f) OptionData
        && bool_decide (d_Network (Target f) = Network_UDP) && bool_decide (udp ≠ None)
     then GlobalID f else replicate 8 x00)
    (if new && readSourceAndLocal then Some (inbound_back f) else None).

(** The reader and the writer agree on what follows the target: the source and local
    addresses, or the global ID. *)
Definition agree (f : FrameMetadata) (udp : option Destination) (readSourceAndLocal : bool) : Prop :=
  if readSourceAndLocal then f_Inbound f ≠ None ∨ udp = None else f_Inbound f = None.

(** Reading the target that follows the four fixed bytes. *)
Lemma read_target_spec b (hd : list byte) d more :
  wf b → content b = hd ++ net_byte d :: enc_dest d ++ more → len hd = 4 →
  addr_ok d → is_tcp_udp (d_Network d) = true →
  ∃ b', (if decide (len (content b) < 8) then Err (ErrMsg "insufficient buffer: ")
         else network ← Byte b 4; read_destination pooled "" (Advance b 5) (byte_to_Z network)) = Ok (d, b') ∧
    wf b' ∧ content b' = more.
Proof.
  intros Hb Hc Hh Ha Hnet. pose proof (len_enc_dest d Ha). pose proof (len_nonneg more).
  rewrite decide_False by (rewrite Hc, len_app, len_cons, len_app; lia).
  rewrite (Byte_at b 4 (net_byte d)); [|done| |lia].
  2:{ rewrite Hc, lookup_app_r by len_lia. by replace (Z.to_nat 4 - length hd)%nat with 0%nat by len_lia. }
  cbn [mbind go_bind].
  destruct (Advance_prefix b (hd ++ [net_byte d]) (enc_dest d ++ more) Hb) as [Hw Hca].
  { rewrite Hc, <- app_assoc. done. }
  rewrite len_snoc, Hh in *. change (4 + 1) with 5 in *.
  replace (byte_to_Z (net_byte d)) with (Network_number (d_Network d) - 1).
  - by apply read_destination_spec.
  - unfold net_byte. apply bool_decide_eq_true in Hnet. by destruct Hnet as [-> | ->].
Qed.

Lemma has_target_spec f udp b hd :
  frame_ok f udp → wf b → content b = hd ++ enc_target f udp → len hd = 4 →
  has_target (SessionStatus f) b =
  Ok (bool_decide (SessionStatus f = SessionStatusNew)
      || bool_decide (SessionStatus f = SessionStatusKeep) && bool_decide (udp ≠ None)).
Proof.
  intros H Hb Hc Hh. unfold has_target. destruct (decide (SessionStatus f = SessionStatusNew)) as [E|E].
  { by rewrite bool_decide_eq_true_2. }
  rewrite (bool_decide_eq_false_2 _ E). unfold enc_target in Hc. rewrite decide_False in Hc by done.
  rewrite Len_wf, Hc, len_app, Hh by done. cbn [orb]. destruct udp as [d|].
  - rewrite len_cons. pose proof (len_nonneg (enc_dest d)).
    destruct (decide (SessionStatus f = SessionStatusKeep)) as [K|K].
    + rewrite decide_True by (split; [done|lia]). rewrite (bool_decide_eq_true_2 _ K).
      rewrite (Byte_at b 4 x02); [done|done| |lia].
      rewrite Hc, lookup_app_r by len_lia. by replace (Z.to_nat 4 - length hd)%nat with 0%nat by len_lia.
    + rewrite decide_False by tauto. by rewrite (bool_decide_eq_false_2 _ K).
  - rewrite len_nil, decide_False by lia. by rewrite andb_false_r.
Qed.

Lemma finish_new f udp flag b :
  frame_ok f udp → agree f udp flag → SessionStatus f = SessionStatusNew →
  wf b → content b = enc_inbound f udp →
  finish pooled zero_frame (Target f) (SessionID f) (Option f) (SessionStatus f) b flag = Ok (read_back f udp flag).
Proof.
  intros H Hag E Hb Hc. unfold finish, read_back. rewrite (bool_decide_eq_true_2 _ E). cbn [andb].
  destruct flag; cbn [negb andb].
  - rewrite decide_True by done. by rewrite (read_inbound_spec f udp b H Hb Hc Hag).
  - rewrite (decide_False (P := _ ∧ false = true)) by (by intros []).
    cbn in Hag. unfold enc_inbound in Hc. rewrite Hag in Hc.
    rewrite Len_wf, Bytes_wf, Hc by done. pose proof (fo_gid _ _ H) as Hg.
    destruct udp as [d|].
    + rewrite (bool_decide_eq_true_2 (Some d ≠ None)) by done. rewrite andb_true_r.
      destruct (Bitmask.Has (Option f) OptionData) eqn:Eo; cbn [andb].
      2:{ rewrite decide_False by (intros (_ & ? & _); done). done. }
      destruct (decide (d_Network (Target f) = Network_UDP)) as [En|En].
      * rewrite decide_True by (split_and!; [done|done|done|unfold len; lia]).
        rewrite (bool_decide_eq_true_2 _ En). cbn [mbind go_bind]. rewrite take_ge by lia. by rewrite E.
      * rewrite decide_False by (intros (_ & _ & ? & _); done). by rewrite (bool_decide_eq_false_2 _ En), E.
    + rewrite decide_False by (intros (_ & _ & _ & ?); rewrite len_nil in *; lia).
      rewrite (bool_decide_eq_false_2 (None ≠ None)) by (intros X; by apply X). by rewrite andb_false_r.
Qed.

Lemma finish_other f target b flag :
  SessionStatus f ≠ SessionStatusNew →
  finish pooled zero_frame target (SessionID f) (Option f) (SessionStatus f) b flag
  = Ok (mkFrame target (SessionID f) (Option f) (SessionStatus f) (replicate 8 x00) None).
Proof. intros E. unfold finish. by rewrite !decide_False by tauto. Qed.

Lemma UnmarshalFromBuffer_spec f udp flag b :
  frame_ok f udp → agree f udp flag → wf b → content b = enc_meta f udp →
  UnmarshalFromBuffer pooled zero_frame b flag = Ok (read_back f udp flag).
Proof.
  intros H Hag Hb Hc. unfold UnmarshalFromBuffer. rewrite Len_wf by done.
  set (hd := put_be16 (SessionID f) ++ [byte_of_Z (SessionStatus f); byte_of_Z (Option f)]).
  assert (Hh : content b = hd ++ enc_target f udp) by (by rewrite Hc).
  assert (Hl : len (content b) = 4 + len (enc_target f udp)) by (rewrite Hh, len_app; done).
  pose proof (len_nonneg (enc_target f udp)). rewrite decide_False by lia.
  rewrite BytesTo_spec by (done || lia).
  replace (take (Z.to_nat 2) (content b)) with (put_be16 (SessionID f) ++ []) by (by rewrite Hc).
  cbn [mbind go_bind]. rewrite be16_put by apply H. cbn [ok_or_panic mbind go_bind].
  rewrite (Byte_at b 2 (byte_of_Z (SessionStatus f))) by (done || by rewrite Hc).
  rewrite (Byte_at b 3 (byte_of_Z (Option f))) by (done || by rewrite Hc). cbn [mbind go_bind].
  rewrite !byte_to_of_Z_small by apply H.
  rewrite (has_target_spec f udp b hd H Hb Hh eq_refl). cbn [mbind go_bind].
  destruct (decide (SessionStatus f = SessionStatusNew)) as [E|E].
  - rewrite (bool_decide_eq_true_2 _ E). cbn [orb].
    unfold enc_target in Hh. rewrite decide_True in Hh by done. destruct (fo_target _ _ H E) as [Hnet Ha].
    destruct (read_target_spec b hd (Target f) (enc_inbound f udp) Hb Hh eq_refl Ha Hnet) as (b' & -> & Hb' & Hc').
    by apply finish_new.
  - unfold read_back. rewrite (bool_decide_eq_false_2 _ E). cbn [orb andb].
    unfold enc_target in Hh. rewrite decide_False in Hh by done.
    pose proof (fo_udp _ _ H) as Hu. destruct udp as [d|].
    + rewrite (bool_decide_eq_true_2 (Some d ≠ None)) by done. rewrite andb_true_r.
      destruct (decide (SessionStatus f = SessionStatusKeep)) as [K|K].
      * rewrite (bool_decide_eq_true_2 _ K).
        destruct (read_target_spec b hd (UDPDestination (d_Address d) (d_Port d)) [] Hb) as (b' & -> & _ & _);
          [by rewrite app_nil_r|done|done|done|]. by apply finish_other.
      * rewrite (bool_decide_eq_false_2 _ K). by apply finish_other.
    + rewrite (bool_decide_eq_false_2 (None ≠ None)) by (intros X; by apply X). rewrite andb_false_r.
      by apply finish_other.
Qed.

Lemma ReadUint16_put z rest e :
  is_u16 z → ReadUint16 (mkStream (put_be16 z ++ rest) e) = Ok (z, mkStream rest e).
Proof.
  intros Hz. unfold ReadUint16, read_full. cbn [sdata serr]. pose proof (len_nonneg rest).
  rewrite decide_True by (rewrite len_app; change (len (put_be16 z)) with 2; lia).
  change (Z.to_nat 2) with (length (put_be16 z)). rewrite take_app_length, drop_app_length.
  rewrite <- (app_nil_r (put_be16 z)), be16_put by done. done.
Qed.

Lemma room_New : room (New pooled) = 8192.
Proof. unfold room, New, arr, Size. cbn -[Z.to_nat replicate]. case_decide; len_lia. Qed.

Lemma Unmarshal_spec f udp flag rest e :
  frame_ok f udp → agree f udp flag →
  Unmarshal pooled zero_frame (mkStream (put_be16 (len (enc_meta f udp)) ++ enc_meta f udp ++ rest) e) flag
  = if decide (len (enc_meta f udp) ≤ 512) then Ok (read_back f udp flag, mkStream rest e)
    else Err (ErrMsg "invalid metalen ").
Proof.
  intros H Hag. pose proof (len_enc_target f udp H) as Hlt.
  pose proof (len_enc_meta f udp) as Hl.
  pose proof (len_nonneg (enc_target f udp)).
  unfold Unmarshal. rewrite ReadUint16_put by (unfold is_u16; lia). cbn [mbind go_bind].
  destruct (decide (len (enc_meta f udp) ≤ 512)); [|by rewrite decide_True by lia].
  rewrite decide_False by lia.
  destruct (read_or_spec (New pooled) (enc_meta f udp) rest e _ (wf_New _) eq_refl) as (b & -> & Hb & Hc & _);
    [rewrite room_New; lia|]. cbn [mbind go_bind]. rewrite content_New in Hc.
  by rewrite (UnmarshalFromBuffer_spec f udp flag b H Hag Hb Hc).
Qed.

End read_back.

(** Mux frame metadata round-trips. For every frame a session can send (any status,
    option, ID, TCP or UDP target, with or without source and local addresses, on a stream
    or on a packet with its own destination), [WriteTo] succeeds on an empty buffer without
    panicking, and [Unmarshal] of the written bytes gives back every field that travels and
    consumes exactly those bytes. The one exception is the reader's own limit: metadata over
    512 bytes, which the writer emits when two of its addresses are long domains, is
    rejected. *)
Lemma frame_roundtrip pooled f b flag :
  frame_ok f (UDP b) → agree f (UDP b) flag → wf b → content b = [] → 786 ≤ room b →
  ∃ b', WriteTo f b = Ok b' ∧ wf b' ∧ len (content b') ≤ 786 ∧
    ∀ rest e, Unmarshal pooled zero_frame (mkStream (content b' ++ rest) e) flag
      = if decide (len (content b') ≤ 514) then Ok (read_back f (UDP b) flag, mkStream rest e)
        else Err (ErrMsg "invalid metalen ").
Proof.
  intros H Hag Hb Hc Hr. pose proof (len_enc_target f _ H) as Hlt.
  pose proof (len_enc_meta f (UDP b)) as Hl.
  destruct (WriteTo_appends f b H Hb ltac:(lia)) as (b' & -> & Hb' & Hc' & _).
  rewrite Hc in Hc'. cbn [app] in Hc'. exists b'. split; [done|]. split; [done|].
  rewrite Hc', len_app. change (len (put_be16 _)) with 2. split; [lia|].
  intros rest e. rewrite <- app_assoc, Unmarshal_spec by done.
  destruct (decide (len (enc_meta f (UDP b)) ≤ 512)), (decide (2 + len (enc_meta f (UDP b)) ≤ 514)); done || lia.
Qed.

Definition demo_target : Destination := UDPDestination (Some (domainAddress (s2b "example.com"))) 443.
Definition demo_frame : FrameMetadata := mkFrame demo_target 7 OptionData SessionStatusNew (replicate 8 x2a) None.
Definition demo_buffer : Buffer.t := set_UDP (New []) (Some demo_target).

Lemma demo_target_ok : addr_ok demo_target.
Proof.
  split; [unfold is_u16; cbn; lia|]. split; [done|]. split; [vm_compute; split; discriminate|].
  split; [reflexivity|]. discriminate.
Qed.

Lemma demo_frame_ok : frame_ok demo_frame (Some demo_target).
Proof.
  pose proof demo_target_ok as Ht. split; try done; unfold is_u16, is_u8; cbn; lia.
Qed.

Lemma frame_roundtrip_witness :
  ∃ b', WriteTo demo_frame demo_buffer = Ok b' ∧
    Unmarshal [] zero_frame (mkStream (content b' ++ [x01]) EOF) false
    = Ok (mkFrame demo_target 7 OptionData SessionStatusNew (replicate 8 x2a) None, mkStream [x01] EOF).
Proof.
  destruct (frame_roundtrip [] demo_frame demo_buffer false) as (b' & E & _ & _ & H).
  - exact demo_frame_ok.
  - reflexivity.
  - apply (wf_New []).
  - apply (content_New []).
  - vm_compute. discriminate.
  - exists b'. split; [exact E|]. rewrite H. rewrite decide_True; [reflexivity|].
    revert E. vm_compute. intros [= <-]. discriminate.
Defined.

(** ** The writer *)
Module MuxWriter.

Inductive TransferType := TransferTypeStream | TransferTypePacket.

#[global] Instance TransferType_eq_dec : EqDecision TransferType.
Proof. solve_decision. Defined.

Record t := mk {
  dest : Destination;
  id : Z;
  followup : bool;
  hasError : bool;
  transferType : TransferType;
  globalID : list byte;
  inbound : option Inbound
}.

Definition NewWriter (id : Z) (dest : Destination) (tt : TransferType) (globalID : list byte)
    (inbound : option Inbound) : t := mk dest id false false tt globalID inbound.
Definition NewResponseWriter (id : Z) (tt : TransferType) : t :=
  mk no_destination id true false tt (replicate 8 x00) None.

Definition set_followup (w : t) : t :=
  mk (dest w) (id w) true (hasError w) (transferType w) (globalID w) (inbound w).

Definition getNextFrameMeta (w : t) : FrameMetadata * t :=
  (mkFrame (dest w) (id w) 0 (if followup w then SessionStatusKeep else SessionStatusNew)
     (globalID w) (inbound w), set_followup w).

Section writer.
Context {S : Type} (sink : S → mbuf → S * option GoError) (pooled : list byte).

Definition writeMetaOnly (w : t) (s : S) : go (t * S * option GoError) :=
  let '(meta, w) := getNextFrameMeta w in
  match WriteTo meta (New pooled) with
  | Ok b => let '(s, err) := sink s [b] in Ok (w, s, err)
  | Err e => Ok (w, s, Some e)
  | Panic => Panic
  end.

Definition writeMetaWithFrame (s : S) (meta : FrameMetadata) (data : mbuf) : go (S * option GoError) :=
  let frame := New pooled in
  let frame := match data with [b] => set_UDP frame (UDP b) | _ => frame end in
  match WriteTo meta frame with
  | Panic => Panic
  | Err e => Ok (s, Some e)
  | Ok frame =>
      '(frame, _, err) ← Write frame (put_be16 (u16 (MultiBuffer.Len data)));
      match err with
      | Some e => Ok (s, Some e)
      | None => Ok (sink s (frame :: data))
      end
  end.

Definition writeData (w : t) (s : S) (mb : mbuf) : go (t * S * option GoError) :=
  let '(meta, w) := getNextFrameMeta w in
  let meta := mkFrame (Target meta) (SessionID meta) (Bitmask.Set_ (Option meta) OptionData)
                (SessionStatus meta) (GlobalID meta) (f_Inbound meta) in
  '(s, err) ← writeMetaWithFrame s meta mb;
  Ok (w, s, err).

(** The rest and the chunk cut off for the next frame. *)
Definition next_chunk (w : t) (mb : mbuf) : go (mbuf * mbuf) :=
  if decide (transferType w = TransferTypeStream) then SplitSize pooled mb (8 * 1024)
  else let '(mb2, b) := SplitFirst mb in b ← ok_or_panic b; Ok (mb2, [b]).

Fixpoint write_loop (fuel : nat) (w : t) (s : S) (mb : mbuf) : go (t * S * option GoError) :=
  match fuel with
  | O => Panic
  | Datatypes.S fuel =>
      if MultiBuffer.IsEmpty mb then Ok (w, s, None)
      else
        '(mb, chunk) ← next_chunk w mb;
        '(w, s, err) ← writeData w s chunk;
        match err with
        | Some e => Ok (w, s, Some e)
        | None => write_loop fuel w s mb
        end
  end.

(** [WriteMultiBuffer]; every chunk takes a byte or a buffer, which bounds the loop. *)
Definition WriteMultiBuffer (w : t) (s : S) (mb : mbuf) : go (t * S * option GoError) :=
  if MultiBuffer.IsEmpty mb then writeMetaOnly w s
  else write_loop (1 + length mb + length (mcontent mb)) w s mb.

(** [Close]: the end frame; what the writer says to it is ignored. *)
Definition Close (w : t) (s : S) : go S :=
  let meta := mkFrame no_destination (id w) (if hasError w then Bitmask.Set_ 0 OptionError else 0)
                SessionStatusEnd (replicate 8 x00) None in
  match WriteTo meta (New pooled) with
  | Ok frame => Ok (sink s [frame]).1
  | _ => Panic
  end.

End writer.

End MuxWriter.

(** ** The reader of one packet *)
Module PacketReader.

Record t := mk { reader : Stream; eof : bool; dest : option Destination }.

Definition NewPacketReader (r : Stream) (d : option Destination) : t := mk r false d.

Definition ReadMultiBuffer (pooled : list byte) (p : t) : go (t * mbuf) :=
  if eof p then Err EOF
  else
    '(size, r) ← ReadUint16 (reader p);
    if decide (Size < size) then Err (ErrMsg "packet size too large: ")
    else
      '(b, r) ← read_or (New pooled) r size;
      let b := match dest p with
               | Some d => if decide (d_Network d = Network_UDP) then set_UDP b (Some d) else b
               | None => b
               end in
      Ok (mk r true (dest p), [b]).

End PacketReader.

(** ** The frames of a session *)

(** Reading one frame: its metadata, then its data where it has any. *)
Definition read_frame (pooled : list byte) (flag : bool) (r : Stream)
    : go (FrameMetadata * list byte * Stream) :=
  '(f, r) ← Unmarshal pooled zero_frame r flag;
  if Bitmask.Has (Option f) OptionData then
    '(p, mb) ← PacketReader.ReadMultiBuffer pooled (PacketReader.NewPacketReader r None);
    Ok (f, mcontent mb, PacketReader.reader p)
  else Ok (f, [], r).

Fixpoint read_frames (pooled : list byte) (flag : bool) (n : nat) (r : Stream)
    : go (list (FrameMetadata * list byte) * Stream) :=
  match n with
  | O => Ok ([], r)
  | S n =>
      '(f, d, r) ← read_frame pooled flag r;
      '(fs, r) ← read_frames pooled flag n r;
      Ok ((f, d) :: fs, r)
  end.

Section frames.
Import MuxWriter.
Context (pooled : list byte).

(** A connection that takes everything. *)
Definition accept (s : list mbuf) (mb : mbuf) : list mbuf * option GoError := (s ++ [mb], None).

Definition chunk_udp (chunk : mbuf) : option Destination := match chunk with [b] => UDP b | _ => None end.

(** The metadata of a data frame of the session, the first or a later one. *)
Definition meta_for (w : MuxWriter.t) (first : bool) : FrameMetadata :=
  mkFrame (dest w) (id w) OptionData (if first then SessionStatusNew else SessionStatusKeep)
    (globalID w) (inbound w).

Record writer_ok (w : MuxWriter.t) : Prop := {
  wo_id : is_u16 (id w);
  wo_gid : length (globalID w) = 8%nat;
  wo_dest : followup w = false → is_tcp_udp (d_Network (dest w)) = true ∧ addr_ok (dest w);
  wo_inbound : match inbound w with Some i => optional_ok (Source i) ∧ optional_ok (Local i) | None => True end;
  wo_size : inbound w = None ∨ len (enc_meta (meta_for w true) None) ≤ 512
}.

Definition udp_ok (u : option Destination) : Prop := match u with Some d => addr_ok d | None => True end.

Lemma meta_for_ok w udp : writer_ok w → udp_ok udp → frame_ok (meta_for w (negb (followup w))) udp.
Proof.
  intros H Hu. pose proof (wo_dest _ H) as Hd. split; cbn [meta_for SessionID Option SessionStatus GlobalID Target f_Inbound].
  - apply H.
  - unfold is_u8, OptionData. lia.
  - unfold is_u8, SessionStatusKeep, SessionStatusNew. destruct (followup w); cbn; lia.
  - apply H.
  - destruct (followup w); [done|auto].
  - apply H.
  - done.
Qed.

Lemma meta_for_small w udp :
  writer_ok w → udp_ok udp → len (enc_meta (meta_for w (negb (followup w))) udp) ≤ 512.
Proof.
  intros H Hu. destruct (followup w) eqn:Ef; cbn [negb]; rewrite len_enc_meta; unfold enc_target.
  - rewrite decide_False by done. destruct udp as [d|]; [|rewrite len_nil; lia].
    pose proof (len_enc_dest d Hu). rewrite len_cons. lia.
  - pose proof (wo_size _ H) as Hs. rewrite len_enc_meta in Hs. unfold enc_target in Hs.
    rewrite decide_True in * by done. destruct (wo_dest _ H Ef) as [_ Ha]. pose proof (len_enc_dest _ Ha).
    unfold enc_inbound in *. cbn [f_Inbound meta_for GlobalID Target] in *. destruct (inbound w) as [i|] eqn:Ei.
    + destruct Hs as [|Hs]; [done|exact Hs].
    + rewrite len_cons, len_app. pose proof (wo_gid _ H).
      destruct udp; [unfold len in *; lia|rewrite len_nil; lia].
Qed.

Lemma writeData_spec w s chunk :
  writer_ok w → Forall wf chunk → udp_ok (chunk_udp chunk) → len (mcontent chunk) ≤ 8192 →
  let m := enc_meta (meta_for w (negb (followup w))) (chunk_udp chunk) in
  ∃ frame, writeData accept pooled w s chunk = Ok (set_followup w, s ++ [frame :: chunk], None) ∧
    content frame = put_be16 (len m) ++ m ++ put_be16 (len (mcontent chunk)).
Proof.
  intros H Hc Hu Hl m. unfold writeData, getNextFrameMeta. cbn [Target SessionID Option SessionStatus GlobalID f_Inbound].
  change (Bitmask.Set_ 0 OptionData) with OptionData.
  replace (mkFrame _ _ _ _ _ _) with (meta_for w (negb (followup w))) by (unfold meta_for; by destruct (followup w)).
  pose proof (meta_for_ok w _ H Hu) as Hf. pose proof (meta_for_small w _ H Hu) as Hsm. fold m in Hsm.
  unfold writeMetaWithFrame.
  set (fr := match chunk with [b] => set_UDP (New pooled) (UDP b) | _ => New pooled end).
  assert (wf fr ∧ content fr = [] ∧ room fr = 8192 ∧ UDP fr = chunk_udp chunk) as (Hw & Hcf & Hr & Hud).
  { pose proof (wf_New pooled). pose proof (content_New pooled). pose proof (room_New pooled).
    unfold fr. destruct chunk as [|? [|? ?]]; done. }
  rewrite <- Hud in Hf. destruct (WriteTo_appends _ fr Hf Hw) as (b1 & -> & Hb1 & Hc1 & Hr1 & _ & _).
  { rewrite Hud, Hr. fold m. lia. }
  rewrite Hud in *. fold m in Hc1, Hr1. rewrite len_app in Hr1. change (len (put_be16 (len m))) with 2 in Hr1.
  pose proof (len_nonneg (mcontent chunk)).
  assert (MultiBuffer.Len chunk = len (mcontent chunk)) as ->.
  { unfold MultiBuffer.Len. rewrite Len_loop_spec by (done || lia). lia. }
  rewrite u16_small by (unfold is_u16; lia).
  destruct (Write_spec b1 (put_be16 (len (mcontent chunk))) Hb1) as (b2 & E & _ & Hc2 & _).
  rewrite take_ge in E, Hc2 by (change (length (put_be16 _)) with 2%nat; lia).
  change (len (put_be16 (len (mcontent chunk)))) with 2 in E. rewrite decide_False in E by lia.
  rewrite E. cbn [mbind go_bind accept]. exists b2. split; [done|].
  by rewrite Hc2, Hc1, Hcf, <- app_assoc.
Qed.

Lemma read_frame_spec w chunk flag rest e :
  writer_ok w → udp_ok (chunk_udp chunk) → len (mcontent chunk) ≤ 8192 →
  flag = bool_decide (inbound w ≠ None) →
  let f := meta_for w (negb (followup w)) in
  let m := enc_meta f (chunk_udp chunk) in
  read_frame pooled flag
    (mkStream ((put_be16 (len m) ++ m ++ put_be16 (len (mcontent chunk))) ++ mcontent chunk ++ rest) e)
  = Ok (read_back f (chunk_udp chunk) flag, mcontent chunk, mkStream rest e).
Proof.
  intros H Hu Hl Hflag f m. pose proof (meta_for_ok w _ H Hu) as Hf. fold f in Hf.
  pose proof (meta_for_small w _ H Hu) as Hsm. fold f m in Hsm.
  pose proof (len_nonneg (mcontent chunk)). unfold read_frame. rewrite <- !app_assoc.
  unfold m. rewrite Unmarshal_spec; [|done|].
  2:{ unfold agree. rewrite Hflag. cbn. destruct (inbound w); [by left|done]. }
  fold m. rewrite decide_True by done. cbn [mbind go_bind].
  change (Option (read_back f (chunk_udp chunk) flag)) with OptionData.
  change (Bitmask.Has OptionData OptionData) with true. cbv iota.
  unfold PacketReader.ReadMultiBuffer. cbn [PacketReader.NewPacketReader PacketReader.eof PacketReader.reader].
  rewrite ReadUint16_put by (unfold is_u16; lia). cbn [mbind go_bind].
  rewrite decide_False by (unfold Size; lia).
  destruct (read_or_spec (New pooled) (mcontent chunk) rest e _ (wf_New _) eq_refl) as (b & -> & Hb & Hc & _);
    [rewrite room_New; lia|]. cbn [mbind go_bind PacketReader.NewPacketReader PacketReader.dest PacketReader.reader].
  rewrite (mcontent_cons b), Hc, content_New. change (mcontent []) with (@nil byte). by rewrite app_nil_r.
Qed.

(** The frames of the chunks [cs], in order: only the very first of a session is a new one. *)
Definition frames_of (w : MuxWriter.t) (flag : bool) (cs : list mbuf) : list (FrameMetadata * list byte) :=
  let fr first c := (read_back (meta_for w first) (chunk_udp c) flag, mcontent c) in
  match cs with [] => [] | c :: cs => fr (negb (followup w)) c :: (fr false <$> cs) end.

Definition buffer_ok (w : MuxWriter.t) (b : Buffer.t) : Prop :=
  udp_ok (UDP b) ∧ (transferType w = TransferTypePacket → len (content b) ≤ 8192).

Lemma next_chunk_spec w mb :
  Forall wf mb → Forall (buffer_ok w) mb → len (mcontent mb) < 2147483648 - Size → mb ≠ [] →
  ∃ rest chunk, next_chunk pooled w mb = Ok (rest, chunk) ∧ Forall wf rest ∧ Forall wf chunk ∧
    Forall (buffer_ok w) rest ∧ udp_ok (chunk_udp chunk) ∧ len (mcontent chunk) ≤ 8192 ∧
    mcontent chunk ++ mcontent rest = mcontent mb ∧
    (transferType w = TransferTypePacket → length chunk = 1%nat) ∧
    (length rest + length (mcontent rest) < length mb + length (mcontent mb))%nat.
Proof.
  intros Hmb Hok Hl Hne. unfold next_chunk. destruct (decide (transferType w = TransferTypeStream)) as [Et|Et].
  - change (8 * 1024) with 8192. destruct (SplitSize_spec pooled mb 8192 Hmb) as (rest & chunk & -> & Hr & Hc & Hcat & Hle & _ & Hdec & HP);
      [unfold Size; lia|done|].
    exists rest, chunk. split; [done|]. split; [done|]. split; [done|].
    assert (Forall (λ b, udp_ok (UDP b)) (chunk ++ rest)) as [Hu1 Hu2]%Forall_app.
    { apply HP; [done|]. eapply list.Forall_impl; [exact Hok|]. by intros b []. }
    split. { eapply list.Forall_impl; [exact Hu2|]. intros b ?. split; [done|]. by rewrite Et. }
    split. { destruct chunk as [|b [|? ?]]; [done| |done]. by apply Forall_cons_1 in Hu1 as []. }
    split; [done|]. split; [done|]. split; [by rewrite Et|]. apply Hdec; [done|lia].
  - destruct mb as [|b mb]; [done|]. cbn [SplitFirst ok_or_panic mbind go_bind].
    apply Forall_cons_1 in Hmb as [Hb Hmb], Hok as [[Hu Hsz] Hok].
    exists mb, [b]. split; [done|]. split; [done|]. split; [by apply Forall_singleton|]. split; [done|].
    split; [done|]. rewrite !mcontent_cons. change (mcontent []) with (@nil byte). rewrite app_nil_r.
    split; [apply Hsz; by destruct (transferType w)|]. split; [done|]. split; [done|].
    rewrite length_app. cbn [length]. lia.
Qed.

Lemma write_loop_spec fuel : ∀ w s mb,
  writer_ok w → Forall wf mb → Forall (buffer_ok w) mb → len (mcontent mb) < 2147483648 - Size →
  (length mb + length (mcontent mb) < fuel)%nat →
  ∃ w' out cs, write_loop accept pooled fuel w s mb = Ok (w', s ++ out, None) ∧
    mcontent (concat cs) = mcontent mb ∧ Forall (λ c, len (mcontent c) ≤ 8192) cs ∧
    (transferType w = TransferTypePacket → Forall (λ c, length c = 1%nat) cs) ∧
    ∀ rest e, read_frames pooled (bool_decide (inbound w ≠ None)) (length cs)
                (mkStream (mcontent (concat out) ++ rest) e)
              = Ok (frames_of w (bool_decide (inbound w ≠ None)) cs, mkStream rest e).
Proof.
  induction fuel as [|fuel IH]; intros w s mb H Hmb Hok Hl Hfuel; [lia|]. cbn [write_loop].
  destruct (MultiBuffer.IsEmpty mb) eqn:Ee.
  { exists w, [], []. rewrite app_nil_r. split; [done|]. apply IsEmpty_spec in Ee; [|done].
    split; [done|]. split; [apply Forall_nil_2|]. split; [intros; apply Forall_nil_2|]. done. }
  assert (mb ≠ []) as Hne by (by intros ->).
  destruct (next_chunk_spec w mb Hmb Hok Hl Hne) as (rest & c & -> & Hr & Hc & Hrok & Hu & Hle & Hcat & Hone & Hdec).
  cbn [mbind go_bind].
  destruct (writeData_spec w s c H Hc Hu Hle) as (frame & -> & Hframe). cbn [mbind go_bind].
  assert (Hlr : len (mcontent rest) < 2147483648 - Size).
  { rewrite <- Hcat, len_app in Hl. pose proof (len_nonneg (mcontent c)). lia. }
  destruct (IH (set_followup w) (s ++ [frame :: c]) rest) as (w' & out & cs & E & Hcc & Hsz & Hpk & Hread);
    [by constructor; try apply H|done|done|done|lia|].
  exists w', ((frame :: c) :: out), (c :: cs). split; [by rewrite E, <- app_assoc|].
  cbn [concat]. rewrite !mcontent_app, Hcc. split; [done|]. split; [by apply Forall_cons_2|].
  split; [intros Ht; apply Forall_cons_2; auto|]. intros tl e. cbn [length read_frames].
  rewrite mcontent_cons, Hframe, <- !app_assoc. rewrite (app_assoc _ (put_be16 _)), (app_assoc (put_be16 _)).
  rewrite (read_frame_spec w c) by done. cbn [mbind go_bind].
  specialize (Hread tl e). cbn [set_followup inbound] in Hread. rewrite Hread. cbn [mbind go_bind].
  do 3 f_equal. by destruct cs.
Qed.

End frames.

(** The mux writer and the frame reader agree. On a connection that accepts writes,
    [WriteMultiBuffer] of any non-empty data terminates without error or panic and cuts it
    into chunks of at most 8 KiB (one buffer each for packets), whose concatenation is the
    data; reading the connection's bytes frame by frame gives exactly those chunks in order,
    each with the session's ID and the data flag, the first one as a new session with its
    target (and source, local address or global ID), the others as continuations with the
    packet's destination, and leaves what follows unread. *)
Lemma mux_writer_frames pooled w mb :
  writer_ok w → Forall wf mb → Forall (buffer_ok w) mb →
  len (mcontent mb) < 2147483648 - Size → mcontent mb ≠ [] →
  let flag := bool_decide (MuxWriter.inbound w ≠ None) in
  ∃ w' out cs, MuxWriter.WriteMultiBuffer accept pooled w [] mb = Ok (w', out, None) ∧
    mcontent (concat cs) = mcontent mb ∧ Forall (λ c, len (mcontent c) ≤ 8192) cs ∧
    (MuxWriter.transferType w = MuxWriter.TransferTypePacket → Forall (λ c, length c = 1%nat) cs) ∧
    ∀ rest e, read_frames pooled flag (length cs) (mkStream (mcontent (concat out) ++ rest) e)
              = Ok (frames_of w flag cs, mkStream rest e).
Proof.
  intros H Hmb Hok Hl Hne flag. unfold MuxWriter.WriteMultiBuffer.
  destruct (MultiBuffer.IsEmpty mb) eqn:Ee; [by apply IsEmpty_spec in Ee|].
  apply (write_loop_spec pooled _ w [] mb H Hmb Hok Hl). lia.
Qed.

Definition demo_writer : MuxWriter.t :=
  MuxWriter.NewWriter 7 demo_target MuxWriter.TransferTypePacket (replicate 8 x2a) None.
Definition demo_packets : mbuf := [FromBytes (s2b "one"); set_UDP (FromBytes (s2b "two")) (Some demo_target)].

Lemma mux_writer_frames_witness :
  ∃ w' out, MuxWriter.WriteMultiBuffer accept [] demo_writer [] demo_packets = Ok (w', out, None) ∧
    MuxWriter.followup w' = true ∧ length out = 2%nat.
Proof.
  destruct (mux_writer_frames [] demo_writer demo_packets) as (w' & out & cs & E & _).
  - pose proof demo_target_ok as Ht. split; try done; try (by left); unfold is_u16; cbn; lia.
  - apply Forall_cons_2; [by apply wf_FromBytes|]. apply Forall_singleton.
    destruct (wf_FromBytes (s2b "two")) as [Hw _]; [done|]. exact Hw.
  - pose proof demo_target_ok as Ht.
    apply Forall_cons_2; [split; [done|]; intros _; vm_compute; discriminate|]. apply Forall_singleton.
    split; [exact Ht|]. intros _. vm_compute. discriminate.
  - vm_compute. reflexivity.
  - vm_compute. discriminate.
  - exists w', out. split; [exact E|]. revert E. vm_compute. by intros [= <- <-].
Defined.
