(* ===== verification/StrMatcher.v ===== *)
(** * Domain matching

    Models [common/geodata/strmatcher]: the four kinds of matchers (full, domain, substring,
    regular expression), the groups and sets that index them (hash table, label trie, list),
    and the linear matchers that combine the groups for routing and DNS rules. Strings are
    lists of bytes. Regular expressions and the Punycode conversion are libraries: what they
    answer is a parameter. *)

From S2P Require Import Prelude.
From stdpp Require Import sorting.
#[local] Open Scope Z_scope.

Abbreviation str := (list byte).

Definition dot : byte := x2e.

(** ** Strings *)

(** [strings.HasSuffix]. *)
Definition HasSuffix (s p : str) : bool :=
  bool_decide (length p ≤ length s)%nat && bool_decide (drop (length s - length p) s = p).

(** [p] stands at position [k] of [s]. *)
Definition occurs (s p : str) (k : nat) : bool := bool_decide (take (length p) (drop k s) = p).

(** [strings.LastIndex], [None] for -1. *)
Fixpoint last_index_from (s p : str) (k : nat) : option nat :=
  if occurs s p k then Some k
  else match k with O => None | S k => last_index_from s p k end.
Definition LastIndex (s p : str) : option nat :=
  if decide (length s < length p)%nat then None else last_index_from s p (length s - length p).

(** [strings.Contains]. *)
Definition Contains (s p : str) : bool := bool_decide (is_Some (LastIndex s p)).

(** [strings.ToLower] on ASCII. *)
Definition lower (c : byte) : byte :=
  if decide (65 ≤ byte_to_Z c ≤ 90) then byte_of_Z (byte_to_Z c + 32) else c.
Definition ToLower (s : str) : str := lower <$> s.

(** ** Matchers *)

Inductive Matcher :=
| FullMatcher (pattern : str)
| DomainMatcher (pattern : str)
| SubstrMatcher (pattern : str)
| RegexMatcher (pattern : str).

Definition Pattern (m : Matcher) : str :=
  match m with FullMatcher p | DomainMatcher p | SubstrMatcher p | RegexMatcher p => p end.

Inductive Type_ := Full | Domain | Substr | Regex.

Definition Matcher_Type (m : Matcher) : Type_ :=
  match m with
  | FullMatcher _ => Full | DomainMatcher _ => Domain | SubstrMatcher _ => Substr | RegexMatcher _ => Regex
  end.

Definition DomainMatcher_Match (pattern s : str) : bool :=
  if negb (HasSuffix s pattern) then false
  else bool_decide (length s = length pattern)
       || bool_decide (s !! (length s - length pattern - 1)%nat = Some dot).

Section regexp.
Context (MatchString : str → str → bool).

Definition Matcher_Match (m : Matcher) (s : str) : bool :=
  match m with
  | FullMatcher p => bool_decide (p = s)
  | DomainMatcher p => DomainMatcher_Match p s
  | SubstrMatcher p => Contains s p
  | RegexMatcher p => MatchString p s
  end.

End regexp.

(** [Type.New]: [Compile] tells whether the regular expression compiles. *)
Definition Type_New (Compile : str → option GoError) (t : Type_) (pattern : str) : go Matcher :=
  match t with
  | Full => Ok (FullMatcher pattern)
  | Substr => Ok (SubstrMatcher pattern)
  | Domain => Ok (DomainMatcher pattern)
  | Regex => match Compile pattern with Some err => Err err | None => Ok (RegexMatcher pattern) end
  end.

(** *** Validation of domain patterns *)

Inductive CharClass := NonASCII | Upper | Allowed | Refused.

Definition classify (c : byte) : CharClass :=
  let z := byte_to_Z c in
  if decide (128 ≤ z) then NonASCII
  else if decide (65 ≤ z ≤ 90) then Upper
  else if decide (97 ≤ z ≤ 122 ∨ 48 ≤ z ≤ 57 ∨ c = x2d ∨ c = dot) then Allowed
  else Refused.

(** One pass over the pattern: [None] when a character is refused, else [isASCII] and
    [hasUpper]. *)
Fixpoint scan_pattern (p : str) (hasUpper : bool) : option (bool * bool) :=
  match p with
  | [] => Some (true, hasUpper)
  | c :: p =>
      match classify c with
      | NonASCII => Some (false, hasUpper)
      | Upper => scan_pattern p true
      | Allowed => scan_pattern p hasUpper
      | Refused => None
      end
  end.

(** [ToDomain]; [ToASCII] is the Punycode conversion. The loop runs again after a
    conversion. *)
Fixpoint ToDomain (ToASCII : str → str + GoError) (fuel : nat) (pattern : str) : go str :=
  match fuel with
  | O => Panic
  | S fuel =>
      match scan_pattern pattern false with
      | None => Err (ErrMsg "pattern string does not conform to Letter-Digit-Hyphen (LDH) subset")
      | Some (false, _) =>
          match ToASCII pattern with
          | inr err => Err err
          | inl pattern => ToDomain ToASCII fuel pattern
          end
      | Some (true, hasUpper) => Ok (if hasUpper : bool then ToLower pattern else pattern)
      end
  end.

Definition NewDomainPattern (ToASCII : str → str + GoError) (Compile : str → option GoError)
    (fuel : nat) (t : Type_) (pattern : str) : go Matcher :=
  match t with
  | Full => p ← ToDomain ToASCII fuel pattern; Ok (FullMatcher p)
  | Substr => p ← ToDomain ToASCII fuel pattern; Ok (SubstrMatcher p)
  | Domain => p ← ToDomain ToASCII fuel pattern; Ok (DomainMatcher p)
  | Regex => match Compile pattern with Some err => Err err | None => Ok (RegexMatcher pattern) end
  end.

(** ** Composite results *)

Definition CompositeMatches (matches : list (list Z)) : list Z :=
  match matches with [] => [] | [m] => m | _ => foldl (++) [] matches end.

(** The default case walks from the last match to the first. *)
Definition CompositeMatchesReverse (matches : list (list Z)) : list Z :=
  match matches with [] => [] | [m] => m | _ => foldr (λ m result, result ++ m) [] matches end.

(** ** The label trie *)
Module Trie.

(** The inner loops of the trie: the label that ends at [i], scanning down from [j],
    and the position before it. *)
Fixpoint scan (s : str) (i j : nat) : str * nat :=
  if decide (s !! j = Some dot) then (take (i - (j + 1)) (drop (j + 1) s), j)
  else match j with O => (take i s, O) | S j => scan s i j end.

(** A node, with its values (or whether it is matched) and its children; [children] is
    nil exactly when it is empty, because it is made right before the first insertion. *)
#[warnings="-register-all"]
Inductive node (V : Type) := Node (values : V) (children : gmap str (node V)).
Arguments Node {_} _ _.

Section trie.
Context {V : Type} (new : V).

Definition values (n : node V) : V := let 'Node v _ := n in v.
Definition children (n : node V) : gmap str (node V) := let 'Node _ c := n in c.
Definition empty : node V := Node new ∅.

(** The loop of [AddDomainMatcher] from position [i]; [upd] changes the values of the node
    it ends on. *)
Fixpoint add_loop (fuel : nat) (upd : V → V) (pattern : str) (i : nat) (n : node V) : node V :=
  match fuel, i with
  | O, _ | _, O => Node (upd (values n)) (children n)
  | S fuel, _ =>
      let '(part, i) := scan pattern i (i - 1) in
      let next := default empty (children n !! part) in
      Node (values n) (<[part := add_loop fuel upd pattern i next]> (children n))
  end.

Definition add (upd : V → V) (pattern : str) (root : node V) : node V :=
  add_loop (length pattern) upd pattern (length pattern) root.

(** The loop of [Match] with its accumulator: the values of the nodes on the way where there
    are any, until there is no edge or no child. *)
Fixpoint match_loop (found : V → bool) (fuel : nat) (input : str) (i : nat) (n : node V)
    (matches : list V) : list V :=
  match fuel, i with
  | O, _ | _, O => matches
  | S fuel, _ =>
      let '(part, i) := scan input i (i - 1) in
      match children n !! part with
      | None => matches
      | Some n =>
          let matches := if found (values n) then matches ++ [values n] else matches in
          if decide (size (children n) = 0%nat) then matches
          else match_loop found fuel input i n matches
      end
  end.

(** The loop of [MatchAny]. *)
Fixpoint any_loop (found : V → bool) (fuel : nat) (input : str) (i : nat) (n : node V) : bool :=
  match fuel, i with
  | O, _ | _, O => false
  | S fuel, _ =>
      let '(part, i) := scan input i (i - 1) in
      match children n !! part with
      | None => false
      | Some n =>
          if found (values n) then true
          else if decide (size (children n) = 0%nat) then false
          else any_loop found fuel input i n
      end
  end.

End trie.
End Trie.

(** ** Groups of matchers with values *)
Module FullMatcherGroup.

Abbreviation t := (gmap str (list Z)).
Definition AddFullMatcher (g : t) (pattern : str) (value : Z) : t :=
  <[pattern := default [] (g !! pattern) ++ [value]]> g.
Definition Match (g : t) (input : str) : list Z := default [] (g !! input).
Definition MatchAny (g : t) (input : str) : bool := bool_decide (is_Some (g !! input)).

End FullMatcherGroup.

Module DomainMatcherGroup.

Definition t : Type := Trie.node (list Z).
Definition NewDomainMatcherGroup : t := Trie.empty [].

Definition AddDomainMatcher (g : t) (pattern : str) (value : Z) : t :=
  Trie.add [] (λ vs, vs ++ [value]) pattern g.

Definition found (vs : list Z) : bool := match vs with [] => false | _ => true end.

Definition Match (g : t) (input : str) : list Z :=
  CompositeMatchesReverse (Trie.match_loop found (length input) input (length input) g []).
Definition MatchAny (g : t) (input : str) : bool :=
  Trie.any_loop found (length input) input (length input) g.

End DomainMatcherGroup.

Module SubstrMatcherGroup.

Record t := mk { patterns : list str; values : list Z }.
Definition AddSubstrMatcher (g : t) (pattern : str) (value : Z) : t :=
  mk (patterns g ++ [pattern]) (values g ++ [value]).

(** [uint32(j)<<16 | uint32(i)&0xffff]. *)
Definition entry (j i : nat) : Z :=
  Z.lor (u32 (Z.shiftl (u32 (Z.of_nat j)) 16)) (Z.land (u32 (Z.of_nat i)) 0xffff).

(** The loop over the occurrences of one pattern, from the last to the first; running out
    of [fuel] is not returning. *)
Fixpoint occurrences (fuel : nat) (input pattern : str) (i : nat) (j : option nat) : go (list Z) :=
  match fuel, j with
  | _, None => Ok []
  | O, Some _ => Panic
  | S fuel, Some j =>
      rest ← occurrences fuel input pattern i (LastIndex (take j input) pattern);
      Ok (entry j i :: rest)
  end.

Fixpoint matches_loop (fuel : nat) (input : str) (i : nat) (ps : list str) : go (list Z) :=
  match ps with
  | [] => Ok []
  | pattern :: ps =>
      r ← occurrences fuel input pattern i (LastIndex input pattern);
      rs ← matches_loop fuel input (S i) ps;
      Ok (r ++ rs)
  end.

Definition sort (result : list Z) : list Z :=
  match result with
  | [] => []
  | [a] => [a]
  | [a; b] => if decide (a > b) then [b; a] else [a; b]
  | _ => merge_sort Z.le result
  end.

Fixpoint lookup_values (g : t) (result : list Z) : go (list Z) :=
  match result with
  | [] => Ok []
  | e :: result =>
      v ← ok_or_panic (index (values g) (Z.land e 0xffff));
      vs ← lookup_values g result;
      Ok (v :: vs)
  end.

(** Every occurrence found starts before the last one, so the length of the input bounds
    the loops. *)
Definition Match (g : t) (input : str) : go (list Z) :=
  result ← matches_loop (S (length input)) input 0 (patterns g);
  lookup_values g (sort result).

Definition MatchAny (g : t) (input : str) : bool := existsb (Contains input) (patterns g).

End SubstrMatcherGroup.

Abbreviation SimpleMatcherGroup := (list (Matcher * Z)).

Section regexp.
Context (MatchString : str → str → bool).

(** [SimpleMatcherGroup]: the entries in order. *)
Definition Simple_AddMatcher (g : SimpleMatcherGroup) (m : Matcher) (value : Z) : SimpleMatcherGroup :=
  g ++ [(m, value)].
Fixpoint Simple_Match (g : SimpleMatcherGroup) (input : str) : list Z :=
  match g with
  | [] => []
  | (m, v) :: g => if Matcher_Match MatchString m input then v :: Simple_Match g input else Simple_Match g input
  end.
Fixpoint Simple_MatchAny (g : SimpleMatcherGroup) (input : str) : bool :=
  match g with
  | [] => false
  | (m, _) :: g => if Matcher_Match MatchString m input then true else Simple_MatchAny g input
  end.

(** *** [LinearValueMatcher] *)

Record LinearValueMatcher := mkLinear {
  full : option FullMatcherGroup.t;
  domain : option DomainMatcherGroup.t;
  substr : option SubstrMatcherGroup.t;
  regex : option SimpleMatcherGroup
}.

Definition NewLinearValueMatcher : LinearValueMatcher := mkLinear None None None None.

Definition Value_Add (g : LinearValueMatcher) (m : Matcher) (value : Z) : LinearValueMatcher :=
  match m with
  | FullMatcher p =>
      mkLinear (Some (FullMatcherGroup.AddFullMatcher (default ∅ (full g)) p value)) (domain g) (substr g) (regex g)
  | DomainMatcher p =>
      mkLinear (full g)
        (Some (DomainMatcherGroup.AddDomainMatcher (default DomainMatcherGroup.NewDomainMatcherGroup (domain g)) p value))
        (substr g) (regex g)
  | SubstrMatcher p =>
      mkLinear (full g) (domain g)
        (Some (SubstrMatcherGroup.AddSubstrMatcher (default (SubstrMatcherGroup.mk [] []) (substr g)) p value))
        (regex g)
  | RegexMatcher _ =>
      mkLinear (full g) (domain g) (substr g) (Some (Simple_AddMatcher (default [] (regex g)) m value))
  end.

(** [if matches := ...; len(matches) > 0 { result = append(result, matches) }]. *)
Definition append_matches (result : list (list Z)) (matches : list Z) : list (list Z) :=
  match matches with [] => result | _ => result ++ [matches] end.

Definition Value_Match (g : LinearValueMatcher) (input : str) : go (list Z) :=
  let result := match full g with
                | Some f => append_matches [] (FullMatcherGroup.Match f input) | None => [] end in
  let result := match domain g with
                | Some d => append_matches result (DomainMatcherGroup.Match d input) | None => result end in
  result ← (match substr g with
            | Some s => matches ← SubstrMatcherGroup.Match s input; Ok (append_matches result matches)
            | None => Ok result end);
  let result := match regex g with
                | Some r => append_matches result (Simple_Match r input) | None => result end in
  Ok (CompositeMatches result).

Definition Value_MatchAny (g : LinearValueMatcher) (input : str) : bool :=
  match full g with Some f => FullMatcherGroup.MatchAny f input | None => false end
  || match domain g with Some d => DomainMatcherGroup.MatchAny d input | None => false end
  || match substr g with Some s => SubstrMatcherGroup.MatchAny s input | None => false end
  || match regex g with Some r => Simple_MatchAny r input | None => false end.

(** *** [LinearIndexMatcher]: the values are the positions, from 1. *)

Record LinearIndexMatcher := mkIndex { count : Z; groups : LinearValueMatcher }.

Definition NewLinearIndexMatcher : LinearIndexMatcher := mkIndex 0 NewLinearValueMatcher.
Definition Index_Add (g : LinearIndexMatcher) (m : Matcher) : LinearIndexMatcher * Z :=
  let index := u32 (count g + 1) in
  (mkIndex index (Value_Add (groups g) m index), index).
Definition Index_Match (g : LinearIndexMatcher) (input : str) : go (list Z) := Value_Match (groups g) input.
Definition Index_MatchAny (g : LinearIndexMatcher) (input : str) : bool := Value_MatchAny (groups g) input.
Definition Index_Size (g : LinearIndexMatcher) : Z := count g.

(** ** Sets of matchers *)

Definition DomainMatcherSet : Type := Trie.node bool.
Definition DomainSet_Add (s : DomainMatcherSet) (pattern : str) : DomainMatcherSet :=
  Trie.add false (λ _, true) pattern s.
Definition DomainSet_MatchAny (s : DomainMatcherSet) (input : str) : bool :=
  Trie.any_loop id (length input) input (length input) s.

Record LinearAnyMatcher := mkAny {
  a_full : option (gset str);
  a_domain : option DomainMatcherSet;
  a_substr : option (list str);
  a_regex : option (list Matcher)
}.

Definition NewLinearAnyMatcher : LinearAnyMatcher := mkAny None None None None.

Definition Any_Add (s : LinearAnyMatcher) (m : Matcher) : LinearAnyMatcher :=
  match m with
  | FullMatcher p => mkAny (Some ({[p]} ∪ default ∅ (a_full s))) (a_domain s) (a_substr s) (a_regex s)
  | DomainMatcher p =>
      mkAny (a_full s) (Some (DomainSet_Add (default (Trie.empty false) (a_domain s)) p)) (a_substr s) (a_regex s)
  | SubstrMatcher p => mkAny (a_full s) (a_domain s) (Some (default [] (a_substr s) ++ [p])) (a_regex s)
  | RegexMatcher _ => mkAny (a_full s) (a_domain s) (a_substr s) (Some (default [] (a_regex s) ++ [m]))
  end.

Definition Any_MatchAny (s : LinearAnyMatcher) (input : str) : bool :=
  match a_full s with Some f => bool_decide (input ∈ f) | None => false end
  || match a_domain s with Some d => DomainSet_MatchAny d input | None => false end
  || match a_substr s with Some ps => existsb (Contains input) ps | None => false end
  || match a_regex s with Some ms => existsb (λ m, Matcher_Match MatchString m input) ms | None => false end.

End regexp.

(** ** Labels of a domain *)

Fixpoint rlabels (rs acc : str) : list str :=
  match rs with
  | [] => [acc]
  | c :: rs =>
      if decide (c = dot) then acc :: match rs with [] => [] | _ => rlabels rs [] end
      else rlabels rs (c :: acc)
  end.

(** The labels of [s] from the last one, as the tries see them. *)
Definition labels (s : str) : list str := match s with [] => [] | _ => rlabels (reverse s) [] end.

Lemma rlabels_nodots rp rest acc :
  dot ∉ rp → rlabels (rp ++ rest) acc = rlabels rest (reverse rp ++ acc).
Proof.
  revert acc. induction rp as [|c rp IH]; intros acc Hn; [done|]. cbn [app rlabels].
  rewrite elem_of_cons in Hn. rewrite decide_False by (intros ->; tauto).
  rewrite IH by tauto. by rewrite reverse_cons, <- app_assoc.
Qed.

Lemma labels_snoc x part : dot ∉ part → labels (x ++ dot :: part) = part :: labels x.
Proof.
  intros Hn. unfold labels. destruct (x ++ dot :: part) eqn:E; [by destruct x|]. rewrite <- E. clear E.
  rewrite reverse_app, reverse_cons, <- app_assoc, rlabels_nodots by (by rewrite elem_of_reverse).
  cbn [app rlabels]. rewrite decide_True by done. rewrite reverse_involutive, app_nil_r. f_equal.
  destruct x as [|c x]; [done|]. rewrite reverse_cons.
  destruct (reverse x ++ [c]) eqn:E; [by destruct (reverse x)|done].
Qed.

Lemma labels_nodots part : dot ∉ part → part ≠ [] → labels part = [part].
Proof.
  intros Hn Hne. assert (labels part = rlabels (reverse part) []) as -> by (by destruct part).
  rewrite <- (app_nil_r (reverse part)), rlabels_nodots by (by rewrite elem_of_reverse).
  cbn. by rewrite reverse_involutive, app_nil_r.
Qed.

(** Every string is a label, or a string, a dot and a label. *)
Lemma last_label s : dot ∉ s ∨ ∃ x part, s = x ++ dot :: part ∧ dot ∉ part.
Proof.
  destruct (decide (dot ∈ s)) as [Hin|]; [|by left]. right.
  destruct (list_elem_of_split_r _ _ Hin) as (x & part & -> & ?). by exists x, part.
Qed.

(** Patterns on which the tries and [DomainMatcher] agree. *)
Definition plain (p : str) : Prop := p ≠ [] ∧ head p ≠ Some dot.

Lemma labels_app y p : plain p → labels (y ++ dot :: p) = labels p ++ labels y.
Proof.
  remember (length p) as n eqn:En. revert p En.
  induction n as [n IH] using lt_wf_ind. intros p -> [Hne Hhd].
  destruct (last_label p) as [Hn|(x & part & -> & Hn)].
  - by rewrite labels_snoc, (labels_nodots p).
  - replace (y ++ dot :: x ++ dot :: part) with ((y ++ dot :: x) ++ dot :: part) by (by rewrite <- app_assoc).
    rewrite (labels_snoc (y ++ dot :: x)), (labels_snoc x part) by done. cbn [app]. f_equal. apply (IH (length x)); [|done|].
    + rewrite length_app. cbn. lia.
    + destruct x; [done|]. by split.
Qed.

(** The string with the given labels. *)
Fixpoint join (ls : list str) : str :=
  match ls with [] => [] | l :: ls => match ls with [] => l | _ => join ls ++ dot :: l end end.

Lemma join_cons l ls : ls ≠ [] → join (l :: ls) = join ls ++ dot :: l.
Proof. by destruct ls. Qed.

Lemma join_app l1 l2 : l1 ≠ [] → l2 ≠ [] → join (l1 ++ l2) = join l2 ++ dot :: join l1.
Proof.
  intros H1 H2. induction l1 as [|l l1 IH]; [done|]. destruct l1 as [|l' l1].
  - cbn [app]. by rewrite join_cons.
  - change ((l :: l' :: l1) ++ l2) with (l :: ((l' :: l1) ++ l2)). rewrite join_cons by done.
    rewrite IH by done. rewrite (join_cons l) by done. by rewrite <- app_assoc.
Qed.

Lemma labels_nonempty s : s ≠ [] → labels s ≠ [].
Proof.
  intros Hne. destruct (last_label s) as [Hn|(x & part & -> & Hn)].
  - by rewrite labels_nodots.
  - by rewrite labels_snoc.
Qed.

Lemma join_labels s : s = join (labels s) ∨ s = dot :: join (labels s).
Proof.
  remember (length s) as n eqn:En. revert s En. induction n as [n IH] using lt_wf_ind. intros s ->.
  destruct (last_label s) as [Hn|(x & part & -> & Hn)].
  - destruct s; [by left|]. left. by rewrite labels_nodots.
  - rewrite labels_snoc by done. destruct x as [|c x]; [by right|].
    rewrite join_cons by (by apply labels_nonempty).
    destruct (IH (length (c :: x))) with (s := c :: x) as [E|E]; [rewrite length_app; cbn; lia|done| |].
    + left. by rewrite <- E.
    + right. rewrite app_comm_cons. by rewrite <- E.
Qed.

Lemma join_labels_plain p : plain p → join (labels p) = p.
Proof. intros [_ Hh]. destruct (join_labels p) as [E|E]; [done|]. by rewrite E in Hh. Qed.

(** *** What a domain pattern matches *)

Lemma HasSuffix_spec s p : HasSuffix s p = true ↔ ∃ x, s = x ++ p.
Proof.
  unfold HasSuffix. rewrite andb_true_iff, !bool_decide_eq_true. split.
  - intros [_ E]. exists (take (length s - length p) s). by rewrite <- (take_drop (length s - length p) s) at 1; rewrite E.
  - intros [x ->]. rewrite length_app. split; [lia|].
    replace (length x + length p - length p)%nat with (length x) by lia. apply drop_app_length.
Qed.

Lemma DomainMatcher_Match_spec p s :
  DomainMatcher_Match p s = true ↔ s = p ∨ ∃ y, s = y ++ dot :: p.
Proof.
  unfold DomainMatcher_Match. destruct (HasSuffix s p) eqn:E; cbn [negb].
  - apply HasSuffix_spec in E as [x ->]. rewrite orb_true_iff, !bool_decide_eq_true, length_app.
    destruct x as [|c x _] using rev_ind.
    + split; [by left|]. intros _. left. done.
    + rewrite length_app. cbn [length].
      replace (length x + 1 + length p - length p - 1)%nat with (length x) by lia.
      rewrite <- app_assoc, lookup_app_r, Nat.sub_diag by lia. cbn [app lookup list_lookup]. split.
      * intros [?|[= ->]]; [lia|]. right. by exists x.
      * intros [Eq|[y Eq]].
        -- apply (f_equal length) in Eq. rewrite length_app in Eq. cbn in Eq. lia.
        -- right. apply app_inj_2 in Eq as [_ [= ->]]; done.
  - split; [done|]. intros H. exfalso. assert (HasSuffix s p = true); [|congruence].
    apply HasSuffix_spec. destruct H as [->|[y ->]]; [by exists []|]. exists (y ++ [dot]). by rewrite <- app_assoc.
Qed.

(** A plain pattern matches exactly the domains whose last labels are its labels. *)
Lemma DomainMatcher_Match_labels p s :
  plain p → (DomainMatcher_Match p s = true ↔ labels p `prefix_of` labels s).
Proof.
  intros Hp. rewrite DomainMatcher_Match_spec. split.
  - intros [->|[y ->]]; [done|]. rewrite labels_app by done. by eexists.
  - intros [l2 E]. pose proof (labels_nonempty p (proj1 Hp)) as Hne.
    destruct (join_labels s) as [Es|Es]; rewrite E in Es; destruct l2 as [|l l2].
    1,3: rewrite app_nil_r, join_labels_plain in Es by done.
    + by left.
    + right. by exists [].
    + right. rewrite join_app, join_labels_plain in Es by done. by eexists.
    + right. rewrite join_app, join_labels_plain in Es by done. eexists (dot :: _). exact Es.
Qed.

(** ** The trie as a map from labels to values *)
Module TrieSpec.
Import Trie.

Lemma take_at_dot (s : str) i j :
  s !! j = Some dot → (j < i)%nat → take i s = take j s ++ dot :: take (i - (j + 1)) (drop (j + 1) s).
Proof.
  intros Hd Hj. rewrite <- (take_drop_middle (take i s) j dot); [|by rewrite lookup_take_lt].
  rewrite take_take, Nat.min_l by lia. f_equal. f_equal.
  rewrite skipn_firstn_comm. rewrite Nat.add_1_r. done.
Qed.

Lemma scan_spec s i j part k :
  (j < i ≤ length s)%nat → dot ∉ take (i - (j + 1)) (drop (j + 1) s) → scan s i j = (part, k) →
  (dot ∉ part) ∧ (k ≤ j)%nat ∧ (take i s = take k s ++ dot :: part ∨ k = 0%nat ∧ take i s = part).
Proof.
  revert part k. induction j as [|j IH]; intros part k Hj Hn; cbn [scan]; case_decide as Hd.
  1,3: intros [= <- <-]; split; [done|]; split; [done|]; left; apply take_at_dot; [done|lia].
  - intros [= <- <-]. destruct s as [|c s]; [cbn in Hj; lia|]. destruct i as [|i]; [lia|].
    split; [|split; [done|by right]]. cbn [take].
    rewrite elem_of_cons. intros [<-|Hin]; [by apply Hd|]. apply Hn.
    replace (S i - (0 + 1))%nat with i by lia. done.
  - intros E. destruct (IH part k) as (? & ? & ?); [lia| |done|split; [done|]; split; [lia|done]].
    destruct (lookup_lt_is_Some_2 s (S j)) as [c Hc]; [lia|].
    rewrite (drop_S s c (j + 1)) by (by rewrite Nat.add_1_r).
    replace (i - (j + 1))%nat with (S (i - (S j + 1))) by lia. cbn [take].
    rewrite elem_of_cons. intros [<-|Hin]; [by apply Hd|]. by apply Hn.
Qed.

(** One turn of the outer loops takes the next label. *)
Lemma scan_labels s i part k :
  (0 < i ≤ length s)%nat → scan s i (i - 1) = (part, k) →
  (k < i)%nat ∧ labels (take i s) = part :: labels (take k s).
Proof.
  intros Hi E. apply scan_spec in E as (Hn & Hk & H); [|lia|].
  2:{ replace (i - (i - 1 + 1))%nat with 0%nat by lia. cbn. apply not_elem_of_nil. }
  split; [lia|]. destruct H as [->|[-> Ht]].
  - by apply labels_snoc.
  - rewrite Ht, labels_nodots; [done|done|]. intros ->. apply (f_equal length) in Ht.
    rewrite length_take in Ht. cbn in Ht. lia.
Qed.

Section trie.
Context {V : Type} (new : V).

Fixpoint add_path (upd : V → V) (ls : list str) (n : node V) : node V :=
  match ls with
  | [] => Node (upd (values n)) (children n)
  | l :: ls => Node (values n) (<[l := add_path upd ls (default (empty new) (children n !! l))]> (children n))
  end.

Lemma add_loop_path upd s fuel : ∀ i n,
  (i ≤ fuel)%nat → (i ≤ length s)%nat → add_loop new fuel upd s i n = add_path upd (labels (take i s)) n.
Proof.
  induction fuel as [|fuel IH]; intros i n Hf Hi; [by replace i with 0%nat by lia|].
  destruct i as [|i]; [done|]. cbn [add_loop].
  destruct (scan s (S i) (S i - 1)) as [part k] eqn:E.
  destruct (scan_labels s (S i) part k) as [Hk El]; [lia|done|]. rewrite El. cbn [add_path].
  rewrite IH by lia. done.
Qed.

Lemma add_labels upd s n : add new upd s n = add_path upd (labels s) n.
Proof. unfold add. rewrite add_loop_path by lia. by rewrite take_ge. Qed.

(** The values at the end of a path, [new] where there is none. *)
Fixpoint at_ (n : node V) (ls : list str) : V :=
  match ls with
  | [] => values n
  | l :: ls => match children n !! l with Some n => at_ n ls | None => new end
  end.

Lemma at_empty ls : at_ (empty new) ls = new.
Proof. destruct ls; [done|]. cbn. by rewrite lookup_empty. Qed.

Lemma at_add_path upd ls : ∀ n ls',
  at_ (add_path upd ls n) ls' = if decide (ls' = ls) then upd (at_ n ls) else at_ n ls'.
Proof.
  induction ls as [|l ls IH]; intros n ls'.
  - destruct ls'; [done|]. cbn. by rewrite decide_False.
  - destruct ls' as [|l' ls']; [cbn; by rewrite decide_False|].
    cbn [add_path at_ children]. destruct (decide (l' = l)) as [->|Hne].
    + rewrite lookup_insert_eq, IH.
      destruct (children n !! l) as [c|]; cbn [default from_option]; rewrite ?at_empty;
        destruct (decide (ls' = ls)) as [->|?]; [by rewrite decide_True|by rewrite decide_False by congruence|
          by rewrite decide_True|by rewrite decide_False by congruence].
    + rewrite lookup_insert_ne by done. rewrite decide_False by congruence. done.
Qed.

(** The values along the way of [ls]. *)
Fixpoint along (n : node V) (ls : list str) : list V :=
  match ls with
  | [] => []
  | l :: ls => match children n !! l with Some n => values n :: along n ls | None => replicate (S (length ls)) new end
  end.

Lemma along_at n ls : along n ls = (λ k, at_ n (take k ls)) <$> seq 1 (length ls).
Proof.
  revert n. induction ls as [|l ls IH]; intros n; [done|].
  cbn [along length seq]. rewrite <- (fmap_S_seq 1), fmap_cons, <- list_fmap_compose. cbn [take at_].
  destruct (children n !! l) as [c|] eqn:E.
  - f_equal. rewrite IH. apply list_fmap_ext. intros k x _. cbn. by rewrite E.
  - cbn [replicate]. f_equal. apply list_eq. intros k. rewrite list_lookup_fmap.
    destruct (decide (k < length ls)%nat).
    + rewrite lookup_replicate_2, lookup_seq_lt by done. cbn. by rewrite E.
    + rewrite (lookup_ge_None_2 (replicate _ _)) by (rewrite length_replicate; lia). by rewrite lookup_seq_ge by lia.
Qed.

Lemma along_leaf n ls : size (children n) = 0%nat → along n ls = replicate (length ls) new.
Proof. intros H. destruct ls; [done|]. cbn. by rewrite (map_size_empty_inv _ H), lookup_empty. Qed.

Section found.
Context (found : V → bool) (Hnew : found new = false).

Lemma filter_replicate_new k : filter (λ v, found v = true) (replicate k new) = [].
Proof. induction k as [|k IH]; [done|]. cbn [replicate]. rewrite filter_cons_False; [done|congruence]. Qed.

Lemma match_loop_along s fuel : ∀ i n acc,
  (i ≤ fuel)%nat → (i ≤ length s)%nat →
  match_loop found fuel s i n acc = acc ++ filter (λ v, found v = true) (along n (labels (take i s))).
Proof.
  induction fuel as [|fuel IH]; intros i n acc Hf Hi.
  { replace i with 0%nat by lia. cbn. by rewrite app_nil_r. }
  destruct i as [|i]; [cbn; by rewrite app_nil_r|]. cbn [match_loop].
  destruct (scan s (S i) (S i - 1)) as [part k] eqn:E.
  destruct (scan_labels s (S i) part k) as [Hk El]; [lia|done|]. rewrite El. cbn [along].
  destruct (children n !! part) as [c|].
  2:{ by rewrite filter_replicate_new, app_nil_r. }
  destruct (decide (size (children c) = 0%nat)) as [Hs|Hs].
  - rewrite along_leaf by done. destruct (found (values c)) eqn:Ef.
    + rewrite filter_cons_True by done. by rewrite filter_replicate_new.
    + rewrite filter_cons_False by congruence. by rewrite filter_replicate_new, app_nil_r.
  - rewrite IH by lia. destruct (found (values c)) eqn:Ef.
    + rewrite filter_cons_True by done. by rewrite <- app_assoc.
    + rewrite filter_cons_False by congruence. done.
Qed.

Lemma any_loop_along s fuel : ∀ i n,
  (i ≤ fuel)%nat → (i ≤ length s)%nat →
  any_loop found fuel s i n = existsb found (along n (labels (take i s))).
Proof.
  assert (∀ k, existsb found (replicate k new) = false) as Hrep.
  { intros k. induction k as [|k IHk]; [done|]. cbn. by rewrite Hnew. }
  induction fuel as [|fuel IH]; intros i n Hf Hi; [by replace i with 0%nat by lia|].
  destruct i as [|i]; [done|]. cbn [any_loop].
  destruct (scan s (S i) (S i - 1)) as [part k] eqn:E.
  destruct (scan_labels s (S i) part k) as [Hk El]; [lia|done|]. rewrite El. cbn [along].
  destruct (children n !! part) as [c|]; [|by rewrite Hrep]. cbn [existsb].
  destruct (found (values c)); [done|]. cbn [orb].
  destruct (decide (size (children c) = 0%nat)) as [Hs|Hs]; [|apply IH; lia].
  by rewrite along_leaf, Hrep by done.
Qed.

End found.
End trie.
End TrieSpec.

(** ** Substrings *)

Lemma occurs_spec s p k : occurs s p k = true → (k ≤ length s)%nat → ∃ x y, s = x ++ p ++ y ∧ length x = k.
Proof.
  intros H%bool_decide_eq_true Hk. exists (take k s), (drop (length p) (drop k s)).
  rewrite <- H at 1. rewrite take_drop, take_drop. split; [done|]. rewrite length_take. lia.
Qed.

Lemma last_index_from_spec s p k :
  match last_index_from s p k with
  | Some j => occurs s p j = true ∧ (j ≤ k)%nat
  | None => ∀ j, (j ≤ k)%nat → occurs s p j = false
  end.
Proof.
  induction k as [|k IH]; cbn [last_index_from]; destruct (occurs s p _) eqn:E; try done.
  - intros j Hj. by replace j with 0%nat by lia.
  - destruct (last_index_from s p k) as [j|]; [destruct IH; split; [done|lia]|].
    intros j Hj. destruct (decide (j = S k)) as [->|]; [done|]. apply IH. lia.
Qed.

Lemma LastIndex_bound s p j : LastIndex s p = Some j → (j + length p ≤ length s)%nat.
Proof.
  unfold LastIndex. case_decide; [done|]. pose proof (last_index_from_spec s p (length s - length p)) as H'.
  intros E. rewrite E in H'. lia.
Qed.

Lemma Contains_spec s p : Contains s p = true ↔ ∃ x y, s = x ++ p ++ y.
Proof.
  unfold Contains. rewrite bool_decide_eq_true. unfold LastIndex. case_decide as Hl.
  - split; [by intros []|]. intros (x & y & ->). rewrite !length_app in Hl. lia.
  - pose proof (last_index_from_spec s p (length s - length p)) as H.
    destruct (last_index_from s p (length s - length p)) as [j|].
    + split; [|done]. intros _. destruct H as [H Hj].
      destruct (occurs_spec s p j H) as (x & y & ? & _); [lia|]. by exists x, y.
    + split; [by intros []|]. intros (x & y & ->). rewrite !length_app in H.
      specialize (H (length x) ltac:(lia)). unfold occurs in H. rewrite drop_app_length, take_app_length in H.
      by apply bool_decide_eq_false in H.
Qed.

Module SubstrSpec.
Import SubstrMatcherGroup.

Lemma entry_index j i : Z.of_nat i < 65536 → Z.land (entry j i) 65535 = Z.of_nat i.
Proof.
  intros Hi. unfold entry. rewrite (u32_small (Z.of_nat i)) by (unfold is_u32; lia).
  rewrite Z.land_lor_distr_l. change 65535 with (Z.ones 16). rewrite !Z.land_ones by lia.
  rewrite Zmod_mod, (Z.mod_small (Z.of_nat i)) by lia.
  replace (u32 (Z.shiftl (u32 (Z.of_nat j)) 16) mod 2 ^ 16) with 0; [apply Z.lor_0_l|].
  rewrite Z.shiftl_mul_pow2 by lia. unfold u32. change (2 ^ 16) with 65536. dlia.
Qed.

Lemma occurrences_spec input pattern i fuel : ∀ j,
  pattern ≠ [] → match j with Some j => (j < fuel)%nat ∧ (j ≤ length input)%nat | None => True end →
  ∃ r, occurrences fuel input pattern i j = Ok r ∧ (∀ e, e ∈ r → ∃ k, e = entry k i) ∧
    match j with Some j => entry j i ∈ r | None => r = [] end.
Proof.
  induction fuel as [|fuel IH]; intros [j|] Hne Hj; try (by exists []; split; [done|]; split; [by intros e ?%elem_of_nil|]).
  { lia. }
  cbn [occurrences]. destruct (IH (LastIndex (take j input) pattern) Hne) as (r & -> & Hr & _).
  - destruct (LastIndex (take j input) pattern) as [j'|] eqn:E; [|done].
    apply LastIndex_bound in E. rewrite length_take in E. destruct pattern; [done|]. cbn in E. lia.
  - cbn [mbind go_bind]. exists (entry j i :: r). split; [done|]. split.
    + intros e [->|?]%elem_of_cons; [by eexists|by apply Hr].
    + apply elem_of_cons. by left.
Qed.

Lemma matches_loop_spec input ps : ∀ i,
  Forall (λ p, p ≠ []) ps →
  ∃ r, matches_loop (S (length input)) input i ps = Ok r ∧
    (∀ e, e ∈ r → ∃ k idx p, e = entry k (i + idx) ∧ ps !! idx = Some p ∧ Contains input p = true) ∧
    (∀ idx p, ps !! idx = Some p → Contains input p = true → ∃ k, entry k (i + idx) ∈ r).
Proof.
  induction ps as [|p ps IH]; intros i Hps.
  { exists []. split; [done|]. split; [by intros e ?%elem_of_nil|done]. }
  apply Forall_cons_1 in Hps as [Hp Hps]. cbn [matches_loop].
  destruct (occurrences_spec input p i (S (length input)) (LastIndex input p) Hp) as (r & -> & Hr & Hin).
  { destruct (LastIndex input p) eqn:E; [|done]. apply LastIndex_bound in E. lia. }
  destruct (IH (S i) Hps) as (rs & -> & Hrs & Hrs'). cbn [mbind go_bind]. exists (r ++ rs). split; [done|]. split.
  - intros e [He|He]%elem_of_app.
    + destruct (Hr e He) as [k ->]. exists k, 0%nat, p. rewrite Nat.add_0_r. split; [done|]. split; [done|].
      unfold Contains. apply bool_decide_eq_true. destruct (LastIndex input p); [done|].
      subst r. by apply elem_of_nil in He.
    + destruct (Hrs e He) as (k & idx & q & -> & ? & ?). exists k, (S idx), q.
      by rewrite Nat.add_succ_r.
  - intros [|idx] q Hq Hc.
    + cbn in Hq. injection Hq as <-. unfold Contains in Hc. apply bool_decide_eq_true in Hc as [j Hj].
      rewrite Hj in Hin. exists j. rewrite Nat.add_0_r. apply elem_of_app. by left.
    + destruct (Hrs' idx q Hq Hc) as [k Hk]. exists k. rewrite Nat.add_succ_r. apply elem_of_app. by right.
Qed.

Lemma sort_perm l : sort l ≡ₚ l.
Proof.
  destruct l as [|a [|b [|c l]]]; cbn [sort]; try done.
  - case_decide; [apply perm_swap|done].
  - apply merge_sort_Permutation.
Qed.

Lemma lookup_values_spec g l :
  Forall (λ e, is_Some (index (values g) (Z.land e 65535))) l →
  ∃ vs, lookup_values g l = Ok vs ∧
    ∀ v, v ∈ vs ↔ ∃ e, e ∈ l ∧ index (values g) (Z.land e 65535) = Some v.
Proof.
  induction l as [|e l IH]; intros Hl.
  { exists []. split; [done|]. intros v. split; [by intros ?%elem_of_nil|]. by intros (e & ?%elem_of_nil & _). }
  apply Forall_cons_1 in Hl as [[v0 Hv] Hl]. destruct (IH Hl) as (vs & E & Hvs).
  cbn [lookup_values]. rewrite Hv, E. cbn [ok_or_panic mbind go_bind]. exists (v0 :: vs). split; [done|].
  intros v. rewrite elem_of_cons, Hvs. split.
  - intros [->|(e' & ? & ?)]; [exists e|exists e']; rewrite elem_of_cons; auto.
  - intros (e' & [->|?]%elem_of_cons & ?); [left; congruence|right; by exists e'].
Qed.

(** The substring group returns, on patterns that are not empty, exactly the values of the
    patterns that occur. *)
Lemma Substr_Match_spec g input :
  length (patterns g) = length (values g) → len (patterns g) ≤ 65536 →
  Forall (λ p, p ≠ []) (patterns g) →
  ∃ vs, Match g input = Ok vs ∧
    ∀ v, v ∈ vs ↔ ∃ idx p, patterns g !! idx = Some p ∧ values g !! idx = Some v ∧ Contains input p = true.
Proof.
  intros Hlen Hbound Hne. unfold Match.
  destruct (matches_loop_spec input (patterns g) 0 Hne) as (r & -> & Hr & Hr'). cbn [mbind go_bind].
  assert (Hidx : ∀ k idx, (idx < length (patterns g))%nat →
    index (values g) (Z.land (entry k idx) 65535) = values g !! idx).
  { intros k idx Hi. rewrite entry_index by (unfold len in Hbound; lia). unfold index. rewrite decide_True by lia. by rewrite Nat2Z.id. }
  destruct (lookup_values_spec g (sort r)) as (vs & -> & Hvs).
  { apply list.Forall_forall. intros e He. rewrite sort_perm in He.
    destruct (Hr e He) as (k & idx & p & -> & Hp & _). apply lookup_lt_Some in Hp. cbn [Nat.add].
    rewrite Hidx by done. apply lookup_lt_is_Some_2. lia. }
  exists vs. split; [done|]. intros v. rewrite Hvs. split.
  - intros (e & He & Hv). rewrite sort_perm in He. destruct (Hr e He) as (k & idx & p & -> & Hp & Hc).
    cbn [Nat.add] in Hv. rewrite Hidx in Hv by (by apply lookup_lt_Some in Hp). by exists idx, p.
  - intros (idx & p & Hp & Hv & Hc). destruct (Hr' idx p Hp Hc) as [k Hk]. exists (entry k idx).
    rewrite sort_perm. split; [done|]. rewrite Hidx; [done|]. by apply lookup_lt_Some in Hp.
Qed.

(** An empty keyword is never done: the search for its occurrences does not return. *)
Lemma empty_keyword_diverges input i fuel :
  occurrences fuel input [] i (LastIndex input []) = Panic.
Proof.
  assert (∀ s : str, LastIndex s [] = Some (length s)) as Hl.
  { intros s. unfold LastIndex. rewrite decide_False by (cbn; lia). cbn [length]. rewrite Nat.sub_0_r.
    destruct (length s) eqn:E; cbn [last_index_from]; unfold occurs; by rewrite bool_decide_eq_true_2. }
  rewrite Hl. induction fuel as [|fuel IH]; [done|]. cbn [occurrences]. rewrite take_ge by lia.
  rewrite Hl, IH. done.
Qed.

End SubstrSpec.

(** ** The groups of a linear matcher *)

Lemma CompositeMatches_concat ms : CompositeMatches ms = concat ms.
Proof.
  assert (∀ acc, foldl (++) acc ms = acc ++ concat ms) as H.
  { induction ms as [|m ms IH]; intros acc; cbn; [by rewrite app_nil_r|]. by rewrite IH, app_assoc. }
  destruct ms as [|m [|m' ms]]; [done|cbn; by rewrite app_nil_r|]. apply (H []).
Qed.

Lemma CompositeMatchesReverse_concat ms : CompositeMatchesReverse ms = concat (reverse ms).
Proof.
  assert (foldr (λ m result, result ++ m) [] ms = concat (reverse ms)) as H.
  { induction ms as [|m ms IH]; [done|]. cbn [foldr]. rewrite IH, reverse_cons, concat_app. cbn [concat]. by rewrite app_nil_r. }
  destruct ms as [|m [|m' ms]]; [done|cbn; by rewrite app_nil_r|]. exact H.
Qed.

Lemma concat_append_matches ms m : concat (append_matches ms m) = concat ms ++ m.
Proof. destruct m; cbn; rewrite ?concat_app; cbn; by rewrite ?app_nil_r. Qed.

(** The values of the matchers that satisfy [P], in the order they were added. *)
Definition sel (P : Matcher → bool) (L : list (Matcher * Z)) : list Z :=
  (filter (λ x, P x.1 = true) L).*2.

Lemma sel_snoc P L m v : sel P (L ++ [(m, v)]) = sel P L ++ (if P m then [v] else []).
Proof.
  unfold sel. rewrite filter_app, fmap_app. f_equal. destruct (P m) eqn:E.
  - by rewrite filter_cons_True.
  - by rewrite filter_cons_False by (cbn; congruence).
Qed.

Lemma elem_of_sel P L v : v ∈ sel P L ↔ ∃ m, (m, v) ∈ L ∧ P m = true.
Proof.
  unfold sel. rewrite list_elem_of_fmap. split.
  - intros ([m w] & -> & [? ?]%list_elem_of_filter). by exists m.
  - intros (m & ? & ?). exists (m, v). by rewrite list_elem_of_filter.
Qed.

Definition is_full (p : str) (m : Matcher) : bool := match m with FullMatcher q => bool_decide (q = p) | _ => false end.
Definition is_domain (ls : list str) (m : Matcher) : bool :=
  match m with DomainMatcher q => bool_decide (labels q = ls) | _ => false end.
Definition is_substr (m : Matcher) : bool := match m with SubstrMatcher _ => true | _ => false end.
Definition is_regex (m : Matcher) : bool := match m with RegexMatcher _ => true | _ => false end.
Definition substr_patterns (L : list (Matcher * Z)) : list str :=
  Pattern <$> (filter (λ x, is_substr x.1 = true) L).*1.

Record rep (L : list (Matcher * Z)) (g : LinearValueMatcher) : Prop := {
  r_full : ∀ p, default ∅ (full g) !! p = match sel (is_full p) L with [] => None | vs => Some vs end;
  r_domain : ∀ ls, TrieSpec.at_ [] (default DomainMatcherGroup.NewDomainMatcherGroup (domain g)) ls = sel (is_domain ls) L;
  r_substr : default (SubstrMatcherGroup.mk [] []) (substr g)
             = SubstrMatcherGroup.mk (substr_patterns L) (sel is_substr L);
  r_regex : default [] (regex g) = filter (λ x, is_regex x.1 = true) L
}.

Definition added (L : list (Matcher * Z)) : LinearValueMatcher :=
  foldl (λ g x, Value_Add g x.1 x.2) NewLinearValueMatcher L.

Lemma substr_patterns_snoc L m v :
  substr_patterns (L ++ [(m, v)]) = substr_patterns L ++ (if is_substr m then [Pattern m] else []).
Proof.
  unfold substr_patterns. rewrite filter_app, !fmap_app. f_equal. destruct (is_substr m) eqn:E.
  - by rewrite filter_cons_True.
  - by rewrite filter_cons_False by (cbn; congruence).
Qed.

Lemma regex_snoc L m v :
  filter (λ x : Matcher * Z, is_regex x.1 = true) (L ++ [(m, v)])
  = filter (λ x : Matcher * Z, is_regex x.1 = true) L ++ (if is_regex m then [(m, v)] else []).
Proof.
  rewrite filter_app. f_equal. destruct (is_regex m) eqn:E.
  - by rewrite filter_cons_True.
  - by rewrite filter_cons_False by (cbn; congruence).
Qed.

Lemma Add_rep L g m v : rep L g → rep (L ++ [(m, v)]) (Value_Add g m v).
Proof.
  intros H. destruct m as [p|p|p|p]; split; cbn [Value_Add full domain substr regex];
    try intros q; rewrite ?sel_snoc, ?substr_patterns_snoc, ?regex_snoc;
    cbn [is_full is_domain is_substr is_regex]; rewrite ?app_nil_r; try apply H.
  - unfold FullMatcherGroup.AddFullMatcher. cbn [from_option id].
    case_bool_decide as Hq; [subst q; rewrite lookup_insert_eq|rewrite lookup_insert_ne by done; rewrite app_nil_r; apply H].
    rewrite (r_full _ _ H p). destruct (sel (is_full p) L) as [|w ws]; done.
  - unfold DomainMatcherGroup.AddDomainMatcher. cbn [from_option id].
    rewrite TrieSpec.add_labels, TrieSpec.at_add_path, (r_domain _ _ H).
    case_bool_decide as Hq.
    + rewrite decide_True by done. by rewrite Hq.
    + rewrite decide_False by done. rewrite app_nil_r. apply H.
  - unfold SubstrMatcherGroup.AddSubstrMatcher. cbn [from_option id]. by rewrite (r_substr _ _ H).
  - unfold Simple_AddMatcher. cbn [from_option id]. by rewrite (r_regex _ _ H).
Qed.

Lemma added_rep L : rep L (added L).
Proof.
  induction L as [|[m v] L IH] using rev_ind.
  - split; try done. intros ls. destruct ls; [done|]. cbn. by rewrite lookup_empty.
  - unfold added. rewrite foldl_snoc. by apply Add_rep.
Qed.

(** The values of the domain matchers that match, from the longest pattern to the shortest,
    and in the order of addition at each length. *)
Definition levels (L : list (Matcher * Z)) (input : str) : list Z :=
  concat (reverse ((λ k, sel (is_domain (take k (labels input))) L) <$> seq 1 (length (labels input)))).

(** Patterns on which a group answers like the matcher on its own. *)
Definition matcher_ok (m : Matcher) : Prop :=
  match m with DomainMatcher p => plain p | SubstrMatcher p => p ≠ [] | _ => True end.

Lemma prefix_take {A} (l k : list A) :
  k ≠ [] → (k `prefix_of` l ↔ ∃ n, (1 ≤ n ≤ length l)%nat ∧ k = take n l).
Proof.
  intros Hne. split.
  - intros [x ->]. exists (length k). rewrite length_app, take_app_length.
    destruct k; [done|]. cbn. split; [lia|done].
  - intros (n & _ & ->). by exists (drop n l); rewrite take_drop.
Qed.

(** The tries find a plain pattern at one of the levels exactly when it matches. *)
Lemma domain_level p input :
  plain p →
  (DomainMatcher_Match p input = true ↔
   ∃ k, k ∈ seq 1 (length (labels input)) ∧ labels p = take k (labels input)).
Proof.
  intros Hp. rewrite DomainMatcher_Match_labels, prefix_take by (done || apply labels_nonempty, Hp).
  setoid_rewrite elem_of_seq. split; intros (k & ? & ?); exists k; (split; [lia|done]).
Qed.

Lemma elem_of_concat_reverse {A} (ll : list (list A)) v :
  v ∈ concat (reverse ll) ↔ ∃ l, l ∈ ll ∧ v ∈ l.
Proof.
  rewrite list_elem_of_In, in_concat. setoid_rewrite <- list_elem_of_In. by setoid_rewrite elem_of_reverse.
Qed.

Lemma elem_of_levels L input v :
  Forall (λ x, matcher_ok x.1) L →
  (v ∈ levels L input ↔ ∃ p, (DomainMatcher p, v) ∈ L ∧ DomainMatcher_Match p input = true).
Proof.
  intros HL. rewrite list.Forall_forall in HL. unfold levels. rewrite elem_of_concat_reverse. split.
  - intros (l & (k & -> & Hk)%list_elem_of_fmap & (m & Hm & Hd)%elem_of_sel).
    destruct m as [|p| |]; try done. cbn in Hd. apply bool_decide_eq_true in Hd. exists p. split; [done|].
    apply domain_level; [apply (HL _ Hm)|]. by exists k.
  - intros (p & Hp & Hm). apply domain_level in Hm as (k & Hk & El); [|apply (HL _ Hp)].
    eexists. split; [apply list_elem_of_fmap; by exists k|]. apply elem_of_sel. exists (DomainMatcher p).
    split; [done|]. by apply bool_decide_eq_true.
Qed.

Section linear.
Context (MatchString : str → str → bool).

Lemma Simple_Match_cons m v g input :
  Simple_Match MatchString ((m, v) :: g) input
  = if Matcher_Match MatchString m input then v :: Simple_Match MatchString g input
    else Simple_Match MatchString g input.
Proof. done. Qed.

Lemma Simple_Match_sel L input :
  Simple_Match MatchString (filter (λ x, is_regex x.1 = true) L) input
  = sel (λ m, is_regex m && Matcher_Match MatchString m input) L.
Proof.
  induction L as [|[m v] L IH]; [done|]. unfold sel in *. destruct (is_regex m) eqn:E.
  - rewrite (filter_cons_True (λ x : Matcher * Z, is_regex x.1 = true)) by (cbn; exact E). rewrite Simple_Match_cons, IH.
    destruct (Matcher_Match MatchString m input) eqn:E2.
    + rewrite filter_cons_True by (cbn; by rewrite E, E2). done.
    + rewrite filter_cons_False by (cbn; by rewrite E, E2). done.
  - rewrite !filter_cons_False by (cbn; by rewrite E). done.
Qed.

Lemma Domain_Match_levels L g input :
  rep L g →
  DomainMatcherGroup.Match (default DomainMatcherGroup.NewDomainMatcherGroup (domain g)) input = levels L input.
Proof.
  intros H. unfold DomainMatcherGroup.Match, levels. rewrite CompositeMatchesReverse_concat.
  rewrite (TrieSpec.match_loop_along [] DomainMatcherGroup.found) by (done || lia).
  rewrite take_ge by lia. cbn [app]. rewrite TrieSpec.along_at.
  rewrite (list_fmap_ext _ (λ k, sel (is_domain (take k (labels input))) L) (seq 1 _)) by (intros; apply (r_domain _ _ H)).
  generalize ((λ k, sel (is_domain (take k (labels input))) L) <$> seq 1 (length (labels input))). intros ll.
  induction ll as [|l ll IH]; [done|]. rewrite reverse_cons, concat_app, <- IH. destruct l as [|v l].
  - rewrite filter_cons_False by done. cbn [concat]. by rewrite !app_nil_r.
  - rewrite filter_cons_True by done. by rewrite reverse_cons, concat_app.
Qed.

Lemma Full_Match_sel L g input :
  rep L g → FullMatcherGroup.Match (default ∅ (full g)) input = sel (is_full input) L.
Proof. intros H. unfold FullMatcherGroup.Match. rewrite (r_full _ _ H). by destruct (sel _ L). Qed.

Lemma substr_positions L idx p v :
  substr_patterns L !! idx = Some p → sel is_substr L !! idx = Some v → (SubstrMatcher p, v) ∈ L.
Proof.
  unfold substr_patterns, sel. rewrite !list_lookup_fmap.
  destruct (filter (λ x, is_substr x.1 = true) L !! idx) as [[m w]|] eqn:E; [|done].
  cbn. intros [= <-] [= <-]. apply list_elem_of_lookup_2, list_elem_of_filter in E as [Hs Hin].
  by destruct m.
Qed.

Lemma substr_position L p v :
  (SubstrMatcher p, v) ∈ L → ∃ idx, substr_patterns L !! idx = Some p ∧ sel is_substr L !! idx = Some v.
Proof.
  intros Hin. assert ((SubstrMatcher p, v) ∈ filter (λ x : Matcher * Z, is_substr x.1 = true) L) as Hf
    by (by rewrite list_elem_of_filter).
  apply list_elem_of_lookup in Hf as [idx E]. exists idx. unfold substr_patterns, sel.
  rewrite !list_lookup_fmap, E. done.
Qed.

Lemma Value_Match_spec L input :
  Forall (λ x, matcher_ok x.1) L → len (substr_patterns L) ≤ 65536 →
  ∃ ss, Value_Match MatchString (added L) input
        = Ok (sel (is_full input) L ++ levels L input ++ ss
              ++ sel (λ m, is_regex m && Matcher_Match MatchString m input) L) ∧
    ∀ v, v ∈ ss ↔ ∃ p, (SubstrMatcher p, v) ∈ L ∧ Contains input p = true.
Proof.
  intros HL Hlen. pose proof (added_rep L) as H. set (g := added L) in *.
  destruct (SubstrSpec.Substr_Match_spec (default (SubstrMatcherGroup.mk [] []) (substr g)) input)
    as (ss & Es & Hss).
  { rewrite (r_substr _ _ H). cbn. unfold substr_patterns, sel. by rewrite !length_fmap. }
  { rewrite (r_substr _ _ H). exact Hlen. }
  { rewrite (r_substr _ _ H). cbn. apply list.Forall_forall. intros p Hp. unfold substr_patterns in Hp.
    apply list_elem_of_fmap in Hp as (m & -> & Hm). apply list_elem_of_fmap in Hm as ([m' w] & -> & Hm).
    apply list_elem_of_filter in Hm as [Hs Hm]. rewrite list.Forall_forall in HL. specialize (HL _ Hm).
    by destruct m'. }
  exists ss. split.
  - unfold Value_Match.
    assert (Hsub : match substr g with
      | Some s => SubstrMatcherGroup.Match s input | None => Ok [] end = Ok ss).
    { destruct (substr g); [exact Es|]. cbn in Es. exact Es. }
    assert (Hreg : match regex g with Some r => Simple_Match MatchString r input | None => [] end
      = sel (λ m, is_regex m && Matcher_Match MatchString m input) L).
    { rewrite <- Simple_Match_sel, <- (r_regex _ _ H). by destruct (regex g). }
    assert (Hdom : match domain g with Some d => DomainMatcherGroup.Match d input | None => [] end = levels L input).
    { rewrite <- (Domain_Match_levels L g input H). destruct (domain g); [done|].
      symmetry. unfold DomainMatcherGroup.Match. cbn. rewrite (TrieSpec.match_loop_along [] DomainMatcherGroup.found) by (done || lia).
      rewrite TrieSpec.along_leaf by done. by rewrite TrieSpec.filter_replicate_new. }
    assert (Hful : match full g with Some f => FullMatcherGroup.Match f input | None => [] end = sel (is_full input) L).
    { rewrite <- (Full_Match_sel L g input H). by destruct (full g). }
    rewrite <- Hful, <- Hdom, <- Hreg.
    destruct (substr g) as [s|]; [rewrite Hsub|injection Hsub as <-]; cbn [mbind go_bind];
    destruct (full g), (domain g), (regex g); rewrite CompositeMatches_concat, ?concat_append_matches;
      cbn [concat app]; by rewrite ?app_nil_r, ?app_assoc.
  - intros v. rewrite Hss, (r_substr _ _ H). cbn. split.
    + intros (idx & p & Hp & Hv & Hc). exists p. split; [by eapply substr_positions|done].
    + intros (p & Hin & Hc). destruct (substr_position L p v Hin) as (idx & ? & ?). by exists idx, p.
Qed.


Lemma existsb_iff {A} (f : A → bool) l : existsb f l = true ↔ ∃ x, x ∈ l ∧ f x = true.
Proof. rewrite existsb_exists. by setoid_rewrite list_elem_of_In. Qed.

Lemma Simple_MatchAny_existsb g input :
  Simple_MatchAny MatchString g input = existsb (λ x, Matcher_Match MatchString x.1 input) g.
Proof. induction g as [|[m v] g IH]; [done|]. cbn. rewrite <- IH. by destruct (Matcher_Match _ _ _). Qed.

Definition matches (L : list (Matcher * Z)) (input : str) : Prop :=
  ∃ m v, (m, v) ∈ L ∧ Matcher_Match MatchString m input = true.

Lemma found_iff vs : DomainMatcherGroup.found vs = true ↔ ∃ v, v ∈ vs.
Proof.
  destruct vs as [|v vs]; cbn; split; try done.
  - by intros [v ?%elem_of_nil].
  - intros _. exists v. apply elem_of_cons. by left.
Qed.

Lemma elem_of_domain L input v :
  v ∈ levels L input ↔ ∃ vs, vs ∈ ((λ k, sel (is_domain (take k (labels input))) L) <$> seq 1 (length (labels input))) ∧ v ∈ vs.
Proof. apply elem_of_concat_reverse. Qed.

Lemma Full_MatchAny_spec L g input :
  rep L g →
  (match full g with Some f => FullMatcherGroup.MatchAny f input | None => false end = true
   ↔ ∃ v, (FullMatcher input, v) ∈ L).
Proof.
  intros H. assert (match full g with Some f => FullMatcherGroup.MatchAny f input | None => false end
    = bool_decide (is_Some (default ∅ (full g) !! input))) as ->.
  { destruct (full g); [done|]. cbn. by rewrite lookup_empty. }
  rewrite bool_decide_eq_true, (r_full _ _ H). split.
  - intros [vs E]. destruct (sel (is_full input) L) as [|v vs'] eqn:Es; [done|].
    assert (v ∈ sel (is_full input) L) as (m & Hm & Hf)%elem_of_sel by (rewrite Es; apply elem_of_cons; by left).
    destruct m as [q| | |]; try done. cbn in Hf. apply bool_decide_eq_true in Hf as ->. by exists v.
  - intros [v Hv]. assert (v ∈ sel (is_full input) L) as Hs.
    { apply elem_of_sel. exists (FullMatcher input). split; [done|]. by apply bool_decide_eq_true. }
    destruct (sel (is_full input) L); [by apply elem_of_nil in Hs|done].
Qed.

Lemma Domain_MatchAny_spec L g input :
  rep L g →
  (match domain g with Some d => DomainMatcherGroup.MatchAny d input | None => false end = true
   ↔ ∃ v, v ∈ levels L input).
Proof.
  intros H. assert (match domain g with Some d => DomainMatcherGroup.MatchAny d input | None => false end
    = existsb DomainMatcherGroup.found
        (TrieSpec.along [] (default DomainMatcherGroup.NewDomainMatcherGroup (domain g)) (labels input))) as ->.
  { pose proof (TrieSpec.any_loop_along [] DomainMatcherGroup.found eq_refl input (length input) (length input)) as Ha.
    rewrite (take_ge input) in Ha by lia. rewrite <- Ha by lia. destruct (domain g); [done|]. symmetry.
    rewrite Ha by lia. rewrite TrieSpec.along_leaf by done. by induction (length (labels _)). }
  rewrite TrieSpec.along_at, existsb_iff.
  rewrite (list_fmap_ext _ (λ k, sel (is_domain (take k (labels input))) L) (seq 1 _)) by (intros; apply (r_domain _ _ H)).
  setoid_rewrite elem_of_domain. setoid_rewrite found_iff. naive_solver.
Qed.

Lemma Substr_MatchAny_spec L g input :
  rep L g →
  (match substr g with Some s => SubstrMatcherGroup.MatchAny s input | None => false end = true
   ↔ ∃ p v, (SubstrMatcher p, v) ∈ L ∧ Contains input p = true).
Proof.
  intros H. assert (match substr g with Some s => SubstrMatcherGroup.MatchAny s input | None => false end
    = existsb (Contains input) (substr_patterns L)) as ->.
  { pose proof (r_substr _ _ H) as Hs. destruct (substr g) as [s|]; cbn in Hs; [by subst s|].
    injection Hs as <- _. done. }
  rewrite existsb_iff. unfold substr_patterns. split.
  - intros (p & (m & -> & ([m' w] & -> & [Hs Hin]%list_elem_of_filter)%list_elem_of_fmap)%list_elem_of_fmap & Hc).
    destruct m' as [| |q|]; try done. by exists q, w.
  - intros (p & v & Hin & Hc). exists p. split; [|done]. apply list_elem_of_fmap. exists (SubstrMatcher p).
    split; [done|]. apply list_elem_of_fmap. exists (SubstrMatcher p, v). by rewrite list_elem_of_filter.
Qed.

Lemma Regex_MatchAny_spec L g input :
  rep L g →
  (match regex g with Some r => Simple_MatchAny MatchString r input | None => false end = true
   ↔ ∃ p v, (RegexMatcher p, v) ∈ L ∧ MatchString p input = true).
Proof.
  intros H. assert (match regex g with Some r => Simple_MatchAny MatchString r input | None => false end
    = existsb (λ x, Matcher_Match MatchString x.1 input) (filter (λ x, is_regex x.1 = true) L)) as ->.
  { rewrite <- Simple_MatchAny_existsb, <- (r_regex _ _ H). by destruct (regex g). }
  rewrite existsb_iff. split.
  - intros ([m v] & [Hr Hin]%list_elem_of_filter & Hm). destruct m as [| | |p]; try done. by exists p, v.
  - intros (p & v & Hin & Hm). exists (RegexMatcher p, v). by rewrite list_elem_of_filter.
Qed.

Lemma Value_MatchAny_spec L input :
  Forall (λ x, matcher_ok x.1) L →
  (Value_MatchAny MatchString (added L) input = true ↔ matches L input).
Proof.
  intros HL. pose proof (added_rep L) as H. unfold Value_MatchAny.
  rewrite !orb_true_iff, (Full_MatchAny_spec L), (Domain_MatchAny_spec L), (Substr_MatchAny_spec L),
    (Regex_MatchAny_spec L) by done.
  setoid_rewrite (elem_of_levels L input _ HL). unfold matches. split.
  - intros [[[(v & ?)|(v & p & ? & ?)]|(p & v & ? & ?)]|(p & v & ? & ?)].
    + exists (FullMatcher input), v. split; [done|]. by apply bool_decide_eq_true.
    + by exists (DomainMatcher p), v.
    + by exists (SubstrMatcher p), v.
    + by exists (RegexMatcher p), v.
  - intros ([p|p|p|p] & v & Hin & Hm); cbn in Hm; [|naive_solver..].
    apply bool_decide_eq_true in Hm as ->. naive_solver.
Qed.

Lemma linear_value_answers L input :
  Forall (λ x, matcher_ok x.1) L → len (substr_patterns L) ≤ 65536 →
  ∃ ss, Value_Match MatchString (added L) input
        = Ok (sel (is_full input) L ++ levels L input ++ ss
              ++ sel (λ m, is_regex m && Matcher_Match MatchString m input) L) ∧
    (∀ r, Value_Match MatchString (added L) input = Ok r →
       ∀ v, v ∈ r ↔ ∃ m, (m, v) ∈ L ∧ Matcher_Match MatchString m input = true) ∧
    (Value_MatchAny MatchString (added L) input = true ↔ matches L input).
Proof.
  intros HL Hlen. destruct (Value_Match_spec L input HL Hlen) as (ss & E & Hss). exists ss.
  split; [done|]. split; [|by apply Value_MatchAny_spec]. intros r Er v. rewrite E in Er. injection Er as <-.
  rewrite !elem_of_app, !elem_of_sel, Hss, elem_of_levels by done. split.
  - intros [(m & ? & Hf)|[(p & ? & ?)|[(p & ? & ?)|(m & ? & [_ ?]%andb_true_iff)]]].
    + destruct m as [q| | |]; try done. cbn in Hf. apply bool_decide_eq_true in Hf as ->.
      exists (FullMatcher input). split; [done|]. by apply bool_decide_eq_true.
    + by exists (DomainMatcher p).
    + by exists (SubstrMatcher p).
    + by exists m.
  - intros ([p|p|p|p] & ? & Hm); cbn in Hm.
    + left. apply bool_decide_eq_true in Hm as ->. exists (FullMatcher input). split; [done|]. by apply bool_decide_eq_true.
    + right; left. by exists p.
    + right; right; left. by exists p.
    + right; right; right. by exists (RegexMatcher p).
Qed.

(** [LinearValueMatcher] is exact on any mix of full, domain, keyword and regular
    expression matchers (domain patterns without a leading dot, keywords not empty, at most
    65536 of them): [Match] returns without panicking, the values of the full matchers that
    match first, in the order they were added, then those of the domain matchers from the
    longest pattern to the shortest, then keywords, then regular expressions; a value is
    returned if and only if it was added with a matcher that matches the input on its own;
    and [MatchAny] tells whether there is one. *)
Lemma linear_value_matcher_exact L input :
  Forall (λ x, matcher_ok x.1) L → len (substr_patterns L) ≤ 65536 →
  ∃ ss, Value_Match MatchString (added L) input
        = Ok (sel (is_full input) L ++ levels L input ++ ss
              ++ sel (λ m, is_regex m && Matcher_Match MatchString m input) L) ∧
    (∀ r, Value_Match MatchString (added L) input = Ok r →
       ∀ v, v ∈ r ↔ ∃ m, (m, v) ∈ L ∧ Matcher_Match MatchString m input = true) ∧
    (Value_MatchAny MatchString (added L) input = true ↔ matches L input).
Proof. apply linear_value_answers. Qed.


(** *** The set of all matchers *)

Record any_rep (L : list Matcher) (s : LinearAnyMatcher) : Prop := {
  ar_full : ∀ p, p ∈ default ∅ (a_full s) ↔ FullMatcher p ∈ L;
  ar_domain : ∀ ls, TrieSpec.at_ false (default (Trie.empty false) (a_domain s)) ls = existsb (is_domain ls) L;
  ar_substr : default [] (a_substr s) = Pattern <$> filter (λ m, is_substr m = true) L;
  ar_regex : default [] (a_regex s) = filter (λ m, is_regex m = true) L
}.

Definition any_added (L : list Matcher) : LinearAnyMatcher := foldl Any_Add NewLinearAnyMatcher L.

Lemma filter_snoc (P : Matcher → bool) L m :
  filter (λ m, P m = true) (L ++ [m]) = filter (λ m, P m = true) L ++ (if P m then [m] else []).
Proof.
  rewrite filter_app. f_equal. destruct (P m) eqn:E.
  - by rewrite filter_cons_True.
  - by rewrite filter_cons_False by congruence.
Qed.

Lemma any_added_rep L : any_rep L (any_added L).
Proof.
  induction L as [|m L IH] using rev_ind.
  { split; try done; [intros p; split; [by intros ?%elem_of_empty|by intros ?%elem_of_nil]|].
    intros ls. by destruct ls. }
  unfold any_added. rewrite foldl_snoc. fold (any_added L).
  destruct m as [p|p|p|p]; split; cbn [Any_Add a_full a_domain a_substr a_regex];
    try intros q; rewrite ?filter_snoc, ?existsb_app, ?elem_of_app, ?list_elem_of_singleton;
    cbn [is_domain is_substr is_regex existsb from_option id]; rewrite ?app_nil_r, ?orb_false_r, ?fmap_app; try apply IH.
  - rewrite elem_of_union, elem_of_singleton, (ar_full _ _ IH). naive_solver.
  - rewrite (ar_full _ _ IH). naive_solver.
  - unfold DomainSet_Add. rewrite TrieSpec.add_labels, TrieSpec.at_add_path, (ar_domain _ _ IH).
    case_bool_decide as Hq.
    + rewrite decide_True by done. by rewrite orb_true_r.
    + rewrite decide_False by done. by rewrite orb_false_r.
  - rewrite (ar_full _ _ IH). naive_solver.
  - by rewrite (ar_substr _ _ IH).
  - rewrite (ar_full _ _ IH). naive_solver.
  - by rewrite (ar_regex _ _ IH).
Qed.

Lemma DomainSet_MatchAny_spec L s input :
  any_rep L s → Forall matcher_ok L →
  (match a_domain s with Some d => DomainSet_MatchAny d input | None => false end = true
   ↔ ∃ p, DomainMatcher p ∈ L ∧ DomainMatcher_Match p input = true).
Proof.
  intros H HL. rewrite list.Forall_forall in HL.
  assert (match a_domain s with Some d => DomainSet_MatchAny d input | None => false end
    = existsb id (TrieSpec.along false (default (Trie.empty false) (a_domain s)) (labels input))) as ->.
  { pose proof (TrieSpec.any_loop_along false id eq_refl input (length input) (length input)) as Ha.
    rewrite (take_ge input) in Ha by lia. rewrite <- Ha by lia. destruct (a_domain s); [done|]. symmetry.
    rewrite Ha by lia. rewrite TrieSpec.along_leaf by done. by induction (length (labels _)). }
  rewrite TrieSpec.along_at, existsb_iff.
  rewrite (list_fmap_ext _ (λ k, existsb (is_domain (take k (labels input))) L) (seq 1 _)) by (intros; apply (ar_domain _ _ H)).
  setoid_rewrite list_elem_of_fmap. split.
  - intros (b & (k & -> & Hk) & Hb). unfold id in Hb. apply existsb_iff in Hb as (m & Hm & Hd).
    destruct m as [|p| |]; try done. cbn in Hd. apply bool_decide_eq_true in Hd. exists p. split; [done|].
    apply domain_level; [apply (HL _ Hm)|]. by exists k.
  - intros (p & Hp & Hm). apply domain_level in Hm as (k & Hk & El); [|apply (HL _ Hp)].
    eexists. split; [by exists k|]. unfold id. apply existsb_iff. exists (DomainMatcher p). split; [done|].
    by apply bool_decide_eq_true.
Qed.

Lemma linear_any_answers L input :
  Forall matcher_ok L →
  Any_MatchAny MatchString (any_added L) input = existsb (λ m, Matcher_Match MatchString m input) L.
Proof.
  intros HL. pose proof (any_added_rep L) as H. apply eq_true_iff_eq. unfold Any_MatchAny.
  rewrite !orb_true_iff, (DomainSet_MatchAny_spec L), existsb_iff by done.
  assert (match a_full (any_added L) with Some f => bool_decide (input ∈ f) | None => false end = true
          ↔ FullMatcher input ∈ L) as ->.
  { rewrite <- (ar_full _ _ H). destruct (a_full _); [apply bool_decide_eq_true|]. cbn.
    split; [done|by intros ?%elem_of_empty]. }
  assert (match a_substr (any_added L) with Some ps => existsb (Contains input) ps | None => false end
          = existsb (Contains input) (default [] (a_substr (any_added L)))) as -> by (by destruct (a_substr _)).
  assert (match a_regex (any_added L) with Some ms => existsb (λ m, Matcher_Match MatchString m input) ms | None => false end
          = existsb (λ m, Matcher_Match MatchString m input) (default [] (a_regex (any_added L)))) as ->
    by (by destruct (a_regex _)).
  rewrite (ar_substr _ _ H), (ar_regex _ _ H), !existsb_iff. split.
  - intros [[[?|(p & ? & ?)]|(p & (m & -> & [Hs ?]%list_elem_of_filter)%list_elem_of_fmap & ?)]
           |(m & [? ?]%list_elem_of_filter & ?)].
    + exists (FullMatcher input). split; [done|]. by apply bool_decide_eq_true.
    + by exists (DomainMatcher p).
    + exists m. split; [done|]. by destruct m.
    + by exists m.
  - intros ([p|p|p|p] & Hin & Hm); cbn in Hm.
    + apply bool_decide_eq_true in Hm as ->. by left; left; left.
    + left; left; right. by exists p.
    + left; right. exists p. split; [|done]. apply list_elem_of_fmap. exists (SubstrMatcher p).
      by rewrite list_elem_of_filter.
    + right. exists (RegexMatcher p). by rewrite list_elem_of_filter.
Qed.

(** [LinearAnyMatcher] answers exactly whether one of the matchers added to it matches
    the input, whatever mix of full, domain, keyword and regular expression matchers was
    added, in whatever order: the hash set, the label trie and the lists together are
    equivalent to asking each matcher in turn. *)
Lemma linear_any_matcher_exact L input :
  Forall matcher_ok L →
  Any_MatchAny MatchString (any_added L) input = existsb (λ m, Matcher_Match MatchString m input) L.
Proof. apply linear_any_answers. Qed.

End linear.

(** *** Index matchers *)

(** The matchers numbered from 1. *)
Definition numbered (ms : list Matcher) : list (Matcher * Z) := zip ms (seqZ 1 (len ms)).

(** Adding matchers to a [LinearIndexMatcher] numbers them from 1 in order, and its groups
    are those of a [LinearValueMatcher] with these numbers. *)
Lemma index_added ms :
  len ms < 4294967296 →
  foldl (λ g m, (Index_Add g m).1) NewLinearIndexMatcher ms = mkIndex (len ms) (added (numbered ms)).
Proof.
  induction ms as [|m ms IH] using rev_ind; intros Hl; [done|]. rewrite len_snoc in *.
  rewrite foldl_snoc, IH by lia. cbn [Index_Add fst count groups]. pose proof (len_nonneg ms).
  rewrite u32_small by (unfold is_u32; lia). f_equal. unfold added, numbered. rewrite len_snoc.
  rewrite seqZ_app by lia. rewrite zip_with_app by (rewrite length_seqZ, to_nat_len; done).
  rewrite foldl_app. rewrite (seqZ_cons (1 + len ms)) by lia. cbn. f_equal. lia.
Qed.

(** *** Validated patterns *)

(** What [ToDomain] returns is made of lower case letters, digits, hyphens and dots only. *)
Lemma ToDomain_valid ToASCII fuel p d :
  ToDomain ToASCII fuel p = Ok d → Forall (λ c, classify c = Allowed) d.
Proof.
  revert p. induction fuel as [|fuel IH]; intros p; cbn [ToDomain]; [done|].
  destruct (scan_pattern p false) as [[[|] up]|] eqn:E; [|destruct (ToASCII p); [apply IH|done]|done].
  intros [= <-].
  assert (∀ u, scan_pattern p u = Some (true, up) →
    Forall (λ c, classify c = Upper ∨ classify c = Allowed) p ∧ (up = false → u = false ∧ Forall (λ c, classify c = Allowed) p)) as Hs.
  { clear. induction p as [|c p IH]; intros u; cbn [scan_pattern].
    - intros [= <-]. split; [apply Forall_nil_2|]. intros ->. split; [done|apply Forall_nil_2].
    - destruct (classify c) eqn:Ec; try done; intros Hp; destruct (IH _ Hp) as [H1 H2].
      + split; [apply Forall_cons_2; auto|]. intros Hu. by destruct (H2 Hu).
      + split; [apply Forall_cons_2; auto|]. intros Hu. destruct (H2 Hu). split; [done|]. by apply Forall_cons_2. }
  destruct (Hs false E) as [H1 H2]. destruct up; [|by apply H2].
  unfold ToLower. apply Forall_fmap. eapply list.Forall_impl; [exact H1|]. intros c Hc. cbn.
  assert (∀ c, classify c = Upper ∨ classify c = Allowed → classify (lower c) = Allowed) as Hall; [|by apply Hall].
  clear. intros c Hc. destruct c; vm_compute in Hc |- *; naive_solver.
Qed.

(** *** Where the trie and the matcher differ *)

(** A pattern with a leading dot: the trie matches the bare domain, the matcher on its own
    does not. *)
Lemma leading_dot_differs :
  let g := DomainMatcherGroup.AddDomainMatcher DomainMatcherGroup.NewDomainMatcherGroup [dot; x63; x6f; x6d] 1 in
  DomainMatcherGroup.Match g [x63; x6f; x6d] = [1] ∧
  DomainMatcher_Match [dot; x63; x6f; x6d] [x63; x6f; x6d] = false.
Proof. split; reflexivity. Qed.

Definition sample_matchers : list (Matcher * Z) :=
  [(SubstrMatcher [x6c; x65], 1); (DomainMatcher [x63; x6f; x6d], 2);
   (DomainMatcher [x61; x70; x70; x6c; x65; dot; x63; x6f; x6d], 3);
   (FullMatcher [x61; x70; x70; x6c; x65; dot; x63; x6f; x6d], 4);
   (RegexMatcher [dot], 5); (DomainMatcher [x6f; x72; x67], 6)].
Definition sample_input : str := [x61; x70; x70; x6c; x65; dot; x63; x6f; x6d].

Lemma sample_ok : Forall (λ x, matcher_ok x.1) sample_matchers.
Proof.
  repeat (apply Forall_cons_2; [cbn; try (split; intros H; discriminate H); try (intros H; discriminate H); exact I|]).
  apply Forall_nil_2.
Qed.

Lemma linear_value_matcher_exact_witness :
  Value_Match (λ _ _, true) (added sample_matchers) sample_input = Ok [4; 3; 2; 1; 5] ∧
  (∀ v, v ∈ [4; 3; 2; 1; 5] ↔ ∃ m, (m, v) ∈ sample_matchers ∧ Matcher_Match (λ _ _, true) m sample_input = true).
Proof.
  destruct (linear_value_matcher_exact (λ _ _, true) sample_matchers sample_input) as (ss & E & H & _).
  - exact sample_ok.
  - vm_compute. discriminate.
  - assert (Value_Match (λ _ _, true) (added sample_matchers) sample_input = Ok [4; 3; 2; 1; 5]) as Ev
      by (vm_compute; reflexivity).
    split; [exact Ev|]. exact (H _ Ev).
Defined.

Lemma linear_any_matcher_exact_witness :
  Any_MatchAny (λ _ _, false) (any_added (sample_matchers.*1)) sample_input = true.
Proof.
  rewrite (linear_any_matcher_exact (λ _ _, false) (sample_matchers.*1) sample_input).
  - vm_compute. reflexivity.
  - apply Forall_fmap. exact sample_ok.
Defined.
