(* ===== verification/StrAutomaton.v ===== *)
(** * The Aho-Corasick group of domain matchers

    Models [common/geodata/strmatcher/matchergroup_ac_automation.go]: one automaton for
    full, domain and substring patterns, read from the last character to the first. Nodes
    and match entries are arrays indexed by numbers, as in the source; [Build] turns the
    trie into an automaton by a breadth-first traversal. An index is a natural number where the
    source has a [uint32], and an access to an array is a total lookup: an index out of range
    would read the default node here and panic in the source. *)

From S2P Require Import Prelude StrMatcher.
#[local] Open Scope Z_scope.

Definition acValidCharCount : nat := 39.

(** [acCharset], without distinction of case; 0 is for characters outside the set. *)
Definition acCharset (c : byte) : nat :=
  let z := byte_to_Z c in
  if decide (65 ≤ z ≤ 90) then Z.to_nat (z - 64)
  else if decide (97 ≤ z ≤ 122) then Z.to_nat (z - 96)
  else if decide (c = x2d) then 27
  else if decide (c = dot) then 28
  else if decide (48 ≤ z ≤ 57) then Z.to_nat (z - 19)
  else 0.

Record acNode := mkNode {
  next : list nat;        (* edge -> next node *)
  edge : list bool;       (* edge -> is it a trie edge *)
  fail : nat;             (* next substring match on the fail path *)
  match_ : nat            (* match entry, 0 for none *)
}.

(** The values of one node, by the type of the matcher. *)
Record acValue := mkValue { v_full : list Z; v_domain : list Z; v_substr : list Z }.

#[global] Instance acNode_inhabited : Inhabited acNode :=
  populate (mkNode (replicate acValidCharCount 0%nat) (replicate acValidCharCount false) 0 0).
#[global] Instance acValue_inhabited : Inhabited acValue := populate (mkValue [] [] []).

Record ACAutomaton := mkAC { nodes : list acNode; values : list acValue }.

(** [addNode] and [addMatchEntry]: the index of the new entry. *)
Definition addNode (ac : ACAutomaton) : ACAutomaton * nat :=
  (mkAC (nodes ac ++ [inhabitant]) (values ac), length (nodes ac)).
Definition addMatchEntry (ac : ACAutomaton) : ACAutomaton * nat :=
  (mkAC (nodes ac) (values ac ++ [inhabitant]), length (values ac)).

Definition NewACAutomaton : ACAutomaton := (addMatchEntry (addNode (mkAC [] [])).1).1.

Definition set_node (ac : ACAutomaton) (n : nat) (f : acNode → acNode) : ACAutomaton :=
  mkAC (<[n := f (nodes ac !!! n)]> (nodes ac)) (values ac).
Definition set_edge (e m : nat) (t : bool) (nd : acNode) : acNode :=
  mkNode (<[e := m]> (next nd)) (<[e := t]> (edge nd)) (fail nd) (match_ nd).
Definition set_fail (f : nat) (nd : acNode) : acNode := mkNode (next nd) (edge nd) f (match_ nd).
Definition set_match (m : nat) (nd : acNode) : acNode := mkNode (next nd) (edge nd) (fail nd) m.

(** The loop of [addPattern] along the edges of the pattern, last character first. *)
Fixpoint add_edges (ac : ACAutomaton) (nodeIdx : nat) (es : list nat) : ACAutomaton * nat :=
  match es with
  | [] => (ac, nodeIdx)
  | e :: es =>
      let nextIdx := next (nodes ac !!! nodeIdx) !!! e in
      if decide (nextIdx = 0%nat) then
        let '(ac, m) := addNode ac in
        add_edges (set_node ac nodeIdx (set_edge e m true)) m es
      else add_edges ac nextIdx es
  end.

Definition append_value (t : Type_) (value : Z) (v : acValue) : acValue :=
  match t with
  | Full => mkValue (v_full v ++ [value]) (v_domain v) (v_substr v)
  | Domain => mkValue (v_full v) (v_domain v ++ [value]) (v_substr v)
  | Substr => mkValue (v_full v) (v_domain v) (v_substr v ++ [value])
  | Regex => v
  end.

(** Registering a value on a node, with a new match entry where it has none. *)
Definition register (ac : ACAutomaton) (nodeIdx : nat) (t : Type_) (value : Z) : ACAutomaton :=
  let ac := if decide (match_ (nodes ac !!! nodeIdx) = 0%nat) then
              let '(ac, m) := addMatchEntry ac in set_node ac nodeIdx (set_match m)
            else ac in
  let m := match_ (nodes ac !!! nodeIdx) in
  mkAC (nodes ac) (<[m := append_value t value (values ac !!! m)]> (values ac)).

Definition edges (pattern : str) : list nat := acCharset <$> reverse pattern.

Definition addPattern (ac : ACAutomaton) (nodeIdx : nat) (pattern : str) (t : Type_) (value : Z)
    : ACAutomaton * nat :=
  let '(ac, n) := add_edges ac nodeIdx (edges pattern) in
  (register ac n t value, n).

Definition AddFullMatcher (ac : ACAutomaton) (pattern : str) (value : Z) : ACAutomaton :=
  (addPattern ac 0 pattern Full value).1.
Definition AddDomainMatcher (ac : ACAutomaton) (pattern : str) (value : Z) : ACAutomaton :=
  let '(ac, node) := addPattern ac 0 pattern Domain value in
  (addPattern ac node [dot] Domain value).1.
Definition AddSubstrMatcher (ac : ACAutomaton) (pattern : str) (value : Z) : ACAutomaton :=
  (addPattern ac 0 pattern Substr value).1.

(** *** [Build] *)

Record BuildState := mkBuild { b_ac : ACAutomaton; b_fail : list nat; b_queue : list nat }.

Definition has_substr (ac : ACAutomaton) (n : nat) : bool :=
  let m := match_ (nodes ac !!! n) in
  bool_decide (m ≠ 0%nat) && match v_substr (values ac !!! m) with [] => false | _ => true end.

(** One edge of the node [n], whose fail node is [f]. *)
Definition build_edge (n f : nat) (st : BuildState) (e : nat) : BuildState :=
  let ac := b_ac st in
  let nodeIdx := next (nodes ac !!! n) !!! e in
  let failIdx := next (nodes ac !!! f) !!! e in
  if decide (nodeIdx ≠ 0%nat) then
    let cf := if has_substr ac failIdx then failIdx else fail (nodes ac !!! failIdx) in
    mkBuild (set_node ac nodeIdx (set_fail cf)) (<[nodeIdx := failIdx]> (b_fail st))
      (b_queue st ++ [nodeIdx])
  else
    mkBuild (set_node ac n (set_edge e failIdx false)) (b_fail st) (b_queue st).

Fixpoint build_loop (fuel : nat) (st : BuildState) : go ACAutomaton :=
  match fuel, b_queue st with
  | _, [] => Ok (b_ac st)
  | O, _ => Panic
  | S fuel, n :: queue =>
      let f := b_fail st !!! n in
      build_loop fuel
        (foldl (build_edge n f) (mkBuild (b_ac st) (b_fail st) queue) (seq 0 acValidCharCount))
  end.

(** Every node enters the queue once. *)
Definition Build (ac : ACAutomaton) : go ACAutomaton :=
  let queue := filter (λ n, n ≠ 0%nat) ((λ e, next (nodes ac !!! 0%nat) !!! e) <$> seq 0 acValidCharCount) in
  build_loop (length (nodes ac)) (mkBuild ac (replicate (length (nodes ac)) 0%nat) queue).

(** *** [Match] *)

(** The walk along the fail path. Both loop variables are assigned at once, so the node
    lags one step behind its index. *)
Fixpoint fail_loop (fuel : nat) (ac : ACAutomaton) (failIdx : nat) (failNode : acNode)
    (matches : list (list Z)) : go (list (list Z)) :=
  match failIdx, fuel with
  | O, _ => Ok matches
  | _, O => Panic
  | _, S fuel =>
      fail_loop fuel ac (fail failNode) (nodes ac !!! failIdx)
        (matches ++ [v_substr (values ac !!! match_ failNode)])
  end.

Record MatchState := mkMatch {
  m_full : bool;
  m_node : nat;
  m_suffix : list (list Z);
  m_substr : list (list Z)
}.

(** [if len(vs) > 0 { matches = append(matches, vs) }]. *)
Definition push_values (matches : list (list Z)) (vs : list Z) : list (list Z) :=
  match vs with [] => matches | _ => matches ++ [vs] end.

(** One character of the input. *)
Definition match_step (ac : ACAutomaton) (st : MatchState) (c : byte) : go MatchState :=
  let e := acCharset c in
  let fullMatch := m_full st && edge (nodes ac !!! m_node st) !!! e in
  let n := next (nodes ac !!! m_node st) !!! e in
  let node := nodes ac !!! n in
  sub ← (if decide (fail node ≠ 0%nat)
         then fail_loop (2 * length (nodes ac)) ac (fail node) (nodes ac !!! fail node) (m_substr st)
         else Ok (m_substr st));
  if decide (match_ node ≠ 0%nat) then
    let vs := values ac !!! match_ node in
    Ok (mkMatch fullMatch n
          (if fullMatch && bool_decide (c = dot) then push_values (m_suffix st) (v_domain vs) else m_suffix st)
          (push_values sub (v_substr vs)))
  else Ok (mkMatch fullMatch n (m_suffix st) sub).

Fixpoint match_loop (ac : ACAutomaton) (st : MatchState) (cs : str) : go MatchState :=
  match cs with [] => Ok st | c :: cs => st ← match_step ac st c; match_loop ac st cs end.

Definition Match (ac : ACAutomaton) (input : str) : go (list Z) :=
  st ← match_loop ac (mkMatch true 0 [] []) (reverse input);
  let node := nodes ac !!! m_node st in
  let suffix := if m_full st && bool_decide (match_ node ≠ 0%nat) then
                  let vs := values ac !!! match_ node in
                  push_values (push_values (m_suffix st) (v_domain vs)) (v_full vs)
                else m_suffix st in
  Ok (match m_substr st with
      | [] => CompositeMatchesReverse suffix
      | sub => CompositeMatchesReverse (sub ++ suffix)
      end).

(** The loop of [MatchAny], and its answer at the end of the input. *)
Fixpoint any_loop (ac : ACAutomaton) (fullMatch : bool) (node : nat) (cs : str) : bool :=
  match cs with
  | [] => fullMatch && bool_decide (match_ (nodes ac !!! node) ≠ 0%nat)
  | c :: cs =>
      let e := acCharset c in
      let fullMatch := fullMatch && edge (nodes ac !!! node) !!! e in
      let node := next (nodes ac !!! node) !!! e in
      let nd := nodes ac !!! node in
      let vs := values ac !!! match_ nd in
      if decide (fail nd ≠ 0%nat) then true
      else if bool_decide (match_ nd ≠ 0%nat) && match v_substr vs with [] => false | _ => true end then true
      else if bool_decide (match_ nd ≠ 0%nat) && fullMatch && bool_decide (c = dot)
              && match v_domain vs with [] => false | _ => true end then true
      else any_loop ac fullMatch node cs
  end.

Definition MatchAny (ac : ACAutomaton) (input : str) : bool := any_loop ac true 0 (reverse input).

(** *** Adding any matcher of the three types *)

Definition AddMatcher (ac : ACAutomaton) (m : Matcher) (value : Z) : ACAutomaton :=
  match m with
  | FullMatcher p => AddFullMatcher ac p value
  | DomainMatcher p => AddDomainMatcher ac p value
  | SubstrMatcher p => AddSubstrMatcher ac p value
  | RegexMatcher _ => ac
  end.

Definition ac_added (L : list (Matcher * Z)) : ACAutomaton :=
  foldl (λ ac x, AddMatcher ac x.1 x.2) NewACAutomaton L.

(** ** Words of the trie

    A node stands for the codes on the path to it. The theorems speak of these words: [ws]
    lists them by the index of their node. *)

Abbreviation word := (list nat).

Definition idx (ws : list word) (w : word) : nat := from_option fst 0%nat (list_find (λ x, x = w) ws).

Lemma idx_not_in ws w : w ∉ ws → idx ws w = 0%nat.
Proof.
  intros H. unfold idx. destruct (list_find _ ws) as [[i x]|] eqn:E; [|done].
  apply list_find_Some in E as (E & -> & _). exfalso. apply H. by eapply list_elem_of_lookup_2.
Qed.

Lemma idx_lookup ws w : w ∈ ws → ws !! idx ws w = Some w.
Proof.
  intros H. unfold idx. destruct (list_find_elem_of (λ x, x = w) ws w H eq_refl) as [[i x] E].
  rewrite E. cbn. by apply list_find_Some in E as (E & -> & _).
Qed.

Lemma idx_index ws n w : NoDup ws → ws !! n = Some w → idx ws w = n.
Proof.
  intros Hn H. eapply NoDup_lookup; [done| |done]. apply idx_lookup. by eapply list_elem_of_lookup_2.
Qed.

Lemma idx_snoc ws w x : x ∉ ws → idx (ws ++ [x]) w = if decide (w = x) then length ws else idx ws w.
Proof.
  intros Hx. destruct (decide (w = x)) as [->|Hne].
  - unfold idx. rewrite list_find_app_r.
    + cbn. rewrite decide_True by done. cbn. lia.
    + apply list_find_None. apply list.Forall_forall. by intros ? ? ->.
  - unfold idx. destruct (list_find _ ws) as [[i y]|] eqn:E.
    + by erewrite list_find_app_l by done.
    + rewrite list_find_app_r by done. cbn. by rewrite decide_False by done.
Qed.

Lemma suffix_cons_case {A} (w : list A) a r : w `suffix_of` a :: r → w = a :: r ∨ w `suffix_of` r.
Proof. destruct w; [right; apply suffix_nil|]. apply suffix_cons_inv. Qed.

(** The longest suffix that is a word, and the longest one that satisfies [P]. *)
Section suffixes.
Context (P : word → Prop) `{Pdec : ∀ w, Decision (P w)}.

Fixpoint lsuf (r : word) : word :=
  if decide (P r) then r else match r with [] => [] | _ :: r => lsuf r end.
Definition lpsuf (u : word) : word := match u with [] => [] | _ :: u => lsuf u end.

Lemma lsuf_id r : P r → lsuf r = r.
Proof. intros H. by destruct r; cbn; rewrite decide_True by done. Qed.

Lemma lsuf_skip a r : ¬ P (a :: r) → lsuf (a :: r) = lsuf r.
Proof. intros H. cbn. by rewrite decide_False by done. Qed.

Lemma lsuf_suffix r : lsuf r `suffix_of` r.
Proof.
  induction r as [|a r IH]; cbn; case_decide; try done. by apply suffix_cons_r.
Qed.

Lemma lsuf_P r : P (lsuf r) ∨ lsuf r = [].
Proof. induction r as [|a r IH]; cbn; case_decide; auto. Qed.

Lemma lsuf_longest r w : w `suffix_of` r → P w → w `suffix_of` lsuf r.
Proof.
  intros Hs Hw. induction r as [|a r IH]; cbn; case_decide; try done.
  apply suffix_cons_case in Hs as [->|Hs]; [done|auto].
Qed.

Lemma lpsuf_length u : u ≠ [] → (length (lpsuf u) < length u)%nat.
Proof.
  destruct u as [|a u]; [done|]. intros _. cbn [lpsuf].
  pose proof (suffix_length _ _ (lsuf_suffix u)). cbn. lia.
Qed.

Lemma lpsuf_suffix u : lpsuf u `suffix_of` u.
Proof. destruct u; [done|]. cbn [lpsuf]. apply suffix_cons_r, lsuf_suffix. Qed.

(** What is a proper suffix is a suffix of the longest proper one. *)
Lemma lpsuf_longest u w : w `suffix_of` u → P w → w = u ∨ w `suffix_of` lpsuf u.
Proof.
  intros Hs Hw. destruct u as [|a u]; [by right|].
  apply suffix_cons_case in Hs as [->|Hs]; [by left|]. right. by apply lsuf_longest.
Qed.

End suffixes.

Section closed.
Context (ws : list word).
Hypothesis Hnil : [] ∈ ws.
Hypothesis Hpre : ∀ w c, w ++ [c] ∈ ws → w ∈ ws.

Abbreviation longest := (lsuf (λ w, w ∈ ws)).
Abbreviation fail_word := (lpsuf (λ w, w ∈ ws)).

Lemma longest_in r : longest r ∈ ws.
Proof. by destruct (lsuf_P (λ w, w ∈ ws) r) as [?| ->]. Qed.

Lemma fail_word_in u : fail_word u ∈ ws.
Proof. destruct u; [done|apply longest_in]. Qed.

(** The suffix after one more character depends only on the suffix before it. *)
Lemma longest_snoc r c : longest (r ++ [c]) = longest (longest r ++ [c]).
Proof.
  induction r as [|a r IH].
  - by rewrite (lsuf_id _ []) by done.
  - destruct (decide (a :: r ∈ ws)) as [Hin|Hout].
    + by rewrite (lsuf_id _ (a :: r)) by done.
    + rewrite (lsuf_skip _ a r Hout), <- IH. cbn [app]. apply lsuf_skip.
      intros H. apply Hout, (Hpre _ c). done.
Qed.

Lemma fail_word_snoc u c : u ≠ [] → fail_word (u ++ [c]) = longest (fail_word u ++ [c]).
Proof. destruct u as [|a u]; [done|]. intros _. cbn [app lpsuf]. apply longest_snoc. Qed.

Lemma prefix_closed w w' : w ++ w' ∈ ws → w ∈ ws.
Proof.
  induction w' as [|c w' IH] using rev_ind; [by rewrite app_nil_r|].
  rewrite app_assoc. intros H. by apply IH, (Hpre _ c).
Qed.

(** The prefixes of a word are words, so it is shorter than their number. *)
Lemma word_length w : w ∈ ws → (length w < length ws)%nat.
Proof.
  intros H. assert (Hs : (λ i, take i w) <$> seq 0 (S (length w)) ⊆+ ws).
  { apply NoDup_submseteq.
    - apply NoDup_fmap_2_strong; [|apply NoDup_seq].
      intros x y Hx%elem_of_seq Hy%elem_of_seq He. apply (f_equal length) in He.
      rewrite !length_take in He. lia.
    - intros x (i & -> & Hi)%list_elem_of_fmap. apply (prefix_closed _ (drop i w)).
      by rewrite take_drop. }
  apply submseteq_length in Hs. rewrite length_fmap, length_seq in Hs. lia.
Qed.

Section marked.
Context (M : word → Prop) `{Mdec : ∀ w, Decision (M w)}.
Hypothesis HM : ∀ w, M w → w ∈ ws.

(** The compressed fail path: the longest proper suffix that is marked. *)
Lemma marked_longest r :
  lsuf M r = if decide (M (longest r)) then longest r else lpsuf M (longest r).
Proof.
  induction r as [|a r IH].
  - cbn. destruct (decide ([] ∈ ws)); [|done]. by destruct (decide (M [])).
  - destruct (decide (a :: r ∈ ws)) as [Hin|Hout].
    + rewrite (lsuf_id (λ w, w ∈ ws) (a :: r) Hin). cbn. by destruct (decide (M (a :: r))).
    + rewrite (lsuf_skip (λ w, w ∈ ws) a r Hout), <- IH. apply lsuf_skip. auto.
Qed.

Lemma marked_fail u : u ≠ [] →
  lpsuf M u = if decide (M (fail_word u)) then fail_word u else lpsuf M (fail_word u).
Proof. destruct u as [|a u]; [done|]. intros _. cbn [lpsuf]. apply marked_longest. Qed.

End marked.
End closed.

(** ** The trie that the patterns make *)

Definition values_of (t : Type_) (v : acValue) : list Z :=
  match t with Full => v_full v | Domain => v_domain v | Substr => v_substr v | Regex => [] end.

#[global] Instance Type__eq_dec : EqDecision Type_.
Proof. solve_decision. Defined.

(** What was registered: a word, a type and a value. *)
Abbreviation registration := (word * Type_ * Z)%type.

Record values_ok (R : list registration) (ws : list word) (ac : ACAutomaton) : Prop := {
  vo_words w t v : (w, t, v) ∈ R → w ∈ ws;
  vo_sentinel : values ac !! 0%nat = Some inhabitant;
  vo_bound n w : ws !! n = Some w → (match_ (nodes ac !!! n) < length (values ac))%nat;
  vo_distinct n n' w w' :
    ws !! n = Some w → ws !! n' = Some w' → match_ (nodes ac !!! n) = match_ (nodes ac !!! n') →
    match_ (nodes ac !!! n) ≠ 0%nat → n = n';
  vo_none n w : ws !! n = Some w → match_ (nodes ac !!! n) = 0%nat → ∀ t v, (w, t, v) ∉ R;
  vo_some n w : ws !! n = Some w → match_ (nodes ac !!! n) ≠ 0%nat → ∃ t v, (w, t, v) ∈ R ∧ t ≠ Regex;
  vo_values n w t v : ws !! n = Some w → t ≠ Regex →
    (v ∈ values_of t (values ac !!! match_ (nodes ac !!! n)) ↔ (w, t, v) ∈ R)
}.

Record words_ok (ws : list word) : Prop := {
  wo_root : ws !! 0%nat = Some [];
  wo_nodup : NoDup ws;
  wo_prefix w c : w ++ [c] ∈ ws → w ∈ ws;
  wo_chars w c : w ++ [c] ∈ ws → (c < acValidCharCount)%nat
}.

Definition sized (nd : acNode) : Prop :=
  length (next nd) = acValidCharCount ∧ length (edge nd) = acValidCharCount.

Record trie (R : list registration) (ws : list word) (ac : ACAutomaton) : Prop := {
  tr_words : words_ok ws;
  tr_length : length (nodes ac) = length ws;
  tr_sized n w : ws !! n = Some w → sized (nodes ac !!! n);
  tr_fail n w : ws !! n = Some w → fail (nodes ac !!! n) = 0%nat;
  tr_next n w c : ws !! n = Some w → (c < acValidCharCount)%nat →
    next (nodes ac !!! n) !!! c = idx ws (w ++ [c]);
  tr_edge n w c : ws !! n = Some w → (c < acValidCharCount)%nat →
    edge (nodes ac !!! n) !!! c = bool_decide (next (nodes ac !!! n) !!! c ≠ 0%nat);
  tr_values : values_ok R ws ac
}.

Lemma words_nil ws : words_ok ws → [] ∈ ws.
Proof. intros H. eapply list_elem_of_lookup_2, (wo_root _ H). Qed.

Lemma idx_zero ws w : words_ok ws → idx ws w = 0%nat → w = [] ∨ w ∉ ws.
Proof.
  intros H E. destruct (decide (w ∈ ws)) as [Hin|]; [left|by right].
  apply idx_lookup in Hin. rewrite E, (wo_root _ H) in Hin. by injection Hin.
Qed.

Lemma snoc_not_nil {A} (w : list A) c : w ++ [c] ≠ [].
Proof. by destruct w. Qed.

Lemma idx_snoc_zero ws w c : words_ok ws → idx ws (w ++ [c]) = 0%nat → w ++ [c] ∉ ws.
Proof. intros H [E|?]%idx_zero; [by apply snoc_not_nil in E|done|done]. Qed.

Lemma idx_snoc_pos ws w c : words_ok ws → idx ws (w ++ [c]) ≠ 0%nat → w ++ [c] ∈ ws.
Proof. intros H E. destruct (decide (w ++ [c] ∈ ws)); [done|]. by rewrite idx_not_in in E. Qed.

(** Reading the arrays after a write. *)
Lemma node_set ac n f k : (n < length (nodes ac))%nat →
  nodes (set_node ac n f) !!! k = if decide (k = n) then f (nodes ac !!! n) else nodes ac !!! k.
Proof.
  intros H. unfold set_node. cbn [nodes]. destruct (decide (k = n)) as [->|].
  - by rewrite list_lookup_total_insert_eq.
  - by rewrite list_lookup_total_insert_ne.
Qed.

Lemma node_add ac k : (k < length (nodes ac))%nat → nodes (addNode ac).1 !!! k = nodes ac !!! k.
Proof. intros H. cbn. by apply lookup_total_app_l. Qed.

Lemma node_add_new ac : nodes (addNode ac).1 !!! length (nodes ac) = inhabitant.
Proof. cbn. rewrite lookup_total_app_r by lia. by rewrite Nat.sub_diag. Qed.

Lemma next_set_edge e m t nd k : (e < length (next nd))%nat →
  next (set_edge e m t nd) !!! k = if decide (k = e) then m else next nd !!! k.
Proof.
  intros H. cbn. destruct (decide (k = e)) as [->|].
  - by rewrite list_lookup_total_insert_eq.
  - by rewrite list_lookup_total_insert_ne.
Qed.

Lemma edge_set_edge e m t nd k : (e < length (edge nd))%nat →
  edge (set_edge e m t nd) !!! k = if decide (k = e) then t else edge nd !!! k.
Proof.
  intros H. cbn. destruct (decide (k = e)) as [->|].
  - by rewrite list_lookup_total_insert_eq.
  - by rewrite list_lookup_total_insert_ne.
Qed.

Lemma sized_set_edge e m t nd : sized nd → sized (set_edge e m t nd).
Proof. intros [? ?]. split; cbn; by rewrite length_insert. Qed.

Lemma sized_new : sized inhabitant.
Proof. by split. Qed.

(** The words after a node was added. *)
Lemma words_ok_snoc ws w c : words_ok ws → w ∈ ws → w ++ [c] ∉ ws → (c < acValidCharCount)%nat →
  words_ok (ws ++ [w ++ [c]]).
Proof.
  intros H Hw Hnew Hc. split.
  - apply lookup_app_l_Some, H.
  - apply list.NoDup_app. split; [apply H|]. split; [|apply NoDup_singleton].
    by intros x Hx ->%list_elem_of_singleton.
  - intros x d [Hx|Hx%list_elem_of_singleton]%elem_of_app; apply elem_of_app; left.
    + by eapply wo_prefix.
    + by apply app_inj_tail in Hx as [-> _].
  - intros x d [Hx|Hx%list_elem_of_singleton]%elem_of_app.
    + by eapply wo_chars.
    + by apply app_inj_tail in Hx as [_ ->].
Qed.

Lemma new_lookup c : (c < acValidCharCount)%nat →
  next inhabitant !!! c = 0%nat ∧ edge inhabitant !!! c = false.
Proof. intros H. cbn [next edge inhabitant acNode_inhabited]. by rewrite !lookup_total_replicate_2. Qed.

Lemma lookup_snoc_case {A} (l : list A) y k x : (l ++ [y]) !! k = Some x →
  l !! k = Some x ∧ (k < length l)%nat ∨ k = length l ∧ x = y.
Proof.
  intros [Hx|[Hk Hx]]%lookup_app_Some; [left|right].
  - split; [done|]. by eapply lookup_lt_Some.
  - apply list_lookup_singleton_Some in Hx as [? <-]. split; [lia|done].
Qed.

Lemma values_ok_grow R ws ac ac' w :
  values_ok R ws ac → w ∉ ws → values ac' = values ac →
  (∀ k, (k < length ws)%nat → match_ (nodes ac' !!! k) = match_ (nodes ac !!! k)) →
  match_ (nodes ac' !!! length ws) = 0%nat → values_ok R (ws ++ [w]) ac'.
Proof.
  intros H Hw Hv Hold Hnew.
  assert (HR : ∀ t v, (w, t, v) ∉ R) by (intros t v Hin; by apply (vo_words _ _ _ H) in Hin).
  pose proof (vo_sentinel _ _ _ H) as Hs. rewrite <- Hv in Hs.
  split; [|done|..]; rewrite ?Hv.
  - intros x t v Hin. apply elem_of_app. left. by eapply vo_words.
  - intros n x [[Hn Hk]|[-> ->]]%lookup_snoc_case.
    + rewrite Hold by done. by eapply vo_bound.
    + rewrite Hnew, <- Hv. by eapply lookup_lt_Some.
  - intros n n' x x' [[Hn Hk]|[-> ->]]%lookup_snoc_case [[Hn' Hk']|[-> ->]]%lookup_snoc_case;
      rewrite ?Hnew, ?Hold by done; try congruence.
    by eapply vo_distinct.
  - intros n x [[Hn Hk]|[-> ->]]%lookup_snoc_case; rewrite ?Hold by done; [by eapply vo_none|done].
  - intros n x [[Hn Hk]|[-> ->]]%lookup_snoc_case; rewrite ?Hold by done; [by eapply vo_some|done].
  - intros n x t v [[Hn Hk]|[-> ->]]%lookup_snoc_case Ht; rewrite ?Hold by done.
    + by eapply vo_values.
    + rewrite Hnew, (list_lookup_total_correct _ _ _ (vo_sentinel _ _ _ H)).
      split; [|by intros ?%HR]. destruct t; cbn; by intros ?%elem_of_nil.
Qed.

(** Adding the node of [w ++ [c]] below the node of [w]. *)
Lemma add_node_trie R ws ac n w c :
  trie R ws ac → ws !! n = Some w → (c < acValidCharCount)%nat → w ++ [c] ∉ ws →
  trie R (ws ++ [w ++ [c]]) (set_node (addNode ac).1 n (set_edge c (length (nodes ac)) true)).
Proof.
  intros H Hn Hc Hnew. set (ac' := set_node _ _ _). set (ws' := ws ++ [w ++ [c]]).
  pose proof (tr_words _ _ _ H) as Hwo. pose proof (tr_length _ _ _ H) as Hlen.
  pose proof (lookup_lt_Some _ _ _ Hn) as Hlt.
  assert (Hw : w ∈ ws) by (by eapply list_elem_of_lookup_2).
  assert (Hwo' : words_ok ws') by (by apply words_ok_snoc).
  assert (Hold : ∀ k, (k < length ws)%nat → nodes ac' !!! k =
            if decide (k = n) then set_edge c (length (nodes ac)) true (nodes ac !!! n) else nodes ac !!! k).
  { intros k Hk. unfold ac'. rewrite node_set by (cbn; rewrite length_app; lia).
    rewrite !node_add by lia. done. }
  assert (Hnode : nodes ac' !!! length ws = inhabitant).
  { unfold ac'. rewrite node_set by (cbn; rewrite length_app; lia).
    rewrite decide_False by lia. by rewrite <- Hlen, node_add_new. }
  split; [done| | | | | |].
  - unfold ac', ws'. cbn. rewrite length_insert, !length_app, Hlen. done.
  - intros k x [[Hk Hl]|[-> ->]]%lookup_snoc_case; [|by rewrite Hnode].
    rewrite Hold by done. case_decide as E; [apply sized_set_edge; subst k|]; by eapply tr_sized.
  - intros k x [[Hk Hl]|[-> ->]]%lookup_snoc_case; [|by rewrite Hnode].
    rewrite Hold by done. case_decide as E; [subst k|]; by eapply tr_fail.
  - intros k x d Hx Hd. pose proof Hx as [[Hk Hl]|[-> ->]]%lookup_snoc_case.
    + rewrite Hold, (idx_snoc _ _ _ Hnew) by done. case_decide as E.
      * subst k. assert (x = w) as -> by congruence.
        rewrite next_set_edge by (destruct (tr_sized _ _ _ H _ _ Hn) as [-> _]; done).
        destruct (decide (d = c)) as [->|Hne]; [by rewrite decide_True by done|].
        rewrite decide_False by (intros [_ ?]%app_inj_tail; done). by eapply tr_next.
      * rewrite decide_False; [by eapply tr_next|].
        intros [-> ->]%app_inj_tail. apply E. eapply NoDup_lookup; [apply Hwo|done|done].
    + rewrite Hnode. rewrite (proj1 (new_lookup _ Hd)), idx_not_in; [done|].
      intros Hin. apply elem_of_app in Hin as [Hin|Hin%list_elem_of_singleton].
      * by apply Hnew, (wo_prefix _ Hwo _ d).
      * apply (f_equal length) in Hin. rewrite !length_app in Hin. cbn in Hin. lia.
  - intros k x d Hx Hd. pose proof Hx as [[Hk Hl]|[-> ->]]%lookup_snoc_case.
    + rewrite Hold by done. case_decide as E; [|by eapply tr_edge]. subst k.
      destruct (tr_sized _ _ _ H _ _ Hn) as [Hs1 Hs2].
      rewrite next_set_edge, edge_set_edge by (rewrite ?Hs1, ?Hs2; done).
      case_decide; [|by eapply tr_edge]. rewrite bool_decide_true; [done|lia].
    + rewrite Hnode. by destruct (new_lookup _ Hd) as [-> ->].
  - eapply values_ok_grow; [apply H|done|done| |by rewrite Hnode].
    intros k Hk. rewrite Hold by done. by case_decide as E; [subst k|].
Qed.

Lemma add_edges_trie R es : ∀ ws ac n w,
  trie R ws ac → ws !! n = Some w → Forall (λ c, (c < acValidCharCount)%nat) es →
  ∃ ws', trie R ws' (add_edges ac n es).1 ∧ ws' !! (add_edges ac n es).2 = Some (w ++ es).
Proof.
  induction es as [|c es IH]; intros ws ac n w H Hn Hes.
  { exists ws. cbn. by rewrite app_nil_r. }
  apply Forall_cons_1 in Hes as [Hc Hes]. pose proof (tr_words _ _ _ H) as Hwo.
  cbn [add_edges]. rewrite (tr_next _ _ _ H _ _ _ Hn Hc).
  rewrite (cons_middle c w es), app_assoc. case_decide as E.
  - apply idx_snoc_zero in E; [|done]. cbn [addNode]. eapply IH; [|..|done].
    + by eapply (add_node_trie R ws).
    + rewrite (tr_length _ _ _ H). apply list_lookup_middle. done.
  - apply idx_snoc_pos in E; [|done]. eapply IH; [done| |done]. by apply idx_lookup.
Qed.

Lemma values_append t t' v x : t' ≠ Regex →
  values_of t' (append_value t v x) = values_of t' x ++ (if decide (t = t') then [v] else []).
Proof. intros. destruct t, t'; cbn; rewrite ?app_nil_r; try done. Qed.

(** What [register] does: the node has an entry, and the entry one more value. *)
Lemma register_effect R ws ac n w t v : values_ok R ws ac → ws !! n = Some w →
  (n < length (nodes ac))%nat →
  ∃ m, m ≠ 0%nat ∧ (match_ (nodes ac !!! n) = 0%nat ∧ m = length (values ac) ∨ m = match_ (nodes ac !!! n)) ∧
    (m < length (values (register ac n t v)))%nat ∧
    (length (values ac) ≤ length (values (register ac n t v)))%nat ∧
    (∀ k, nodes (register ac n t v) !!! k = if decide (k = n) then set_match m (nodes ac !!! n) else nodes ac !!! k) ∧
    values (register ac n t v) !!! m = append_value t v (values ac !!! match_ (nodes ac !!! n)) ∧
    (∀ j, j ≠ m → (j < length (values ac))%nat → values (register ac n t v) !! j = values ac !! j).
Proof.
  intros H Hn Hlt. pose proof (vo_sentinel _ _ _ H) as Hs. pose proof (lookup_lt_Some _ _ _ Hs) as Hpos.
  unfold register. destruct (decide (match_ (nodes ac !!! n) = 0%nat)) as [E|E]; cbn zeta.
  - exists (length (values ac)). cbn [addMatchEntry].
    set (ac1 := mkAC (nodes ac) (values ac ++ [inhabitant])).
    rewrite (node_set ac1) by done. rewrite decide_True by done.
    cbn [nodes values set_match match_ set_node ac1]. rewrite length_insert, length_app. cbn [length].
    split; [lia|]. split; [by left|]. split; [lia|]. split; [lia|]. split; [|split].
    + intros k. apply (node_set ac1). done.
    + rewrite list_lookup_total_insert_eq by (rewrite length_app; cbn; lia).
      rewrite E, lookup_total_app_r, Nat.sub_diag by lia.
      by rewrite (list_lookup_total_correct _ _ _ Hs).
    + intros j Hj Hlen. rewrite list_lookup_insert_ne by done. by apply lookup_app_l.
  - exists (match_ (nodes ac !!! n)). cbn [nodes values]. rewrite length_insert.
    pose proof (vo_bound _ _ _ H _ _ Hn) as Hb.
    split; [done|]. split; [by right|]. split; [done|]. split; [lia|]. split; [|split].
    + intros k. destruct (decide (k = n)) as [->|]; [|done]. by destruct (nodes ac !!! n).
    + by rewrite list_lookup_total_insert_eq.
    + intros j Hj Hlen. by rewrite list_lookup_insert_ne.
Qed.

Lemma register_values R ws ac n w t v : words_ok ws → values_ok R ws ac → ws !! n = Some w →
  (n < length (nodes ac))%nat → t ≠ Regex → values_ok (R ++ [(w, t, v)]) ws (register ac n t v).
Proof.
  intros Hwo H Hn Hlt Ht.
  destruct (register_effect R ws ac n w t v H Hn Hlt) as (m & Hm & Hcase & Hml & Hll & Hnodes & Hvm & Hvo).
  assert (Hother : ∀ k x, ws !! k = Some x → k ≠ n → match_ (nodes ac !!! k) ≠ m).
  { intros k x Hk Hne He. pose proof (vo_bound _ _ _ H _ _ Hk) as Hb.
    destruct Hcase as [[_ ->]| ->]; [lia|]. apply Hne. symmetry.
    eapply (vo_distinct _ _ _ H); [done..|congruence]. }
  assert (Hword : ∀ k x, ws !! k = Some x → k ≠ n → x ≠ w).
  { intros k x Hk Hne ->. apply Hne. eapply NoDup_lookup; [apply Hwo|done|done]. }
  split.
  - intros x t' v' [Hin|[= -> -> ->]%list_elem_of_singleton]%elem_of_app; [by eapply vo_words|].
    by eapply list_elem_of_lookup_2.
  - rewrite Hvo; [apply H|done|]. eapply lookup_lt_Some, H.
  - intros k x Hk. rewrite Hnodes. case_decide; [done|].
    pose proof (vo_bound _ _ _ H _ _ Hk). lia.
  - intros k k' x x' Hk Hk'. rewrite !Hnodes. repeat case_decide; subst; cbn [match_ set_match]; try done.
    + intros He. by destruct (Hother _ _ Hk' ltac:(done)).
    + intros He. by destruct (Hother _ _ Hk ltac:(done)).
    + by eapply vo_distinct.
  - intros k x Hk. rewrite Hnodes. case_decide; [done|]. intros E t' v'.
    rewrite not_elem_of_app. split; [by eapply vo_none|].
    intros [= -> -> ->]%list_elem_of_singleton. by eapply Hword.
  - intros k x Hk. rewrite Hnodes. case_decide as E.
    + subst k. intros _. exists t, v. assert (x = w) as -> by congruence.
      split; [|done]. apply elem_of_app. right. by apply list_elem_of_singleton.
    + intros E'. destruct (vo_some _ _ _ H _ _ Hk E') as (t' & v' & ? & ?).
      exists t', v'. split; [|done]. apply elem_of_app. by left.
  - intros k x t' v' Hk Ht'. rewrite Hnodes, elem_of_app, list_elem_of_singleton. case_decide as E.
    + subst k. assert (x = w) as -> by congruence. cbn [match_ set_match].
      rewrite Hvm, values_append, elem_of_app, (vo_values _ _ _ H _ _ _ _ Hk Ht') by done.
      destruct (decide (t = t')) as [->|]; rewrite ?list_elem_of_singleton, ?elem_of_nil; naive_solver.
    + rewrite <- (vo_values _ _ _ H _ _ _ _ Hk Ht').
      rewrite !(list_lookup_total_alt (values _)), Hvo; [|by eapply Hother|by eapply vo_bound].
      pose proof (Hword _ _ Hk E). naive_solver.
Qed.

Lemma register_trie R ws ac n w t v : trie R ws ac → ws !! n = Some w → t ≠ Regex →
  trie (R ++ [(w, t, v)]) ws (register ac n t v).
Proof.
  intros H Hn Ht. pose proof (lookup_lt_Some _ _ _ Hn) as Hlt. rewrite <- (tr_length _ _ _ H) in Hlt.
  destruct (register_effect R ws ac n w t v (tr_values _ _ _ H) Hn Hlt) as (m & _ & _ & _ & _ & Hnodes & _).
  split; [apply H| | | | | |apply register_values; [apply H|apply H|done..]].
  - rewrite <- (tr_length _ _ _ H). unfold register.
    case_decide; cbn; by rewrite ?length_insert.
  - intros k x Hk. rewrite Hnodes. case_decide as E; [subst k|]; by eapply (tr_sized _ _ _ H).
  - intros k x Hk. rewrite Hnodes. case_decide as E; [subst k|]; by eapply (tr_fail _ _ _ H).
  - intros k x c Hk Hc. rewrite Hnodes. case_decide as E; [subst k|]; by eapply (tr_next _ _ _ H).
  - intros k x c Hk Hc. rewrite Hnodes. case_decide as E; [subst k|]; by eapply (tr_edge _ _ _ H).
Qed.

Lemma acCharset_bound c : (acCharset c < acValidCharCount)%nat.
Proof. by destruct c; vm_compute; lia. Qed.

Lemma edges_bound p : Forall (λ c, (c < acValidCharCount)%nat) (edges p).
Proof. unfold edges. apply Forall_fmap, list.Forall_forall. intros. apply acCharset_bound. Qed.

Lemma addPattern_trie R ws ac n w p t v : trie R ws ac → ws !! n = Some w → t ≠ Regex →
  ∃ ws', trie (R ++ [(w ++ edges p, t, v)]) ws' (addPattern ac n p t v).1 ∧
    ws' !! (addPattern ac n p t v).2 = Some (w ++ edges p).
Proof.
  intros H Hn Ht. destruct (add_edges_trie R (edges p) ws ac n w H Hn (edges_bound p)) as (ws' & H' & Hn').
  exists ws'. unfold addPattern. destruct (add_edges ac n (edges p)) as [ac' n']. cbn in *.
  split; [by apply register_trie|done].
Qed.

Definition dot_code : nat := acCharset dot.

(** What adding a matcher registers. *)
Definition registered (m : Matcher) (v : Z) : list registration :=
  match m with
  | FullMatcher p => [(edges p, Full, v)]
  | DomainMatcher p => [(edges p, Domain, v); (edges p ++ [dot_code], Domain, v)]
  | SubstrMatcher p => [(edges p, Substr, v)]
  | RegexMatcher _ => []
  end.

Definition registrations (L : list (Matcher * Z)) : list registration :=
  flat_map (λ x, registered x.1 x.2) L.

Lemma AddMatcher_trie R ws ac m v : trie R ws ac →
  ∃ ws', trie (R ++ registered m v) ws' (AddMatcher ac m v).
Proof.
  intros H. pose proof (wo_root _ (tr_words _ _ _ H)) as H0.
  destruct m as [p|p|p|p]; cbn [AddMatcher registered].
  - destruct (addPattern_trie R ws ac 0 [] p Full v H H0) as (ws' & H' & _); [done|].
    by exists ws'.
  - destruct (addPattern_trie R ws ac 0 [] p Domain v H H0) as (ws' & H' & Hn); [done|].
    unfold AddDomainMatcher. destruct (addPattern ac 0 p Domain v) as [ac' n]. cbn in H', Hn.
    destruct (addPattern_trie _ _ ac' n _ [dot] Domain v H' Hn) as (ws2 & H2 & _); [done|].
    exists ws2. by rewrite <- app_assoc in H2.
  - destruct (addPattern_trie R ws ac 0 [] p Substr v H H0) as (ws' & H' & _); [done|].
    by exists ws'.
  - exists ws. by rewrite app_nil_r.
Qed.

Lemma New_trie : trie [] [[]] NewACAutomaton.
Proof.
  assert (H0 : ∀ n (w : word), [[]] !! n = Some w → n = 0%nat ∧ w = [])
    by (by intros n w [-> <-]%list_lookup_singleton_Some).
  assert (Hs : ∀ (w : word) c, w ++ [c] ∉ [[]]).
  { intros w c H%list_elem_of_singleton. by apply snoc_not_nil in H. }
  split; try done.
  - split; [done|apply NoDup_singleton|by intros w c ?%Hs..].
  - by intros n w [-> ->]%H0.
  - by intros n w [-> ->]%H0.
  - intros n w c [-> ->]%H0 Hc. rewrite idx_not_in by apply Hs. by apply new_lookup.
  - intros n w c [-> ->]%H0 Hc. change (nodes NewACAutomaton !!! 0%nat) with (inhabitant : acNode).
    by destruct (new_lookup _ Hc) as [-> ->].
  - split; try done.
    + by intros w t v ?%elem_of_nil.
    + intros n w [-> ->]%H0. cbn. lia.
    + by intros n n' w w' [-> ->]%H0 [-> ->]%H0.
    + intros n w _ _ t v. apply not_elem_of_nil.
    + by intros n w [-> ->]%H0.
    + intros n w t v [-> ->]%H0 Ht. rewrite elem_of_nil. by destruct t; cbn; rewrite elem_of_nil.
Qed.

Lemma ac_added_trie L : ∃ ws, trie (registrations L) ws (ac_added L).
Proof.
  induction L as [|[m v] L IH] using rev_ind; [exists [[]]; apply New_trie|].
  destruct IH as [ws H]. unfold ac_added, registrations in *.
  rewrite foldl_app, flat_map_app. cbn. rewrite app_nil_r. by eapply AddMatcher_trie.
Qed.

(** ** The automaton that [Build] makes *)

Section build.
Context (R : list registration) (ws : list word) (ac0 : ACAutomaton).
Hypothesis Htrie : trie R ws ac0.

Let Hwo : words_ok ws := tr_words _ _ _ Htrie.
Let Hnil : [] ∈ ws := words_nil _ Hwo.

Abbreviation longest := (lsuf (λ w, w ∈ ws)).
Abbreviation fail_word := (lpsuf (λ w, w ∈ ws)).

(** A word on which a substring pattern ends. *)
Definition marked (w : word) : Prop := Exists (λ r : registration, r.1 = (w, Substr)) R.

#[local] Instance marked_dec w : Decision (marked w).
Proof. unfold marked. apply _. Defined.

Lemma marked_iff w : marked w ↔ ∃ v, (w, Substr, v) ∈ R.
Proof.
  unfold marked. rewrite Exists_exists. split.
  - intros ([[w' t] v] & Hin & [= -> ->]). exists v. by apply list_elem_of_In.
  - intros [v Hin]. exists (w, Substr, v). split; [|done]. by apply list_elem_of_In.
Qed.

Lemma marked_in w : marked w → w ∈ ws.
Proof. intros [v Hv]%marked_iff. by eapply vo_words, Hv; apply Htrie. Qed.

Abbreviation next_marked := (lpsuf marked).

(** The nodes in the middle of the traversal: [done w c] for the edges already completed,
    [seen w] for the nodes whose fail links are set. *)
Record partial (done : word → nat → Prop) (seen : word → Prop) (ac : ACAutomaton) (bf : list nat) : Prop := {
  pa_length : length (nodes ac) = length ws;
  pa_fails : length bf = length ws;
  pa_values : values ac = values ac0;
  pa_match n : match_ (nodes ac !!! n) = match_ (nodes ac0 !!! n);
  pa_sized n w : ws !! n = Some w → sized (nodes ac !!! n);
  pa_edge n w c : ws !! n = Some w → (c < acValidCharCount)%nat →
    edge (nodes ac !!! n) !!! c = bool_decide (w ++ [c] ∈ ws);
  pa_done n w c : ws !! n = Some w → (c < acValidCharCount)%nat → done w c →
    next (nodes ac !!! n) !!! c = idx ws (longest (w ++ [c]));
  pa_todo n w c : ws !! n = Some w → (c < acValidCharCount)%nat → ¬ done w c →
    next (nodes ac !!! n) !!! c = idx ws (w ++ [c]);
  pa_fail n w : ws !! n = Some w → seen w → fail (nodes ac !!! n) = idx ws (next_marked w);
  pa_link n w : ws !! n = Some w → seen w → bf !!! n = idx ws (fail_word w)
}.

Lemma has_substr_marked done seen ac bf n w :
  partial done seen ac bf → ws !! n = Some w → has_substr ac n = bool_decide (marked w).
Proof.
  intros H Hn. unfold has_substr. rewrite (pa_match _ _ _ _ H), (pa_values _ _ _ _ H).
  pose proof (tr_values _ _ _ Htrie) as Hv.
  apply eq_bool_prop_intro. rewrite andb_True, !bool_decide_spec, marked_iff. split.
  - intros [Hm Hs]. destruct (v_substr _) as [|v vs] eqn:E; [done|]. exists v.
    apply (vo_values _ _ _ Hv n w Substr v Hn); [done|]. cbn. rewrite E. left.
  - intros [v HvR]. split.
    + intros Hm. by apply (vo_none _ _ _ Hv n w Hn Hm Substr v).
    + apply (vo_values _ _ _ Hv n w Substr v Hn) in HvR; [|done]. cbn in HvR.
      destruct (v_substr _); [by apply elem_of_nil in HvR|done].
Qed.

Lemma partial_impl (done done' : word → nat → Prop) (seen seen' : word → Prop) ac bf :
  (∀ w c, w ∈ ws → done w c → done' w c) →
  (∀ w c, w ∈ ws → (c < acValidCharCount)%nat → done' w c → done w c ∨ w ++ [c] ∈ ws) →
  (∀ w, w ∈ ws → seen' w → seen w) →
  partial done seen ac bf → partial done' seen' ac bf.
Proof.
  intros Hd Hd' Hs H.
  assert (Hin : ∀ n w, ws !! n = Some w → w ∈ ws) by (intros; by eapply list_elem_of_lookup_2).
  split; try apply H.
  - intros n w c Hn Hc Hdone. destruct (Hd' w c) as [?|Htr]; [eauto..|by eapply (pa_done _ _ _ _ H)|].
    apply dec_stable. intros Hne.
    assert (Hnd : ¬ done w c) by (intros Hdo; by eapply Hne, (pa_done _ _ _ _ H)).
    apply Hne. by rewrite (pa_todo _ _ _ _ H _ _ _ Hn Hc Hnd), lsuf_id.
  - intros n w c Hn Hc Hdone. eapply (pa_todo _ _ _ _ H); eauto.
  - intros n w Hn Hseen. eapply (pa_fail _ _ _ _ H); eauto.
  - intros n w Hn Hseen. eapply (pa_link _ _ _ _ H); eauto.
Qed.

(** A write that changes only the fail link of [m]. *)
Lemma partial_set_fail done seen ac bf m w cf fl :
  partial done seen ac bf → ws !! m = Some w →
  cf = idx ws (next_marked w) → fl = idx ws (fail_word w) →
  partial done (λ x, seen x ∨ x = w) (set_node ac m (set_fail cf)) (<[m := fl]> bf).
Proof.
  intros H Hm Hcf Hfl. pose proof (lookup_lt_Some _ _ _ Hm) as Hlt.
  assert (Hw : ∀ k x, ws !! k = Some x → x = w → k = m).
  { intros k x Hk ->. eapply NoDup_lookup; [apply Hwo|done|done]. }
  assert (Hnode := λ k, node_set ac m (set_fail cf) k ltac:(rewrite (pa_length _ _ _ _ H); done)).
  split.
  - cbn. by rewrite length_insert, (pa_length _ _ _ _ H).
  - by rewrite length_insert, (pa_fails _ _ _ _ H).
  - apply (pa_values _ _ _ _ H).
  - intros k. rewrite Hnode. case_decide; [subst k|]; apply (pa_match _ _ _ _ H).
  - intros k x Hk. rewrite Hnode. case_decide; [subst k|]; by eapply (pa_sized _ _ _ _ H).
  - intros k x c Hk Hc. rewrite Hnode. case_decide; [subst k|]; by eapply (pa_edge _ _ _ _ H).
  - intros k x c Hk Hc Hd. rewrite Hnode. case_decide; [subst k|]; by eapply (pa_done _ _ _ _ H).
  - intros k x c Hk Hc Hd. rewrite Hnode. case_decide; [subst k|]; by eapply (pa_todo _ _ _ _ H).
  - intros k x Hk Hs. rewrite Hnode. case_decide as E.
    + subst k. assert (x = w) as -> by congruence. done.
    + destruct Hs as [Hs| ->]; [by eapply (pa_fail _ _ _ _ H)|]. by destruct E; eapply Hw.
  - intros k x Hk Hs. destruct (decide (k = m)) as [->|E].
    + assert (x = w) as -> by congruence.
      by rewrite list_lookup_total_insert_eq by (by rewrite (pa_fails _ _ _ _ H)).
    + rewrite list_lookup_total_insert_ne by done.
      destruct Hs as [Hs| ->]; [by eapply (pa_link _ _ _ _ H)|]. by destruct E; eapply Hw.
Qed.

(** A write that completes the edge [c] of [n], which is not in the trie. *)
Lemma partial_set_edge done seen ac bf n u c to :
  partial done seen ac bf → ws !! n = Some u → (c < acValidCharCount)%nat →
  u ++ [c] ∉ ws → to = idx ws (longest (u ++ [c])) →
  partial (λ w d, done w d ∨ w = u ∧ d = c) seen (set_node ac n (set_edge c to false)) bf.
Proof.
  intros H Hn Hc Hout Hto. pose proof (lookup_lt_Some _ _ _ Hn) as Hlt.
  assert (Hw : ∀ k x, ws !! k = Some x → x = u → k = n).
  { intros k x Hk ->. eapply NoDup_lookup; [apply Hwo|done|done]. }
  assert (Hnode := λ k, node_set ac n (set_edge c to false) k ltac:(rewrite (pa_length _ _ _ _ H); done)).
  destruct (pa_sized _ _ _ _ H _ _ Hn) as [Hs1 Hs2].
  split.
  - cbn. by rewrite length_insert, (pa_length _ _ _ _ H).
  - apply (pa_fails _ _ _ _ H).
  - apply (pa_values _ _ _ _ H).
  - intros k. rewrite Hnode. case_decide; [subst k|]; apply (pa_match _ _ _ _ H).
  - intros k x Hk. rewrite Hnode. case_decide; [subst k; apply sized_set_edge|]; by eapply (pa_sized _ _ _ _ H).
  - intros k x d Hk Hd. rewrite Hnode. case_decide; [subst k|by eapply (pa_edge _ _ _ _ H)].
    assert (x = u) as -> by congruence. rewrite edge_set_edge by (by rewrite Hs2).
    case_decide; [subst d; by rewrite bool_decide_false|by eapply (pa_edge _ _ _ _ H)].
  - intros k x d Hk Hd Hdone. rewrite Hnode. case_decide as E.
    + subst k. assert (x = u) as -> by congruence. rewrite next_set_edge by (by rewrite Hs1).
      case_decide; [by subst d|]. destruct Hdone as [?|[_ ?]]; [by eapply (pa_done _ _ _ _ H)|done].
    + destruct Hdone as [?|[-> _]]; [by eapply (pa_done _ _ _ _ H)|]. by destruct E; eapply Hw.
  - intros k x d Hk Hd Hdone. rewrite Hnode. case_decide as E.
    + subst k. assert (x = u) as -> by congruence. rewrite next_set_edge by (by rewrite Hs1).
      case_decide; [subst d; destruct Hdone; by right|]. eapply (pa_todo _ _ _ _ H); [done..|tauto].
    + eapply (pa_todo _ _ _ _ H); [done..|tauto].
  - intros k x Hk Hs. rewrite Hnode. case_decide; [subst k|]; by eapply (pa_fail _ _ _ _ H).
  - apply (pa_link _ _ _ _ H).
Qed.

Section node.
Context (u : word) (n : nat).
Hypothesis Hn : ws !! n = Some u.
Hypothesis Hu : u ≠ [].

Lemma build_edge_partial done seen ac bf q c :
  partial done seen ac bf → (c < acValidCharCount)%nat → ¬ done u c →
  (∀ d, done (fail_word u) d) → (∀ w, w ∈ ws → (length w ≤ length u)%nat → seen w) →
  let st := build_edge n (idx ws (fail_word u)) (mkBuild ac bf q) c in
  partial (λ w d, done w d ∨ w = u ∧ d = c) (λ w, seen w ∨ w = u ++ [c]) (b_ac st) (b_fail st) ∧
  b_queue st = q ++ (if decide (u ++ [c] ∈ ws) then [idx ws (u ++ [c])] else []).
Proof.
  intros H Hc Hnd Hf Hseen. unfold build_edge. cbn [b_ac b_fail b_queue].
  set (g := fail_word (u ++ [c])).
  assert (Hg : g ∈ ws) by (by apply fail_word_in).
  assert (Hgl : (length g ≤ length u)%nat).
  { pose proof (lpsuf_length (λ w, w ∈ ws) (u ++ [c]) (snoc_not_nil _ _)) as Hl.
    rewrite length_app in Hl. cbn in Hl. unfold g. lia. }
  assert (Hnext : next (nodes ac !!! idx ws (fail_word u)) !!! c = idx ws g).
  { erewrite (pa_done _ _ _ _ H); [|apply idx_lookup; by apply fail_word_in|done|done].
    unfold g. f_equal. symmetry. apply fail_word_snoc; [done|apply Hwo|done]. }
  rewrite Hnext, (pa_todo _ _ _ _ H _ _ _ Hn Hc Hnd).
  destruct (decide (u ++ [c] ∈ ws)) as [Hin|Hout].
  - assert (Hm : ws !! idx ws (u ++ [c]) = Some (u ++ [c])) by (by apply idx_lookup).
    rewrite decide_True by (intros E; by eapply idx_snoc_zero in E). cbn [b_ac b_fail b_queue].
    split; [|done]. eapply (partial_impl done _ (λ w, seen w ∨ w = u ++ [c])); [by left| |done|].
    { intros w d Hw _ [?|[-> ->]]; [by left|by right]. }
    eapply partial_set_fail; [done|done| |done].
    rewrite (has_substr_marked _ _ _ _ _ g H) by (by apply idx_lookup).
    rewrite (marked_fail ws _ marked_in) by apply snoc_not_nil. fold g.
    destruct (decide (marked g)); [by rewrite bool_decide_true|].
    rewrite bool_decide_false by done. eapply (pa_fail _ _ _ _ H); [by apply idx_lookup|auto].
  - rewrite idx_not_in by done. rewrite decide_False by auto. cbn [b_ac b_fail b_queue].
    rewrite app_nil_r. split; [|done].
    eapply (partial_impl (λ w d, done w d ∨ w = u ∧ d = c) _ seen); [done|by left| |].
    { intros w Hw [?| ->]; done. }
    eapply partial_set_edge; [done..|]. f_equal. unfold g. destruct u as [|a u']; [done|].
    cbn [app lpsuf]. symmetry. by apply lsuf_skip.
Qed.

Definition children (k : nat) : list word := filter (λ w, w ∈ ws) ((λ c, u ++ [c]) <$> seq 0 k).

Lemma children_S k : children (S k) = children k ++ (if decide (u ++ [k] ∈ ws) then [u ++ [k]] else []).
Proof.
  unfold children. rewrite seq_S, fmap_app, list.filter_app. cbn [fmap list_fmap plus].
  by destruct (decide (u ++ [k] ∈ ws)); [rewrite filter_cons_True|rewrite filter_cons_False].
Qed.

Lemma elem_of_children k w : w ∈ children k ↔ ∃ c, w = u ++ [c] ∧ (c < k)%nat ∧ w ∈ ws.
Proof.
  unfold children. rewrite list_elem_of_filter, list_elem_of_fmap. split.
  - intros [Hw (c & -> & Hc%elem_of_seq)]. exists c. split_and!; [done|lia|done].
  - intros (c & -> & Hc & Hw). split; [done|]. exists c. split; [done|]. apply elem_of_seq. lia.
Qed.

Lemma children_nodup k : NoDup (children k).
Proof.
  apply list.NoDup_filter, NoDup_fmap_2_strong; [|apply NoDup_seq].
  by intros x y _ _ [_ ?]%app_inj_tail.
Qed.

(** All the edges of a node. *)
Lemma build_node_partial done seen ac bf q k :
  partial done seen ac bf → (∀ c, ¬ done u c) → (∀ d, done (fail_word u) d) →
  (∀ w, w ∈ ws → (length w ≤ length u)%nat → seen w) → (k ≤ acValidCharCount)%nat →
  let st := foldl (build_edge n (idx ws (fail_word u))) (mkBuild ac bf q) (seq 0 k) in
  partial (λ w d, done w d ∨ w = u ∧ (d < k)%nat) (λ w, seen w ∨ w ∈ children k) (b_ac st) (b_fail st) ∧
  b_queue st = q ++ (idx ws <$> children k).
Proof.
  intros H Hnd Hf Hseen. induction k as [|k IH]; intros Hk.
  - split; [|by rewrite app_nil_r]. eapply partial_impl, H; [by left|intros w d _ _ [?|[_ ?]]; [by left|lia]|].
    intros w _ [?|?%elem_of_nil]; done.
  - rewrite seq_S, foldl_app. cbn [foldl plus].
    destruct IH as [IH Hq]; [lia|]. set (st := foldl _ _ _) in *. destruct st as [ac1 bf1 q1].
    cbn [b_ac b_fail b_queue] in *. subst q1.
    destruct (build_edge_partial _ _ _ _ (q ++ (idx ws <$> children k)) k IH) as [H' Hq'].
    + lia.
    + intros [?|[_ ?]]; [by eapply Hnd|lia].
    + by left.
    + intros w Hw Hl. left. auto.
    + split.
      * eapply partial_impl, H'; cbv beta.
        -- intros w d _ [[?|[-> ?]]|[-> ->]]; [by left|right; split; [done|lia]..].
        -- intros w d _ _ [?|[-> ?]]; left; [by left; left|].
           destruct (decide (d = k)) as [->|]; [by right|]. left. right. split; [done|lia].
        -- intros w Hw [?|Hc]; [by left; left|]. rewrite children_S, elem_of_app in Hc.
           destruct Hc as [?|Hc]; [by left; right|]. right.
           case_decide; [by apply list_elem_of_singleton in Hc|by apply elem_of_nil in Hc].
      * rewrite Hq', children_S, fmap_app, app_assoc. f_equal. by case_decide.
Qed.

End node.

(** ** The traversal by levels *)

Record bfs (k : nat) (D Q1 Q2 : list word) (st : BuildState) : Prop := {
  bf_queue : b_queue st = idx ws <$> (Q1 ++ Q2);
  bf_nodes : partial (λ w _, w = [] ∨ w ∈ D) (λ w, w = [] ∨ w ∈ D ++ Q1 ++ Q2) (b_ac st) (b_fail st);
  bf_nodup : NoDup (D ++ Q1 ++ Q2);
  bf_words : Forall (λ w, w ∈ ws ∧ w ≠ []) (D ++ Q1 ++ Q2);
  bf_done : Forall (λ w : word, length w ≤ k)%nat D;
  bf_level : Forall (λ w : word, length w = k) Q1;
  bf_below : Forall (λ w : word, length w = S k) Q2;
  bf_above w : w ∈ ws → (length w < k)%nat → w = [] ∨ w ∈ D;
  bf_row w : w ∈ ws → length w = k → w ∈ D ∨ w ∈ Q1;
  bf_children w c : w ++ [c] ∈ ws → length w = k → w ∈ D → w ++ [c] ∈ Q2;
  bf_parents w c : w ++ [c] ∈ Q2 → w ∈ D
}.

Lemma bfs_shift k D Q2 st : bfs k D [] Q2 st → bfs (S k) D Q2 [] st.
Proof.
  intros H. assert (Hrow : ∀ w, w ∈ ws → length w = k → w ∈ D).
  { intros w Hw Hl. by destruct (bf_row _ _ _ _ _ H w Hw Hl) as [?|?%elem_of_nil]. }
  split; try (rewrite ?app_nil_r; apply H).
  - eapply list.Forall_impl; [apply H|]. intros w Hw. cbn in *. lia.
  - by constructor.
  - intros w Hw Hl. destruct (decide (length w = k)); [by right; auto|].
    eapply (bf_above _ _ _ _ _ H); [done|lia].
  - intros w Hw Hl. right. destruct w as [|c w] using rev_ind; [done|].
    rewrite length_app in Hl. cbn in Hl. assert (length w = k) by lia.
    eapply (bf_children _ _ _ _ _ H); [done..|]. apply Hrow; [|done]. by eapply wo_prefix.
  - intros w c Hw Hl HD. exfalso.
    pose proof (proj1 (list.Forall_forall _ _) (bf_done _ _ _ _ _ H) w HD). cbn in *. lia.
  - by intros w c ?%elem_of_nil.
Qed.

Lemma bfs_disjoint k D u Q1 Q2 st w : bfs k D (u :: Q1) Q2 st →
  w ∈ children u acValidCharCount → w ∉ D ++ (u :: Q1) ++ Q2.
Proof.
  intros H Hw%elem_of_children. destruct Hw as (c & -> & _ & _).
  assert (Hlu : length u = k) by (by apply (Forall_inv (bf_level _ _ _ _ _ H))).
  assert (Hl : length (u ++ [c]) = S k) by (rewrite length_app; cbn; lia).
  intros [HD|[HQ|HQ]%elem_of_app]%elem_of_app.
  - pose proof (proj1 (list.Forall_forall _ _) (bf_done _ _ _ _ _ H) _ HD). cbn in *. lia.
  - pose proof (proj1 (list.Forall_forall _ _) (bf_level _ _ _ _ _ H) _ HQ). cbn in *. lia.
  - apply (bf_parents _ _ _ _ _ H) in HQ.
    pose proof (bf_nodup _ _ _ _ _ H) as Hnd. apply list.NoDup_app in Hnd as (_ & Hd & _).
    apply (Hd u HQ). by left.
Qed.

Lemma bfs_step_nodes k D u Q1 Q2 st : bfs k D (u :: Q1) Q2 st →
  let st' := foldl (build_edge (idx ws u) (b_fail st !!! idx ws u))
               (mkBuild (b_ac st) (b_fail st) (idx ws <$> (Q1 ++ Q2))) (seq 0 acValidCharCount) in
  b_queue st' = idx ws <$> (Q1 ++ Q2 ++ children u acValidCharCount) ∧
  partial (λ w _, w = [] ∨ w ∈ D ++ [u])
    (λ w, w = [] ∨ w ∈ (D ++ [u]) ++ Q1 ++ Q2 ++ children u acValidCharCount) (b_ac st') (b_fail st').
Proof.
  intros H. assert (Hlu : length u = k) by (by apply (Forall_inv (bf_level _ _ _ _ _ H))).
  assert (Huin : u ∈ D ++ (u :: Q1) ++ Q2) by (apply elem_of_app; right; left).
  destruct (proj1 (list.Forall_forall _ _) (bf_words _ _ _ _ _ H) u Huin) as [Hu Hne].
  assert (HuD : u ∉ D).
  { pose proof (bf_nodup _ _ _ _ _ H) as Hnd. apply list.NoDup_app in Hnd as (_ & Hd & _).
    intros HD. apply (Hd u HD). by left. }
  pose proof (bf_nodes _ _ _ _ _ H) as Hp. apply idx_lookup in Hu as Hn.
  rewrite (pa_link _ _ _ _ Hp _ _ Hn) by (by right).
  destruct (build_node_partial u (idx ws u) Hn Hne _ _ _ _ (idx ws <$> (Q1 ++ Q2)) acValidCharCount Hp)
    as [Hp' Hq].
  - intros _ [?|?]; done.
  - intros _. eapply (bf_above _ _ _ _ _ H); [by apply fail_word_in|].
    rewrite <- Hlu. by apply lpsuf_length.
  - intros w Hw Hl. destruct (decide (length w = k)) as [E|].
    + right. destruct (bf_row _ _ _ _ _ H w Hw E); rewrite !elem_of_app; tauto.
    + destruct (bf_above _ _ _ _ _ H w Hw) as [?|?]; [lia|by left|]. right. apply elem_of_app. by left.
  - done.
  - split; [by rewrite Hq, <- fmap_app, <- app_assoc|]. eapply partial_impl, Hp'; cbv beta.
    + intros w d _ [[?|?]|[-> _]]; [by left|right; apply elem_of_app; by left|].
      right. apply elem_of_app. right. by apply list_elem_of_singleton.
    + intros w d _ Hd [?|[?|?%list_elem_of_singleton]%elem_of_app]; left; [by left; left|by left; right|].
      by right.
    + intros w _. rewrite !elem_of_app, !elem_of_cons, elem_of_nil. tauto.
Qed.

Lemma bfs_step k D u Q1 Q2 st : bfs k D (u :: Q1) Q2 st →
  bfs k (D ++ [u]) Q1 (Q2 ++ children u acValidCharCount)
    (foldl (build_edge (idx ws u) (b_fail st !!! idx ws u)) (mkBuild (b_ac st) (b_fail st) (idx ws <$> (Q1 ++ Q2)))
       (seq 0 acValidCharCount)).
Proof.
  intros H. destruct (bfs_step_nodes _ _ _ _ _ _ H) as [Hq Hp].
  assert (Hlu : length u = k) by (by apply (Forall_inv (bf_level _ _ _ _ _ H))).
  assert (Hperm : (D ++ [u]) ++ Q1 ++ Q2 ++ children u acValidCharCount =
                  (D ++ (u :: Q1) ++ Q2) ++ children u acValidCharCount).
  { by rewrite <- !app_assoc. }
  split; [done|done| | | | | | | | |]; rewrite ?Hperm.
  - apply list.NoDup_app. split; [apply H|]. split; [|apply children_nodup].
    intros w Hw Hc. by eapply bfs_disjoint.
  - apply Forall_app. split; [apply H|]. apply list.Forall_forall.
    intros w Hw%elem_of_children. destruct Hw as (c & -> & _ & Hin). split; [done|apply snoc_not_nil].
  - apply Forall_app. split; [apply H|]. apply Forall_singleton. lia.
  - by apply (Forall_cons_1 _ _ _ (bf_level _ _ _ _ _ H)).
  - apply Forall_app. split; [apply H|]. apply list.Forall_forall.
    intros w Hw%elem_of_children. destruct Hw as (c & -> & _ & _). rewrite length_app. cbn. lia.
  - intros w Hw Hl. destruct (bf_above _ _ _ _ _ H w Hw Hl); [by left|]. right. apply elem_of_app. by left.
  - intros w Hw Hl. rewrite elem_of_app, list_elem_of_singleton.
    pose proof (bf_row _ _ _ _ _ H w Hw Hl) as Hr. rewrite elem_of_cons in Hr. tauto.
  - intros w c Hw Hl [HD| ->%list_elem_of_singleton]%elem_of_app; apply elem_of_app.
    + left. by eapply (bf_children _ _ _ _ _ H).
    + right. apply elem_of_children. exists c. split_and!; [done| |done]. by eapply wo_chars.
  - intros w c [HQ|HQ]%elem_of_app; apply elem_of_app.
    + left. by eapply (bf_parents _ _ _ _ _ H).
    + right. apply list_elem_of_singleton. apply elem_of_children in HQ as (d & E & _).
      by apply app_inj_tail in E as [-> _].
Qed.

Lemma bfs_end k D st w : bfs k D [] [] st → w ∈ ws → w = [] ∨ w ∈ D.
Proof.
  intros H Hw. assert (Hrow : ∀ x, x ∈ ws → length x = k → x ∈ D).
  { intros x Hx Hl. by destruct (bf_row _ _ _ _ _ H x Hx Hl) as [?|?%elem_of_nil]. }
  destruct (decide (length w < k)%nat); [by apply (bf_above _ _ _ _ _ H)|].
  destruct (decide (length w = k)) as [E|]; [right; auto|]. exfalso.
  destruct (lookup_lt_is_Some_2 w k) as [c Hc]; [lia|].
  assert (Hk : take k w ++ [c] ∈ ws).
  { rewrite <- take_S_r by done. eapply (prefix_closed ws (wo_prefix _ Hwo) _ (drop (S k) w)).
    by rewrite take_drop. }
  assert (Hlen : length (take k w) = k) by (rewrite length_take; lia).
  apply (bf_children _ _ _ _ _ H), elem_of_nil in Hk; [done|done|].
  apply Hrow; [|done]. by eapply wo_prefix.
Qed.

Definition complete (ac : ACAutomaton) : Prop := ∃ bf, partial (λ _ _, True) (λ _, True) ac bf.

Definition builds (fuel : nat) (st : BuildState) : Prop := ∃ ac, build_loop fuel st = Ok ac ∧ complete ac.

Lemma builds_level fuel k D Q1 Q2 st :
  (∀ k u Q1 Q2, bfs k D (u :: Q1) Q2 st → builds fuel st) → bfs k D Q1 Q2 st → builds fuel st.
Proof.
  intros Hcons H. destruct Q1 as [|u Q1]; [|by eapply Hcons].
  destruct Q2 as [|u Q2]; [|by eapply Hcons, bfs_shift].
  exists (b_ac st). pose proof (bf_queue _ _ _ _ _ H) as Hq. cbn in Hq.
  split; [destruct fuel; cbn; by rewrite Hq|]. exists (b_fail st).
  assert (Hin : ∀ w, w ∈ ws → w = [] ∨ w ∈ D) by (intros; by eapply bfs_end).
  eapply partial_impl, (bf_nodes _ _ _ _ _ H); [done|left; auto|].
  intros w Hw _. rewrite !app_nil_r. auto.
Qed.

Lemma build_loop_complete fuel : ∀ k D Q1 Q2 st,
  bfs k D Q1 Q2 st → (length ws ≤ fuel + length D)%nat → builds fuel st.
Proof.
  induction fuel as [|fuel IH]; intros k D Q1 Q2 st H Hf; eapply builds_level, H; clear k Q1 Q2 H;
    intros k u Q1 Q2 H.
  - exfalso. assert (Hs : D ++ (u :: Q1) ++ Q2 ⊆+ ws).
    { apply NoDup_submseteq; [apply H|]. intros w Hw.
      by destruct (proj1 (list.Forall_forall _ _) (bf_words _ _ _ _ _ H) w Hw). }
    apply submseteq_length in Hs. rewrite !length_app in Hs. cbn in Hs. lia.
  - unfold builds. cbn [build_loop]. rewrite (bf_queue _ _ _ _ _ H). cbn [app fmap list_fmap].
    eapply IH; [by apply bfs_step|]. rewrite length_app. cbn. lia.
Qed.

(** The first row of the queue. *)
Lemma root_queue :
  filter (λ n, n ≠ 0%nat) ((λ e, next (nodes ac0 !!! 0%nat) !!! e) <$> seq 0 acValidCharCount) =
  idx ws <$> children [] acValidCharCount.
Proof.
  assert (Hk : ∀ k, (k ≤ acValidCharCount)%nat →
    filter (λ n, n ≠ 0%nat) ((λ e, next (nodes ac0 !!! 0%nat) !!! e) <$> seq 0 k) = idx ws <$> children [] k);
    [|by apply Hk].
  induction k as [|k IH]; intros Hk; [done|].
  rewrite seq_S, children_S, !fmap_app, list.filter_app, IH by lia. f_equal. cbn [fmap list_fmap plus].
  rewrite (tr_next _ _ _ Htrie _ _ _ (wo_root _ Hwo)) by lia. destruct (decide ([] ++ [k] ∈ ws)) as [Hin|Hout].
  - by rewrite filter_cons_True by (intros E; by eapply idx_snoc_zero in E).
  - rewrite filter_cons_False; [done|]. rewrite idx_not_in by done. auto.
Qed.

Lemma initial_partial (seen : word → Prop) :
  (∀ w, seen w → (length w ≤ 1)%nat) →
  partial (λ w _, w = [] ∨ w ∈ []) seen ac0 (replicate (length (nodes ac0)) 0%nat).
Proof.
  intros Hseen. assert (H0 : idx ws [] = 0%nat) by (apply idx_index; apply Hwo).
  assert (Hshort : ∀ (P : word → Prop) {Pdec : ∀ w, Decision (P w)} w, seen w → lpsuf P w = []).
  { intros P Pdec w Hw%Hseen. destruct w as [|c [|]]; [done| |cbn in Hw; lia]. cbn. by case_decide. }
  pose proof (tr_length _ _ _ Htrie) as Hl.
  split; try done.
  - by rewrite length_replicate.
  - apply (tr_sized _ _ _ Htrie).
  - intros n w c Hn Hc. rewrite (tr_edge _ _ _ Htrie _ _ _ Hn Hc), (tr_next _ _ _ Htrie _ _ _ Hn Hc).
    apply bool_decide_ext. split; [by apply idx_snoc_pos|]. intros Hin E. by eapply idx_snoc_zero in E.
  - intros n w c Hn Hc [->|?%elem_of_nil]; [|done]. rewrite (tr_next _ _ _ Htrie _ _ _ Hn Hc).
    destruct (decide ([] ++ [c] ∈ ws)) as [Hin|Hout]; [by rewrite lsuf_id|].
    rewrite idx_not_in, (lsuf_skip _ c []) by done. cbn. by case_decide.
  - intros n w c Hn Hc _. by apply (tr_next _ _ _ Htrie).
  - intros n w Hn Hs. by rewrite (tr_fail _ _ _ Htrie _ _ Hn), Hshort.
  - intros n w Hn Hs. rewrite Hshort, H0 by done. apply lookup_total_replicate_2.
    rewrite Hl. by eapply lookup_lt_Some.
Qed.

Lemma initial_bfs :
  bfs 1 [] (children [] acValidCharCount) []
    (mkBuild ac0 (replicate (length (nodes ac0)) 0%nat) (idx ws <$> children [] acValidCharCount)).
Proof.
  assert (Hone : ∀ w, w ∈ children [] acValidCharCount → ∃ c, w = [c] ∧ w ∈ ws).
  { intros w (c & -> & _ & Hw)%elem_of_children. by exists c. }
  split; cbn [b_ac b_fail b_queue]; rewrite ?app_nil_r; cbn [app].
  - done.
  - apply initial_partial. intros w [->|(c & -> & _)%Hone]; cbn; lia.
  - apply children_nodup.
  - apply list.Forall_forall. intros w (c & -> & Hw)%Hone. by split.
  - by constructor.
  - apply list.Forall_forall. by intros w (c & -> & Hw)%Hone.
  - by constructor.
  - intros w _ Hl. left. destruct w; [done|cbn in Hl; lia].
  - intros w Hw Hl. right. destruct w as [|c [|]]; [done| |done]. apply elem_of_children.
    exists c. split_and!; [done| |done]. by apply (wo_chars _ Hwo []).
  - by intros w c _ _ ?%elem_of_nil.
  - by intros w c ?%elem_of_nil.
Qed.

Lemma Build_complete : ∃ ac, Build ac0 = Ok ac ∧ complete ac.
Proof.
  unfold Build. rewrite root_queue. eapply build_loop_complete; [apply initial_bfs|].
  rewrite (tr_length _ _ _ Htrie). cbn. lia.
Qed.

(** ** Running the automaton *)

Section run.
Context (ac : ACAutomaton).
Hypothesis Hcomplete : complete ac.
Hypothesis Hroot : ¬ marked [].

Abbreviation values_at n := (values ac !!! match_ (nodes ac !!! n)).

Lemma run_values n w t v : ws !! n = Some w → t ≠ Regex →
  (v ∈ values_of t (values_at n) ↔ (w, t, v) ∈ R).
Proof.
  destruct Hcomplete as [bf H]. intros Hn Ht. rewrite (pa_match _ _ _ _ H), (pa_values _ _ _ _ H).
  by apply (vo_values _ _ _ (tr_values _ _ _ Htrie)).
Qed.

Lemma run_match n w : ws !! n = Some w →
  (match_ (nodes ac !!! n) ≠ 0%nat ↔ ∃ t v, t ≠ Regex ∧ (w, t, v) ∈ R).
Proof.
  destruct Hcomplete as [bf H]. intros Hn. rewrite (pa_match _ _ _ _ H).
  pose proof (tr_values _ _ _ Htrie) as Hv. split.
  - intros E. destruct (vo_some _ _ _ Hv _ _ Hn E) as (t & v & ? & ?). eauto.
  - intros (t & v & _ & Hin) E. by apply (vo_none _ _ _ Hv _ _ Hn E) in Hin.
Qed.

Lemma idx_word w : w ∈ ws → w ≠ [] → idx ws w ≠ 0%nat.
Proof. intros Hw Hne [?|?]%idx_zero; done. Qed.

Lemma idx_nil : idx ws [] = 0%nat.
Proof. apply idx_index; apply Hwo. Qed.

Lemma next_marked_case x : next_marked x = [] ∨ marked (next_marked x) ∧ next_marked x ≠ [].
Proof.
  destruct x as [|a x]; [by left|]. cbn [lpsuf]. destruct (lsuf_P marked x) as [Hm|]; [|by left].
  destruct (decide (lsuf marked x = [])) as [E|]; [by left|by right].
Qed.

Lemma run_fail x : x ∈ ws → fail (nodes ac !!! idx ws x) = idx ws (next_marked x).
Proof.
  destruct Hcomplete as [bf H]. intros Hx. eapply (pa_fail _ _ _ _ H); [by apply idx_lookup|done].
Qed.

(** The walk collects the values of all the marked suffixes. *)
Lemma fail_loop_suffixes k : ∀ x fuel ms,
  x ∈ ws → x ≠ [] → (length x ≤ k)%nat → (2 * k ≤ fuel)%nat →
  ∃ extra, fail_loop fuel ac (idx ws x) (nodes ac !!! idx ws x) ms = Ok (ms ++ extra) ∧
    ∀ v, v ∈ concat extra ↔ ∃ w, w `suffix_of` x ∧ (w, Substr, v) ∈ R.
Proof.
  induction k as [|k IH]; intros x fuel ms Hx Hne Hl Hf; [destruct x; [done|cbn in Hl; lia]|].
  destruct fuel as [|[|fuel]]; [lia..|]. pose proof (idx_word x Hx Hne) as Hi.
  assert (Hx' : ∀ v, v ∈ v_substr (values_at (idx ws x)) ↔ (x, Substr, v) ∈ R).
  { intros v. apply (run_values _ x Substr); [by apply idx_lookup|done]. }
  assert (Hsuf : ∀ w v, w `suffix_of` x → (w, Substr, v) ∈ R → w = x ∨ w `suffix_of` next_marked x).
  { intros w v Hw Hin. apply lpsuf_longest; [done|]. apply marked_iff. by exists v. }
  cbn [fail_loop]. destruct (idx ws x) as [|i] eqn:Ei; [done|]. rewrite <- Ei, run_fail by done.
  destruct (next_marked_case x) as [E|[Hm Hy]].
  - rewrite E, idx_nil. exists [v_substr (values_at (idx ws x))]. rewrite <- Ei in Hx'. split; [done|].
    intros v. cbn. rewrite app_nil_r, Hx'. split; [by exists x|]. intros (w & Hw & Hin).
    destruct (Hsuf w v Hw Hin) as [->|Hw']; [done|]. rewrite E in Hw'. apply suffix_nil_inv in Hw' as ->.
    destruct Hroot. apply marked_iff. by exists v.
  - assert (Hyw := marked_in _ Hm). pose proof (idx_word _ Hyw Hy) as Hyi.
    destruct (idx ws (next_marked x)) as [|j] eqn:Ej; [done|]. cbn [fail_loop].
    rewrite <- Ei in Hx'. rewrite <- app_assoc, <- Ej.
    pose proof (lpsuf_length marked x Hne) as Hly.
    destruct (IH (next_marked x) fuel (ms ++ [v_substr (values_at (idx ws x))] ++ [v_substr (values_at (idx ws x))])
                Hyw Hy) as (extra & He & Hv); [lia..|].
    exists ([v_substr (values_at (idx ws x))] ++ [v_substr (values_at (idx ws x))] ++ extra).
    split; [by rewrite He, <- !app_assoc|]. intros v. cbn. rewrite !elem_of_app, Hv, Hx'. split.
    + intros [?|[?|(w & ? & ?)]]; [by exists x..|]. exists w. split; [|done].
      etrans; [done|]. apply lpsuf_suffix.
    + intros (w & Hw & Hin). destruct (Hsuf w v Hw Hin) as [->|?]; [by left|]. right. right. by exists w.
Qed.

(** One character from the state after the word [r]. *)
Lemma run_next r c :
  next (nodes ac !!! idx ws (longest r)) !!! acCharset c = idx ws (longest (r ++ [acCharset c])).
Proof.
  destruct Hcomplete as [bf H].
  rewrite (pa_done _ _ _ _ H _ (longest r)); [|apply idx_lookup, longest_in, Hnil|apply acCharset_bound|done].
  f_equal. symmetry. apply longest_snoc; [done|apply Hwo].
Qed.

Lemma run_full r c :
  bool_decide (r ∈ ws) && edge (nodes ac !!! idx ws (longest r)) !!! acCharset c =
  bool_decide (r ++ [acCharset c] ∈ ws).
Proof.
  destruct Hcomplete as [bf H].
  rewrite (pa_edge _ _ _ _ H _ (longest r)); [|apply idx_lookup, longest_in, Hnil|apply acCharset_bound].
  destruct (decide (r ∈ ws)) as [Hin|Hout].
  - rewrite bool_decide_true, lsuf_id by done. done.
  - rewrite (bool_decide_false (r ∈ ws)) by done. cbn [andb]. symmetry. apply bool_decide_false.
    intros Hin. by eapply Hout, wo_prefix.
Qed.

Definition sub_at (r : word) (v : Z) : Prop := ∃ w, w `suffix_of` r ∧ (w, Substr, v) ∈ R.

(** The marked suffixes of what was read are those of the longest word. *)
Lemma sub_at_longest r v : sub_at r v ↔
  (longest r, Substr, v) ∈ R ∨ sub_at (next_marked (longest r)) v ∧ next_marked (longest r) ≠ [].
Proof.
  split.
  - intros (w & Hw & Hin). assert (Hmw : marked w) by (apply marked_iff; by exists v).
    assert (Hwl : w `suffix_of` longest r) by (apply lsuf_longest; [done|by apply marked_in]).
    destruct (lpsuf_longest marked _ _ Hwl Hmw) as [->|Hws]; [by left|]. right. split; [by exists w|].
    intros E. rewrite E in Hws. apply suffix_nil_inv in Hws as ->. done.
  - intros [Hin|[(w & Hw & Hin) _]].
    + exists (longest r). split; [apply lsuf_suffix|done].
    + exists w. split; [|done]. etrans; [done|]. etrans; [apply lpsuf_suffix|apply lsuf_suffix].
Qed.

Lemma concat_push ms vs : concat (push_values ms vs) = concat ms ++ vs.
Proof. destruct vs; cbn; [by rewrite app_nil_r|]. rewrite concat_app. cbn. by rewrite app_nil_r. Qed.

Lemma fail_walk r ms : ∃ sub,
  (if decide (fail (nodes ac !!! idx ws (longest r)) ≠ 0%nat)
   then fail_loop (2 * length (nodes ac)) ac (fail (nodes ac !!! idx ws (longest r)))
          (nodes ac !!! fail (nodes ac !!! idx ws (longest r))) ms
   else Ok ms) = Ok sub ∧
  ∀ v, v ∈ concat sub ↔ v ∈ concat ms ∨ sub_at (next_marked (longest r)) v ∧ next_marked (longest r) ≠ [].
Proof.
  pose proof (longest_in ws Hnil r) as Hr. rewrite (run_fail _ Hr).
  destruct (next_marked_case (longest r)) as [E|[Hm Hne]].
  - rewrite E, idx_nil, decide_False by auto. exists ms. split; [done|]. naive_solver.
  - assert (Hin := marked_in _ Hm). rewrite decide_True by (by apply idx_word).
    assert (Hlen : length (nodes ac) = length ws) by (by destruct Hcomplete as [bf H]; apply H).
    pose proof (word_length ws (wo_prefix _ Hwo) _ Hin) as Hwl.
    destruct (fail_loop_suffixes (length ws) (next_marked (longest r)) (2 * length (nodes ac)) ms Hin Hne)
      as (extra & He & Hv); [lia..|].
    rewrite He. exists (ms ++ extra). split; [done|]. intros v. rewrite concat_app, elem_of_app, Hv.
    unfold sub_at. naive_solver.
Qed.

Record running (r : word) (st : MatchState) : Prop := {
  ru_full : m_full st = bool_decide (r ∈ ws);
  ru_node : m_node st = idx ws (longest r)
}.

Lemma match_step_run r st c : running r st → ∃ st',
  match_step ac st c = Ok st' ∧ running (r ++ [acCharset c]) st' ∧
  (∀ v, v ∈ concat (m_substr st') ↔ v ∈ concat (m_substr st) ∨ sub_at (r ++ [acCharset c]) v) ∧
  (∀ v, v ∈ concat (m_suffix st') ↔
     v ∈ concat (m_suffix st) ∨ c = dot ∧ (r ++ [acCharset c], Domain, v) ∈ R).
Proof.
  intros [Hf Hn]. unfold match_step. rewrite Hf, Hn, run_full, run_next.
  set (r' := r ++ [acCharset c]). destruct (fail_walk r' (m_substr st)) as (sub & Hsub & Hv).
  assert (Hl : ws !! idx ws (longest r') = Some (longest r')) by (apply idx_lookup, longest_in, Hnil).
  cbn zeta. rewrite Hsub. unfold mbind, go_bind. setoid_rewrite sub_at_longest. fold r'.
  assert (Hdom : ∀ v, (r', Domain, v) ∈ R → r' ∈ ws) by (intros v; apply (vo_words _ _ _ (tr_values _ _ _ Htrie))).
  destruct (decide (match_ (nodes ac !!! idx ws (longest r')) ≠ 0%nat)) as [Hm|Hm]; eexists;
    (split; [done|]); (split; [by split|]); cbn [m_substr m_suffix]; split; intros v.
  - rewrite concat_push, elem_of_app, Hv, <- (run_values _ _ Substr v Hl) by done. cbn [values_of]. tauto.
  - destruct (decide (r' ∈ ws)) as [Hin|Hout].
    + rewrite bool_decide_true, andb_true_l by done. rewrite lsuf_id in * by done.
      destruct (decide (c = dot)) as [Hdot|Hdot];
        [rewrite bool_decide_true by done|rewrite bool_decide_false by done; tauto].
      rewrite concat_push, elem_of_app, <- (run_values _ _ Domain v Hl) by done. cbn [values_of]. tauto.
    + rewrite bool_decide_false by done. cbn [andb]. split; [by left|]. intros [?|[_ ?%Hdom]]; done.
  - rewrite Hv. split; [tauto|]. intros [?|[Hin|?]]; [by left| |by right].
    destruct Hm. apply (run_match _ _ Hl). by exists Substr, v.
  - split; [by left|]. intros [?|[_ Hin]]; [done|]. destruct Hm. pose proof (Hdom v Hin) as Hin'.
    rewrite lsuf_id in * by done. apply (run_match _ _ Hl). by exists Domain, v.
Qed.

(** What the rest of the input adds after the word [r]. *)
Fixpoint sub_hit (r : word) (cs : str) (v : Z) : Prop :=
  match cs with
  | [] => False
  | c :: cs => sub_at (r ++ [acCharset c]) v ∨ sub_hit (r ++ [acCharset c]) cs v
  end.
Fixpoint dom_hit (r : word) (cs : str) (v : Z) : Prop :=
  match cs with
  | [] => False
  | c :: cs => (c = dot ∧ (r ++ [acCharset c], Domain, v) ∈ R) ∨ dom_hit (r ++ [acCharset c]) cs v
  end.
Definition end_hit (r : word) (v : Z) : Prop := (r, Domain, v) ∈ R ∨ (r, Full, v) ∈ R.

Lemma match_loop_run cs : ∀ r st, running r st → ∃ st',
  match_loop ac st cs = Ok st' ∧ running (r ++ (acCharset <$> cs)) st' ∧
  (∀ v, v ∈ concat (m_substr st') ↔ v ∈ concat (m_substr st) ∨ sub_hit r cs v) ∧
  (∀ v, v ∈ concat (m_suffix st') ↔ v ∈ concat (m_suffix st) ∨ dom_hit r cs v).
Proof.
  induction cs as [|c cs IH]; intros r st Hr.
  { exists st. cbn. rewrite app_nil_r. split_and!; [done..|naive_solver|naive_solver]. }
  destruct (match_step_run r st c Hr) as (st1 & E1 & Hr1 & Hs1 & Hd1).
  destruct (IH _ _ Hr1) as (st2 & E2 & Hr2 & Hs2 & Hd2).
  exists st2. cbn [match_loop fmap list_fmap]. rewrite E1. rewrite (cons_middle _ r), app_assoc.
  split_and!; [done|done| |]; intros v; cbn [sub_hit dom_hit].
  - rewrite Hs2, Hs1. tauto.
  - rewrite Hd2, Hd1. tauto.
Qed.

Definition hit (cs : str) (v : Z) : Prop :=
  sub_hit [] cs v ∨ dom_hit [] cs v ∨ end_hit (acCharset <$> cs) v.

Lemma elem_of_composite ms v : v ∈ CompositeMatchesReverse ms ↔ v ∈ concat ms.
Proof. rewrite CompositeMatchesReverse_concat. by rewrite (reverse_Permutation ms). Qed.

Lemma end_values r v suffix : r ∈ ws →
  match_ (nodes ac !!! idx ws r) ≠ 0%nat →
  (v ∈ concat (push_values (push_values suffix (v_domain (values_at (idx ws r)))) (v_full (values_at (idx ws r))))
   ↔ v ∈ concat suffix ∨ end_hit r v).
Proof.
  intros Hr Hm. apply idx_lookup in Hr as Hl. unfold end_hit.
  rewrite !concat_push, !elem_of_app, <- (run_values _ _ Domain v Hl), <- (run_values _ _ Full v Hl) by done.
  cbn [values_of]. tauto.
Qed.

Lemma end_hit_match r v : end_hit r v → r ∈ ws ∧ match_ (nodes ac !!! idx ws r) ≠ 0%nat.
Proof.
  intros H. assert (Hr : ∃ t, t ≠ Regex ∧ (r, t, v) ∈ R) by (destruct H; [by exists Domain|by exists Full]).
  destruct Hr as (t & Ht & Hin). assert (Hr := vo_words _ _ _ (tr_values _ _ _ Htrie) _ _ _ Hin).
  split; [done|]. apply (run_match _ r); [by apply idx_lookup|]. by exists t, v.
Qed.

Lemma Match_run input : ∃ result, Match ac input = Ok result ∧ ∀ v, v ∈ result ↔ hit (reverse input) v.
Proof.
  unfold Match. destruct (match_loop_run (reverse input) [] (mkMatch true 0 [] [])) as (st & E & [Hf Hn] & Hs & Hd).
  { split; cbn [m_full m_node]; [by rewrite bool_decide_true|]. by rewrite lsuf_id, idx_nil. }
  rewrite E. unfold mbind, go_bind. cbn [app] in Hf, Hn. rewrite Hf, Hn.
  set (r := acCharset <$> reverse input) in *.
  eexists. split; [done|]. intros v. unfold hit. fold r.
  set (suffix := if _ && _ then _ else _).
  assert (Hsuf : v ∈ concat suffix ↔ dom_hit [] (reverse input) v ∨ end_hit r v).
  { assert (Hd0 : v ∈ concat (m_suffix st) ↔ dom_hit [] (reverse input) v)
      by (rewrite Hd; cbn [m_suffix concat]; rewrite elem_of_nil; tauto).
    rewrite <- Hd0. unfold suffix.
    destruct (decide (r ∈ ws)) as [Hr|Hr].
    - rewrite (bool_decide_true (r ∈ ws)), lsuf_id by done. cbn [andb].
      destruct (decide (match_ (nodes ac !!! idx ws r) ≠ 0%nat)) as [Hm|Hm];
        [rewrite bool_decide_true by done|rewrite bool_decide_false by done].
      + by apply end_values.
      + split; [by left|]. intros [?|[_ ?]%end_hit_match]; done.
    - rewrite bool_decide_false by done. cbn [andb]. split; [by left|].
      intros [?|[? _]%end_hit_match]; done. }
  assert (Hsub : v ∈ concat (m_substr st) ↔ sub_hit [] (reverse input) v) 
    by (rewrite Hs; cbn [m_substr concat]; rewrite elem_of_nil; tauto).
  destruct (m_substr st) as [|x xs] eqn:Em; 
    rewrite elem_of_composite, ?concat_app, ?elem_of_app, Hsuf; [|tauto].
  cbn [concat] in Hsub. rewrite elem_of_nil in Hsub. tauto.
Qed.

(** The tests of [MatchAny] on a node. *)
Lemma nonempty_values r t : r ∈ ws → t ≠ Regex →
  (bool_decide (match_ (nodes ac !!! idx ws r) ≠ 0%nat)
   && match values_of t (values_at (idx ws r)) with [] => false | _ => true end = true
   ↔ ∃ v, (r, t, v) ∈ R).
Proof.
  intros Hr Ht. apply idx_lookup in Hr as Hl. rewrite andb_true_iff, bool_decide_eq_true, (run_match _ _ Hl). split.
  - intros [_ Hv]. destruct (values_of t _) as [|v vs] eqn:E; [done|]. exists v.
    apply (run_values _ _ t v Hl Ht). rewrite E. left.
  - intros [v Hv]. split; [by exists t, v|]. apply (run_values _ _ t v Hl Ht) in Hv.
    by destruct (values_of t _); [apply elem_of_nil in Hv|].
Qed.

Lemma fail_marked r : fail (nodes ac !!! idx ws (longest r)) ≠ 0%nat ↔
  ∃ v, sub_at (next_marked (longest r)) v ∧ next_marked (longest r) ≠ [].
Proof.
  rewrite run_fail by apply (longest_in ws Hnil). split.
  - intros Hne. destruct (next_marked_case (longest r)) as [E|[Hm He]]; [by rewrite E, idx_nil in Hne|].
    pose proof Hm as [v Hv]%marked_iff. exists v. split; [|done]. by exists (next_marked (longest r)).
  - intros (v & _ & Hne). destruct (next_marked_case (longest r)) as [E|[Hm _]]; [done|].
    apply idx_word; [by apply marked_in|done].
Qed.

Lemma any_loop_run cs : ∀ r, (∀ v, ¬ sub_at r v) →
  (any_loop ac (bool_decide (r ∈ ws)) (idx ws (longest r)) cs = true ↔
   ∃ v, sub_hit r cs v ∨ dom_hit r cs v ∨ end_hit (r ++ (acCharset <$> cs)) v).
Proof.
  induction cs as [|c cs IH]; intros r Hno; cbn [any_loop sub_hit dom_hit fmap list_fmap].
  - rewrite app_nil_r, andb_true_iff, !bool_decide_eq_true. split.
    + intros [Hr Hm]. rewrite lsuf_id in Hm by done. apply idx_lookup in Hr as Hl.
      apply (run_match _ _ Hl) in Hm as (t & v & Ht & Hin). exists v. right. right.
      destruct t; [by right|by left| |done]. by destruct (Hno v); exists r.
    + intros (v & [[]|[[]|H]]). apply end_hit_match in H as [Hr Hm]. by rewrite lsuf_id.
  - rewrite run_full, run_next. rewrite (cons_middle (acCharset c) r (acCharset <$> cs)), app_assoc. set (r' := r ++ [acCharset c]).
    pose proof (longest_in ws Hnil r') as Hl.
    destruct (decide (fail (nodes ac !!! idx ws (longest r')) ≠ 0%nat)) as [Hf|Hf].
    { split; [intros _|done]. apply fail_marked in Hf as (v & Hv & Hne). exists v. left. left.
      apply sub_at_longest. by right. }
    pose proof (nonempty_values (longest r') Substr Hl ltac:(done)) as Hsub. cbn [values_of] in Hsub.
    match goal with |- context [if ?b then true else _] => destruct b eqn:Es end.
    { split; [intros _|done]. destruct (proj1 Hsub eq_refl) as [v Hv]. exists v. left. left. apply sub_at_longest. by left. }
    assert (Hno' : ∀ v, ¬ sub_at r' v).
    { intros v [Hv|[Hv Hne]]%sub_at_longest; [|by apply Hf, fail_marked; exists v].
      by apply (ex_intro (λ v, (longest r', Substr, v) ∈ R)), Hsub in Hv. }
    match goal with |- context [if ?b then true else _] => destruct b eqn:Ed end.
    + split; [intros _|done]. rewrite !andb_true_iff, !bool_decide_eq_true in Ed.
      destruct Ed as [[[Hm Hin] Hdot] Hd]. rewrite lsuf_id in Hm, Hd by done.
      destruct (proj1 (nonempty_values r' Domain Hin ltac:(done))) as [v Hv];
        [by rewrite bool_decide_true|]. exists v. right. left. by left.
    + rewrite (IH r' Hno'). split; intros (v & Hv); exists v; [tauto|].
      destruct Hv as [[Hv|?]|[[[Hdot Hv]|?]|?]]; [by apply Hno' in Hv|tauto| |tauto|tauto]. exfalso.
      assert (Hin := vo_words _ _ _ (tr_values _ _ _ Htrie) _ _ _ Hv).
      rewrite lsuf_id, (bool_decide_true (r' ∈ ws)), (bool_decide_true (c = dot)), !andb_true_r in Ed by done.
      pose proof (proj2 (nonempty_values r' Domain Hin ltac:(done)) (ex_intro _ v Hv)) as Hn. cbn [values_of] in Hn.
      by rewrite Hn in Ed.
Qed.

Lemma MatchAny_run input : MatchAny ac input = true ↔ ∃ v, hit (reverse input) v.
Proof.
  unfold MatchAny, hit. rewrite <- (any_loop_run (reverse input) []).
  - by rewrite bool_decide_true, lsuf_id, idx_nil.
  - intros v (w & ->%suffix_nil_inv & Hin). apply Hroot, marked_iff. by exists v.
Qed.

End run.
End build.

(** ** Words and strings *)

(** The characters the automaton is meant for, on which the codes are distinct. *)
Definition ldh (s : str) : Prop := Forall (λ c, classify c = Allowed) s.

Definition decode (n : nat) : byte :=
  byte_of_Z (if decide (n ≤ 26)%nat then Z.of_nat n + 96
             else if decide (n ≤ 28)%nat then Z.of_nat n + 18 else Z.of_nat n + 19).

Lemma decode_acCharset c : classify c = Allowed → decode (acCharset c) = c.
Proof. destruct c; vm_compute; done. Qed.

Lemma codes_inj p q : ldh p → ldh q → acCharset <$> p = acCharset <$> q → p = q.
Proof.
  intros Hp Hq E. assert (Hid : ∀ s, ldh s → decode <$> (acCharset <$> s) = s).
  { intros s Hs. induction Hs as [|c s Hc Hs IH]; [done|]. cbn [fmap list_fmap].
    by rewrite decode_acCharset, IH. }
  by rewrite <- (Hid p Hp), E, Hid.
Qed.

Lemma ldh_app p q : ldh (p ++ q) ↔ ldh p ∧ ldh q.
Proof. apply Forall_app. Qed.

Lemma ldh_reverse p : ldh (reverse p) ↔ ldh p.
Proof. apply Forall_reverse. Qed.

Lemma ldh_dot : ldh [dot].
Proof. by apply Forall_singleton. Qed.

Lemma edges_inj p q : ldh p → ldh q → edges p = acCharset <$> q → q = reverse p.
Proof. intros Hp Hq E. symmetry. by apply codes_inj; [apply ldh_reverse| |]. Qed.

Section hits.
Context (R : list registration).

Lemma sub_hit_split cs : ∀ r v, sub_hit R r cs v ↔
  ∃ cs1 c cs2, cs = cs1 ++ c :: cs2 ∧ sub_at R (r ++ (acCharset <$> cs1 ++ [c])) v.
Proof.
  induction cs as [|c cs IH]; intros r v; cbn [sub_hit].
  { split; [done|]. by intros ([|] & ? & ? & ? & _). }
  rewrite IH. split.
  - intros [H|(cs1 & d & cs2 & -> & H)]; [by exists [], c, cs|]. exists (c :: cs1), d, cs2.
    by rewrite <- app_assoc in H.
  - intros ([|e cs1] & d & cs2 & [= -> ->] & H); [by left|]. right. exists cs1, d, cs2.
    by rewrite <- app_assoc.
Qed.

Lemma dom_hit_split cs : ∀ r v, dom_hit R r cs v ↔
  ∃ cs1 cs2, cs = cs1 ++ dot :: cs2 ∧ (r ++ (acCharset <$> cs1 ++ [dot]), Domain, v) ∈ R.
Proof.
  induction cs as [|c cs IH]; intros r v; cbn [dom_hit].
  { split; [done|]. by intros ([|] & ? & ? & _). }
  rewrite IH. split.
  - intros [[-> H]|(cs1 & cs2 & -> & H)]; [by exists [], cs|]. exists (c :: cs1), cs2.
    by rewrite <- app_assoc in H.
  - intros ([|e cs1] & cs2 & [= -> ->] & H); [by left|]. right. exists cs1, cs2.
    by rewrite <- app_assoc.
Qed.

End hits.

(** Matchers the automaton takes: no regular expressions, patterns of its alphabet. *)
Definition ac_ok (m : Matcher) : Prop := matcher_ok m ∧ is_regex m = false ∧ ldh (Pattern m).

Section exact.
Context (MatchString : str → str → bool) (L : list (Matcher * Z)).
Hypothesis HL : Forall (λ x, ac_ok x.1) L.

Lemma elem_of_registrations w t v : (w, t, v) ∈ registrations L ↔ ∃ m, (m, v) ∈ L ∧ (w, t, v) ∈ registered m v.
Proof.
  unfold registrations. rewrite list_elem_of_In, in_flat_map. split.
  - intros ([m v'] & Hin & Hr). apply list_elem_of_In in Hin, Hr. cbn in Hr. exists m.
    assert (v' = v) as ->; [|done]. destruct m; cbn in Hr; rewrite ?elem_of_cons, ?elem_of_nil in Hr; naive_solver.
  - intros (m & Hin & Hr). exists (m, v). by rewrite <- !list_elem_of_In.
Qed.

Lemma L_ok m v : (m, v) ∈ L → ac_ok m.
Proof. apply (proj1 (list.Forall_forall _ _) HL (m, v)). Qed.

Lemma reg_substr w v : (w, Substr, v) ∈ registrations L ↔ ∃ p, (SubstrMatcher p, v) ∈ L ∧ w = edges p.
Proof.
  rewrite elem_of_registrations. split.
  - intros ([p|p|p|p] & Hin & Hr); cbn in Hr; rewrite ?elem_of_cons, ?elem_of_nil in Hr; naive_solver.
  - intros (p & Hin & ->). exists (SubstrMatcher p). split; [done|]. cbn. by left.
Qed.

Lemma reg_full w v : (w, Full, v) ∈ registrations L ↔ ∃ p, (FullMatcher p, v) ∈ L ∧ w = edges p.
Proof.
  rewrite elem_of_registrations. split.
  - intros ([p|p|p|p] & Hin & Hr); cbn in Hr; rewrite ?elem_of_cons, ?elem_of_nil in Hr; naive_solver.
  - intros (p & Hin & ->). exists (FullMatcher p). split; [done|]. cbn. by left.
Qed.

Lemma reg_domain w v : (w, Domain, v) ∈ registrations L ↔
  ∃ p, (DomainMatcher p, v) ∈ L ∧ (w = edges p ∨ w = edges p ++ [dot_code]).
Proof.
  rewrite elem_of_registrations. split.
  - intros ([p|p|p|p] & Hin & Hr); cbn in Hr; rewrite ?elem_of_cons, ?elem_of_nil in Hr; naive_solver.
  - intros (p & Hin & Hw). exists (DomainMatcher p). split; [done|]. cbn.
    rewrite !elem_of_cons. naive_solver.
Qed.

Lemma root_not_marked : ¬ marked (registrations L) [].
Proof.
  intros [v (p & Hin & E)%reg_substr]%marked_iff. apply L_ok in Hin as [Hne _]. apply Hne. cbn.
  apply (f_equal length) in E. unfold edges in E. rewrite length_fmap, length_reverse in E. by destruct p.
Qed.

Section input.
Context (input : str).
Hypothesis Hin : ldh input.

Abbreviation R := (registrations L).
Abbreviation matched m := (Matcher_Match MatchString m input = true).

Lemma ldh_split cs1 cs2 : reverse input = cs1 ++ cs2 → ldh cs1 ∧ input = reverse cs2 ++ reverse cs1.
Proof.
  intros E. split.
  - apply ldh_reverse in Hin. rewrite E in Hin. by apply ldh_app in Hin as [? _].
  - by rewrite <- (reverse_involutive input), E, reverse_app.
Qed.

Lemma substr_exact v : sub_hit R [] (reverse input) v ↔ ∃ p, (SubstrMatcher p, v) ∈ L ∧ matched (SubstrMatcher p).
Proof.
  rewrite sub_hit_split. cbn [Matcher_Match app]. setoid_rewrite Contains_spec. split.
  - intros (cs1 & c & cs2 & E & w & [x Hx] & (p & HpL & ->)%reg_substr). exists p. split; [done|].
    rewrite cons_middle, app_assoc in E. apply ldh_split in E as [Hl ->].
    apply fmap_app_inv in Hx as (y & z & -> & Ez & E). rewrite E in Hl. apply ldh_app in Hl as [_ Hl].
    apply L_ok in HpL as (_ & _ & Hp). apply edges_inj in Ez as ->; [|done|done].
    exists (reverse cs2), (reverse y). by rewrite E, reverse_app, reverse_involutive.
  - intros (p & HpL & x & y & ->). pose proof (L_ok _ _ HpL) as (Hne & _ & _). cbn in Hne.
    destruct p as [|c p]; [done|]. exists (reverse y ++ reverse p), c, (reverse x). split.
    + rewrite !reverse_app, reverse_cons, <- !app_assoc. done.
    + exists (edges (c :: p)). split; [|apply reg_substr; by exists (c :: p)].
      exists (acCharset <$> reverse y). unfold edges. by rewrite reverse_cons, <- app_assoc, fmap_app.
Qed.

Lemma domain_exact v :
  (dom_hit R [] (reverse input) v ∨ (acCharset <$> reverse input, Domain, v) ∈ R) ↔
  ∃ p, (DomainMatcher p, v) ∈ L ∧ matched (DomainMatcher p).
Proof.
  rewrite dom_hit_split. cbn [Matcher_Match app]. setoid_rewrite DomainMatcher_Match_spec. split.
  - intros [(cs1 & cs2 & E & (p & HpL & Hw)%reg_domain)|(p & HpL & Hw)%reg_domain]; exists p; (split; [done|]);
      pose proof (L_ok _ _ HpL) as ([_ Hdot] & _ & Hp); cbn in Hdot, Hp.
    + rewrite cons_middle, app_assoc in E. apply ldh_split in E as [Hl ->]. destruct Hw as [Hw|Hw].
      * symmetry in Hw. apply edges_inj in Hw; [|done|done]. destruct Hdot.
        by rewrite <- (reverse_involutive p), <- Hw, reverse_app.
      * apply ldh_app in Hl as [Hl _]. rewrite fmap_app in Hw. apply app_inj_tail in Hw as [Hw _].
        symmetry in Hw. apply edges_inj in Hw as ->; [|done|done]. right. exists (reverse cs2).
        by rewrite reverse_app, reverse_involutive.
    + destruct Hw as [Hw|Hw].
      * left. symmetry in Hw. apply edges_inj in Hw; [|done|by apply ldh_reverse].
        by rewrite <- (reverse_involutive input), Hw, reverse_involutive.
      * right. exists []. change [dot_code] with (acCharset <$> [dot]) in Hw. unfold edges in Hw.
        rewrite <- fmap_app in Hw. apply codes_inj in Hw.
        -- by rewrite <- (reverse_involutive input), Hw, reverse_app, reverse_involutive.
        -- by apply ldh_reverse.
        -- apply ldh_app. split; [by apply ldh_reverse|apply ldh_dot].
  - intros (p & HpL & [->|[y ->]]).
    + right. apply reg_domain. exists p. split; [done|by left].
    + left. exists (reverse p), (reverse y). split; [by rewrite reverse_app, reverse_cons, <- app_assoc|].
      apply reg_domain. exists p. split; [done|]. right. by rewrite fmap_app.
Qed.

Lemma full_exact v : (acCharset <$> reverse input, Full, v) ∈ R ↔ ∃ p, (FullMatcher p, v) ∈ L ∧ matched (FullMatcher p).
Proof.
  rewrite reg_full. cbn [Matcher_Match]. split.
  - intros (p & HpL & E). exists p. split; [done|]. apply bool_decide_eq_true.
    pose proof (L_ok _ _ HpL) as (_ & _ & Hp). symmetry in E. apply edges_inj in E; [|done|by apply ldh_reverse].
    by rewrite <- (reverse_involutive input), E, reverse_involutive.
  - intros (p & HpL & ->%bool_decide_eq_true). by exists input.
Qed.

Lemma hit_exact v : hit R (reverse input) v ↔ ∃ m, (m, v) ∈ L ∧ matched m.
Proof.
  unfold hit, end_hit. rewrite substr_exact, full_exact.
  transitivity ((∃ p, (SubstrMatcher p, v) ∈ L ∧ matched (SubstrMatcher p)) ∨
                (∃ p, (DomainMatcher p, v) ∈ L ∧ matched (DomainMatcher p)) ∨
                (∃ p, (FullMatcher p, v) ∈ L ∧ matched (FullMatcher p))).
  { rewrite <- domain_exact. tauto. }
  split; [naive_solver|]. intros ([p|p|p|p] & HpL & Hm); [eauto..|].
  by destruct (L_ok _ _ HpL) as (_ & ? & _).
Qed.

(** The promise of a group to the matcher it is part of: the values of exactly the matchers
    that match, and whether there is one. *)
Definition answers (result : go (list Z)) (any : go bool) : Prop :=
  ∃ r b, result = Ok r ∧ any = Ok b ∧ (∀ v, v ∈ r ↔ ∃ m, (m, v) ∈ L ∧ matched m) ∧
    (b = true ↔ matches MatchString L input).

Lemma ac_answers : ∃ ac, Build (ac_added L) = Ok ac ∧ answers (Match ac input) (Ok (MatchAny ac input)).
Proof.
  destruct (ac_added_trie L) as [ws Ht]. destruct (Build_complete _ _ _ Ht) as (ac & E & Hc).
  exists ac. split; [done|]. pose proof (root_not_marked) as Hroot.
  destruct (Match_run _ _ _ Ht ac Hc Hroot input) as (result & Em & Hv).
  exists result, (MatchAny ac input). split_and!; [done|done| |].
  - intros v. by rewrite Hv, hit_exact.
  - rewrite (MatchAny_run _ _ _ Ht ac Hc Hroot input). setoid_rewrite hit_exact. unfold matches. naive_solver.
Qed.

(** C30: the Aho-Corasick automaton is exact. Whatever full, domain and keyword matchers were
    added (patterns of letters, digits, hyphens and dots, keywords not empty, domains without
    a leading dot), [Build] succeeds, and on every input of that alphabet [Match] returns: a
    value is in the result if and only if it was added with a matcher that matches the input
    on its own, and [MatchAny] tells whether there is one. *)
Theorem ac_automaton_exact :
  ∃ ac, Build (ac_added L) = Ok ac ∧
    (∃ result, Match ac input = Ok result ∧ ∀ v, v ∈ result ↔ ∃ m, (m, v) ∈ L ∧ matched m) ∧
    (MatchAny ac input = true ↔ matches MatchString L input).
Proof.
  destruct ac_answers as (ac & E & r & b & Er & [= <-] & Hr & Hb). exists ac. split; [done|]. split; [|done]. by exists r.
Qed.

End input.
End exact.

(** *** Repeated values *)

(** The walk along the fail path reports a node twice when another one follows: keywords
    "a", "ab" and "abc" with the values 1, 2 and 3, on the input "xabc". *)
Lemma fail_path_repeats :
  (ac ← Build (ac_added [(SubstrMatcher [x61], 1); (SubstrMatcher [x61; x62], 2); (SubstrMatcher [x61; x62; x63], 3);
                         (SubstrMatcher [x62], 4); (SubstrMatcher [x78; x61; x62], 5)]);
   Match ac [x78; x61; x62; x63]) = Ok [5; 3; 1; 2; 2; 4] ∧
  (ac ← Build (ac_added [(DomainMatcher [x63; x6f; x6d], 1)]); Match ac [dot; x63; x6f; x6d]) = Ok [1; 1].
Proof. split; vm_compute; reflexivity. Qed.

Definition ac_sample : list (Matcher * Z) :=
  [(SubstrMatcher [x6c; x65], 1); (DomainMatcher [x63; x6f; x6d], 2);
   (DomainMatcher [x61; x70; x70; x6c; x65; dot; x63; x6f; x6d], 3);
   (FullMatcher [x61; x70; x70; x6c; x65; dot; x63; x6f; x6d], 4); (DomainMatcher [x6f; x72; x67], 6)].

Lemma ac_sample_ok : Forall (λ x, ac_ok x.1) ac_sample.
Proof.
  repeat (apply Forall_cons_2;
    [split; [try (split; intros H; discriminate H); try (intros H; discriminate H); exact I|];
     split; [reflexivity|]; repeat (apply Forall_cons_2; [reflexivity|]); apply Forall_nil_2|]).
  apply Forall_nil_2.
Qed.

Lemma ac_automaton_exact_witness :
  ∃ ac r, Build (ac_added ac_sample) = Ok ac ∧ Match ac sample_input = Ok r ∧
    (∀ v, v ∈ r ↔ ∃ m, (m, v) ∈ ac_sample ∧ Matcher_Match (λ _ _, true) m sample_input = true) ∧
    MatchAny ac sample_input = true.
Proof.
  destruct (ac_automaton_exact (λ _ _, true) ac_sample ac_sample_ok sample_input) as (ac & E & (r & Er & Hr) & Ha).
  - repeat (apply Forall_cons_2; [reflexivity|]). apply Forall_nil_2.
  - exists ac, r. split; [exact E|]. split; [exact Er|]. split; [exact Hr|].
    apply Ha. exists (SubstrMatcher [x6c; x65]), 1. split; [left|]. vm_compute. reflexivity.
Defined.
