(* ===== verification/StrMph.v ===== *)
(** * The perfect-hash group of domain matchers

    Models [common/geodata/strmatcher/matchergroup_mph.go] (a minimal perfect hash table for
    full and domain patterns, built by hash, displace and compress) and the matchers that
    combine it with the Aho-Corasick automaton, [valuematcher_mph.go] and
    [indexmatcher_mph.go]. The hash function of the Go runtime is a parameter, about which
    nothing is assumed: the search for seeds is proved to end exactly when every bucket has
    one that fits among the slots left to it. *)

From S2P Require Import Prelude StrMatcher StrAutomaton.
#[local] Open Scope Z_scope.

Definition PrimeRK : Z := 16777619.

(** One step of the rolling hash, and the hash of a string from a suffix hash. *)
Definition roll (hash : Z) (c : byte) : Z := u32 (u32 (hash * PrimeRK) + byte_to_Z c).
Definition RollingHash (hash : Z) (input : str) : Z := foldl roll hash (reverse input).

(** [nextPow2]: the bit operations are on [uint]. *)
Definition LeadingZeros (v : Z) : Z := 64 - (Z.log2 v + 1).
Definition nextPow2 (v : Z) : Z :=
  if decide (v ≤ 1) then 1
  else u64 (Z.shiftr (2 ^ 64 - 1) (LeadingZeros v) + 1).

Record mphRuleInfo := mkInfo { rollingHash : Z; i_full : list Z; i_domain : list Z }.

Record MphMatcherGroup := mkMph {
  rules : list str;                        (* rule index -> pattern; 0 is reserved *)
  mvalues : list (list Z);                 (* rule index -> values *)
  level0 : list Z;                         (* rolling hash -> seed *)
  level0Mask : Z;
  level1 : list Z;                         (* seeded hash -> rule index *)
  level1Mask : Z;
  ruleInfos : option (gmap str mphRuleInfo)  (* until [Build] *)
}.

Definition NewMphMatcherGroup : MphMatcherGroup := mkMph [[]] [[]] [] 0 [] 0 (Some ∅).

Definition add_info (t : Type_) (value : Z) (i : mphRuleInfo) : mphRuleInfo :=
  match t with
  | Full => mkInfo (rollingHash i) (i_full i ++ [value]) (i_domain i)
  | _ => mkInfo (rollingHash i) (i_full i) (i_domain i ++ [value])
  end.

(** [addPattern]: dereferencing the map after [Build] panics. *)
Definition mph_addPattern (g : MphMatcherGroup) (suffixHash : Z) (suffixPattern pattern : str)
    (t : Type_) (value : Z) : go (MphMatcherGroup * Z) :=
  let fullPattern := pattern ++ suffixPattern in
  infos ← ok_or_panic (ruleInfos g);
  let '(g, info) :=
    match infos !! fullPattern with
    | Some info => (g, info)
    | None =>
        (mkMph (rules g ++ [fullPattern]) (mvalues g ++ [[]]) (level0 g) (level0Mask g) (level1 g)
           (level1Mask g) (ruleInfos g), mkInfo (RollingHash suffixHash pattern) [] [])
    end in
  let info := add_info t value info in
  Ok (mkMph (rules g) (mvalues g) (level0 g) (level0Mask g) (level1 g) (level1Mask g)
        (Some (<[fullPattern := info]> infos)), rollingHash info).

Definition Mph_AddFullMatcher (g : MphMatcherGroup) (pattern : str) (value : Z) : go MphMatcherGroup :=
  '(g, _) ← mph_addPattern g 0 [] (ToLower pattern) Full value; Ok g.

Definition Mph_AddDomainMatcher (g : MphMatcherGroup) (pattern : str) (value : Z) : go MphMatcherGroup :=
  let pattern := ToLower pattern in
  '(g, hash) ← mph_addPattern g 0 [] pattern Domain value;
  '(g, _) ← mph_addPattern g hash pattern [dot] Domain value; Ok g.

Section strhash.
Context (strhash : Z → str → Z).

Definition MemHash (seed : Z) (input : str) : Z := u32 (strhash seed input).

(** *** [Build] *)

(** The buckets, by rolling hash, and the values of every rule. *)
Definition bucket_step (infos : gmap str mphRuleInfo) (mask : Z) (st : list (list nat) * list (list Z))
    (x : nat * str) : list (list nat) * list (list Z) :=
  let '(ruleIdx, rule) := x in
  let info := default (mkInfo 0 [] []) (infos !! rule) in
  let bucketIdx := Z.to_nat (Z.land (rollingHash info) mask) in
  (<[bucketIdx := (st.1 !!! bucketIdx) ++ [ruleIdx]]> st.1,
   <[ruleIdx := i_full info ++ i_domain info]> st.2).

Record TableState := mkTable { t_occupied : list bool; t_level1 : list Z; t_hashed : list nat }.

(** One pass over a bucket with one seed; [false] after a collision, with the entries of
    this bucket taken back. *)
Fixpoint place (mask seed : Z) (bucket : list (nat * str)) (st : TableState) : bool * TableState :=
  match bucket with
  | [] => (true, st)
  | (ruleIdx, rule) :: bucket =>
      let memHash := Z.to_nat (Z.land (MemHash seed rule) mask) in
      if (t_occupied st !!! memHash : bool) then
        (false, mkTable (foldl (λ (o : list bool) (h : nat), <[h := false]> o) (t_occupied st) (t_hashed st))
                  (foldl (λ (l : list Z) (h : nat), <[h := 0]> l) (t_level1 st) (t_hashed st)) [])
      else
        place mask seed bucket
          (mkTable (<[memHash := true]> (t_occupied st)) (<[memHash := Z.of_nat ruleIdx]> (t_level1 st))
             (t_hashed st ++ [memHash]))
  end.

(** The search for a seed. *)
Fixpoint seed_loop (fuel : nat) (mask seed : Z) (bucket : list (nat * str)) (st : TableState)
    : go (Z * TableState) :=
  if decide (length (t_hashed st) = length bucket) then Ok (seed, st)
  else match fuel with
       | O => Panic
       | S fuel =>
           let '(ok, st) := place mask seed bucket st in
           seed_loop fuel mask (if ok : bool then seed else seed +32 1) bucket st
       end.

Definition bucket_loop_step (fuel : nat) (mask : Z) (rs : list str) (buckets : list (list nat))
    (st : TableState * list Z) (bucketIdx : nat) : go (TableState * list Z) :=
  let bucket := (λ i, (i, rs !!! i)) <$> (buckets !!! bucketIdx) in
  '(seed, t) ← seed_loop fuel mask 0 bucket (mkTable (t_occupied st.1) (t_level1 st.1) []);
  Ok (t, <[bucketIdx := seed]> st.2).

Fixpoint bucket_loop (fuel : nat) (mask : Z) (rs : list str) (buckets : list (list nat))
    (bucketIdxs : list nat) (st : TableState * list Z) : go (TableState * list Z) :=
  match bucketIdxs with
  | [] => Ok st
  | b :: bucketIdxs =>
      st ← bucket_loop_step fuel mask rs buckets st b;
      bucket_loop fuel mask rs buckets bucketIdxs st
  end.

(** [sortSlice] is the order [sort.Slice] leaves the buckets in; [fuel] bounds the passes
    over one bucket. *)
Definition Mph_Build (sortSlice : list (list nat) → list nat) (fuel : nat) (g : MphMatcherGroup)
    : go MphMatcherGroup :=
  infos ← ok_or_panic (ruleInfos g);
  let ruleCount := Z.of_nat (size infos) in
  let n0 := nextPow2 (Z.quot ruleCount 4) in
  let n1 := nextPow2 ruleCount in
  let mask0 := u32 (n0 - 1) in
  let mask1 := u32 (n1 - 1) in
  let numbered := zip (seq 1 (length (rules g) - 1)) (drop 1 (rules g)) in
  let '(buckets, vs) :=
    foldl (bucket_step infos mask0) (replicate (Z.to_nat n0) [], mvalues g) numbered in
  '(t, l0) ← bucket_loop fuel mask1 (rules g) buckets (sortSlice buckets)
               (mkTable (replicate (Z.to_nat n1) false) (replicate (Z.to_nat n1) 0) [],
                replicate (Z.to_nat n0) 0);
  Ok (mkMph (rules g) vs l0 mask0 (t_level1 t) mask1 None).

(** *** [Lookup], [Match] *)

Definition Lookup (g : MphMatcherGroup) (rollingHash : Z) (input : str) : go Z :=
  seed ← ok_or_panic (index (level0 g) (Z.land rollingHash (level0Mask g)));
  n ← ok_or_panic (index (level1 g) (Z.land (MemHash seed input) (level1Mask g)));
  rule ← ok_or_panic (index (rules g) n);
  Ok (if decide (rule = input) then n else 0).

(** [cs] is what is left of the input, last character first; [read] the suffix read. *)
Fixpoint mph_loop (g : MphMatcherGroup) (hash : Z) (read : str) (cs : str) (matches : list (list Z))
    : go (list (list Z)) :=
  match cs with
  | [] =>
      n ← Lookup g hash read;
      if decide (n ≠ 0) then vs ← ok_or_panic (index (mvalues g) n); Ok (matches ++ [vs]) else Ok matches
  | c :: cs =>
      let hash := roll hash c in
      let read := c :: read in
      if decide (c = dot) then
        n ← Lookup g hash read;
        matches ← (if decide (n ≠ 0) then vs ← ok_or_panic (index (mvalues g) n); Ok (matches ++ [vs])
                   else Ok matches);
        mph_loop g hash read cs matches
      else mph_loop g hash read cs matches
  end.

Definition Mph_Match (g : MphMatcherGroup) (input : str) : go (list Z) :=
  matches ← mph_loop g 0 [] (reverse input) []; Ok (CompositeMatchesReverse matches).

Fixpoint mph_any_loop (g : MphMatcherGroup) (hash : Z) (read : str) (cs : str) : go bool :=
  match cs with
  | [] => n ← Lookup g hash read; Ok (bool_decide (n ≠ 0))
  | c :: cs =>
      let hash := roll hash c in
      let read := c :: read in
      if decide (c = dot) then
        n ← Lookup g hash read;
        if decide (n ≠ 0) then Ok true else mph_any_loop g hash read cs
      else mph_any_loop g hash read cs
  end.

Definition Mph_MatchAny (g : MphMatcherGroup) (input : str) : go bool :=
  mph_any_loop g 0 [] (reverse input).

End strhash.

(** ** The matchers that combine the groups *)

Record MphValueMatcher := mkMphValue {
  mv_mph : option MphMatcherGroup;
  mv_ac : option ACAutomaton;
  mv_regex : option SimpleMatcherGroup
}.

Definition NewMphValueMatcher : MphValueMatcher := mkMphValue None None None.

Definition MphValue_Add (g : MphValueMatcher) (m : Matcher) (value : Z) : go MphValueMatcher :=
  match m with
  | FullMatcher p =>
      h ← Mph_AddFullMatcher (default NewMphMatcherGroup (mv_mph g)) p value;
      Ok (mkMphValue (Some h) (mv_ac g) (mv_regex g))
  | DomainMatcher p =>
      h ← Mph_AddDomainMatcher (default NewMphMatcherGroup (mv_mph g)) p value;
      Ok (mkMphValue (Some h) (mv_ac g) (mv_regex g))
  | SubstrMatcher p =>
      Ok (mkMphValue (mv_mph g) (Some (AddSubstrMatcher (default NewACAutomaton (mv_ac g)) p value)) (mv_regex g))
  | RegexMatcher _ =>
      Ok (mkMphValue (mv_mph g) (mv_ac g) (Some (Simple_AddMatcher (default [] (mv_regex g)) m value)))
  end.

Definition MphValue_Build (strhash : Z → str → Z) (sortSlice : list (list nat) → list nat) (fuel : nat)
    (g : MphValueMatcher) : go MphValueMatcher :=
  mph ← match mv_mph g with Some h => h ← Mph_Build strhash sortSlice fuel h; Ok (Some h) | None => Ok None end;
  ac ← match mv_ac g with Some a => a ← Build a; Ok (Some a) | None => Ok None end;
  Ok (mkMphValue mph ac (mv_regex g)).

Definition MphValue_Match (strhash : Z → str → Z) (MatchString : str → str → bool) (g : MphValueMatcher) (input : str)
    : go (list Z) :=
  result ← match mv_mph g with
           | Some h => matches ← Mph_Match strhash h input; Ok (append_matches [] matches) | None => Ok [] end;
  result ← match mv_ac g with
           | Some a => matches ← Match a input; Ok (append_matches result matches) | None => Ok result end;
  let result := match mv_regex g with
                | Some r => append_matches result (Simple_Match MatchString r input) | None => result end in
  Ok (CompositeMatches result).

Definition MphValue_MatchAny (strhash : Z → str → Z) (MatchString : str → str → bool) (g : MphValueMatcher) (input : str)
    : go bool :=
  b ← match mv_mph g with Some h => Mph_MatchAny strhash h input | None => Ok false end;
  if b : bool then Ok true
  else if match mv_ac g with Some a => MatchAny a input | None => false end then Ok true
  else Ok (match mv_regex g with Some r => Simple_MatchAny MatchString r input | None => false end).

(** [MphIndexMatcher]: the values are the positions, from 1. *)
Record MphIndexMatcher := mkMphIndex { mi_count : Z; mi_groups : MphValueMatcher }.
Definition NewMphIndexMatcher : MphIndexMatcher := mkMphIndex 0 NewMphValueMatcher.
Definition MphIndex_Add (g : MphIndexMatcher) (m : Matcher) : go (MphIndexMatcher * Z) :=
  let index := mi_count g +32 1 in
  h ← MphValue_Add (mi_groups g) m index; Ok (mkMphIndex index h, index).
Definition MphIndex_Build (strhash : Z → str → Z) (sortSlice : list (list nat) → list nat) (fuel : nat)
    (g : MphIndexMatcher) : go MphIndexMatcher :=
  h ← MphValue_Build strhash sortSlice fuel (mi_groups g); Ok (mkMphIndex (mi_count g) h).
Definition MphIndex_Match (strhash : Z → str → Z) (MatchString : str → str → bool) (g : MphIndexMatcher) (input : str)
    : go (list Z) := MphValue_Match strhash MatchString (mi_groups g) input.
Definition MphIndex_MatchAny (strhash : Z → str → Z) (MatchString : str → str → bool) (g : MphIndexMatcher) (input : str)
    : go bool := MphValue_MatchAny strhash MatchString (mi_groups g) input.
Definition MphIndex_Size (g : MphIndexMatcher) : Z := mi_count g.

(** All the matchers of a list, added in order. *)
Fixpoint MphValue_added (g : MphValueMatcher) (L : list (Matcher * Z)) : go MphValueMatcher :=
  match L with [] => Ok g | (m, v) :: L => g ← MphValue_Add g m v; MphValue_added g L end.

(** ** What the rules hold *)

Abbreviation entry := (str * Type_ * Z)%type.

Record infos_ok (E : list entry) (m : gmap str mphRuleInfo) : Prop := {
  io_entry s t v : (s, t, v) ∈ E → is_Some (m !! s) ∧ (t = Full ∨ t = Domain);
  io_some s i : m !! s = Some i → ∃ t v, (s, t, v) ∈ E;
  io_hash s i : m !! s = Some i → rollingHash i = RollingHash 0 s;
  io_full s i v : m !! s = Some i → (v ∈ i_full i ↔ (s, Full, v) ∈ E);
  io_domain s i v : m !! s = Some i → (v ∈ i_domain i ↔ (s, Domain, v) ∈ E);
}.

Record mph_rep (E : list entry) (rs : list str) (m : gmap str mphRuleInfo) (g : MphMatcherGroup) : Prop := {
  mr_infos : ruleInfos g = Some m;
  mr_rules : rules g = [] :: rs;
  mr_nodup : NoDup rs;
  mr_dom s : s ∈ rs ↔ is_Some (m !! s);
  mr_size : size m = length rs;
  mr_values : length (mvalues g) = S (length rs);
  mr_ok : infos_ok E m
}.

Lemma RollingHash_app suffix pattern :
  RollingHash (RollingHash 0 suffix) pattern = RollingHash 0 (pattern ++ suffix).
Proof. unfold RollingHash. by rewrite reverse_app, foldl_app. Qed.

Lemma New_rep : mph_rep [] [] ∅ NewMphMatcherGroup.
Proof.
  split; try done.
  - apply NoDup_nil_2.
  - intros s. rewrite lookup_empty, elem_of_nil. split; [done|]. by intros [].
  - by split; [intros s t v ?%elem_of_nil|..].
Qed.

Lemma add_info_ok E m s t v info :
  infos_ok E m → (t = Full ∨ t = Domain) →
  (m !! s = Some info ∨ m !! s = None ∧ info = mkInfo (RollingHash 0 s) [] []) →
  infos_ok (E ++ [(s, t, v)]) (<[s := add_info t v info]> m) ∧ rollingHash (add_info t v info) = RollingHash 0 s.
Proof.
  intros H Ht Hinfo.
  assert (Hh : rollingHash info = RollingHash 0 s).
  { destruct Hinfo as [?|[_ ->]]; [by eapply io_hash|done]. }
  assert (Hold : ∀ x, (x ∈ i_full info ↔ (s, Full, x) ∈ E) ∧ (x ∈ i_domain info ↔ (s, Domain, x) ∈ E)).
  { intros x. destruct Hinfo as [Hi|[Hn ->]]; [by split; [eapply io_full|eapply io_domain]|].
    cbn. rewrite elem_of_nil. split; (split; [done|]); intros [[? Hs] _]%(io_entry _ _ H); congruence. }
  assert (Hh' : rollingHash (add_info t v info) = RollingHash 0 s) by (by destruct t).
  split; [|done]. split.
  - intros s' t' v' [Hin|[= -> -> ->]%list_elem_of_singleton]%elem_of_app.
    + destruct (io_entry _ _ H _ _ _ Hin) as [Hs ?]. split; [|done]. by apply lookup_insert_is_Some'; right.
    + split; [|done]. rewrite lookup_insert_eq. by eexists.
  - intros s' i [[<- <-]|[_ Hi]]%lookup_insert_Some.
    + exists t, v. apply elem_of_app. right. by apply list_elem_of_singleton.
    + destruct (io_some _ _ H _ _ Hi) as (t' & v' & ?). exists t', v'. apply elem_of_app. by left.
  - intros s' i [[<- <-]|[_ Hi]]%lookup_insert_Some; [done|by eapply io_hash].
  - intros s' i x [[<- <-]|[Hne Hi]]%lookup_insert_Some; rewrite elem_of_app, list_elem_of_singleton.
    + destruct Ht as [-> | ->]; cbn [add_info i_full]; rewrite ?elem_of_app, ?list_elem_of_singleton, (proj1 (Hold x)); naive_solver.
    + rewrite (io_full _ _ H _ _ _ Hi). naive_solver.
  - intros s' i x [[<- <-]|[Hne Hi]]%lookup_insert_Some; rewrite elem_of_app, list_elem_of_singleton.
    + destruct Ht as [-> | ->]; cbn [add_info i_domain]; rewrite ?elem_of_app, ?list_elem_of_singleton, (proj2 (Hold x)); naive_solver.
    + rewrite (io_domain _ _ H _ _ _ Hi). naive_solver.
Qed.

Lemma addPattern_rep E rs m g suffix pattern t v :
  mph_rep E rs m g → (t = Full ∨ t = Domain) →
  ∃ rs' m' g', mph_addPattern g (RollingHash 0 suffix) suffix pattern t v = Ok (g', RollingHash 0 (pattern ++ suffix)) ∧
    mph_rep (E ++ [(pattern ++ suffix, t, v)]) rs' m' g'.
Proof.
  intros H Ht. unfold mph_addPattern. rewrite (mr_infos _ _ _ _ H). cbn [ok_or_panic mbind go_bind].
  set (s := pattern ++ suffix). destruct (m !! s) as [info|] eqn:Es; cbn zeta.
  - destruct (add_info_ok E m s t v info (mr_ok _ _ _ _ H) Ht (or_introl Es)) as [Hok Hh].
    exists rs, (<[s := add_info t v info]> m). eexists. rewrite Hh. split; [done|].
    split; cbn; try apply H; try done.
    + intros s'. rewrite (mr_dom _ _ _ _ H), lookup_insert_is_Some'. split; [by right|]. intros [<-|?]; [by eexists|done].
    + rewrite map_size_insert_Some by (by eexists). apply H.
  - rewrite RollingHash_app. fold s.
    destruct (add_info_ok E m s t v _ (mr_ok _ _ _ _ H) Ht (or_intror (conj Es eq_refl))) as [Hok Hh].
    exists (rs ++ [s]), (<[s := add_info t v (mkInfo (RollingHash 0 s) [] [])]> m). eexists. rewrite Hh. split; [done|].
    split; cbn; try done.
    + by rewrite (mr_rules _ _ _ _ H).
    + apply list.NoDup_app. split; [apply H|]. split; [|apply NoDup_singleton].
      intros x Hx ->%list_elem_of_singleton. apply (mr_dom _ _ _ _ H) in Hx as [? ?]. congruence.
    + intros s'. rewrite elem_of_app, list_elem_of_singleton, (mr_dom _ _ _ _ H), lookup_insert_is_Some'. naive_solver.
    + rewrite map_size_insert_None, length_app, (mr_size _ _ _ _ H) by done. cbn. lia.
    + rewrite !length_app, (mr_values _ _ _ _ H). cbn. lia.
Qed.

(** What adding a full or domain matcher enters. *)
Definition entered (m : Matcher) (v : Z) : list entry :=
  match m with
  | FullMatcher p => [(ToLower p, Full, v)]
  | DomainMatcher p => [(ToLower p, Domain, v); (dot :: ToLower p, Domain, v)]
  | _ => []
  end.

Lemma AddFull_rep E rs m g p v : mph_rep E rs m g →
  ∃ rs' m' g', Mph_AddFullMatcher g p v = Ok g' ∧ mph_rep (E ++ entered (FullMatcher p) v) rs' m' g'.
Proof.
  intros H. destruct (addPattern_rep E rs m g [] (ToLower p) Full v H) as (rs' & m' & g' & Eg & H'); [by left|].
  exists rs', m', g'. unfold Mph_AddFullMatcher. change 0 with (RollingHash 0 []). rewrite Eg.
  split; [done|]. by rewrite app_nil_r in H'.
Qed.

Lemma AddDomain_rep E rs m g p v : mph_rep E rs m g →
  ∃ rs' m' g', Mph_AddDomainMatcher g p v = Ok g' ∧ mph_rep (E ++ entered (DomainMatcher p) v) rs' m' g'.
Proof.
  intros H. destruct (addPattern_rep E rs m g [] (ToLower p) Domain v H) as (rs1 & m1 & g1 & E1 & H1); [by right|].
  destruct (addPattern_rep _ _ _ g1 (ToLower p) [dot] Domain v H1) as (rs2 & m2 & g2 & E2 & H2); [by right|].
  exists rs2, m2, g2. unfold Mph_AddDomainMatcher. cbn zeta. change 0 with (RollingHash 0 []) at 1.
  rewrite E1. cbn [mbind go_bind]. rewrite app_nil_r in *. rewrite E2. split; [done|].
  by rewrite <- app_assoc in H2.
Qed.

(** ** Sizes and slots *)

Lemma nextPow2_spec v : 0 ≤ v ≤ 2147483648 → ∃ k, 0 ≤ k ≤ 32 ∧ nextPow2 v = 2 ^ k ∧ v ≤ 2 ^ k.
Proof.
  intros Hv. unfold nextPow2. destruct (decide (v ≤ 1)).
  - exists 0. split; [lia|]. split; [done|]. lia.
  - pose proof (Z.log2_spec v ltac:(lia)) as [Hl1 Hl2]. pose proof (Z.log2_nonneg v) as Hl0.
    assert (Hl : Z.log2 v ≤ 31) by (change 31 with (Z.log2 2147483648); apply Z.log2_le_mono; lia).
    exists (Z.log2 v + 1). split; [lia|]. split; [|unfold Z.succ in Hl2; lia].
    assert (Hs : Z.shiftr (2 ^ 64 - 1) (LeadingZeros v) = 2 ^ (Z.log2 v + 1) - 1).
    { rewrite Z.shiftr_div_pow2 by (unfold LeadingZeros; lia). symmetry.
      apply Z.div_unique with (2 ^ LeadingZeros v - 1).
      - left. pose proof (Z.pow_pos_nonneg 2 (LeadingZeros v) ltac:(lia) ltac:(unfold LeadingZeros; lia)). lia.
      - replace 64 with (LeadingZeros v + (Z.log2 v + 1)) at 1 by (unfold LeadingZeros; lia).
        rewrite Z.pow_add_r by (unfold LeadingZeros; lia). lia. }
    rewrite Hs. unfold u64. replace (2 ^ (Z.log2 v + 1) - 1 + 1) with (2 ^ (Z.log2 v + 1)) by lia.
    apply Z.mod_small. split; [apply Z.pow_nonneg; lia|].
    apply Z.le_lt_trans with (2 ^ 32); [apply Z.pow_le_mono_r; lia|done].
Qed.

Lemma mask_slot k h : 0 ≤ k ≤ 32 → 0 ≤ Z.land h (u32 (2 ^ k - 1)) < 2 ^ k.
Proof.
  intros Hk. assert (E : u32 (2 ^ k - 1) = Z.ones k).
  { rewrite Z.ones_equiv, <- Z.sub_1_r. apply u32_small. unfold is_u32.
    pose proof (Z.pow_pos_nonneg 2 k ltac:(lia) ltac:(lia)).
    assert (2 ^ k ≤ 2 ^ 32) by (apply Z.pow_le_mono_r; lia). change 4294967296 with (2 ^ 32). lia. }
  rewrite E, Z.land_ones by lia. apply Z.mod_pos_bound, Z.pow_pos_nonneg; lia.
Qed.

(** ** Placing buckets *)

Definition set_all {A} (l : list A) (es : list (nat * A)) : list A := foldl (λ l e, <[e.1 := e.2]> l) l es.

Lemma set_all_cons {A} (l : list A) h x es : set_all l ((h, x) :: es) = set_all (<[h := x]> l) es.
Proof. done. Qed.

Lemma set_all_length {A} (es : list (nat * A)) : ∀ l, length (set_all l es) = length l.
Proof. induction es as [|[h x] es IH]; intros l; [done|]. by rewrite set_all_cons, IH, length_insert. Qed.

Lemma set_all_other {A} (es : list (nat * A)) j : ∀ l, j ∉ es.*1 → set_all l es !! j = l !! j.
Proof.
  induction es as [|[h x] es IH]; intros l Hj; [done|]. cbn in Hj. rewrite set_all_cons.
  apply not_elem_of_cons in Hj as [? ?]. by rewrite IH, list_lookup_insert_ne by done.
Qed.

Lemma set_all_in {A} (es : list (nat * A)) h x : ∀ l,
  NoDup es.*1 → (h, x) ∈ es → (h < length l)%nat → set_all l es !! h = Some x.
Proof.
  induction es as [|[h' x'] es IH]; intros l Hnd Hin Hl; [by apply elem_of_nil in Hin|].
  rewrite set_all_cons. cbn in Hnd. apply list.NoDup_cons in Hnd as [Hnot Hnd].
  apply elem_of_cons in Hin as [[= -> ->]|Hin].
  - rewrite set_all_other by done. by apply list_lookup_insert_eq.
  - apply IH; [done..|]. by rewrite length_insert.
Qed.

Lemma set_all_same {A} (l : list A) (y : A) hs j : j ∈ hs → (j < length l)%nat →
  foldl (λ (l : list A) (h : nat), <[h := y]> l) l hs !! j = Some y.
Proof.
  revert l. induction hs as [|h hs IH] using rev_ind; intros l Hj Hl; [by apply elem_of_nil in Hj|].
  rewrite foldl_app. cbn. destruct (decide (h = j)) as [->|Hne].
  - apply list_lookup_insert_eq.
    assert (Hlen : ∀ k : list A, length (foldl (λ (l : list A) (h : nat), <[h := y]> l) k hs) = length k).
    { clear. induction hs as [|h hs IH]; intros k; [done|]. cbn. by rewrite IH, length_insert. }
    by rewrite Hlen.
  - rewrite list_lookup_insert_ne by done. apply IH; [|done].
    apply elem_of_app in Hj as [?|?%list_elem_of_singleton]; [done|congruence].
Qed.

(** Taking back what was set. *)
Lemma set_all_back {A} (l : list A) (y : A) es :
  (∀ h, h ∈ es.*1 → l !! h = Some y) →
  foldl (λ (l : list A) (h : nat), <[h := y]> l) (set_all l es) es.*1 = l.
Proof.
  intros H. apply list_eq. intros j. destruct (decide (j ∈ es.*1)) as [Hj|Hj].
  - rewrite set_all_same, H; [done|done|done|]. rewrite set_all_length. eapply lookup_lt_Some, H, Hj.
  - rewrite <- (set_all_other es j l Hj). generalize (set_all l es). revert Hj. generalize es.*1. clear.
    intros hs. induction hs as [|h hs IH]; intros Hj l; [done|]. cbn.
    apply not_elem_of_cons in Hj as [? ?]. by rewrite IH, list_lookup_insert_ne by done.
Qed.

Section placing.
Context (strhash : Z → str → Z) (mask : Z) (size1 : nat).
Hypothesis Hmask : ∀ h, (Z.to_nat (Z.land h mask) < size1)%nat.

Definition slot (seed : Z) (rule : str) : nat := Z.to_nat (Z.land (MemHash strhash seed rule) mask).
Definition marks (es : list (nat * Z)) : list (nat * bool) := (λ e, (e.1, true)) <$> es.
Definition placement (seed : Z) (bucket : list (nat * str)) : list (nat * Z) :=
  (λ x, (slot seed x.2, Z.of_nat x.1)) <$> bucket.

(** Entries that collide neither with each other nor with the table. *)
Definition fits (occ : list bool) (es : list (nat * Z)) : Prop :=
  NoDup es.*1 ∧ Forall (λ h, occ !! h = Some false) es.*1.
#[local] Instance fits_dec occ es : Decision (fits occ es).
Proof. unfold fits. apply _. Defined.

Lemma marks_fst es : (marks es).*1 = es.*1.
Proof. unfold marks. by rewrite <- list_fmap_compose. Qed.

Lemma set_all_snoc {A} (l : list A) es h x : set_all l (es ++ [(h, x)]) = <[h := x]> (set_all l es).
Proof. unfold set_all. by rewrite foldl_app. Qed.

Section table.
Context (occ : list bool) (l1 : list Z).
Hypothesis Hocc : length occ = size1.
Hypothesis Hclean : ∀ h, occ !! h = Some false → l1 !! h = Some 0.

Lemma occupied_fits es h : fits occ es → (h < size1)%nat →
  (set_all occ (marks es) !!! h = false ↔ (h ∉ es.*1) ∧ occ !! h = Some false).
Proof.
  intros [Hnd Hf] Hh. destruct (decide (h ∈ es.*1)) as [Hin|Hout].
  - assert (E : set_all occ (marks es) !! h = Some true).
    { apply set_all_in; [by rewrite marks_fst| |by rewrite Hocc].
      unfold marks. apply list_elem_of_fmap in Hin as (e & -> & He). apply list_elem_of_fmap. by exists e. }
    rewrite (list_lookup_total_correct _ _ _ E). naive_solver.
  - rewrite list_lookup_total_alt, set_all_other by (by rewrite marks_fst).
    destruct (lookup_lt_is_Some_2 occ h) as [b Hb]; [by rewrite Hocc|]. rewrite Hb. cbn. naive_solver.
Qed.

Lemma fits_snoc es h x : fits occ es → h ∉ es.*1 → occ !! h = Some false → fits occ (es ++ [(h, x)]).
Proof.
  intros [Hnd Hf] Hh Ho. split; rewrite fmap_app.
  - apply list.NoDup_app. split; [done|]. split; [|apply NoDup_singleton].
    by intros y Hy ->%list_elem_of_singleton.
  - apply Forall_app. split; [done|]. by apply Forall_singleton.
Qed.

Lemma place_spec seed bucket : ∀ es, fits occ es →
  place strhash mask seed bucket (mkTable (set_all occ (marks es)) (set_all l1 es) es.*1) =
  let es' := es ++ placement seed bucket in
  if decide (fits occ es') then (true, mkTable (set_all occ (marks es')) (set_all l1 es') es'.*1)
  else (false, mkTable occ l1 []).
Proof.
  induction bucket as [|[i rule] bucket IH]; intros es Hes; cbn [place placement fmap list_fmap fst snd] in *.
  { cbn zeta. rewrite app_nil_r. by rewrite decide_True. }
  fold (slot seed rule). cbn [t_occupied t_level1 t_hashed]. pose proof (Hmask (MemHash strhash seed rule)) as Hs.
  fold (slot seed rule) in Hs. pose proof (occupied_fits es _ Hes Hs) as Hfree.
  destruct (set_all occ (marks es) !!! slot seed rule) eqn:Eo.
  - rewrite decide_False.
    + do 2 f_equal.
      * rewrite <- (marks_fst es). apply set_all_back. rewrite marks_fst. apply list.Forall_forall, Hes.
      * apply set_all_back. intros h Hh. apply Hclean. by apply (proj1 (list.Forall_forall _ _) (proj2 Hes)).
    + intros [Hnd Hf]. rewrite fmap_app in Hnd, Hf. cbn [fmap list_fmap fst] in Hnd, Hf.
      apply list.NoDup_app in Hnd as (_ & Hd & _). apply Forall_app in Hf as [_ Hf].
      apply Forall_cons_1 in Hf as [Hf _].
      assert (true = false) by (apply Hfree; split; [|done]; intros Hin; apply (Hd _ Hin); left). done.
  - destruct (proj1 Hfree eq_refl) as [Hout Ho].
    specialize (IH (es ++ [(slot seed rule, Z.of_nat i)]) (fits_snoc _ _ _ Hes Hout Ho)).
    unfold marks in IH at 1. rewrite fmap_app in IH. cbn [fmap list_fmap fst] in IH. rewrite !set_all_snoc in IH.
    rewrite fmap_app in IH. cbn [fmap list_fmap fst] in IH. unfold marks at 1. rewrite IH.
    cbn zeta. unfold placement. by rewrite <- !app_assoc.
Qed.

Lemma place_fresh seed bucket :
  place strhash mask seed bucket (mkTable occ l1 []) =
  let es := placement seed bucket in
  if decide (fits occ es) then (true, mkTable (set_all occ (marks es)) (set_all l1 es) es.*1)
  else (false, mkTable occ l1 []).
Proof. apply (place_spec seed bucket []). split; [apply NoDup_nil_2|apply Forall_nil_2]. Qed.

(** The first seed that fits. *)
Definition first_seed (bucket : list (nat * str)) (seed : Z) : Prop :=
  0 ≤ seed < 4294967296 ∧ fits occ (placement seed bucket) ∧ ∀ s, 0 ≤ s < seed → ¬ fits occ (placement s bucket).

(** The search stops at it, or tries every seed within the fuel in vain; [k] counts the passes. *)
Lemma seed_loop_spec bucket fuel : ∀ k, 0 ≤ k →
  (∀ s, 0 ≤ s < k → s < 4294967296 → ¬ fits occ (placement s bucket)) → bucket ≠ [] →
  (∃ seed, first_seed bucket seed ∧ seed < k + Z.of_nat fuel ∧
     let es := placement seed bucket in
     seed_loop strhash fuel mask (u32 k) bucket (mkTable occ l1 []) =
       Ok (seed, mkTable (set_all occ (marks es)) (set_all l1 es) es.*1)) ∨
  ((∀ s, 0 ≤ s < k + Z.of_nat fuel → s < 4294967296 → ¬ fits occ (placement s bucket)) ∧
   seed_loop strhash fuel mask (u32 k) bucket (mkTable occ l1 []) = Panic).
Proof.
  intros k Hk Hno Hne. destruct bucket as [|x bucket]; [done|]. revert k Hk Hno.
  induction fuel as [|fuel IH]; intros k Hk Hno.
  { right. rewrite Z.add_0_r. done. }
  cbn [seed_loop t_hashed length]. rewrite decide_False by done. rewrite place_fresh. cbn zeta.
  pose proof (u32_range k) as Hu. unfold is_u32 in Hu.
  destruct (decide (fits occ (placement (u32 k) (x :: bucket)))) as [Hf|Hf].
  - assert (Hsmall : k < 4294967296).
    { destruct (decide (k < 4294967296)) as [|Hbig]; [done|]. by destruct (Hno (u32 k)); [lia|lia|]. }
    rewrite (u32_small k) in * by (unfold is_u32; lia). left. exists k. split; [split; [lia|]; split; [done|]|].
    + intros s Hs. apply Hno; lia.
    + split; [lia|].
      assert (Hlen : length (placement k (x :: bucket)).*1 = length (x :: bucket))
        by (unfold placement; by rewrite !length_fmap).
      destruct fuel; cbn [seed_loop t_hashed]; by rewrite decide_True.
  - assert (E : u32 (u32 k + 1) = u32 (k + 1)) by (unfold u32; by rewrite Z.add_mod_idemp_l). rewrite E.
    replace (k + Z.of_nat (S fuel)) with (k + 1 + Z.of_nat fuel) by lia. apply IH; [lia|].
    intros s Hs Hlt. destruct (decide (s = k)) as [->|]; [by rewrite u32_small in Hf by (unfold is_u32; lia)|apply Hno; lia].
Qed.

End table.

(** ** The loop over the buckets *)

Section buckets.
Context (rs : list str) (buckets : list (list nat)) (home : nat → nat) (fuel : nat).
Abbreviation rule i := (([] :: rs) !!! i).
Abbreviation known i := (1 ≤ i ≤ length rs)%nat.
Hypothesis Hrs : NoDup rs.
Hypothesis Hbucket : ∀ b i, i ∈ buckets !!! b ↔ known i ∧ home i = b.
Hypothesis Hbnodup : ∀ b, NoDup (buckets !!! b).

(** Every bucket, in the order in which they are placed, has a seed that sends its rules to
    distinct slots left free by the buckets before it, among the seeds within the fuel. *)
Fixpoint seeds_found (bs : list nat) (occ : list bool) : Prop :=
  match bs with
  | [] => True
  | b :: bs =>
      let bucket := (λ i, (i, rule i)) <$> (buckets !!! b) in
      ∃ seed, first_seed occ bucket seed ∧ (seed < Z.of_nat fuel ∨ bucket = []) ∧
        seeds_found bs (set_all occ (marks (placement seed bucket)))
  end.

Lemma rule_lookup i : known i → rs !! (i - 1)%nat = Some (rule i).
Proof.
  intros Hi. destruct i as [|i]; [lia|]. replace (S i - 1)%nat with i by lia.
  destruct (lookup_lt_is_Some_2 rs i) as [s Hs]; [lia|]. rewrite Hs. f_equal. symmetry.
  apply list_lookup_total_correct. done.
Qed.

Lemma rule_inj i j : known i → known j → rule i = rule j → i = j.
Proof.
  intros Hi Hj E. apply rule_lookup in Hi as Hi', Hj as Hj'. rewrite E in Hi'.
  pose proof (NoDup_lookup _ _ _ _ Hrs Hi' Hj'). lia.
Qed.

Record table_ok (D : list nat) (occ : list bool) (l1 l0 : list Z) : Prop := {
  to_occ : length occ = size1;
  to_l1 : length l1 = size1;
  to_l0 : length l0 = length buckets;
  to_clean h : occ !! h = Some false → l1 !! h = Some 0;
  to_range h n : l1 !! h = Some n → 0 ≤ n ≤ len rs;
  to_found b i : b ∈ D → i ∈ buckets !!! b →
    occ !! slot (l0 !!! b) (rule i) = Some true ∧ l1 !! slot (l0 !!! b) (rule i) = Some (Z.of_nat i)
}.

Lemma table_ok_step D occ l1 l0 b seed :
  let es := placement seed ((λ i, (i, rule i)) <$> (buckets !!! b)) in
  table_ok D occ l1 l0 → b ∉ D → (b < length buckets)%nat → fits occ es →
  table_ok (b :: D) (set_all occ (marks es)) (set_all l1 es) (<[b := seed]> l0).
Proof.
  intros es H Hb Hlt [Hnd Hf].
  assert (Hes : ∀ h x, (h, x) ∈ es ↔ ∃ i, i ∈ buckets !!! b ∧ h = slot seed (rule i) ∧ x = Z.of_nat i).
  { intros h x. unfold es, placement. rewrite list_elem_of_fmap. setoid_rewrite list_elem_of_fmap. naive_solver. }
  assert (Hcase : ∀ h, (h ∉ es.*1) ∨ ∃ x, (h, x) ∈ es ∧ occ !! h = Some false).
  { intros h. destruct (decide (h ∈ es.*1)) as [Hin|]; [right|by left].
    pose proof (proj1 (list.Forall_forall _ _) Hf h Hin). apply list_elem_of_fmap in Hin as ([h' x] & -> & Hx). by exists x. }
  assert (Hset : ∀ h x, (h, x) ∈ es → set_all occ (marks es) !! h = Some true ∧ set_all l1 es !! h = Some x).
  { intros h x Hx. assert (Hh : (h < size1)%nat) by (apply Hes in Hx as (i & _ & -> & _); apply Hmask).
    split; apply set_all_in; rewrite ?marks_fst, ?(to_occ _ _ _ _ H), ?(to_l1 _ _ _ _ H); try done.
    unfold marks. apply list_elem_of_fmap. by exists (h, x). }
  assert (Hkeep : ∀ h, h ∉ es.*1 → set_all occ (marks es) !! h = occ !! h ∧ set_all l1 es !! h = l1 !! h).
  { intros h Hh. split; apply set_all_other; by rewrite ?marks_fst. }
  split.
  - rewrite set_all_length. apply H.
  - rewrite set_all_length. apply H.
  - rewrite length_insert. apply H.
  - intros h. destruct (Hcase h) as [Hh|(x & Hx & _)].
    + destruct (Hkeep h Hh) as [-> ->]. apply H.
    + destruct (Hset h x Hx) as [-> _]. done.
  - intros h n. destruct (Hcase h) as [Hh|(x & Hx & _)].
    + destruct (Hkeep h Hh) as [_ ->]. apply H.
    + destruct (Hset h x Hx) as [_ ->]. intros [= <-]. apply Hes in Hx as (i & [Hi _]%Hbucket & _ & ->).
      unfold len. lia.
  - intros b' i Hb' Hi. destruct (decide (b' = b)) as [->|Hne].
    + rewrite list_lookup_total_insert_eq by (by rewrite (to_l0 _ _ _ _ H)).
      apply Hset, Hes. by exists i.
    + rewrite list_lookup_total_insert_ne by done. apply elem_of_cons in Hb' as [?|Hb']; [done|].
      destruct (to_found _ _ _ _ H b' i Hb' Hi) as [Ho Hl].
      destruct (Hcase (slot (l0 !!! b') (rule i))) as [Hh|(x & _ & Hx)]; [|congruence].
      by destruct (Hkeep _ Hh) as [-> ->].
Qed.

(** One bucket: the first seed, or no seed within the fuel. *)
Lemma bucket_step_cases D occ l1 l0 hs b : table_ok D occ l1 l0 →
  let bucket := (λ i, (i, rule i)) <$> (buckets !!! b) in
  (∃ seed, let es := placement seed bucket in
     first_seed occ bucket seed ∧ (seed < Z.of_nat fuel ∨ bucket = []) ∧
     bucket_loop_step strhash fuel mask ([] :: rs) buckets (mkTable occ l1 hs, l0) b =
       Ok (mkTable (set_all occ (marks es)) (set_all l1 es) es.*1, <[b := seed]> l0)) ∨
  ((∀ seed, first_seed occ bucket seed → Z.of_nat fuel ≤ seed ∧ bucket ≠ []) ∧
   bucket_loop_step strhash fuel mask ([] :: rs) buckets (mkTable occ l1 hs, l0) b = Panic).
Proof.
  intros H bucket. unfold bucket_loop_step. cbn [fst snd t_occupied t_level1]. fold bucket.
  destruct (decide (bucket = [])) as [->|Hne].
  - left. exists 0. cbn zeta. split; [split; [lia|]; split; [split; [apply NoDup_nil_2|apply Forall_nil_2]|lia]|].
    split; [by right|]. by destruct fuel.
  - destruct (seed_loop_spec occ l1 (to_occ _ _ _ _ H) (to_clean _ _ _ _ H) bucket fuel 0)
      as [(seed & Hs & Hlt & E)|[Hno E]]; [lia|lia|done| |]; change (u32 0) with 0 in E; rewrite E.
    + left. exists seed. split; [done|]. split; [left; lia|done].
    + right. split; [|done]. intros seed (Hr & Hfit & _). split; [|done].
      destruct (decide (Z.of_nat fuel ≤ seed)) as [|Hlt]; [done|]. by destruct (Hno seed); [lia|lia|].
Qed.

Lemma first_seed_unique occ bucket s s' : first_seed occ bucket s → first_seed occ bucket s' → s = s'.
Proof.
  intros (H1 & F1 & N1) (H2 & F2 & N2). destruct (Z.lt_trichotomy s s') as [Hl|[Hl|Hl]]; [|done|].
  - destruct (N2 s); [lia|done].
  - destruct (N1 s'); [lia|done].
Qed.

Lemma bucket_loop_cases bs : ∀ D occ l1 l0 hs,
  table_ok D occ l1 l0 → NoDup (D ++ bs) → Forall (λ b, (b < length buckets)%nat) bs →
  (seeds_found bs occ ∧ ∃ t l0', bucket_loop strhash fuel mask ([] :: rs) buckets bs (mkTable occ l1 hs, l0) = Ok (t, l0') ∧
     table_ok (reverse bs ++ D) (t_occupied t) (t_level1 t) l0') ∨
  (¬ seeds_found bs occ ∧ bucket_loop strhash fuel mask ([] :: rs) buckets bs (mkTable occ l1 hs, l0) = Panic).
Proof.
  induction bs as [|b bs IH]; intros D occ l1 l0 hs H Hnd Hbs.
  { left. split; [done|]. by eexists _, _. }
  apply Forall_cons_1 in Hbs as [Hb Hbs].
  assert (HbD : b ∉ D).
  { apply list.NoDup_app in Hnd as (_ & Hd & _). intros Hin. apply (Hd b Hin). left. }
  cbn [bucket_loop seeds_found].
  destruct (bucket_step_cases D occ l1 l0 hs b H) as [(seed & Hs & Hlt & E)|[Hno E]]; rewrite E; unfold mbind, go_bind.
  - destruct (IH (b :: D) _ _ (<[b := seed]> l0) (placement seed ((λ i, (i, rule i)) <$> (buckets !!! b))).*1
                (table_ok_step _ _ _ _ b seed H HbD Hb (proj1 (proj2 Hs)))) as [(Hf & t & l0' & E' & H')|[Hf E']].
    + by rewrite <- Permutation_middle in Hnd.
    + done.
    + left. split; [by exists seed|]. exists t, l0'. rewrite reverse_cons, <- app_assoc. done.
    + right. split; [|done]. intros (seed' & Hs' & _ & Hf'). by rewrite (first_seed_unique _ _ _ _ Hs' Hs) in Hf'.
  - right. split; [|done]. intros (seed & Hs & Hlt & _). destruct (Hno seed Hs) as [? ?]. destruct Hlt; [lia|done].
Qed.

End buckets.
End placing.

(** ** The buckets *)

Section bucketing.
Context (infos : gmap str mphRuleInfo) (mask0 : Z) (size0 : nat).
Hypothesis Hmask0 : ∀ h, (Z.to_nat (Z.land h mask0) < size0)%nat.

Abbreviation info s := (default (mkInfo 0 [] []) (infos !! s)).
Definition bucket_of (s : str) : nat := Z.to_nat (Z.land (rollingHash (info s)) mask0).

Lemma bucket_fold xs : ∀ bk vs, length bk = size0 →
  (∀ b, (foldl (bucket_step infos mask0) (bk, vs) xs).1 !!! b
        = bk !!! b ++ (filter (λ x, bucket_of x.2 = b) xs).*1) ∧
  length (foldl (bucket_step infos mask0) (bk, vs) xs).1 = size0 ∧
  (foldl (bucket_step infos mask0) (bk, vs) xs).2
    = set_all vs ((λ x, (x.1, i_full (info x.2) ++ i_domain (info x.2))) <$> xs).
Proof.
  induction xs as [|[i s] xs IH]; intros bk vs Hl; cbn [foldl].
  { split; [|done]. intros b. cbn. by rewrite app_nil_r. }
  cbn [bucket_step fst snd fmap list_fmap]. fold (bucket_of s). rewrite set_all_cons.
  pose proof (Hmask0 (rollingHash (info s))) as Hb. fold (bucket_of s) in Hb.
  destruct (IH (<[bucket_of s := (bk !!! bucket_of s) ++ [i]]> bk)
              (<[i := i_full (info s) ++ i_domain (info s)]> vs)) as (IH1 & IH2 & IH3);
    [by rewrite length_insert|].
  split; [|done]. intros b. rewrite IH1. destruct (decide (bucket_of s = b)) as [<-|Hne].
  - rewrite list_lookup_total_insert_eq by (by rewrite Hl).
    rewrite (filter_cons_True _ (i, s)) by done. by rewrite <- app_assoc.
  - rewrite list_lookup_total_insert_ne by done. by rewrite (filter_cons_False _ (i, s)).
Qed.

Lemma elem_of_numbered (rs : list str) i s :
  (i, s) ∈ zip (seq 1 (length rs)) rs ↔ (1 ≤ i)%nat ∧ rs !! (i - 1)%nat = Some s.
Proof.
  rewrite list_elem_of_lookup. split.
  - intros [k Hk]. apply lookup_zip_with_Some in Hk as (x & y & [= -> ->] & Hx & Hy).
    apply lookup_seq in Hx as [-> Hlt]. split; [lia|]. by replace (1 + k - 1)%nat with k by lia.
  - intros [Hi Hs]. exists (i - 1)%nat. apply lookup_zip_with_Some. exists i, s. split; [done|].
    split; [|done]. apply lookup_seq. apply lookup_lt_Some in Hs. lia.
Qed.

Lemma numbered_fst (rs : list str) : (zip (seq 1 (length rs)) rs).*1 = seq 1 (length rs).
Proof. apply fst_zip. by rewrite length_seq. Qed.

End bucketing.

(** ** The table that [Build] makes *)

(** What a lookup answers for every string: the values entered for it, or 0. *)
Definition lookup_ok (strhash : Z → str → Z) (E : list entry) (g : MphMatcherGroup) : Prop := ∀ s,
  (∃ n vs, Lookup strhash g (RollingHash 0 s) s = Ok n ∧ n ≠ 0 ∧ index (mvalues g) n = Some vs ∧
     (∃ v, (s, Full, v) ∈ E ∨ (s, Domain, v) ∈ E) ∧ ∀ v, v ∈ vs ↔ (s, Full, v) ∈ E ∨ (s, Domain, v) ∈ E) ∨
  (Lookup strhash g (RollingHash 0 s) s = Ok 0 ∧ ∀ t v, (s, t, v) ∉ E).

(** The buckets [Build] makes, and the condition on the runtime's hash under which its search
    for seeds ends: every bucket in turn finds one within the fuel. *)
Definition Mph_buckets (g : MphMatcherGroup) : list (list nat) :=
  let infos := default ∅ (ruleInfos g) in
  let n0 := nextPow2 (Z.quot (Z.of_nat (size infos)) 4) in
  (foldl (bucket_step infos (u32 (n0 - 1))) (replicate (Z.to_nat n0) [], mvalues g)
     (zip (seq 1 (length (rules g) - 1)) (drop 1 (rules g)))).1.

Definition seeds_for (strhash : Z → str → Z) (sortSlice : list (list nat) → list nat) (fuel : nat)
    (g : MphMatcherGroup) : Prop :=
  let n1 := nextPow2 (Z.of_nat (size (default ∅ (ruleInfos g)))) in
  seeds_found strhash (u32 (n1 - 1)) (drop 1 (rules g)) (Mph_buckets g) fuel
    (sortSlice (Mph_buckets g)) (replicate (Z.to_nat n1) false).

Section built.
Context (strhash : Z → str → Z) (sortSlice : list (list nat) → list nat) (fuel : nat).
Hypothesis Hsort : ∀ bs, sortSlice bs ≡ₚ seq 0 (length bs).
Context (E : list entry) (rs : list str) (m : gmap str mphRuleInfo) (g : MphMatcherGroup).
Hypothesis Hrep : mph_rep E rs m g.
Hypothesis Hlen : len rs ≤ 2147483648.

Abbreviation size1 := (Z.to_nat (nextPow2 (len rs))).
Abbreviation mask1 := (u32 (nextPow2 (len rs) - 1)).
Abbreviation size0 := (Z.to_nat (nextPow2 (Z.quot (len rs) 4))).
Abbreviation mask0 := (u32 (nextPow2 (Z.quot (len rs) 4) - 1)).

Lemma mask1_slot h : (Z.to_nat (Z.land h mask1) < size1)%nat.
Proof.
  pose proof (len_nonneg rs). destruct (nextPow2_spec (len rs)) as (k & Hk & -> & _); [lia|].
  pose proof (mask_slot k h Hk). lia.
Qed.

Lemma mask0_slot h : (Z.to_nat (Z.land h mask0) < size0)%nat.
Proof.
  pose proof (len_nonneg rs). destruct (nextPow2_spec (Z.quot (len rs) 4)) as (k & Hk & -> & _).
  { split; [apply Z.quot_pos; lia|]. apply Z.quot_le_upper_bound; lia. }
  pose proof (mask_slot k h Hk). lia.
Qed.

Lemma index_to_nat {A} (l : list A) i : 0 ≤ i → index l i = l !! Z.to_nat i.
Proof. intros H. unfold index. by rewrite decide_True. Qed.

Definition home (i : nat) : nat := bucket_of m mask0 (([] :: rs) !!! i).

Lemma replicate_total {A} n b : replicate n (@nil A) !!! b = [].
Proof.
  destruct (decide (b < n)%nat); [by apply lookup_total_replicate_2|].
  rewrite list_lookup_total_alt, lookup_ge_None_2; [done|]. rewrite length_replicate. lia.
Qed.

Lemma bucket_elem b i :
  i ∈ (filter (λ x, bucket_of m mask0 x.2 = b) (zip (seq 1 (length rs)) rs)).*1 ↔
  (1 ≤ i ≤ length rs)%nat ∧ home i = b.
Proof.
  rewrite list_elem_of_fmap. split.
  - intros ([j s] & -> & [Hh [Hj Hs]%elem_of_numbered]%list_elem_of_filter). cbn [fst snd] in *.
    pose proof (lookup_lt_Some _ _ _ Hs). assert (Hk : (1 ≤ j ≤ length rs)%nat) by lia. split; [done|].
    pose proof (rule_lookup rs j Hk) as Hr. unfold home. rewrite Hs in Hr. by injection Hr as <-.
  - intros [Hi Hh]. exists (i, ([] :: rs) !!! i). split; [done|]. apply list_elem_of_filter. split; [done|].
    apply elem_of_numbered. split; [lia|]. by apply rule_lookup.
Qed.

Lemma bucket_nodup b :
  NoDup (filter (λ x, bucket_of m mask0 x.2 = b) (zip (seq 1 (length rs)) rs)).*1.
Proof.
  apply NoDup_fmap_2_strong.
  - intros [i s] [j t] [_ [_ Hi]%elem_of_numbered]%list_elem_of_filter [_ [_ Hj]%elem_of_numbered]%list_elem_of_filter E'.
    cbn in E'. subst j. congruence.
  - apply list.NoDup_filter. apply (NoDup_fmap_1 fst). rewrite numbered_fst. apply NoDup_seq.
Qed.

Lemma empty_table buckets l0 : length l0 = length buckets →
  table_ok strhash mask1 size1 rs buckets [] (replicate size1 false) (replicate size1 0) l0.
Proof.
  intros Hl. split.
  - apply length_replicate.
  - apply length_replicate.
  - done.
  - intros h Hh. apply lookup_replicate in Hh as [_ Hh]. by apply lookup_replicate.
  - intros h n Hh. apply lookup_replicate in Hh as [-> _]. pose proof (len_nonneg rs). lia.
  - by intros b i ?%elem_of_nil.
Qed.

Lemma Build_cases : ∃ buckets vs, buckets = Mph_buckets g ∧
  length buckets = size0 ∧
  (∀ b i, i ∈ buckets !!! b ↔ (1 ≤ i ≤ length rs)%nat ∧ home i = b) ∧
  vs = set_all (mvalues g) ((λ x, (x.1, i_full (default (mkInfo 0 [] []) (m !! x.2)) ++ i_domain (default (mkInfo 0 [] []) (m !! x.2))))
                   <$> zip (seq 1 (length rs)) rs) ∧
  ((seeds_for strhash sortSlice fuel g ∧ ∃ t l0,
      Mph_Build strhash sortSlice fuel g = Ok (mkMph ([] :: rs) vs l0 mask0 (t_level1 t) mask1 None) ∧
      table_ok strhash mask1 size1 rs buckets (reverse (sortSlice buckets)) (t_occupied t) (t_level1 t) l0) ∨
   (¬ seeds_for strhash sortSlice fuel g ∧ Mph_Build strhash sortSlice fuel g = Panic)).
Proof.
  unfold Mph_Build, seeds_for, Mph_buckets. rewrite (mr_infos _ _ _ _ Hrep). cbn [ok_or_panic from_option id]. unfold mbind, go_bind.
  rewrite (mr_rules _ _ _ _ Hrep), (mr_size _ _ _ _ Hrep). cbn [length drop]. rewrite Nat.sub_1_r. cbn [pred].
  fold (len rs). rewrite drop_0.
  destruct (bucket_fold m mask0 size0 mask0_slot (zip (seq 1 (length rs)) rs) (replicate size0 []) (mvalues g))
    as (Hbk & Hbl & Hvs); [by rewrite length_replicate|].
  destruct (foldl _ _ _) as [buckets vs]. cbn [fst snd] in *. setoid_rewrite replicate_total in Hbk. cbn [app] in Hbk.
  assert (Hb : ∀ b i, i ∈ buckets !!! b ↔ (1 ≤ i ≤ length rs)%nat ∧ home i = b).
  { intros b i. rewrite Hbk. apply bucket_elem. }
  exists buckets, vs. split; [done|]. split; [done|]. split; [done|]. split; [done|].
  destruct (bucket_loop_cases strhash mask1 size1 mask1_slot rs buckets home fuel Hb)
    with (bs := sortSlice buckets) (D := @nil nat) (occ := replicate size1 false)
         (l1 := replicate size1 0) (l0 := replicate size0 0) (hs := @nil nat) as [(Hf & t & l0 & Et & Ht)|[Hf Et]].
  - apply empty_table. by rewrite length_replicate.
  - cbn [app]. rewrite Hsort. apply NoDup_seq.
  - rewrite Hsort. apply list.Forall_forall. intros b Hb'%elem_of_seq. lia.
  - left. split; [done|]. exists t, l0. rewrite app_nil_r in Ht. rewrite Et. done.
  - right. by rewrite Et.
Qed.

Lemma land_u32_nonneg h z : 0 ≤ Z.land h (u32 z).
Proof. apply Z.land_nonneg. right. apply u32_range. Qed.

Lemma index_slot {A} (l : list A) h z n : length l = n → (Z.to_nat (Z.land h (u32 z)) < n)%nat →
  ∃ x, index l (Z.land h (u32 z)) = Some x ∧ l !! Z.to_nat (Z.land h (u32 z)) = Some x.
Proof.
  intros Hl Hn. rewrite index_to_nat by apply land_u32_nonneg.
  destruct (lookup_lt_is_Some_2 l (Z.to_nat (Z.land h (u32 z)))) as [x Hx]; [lia|]. by exists x.
Qed.

Lemma lookup_present buckets t l0 vs i s :
  table_ok strhash mask1 size1 rs buckets (reverse (sortSlice buckets)) (t_occupied t) (t_level1 t) l0 →
  length buckets = size0 → (∀ b i, i ∈ buckets !!! b ↔ (1 ≤ i ≤ length rs)%nat ∧ home i = b) →
  rs !! i = Some s →
  Lookup strhash (mkMph ([] :: rs) vs l0 mask0 (t_level1 t) mask1 None) (RollingHash 0 s) s = Ok (Z.of_nat (S i)).
Proof.
  intros Ht Hbl Hb Hs. pose proof (lookup_lt_Some _ _ _ Hs) as Hi. unfold Lookup.
  cbn [level0 level0Mask level1 level1Mask rules]. unfold mbind, go_bind.
  destruct (proj1 (mr_dom _ _ _ _ Hrep s) (list_elem_of_lookup_2 _ _ _ Hs)) as [info Hinfo].
  assert (Hhome : home (S i) = Z.to_nat (Z.land (RollingHash 0 s) mask0)).
  { unfold home. change (([] :: rs) !!! S i) with (rs !!! i). rewrite (list_lookup_total_correct _ _ _ Hs).
    unfold bucket_of. rewrite Hinfo. cbn [from_option id].
    by rewrite (io_hash _ _ (mr_ok _ _ _ _ Hrep) _ _ Hinfo). }
  destruct (to_found _ _ _ _ _ _ _ _ _ Ht (home (S i)) (S i)) as [_ Hf].
  - apply elem_of_reverse. rewrite Hsort. apply elem_of_seq. rewrite Hhome, Hbl.
    pose proof (mask0_slot (RollingHash 0 s)). lia.
  - apply Hb. split; [lia|done].
  - destruct (index_slot l0 (RollingHash 0 s) (nextPow2 (Z.quot (len rs) 4) - 1) size0) as (seed & -> & Hseed).
    { by rewrite (to_l0 _ _ _ _ _ _ _ _ _ Ht). }
    { apply mask0_slot. }
    cbn [ok_or_panic]. rewrite Hhome, (list_lookup_total_correct _ _ _ Hseed) in Hf.
    change (([] :: rs) !!! S i) with (rs !!! i) in Hf. rewrite (list_lookup_total_correct _ _ _ Hs) in Hf.
    rewrite index_to_nat by apply land_u32_nonneg. unfold slot in Hf. rewrite Hf. cbn [ok_or_panic].
    rewrite index_to_nat, Nat2Z.id by lia. change (([] :: rs) !! S i) with (rs !! i).
    rewrite Hs. cbn [ok_or_panic].
    by rewrite decide_True.
Qed.

Lemma lookup_absent buckets t l0 vs h s :
  table_ok strhash mask1 size1 rs buckets (reverse (sortSlice buckets)) (t_occupied t) (t_level1 t) l0 →
  length buckets = size0 → s ∉ rs →
  Lookup strhash (mkMph ([] :: rs) vs l0 mask0 (t_level1 t) mask1 None) h s = Ok 0.
Proof.
  intros Ht Hbl Hs. unfold Lookup. cbn [level0 level0Mask level1 level1Mask rules]. unfold mbind, go_bind.
  destruct (index_slot l0 h (nextPow2 (Z.quot (len rs) 4) - 1) size0) as (seed & -> & _).
  { by rewrite (to_l0 _ _ _ _ _ _ _ _ _ Ht). }
  { apply mask0_slot. }
  cbn [ok_or_panic].
  destruct (index_slot (t_level1 t) (MemHash strhash seed s) (nextPow2 (len rs) - 1) size1) as (n & -> & Hn).
  { apply Ht. }
  { apply mask1_slot. }
  cbn [ok_or_panic]. apply (to_range _ _ _ _ _ _ _ _ _ Ht) in Hn as Hr.
  rewrite index_to_nat by lia.
  destruct (lookup_lt_is_Some_2 ([] :: rs) (Z.to_nat n)) as [r Hr']; [unfold len in Hr; cbn; lia|].
  rewrite Hr'. cbn [ok_or_panic]. case_decide as Er; [|done]. subst r. f_equal.
  destruct (Z.to_nat n) as [|k] eqn:Ek; [lia|]. destruct Hs. by eapply list_elem_of_lookup_2.
Qed.

(** [Build] returns exactly when the seeds exist, and its table then answers every lookup. *)
Lemma Build_lookup :
  match Mph_Build strhash sortSlice fuel g with
  | Ok g' => seeds_for strhash sortSlice fuel g ∧ lookup_ok strhash E g'
  | _ => ¬ seeds_for strhash sortSlice fuel g
  end.
Proof.
  destruct Build_cases as (buckets & vs & _ & Hbl & Hb & Hvs & [(Hf & t & l0 & -> & Ht)|[Hf ->]]); [|done].
  split; [done|]. intros s. pose proof (mr_ok _ _ _ _ Hrep) as Hio.
  destruct (decide (s ∈ rs)) as [[i Hs]%list_elem_of_lookup|Hout].
  - left. destruct (proj1 (mr_dom _ _ _ _ Hrep s) (list_elem_of_lookup_2 _ _ _ Hs)) as [info Hinfo].
    exists (Z.of_nat (S i)), (i_full info ++ i_domain info). split; [by eapply lookup_present|]. split; [lia|].
    split; [|split].
    + cbn [mvalues]. rewrite index_to_nat, Nat2Z.id, Hvs by lia. apply set_all_in.
      * rewrite <- list_fmap_compose. rewrite (list_fmap_ext _ fst) by done. rewrite numbered_fst. apply NoDup_seq.
      * apply list_elem_of_fmap. exists (S i, s). cbn [fst snd]. rewrite Hinfo. split; [done|].
        apply elem_of_numbered. split; [lia|]. by rewrite Nat.sub_1_r.
      * rewrite (mr_values _ _ _ _ Hrep). apply lookup_lt_Some in Hs. lia.
    + destruct (io_some _ _ Hio _ _ Hinfo) as (t' & v & Hin). exists v.
      destruct (io_entry _ _ Hio _ _ _ Hin) as [_ [-> | ->]]; tauto.
    + intros v. rewrite elem_of_app, (io_full _ _ Hio _ _ _ Hinfo), (io_domain _ _ Hio _ _ _ Hinfo). done.
  - right. split; [by eapply lookup_absent|]. intros t' v [Hm _]%(io_entry _ _ Hio).
    by apply (mr_dom _ _ _ _ Hrep) in Hm.
Qed.

End built.

(** ** Matching *)

Section mph_match.
Context (strhash : Z → str → Z) (E : list entry) (g : MphMatcherGroup).
Hypothesis Hg : lookup_ok strhash E g.

Definition held (s : str) (v : Z) : Prop := (s, Full, v) ∈ E ∨ (s, Domain, v) ∈ E.

Fixpoint mph_hit (read cs : str) (v : Z) : Prop :=
  match cs with
  | [] => held read v
  | c :: cs => (c = dot ∧ held (c :: read) v) ∨ mph_hit (c :: read) cs v
  end.

Lemma roll_hash read c : roll (RollingHash 0 read) c = RollingHash 0 (c :: read).
Proof. unfold RollingHash. by rewrite reverse_cons, foldl_app. Qed.

(** A lookup and the values it adds. *)
Lemma lookup_push s ms : ∃ n ms',
  Lookup strhash g (RollingHash 0 s) s = Ok n ∧
  (if decide (n ≠ 0) then vs ← ok_or_panic (index (mvalues g) n); Ok (ms ++ [vs]) else Ok ms) = Ok ms' ∧
  (n ≠ 0 ↔ ∃ v, held s v) ∧ ∀ v, v ∈ concat ms' ↔ v ∈ concat ms ∨ held s v.
Proof.
  destruct (Hg s) as [(n & vs & El & Hn & Ev & Hsome & Hvs)|[El Hnone]].
  - exists n, (ms ++ [vs]). rewrite El, decide_True, Ev by done. split_and!; [done|done|by split|].
    intros v. rewrite concat_app, elem_of_app. cbn [concat]. by rewrite app_nil_r, Hvs.
  - exists 0, ms. rewrite decide_False by auto. split_and!; [done|done| |].
    + split; [done|]. intros [v [H|H]]; by apply Hnone in H.
    + intros v. split; [by left|]. intros [?|[H|H]]; [done|by apply Hnone in H..].
Qed.

Lemma mph_loop_spec cs : ∀ read ms, ∃ ms',
  mph_loop strhash g (RollingHash 0 read) read cs ms = Ok ms' ∧
  ∀ v, v ∈ concat ms' ↔ v ∈ concat ms ∨ mph_hit read cs v.
Proof.
  induction cs as [|c cs IH]; intros read ms; cbn [mph_loop mph_hit].
  - destruct (lookup_push read ms) as (n & ms' & -> & E' & _ & Hv). unfold mbind, go_bind in *. by exists ms'.
  - rewrite roll_hash. destruct (decide (c = dot)) as [Hc|Hc].
    + destruct (lookup_push (c :: read) ms) as (n & ms' & -> & E' & _ & Hv).
      unfold mbind, go_bind in *. rewrite E'. destruct (IH (c :: read) ms') as (ms2 & E2 & Hv2).
      unfold mbind, go_bind in E2. exists ms2. split; [done|]. intros v. rewrite Hv2, Hv. tauto.
    + destruct (IH (c :: read) ms) as (ms2 & E2 & Hv2). exists ms2. split; [done|]. intros v. rewrite Hv2. tauto.
Qed.

Lemma mph_any_loop_spec cs : ∀ read, ∃ b,
  mph_any_loop strhash g (RollingHash 0 read) read cs = Ok b ∧ (b = true ↔ ∃ v, mph_hit read cs v).
Proof.
  induction cs as [|c cs IH]; intros read; cbn [mph_any_loop mph_hit].
  - destruct (lookup_push read []) as (n & ms' & -> & _ & Hn & _). eexists. split; [done|].
    by rewrite bool_decide_eq_true.
  - rewrite roll_hash. destruct (IH (c :: read)) as (b & Eb & Hb). destruct (decide (c = dot)) as [Hc|Hc].
    + destruct (lookup_push (c :: read) []) as (n & ms' & -> & _ & Hn & _). unfold mbind, go_bind in *.
      destruct (decide (n ≠ 0)) as [Hn0|Hn0].
      * exists true. split; [done|]. split; [|done]. intros _. apply Hn in Hn0 as [v Hv]. exists v. by left.
      * exists b. split; [done|]. rewrite Hb. split; intros [v Hv]; exists v; [by right|].
        destruct Hv as [[_ Hv]|?]; [|done]. destruct Hn0. apply Hn. by exists v.
    + exists b. split; [done|]. rewrite Hb. split; intros [v Hv]; exists v; naive_solver.
Qed.

Lemma mph_hit_split cs : ∀ read v, mph_hit read cs v ↔
  (∃ cs1 cs2, cs = cs1 ++ dot :: cs2 ∧ held (dot :: reverse cs1 ++ read) v) ∨ held (reverse cs ++ read) v.
Proof.
  induction cs as [|c cs IH]; intros read v; cbn [mph_hit].
  { split; [by right|]. intros [([|] & ? & ? & _)|?]; done. }
  rewrite IH, reverse_cons, <- app_assoc. cbn [app]. split.
  - intros [[-> H]|[(cs1 & cs2 & -> & H)|H]]; [left; by exists [], cs| |by right].
    left. exists (c :: cs1), cs2. by rewrite reverse_cons, <- app_assoc.
  - intros [([|e cs1] & cs2 & [= -> ->] & H)|H]; [by left| |by right; right].
    right. left. exists cs1, cs2. by rewrite reverse_cons, <- app_assoc in H.
Qed.

End mph_match.

(** ** Exactness *)

(** Patterns on which the table answers like the matchers: lower case, and no leading dot. *)
Definition mph_ok (m : Matcher) : Prop :=
  matcher_ok m ∧ match m with
                 | FullMatcher p => ToLower p = p ∧ head p ≠ Some dot
                 | DomainMatcher p => ToLower p = p
                 | SubstrMatcher p => ldh p
                 | RegexMatcher _ => True
                 end.

Definition entries (L : list (Matcher * Z)) : list entry := flat_map (λ x, entered x.1 x.2) L.

Definition in_mph (m : Matcher) : bool := match m with FullMatcher _ | DomainMatcher _ => true | _ => false end.

Section exact.
Context (MatchString : str → str → bool) (L : list (Matcher * Z)).
Hypothesis HL : Forall (λ x, mph_ok x.1) L.

Lemma elem_of_entries s t v : (s, t, v) ∈ entries L ↔ ∃ m, (m, v) ∈ L ∧ (s, t, v) ∈ entered m v.
Proof.
  unfold entries. rewrite list_elem_of_In, in_flat_map. split.
  - intros ([m v'] & Hin & Hr). apply list_elem_of_In in Hin, Hr. cbn in Hr. exists m.
    assert (v' = v) as ->; [|done]. destruct m; cbn in Hr; rewrite ?elem_of_cons, ?elem_of_nil in Hr; naive_solver.
  - intros (m & Hin & Hr). exists (m, v). by rewrite <- !list_elem_of_In.
Qed.

Lemma held_iff s v : held (entries L) s v ↔
  (FullMatcher s, v) ∈ L ∨ ∃ p, (DomainMatcher p, v) ∈ L ∧ (s = p ∨ s = dot :: p).
Proof.
  assert (Hok : ∀ m, (m, v) ∈ L → mph_ok m) by (intros m; apply (proj1 (list.Forall_forall _ _) HL (m, v))).
  unfold held. rewrite !elem_of_entries. split.
  - assert (Hlow : ∀ m, (m, v) ∈ L → ToLower (Pattern m) = Pattern m ∨ in_mph m = false).
    { intros m Hin. destruct (Hok m Hin) as [_ Hm]. destruct m; [left; apply Hm|by left|by right..]. }
    intros [(m & Hin & Hr)|(m & Hin & Hr)]; destruct (Hlow m Hin) as [Hl|Hl]; destruct m as [p|p|p|p];
      cbn [in_mph entered Pattern] in Hl, Hr; try done; rewrite ?Hl, ?elem_of_cons, ?elem_of_nil in Hr; naive_solver.
  - intros [Hin|(p & Hin & Hs)].
    + left. exists (FullMatcher s). split; [done|]. destruct (Hok _ Hin) as [_ [Hp _]]. cbn. rewrite Hp. left.
    + right. exists (DomainMatcher p). split; [done|]. destruct (Hok _ Hin) as [_ Hp]. cbn. rewrite Hp, !elem_of_cons.
      naive_solver.
Qed.

Lemma mph_hit_exact input v : mph_hit (entries L) [] (reverse input) v ↔
  ∃ m, (m, v) ∈ L ∧ in_mph m = true ∧ Matcher_Match MatchString m input = true.
Proof.
  rewrite mph_hit_split, reverse_involutive, app_nil_r. setoid_rewrite app_nil_r. setoid_rewrite held_iff. split.
  - intros [(cs1 & cs2 & E & H)|H].
    + apply (f_equal reverse) in E. rewrite reverse_involutive, reverse_app, reverse_cons, <- app_assoc in E.
      cbn [app] in E. destruct H as [Hin|(p & Hin & Hs)].
      * pose proof (proj1 (list.Forall_forall _ _) HL _ Hin) as [_ [_ Hd]]. by destruct Hd.
      * exists (DomainMatcher p). split; [done|]. split; [done|]. apply DomainMatcher_Match_spec.
        pose proof (proj1 (list.Forall_forall _ _) HL _ Hin) as [[_ Hd] _].
        destruct Hs as [<-|[= Hs]]; [by destruct Hd|]. right. exists (reverse cs2). by rewrite E, Hs.
    + destruct H as [Hin|(p & Hin & Hs)].
      * exists (FullMatcher input). split; [done|]. split; [done|]. by apply bool_decide_eq_true.
      * exists (DomainMatcher p). split; [done|]. split; [done|]. apply DomainMatcher_Match_spec.
        destruct Hs as [->| ->]; [by left|]. right. by exists [].
  - intros ([p|p|p|p] & Hin & Hm & Hmatch); try done; cbn in Hmatch.
    + apply bool_decide_eq_true in Hmatch as ->. right. by left.
    + apply DomainMatcher_Match_spec in Hmatch as [->|[y ->]].
      * right. right. exists p. auto.
      * left. exists (reverse p), (reverse y). split; [by rewrite reverse_app, reverse_cons, <- app_assoc|].
        right. exists p. rewrite reverse_involutive. auto.
Qed.

(** The matchers of one kind, answered exactly. *)
Definition answers_for (P : Matcher → bool) (input : str) (result : go (list Z)) (any : go bool) : Prop :=
  ∃ r b, result = Ok r ∧ any = Ok b ∧
    (∀ v, v ∈ r ↔ ∃ m, (m, v) ∈ L ∧ P m = true ∧ Matcher_Match MatchString m input = true) ∧
    (b = true ↔ ∃ m v, (m, v) ∈ L ∧ P m = true ∧ Matcher_Match MatchString m input = true).

Lemma answers_none P input : (∀ x, x ∈ L → P x.1 = false) → answers_for P input (Ok []) (Ok false).
Proof.
  intros H. exists [], false. split_and!; [done|done| |].
  - intros v. rewrite elem_of_nil. split; [done|]. intros (m & Hin & Hm & _). apply H in Hin. cbn in Hin. congruence.
  - split; [done|]. intros (m & v & Hin & Hm & _). apply H in Hin. cbn in Hin. congruence.
Qed.

Lemma mph_answers strhash g input : lookup_ok strhash (entries L) g →
  answers_for in_mph input (Mph_Match strhash g input) (Mph_MatchAny strhash g input).
Proof.
  intros Hg. destruct (mph_loop_spec strhash _ g Hg (reverse input) [] []) as (ms & Em & Hv).
  destruct (mph_any_loop_spec strhash _ g Hg (reverse input) []) as (b & Eb & Hb).
  exists (CompositeMatchesReverse ms), b. unfold Mph_Match, Mph_MatchAny.
  change 0 with (RollingHash 0 []) at 1 2. rewrite Em, Eb. split_and!; [done|done| |].
  - intros v. rewrite elem_of_composite, Hv, mph_hit_exact. cbn [concat]. rewrite elem_of_nil. naive_solver.
  - rewrite Hb. setoid_rewrite mph_hit_exact. naive_solver.
Qed.

Lemma substr_answers input : ldh input → ∃ ac,
  Build (ac_added (filter (λ x, is_substr x.1 = true) L)) = Ok ac ∧
  answers_for is_substr input (Match ac input) (Ok (MatchAny ac input)).
Proof.
  intros Hin. destruct (ac_answers MatchString (filter (λ x, is_substr x.1 = true) L)) with (input := input)
    as (ac & E & r & b & Er & Eb & Hr & Hb); [|done|].
  - apply list.Forall_forall. intros [m v] [Hs Hm]%list_elem_of_filter.
    pose proof (proj1 (list.Forall_forall _ _) HL _ Hm) as [Hok Hp]. cbn in *.
    by destruct m as [p|p|p|p]; try done; split.
  - exists ac. split; [done|]. exists r, b. split_and!; [done|done| |].
    + intros v. rewrite Hr. setoid_rewrite list_elem_of_filter. cbn [fst]. naive_solver.
    + rewrite Hb. unfold matches. setoid_rewrite list_elem_of_filter. cbn [fst]. naive_solver.
Qed.

Lemma regex_answers input g : default [] g = filter (λ x, is_regex x.1 = true) L →
  answers_for is_regex input (Ok (match g with Some r => Simple_Match MatchString r input | None => [] end))
    (Ok (match g with Some r => Simple_MatchAny MatchString r input | None => false end)).
Proof.
  intros Hg. eexists _, _. split_and!; [done|done| |].
  - intros v. transitivity (v ∈ Simple_Match MatchString (default [] g) input); [by destruct g|].
    rewrite Hg, Simple_Match_sel, elem_of_sel. setoid_rewrite andb_true_iff. done.
  - transitivity (Simple_MatchAny MatchString (default [] g) input = true); [by destruct g|].
    rewrite Hg, Simple_MatchAny_existsb, existsb_iff. setoid_rewrite list_elem_of_filter. split.
    + intros ([m v] & [? ?] & ?). by exists m, v.
    + intros (m & v & ? & ? & ?). by exists (m, v).
Qed.

End exact.

Record value_rep (L : list (Matcher * Z)) (g : MphValueMatcher) : Prop := {
  vr_mph : ∃ rs m, mph_rep (entries L) rs m (default NewMphMatcherGroup (mv_mph g));
  vr_no_mph : mv_mph g = None → ∀ x, x ∈ L → in_mph x.1 = false;
  vr_ac : default NewACAutomaton (mv_ac g) = ac_added (filter (λ x, is_substr x.1 = true) L);
  vr_no_ac : mv_ac g = None → ∀ x, x ∈ L → is_substr x.1 = false;
  vr_regex : default [] (mv_regex g) = filter (λ x, is_regex x.1 = true) L
}.

Lemma entries_snoc L m v : entries (L ++ [(m, v)]) = entries L ++ entered m v.
Proof. unfold entries. rewrite flat_map_app. cbn. by rewrite app_nil_r. Qed.

Lemma no_kind_snoc (P : Matcher → bool) (L : list (Matcher * Z)) m v :
  P m = false → (∀ x, x ∈ L → P x.1 = false) → ∀ x, x ∈ L ++ [(m, v)] → P x.1 = false.
Proof. by intros Hm HL x [?| ->%list_elem_of_singleton]%elem_of_app; [apply HL|]. Qed.

Lemma substr_snoc (L : list (Matcher * Z)) m v :
  filter (λ x, is_substr x.1 = true) (L ++ [(m, v)])
  = filter (λ x, is_substr x.1 = true) L ++ (if is_substr m then [(m, v)] else []).
Proof.
  rewrite list.filter_app. destruct (is_substr m) eqn:E.
  - by rewrite (filter_cons_True _ (m, v)).
  - by rewrite (filter_cons_False _ (m, v)) by (cbn; congruence).
Qed.

Lemma value_add_rep L g m v : value_rep L g → ∃ g', MphValue_Add g m v = Ok g' ∧ value_rep (L ++ [(m, v)]) g'.
Proof.
  intros [(rs & mm & Hm) Hnm Ha Hna Hr]. destruct m as [p|p|p|p]; cbn [MphValue_Add].
  - destruct (AddFull_rep _ _ _ _ p v Hm) as (rs' & m' & h & -> & Hm'). eexists. split; [done|].
    split; cbn [mv_mph mv_ac mv_regex from_option id].
    + exists rs', m'. by rewrite entries_snoc.
    + done.
    + by rewrite Ha, substr_snoc, app_nil_r.
    + intros H. by apply no_kind_snoc, Hna.
    + by rewrite Hr, regex_snoc, app_nil_r.
  - destruct (AddDomain_rep _ _ _ _ p v Hm) as (rs' & m' & h & -> & Hm'). eexists. split; [done|].
    split; cbn [mv_mph mv_ac mv_regex from_option id].
    + exists rs', m'. by rewrite entries_snoc.
    + done.
    + by rewrite Ha, substr_snoc, app_nil_r.
    + intros H. by apply no_kind_snoc, Hna.
    + by rewrite Hr, regex_snoc, app_nil_r.
  - eexists. split; [done|]. split; cbn [mv_mph mv_ac mv_regex from_option id].
    + exists rs, mm. by rewrite entries_snoc, app_nil_r.
    + intros H. by apply no_kind_snoc, Hnm.
    + rewrite Ha, substr_snoc. unfold ac_added. by rewrite foldl_app.
    + done.
    + by rewrite Hr, regex_snoc, app_nil_r.
  - eexists. split; [done|]. split; cbn [mv_mph mv_ac mv_regex from_option id].
    + exists rs, mm. by rewrite entries_snoc, app_nil_r.
    + intros H. by apply no_kind_snoc, Hnm.
    + by rewrite Ha, substr_snoc, app_nil_r.
    + intros H. by apply no_kind_snoc, Hna.
    + by rewrite Hr, regex_snoc.
Qed.

Lemma value_added_rep L : ∀ L0 g, value_rep L0 g → ∃ g', MphValue_added g L = Ok g' ∧ value_rep (L0 ++ L) g'.
Proof.
  induction L as [|[m v] L IH]; intros L0 g H; [exists g; by rewrite app_nil_r|].
  destruct (value_add_rep _ _ m v H) as (g1 & E1 & H1). destruct (IH _ _ H1) as (g2 & E2 & H2).
  exists g2. cbn [MphValue_added]. rewrite E1, (cons_middle (m, v) L0 L), app_assoc. done.
Qed.

Lemma value_new_rep : value_rep [] NewMphValueMatcher.
Proof.
  split; try done.
  - exists [], ∅. apply New_rep.
  - by intros _ x ?%elem_of_nil.
  - by intros _ x ?%elem_of_nil.
Qed.

(** The perfect-hash table of a matcher, if there is one, finds its seeds. *)
Definition seeded (strhash : Z → str → Z) (sortSlice : list (list nat) → list nat) (fuel : nat)
    (g : MphValueMatcher) : Prop := ∀ h, mv_mph g = Some h → seeds_for strhash sortSlice fuel h.

Lemma entries_length L : len (entries L) ≤ 2 * len L.
Proof.
  induction L as [|[m v] L IH]; [done|]. unfold entries in *. cbn [flat_map fst snd]. rewrite len_app, len_cons.
  assert (len (entered m v) ≤ 2) by (destruct m; unfold len; cbn; lia). lia.
Qed.

Lemma rules_few E rs m g : mph_rep E rs m g → len rs ≤ len E.
Proof.
  intros H. assert (Hs : rs ⊆+ (λ e : entry, e.1.1) <$> E).
  { apply NoDup_submseteq; [apply H|]. intros s Hs. apply (mr_dom _ _ _ _ H) in Hs as [i Hi].
    destruct (io_some _ _ (mr_ok _ _ _ _ H) _ _ Hi) as (t & v & Hin). apply list_elem_of_fmap. by exists (s, t, v). }
  apply submseteq_length in Hs. rewrite length_fmap in Hs. unfold len. lia.
Qed.

Section combined.
Context (strhash : Z → str → Z) (MatchString : str → str → bool).
Context (sortSlice : list (list nat) → list nat) (fuel : nat).
(** [sort.Slice] permutes the indices of the buckets. *)
Hypothesis Hsort : ∀ bs, sortSlice bs ≡ₚ seq 0 (length bs).

Lemma Build_mph L g : value_rep L g → 2 * len L ≤ 2147483648 → Forall (λ x, mph_ok x.1) L →
  match match mv_mph g with Some h => h ← Mph_Build strhash sortSlice fuel h; Ok (Some h) | None => Ok None end with
  | Ok mph => seeded strhash sortSlice fuel g ∧ ∀ input, answers_for MatchString L in_mph input
      (match mph with Some h => Mph_Match strhash h input | None => Ok [] end)
      (match mph with Some h => Mph_MatchAny strhash h input | None => Ok false end)
  | _ => ¬ seeded strhash sortSlice fuel g
  end.
Proof.
  intros H HL2 HL. unfold seeded. destruct (mv_mph g) as [h|] eqn:Eh.
  - destruct (vr_mph _ _ H) as (rs & m & Hm). rewrite Eh in Hm. cbn [from_option id] in Hm.
    assert (Hlen : len rs ≤ 2147483648) by (pose proof (rules_few _ _ _ _ Hm); pose proof (entries_length L); lia).
    pose proof (Build_lookup strhash sortSlice fuel Hsort _ _ _ _ Hm Hlen) as Hb.
    destruct (Mph_Build strhash sortSlice fuel h) as [h'| |]; cbn [mbind go_bind].
    + destruct Hb as [Hs Hl]. split; [by intros h0 [= <-]|]. intros input. by apply mph_answers.
    + intros Hh. by apply Hb, Hh.
    + intros Hh. by apply Hb, Hh.
  - split; [done|]. intros input. apply answers_none. by apply (vr_no_mph _ _ H).
Qed.

Lemma Build_ac L g input : value_rep L g → Forall (λ x, mph_ok x.1) L → ldh input →
  ∃ ac, match mv_ac g with Some a => a ← Build a; Ok (Some a) | None => Ok None end = Ok ac ∧
    answers_for MatchString L is_substr input
      (match ac with Some a => Match a input | None => Ok [] end)
      (Ok (match ac with Some a => MatchAny a input | None => false end)).
Proof.
  intros H HL Hin. destruct (mv_ac g) as [a|] eqn:Ea.
  - pose proof (vr_ac _ _ H) as Hac. rewrite Ea in Hac. cbn [from_option id] in Hac.
    destruct (substr_answers MatchString L HL input Hin) as (ac & E & Ha).
    exists (Some ac). rewrite Hac, E. done.
  - exists None. split; [done|]. apply answers_none. by apply (vr_no_ac _ _ H).
Qed.

Lemma kinds m : in_mph m || is_substr m || is_regex m = true.
Proof. by destruct m. Qed.

(** The combined answers, from those of the parts. *)
Lemma Match_parts g input r1 r2 :
  match mv_mph g with Some h => Mph_Match strhash h input | None => Ok [] end = Ok r1 →
  match mv_ac g with Some a => Match a input | None => Ok [] end = Ok r2 →
  MphValue_Match strhash MatchString g input =
    Ok (r1 ++ r2 ++ match mv_regex g with Some r => Simple_Match MatchString r input | None => [] end).
Proof.
  intros E1 E2. unfold MphValue_Match.
  assert (∃ x1, match mv_mph g with
                | Some h => matches ← Mph_Match strhash h input; Ok (append_matches [] matches) | None => Ok [] end
                = Ok x1 ∧ concat x1 = r1) as (x1 & -> & <-).
  { destruct (mv_mph g) as [h|]; [rewrite E1; eexists; split; [done|]; by rewrite concat_append_matches|].
    injection E1 as <-. by exists []. }
  cbn [mbind go_bind].
  assert (∃ x2, match mv_ac g with
                | Some a => matches ← Match a input; Ok (append_matches x1 matches) | None => Ok x1 end
                = Ok x2 ∧ concat x2 = concat x1 ++ r2) as (x2 & -> & Hx2).
  { destruct (mv_ac g) as [a|]; [rewrite E2; eexists; split; [done|]; by rewrite concat_append_matches|].
    injection E2 as <-. exists x1. by rewrite app_nil_r. }
  cbn [mbind go_bind]. rewrite CompositeMatches_concat. f_equal.
  destruct (mv_regex g); rewrite ?concat_append_matches, Hx2, ?app_nil_r, <- ?app_assoc; done.
Qed.

Lemma MatchAny_parts g input b1 b2 :
  match mv_mph g with Some h => Mph_MatchAny strhash h input | None => Ok false end = Ok b1 →
  match mv_ac g with Some a => MatchAny a input | None => false end = b2 →
  MphValue_MatchAny strhash MatchString g input =
    Ok (b1 || b2 || match mv_regex g with Some r => Simple_MatchAny MatchString r input | None => false end).
Proof.
  intros E1 E2. unfold MphValue_MatchAny. rewrite E1, E2. cbn [mbind go_bind]. by destruct b1, b2.
Qed.

(** What the matcher of a list of patterns answers on every input. *)
Definition value_exact (L : list (Matcher * Z)) (g : MphValueMatcher) : Prop := ∀ input, ldh input → ∃ r b,
  MphValue_Match strhash MatchString g input = Ok r ∧ MphValue_MatchAny strhash MatchString g input = Ok b ∧
  (∀ v, v ∈ r ↔ ∃ m, (m, v) ∈ L ∧ Matcher_Match MatchString m input = true) ∧
  (b = true ↔ matches MatchString L input).

Lemma mph_value_answers L : Forall (λ x, mph_ok x.1) L → 2 * len L ≤ 2147483648 →
  ∃ g, MphValue_added NewMphValueMatcher L = Ok g ∧
    match MphValue_Build strhash sortSlice fuel g with
    | Ok g' => seeded strhash sortSlice fuel g ∧ value_exact L g'
    | _ => ¬ seeded strhash sortSlice fuel g
    end.
Proof.
  intros HL Hlen. destruct (value_added_rep L [] _ value_new_rep) as (g & Eg & H). exists g. split; [done|].
  cbn [app] in H. pose proof (Build_mph L g H Hlen HL) as Hm. unfold MphValue_Build.
  destruct (match mv_mph g with Some h => _ | None => _ end) as [mph| |]; cbn [mbind go_bind]; [|done..].
  destruct Hm as [Hs Hmph]. destruct (Build_ac L g [] H HL (Forall_nil_2 _)) as (ac & Ea & _). rewrite Ea. cbn [mbind go_bind].
  split; [done|]. set (g' := mkMphValue mph ac (mv_regex g)).
  intros input Hin. destruct (Build_ac L g input H HL Hin) as (ac' & Ea' & Hac). rewrite Ea in Ea'. injection Ea' as <-.
  destruct (Hmph input) as (r1 & b1 & E1 & F1 & Hr1 & Hb1). destruct Hac as (r2 & b2 & E2 & F2 & Hr2 & Hb2).
  destruct (regex_answers MatchString L input (mv_regex g) (vr_regex _ _ H)) as (r3 & b3 & [= E3] & [= F3] & Hr3 & Hb3).
  exists (r1 ++ r2 ++ r3), (b1 || b2 || b3).
  split; [rewrite (Match_parts g' input _ _ E1 E2); cbn [mv_regex g']; by rewrite E3|].
  split; [rewrite (MatchAny_parts g' input _ b2 F1); [cbn [mv_regex g']; by rewrite F3|by injection F2]|].
  pose proof kinds as Hk. setoid_rewrite orb_true_iff in Hk. setoid_rewrite orb_true_iff in Hk. split.
  - intros v. rewrite !elem_of_app, Hr1, Hr2, Hr3. split; [naive_solver|].
    intros (m & Hm & Hmm). destruct (Hk m) as [[?|?]|?]; eauto 8.
  - rewrite !orb_true_iff, Hb1, Hb2, Hb3. split; [unfold matches; naive_solver|].
    intros (m & v & Hm & Hmm). destruct (Hk m) as [[?|?]|?]; eauto 10.
Qed.

(** C33: [MphValueMatcher] (perfect hash for full and domain patterns, Aho-Corasick automaton
    for keywords, a list for regular expressions) is exact, whatever the hash function of the
    runtime. For at most 2^30 patterns in lower case (full and domain patterns without a leading
    dot, keywords of letters, digits, hyphens and dots, none empty), adding never panics;
    [Build] returns if and only if every bucket, in the order in which it places them, has a
    seed within the fuel that sends its rules to distinct slots left free by the buckets before
    it; and what it then returns is exact: on every input of letters, digits, hyphens and dots
    neither [Match] nor [MatchAny] panics, [Match] returns exactly the values whose matcher
    matches the input on its own, and [MatchAny] whether there is one. *)
Theorem mph_value_matcher_exact L : Forall (λ x, mph_ok x.1) L → 2 * len L ≤ 2147483648 →
  ∃ g, MphValue_added NewMphValueMatcher L = Ok g ∧
    match MphValue_Build strhash sortSlice fuel g with
    | Ok g' => seeded strhash sortSlice fuel g ∧ ∀ input, ldh input → ∃ r b,
        MphValue_Match strhash MatchString g' input = Ok r ∧ MphValue_MatchAny strhash MatchString g' input = Ok b ∧
        (∀ v, v ∈ r ↔ ∃ m, (m, v) ∈ L ∧ Matcher_Match MatchString m input = true) ∧
        (b = true ↔ matches MatchString L input)
    | _ => ¬ seeded strhash sortSlice fuel g
    end.
Proof. apply mph_value_answers. Qed.

End combined.

(** [MphIndexMatcher] is the value matcher on numbered matchers. *)
Fixpoint MphIndex_added (g : MphIndexMatcher) (ms : list Matcher) : go MphIndexMatcher :=
  match ms with [] => Ok g | m :: ms => '(g, _) ← MphIndex_Add g m; MphIndex_added g ms end.

Lemma mph_index_numbered ms : ∀ k g, 0 ≤ k → k + len ms < 4294967296 →
  MphIndex_added (mkMphIndex k g) ms =
  (h ← MphValue_added g (zip ms (seqZ (k + 1) (len ms))); Ok (mkMphIndex (k + len ms) h)).
Proof.
  induction ms as [|m ms IH]; intros k g Hk Hl.
  { cbn. by rewrite Z.add_0_r. }
  rewrite len_cons in *. pose proof (len_nonneg ms). rewrite seqZ_cons by lia.
  cbn [MphIndex_added zip zip_with MphValue_added]. unfold MphIndex_Add. cbn [mi_count mi_groups].
  rewrite u32_small by (unfold is_u32; lia).
  replace (Z.pred (1 + len ms)) with (len ms) by lia. replace (Z.succ (k + 1)) with (k + 1 + 1) by lia.
  replace (k + (1 + len ms)) with (k + 1 + len ms) by lia.
  destruct (MphValue_Add g m (k + 1)) as [h|e|]; cbn [mbind go_bind]; [|done|done]. apply IH; lia.
Qed.

(** *** A hash with a seed, and patterns for it *)

Definition sample_hash (seed : Z) (s : str) : Z :=
  foldl (λ h c, Z.shiftr (Z.lxor h (byte_to_Z c) * 2654435769) 3 mod 4294967296) (2166136261 + seed * 40503) s.

Definition mph_sample : list (Matcher * Z) :=
  [(DomainMatcher [x63; x6f; x6d], 1); (SubstrMatcher [x61; x70], 2); (RegexMatcher [dot], 3);
   (FullMatcher [x63; x6f; x6d], 4); (DomainMatcher [x61], 5); (FullMatcher [x62; dot; x61], 6);
   (DomainMatcher [x6f; x72; x67], 7); (FullMatcher [x6f], 8)].

#[local] Instance CharClass_eq_dec : EqDecision CharClass.
Proof. solve_decision. Defined.

#[local] Instance mph_ok_dec m : Decision (mph_ok m).
Proof. unfold mph_ok, matcher_ok, ldh. destruct m; apply _. Defined.

Lemma mph_sample_ok : Forall (λ x, mph_ok x.1) mph_sample.
Proof. apply (bool_decide_unpack _). vm_compute. exact I. Qed.

(** The search for seeds ends for them; three of the four buckets need another seed than 0. *)
Definition mph_sample_built : go MphValueMatcher :=
  Eval vm_compute in (g ← MphValue_added NewMphValueMatcher mph_sample; MphValue_Build sample_hash (λ bs, seq 0 (length bs)) 64 g).

Lemma mph_sample_seeds : match mph_sample_built with Ok g => level0 <$> mv_mph g | _ => None end = Some [0; 2; 3; 1].
Proof. reflexivity. Qed.

Lemma mph_sample_build g : MphValue_added NewMphValueMatcher mph_sample = Ok g →
  MphValue_Build sample_hash (λ bs, seq 0 (length bs)) 64 g = mph_sample_built.
Proof.
  intros Eg. assert (H : (g ← MphValue_added NewMphValueMatcher mph_sample;
    MphValue_Build sample_hash (λ bs, seq 0 (length bs)) 64 g) = mph_sample_built) by (vm_compute; reflexivity).
  rewrite Eg in H. exact H.
Qed.

Lemma mph_value_matcher_exact_witness : ∃ g' r b, mph_sample_built = Ok g' ∧
    MphValue_Match sample_hash (λ _ _, false) g' sample_input = Ok r ∧
    MphValue_MatchAny sample_hash (λ _ _, false) g' sample_input = Ok b ∧ 1 ∈ r ∧ 2 ∈ r ∧ (3 ∉ r) ∧ b = true.
Proof.
  destruct (mph_value_matcher_exact sample_hash (λ _ _, false) (λ bs, seq 0 (length bs)) 64 (λ bs, reflexivity _)
              mph_sample mph_sample_ok) as (g & Eg & H); [vm_compute; discriminate|].
  rewrite (mph_sample_build g Eg) in H. unfold mph_sample_built at 1 in H. destruct H as [_ H].
  destruct (H sample_input) as (r & b & Er & Eb & Hr & Hb).
  - repeat (apply Forall_cons_2; [reflexivity|]). apply Forall_nil_2.
  - eexists _, r, b. split; [reflexivity|]. split; [exact Er|]. split; [exact Eb|]. rewrite !Hr.
    split; [exists (DomainMatcher [x63; x6f; x6d]); split; [left|vm_compute; reflexivity]|].
    split; [exists (SubstrMatcher [x61; x70]); split; [right; left|vm_compute; reflexivity]|]. split.
    + intros (m & Hin & Hm). unfold mph_sample in Hin. rewrite !elem_of_cons, elem_of_nil in Hin.
      destruct Hin as [[=]|[[=]|[[= ->]|[[=]|[[=]|[[=]|[[=]|[[=]|[]]]]]]]]]. discriminate Hm.
    + apply Hb. exists (DomainMatcher [x63; x6f; x6d]), 1. split; [left|vm_compute; reflexivity].
Defined.
