(* ===== verification/IpMatcher.v ===== *)
(** * IP matching

    Models [common/geodata/ip_matcher.go]: sets of CIDR prefixes, the matcher that groups
    addresses by /24 or /64 when no prefix of its set is longer, the matcher that combines
    several, and how they are built from routing and DNS rules. An address of the standard
    library is its bytes. Sets of addresses are the third-party package [netipx], which is a
    class: its operations, and what its documentation promises of them. Go leaves the order of
    iteration over a map open; here it is that of [map_to_list], and no theorem depends on
    it. *)

From S2P Require Import Prelude Net.
From stdpp Require Import sorting.
#[local] Open Scope Z_scope.

Abbreviation ip := (list byte).

(** ** Addresses and prefixes of the standard library *)

(** [net.IP.To4], [net.IP.To16]. *)
Definition To4 (i : ip) : option ip :=
  if decide (length i = 4%nat) then Some i
  else if decide (length i = 16%nat ∧ take 12 i = GoText.v4_mapped_prefix) then Some (drop 12 i)
  else None.
Definition To16 (i : ip) : option ip :=
  if decide (length i = 4%nat) then Some (GoText.v4_mapped_prefix ++ i)
  else if decide (length i = 16%nat) then Some i
  else None.

(** [netip.Addr]. *)
Inductive Addr := Addr4 (b : ip) | Addr6 (b : ip).
#[global] Instance Addr_eq_dec : EqDecision Addr.
Proof. solve_decision. Defined.
#[global] Instance Addr_countable : Countable Addr.
Proof.
  refine (inj_countable' (λ a, match a with Addr4 b => inl b | Addr6 b => inr b end)
            (λ s, match s with inl b => Addr4 b | inr b => Addr6 b end) _). by intros [].
Defined.

Definition Is4 (a : Addr) : bool := match a with Addr4 _ => true | Addr6 _ => false end.
Definition Is6 (a : Addr) : bool := match a with Addr4 _ => false | Addr6 _ => true end.
Definition addr_bytes (a : Addr) : ip := match a with Addr4 b | Addr6 b => b end.
Definition BitLen (a : Addr) : Z := match a with Addr4 _ => 32 | Addr6 _ => 128 end.

(** [netip.AddrFromSlice]. *)
Definition AddrFromSlice (i : ip) : option Addr :=
  if decide (length i = 4%nat) then Some (Addr4 i)
  else if decide (length i = 16%nat) then Some (Addr6 i)
  else None.

(** [netip.Prefix]; [PrefixFrom] and [IsValid]. *)
Record Prefix := mkPrefix { p_addr : Addr; p_bits : Z }.
Definition Prefix_IsValid (p : Prefix) : bool := bool_decide (0 ≤ p_bits p ≤ BitLen (p_addr p)).

Definition byte_bits (b : byte) : list bool :=
  (λ k, Z.testbit (byte_to_Z b) (7 - Z.of_nat k)) <$> seq 0 8.
Definition bits (i : ip) : list bool := i ≫= byte_bits.

(** [netip.Prefix.Contains]. *)
Definition prefix_contains (p : Prefix) (a : Addr) : bool :=
  bool_decide (Is4 (p_addr p) = Is4 a) &&
  bool_decide (take (Z.to_nat (p_bits p)) (bits (addr_bytes (p_addr p))) = take (Z.to_nat (p_bits p)) (bits (addr_bytes a))).

(** ** The package [netipx] *)

Class NetipxOps (T : Type) := {
  FromStdIP : ip → option Addr;
  IPSetOf : list Prefix → go T;          (* AddPrefix on each, then IPSet *)
  Contains : T → Addr → bool;
  Prefixes : T → list Prefix
}.

(** [FromStdIP] unmaps an IPv4 address; a set contains what its prefixes contain, and the set
    built from prefixes what they contain; building fails only on invalid prefixes. *)
Class Netipx (T : Type) `{NetipxOps T} : Prop := {
  FromStdIP_spec i :
    FromStdIP i = match To4 i with Some b => Some (Addr4 b) | None => if decide (length i = 16%nat) then Some (Addr6 i) else None end;
  Prefixes_valid s : Forall (λ p, Prefix_IsValid p = true) (Prefixes s);
  Contains_prefixes s a : Contains s a = existsb (λ p, prefix_contains p a) (Prefixes s);
  IPSetOf_ok ps : Forall (λ p, Prefix_IsValid p = true) ps → ∃ s, IPSetOf ps = Ok s;
  IPSetOf_contains ps s a :
    IPSetOf ps = Ok s → (Contains s a = true ↔ ∃ p, p ∈ ps ∧ prefix_contains p a = true)
}.

(** ** Keys of the buckets *)

(** [prefixKeyFromIP]: the family and the first 24 or 64 bits. *)
Definition prefixKeyFromIP (i : ip) : option (list byte) :=
  match To4 i with
  | Some ip4 => Some (x04 :: take 3 ip4 ++ replicate 5 x00)
  | None => match To16 i with
            | Some ip16 => Some (x06 :: take 8 ip16)
            | None => None
            end
  end.

Section matcher.
Context {T : Type} `{NetipxOps T}.

Record IPSet := mkIPSet { ipv4 : T; ipv6 : T; max4 : Z; max6 : Z }.
Record HeuristicIPMatcher := mkHeuristic { ipset : IPSet; reverse_ : bool }.

Definition matchAddr (m : HeuristicIPMatcher) (a : Addr) : bool :=
  if Is4 a then
    if decide (max4 (ipset m) = 255) then false else xorb (Contains (ipv4 (ipset m)) a) (reverse_ m)
  else if Is6 a then
    if decide (max6 (ipset m) = 255) then false else xorb (Contains (ipv6 (ipset m)) a) (reverse_ m)
  else false.

Definition Match (m : HeuristicIPMatcher) (i : ip) : bool :=
  match FromStdIP i with Some ipx => matchAddr m ipx | None => false end.

Definition heur4 (m : HeuristicIPMatcher) : bool := bool_decide (max4 (ipset m) ≤ 24).
Definition heur6 (m : HeuristicIPMatcher) : bool := bool_decide (max6 (ipset m) ≤ 64).

Definition key_is (f : byte) (key : list byte) : bool := bool_decide (head key = Some f).

(** *** [AnyMatch] *)

Fixpoint any_loop (m : HeuristicIPMatcher) (buckets : gset (list byte)) (ips : list ip) : bool :=
  match ips with
  | [] => false
  | i :: ips =>
      match prefixKeyFromIP i with
      | None => any_loop m buckets ips
      | Some key =>
          let heur := (key_is x04 key && heur4 m) || (key_is x06 key && heur6 m) in
          if heur && bool_decide (key ∈ buckets) then any_loop m buckets ips
          else match FromStdIP i with
               | None => any_loop m buckets ips
               | Some ipx =>
                   if matchAddr m ipx then true
                   else any_loop m (if heur then {[key]} ∪ buckets else buckets) ips
               end
      end
  end.

Definition AnyMatch (m : HeuristicIPMatcher) (ips : list ip) : bool :=
  match ips with
  | [] => false
  | [i] => Match m i
  | _ =>
      if negb (heur4 m) && negb (heur6 m) then
        existsb (λ i, match FromStdIP i with Some ipx => matchAddr m ipx | None => false end) ips
      else any_loop m ∅ ips
  end.

(** *** [Matches] *)

(** The loop that fills the buckets and the list of precise addresses; [None] for an
    invalid address. *)
Fixpoint matches_fill (m : HeuristicIPMatcher) (buckets : gmap (list byte) Addr) (precise : list Addr)
    (ips : list ip) : option (gmap (list byte) Addr * list Addr) :=
  match ips with
  | [] => Some (buckets, precise)
  | i :: ips =>
      match prefixKeyFromIP i with
      | None => None
      | Some key =>
          if (key_is x04 key && heur4 m) || (key_is x06 key && heur6 m) then
            match buckets !! key with
            | Some _ => matches_fill m buckets precise ips
            | None => match FromStdIP i with
                      | None => None
                      | Some ipx => matches_fill m (<[key := ipx]> buckets) precise ips
                      end
            end
          else match FromStdIP i with
               | None => None
               | Some ipx => matches_fill m buckets (precise ++ [ipx]) ips
               end
      end
  end.

Definition map_values {K A} `{Countable K} (m : gmap K A) : list A := (map_to_list m).*2.

Definition Matches (m : HeuristicIPMatcher) (ips : list ip) : bool :=
  match ips with
  | [] => false
  | [i] => Match m i
  | _ =>
      if negb (heur4 m) && negb (heur6 m) then
        forallb (λ i, match FromStdIP i with Some ipx => matchAddr m ipx | None => false end) ips
      else match matches_fill m ∅ [] ips with
           | None => false
           | Some (buckets, precise) => forallb (matchAddr m) (map_values buckets) && forallb (matchAddr m) precise
           end
  end.

(** *** [FilterIPs] *)

Record ipBucket := mkBucket { rep : Addr; b_ips : list ip }.

Fixpoint filter_fill (m : HeuristicIPMatcher) (buckets : gmap (list byte) ipBucket) (precise : list ip)
    (ips : list ip) : gmap (list byte) ipBucket * list ip :=
  match ips with
  | [] => (buckets, precise)
  | i :: ips =>
      match prefixKeyFromIP i with
      | None => filter_fill m buckets precise ips
      | Some key =>
          if (key_is x04 key && negb (heur4 m)) || (key_is x06 key && negb (heur6 m)) then
            filter_fill m buckets (precise ++ [i]) ips
          else match buckets !! key with
               | Some b => filter_fill m (<[key := mkBucket (rep b) (b_ips b ++ [i])]> buckets) precise ips
               | None => match FromStdIP i with
                         | None => filter_fill m buckets precise ips
                         | Some ipx => filter_fill m (<[key := mkBucket ipx [i]]> buckets) precise ips
                         end
               end
      end
  end.

(** The loop over single addresses. *)
Definition filter_ip (m : HeuristicIPMatcher) (acc : list ip * list ip) (i : ip) : list ip * list ip :=
  match FromStdIP i with
  | None => acc
  | Some ipx => if matchAddr m ipx then (acc.1 ++ [i], acc.2) else (acc.1, acc.2 ++ [i])
  end.
Definition filter_bucket (m : HeuristicIPMatcher) (acc : list ip * list ip) (b : ipBucket) : list ip * list ip :=
  if matchAddr m (rep b) then (acc.1 ++ b_ips b, acc.2) else (acc.1, acc.2 ++ b_ips b).

Definition FilterIPs (m : HeuristicIPMatcher) (ips : list ip) : list ip * list ip :=
  match ips with
  | [] => ([], [])
  | [i] => match FromStdIP i with
           | None => ([], [])
           | Some ipx => if matchAddr m ipx then (ips, []) else ([], ips)
           end
  | _ =>
      if negb (heur4 m) && negb (heur6 m) then foldl (filter_ip m) ([], []) ips
      else
        let '(buckets, precise) := filter_fill m ∅ [] ips in
        foldl (filter_ip m) (foldl (filter_bucket m) ([], []) (map_values buckets)) precise
  end.

Definition ToggleReverse (m : HeuristicIPMatcher) : HeuristicIPMatcher := mkHeuristic (ipset m) (negb (reverse_ m)).
Definition SetReverse (m : HeuristicIPMatcher) (reverse : bool) : HeuristicIPMatcher := mkHeuristic (ipset m) reverse.

(** ** [HeuristicMultiIPMatcher] *)

Definition Multi_Match (mm : list HeuristicIPMatcher) (i : ip) : bool :=
  match FromStdIP i with
  | None => false
  | Some ipx => existsb (λ m, matchAddr m ipx) mm
  end.

(** The matchers on one address. [state] is 0 before the key was looked up, 1 after, and 4 or
    6 when the bucket was seen before; [ipx] is the address once converted. The loop breaks
    on an invalid address. *)
Fixpoint multi_any_ip (mm : list HeuristicIPMatcher) (i : ip) (state : Z) (ipx : option Addr)
    (buckets : gset (list byte)) : bool * gset (list byte) :=
  match mm with
  | [] => (false, buckets)
  | m :: mm =>
      match (if decide (state = 0) then
               if heur4 m || heur6 m then
                 match prefixKeyFromIP i with
                 | None => None
                 | Some key =>
                     if decide (key ∈ buckets) then Some (byte_to_Z (default x00 (head key)), buckets)
                     else Some (1, {[key]} ∪ buckets)
                 end
               else Some (state, buckets)
             else Some (state, buckets)) with
      | None => (false, buckets)
      | Some (state, buckets) =>
          if (heur4 m && bool_decide (state = 4)) || (heur6 m && bool_decide (state = 6)) then
            multi_any_ip mm i state ipx buckets
          else match match ipx with Some a => Some a | None => FromStdIP i end with
               | None => (false, buckets)
               | Some a => if matchAddr m a then (true, buckets) else multi_any_ip mm i state (Some a) buckets
               end
      end
  end.

Fixpoint multi_any_loop (mm : list HeuristicIPMatcher) (buckets : gset (list byte)) (ips : list ip) : bool :=
  match ips with
  | [] => false
  | i :: ips =>
      let '(found, buckets) := multi_any_ip mm i 0 None buckets in
      if found : bool then true else multi_any_loop mm buckets ips
  end.

Definition Multi_AnyMatch (mm : list HeuristicIPMatcher) (ips : list ip) : bool :=
  match ips with
  | [] => false
  | [i] => Multi_Match mm i
  | _ => multi_any_loop mm ∅ ips
  end.

(** *** [Matches]: views of the addresses, made when first needed *)

Record ipViews := mkViews {
  buckets4 : option (gmap (list byte) Addr); buckets6 : option (gmap (list byte) Addr);
  precise4 : option (list Addr); precise6 : option (list Addr)
}.

(** One address of one family: the bucket view if [heur], the precise view if [prec]. *)
Definition view_add (heur prec : bool) (key : list byte) (i : ip) (b : option (gmap (list byte) Addr))
    (p : option (list Addr)) : option (option (gmap (list byte) Addr) * option (list Addr)) :=
  match (if heur then
           match default ∅ b !! key with
           | Some _ => Some (None, b)
           | None => match FromStdIP i with
                     | None => None
                     | Some ipx => Some (Some ipx, Some (<[key := ipx]> (default ∅ b)))
                     end
           end
         else Some (None, b)) with
  | None => None
  | Some (ipx, b) =>
      if prec : bool then
        match match ipx with Some a => Some a | None => FromStdIP i end with
        | None => None
        | Some a => Some (b, Some (default [] p ++ [a]))
        end
      else Some (b, p)
  end.

Fixpoint views_loop (nh4 nh6 np4 np6 : bool) (v : ipViews) (ips : list ip) : option ipViews :=
  match ips with
  | [] => Some v
  | i :: ips =>
      match prefixKeyFromIP i with
      | None => None
      | Some key =>
          if key_is x04 key then
            match view_add nh4 np4 key i (buckets4 v) (precise4 v) with
            | None => None
            | Some (b, p) => views_loop nh4 nh6 np4 np6 (mkViews b (buckets6 v) p (precise6 v)) ips
            end
          else if key_is x06 key then
            match view_add nh6 np6 key i (buckets6 v) (precise6 v) with
            | None => None
            | Some (b, p) => views_loop nh4 nh6 np4 np6 (mkViews (buckets4 v) b (precise4 v) p) ips
            end
          else None
      end
  end.

Definition is_nil {A} (o : option A) : bool := match o with None => true | Some _ => false end.

(** [ensureForMatcher]: [None] for false. *)
Definition ensureForMatcher (v : ipViews) (m : HeuristicIPMatcher) (ips : list ip) : option ipViews :=
  let nh4 := heur4 m && is_nil (buckets4 v) in
  let nh6 := heur6 m && is_nil (buckets6 v) in
  let np4 := negb (heur4 m) && is_nil (precise4 v) in
  let np6 := negb (heur6 m) && is_nil (precise6 v) in
  if negb nh4 && negb nh6 && negb np4 && negb np6 then Some v
  else views_loop nh4 nh6 np4 np6
         (mkViews (if nh4 then Some ∅ else buckets4 v) (if nh6 then Some ∅ else buckets6 v)
            (if np4 then Some [] else precise4 v) (if np6 then Some [] else precise6 v)) ips.

Fixpoint multi_matches_loop (mm : list HeuristicIPMatcher) (v : ipViews) (ips : list ip) : bool :=
  match mm with
  | [] => false
  | m :: mm =>
      match ensureForMatcher v m ips with
      | None => false
      | Some v =>
          let ok4 := if heur4 m then forallb (matchAddr m) (map_values (default ∅ (buckets4 v)))
                     else forallb (matchAddr m) (default [] (precise4 v)) in
          if negb ok4 then multi_matches_loop mm v ips
          else
            let ok6 := if heur6 m then forallb (matchAddr m) (map_values (default ∅ (buckets6 v)))
                       else forallb (matchAddr m) (default [] (precise6 v)) in
            if ok6 then true else multi_matches_loop mm v ips
      end
  end.

Definition Multi_Matches (mm : list HeuristicIPMatcher) (ips : list ip) : bool :=
  match ips with
  | [] => false
  | [i] => Multi_Match mm i
  | _ => multi_matches_loop mm (mkViews None None None None) ips
  end.

(** *** [FilterIPs]: an entry becomes nil when a matcher takes it *)

Record ipBucketViews := mkBViews {
  fb4 : option (gmap (list byte) (option ipBucket)); fb6 : option (gmap (list byte) (option ipBucket));
  fp4 : option (gmap Addr (option ip)); fp6 : option (gmap Addr (option ip))
}.

(** [b.ips = append(b.ips, ip)], with a new bucket where there is none; a nil bucket (already
    taken) would be dereferenced. *)
Definition bview_add (heur prec : bool) (key : list byte) (i : ip) (b : option (gmap (list byte) (option ipBucket)))
    (p : option (gmap Addr (option ip))) : option (gmap (list byte) (option ipBucket)) * option (gmap Addr (option ip)) :=
  match (if heur then
           match default ∅ b !! key with
           | Some o => match o with
                       | Some bk => Some (None, Some (<[key := Some (mkBucket (rep bk) (b_ips bk ++ [i]))]> (default ∅ b)))
                       | None => Some (None, b)
                       end
           | None => match FromStdIP i with
                     | None => None
                     | Some ipx => Some (Some ipx, Some (<[key := Some (mkBucket ipx [i])]> (default ∅ b)))
                     end
           end
         else Some (None, b)) with
  | None => (b, p)
  | Some (ipx, b) =>
      if prec : bool then
        match match ipx with Some a => Some a | None => FromStdIP i end with
        | None => (b, p)
        | Some a => (b, Some (<[a := Some i]> (default ∅ p)))
        end
      else (b, p)
  end.

Fixpoint bviews_loop (nh4 nh6 np4 np6 : bool) (v : ipBucketViews) (ips : list ip) : ipBucketViews :=
  match ips with
  | [] => v
  | i :: ips =>
      match prefixKeyFromIP i with
      | None => bviews_loop nh4 nh6 np4 np6 v ips
      | Some key =>
          if key_is x04 key then
            let '(b, p) := bview_add nh4 np4 key i (fb4 v) (fp4 v) in
            bviews_loop nh4 nh6 np4 np6 (mkBViews b (fb6 v) p (fp6 v)) ips
          else if key_is x06 key then
            let '(b, p) := bview_add nh6 np6 key i (fb6 v) (fp6 v) in
            bviews_loop nh4 nh6 np4 np6 (mkBViews (fb4 v) b (fp4 v) p) ips
          else bviews_loop nh4 nh6 np4 np6 v ips
      end
  end.

Definition bensureForMatcher (v : ipBucketViews) (m : HeuristicIPMatcher) (ips : list ip) : ipBucketViews :=
  let nh4 := heur4 m && is_nil (fb4 v) in
  let nh6 := heur6 m && is_nil (fb6 v) in
  let np4 := negb (heur4 m) && is_nil (fp4 v) in
  let np6 := negb (heur6 m) && is_nil (fp6 v) in
  if negb nh4 && negb nh6 && negb np4 && negb np6 then v
  else bviews_loop nh4 nh6 np4 np6
         (mkBViews (if nh4 then Some ∅ else fb4 v) (if nh6 then Some ∅ else fb6 v)
            (if np4 then Some ∅ else fp4 v) (if np6 then Some ∅ else fp6 v)) ips.

(** One pass over a view: what the matcher takes is appended and its entry set to nil. *)
Definition sweep {K B} `{Countable K} (test : K → B → bool) (out : B → list ip) (v : gmap K (option B)) (matched : list ip)
    : gmap K (option B) * list ip :=
  foldl (λ acc kb, match kb.2 with
                   | None => acc
                   | Some b => if test kb.1 b then (<[kb.1 := None]> acc.1, acc.2 ++ out b) else acc
                   end) (v, matched) (map_to_list v).

Definition filter_pass (m : HeuristicIPMatcher) (st : ipBucketViews * list ip) : ipBucketViews * list ip :=
  let '(v, matched) := st in
  let '(b4, p4, matched) :=
    if heur4 m then
      let '(b, matched) := sweep (λ _ b, matchAddr m (rep b)) b_ips (default ∅ (fb4 v)) matched in
      (Some b, fp4 v, matched)
    else
      let '(p, matched) := sweep (λ a _, matchAddr m a) (λ i, [i]) (default ∅ (fp4 v)) matched in
      (fb4 v, Some p, matched) in
  let '(b6, p6, matched) :=
    if heur6 m then
      let '(b, matched) := sweep (λ _ b, matchAddr m (rep b)) b_ips (default ∅ (fb6 v)) matched in
      (Some b, fp6 v, matched)
    else
      let '(p, matched) := sweep (λ a _, matchAddr m a) (λ i, [i]) (default ∅ (fp6 v)) matched in
      (fb6 v, Some p, matched) in
  (mkBViews b4 b6 p4 p6, matched).

Definition left_over {K B} `{Countable K} (out : B → list ip) (v : option (gmap K (option B))) : list ip :=
  map_values (default ∅ v) ≫= λ o, match o with Some b => out b | None => [] end.

Definition Multi_FilterIPs (mm : list HeuristicIPMatcher) (ips : list ip) : list ip * list ip :=
  match ips with
  | [] => ([], [])
  | [i] => match FromStdIP i with
           | None => ([], [])
           | Some ipx => if existsb (λ m, matchAddr m ipx) mm then (ips, []) else ([], ips)
           end
  | _ =>
      let '(v, matched) :=
        foldl (λ st m, filter_pass m (bensureForMatcher st.1 m ips, st.2)) (mkBViews None None None None, []) mm in
      (matched, left_over b_ips (fb4 v) ++ left_over (λ i, [i]) (fp4 v)
                ++ left_over b_ips (fb6 v) ++ left_over (λ i, [i]) (fp6 v))
  end.

Definition Multi_ToggleReverse (mm : list HeuristicIPMatcher) : list HeuristicIPMatcher := ToggleReverse <$> mm.
Definition Multi_SetReverse (mm : list HeuristicIPMatcher) (reverse : bool) : list HeuristicIPMatcher :=
  (λ m, SetReverse m reverse) <$> mm.

(** ** Building matchers from rules *)

Record CIDR := mkCIDR { c_ip : ip; c_prefix : Z }.
Record GeoIPRule := mkGeoIP { g_file : list byte; g_code : list byte; g_reverse : bool }.
Inductive IPRule :=
| IPRule_Custom (cidr : CIDR) (reverseMatch : bool)
| IPRule_Geoip (rule : GeoIPRule).

(** The prefix of a CIDR; [None] where it is ignored. *)
Definition cidr_prefix (c : CIDR) : option Prefix :=
  match AddrFromSlice (c_ip c) with
  | None => None
  | Some addr => let p := mkPrefix addr (c_prefix c) in if Prefix_IsValid p then Some p else None
  end.

(** [add]: the builders of the two families. *)
Definition add_cidr (st : list Prefix * list Prefix) (c : CIDR) : list Prefix * list Prefix :=
  match cidr_prefix c with
  | None => st
  | Some p =>
      if Is4 (p_addr p) then (st.1 ++ [p], st.2)
      else if Is6 (p_addr p) then (st.1, st.2 ++ [p]) else st
  end.

(** The longest prefix of a set: 0xff for the empty set, 0xfe for 0. *)
Definition max_bits (ps : list Prefix) : Z :=
  foldl (λ mx p, if decide (mx < p_bits p) then p_bits p else mx) 0 ps.
Definition level (ps : list Prefix) : Z :=
  match ps with
  | [] => 255
  | _ => if decide (max_bits ps = 0) then 254 else max_bits ps
  end.

Definition createFrom (cidrs : list CIDR) : go IPSet :=
  let '(p4, p6) := foldl add_cidr ([], []) cidrs in
  v4 ← match IPSetOf p4 with Err _ => Err (ErrMsg "failed to build IPv4 set") | r => r end;
  v6 ← match IPSetOf p6 with Err _ => Err (ErrMsg "failed to build IPv6 set") | r => r end;
  Ok (mkIPSet v4 v6 (u8 (level (Prefixes v4))) (u8 (level (Prefixes v6)))).

Definition CreateFromCIDRs (cidrs : list CIDR) : go IPSet := createFrom cidrs.

(** *** The cache of sets made of geo data *)

(** The order of Go strings. *)
Fixpoint str_lt (a b : list byte) : bool :=
  match a, b with
  | _, [] => false
  | [], _ :: _ => true
  | x :: a, y :: b => bool_decide (byte_to_Z x < byte_to_Z y) || (bool_decide (x = y) && str_lt a b)
  end.

Definition rule_less (ri rj : GeoIPRule) : bool :=
  if decide (g_file ri ≠ g_file rj) then str_lt (g_file ri) (g_file rj) else str_lt (g_code ri) (g_code rj).
Definition rule_le (ri rj : GeoIPRule) : Prop := rule_less rj ri = false.
#[global] Instance rule_le_dec ri rj : Decision (rule_le ri rj).
Proof. unfold rule_le. apply _. Defined.

Definition key_entry (r : GeoIPRule) : list byte := g_file r ++ s2b ":" ++ g_code r ++ s2b ",".

(** The loop writes a rule that differs from the last one written. *)
Fixpoint key_loop (last : option GeoIPRule) (rules : list GeoIPRule) : list byte :=
  match rules with
  | [] => []
  | r :: rules =>
      if match last with None => true | Some l => bool_decide (g_file r ≠ g_file l ∨ g_code r ≠ g_code l) end
      then key_entry r ++ key_loop (Some r) rules
      else key_loop last rules
  end.

Definition buildGeoIPRulesKey (rules : list GeoIPRule) : list byte := key_loop None (merge_sort rule_le rules).

(** [IPSetFactory]: the shared sets by key. The cache is weak: an entry may disappear. *)
Abbreviation IPSetFactory := (gmap (list byte) IPSet).

Context (loadIP : list byte → list byte → go (list CIDR)).

Fixpoint load_rules (rules : list GeoIPRule) : go (list CIDR) :=
  match rules with
  | [] => Ok []
  | r :: rules => cidrs ← loadIP (g_file r) (g_code r); rest ← load_rules rules; Ok (cidrs ++ rest)
  end.

Definition GetOrCreateFromGeoIPRules (f : IPSetFactory) (rules : list GeoIPRule) : go IPSet * IPSetFactory :=
  let key := buildGeoIPRulesKey rules in
  match f !! key with
  | Some s => (Ok s, f)
  | None =>
      let r := (cidrs ← load_rules rules; createFrom cidrs) in
      (r, match r with Ok s => <[key := s]> f | _ => f end)
  end.

(** *** [buildOptimizedIPMatcher] *)

Inductive IPMatcher := Single (m : HeuristicIPMatcher) | Several (mm : list HeuristicIPMatcher).

Definition custom_cidrs (reverse : bool) (rules : list IPRule) : list CIDR :=
  omap (λ r, match r with
             | IPRule_Custom c rv => if bool_decide (rv = reverse) then Some c else None
             | IPRule_Geoip _ => None end) rules.
Definition geoip_rules (reverse : bool) (rules : list IPRule) : list GeoIPRule :=
  omap (λ r, match r with
             | IPRule_Custom _ _ => None
             | IPRule_Geoip g => if bool_decide (g_reverse g = reverse) then Some g else None end) rules.

Definition custom_sub (reverse : bool) (cidrs : list CIDR) : go (list HeuristicIPMatcher) :=
  match cidrs with [] => Ok [] | _ => s ← CreateFromCIDRs cidrs; Ok [mkHeuristic s reverse] end.
Definition geoip_sub (f : IPSetFactory) (reverse : bool) (rules : list GeoIPRule)
    : go (list HeuristicIPMatcher) * IPSetFactory :=
  match rules with
  | [] => (Ok [], f)
  | _ => let '(r, f) := GetOrCreateFromGeoIPRules f rules in (s ← r; Ok [mkHeuristic s reverse], f)
  end.

Definition combine (subs : list HeuristicIPMatcher) : go IPMatcher :=
  match subs with
  | [] => Err (ErrMsg "no valid ip matcher")
  | [m] => Ok (Single m)
  | _ => Ok (Several subs)
  end.

(** The factory keeps what it loaded also when a later set fails. *)
Definition buildOptimizedIPMatcher (f : IPSetFactory) (rules : list IPRule) : go IPMatcher * IPSetFactory :=
  match (posCustom ← custom_sub false (custom_cidrs false rules);
         negCustom ← custom_sub true (custom_cidrs true rules); Ok (posCustom ++ negCustom)) with
  | Err e => (Err e, f)
  | Panic => (Panic, f)
  | Ok custom =>
      let '(rp, f) := geoip_sub f false (geoip_rules false rules) in
      match rp with
      | Err e => (Err e, f)
      | Panic => (Panic, f)
      | Ok posGeoip =>
          let '(rn, f) := geoip_sub f true (geoip_rules true rules) in
          (negGeoip ← rn; combine (custom ++ posGeoip ++ negGeoip), f)
      end
  end.

Definition IP_Match (m : IPMatcher) (i : ip) : bool :=
  match m with Single m => Match m i | Several mm => Multi_Match mm i end.
Definition IP_AnyMatch (m : IPMatcher) (ips : list ip) : bool :=
  match m with Single m => AnyMatch m ips | Several mm => Multi_AnyMatch mm ips end.
Definition IP_Matches (m : IPMatcher) (ips : list ip) : bool :=
  match m with Single m => Matches m ips | Several mm => Multi_Matches mm ips end.
Definition IP_FilterIPs (m : IPMatcher) (ips : list ip) : list ip * list ip :=
  match m with Single m => FilterIPs m ips | Several mm => Multi_FilterIPs mm ips end.
Definition IP_ToggleReverse (m : IPMatcher) : IPMatcher :=
  match m with Single m => Single (ToggleReverse m) | Several mm => Several (Multi_ToggleReverse mm) end.
Definition IP_SetReverse (m : IPMatcher) (reverse : bool) : IPMatcher :=
  match m with Single m => Single (SetReverse m reverse) | Several mm => Several (Multi_SetReverse mm reverse) end.

(** *** [DynamicIPMatcher]: what survives a reload of the geo data *)

Record DynamicIPMatcher := mkDynamic { d_rules : list IPRule; d_matcher : IPMatcher; d_reverse : bool; d_reverseSet : bool }.

Definition Dynamic_Reload (d : DynamicIPMatcher) (newMatcher : IPMatcher) : DynamicIPMatcher :=
  mkDynamic (d_rules d)
    (if d_reverseSet d then IP_SetReverse newMatcher (d_reverse d)
     else if d_reverse d then IP_ToggleReverse newMatcher else newMatcher)
    (d_reverse d) (d_reverseSet d).
Definition NewDynamicIPMatcher (rules : list IPRule) (matcher : IPMatcher) : DynamicIPMatcher :=
  Dynamic_Reload (mkDynamic rules matcher false false) matcher.
Definition Dynamic_ToggleReverse (d : DynamicIPMatcher) : DynamicIPMatcher :=
  mkDynamic (d_rules d) (IP_ToggleReverse (d_matcher d)) (negb (d_reverse d)) (d_reverseSet d).
Definition Dynamic_SetReverse (d : DynamicIPMatcher) (reverse : bool) : DynamicIPMatcher :=
  mkDynamic (d_rules d) (IP_SetReverse (d_matcher d) reverse) reverse true.

End matcher.
Arguments IPSet : clear implicits.
Arguments HeuristicIPMatcher : clear implicits.

(** ** Addresses in one bucket *)

Lemma byte_bits_length b : length (byte_bits b) = 8%nat.
Proof. done. Qed.

Lemma bits_app a b : bits (a ++ b) = bits a ++ bits b.
Proof. apply bind_app. Qed.

Lemma bits_length i : length (bits i) = (8 * length i)%nat.
Proof.
  induction i as [|b i IH]; [done|]. change (bits (b :: i)) with (byte_bits b ++ bits i).
  rewrite length_app, byte_bits_length, IH. cbn [length]. lia.
Qed.

(** Equal first bytes have equal first bits. *)
Lemma bits_take_eq n k a b : take k a = take k b → (k ≤ length a)%nat → (k ≤ length b)%nat → (n ≤ 8 * k)%nat →
  take n (bits a) = take n (bits b).
Proof.
  intros E Ha Hb Hn. rewrite <- (take_drop k a), <- (take_drop k b), !bits_app, E.
  rewrite !take_app_le; [done|..]; rewrite bits_length, length_take; lia.
Qed.

Lemma To4_length i b : To4 i = Some b → length b = 4%nat.
Proof.
  unfold To4. repeat case_decide; intros [= <-]; [done|]. rewrite length_drop. lia.
Qed.

Section netipx.
Context {T : Type} `{Netipx T}.

(** The addresses that have a key are the valid ones. *)
Lemma key_addr i : match prefixKeyFromIP i, FromStdIP (T := T) i with
  | Some key, Some a => (key_is x04 key = Is4 a ∧ key_is x06 key = Is6 a)
  | None, None => True
  | _, _ => False
  end.
Proof.
  rewrite FromStdIP_spec. unfold prefixKeyFromIP, To16, To4. by repeat case_decide.
Qed.

Lemma key_None i : prefixKeyFromIP i = None ↔ FromStdIP (T := T) i = None.
Proof. pose proof (key_addr i). destruct (prefixKeyFromIP i), (FromStdIP i); by split. Qed.

(** No prefix longer than a bucket, where the matcher relies on it. *)
Definition ipset_ok (s : IPSet T) : Prop :=
  (max4 s ≤ 24 → Forall (λ p, p_bits p ≤ 24) (Prefixes (ipv4 s))) ∧
  (max6 s ≤ 64 → Forall (λ p, p_bits p ≤ 64) (Prefixes (ipv6 s))).

Definition fam_heur (m : HeuristicIPMatcher T) (key : list byte) : bool :=
  (key_is x04 key && heur4 m) || (key_is x06 key && heur6 m).

Lemma contains_same (s : T) k n a b :
  Forall (λ p, p_bits p ≤ Z.of_nat n) (Prefixes s) → Is4 a = Is4 b → (n ≤ 8 * k)%nat →
  take k (addr_bytes a) = take k (addr_bytes b) → (k ≤ length (addr_bytes a))%nat → (k ≤ length (addr_bytes b))%nat →
  Contains s a = Contains s b.
Proof.
  intros Hp H4 Hn E Ha Hb. rewrite !Contains_prefixes. induction Hp as [|p ps Hp Hps IH]; [done|].
  cbn [existsb]. rewrite IH. f_equal. unfold prefix_contains. rewrite H4. f_equal.
  rewrite (bits_take_eq (Z.to_nat (p_bits p)) k (addr_bytes a) (addr_bytes b) E Ha Hb); [done|lia].
Qed.

Lemma same_key_addr (m : HeuristicIPMatcher T) i j key a b :
  ipset_ok (ipset m) → prefixKeyFromIP i = Some key → prefixKeyFromIP j = Some key → fam_heur m key = true →
  FromStdIP (T := T) i = Some a → FromStdIP (T := T) j = Some b → matchAddr m a = matchAddr m b.
Proof.
  intros [Hok4 Hok6] Hi Hj Hh Ha Hb. rewrite FromStdIP_spec in Ha, Hb. unfold prefixKeyFromIP in Hi, Hj.
  destruct (To4 i) as [x|] eqn:Ei, (To4 j) as [y|] eqn:Ej.
  - injection Ha as <-. injection Hb as <-. injection Hi as <-. injection Hj as E.
    apply app_inv_tail in E. apply To4_length in Ei, Ej.
    unfold matchAddr. cbn [Is4]. case_decide; [done|]. f_equal.
    eapply (contains_same _ 3 24); [|done|lia| |cbn [addr_bytes]; lia|cbn [addr_bytes]; lia].
    + apply Hok4. unfold fam_heur, key_is in Hh. cbn in Hh. rewrite orb_false_r in Hh. by apply bool_decide_eq_true in Hh.
    + by symmetry.
  - injection Hi as <-. by destruct (To16 j).
  - injection Hj as <-. by destruct (To16 i).
  - unfold To16 in Hi, Hj. destruct (decide (length i = 16%nat)) as [Li|]; [|done].
    destruct (decide (length j = 16%nat)) as [Lj|]; [|done]. injection Ha as <-. injection Hb as <-.
    rewrite decide_False in Hi by lia. rewrite decide_False in Hj by lia. injection Hi as <-. injection Hj as E. symmetry in E.
    unfold matchAddr. cbn [Is4 Is6]. case_decide; [done|]. f_equal.
    eapply (contains_same _ 8 64); [|done|lia|done|cbn [addr_bytes]; lia|cbn [addr_bytes]; lia].
    apply Hok6. unfold fam_heur, key_is in Hh. cbn in Hh. by apply bool_decide_eq_true in Hh.
Qed.

Lemma same_key_match (m : HeuristicIPMatcher T) i j key :
  ipset_ok (ipset m) → prefixKeyFromIP i = Some key → prefixKeyFromIP j = Some key → fam_heur m key = true →
  Match m i = Match m j.
Proof.
  intros Hok Hi Hj Hh. pose proof (key_addr i) as Ki. pose proof (key_addr j) as Kj. rewrite Hi in Ki. rewrite Hj in Kj.
  unfold Match. destruct (FromStdIP i) as [a|] eqn:Ea; [|done]. destruct (FromStdIP j) as [b|] eqn:Eb; [|done].
  exact (same_key_addr m i j key a b Hok Hi Hj Hh Ea Eb).
Qed.

(** ** [AnyMatch] is the disjunction *)

Lemma forallb_iff {A} (f : A → bool) l : forallb f l = true ↔ Forall (λ x, f x = true) l.
Proof. rewrite forallb_forall, list.Forall_forall. by setoid_rewrite list_elem_of_In. Qed.

Lemma match_none (m : HeuristicIPMatcher T) i : prefixKeyFromIP i = None → Match m i = false.
Proof. intros Hk%key_None. unfold Match. by rewrite Hk. Qed.

Section single.
Context (m : HeuristicIPMatcher T).
Hypothesis Hok : ipset_ok (ipset m).

Lemma any_loop_spec ips : ∀ buckets,
  (∀ key i, key ∈ buckets → prefixKeyFromIP i = Some key → Match m i = false) →
  any_loop m buckets ips = existsb (Match m) ips.
Proof.
  induction ips as [|i ips IH]; intros buckets Hb; cbn [any_loop existsb]; [done|].
  pose proof (key_addr i) as Ki. destruct (prefixKeyFromIP i) as [key|] eqn:Ek.
  - fold (fam_heur m key). destruct (decide (key ∈ buckets)) as [Hin|Hout].
    + rewrite bool_decide_true, (Hb key i Hin Ek) by done. cbn [orb].
      destruct (fam_heur m key) eqn:Eh; cbn [andb]; [by apply IH|].
      pose proof (Hb key i Hin Ek) as Hm. unfold Match in Hm. destruct (FromStdIP i); [|by apply IH].
      rewrite Hm. by apply IH.
    + rewrite bool_decide_false, andb_false_r by done. unfold Match at 1.
      destruct (FromStdIP i) as [a|] eqn:Ea; [|done]. destruct (matchAddr m a) eqn:Em; [done|]. cbn [orb].
      apply IH. destruct (fam_heur m key) eqn:Eh; [|done].
      intros key' j [->%elem_of_singleton|Hin]%elem_of_union Hj; [|by eapply Hb].
      rewrite <- (same_key_match m i j key Hok Ek Hj Eh). unfold Match. by rewrite Ea.
  - unfold Match at 1. destruct (FromStdIP i); [done|]. cbn [orb]. by apply IH.
Qed.

Lemma AnyMatch_existsb ips : AnyMatch m ips = existsb (Match m) ips.
Proof.
  destruct ips as [|i [|j ips]]; [done|cbn; by rewrite orb_false_r|]. unfold AnyMatch.
  destruct (negb (heur4 m) && negb (heur6 m)); [done|]. apply any_loop_spec. by intros key k ?%elem_of_empty.
Qed.

(** ** [Matches] is the conjunction *)

Definition fill_ok (buckets : gmap (list byte) Addr) : Prop := ∀ key a,
  buckets !! key = Some a → fam_heur m key = true ∧ ∃ i, prefixKeyFromIP i = Some key ∧ FromStdIP (T := T) i = Some a.

Lemma match_addr i a : FromStdIP (T := T) i = Some a → Match m i = matchAddr m a.
Proof. intros E. unfold Match. by rewrite E. Qed.

Lemma matches_fill_spec ips : ∀ buckets precise, fill_ok buckets →
  match matches_fill m buckets precise ips with
  | None => forallb (Match m) ips = false
  | Some (b, p) => fill_ok b ∧
      ((∀ k a, b !! k = Some a → matchAddr m a = true) ∧ Forall (λ a, matchAddr m a = true) p ↔
       (∀ k a, buckets !! k = Some a → matchAddr m a = true) ∧ Forall (λ a, matchAddr m a = true) precise ∧
       forallb (Match m) ips = true)
  end.
Proof.
  induction ips as [|i ips IH]; intros buckets precise Hf; cbn [matches_fill forallb].
  { split; [done|]. naive_solver. }
  pose proof (key_addr i) as Ki. destruct (prefixKeyFromIP i) as [key|] eqn:Ek; [|by rewrite (match_none m i)].
  destruct (FromStdIP i) as [a|] eqn:Ea; [|done]. rewrite (match_addr i a Ea).
  fold (fam_heur m key). destruct (fam_heur m key) eqn:Eh.
  - destruct (buckets !! key) as [a'|] eqn:Eb.
    + destruct (Hf key a' Eb) as [_ (j & Hj & Ej)].
      pose proof (same_key_addr m i j key a a' Hok Ek Hj Eh Ea Ej) as Hsame.
      specialize (IH buckets precise Hf). destruct (matches_fill m buckets precise ips) as [[b p]|]; [|by rewrite IH, andb_false_r].
      destruct IH as [Hb IH]. split; [done|]. rewrite IH, andb_true_iff, Hsame. naive_solver.
    + assert (Hf' : fill_ok (<[key := a]> buckets)).
      { intros k x [[<- <-]|[_ Hx]]%lookup_insert_Some; [|by apply Hf]. split; [done|]. by exists i. }
      specialize (IH _ precise Hf'). destruct (matches_fill m _ precise ips) as [[b p]|]; [|by rewrite IH, andb_false_r].
      destruct IH as [Hb IH]. split; [done|]. rewrite IH, andb_true_iff. split.
      * intros (H1 & H2 & H3). split_and!; [|done|by apply (H1 key), lookup_insert_eq|done].
        intros k x Hx. apply (H1 k). rewrite lookup_insert_ne; [done|]. intros ->. congruence.
      * intros (H1 & H2 & H3 & H4). split_and!; [|done|done]. intros k x [[<- <-]|[_ Hx]]%lookup_insert_Some; [done|by eapply H1].
  - specialize (IH buckets (precise ++ [a]) Hf).
    destruct (matches_fill m buckets (precise ++ [a]) ips) as [[b p]|]; [|by rewrite IH, andb_false_r].
    destruct IH as [Hb IH]. split; [done|]. rewrite IH, andb_true_iff, Forall_app, Forall_singleton. naive_solver.
Qed.

Lemma forallb_values (b : gmap (list byte) Addr) :
  forallb (matchAddr m) (map_values b) = true ↔ ∀ k a, b !! k = Some a → matchAddr m a = true.
Proof.
  unfold map_values. rewrite forallb_forall. split.
  - intros Hall k a Hk. apply Hall. apply list_elem_of_In, list_elem_of_fmap. exists (k, a). split; [done|].
    by apply elem_of_map_to_list.
  - intros Hall a Ha. apply list_elem_of_In, list_elem_of_fmap in Ha as ([k x] & -> & Hk).
    apply elem_of_map_to_list in Hk. by eapply Hall.
Qed.

Lemma Matches_forallb ips : Matches m ips = bool_decide (ips ≠ []) && forallb (Match m) ips.
Proof.
  destruct ips as [|i [|j ips]]; [done|cbn; by rewrite andb_true_r|]. unfold Matches.
  rewrite bool_decide_true by done. cbn [andb]. destruct (negb (heur4 m) && negb (heur6 m)); [done|].
  pose proof (matches_fill_spec (i :: j :: ips) ∅ []) as Hs.
  destruct (matches_fill m ∅ [] (i :: j :: ips)) as [[b p]|]; [|symmetry; by apply Hs].
  destruct Hs as [_ Hs]; [done|]. apply eq_true_iff_eq. rewrite andb_true_iff, forallb_values, forallb_iff, Hs.
  split; [by intros (_ & _ & ?)|]. intros Hall. split_and!; [done|apply Forall_nil_2|done].
Qed.

(** ** [FilterIPs] splits the valid addresses *)

Definition yes (i : ip) : Prop := Match m i = true.
Definition no (i : ip) : Prop := is_Some (FromStdIP (T := T) i) ∧ Match m i = false.
#[local] Instance yes_dec i : Decision (yes i).
Proof. unfold yes. apply _. Defined.
#[local] Instance no_dec i : Decision (no i).
Proof. unfold no. apply _. Defined.

Definition bucket_ok (key : list byte) (b : ipBucket) : Prop :=
  fam_heur m key = true ∧ (∃ i, prefixKeyFromIP i = Some key ∧ FromStdIP (T := T) i = Some (rep b)) ∧
  Forall (λ i, prefixKeyFromIP i = Some key) (b_ips b).

Lemma bucket_same key b i : bucket_ok key b → i ∈ b_ips b → Match m i = matchAddr m (rep b).
Proof.
  intros (Hh & (j & Hj & Ej) & Hall) Hi. rewrite <- (match_addr j _ Ej).
  apply (same_key_match m i j key Hok); [|done|done]. by apply (proj1 (list.Forall_forall _ _) Hall).
Qed.

Lemma key_some i key : prefixKeyFromIP i = Some key → is_Some (FromStdIP (T := T) i).
Proof. intros E. pose proof (key_addr i) as K. rewrite E in K. by destruct (FromStdIP i). Qed.

(** A bucket goes to one side as a whole. *)
Lemma bucket_filter key b : bucket_ok key b →
  filter yes (b_ips b) = (if matchAddr m (rep b) then b_ips b else []) ∧
  filter no (b_ips b) = (if matchAddr m (rep b) then [] else b_ips b).
Proof.
  intros Hb. assert (Hin : ∀ i, i ∈ b_ips b → Match m i = matchAddr m (rep b) ∧ is_Some (FromStdIP (T := T) i)).
  { intros i Hi. split; [by eapply bucket_same|]. destruct Hb as (_ & _ & Hall).
    by eapply key_some, (proj1 (list.Forall_forall _ _) Hall). }
  clear Hb. induction (b_ips b) as [|i l IH]; [by destruct (matchAddr m (rep b))|].
  destruct (Hin i) as [Hm Hs]; [left|]. destruct IH as [IH1 IH2]; [intros j Hj; apply Hin; by right|].
  destruct (matchAddr m (rep b)).
  - rewrite (filter_cons_True yes) by done. rewrite (filter_cons_False no) by (intros [_ ?]; congruence).
    by rewrite IH1, IH2.
  - rewrite (filter_cons_False yes) by (unfold yes; congruence). rewrite (filter_cons_True no) by done.
    by rewrite IH1, IH2.
Qed.

Lemma filter_buckets_spec bs : ∀ acc, Forall (λ b, ∃ key, bucket_ok key b) bs →
  foldl (filter_bucket m) acc bs = (acc.1 ++ filter yes (bs ≫= b_ips), acc.2 ++ filter no (bs ≫= b_ips)).
Proof.
  induction bs as [|b bs IH]; intros acc Hbs; [by destruct acc; rewrite !app_nil_r|].
  apply Forall_cons_1 in Hbs as [[key Hb] Hbs]. change ((b :: bs) ≫= b_ips) with (b_ips b ++ (bs ≫= b_ips)).
  rewrite !list.filter_app. destruct (bucket_filter key b Hb) as [-> ->]. cbn [foldl]. rewrite IH by done.
  unfold filter_bucket. destruct (matchAddr m (rep b)); cbn [fst snd app]; by rewrite <- app_assoc.
Qed.

Lemma filter_ips_spec ips : ∀ acc,
  foldl (filter_ip m) acc ips = (acc.1 ++ filter yes ips, acc.2 ++ filter no ips).
Proof.
  induction ips as [|i ips IH]; intros acc; [by destruct acc; rewrite !app_nil_r|]. cbn [foldl]. rewrite IH.
  unfold filter_ip. destruct (FromStdIP i) as [a|] eqn:Ea.
  - pose proof (match_addr i a Ea) as Hm. destruct (matchAddr m a).
    + rewrite (filter_cons_True yes) by done. rewrite (filter_cons_False no) by (intros [_ ?]; congruence).
      cbn [fst snd]. by rewrite <- app_assoc.
    + rewrite (filter_cons_False yes) by (unfold yes; congruence). rewrite (filter_cons_True no) by done.
      cbn [fst snd]. by rewrite <- app_assoc.
  - assert (Hm : Match m i = false) by (unfold Match; by rewrite Ea).
    rewrite (filter_cons_False yes) by (unfold yes; congruence).
    rewrite (filter_cons_False no) by (unfold no; rewrite Ea; by intros [[] _]). done.
Qed.

Definition held (buckets : gmap (list byte) ipBucket) : list ip := map_values buckets ≫= b_ips.

Lemma held_insert_new buckets key b : buckets !! key = None → held (<[key := b]> buckets) ≡ₚ b_ips b ++ held buckets.
Proof. intros E. unfold held, map_values. rewrite map_to_list_insert by done. done. Qed.

Lemma held_insert buckets key b i : buckets !! key = Some b →
  held (<[key := mkBucket (rep b) (b_ips b ++ [i])]> buckets) ≡ₚ held buckets ++ [i].
Proof.
  intros E. rewrite <- (insert_delete_id buckets key b E) at 2. rewrite <- insert_delete_eq.
  rewrite !held_insert_new by apply lookup_delete_eq. cbn [b_ips]. rewrite <- !app_assoc. by rewrite (Permutation_app_comm [i]).
Qed.

Definition valid_ (i : ip) : Prop := is_Some (FromStdIP (T := T) i).
#[local] Instance valid_dec i : Decision (valid_ i).
Proof. unfold valid_. apply _. Defined.

Lemma filter_fill_spec ips : ∀ buckets precise,
  map_Forall bucket_ok buckets →
  map_Forall bucket_ok (filter_fill m buckets precise ips).1 ∧
  held (filter_fill m buckets precise ips).1 ++ (filter_fill m buckets precise ips).2
    ≡ₚ held buckets ++ precise ++ filter valid_ ips.
Proof.
  induction ips as [|i ips IH]; intros buckets precise Hb; cbn [filter_fill fst snd]; [by rewrite app_nil_r|].
  destruct (prefixKeyFromIP i) as [key|] eqn:Ek.
  2:{ apply key_None in Ek. rewrite (filter_cons_False valid_) by (unfold valid_; rewrite Ek; by intros []). by apply IH. }
  pose proof (key_some i key Ek) as Hv. rewrite (filter_cons_True valid_) by done. destruct Hv as [a Ea].
  destruct ((key_is x04 key && negb (heur4 m)) || (key_is x06 key && negb (heur6 m))) eqn:En.
  { destruct (IH buckets (precise ++ [i]) Hb) as [? ->]. split; [done|]. by rewrite <- (app_assoc precise). }
  assert (Hh : fam_heur m key = true).
  { pose proof (key_addr i) as K. rewrite Ek, Ea in K. destruct K as [K4 K6]. unfold fam_heur. rewrite K4, K6 in *.
    destruct a, (heur4 m), (heur6 m); done. }
  destruct (buckets !! key) as [b|] eqn:Eb.
  - destruct (IH (<[key := mkBucket (rep b) (b_ips b ++ [i])]> buckets) precise) as [? ->].
    { apply map_Forall_insert_2; [|done]. destruct (Hb key b Eb) as (_ & Hr & Hall). split_and!; [done|done|].
      cbn. apply Forall_app. by rewrite Forall_singleton. }
    split; [done|]. rewrite (held_insert _ _ _ _ Eb), <- app_assoc. f_equiv. cbn [app]. by rewrite <- Permutation_middle.
  - rewrite Ea. destruct (IH (<[key := mkBucket a [i]]> buckets) precise) as [? ->].
    { apply map_Forall_insert_2; [|done]. split_and!; [done|by exists i|by apply Forall_singleton]. }
    split; [done|]. rewrite (held_insert_new _ _ _ Eb). cbn [b_ips app]. rewrite (Permutation_middle (held buckets)). f_equiv. apply Permutation_middle.
Qed.

Lemma filter_valid (P : ip → Prop) `{Pdec : ∀ i, Decision (P i)} (ips : list ip) : (∀ i, P i → valid_ i) → filter P (filter valid_ ips) = filter P ips.
Proof.
  intros HP. induction ips as [|i ips IH]; [done|]. destruct (decide (valid_ i)) as [Hv|Hv].
  - rewrite (filter_cons_True valid_) by done. destruct (decide (P i)).
    + by rewrite !(filter_cons_True P), IH.
    + by rewrite !(filter_cons_False P), IH.
  - rewrite (filter_cons_False valid_), IH by done. rewrite (filter_cons_False P); [done|]. auto.
Qed.

Lemma yes_valid i : yes i → valid_ i.
Proof. unfold yes, valid_, Match. destruct (FromStdIP i); [by eexists|done]. Qed.

Lemma FilterIPs_split ips :
  (FilterIPs m ips).1 ≡ₚ filter yes ips ∧ (FilterIPs m ips).2 ≡ₚ filter no ips.
Proof.
  destruct ips as [|i [|j ips]].
  - done.
  - pose proof (filter_ips_spec [i] ([], [])) as Hs. cbn [foldl fst snd app] in Hs.
    unfold FilterIPs. unfold filter_ip in Hs. destruct (FromStdIP i) as [a|]; [destruct (matchAddr m a)|]; cbn [fst snd app] in *;
      injection Hs as <- <-; done.
  - unfold FilterIPs. destruct (negb (heur4 m) && negb (heur6 m)); [by rewrite filter_ips_spec|].
    destruct (filter_fill_spec (i :: j :: ips) ∅ []) as [Hb Hp]; [apply map_Forall_empty|].
    destruct (filter_fill m ∅ [] (i :: j :: ips)) as [buckets precise]. cbn [fst snd app] in Hb, Hp.
    change (held ∅) with (@nil ip) in Hp. cbn [app] in Hp.
    rewrite filter_ips_spec, filter_buckets_spec.
    + cbn [fst snd app]. fold (held buckets). rewrite <- !list.filter_app, Hp.
      rewrite (filter_valid yes) by apply yes_valid. rewrite (filter_valid no) by (by intros ? [? _]). done.
    + apply list.Forall_forall. intros b Hb'. unfold map_values in Hb'. apply list_elem_of_fmap in Hb' as ([k b'] & -> & Hk).
      apply elem_of_map_to_list in Hk. exists k. by apply Hb.
Qed.

End single.
(** ** The combined matcher: [AnyMatch] *)

Section multi.
Context (mm : list (HeuristicIPMatcher T)).
Hypothesis Hmm : Forall (λ m, ipset_ok (ipset m)) mm.

(** No address of a known bucket matches where the bucket decides. *)
Definition seen_ok (ms : list (HeuristicIPMatcher T)) (buckets : gset (list byte)) : Prop :=
  ∀ key j m, key ∈ buckets → prefixKeyFromIP j = Some key → m ∈ ms → fam_heur m key = true → Match m j = false.

Lemma key_family i key : prefixKeyFromIP i = Some key →
  (head key = Some x04 ∨ head key = Some x06) ∧ (key_is x04 key = true ↔ head key = Some x04) ∧
  (key_is x06 key = true ↔ head key = Some x06).
Proof.
  intros E. unfold key_is. rewrite !bool_decide_eq_true. split; [|done].
  unfold prefixKeyFromIP in E. destruct (To4 i); [injection E as <-; by left|].
  destruct (To16 i); [injection E as <-; by right|done].
Qed.

(** The loop once the key was looked up: matchers whose bucket was seen are skipped, and
    these do not match. *)
Lemma multi_any_known i a ms : ∀ state ipx buckets,
  FromStdIP (T := T) i = Some a → state ≠ 0 → (ipx = None ∨ ipx = Some a) →
  (∀ m, m ∈ ms → (heur4 m && bool_decide (state = 4)) || (heur6 m && bool_decide (state = 6)) = true → Match m i = false) →
  multi_any_ip ms i state ipx buckets = (existsb (λ m, Match m i) ms, buckets).
Proof.
  induction ms as [|m ms IH]; intros state ipx buckets Ea Hs Hx Hskip; cbn [multi_any_ip existsb]; [done|].
  rewrite decide_False by done.
  destruct ((heur4 m && bool_decide (state = 4)) || (heur6 m && bool_decide (state = 6))) eqn:Esk.
  - rewrite (Hskip m) by (by left || done). cbn [orb]. apply IH; try done. intros m' Hm'. apply Hskip. by right.
  - assert (Hmi : match ipx with Some a => Some a | None => FromStdIP i end = Some a) by (by destruct Hx as [-> | ->]).
    rewrite Hmi, (match_addr m i a Ea). destruct (matchAddr m a); cbn [orb]; [done|].
    apply IH; [done|done|by right|]. intros m' Hm'. apply Hskip. by right.
Qed.

Lemma existsb_none i ms : FromStdIP (T := T) i = None → existsb (λ m : HeuristicIPMatcher T, Match m i) ms = false.
Proof. intros E. induction ms as [|m ms IH]; [done|]. cbn. rewrite IH. unfold Match. by rewrite E. Qed.

Lemma seen_ok_add i key ms buckets : prefixKeyFromIP i = Some key → Forall (λ m, ipset_ok (ipset m)) ms →
  seen_ok ms buckets → existsb (λ m, Match m i) ms = false → seen_ok ms ({[key]} ∪ buckets).
Proof.
  intros Ek Hok Hseen Hno key' j m [->%elem_of_singleton|Hin]%elem_of_union Hj Hm Hh; [|by eapply Hseen].
  rewrite <- (same_key_match m i j key) by (done || by apply (proj1 (list.Forall_forall _ _) Hok)).
  destruct (Match m i) eqn:Em; [|done]. rewrite <- Hno. symmetry. apply existsb_exists. exists m.
  by rewrite <- list_elem_of_In.
Qed.

(** Once the first matcher that uses buckets has looked up the key. *)
Lemma multi_any_looked_up i key a ms ipx buckets :
  Forall (λ m, ipset_ok (ipset m)) ms → prefixKeyFromIP i = Some key → FromStdIP (T := T) i = Some a →
  (ipx = None ∨ ipx = Some a) → seen_ok ms buckets →
  let st := if decide (key ∈ buckets) then (byte_to_Z (default x00 (head key)), buckets) else (1, {[key]} ∪ buckets) in
  (multi_any_ip ms i st.1 ipx st.2).1 = existsb (λ m, Match m i) ms ∧
  (existsb (λ m, Match m i) ms = false → seen_ok ms (multi_any_ip ms i st.1 ipx st.2).2).
Proof.
  intros Hok Ek Ea Hx Hseen. destruct (key_family i key Ek) as (Hhead & H4 & H6).
  destruct (decide (key ∈ buckets)) as [Hin|Hout]; cbn [fst snd].
  - rewrite (multi_any_known i a ms _ ipx buckets Ea); [by split| |done|].
    + destruct Hhead as [-> | ->]; vm_compute; done.
    + intros m Hm Hsk. apply (Hseen key i m Hin Ek Hm). unfold fam_heur.
      destruct Hhead as [Hh|Hh]; rewrite Hh in Hsk; cbn [from_option id] in Hsk.
      * rewrite (proj2 H4 Hh). change (byte_to_Z x04) with 4 in Hsk. cbn in Hsk.
        rewrite andb_true_r, andb_false_r, orb_false_r in Hsk. by rewrite Hsk.
      * rewrite (proj2 H6 Hh). change (byte_to_Z x06) with 6 in Hsk. cbn in Hsk.
        rewrite andb_true_r, andb_false_r in Hsk. cbn in Hsk. rewrite Hsk. apply orb_true_r.
  - rewrite (multi_any_known i a ms 1 ipx _ Ea); [|done|done|].
    + split; [done|]. cbn [snd]. by apply seen_ok_add.
    + intros m Hm Hsk. cbn in Hsk. by rewrite !andb_false_r in Hsk.
Qed.

Lemma multi_any_ip_spec i ms : ∀ ipx buckets, Forall (λ m, ipset_ok (ipset m)) ms →
  (ipx = None ∨ ipx = FromStdIP (T := T) i) → seen_ok ms buckets →
  (multi_any_ip ms i 0 ipx buckets).1 = existsb (λ m, Match m i) ms ∧
  (existsb (λ m, Match m i) ms = false → seen_ok ms (multi_any_ip ms i 0 ipx buckets).2).
Proof.
  induction ms as [|m ms IH]; intros ipx buckets Hok Hx Hseen; [by cbn|].
  pose proof Hok as [Hm Hok']%Forall_cons_1.
  destruct (heur4 m || heur6 m) eqn:Eh.
  - pose proof (key_addr i) as Ki. destruct (prefixKeyFromIP i) as [key|] eqn:Ek.
    + destruct (FromStdIP i) as [a|] eqn:Ea; [|done].
      pose proof (multi_any_looked_up i key a (m :: ms) ipx buckets Hok Ek Ea Hx Hseen) as Hl. cbv zeta in Hl.
      cbn [multi_any_ip]. rewrite decide_True, Eh, Ek by done.
      assert (Hst : byte_to_Z (default x00 (head key)) ≠ 0).
      { destruct (key_family i key Ek) as ([-> | ->] & _); vm_compute; done. }
      destruct (decide (key ∈ buckets)); cbn [fst snd multi_any_ip] in Hl; by rewrite decide_False in Hl.
    + destruct (FromStdIP i) eqn:Ea; [done|]. rewrite (existsb_none i _ Ea). cbn [multi_any_ip].
      rewrite decide_True, Eh, Ek by done. by split.
  - apply orb_false_iff in Eh as [E4 E6]. cbn [multi_any_ip]. rewrite decide_True, E4, E6 by done. cbn [orb andb].
    assert (Hi : match ipx with Some a => Some a | None => FromStdIP i end = FromStdIP i)
      by (destruct Hx as [-> | ->]; [done|by destruct (FromStdIP i)]).
    rewrite Hi. destruct (FromStdIP i) as [a|] eqn:Ea; [|by rewrite (existsb_none i _ Ea)].
    cbn [existsb]. rewrite (match_addr m i a Ea). destruct (matchAddr m a); cbn [orb]; [by split|].
    assert (Hsub : seen_ok ms buckets) by (intros key j m' ? ? ?; apply (Hseen key j m'); [done..|by right]).
    destruct (IH (Some a) buckets Hok' (or_intror eq_refl) Hsub) as [IH1 IH2]. split; [done|].
    intros Hno key j m' Hk Hj [->|Hm']%elem_of_cons Hf; [|by eapply IH2].
    unfold fam_heur in Hf. rewrite E4, E6, !andb_false_r in Hf. done.
Qed.

Lemma Multi_Match_existsb i : Multi_Match mm i = existsb (λ m, Match m i) mm.
Proof.
  unfold Multi_Match. destruct (FromStdIP i) as [a|] eqn:Ea; [|by rewrite existsb_none].
  induction mm as [|m ms IH]; [done|]. apply Forall_cons_1 in Hmm as [_ Hms].
  cbn. rewrite (match_addr m i a Ea), <- IH; done.
Qed.

Lemma multi_any_loop_spec ips : ∀ buckets, seen_ok mm buckets →
  multi_any_loop mm buckets ips = existsb (Multi_Match mm) ips.
Proof.
  induction ips as [|i ips IH]; intros buckets Hs; [done|]. cbn [multi_any_loop existsb].
  destruct (multi_any_ip_spec i mm None buckets Hmm (or_introl eq_refl) Hs) as [H1 H2].
  destruct (multi_any_ip mm i 0 None buckets) as [found buckets']. cbn [fst snd] in H1, H2. subst found.
  rewrite (Multi_Match_existsb i). destruct (existsb _ mm); [done|]. cbn [orb]. by apply IH, H2.
Qed.

Lemma Multi_AnyMatch_existsb ips : Multi_AnyMatch mm ips = existsb (Multi_Match mm) ips.
Proof.
  destruct ips as [|i [|j ips]]; [done|cbn; by rewrite orb_false_r|]. apply multi_any_loop_spec.
  by intros key k m ?%elem_of_empty.
Qed.

End multi.
(** ** The combined matcher: [Matches] *)

(** What the views hold, as folds over the addresses. *)
Definition bucket_add (f : bool) (b : gmap (list byte) Addr) (i : ip) : gmap (list byte) Addr :=
  match prefixKeyFromIP i, FromStdIP (T := T) i with
  | Some key, Some a =>
      if bool_decide (Is4 a = f) then match b !! key with Some _ => b | None => <[key := a]> b end else b
  | _, _ => b
  end.
Definition of_family (f : bool) (i : ip) : option Addr :=
  match FromStdIP (T := T) i with Some a => if bool_decide (Is4 a = f) then Some a else None | None => None end.

Definition filled (nh4 nh6 np4 np6 : bool) (v : ipViews) (ips : list ip) : ipViews :=
  mkViews (if nh4 then Some (foldl (bucket_add true) (default ∅ (buckets4 v)) ips) else buckets4 v)
          (if nh6 then Some (foldl (bucket_add false) (default ∅ (buckets6 v)) ips) else buckets6 v)
          (if np4 then Some (default [] (precise4 v) ++ omap (of_family true) ips) else precise4 v)
          (if np6 then Some (default [] (precise6 v) ++ omap (of_family false) ips) else precise6 v).

Definition all_valid (ips : list ip) : Prop := Forall (λ i, is_Some (FromStdIP (T := T) i)) ips.

Lemma view_add_spec heur prec f key i a b p :
  prefixKeyFromIP i = Some key → FromStdIP (T := T) i = Some a → Is4 a = f → (heur = true → is_Some b) →
  view_add (T := T) heur prec key i b p =
  Some (if heur then Some (bucket_add f (default ∅ b) i) else b, if prec then Some (default [] p ++ [a]) else p).
Proof.
  intros Ek Ea Hf Hb. unfold view_add, bucket_add. rewrite Ek, Ea, bool_decide_true by done.
  destruct heur; [|by destruct prec]. destruct (Hb eq_refl) as [b0 ->]. cbn [from_option id].
  by destruct (b0 !! key); destruct prec.
Qed.

Lemma views_loop_spec nh4 nh6 np4 np6 ips : ∀ v,
  (nh4 = true → is_Some (buckets4 v)) → (nh6 = true → is_Some (buckets6 v)) →
  (np4 = true → is_Some (precise4 v)) → (np6 = true → is_Some (precise6 v)) →
  match views_loop (T := T) nh4 nh6 np4 np6 v ips with
  | None => ¬ all_valid ips
  | Some v' => all_valid ips ∧ v' = filled nh4 nh6 np4 np6 v ips
  end.
Proof.
  induction ips as [|i ips IH]; intros v H4 H6 P4 P6; cbn [views_loop].
  { split; [apply Forall_nil_2|]. unfold filled. cbn [foldl omap list_omap]. destruct v as [b4 b6 p4 p6]. cbn in *.
    destruct nh4, nh6, np4, np6; repeat match goal with H : true = true → is_Some _ |- _ => destruct (H eq_refl) as [? ->]; clear H end;
      cbn [from_option id]; by rewrite ?app_nil_r. }
  pose proof (key_addr i) as Ki. destruct (prefixKeyFromIP i) as [key|] eqn:Ek.
  2:{ destruct (FromStdIP i) eqn:Ea; [done|]. intros [Hv _]%Forall_cons_1. rewrite Ea in Hv. by destruct Hv. }
  destruct (FromStdIP i) as [a|] eqn:Ea; [|done]. destruct Ki as [K4 K6].
  assert (Hcons : all_valid (i :: ips) ↔ all_valid ips).
  { unfold all_valid. rewrite list.Forall_cons, Ea. split; [by intros [_ ?]|]. by split. }
  assert (Hfam : of_family true i = (if Is4 a then Some a else None) ∧
                 of_family false i = (if Is4 a then None else Some a)).
  { unfold of_family. rewrite Ea. by destruct (Is4 a). }
  rewrite K4, K6. destruct a as [x|x]; cbn [Is4 Is6] in *.
  - rewrite (view_add_spec nh4 np4 true key i (Addr4 x)) by done.
    specialize (IH (mkViews (if nh4 then Some (bucket_add true (default ∅ (buckets4 v)) i) else buckets4 v) (buckets6 v)
                      (if np4 then Some (default [] (precise4 v) ++ [Addr4 x]) else precise4 v) (precise6 v))).
    cbn [buckets4 buckets6 precise4 precise6] in IH.
    destruct (views_loop nh4 nh6 np4 np6 _ ips) as [v'|].
    + destruct IH as [Hv ->]; [by destruct nh4|done|by destruct np4|done|]. split; [by apply Hcons|].
      unfold filled. cbn [foldl omap list_omap buckets4 buckets6 precise4 precise6]. destruct Hfam as [-> ->].
      assert (bucket_add false (default ∅ (buckets6 v)) i = default ∅ (buckets6 v)) as ->
        by (unfold bucket_add; rewrite Ek, Ea; done).
      f_equal; [by destruct nh4|destruct np4; cbn [from_option id]; by rewrite <- ?app_assoc].
    + rewrite Hcons. apply IH; [by destruct nh4|done|by destruct np4|done].
  - rewrite (view_add_spec nh6 np6 false key i (Addr6 x)) by done.
    specialize (IH (mkViews (buckets4 v) (if nh6 then Some (bucket_add false (default ∅ (buckets6 v)) i) else buckets6 v)
                      (precise4 v) (if np6 then Some (default [] (precise6 v) ++ [Addr6 x]) else precise6 v))).
    cbn [buckets4 buckets6 precise4 precise6] in IH.
    destruct (views_loop nh4 nh6 np4 np6 _ ips) as [v'|].
    + destruct IH as [Hv ->]; [done|by destruct nh6|done|by destruct np6|]. split; [by apply Hcons|].
      unfold filled. cbn [foldl omap list_omap buckets4 buckets6 precise4 precise6]. destruct Hfam as [-> ->].
      assert (bucket_add true (default ∅ (buckets4 v)) i = default ∅ (buckets4 v)) as ->
        by (unfold bucket_add; rewrite Ek, Ea; done).
      f_equal; [by destruct nh6|destruct np6; cbn [from_option id]; by rewrite <- ?app_assoc].
    + rewrite Hcons. apply IH; [done|by destruct nh6|done|by destruct np6].
Qed.

Section views.
Context (ips : list ip).

Abbreviation bfold f := (foldl (bucket_add f) ∅ ips).
Abbreviation pfold f := (omap (of_family f) ips).

(** All the addresses of one family match. *)
Definition fam_ok (m : HeuristicIPMatcher T) (f : bool) : Prop :=
  ∀ i a, i ∈ ips → FromStdIP (T := T) i = Some a → Is4 a = f → matchAddr m a = true.

Lemma forallb_families (m : HeuristicIPMatcher T) : forallb (Match m) ips = true ↔ all_valid ips ∧ fam_ok m true ∧ fam_ok m false.
Proof.
  rewrite forallb_iff. unfold all_valid, fam_ok. rewrite !list.Forall_forall. split.
  - intros Hall. split_and!.
    + intros i Hi. specialize (Hall i Hi). unfold Match in Hall. destruct (FromStdIP i); [by eexists|done].
    + intros i a Hi Ea _. rewrite <- (match_addr m i a Ea). auto.
    + intros i a Hi Ea _. rewrite <- (match_addr m i a Ea). auto.
  - intros (Hv & Ht & Hf) i Hi. destruct (Hv i Hi) as [a Ea]. rewrite (match_addr m i a Ea).
    destruct (Is4 a) eqn:E4; [by eapply Ht|by eapply Hf].
Qed.

Lemma bfold_spec f l :
  (∀ key a, foldl (bucket_add f) ∅ l !! key = Some a →
     ∃ i, i ∈ l ∧ prefixKeyFromIP i = Some key ∧ FromStdIP (T := T) i = Some a ∧ Is4 a = f) ∧
  (∀ i key a, i ∈ l → prefixKeyFromIP i = Some key → FromStdIP (T := T) i = Some a → Is4 a = f →
     is_Some (foldl (bucket_add f) ∅ l !! key)).
Proof.
  induction l as [|i l [IH1 IH2]] using rev_ind.
  { cbn [foldl]. split; [intros key a; by rewrite lookup_empty|]. by intros i key a ?%elem_of_nil. }
  rewrite foldl_app. cbn [foldl]. unfold bucket_add at 1 3. set (b := foldl (bucket_add f) ∅ l) in *.
  assert (Hmono : ∀ key, is_Some (b !! key) → is_Some (bucket_add f b i !! key)).
  { intros key Hs. unfold bucket_add. destruct (prefixKeyFromIP i) as [k|]; [|done]. destruct (FromStdIP i) as [x|]; [|done].
    case_bool_decide; [|done]. destruct (b !! k) eqn:Eb; [done|]. apply lookup_insert_is_Some'. by right. }
  split.
  - intros key a. intros Hl. assert (Hcase : b !! key = Some a ∨ prefixKeyFromIP i = Some key ∧ FromStdIP (T := T) i = Some a ∧ Is4 a = f).
    { destruct (prefixKeyFromIP i) as [k|]; [|by left]. destruct (FromStdIP i) as [x|]; [|by left].
      case_bool_decide; [|by left]. destruct (b !! k); [by left|].
      apply lookup_insert_Some in Hl as [[-> ->]|[_ ?]]; [by right|by left]. }
    destruct Hcase as [Hb|Hi].
    + destruct (IH1 key a Hb) as (j & Hj & ?). exists j. split; [|done]. apply elem_of_app. by left.
    + exists i. split; [|done]. apply elem_of_app. right. by apply list_elem_of_singleton.
  - intros j key a [Hj| ->%list_elem_of_singleton]%elem_of_app Ek Ea Hf.
    + apply Hmono. by eapply IH2.
    + rewrite Ek, Ea, bool_decide_true by done. destruct (b !! key) eqn:Eb; [by rewrite Eb|].
      rewrite lookup_insert_eq. by eexists.
Qed.

Lemma bfold_check (m : HeuristicIPMatcher T) (f : bool) : ipset_ok (ipset m) → (if f then heur4 m else heur6 m) = true →
  (forallb (matchAddr m) (map_values (bfold f)) = true ↔ fam_ok m f).
Proof.
  intros Hok Hh. rewrite forallb_values. destruct (bfold_spec f ips) as [H1 H2]. split.
  - intros Hall i a Hi Ea Hf. pose proof (key_addr i) as Ki. rewrite Ea in Ki.
    destruct (prefixKeyFromIP i) as [key|] eqn:Ek; [|done]. destruct Ki as [K4 K6].
    destruct (H2 i key a Hi Ek Ea Hf) as [a' Ha']. destruct (H1 key a' Ha') as (j & _ & Ej & Ea' & _).
    rewrite (same_key_addr m i j key a a'); [by eapply Hall|done..| |done|done].
    unfold fam_heur. rewrite K4, K6. destruct a, f; cbn in *; try done; rewrite Hh; done.
  - intros Hall key a Ha. destruct (H1 key a Ha) as (i & Hi & _ & Ea & Hf). by eapply Hall.
Qed.

Lemma pfold_check (m : HeuristicIPMatcher T) (f : bool) : forallb (matchAddr m) (pfold f) = true ↔ fam_ok m f.
Proof.
  rewrite forallb_iff, list.Forall_forall. unfold fam_ok. setoid_rewrite list_elem_of_omap. split.
  - intros Hall i a Hi Ea Hf. apply Hall. exists i. split; [done|]. unfold of_family.
    by rewrite Ea, bool_decide_true.
  - intros Hall a (i & Hi & Ha). unfold of_family in Ha. destruct (FromStdIP i) as [x|] eqn:Ex; [|done].
    case_bool_decide; [|done]. injection Ha as ->. by eapply Hall.
Qed.

Record views_inv (v : ipViews) : Prop := {
  vi_b4 : buckets4 v = None ∨ buckets4 v = Some (bfold true);
  vi_b6 : buckets6 v = None ∨ buckets6 v = Some (bfold false);
  vi_p4 : precise4 v = None ∨ precise4 v = Some (pfold true);
  vi_p6 : precise6 v = None ∨ precise6 v = Some (pfold false);
  vi_valid : v = mkViews None None None None ∨ all_valid ips
}.

Lemma ensure_spec v (m : HeuristicIPMatcher T) : views_inv v →
  match ensureForMatcher v m ips with
  | None => ¬ all_valid ips
  | Some v' => all_valid ips ∧ views_inv v' ∧
      (if heur4 m then buckets4 v' = Some (bfold true) else precise4 v' = Some (pfold true)) ∧
      (if heur6 m then buckets6 v' = Some (bfold false) else precise6 v' = Some (pfold false))
  end.
Proof.
  intros [B4 B6 P4 P6 V]. unfold ensureForMatcher.
  set (nh4 := heur4 m && _). set (nh6 := heur6 m && _). set (np4 := negb (heur4 m) && _). set (np6 := negb (heur6 m) && _).
  destruct (negb nh4 && negb nh6 && negb np4 && negb np6) eqn:En.
  - assert (Hv : all_valid ips).
    { destruct V as [->|]; [|done]. subst nh4 nh6 np4 np6. cbn in En. by destruct (heur4 m), (heur6 m). }
    split; [done|]. split; [by split; auto|]. subst nh4 nh6 np4 np6.
    destruct v as [b4 b6 p4 p6]. cbn [buckets4 buckets6 precise4 precise6] in *.
    destruct B4 as [-> | ->], B6 as [-> | ->], P4 as [-> | ->], P6 as [-> | ->]; cbn [is_nil] in En;
      by destruct (heur4 m), (heur6 m).
  - pose proof (views_loop_spec nh4 nh6 np4 np6 ips (mkViews (if nh4 then Some ∅ else buckets4 v) (if nh6 then Some ∅ else buckets6 v)
      (if np4 then Some [] else precise4 v) (if np6 then Some [] else precise6 v))) as Hl.
    destruct (views_loop _ _ _ _ _ ips) as [v'|]; [|apply Hl; by intros ->].
    destruct Hl as [Hv ->]; [by intros ->|by intros ->|by intros ->|by intros ->|]. split; [done|].
    subst nh4 nh6 np4 np6. unfold filled. destruct v as [b4 b6 p4 p6]. cbn [buckets4 buckets6 precise4 precise6] in *.
    destruct B4 as [-> | ->], B6 as [-> | ->], P4 as [-> | ->], P6 as [-> | ->];
      destruct (heur4 m), (heur6 m); cbn [is_nil andb negb from_option id app]; (split; [split; cbn; auto|done]).
Qed.

Lemma multi_matches_loop_spec mm : ∀ v, Forall (λ m, ipset_ok (ipset m)) mm → views_inv v →
  multi_matches_loop mm v ips = existsb (λ m, forallb (Match m) ips) mm.
Proof.
  induction mm as [|m mm IH]; intros v Hok Hv; [done|]. cbn [multi_matches_loop existsb].
  apply Forall_cons_1 in Hok as [Hm Hok]. pose proof (ensure_spec v m Hv) as He.
  pose proof (forallb_families m) as Hf.
  destruct (ensureForMatcher v m ips) as [v'|].
  - destruct He as (Hval & Hv' & H4 & H6).
    assert (E4 : (if heur4 m then forallb (matchAddr m) (map_values (default ∅ (buckets4 v')))
                  else forallb (matchAddr m) (default [] (precise4 v'))) = true ↔ fam_ok m true).
    { destruct (heur4 m) eqn:E; rewrite H4; cbn [from_option id]; [by apply bfold_check|apply pfold_check]. }
    assert (E6 : (if heur6 m then forallb (matchAddr m) (map_values (default ∅ (buckets6 v')))
                  else forallb (matchAddr m) (default [] (precise6 v'))) = true ↔ fam_ok m false).
    { destruct (heur6 m) eqn:E; rewrite H6; cbn [from_option id]; [by apply bfold_check|apply pfold_check]. }
    cbn zeta. destruct (if heur4 m then _ else _); cbn [negb].
    + destruct (if heur6 m then _ else _).
      * rewrite (proj2 Hf); [done|]. tauto.
      * rewrite (IH v' Hok Hv'). destruct (forallb (Match m) ips); [|done]. exfalso. destruct Hf as [Hf _]. intuition congruence.
    + rewrite (IH v' Hok Hv'). destruct (forallb (Match m) ips); [|done]. exfalso. destruct Hf as [Hf _]. intuition congruence.
  - symmetry. apply not_true_iff_false. rewrite orb_true_iff, existsb_exists. intros [H1|(m' & _ & H1)].
    + by apply Hf in H1 as [? _].
    + by apply forallb_families in H1 as [? _].
Qed.

End views.

Lemma Multi_Matches_spec mm ips : Forall (λ m, ipset_ok (ipset m)) mm →
  Multi_Matches mm ips = bool_decide (ips ≠ []) && existsb (λ m, forallb (Match m) ips) mm.
Proof.
  intros Hok. destruct ips as [|i [|j ips]].
  - done.
  - cbn [Multi_Matches]. rewrite bool_decide_true, Multi_Match_existsb by done. cbn [andb forallb].
    induction mm as [|m mm IH]; [done|]. apply Forall_cons_1 in Hok as [_ Hok]. cbn. by rewrite (IH Hok), andb_true_r.
  - cbn [Multi_Matches]. rewrite bool_decide_true by done. cbn [andb]. apply multi_matches_loop_spec; [done|].
    split; auto.
Qed.

(** ** Sets built from CIDR blocks *)

Definition cidr_contains (c : CIDR) (a : Addr) : bool :=
  match cidr_prefix c with Some p => prefix_contains p a | None => false end.
Definition cidr_family (c : CIDR) (a : Addr) : bool :=
  match cidr_prefix c with Some p => bool_decide (Is4 (p_addr p) = Is4 a) | None => false end.

(** What a set of blocks answers for an address: nothing of a family it has no block of, else
    whether a block contains it, or none does when reversed. *)
Definition cidrs_match (cidrs : list CIDR) (reverse : bool) (a : Addr) : bool :=
  existsb (λ c, cidr_family c a) cidrs && xorb (existsb (λ c, cidr_contains c a) cidrs) reverse.

Lemma cidr_prefix_valid c p : cidr_prefix c = Some p → Prefix_IsValid p = true.
Proof.
  unfold cidr_prefix. destruct (AddrFromSlice (c_ip c)); [|done]. cbn zeta.
  destruct (Prefix_IsValid _) eqn:E; [|done]. by intros [= <-].
Qed.

Lemma add_cidrs_spec cidrs : ∀ st,
  foldl add_cidr st cidrs =
  (st.1 ++ filter (λ p, Is4 (p_addr p) = true) (omap cidr_prefix cidrs),
   st.2 ++ filter (λ p, Is4 (p_addr p) = false) (omap cidr_prefix cidrs)).
Proof.
  induction cidrs as [|c cidrs IH]; intros [p4 p6]; cbn [foldl]; [by rewrite !app_nil_r|]. rewrite IH.
  unfold add_cidr. cbn [omap list_omap]. destruct (cidr_prefix c) as [p|]; [|done].
  destruct (p_addr p) as [b|b] eqn:Ep; cbn [Is4 Is6 fst snd].
  - rewrite (filter_cons_True (λ p, Is4 (p_addr p) = true)) by (by rewrite Ep).
    rewrite (filter_cons_False (λ p, Is4 (p_addr p) = false)) by (by rewrite Ep). by rewrite <- app_assoc.
  - rewrite (filter_cons_False (λ p, Is4 (p_addr p) = true)) by (by rewrite Ep).
    rewrite (filter_cons_True (λ p, Is4 (p_addr p) = false)) by (by rewrite Ep). by rewrite <- app_assoc.
Qed.

Lemma prefix_contains_self p : prefix_contains p (p_addr p) = true.
Proof. unfold prefix_contains. by rewrite !bool_decide_true. Qed.

Lemma prefix_contains_family p a : prefix_contains p a = true → Is4 (p_addr p) = Is4 a.
Proof. unfold prefix_contains. by intros [?%bool_decide_eq_true _]%andb_true_iff. Qed.

Lemma max_bits_spec ps : (∀ p, p ∈ ps → p_bits p ≤ max_bits ps) ∧ 0 ≤ max_bits ps ∧
  (max_bits ps = 0 ∨ ∃ p, p ∈ ps ∧ max_bits ps = p_bits p).
Proof.
  unfold max_bits. induction ps as [|p ps (IH1 & IH2 & IH3)] using rev_ind.
  { split; [by intros p ?%elem_of_nil|]. split; [done|by left]. }
  rewrite foldl_app. cbn [foldl]. set (mx := foldl _ 0 ps) in *.
  assert (Hp : p ∈ ps ++ [p]) by (apply elem_of_app; right; by apply list_elem_of_singleton).
  split_and!.
  - intros q [Hq| ->%list_elem_of_singleton]%elem_of_app; [apply IH1 in Hq|]; case_decide; lia.
  - case_decide; lia.
  - case_decide; [by right; exists p|]. destruct IH3 as [?|(q & Hq & ?)]; [by left|]. right. exists q.
    split; [|done]. apply elem_of_app. by left.
Qed.

Lemma level_spec (s : T) :
  (u8 (level (Prefixes s)) = 255 ↔ Prefixes s = []) ∧
  (∀ k, u8 (level (Prefixes s)) ≤ k → k < 254 → Forall (λ p, p_bits p ≤ k) (Prefixes s)).
Proof.
  destruct (max_bits_spec (Prefixes s)) as (H1 & H2 & H3).
  assert (Hb : max_bits (Prefixes s) ≤ 128).
  { destruct H3 as [->|(p & Hp & ->)]; [lia|].
    pose proof (proj1 (list.Forall_forall _ _) (Prefixes_valid s) p Hp) as Hv. apply bool_decide_eq_true in Hv.
    destruct (p_addr p); cbn in Hv; lia. }
  unfold level. destruct (Prefixes s) as [|p ps] eqn:Eps.
  - split; [done|]. intros k Hk Hlt. change (u8 255) with 255 in Hk. lia.
  - destruct (decide (max_bits (p :: ps) = 0)) as [E|E].
    + split; [done|]. intros k Hk Hlt. change (u8 254) with 254 in Hk. lia.
    + rewrite u8_small by (unfold is_u8; lia). split; [split; [lia|done]|].
      intros k Hk _. apply list.Forall_forall. intros q Hq%H1. lia.
Qed.

(** One family of the set. *)
Lemma family_set (f : bool) cidrs (s : T) a rev :
  IPSetOf (filter (λ p, Is4 (p_addr p) = f) (omap cidr_prefix cidrs)) = Ok s → Is4 a = f →
  (if decide (u8 (level (Prefixes s)) = 255) then false else xorb (Contains s a) rev) = cidrs_match cidrs rev a.
Proof.
  intros Hs Hf. set (ps := filter _ _) in *.
  assert (Hps : ∀ p, p ∈ ps ↔ Is4 (p_addr p) = f ∧ ∃ c, c ∈ cidrs ∧ cidr_prefix c = Some p).
  { intros p. unfold ps. by rewrite list_elem_of_filter, list_elem_of_omap. }
  assert (Hc : Contains s a = existsb (λ c, cidr_contains c a) cidrs).
  { apply eq_true_iff_eq. rewrite (IPSetOf_contains ps s a Hs), existsb_exists. unfold cidr_contains. split.
    - intros (p & (_ & c & Hc & Ec)%Hps & Hp). exists c. rewrite <- list_elem_of_In, Ec. done.
    - intros (c & Hc%list_elem_of_In & Hp). destruct (cidr_prefix c) as [p|] eqn:Ec; [|done]. exists p.
      split; [|done]. apply Hps. split; [|by exists c]. by rewrite (prefix_contains_family p a Hp). }
  assert (Hfam : Prefixes s = [] ↔ existsb (λ c, cidr_family c a) cidrs = false).
  { rewrite <- not_true_iff_false, existsb_exists. split.
    - intros E (c & Hc'%list_elem_of_In & Hp). unfold cidr_family in Hp. destruct (cidr_prefix c) as [p|] eqn:Ec; [|done].
      apply bool_decide_eq_true in Hp. assert (Hin : Contains s (p_addr p) = true).
      { apply (IPSetOf_contains ps s _ Hs). exists p. split; [|apply prefix_contains_self].
        apply Hps. split; [congruence|by exists c]. }
      by rewrite Contains_prefixes, E in Hin.
    - intros Hno. destruct (Prefixes s) as [|p ps'] eqn:E; [done|]. exfalso. apply Hno.
      assert (Hin : Contains s (p_addr p) = true).
      { rewrite Contains_prefixes, E. cbn. by rewrite prefix_contains_self. }
      apply (IPSetOf_contains ps s _ Hs) in Hin as (q & (Hq & c & Hc' & Ec)%Hps & _). exists c.
      split; [by apply list_elem_of_In|]. unfold cidr_family. rewrite Ec. by rewrite bool_decide_true by congruence. }
  unfold cidrs_match. rewrite Hc. destruct (level_spec s) as [Hl _].
  destruct (decide (u8 (level (Prefixes s)) = 255)) as [E|E].
  - by rewrite (proj1 Hfam (proj1 Hl E)).
  - destruct (existsb (λ c, cidr_family c a) cidrs); [done|]. destruct E. by apply Hl, Hfam.
Qed.

Lemma createFrom_spec cidrs : ∃ s, createFrom (T := T) cidrs = Ok s ∧ ipset_ok s ∧
  ∀ rev a, matchAddr (mkHeuristic s rev) a = cidrs_match cidrs rev a.
Proof.
  unfold createFrom. rewrite add_cidrs_spec. cbn [fst snd app].
  assert (Hval : ∀ f, Forall (λ p, Prefix_IsValid p = true) (filter (λ p, Is4 (p_addr p) = f) (omap cidr_prefix cidrs))).
  { intros f. apply list.Forall_forall. intros p [_ (c & _ & Hc)%list_elem_of_omap]%list_elem_of_filter.
    by eapply cidr_prefix_valid. }
  destruct (IPSetOf_ok _ (Hval true)) as [v4 E4], (IPSetOf_ok _ (Hval false)) as [v6 E6]. rewrite E4, E6.
  eexists. split; [done|]. split.
  - split; cbn [max4 max6 ipv4 ipv6]; intros Hk; by apply (proj2 (level_spec _)) in Hk.
  - intros rev a. unfold matchAddr. cbn [ipset reverse_ max4 max6 ipv4 ipv6].
    destruct a as [b|b]; cbn [Is4 Is6]; [by apply (family_set true)|by apply (family_set false)].
Qed.

(** ** The key of the cache *)

Definition colon : byte := x3a.
Definition comma : byte := x2c.

Definition name_ok (r : GeoIPRule) : Prop :=
  (colon ∉ g_file r) ∧ (comma ∉ g_file r) ∧ (colon ∉ g_code r) ∧ (comma ∉ g_code r).

Definition rule_name (r : GeoIPRule) : list byte * list byte := (g_file r, g_code r).

(** The rules the key names. *)
Fixpoint written (last : option GeoIPRule) (rules : list GeoIPRule) : list GeoIPRule :=
  match rules with
  | [] => []
  | r :: rules =>
      if match last with None => true | Some l => bool_decide (g_file r ≠ g_file l ∨ g_code r ≠ g_code l) end
      then r :: written (Some r) rules
      else written last rules
  end.

Lemma key_loop_written rules : ∀ last, key_loop last rules = written last rules ≫= key_entry.
Proof.
  induction rules as [|r rules IH]; intros last; [done|]. cbn [key_loop written].
  destruct (match last with None => true | Some l => _ end); [|apply IH]. by rewrite IH.
Qed.

Lemma split_at_byte (x : byte) a b r r' : x ∉ a → x ∉ b → a ++ x :: r = b ++ x :: r' → a = b ∧ r = r'.
Proof.
  revert b. induction a as [|y a IH]; intros [|z b] Ha Hb E; cbn in E.
  - by injection E.
  - injection E as <- _. destruct Hb. left.
  - injection E as -> _. destruct Ha. left.
  - injection E as -> E. apply not_elem_of_cons in Ha as [_ Ha], Hb as [_ Hb].
    destruct (IH b Ha Hb E) as [-> ->]. done.
Qed.

Lemma written_inj l : ∀ l', Forall name_ok l → Forall name_ok l' →
  l ≫= key_entry = l' ≫= key_entry → rule_name <$> l = rule_name <$> l'.
Proof.
  assert (Hentry : ∀ r rest, key_entry r ++ rest = g_file r ++ colon :: g_code r ++ comma :: rest).
  { intros r rest. unfold key_entry. change (s2b ":") with [colon]. change (s2b ",") with [comma].
    by rewrite <- !app_assoc. }
  induction l as [|r l IH]; intros [|r' l'] Hl Hl' E.
  - done.
  - change ((r' :: l') ≫= key_entry) with (key_entry r' ++ (l' ≫= key_entry)) in E. rewrite Hentry in E.
    by destruct (g_file r').
  - change ((r :: l) ≫= key_entry) with (key_entry r ++ (l ≫= key_entry)) in E. rewrite Hentry in E.
    by destruct (g_file r).
  - change ((r :: l) ≫= key_entry) with (key_entry r ++ (l ≫= key_entry)) in E.
    change ((r' :: l') ≫= key_entry) with (key_entry r' ++ (l' ≫= key_entry)) in E. rewrite !Hentry in E.
    apply Forall_cons_1 in Hl as [(F1 & F2 & F3 & F4) Hl], Hl' as [(G1 & G2 & G3 & G4) Hl'].
    apply split_at_byte in E as [Ef E]; [|done|done]. apply split_at_byte in E as [Ec E]; [|done|done].
    cbn [fmap list_fmap]. rewrite (IH l' Hl Hl' E). unfold rule_name. by rewrite Ef, Ec.
Qed.

Lemma elem_of_written rules : ∀ last x,
  (x ∈ rule_name <$> written last rules ∨ Some x = rule_name <$> last) ↔
  (x ∈ rule_name <$> rules ∨ Some x = rule_name <$> last).
Proof.
  induction rules as [|r rules IH]; intros last x; [done|]. cbn [written fmap list_fmap].
  destruct (match last with None => true | Some l => _ end) eqn:E.
  - cbn [fmap list_fmap]. rewrite !elem_of_cons. specialize (IH (Some r) x). cbn in IH.
    assert (Hs : Some x = Some (rule_name r) ↔ x = rule_name r) by (split; [by injection 1|by intros ->]).
    rewrite Hs in IH. tauto.
  - destruct last as [l|]; [|done]. apply bool_decide_eq_false in E. rewrite elem_of_cons, IH.
    assert (Hr : rule_name r = rule_name l).
    { unfold rule_name. destruct (decide (g_file r = g_file l)), (decide (g_code r = g_code l)); [congruence|tauto..]. }
    cbn. rewrite Hr. assert (Hs : Some x = Some (rule_name l) ↔ x = rule_name l) by (split; [by injection 1|by intros ->]).
    rewrite Hs. tauto.
Qed.

Lemma written_sub rules : ∀ last r, r ∈ written last rules → r ∈ rules.
Proof.
  induction rules as [|r' rules IH]; intros last r; [done|]. cbn [written].
  destruct (match last with None => true | Some l => _ end); rewrite ?elem_of_cons; [|by right; eapply IH].
  intros [->|?]; [by left|right; by eapply IH].
Qed.

(** Equal keys name the same geo data. *)
Lemma buildGeoIPRulesKey_inj rules rules' : Forall name_ok rules → Forall name_ok rules' →
  buildGeoIPRulesKey rules = buildGeoIPRulesKey rules' →
  ∀ x, x ∈ rule_name <$> rules ↔ x ∈ rule_name <$> rules'.
Proof.
  unfold buildGeoIPRulesKey. rewrite !key_loop_written. intros Hl Hl' E x.
  assert (Hsort : ∀ l, Forall name_ok l → Forall name_ok (written None (merge_sort rule_le l))).
  { intros l Hok. apply list.Forall_forall. intros r Hr%written_sub.
    apply (proj1 (list.Forall_forall _ _) Hok). by rewrite <- (merge_sort_Permutation rule_le l). }
  apply written_inj in E; [|by apply Hsort..].
  assert (Hw : ∀ l, x ∈ rule_name <$> written None (merge_sort rule_le l) ↔ x ∈ rule_name <$> l).
  { intros l. pose proof (elem_of_written (merge_sort rule_le l) None x) as H1. cbn in H1.
    rewrite (merge_sort_Permutation rule_le l) in H1 at 2.
    assert (¬ Some x = None) by done. tauto. }
  by rewrite <- (Hw rules), <- (Hw rules'), E.
Qed.

(** ** The matcher of a list of rules *)

Section rules.
Context (loadIP : list byte → list byte → go (list CIDR)).

Lemma load_rules_elem rules : ∀ cidrs, load_rules loadIP rules = Ok cidrs →
  ∀ c, c ∈ cidrs ↔ ∃ x l, x ∈ rule_name <$> rules ∧ loadIP x.1 x.2 = Ok l ∧ c ∈ l.
Proof.
  induction rules as [|r rules IH]; intros cidrs E c; cbn [load_rules] in E.
  { injection E as <-. rewrite elem_of_nil. split; [done|]. by intros (x & l & ?%elem_of_nil & _). }
  apply go_bind_ok in E as (l & El & E). apply go_bind_ok in E as (rest & Er & [= <-]).
  rewrite elem_of_app, (IH rest Er). cbn [fmap list_fmap]. setoid_rewrite elem_of_cons. split.
  - intros [Hc|(x & l' & Hx & ? & ?)]; [exists (rule_name r), l; by auto|exists x, l'; by auto].
  - intros (x & l' & [->|Hx] & El' & Hc); [|right; by exists x, l'].
    left. cbn in El'. congruence.
Qed.

Lemma existsb_mem {A} (f : A → bool) l l' : (∀ x, x ∈ l ↔ x ∈ l') → existsb f l = existsb f l'.
Proof.
  intros Hm. apply eq_true_iff_eq. rewrite !existsb_exists. setoid_rewrite <- list_elem_of_In. by setoid_rewrite Hm.
Qed.

Lemma cidrs_match_mem l l' rev a : (∀ c, c ∈ l ↔ c ∈ l') → cidrs_match l rev a = cidrs_match l' rev a.
Proof. intros Hm. unfold cidrs_match. by rewrite !(existsb_mem _ l l' Hm). Qed.

(** What is in the cache was loaded for rules with its key. *)
Definition factory_ok (f : gmap (list byte) (IPSet T)) : Prop := ∀ key s, f !! key = Some s →
  ipset_ok s ∧ ∃ rules cidrs, key = buildGeoIPRulesKey rules ∧ Forall name_ok rules ∧
    load_rules loadIP rules = Ok cidrs ∧ ∀ rev a, matchAddr (mkHeuristic s rev) a = cidrs_match cidrs rev a.

Lemma GetOrCreate_spec f rules cidrs : factory_ok f → Forall name_ok rules → load_rules loadIP rules = Ok cidrs →
  ∃ s f', GetOrCreateFromGeoIPRules loadIP f rules = (Ok s, f') ∧ factory_ok f' ∧ ipset_ok s ∧
    ∀ rev a, matchAddr (mkHeuristic s rev) a = cidrs_match cidrs rev a.
Proof.
  intros Hf Hn El. unfold GetOrCreateFromGeoIPRules. cbn zeta. destruct (f !! buildGeoIPRulesKey rules) as [s|] eqn:Ef.
  - destruct (Hf _ _ Ef) as (Hok & rules' & cidrs' & Ek & Hn' & El' & Hm). exists s, f. split_and!; [done..|].
    intros rev a. rewrite Hm. apply cidrs_match_mem. intros c.
    rewrite (load_rules_elem _ _ El), (load_rules_elem _ _ El'). pose proof (buildGeoIPRulesKey_inj _ _ Hn Hn' Ek) as Hx.
    by setoid_rewrite Hx.
  - rewrite El. cbn [mbind go_bind]. destruct (createFrom_spec cidrs) as (s & Es & Hok & Hm). rewrite Es.
    eexists s, _. split; [done|]. split; [|done]. intros key s' [[<- <-]|[_ Hs]]%lookup_insert_Some; [|by apply Hf].
    split; [done|]. by exists rules, cidrs.
Qed.

Lemma geoip_sub_spec f rev rules cidrs : factory_ok f → Forall name_ok rules → load_rules loadIP rules = Ok cidrs →
  ∃ ms f', geoip_sub loadIP f rev rules = (Ok ms, f') ∧ factory_ok f' ∧ Forall (λ m, ipset_ok (ipset m)) ms ∧
    (ms = [] → rules = []) ∧ ∀ a, existsb (λ m, matchAddr m a) ms = cidrs_match cidrs rev a.
Proof.
  intros Hf Hn El. destruct rules as [|r rules].
  { exists [], f. injection El as <-. split_and!; [done|done|apply Forall_nil_2|done|done]. }
  unfold geoip_sub. destruct (GetOrCreate_spec f _ _ Hf Hn El) as (s & f' & -> & Hf' & Hok & Hm).
  exists [mkHeuristic s rev], f'. split_and!; [done|done|by apply Forall_singleton|done|].
  intros a. cbn. by rewrite orb_false_r.
Qed.

Lemma custom_sub_spec rev cidrs : ∃ ms, custom_sub (T := T) rev cidrs = Ok ms ∧
  Forall (λ m, ipset_ok (ipset m)) ms ∧ (ms = [] → cidrs = []) ∧ ∀ a, existsb (λ m, matchAddr m a) ms = cidrs_match cidrs rev a.
Proof.
  destruct cidrs as [|c cidrs].
  { exists []. split_and!; [done|apply Forall_nil_2|done|done]. }
  unfold custom_sub, CreateFromCIDRs. destruct (createFrom_spec (c :: cidrs)) as (s & -> & Hok & Hm).
  exists [mkHeuristic s rev]. split_and!; [done|by apply Forall_singleton|done|]. intros a. cbn. by rewrite orb_false_r.
Qed.

(** What a list of rules says of an address. *)
Definition rules_match (rules : list IPRule) (pg ng : list CIDR) (a : Addr) : bool :=
  cidrs_match (custom_cidrs false rules) false a || cidrs_match (custom_cidrs true rules) true a
  || cidrs_match pg false a || cidrs_match ng true a.

(** Any matcher that the four groups make. *)
Lemma subs_answer subs (m : IPMatcher (T := T)) :
  combine subs = Ok m →
  Forall (λ m, ipset_ok (ipset m)) subs →
  (∀ i, IP_Match m i = match FromStdIP (T := T) i with Some a => existsb (λ m, matchAddr m a) subs | None => false end) ∧
  (∀ ips, IP_AnyMatch m ips = existsb (IP_Match m) ips).
Proof.
  intros E Hok. destruct subs as [|m1 [|m2 ms]]; [done|injection E as <-|injection E as <-].
  - apply Forall_cons_1 in Hok as [Hok _]. split; [|intros ips; exact (AnyMatch_existsb m1 Hok ips)].
    intros i. cbn [IP_Match existsb]. unfold Match. destruct (FromStdIP i); [by rewrite orb_false_r|done].
  - split; [done|]. intros ips. exact (Multi_AnyMatch_existsb _ Hok ips).
Qed.

Lemma no_rules rules : custom_cidrs false rules = [] → custom_cidrs true rules = [] →
  geoip_rules false rules = [] → geoip_rules true rules = [] → rules = [].
Proof.
  destruct rules as [|[c rv|g] rules]; [done|..]; intros H1 H2 H3 H4; cbn in *.
  - by destruct rv.
  - by destruct (g_reverse g).
Qed.

Lemma existsb_app' {A} (f : A → bool) l k : existsb f (l ++ k) = existsb f l || existsb f k.
Proof. apply existsb_app. Qed.

Lemma ip_rules_answers f rules pg ng :
  factory_ok f → rules ≠ [] → Forall name_ok (geoip_rules false rules) → Forall name_ok (geoip_rules true rules) →
  load_rules loadIP (geoip_rules false rules) = Ok pg → load_rules loadIP (geoip_rules true rules) = Ok ng →
  ∃ m f', buildOptimizedIPMatcher loadIP f rules = (Ok m, f') ∧ factory_ok f' ∧
    (∀ i, IP_Match m i = match FromStdIP (T := T) i with Some a => rules_match rules pg ng a | None => false end) ∧
    (∀ ips, IP_AnyMatch m ips = existsb (IP_Match m) ips).
Proof.
  intros Hf Hne Hn1 Hn2 Hl1 Hl2. unfold buildOptimizedIPMatcher.
  destruct (custom_sub_spec false (custom_cidrs false rules)) as (m1 & -> & Ok1 & N1 & M1). cbn [mbind go_bind].
  destruct (custom_sub_spec true (custom_cidrs true rules)) as (m2 & -> & Ok2 & N2 & M2). cbn [mbind go_bind].
  destruct (geoip_sub_spec f false _ _ Hf Hn1 Hl1) as (m3 & f3 & -> & Hf3 & Ok3 & N3 & M3).
  destruct (geoip_sub_spec f3 true _ _ Hf3 Hn2 Hl2) as (m4 & f4 & -> & Hf4 & Ok4 & N4 & M4). cbn [mbind go_bind].
  set (subs := (m1 ++ m2) ++ m3 ++ m4).
  assert (Hok : Forall (λ m, ipset_ok (ipset m)) subs) by (unfold subs; rewrite !Forall_app; done).
  assert (Hmatch : ∀ a, existsb (λ m, matchAddr m a) subs = rules_match rules pg ng a).
  { intros a. unfold subs, rules_match. rewrite !existsb_app', M1, M2, M3, M4. by rewrite !orb_assoc. }
  assert (Hsome : ∃ m, combine subs = Ok m).
  { destruct subs as [|x [|y l]] eqn:Es; [|by eexists..]. exfalso. unfold subs in Es.
    apply app_eq_nil in Es as [[-> ->]%app_eq_nil [-> ->]%app_eq_nil]. apply Hne, no_rules; auto. }
  destruct Hsome as [m Em]. destruct (subs_answer subs m Em Hok) as [H1 H2]. exists m, f4. rewrite Em.
  split; [done|]. split; [done|]. split; [|done]. intros i. rewrite H1. destruct (FromStdIP i); [apply Hmatch|done].
Qed.

(** C36: the matcher built from routing or DNS rules is exact. For a non-empty list of rules
    whose geo data load and whose files and codes have no colon and no comma in their names, the grouping by sign and kind, the cached sets and the /24 and /64
    buckets do not change the answer: an address matches if and only if some positive block
    contains it, or it has the family of some negated block of a kind and none of the negated
    blocks of that kind contains it; any list of addresses matches if and only if one of them
    does; and the cache stays consistent. *)
Theorem ip_rules_exact f rules pg ng :
  factory_ok f → rules ≠ [] → Forall name_ok (geoip_rules false rules) → Forall name_ok (geoip_rules true rules) →
  load_rules loadIP (geoip_rules false rules) = Ok pg → load_rules loadIP (geoip_rules true rules) = Ok ng →
  ∃ m f', buildOptimizedIPMatcher loadIP f rules = (Ok m, f') ∧ factory_ok f' ∧
    (∀ i, IP_Match m i = match FromStdIP (T := T) i with Some a => rules_match rules pg ng a | None => false end) ∧
    (∀ ips, IP_AnyMatch m ips = existsb (IP_Match m) ips).
Proof. apply ip_rules_answers. Qed.

(** Filtering with a single set keeps every valid address exactly once on the right side:
    the matched part is a permutation of the addresses that match, the unmatched part of the
    valid ones that do not, whatever the buckets. *)
Lemma ip_filter_exact (s : IPSet T) rev ips :
  ipset_ok s →
  (FilterIPs (mkHeuristic s rev) ips).1 ≡ₚ filter (λ i, Match (mkHeuristic s rev) i = true) ips ∧
  (FilterIPs (mkHeuristic s rev) ips).2 ≡ₚ
    filter (λ i, is_Some (FromStdIP (T := T) i) ∧ Match (mkHeuristic s rev) i = false) ips.
Proof.
  intros Hok. destruct (FilterIPs_split (mkHeuristic s rev) Hok ips) as [H1 H2]. split.
  - rewrite H1. erewrite (list_filter_iff (yes _)); [done|]. done.
  - rewrite H2. erewrite (list_filter_iff (no _)); [done|]. done.
Qed.

End rules.
End netipx.

(** ** Sets as lists of prefixes *)

#[global] Instance prefix_list_ops : NetipxOps (list Prefix) := {|
  FromStdIP i := match To4 i with
                 | Some b => Some (Addr4 b)
                 | None => if decide (length i = 16%nat) then Some (Addr6 i) else None end;
  IPSetOf ps := if forallb Prefix_IsValid ps then Ok ps else Err (ErrMsg "invalid prefix");
  Contains s a := existsb (λ p, prefix_contains p a) (filter (λ p, Prefix_IsValid p = true) s);
  Prefixes s := filter (λ p, Prefix_IsValid p = true) s
|}.

#[global] Instance prefix_list : Netipx (list Prefix).
Proof.
  split.
  - done.
  - intros s. cbn. apply list.Forall_forall. by intros p [? _]%list_elem_of_filter.
  - done.
  - intros ps Hps. exists ps. cbn. by rewrite (proj2 (forallb_iff _ _) Hps).
  - intros ps s a. cbn. destruct (forallb Prefix_IsValid ps) eqn:E; [|done]. intros [= <-].
    apply forallb_iff in E. rewrite existsb_exists. setoid_rewrite <- list_elem_of_In.
    setoid_rewrite list_elem_of_filter. split; [naive_solver|]. intros (p & Hp & Hc). exists p.
    split; [|done]. split; [|done]. by apply (proj1 (list.Forall_forall _ _) E).
Qed.

(** 10.0.0.0/8 and 1.2.3.4/32 as two sets, as when one comes from geo data. *)
Definition coarse_cidr : CIDR := mkCIDR [x0a; x00; x00; x00] 8.
Definition fine_cidr : CIDR := mkCIDR [x01; x02; x03; x04] 32.
Definition mixed_rules : list IPRule :=
  [IPRule_Custom fine_cidr false; IPRule_Geoip (mkGeoIP [x67] [x70] false)].
Definition sample_loadIP (file code : list byte) : go (list CIDR) := Ok [coarse_cidr].

Definition mixed_matcher : IPMatcher (T := list Prefix) :=
  Several [mkHeuristic (mkIPSet [mkPrefix (Addr4 [x01; x02; x03; x04]) 32] [] 32 255) false;
           mkHeuristic (mkIPSet [mkPrefix (Addr4 [x0a; x00; x00; x00]) 8] [] 8 255) false].

(** Filtering by several sets does not split the addresses. When one set is bucketed and
    another is not, each keeps its own view of the addresses and both views are emptied into
    the unmatched part: with the rules 1.2.3.4/32 and geo data 10.0.0.0/8, the addresses
    1.2.3.4 and 10.0.0.1 are both reported as matched and both as unmatched, although both
    match. *)
Lemma multi_filter_overlaps :
  ∃ m, (buildOptimizedIPMatcher (T := list Prefix) sample_loadIP ∅ mixed_rules).1 = Ok m ∧
    let ips := [[x0a; x00; x00; x01]; [x01; x02; x03; x04]] in
    forallb (IP_Match m) ips = true ∧
    (∀ i, i ∈ ips → i ∈ (IP_FilterIPs m ips).1 ∧ i ∈ (IP_FilterIPs m ips).2).
Proof.
  exists mixed_matcher. split; [vm_compute; reflexivity|]. cbv zeta. split; [vm_compute; reflexivity|].
  intros i Hi. rewrite !elem_of_cons, elem_of_nil in Hi.
  destruct Hi as [->|[->|[]]]; split; apply list_elem_of_In; vm_compute; tauto.
Qed.

(** [Matches] of several sets asks one set to match all the addresses: two addresses that both
    match need not match together. *)
Lemma multi_matches_not_all :
  ∃ m, (buildOptimizedIPMatcher (T := list Prefix) sample_loadIP ∅ mixed_rules).1 = Ok m ∧
    let ips := [[x0a; x00; x00; x01]; [x01; x02; x03; x04]] in
    forallb (IP_Match m) ips = true ∧ IP_Matches m ips = false.
Proof. exists mixed_matcher. by split_and!; vm_compute. Qed.

Lemma ip_rules_exact_witness :
  ∃ m f, buildOptimizedIPMatcher (T := list Prefix) sample_loadIP ∅ mixed_rules = (Ok m, f) ∧
    IP_Match m [x0a; x00; x00; x01] = true ∧ IP_AnyMatch m [[x08; x08; x08; x08]; [x0a; x00; x00; x01]] = true.
Proof.
  destruct (ip_rules_exact (T := list Prefix) sample_loadIP ∅ mixed_rules [coarse_cidr] []) as (m & f & E & _ & Hm & Ha).
  - intros key s Hk. by rewrite lookup_empty in Hk.
  - discriminate.
  - apply Forall_cons_2; [|apply Forall_nil_2].
    split_and!; cbn; rewrite list_elem_of_singleton; discriminate.
  - apply Forall_nil_2.
  - reflexivity.
  - reflexivity.
  - exists m, f. split; [exact E|]. assert (H1 : IP_Match m [x0a; x00; x00; x01] = true) by (rewrite Hm; vm_compute; reflexivity).
    split; [exact H1|]. rewrite Ha. cbn [existsb]. rewrite H1. by rewrite orb_true_r.
Defined.

Definition sample_set : IPSet (list Prefix) := mkIPSet [mkPrefix (Addr4 [x0a; x00; x00; x00]) 8] [] 8 255.

Lemma ip_filter_exact_witness :
  let m := mkHeuristic sample_set false in
  (FilterIPs m [[x0a; x00; x00; x01]; [x08; x08; x08; x08]; [x0a]]).2 ≡ₚ [[x08; x08; x08; x08]].
Proof.
  destruct (ip_filter_exact sample_set false [[x0a; x00; x00; x01]; [x08; x08; x08; x08]; [x0a]]) as [_ H].
  - split; cbn; intros; [|lia]. repeat (apply Forall_cons_2; [cbn; lia|]). apply Forall_nil_2.
  - cbv zeta. rewrite H. vm_compute. reflexivity.
Defined.
