(* ===== verification/GeoLoader.v ===== *)
(** * Geo data files and the text of rules

    Models [common/geodata/geodat_loader.go] (the search for one entry of a protobuf list
    without decoding the list, the attribute filter of a list of sites) and
    [common/geodata/rule_parser.go] (the text form of IP and domain rules). A file is the
    [Stream] it is read from; opening one, decoding a protobuf message and the case mapping of
    runes outside ASCII are parameters. *)

From S2P Require Import Prelude Net StrMatcher IpMatcher.
Import GoText.

#[local] Open Scope Z_scope.

(** ** Strings of the Go standard library *)

Definition HasPrefix (s p : str) : bool := bool_decide (take (length p) s = p).
Definition TrimPrefixLen (s p : str) : str := drop (length p) s.

(** [strings.Cut] with a separator of one byte. *)
Fixpoint Cut (s : str) (sep : byte) : str * str * bool :=
  match s with
  | [] => ([], [], false)
  | c :: s => if decide (c = sep) then ([], s, true)
              else let '(before, after, found) := Cut s sep in (c :: before, after, found)
  end.

(** [strings.Split] with a separator of one byte. *)
Fixpoint Split (s : str) (sep : byte) : list str :=
  match s with
  | [] => [[]]
  | c :: s => if decide (c = sep) then [] :: Split s sep
              else match Split s sep with [] => [[c]] | w :: ws => (c :: w) :: ws end
  end.

Definition isASCII (s : str) : bool := forallb (λ c, bool_decide (byte_to_Z c < 128)) s.
Definition upper (c : byte) : byte :=
  if decide (97 ≤ byte_to_Z c ≤ 122) then byte_of_Z (byte_to_Z c - 32) else c.

(** [strings.ToLower] and [strings.ToUpper]: byte by byte on ASCII; [mapRunes] is
    [strings.Map] with the Unicode table. *)
Definition strings_ToLower (mapRunes : str → str) (s : str) : str := if isASCII s then ToLower s else mapRunes s.
Definition strings_ToUpper (mapRunes : str → str) (s : str) : str := if isASCII s then upper <$> s else mapRunes s.

(** ** Reading one entry of a file *)

Definition i64 (z : Z) : Z := (z + 9223372036854775808) mod 18446744073709551616 - 9223372036854775808.

(** [br.ReadByte]. *)
Definition ReadByte (br : Stream) : go (byte * Stream) :=
  match sdata br with
  | [] => Err (serr br)
  | b :: rest => Ok (b, mkStream rest (serr br))
  end.

(** The loop of [decodeVarint], at [shift]; [n] counts the shifts below 64 that are left. *)
Fixpoint varint_loop (n : nat) (shift x : Z) (br : Stream) : go (Z * Stream) :=
  match n with
  | O => Err (ErrMsg "varint overflow")
  | S n =>
      '(b, br) ← ReadByte br;
      let x := Z.lor x (u64 (Z.shiftl (Z.land (byte_to_Z b) 127) shift)) in
      if decide (Z.land (byte_to_Z b) 128 = 0) then Ok (x, br) else varint_loop n (shift + 7) x br
  end.
Definition decodeVarint (br : Stream) : go (Z * Stream) := varint_loop 10 0 0 br.

(** [br.Discard]. *)
Definition Discard (br : Stream) (n : Z) : go Stream :=
  if decide (n ≤ len (sdata br)) then Ok (mkStream (drop (Z.to_nat n) (sdata br)) (serr br)) else Err (serr br).

Definition io_ReadFull (br : Stream) (n : Z) : go (list byte * Stream) :=
  match read_full br n with
  | (bs, None, br) => Ok (bs, br)
  | (_, Some e, _) => Err e
  end.

(** [make([]byte, n)] panics above the address space of the runtime; that the process may run out of
    memory below it is left out. *)
Definition maxAlloc : Z := 281474976710656.

Definition out_of_fuel : GoError := ErrMsg "out of fuel".

(** The top of the loop of [find]: the length of the next body, its first bytes (as many as
    the code needs, or all) and whether they carry the code. *)
Definition next_entry (br : Stream) (code : list byte) : go (Z * list byte * bool * Stream) :=
  let need := 2 + len code in
  '(_, br) ← ReadByte br;
  '(x, br) ← decodeVarint br;
  let bodyL := i64 x in
  if decide (bodyL ≤ 0) then Err (ErrMsg "invalid body length: ") else
  let prefixL := if decide (bodyL > need) then need else bodyL in
  '(prefix, br) ← io_ReadFull br prefixL;
  hit ← (if decide (bodyL >= need) then
           p1 ← ok_or_panic (index prefix 1);
           if decide (byte_to_Z p1 = len code)
           then p2 ← ok_or_panic (slice prefix 2 need); Ok (bool_decide (p2 = code))
           else Ok false
         else Ok false);
  Ok (bodyL, prefix, hit, br).

(** The loop of [find]; [len prefix] is [prefixL]. *)
Fixpoint find_loop (fuel : nat) (br : Stream) (code : list byte) (readBody : bool) : go (list byte) :=
  match fuel with
  | O => Err out_of_fuel
  | S fuel =>
      '(bodyL, prefix, hit, br) ← next_entry br code;
      let remain := bodyL - len prefix in
      if hit && negb readBody then Ok []
      else if hit : bool then
        if decide (bodyL > maxAlloc) then Panic
        else if decide (remain > 0) then '(rest, _) ← io_ReadFull br remain; Ok (prefix ++ rest)
        else Ok prefix
      else if decide (remain > 0) then br ← Discard br remain; find_loop fuel br code readBody
      else find_loop fuel br code readBody
  end.

Definition find (r : Stream) (code : list byte) (readBody : bool) : go (list byte) :=
  if decide (len code = 0) then Err (ErrMsg "empty code")
  else find_loop (S (length (sdata r))) r code readBody.

(** ** Loading *)

(** The generated enumeration is open: a number without a name is kept. *)
Inductive Domain_Type := Domain_Substr | Domain_Regex | Domain_Domain | Domain_Full | Domain_Other (n : Z).
#[global] Instance Domain_Type_eq_dec : EqDecision Domain_Type.
Proof. solve_decision. Defined.

(** The generated [Domain] message, with the keys of its attributes. *)
Record Domain := mkDomain { d_type : Domain_Type; d_value : str; d_attribute : list str }.
Record GeoSiteRule := mkGeoSite { gs_file : str; gs_code : str; gs_attrs : str }.
Inductive DomainRule :=
| DomainRule_Custom (d : Domain)
| DomainRule_Geosite (g : GeoSiteRule).

(** [HasAttrMatcher.Match], [AllAttrsMatcher.Match] and [NewAllAttrsMatcher]. *)
Fixpoint HasAttr_Match (m : str) (attribute : list str) : bool :=
  match attribute with
  | [] => false
  | key :: attribute => if decide (key = m) then true else HasAttr_Match m attribute
  end.
Fixpoint AllAttrs_Match (ms : list str) (d : Domain) : bool :=
  match ms with
  | [] => true
  | m :: ms => if negb (HasAttr_Match m (d_attribute d)) then false else AllAttrs_Match ms d
  end.
Definition at_sign : byte := x40.
Definition NewAllAttrsMatcher (attrs : str) : option (list str) :=
  match attrs with [] => None | _ => Some (Split attrs at_sign) end.

Section files.
Context (OpenAsset : str → go Stream).
Context (UnmarshalIP : list byte → go (list CIDR)) (UnmarshalSite : list byte → go (list Domain)).

Definition base_error {A} (m : string) (r : go A) : go A :=
  match r with Err _ => Err (ErrMsg m) | r => r end.

Definition checkFile (file code : str) : go unit :=
  r ← base_error "failed to open " (OpenAsset file);
  _ ← base_error "failed to check code " (find r code false); Ok ().
Definition loadFile (file code : str) : go (list byte) :=
  r ← base_error "failed to open " (OpenAsset file);
  base_error "failed to load code " (find r code true).
Definition loadIP (file code : str) : go (list CIDR) :=
  bs ← loadFile file code; base_error "error unmarshal IP in " (UnmarshalIP bs).
Definition loadSite (file code : str) : go (list Domain) :=
  bs ← loadFile file code; base_error "error unmarshal Site in " (UnmarshalSite bs).

Definition loadSiteWithAttrs (file code attrs : str) : go (list Domain) :=
  domains ← loadSite file code;
  match NewAllAttrsMatcher attrs with
  | None => Ok domains
  | Some ms => Ok (base.filter (λ d, AllAttrs_Match ms d = true) domains)
  end.

(** ** The text of rules *)

Context (upperRunes lowerRunes : str → str).

Definition bang : byte := x21.
Fixpoint cutReversePrefix_from (s : str) (reverse : bool) : str * bool :=
  match s with
  | c :: s' => if decide (c = bang) then cutReversePrefix_from s' (negb reverse) else (s, reverse)
  | [] => ([], reverse)
  end.
Definition cutReversePrefix (s : str) : str * bool := cutReversePrefix_from s false.

Definition colon_ : byte := x3a.
Definition slash : byte := x2f.

Definition parseGeoIPRule (rule : str) (reverse : bool) : go IPRule :=
  let '(file, code, ok) := Cut rule colon_ in
  if negb ok then Err (ErrMsg "syntax error")
  else if decide (file = []) then Err (ErrMsg "empty file")
  else
    let '(code, codeReverse) := cutReversePrefix code in
    let reverse := xorb reverse codeReverse in
    if decide (code = []) then Err (ErrMsg "empty code")
    else
      let code := strings_ToUpper upperRunes code in
      _ ← checkFile file code;
      Ok (IPRule_Geoip (mkGeoIP file code reverse)).

Definition parseCIDR (s : str) : go CIDR :=
  let '(ipStr, prefixStr, _) := Cut s slash in
  ipAddr ← ok_or_panic (ParseAddress ipStr);
  maxPrefix ← (if decide (Family ipAddr = AddressFamilyIPv4) then Ok 32
               else if decide (Family ipAddr = AddressFamilyIPv6) then Ok 128
               else Err (ErrMsg "unsupported address family"));
  prefixBits ← match prefixStr with
               | [] => Ok maxPrefix
               | _ => match parse_uint32 prefixStr with
                      | Some p => Ok p | None => Err (ErrMsg "invalid CIDR prefix length: ") end
               end;
  if decide (prefixBits > maxPrefix) then Err (ErrMsg "CIDR prefix length ")
  else ip ← IP ipAddr; Ok (mkCIDR ip prefixBits).

Definition parseCustomIPRule (rule : str) (reverse : bool) : go IPRule :=
  cidr ← parseCIDR rule; Ok (IPRule_Custom cidr reverse).

(** The prefix of an external file rule: the first of [exts] that the text starts with. *)
Fixpoint ext_prefix (exts : list str) (r : str) : nat :=
  match exts with
  | [] => 0%nat
  | ext :: exts => if HasPrefix r ext then length ext else ext_prefix exts r
  end.

(** A shorthand such as [geoip:cn] stands for the default file. *)
Definition expand (short dat r : str) : str :=
  if HasPrefix r short then s2b "ext:" ++ dat ++ s2b ":" ++ TrimPrefixLen r short else r.

Definition DefaultGeoIPDat : str := s2b "geoip.dat".
Definition DefaultGeoSiteDat : str := s2b "geosite.dat".

(** The body of the loop of [ParseIPRules]. *)
Definition parseIPRule (r : str) : go IPRule :=
  let '(r, reverse) := cutReversePrefix r in
  let r := expand (s2b "geoip:") DefaultGeoIPDat r in
  let prefix := ext_prefix [s2b "ext:"; s2b "ext-ip:"] r in
  base_error "illegal ip rule: "
    (if decide (0 < prefix)%nat then parseGeoIPRule (drop prefix r) reverse else parseCustomIPRule r reverse).
Fixpoint ParseIPRules (rules : list str) : go (list IPRule) :=
  match rules with
  | [] => Ok []
  | r :: rules => rule ← parseIPRule r; rest ← ParseIPRules rules; Ok (rule :: rest)
  end.

Definition parseGeoSiteRule (rule : str) : go DomainRule :=
  let '(file, codeWithAttrs, ok) := Cut rule colon_ in
  if negb ok then Err (ErrMsg "syntax error")
  else if decide (file = []) then Err (ErrMsg "empty file")
  else if HasSuffix codeWithAttrs [at_sign] || StrMatcher.Contains codeWithAttrs [at_sign; at_sign]
  then Err (ErrMsg "empty attr")
  else
    let '(code, attrs, _) := Cut codeWithAttrs at_sign in
    if decide (code = []) then Err (ErrMsg "empty code")
    else
      let code := strings_ToUpper upperRunes code in
      _ ← checkFile file code;
      Ok (DomainRule_Geosite (mkGeoSite file code (strings_ToLower lowerRunes attrs))).

Definition custom_rule (t : Domain_Type) (v : str) : go DomainRule := Ok (DomainRule_Custom (mkDomain t v [])).

Definition parseCustomDomainRule (rule : str) (defaultType : Domain_Type) : go DomainRule :=
  if HasPrefix rule (s2b "regexp:") then custom_rule Domain_Regex (drop 7 rule)
  else if HasPrefix rule (s2b "domain:") then custom_rule Domain_Domain (drop 7 rule)
  else if HasPrefix rule (s2b "full:") then custom_rule Domain_Full (drop 5 rule)
  else if HasPrefix rule (s2b "keyword:") then custom_rule Domain_Substr (drop 8 rule)
  else if HasPrefix rule (s2b "dotless:") then
    let substr := drop 8 rule in
    if decide (substr = []) then custom_rule Domain_Regex (s2b "^[^.]*$")
    else if negb (StrMatcher.Contains substr [dot])
    then custom_rule Domain_Regex (s2b "^[^.]*" ++ substr ++ s2b "[^.]*$")
    else Err (ErrMsg "substr in dotless rule should not contain a dot")
  else custom_rule defaultType rule.

Definition ParseDomainRule (r : str) (defaultType : Domain_Type) : go DomainRule :=
  let r := expand (s2b "geosite:") DefaultGeoSiteDat r in
  let prefix := ext_prefix [s2b "ext:"; s2b "ext-domain:"; s2b "ext-site:"] r in
  base_error "illegal domain rule: "
    (if decide (0 < prefix)%nat then parseGeoSiteRule (drop prefix r) else parseCustomDomainRule r defaultType).
(** [ParseDomainRules] repeats the body of [ParseDomainRule] for each text. *)
Fixpoint ParseDomainRules (rules : list str) (defaultType : Domain_Type) : go (list DomainRule) :=
  match rules with
  | [] => Ok []
  | r :: rules => rule ← ParseDomainRule r defaultType; rest ← ParseDomainRules rules defaultType; Ok (rule :: rest)
  end.

End files.

(** ** Varints *)

(** The protobuf encoding of a number below [2^(7k)]. *)
Fixpoint put_varint (k : nat) (n : Z) : list byte :=
  match k with
  | O => []
  | S k => if decide (n < 128) then [byte_of_Z n] else byte_of_Z (n mod 128 + 128) :: put_varint k (n / 128)
  end.

Lemma land_128 b : Z.land (byte_to_Z b) 128 = 0 ↔ byte_to_Z b < 128.
Proof. by destruct b. Qed.
Lemma land_127 b : Z.land (byte_to_Z b) 127 = byte_to_Z b mod 128.
Proof. by destruct b. Qed.

Lemma varint_step x z shift : 0 ≤ shift → 0 ≤ x < 2 ^ shift → 0 ≤ z → z * 2 ^ shift < 18446744073709551616 →
  Z.lor x (u64 (Z.shiftl z shift)) = x + z * 2 ^ shift.
Proof.
  intros Hs Hx Hz Hm. rewrite Z.shiftl_mul_pow2 by lia. unfold u64. rewrite Z.mod_small by nia.
  rewrite <- Z.shiftl_mul_pow2 by lia. rewrite lor_shiftl_add, Z.shiftl_mul_pow2; lia.
Qed.

Lemma varint_loop_put k : ∀ m n shift x rest e,
  (k ≤ m)%nat → 0 ≤ n < 2 ^ (7 * Z.of_nat k) → 0 ≤ shift → 0 ≤ x < 2 ^ shift →
  x + n * 2 ^ shift < 18446744073709551616 → (0 < k)%nat →
  varint_loop m shift x (mkStream (put_varint k n ++ rest) e) = Ok (x + n * 2 ^ shift, mkStream rest e).
Proof.
  induction k as [|k IH]; intros m n shift x rest e Hkm Hn Hs Hx Hlt Hk; [lia|].
  destruct m as [|m]; [lia|]. pose proof (Z.pow_pos_nonneg 2 shift eq_refl Hs) as Hp.
  cbn [put_varint varint_loop]. case_decide as Hsmall.
  - cbn [app ReadByte sdata serr mbind go_bind]. rewrite land_127.
    assert (Hb : byte_to_Z (byte_of_Z n) = n) by (rewrite byte_to_of_Z; apply Z.mod_small; lia).
    rewrite decide_True by (apply land_128; lia). rewrite Hb, (Z.mod_small n 128) by lia.
    rewrite varint_step by nia. done.
  - cbn [app ReadByte sdata serr mbind go_bind]. rewrite land_127.
    assert (Hr : 0 ≤ n mod 128 < 128) by (apply Z.mod_pos_bound; lia).
    assert (Hb : byte_to_Z (byte_of_Z (n mod 128 + 128)) = n mod 128 + 128) by (rewrite byte_to_of_Z; apply Z.mod_small; lia).
    rewrite decide_False by (rewrite land_128; lia). rewrite Hb.
    replace ((n mod 128 + 128) mod 128) with (n mod 128) by dlia.
    assert (Hd : n = 128 * (n / 128) + n mod 128) by (apply Z.div_mod; lia).
    rewrite varint_step by nia.
    assert (Hpow : 2 ^ (shift + 7) = 128 * 2 ^ shift) by (rewrite Z.pow_add_r by lia; lia).
    assert (Hpk : 2 ^ (7 * Z.of_nat (S k)) = 128 * 2 ^ (7 * Z.of_nat k)).
    { replace (7 * Z.of_nat (S k)) with (7 + 7 * Z.of_nat k) by lia. rewrite Z.pow_add_r by lia. lia. }
    rewrite IH; [| lia | | lia | | | ].
    + f_equal. f_equal. rewrite Hpow. nia.
    + split; [dlia|]. apply Z.div_lt_upper_bound; lia.
    + rewrite Hpow. nia.
    + rewrite Hpow. nia.
    + destruct k; [|lia]. cbn in Hn. lia.
Qed.

(** ** The search finds the entry *)

(** One entry of a geo data file, a message whose first field is its code, and the file: a
    repeated field of them. *)
Definition Body (e : list byte * list byte) : list byte := x0a :: byte_of_Z (len e.1) :: e.1 ++ e.2.
Definition Entry (e : list byte * list byte) : list byte := x0a :: put_varint 10 (len (Body e)) ++ Body e.
Definition File (es : list (list byte * list byte)) : Stream := mkStream (es ≫= Entry) EOF.
Definition entry_ok (e : list byte * list byte) : Prop := len e.1 < 128 ∧ len (Body e) ≤ maxAlloc.

Lemma len_Body e : len (Body e) = 2 + len e.1 + len e.2.
Proof. unfold Body. rewrite !len_cons, len_app. lia. Qed.

Lemma io_ReadFull_app body rest err n : 0 ≤ n ≤ len body →
  io_ReadFull (mkStream (body ++ rest) err) n =
  Ok (take (Z.to_nat n) body, mkStream (drop (Z.to_nat n) body ++ rest) err).
Proof.
  intros Hn. unfold io_ReadFull, read_full. cbn [sdata serr].
  rewrite decide_True by (rewrite len_app; pose proof (len_nonneg rest); lia).
  unfold len in Hn. rewrite take_app_le, drop_app_le by lia. done.
Qed.

Lemma Discard_app body rest err : Discard (mkStream (body ++ rest) err) (len body) = Ok (mkStream rest err).
Proof.
  unfold Discard. cbn [sdata serr]. rewrite decide_True by (rewrite len_app; pose proof (len_nonneg rest); lia).
  rewrite to_nat_len, drop_app_length. done.
Qed.

Lemma decodeVarint_len (body rest : list byte) err : len body ≤ maxAlloc →
  decodeVarint (mkStream (put_varint 10 (len body) ++ rest) err) = Ok (len body, mkStream rest err).
Proof.
  intros Hl. pose proof (len_nonneg body). unfold maxAlloc in Hl. unfold decodeVarint.
  rewrite varint_loop_put; [f_equal; f_equal; lia|lia| |lia|cbn; lia|cbn; lia|lia].
  change (2 ^ (7 * Z.of_nat 10)) with 1180591620717411303424. lia.
Qed.

(** What [find] reads of the prefix of a body. *)
Lemma prefix_hit (e : list byte * list byte) (code : list byte) : len e.1 < 128 → 2 + len code ≤ len (Body e) →
  let prefix := take (Z.to_nat (2 + len code)) (Body e) in
  (p1 ← ok_or_panic (index prefix 1);
   if decide (byte_to_Z p1 = len code)
   then p2 ← ok_or_panic (slice prefix 2 (2 + len code)); Ok (bool_decide (p2 = code))
   else Ok false) = Ok (bool_decide (e.1 = code)).
Proof.
  intros Hc Hl prefix. pose proof (len_nonneg code). pose proof (len_nonneg e.1).
  assert (Hp : prefix = x0a :: byte_of_Z (len e.1) :: take (length code) (e.1 ++ e.2)).
  { unfold prefix, Body. replace (Z.to_nat (2 + len code)) with (S (S (length code))) by (unfold len; lia). done. }
  rewrite Hp. cbn [index]. unfold index. rewrite decide_True by lia. change (Z.to_nat 1) with 1%nat. cbn [lookup list_lookup ok_or_panic mbind go_bind].
  assert (Hb : byte_to_Z (byte_of_Z (len e.1)) = len e.1) by (rewrite byte_to_of_Z; apply Z.mod_small; lia).
  rewrite Hb. case_decide as Heq.
  - assert (Ht : take (length code) (e.1 ++ e.2) = e.1).
    { replace (length code) with (length e.1) by (unfold len in Heq; lia). apply take_app_length. }
    rewrite Ht, slice_Some by (rewrite ?len_cons; lia). cbn [ok_or_panic mbind go_bind]. f_equal.
    change (Z.to_nat 2) with 2%nat. cbn [drop skipn]. rewrite drop_0, take_ge; [done|]. unfold len in *. lia.
  - rewrite bool_decide_eq_false_2; [done|]. intros He. by rewrite He in Heq.
Qed.

Lemma next_entry_spec e rest err code : entry_ok e → 0 < len code →
  let prefix := take (Z.to_nat (2 + len code)) (Body e) in
  next_entry (mkStream (Entry e ++ rest) err) code =
  Ok (len (Body e), prefix, bool_decide (e.1 = code), mkStream (drop (length prefix) (Body e) ++ rest) err).
Proof.
  intros [Hc Hm] Hcode prefix. pose proof (len_Body e) as HB. pose proof (len_nonneg e.1). pose proof (len_nonneg e.2).
  unfold next_entry, Entry. cbn [app]. cbn [ReadByte sdata serr mbind go_bind].
  rewrite <- app_assoc, decodeVarint_len by done. cbn [mbind go_bind].
  assert (Hi : i64 (len (Body e)) = len (Body e)).
  { unfold i64. unfold maxAlloc in Hm. rewrite Z.mod_small by lia. lia. }
  rewrite Hi, decide_False by lia.
  set (prefixL := if decide (_ > _) then _ else _).
  assert (HpL : prefixL = Z.min (2 + len code) (len (Body e))) by (unfold prefixL; case_decide; lia).
  clearbody prefixL. rewrite io_ReadFull_app by lia. cbn [mbind go_bind].
  assert (take (Z.to_nat prefixL) (Body e) = prefix ∧ length prefix = Z.to_nat prefixL) as [-> <-].
  { subst prefix. rewrite HpL. destruct (decide (2 + len code ≤ len (Body e))).
    - rewrite Z.min_l by done. split; [done|]. rewrite length_take. unfold len in *. lia.
    - rewrite Z.min_r by lia. rewrite !(take_ge (Body e)) by (unfold len in *; lia). split; [done|]. unfold len. lia. }
  match goal with |- context [if decide (len (Body e) >= 2 + len code) then ?a else ?b] =>
    assert ((if decide (len (Body e) >= 2 + len code) then a else b) = Ok (bool_decide (e.1 = code))) as -> end; [|done].
  case_decide as Hge; [apply prefix_hit; lia|].
  f_equal. symmetry. apply bool_decide_eq_false_2. intros He. rewrite He in HB. lia.
Qed.

Lemma find_entry fuel e rest err code readBody : entry_ok e → 0 < len code →
  find_loop (S fuel) (mkStream (Entry e ++ rest) err) code readBody =
  if decide (e.1 = code) then Ok (if readBody : bool then Body e else [])
  else find_loop fuel (mkStream rest err) code readBody.
Proof.
  intros Hok Hcode. cbn [find_loop]. rewrite next_entry_spec by done. cbn [mbind go_bind].
  set (prefix := take _ _). set (rem := drop (length prefix) (Body e)).
  assert (Hsplit : Body e = prefix ++ rem) by (symmetry; apply take_drop_length).
  assert (Hrem : len (Body e) - len prefix = len rem) by (pose proof (len_app prefix rem) as E; rewrite <- Hsplit in E; lia).
  clearbody prefix rem. rewrite Hrem. destruct Hok as [_ Hm]. case_bool_decide as Heq.
  - rewrite (decide_True (P := e.1 = code)) by done. destruct readBody; [|done]. cbn [negb andb].
    rewrite decide_False by lia. rewrite Hsplit. case_decide as H.
    + rewrite io_ReadFull_app by lia. cbn [mbind go_bind]. by rewrite to_nat_len, take_ge by lia.
    + rewrite (len_0_nil rem) by (pose proof (len_nonneg rem); lia). by rewrite app_nil_r.
  - rewrite (decide_False (P := e.1 = code)) by done. cbn [andb]. case_decide as H.
    + by rewrite Discard_app.
    + by rewrite (len_0_nil rem) by (pose proof (len_nonneg rem); lia).
Qed.

Definition first_entry (es : list (list byte * list byte)) (code : list byte) : option (list byte * list byte) :=
  snd <$> list_find (λ e, e.1 = code) es.

Lemma find_loop_entries es : ∀ fuel code readBody, Forall entry_ok es → 0 < len code → (length es < fuel)%nat →
  find_loop fuel (File es) code readBody =
  match first_entry es code with Some e => Ok (if readBody : bool then Body e else []) | None => Err EOF end.
Proof.
  induction es as [|e es IH]; intros fuel code readBody Hok Hcode Hf; (destruct fuel as [|fuel]; [cbn in Hf; lia|]).
  - done.
  - apply Forall_cons_1 in Hok as [He Hok]. unfold File. rewrite bind_cons, find_entry by done.
    unfold first_entry. cbn [list_find]. destruct (decide (e.1 = code)); [done|]. cbn [length] in Hf.
    unfold File in IH. rewrite IH by (done || lia). unfold first_entry.
    destruct (list_find _ es) as [[i x]|]; done.
Qed.

Lemma File_length es : (length es ≤ length (sdata (File es)))%nat.
Proof.
  unfold File. cbn [sdata]. induction es as [|e es IH]; [done|]. rewrite bind_cons, length_app. cbn [length Entry]. lia.
Qed.

(** *** Any bytes *)

(** A read takes bytes off the front, at least [n], keeps the reader's error, and fails with an
    error of its own. *)
Definition reads {A} (n : nat) (br : Stream) (r : go (A * Stream)) : Prop :=
  match r with
  | Ok (_, br') => (∃ pre, sdata br = pre ++ sdata br' ∧ (n ≤ length pre)%nat) ∧ serr br' = serr br
  | Err e => e ≠ out_of_fuel
  | Panic => False
  end.

Lemma ReadByte_reads br : serr br ≠ out_of_fuel → reads 1 br (ReadByte br).
Proof. intros He. unfold ReadByte. destruct (sdata br) as [|b l] eqn:E; cbn; [done|]. rewrite E. split; [by exists [b]|done]. Qed.

Lemma varint_loop_reads n : ∀ shift x br, serr br ≠ out_of_fuel → reads 0 br (varint_loop n shift x br).
Proof.
  induction n as [|n IH]; intros shift x br He; cbn [varint_loop]; [done|].
  pose proof (ReadByte_reads br He) as HR. destruct (ReadByte br) as [[b br']|e|]; cbn [mbind go_bind]; [|done|done].
  destruct HR as [(pre & Hl & _) Es]. case_decide.
  - cbn. split; [exists pre; split; [done|lia]|done].
  - rewrite <- Es in He. pose proof (IH (shift + 7) (Z.lor x (u64 (Z.shiftl (Z.land (byte_to_Z b) 127) shift))) br' He) as Hr.
    destruct (varint_loop n _ _ br') as [[y br'']|e|]; cbn in *; [|done|done]. destruct Hr as [(pre2 & Hr & _) Es2].
    split; [exists (pre ++ pre2); rewrite Hl, Hr, app_assoc; split; [done|lia]|congruence].
Qed.

Lemma io_ReadFull_reads br n : serr br ≠ out_of_fuel →
  match io_ReadFull br n with
  | Ok (bs, br') => sdata br = bs ++ sdata br' ∧ serr br' = serr br
  | Err e => e ≠ out_of_fuel
  | Panic => False
  end.
Proof.
  intros He. unfold io_ReadFull, read_full. case_decide; cbn.
  - by rewrite take_drop.
  - destruct (sdata br); [done|]. by destruct (serr br).
Qed.

Lemma io_ReadFull_spec br n : 0 ≤ n → serr br ≠ out_of_fuel →
  (n ≤ len (sdata br) ∧ ∃ br', io_ReadFull br n = Ok (take (Z.to_nat n) (sdata br), br')) ∨
  (len (sdata br) < n ∧ ∃ e, io_ReadFull br n = Err e ∧ e ≠ out_of_fuel).
Proof.
  intros Hn He. pose proof (io_ReadFull_reads br n He) as HR. unfold io_ReadFull, read_full in *. case_decide as H.
  - left. split; [unfold len in *; lia|]. by eexists.
  - right. split; [unfold len in *; lia|]. by eexists.
Qed.

Lemma io_ReadFull_len br n bs br' : 0 ≤ n → io_ReadFull br n = Ok (bs, br') → len bs = n.
Proof.
  intros Hn. unfold io_ReadFull, read_full. case_decide as H; [|done]. intros E. injection E as <- _. unfold len in *. rewrite length_take. lia.
Qed.

(** What an entry found must look like. *)
Definition found_ok (code bs : list byte) : Prop :=
  (∃ p, index bs 1 = Some p ∧ byte_to_Z p = len code) ∧ slice bs 2 (2 + len code) = Some code.

Lemma next_entry_any br code : serr br ≠ out_of_fuel →
  match next_entry br code with
  | Ok (bodyL, prefix, hit, br') =>
      (∃ pre, sdata br = pre ++ prefix ++ sdata br' ∧ (0 < length pre)%nat) ∧ serr br' = serr br ∧ 0 < bodyL ∧ len prefix ≤ bodyL ∧
      (hit = true → found_ok code prefix)
  | Err e => e ≠ out_of_fuel
  | Panic => False
  end.
Proof.
  intros He. unfold next_entry.
  pose proof (ReadByte_reads br He) as HR. destruct (ReadByte br) as [[b br1]|e|]; cbn [mbind go_bind]; [|done|done].
  destruct HR as [(pre1 & Hl1 & Hn1) Es1]. rewrite <- Es1 in He.
  pose proof (varint_loop_reads 10 0 0 br1 He) as HR. unfold decodeVarint.
  destruct (varint_loop 10 0 0 br1) as [[x br2]|e|]; cbn [mbind go_bind]; [|done|done].
  destruct HR as [(pre2 & Hl2 & _) Es2]. rewrite <- Es2 in He. case_decide as Hpos; [done|].
  set (bodyL := i64 x) in *. pose proof (len_nonneg code) as Hcode.
  set (prefixL := if decide (bodyL > _) then _ else _).
  assert (HpL : prefixL = Z.min (2 + len code) bodyL) by (unfold prefixL; case_decide; lia). clearbody prefixL.
  pose proof (io_ReadFull_reads br2 prefixL He) as HR. pose proof (io_ReadFull_len br2 prefixL) as HL.
  destruct (io_ReadFull br2 prefixL) as [[prefix br3]|e|]; cbn [mbind go_bind]; [|done|done].
  destruct HR as [Hl3 Es3]. specialize (HL prefix br3 ltac:(lia) eq_refl).
  assert (Hend : ∀ hit : bool, (hit = true → found_ok code prefix) →
    (∃ pre, sdata br = pre ++ prefix ++ sdata br3 ∧ (0 < length pre)%nat) ∧ serr br3 = serr br ∧ 0 < bodyL ∧ len prefix ≤ bodyL ∧ (hit = true → found_ok code prefix)).
  { intros hit Hhit. split; [|split; [congruence|split; [lia|split; [lia|done]]]].
    exists (pre1 ++ pre2). rewrite Hl1, Hl2, Hl3, app_assoc, length_app. split; [done|lia]. }
  case_decide as Hge; cbn [mbind go_bind]; [|by apply Hend].
  rewrite HpL, Z.min_l in HL by lia. unfold index. rewrite decide_True by lia.
  destruct (prefix !! Z.to_nat 1) as [p1|] eqn:Ep; [|apply lookup_ge_None in Ep; unfold len in *; lia].
  cbn [ok_or_panic mbind go_bind]. case_decide as Hp1; cbn [mbind go_bind]; [|by apply Hend].
  destruct (slice prefix 2 (2 + len code)) as [p2|] eqn:Esl; [|by rewrite slice_Some in Esl by lia].
  cbn [ok_or_panic mbind go_bind]. apply Hend. intros Hb%bool_decide_eq_true. subst p2.
  split; [|done]. exists p1. unfold index. by rewrite decide_True by lia.
Qed.

Lemma found_ok_app code prefix rest : found_ok code prefix → found_ok code (prefix ++ rest).
Proof.
  intros [(p & Hp & Ep) Hs]. pose proof (len_nonneg rest). split.
  - exists p. split; [|done]. unfold index in *. case_decide; [|done]. by apply lookup_app_l_Some.
  - pose proof (slice_len _ _ _ _ Hs) as Hl. unfold slice in *. case_decide as Hd; [|done].
    rewrite decide_True by (rewrite len_app; lia). injection Hs as Hs. f_equal. unfold len in *.
    rewrite drop_app_le, take_app_le by (rewrite ?length_drop; lia). done.
Qed.

(** The searches for the check and for the body go through the file together. What the check found:
    an entry with the code, whose length is [bodyL] and whose body, or what there is of it, is at
    the front of [rest]; and what loading then gives. *)
Definition loaded (data code : list byte) (result : go (list byte)) : Prop :=
  ∃ before rest bodyL, data = before ++ rest ∧ 0 < bodyL ∧ found_ok code (take (Z.to_nat bodyL) rest) ∧
    match result with
    | Ok bs => bodyL ≤ maxAlloc ∧ bodyL ≤ len rest ∧ bs = take (Z.to_nat bodyL) rest
    | Err e => bodyL ≤ maxAlloc ∧ len rest < bodyL ∧ e ≠ out_of_fuel
    | Panic => maxAlloc < bodyL
    end.

Lemma loaded_later pre data code result : loaded data code result → loaded (pre ++ data) code result.
Proof. intros (before & rest & bodyL & -> & H). exists (pre ++ before), rest, bodyL. by rewrite <- app_assoc. Qed.

(** The entry is at hand. *)
Lemma entry_loaded br1 bodyL prefix code : serr br1 ≠ out_of_fuel → 0 < bodyL → len prefix ≤ bodyL → found_ok code prefix →
  loaded (prefix ++ sdata br1) code
    (if decide (bodyL > maxAlloc) then Panic
     else if decide (bodyL - len prefix > 0) then '(rest, _) ← io_ReadFull br1 (bodyL - len prefix); Ok (prefix ++ rest)
     else Ok prefix).
Proof.
  intros He Hb Hp Hf. exists [], (prefix ++ sdata br1), bodyL. pose proof (len_nonneg (sdata br1)).
  assert (Ht : take (Z.to_nat bodyL) (prefix ++ sdata br1) = prefix ++ take (Z.to_nat (bodyL - len prefix)) (sdata br1)).
  { rewrite take_app_ge by (unfold len in *; lia). do 2 f_equal. unfold len. lia. }
  rewrite Ht, len_app. split; [done|]. split; [done|]. split; [by apply found_ok_app|].
  case_decide; [lia|]. case_decide.
  - destruct (io_ReadFull_spec br1 (bodyL - len prefix) ltac:(lia) He) as [(Hl & br' & ->)|(Hl & e & -> & Hne)]; cbn [mbind go_bind].
    + split; [lia|]. split; [lia|done].
    + split; [lia|]. split; [lia|done].
  - replace (bodyL - len prefix) with 0 by lia. rewrite take_0, app_nil_r. split; [lia|]. split; [lia|done].
Qed.

Lemma find_loop_any fuel : ∀ br code, serr br ≠ out_of_fuel → (length (sdata br) < fuel)%nat →
  match find_loop fuel br code false with
  | Ok bs => bs = [] ∧ loaded (sdata br) code (find_loop fuel br code true)
  | Err e => e ≠ out_of_fuel ∧ find_loop fuel br code true = Err e
  | Panic => False
  end.
Proof.
  induction fuel as [|fuel IH]; intros br code He Hf; [lia|]. cbn [find_loop].
  pose proof (next_entry_any br code He) as HN.
  destruct (next_entry br code) as [[[[bodyL prefix] hit] br1]|e|]; cbn [mbind go_bind]; [|done|done].
  destruct HN as ((pre & Hd & Hpre) & Es & Hpos & Hp & Hhit). rewrite <- Es in He. rewrite Hd in Hf |- *. rewrite !length_app in Hf.
  destruct hit; cbn [andb negb].
  - split; [done|]. apply loaded_later, entry_loaded; auto.
  - assert (Hrest : ∀ br2, serr br2 = serr br1 → (∃ k, sdata br1 = k ++ sdata br2) →
      match find_loop fuel br2 code false with
      | Ok bs => bs = [] ∧ loaded (pre ++ prefix ++ sdata br1) code (find_loop fuel br2 code true)
      | Err e => e ≠ out_of_fuel ∧ find_loop fuel br2 code true = Err e | Panic => False end).
    { intros br2 E2 [k Hk]. pose proof (IH br2 code ltac:(by rewrite E2)) as Hi. rewrite Hk, length_app in Hf. specialize (Hi ltac:(lia)).
      destruct (find_loop fuel br2 code false); [|done|done]. destruct Hi as [-> Hi]. split; [done|]. rewrite Hk, !app_assoc. by apply loaded_later. }
    case_decide; [|apply Hrest; [done|by exists []]]. unfold Discard. case_decide; cbn [mbind go_bind]; [|done].
    apply Hrest; [done|]. cbn [sdata]. eexists. by rewrite take_drop.
Qed.

(** The search for one entry of a geo data file is correct: in a file of well-formed
    entries it returns the body of the first entry with the code asked for, or end of file when
    there is none; checking for a code and loading it agree. *)
Lemma geo_find_first es code readBody : Forall entry_ok es → 0 < len code →
  find (File es) code readBody =
  match first_entry es code with Some e => Ok (if readBody : bool then Body e else []) | None => Err EOF end.
Proof.
  intros Hok Hcode. unfold find. rewrite decide_False by lia. apply find_loop_entries; [done..|].
  pose proof (File_length es). lia.
Qed.


(** ** The text of rules *)

Lemma HasPrefix_app p s : HasPrefix (p ++ s) p = true.
Proof. unfold HasPrefix. rewrite take_app_length. by apply bool_decide_eq_true. Qed.

Lemma Cut_found a b sep : sep ∉ a → Cut (a ++ sep :: b) sep = (a, b, true).
Proof.
  induction a as [|c a IH]; intros Hn; cbn [Cut app]; [by rewrite decide_True|].
  apply not_elem_of_cons in Hn as [Hc Hn]. by rewrite decide_False, IH.
Qed.
Lemma Cut_none a sep : sep ∉ a → Cut a sep = (a, [], false).
Proof.
  induction a as [|c a IH]; intros Hn; cbn [Cut]; [done|].
  apply not_elem_of_cons in Hn as [Hc Hn]. by rewrite decide_False, IH.
Qed.

Lemma HasAttr_Match_spec m attribute : HasAttr_Match m attribute = true ↔ m ∈ attribute.
Proof.
  induction attribute as [|key l IH]; cbn [HasAttr_Match]; [by split; [|intros ?%elem_of_nil]|].
  rewrite elem_of_cons. case_decide; naive_solver.
Qed.
Lemma AllAttrs_Match_spec ms d : AllAttrs_Match ms d = true ↔ Forall (λ m, m ∈ d_attribute d) ms.
Proof.
  induction ms as [|m ms IH]; cbn [AllAttrs_Match]; [by split; [intros _; apply Forall_nil_2|]|].
  rewrite list.Forall_cons, <- IH, <- HasAttr_Match_spec. destruct (HasAttr_Match m _); cbn; naive_solver.
Qed.

Lemma cutReversePrefix_plain s : head s ≠ Some bang → cutReversePrefix s = (s, false).
Proof. destruct s as [|c s]; [done|]. intros Hc. unfold cutReversePrefix. cbn. rewrite decide_False by (intros ->; done). done. Qed.
Lemma cutReversePrefix_bang s : head s ≠ Some bang → cutReversePrefix (bang :: s) = (s, true).
Proof.
  intros Hc. unfold cutReversePrefix. cbn [cutReversePrefix_from]. rewrite decide_True by done.
  destruct s as [|c s]; [done|]. cbn [cutReversePrefix_from]. by rewrite decide_False by (intros ->; done).
Qed.

Lemma digits_value_nonneg s : ∀ acc v, 0 ≤ acc → digits_value acc s = Some v → 0 ≤ v.
Proof.
  induction s as [|c s IH]; intros acc v Ha; cbn; [by intros [= <-]|].
  destruct (is_digit c) eqn:E; [|done]. apply is_digit_spec in E. apply IH. lia.
Qed.
Lemma parse_uint32_nonneg s v : parse_uint32 s = Some v → 0 ≤ v.
Proof.
  unfold parse_uint32. destruct s as [|c s]; [done|].
  destruct (digits_value 0 (c :: s)) as [w|] eqn:E; [|done]. case_decide; [|done]. intros [= <-].
  by eapply (digits_value_nonneg _ 0).
Qed.

Lemma ParseAddress_wf s a : ParseAddress s = Some a → wf_address a.
Proof.
  unfold ParseAddress. match goal with |- context [ParseIP ?x] => destruct (ParseIP x) as [ip|] end.
  - apply IPAddress_wf.
  - intros [= <-]. done.
Qed.

Lemma parseCIDR_valid s c : parseCIDR s = Ok c → ∃ p, cidr_prefix c = Some p ∧ p_bits p = c_prefix c ∧ addr_bytes (p_addr p) = c_ip c.
Proof.
  unfold parseCIDR. destruct (Cut s slash) as [[ipStr prefixStr] f].
  destruct (ParseAddress ipStr) as [a|] eqn:Ea; [|done]. apply ParseAddress_wf in Ea. cbn [ok_or_panic mbind go_bind].
  intros H. apply go_bind_ok in H as (mx & Hmx & H). apply go_bind_ok in H as (pb & Hpb & H).
  case_decide as Hle; [done|]. apply go_bind_ok in H as (i & Hi & [= <-]).
  assert (0 ≤ mx) by (destruct a; try done; injection Hmx as <-; lia).
  assert (0 ≤ pb).
  { destruct prefixStr as [|x l]; [injection Hpb as <-; lia|].
    destruct (parse_uint32 (x :: l)) eqn:Ep; [|done]. injection Hpb as <-. by eapply parse_uint32_nonneg. }
  destruct a as [b|b|d]; [| |done].
  - injection Hmx as <-. injection Hi as <-. cbn in Ea. unfold cidr_prefix, AddrFromSlice. cbn [c_ip c_prefix].
    rewrite decide_True by done. exists (mkPrefix (Addr4 b) pb). unfold Prefix_IsValid. cbn.
    rewrite bool_decide_eq_true_2 by lia. done.
  - injection Hmx as <-. injection Hi as <-. destruct Ea as [Ea _]. unfold cidr_prefix, AddrFromSlice. cbn [c_ip c_prefix].
    rewrite decide_False by lia. rewrite decide_True by done. exists (mkPrefix (Addr6 b) pb). unfold Prefix_IsValid. cbn.
    rewrite bool_decide_eq_true_2 by lia. done.
Qed.

(** [r] is a rule of the program: a block that is not ignored, or geo data that were found. *)
Definition rule_checked (OpenAsset : str → go Stream) (r : IPRule) : Prop :=
  match r with
  | IPRule_Custom c _ => ∃ p, cidr_prefix c = Some p ∧ p_bits p = c_prefix c ∧ addr_bytes (p_addr p) = c_ip c
  | IPRule_Geoip g => g_file g ≠ [] ∧ (colon_ ∉ g_file g) ∧ checkFile OpenAsset (g_file g) (g_code g) = Ok ()
  end.

Section text.
Context (OpenAsset : str → go Stream) (upperRunes lowerRunes : str → str).

Lemma Cut_before s sep : sep ∉ (Cut s sep).1.1.
Proof.
  induction s as [|c s IH]; cbn [Cut]; [apply not_elem_of_nil|]. case_decide; [apply not_elem_of_nil|].
  destruct (Cut s sep) as [[b a] f]. cbn in *. by apply not_elem_of_cons.
Qed.

Lemma base_error_ok {A} m (r : go A) a : base_error m r = Ok a → r = Ok a.
Proof. by destruct r. Qed.

Lemma parseIPRule_checked r rule : parseIPRule OpenAsset upperRunes r = Ok rule → rule_checked OpenAsset rule.
Proof.
  unfold parseIPRule. destruct (cutReversePrefix r) as [r' reverse]. intros H%base_error_ok. case_decide.
  - unfold parseGeoIPRule in H. pose proof (Cut_before (drop (ext_prefix [s2b "ext:"; s2b "ext-ip:"]
      (expand (s2b "geoip:") DefaultGeoIPDat r')) (expand (s2b "geoip:") DefaultGeoIPDat r')) colon_) as Hn.
    destruct (Cut _ colon_) as [[file code] ok]. destruct ok; [|done]. cbn [negb] in H. case_decide; [done|].
    destruct (cutReversePrefix code) as [code' cr]. case_decide; [done|].
    apply go_bind_ok in H as ([] & Hc & [= <-]). done.
  - unfold parseCustomIPRule in H. apply go_bind_ok in H as (c & Hc & [= <-]). exact (parseCIDR_valid _ _ Hc).
Qed.

(** C38: the rules that parsing accepts are rules the matcher honours: one rule per text, every
    custom block is a valid prefix that the set builder does not drop, with the address and
    length as parsed, and every geo data rule names a file and a code that were found in it. *)
Theorem parsed_ip_rules_checked texts rules :
  ParseIPRules OpenAsset upperRunes texts = Ok rules →
  length rules = length texts ∧ Forall (rule_checked OpenAsset) rules.
Proof.
  revert rules. induction texts as [|t texts IH]; intros rules; cbn [ParseIPRules].
  - intros [= <-]. split; [done|apply Forall_nil_2].
  - intros H. apply go_bind_ok in H as (rule & Hr & H). apply go_bind_ok in H as (rest & Hrest & [= <-]).
    destruct (IH _ Hrest) as [Hl Hf]. split; [cbn; lia|]. apply Forall_cons_2; [|done]. by apply (parseIPRule_checked t).
Qed.

(** *** Printing *)

Definition sign (reverse : bool) : str := if reverse then [bang] else [].
Definition ip_rule_text (r : IPRule) : str :=
  match r with
  | IPRule_Custom c rev => sign rev ++ ipv4_string (c_ip c) ++ slash :: itoa (c_prefix c)
  | IPRule_Geoip g => sign (g_reverse g) ++ s2b "ext:" ++ g_file g ++ colon_ :: g_code g
  end.
Definition ip_printable (r : IPRule) : Prop :=
  match r with
  | IPRule_Custom c _ => length (c_ip c) = 4%nat ∧ 0 ≤ c_prefix c ≤ 32
  | IPRule_Geoip g =>
      g_file g ≠ [] ∧ (colon_ ∉ g_file g) ∧ g_code g ≠ [] ∧ head (g_code g) ≠ Some bang ∧
      strings_ToUpper upperRunes (g_code g) = g_code g ∧ checkFile OpenAsset (g_file g) (g_code g) = Ok ()
  end.

Lemma cutReversePrefix_sign rev s : head s ≠ Some bang → cutReversePrefix (sign rev ++ s) = (s, rev).
Proof. intros H. destruct rev; [by apply cutReversePrefix_bang|by apply cutReversePrefix_plain]. Qed.

Lemma octet_no_slash b : slash ∉ itoa (byte_to_Z b).
Proof. apply (bool_decide_eq_true (slash ∉ itoa (byte_to_Z b))). by destruct b. Qed.

Lemma ipv4_no_slash i : length i = 4%nat → slash ∉ ipv4_string i.
Proof.
  destruct i as [|a [|b [|c [|d [|]]]]]; try done. intros _. unfold ipv4_string. cbn [fmap list_fmap].
  rewrite !elem_of_app, !list_elem_of_singleton. pose proof octet_no_slash as H.
  intros [Hi|[Hi|[Hi|[Hi|[Hi|[Hi|Hi]]]]]]; first [discriminate Hi|exact (H _ Hi)].
Qed.

(** The text of a block starts with a digit. *)
Lemma ipv4_head i rest : length i = 4%nat → ∃ c s, ipv4_string i ++ rest = c :: s ∧ is_digit c = true.
Proof.
  destruct i as [|a [|b [|c [|d [|]]]]]; try done. intros _. unfold ipv4_string. cbn [fmap list_fmap].
  assert (∃ x l, itoa (byte_to_Z a) = x :: l ∧ is_digit x = true) as (x & l & E & H); [by destruct a; eexists _, _|].
  rewrite E. by eexists _, _.
Qed.

Lemma HasPrefix_digit c s x p q : is_digit c = true → p = x :: q → is_digit x = false → HasPrefix (c :: s) p = false.
Proof. intros Hc -> Hx. apply bool_decide_eq_false_2. cbn. congruence. Qed.

Lemma parseCIDR_text c : length (c_ip c) = 4%nat → 0 ≤ c_prefix c ≤ 32 →
  parseCIDR (ipv4_string (c_ip c) ++ slash :: itoa (c_prefix c)) = Ok c.
Proof.
  intros Hl Hp. unfold parseCIDR. rewrite Cut_found by (by apply ipv4_no_slash).
  destruct c as [i p]. cbn [c_ip c_prefix] in *. destruct i as [|x0 [|x1 [|x2 [|x3 [|]]]]]; try done.
  rewrite ParseAddress_ipv4_string. cbn [ok_or_panic mbind go_bind Family]. rewrite decide_True by done.
  cbn [mbind go_bind]. destruct (itoa p) as [|d ds] eqn:E; [exfalso; exact (itoa_aux_nonempty 19 p [] E)|].
  rewrite <- E, parse_uint32_itoa by (unfold is_u32; lia). cbn [mbind go_bind]. by rewrite decide_False by lia.
Qed.

Lemma parseIPRule_text r : ip_printable r → parseIPRule OpenAsset upperRunes (ip_rule_text r) = Ok r.
Proof.
  destruct r as [c rev|g]; cbn [ip_printable ip_rule_text].
  - intros [Hl Hp]. unfold parseIPRule.
    destruct (ipv4_head (c_ip c) (slash :: itoa (c_prefix c)) Hl) as (x & s & E & Hx).
    rewrite cutReversePrefix_sign by (rewrite E; cbn; intros [= ->]; done).
    unfold expand. rewrite E. rewrite (HasPrefix_digit x s x67 (s2b "geoip:") _ Hx eq_refl eq_refl).
    cbn [ext_prefix]. rewrite (HasPrefix_digit x s x65 (s2b "ext:") _ Hx eq_refl eq_refl).
    rewrite (HasPrefix_digit x s x65 (s2b "ext-ip:") _ Hx eq_refl eq_refl), decide_False by lia.
    rewrite <- E. unfold parseCustomIPRule. rewrite parseCIDR_text by done. done.
  - intros (Hf & Hcol & Hc & Hb & Hu & Hck). unfold parseIPRule.
    rewrite cutReversePrefix_sign by done. unfold expand. change (HasPrefix (s2b "ext:" ++ ?l) (s2b "geoip:")) with false.
    cbn match. cbn [ext_prefix]. rewrite HasPrefix_app. rewrite decide_True by (cbn; lia). rewrite drop_app_length.
    unfold parseGeoIPRule. rewrite Cut_found by done. cbn [negb]. rewrite decide_False by done.
    rewrite cutReversePrefix_plain by done. rewrite decide_False by done. rewrite Hu, Hck. cbn [mbind go_bind base_error].
    rewrite xorb_false_r. by destruct g.
Qed.

(** Printing rules and parsing them gives the rules back: negation, addresses with their
    prefix lengths, and geo data rules with file and code survive the text form. *)
Lemma ip_rules_roundtrip rules : Forall ip_printable rules →
  ParseIPRules OpenAsset upperRunes (ip_rule_text <$> rules) = Ok rules.
Proof.
  induction 1 as [|r rules Hr _ IH]; [done|]. cbn [fmap list_fmap ParseIPRules].
  rewrite parseIPRule_text by done. cbn [mbind go_bind]. change (list_fmap _ _ ip_rule_text rules) with (ip_rule_text <$> rules).
  by rewrite IH.
Qed.

Definition type_text (t : Domain_Type) : str :=
  match t with
  | Domain_Regex => s2b "regexp:" | Domain_Domain => s2b "domain:"
  | Domain_Full => s2b "full:" | Domain_Substr => s2b "keyword:"
  | Domain_Other _ => []
  end.
Definition named_type (t : Domain_Type) : bool := match t with Domain_Other _ => false | _ => true end.
Definition code_attrs (g : GeoSiteRule) : str :=
  gs_code g ++ match gs_attrs g with [] => [] | _ => at_sign :: gs_attrs g end.
Definition domain_rule_text (r : DomainRule) : str :=
  match r with
  | DomainRule_Custom d => type_text (d_type d) ++ d_value d
  | DomainRule_Geosite g => s2b "ext:" ++ gs_file g ++ colon_ :: code_attrs g
  end.
Definition domain_printable (r : DomainRule) : Prop :=
  match r with
  | DomainRule_Custom d => d_attribute d = [] ∧ named_type (d_type d) = true
  | DomainRule_Geosite g =>
      gs_file g ≠ [] ∧ (colon_ ∉ gs_file g) ∧ gs_code g ≠ [] ∧ (at_sign ∉ gs_code g) ∧
      HasSuffix (code_attrs g) [at_sign] || StrMatcher.Contains (code_attrs g) [at_sign; at_sign] = false ∧
      strings_ToUpper upperRunes (gs_code g) = gs_code g ∧ strings_ToLower lowerRunes (gs_attrs g) = gs_attrs g ∧
      checkFile OpenAsset (gs_file g) (gs_code g) = Ok ()
  end.

Lemma Cut_code_attrs g : (at_sign ∉ gs_code g) → ∃ f, Cut (code_attrs g) at_sign = (gs_code g, gs_attrs g, f).
Proof.
  intros Hn. unfold code_attrs. destruct (gs_attrs g) as [|x l].
  - rewrite app_nil_r, Cut_none by done. by eexists.
  - rewrite Cut_found by done. by eexists.
Qed.

Lemma ParseDomainRule_text r t : domain_printable r →
  ParseDomainRule OpenAsset upperRunes lowerRunes (domain_rule_text r) t = Ok r.
Proof.
  destruct r as [d|g]; cbn [domain_printable domain_rule_text].
  - intros [Ha Ht]. destruct d as [ty v a]. cbn in Ha, Ht. subst a. by destruct ty.
  - intros (Hf & Hcol & Hc & Hat & He & Hu & Hlow & Hck). unfold ParseDomainRule, expand.
    change (HasPrefix (s2b "ext:" ++ ?l) (s2b "geosite:")) with false.
    cbn match. cbn [ext_prefix]. rewrite HasPrefix_app. rewrite decide_True by (cbn; lia). rewrite drop_app_length.
    unfold parseGeoSiteRule. rewrite Cut_found by done. cbn [negb]. rewrite decide_False by done. rewrite He.
    destruct (Cut_code_attrs g Hat) as [f ->]. rewrite decide_False by done. rewrite Hu, Hlow, Hck.
    cbn [mbind go_bind base_error]. by destruct g.
Qed.

(** The same for domain rules, whatever the default type: each kind keeps its pattern, and
    geo data rules their file, code and attributes. *)
Lemma domain_rules_roundtrip rules t : Forall domain_printable rules →
  ParseDomainRules OpenAsset upperRunes lowerRunes (domain_rule_text <$> rules) t = Ok rules.
Proof.
  induction 1 as [|r rules Hr _ IH]; [done|]. cbn [fmap list_fmap ParseDomainRules].
  rewrite ParseDomainRule_text by done. cbn [mbind go_bind].
  change (list_fmap _ _ domain_rule_text rules) with (domain_rule_text <$> rules). by rewrite IH.
Qed.

End text.

(** ** Witnesses *)

Definition sample_entries : list (list byte * list byte) := [(s2b "US", [x12; x00]); (s2b "CN", [x12; x01; x61])].
Definition sample_assets (file : str) : go Stream := Ok (File sample_entries).

Lemma sample_entries_ok : Forall entry_ok sample_entries.
Proof. repeat (apply Forall_cons_2; [split; vm_compute; congruence|]). apply Forall_nil_2. Qed.

Lemma geo_find_first_witness : find (File sample_entries) (s2b "CN") true = Ok (Body (s2b "CN", [x12; x01; x61])).
Proof.
  rewrite (geo_find_first sample_entries (s2b "CN") true sample_entries_ok ltac:(vm_compute; reflexivity)).
  vm_compute. reflexivity.
Defined.


Definition sample_ip_rules : list IPRule :=
  [IPRule_Custom (mkCIDR [x0a; x00; x00; x00] 8) true; IPRule_Geoip (mkGeoIP (s2b "geoip.dat") (s2b "CN") false)].

Lemma sample_ip_printable : Forall (ip_printable sample_assets (λ s, s)) sample_ip_rules.
Proof.
  apply Forall_cons_2; [split; [reflexivity|cbn; lia]|]. apply Forall_cons_2; [|apply Forall_nil_2].
  split; [discriminate|]. split; [apply (bool_decide_eq_true (colon_ ∉ _)); reflexivity|].
  split; [discriminate|]. split; [discriminate|]. split; reflexivity.
Qed.

Lemma ip_rules_roundtrip_witness :
  ParseIPRules sample_assets (λ s, s) [s2b "!10.0.0.0/8"; s2b "ext:geoip.dat:CN"] = Ok sample_ip_rules.
Proof. exact (ip_rules_roundtrip sample_assets (λ s, s) sample_ip_rules sample_ip_printable). Defined.

Lemma parsed_ip_rules_checked_witness : Forall (rule_checked sample_assets) sample_ip_rules.
Proof.
  exact (proj2 (parsed_ip_rules_checked sample_assets (λ s, s) [s2b "!10.0.0.0/8"; s2b "geoip:cn"] sample_ip_rules
                  ltac:(vm_compute; reflexivity))).
Defined.

Definition sample_domain_rules : list DomainRule :=
  [DomainRule_Custom (mkDomain Domain_Full (s2b "a.com") []);
   DomainRule_Geosite (mkGeoSite (s2b "geosite.dat") (s2b "CN") (s2b "ads@cdn"))].

Lemma domain_rules_roundtrip_witness :
  ParseDomainRules sample_assets (λ s, s) (λ s, s) [s2b "full:a.com"; s2b "ext:geosite.dat:CN@ads@cdn"] Domain_Substr
  = Ok sample_domain_rules.
Proof.
  refine (domain_rules_roundtrip sample_assets (λ s, s) (λ s, s) sample_domain_rules Domain_Substr _).
  apply Forall_cons_2; [split; reflexivity|]. apply Forall_cons_2; [|apply Forall_nil_2].
  split; [discriminate|]. split; [apply (bool_decide_eq_true (colon_ ∉ _)); reflexivity|].
  split; [discriminate|]. split; [apply (bool_decide_eq_true (at_sign ∉ _)); reflexivity|].
  split; [reflexivity|]. split; [reflexivity|]. split; reflexivity.
Defined.
