(* ===== verification/GeoDomain.v ===== *)
(** * Domain rules: the matchers of a rule list, their caches and their registry

    Models [common/geodata/domain_matcher.go] and [domain_registry.go]. The two factories (the
    perfect-hash one, and the compact one of the mobile platforms) are instances of the class
    [DomainFactory]; both are proved to answer what the rules say, and the registry, which
    rebuilds every matcher when the geo data change, is proved against the class. Regular
    expressions, the runtime's string hash and the case mapping outside ASCII are parameters;
    [load] is [GeoLoader.loadSiteWithAttrs] on the files there are. *)

From S2P Require Import Prelude Net StrMatcher StrAutomaton StrMph IpMatcher GeoLoader.
Import GoText.

#[local] Open Scope Z_scope.

Definition comma_ : byte := x2c.

(** [Domain_Type.String]. *)
Definition type_String (t : Domain_Type) : str :=
  match t with
  | Domain_Substr => s2b "Substr" | Domain_Regex => s2b "Regex" | Domain_Domain => s2b "Domain"
  | Domain_Full => s2b "Full" | Domain_Other n => itoa n
  end.

(** [Match] and [MatchAny] of a matcher may panic. *)
Class DomainMatcherOps (D : Type) := {
  dm_Match : D → str → go (list Z);
  dm_MatchAny : D → str → go bool
}.

Definition Load : Type := str → str → str → go (list Domain).

(** [DomainMatcherFactory]: the factory keeps a cache; [load] reads the files. *)
Class DomainFactory (F D : Type) := {
  newDomainMatcherFactory : F;
  BuildMatcher : Load → F → list DomainRule → go D * F
}.

Section geodomain.
Context (Compile : str → option GoError) (MatchString : str → str → bool) (lowerRunes : str → str).
Context (strhash : Z → str → Z) (sortSlice : list (list nat) → list nat) (fuel : nat).

Definition parseDomain (d : Domain) : go Matcher :=
  match d_type d with
  | Domain_Substr => Type_New Compile Substr (strings_ToLower lowerRunes (d_value d))
  | Domain_Regex => Type_New Compile Regex (d_value d)
  | Domain_Domain => Type_New Compile StrMatcher.Domain (strings_ToLower lowerRunes (d_value d))
  | Domain_Full => Type_New Compile Full (strings_ToLower lowerRunes (d_value d))
  | Domain_Other _ => Err (ErrMsg "unknown domain type: ")
  end.

(** ** The perfect-hash factory *)

Definition geosite_key (g : GeoSiteRule) : str := gs_file g ++ s2b ":" ++ gs_code g ++ s2b "@" ++ gs_attrs g.

Fixpoint domain_key_loop (rules : list DomainRule) : bool * str :=
  match rules with
  | [] => (false, [])
  | DomainRule_Custom d :: rules =>
      let '(cache, sb) := domain_key_loop rules in
      (cache, type_String (d_type d) ++ s2b ":" ++ d_value d ++ s2b "," ++ sb)
  | DomainRule_Geosite g :: rules =>
      let '(_, sb) := domain_key_loop rules in (true, geosite_key g ++ s2b "," ++ sb)
  end.
Definition buildDomainRulesKey (rules : list DomainRule) : str :=
  let '(cache, sb) := domain_key_loop rules in if cache : bool then sb else [].

(** The entries of a list of sites; an invalid one is ignored. *)
Fixpoint mph_add_sites (g : MphValueMatcher) (i : Z) (domains : list Domain) : go MphValueMatcher :=
  match domains with
  | [] => Ok g
  | d :: domains =>
      match parseDomain d with
      | Err _ => mph_add_sites g i domains
      | Panic => Panic
      | Ok m => g ← MphValue_Add g m (u32 i); mph_add_sites g i domains
      end
  end.

(** The loop over the rules from index [i]. *)
Fixpoint mph_add_rules (load : Load) (g : MphValueMatcher) (i : Z) (rules : list DomainRule) : go MphValueMatcher :=
  match rules with
  | [] => Ok g
  | DomainRule_Custom d :: rules =>
      m ← parseDomain d; g ← MphValue_Add g m (u32 i); mph_add_rules load g (i + 1) rules
  | DomainRule_Geosite gs :: rules =>
      domains ← load (gs_file gs) (gs_code gs) (gs_attrs gs);
      g ← mph_add_sites g i domains; mph_add_rules load g (i + 1) rules
  end.

(** The shared matchers by key. The cache is weak: an entry may disappear. *)
Abbreviation MphFactory := (gmap str MphValueMatcher).

Definition Mph_BuildMatcher (load : Load) (f : MphFactory) (rules : list DomainRule) : go MphValueMatcher * MphFactory :=
  match rules with
  | [] => (Err (ErrMsg "empty domain rule list"), f)
  | _ =>
      let key := buildDomainRulesKey rules in
      match (if decide (key = []) then None else f !! key) with
      | Some g => (Ok g, f)
      | None =>
          match (g ← mph_add_rules load NewMphValueMatcher 0 rules; MphValue_Build strhash sortSlice fuel g) with
          | Ok g => (Ok g, if decide (key = []) then f else <[key := g]> f)
          | Err e => (Err e, f)
          | Panic => (Panic, f)
          end
      end
  end.

(** ** The compact factory *)

Fixpoint any_add_sites (s : LinearAnyMatcher) (domains : list Domain) : go LinearAnyMatcher :=
  match domains with
  | [] => Ok s
  | d :: domains =>
      match parseDomain d with
      | Err _ => any_add_sites s domains
      | Panic => Panic
      | Ok m => any_add_sites (Any_Add s m) domains
      end
  end.

Abbreviation CompactFactory := (gmap str LinearAnyMatcher).

Definition getOrCreateFrom (load : Load) (f : CompactFactory) (g : GeoSiteRule) : go LinearAnyMatcher * CompactFactory :=
  let key := geosite_key g in
  match f !! key with
  | Some s => (Ok s, f)
  | None =>
      match (domains ← load (gs_file g) (gs_code g) (gs_attrs g); any_add_sites NewLinearAnyMatcher domains) with
      | Ok s => (Ok s, <[key := s]> f)
      | Err e => (Err e, f)
      | Panic => (Panic, f)
      end
  end.

(** [CompactDomainMatcher]; [values[i]] goes with [matchers[i]]. *)
Record CompactDomainMatcher := mkCompact { cd_custom : option LinearValueMatcher; cd_matchers : list (LinearAnyMatcher * Z) }.

Fixpoint compact_rules (load : Load) (f : CompactFactory) (c : CompactDomainMatcher) (i : Z) (rules : list DomainRule)
    : go CompactDomainMatcher * CompactFactory :=
  match rules with
  | [] => (Ok c, f)
  | DomainRule_Custom d :: rules =>
      match parseDomain d with
      | Err e => (Err e, f)
      | Panic => (Panic, f)
      | Ok m =>
          compact_rules load f
            (mkCompact (Some (Value_Add (default NewLinearValueMatcher (cd_custom c)) m (u32 i))) (cd_matchers c)) (i + 1) rules
      end
  | DomainRule_Geosite g :: rules =>
      match getOrCreateFrom load f g with
      | (Ok s, f) => compact_rules load f (mkCompact (cd_custom c) (cd_matchers c ++ [(s, u32 i)])) (i + 1) rules
      | (Err e, f) => (Err e, f)
      | (Panic, f) => (Panic, f)
      end
  end.

Definition Compact_BuildMatcher (load : Load) (f : CompactFactory) (rules : list DomainRule)
    : go CompactDomainMatcher * CompactFactory :=
  match rules with
  | [] => (Err (ErrMsg "empty domain rule list"), f)
  | _ => compact_rules load f (mkCompact None []) 0 rules
  end.

Definition Compact_Match (c : CompactDomainMatcher) (input : str) : go (list Z) :=
  result ← match cd_custom c with Some v => Value_Match MatchString v input | None => Ok [] end;
  Ok (foldl (λ result sv, if Any_MatchAny MatchString sv.1 input then result ++ [sv.2] else result) result (cd_matchers c)).

Definition Compact_MatchAny (c : CompactDomainMatcher) (input : str) : bool :=
  if match cd_custom c with Some v => Value_MatchAny MatchString v input | None => false end then true
  else existsb (λ sv, Any_MatchAny MatchString sv.1 input) (cd_matchers c).

#[local] Instance mph_matcher_ops : DomainMatcherOps MphValueMatcher := {|
  dm_Match := MphValue_Match strhash MatchString; dm_MatchAny := MphValue_MatchAny strhash MatchString |}.
#[local] Instance compact_matcher_ops : DomainMatcherOps CompactDomainMatcher := {|
  dm_Match := Compact_Match; dm_MatchAny c input := Ok (Compact_MatchAny c input) |}.
#[local] Instance mph_factory : DomainFactory MphFactory MphValueMatcher := {|
  newDomainMatcherFactory := ∅; BuildMatcher := Mph_BuildMatcher |}.
#[local] Instance compact_factory : DomainFactory CompactFactory CompactDomainMatcher := {|
  newDomainMatcherFactory := ∅; BuildMatcher := Compact_BuildMatcher |}.

(** ** The registry *)

Section registry.
Context {F D : Type} `{DomainFactory F D}.

Record DynamicDomainMatcher := mkDyn { dyn_rules : list DomainRule; dyn_state : D }.
Definition Dyn_Reload (d : DynamicDomainMatcher) (newMatcher : D) : DynamicDomainMatcher := mkDyn (dyn_rules d) newMatcher.
Definition NewDynamicDomainMatcher (rules : list DomainRule) (matcher : D) : DynamicDomainMatcher := mkDyn rules matcher.

(** The dynamic matchers are shared with the rules that hold them: the registry's map is the
    store they live in, by identifier; a matcher nobody holds may disappear. *)
Record DomainRegistry := mkReg { reg_factory : F; reg_matchers : gmap Z DynamicDomainMatcher }.

(** [uuid.New] gives a fresh [id]. *)
Definition BuildDomainMatcher (load : Load) (r : DomainRegistry) (id : Z) (rules : list DomainRule) : go Z * DomainRegistry :=
  match BuildMatcher load (reg_factory r) rules with
  | (Ok m, f) => (Ok id, mkReg f (<[id := NewDynamicDomainMatcher rules m]> (reg_matchers r)))
  | (Err e, f) => (Err e, mkReg f (reg_matchers r))
  | (Panic, f) => (Panic, mkReg f (reg_matchers r))
  end.

(** The first loop of [Reload]: rebuild every matcher. *)
Fixpoint rebuild (load : Load) (f : F) (ms : list (Z * DynamicDomainMatcher)) : go (list (Z * DynamicDomainMatcher * D)) * F :=
  match ms with
  | [] => (Ok [], f)
  | (id, d) :: ms =>
      match BuildMatcher load f (dyn_rules d) with
      | (Ok m, f) => let '(r, f) := rebuild load f ms in (rest ← r; Ok ((id, d, m) :: rest), f)
      | (Err e, f) => (Err e, f)
      | (Panic, f) => (Panic, f)
      end
  end.
Definition swap (ms : gmap Z DynamicDomainMatcher) (entry : Z * DynamicDomainMatcher * D) : gmap Z DynamicDomainMatcher :=
  let '(id, d, m) := entry in <[id := Dyn_Reload d m]> ms.
Definition Reload (load : Load) (r : DomainRegistry) : go unit * DomainRegistry :=
  match rebuild load newDomainMatcherFactory (map_to_list (reg_matchers r)) with
  | (Ok reloaded, f) => (Ok (), mkReg f (foldl swap (reg_matchers r) reloaded))
  | (Err e, _) => (Err e, r)
  | (Panic, _) => (Panic, r)
  end.

End registry.
End geodomain.

(** ** What the rules say *)

Section rules.
Context (Compile : str → option GoError) (MatchString : str → str → bool) (lowerRunes : str → str).

Abbreviation parse := (parseDomain Compile lowerRunes).

Definition site_matchers (domains : list Domain) : list Matcher :=
  omap (λ d, match parse d with Ok m => Some m | _ => None end) domains.

(** The matchers of one rule, and of a list of rules; an error when one does not load. *)
Definition rule_matchers (load : Load) (r : DomainRule) : go (list Matcher) :=
  match r with
  | DomainRule_Custom d => m ← parse d; Ok [m]
  | DomainRule_Geosite g => domains ← load (gs_file g) (gs_code g) (gs_attrs g); Ok (site_matchers domains)
  end.
Fixpoint rules_matchers (load : Load) (rules : list DomainRule) : go (list (list Matcher)) :=
  match rules with
  | [] => Ok []
  | r :: rules => ms ← rule_matchers load r; mss ← rules_matchers load rules; Ok (ms :: mss)
  end.

(** Rule number [v] matches the input. *)
Definition rule_hits (mss : list (list Matcher)) (input : str) (v : Z) : Prop :=
  ∃ k ms, mss !! k = Some ms ∧ v = Z.of_nat k ∧ existsb (λ m, Matcher_Match MatchString m input) ms = true.

Definition answers_rules `{DomainMatcherOps D} (g : D) (mss : list (list Matcher)) : Prop := ∀ input, ldh input →
  ∃ r b, dm_Match g input = Ok r ∧ dm_MatchAny g input = Ok b ∧
    (∀ v, v ∈ r ↔ rule_hits mss input v) ∧ (b = true ↔ ∃ v, rule_hits mss input v).

(** The names of the rules can be told apart in a key. *)
Definition geosite_named (g : GeoSiteRule) : Prop :=
  (colon_ ∉ gs_file g) ∧ (at_sign ∉ gs_code g) ∧ (comma_ ∉ geosite_key g) ∧
  Forall (λ t, type_String t ≠ gs_file g) [Domain_Substr; Domain_Regex; Domain_Domain; Domain_Full].
Definition rule_named (r : DomainRule) : Prop :=
  match r with
  | DomainRule_Custom d => (comma_ ∉ d_value d) ∧ named_type (d_type d) = true
  | DomainRule_Geosite g => geosite_named g
  end.

Record rules_fit (load : Load) (rules : list DomainRule) (mss : list (list Matcher)) : Prop := {
  rf_some : rules ≠ [];
  rf_load : rules_matchers load rules = Ok mss;
  rf_ok : Forall (Forall mph_ok) mss;
  rf_named : Forall rule_named rules;
  rf_count : len rules ≤ 4294967296
}.

(** What a factory promises its clients: rules that fit give a matcher that answers what they
    say, and the cache stays consistent with the files. [suits] is what this factory asks of
    the patterns besides. *)
Class DomainFactorySpec (F D : Type) `{DomainFactory F D, DomainMatcherOps D} := {
  suits : list (list Matcher) → Prop;
  factory_inv : Load → F → Prop;
  new_factory_inv load : factory_inv load newDomainMatcherFactory;
  build_answers load f rules mss :
    factory_inv load f → rules_fit load rules mss → suits mss →
    ∃ g f', BuildMatcher load f rules = (Ok g, f') ∧ factory_inv load f' ∧ answers_rules g mss;
  build_error load f rules e f' :
    factory_inv load f → Forall rule_named rules → BuildMatcher load f rules = (Err e, f') → factory_inv load f'
}.

(** *** Keys *)

Lemma type_no c t : c ∈ [colon_; comma_] → named_type t = true → c ∉ type_String t.
Proof.
  rewrite !elem_of_cons, elem_of_nil. intros [-> |[-> |[]]] Ht; apply (bool_decide_eq_true (_ ∉ type_String t)); by destruct t.
Qed.
Lemma colon_type t : named_type t = true → colon_ ∉ type_String t.
Proof. apply type_no. left. Qed.

(** The entry of a rule in a key. *)
Definition entry_key (r : DomainRule) : str :=
  match r with
  | DomainRule_Custom d => type_String (d_type d) ++ s2b ":" ++ d_value d
  | DomainRule_Geosite g => geosite_key g
  end.

Lemma domain_key_loop_entries rules : (domain_key_loop rules).2 = rules ≫= (λ r, entry_key r ++ [comma_]).
Proof.
  induction rules as [|[d|g] rules IH]; cbn [domain_key_loop]; [done|..]; destruct (domain_key_loop rules) as [c sb];
    cbn [snd] in *; rewrite bind_cons, <- IH; cbn [entry_key]; change (s2b ",") with [comma_]; by rewrite <- !app_assoc.
Qed.

Lemma entry_key_comma r : rule_named r → comma_ ∉ entry_key r.
Proof.
  destruct r as [d|g]; cbn [rule_named entry_key]; [|by intros (_ & _ & ? & _)]. intros [Hv Ht].
  change (s2b ":") with [colon_]. rewrite !elem_of_app, list_elem_of_singleton. intros [Hi|[Hi|Hi]]; [|done|done].
  revert Hi. apply type_no; [right; left|done].
Qed.

(** Rules with the same entry load the same matchers. *)
Lemma geosite_key_inj g g' : geosite_named g → geosite_named g' → geosite_key g = geosite_key g' → g = g'.
Proof.
  intros (Hc & Ha & _) (Hc' & Ha' & _) E. unfold geosite_key in E. change (s2b ":") with [colon_] in E. change (s2b "@") with [at_sign] in E.
  cbn [app] in E. apply split_at_byte in E as [Ef E]; [|done|done]. apply split_at_byte in E as [Ec E]; [|done|done].
  destruct g, g'. cbn in *. congruence.
Qed.

Lemma custom_geosite_ne d g : rule_named (DomainRule_Custom d) → geosite_named g →
  entry_key (DomainRule_Custom d) ≠ geosite_key g.
Proof.
  intros [_ Ht] (Hc & _ & _ & Hn) E. cbn [entry_key] in E. unfold geosite_key in E. change (s2b ":") with [colon_] in E.
  cbn [app] in E. apply split_at_byte in E as [Ef _]; [| |done].
  - rewrite !list.Forall_cons in Hn. destruct (d_type d); naive_solver.
  - by apply colon_type.
Qed.

Lemma entry_key_matchers load r r' : rule_named r → rule_named r' → entry_key r = entry_key r' →
  rule_matchers load r = rule_matchers load r'.
Proof.
  destruct r as [d|g], r' as [d'|g']; intros Hr Hr' E.
  - cbn [entry_key] in E. change (s2b ":") with [colon_] in E. cbn [app] in E.
    destruct Hr as [_ Ht], Hr' as [_ Ht'].
    apply split_at_byte in E as [Et Ev]; [|by apply colon_type..].
    assert (d_type d = d_type d') as Ety by (destruct (d_type d), (d_type d'); done).
    cbn [rule_matchers]. unfold parseDomain. by rewrite Ety, Ev.
  - by destruct (custom_geosite_ne d g' Hr Hr').
  - by destruct (custom_geosite_ne d' g Hr' Hr).
  - cbn [entry_key] in E. by rewrite (geosite_key_inj g g' Hr Hr' E).
Qed.

Lemma entries_matchers load rules : ∀ rules', Forall rule_named rules → Forall rule_named rules' →
  rules ≫= (λ r, entry_key r ++ [comma_]) = rules' ≫= (λ r, entry_key r ++ [comma_]) →
  rules_matchers load rules = rules_matchers load rules'.
Proof.
  induction rules as [|r rules IH]; intros [|r' rules'] Hl Hl' E.
  - done.
  - rewrite bind_cons, <- app_assoc in E. by destruct (entry_key r').
  - rewrite bind_cons, <- app_assoc in E. by destruct (entry_key r).
  - rewrite !bind_cons, <- !app_assoc in E. apply Forall_cons_1 in Hl as [Hr Hl], Hl' as [Hr' Hl'].
    apply split_at_byte in E as [Ee E]; [|by apply entry_key_comma..].
    cbn [rules_matchers]. rewrite (entry_key_matchers load r r' Hr Hr' Ee), (IH rules' Hl Hl' E). done.
Qed.

Lemma domain_key_matchers load rules rules' : Forall rule_named rules → Forall rule_named rules' →
  buildDomainRulesKey rules = buildDomainRulesKey rules' → buildDomainRulesKey rules ≠ [] →
  rules_matchers load rules = rules_matchers load rules'.
Proof.
  unfold buildDomainRulesKey. intros Hl Hl' E Hne. apply entries_matchers; [done..|].
  rewrite <- !domain_key_loop_entries. destruct (domain_key_loop rules) as [[] sb], (domain_key_loop rules') as [[] sb']; done.
Qed.

End rules.

Arguments suits {_ _ _ _ _ _ _ _} _.
Arguments factory_inv {_ _ _ _ _ _ _ _} _ _.
Arguments new_factory_inv {_ _ _ _ _ _ _} _ _.
Arguments build_answers {_ _ _ _ _ _ _} _ _ _ _ _.
Arguments build_error {_ _ _ _ _ _ _} _ _ _ _ _ _.

(** ** Both factories keep the promise *)

Section factories.
Context (Compile : str → option GoError) (MatchString : str → str → bool) (lowerRunes : str → str).
Context (strhash : Z → str → Z) (sortSlice : list (list nat) → list nat) (fuel : nat).
Hypothesis Hsort : ∀ bs, sortSlice bs ≡ₚ seq 0 (length bs).

Abbreviation rms := (rules_matchers Compile lowerRunes).

(** The matchers with the numbers of their rules. *)
Fixpoint numbered (i : Z) (mss : list (list Matcher)) : list (Matcher * Z) :=
  match mss with [] => [] | ms :: mss => ((λ m, (m, i)) <$> ms) ++ numbered (i + 1) mss end.

Lemma elem_of_rule_numbered mss : ∀ i m v, (m, v) ∈ numbered i mss ↔
  ∃ k ms, mss !! k = Some ms ∧ m ∈ ms ∧ v = i + Z.of_nat k.
Proof.
  induction mss as [|ms mss IH]; intros i m v; cbn [numbered].
  { rewrite elem_of_nil. split; [done|]. intros (k & ms & [=] & _). }
  rewrite elem_of_app, list_elem_of_fmap, IH. split.
  - intros [(m' & [= -> ->] & Hm)|(k & ms' & Hk & Hm & ->)]; [exists 0%nat, ms|exists (S k), ms'];
      (split; [done|]; split; [done|lia]).
  - intros ([|k] & ms' & Hk & Hm & ->).
    + injection Hk as ->. left. exists m. split; [f_equal; lia|done].
    + right. exists k, ms'. split; [done|]. split; [done|lia].
Qed.

Lemma hits_numbered mss input v :
  (∃ m, (m, v) ∈ numbered 0 mss ∧ Matcher_Match MatchString m input = true) ↔ rule_hits MatchString mss input v.
Proof.
  unfold rule_hits. setoid_rewrite elem_of_rule_numbered. split.
  - intros (m & (k & ms & Hk & Hm & ->) & Hmm). exists k, ms. split; [done|]. split; [lia|]. apply existsb_iff. by exists m.
  - intros (k & ms & Hk & -> & (m & Hm & Hmm)%existsb_iff). exists m. split; [|done]. by exists k, ms.
Qed.

Lemma matches_numbered mss input :
  matches MatchString (numbered 0 mss) input ↔ ∃ v, rule_hits MatchString mss input v.
Proof. unfold matches. setoid_rewrite <- hits_numbered. naive_solver. Qed.

Lemma numbered_ok mss i : Forall (Forall mph_ok) mss → Forall (λ x, mph_ok x.1) (numbered i mss).
Proof.
  intros H. rewrite list.Forall_forall. intros [m v] (k & ms & Hk & Hm & _)%elem_of_rule_numbered. cbn.
  assert (Hms : Forall mph_ok ms) by (by eapply (Forall_lookup_1 (Forall mph_ok))).
  rewrite list.Forall_forall in Hms. by apply Hms.
Qed.

Lemma MphValue_added_app g L K : MphValue_added g (L ++ K) = (g ← MphValue_added g L; MphValue_added g K).
Proof.
  revert g. induction L as [|[m v] L IH]; intros g; [done|]. cbn [app MphValue_added].
  destruct (MphValue_Add g m v); cbn [mbind go_bind]; [apply IH|done..].
Qed.

Lemma parse_no_panic d : parseDomain Compile lowerRunes d ≠ Panic.
Proof. unfold parseDomain, Type_New. destruct (d_type d); try done. by destruct (Compile _). Qed.

Lemma mph_add_sites_added domains i : ∀ g, mph_add_sites Compile lowerRunes g i domains =
  MphValue_added g ((λ m, (m, u32 i)) <$> site_matchers Compile lowerRunes domains).
Proof.
  induction domains as [|d ds IH]; intros g; [done|]. cbn [mph_add_sites]. unfold site_matchers. cbn [omap list_omap].
  pose proof (parse_no_panic d). destruct (parseDomain _ _ d) as [m|e|]; [|apply IH|done].
  cbn [fmap list_fmap MphValue_added]. destruct (MphValue_Add g m (u32 i)); cbn [mbind go_bind]; [apply IH|done..].
Qed.

Lemma mph_add_rules_added load rules : ∀ mss i g, rms load rules = Ok mss → 0 ≤ i → i + len rules ≤ 4294967296 →
  mph_add_rules Compile lowerRunes load g i rules = MphValue_added g (numbered i mss).
Proof.
  induction rules as [|r rules IH]; intros mss i g H Hi Hl; cbn [rules_matchers] in H.
  { by injection H as <-. }
  apply go_bind_ok in H as (ms & Hm & H). apply go_bind_ok in H as (mss' & Hms & [= <-]).
  rewrite len_cons in Hl. pose proof (len_nonneg rules). assert (Hu : u32 i = i) by (apply u32_small; unfold is_u32; lia).
  cbn [numbered]. rewrite MphValue_added_app. destruct r as [d|gs]; cbn [rule_matchers] in Hm; cbn [mph_add_rules].
  - apply go_bind_ok in Hm as (m & -> & [= <-]). rewrite Hu. cbn [fmap list_fmap MphValue_added mbind go_bind].
    destruct (MphValue_Add g m i); cbn [mbind go_bind]; [apply IH; [done|lia..]|done..].
  - apply go_bind_ok in Hm as (ds & -> & [= <-]). cbn [mbind go_bind]. rewrite mph_add_sites_added, Hu.
    destruct (MphValue_added _ _); cbn [mbind go_bind]; [apply IH; [done|lia..]|done..].
Qed.

#[local] Instance mph_ops : DomainMatcherOps MphValueMatcher := mph_matcher_ops MatchString strhash.
#[local] Instance mph_fac : DomainFactory (gmap str MphValueMatcher) MphValueMatcher :=
  mph_factory Compile lowerRunes strhash sortSlice fuel.

(** What the perfect-hash factory asks of the patterns of a rule list: not too many, and that
    every bucket of the table finds a seed. *)
Definition mph_few (mss : list (list Matcher)) : Prop := 2 * len (numbered 0 mss) ≤ 2147483648.
Definition mph_seeded (mss : list (list Matcher)) : Prop := ∀ g,
  MphValue_added NewMphValueMatcher (numbered 0 mss) = Ok g → seeded strhash sortSlice fuel g.
Definition mph_suits (mss : list (list Matcher)) : Prop := mph_few mss ∧ mph_seeded mss.

Definition mph_inv (load : Load) (f : gmap str MphValueMatcher) : Prop := ∀ key g, f !! key = Some g →
  ∃ rules mss, key = buildDomainRulesKey rules ∧ Forall rule_named rules ∧ rms load rules = Ok mss ∧ answers_rules MatchString g mss.

(** What building from scratch gives: a matcher that answers, if there are seeds. *)
Lemma mph_built load rules mss : rules_fit Compile lowerRunes load rules mss → mph_few mss →
  match g ← mph_add_rules Compile lowerRunes load NewMphValueMatcher 0 rules; MphValue_Build strhash sortSlice fuel g with
  | Ok g => answers_rules MatchString g mss
  | _ => ¬ mph_seeded mss
  end.
Proof.
  intros H Hfew. pose proof (len_nonneg rules).
  rewrite (mph_add_rules_added load rules mss) by (apply H || lia || (pose proof (rf_count _ _ _ _ _ H); lia)).
  destruct (mph_value_answers strhash MatchString sortSlice fuel Hsort (numbered 0 mss)) as (g & Eg & Hans).
  { apply numbered_ok, H. }
  { exact Hfew. }
  rewrite Eg. cbn [mbind go_bind].
  destruct (MphValue_Build strhash sortSlice fuel g) as [g'|e|]; [|intros Hs; apply Hans, Hs, Eg..].
  destruct Hans as [_ Hans]. intros input Hin. destruct (Hans input Hin) as (r & b & E1 & E2 & Hr & Hb).
  exists r, b. split; [done|]. split; [done|]. split.
  - intros v. by rewrite Hr, hits_numbered.
  - by rewrite Hb, matches_numbered.
Qed.

(** With the cache: a matcher that is returned answers, and one is returned if there are seeds. *)
Lemma mph_build_cases load f rules mss : mph_inv load f → rules_fit Compile lowerRunes load rules mss → mph_few mss →
  ∃ res f', BuildMatcher load f rules = (res, f') ∧ mph_inv load f' ∧
    match res with Ok g => answers_rules MatchString g mss | _ => ¬ mph_seeded mss end.
Proof.
  intros Hf H Hs. pose proof (mph_built load rules mss H Hs) as Hg.
  cbn [BuildMatcher mph_fac mph_factory]. unfold Mph_BuildMatcher. pose proof (rf_some _ _ _ _ _ H) as Hne.
  destruct rules as [|r0 rules0] eqn:Er; [done|]. rewrite <- Er in *. set (key := buildDomainRulesKey rules).
  destruct (if decide (key = []) then None else f !! key) as [g0|] eqn:Ek.
  - case_decide as Hkey; [done|]. exists (Ok g0), f. split; [done|]. split; [done|].
    destruct (Hf _ _ Ek) as (rules' & mss' & Ekey & Hn & Hl & Hans).
    rewrite <- (domain_key_matchers Compile lowerRunes load rules rules') in Hl by (done || apply H).
    rewrite (rf_load _ _ _ _ _ H) in Hl. by injection Hl as <-.
  - destruct (mbind _ _) as [g|e|]; eexists _, _; (split; [reflexivity|]); [|by split..]. split; [|done]. case_decide as Hkey; [done|].
    intros k g' [[<- <-]|[_ Hk]]%lookup_insert_Some; [|by apply Hf].
    exists rules, mss. split; [done|]. split; [apply H|]. split; [apply H|done].
Qed.

Lemma mph_build_answers load f rules mss : mph_inv load f → rules_fit Compile lowerRunes load rules mss → mph_suits mss →
  ∃ g f', BuildMatcher load f rules = (Ok g, f') ∧ mph_inv load f' ∧ answers_rules MatchString g mss.
Proof.
  intros Hf H [Hfew Hs]. destruct (mph_build_cases load f rules mss Hf H Hfew) as (res & f' & E & Hf' & Hres).
  destruct res as [g|e|]; [|by destruct (Hres Hs)..]. by exists g, f'.
Qed.

#[local] Instance mph_spec : DomainFactorySpec Compile MatchString lowerRunes (gmap str MphValueMatcher) MphValueMatcher.
Proof.
  refine {| suits := mph_suits; factory_inv := mph_inv |}.
  - intros load key g Hk. change ((∅ : gmap str MphValueMatcher) !! key = Some g) in Hk. by rewrite lookup_empty in Hk.
  - apply mph_build_answers.
  - intros load f rules e f' Hf _. cbn [BuildMatcher mph_fac mph_factory]. unfold Mph_BuildMatcher.
    destruct rules; [by intros [= _ <-]|]. repeat (case_match; try done); by intros [= _ <-].
Defined.

(** *** The compact factory *)

#[local] Instance compact_ops : DomainMatcherOps CompactDomainMatcher := compact_matcher_ops MatchString.
#[local] Instance compact_fac : DomainFactory (gmap str LinearAnyMatcher) CompactDomainMatcher :=
  compact_factory Compile lowerRunes.

Definition compact_suits (mss : list (list Matcher)) : Prop := len (substr_patterns (numbered 0 mss)) ≤ 65536.

Definition compact_inv (load : Load) (f : gmap str LinearAnyMatcher) : Prop := ∀ key s, f !! key = Some s →
  ∃ g domains, key = geosite_key g ∧ geosite_named g ∧ load (gs_file g) (gs_code g) (gs_attrs g) = Ok domains ∧
    s = any_added (site_matchers Compile lowerRunes domains).

Lemma any_add_sites_added domains : ∀ s, any_add_sites Compile lowerRunes s domains =
  Ok (foldl Any_Add s (site_matchers Compile lowerRunes domains)).
Proof.
  induction domains as [|d ds IH]; intros s; [done|]. cbn [any_add_sites]. unfold site_matchers. cbn [omap list_omap].
  pose proof (parse_no_panic d). destruct (parseDomain _ _ d) as [m|e|]; [apply IH|apply IH|done].
Qed.

Lemma getOrCreateFrom_spec load f g : compact_inv load f → geosite_named g →
  ∃ f', getOrCreateFrom Compile lowerRunes load f g =
    (domains ← load (gs_file g) (gs_code g) (gs_attrs g); Ok (any_added (site_matchers Compile lowerRunes domains)), f') ∧
    compact_inv load f'.
Proof.
  intros Hf Hg. unfold getOrCreateFrom. destruct (f !! geosite_key g) as [s|] eqn:Ek.
  - exists f. split; [|done]. destruct (Hf _ _ Ek) as (g' & ds & Ekey & Hg' & Hl & ->).
    rewrite (geosite_key_inj g g' Hg Hg' Ekey), Hl. done.
  - destruct (load _ _ _) as [ds|e|] eqn:El; cbn [mbind go_bind]; [|by exists f..].
    rewrite any_add_sites_added. eexists. split; [done|].
    intros k s [[<- <-]|[_ Hk]]%lookup_insert_Some; [|by apply Hf]. by exists g, ds.
Qed.

(** The rules by kind: the numbered custom matchers, and the numbered sets. *)
Fixpoint customs (i : Z) (rules : list DomainRule) (mss : list (list Matcher)) : list (Matcher * Z) :=
  match rules, mss with
  | DomainRule_Custom _ :: rules, ms :: mss => ((λ m, (m, i)) <$> ms) ++ customs (i + 1) rules mss
  | DomainRule_Geosite _ :: rules, _ :: mss => customs (i + 1) rules mss
  | _, _ => []
  end.
Fixpoint sites (i : Z) (rules : list DomainRule) (mss : list (list Matcher)) : list (list Matcher * Z) :=
  match rules, mss with
  | DomainRule_Custom _ :: rules, _ :: mss => sites (i + 1) rules mss
  | DomainRule_Geosite _ :: rules, ms :: mss => (ms, i) :: sites (i + 1) rules mss
  | _, _ => []
  end.

Definition value_of (L : list (Matcher * Z)) : option LinearValueMatcher :=
  match L with [] => None | _ => Some (added L) end.
Definition set_of (x : list Matcher * Z) : LinearAnyMatcher * Z := (any_added x.1, x.2).

Lemma value_of_snoc L m v : Some (Value_Add (default NewLinearValueMatcher (value_of L)) m v) = value_of (L ++ [(m, v)]).
Proof.
  assert (H : added (L ++ [(m, v)]) = Value_Add (default NewLinearValueMatcher (value_of L)) m v).
  { unfold added. rewrite foldl_app. cbn [foldl fst snd]. f_equal. by destruct L. }
  rewrite <- H. by destruct L.
Qed.

Lemma compact_rules_spec load rules : ∀ mss f i L S, compact_inv load f → Forall rule_named rules →
  rms load rules = Ok mss → 0 ≤ i → i + len rules ≤ 4294967296 →
  ∃ f', compact_rules Compile lowerRunes load f (mkCompact (value_of L) (set_of <$> S)) i rules =
    (Ok (mkCompact (value_of (L ++ customs i rules mss)) (set_of <$> (S ++ sites i rules mss))), f') ∧ compact_inv load f'.
Proof.
  induction rules as [|r rules IH]; intros mss f i L S Hf Hn H Hi Hl; cbn [rules_matchers] in H.
  { injection H as <-. exists f. cbn. by rewrite !app_nil_r. }
  apply Forall_cons_1 in Hn as [Hr Hn].
  apply go_bind_ok in H as (ms & Hm & H). apply go_bind_ok in H as (mss' & Hms & [= <-]).
  rewrite len_cons in Hl. pose proof (len_nonneg rules). assert (Hu : u32 i = i) by (apply u32_small; unfold is_u32; lia).
  destruct r as [d|gs]; cbn [rule_matchers] in Hm; cbn [compact_rules customs sites cd_custom cd_matchers].
  - apply go_bind_ok in Hm as (m & -> & [= <-]). rewrite Hu, value_of_snoc.
    destruct (IH mss' f (i + 1) (L ++ [(m, i)]) S) as (f' & -> & Hf'); [done|done|done|lia|lia|].
    exists f'. split; [|done]. cbn [fmap list_fmap]. by rewrite <- app_assoc.
  - apply go_bind_ok in Hm as (ds & El & [= <-]). destruct (getOrCreateFrom_spec load f gs Hf Hr) as (f1 & -> & Hf1).
    rewrite El. cbn [mbind go_bind]. rewrite Hu.
    change [(any_added ?s, i)] with (set_of <$> [(s, i)]). rewrite <- fmap_app.
    destruct (IH mss' f1 (i + 1) L (S ++ [(site_matchers Compile lowerRunes ds, i)])) as (f' & -> & Hf'); [done|done|done|lia|lia|].
    exists f'. split; [|done]. by rewrite <- app_assoc.
Qed.

Lemma compact_rules_inv load rules : ∀ f c i, compact_inv load f → Forall rule_named rules →
  compact_inv load (compact_rules Compile lowerRunes load f c i rules).2.
Proof.
  induction rules as [|[d|gs] rules IH]; intros f c i Hf Hn; cbn [compact_rules]; [done|..];
    apply Forall_cons_1 in Hn as [Hr Hn].
  - destruct (parseDomain _ _ d); [by apply IH|done..].
  - destruct (getOrCreateFrom_spec load f gs Hf Hr) as (f1 & -> & Hf1).
    destruct (load _ _ _); cbn [mbind go_bind]; [by apply IH|done..].
Qed.

Lemma elem_of_kinds rules : ∀ mss i m v, length rules = length mss →
  (m, v) ∈ numbered i mss ↔ (m, v) ∈ customs i rules mss ∨ ∃ ms, (ms, v) ∈ sites i rules mss ∧ m ∈ ms.
Proof.
  induction rules as [|[d|gs] rules IH]; intros [|ms mss] i m v Hl; try done; cbn [numbered customs sites].
  - split; [by left|]. intros [?|(? & ?%elem_of_nil & _)]; done.
  - injection Hl as Hl. rewrite !elem_of_app, (IH mss _ _ _ Hl). tauto.
  - injection Hl as Hl. rewrite elem_of_app, (IH mss _ _ _ Hl), list_elem_of_fmap. setoid_rewrite elem_of_cons. naive_solver.
Qed.

Lemma substr_count_kinds rules : ∀ mss i,
  (length (substr_patterns (customs i rules mss)) ≤ length (substr_patterns (numbered i mss)))%nat.
Proof.
  unfold substr_patterns.
  induction rules as [|[d|gs] rules IH]; intros [|ms mss] i; cbn [numbered customs]; try (cbn; lia);
    specialize (IH mss (i + 1)); rewrite !list.filter_app, !fmap_app, !length_app in *; lia.
Qed.

Lemma value_of_answers L input : Forall (λ x, mph_ok x.1) L → len (substr_patterns L) ≤ 65536 →
  ∃ r, match value_of L with Some v => Value_Match MatchString v input | None => Ok [] end = Ok r ∧
    (∀ v, v ∈ r ↔ ∃ m, (m, v) ∈ L ∧ Matcher_Match MatchString m input = true) ∧
    (match value_of L with Some v => Value_MatchAny MatchString v input | None => false end = true
     ↔ matches MatchString L input).
Proof.
  intros HL Hlen. unfold value_of. destruct L as [|x K] eqn:E.
  - exists []. split; [done|]. split.
    + intros v. rewrite elem_of_nil. split; [done|]. by intros (m & ?%elem_of_nil & _).
    + split; [done|]. by intros (m & v & ?%elem_of_nil & _).
  - rewrite <- E in *. destruct (linear_value_answers MatchString L input) as (ss & Em & Hr & Hb); [|done|].
    + eapply Forall_impl; [|exact HL]. by intros y [? _].
    + eexists. split; [exact Em|]. split; [by apply Hr|done].
Qed.

Lemma sets_foldl input l : ∀ r,
  foldl (λ result sv, if Any_MatchAny MatchString sv.1 input then result ++ [sv.2] else result) r l =
  r ++ omap (λ sv : LinearAnyMatcher * Z, if Any_MatchAny MatchString sv.1 input then Some sv.2 else None) l.
Proof.
  induction l as [|sv l IH]; intros r; cbn [foldl omap list_omap]; [by rewrite app_nil_r|].
  rewrite IH. destruct (Any_MatchAny _ _ _); [by rewrite <- app_assoc|done].
Qed.

Lemma set_of_answers ms input : Forall mph_ok ms →
  Any_MatchAny MatchString (any_added ms) input = existsb (λ m, Matcher_Match MatchString m input) ms.
Proof. intros H. apply linear_any_answers. eapply Forall_impl; [|exact H]. by intros y [? _]. Qed.

Lemma elem_of_sites rules : ∀ mss i ms v, (ms, v) ∈ sites i rules mss → ms ∈ mss.
Proof.
  induction rules as [|[d|gs] rules IH]; intros [|ms' mss] i ms v; cbn [sites]; try by intros ?%elem_of_nil.
  - intros H%IH. by right.
  - rewrite elem_of_cons. intros [[= -> _]|H%IH]; [left|by right].
Qed.

Lemma rules_matchers_length load rules : ∀ mss, rms load rules = Ok mss → length rules = length mss.
Proof.
  induction rules as [|r rules IH]; intros mss H; cbn [rules_matchers] in H; [by injection H as <-|].
  apply go_bind_ok in H as (ms & Hm & H). apply go_bind_ok in H as (mss' & Hms & [= <-]). cbn. by rewrite (IH mss').
Qed.

Lemma compact_answers rules mss : length rules = length mss → Forall (Forall mph_ok) mss → compact_suits mss →
  answers_rules MatchString (mkCompact (value_of (customs 0 rules mss)) (set_of <$> sites 0 rules mss)) mss.
Proof.
  intros Hl Hok Hs input _. cbn [dm_Match dm_MatchAny compact_ops compact_matcher_ops].
  unfold Compact_Match, Compact_MatchAny. cbn [cd_custom cd_matchers].
  pose proof (λ m v, elem_of_kinds rules mss 0 m v Hl) as Hk.
  assert (Hc : Forall (λ x, mph_ok x.1) (customs 0 rules mss)).
  { pose proof (numbered_ok mss 0 Hok) as Hn. rewrite list.Forall_forall in Hn |- *. intros [m v] Hm. apply (Hn (m, v)), Hk. by left. }
  assert (Hset : ∀ ms v, (ms, v) ∈ sites 0 rules mss →
            Any_MatchAny MatchString (any_added ms) input = existsb (λ m, Matcher_Match MatchString m input) ms).
  { intros ms v Hin. apply set_of_answers. rewrite list.Forall_forall in Hok. by eapply Hok, elem_of_sites. }
  destruct (value_of_answers (customs 0 rules mss) input Hc) as (r & -> & Hr & Hb).
  { unfold compact_suits, len in *. pose proof (substr_count_kinds rules mss 0). lia. }
  cbn [mbind go_bind]. rewrite sets_foldl. eexists _, _. split; [done|]. split; [done|].
  assert (Hsites : ∀ v, v ∈ omap (λ sv : LinearAnyMatcher * Z, if Any_MatchAny MatchString sv.1 input then Some sv.2 else None)
                              (set_of <$> sites 0 rules mss)
                    ↔ ∃ m ms, (ms, v) ∈ sites 0 rules mss ∧ m ∈ ms ∧ Matcher_Match MatchString m input = true).
  { intros v. rewrite list_elem_of_omap. setoid_rewrite list_elem_of_fmap. split.
    - intros (sv & ([ms w] & -> & Hin) & E). cbn [fst snd set_of] in E. rewrite (Hset ms w Hin) in E.
      destruct (existsb _ ms) eqn:Ex; [|done]. injection E as <-. apply existsb_iff in Ex as (m & Hm & Hmm). by exists m, ms.
    - intros (m & ms & Hin & Hm & Hmm). exists (set_of (ms, v)). split; [by exists (ms, v)|]. cbn [fst snd set_of].
      rewrite (Hset ms v Hin). assert (existsb (λ m, Matcher_Match MatchString m input) ms = true) as ->; [|done].
      apply existsb_iff. by exists m. }
  split.
  - intros v. rewrite elem_of_app, Hr, Hsites, <- hits_numbered. setoid_rewrite Hk. naive_solver.
  - setoid_rewrite <- hits_numbered. setoid_rewrite Hk.
    destruct (match value_of _ with Some v => _ | None => _ end) eqn:Ev.
    + split; [|done]. intros _. destruct (proj1 Hb eq_refl) as (m & v & Hm & Hmm). exists v, m. eauto.
    + rewrite existsb_iff. setoid_rewrite list_elem_of_fmap. split.
      * intros (sv & ([ms v] & -> & Hin) & E). cbn [fst set_of] in E. rewrite (Hset ms v Hin) in E.
        apply existsb_iff in E as (m & Hm & Hmm). exists v, m. eauto.
      * intros (v & m & [Hm|(ms & Hin & Hm)] & Hmm).
        { assert (false = true) as [=]. apply Hb. by exists m, v. }
        exists (set_of (ms, v)). split; [by exists (ms, v)|]. cbn [fst set_of]. rewrite (Hset ms v Hin). apply existsb_iff. by exists m.
Qed.

#[local] Instance compact_spec : DomainFactorySpec Compile MatchString lowerRunes (gmap str LinearAnyMatcher) CompactDomainMatcher.
Proof.
  refine {| suits := compact_suits; factory_inv := compact_inv |}.
  - intros load key g Hk. change ((∅ : gmap str LinearAnyMatcher) !! key = Some g) in Hk. by rewrite lookup_empty in Hk.
  - intros load f rules mss Hf H Hs. cbn [BuildMatcher compact_fac compact_factory]. unfold Compact_BuildMatcher.
    pose proof (rf_some _ _ _ _ _ H) as Hne. pose proof (rf_count _ _ _ _ _ H).
    destruct (compact_rules_spec load rules mss f 0 [] []) as (f' & E & Hf'); [done|apply H|apply H|lia|lia|].
    change (mkCompact None []) with (mkCompact (value_of []) (set_of <$> [])). cbn [app] in E.
    destruct rules as [|r rules0] eqn:Er; [done|]. rewrite <- Er in *. rewrite E. eexists _, f'. split; [done|]. split; [done|].
    apply compact_answers; [by eapply rules_matchers_length, H|apply H|done].
  - intros load f rules e f' Hf Hn. cbn [BuildMatcher compact_fac compact_factory]. unfold Compact_BuildMatcher.
    pose proof (compact_rules_inv load rules f (mkCompact None []) 0 Hf Hn) as Hi.
    destruct rules; [by intros [= _ <-]|]. intros E. by rewrite E in Hi.
Defined.

(** C35: what a domain rule list matches does not depend on the platform or the structure behind
    it. Take rules whose files load, whose patterns are lower-case domains, whose custom values
    have no comma and whose file names, codes and attributes have none of the separators of a
    cache key, with at most 2^30 patterns and at most 65536 keywords, and caches built from such
    rules. The compact factory returns a matcher. The perfect-hash factory returns one when every
    bucket of its table has a seed within the fuel; this is all that is asked of the hash of the
    runtime, and what the factory does return does not depend on it. On every input of letters,
    digits, hyphens and dots no [Match] or [MatchAny] of such a matcher panics, [Match] gives
    exactly the numbers of the rules that match the input and [MatchAny] whether there is one.
    Both caches still answer for their keys afterwards. *)
Theorem domain_rules_exact load f1 f2 rules mss :
  mph_inv load f1 → compact_inv load f2 → rules_fit Compile lowerRunes load rules mss → mph_few mss → compact_suits mss →
  ∃ res f1' c f2',
    Mph_BuildMatcher Compile lowerRunes strhash sortSlice fuel load f1 rules = (res, f1') ∧
    Compact_BuildMatcher Compile lowerRunes load f2 rules = (Ok c, f2') ∧ mph_inv load f1' ∧ compact_inv load f2' ∧
    (∀ input, ldh input → ∃ r b, Compact_Match MatchString c input = Ok r ∧ Compact_MatchAny MatchString c input = b ∧
      (∀ v, v ∈ r ↔ rule_hits MatchString mss input v) ∧ (b = true ↔ ∃ v, rule_hits MatchString mss input v)) ∧
    (mph_seeded mss → ∃ g, res = Ok g) ∧
    (∀ g, res = Ok g → ∀ input, ldh input → ∃ r b,
      MphValue_Match strhash MatchString g input = Ok r ∧ MphValue_MatchAny strhash MatchString g input = Ok b ∧
      (∀ v, v ∈ r ↔ rule_hits MatchString mss input v) ∧ (b = true ↔ ∃ v, rule_hits MatchString mss input v)).
Proof.
  intros H1 H2 Hfit Hm Hc.
  destruct (mph_build_cases load f1 rules mss H1 Hfit Hm) as (res & f1' & E1 & I1 & A1).
  destruct (build_answers compact_spec load f2 rules mss H2 Hfit Hc) as (c & f2' & E2 & I2 & A2).
  exists res, f1', c, f2'. split; [exact E1|]. split; [exact E2|]. split; [done|]. split; [done|]. split; [|split].
  - intros input Hin. destruct (A2 input Hin) as (r2 & b2 & M2 & [= N2] & V2 & B2). exists r2, b2. done.
  - intros Hs. destruct res as [g|e|]; [by exists g|by destruct (A1 Hs)..].
  - intros g ->. exact A1.
Qed.

End factories.

(** ** The registry, against the interface *)

Section reload.
Context (Compile : str → option GoError) (MatchString : str → str → bool) (lowerRunes : str → str).
Context {F D : Type} `{HD : DomainMatcherOps D} `{HF : DomainFactory F D}.
Context `{HS : !DomainFactorySpec Compile MatchString lowerRunes F D}.

Abbreviation fit := (rules_fit Compile lowerRunes).

(** A matcher answers what its rules say of the files. *)
Definition dyn_ok (load : Load) (d : DynamicDomainMatcher (D := D)) : Prop :=
  ∃ mss, fit load (dyn_rules d) mss ∧ suits mss ∧ answers_rules MatchString (dyn_state d) mss.
Definition reg_ok (load : Load) (r : DomainRegistry (F := F) (D := D)) : Prop :=
  factory_inv load (reg_factory r) ∧ map_Forall (λ _, dyn_ok load) (reg_matchers r).

Lemma rebuild_ok load ms : ∀ f, factory_inv load f →
  Forall (λ x, ∃ mss, fit load (dyn_rules x.2) mss ∧ suits mss) ms →
  ∃ entries f', rebuild load f ms = (Ok entries, f') ∧ factory_inv load f' ∧
    entries.*1 = ms ∧ Forall (λ e, dyn_ok load (Dyn_Reload e.1.2 e.2)) entries.
Proof.
  induction ms as [|[id d] ms IH]; intros f Hf Hms; cbn [rebuild].
  { exists [], f. split; [done|]. split; [done|]. split; [done|apply Forall_nil_2]. }
  apply Forall_cons_1 in Hms as [(mss & Hfit & Hs) Hms]. cbn [snd] in Hfit.
  destruct (build_answers HS load f (dyn_rules d) mss Hf Hfit Hs) as (m & f1 & -> & Hf1 & Hans).
  destruct (IH f1 Hf1 Hms) as (es & f' & -> & Hf' & <- & Hes). eexists _, f'. split; [done|]. split; [done|].
  split; [done|]. apply Forall_cons_2; [|done]. by exists mss.
Qed.

Lemma foldl_swap entries : ∀ ms, NoDup entries.*1.*1 → ∀ id,
  (foldl swap ms entries : gmap Z (DynamicDomainMatcher (D := D))) !! id =
  match list_find (λ e, e.1.1 = id) entries with Some (_, e) => Some (Dyn_Reload e.1.2 e.2) | None => ms !! id end.
Proof.
  induction entries as [|[[i d] m] es IH]; intros ms Hnd id; [done|]. cbn [fmap list_fmap] in Hnd.
  apply list.NoDup_cons in Hnd as [Hi Hnd]. cbn [foldl list_find fst]. rewrite IH by done. case_decide as Hid; cbn in Hid.
  - subst i. destruct (list_find _ es) as [[k e]|] eqn:E.
    + apply list_find_Some in E as (Hk & He & _). destruct Hi. rewrite <- He.
      apply list_elem_of_fmap. exists e.1. split; [done|]. apply list_elem_of_fmap. exists e. split; [done|]. by eapply list_elem_of_lookup_2.
    + cbn [swap]. by rewrite lookup_insert_eq.
  - destruct (list_find _ es) as [[k e]|]; [done|]. cbn [swap fmap option_fmap option_map]. by rewrite lookup_insert_ne.
Qed.

(** Reloading the geo data is all or nothing. When the rules of every live matcher load from
    the new files, [Reload] succeeds, every matcher stays registered under its identifier with
    its rules and now answers what they say of the new files, and the new cache is consistent
    with them; when one does not load, the registry is left as it was. *)
Lemma registry_reload load r :
  (map_Forall (λ _ d, ∃ mss, fit load (dyn_rules d) mss ∧ suits mss) (reg_matchers r) →
   ∃ r', Reload load r = (Ok (), r') ∧ reg_ok load r' ∧
     ∀ id, dyn_rules <$> reg_matchers r' !! id = dyn_rules <$> reg_matchers r !! id) ∧
  (∀ e r', Reload load r = (Err e, r') → r' = r).
Proof.
  unfold Reload. split; [intros Hms|by intros e r'; destruct (rebuild _ _ _) as [[] f]; intros [= _ <-]].
  destruct (rebuild_ok load (map_to_list (reg_matchers r)) newDomainMatcherFactory) as (es & f' & -> & Hf' & Ees & Hes).
  { apply new_factory_inv. }
  { rewrite list.Forall_forall. intros [id d] Hin%elem_of_map_to_list. by apply (Hms id). }
  eexists. split; [done|]. cbn [reg_factory reg_matchers].
  assert (Hnd : NoDup es.*1.*1) by (rewrite Ees; apply NoDup_fst_map_to_list).
  assert (Hfind : ∀ id, match list_find (λ e, e.1.1 = id) es with
                        | Some (_, e) => e ∈ es ∧ reg_matchers r !! id = Some e.1.2 | None => reg_matchers r !! id = None end).
  { intros id. destruct (list_find _ es) as [[k e]|] eqn:E.
    - apply list_find_Some in E as (Hk & <- & _). apply list_elem_of_lookup_2 in Hk. split; [done|].
      apply elem_of_map_to_list. rewrite <- Ees. apply list_elem_of_fmap. exists e. split; [by destruct e as [[]]|done].
    - apply list_find_None in E. rewrite list.Forall_forall in E. apply eq_None_not_Some. intros [d Hd%elem_of_map_to_list].
      rewrite <- Ees in Hd. apply list_elem_of_fmap in Hd as (e & Hd & He). apply (E e He). by rewrite <- Hd. }
  split.
  - split; [done|]. intros id d. cbn [reg_matchers]. rewrite foldl_swap by done. specialize (Hfind id). destruct (list_find _ es) as [[k e]|].
    + intros [= <-]. rewrite list.Forall_forall in Hes. apply Hes, Hfind.
    + by rewrite Hfind.
  - intros id. rewrite foldl_swap by done. specialize (Hfind id). destruct (list_find _ es) as [[k e]|]; [|done].
    destruct Hfind as [_ ->]. done.
Qed.

(** Registering a matcher keeps the registry consistent, also when it fails. *)
Lemma registry_build load r id rules : reg_ok load r → Forall rule_named rules →
  match BuildDomainMatcher load r id rules with
  | (Ok i, r') => ∀ mss, fit load rules mss → suits mss →
      i = id ∧ reg_ok load r' ∧ ∃ d, reg_matchers r' !! id = Some d ∧ dyn_rules d = rules ∧ dyn_ok load d
  | (Err e, r') => reg_ok load r'
  | (Panic, _) => True
  end.
Proof.
  intros [Hf Hm] Hn. unfold BuildDomainMatcher. destruct (BuildMatcher load (reg_factory r) rules) as [[g|e|] f] eqn:E; [|..|done].
  - intros mss Hfit Hs. destruct (build_answers HS load _ rules mss Hf Hfit Hs) as (g' & f' & E' & Hf' & Hans).
    rewrite E in E'. injection E' as <- <-. split; [done|]. assert (Hd : dyn_ok load (NewDynamicDomainMatcher rules g)) by (by exists mss).
    split; [|eexists; split; [apply lookup_insert_eq|done]]. split; [done|]. intros i d. cbn [reg_matchers].
    intros [[_ <-]|[_ Hk]]%lookup_insert_Some; [done|by apply (Hm i)].
  - split; [by eapply (build_error HS)|done].
Qed.

End reload.

(** ** Witnesses *)

Definition sample_load : Load := λ _ _ _, Ok [mkDomain Domain_Substr (s2b "AP") []; mkDomain (Domain_Other 7) [] []].
Definition sample_geo_rules : list DomainRule :=
  [DomainRule_Custom (mkDomain Domain_Domain (s2b "Com") []);
   DomainRule_Geosite (mkGeoSite (s2b "geosite.dat") (s2b "CN") [])].
Definition sample_mss : list (list Matcher) := [[DomainMatcher (s2b "com")]; [SubstrMatcher (s2b "ap")]].

Lemma sample_fit : rules_fit (λ _, None) (λ s, s) sample_load sample_geo_rules sample_mss.
Proof.
  split; [discriminate|reflexivity| | |vm_compute; discriminate].
  - repeat (apply Forall_cons_2; [apply Forall_cons_2; [split; [cbn; try (split; intros H; discriminate H); intros H; discriminate H|];
      try reflexivity; repeat (apply Forall_cons_2; [reflexivity|]); apply Forall_nil_2|apply Forall_nil_2]|]). apply Forall_nil_2.
  - apply Forall_cons_2; [split; [apply (bool_decide_eq_true (comma_ ∉ _)); reflexivity|reflexivity]|].
    apply Forall_cons_2; [|apply Forall_nil_2]. split; [apply (bool_decide_eq_true (colon_ ∉ _)); reflexivity|].
    split; [apply (bool_decide_eq_true (at_sign ∉ _)); reflexivity|].
    split; [apply (bool_decide_eq_true (comma_ ∉ _)); reflexivity|].
    repeat (apply Forall_cons_2; [discriminate|]). apply Forall_nil_2.
Qed.

(** The search for seeds for these rules ends. *)
Lemma sample_seeded : mph_seeded sample_hash (λ bs, seq 0 (length bs)) 64 sample_mss.
Proof.
  intros g Eg. destruct (mph_value_answers sample_hash (λ _ _, false) (λ bs, seq 0 (length bs)) 64 (λ bs, reflexivity _)
    (numbered 0 sample_mss)) as (g' & Eg' & H).
  - apply numbered_ok. exact (rf_ok _ _ _ _ _ sample_fit).
  - vm_compute. discriminate.
  - rewrite Eg in Eg'. apply Ok_inj in Eg' as <-.
    assert (Hb : match (g ← MphValue_added NewMphValueMatcher (numbered 0 sample_mss);
      MphValue_Build sample_hash (λ bs, seq 0 (length bs)) 64 g) with Ok _ => true | _ => false end = true) by (vm_compute; reflexivity).
    rewrite Eg in Hb. cbn [mbind go_bind] in Hb.
    destruct (MphValue_Build _ _ _ g) as [g'| |]; [exact (proj1 H)|discriminate Hb..].
Qed.

Lemma domain_rules_exact_witness : ∃ g c r1 r2,
  MphValue_Match sample_hash (λ _ _, false) g sample_input = Ok r1 ∧ Compact_Match (λ _ _, false) c sample_input = Ok r2 ∧
  0 ∈ r1 ∧ 0 ∈ r2 ∧ 1 ∈ r1 ∧ 1 ∈ r2 ∧ Compact_MatchAny (λ _ _, false) c sample_input = true.
Proof.
  destruct (domain_rules_exact (λ _, None) (λ _ _, false) (λ s, s) sample_hash (λ bs, seq 0 (length bs)) 64 (λ bs, reflexivity _)
              sample_load ∅ ∅ sample_geo_rules sample_mss) as (res & f1 & c & f2 & _ & _ & _ & _ & Hc & Hs & Hm).
  - intros key g Hk. discriminate Hk.
  - intros key g Hk. discriminate Hk.
  - exact sample_fit.
  - vm_compute. discriminate.
  - vm_compute. discriminate.
  - destruct (Hs sample_seeded) as [g Eg].
    assert (Hin : ldh sample_input) by (repeat (apply Forall_cons_2; [reflexivity|]); apply Forall_nil_2).
    destruct (Hc sample_input Hin) as (r2 & b & E2 & Eb & H2 & Hb). destruct (Hm g Eg sample_input Hin) as (r1 & b1 & E1 & _ & H1 & _).
    assert (A0 : rule_hits (λ _ _, false) sample_mss sample_input 0).
    { exists 0%nat, [DomainMatcher (s2b "com")]. split; [reflexivity|]. split; [reflexivity|vm_compute; reflexivity]. }
    assert (A1 : rule_hits (λ _ _, false) sample_mss sample_input 1).
    { exists 1%nat, [SubstrMatcher (s2b "ap")]. split; [reflexivity|]. split; [reflexivity|vm_compute; reflexivity]. }
    exists g, c, r1, r2. rewrite Eb, !H1, !H2. split; [exact E1|]. split; [exact E2|]. split; [exact A0|]. split; [exact A0|].
    split; [exact A1|]. split; [exact A1|]. apply Hb. by exists 0.
Defined.

(** The registry over the compact factory, with one live matcher built from other files. *)
Definition sample_reg : DomainRegistry (F := gmap str LinearAnyMatcher) (D := CompactDomainMatcher) :=
  mkReg ∅ {[ 5 := mkDyn sample_geo_rules (mkCompact None []) ]}.

Lemma registry_reload_witness : ∃ r',
  Reload (H := compact_factory (λ _, None) (λ s, s)) sample_load sample_reg = (Ok (), r') ∧
  ∃ d, reg_matchers r' !! 5 = Some d ∧ dyn_rules d = sample_geo_rules.
Proof.
  destruct (registry_reload (λ _, None) (λ _ _, false) (λ s, s)
              (HS := compact_spec (λ _, None) (λ _ _, false) (λ s, s) sample_hash) sample_load sample_reg) as [H _].
  destruct H as (r' & E & _ & Hr).
  - intros id d Hd. unfold sample_reg in Hd. cbn [reg_matchers] in Hd. apply lookup_singleton_Some in Hd as [_ <-].
    exists sample_mss. split; [exact sample_fit|vm_compute; discriminate].
  - exists r'. split; [exact E|]. specialize (Hr 5). unfold sample_reg in Hr. cbn [reg_matchers] in Hr.
    rewrite lookup_singleton_eq in Hr. destruct (reg_matchers r' !! 5) as [d|]; [|discriminate Hr].
    exists d. split; [reflexivity|]. injection Hr as Hr. exact Hr.
Defined.

(** ** A key two rule lists share

    The values of custom rules are written into the key as they are: a regular expression with
    a comma gives the key of two rules, so the second list gets the matcher of the first. *)
Definition one_regex : list DomainRule :=
  [DomainRule_Custom (mkDomain Domain_Regex (s2b "a,Full:b.com") []); DomainRule_Geosite (mkGeoSite (s2b "f") (s2b "C") [])].
Definition regex_and_full : list DomainRule :=
  [DomainRule_Custom (mkDomain Domain_Regex (s2b "a") []); DomainRule_Custom (mkDomain Domain_Full (s2b "b.com") []);
   DomainRule_Geosite (mkGeoSite (s2b "f") (s2b "C") [])].

Lemma domain_key_collides load f strhash sortSlice fuel g f' :
  Mph_BuildMatcher (λ _, None) (λ s, s) strhash sortSlice fuel load f one_regex = (Ok g, f') →
  buildDomainRulesKey one_regex = buildDomainRulesKey regex_and_full ∧
  (Mph_BuildMatcher (λ _, None) (λ s, s) strhash sortSlice fuel load f' regex_and_full).1 = Ok g.
Proof.
  intros E. assert (Hk : buildDomainRulesKey one_regex = buildDomainRulesKey regex_and_full) by reflexivity.
  split; [done|]. unfold Mph_BuildMatcher in *. cbn [regex_and_full one_regex] in *. fold one_regex in *. fold regex_and_full.
  rewrite <- Hk. assert (f' !! buildDomainRulesKey one_regex = Some g) as Hf'; [|rewrite decide_False by done; by rewrite Hf'].
  rewrite decide_False in E by done. destruct (f !! _) eqn:Ef; [by injection E as <- <-|].
  destruct (mbind _ _) as [h|e|]; [|done|done]. rewrite decide_False in E by done. injection E as <- <-. apply lookup_insert_eq.
Qed.
