(* ===== verification/RouteCond.v ===== *)
(** * Routing contexts and rule conditions

    Models the routing contexts ([features/routing/session/context.go] and the resolving one of
    [features/routing/dns/context.go]) and the conditions of routing rules with their
    constructors ([app/router/condition.go], [BuildCondition] of [app/router/config.go]).

    A resolving context asks the DNS client when a condition wants the target's addresses and
    remembers the answer: applying a condition changes the context, which is passed on. The
    client is [LookupIP n domain], its [n]th answer; process lookup, regular expressions and
    the environment of the process are parameters. *)

From S2P Require Import Prelude Net StrMatcher StrAutomaton StrMph IpMatcher GeoLoader GeoDomain.
Import GoText.

#[local] Open Scope Z_scope.

(** ** [net.IP.String] *)

Definition hex_digit (z : Z) : byte := byte_of_Z (if decide (z < 10) then z + 48 else z + 87).
(** A 16-bit group without leading zeros. *)
Definition hex_group_string (g : Z) : str :=
  if decide (g >= 4096) then [hex_digit (g / 4096); hex_digit (g / 256 mod 16); hex_digit (g / 16 mod 16); hex_digit (g mod 16)]
  else if decide (g >= 256) then [hex_digit (g / 256); hex_digit (g / 16 mod 16); hex_digit (g mod 16)]
  else if decide (g >= 16) then [hex_digit (g / 16); hex_digit (g mod 16)]
  else [hex_digit g].

Fixpoint groups_of (b : list byte) : list Z :=
  match b with
  | x :: y :: b => (byte_to_Z x * 256 + byte_to_Z y) :: groups_of b
  | _ => []
  end.
Fixpoint zeros (gs : list Z) : nat :=
  match gs with g :: gs => if decide (g = 0) then S (zeros gs) else 0%nat | [] => 0%nat end.
(** The first of the longest runs of zero groups: where it starts and its length, at least two. *)
Definition zero_run (gs : list Z) : nat * nat :=
  foldl (λ best i, let l := zeros (drop i gs) in
                   if decide (2 ≤ l ∧ best.2 < l)%nat then (i, l) else best) (8%nat, 0%nat) (seq 0 8).
Fixpoint groups_string (fuel i : nat) (gs : list Z) (start n : nat) : str :=
  match fuel with
  | O => []
  | S fuel =>
      if decide (8 ≤ i)%nat then []
      else if decide (i = start) then
        s2b "::" ++ (if decide (8 ≤ i + n)%nat then [] else
                       hex_group_string (default 0 (gs !! (i + n)%nat)) ++ groups_string fuel (S (i + n)) gs start n)
      else (if decide (0 < i)%nat then s2b ":" else []) ++
           hex_group_string (default 0 (gs !! i)) ++ groups_string fuel (S i) gs start n
  end.
Definition ipv6_string (b : ip) : str :=
  let gs := groups_of b in let '(start, n) := zero_run gs in groups_string 9 0 gs start n.
Definition IP_String (i : ip) : str :=
  match i with
  | [] => s2b "<nil>"
  | _ => match To4 i with
         | Some b => ipv4_string b
         | None => if decide (length i = 16%nat) then ipv6_string i
                   else s2b "?" ++ (i ≫= λ b, [hex_digit (byte_to_Z b / 16); hex_digit (byte_to_Z b mod 16)])
         end
  end.

(** ** Session contexts *)

Record Inbound := mkInbound {
  in_Source : Destination; in_Local : Destination; in_Tag : str; in_User : option str; in_VlessRoute : Z
}.
Record Outbound := mkOutbound { out_Target : Destination; out_RouteTarget : Destination }.
(** The attributes are listed in the order in which the runtime iterates over the map. *)
Record Content := mkContent { ct_Protocol : str; ct_Attributes : option (list (str * str)); ct_SkipDNSResolve : bool }.
Record Session := mkSession { s_Inbound : option Inbound; s_Outbound : option Outbound; s_Content : option Content }.

(** A valid destination with a nil address makes [Address.Family] panic. *)
Definition dest_ips (d : Destination) : go (list ip) :=
  if negb (IsValid d) then Ok []
  else a ← ok_or_panic (d_Address d);
       if IsIP (Family a) then i ← IP a; Ok [i] else Ok [].
Definition dest_port (d : Destination) : Z := if negb (IsValid d) then 0 else d_Port d.

Definition GetInboundTag (s : Session) : str := match s_Inbound s with None => [] | Some i => in_Tag i end.
Definition GetSourceIPs (s : Session) : go (list ip) := match s_Inbound s with None => Ok [] | Some i => dest_ips (in_Source i) end.
Definition GetSourcePort (s : Session) : Z := match s_Inbound s with None => 0 | Some i => dest_port (in_Source i) end.
Definition Session_GetTargetIPs (s : Session) : go (list ip) := match s_Outbound s with None => Ok [] | Some o => dest_ips (out_Target o) end.
Definition GetTargetPort (s : Session) : Z := match s_Outbound s with None => 0 | Some o => dest_port (out_Target o) end.
Definition GetLocalIPs (s : Session) : go (list ip) := match s_Inbound s with None => Ok [] | Some i => dest_ips (in_Local i) end.
Definition GetLocalPort (s : Session) : Z := match s_Inbound s with None => 0 | Some i => dest_port (in_Local i) end.
Definition GetTargetDomain (s : Session) : go str :=
  match s_Outbound s with
  | None => Ok []
  | Some o =>
      if negb (IsValid (out_Target o)) then Ok []
      else
        let dest := out_RouteTarget o in
        routed ← (if IsValid dest then a ← ok_or_panic (d_Address dest); Ok (if IsDomain (Family a) then Some a else None) else Ok None);
        match routed with
        | Some a => Net.Domain a
        | None => a ← ok_or_panic (d_Address (out_Target o)); if negb (IsDomain (Family a)) then Ok [] else Net.Domain a
        end
  end.
Definition GetNetwork (s : Session) : Network := match s_Outbound s with None => Network_Unknown | Some o => d_Network (out_Target o) end.
Definition GetProtocol (s : Session) : str := match s_Content s with None => [] | Some c => ct_Protocol c end.
Definition GetUser (s : Session) : str := match s_Inbound s with Some i => default [] (in_User i) | None => [] end.
Definition GetVlessRoute (s : Session) : Z := match s_Inbound s with None => 0 | Some i => in_VlessRoute i end.
Definition GetAttributes (s : Session) : option (list (str * str)) := match s_Content s with None => None | Some c => ct_Attributes c end.
Definition GetSkipDNSResolve (s : Session) : bool := match s_Content s with None => false | Some c => ct_SkipDNSResolve c end.

(** ** Contexts

    [routing.Context] is a session or a [dns.ResolvableContext] around a context, with what it
    resolved. *)
Inductive Context :=
| SessionContext (s : Session)
| ResolvableContext (inner : Context) (cacheIPs : list ip) (hasError : bool).

Fixpoint session_of (c : Context) : Session :=
  match c with SessionContext s => s | ResolvableContext inner _ _ => session_of inner end.

Definition ContextWithDNSClient (ctx : Context) : Context := ResolvableContext ctx [] false.

Section resolve.
Context (LookupIP : nat → str → go (list ip)).

(** [GetTargetIPs] gives the addresses, the context after it and how many questions the client
    has been asked. *)
Fixpoint GetTargetIPs (c : Context) (asked : nat) : go (list ip * Context * nat) :=
  match c with
  | SessionContext s => ips ← Session_GetTargetIPs s; Ok (ips, c, asked)
  | ResolvableContext inner cacheIPs hasError =>
      if decide (0 < len cacheIPs) then Ok (cacheIPs, c, asked)
      else if hasError : bool then Ok ([], c, asked)
      else
        let fall_back asked :=
          '(ips, inner', asked) ← GetTargetIPs inner asked;
          if decide (len ips ≠ 0) then Ok (ips, ResolvableContext inner' ips false, asked)
          else Ok ([], ResolvableContext inner' cacheIPs true, asked) in
        domain ← GetTargetDomain (session_of inner);
        if decide (len domain ≠ 0) then
          match LookupIP asked domain with
          | Ok ips => Ok (ips, ResolvableContext inner ips false, S asked)
          | Err _ => fall_back (S asked)
          | Panic => Panic
          end
        else fall_back asked
  end.

(** ** Conditions *)

Inductive MatcherAsType := MatcherAsType_Local | MatcherAsType_Source | MatcherAsType_Target | MatcherAsType_VlessRoute.

Record ProcessNameMatcher := mkProcess { ProcessNames : list str; AbsPaths : list str; Folders : list str; MatchXraySelf : bool }.

Context {D T : Type} `{DomainMatcherOps D} `{NetipxOps T}.

Inductive Condition :=
| InboundTagMatcher (tags : list str)
| NetworkMatcher (list : list bool)
| ProtocolMatcher (protocols : list str)
| PortMatcher (port : list MemoryPortRange) (asType : MatcherAsType)
| UserMatcher (user : list str) (pattern : list str)
| AttributeMatcher (configuredKeys : gmap str str)
| IPMatcherC (matcher : IPMatcher (T := T)) (asType : MatcherAsType)
| DomainMatcherC (m : D)
| ProcessMatcherC (m : ProcessNameMatcher).

Context (MatchString : str → str → bool) (lowerRunes : str → str).
(** [net.FindProcess]: the process that owns the connection, or an error; and [os.Getpid]. *)
Context (FindProcess : str → str → Z → str → Z → go (Z * str * str)) (Getpid : Z).

(** [for _, x := range l { if test(x) { return true } }]. *)
Fixpoint any_of {A} (test : A → bool) (l : list A) : bool :=
  match l with [] => false | x :: l => if test x then true else any_of test l end.

Definition UserMatcher_Apply (user pattern : list str) (s : Session) : bool :=
  let u := GetUser s in
  if decide (len u = 0) then false
  else any_of (λ x, bool_decide (x = u)) user || any_of (λ re, MatchString re u) pattern.
Definition InboundTagMatcher_Apply (tags : list str) (s : Session) : bool :=
  let tag := GetInboundTag s in
  if decide (len tag = 0) then false else any_of (λ t, bool_decide (t = tag)) tags.
Definition ProtocolMatcher_Apply (protocols : list str) (s : Session) : bool :=
  let protocol := GetProtocol s in
  if decide (len protocol = 0) then false else any_of (λ p, HasPrefix protocol p) protocols.

(** [AttributeMatcher.Match]: the last of the keys that differ only in case wins. *)
Definition Attribute_Match (configuredKeys : gmap str str) (attrs : list (str * str)) : bool :=
  let httpHeaders : gmap str str := foldl (λ h kv, <[strings_ToLower lowerRunes kv.1 := kv.2]> h) ∅ attrs in
  forallb (λ kr, match httpHeaders !! kr.1 with None => false | Some a => MatchString kr.2 a end) (map_to_list configuredKeys).
Definition AttributeMatcher_Apply (configuredKeys : gmap str str) (s : Session) : bool :=
  match GetAttributes s with None => false | Some attrs => Attribute_Match configuredKeys attrs end.

Definition PortMatcher_Apply (port : list MemoryPortRange) (asType : MatcherAsType) (s : Session) : bool :=
  MemoryPortList_Contains port
    match asType with
    | MatcherAsType_Local => GetLocalPort s
    | MatcherAsType_Source => GetSourcePort s
    | MatcherAsType_Target => GetTargetPort s
    | MatcherAsType_VlessRoute => GetVlessRoute s
    end.

Definition IPMatcher_Apply (m : IPMatcher (T := T)) (asType : MatcherAsType) (c : Context) (asked : nat) : go (bool * Context * nat) :=
  match asType with
  | MatcherAsType_Local => ips ← GetLocalIPs (session_of c); Ok (IP_AnyMatch m ips, c, asked)
  | MatcherAsType_Source => ips ← GetSourceIPs (session_of c); Ok (IP_AnyMatch m ips, c, asked)
  | MatcherAsType_Target => '(ips, c, asked) ← GetTargetIPs c asked; Ok (IP_AnyMatch m ips, c, asked)
  | MatcherAsType_VlessRoute => Panic
  end.

Definition DomainMatcher_Apply (m : D) (s : Session) : go bool :=
  domain ← GetTargetDomain s;
  if decide (len domain = 0) then Ok false else dm_MatchAny m (strings_ToLower lowerRunes domain).

(** What the names and paths of a process say. *)
Definition Process_Match (m : ProcessNameMatcher) (pid : Z) (name absPath : str) : bool :=
  if MatchXraySelf m && bool_decide (pid = Getpid) then true
  else if bool_decide (name ∈ ProcessNames m) then true
  else if bool_decide (absPath ∈ AbsPaths m) then true
  else any_of (λ f, HasPrefix absPath f) (Folders m).

(** The destination for the lookup: the original one where there is one. Each [GetTargetIPs]
    of the source is a call here. *)
Definition process_dst (c : Context) (asked : nat) : go (str * Z * Context * nat) :=
  let of_context c asked :=
    '(ips, c, asked) ← GetTargetIPs c asked;
    if decide (0 < len ips) then
      '(ips, c, asked) ← GetTargetIPs c asked;
      i ← ok_or_panic (head ips);
      Ok (IP_String i, u16 (GetTargetPort (session_of c)), c, asked)
    else Ok ([], 0, c, asked) in
  match c with
  | SessionContext _ => of_context c asked
  | ResolvableContext inner cacheIPs hasError =>
      '(ips, inner, asked) ← GetTargetIPs inner asked;
      if decide (0 < len ips) then
        '(ips, inner, asked) ← GetTargetIPs inner asked;
        i ← ok_or_panic (head ips);
        Ok (IP_String i, u16 (GetTargetPort (session_of inner)), ResolvableContext inner cacheIPs hasError, asked)
      else of_context (ResolvableContext inner cacheIPs hasError) asked
  end.

(** [switch ctx.GetNetwork()]. *)
Definition process_network (s : Session) : option str :=
  match GetNetwork s with Network_TCP => Some (s2b "tcp") | Network_UDP => Some (s2b "udp") | _ => None end.

(** The lookup and its verdict; an error is logged and does not match. *)
Definition process_lookup (m : ProcessNameMatcher) (network : str) (srcIP : ip) (s : Session) (dstIP : str) (dstPort : Z) : go bool :=
  match FindProcess network (IP_String srcIP) (u16 (GetSourcePort s)) dstIP dstPort with
  | Panic => Panic
  | Err _ => Ok false
  | Ok (pid, name, absPath) => Ok (Process_Match m pid name absPath)
  end.

Definition ProcessNameMatcher_Apply (m : ProcessNameMatcher) (c : Context) (asked : nat) : go (bool * Context * nat) :=
  let s := session_of c in
  src ← GetSourceIPs s;
  match src, process_network s with
  | srcIP :: _, Some network =>
      '(dstIP, dstPort, c, asked) ← process_dst c asked;
      b ← process_lookup m network srcIP s dstIP dstPort; Ok (b, c, asked)
  | _, _ => Ok (false, c, asked)
  end.

Definition Apply (cond : Condition) (c : Context) (asked : nat) : go (bool * Context * nat) :=
  let s := session_of c in
  match cond with
  | InboundTagMatcher tags => Ok (InboundTagMatcher_Apply tags s, c, asked)
  | NetworkMatcher list => b ← ok_or_panic (index list (Network_number (GetNetwork s))); Ok (b, c, asked)
  | ProtocolMatcher protocols => Ok (ProtocolMatcher_Apply protocols s, c, asked)
  | PortMatcher port asType => Ok (PortMatcher_Apply port asType s, c, asked)
  | UserMatcher user pattern => Ok (UserMatcher_Apply user pattern s, c, asked)
  | AttributeMatcher keys => Ok (AttributeMatcher_Apply keys s, c, asked)
  | IPMatcherC m asType => IPMatcher_Apply m asType c asked
  | DomainMatcherC m => b ← DomainMatcher_Apply m s; Ok (b, c, asked)
  | ProcessMatcherC m => ProcessNameMatcher_Apply m c asked
  end.

(** [ConditionChan.Apply]. *)
Fixpoint Chan_Apply (conds : list Condition) (c : Context) (asked : nat) : go (bool * Context * nat) :=
  match conds with
  | [] => Ok (true, c, asked)
  | cond :: conds =>
      '(b, c, asked) ← Apply cond c asked;
      if negb b then Ok (false, c, asked) else Chan_Apply conds c asked
  end.

End resolve.

Arguments Condition : clear implicits.
#[global] Arguments InboundTagMatcher {_ _} _.
#[global] Arguments NetworkMatcher {_ _} _.
#[global] Arguments ProtocolMatcher {_ _} _.
#[global] Arguments PortMatcher {_ _} _ _.
#[global] Arguments UserMatcher {_ _} _ _.
#[global] Arguments AttributeMatcher {_ _} _.
#[global] Arguments IPMatcherC {_ _} _ _.
#[global] Arguments DomainMatcherC {_ _} _.
#[global] Arguments ProcessMatcherC {_ _} _.

(** ** Building the conditions of a rule *)

Record RoutingRule := mkRoutingRule {
  rr_InboundTag : list str; rr_Networks : list Network; rr_Protocol : list str;
  rr_PortList : option (list PortRange); rr_SourcePortList : option (list PortRange);
  rr_LocalPortList : option (list PortRange); rr_VlessRouteList : option (list PortRange);
  rr_UserEmail : list str; rr_Attributes : list (str * str);
  rr_Ip : list IPRule; rr_SourceIp : list IPRule; rr_LocalIp : list IPRule;
  rr_Domain : list DomainRule; rr_Process : list str
}.

Definition regexp_prefix : str := s2b "regexp:".

Section build.
Context {F D T : Type} `{HF : DomainFactory F D} `{NetipxOps T}.
Context (Compile : str → option GoError) (lowerRunes : str → str).
Context (loadIP : str → str → go (list CIDR)) (load : Load).
Context (Executable : go str) (ToSlash : str → str).

Definition nonempty_strings (l : list str) : list str := base.filter (λ s, s ≠ []) l.
Definition NewInboundTagMatcher (tags : list str) : Condition D T := InboundTagMatcher (nonempty_strings tags).
Definition NewProtocolMatcher (protocols : list str) : Condition D T := ProtocolMatcher (nonempty_strings protocols).
Definition NewNetworkMatcher (network : list Network) : Condition D T :=
  NetworkMatcher (foldl (λ l n, <[Z.to_nat (Network_number n) := true]> l) (replicate 8 false) network).
Definition NewPortMatcher (l : list PortRange) (asType : MatcherAsType) : Condition D T := PortMatcher (PortListFromProto l) asType.

(** One user of [NewUserMatcher]: a pattern, when it compiles, or a name. *)
Definition add_user (acc : list str * list str) (user : str) : list str * list str :=
  let '(users, patterns) := acc in
  if decide (0 < len user) then
    if bool_decide (len user > 7) && HasPrefix user regexp_prefix
    then match Compile (drop 7 user) with None => (users, patterns ++ [drop 7 user]) | Some _ => acc end
    else (users ++ [user], patterns)
  else acc.
Definition NewUserMatcher (users : list str) : Condition D T :=
  let '(u, p) := foldl add_user ([], []) users in UserMatcher u p.

Definition TrimSuffix (s p : str) : str := if HasSuffix s p then take (length s - length p) s else s.

(** One name of [NewProcessNameMatcher]; [self/] and [xray/] are special. *)
Definition add_process (m : ProcessNameMatcher) (name : str) : ProcessNameMatcher :=
  let file name :=
    let name := ToSlash name in
    if HasSuffix name [slash] then mkProcess (ProcessNames m) (AbsPaths m) (Folders m ++ [name]) (MatchXraySelf m)
    else if StrMatcher.Contains name [slash] then mkProcess (ProcessNames m) (AbsPaths m ++ [name]) (Folders m) (MatchXraySelf m)
    else mkProcess (ProcessNames m ++ [TrimSuffix name (s2b ".exe")]) (AbsPaths m) (Folders m) (MatchXraySelf m) in
  if decide (name = s2b "self/") then mkProcess (ProcessNames m) (AbsPaths m) (Folders m) true
  else if decide (name = s2b "xray/") then match Executable with Ok path => file path | _ => m end
  else file name.
Definition NewProcessNameMatcher (names : list str) : Condition D T :=
  ProcessMatcherC (foldl add_process (mkProcess [] [] [] false) names).

(** [regexp.MustCompile] panics. *)
Fixpoint add_attributes (keys : gmap str str) (attrs : list (str * str)) : go (gmap str str) :=
  match attrs with
  | [] => Ok keys
  | (key, value) :: attrs =>
      match Compile value with
      | Some _ => Panic
      | None => add_attributes (<[strings_ToLower lowerRunes key := value]> keys) attrs
      end
  end.

(** The caches behind the two registries. *)
Record Geo := mkGeo { geo_ip : gmap str (IPSet T); geo_domain : F }.

Definition NewIPMatcher (g : Geo) (rules : list IPRule) (asType : MatcherAsType) : go (Condition D T) * Geo :=
  let '(r, f) := buildOptimizedIPMatcher loadIP (geo_ip g) rules in
  (m ← r; Ok (IPMatcherC m asType), mkGeo f (geo_domain g)).
Definition NewDomainMatcher (g : Geo) (rules : list DomainRule) : go (Condition D T) * Geo :=
  let '(r, f) := BuildMatcher load (geo_domain g) rules in
  (m ← r; Ok (DomainMatcherC m), mkGeo (geo_ip g) f).

(** [if len(l) > 0 { conds.Add(...) }]. *)
Definition when {A B} (l : list A) (c : list A → B) : list B := match l with [] => [] | _ => [c l] end.
Definition when_some {A B} (o : option A) (c : A → B) : list B := match o with None => [] | Some a => [c a] end.

(** The part that cannot fail, up to the users. *)
Definition simple_conditions (rr : RoutingRule) : list (Condition D T) :=
  when (rr_InboundTag rr) NewInboundTagMatcher ++
  when (rr_Networks rr) NewNetworkMatcher ++
  when (rr_Protocol rr) NewProtocolMatcher ++
  when_some (rr_PortList rr) (λ l, NewPortMatcher l MatcherAsType_Target) ++
  when_some (rr_SourcePortList rr) (λ l, NewPortMatcher l MatcherAsType_Source) ++
  when_some (rr_LocalPortList rr) (λ l, NewPortMatcher l MatcherAsType_Local) ++
  when_some (rr_VlessRouteList rr) (λ l, NewPortMatcher l MatcherAsType_VlessRoute) ++
  when (rr_UserEmail rr) NewUserMatcher.

(** A condition that may fail, when its list is not empty. *)
Definition add_built {A} (l : list A) (build : Geo → list A → go (Condition D T) * Geo)
    (st : go (list (Condition D T)) * Geo) : go (list (Condition D T)) * Geo :=
  match st, l with
  | (Ok conds, g), _ :: _ => let '(r, g) := build g l in (c ← r; Ok (conds ++ [c]), g)
  | _, _ => st
  end.

Definition BuildCondition (g : Geo) (rr : RoutingRule) : go (list (Condition D T)) * Geo :=
  let attrs := match rr_Attributes rr with
               | [] => Ok []
               | l => keys ← add_attributes ∅ l; Ok [AttributeMatcher keys] end in
  let st := (a ← attrs; Ok (simple_conditions rr ++ a), g) in
  let st := add_built (rr_Ip rr) (λ g l, NewIPMatcher g l MatcherAsType_Target) st in
  let st := add_built (rr_SourceIp rr) (λ g l, NewIPMatcher g l MatcherAsType_Source) st in
  let st := add_built (rr_LocalIp rr) (λ g l, NewIPMatcher g l MatcherAsType_Local) st in
  let '(r, g) := add_built (rr_Domain rr) NewDomainMatcher st in
  (conds ← r;
   let conds := conds ++ when (rr_Process rr) NewProcessNameMatcher in
   if decide (len conds = 0) then Err (ErrMsg "this rule has no effective fields") else Ok conds, g).

End build.

Lemma len_cons_pos {A} (x : A) l : 0 < len (x :: l).
Proof. rewrite len_cons. pose proof (len_nonneg l). lia. Qed.
Lemma len_cons_ne {A} (x : A) l : len (x :: l) ≠ 0.
Proof. pose proof (len_cons_pos x l). lia. Qed.
Lemma len_nil_pos {A} : ¬ 0 < len (@nil A).
Proof. done. Qed.
Lemma len_nil_ne {A} : ¬ len (@nil A) ≠ 0.
Proof. intros []. done. Qed.

(** ** What a condition says

    The value of a condition for a session whose target has the addresses [ips]: no state. *)
Section value.
Context {D T : Type} `{HD : DomainMatcherOps D} `{HT : NetipxOps T}.
Context (MatchString : str → str → bool) (lowerRunes : str → str).
Context (FindProcess : str → str → Z → str → Z → go (Z * str * str)) (Getpid : Z).

(** The address of the lookup: the session's own target, or the resolved one. *)
Definition process_target (s : Session) (ips : list ip) : go (str * Z) :=
  own ← Session_GetTargetIPs s;
  match (match own with [] => ips | _ => own end) with
  | [] => Ok ([], 0)
  | i :: _ => Ok (IP_String i, u16 (GetTargetPort s))
  end.
Definition process_value (m : ProcessNameMatcher) (s : Session) (ips : list ip) : go bool :=
  src ← GetSourceIPs s;
  match src, process_network s with
  | srcIP :: _, Some network =>
      '(dstIP, dstPort) ← process_target s ips; process_lookup FindProcess Getpid m network srcIP s dstIP dstPort
  | _, _ => Ok false
  end.

Definition cond_value (s : Session) (ips : list ip) (cond : Condition D T) : go bool :=
  match cond with
  | InboundTagMatcher tags => Ok (InboundTagMatcher_Apply tags s)
  | NetworkMatcher list => ok_or_panic (index list (Network_number (GetNetwork s)))
  | ProtocolMatcher protocols => Ok (ProtocolMatcher_Apply protocols s)
  | PortMatcher port asType => Ok (PortMatcher_Apply port asType s)
  | UserMatcher user pattern => Ok (UserMatcher_Apply MatchString user pattern s)
  | AttributeMatcher keys => Ok (AttributeMatcher_Apply MatchString lowerRunes keys s)
  | IPMatcherC m MatcherAsType_Local => l ← GetLocalIPs s; Ok (IP_AnyMatch m l)
  | IPMatcherC m MatcherAsType_Source => l ← GetSourceIPs s; Ok (IP_AnyMatch m l)
  | IPMatcherC m MatcherAsType_Target => Ok (IP_AnyMatch m ips)
  | IPMatcherC m MatcherAsType_VlessRoute => Panic
  | DomainMatcherC m => DomainMatcher_Apply lowerRunes m s
  | ProcessMatcherC m => process_value m s ips
  end.
Fixpoint chan_value (s : Session) (ips : list ip) (conds : list (Condition D T)) : go bool :=
  match conds with
  | [] => Ok true
  | cond :: conds => b ← cond_value s ips cond; if negb b then Ok false else chan_value s ips conds
  end.

Context (LookupIP : nat → str → go (list ip)).
Abbreviation apply := (Apply LookupIP MatchString lowerRunes FindProcess Getpid).
Abbreviation chan := (Chan_Apply LookupIP MatchString lowerRunes FindProcess Getpid).

(** *** A session alone *)

Lemma process_dst_session s own n : Session_GetTargetIPs s = Ok own →
  process_dst LookupIP (SessionContext s) n = ('(a, p) ← process_target s own; Ok (a, p, SessionContext s, n)).
Proof.
  intros Hown. unfold process_dst, process_target. cbn [GetTargetIPs]. rewrite Hown. cbn [mbind go_bind].
  destruct own as [|i own]; [done|]. rewrite decide_True by (apply len_cons_pos || apply len_cons_ne).
  cbn [GetTargetIPs]. rewrite Hown. done.
Qed.

Lemma Apply_session s own cond n : Session_GetTargetIPs s = Ok own →
  apply cond (SessionContext s) n = (b ← cond_value s own cond; Ok (b, SessionContext s, n)).
Proof.
  intros Hown. destruct cond as [| | | | | |m ty|m|m]; try done; cbn [Apply cond_value session_of].
  - destruct ty; cbn [IPMatcher_Apply session_of GetTargetIPs]; [| |by rewrite Hown|done].
    + by destruct (GetLocalIPs s).
    + by destruct (GetSourceIPs s).
  - unfold ProcessNameMatcher_Apply, process_value. cbn [session_of].
    destruct (GetSourceIPs s) as [[|src l]|e|]; cbn [mbind go_bind]; try done.
    destruct (process_network s) as [nw|]; [|done]. rewrite (process_dst_session s own) by done.
    by destruct (process_target s own) as [[a p]|e|].
Qed.

Lemma Chan_session s own conds n : Session_GetTargetIPs s = Ok own →
  chan conds (SessionContext s) n = (b ← chan_value s own conds; Ok (b, SessionContext s, n)).
Proof.
  intros Hown. induction conds as [|cond conds IH]; [done|]. cbn [Chan_Apply chan_value]. rewrite (Apply_session s own) by done.
  destruct (cond_value s own cond) as [[]|e|]; cbn [mbind go_bind negb]; [apply IH|done..].
Qed.

(** *** A resolving context

    What the target resolves to: the answer to the first question, or the session's own
    addresses when there is no domain or no answer. *)
Definition resolution (s : Session) (own : list ip) (domain : str) (n : nat) : list ip :=
  match domain with
  | [] => own
  | _ => match LookupIP n domain with Ok ips => ips | _ => own end
  end.
Definition questions (domain : str) : nat := match domain with [] => 0 | _ => 1 end.

(** The client documents an error for an empty answer. *)
Definition client_ok (domain : str) (n : nat) : Prop :=
  domain ≠ [] → LookupIP n domain ≠ Panic ∧ LookupIP n domain ≠ Ok [].

(** The states of a resolving context around [s] first asked at [n]: untouched, or settled. *)
Definition settled (s : Session) (ans : list ip) : Context :=
  match ans with [] => ResolvableContext (SessionContext s) [] true | _ => ResolvableContext (SessionContext s) ans false end.
Definition resolving (s : Session) (ans : list ip) (q n : nat) (c : Context) (asked : nat) : Prop :=
  (c = ResolvableContext (SessionContext s) [] false ∧ asked = n) ∨ (c = settled s ans ∧ asked = (n + q)%nat).

Section resolved.
Context (s : Session) (own : list ip) (domain : str) (n : nat).
Hypothesis Hown : Session_GetTargetIPs s = Ok own.
Hypothesis Hdom : GetTargetDomain s = Ok domain.
Hypothesis Hclient : client_ok domain n.

Abbreviation ans := (resolution s own domain n).
Abbreviation state := (resolving s ans (questions domain) n).

Lemma settled_ips asked : GetTargetIPs LookupIP (settled s ans) asked = Ok (ans, settled s ans, asked).
Proof.
  unfold settled. destruct ans as [|i l]; [done|]. cbn [GetTargetIPs].
  by rewrite decide_True by (apply len_cons_pos || apply len_cons_ne).
Qed.

Lemma GetTargetIPs_resolving c asked : state c asked →
  ∃ asked', GetTargetIPs LookupIP c asked = Ok (ans, settled s ans, asked') ∧ asked' = (n + questions domain)%nat.
Proof.
  intros [[-> ->]|[-> ->]]; [|by rewrite settled_ips; eauto].
  cbn [GetTargetIPs session_of]. rewrite decide_False by apply len_nil_pos. rewrite Hdom, Hown. cbn [mbind go_bind].
  unfold resolution, questions. destruct domain as [|d ds].
  - rewrite decide_False by apply len_nil_ne. rewrite Nat.add_0_r. exists n. split; [|done].
    unfold settled. destruct own as [|i l]; [done|]. by rewrite decide_True by apply len_cons_ne.
  - rewrite decide_True by apply len_cons_ne. rewrite Nat.add_1_r. exists (S n). split; [|done].
    destruct Hclient as [Hp He]; [done|]. destruct (LookupIP n (d :: ds)) as [ips|e|]; [| |done].
    + unfold settled. by destruct ips.
    + unfold settled. destruct own as [|i l]; [done|]. by rewrite decide_True by apply len_cons_ne.
Qed.

Lemma state_session c asked : state c asked → session_of c = s.
Proof. intros [[-> _]|[-> _]]; [done|]. unfold settled. by destruct ans. Qed.

Lemma process_dst_resolving c asked : state c asked →
  match process_target s ans with
  | Ok (a, p) => ∃ c' asked', process_dst LookupIP c asked = Ok (a, p, c', asked') ∧ state c' asked'
  | Err e => process_dst LookupIP c asked = Err e
  | Panic => process_dst LookupIP c asked = Panic
  end.
Proof.
  intros Hc. assert (Hshape : ∃ ch er, c = ResolvableContext (SessionContext s) ch er).
  { destruct Hc as [[-> _]|[-> _]]; [by eauto|]. unfold settled. destruct ans; eauto. }
  destruct Hshape as (ch & er & Hshape). destruct (GetTargetIPs_resolving c asked Hc) as (n1 & HG & Hn1).
  pose proof (settled_ips n1) as HS. pose proof (state_session (settled s ans) n1 (or_intror (conj eq_refl Hn1))) as HSs.
  assert (Hs : ∀ k, GetTargetIPs LookupIP (SessionContext s) k = Ok (own, SessionContext s, k)) by (intros k; cbn; by rewrite Hown).
  set (A := ans) in *. clearbody A. unfold process_target, process_dst. rewrite Hown, Hshape, Hs. cbn [mbind go_bind].
  clear Hown Hclient. destruct own as [|i l].
  - rewrite decide_False by apply len_nil_pos. rewrite <- Hshape, HG. cbn [mbind go_bind]. destruct A as [|a A'].
    + rewrite decide_False by apply len_nil_pos. eexists _, _. split; [done|]. by right.
    + rewrite decide_True by apply len_cons_pos. rewrite HS. cbn [mbind go_bind head ok_or_panic]. rewrite HSs.
      eexists _, _. split; [done|]. by right.
  - rewrite decide_True by apply len_cons_pos. rewrite Hs. cbn [head ok_or_panic mbind go_bind session_of].
    eexists _, _. split; [done|]. by rewrite <- Hshape.
Qed.

Lemma Apply_resolving cond c asked : state c asked →
  match cond_value s ans cond with
  | Ok b => ∃ c' asked', apply cond c asked = Ok (b, c', asked') ∧ state c' asked'
  | Err e => apply cond c asked = Err e
  | Panic => apply cond c asked = Panic
  end.
Proof.
  intros Hc. pose proof (state_session c asked Hc) as Hs.
  destruct cond as [| | | | | |m ty|m|m]; cbn [cond_value Apply]; rewrite ?Hs; try by eauto.
  - destruct (ok_or_panic _); cbn [mbind go_bind]; by eauto.
  - destruct ty; cbn [IPMatcher_Apply]; rewrite ?Hs.
    + destruct (GetLocalIPs s); cbn [mbind go_bind]; by eauto.
    + destruct (GetSourceIPs s); cbn [mbind go_bind]; by eauto.
    + destruct (GetTargetIPs_resolving c asked Hc) as (n1 & -> & Hn1). cbn [mbind go_bind]. eexists _, _. split; [done|]. by right.
    + done.
  - destruct (DomainMatcher_Apply _ m s); cbn [mbind go_bind]; by eauto.
  - unfold ProcessNameMatcher_Apply, process_value. rewrite Hs.
    destruct (GetSourceIPs s) as [[|src l]|e|]; cbn [mbind go_bind]; [by eauto| |done|done].
    destruct (process_network s) as [nw|]; [|by eauto].
    pose proof (process_dst_resolving c asked Hc) as Hd. destruct (process_target s ans) as [[a p]|e|]; cbn [mbind go_bind].
    + destruct Hd as (c' & n' & -> & Hc'). cbn [mbind go_bind].
      destruct (process_lookup _ _ m nw src s a p) as [b|e|]; cbn [mbind go_bind]; by eauto.
    + by rewrite Hd.
    + by rewrite Hd.
Qed.

Lemma Chan_resolving conds : ∀ c asked, state c asked →
  match chan_value s ans conds with
  | Ok b => ∃ c' asked', chan conds c asked = Ok (b, c', asked') ∧ state c' asked'
  | Err e => chan conds c asked = Err e
  | Panic => chan conds c asked = Panic
  end.
Proof.
  induction conds as [|cond conds IH]; intros c asked Hc; cbn [chan_value Chan_Apply]; [by eauto|].
  pose proof (Apply_resolving cond c asked Hc) as Ha.
  destruct (cond_value s ans cond) as [b|e|]; cbn [mbind go_bind]; [|by rewrite Ha..].
  destruct Ha as (c' & n' & -> & Hc'). cbn [mbind go_bind]. destruct b; cbn [negb]; [by apply IH|by eauto].
Qed.

End resolved.
End value.

(** ** What a rule says

    The rule of a configuration, field by field, for a session whose target has the addresses
    [tips]. *)
Section says.
Context {F D T : Type} `{HD : DomainMatcherOps D} `{HF : DomainFactory F D} `{HT : NetipxOps T} `{HN : !Netipx T}.
Context (Compile : str → option GoError) (MatchString : str → str → bool) (lowerRunes : str → str).
Context `{HS : !DomainFactorySpec Compile MatchString lowerRunes F D}.
Context (loadIP : str → str → go (list CIDR)) (load : Load).
Context (Executable : go str) (ToSlash : str → str).
Context (FindProcess : str → str → Z → str → Z → go (Z * str * str)) (Getpid : Z).

Definition ports_say (l : option (list PortRange)) (p : Z) : Prop :=
  match l with None => True | Some l => ∃ r, r ∈ l ∧ u16 (pr_From r) ≤ p ≤ u16 (pr_To r) end.
(** A user entry is a name, or a regular expression that compiles. *)
Definition user_says (u entry : str) : Prop :=
  if bool_decide (len entry > 7) && HasPrefix entry regexp_prefix
  then Compile (drop 7 entry) = None ∧ MatchString (drop 7 entry) u = true
  else entry = u.
(** The value of the last of the pairs with a key, in any case. *)
Definition last_value (attrs : list (str * str)) (key : str) : option str :=
  snd ∘ snd <$> list_find (λ kv, strings_ToLower lowerRunes kv.1 = key) (reverse attrs).
Definition attributes_say (rules : list (str * str)) (s : Session) : Prop :=
  ∃ attrs, GetAttributes s = Some attrs ∧
    ∀ key pat, last_value rules key = Some pat → ∃ a, last_value attrs key = Some a ∧ MatchString pat a = true.

(** The rules of a list of addresses, with the geo data they name. *)
Definition ips_say (rules : list IPRule) (geo : list CIDR * list CIDR) (ips : list ip) : Prop :=
  ∃ i a, i ∈ ips ∧ FromStdIP (T := T) i = Some a ∧ rules_match rules geo.1 geo.2 a = true.
Definition domain_says (mss : list (list Matcher)) (domain : str) : Prop :=
  domain ≠ [] ∧ ∃ v, rule_hits MatchString mss (strings_ToLower lowerRunes domain) v.

Record rule_geo := mkRuleGeo {
  rg_ip : list CIDR * list CIDR; rg_source : list CIDR * list CIDR; rg_local : list CIDR * list CIDR; rg_domain : list (list Matcher)
}.

Definition when_says {A} (l : list A) (P : Prop) : Prop := l = [] ∨ P.

Definition rule_says (rr : RoutingRule) (rg : rule_geo) (s : Session) (src loc : list ip) (domain : str) (tips : list ip) : Prop :=
  when_says (rr_InboundTag rr) (GetInboundTag s ≠ [] ∧ GetInboundTag s ∈ rr_InboundTag rr) ∧
  when_says (rr_Networks rr) (GetNetwork s ∈ rr_Networks rr) ∧
  when_says (rr_Protocol rr) (GetProtocol s ≠ [] ∧ ∃ p, p ∈ rr_Protocol rr ∧ p ≠ [] ∧ HasPrefix (GetProtocol s) p = true) ∧
  ports_say (rr_PortList rr) (GetTargetPort s) ∧ ports_say (rr_SourcePortList rr) (GetSourcePort s) ∧
  ports_say (rr_LocalPortList rr) (GetLocalPort s) ∧ ports_say (rr_VlessRouteList rr) (GetVlessRoute s) ∧
  when_says (rr_UserEmail rr) (GetUser s ≠ [] ∧ ∃ entry, entry ∈ rr_UserEmail rr ∧ user_says (GetUser s) entry) ∧
  when_says (rr_Attributes rr) (attributes_say (rr_Attributes rr) s) ∧
  when_says (rr_Ip rr) (ips_say (rr_Ip rr) (rg_ip rg) tips) ∧
  when_says (rr_SourceIp rr) (ips_say (rr_SourceIp rr) (rg_source rg) src) ∧
  when_says (rr_LocalIp rr) (ips_say (rr_LocalIp rr) (rg_local rg) loc) ∧
  when_says (rr_Domain rr) (domain_says (rg_domain rg) domain) ∧
  when_says (rr_Process rr)
    (process_value FindProcess Getpid (foldl (add_process Executable ToSlash) (mkProcess [] [] [] false) (rr_Process rr)) s tips = Ok true).

Abbreviation value := (chan_value (D := D) (T := T) MatchString lowerRunes FindProcess Getpid).

(** A list of conditions says [P]. *)
Definition says (s : Session) (tips : list ip) (conds : list (Condition D T)) (P : Prop) : Prop :=
  ∃ b, value s tips conds = Ok b ∧ (b = true ↔ P).

Lemma says_nil s tips : says s tips [] True.
Proof. by exists true. Qed.

Lemma says_app s tips l1 l2 P1 P2 : says s tips l1 P1 → says s tips l2 P2 → says s tips (l1 ++ l2) (P1 ∧ P2).
Proof.
  intros (b1 & E1 & H1) (b2 & E2 & H2). exists (b1 && b2). split; [|rewrite andb_true_iff; tauto].
  clear H1 H2. revert b1 E1. induction l1 as [|c l1 IH]; intros b1; cbn [chan_value app].
  - intros [= <-]. done.
  - destruct (cond_value _ _ _ _ s tips c) as [[]|e|]; cbn [mbind go_bind negb]; [by apply IH|by intros [= <-]|done|done].
Qed.

Lemma says_one s tips c b P : cond_value MatchString lowerRunes FindProcess Getpid s tips c = Ok b → (b = true ↔ P) →
  says s tips [c] P.
Proof. intros E H. exists b. split; [|done]. cbn [chan_value]. rewrite E. by destruct b. Qed.

Lemma says_iff s tips l P Q : says s tips l P → (P ↔ Q) → says s tips l Q.
Proof. intros (b & E & H) HPQ. exists b. split; [done|]. by rewrite H. Qed.

Lemma says_when {A} s tips (l : list A) (c : list A → Condition D T) P :
  (l ≠ [] → says s tips [c l] P) → says s tips (when l c) (when_says l P).
Proof.
  intros H. unfold when, when_says. destruct l as [|a l]; eapply says_iff.
  - apply says_nil.
  - split; [by left|done].
  - by apply H.
  - split; [by right|by intros [[=]|]].
Qed.

Lemma any_of_iff {A} (test : A → bool) l : any_of test l = true ↔ ∃ x, x ∈ l ∧ test x = true.
Proof.
  rewrite <- existsb_iff. assert (any_of test l = existsb test l) as ->; [|done].
  induction l as [|x l IH]; cbn; [done|]. by destruct (test x).
Qed.

Lemma len_0_iff {A} (l : list A) : len l = 0 ↔ l = [].
Proof. split; [apply len_0_nil|by intros ->]. Qed.

Lemma elem_of_nonempty l x : x ∈ nonempty_strings l ↔ x ≠ [] ∧ x ∈ l.
Proof. unfold nonempty_strings. rewrite list_elem_of_filter. done. Qed.

Lemma inbound_says s tips tags : says s tips [NewInboundTagMatcher tags] (GetInboundTag s ≠ [] ∧ GetInboundTag s ∈ tags).
Proof.
  eapply says_one; [done|]. unfold InboundTagMatcher_Apply. case_decide as Hl; rewrite len_0_iff in Hl; [by split; [|intros []]|].
  rewrite any_of_iff. setoid_rewrite elem_of_nonempty. setoid_rewrite bool_decide_eq_true. split.
  - intros (x & [? ?] & ->). by split.
  - intros [? ?]. by exists (GetInboundTag s).
Qed.

Lemma protocol_says s tips ps :
  says s tips [NewProtocolMatcher ps] (GetProtocol s ≠ [] ∧ ∃ p, p ∈ ps ∧ p ≠ [] ∧ HasPrefix (GetProtocol s) p = true).
Proof.
  eapply says_one; [done|]. unfold ProtocolMatcher_Apply. case_decide as Hl; rewrite len_0_iff in Hl; [by split; [|intros []]|].
  rewrite any_of_iff. setoid_rewrite elem_of_nonempty. split.
  - intros (p & [? ?] & ?). eauto.
  - intros (_ & p & ? & ? & ?). eauto.
Qed.

Lemma network_list l : ∀ acc n, length acc = 8%nat →
  foldl (λ acc m, <[Z.to_nat (Network_number m) := true]> acc) acc l !! Z.to_nat (Network_number n) =
  if decide (n ∈ l) then Some true else acc !! Z.to_nat (Network_number n).
Proof.
  induction l as [|m l IH]; intros acc n Hl; cbn [foldl].
  { by rewrite decide_False by apply not_elem_of_nil. }
  rewrite IH by (by rewrite length_insert). destruct (decide (m = n)) as [->|Hne].
  - rewrite list_lookup_insert_eq by (rewrite Hl; destruct n; cbn; lia). rewrite (decide_True (P := n ∈ n :: l)) by left. by case_decide.
  - rewrite list_lookup_insert_ne by (destruct m, n; done). f_equal. apply decide_ext. rewrite elem_of_cons. naive_solver.
Qed.

Lemma network_says s tips ns : says s tips [NewNetworkMatcher ns] (GetNetwork s ∈ ns).
Proof.
  eapply (says_one _ _ _ (bool_decide (GetNetwork s ∈ ns))); [|apply bool_decide_eq_true]. unfold NewNetworkMatcher. cbn [cond_value].
  unfold index. rewrite decide_True by (destruct (GetNetwork s); done). rewrite network_list by done.
  case_decide as Hin; [by rewrite bool_decide_eq_true_2|]. rewrite bool_decide_eq_false_2 by done. clear Hin. by destruct (GetNetwork s).
Qed.

Lemma port_says s tips l ty : says s tips (when_some l (λ l, NewPortMatcher l ty))
  (ports_say l match ty with MatcherAsType_Local => GetLocalPort s | MatcherAsType_Source => GetSourcePort s
               | MatcherAsType_Target => GetTargetPort s | MatcherAsType_VlessRoute => GetVlessRoute s end).
Proof.
  destruct l as [l|]; [|apply says_nil]. eapply says_one; [done|]. unfold PortMatcher_Apply, PortListFromProto, ports_say.
  rewrite MemoryPortList_Contains_spec, list.Exists_exists. setoid_rewrite list_elem_of_fmap. split.
  - intros (r & (x & -> & Hx) & H). exists x. by split.
  - intros (x & Hx & H). eexists. split; [by exists x|]. done.
Qed.

(** The entries of a user list, by kind. *)
Definition is_pattern (entry : str) : bool := bool_decide (len entry > 7) && HasPrefix entry regexp_prefix.

Lemma add_users users : ∀ acc,
  (∀ x, x ∈ (foldl (add_user Compile) acc users).1 ↔ x ∈ acc.1 ∨ (x ∈ users ∧ x ≠ [] ∧ is_pattern x = false)) ∧
  (∀ p, p ∈ (foldl (add_user Compile) acc users).2 ↔
        p ∈ acc.2 ∨ ∃ x, x ∈ users ∧ is_pattern x = true ∧ Compile (drop 7 x) = None ∧ p = drop 7 x).
Proof.
  induction users as [|u users IH]; intros [a b]; cbn [foldl].
  { split; intros x; setoid_rewrite elem_of_nil; split; [by left| |by left|]; naive_solver. }
  destruct (IH (add_user Compile (a, b) u)) as [H1 H2]. split; intros x; [rewrite H1|rewrite H2]; clear H1 H2 IH;
    setoid_rewrite elem_of_cons; unfold add_user; fold (is_pattern u).
  - case_decide as Hl.
    + assert (u ≠ []) by (intros ->; by apply len_nil_pos in Hl).
      destruct (is_pattern u) eqn:Ep; [destruct (Compile (drop 7 u))|]; cbn [fst]; rewrite ?elem_of_app, ?list_elem_of_singleton;
        (split; [intros; destruct_or?; subst; tauto|intros [?|([->|?] & ? & ?)]; try congruence; tauto]).
    + assert (u = []) as -> by (apply len_0_iff; pose proof (len_nonneg u); lia). cbn [fst].
      split; [tauto|intros [?|([->|?] & ? & ?)]; try congruence; tauto].
  - case_decide as Hl.
    + destruct (is_pattern u) eqn:Ep; [destruct (Compile (drop 7 u)) eqn:Ec|]; cbn [snd]; rewrite ?elem_of_app, ?list_elem_of_singleton.
      * split; [intros [?|(y & ? & ?)]; [by left|right; exists y; tauto]|].
        intros [?|(y & [->|?] & ? & ? & ->)]; [by left|congruence|right; by eauto].
      * split; [intros [[?| ->]|(y & ? & ?)]; [by left|right; exists u; tauto|right; exists y; tauto]|].
        intros [?|(y & [->|?] & ? & ? & ->)]; [by left; left|left; by right|right; by eauto].
      * split; [intros [?|(y & ? & ?)]; [by left|right; exists y; tauto]|].
        intros [?|(y & [->|?] & ? & ? & ->)]; [by left|congruence|right; by eauto].
    + assert (u = []) as -> by (apply len_0_iff; pose proof (len_nonneg u); lia). cbn [snd].
      split; [intros [?|(y & ? & ?)]; [by left|right; exists y; tauto]|].
      intros [?|(y & [->|?] & Hp & ? & ->)]; [by left|done|right; by eauto].
Qed.

Lemma user_says_ok s tips users :
  says s tips [NewUserMatcher Compile users] (GetUser s ≠ [] ∧ ∃ entry, entry ∈ users ∧ user_says (GetUser s) entry).
Proof.
  unfold NewUserMatcher. destruct (foldl (add_user Compile) ([], []) users) as [u p] eqn:E.
  pose proof (add_users users ([], [])) as [Hu Hp]. rewrite E in Hu, Hp. cbn [fst snd] in Hu, Hp.
  eapply says_one; [done|]. unfold UserMatcher_Apply. case_decide as Hl; rewrite len_0_iff in Hl; [by split; [|intros []]|].
  rewrite orb_true_iff, !any_of_iff. setoid_rewrite Hu. setoid_rewrite Hp. setoid_rewrite bool_decide_eq_true.
  unfold user_says. setoid_rewrite elem_of_nil. fold is_pattern. split.
  - intros [(x & [[]|(Hx & Hne & Hpat)] & ->)|(q & [[]|(x & Hx & Hpat & Hc & ->)] & Hm)]; (split; [done|]; eexists; split; [exact Hx|]).
    + unfold is_pattern in Hpat. by rewrite Hpat.
    + unfold is_pattern in Hpat. by rewrite Hpat.
  - intros (_ & x & Hx & Hs). destruct (bool_decide _ && _) eqn:Hpat.
    + destruct Hs as [Hc Hm]. right. exists (drop 7 x). split; [|done]. right. by exists x.
    + subst x. left. exists (GetUser s). split; [|done]. by right.
Qed.

(** *** Attributes *)

Definition headers (attrs : list (str * str)) : gmap str str :=
  foldl (λ h kv, <[strings_ToLower lowerRunes kv.1 := kv.2]> h) ∅ attrs.

Lemma headers_lookup attrs key : headers attrs !! key = last_value attrs key.
Proof.
  unfold headers, last_value. induction attrs as [|kv attrs IH] using rev_ind; [cbn [foldl]; by rewrite lookup_empty|].
  rewrite foldl_app, reverse_app. cbn [foldl]. change (reverse [kv] ++ reverse attrs) with (kv :: reverse attrs).
  cbn [list_find]. case_decide as Hk; [subst key; by rewrite lookup_insert_eq|].
  rewrite lookup_insert_ne, IH by done. destruct (list_find _ _) as [[i x]|]; done.
Qed.

Lemma add_attributes_ok l : ∀ keys, Forall (λ kv, Compile kv.2 = None) l →
  add_attributes Compile lowerRunes keys l = Ok (foldl (λ h kv, <[strings_ToLower lowerRunes kv.1 := kv.2]> h) keys l).
Proof.
  induction l as [|[k v] l IH]; intros keys Hl; [done|]. apply Forall_cons_1 in Hl as [Hv Hl]. cbn in Hv.
  cbn [add_attributes foldl fst snd]. rewrite Hv. by apply IH.
Qed.

Lemma attribute_says s tips rules : says s tips [AttributeMatcher (headers rules)] (attributes_say rules s).
Proof.
  eapply says_one; [done|]. unfold AttributeMatcher_Apply, attributes_say.
  destruct (GetAttributes s) as [attrs|]; [|by split; [|intros (? & [=] & _)]].
  unfold Attribute_Match. fold (headers attrs). rewrite forallb_forall. setoid_rewrite <- list_elem_of_In. split.
  - intros H. exists attrs. split; [done|]. intros key pat Hr. rewrite <- headers_lookup in Hr.
    specialize (H (key, pat)). rewrite elem_of_map_to_list in H. specialize (H Hr). cbn [fst snd] in H.
    rewrite headers_lookup in H. destruct (last_value attrs key) as [a|]; [by exists a|done].
  - intros (attrs' & [= <-] & H) [key pat] Hin%elem_of_map_to_list. cbn [fst snd]. rewrite headers_lookup in Hin.
    destruct (H _ _ Hin) as (a & Ha & Hm). by rewrite headers_lookup, Ha.
Qed.

(** *** Addresses and domains *)

Definition geo_ok (g : Geo (F := F) (T := T)) : Prop := factory_ok loadIP (geo_ip g) ∧ factory_inv load (geo_domain g).

(** The geo data a list of IP rules names load. *)
Definition ip_fit (rules : list IPRule) (geo : list CIDR * list CIDR) : Prop :=
  Forall name_ok (geoip_rules false rules) ∧ Forall name_ok (geoip_rules true rules) ∧
  load_rules loadIP (geoip_rules false rules) = Ok geo.1 ∧ load_rules loadIP (geoip_rules true rules) = Ok geo.2.

Definition ips_of (ty : MatcherAsType) (src loc tips : list ip) : list ip :=
  match ty with MatcherAsType_Local => loc | MatcherAsType_Source => src | _ => tips end.

Lemma ip_built g rules geo ty : geo_ok g → ip_fit rules geo → rules ≠ [] → ty ≠ MatcherAsType_VlessRoute →
  ∃ c g', NewIPMatcher loadIP g rules ty = (Ok c, g') ∧ geo_ok g' ∧
    ∀ s src loc tips, GetSourceIPs s = Ok src → GetLocalIPs s = Ok loc →
      says s tips [c] (ips_say rules geo (ips_of ty src loc tips)).
Proof.
  intros [Hg1 Hg2] (Hn1 & Hn2 & Hl1 & Hl2) Hne Hty. unfold NewIPMatcher.
  destruct (ip_rules_answers loadIP (geo_ip g) rules geo.1 geo.2 Hg1 Hne Hn1 Hn2 Hl1 Hl2) as (m & f' & -> & Hf' & Hm & Hany).
  cbn [mbind go_bind]. eexists _, _. split; [done|]. split; [done|]. intros s src loc tips Hsrc Hloc.
  eapply (says_one _ _ _ (IP_AnyMatch m (ips_of ty src loc tips))).
  - destruct ty; cbn [cond_value ips_of]; [by rewrite Hloc|by rewrite Hsrc|done|done].
  - rewrite Hany, existsb_iff. unfold ips_say. setoid_rewrite Hm. split.
    + intros (i & Hi & H). destruct (FromStdIP i) as [a|] eqn:E; [|done]. by exists i, a.
    + intros (i & a & Hi & E & H). exists i. by rewrite E.
Qed.

Lemma domain_built g rules mss : geo_ok g → rules_fit Compile lowerRunes load rules mss → suits mss →
  ∃ c g', NewDomainMatcher load g rules = (Ok c, g') ∧ geo_ok g' ∧
    ∀ s tips domain, GetTargetDomain s = Ok domain → ldh (strings_ToLower lowerRunes domain) →
      says s tips [c] (domain_says mss domain).
Proof.
  intros [Hg1 Hg2] Hfit Hs. unfold NewDomainMatcher.
  destruct (build_answers HS load (geo_domain g) rules mss Hg2 Hfit Hs) as (m & f' & -> & Hf' & Hans).
  cbn [mbind go_bind]. eexists _, _. split; [done|]. split; [done|]. intros s tips domain Hd Hldh.
  destruct (Hans _ Hldh) as (r & b & _ & Eb & _ & Hb). unfold domain_says. destruct domain as [|d ds].
  - eapply (says_one _ _ _ false); [|split; [done|by intros [[] _]]]. cbn [cond_value]. unfold DomainMatcher_Apply. by rewrite Hd.
  - eapply (says_one _ _ _ b); [|rewrite Hb; split; [done|by intros [_ ?]]]. cbn [cond_value]. unfold DomainMatcher_Apply.
    rewrite Hd. cbn [mbind go_bind]. by rewrite decide_False by apply len_cons_ne.
Qed.

(** *** The whole rule *)

(** A connection: the session with what its getters give, and the addresses of its target. *)
Record Env := mkEnv { e_s : Session; e_src : list ip; e_loc : list ip; e_domain : str; e_tips : list ip }.
Record env_ok (e : Env) : Prop := {
  eo_src : GetSourceIPs (e_s e) = Ok (e_src e);
  eo_loc : GetLocalIPs (e_s e) = Ok (e_loc e);
  eo_domain : GetTargetDomain (e_s e) = Ok (e_domain e);
  eo_own : ∃ own, Session_GetTargetIPs (e_s e) = Ok own;
  eo_ldh : ldh (strings_ToLower lowerRunes (e_domain e))
}.
Definition all_say (conds : list (Condition D T)) (P : Env → Prop) : Prop :=
  ∀ e, env_ok e → says (e_s e) (e_tips e) conds (P e).

(** The patterns of a rule compile and its geo data load. *)
Record rule_fit (rr : RoutingRule) (rg : rule_geo) : Prop := {
  ru_attributes : Forall (λ kv, Compile kv.2 = None) (rr_Attributes rr);
  ru_ip : rr_Ip rr ≠ [] → ip_fit (rr_Ip rr) (rg_ip rg);
  ru_source : rr_SourceIp rr ≠ [] → ip_fit (rr_SourceIp rr) (rg_source rg);
  ru_local : rr_LocalIp rr ≠ [] → ip_fit (rr_LocalIp rr) (rg_local rg);
  ru_domain : rr_Domain rr ≠ [] → rules_fit Compile lowerRunes load (rr_Domain rr) (rg_domain rg) ∧ suits (rg_domain rg)
}.
Definition empty_rule : RoutingRule := mkRoutingRule [] [] [] None None None None [] [] [] [] [] [] [].

Lemma add_built_ok {A} (l : list A) build conds g (P : Env → Prop) : geo_ok g →
  (l ≠ [] → ∃ c g', build g l = (Ok c, g') ∧ geo_ok g' ∧ all_say [c] P) →
  ∃ extra g', add_built l build (Ok conds, g) = (Ok (conds ++ extra), g') ∧ geo_ok g' ∧
    all_say extra (λ e, when_says l (P e)) ∧ (extra = [] ↔ l = []).
Proof.
  intros Hg Hb. destruct l as [|x l].
  - exists [], g. cbn [add_built]. rewrite app_nil_r. split; [done|]. split; [done|]. split; [|done].
    intros e _. eapply says_iff; [apply says_nil|]. split; [by left|done].
  - destruct Hb as (c & g' & E & Hg' & Hs); [done|]. exists [c], g'. cbn [add_built]. rewrite E. split; [done|]. split; [done|].
    split; [|done]. intros e He. eapply says_iff; [by apply Hs|]. split; [by right|by intros [[=]|]].
Qed.

Lemma simple_say rr s tips :
  says s tips (simple_conditions Compile rr)
    (when_says (rr_InboundTag rr) (GetInboundTag s ≠ [] ∧ GetInboundTag s ∈ rr_InboundTag rr) ∧
     when_says (rr_Networks rr) (GetNetwork s ∈ rr_Networks rr) ∧
     when_says (rr_Protocol rr) (GetProtocol s ≠ [] ∧ ∃ p, p ∈ rr_Protocol rr ∧ p ≠ [] ∧ HasPrefix (GetProtocol s) p = true) ∧
     ports_say (rr_PortList rr) (GetTargetPort s) ∧ ports_say (rr_SourcePortList rr) (GetSourcePort s) ∧
     ports_say (rr_LocalPortList rr) (GetLocalPort s) ∧ ports_say (rr_VlessRouteList rr) (GetVlessRoute s) ∧
     when_says (rr_UserEmail rr) (GetUser s ≠ [] ∧ ∃ entry, entry ∈ rr_UserEmail rr ∧ user_says (GetUser s) entry)).
Proof.
  unfold simple_conditions. repeat apply says_app; try (apply says_when; intros _).
  - apply inbound_says.
  - apply network_says.
  - apply protocol_says.
  - exact (port_says s tips (rr_PortList rr) MatcherAsType_Target).
  - exact (port_says s tips (rr_SourcePortList rr) MatcherAsType_Source).
  - exact (port_says s tips (rr_LocalPortList rr) MatcherAsType_Local).
  - exact (port_says s tips (rr_VlessRouteList rr) MatcherAsType_VlessRoute).
  - apply user_says_ok.
Qed.

Lemma when_nil {A B} (l : list A) (c : list A → B) : when l c = [] ↔ l = [].
Proof. by destruct l. Qed.

Lemma simple_nil rr : simple_conditions (D := D) (T := T) Compile rr = [] ↔
  rr_InboundTag rr = [] ∧ rr_Networks rr = [] ∧ rr_Protocol rr = [] ∧ rr_PortList rr = None ∧ rr_SourcePortList rr = None ∧
  rr_LocalPortList rr = None ∧ rr_VlessRouteList rr = None ∧ rr_UserEmail rr = [].
Proof.
  assert (Hs : ∀ {A B} (o : option A) (c : A → B), when_some o c = [] ↔ o = None) by (by intros A B []).
  unfold simple_conditions. rewrite !app_nil, !when_nil, !Hs. done.
Qed.

(** [os.Getpid] and the process table answer. *)
Hypothesis Hfind : ∀ network src srcPort dst dstPort, FindProcess network src srcPort dst dstPort ≠ Panic.

Lemma process_says m e : env_ok e →
  says (e_s e) (e_tips e) [ProcessMatcherC m] (process_value FindProcess Getpid m (e_s e) (e_tips e) = Ok true).
Proof.
  intros He. destruct (eo_own e He) as [own Hown].
  assert (∃ b, process_value FindProcess Getpid m (e_s e) (e_tips e) = Ok b) as [b Hb].
  { unfold process_value. rewrite (eo_src e He). cbn [mbind go_bind]. destruct (e_src e) as [|i l]; [by eexists|].
    destruct (process_network (e_s e)) as [nw|]; [|by eexists].
    assert (∃ a p, process_target (e_s e) (e_tips e) = Ok (a, p)) as (a & p & ->).
    { unfold process_target. rewrite Hown. cbn [mbind go_bind]. destruct own as [|j own]; [destruct (e_tips e)|]; by eexists _, _. }
    cbn [mbind go_bind]. unfold process_lookup. pose proof (Hfind nw (IP_String i) (u16 (GetSourcePort (e_s e))) a p).
    destruct (FindProcess _ _ _ _ _) as [[[? ?] ?]|?|]; [by eexists|by eexists|done]. }
  eapply (says_one _ _ _ b); [done|]. rewrite Hb. split; [by intros ->|by intros [= ->]].
Qed.

Lemma attributes_ok rr : Forall (λ kv, Compile kv.2 = None) (rr_Attributes rr) →
  ∃ extra, match rr_Attributes rr with
           | [] => Ok []
           | l => keys ← add_attributes Compile lowerRunes ∅ l; Ok [AttributeMatcher (D := D) (T := T) keys] end = Ok extra ∧
    all_say extra (λ e, when_says (rr_Attributes rr) (attributes_say (rr_Attributes rr) (e_s e))) ∧ (extra = [] ↔ rr_Attributes rr = []).
Proof.
  intros H. destruct (rr_Attributes rr) as [|kv l] eqn:E.
  - exists []. split; [done|]. split; [|done]. intros e _. eapply says_iff; [apply says_nil|]. split; [by left|done].
  - rewrite <- E in *. rewrite add_attributes_ok by done. eexists. split; [done|]. split; [|by rewrite E].
    intros e _. eapply says_iff; [apply attribute_says|]. rewrite E. split; [by right|by intros [[=]|]].
Qed.

Lemma ip_step g rules geo ty (P : Env → list ip) conds : geo_ok g → (rules ≠ [] → ip_fit rules geo) → ty ≠ MatcherAsType_VlessRoute →
  (∀ e, P e = ips_of ty (e_src e) (e_loc e) (e_tips e)) →
  ∃ extra g', add_built rules (λ g l, NewIPMatcher loadIP g l ty) (Ok conds, g) = (Ok (conds ++ extra), g') ∧ geo_ok g' ∧
    all_say extra (λ e, when_says rules (ips_say rules geo (P e))) ∧ (extra = [] ↔ rules = []).
Proof.
  intros Hg Hfit Hty HP. apply (add_built_ok rules (λ g l, NewIPMatcher loadIP g l ty) conds g (λ e, ips_say rules geo (P e))); [done|].
  intros Hne. destruct (ip_built g rules geo ty Hg (Hfit Hne) Hne Hty) as (c & g' & E & Hg' & Hs). exists c, g'. split; [done|].
  split; [done|]. intros e He. rewrite HP. apply Hs; [apply He|apply He].
Qed.

(** C18: the condition built for a routing rule says exactly what the rule's fields say. Take a
    rule whose regular expressions compile and whose geo data load, whose IP rules have no colon
    and no comma in their names, whose domain rules are lower-case domains without a comma in a
    custom value or a separator in a name, and suit the factory of the platform: at most 65536
    keywords for the compact one; for the perfect-hash one at most 2^30 patterns and, for every
    bucket of its table, a seed within the fuel. Take caches built from such rules. Then
    [BuildCondition] succeeds unless no field is set (an error), leaves such caches, and for
    every connection whose addresses can be read and whose target domain, lower-cased, has only
    letters, digits, hyphens and dots, the conditions evaluate, without a panic, to whether all
    fields that are set hold: inbound tag, network, protocol prefix, the four port lists, users
    by name or expression, attributes by lower-cased key, target, source and local addresses,
    domain and process. *)
Theorem rule_condition_exact g rr rg : geo_ok g → rule_fit rr rg →
  (rr = empty_rule → (BuildCondition (D := D) (T := T) Compile lowerRunes loadIP load Executable ToSlash g rr).1
                     = Err (ErrMsg "this rule has no effective fields")) ∧
  (rr ≠ empty_rule → ∃ conds g',
     BuildCondition Compile lowerRunes loadIP load Executable ToSlash g rr = (Ok conds, g') ∧ geo_ok g' ∧
     ∀ e, env_ok e → ∃ b, chan_value MatchString lowerRunes FindProcess Getpid (e_s e) (e_tips e) conds = Ok b ∧
       (b = true ↔ rule_says rr rg (e_s e) (e_src e) (e_loc e) (e_domain e) (e_tips e))).
Proof.
  intros Hg Hfit. split; [by intros ->|]. intros Hne. unfold BuildCondition.
  destruct (attributes_ok rr (ru_attributes _ _ Hfit)) as (ca & -> & Sa & Na). cbn [mbind go_bind].
  destruct (ip_step g (rr_Ip rr) (rg_ip rg) MatcherAsType_Target e_tips (simple_conditions Compile rr ++ ca) Hg (ru_ip _ _ Hfit)) as (c1 & g1 & -> & Hg1 & S1 & N1); [done..|].
  destruct (ip_step g1 (rr_SourceIp rr) (rg_source rg) MatcherAsType_Source e_src ((simple_conditions Compile rr ++ ca) ++ c1) Hg1 (ru_source _ _ Hfit)) as (c2 & g2 & -> & Hg2 & S2 & N2); [done..|].
  destruct (ip_step g2 (rr_LocalIp rr) (rg_local rg) MatcherAsType_Local e_loc (((simple_conditions Compile rr ++ ca) ++ c1) ++ c2) Hg2 (ru_local _ _ Hfit)) as (c3 & g3 & -> & Hg3 & S3 & N3); [done..|].
  destruct (add_built_ok (rr_Domain rr) (NewDomainMatcher load) ((((simple_conditions Compile rr ++ ca) ++ c1) ++ c2) ++ c3) g3
              (λ e, domain_says (rg_domain rg) (e_domain e)) Hg3) as (c4 & g4 & -> & Hg4 & S4 & N4).
  { intros Hd. destruct (ru_domain _ _ Hfit Hd) as [Hf Hs]. destruct (domain_built g3 (rr_Domain rr) (rg_domain rg) Hg3 Hf Hs) as (c & g' & E & Hg' & Hsay).
    exists c, g'. split; [done|]. split; [done|]. intros e He. apply Hsay; apply He. }
  cbn [mbind go_bind]. rewrite decide_False.
  2: { rewrite len_0_iff, !app_nil, simple_nil, Na, N1, N2, N3, N4, when_nil. intros Hall. apply Hne.
       destruct rr. cbn in Hall. decompose [and] Hall. by subst. }
  eexists _, g4. split; [done|]. split; [done|]. intros e He.
  destruct (says_app _ _ _ _ _ _ (says_app _ _ _ _ _ _ (says_app _ _ _ _ _ _ (says_app _ _ _ _ _ _ (says_app _ _ _ _ _ _ (says_app _ _ _ _ _ _
    (simple_say rr (e_s e) (e_tips e)) (Sa e He)) (S1 e He)) (S2 e He)) (S3 e He)) (S4 e He))
    (says_when _ _ (rr_Process rr) (NewProcessNameMatcher Executable ToSlash) _ (λ _, process_says _ e He))) as (b & Eb & Hb).
  exists b. split; [exact Eb|]. rewrite Hb. unfold rule_says. tauto.
Qed.

End says.

(** ** Witness *)

Definition sample_rr : RoutingRule :=
  mkRoutingRule [s2b "in"] [] [] None None None None [s2b "regexp:.*"] []
    [IPRule_Custom (mkCIDR [x0a; x00; x00; x00] 8) false] [] [] sample_geo_rules [].
Definition sample_rg : rule_geo := mkRuleGeo ([], []) ([], []) ([], []) sample_mss.
Definition sample_session : Session :=
  mkSession
    (Some (mkInbound (TCPDestination (Some (ipv4Address [x0a; x00; x00; x02])) 1000) (mkDestination None 0 Network_Unknown)
             (s2b "in") (Some (s2b "u")) 0))
    (Some (mkOutbound (TCPDestination (Some (domainAddress (s2b "Apple.COM"))) 443) (mkDestination None 0 Network_Unknown))) None.
Definition sample_env : Env := mkEnv sample_session [[x0a; x00; x00; x02]] [] (s2b "Apple.COM") [[x0a; x01; x02; x03]].
Definition sample_geo : Geo (F := gmap str LinearAnyMatcher) (T := list Prefix) := mkGeo ∅ ∅.

Lemma sample_env_ok : env_ok (λ s, s) sample_env.
Proof. split; try reflexivity; [by eexists|]. repeat (apply Forall_cons_2; [reflexivity|]). apply Forall_nil_2. Qed.

Lemma sample_ip_fit : ip_fit (λ _ _, Err EOF) (rr_Ip sample_rr) ([], []).
Proof. split; [apply Forall_nil_2|]. split; [apply Forall_nil_2|]. split; reflexivity. Qed.

Lemma sample_rr_says : rule_says (T := list Prefix) (λ _, None) (λ _ _, true) (λ s, s) (Err EOF) (λ s, s) (λ _ _ _ _ _, Err EOF) 1
  sample_rr sample_rg sample_session [[x0a; x00; x00; x02]] [] (s2b "Apple.COM") [[x0a; x01; x02; x03]].
Proof.
  split; [right; split; [discriminate|left]|]. split; [by left|]. split; [by left|]. repeat (split; [exact I|]).
  split; [right; split; [discriminate|]; exists (s2b "regexp:.*"); split; [left|split; reflexivity]|].
  split; [by left|]. split; [right|].
  { exists [x0a; x01; x02; x03], (Addr4 [x0a; x01; x02; x03]). split; [left|]. split; vm_compute; reflexivity. }
  split; [by left|]. split; [by left|]. split; [right; split; [discriminate|]|by left].
  exists 0, 0%nat, [DomainMatcher (s2b "com")]. split; [reflexivity|]. split; [reflexivity|vm_compute; reflexivity].
Qed.

(** The sample rule, with the perfect-hash factory and with the compact one. *)
Lemma rule_condition_exact_witness :
  (∃ conds,
    (BuildCondition (T := list Prefix) (HF := mph_factory (λ _, None) (λ s, s) sample_hash (λ bs, seq 0 (length bs)) 64) (λ _, None) (λ s, s)
       (λ _ _, Err EOF) sample_load (Err EOF) (λ s, s) (mkGeo ∅ ∅) sample_rr).1 = Ok conds ∧
    chan_value (HD := mph_matcher_ops (λ _ _, true) sample_hash) (λ _ _, true) (λ s, s) (λ _ _ _ _ _, Err EOF) 1
      sample_session [[x0a; x01; x02; x03]] conds = Ok true) ∧
  (∃ conds,
    (BuildCondition (HF := compact_factory (λ _, None) (λ s, s)) (λ _, None) (λ s, s) (λ _ _, Err EOF) sample_load (Err EOF) (λ s, s) sample_geo sample_rr).1 = Ok conds ∧
    chan_value (HD := compact_matcher_ops (λ _ _, true)) (λ _ _, true) (λ s, s) (λ _ _ _ _ _, Err EOF) 1 sample_session [[x0a; x01; x02; x03]] conds = Ok true).
Proof.
  split.
  - destruct (rule_condition_exact (T := list Prefix) (λ _, None) (λ _ _, true) (λ s, s)
      (HS := mph_spec (λ _, None) (λ _ _, true) (λ s, s) sample_hash (λ bs, seq 0 (length bs)) 64 (λ bs, reflexivity _))
      (λ _ _, Err EOF) sample_load (Err EOF) (λ s, s) (λ _ _ _ _ _, Err EOF) 1 ltac:(discriminate) (mkGeo ∅ ∅) sample_rr sample_rg) as [_ H].
    + split; intros key x Hk; discriminate Hk.
    + split; [apply Forall_nil_2|intros _; exact sample_ip_fit|by intros []|by intros []|].
      intros _. split; [exact sample_fit|]. split; [vm_compute; discriminate|exact sample_seeded].
    + destruct H as (conds & g' & E & _ & Hv); [discriminate|]. exists conds. split; [exact (f_equal fst E)|].
      destruct (Hv sample_env sample_env_ok) as (b & Eb & Hb). rewrite (proj2 Hb) in Eb; [exact Eb|exact sample_rr_says].
  - destruct (rule_condition_exact (T := list Prefix) (λ _, None) (λ _ _, true) (λ s, s)
      (HS := compact_spec (λ _, None) (λ _ _, true) (λ s, s) sample_hash)
      (λ _ _, Err EOF) sample_load (Err EOF) (λ s, s) (λ _ _ _ _ _, Err EOF) 1 ltac:(discriminate) sample_geo sample_rr sample_rg) as [_ H].
    + split; intros key x Hk; discriminate Hk.
    + split; [apply Forall_nil_2|intros _; exact sample_ip_fit|by intros []|by intros []|].
      intros _. split; [exact sample_fit|vm_compute; discriminate].
    + destruct H as (conds & g' & E & _ & Hv); [discriminate|]. exists conds. split; [exact (f_equal fst E)|].
      destruct (Hv sample_env sample_env_ok) as (b & Eb & Hb). rewrite (proj2 Hb) in Eb; [exact Eb|exact sample_rr_says].
Defined.
