(* ===== verification/Balancing.v ===== *)
(** * Balancers

    Models [app/router/balancing.go], [balancing_override.go], the strategies
    ([strategy_random.go], [strategy_leastping.go], [strategy_leastload.go]) and the weights
    ([weight.go]). What the observatory reports at the moment of a pick is the argument [obs];
    the outbound manager's selection is [Select]; the random source and floating point numbers
    are parameters. *)

From stdpp Require Import sorting.
From S2P Require Import Prelude Net StrMatcher IpMatcher GeoLoader.
Import GoText.

#[local] Open Scope Z_scope.

(** ** Observations *)

Record HealthPing := mkHealth { hp_All : Z; hp_Fail : Z; hp_Deviation : Z; hp_Average : Z }.
Record OutboundStatus := mkStatus { os_Alive : bool; os_Delay : Z; os_OutboundTag : str; os_HealthPing : option HealthPing }.

(** The outcome of [GetObservation]: an error, a message of another type, or the status list. *)
Inductive Observation := Obs_error | Obs_other | ObservationResult (Status : list OutboundStatus).

(** [statusMap]: the last status of a tag. *)
Definition statusMap (status : list OutboundStatus) : gmap str OutboundStatus :=
  foldl (λ m st, <[os_OutboundTag st := st]> m) ∅ status.

(** An outbound that is not in the report counts as alive. *)
Definition is_alive (status : list OutboundStatus) (tag : str) : bool :=
  match statusMap status !! tag with Some st => os_Alive st | None => true end.

(** The filter the random and the round-robin strategy apply when they have an observatory. *)
Definition alive_tags (observed : bool) (obs : Observation) (tags : list str) : list str :=
  if observed then
    match obs with ObservationResult status => base.filter (λ t, is_alive status t = true) tags | _ => tags end
  else tags.

(** ** Weights *)

(** The floating-point operations the sources use: the default weight 1, [x > 0],
    [strconv.ParseFloat], [time.Duration(float64(v) * math.Pow(w, 0.5))] and
    [float64(a)/float64(b) > x]. *)
Class FloatOps (Fl : Type) := {
  f_one : Fl;
  f_pos : Fl → bool;
  f_parse : str → option Fl;
  f_scale : Z → Fl → Z;
  f_ratio_gt : Z → Z → Fl → bool
}.

Fixpoint digits (s : str) : str :=
  match s with c :: s => if is_digit c then c :: digits s else [] | [] => [] end.
(** [numberFinder.FindString]: the leftmost run of digits, with a fraction if one follows. *)
Fixpoint FindNumber (s : str) : str :=
  match s with
  | [] => []
  | c :: s' =>
      if is_digit c then
        let whole := digits s in
        match drop (length whole) s with
        | d :: rest => match digits rest with
                       | [] => whole
                       | frac => if decide (d = dot) then whole ++ dot :: frac else whole
                       end
        | [] => whole
        end
      else FindNumber s'
  end.

Section balancing.
Context {Fl : Type} `{FloatOps Fl}.
Context (Compile : str → option GoError) (FindString : str → str → str).

Record StrategyWeight := mkWeight { sw_Regexp : bool; sw_Match : str; sw_Value : Fl }.
Record WeightManager := mkWM { wm_settings : list StrategyWeight; wm_cache : gmap str Fl; wm_defaultWeight : Fl }.

Definition NewWeightManager (s : list StrategyWeight) (defaultWeight : Fl) : WeightManager := mkWM s ∅ defaultWeight.

Definition getMatch (tag find : str) (isRegexp : bool) : str :=
  if negb isRegexp then if StrMatcher.Contains tag find then find else []
  else match Compile find with Some _ => [] | None => FindString find tag end.

Fixpoint findValue (defaultWeight : Fl) (settings : list StrategyWeight) (tag : str) : Fl :=
  match settings with
  | [] => defaultWeight
  | w :: settings =>
      let matched := getMatch tag (sw_Match w) (sw_Regexp w) in
      if decide (matched = []) then findValue defaultWeight settings tag
      else if f_pos (sw_Value w) then sw_Value w
      else
        let numStr := FindNumber matched in
        if decide (numStr = []) then defaultWeight
        else match f_parse numStr with Some weight => weight | None => defaultWeight end
  end.

Definition Get (s : WeightManager) (tag : str) : Fl * WeightManager :=
  match wm_cache s !! tag with
  | Some weight => (weight, s)
  | None =>
      let weight := findValue (wm_defaultWeight s) (wm_settings s) tag in
      (weight, mkWM (wm_settings s) (<[tag := weight]> (wm_cache s)) (wm_defaultWeight s))
  end.

(** [time.Duration(s.costs.Apply(tag, float64(value)))]. *)
Definition Apply_cost (s : WeightManager) (tag : str) (value : Z) : Z * WeightManager :=
  let '(w, s) := Get s tag in (f_scale value w, s).

(** ** Least load *)

Record StrategyLeastLoadConfig := mkLeastLoad {
  ll_Costs : list StrategyWeight; ll_Baselines : list Z; ll_Expected : Z; ll_MaxRTT : Z; ll_Tolerance : Fl
}.

Record node := mkNode {
  n_Tag : str; n_CountAll : Z; n_CountFail : Z; n_RTTAverage : Z; n_RTTDeviation : Z; n_RTTDeviationCost : Z
}.

Definition shouldSelectNode (settings : StrategyLeastLoadConfig) (v : OutboundStatus) (candidates : list str) : bool :=
  if negb (os_Alive v) then false
  else if bool_decide (ll_MaxRTT settings ≠ 0) && bool_decide (os_Delay v >= Z.quot (ll_MaxRTT settings) 1000000) then false
  else if negb (bool_decide (os_OutboundTag v ∈ candidates)) then false
  else match os_HealthPing v with
       | Some hp => negb (bool_decide (hp_All hp > 0) && f_pos (ll_Tolerance settings)
                          && f_ratio_gt (hp_Fail hp) (hp_All hp) (ll_Tolerance settings))
       | None => true
       end.

(** The record of one status; the weight of the tag is asked for once or twice. *)
Definition make_node (costs : WeightManager) (v : OutboundStatus) : node * WeightManager :=
  let ms := i64 (os_Delay v * 1000000) in
  let '(cost, costs) := Apply_cost costs (os_OutboundTag v) ms in
  match os_HealthPing v with
  | None => (mkNode (os_OutboundTag v) 1 1 ms ms cost, costs)
  | Some hp =>
      let '(cost, costs) := Apply_cost costs (os_OutboundTag v) (hp_Deviation hp) in
      (mkNode (os_OutboundTag v) (hp_All hp) (hp_Fail hp) (hp_Average hp) (hp_Deviation hp) cost, costs)
  end.

Fixpoint collect_nodes (settings : StrategyLeastLoadConfig) (costs : WeightManager) (candidates : list str)
    (status : list OutboundStatus) : list node * WeightManager :=
  match status with
  | [] => ([], costs)
  | v :: status =>
      if shouldSelectNode settings v candidates then
        let '(record, costs) := make_node costs v in
        let '(ret, costs) := collect_nodes settings costs candidates status in (record :: ret, costs)
      else collect_nodes settings costs candidates status
  end.

(** The order of [leastloadSort]. *)
Definition node_less (left right : node) : bool :=
  if decide (n_RTTDeviationCost left ≠ n_RTTDeviationCost right) then bool_decide (n_RTTDeviationCost left < n_RTTDeviationCost right)
  else if decide (n_RTTAverage left ≠ n_RTTAverage right) then bool_decide (n_RTTAverage left < n_RTTAverage right)
  else if decide (n_CountFail left ≠ n_CountFail right) then bool_decide (n_CountFail left < n_CountFail right)
  else if decide (n_CountAll left ≠ n_CountAll right) then bool_decide (n_CountAll left > n_CountAll right)
  else str_lt (n_Tag left) (n_Tag right).
Definition node_le (a b : node) : Prop := node_less b a = false.
#[local] Instance node_le_dec a b : Decision (node_le a b).
Proof. unfold node_le. apply _. Defined.
Definition leastloadSort (nodes : list node) : list node := merge_sort node_le nodes.

Definition getNodes (settings : StrategyLeastLoadConfig) (costs : WeightManager) (observed : bool) (obs : Observation)
    (candidates : list str) : go (list node) * WeightManager :=
  if negb observed then (Ok [], costs)
  else match obs with
       | Obs_error => (Ok [], costs)
       | Obs_other => (Panic, costs)
       | ObservationResult status =>
           let '(ret, costs) := collect_nodes settings costs candidates status in (Ok (leastloadSort ret), costs)
       end.

(** [for i := count; i < availableCount; i++]: the nodes below the baseline from [count] on. *)
Fixpoint below (baseline : Z) (nodes : list node) (count : Z) : Z :=
  match nodes with
  | [] => count
  | n :: nodes => if decide (n_RTTDeviationCost n >= baseline) then count else below baseline nodes (count + 1)
  end.
Fixpoint baseline_loop (nodes : list node) (expected : Z) (baselines : list Z) (count : Z) : Z :=
  match baselines with
  | [] => count
  | b :: baselines =>
      let count := below b (drop (Z.to_nat count) nodes) count in
      if decide (count >= expected) then count else baseline_loop nodes expected baselines count
  end.

Definition selectLeastLoad (settings : StrategyLeastLoadConfig) (nodes : list node) : go (list node) :=
  if decide (len nodes = 0) then Ok []
  else
    let expected := ll_Expected settings in
    let availableCount := len nodes in
    if decide (expected > availableCount) then Ok nodes
    else
      let expected := if decide (expected ≤ 0) then 1 else expected in
      if decide (len (ll_Baselines settings) = 0) then ok_or_panic (slice nodes 0 expected)
      else
        let count := baseline_loop nodes expected (ll_Baselines settings) 0 in
        let count := if decide (ll_Expected settings > 0 ∧ count < expected) then expected else count in
        ok_or_panic (slice nodes 0 count).

Definition pickOutbounds (settings : StrategyLeastLoadConfig) (costs : WeightManager) (observed : bool) (obs : Observation)
    (candidates : list str) : go (list node) * WeightManager :=
  let '(qualified, costs) := getNodes settings costs observed obs candidates in
  (nodes ← qualified; selectLeastLoad settings nodes, costs).

(** ** Least ping *)

Definition least_step (tags : list str) (acc : str * Z) (v : OutboundStatus) : str * Z :=
  if bool_decide (os_OutboundTag v ∈ tags) && os_Alive v && bool_decide (os_Delay v < acc.2)
  then (os_OutboundTag v, os_Delay v) else acc.
Definition LeastPing_PickOutbound (observed : bool) (obs : Observation) (tags : list str) : str :=
  if negb observed then []
  else match obs with
       | ObservationResult status => (foldl (least_step tags) ([], 99999999) status).1
       | _ => []
       end.

(** ** The strategies *)

(** [dice.Roll]; [Intn] is [rand.Intn]. *)
Context (Intn : Z → Z).
Definition Roll (n : Z) : Z := if decide (n = 1) then 0 else Intn n.

(** A strategy with whether it holds an observatory. *)
Inductive Strategy :=
| RandomStrategy (observed : bool)
| RoundRobinStrategy (observed : bool) (index : Z)
| LeastPingStrategy (observed : bool)
| LeastLoadStrategy (observed : bool) (settings : StrategyLeastLoadConfig) (costs : WeightManager).

Definition Random_PickOutbound (observed : bool) (obs : Observation) (candidates : list str) : go str :=
  let candidates := alive_tags observed obs candidates in
  if decide (len candidates = 0) then Ok [] else ok_or_panic (index candidates (Roll (len candidates))).

Definition RoundRobin_PickOutbound (observed : bool) (idx : Z) (obs : Observation) (tags : list str) : go (str * Z) :=
  let tags := alive_tags observed obs tags in
  let n := len tags in
  if decide (n = 0) then Ok ([], idx)
  else tag ← ok_or_panic (index tags (Z.rem idx n)); Ok (tag, Z.rem (idx + 1) n).

Definition Strategy_PickOutbound (st : Strategy) (obs : Observation) (tags : list str) : go str * Strategy :=
  match st with
  | RandomStrategy o => (Random_PickOutbound o obs tags, st)
  | RoundRobinStrategy o idx =>
      match RoundRobin_PickOutbound o idx obs tags with
      | Ok (tag, idx) => (Ok tag, RoundRobinStrategy o idx)
      | Err e => (Err e, st)
      | Panic => (Panic, st)
      end
  | LeastPingStrategy o => (Ok (LeastPing_PickOutbound o obs tags), st)
  | LeastLoadStrategy o settings costs =>
      let '(r, costs) := pickOutbounds settings costs o obs tags in
      (selects ← r;
       if decide (len selects = 0) then Ok []
       else n ← ok_or_panic (index selects (Roll (len selects))); Ok (n_Tag n),
       LeastLoadStrategy o settings costs)
  end.

Definition Strategy_GetPrincipleTarget (st : Strategy) (obs : Observation) (tags : list str) : go (list str) * Strategy :=
  match st with
  | RandomStrategy _ | RoundRobinStrategy _ _ => (Ok tags, st)
  | LeastPingStrategy o => (Ok [LeastPing_PickOutbound o obs tags], st)
  | LeastLoadStrategy o settings costs =>
      let '(r, costs) := pickOutbounds settings costs o obs tags in
      (mbind (M := go) (λ nodes : list node, Ok (n_Tag <$> nodes)) r, LeastLoadStrategy o settings costs)
  end.

(** ** Balancers *)

Record Balancer := mkBalancer { b_selectors : list str; b_strategy : Strategy; b_fallbackTag : str; b_override : str }.

(** The outbound manager's [Select], when it is a [HandlerSelector]. *)
Context (Select : option (list str → list str)).

Definition SelectOutbounds (b : Balancer) : go (list str) :=
  match Select with
  | None => Err (ErrMsg "outbound.Manager is not a HandlerSelector")
  | Some select => Ok (select (b_selectors b))
  end.

Definition Balancer_PickOutbound (b : Balancer) (obs : Observation) : go str * Balancer :=
  match SelectOutbounds b with
  | Panic => (Panic, b)
  | Err err => (if decide (b_fallbackTag b ≠ []) then Ok (b_fallbackTag b) else Err err, b)
  | Ok candidates =>
      let '(tag, b) :=
        if decide (b_override b ≠ []) then (Ok (b_override b), b)
        else let '(tag, st) := Strategy_PickOutbound (b_strategy b) obs candidates in
             (tag, mkBalancer (b_selectors b) st (b_fallbackTag b) (b_override b)) in
      (tag ← tag;
       if decide (tag = []) then
         if decide (b_fallbackTag b ≠ []) then Ok (b_fallbackTag b)
         else Err (ErrMsg "balancing strategy returns empty tag")
       else Ok tag, b)
  end.

(** [override.Put], [Clear] and [Get]. *)
Definition Override_Put (b : Balancer) (target : str) : Balancer :=
  mkBalancer (b_selectors b) (b_strategy b) (b_fallbackTag b) target.
Definition Override_Clear (b : Balancer) : Balancer := Override_Put b [].
Definition Override_Get (b : Balancer) : str := b_override b.

(** [BalancingRule.Build] and [InjectContext]: random and round-robin ask for an observatory
    only with a fallback tag; [has_obs] tells whether there is one. The settings of the least
    load strategy are decoded from a typed message. *)
Record BalancingRule := mkBalancingRule {
  br_Tag : str; br_OutboundSelector : list str; br_Strategy : str;
  br_StrategySettings : go (option StrategyLeastLoadConfig); br_FallbackTag : str
}.

Context (lowerRunes : str → str) (has_obs : bool).
Definition Balancing_Build (br : BalancingRule) : go Balancer :=
  let strategy := strings_ToLower lowerRunes (br_Strategy br) in
  let mk st := mkBalancer (br_OutboundSelector br) st (br_FallbackTag br) [] in
  let observed := has_obs && bool_decide (0 < len (br_FallbackTag br)) in
  if decide (strategy = s2b "leastping") then Ok (mk (LeastPingStrategy has_obs))
  else if decide (strategy = s2b "roundrobin") then Ok (mk (RoundRobinStrategy observed 0))
  else if decide (strategy = s2b "leastload") then
    i ← br_StrategySettings br;
    match i with
    | None => Err (ErrMsg "not a StrategyLeastLoadConfig")
    | Some s => Ok (mk (LeastLoadStrategy has_obs s (NewWeightManager (ll_Costs s) f_one)))
    end
  else if decide (strategy = s2b "random" ∨ strategy = []) then Ok (mk (RandomStrategy observed))
  else Err (ErrMsg "unrecognized balancer type").

End balancing.

(** ** Weights: the cache does not show *)

Section proofs.
Context {Fl : Type} `{HFl : FloatOps Fl}.
Context (Compile : str → option GoError) (FindString : str → str → str).

Abbreviation weight_of s tag := (findValue Compile FindString (wm_defaultWeight s) (wm_settings s) tag).

Definition wm_ok (s : WeightManager (Fl := Fl)) : Prop := ∀ tag w, wm_cache s !! tag = Some w → w = weight_of s tag.
Definition same_settings (s s' : WeightManager (Fl := Fl)) : Prop :=
  wm_settings s' = wm_settings s ∧ wm_defaultWeight s' = wm_defaultWeight s.

Lemma weight_Get s tag : wm_ok s →
  ∃ s', Get Compile FindString s tag = (weight_of s tag, s') ∧ wm_ok s' ∧ same_settings s s'.
Proof.
  intros Hs. unfold Get. destruct (wm_cache s !! tag) as [w|] eqn:E.
  - exists s. rewrite (Hs _ _ E). done.
  - eexists. split; [done|]. split; [|done]. intros t w. cbn [wm_cache]. intros [[<- <-]|[_ Ht]]%lookup_insert_Some; [done|by apply Hs].
Qed.

Lemma Apply_cost_spec s tag v : wm_ok s →
  ∃ s', Apply_cost Compile FindString s tag v = (f_scale v (weight_of s tag), s') ∧ wm_ok s' ∧ same_settings s s'.
Proof.
  intros Hs. unfold Apply_cost. destruct (weight_Get s tag Hs) as (s' & -> & H). by exists s'.
Qed.

(** ** Least load *)

(** The record of a status, from the weights in the settings. *)
Definition node_of (s : WeightManager (Fl := Fl)) (v : OutboundStatus) : node :=
  let tag := os_OutboundTag v in
  match os_HealthPing v with
  | None => let ms := i64 (os_Delay v * 1000000) in mkNode tag 1 1 ms ms (f_scale ms (weight_of s tag))
  | Some hp => mkNode tag (hp_All hp) (hp_Fail hp) (hp_Average hp) (hp_Deviation hp) (f_scale (hp_Deviation hp) (weight_of s tag))
  end.

Lemma same_settings_trans s1 s2 s3 : same_settings s1 s2 → same_settings s2 s3 → same_settings s1 s3.
Proof. unfold same_settings. intuition congruence. Qed.

Lemma make_node_spec s v : wm_ok s →
  ∃ s', make_node Compile FindString s v = (node_of s v, s') ∧ wm_ok s' ∧ same_settings s s'.
Proof.
  intros Hs. unfold make_node, node_of.
  destruct (Apply_cost_spec s (os_OutboundTag v) (i64 (os_Delay v * 1000000)) Hs) as (s1 & -> & H1 & S1).
  destruct (os_HealthPing v) as [hp|]; [|by exists s1].
  destruct (Apply_cost_spec s1 (os_OutboundTag v) (hp_Deviation hp) H1) as (s2 & -> & H2 & S2).
  exists s2. split; [by destruct S1 as [-> ->]|]. split; [done|by eapply same_settings_trans].
Qed.

Definition qualified (settings : StrategyLeastLoadConfig (Fl := Fl)) (s : WeightManager) (tags : list str) (status : list OutboundStatus) : list node :=
  node_of s <$> base.filter (λ v, shouldSelectNode settings v tags = true) status.

Lemma node_of_same s s' v : same_settings s s' → node_of s' v = node_of s v.
Proof. intros [E1 E2]. unfold node_of. by rewrite E1, E2. Qed.

Lemma collect_nodes_spec settings tags status : ∀ s, wm_ok s →
  ∃ s', collect_nodes Compile FindString settings s tags status = (qualified settings s tags status, s') ∧ wm_ok s' ∧ same_settings s s'.
Proof.
  induction status as [|v status IH]; intros s Hs; cbn [collect_nodes].
  { by exists s. }
  unfold qualified. rewrite filter_cons. destruct (shouldSelectNode settings v tags) eqn:E.
  - rewrite decide_True by done. destruct (make_node_spec s v Hs) as (s1 & -> & H1 & S1).
    destruct (IH s1 H1) as (s2 & -> & H2 & S2). exists s2. split; [|split; [done|by eapply same_settings_trans]].
    cbn [fmap list_fmap]. f_equal. f_equal. unfold qualified. apply list_fmap_ext. intros _ x _. by apply node_of_same.
  - rewrite decide_False by done. by apply IH.
Qed.

(** *** The order of the nodes *)

Lemma str_lt_asym a : ∀ b, str_lt a b = true → str_lt b a = false.
Proof.
  induction a as [|x a IH]; intros [|y b]; cbn [str_lt]; try done. rewrite orb_true_iff, andb_true_iff, !bool_decide_eq_true.
  intros [H|[-> H]].
  - rewrite (bool_decide_eq_false_2 (byte_to_Z y < _)) by lia. rewrite bool_decide_eq_false_2; [done|]. intros ->. lia.
  - rewrite (bool_decide_eq_false_2 (byte_to_Z y < _)) by lia. by rewrite (IH _ H), andb_false_r.
Qed.

Lemma node_less_asym a b : node_less a b = true → node_less b a = false.
Proof.
  unfold node_less. repeat (case_decide; try done); rewrite ?bool_decide_eq_true, ?bool_decide_eq_false; try lia; try congruence.
  apply str_lt_asym.
Qed.
#[local] Instance node_le_total : Total node_le.
Proof.
  intros a b. unfold node_le. destruct (node_less b a) eqn:E; [right|by left]. by apply node_less_asym.
Qed.

Lemma node_le_cost a b : node_le a b → n_RTTDeviationCost a ≤ n_RTTDeviationCost b.
Proof.
  unfold node_le, node_less. case_decide as Hd; [rewrite bool_decide_eq_false; lia|]. intros _. lia.
Qed.

Definition cost_le (a b : node) : Prop := n_RTTDeviationCost a ≤ n_RTTDeviationCost b.

Lemma leastloadSort_sorted ns : StronglySorted cost_le (leastloadSort ns).
Proof.
  apply Sorted_StronglySorted; [intros a b c; unfold cost_le; lia|].
  assert (Hs : Sorted node_le (leastloadSort ns)) by apply Sorted_merge_sort, _.
  induction Hs as [|x l Hs IH Hr]; constructor; [done|]. destruct Hr; constructor. by apply node_le_cost.
Qed.

(** How many nodes are below a baseline. *)
Definition count_below (b : Z) (ns : list node) : Z := len (base.filter (λ n, n_RTTDeviationCost n < b) ns).

Lemma count_below_none b ns : Forall (λ n, b ≤ n_RTTDeviationCost n) ns → count_below b ns = 0.
Proof.
  intros Hall. unfold count_below. induction Hall as [|n ns Hn _ IH]; [done|]. rewrite filter_cons, decide_False by lia. done.
Qed.

Lemma count_below_all b ns : Forall (λ n, n_RTTDeviationCost n < b) ns → count_below b ns = len ns.
Proof.
  intros Hall. unfold count_below. induction Hall as [|n ns Hn _ IH]; [done|]. rewrite filter_cons, decide_True by lia.
  by rewrite !len_cons, IH.
Qed.

Lemma below_count b ns : StronglySorted cost_le ns → ∀ c, below b ns c = c + count_below b ns.
Proof.
  induction 1 as [|n ns Hs IH Hn]; intros c; cbn [below]; [rewrite count_below_none by apply Forall_nil_2; lia|].
  unfold count_below. rewrite filter_cons. case_decide as Hd.
  - rewrite decide_False by lia. fold (count_below b ns). rewrite count_below_none; [lia|].
    eapply Forall_impl; [|exact Hn]. unfold cost_le. intros x Hx. lia.
  - rewrite decide_True by lia. rewrite IH, len_cons. unfold count_below. lia.
Qed.

Lemma StronglySorted_drop' k ns : StronglySorted cost_le ns → StronglySorted cost_le (drop k ns).
Proof.
  revert ns. induction k as [|k IH]; intros ns Hs; [by rewrite drop_0|]. destruct Hs; [constructor|]. by apply IH.
Qed.

(** From the [c] lowest nodes on: the nodes below [b] extend them, or there are fewer. *)
Lemma below_drop b ns : StronglySorted cost_le ns → ∀ c, 0 ≤ c ≤ len ns →
  below b (drop (Z.to_nat c) ns) c = Z.max c (count_below b ns).
Proof.
  intros Hs c Hc. rewrite below_count by (by apply StronglySorted_drop').
  pose proof (take_drop (Z.to_nat c) ns) as Htd.
  assert (Hsplit : count_below b ns = count_below b (take (Z.to_nat c) ns) + count_below b (drop (Z.to_nat c) ns)).
  { rewrite <- Htd at 1. unfold count_below. by rewrite list.filter_app, len_app. }
  assert (Hle : count_below b (take (Z.to_nat c) ns) ≤ c).
  { unfold count_below, len. pose proof (length_filter (λ n, n_RTTDeviationCost n < b) (take (Z.to_nat c) ns)) as H. rewrite length_take in H. lia. }
  assert (Hpos : 0 ≤ count_below b (drop (Z.to_nat c) ns)) by apply len_nonneg.
  destruct (decide (count_below b (take (Z.to_nat c) ns) = c)) as [He|Hne]; [lia|].
  assert (count_below b (drop (Z.to_nat c) ns) = 0); [|lia].
  apply count_below_none. rewrite list.Forall_forall. intros y Hy. apply Z.nlt_ge. intros Hlt. apply Hne.
  rewrite count_below_all.
  - unfold len. rewrite length_take. unfold len in Hc. lia.
  - rewrite list.Forall_forall. intros x Hx. rewrite <- Htd in Hs. pose proof (StronglySorted_app_1_elem_of _ _ _ _ _ Hs Hx Hy) as Hxy. unfold cost_le in Hxy. lia.
Qed.

(** The reference: a baseline selects the nodes below it; baselines are tried in order, and the
    largest selection counts, until it has as many nodes as expected. *)
Fixpoint try_baselines (ns : list node) (expected : Z) (baselines : list Z) (best : Z) : Z :=
  match baselines with
  | [] => best
  | b :: baselines =>
      let best := Z.max best (count_below b ns) in
      if decide (expected ≤ best) then best else try_baselines ns expected baselines best
  end.
Definition selected_count (settings : StrategyLeastLoadConfig (Fl := Fl)) (ns : list node) : Z :=
  if decide (ns = []) then 0
  else if decide (len ns < ll_Expected settings) then len ns
  else if decide (ll_Baselines settings = []) then Z.max 1 (ll_Expected settings)
  else Z.max (Z.max 0 (ll_Expected settings)) (try_baselines ns (Z.max 1 (ll_Expected settings)) (ll_Baselines settings) 0).

Lemma count_below_range b ns : 0 ≤ count_below b ns ≤ len ns.
Proof. unfold count_below, len. pose proof (length_filter (λ n, n_RTTDeviationCost n < b) ns). lia. Qed.

Lemma try_baselines_range ns e bs : ∀ c, 0 ≤ c ≤ len ns → 0 ≤ try_baselines ns e bs c ≤ len ns.
Proof.
  induction bs as [|b bs IH]; intros c Hc; [done|]. cbn [try_baselines]. pose proof (count_below_range b ns).
  case_decide; [lia|]. apply IH. lia.
Qed.

Lemma baseline_loop_try ns e bs : StronglySorted cost_le ns → ∀ c, 0 ≤ c ≤ len ns →
  baseline_loop ns e bs c = try_baselines ns e bs c.
Proof.
  intros Hs. induction bs as [|b bs IH]; intros c Hc; [done|]. cbn [baseline_loop try_baselines].
  rewrite below_drop by done. pose proof (count_below_range b ns).
  destruct (decide (e ≤ Z.max c (count_below b ns))); [by rewrite decide_True by lia|].
  rewrite decide_False by lia. apply IH. lia.
Qed.

Lemma slice_0 {A} (l : list A) k : 0 ≤ k ≤ len l → slice l 0 k = Some (take (Z.to_nat k) l).
Proof. intros Hk. rewrite slice_Some by lia. by rewrite Z.sub_0_r, drop_0. Qed.

Lemma selectLeastLoad_take settings ns : StronglySorted cost_le ns →
  selectLeastLoad settings ns = Ok (take (Z.to_nat (selected_count settings ns)) ns) ∧ 0 ≤ selected_count settings ns ≤ len ns.
Proof.
  intros Hs. unfold selectLeastLoad, selected_count. remember ns as ns0 eqn:E0. destruct ns as [|n ns]; [by subst|]. rename E0 into En.
  assert (Hpos : 0 < len ns0) by (rewrite En, len_cons; pose proof (len_nonneg ns); lia).
  rewrite (decide_False (P := len ns0 = 0)) by lia. rewrite (decide_False (P := ns0 = [])) by (by rewrite En).
  destruct (decide (len ns0 < ll_Expected settings)) as [Hbig|Hbig].
  - rewrite decide_True by lia. rewrite to_nat_len, take_ge by lia. split; [done|lia].
  - rewrite decide_False by lia.
    assert (He : (if decide (ll_Expected settings ≤ 0) then 1 else ll_Expected settings) = Z.max 1 (ll_Expected settings))
      by (case_decide; lia). rewrite He. clear He.
    destruct (decide (ll_Baselines settings = [])) as [Hb|Hb].
    + rewrite decide_True by (by rewrite Hb). rewrite slice_0 by lia. split; [done|lia].
    + rewrite decide_False by (intros Hl; by apply len_0_nil in Hl). rewrite baseline_loop_try by (done || lia).
      pose proof (try_baselines_range ns0 (Z.max 1 (ll_Expected settings)) (ll_Baselines settings) 0 ltac:(lia)) as Hr.
      set (t := try_baselines _ _ _ _) in *. clearbody t.
      assert (Hc : (if decide (ll_Expected settings > 0 ∧ t < Z.max 1 (ll_Expected settings)) then Z.max 1 (ll_Expected settings) else t)
                   = Z.max (Z.max 0 (ll_Expected settings)) t) by (case_decide; lia).
      rewrite Hc, slice_0 by lia. split; [done|lia].
Qed.

Lemma count_below_perm b ns ns' : ns ≡ₚ ns' → count_below b ns = count_below b ns'.
Proof. intros Hp. unfold count_below, len. by rewrite Hp. Qed.
Lemma selected_count_perm settings ns ns' : ns ≡ₚ ns' → selected_count settings ns = selected_count settings ns'.
Proof.
  intros Hp. unfold selected_count. assert (Hl : len ns = len ns') by (unfold len; by rewrite Hp). rewrite Hl.
  assert (Hn : ns = [] ↔ ns' = []) by (rewrite <- !Permutation_nil_r; by rewrite Hp). rewrite (decide_ext _ _ _ _ Hn).
  assert (Ht : ∀ e bs c, try_baselines ns e bs c = try_baselines ns' e bs c).
  { intros e bs. induction bs as [|b bs IH]; intros c; [done|]. cbn [try_baselines]. by rewrite (count_below_perm b ns ns'), IH. }
  by rewrite Ht.
Qed.

Lemma leastloadSort_perm ns : leastloadSort ns ≡ₚ ns.
Proof. apply merge_sort_Permutation. Qed.

(** C39: the least-load strategy selects what it documents. Given the result of an observation and
    a weight cache that holds only weights the settings give, it takes the outbounds that are
    candidates, alive, within the limits on delay and failures, with their weights; it returns,
    without reading out of range, the lowest ones by weighted deviation, as many as the settings
    ask for: all when fewer than expected qualify, else the expected number (one if it is not
    positive), or, with baselines, the largest selection below a baseline until one has enough, and
    at least the expected number; every node left out costs at least as much as every node
    selected, and the cache still holds only such weights. Floating-point products are whatever
    the processor makes of them. *)
Theorem least_load_exact settings s tags status : wm_ok s →
  let q := qualified settings s tags status in
  ∃ sel rest s', pickOutbounds Compile FindString settings s true (ObservationResult status) tags = (Ok sel, s') ∧
    wm_ok s' ∧ same_settings s s' ∧ sel ++ rest ≡ₚ q ∧ len sel = selected_count settings q ∧
    (∀ x y, x ∈ sel → y ∈ rest → n_RTTDeviationCost x ≤ n_RTTDeviationCost y).
Proof.
  intros Hs q. unfold pickOutbounds, getNodes. cbn [negb].
  destruct (collect_nodes_spec settings tags status s Hs) as (s' & -> & Hs' & HS). fold q.
  pose proof (leastloadSort_sorted q) as Hsort. destruct (selectLeastLoad_take settings _ Hsort) as [E Hr].
  rewrite (selected_count_perm settings _ q (leastloadSort_perm q)) in E, Hr. cbn [mbind go_bind]. rewrite E.
  set (k := Z.to_nat (selected_count settings q)) in *. exists (take k (leastloadSort q)), (drop k (leastloadSort q)), s'.
  split; [done|]. split; [done|]. split; [done|]. split; [rewrite take_drop; apply leastloadSort_perm|]. split.
  - unfold len in *. rewrite length_take. lia.
  - intros x y Hx Hy. rewrite <- (take_drop k (leastloadSort q)) in Hsort.
    exact (StronglySorted_app_1_elem_of _ _ _ _ _ Hsort Hx Hy).
Qed.

(** ** Round robin *)

Fixpoint rr_picks (k : nat) (observed : bool) (idx : Z) (obs : Observation) (tags : list str) : go (list str * Z) :=
  match k with
  | O => Ok ([], idx)
  | S k => '(tag, idx) ← RoundRobin_PickOutbound observed idx obs tags;
           '(rest, idx) ← rr_picks k observed idx obs tags; Ok (tag :: rest, idx)
  end.

Lemma rr_step observed idx obs tags : let l := alive_tags observed obs tags in l ≠ [] → 0 ≤ idx →
  ∃ tag idx', RoundRobin_PickOutbound observed idx obs tags = Ok (tag, idx') ∧ l !! Z.to_nat (idx mod len l) = Some tag ∧
    0 ≤ idx' < len l ∧ idx' = (idx + 1) mod len l.
Proof.
  intros l Hl Hi. pose proof (len_pos l Hl) as Hn. unfold RoundRobin_PickOutbound. fold l. rewrite decide_False by lia.
  rewrite !Z.rem_mod_nonneg by lia. pose proof (Z.mod_pos_bound idx (len l) Hn) as Hb.
  unfold index. rewrite decide_True by lia.
  destruct (l !! Z.to_nat (idx mod len l)) as [tag|] eqn:E; [|apply lookup_ge_None in E; unfold len in *; lia].
  cbn [ok_or_panic mbind go_bind]. eexists _, _. split; [done|]. split; [done|]. split; [by apply Z.mod_pos_bound|done].
Qed.

Lemma rr_picks_spec k observed obs tags : let l := alive_tags observed obs tags in l ≠ [] → ∀ idx, 0 ≤ idx →
  ∃ res idx', rr_picks k observed idx obs tags = Ok (res, idx') ∧ 0 ≤ idx' ∧ idx' mod len l = (idx + Z.of_nat k) mod len l ∧
    length res = k ∧ ∀ i, (i < k)%nat → res !! i = l !! Z.to_nat ((idx + Z.of_nat i) mod len l).
Proof.
  intros l Hl. pose proof (len_pos l Hl) as Hn. induction k as [|k IH]; intros idx Hi; cbn [rr_picks].
  { exists [], idx. rewrite Z.add_0_r. split; [done|]. split; [done|]. split; [done|]. split; [done|]. lia. }
  destruct (rr_step observed idx obs tags Hl Hi) as (tag & idx1 & -> & Htag & Hr1 & E1). fold l in Htag, Hr1, E1. cbn [mbind go_bind].
  destruct (IH idx1 ltac:(lia)) as (res & idx' & -> & Hi' & E' & Hlen & Hres). cbn [mbind go_bind].
  assert (Hmod : ∀ j, (idx1 + j) mod len l = (idx + (1 + j)) mod len l).
  { intros j. rewrite E1, Zplus_mod_idemp_l. f_equal. lia. }
  eexists _, _. split; [done|]. split; [done|]. split; [rewrite E', Hmod; f_equal; lia|]. split; [cbn; lia|].
  intros [|i] Hlt; [cbn; rewrite Z.add_0_r; done|]. cbn [lookup list_lookup]. rewrite Hres by lia. rewrite Hmod. by replace (idx + (1 + Z.of_nat i)) with (idx + Z.of_nat (S i)) by lia.
Qed.

Definition rotate (k : nat) (l : list str) : list str := drop k l ++ take k l.

Lemma rotate_lookup k l i : (k < length l)%nat → (i < length l)%nat →
  rotate k l !! i = l !! Z.to_nat ((Z.of_nat k + Z.of_nat i) mod len l).
Proof.
  intros Hk Hi. unfold rotate, len. destruct (decide (k + i < length l)%nat) as [H|H].
  - rewrite lookup_app_l by (rewrite length_drop; lia). rewrite lookup_drop, Z.mod_small by lia. f_equal. lia.
  - rewrite lookup_app_r by (rewrite length_drop; lia). rewrite length_drop, lookup_take_lt by lia. f_equal.
    rewrite <- (Z.mod_add _ (-1)) by lia. rewrite Z.mod_small by lia. lia.
Qed.

(** C29: round robin is fair: as long as the candidates and their health stay the same, as many
    consecutive picks as there are live candidates take each of them once, in order, starting at
    the current position, and come back to it; no pick is out of range, whatever position
    earlier and longer lists left behind. *)
Theorem round_robin_fair observed obs tags idx : 0 ≤ idx → alive_tags observed obs tags ≠ [] →
  let l := alive_tags observed obs tags in
  ∃ idx', rr_picks (length l) observed idx obs tags = Ok (rotate (Z.to_nat (idx mod len l)) l, idx') ∧
    0 ≤ idx' ∧ idx' mod len l = idx mod len l.
Proof.
  intros Hi Hl l. pose proof (len_pos l Hl) as Hn. pose proof (Z.mod_pos_bound idx (len l) Hn) as Hb.
  destruct (rr_picks_spec (length l) observed obs tags Hl idx Hi) as (res & idx' & E & Hi' & Em & Hlen & Hres).
  fold l in Hres, Em. exists idx'. split; [|split; [done|]].
  - rewrite E. f_equal. f_equal. apply list_eq. intros i. destruct (decide (i < length l)%nat) as [H|H].
    + rewrite Hres, rotate_lookup by (unfold len in *; lia). f_equal. f_equal.
      rewrite Z2Nat.id, Zplus_mod_idemp_l by lia. done.
    + rewrite !lookup_ge_None_2; [done| |lia]. unfold rotate. rewrite length_app, length_drop, length_take. lia.
  - rewrite Em. fold (len l). rewrite <- (Z.mul_1_l (len l)) at 1. apply Z.mod_add. lia.
Qed.

(** ** Least ping *)

Definition pingable (tags : list str) (v : OutboundStatus) : Prop :=
  os_OutboundTag v ∈ tags ∧ os_Alive v = true ∧ os_Delay v < 99999999.

Lemma least_fold tags status : ∀ acc, acc.2 ≤ 99999999 →
  let r := foldl (least_step tags) acc status in
  r.2 ≤ acc.2 ∧ (r = acc ∨ ∃ v, v ∈ status ∧ pingable tags v ∧ r = (os_OutboundTag v, os_Delay v)) ∧
  (∀ v, v ∈ status → pingable tags v → r.2 ≤ os_Delay v).
Proof.
  induction status as [|v status IH]; intros acc Ha; cbn [foldl].
  { split; [done|]. split; [by left|]. by intros v ?%elem_of_nil. }
  remember (least_step tags acc v) as acc' eqn:Ea. unfold least_step in Ea. destruct (bool_decide _ && _ && _) eqn:E; subst acc'.
  - rewrite !andb_true_iff, !bool_decide_eq_true in E. destruct E as [[Hin Hal] Hd].
    destruct (IH (os_OutboundTag v, os_Delay v)) as (H1 & H2 & H3); [cbn; lia|]. cbn [fst snd] in *.
    assert (Hv : pingable tags v) by (split; [done|split; [done|lia]]). split; [lia|]. split.
    + right. destruct H2 as [->|(w & Hw & Hp & ->)]; [exists v|exists w]; rewrite elem_of_cons; auto.
    + intros w [->|Hw]%elem_of_cons Hp; [lia|auto].
  - destruct (IH acc Ha) as (H1 & H2 & H3). split; [done|]. split.
    + destruct H2 as [->|(w & Hw & Hp & ->)]; [by left|]. right. exists w. rewrite elem_of_cons. auto.
    + intros w [->|Hw]%elem_of_cons Hp; [|auto]. destruct Hp as (Hin & Hal & Hd).
      rewrite Hal, (bool_decide_eq_true_2 (_ ∈ _)) in E by done. cbn [andb] in E. apply bool_decide_eq_false in E. lia.
Qed.

(** The pick is the first of the fastest candidates that are alive, if one is below the limit. *)
Lemma least_ping_minimal status tags :
  (∃ v, v ∈ status ∧ pingable tags v ∧ LeastPing_PickOutbound true (ObservationResult status) tags = os_OutboundTag v ∧
     ∀ w, w ∈ status → pingable tags w → os_Delay v ≤ os_Delay w) ∨
  (LeastPing_PickOutbound true (ObservationResult status) tags = [] ∧ ∀ v, v ∈ status → ¬ pingable tags v).
Proof.
  unfold LeastPing_PickOutbound. cbn [negb].
  destruct (least_fold tags status ([], 99999999)) as (H1 & H2 & H3); [done|]. cbn [fst snd] in *.
  destruct H2 as [E|(v & Hv & Hp & E)].
  - right. rewrite E in *. split; [done|]. intros v Hv Hp. specialize (H3 v Hv Hp). cbn in H3. destruct Hp as (_ & _ & ?). lia.
  - left. exists v. rewrite E in *. auto.
Qed.

(** ** What a balancer may pick *)

Section pick.
Context (Intn : Z → Z) (Select : option (list str → list str)).
Hypothesis HIntn : ∀ n, 0 < n → 0 ≤ Intn n < n.

Lemma Roll_range n : 0 < n → 0 ≤ Roll Intn n < n.
Proof. intros Hn. unfold Roll. case_decide; [lia|auto]. Qed.

(** The round-robin position is not negative; the weight cache is transparent. *)
Definition strategy_ok (st : Strategy (Fl := Fl)) : Prop :=
  match st with
  | RoundRobinStrategy _ idx => 0 ≤ idx
  | LeastLoadStrategy _ _ costs => wm_ok costs
  | _ => True
  end.
(** The report has the type the least-load strategy casts it to. *)
Definition report_ok (st : Strategy (Fl := Fl)) (obs : Observation) : Prop :=
  match st with LeastLoadStrategy true _ _ => obs ≠ Obs_other | _ => True end.

(** What the report says of an outbound that a strategy picks. *)
Definition reported_alive (st : Strategy (Fl := Fl)) (obs : Observation) (tag : str) : Prop :=
  match st with
  | RandomStrategy o | RoundRobinStrategy o _ => ∀ status, o = true → obs = ObservationResult status → is_alive status tag = true
  | LeastPingStrategy _ | LeastLoadStrategy _ _ _ =>
      ∃ status v, obs = ObservationResult status ∧ v ∈ status ∧ os_OutboundTag v = tag ∧ os_Alive v = true
  end.

Lemma alive_tags_elem o obs tags tag : tag ∈ alive_tags o obs tags →
  tag ∈ tags ∧ ∀ status, o = true → obs = ObservationResult status → is_alive status tag = true.
Proof.
  unfold alive_tags. destruct o; [|done]. destruct obs; try done. rewrite list_elem_of_filter. intros [Ha Hin].
  split; [done|]. by intros st _ [= <-].
Qed.

Lemma index_elem {A} (l : list A) i : 0 ≤ i < len l → ∃ x, ok_or_panic (index l i) = Ok x ∧ x ∈ l.
Proof.
  intros Hi. unfold index. rewrite decide_True by lia. destruct (l !! Z.to_nat i) as [x|] eqn:E.
  - exists x. split; [done|]. by eapply list_elem_of_lookup_2.
  - apply lookup_ge_None in E. unfold len in Hi. lia.
Qed.

Lemma strategy_pick st obs tags : strategy_ok st → report_ok st obs →
  ∃ tag st', Strategy_PickOutbound Compile FindString Intn st obs tags = (Ok tag, st') ∧ strategy_ok st' ∧
    (tag = [] ∨ tag ∈ tags ∧ reported_alive st obs tag).
Proof.
  intros Hst Hrep. destruct st as [o|o idx|o|o settings costs]; cbn [Strategy_PickOutbound].
  - unfold Random_PickOutbound. case_decide as Hl; [eexists _, _; split; [done|]; split; [done|by left]|].
    pose proof (len_nonneg (alive_tags o obs tags)).
    destruct (index_elem (alive_tags o obs tags) (Roll Intn (len (alive_tags o obs tags)))) as (x & -> & Hx); [apply Roll_range; lia|].
    eexists _, _. split; [done|]. split; [done|]. right. by apply alive_tags_elem.
  - destruct (decide (alive_tags o obs tags = [])) as [Hnil|Hne].
    + unfold RoundRobin_PickOutbound. rewrite Hnil. eexists _, _. split; [done|]. split; [done|by left].
    + destruct (rr_step o idx obs tags Hne Hst) as (tag & idx' & -> & Htag & Hr & _). eexists _, _. split; [done|].
      split; [cbn; lia|]. right. apply alive_tags_elem. by eapply list_elem_of_lookup_2.
  - eexists _, _. split; [done|]. split; [done|]. destruct o; [|by left]. destruct obs as [| |status]; [by left|by left|].
    destruct (least_ping_minimal status tags) as [(v & Hv & (Hin & Hal & _) & -> & _)|[-> _]]; [right|by left].
    split; [done|]. by exists status, v.
  - destruct o; [|eexists _, _; split; [done|]; split; [done|by left]].
    destruct obs as [| |status]; [eexists _, _; split; [done|]; split; [done|by left]|done|].
    unfold pickOutbounds, getNodes. cbn [negb].
    destruct (collect_nodes_spec settings tags status costs Hst) as (s' & -> & Hs' & HS).
    set (q := qualified settings costs tags status). cbn [mbind go_bind].
    destruct (selectLeastLoad_take settings _ (leastloadSort_sorted q)) as [-> _]. cbn [mbind go_bind].
    set (sel := take _ _). case_decide as Hl; [eexists _, _; split; [done|]; split; [done|by left]|].
    pose proof (len_nonneg sel). destruct (index_elem sel (Roll Intn (len sel))) as (x & -> & Hx); [apply Roll_range; lia|].
    eexists _, _. split; [done|]. split; [done|]. right.
    assert (Hq : x ∈ q). { rewrite <- (leastloadSort_perm q), <- (take_drop (Z.to_nat (selected_count settings (leastloadSort q))) (leastloadSort q)), elem_of_app. by left. }
    unfold q, qualified in Hq. apply list_elem_of_fmap in Hq as (v & -> & [Hsel Hv]%list_elem_of_filter).
    assert (Htag : n_Tag (node_of costs v) = os_OutboundTag v) by (unfold node_of; by destruct (os_HealthPing v)). rewrite Htag.
    unfold shouldSelectNode in Hsel. destruct (os_Alive v) eqn:Hal; [|done]. cbn [negb] in Hsel.
    destruct (_ && _); [done|]. destruct (bool_decide (os_OutboundTag v ∈ tags)) eqn:Hin; [|done].
    apply bool_decide_eq_true in Hin. split; [done|]. by exists status, v.
Qed.

Lemma balancer_pick_ok (b : Balancer) obs : strategy_ok (b_strategy b) → report_ok (b_strategy b) obs →
  let '(r, b') := Balancer_PickOutbound Compile FindString Intn Select b obs in
  strategy_ok (b_strategy b') ∧
  match r with
  | Ok tag =>
      (tag = b_fallbackTag b ∧ b_fallbackTag b ≠ []) ∨
      ∃ candidates, SelectOutbounds Select b = Ok candidates ∧
        if decide (b_override b ≠ []) then tag = b_override b else tag ∈ candidates ∧ reported_alive (b_strategy b) obs tag
  | Err _ => b_fallbackTag b = []
  | Panic => False
  end.
Proof.
  intros Hst Hrep. unfold Balancer_PickOutbound. destruct (SelectOutbounds Select b) as [cands|e|] eqn:Es.
  - case_decide as Ho.
    + split; [done|]. cbn [mbind go_bind]. rewrite decide_False by done. right. by exists cands.
    + destruct (strategy_pick (b_strategy b) obs cands Hst Hrep) as (tag & st' & -> & Hst' & Htag). split; [done|].
      cbn [mbind go_bind b_fallbackTag]. case_decide as Ht.
      * case_decide as Hf; [by left|]. destruct (b_fallbackTag b); [done|by destruct Hf].
      * right. exists cands. split; [done|]. destruct Htag; [done|done].
  - split; [done|]. case_decide as Hf; [by left|]. destruct (b_fallbackTag b); [done|by destruct Hf].
  - unfold SelectOutbounds in Es. by destruct Select.
Qed.

(** Asking for the targets keeps the strategy's state sound too. *)
Lemma principle_ok st obs tags : strategy_ok st → strategy_ok (Strategy_GetPrincipleTarget Compile FindString st obs tags).2.
Proof.
  intros Hst. destruct st as [o|o idx|o|o settings costs]; try done. cbn [Strategy_GetPrincipleTarget].
  unfold pickOutbounds, getNodes. destruct o; [|done]. cbn [negb]. destruct obs as [| |status]; [done|done|].
  by destruct (collect_nodes_spec settings tags status costs Hst) as (s' & -> & Hs' & _).
Qed.

(** A balancer picks only what it may. Whatever the strategy, the report and the random
    source, a pick does not panic and keeps the strategy's state sound; a manual override wins
    when there is one; otherwise the tag returned is one of the outbounds its selectors match
    that the report does not call dead, or the fallback tag; and there is an error only when
    no fallback tag is set. *)
Lemma balancer_pick_sound (b : Balancer) obs : strategy_ok (b_strategy b) → report_ok (b_strategy b) obs →
  let '(r, b') := Balancer_PickOutbound Compile FindString Intn Select b obs in
  strategy_ok (b_strategy b') ∧
  match r with
  | Ok tag =>
      (tag = b_fallbackTag b ∧ b_fallbackTag b ≠ []) ∨
      ∃ candidates, SelectOutbounds Select b = Ok candidates ∧
        if decide (b_override b ≠ []) then tag = b_override b else tag ∈ candidates ∧ reported_alive (b_strategy b) obs tag
  | Err _ => b_fallbackTag b = []
  | Panic => False
  end.
Proof. apply balancer_pick_ok. Qed.
End pick.
End proofs.

(** ** Witnesses *)

#[local] Instance sample_float : FloatOps Z := {|
  f_one := 1; f_pos z := bool_decide (0 < z); f_parse _ := None; f_scale v w := v * w; f_ratio_gt a b x := bool_decide (x * b < a) |}.

Definition sample_status : list OutboundStatus :=
  [mkStatus true 30 (s2b "a") None; mkStatus true 10 (s2b "b") None; mkStatus false 1 (s2b "c") None; mkStatus true 20 (s2b "d") None].
Definition sample_tags : list str := [s2b "a"; s2b "b"; s2b "c"; s2b "d"].
Definition sample_settings : StrategyLeastLoadConfig := mkLeastLoad [] [25000000; 15000000] 1 0 0.

Lemma sample_wm_ok : wm_ok (λ _, None) (λ _ _, []) (NewWeightManager (Fl := Z) [] 1).
Proof. intros tag w Hw. discriminate Hw. Qed.

(** The first baseline has two outbounds below it, which is enough. *)
Lemma least_load_exact_witness : ∃ sel s',
  pickOutbounds (λ _, None) (λ _ _, []) sample_settings (NewWeightManager [] 1) true (ObservationResult sample_status) sample_tags = (Ok sel, s') ∧ len sel = 2.
Proof.
  destruct (least_load_exact (λ _, None) (λ _ _, []) sample_settings (NewWeightManager [] 1) sample_tags sample_status sample_wm_ok)
    as (sel & rest & s' & E & _ & _ & _ & Hl & _).
  exists sel, s'. split; [exact E|]. rewrite Hl. vm_compute. reflexivity.
Defined.

Lemma round_robin_fair_witness : ∃ idx',
  rr_picks 3 true 7 (ObservationResult sample_status) sample_tags = Ok ([s2b "b"; s2b "d"; s2b "a"], idx').
Proof.
  destruct (round_robin_fair true (ObservationResult sample_status) sample_tags 7) as (idx' & E & _).
  - lia.
  - vm_compute. discriminate.
  - exists idx'. exact E.
Defined.

Lemma balancer_pick_sound_witness :
  let b := mkBalancer (Fl := Z) [s2b "p"] (RoundRobinStrategy true 2) (s2b "f") [] in
  match (Balancer_PickOutbound (λ _, None) (λ _ _, []) (λ _, 0) (Some (λ _, sample_tags)) b (ObservationResult sample_status)).1 with
  | Ok tag => tag = s2b "f" ∨ is_alive sample_status tag = true | _ => False end.
Proof.
  intros b. pose proof (balancer_pick_sound (λ _, None) (λ _ _, []) (λ _, 0) (Some (λ _, sample_tags)) ltac:(intros; lia) b
    (ObservationResult sample_status) ltac:(cbn; lia) I) as H.
  destruct (Balancer_PickOutbound _ _ _ _ b _) as [[tag|e|] b']; destruct H as [_ H]; [|discriminate H|destruct H].
  destruct H as [[-> _]|(c & Hc & H)]; [left; reflexivity|right]. cbn in H. destruct H as [_ H]. exact (H _ eq_refl eq_refl).
Defined.
