(* ===== verification/Router.v ===== *)
(** * The router

    Models [app/router/router.go], [Rule] of [config.go] and the balancer operations of the
    router ([balancing.go], [balancing_override.go]). A rule refers to its balancer by tag: the
    router's map is the store the shared balancers live in, and a balancer in the map is never
    replaced while a rule refers to it. Webhook notifiers ([webhook.go]), which run until they
    are closed, are numbered in the order of creation. Reloading and removing rules
    hold the router's lock; [PickRoute] and the operations on a balancer take none. The model runs
    operations one after another, and says nothing about a reload during a pick. *)

From S2P Require Import Prelude Net StrMatcher StrAutomaton StrMph IpMatcher GeoLoader GeoDomain RouteCond Balancing.
Import GoText.

#[local] Open Scope Z_scope.

Inductive DomainStrategy := Config_AsIs | Config_IpIfNonMatch | Config_IpOnDemand.
#[global] Instance DomainStrategy_eq_dec : EqDecision DomainStrategy.
Proof. solve_decision. Defined.

(** The notifiers created so far, those closed, and the notifications sent. *)
Record Hooks := mkHooks { h_next : nat; h_closed : list nat; h_fired : list (nat * str) }.

Section router.
Context {F D T Fl : Type} `{HD : DomainMatcherOps D} `{HF : DomainFactory F D} `{HT : NetipxOps T} `{HFl : FloatOps Fl}.
Context (Compile : str → option GoError) (MatchString : str → str → bool) (FindString : str → str → str) (lowerRunes : str → str).
Context (loadIP : str → str → go (list CIDR)) (load : Load).
Context (Executable : go str) (ToSlash : str → str) (has_obs : bool).
Context (FindProcess : str → str → Z → str → Z → go (Z * str * str)) (Getpid : Z).

Record Rule := mkRule {
  r_Tag : str; r_RuleTag : str; r_Balancer : option str; r_Condition : list (Condition D T); r_Webhook : option nat
}.
(** The generated [RoutingRule] message with its tags and the URL of its webhook. *)
Record RuleConfig := mkRuleConfig {
  rc_fields : RoutingRule; rc_Tag : str; rc_RuleTag : str; rc_BalancingTag : str; rc_Webhook : option str
}.
Record Config := mkConfig { c_DomainStrategy : DomainStrategy; c_Rule : list RuleConfig; c_BalancingRule : list (BalancingRule (Fl := Fl)) }.

Record Router := mkRouter {
  domainStrategy : DomainStrategy; rules : list Rule; balancers : gmap str (Balancer (Fl := Fl));
  hooks : Hooks; geo : Geo (F := F) (T := T)
}.

Definition with_rules (r : Router) (l : list Rule) : Router := mkRouter (domainStrategy r) l (balancers r) (hooks r) (geo r).
Definition with_balancers (r : Router) (b : gmap str (Balancer (Fl := Fl))) : Router := mkRouter (domainStrategy r) (rules r) b (hooks r) (geo r).
Definition with_hooks (r : Router) (h : Hooks) : Router := mkRouter (domainStrategy r) (rules r) (balancers r) h (geo r).

(** [NewWebhookNotifier]: nil without a URL. *)
Definition NewWebhookNotifier (h : Hooks) (url : str) : go (option nat) * Hooks :=
  match url with [] => (Ok None, h) | _ => (Ok (Some (h_next h)), mkHooks (S (h_next h)) (h_closed h) (h_fired h)) end.
Definition Close_hook (h : Hooks) (w : option nat) : Hooks :=
  match w with None => h | Some i => mkHooks (h_next h) (h_closed h ++ [i]) (h_fired h) end.
Definition close_rules (h : Hooks) (l : list Rule) : Hooks := foldl (λ h rule, Close_hook h (r_Webhook rule)) h l.
Definition closeWebhooks (r : Router) : Router := with_hooks r (close_rules (hooks r) (rules r)).

(** The rule of one entry of the configuration: condition, webhook, balancer. *)
Definition make_rule (r : Router) (rc : RuleConfig) : go Rule * Router :=
  let '(cond, g) := BuildCondition Compile lowerRunes loadIP load Executable ToSlash (geo r) (rc_fields rc) in
  let r := mkRouter (domainStrategy r) (rules r) (balancers r) (hooks r) g in
  match cond with
  | Err e => (Err e, r)
  | Panic => (Panic, r)
  | Ok cond =>
      let '(wh, h) := match rc_Webhook rc with None => (Ok None, hooks r) | Some url => NewWebhookNotifier (hooks r) url end in
      let r := with_hooks r h in
      match wh with
      | Err e => (Err e, r)
      | Panic => (Panic, r)
      | Ok wh =>
          let btag := rc_BalancingTag rc in
          if decide (0 < len btag) then
            match balancers r !! btag with
            | None => (Err (ErrMsg "balancer not found"), with_hooks r (Close_hook (hooks r) wh))
            | Some _ => (Ok (mkRule (rc_Tag rc) (rc_RuleTag rc) (Some btag) cond wh), r)
            end
          else (Ok (mkRule (rc_Tag rc) (rc_RuleTag rc) None cond wh), r)
      end
  end.

(** ** [Init] *)

Fixpoint init_balancers (r : Router) (l : list (BalancingRule (Fl := Fl))) : go unit * Router :=
  match l with
  | [] => (Ok (), r)
  | rule :: l =>
      match Balancing_Build lowerRunes has_obs rule with
      | Err e => (Err e, r)
      | Panic => (Panic, r)
      | Ok b => init_balancers (with_balancers r (<[br_Tag rule := b]> (balancers r))) l
      end
  end.
Fixpoint init_rules (r : Router) (l : list RuleConfig) : go unit * Router :=
  match l with
  | [] => (Ok (), r)
  | rc :: l =>
      match make_rule r rc with
      | (Ok rr, r) => init_rules (with_rules r (rules r ++ [rr])) l
      | (Err e, r) => (Err e, closeWebhooks r)
      | (Panic, r) => (Panic, r)
      end
  end.
Definition Init (g : Geo (F := F) (T := T)) (config : Config) : go unit * Router :=
  let r := mkRouter (c_DomainStrategy config) [] ∅ (mkHooks 0 [] []) g in
  match init_balancers r (c_BalancingRule config) with
  | (Ok _, r) => init_rules r (c_Rule config)
  | (e, r) => (e, r)
  end.

(** ** Changing the rules *)

Fixpoint rule_exists (tag : str) (l : list Rule) : bool :=
  match l with [] => false | rule :: l => if decide (r_RuleTag rule = tag) then true else rule_exists tag l end.
Definition RuleExists (r : Router) (tag : str) : bool := if decide (tag ≠ []) then rule_exists tag (rules r) else false.

Fixpoint add_balancers (r : Router) (l : list (BalancingRule (Fl := Fl))) : go unit * Router :=
  match l with
  | [] => (Ok (), r)
  | rule :: l =>
      match balancers r !! br_Tag rule with
      | Some _ => (Err (ErrMsg "duplicate balancer tag"), r)
      | None =>
          match Balancing_Build lowerRunes has_obs rule with
          | Err e => (Err e, r)
          | Panic => (Panic, r)
          | Ok b => add_balancers (with_balancers r (<[br_Tag rule := b]> (balancers r))) l
          end
      end
  end.

(** Close what was added from [startIdx] on and cut it off. *)
Definition closeNewWebhooks (startIdx : nat) (r : Router) : Router :=
  with_rules (with_hooks r (close_rules (hooks r) (drop startIdx (rules r)))) (take startIdx (rules r)).

Fixpoint add_rules (startIdx : nat) (r : Router) (l : list RuleConfig) : go unit * Router :=
  match l with
  | [] => (Ok (), r)
  | rc :: l =>
      if RuleExists r (rc_RuleTag rc) then (Err (ErrMsg "duplicate ruleTag "), closeNewWebhooks startIdx r)
      else match make_rule r rc with
           | (Ok rr, r) => add_rules startIdx (with_rules r (rules r ++ [rr])) l
           | (Err e, r) => (Err e, closeNewWebhooks startIdx r)
           | (Panic, r) => (Panic, r)
           end
  end.

Definition ReloadRules (r : Router) (config : Config) (shouldAppend : bool) : go unit * Router :=
  let r := if shouldAppend then r
           else mkRouter (domainStrategy r) [] ∅ (close_rules (hooks r) (rules r)) (geo r) in
  match add_balancers r (c_BalancingRule config) with
  | (Ok _, r) => add_rules (length (rules r)) r (c_Rule config)
  | (e, r) => (e, r)
  end.

Definition RemoveRule (r : Router) (tag : str) : go unit * Router :=
  if decide (tag ≠ []) then
    (Ok (), with_rules (with_hooks r (close_rules (hooks r) (base.filter (λ rule, r_RuleTag rule = tag) (rules r))))
              (base.filter (λ rule, r_RuleTag rule ≠ tag) (rules r)))
  else (Err (ErrMsg "empty tag name!"), r).

Definition ListRule (r : Router) : list (str * str) := (λ rule, (r_Tag rule, r_RuleTag rule)) <$> rules r.
Definition Router_Close (r : Router) : Router := closeWebhooks r.

(** ** Picking a route *)

Context (LookupIP : nat → str → go (list ip)).

(** The first rule that applies. *)
Fixpoint pick_loop (l : list Rule) (c : Context) (asked : nat) : go (option Rule * Context * nat) :=
  match l with
  | [] => Ok (None, c, asked)
  | rule :: l =>
      '(b, c, asked) ← Chan_Apply LookupIP MatchString lowerRunes FindProcess Getpid (r_Condition rule) c asked;
      if b : bool then Ok (Some rule, c, asked) else pick_loop l c asked
  end.

Definition ErrNoClue : GoError := ErrMsg "not enough information for making a decision".

Definition pickRouteInternal (r : Router) (ctx : Context) (asked : nat) : go (Rule * Context * nat) :=
  let skipDNSResolve := GetSkipDNSResolve (session_of ctx) in
  let ctx := if bool_decide (domainStrategy r = Config_IpOnDemand) && negb skipDNSResolve then ContextWithDNSClient ctx else ctx in
  '(found, ctx, asked) ← pick_loop (rules r) ctx asked;
  match found with
  | Some rule => Ok (rule, ctx, asked)
  | None =>
      domain ← (if decide (domainStrategy r ≠ Config_IpIfNonMatch) then Ok [] else GetTargetDomain (session_of ctx));
      if bool_decide (domainStrategy r ≠ Config_IpIfNonMatch) || bool_decide (len domain = 0) || skipDNSResolve then Err ErrNoClue
      else
        let ctx := ContextWithDNSClient ctx in
        '(found, ctx, asked) ← pick_loop (rules r) ctx asked;
        match found with Some rule => Ok (rule, ctx, asked) | None => Err ErrNoClue end
  end.

Record Route := mkRoute { rt_Context : Context; rt_outboundTag : str; rt_ruleTag : str }.

Context (Intn : Z → Z) (Select : option (list str → list str)).

(** [Rule.GetTag]: the balancer picks, and changes. *)
Definition GetTag (r : Router) (rule : Rule) (obs : Observation) : go str * Router :=
  match r_Balancer rule with
  | None => (Ok (r_Tag rule), r)
  | Some btag =>
      match balancers r !! btag with
      | None => (Panic, r)
      | Some b => let '(tag, b) := Balancer_PickOutbound Compile FindString Intn Select b obs in
                  (tag, with_balancers r (<[btag := b]> (balancers r)))
      end
  end.

Definition PickRoute (r : Router) (ctx : Context) (asked : nat) (obs : Observation) : go Route * Router :=
  match pickRouteInternal r ctx asked with
  | Err e => (Err e, r)
  | Panic => (Panic, r)
  | Ok (rule, ctx, _) =>
      let '(tag, r) := GetTag r rule obs in
      match tag with
      | Err e => (Err e, r)
      | Panic => (Panic, r)
      | Ok tag =>
          (Ok (mkRoute ctx tag (r_RuleTag rule)),
           match r_Webhook rule with
           | None => r
           | Some w => with_hooks r (mkHooks (h_next (hooks r)) (h_closed (hooks r)) (h_fired (hooks r) ++ [(w, tag)]))
           end)
      end
  end.

(** ** Balancers of the router *)

Definition GetPrincipleTarget (r : Router) (tag : str) (obs : Observation) : go (list str) * Router :=
  match balancers r !! tag with
  | None => (Err (ErrMsg "cannot find tag"), r)
  | Some b =>
      match SelectOutbounds Select b with
      | Err _ => (Err (ErrMsg "unable to select outbounds"), r)
      | Panic => (Panic, r)
      | Ok candidates =>
          let '(t, st) := Strategy_GetPrincipleTarget Compile FindString (b_strategy b) obs candidates in
          (t, with_balancers r (<[tag := mkBalancer (b_selectors b) st (b_fallbackTag b) (b_override b)]> (balancers r)))
      end
  end.
Definition SetOverrideTarget (r : Router) (tag target : str) : go unit * Router :=
  match balancers r !! tag with
  | Some b => (Ok (), with_balancers r (<[tag := Override_Put b target]> (balancers r)))
  | None => (Err (ErrMsg "cannot find tag"), r)
  end.
Definition GetOverrideTarget (r : Router) (tag : str) : go str :=
  match balancers r !! tag with Some b => Ok (Override_Get b) | None => Err (ErrMsg "cannot find tag") end.
(** [OverrideBalancer] looks for the tag in the map. *)
Definition OverrideBalancer (r : Router) (balancer target : str) : go unit * Router :=
  match balancers r !! balancer with
  | Some b => (Ok (), with_balancers r (<[balancer := Override_Put b target]> (balancers r)))
  | None => (Err (ErrMsg "balancer not found"), r)
  end.

End router.

#[global] Arguments Rule : clear implicits.
#[global] Arguments mkRule {_ _} _ _ _ _ _.
#[global] Arguments r_Tag {_ _} _.
#[global] Arguments r_RuleTag {_ _} _.
#[global] Arguments r_Balancer {_ _} _.
#[global] Arguments r_Condition {_ _} _.
#[global] Arguments r_Webhook {_ _} _.

(** ** The route is that of the first rule that holds *)

Section pick.
Context {F D T Fl : Type} `{HD : DomainMatcherOps D} `{HT : NetipxOps T}.
Context (MatchString : str → str → bool) (lowerRunes : str → str).
Context (FindProcess : str → str → Z → str → Z → go (Z * str * str)) (Getpid : Z).
Context (LookupIP : nat → str → go (list ip)).

Abbreviation value := (chan_value (D := D) (T := T) MatchString lowerRunes FindProcess Getpid).
Abbreviation loop := (pick_loop (D := D) (T := T) MatchString lowerRunes FindProcess Getpid LookupIP).
Abbreviation picked := (pickRouteInternal (F := F) (Fl := Fl) (D := D) (T := T) MatchString lowerRunes FindProcess Getpid LookupIP).

(** The first rule that holds for a session whose target has the addresses [ips]. *)
Fixpoint first_match (s : Session) (ips : list ip) (l : list (Rule D T)) : go (option (Rule D T)) :=
  match l with
  | [] => Ok None
  | rule :: l => b ← value s ips (r_Condition rule); if b : bool then Ok (Some rule) else first_match s ips l
  end.

Lemma pick_loop_session s own l n : Session_GetTargetIPs s = Ok own →
  loop l (SessionContext s) n = (o ← first_match s own l; Ok (o, SessionContext s, n)).
Proof.
  intros Hown. induction l as [|rule l IH]; [done|]. cbn [pick_loop first_match]. rewrite (Chan_session _ _ _ _ _ s own) by done.
  destruct (value s own _) as [[]|e|]; cbn [mbind go_bind]; done.
Qed.

Lemma pick_loop_resolving s own domain n l : Session_GetTargetIPs s = Ok own → GetTargetDomain s = Ok domain →
  client_ok LookupIP domain n →
  let ans := resolution LookupIP s own domain n in
  ∀ c asked, resolving s ans (questions domain) n c asked →
  match first_match s ans l with
  | Ok o => ∃ c' asked', loop l c asked = Ok (o, c', asked') ∧ resolving s ans (questions domain) n c' asked'
  | Err e => loop l c asked = Err e
  | Panic => loop l c asked = Panic
  end.
Proof.
  intros Hown Hdom Hcl ans. induction l as [|rule l IH]; intros c asked Hc; cbn [pick_loop first_match]; [by eauto|].
  pose proof (Chan_resolving MatchString lowerRunes FindProcess Getpid LookupIP s own domain n Hown Hdom Hcl (r_Condition rule) c asked Hc) as Hr.
  fold ans in Hr. destruct (value s ans (r_Condition rule)) as [b|e|]; cbn [mbind go_bind]; [|by rewrite Hr..].
  destruct Hr as (c' & n' & -> & Hc'). cbn [mbind go_bind]. destruct b; [by eauto|by apply IH].
Qed.

Lemma resolving_facts s ans domain n c asked : resolving s ans (questions domain) n c asked →
  session_of c = s ∧ (n ≤ asked ≤ n + questions domain)%nat.
Proof.
  intros [[-> ->]|[-> ->]]; [split; [done|lia]|]. split; [|lia]. unfold settled. by destruct ans.
Qed.

Lemma pick_loop_in l : ∀ c n rule c' n', loop l c n = Ok (Some rule, c', n') → rule ∈ l.
Proof.
  induction l as [|x l IH]; intros c n rule c' n'; cbn [pick_loop]; [by intros [=]|]. intros H.
  apply go_bind_ok in H as ([[b c1] n1] & _ & H). destruct b; [injection H as -> _ _; left|]. right. by eapply IH.
Qed.

Lemma picked_in r c n rule c' n' : picked r c n = Ok (rule, c', n') → rule ∈ rules r.
Proof.
  unfold pickRouteInternal. intros H. apply go_bind_ok in H as ([[[x|] c1] n1] & E & H).
  - injection H as -> _ _. by eapply pick_loop_in.
  - apply go_bind_ok in H as (d & _ & H). destruct (_ || _ || _); [done|].
    apply go_bind_ok in H as ([[[x|] c2] n2] & E2 & H); [|done]. injection H as -> _ _. by eapply pick_loop_in.
Qed.

(** What the domain strategy asks for. *)
Definition routed (r : Router (F := F) (D := D) (T := T) (Fl := Fl)) (s : Session) (own ans : list ip) (domain : str) : go (option (Rule D T)) :=
  let skip := GetSkipDNSResolve s in
  match domainStrategy r with
  | Config_AsIs => first_match s own (rules r)
  | Config_IpOnDemand => first_match s (if skip then own else ans) (rules r)
  | Config_IpIfNonMatch =>
      o ← first_match s own (rules r);
      match o with
      | Some rule => Ok (Some rule)
      | None => if skip || bool_decide (domain = []) then Ok None else first_match s ans (rules r)
      end
  end.

(** The outcome of a pick, given what it should find. *)
Definition outcome (s : Session) (bound : nat) (n : nat) (expected : go (option (Rule D T))) (res : go (Rule D T * Context * nat)) : Prop :=
  match expected with
  | Ok (Some rule) => ∃ c' n', res = Ok (rule, c', n') ∧ session_of c' = s ∧ (n ≤ n' ≤ n + bound)%nat
  | Ok None => res = Err ErrNoClue
  | Err e => res = Err e
  | Panic => res = Panic
  end.

Lemma outcome_resolving s own domain n l : Session_GetTargetIPs s = Ok own → GetTargetDomain s = Ok domain → client_ok LookupIP domain n →
  outcome s (questions domain) n (first_match s (resolution LookupIP s own domain n) l)
    ('(found, ctx, asked) ← loop l (ContextWithDNSClient (SessionContext s)) n;
     match found with Some rule => Ok (rule, ctx, asked) | None => Err ErrNoClue end).
Proof.
  intros Hown Hdom Hcl.
  pose proof (pick_loop_resolving s own domain n l Hown Hdom Hcl (ContextWithDNSClient (SessionContext s)) n ltac:(by left)) as H.
  unfold outcome. destruct (first_match s _ l) as [[rule|]|e|].
  - destruct H as (c' & n' & -> & Hr). destruct (resolving_facts _ _ _ _ _ _ Hr). cbn [mbind go_bind]. eauto.
  - by destruct H as (c' & n' & -> & Hr).
  - by rewrite H.
  - by rewrite H.
Qed.

Lemma outcome_weaken s b b' n e res : (b ≤ b')%nat → outcome s b n e res → outcome s b' n e res.
Proof. intros Hb. unfold outcome. destruct e as [[rule|]|e|]; [|done..]. intros (c & n' & ? & ? & ?). exists c, n'. split; [done|]. split; [done|lia]. Qed.

(** C15: routing follows the rules in order. The rule a connection is routed by is the first one
    whose condition holds: for its own target as is; with IpOnDemand for the addresses its domain
    resolves to; with IpIfNonMatch for its own target first, and, when no rule holds, for the
    resolved addresses. No rule found is the documented error; the DNS client is asked at most
    once per pick, never for a connection without a domain or one that skips resolution, and all
    rules see the same answer. *)
Theorem router_picks_first r s n own domain :
  Session_GetTargetIPs s = Ok own → GetTargetDomain s = Ok domain → client_ok LookupIP domain n →
  outcome s (if GetSkipDNSResolve s then 0 else questions domain) n
    (routed r s own (resolution LookupIP s own domain n) domain) (picked r (SessionContext s) n).
Proof.
  intros Hown Hdom Hcl. pose proof (outcome_resolving s own domain n (rules r) Hown Hdom Hcl) as HR.
  assert (HS : ∀ l, loop l (SessionContext s) n = (o ← first_match s own l; Ok (o, SessionContext s, n)))
    by (intros l; by apply pick_loop_session).
  unfold pickRouteInternal, routed. cbn [session_of]. destruct (domainStrategy r) eqn:Es; cbn [andb].
  - rewrite (bool_decide_eq_false_2 (Config_AsIs = _)) by done. cbn [andb]. rewrite HS. unfold outcome.
    destruct (first_match s own (rules r)) as [[rule|]|e|]; cbn [mbind go_bind session_of]; [|done..].
    eexists _, _. split; [done|]. split; [done|lia].
  - rewrite (bool_decide_eq_false_2 (Config_IpIfNonMatch = _)) by done. cbn [andb]. rewrite HS.
    destruct (first_match s own (rules r)) as [[rule|]|e|] eqn:Ef; cbn [mbind go_bind session_of]; [| |done|done].
    + unfold outcome. eexists _, _. split; [done|]. split; [done|lia].
    + rewrite decide_False by (intros Hn; by destruct Hn). rewrite Hdom. cbn [mbind go_bind].
      rewrite (bool_decide_eq_false_2 (Config_IpIfNonMatch ≠ _)) by (intros Hn; by destruct Hn). cbn [orb].
      rewrite (bool_decide_ext (len domain = 0) (domain = [])) by apply len_0_iff.
      destruct (GetSkipDNSResolve s); rewrite ?orb_true_r, ?orb_false_r; [done|]. cbn [orb]. case_bool_decide as Hd; [done|]. exact HR.
  - rewrite (bool_decide_eq_true_2 (Config_IpOnDemand = _)) by done. cbn [andb]. destruct (GetSkipDNSResolve s) eqn:Hskip; cbn [negb andb].
    + rewrite HS. destruct (first_match s own (rules r)) as [[rule|]|e|]; cbn [mbind go_bind session_of]; [|done..].
      unfold outcome. eexists _, _. split; [done|]. split; [done|lia].
    + unfold outcome in *. destruct (first_match s _ (rules r)) as [[rule|]|e|].
      * destruct HR as (c' & n' & HR & Hrest). exists c', n'. split; [|done].
        destruct (loop _ _ _) as [[[[rl|] c] a]|e|]; cbn [mbind go_bind] in *; simplify_eq; done.
      * destruct (loop _ _ _) as [[[[rl|] c] a]|e|]; cbn [mbind go_bind] in *; simplify_eq; done.
      * destruct (loop _ _ _) as [[[[rl|] c] a]|e'|]; cbn [mbind go_bind] in *; simplify_eq; done.
      * destruct (loop _ _ _) as [[[[rl|] c] a]|e'|]; cbn [mbind go_bind] in *; simplify_eq; done.
Qed.

End pick.

(** ** Invariant of the router under every sequence of operations *)

Section invariant.
Context {F D T Fl : Type} `{HD : DomainMatcherOps D} `{HF : DomainFactory F D} `{HT : NetipxOps T} `{HFl : FloatOps Fl}.
Context (Compile : str → option GoError) (MatchString : str → str → bool) (FindString : str → str → str) (lowerRunes : str → str).
Context (loadIP : str → str → go (list CIDR)) (load : Load).
Context (Executable : go str) (ToSlash : str → str) (has_obs : bool).
Context (FindProcess : str → str → Z → str → Z → go (Z * str * str)) (Getpid : Z).
Context (LookupIP : nat → str → go (list ip)) (Intn : Z → Z) (Select : option (list str → list str)).
Hypothesis HIntn : ∀ n, 0 < n → 0 ≤ Intn n < n.

Abbreviation router := (Router (F := F) (D := D) (T := T) (Fl := Fl)).
Abbreviation mk_rule := (make_rule Compile lowerRunes loadIP load Executable ToSlash).
Abbreviation reload := (ReloadRules (F := F) (D := D) (T := T) (Fl := Fl) Compile lowerRunes loadIP load Executable ToSlash has_obs).

Definition rule_hooks (l : list (Rule D T)) : list nat := omap r_Webhook l.

(** Every notifier ever created is closed or belongs to a rule, and only once. *)
Definition accounted (h : Hooks) (l : list nat) : Prop := h_closed h ++ l ≡ₚ seq 0 (h_next h).
(** Rule tags are unique. *)
Definition tags_ok (l : list (Rule D T)) : Prop := NoDup (base.filter (λ t, t ≠ []) (r_RuleTag <$> l)).
Definition refs_ok (b : gmap str (Balancer (Fl := Fl))) (l : list (Rule D T)) : Prop :=
  Forall (λ rule, ∀ t, r_Balancer rule = Some t → is_Some (b !! t)) l.
Definition strategies_ok (b : gmap str (Balancer (Fl := Fl))) : Prop := map_Forall (λ _ x, strategy_ok Compile FindString (b_strategy x)) b.

Record router_ok (r : router) : Prop := {
  ro_hooks : accounted (hooks r) (rule_hooks (rules r));
  ro_tags : tags_ok (rules r);
  ro_refs : refs_ok (balancers r) (rules r);
  ro_strategies : strategies_ok (balancers r)
}.

Lemma close_rules_spec (l : list (Rule D T)) : ∀ h, close_rules h l = mkHooks (h_next h) (h_closed h ++ rule_hooks l) (h_fired h).
Proof.
  induction l as [|rule l IH]; intros h; cbn [close_rules foldl].
  - unfold rule_hooks. cbn. rewrite app_nil_r. by destruct h.
  - change (foldl (λ h rule, Close_hook h (r_Webhook rule)) ?x l) with (close_rules x l). rewrite IH.
    unfold rule_hooks. cbn [omap list_omap]. destruct (r_Webhook rule); cbn [Close_hook h_next h_closed h_fired]; [by rewrite <- app_assoc|done].
Qed.

Lemma rule_hooks_app l k : rule_hooks (l ++ k) = rule_hooks l ++ rule_hooks k.
Proof. apply omap_app. Qed.

(** Closing some of the rules and keeping the others. *)
Lemma accounted_close h l k : accounted h (rule_hooks (l ++ k)) → accounted (close_rules h k) (rule_hooks l).
Proof.
  unfold accounted. rewrite close_rules_spec. cbn [h_next h_closed]. rewrite rule_hooks_app. intros <-.
  rewrite <- app_assoc. apply Permutation_app_head. apply Permutation_app_comm.
Qed.

(** One entry: the rule built holds its notifier, or nothing was left open. *)
Lemma make_rule_spec (r : router) rc l : accounted (hooks r) l →
  let '(res, r') := mk_rule r rc in
  rules r' = rules r ∧ balancers r' = balancers r ∧ domainStrategy r' = domainStrategy r ∧ (h_next (hooks r) ≤ h_next (hooks r'))%nat ∧
  (∃ extra, h_closed (hooks r') = h_closed (hooks r) ++ extra ∧ Forall (λ i, h_next (hooks r) ≤ i)%nat extra) ∧
  match res with
  | Ok rr => accounted (hooks r') (l ++ rule_hooks [rr]) ∧ r_RuleTag rr = rc_RuleTag rc ∧
             (∀ t, r_Balancer rr = Some t → is_Some (balancers r !! t)) ∧ Forall (λ i, h_next (hooks r) ≤ i)%nat (rule_hooks [rr])
  | _ => accounted (hooks r') l
  end.
Proof.
  intros Hl. unfold make_rule. destruct (BuildCondition _ _ _ _ _ _ _ _) as [[cond|e|] g].
  2, 3: cbn; (split; [done|]; split; [done|]; split; [done|]; split; [lia|]; split; [exists []; rewrite app_nil_r; split; [done|apply Forall_nil_2]|done]).
  set (wh := match rc_Webhook rc with None => _ | Some url => _ end).
  assert (Hwh : ∃ w h, wh = (Ok w, h) ∧ h_closed h = h_closed (hooks r) ∧ (h_next (hooks r) ≤ h_next h)%nat ∧
            accounted h (l ++ match w with Some i => [i] | None => [] end) ∧ match w with Some i => h_next (hooks r) = i | None => True end).
  { subst wh. destruct (rc_Webhook rc) as [[|c url]|]; cbn [NewWebhookNotifier hooks].
    - exists None, (hooks r). rewrite app_nil_r. auto.
    - eexists (Some _), _. split; [done|]. split; [done|]. split; [cbn; lia|]. split; [|done].
      unfold accounted in *. cbn [h_closed h_next]. rewrite app_assoc, Hl, seq_S. done.
    - exists None, (hooks r). rewrite app_nil_r. auto. }
  destruct Hwh as (w & h & -> & Hc & Hn & Hacc & Hid). cbn [with_hooks hooks rules balancers domainStrategy geo].
  assert (Hown : rule_hooks [mkRule (rc_Tag rc) (rc_RuleTag rc) None cond w] = match w with Some i => [i] | None => [] end)
    by (destruct w; done).
  case_decide as Hb; [destruct (balancers r !! rc_BalancingTag rc) as [b|] eqn:Eb|];
    (split; [done|]; split; [done|]; split; [done|]); cbn [hooks with_hooks].
  - split; [lia|]. split; [exists []; rewrite app_nil_r; split; [done|apply Forall_nil_2]|].
    split; [done|]. split; [done|]. split; [intros t [= <-]; by rewrite Eb|]. destruct w as [i|]; [|apply Forall_nil_2].
    apply Forall_singleton. lia.
  - destruct w as [i|]; cbn [Close_hook h_next h_closed]; rewrite Hc; (split; [lia|]); split.
    + exists [i]. split; [done|]. apply Forall_singleton. lia.
    + unfold accounted in *. cbn [h_closed h_next]. rewrite Hc in *. rewrite <- Hacc, <- app_assoc.
      apply Permutation_app_head. apply Permutation_app_comm.
    + exists []. rewrite app_nil_r. split; [done|apply Forall_nil_2].
    + by rewrite app_nil_r in Hacc.
  - split; [lia|]. split; [exists []; rewrite app_nil_r; split; [done|apply Forall_nil_2]|].
    split; [done|]. split; [done|]. split; [done|]. destruct w as [i|]; [|apply Forall_nil_2]. apply Forall_singleton. lia.
Qed.

Lemma rule_exists_spec tag l : rule_exists tag l = true ↔ tag ∈ (r_RuleTag (D := D) (T := T) <$> l).
Proof.
  induction l as [|rule l IH]; cbn [rule_exists fmap list_fmap]; [by rewrite elem_of_nil|].
  rewrite elem_of_cons. case_decide as H; [by split; [left|]|]. rewrite IH. split; [by right|]. intros [->|?]; done.
Qed.

Lemma tags_ok_snoc l rr : tags_ok l → (r_RuleTag rr = [] ∨ r_RuleTag rr ∉ (r_RuleTag <$> l)) → tags_ok (l ++ [rr]).
Proof.
  unfold tags_ok. intros Hl Hn. rewrite fmap_app, list.filter_app. apply list.NoDup_app. split; [done|].
  cbn [fmap list_fmap]. rewrite filter_cons, filter_nil. case_decide as Hne.
  - destruct Hn as [?|Hn]; [done|]. split; [|apply NoDup_singleton].
    intros x [_ Hx]%list_elem_of_filter ->%list_elem_of_singleton. done.
  - split; [|apply NoDup_nil_2]. by intros x _ ?%elem_of_nil.
Qed.

Lemma tags_ok_app_l l k : tags_ok (l ++ k) → tags_ok l.
Proof. unfold tags_ok. rewrite fmap_app, list.filter_app. by intros [? _]%list.NoDup_app. Qed.

(** Cutting off the new rules. *)
Lemma closeNew_ok (r : router) base new : rules r = base ++ new → router_ok r →
  let r' := closeNewWebhooks (length base) r in
  router_ok r' ∧ rules r' = base ∧ balancers r' = balancers r ∧ domainStrategy r' = domainStrategy r ∧
  h_next (hooks r') = h_next (hooks r) ∧ h_closed (hooks r') = h_closed (hooks r) ++ rule_hooks new.
Proof.
  intros Er [H1 H2 H3 H4] r'. unfold r', closeNewWebhooks. rewrite Er in *. rewrite drop_app_length, take_app_length.
  cbn [with_rules with_hooks rules hooks balancers domainStrategy]. rewrite close_rules_spec. cbn [h_closed h_next].
  split; [|done]. split; cbn [rules hooks balancers].
  - rewrite <- close_rules_spec. by apply accounted_close.
  - by eapply tags_ok_app_l.
  - unfold refs_ok in *. by apply Forall_app in H3 as [? _].
  - done.
Qed.

Lemma add_rules_spec l : ∀ (r : router) base new n0,
  rules r = base ++ new → router_ok r → Forall (λ i, n0 ≤ i)%nat (rule_hooks new) → (n0 ≤ h_next (hooks r))%nat →
  let '(res, r') := add_rules Compile lowerRunes loadIP load Executable ToSlash (length base) r l in
  router_ok r' ∧ balancers r' = balancers r ∧ domainStrategy r' = domainStrategy r ∧
  (∃ extra, h_closed (hooks r') = h_closed (hooks r) ++ extra ∧ Forall (λ i, n0 ≤ i)%nat extra) ∧
  match res with
  | Ok _ => ∃ added, rules r' = base ++ new ++ added ∧ r_RuleTag <$> added = rc_RuleTag <$> l
  | Err _ => rules r' = base
  | Panic => True
  end.
Proof.
  induction l as [|rc l IH]; intros r base new n0 Er Hok Hnew Hn0; cbn [add_rules].
  { split; [done|]. split; [done|]. split; [done|]. split; [exists []; rewrite app_nil_r; split; [done|apply Forall_nil_2]|].
    exists []. by rewrite app_nil_r. }
  destruct (RuleExists r (rc_RuleTag rc)) eqn:Eex.
  { destruct (closeNew_ok r base new Er Hok) as (H1 & H2 & H3 & H4 & H5 & H6). split; [done|]. split; [done|]. split; [done|].
    split; [|done]. by exists (rule_hooks new). }
  pose proof (make_rule_spec r rc _ (ro_hooks _ Hok)) as HM. destruct (mk_rule r rc) as [[rr|e|] r1];
    destruct HM as (Erules & Ebal & Estr & Hnext & (x1 & Ec1 & Hx1) & HM).
  - destruct HM as (Hacc & Htag & Href & Hown).
    assert (Hok1 : router_ok (with_rules r1 (rules r1 ++ [rr]))).
    { split; cbn [with_rules hooks rules balancers]; rewrite ?Erules, ?Ebal.
      - rewrite rule_hooks_app. done.
      - apply tags_ok_snoc; [apply Hok|]. rewrite Htag. unfold RuleExists in Eex. case_decide as Ht; [right|left; destruct (rc_RuleTag rc); [done|by destruct Ht]].
        intros Hin. by rewrite (proj2 (rule_exists_spec _ _) Hin) in Eex.
      - unfold refs_ok. apply Forall_app. split; [apply Hok|]. apply Forall_cons_2; [done|apply Forall_nil_2].
      - apply Hok. }
    assert (Er1 : rules (with_rules r1 (rules r1 ++ [rr])) = base ++ (new ++ [rr]))
      by (cbn [with_rules rules]; by rewrite Erules, Er, app_assoc).
    assert (Hnew1 : Forall (λ i, n0 ≤ i)%nat (rule_hooks (new ++ [rr]))).
    { rewrite rule_hooks_app. apply Forall_app. split; [done|]. eapply Forall_impl; [|exact Hown]. cbn. intros; lia. }
    pose proof (IH _ base (new ++ [rr]) n0 Er1 Hok1 Hnew1 ltac:(cbn; lia)) as HI.
    destruct (add_rules _ _ _ _ _ _ _ _ l) as [res r'].
    destruct HI as (H1 & H2 & H3 & (x2 & Ec2 & Hx2) & H4). cbn [with_rules hooks balancers domainStrategy] in H2, H3, Ec2.
    split; [done|]. split; [congruence|]. split; [congruence|]. split.
    + exists (x1 ++ x2). rewrite Ec2, Ec1, <- app_assoc. split; [done|]. apply Forall_app. split; [|done].
      eapply Forall_impl; [|exact Hx1]. cbn. intros; lia.
    + destruct res as [_|e|]; [|done|done]. destruct H4 as (added & E & Et). exists (rr :: added).
        rewrite E, <- !app_assoc. split; [done|]. cbn [fmap list_fmap]. rewrite Htag. f_equal. exact Et.
  - assert (Hok1 : router_ok r1) by (split; rewrite ?Erules, ?Ebal; [done|apply Hok..]).
    rewrite <- Erules in Er. destruct (closeNew_ok r1 base new Er Hok1) as (H1 & H2 & H3 & H4 & H5 & H6).
    split; [done|]. split; [congruence|]. split; [congruence|]. split; [|done]. exists (x1 ++ rule_hooks new).
    rewrite H6, Ec1, <- app_assoc. split; [done|]. apply Forall_app. split; [|done]. eapply Forall_impl; [|exact Hx1]. cbn. intros; lia.
  - split; [split; rewrite ?Erules, ?Ebal; [done|apply Hok..]|]. split; [done|]. split; [done|]. split; [|done].
    exists x1. split; [done|]. eapply Forall_impl; [|exact Hx1]. cbn. intros; lia.
Qed.

Lemma Balancing_Build_ok br b : Balancing_Build lowerRunes has_obs br = Ok b → strategy_ok Compile FindString (b_strategy b).
Proof.
  unfold Balancing_Build. intros H'.
  repeat (case_decide; [first [injection H' as <-; cbn; (done || lia)
    |apply go_bind_ok in H' as ([st|] & _ & H'); [|done]; injection H' as <-; intros tag w Hw; discriminate Hw]|]). done.
Qed.

Lemma add_balancers_spec l : ∀ (r : router), router_ok r →
  let '(res, r') := add_balancers lowerRunes has_obs r l in
  router_ok r' ∧ rules r' = rules r ∧ hooks r' = hooks r ∧ domainStrategy r' = domainStrategy r ∧ balancers r ⊆ balancers r'.
Proof.
  induction l as [|br l IH]; intros r Hok; cbn [add_balancers]; [done|].
  destruct (balancers r !! br_Tag br) as [b0|] eqn:Eb; [done|].
  destruct (Balancing_Build lowerRunes has_obs br) as [b|e|] eqn:Ebuild; [|done|done].
  set (r1 := with_balancers r (<[br_Tag br := b]> (balancers r))).
  assert (Hsub : balancers r ⊆ balancers r1) by (by apply insert_subseteq).
  assert (Hok1 : router_ok r1).
  { destruct Hok as [H1 H2 H3 H4]. split; [done|done| |].
    - unfold refs_ok in *. eapply Forall_impl; [|exact H3]. cbn. intros rule Hr t Ht. destruct (Hr t Ht) as [x Hx].
      exists x. by eapply lookup_weaken.
    - apply map_Forall_insert_2; [by eapply Balancing_Build_ok|done]. }
  specialize (IH r1 Hok1). destruct (add_balancers _ _ r1 l) as [res r']. destruct IH as (? & ? & ? & ? & ?).
  split; [done|]. split; [done|]. split; [done|]. split; [done|]. by etrans.
Qed.

(** The router before the configuration is read: no rules, or all of them dropped. *)
Definition cleared (r : router) : router := mkRouter (domainStrategy r) [] ∅ (close_rules (hooks r) (rules r)) (geo r).

Lemma cleared_ok r : router_ok r → router_ok (cleared r).
Proof.
  intros [H1 _ _ _]. split; cbn [cleared hooks rules balancers].
  - by apply (accounted_close _ []).
  - apply NoDup_nil_2.
  - apply Forall_nil_2.
  - apply map_Forall_empty.
Qed.

Lemma reload_spec (r : router) cfg app : router_ok r →
  let '(res, r') := reload r cfg app in
  let r0 := if app then r else cleared r in
  router_ok r' ∧ domainStrategy r' = domainStrategy r ∧
  (∃ extra, h_closed (hooks r') = h_closed (hooks r0) ++ extra ∧ Forall (λ i, h_next (hooks r) ≤ i)%nat extra) ∧
  balancers r0 ⊆ balancers r' ∧
  match res with
  | Ok _ => ∃ added, rules r' = rules r0 ++ added ∧ r_RuleTag <$> added = rc_RuleTag <$> c_Rule cfg
  | Err _ => rules r' = rules r0
  | Panic => True
  end.
Proof.
  intros Hok. unfold ReloadRules. fold (cleared r). set (r0 := if app then r else cleared r).
  assert (Hok0 : router_ok r0) by (destruct app; [done|by apply cleared_ok]).
  assert (Hn : h_next (hooks r0) = h_next (hooks r)) by (destruct app; [done|cbn; by rewrite close_rules_spec]).
  assert (Hs : domainStrategy r0 = domainStrategy r) by (by destruct app).
  pose proof (add_balancers_spec (c_BalancingRule cfg) r0 Hok0) as HB.
  destruct (add_balancers lowerRunes has_obs r0 (c_BalancingRule cfg)) as [res1 r1].
  destruct HB as (Hok1 & Er & Eh & Es & Hsub).
  assert (Hnil : ∃ extra, h_closed (hooks r1) = h_closed (hooks r0) ++ extra ∧ Forall (λ i, h_next (hooks r) ≤ i)%nat extra)
    by (exists []; rewrite Eh, app_nil_r; split; [done|apply Forall_nil_2]).
  destruct res1 as [_|e|]; [|split; [done|]; split; [congruence|]; split; [done|]; by split..].
  pose proof (add_rules_spec (c_Rule cfg) r1 (rules r0) [] (h_next (hooks r))) as HA.
  rewrite app_nil_r, Er, Eh, Hn in HA. specialize (HA eq_refl Hok1 (Forall_nil_2 _) (Nat.le_refl _)). rewrite Er.
  destruct (add_rules _ _ _ _ _ _ _ r1 _) as [res r']. destruct HA as (H1 & H2 & H3 & H4 & H5).
  split; [done|]. split; [congruence|]. split; [done|]. split; [by rewrite H2|]. by destruct res.
Qed.

(** C26: a reload that fails does not keep half of the new rules. When rules are appended, the
    router has exactly the rules it had and closes only notifiers created by the attempt; when
    they are replaced, it is left without rules, all old notifiers closed; in both cases the
    invariant holds and new balancers stay registered. When the reload succeeds, the rules are
    the old ones (or none) followed by one rule per entry of the configuration. *)
Theorem failed_reload (r : router) cfg app : router_ok r →
  let '(res, r') := reload r cfg app in
  router_ok r' ∧
  match res with
  | Ok _ => ∃ added, rules r' = (if app then rules r else []) ++ added ∧ r_RuleTag <$> added = rc_RuleTag <$> c_Rule cfg
  | Err _ => rules r' = (if app then rules r else []) ∧
      ∃ extra, h_closed (hooks r') = h_closed (hooks r) ++ (if app then [] else rule_hooks (rules r)) ++ extra ∧
               Forall (λ i, h_next (hooks r) ≤ i)%nat extra
  | Panic => True
  end.
Proof.
  intros Hok. pose proof (reload_spec r cfg app Hok) as H. destruct (reload r cfg app) as [res r'].
  destruct H as (H1 & _ & (extra & Hc & Hx) & _ & H). split; [done|]. destruct res as [_|e|]; [| |done].
  - by destruct app.
  - split; [by destruct app|]. exists extra. split; [|done]. rewrite Hc. destruct app; [done|].
    cbn. rewrite close_rules_spec. cbn [h_closed]. by rewrite <- app_assoc.
Qed.

(** *** Steps *)

Inductive step : router → router → Prop :=
| step_reload r cfg app : step r (reload r cfg app).2
| step_remove r tag : step r (RemoveRule r tag).2
| step_override r tag target : step r (SetOverrideTarget r tag target).2
| step_override_balancer r tag target : step r (OverrideBalancer r tag target).2
| step_principle r tag obs : obs ≠ Obs_other → step r (GetPrincipleTarget Compile FindString Select r tag obs).2
| step_pick r ctx asked obs : obs ≠ Obs_other →
    step r (PickRoute Compile MatchString FindString lowerRunes FindProcess Getpid LookupIP Intn Select r ctx asked obs).2.

Lemma rule_hooks_split (P : Rule D T → Prop) `{HP : ∀ x, Decision (P x)} l :
  rule_hooks (base.filter P l ++ base.filter (λ x, ¬ P x) l) ≡ₚ rule_hooks l.
Proof.
  rewrite rule_hooks_app. unfold rule_hooks. induction l as [|x l IH]; [done|]. rewrite !filter_cons. cbn [omap list_omap].
  destruct (decide (P x)) as [Hp|Hp].
  - rewrite (decide_False (P := ¬ P x)) by (intros Hn; by apply Hn). cbn [omap list_omap]. destruct (r_Webhook x); cbn [app]; by rewrite <- IH.
  - rewrite (decide_True (P := ¬ P x)) by done. cbn [omap list_omap]. destruct (r_Webhook x); [|done].
    rewrite <- Permutation_middle. by rewrite <- IH.
Qed.

Lemma with_balancer_ok r tag b b' : router_ok r → balancers r !! tag = Some b → strategy_ok Compile FindString (b_strategy b') →
  router_ok (with_balancers r (<[tag := b']> (balancers r))).
Proof.
  intros [H1 H2 H3 H4] Hb Hb'. split; [done|done| |].
  - unfold refs_ok in *. eapply Forall_impl; [|exact H3]. cbn. intros rule Hr t Ht.
    destruct (decide (tag = t)) as [->|Hne]; [rewrite lookup_insert_eq; by eexists|]. rewrite lookup_insert_ne by done. auto.
  - by apply map_Forall_insert_2.
Qed.

Lemma remove_ok r tag : router_ok r → router_ok (RemoveRule r tag).2.
Proof.
  intros Hok. unfold RemoveRule. case_decide as Ht; [|done]. destruct Hok as [H1 H2 H3 H4].
  split; cbn [fst snd with_rules with_hooks hooks rules balancers].
  - apply accounted_close. unfold accounted in *. rewrite <- H1. apply Permutation_app_head.
    rewrite <- (rule_hooks_split (λ rule, r_RuleTag rule = tag) (rules r)), !rule_hooks_app. apply Permutation_app_comm.
  - unfold tags_ok in *. eapply sublist_NoDup; [exact H2|]. clear. induction (rules r) as [|x l IH]; [done|].
    rewrite filter_cons. cbn [fmap list_fmap]. rewrite (filter_cons _ (r_RuleTag x)).
    destruct (decide (r_RuleTag x ≠ tag)); cbn [fmap list_fmap]; rewrite ?(filter_cons _ (r_RuleTag x)); case_decide;
      (by apply sublist_skip) || (by apply sublist_cons) || done.
  - unfold refs_ok in *. rewrite list.Forall_forall in *. intros x [_ Hx]%list_elem_of_filter. by apply H3.
  - done.
Qed.

Lemma GetTag_ok r rule obs : router_ok r → rule ∈ rules r → obs ≠ Obs_other →
  let '(res, r') := GetTag Compile FindString Intn Select r rule obs in
  router_ok r' ∧ res ≠ Panic.
Proof.
  intros Hok Hin Hobs. unfold GetTag. destruct (r_Balancer rule) as [t|] eqn:Et; [|done].
  assert (Hrefs := ro_refs r Hok). unfold refs_ok in Hrefs. rewrite list.Forall_forall in Hrefs.
  destruct (Hrefs rule Hin t Et) as [b Hb]. rewrite Hb. pose proof (ro_strategies r Hok t b Hb) as Hst. cbn in Hst.
  pose proof (balancer_pick_ok Compile FindString Intn Select HIntn b obs Hst) as HP.
  destruct (Balancer_PickOutbound _ _ _ _ b obs) as [res b']. destruct HP as [Hst' Hres].
  { unfold report_ok. destruct (b_strategy b) as [| | |[]]; done. }
  split; [by eapply with_balancer_ok|]. by destruct res.
Qed.

Lemma step_ok r r' : router_ok r → step r r' → router_ok r'.
Proof.
  intros Hok Hstep. destruct Hstep as [r cfg app|r tag|r tag target|r tag target|r tag obs Hobs|r ctx asked obs Hobs].
  - pose proof (reload_spec r cfg app Hok) as H. destruct (reload r cfg app). by destruct H.
  - by apply remove_ok.
  - unfold SetOverrideTarget. destruct (balancers r !! tag) as [b|] eqn:Eb; [|done].
    eapply with_balancer_ok; [done|done|]. exact (ro_strategies r Hok tag b Eb).
  - unfold OverrideBalancer. destruct (balancers r !! tag) as [b|] eqn:Eb; [|done].
    eapply with_balancer_ok; [done|done|]. exact (ro_strategies r Hok tag b Eb).
  - unfold GetPrincipleTarget. destruct (balancers r !! tag) as [b|] eqn:Eb; [|done]. destruct (SelectOutbounds Select b) as [c|e|]; [|done|done].
    pose proof (principle_ok Compile FindString (b_strategy b) obs c (ro_strategies r Hok tag b Eb)) as Hst.
    destruct (Strategy_GetPrincipleTarget _ _ _ _ _) as [t st]. by eapply with_balancer_ok.
  - unfold PickRoute. destruct (pickRouteInternal _ _ _ _ _ r ctx asked) as [[[rule c] n]|e|] eqn:Ep; [|done|done].
    assert (Hin : rule ∈ rules r) by (by eapply picked_in).
    pose proof (GetTag_ok r rule obs Hok Hin Hobs) as HG. destruct (GetTag _ _ _ _ r rule obs) as [[tag|e|] r1]; destruct HG as [Hok1 _]; [|done|done].
    cbn [snd]. destruct (r_Webhook rule); [|done]. by destruct Hok1.
Qed.

(** C22: whatever sequence, one after another, of reloads (appending or replacing, succeeding or failing), removals,
    overrides and picks a router goes through, its rule tags stay unique, every rule's balancer
    exists, every balancer's state is sound, and every webhook notifier ever created is either
    held by exactly one rule or was closed exactly once: none leaks and none is closed twice.
    Hence taking the tag of a rule never panics, and closing the router closes every notifier
    that is still open. *)
Theorem router_runs r0 r : router_ok r0 → rtc step r0 r →
  router_ok r ∧ (∀ rule obs, rule ∈ rules r → obs ≠ Obs_other → (GetTag Compile FindString Intn Select r rule obs).1 ≠ Panic) ∧
  h_closed (hooks (Router_Close r)) ≡ₚ seq 0 (h_next (hooks r)).
Proof.
  intros H0 Hrun. assert (Hok : router_ok r) by (induction Hrun; [done|]; eauto using step_ok).
  split; [done|]. split.
  - intros rule obs Hin Hobs. pose proof (GetTag_ok r rule obs Hok Hin Hobs) as H. destruct (GetTag _ _ _ _ r rule obs). by destruct H.
  - unfold Router_Close, closeWebhooks. cbn [with_hooks hooks]. rewrite close_rules_spec. cbn [h_closed]. apply Hok.
Qed.

Lemma add_balancers_in l : ∀ (r r' : router), router_ok r → add_balancers lowerRunes has_obs r l = (Ok (), r') →
  ∀ br, br ∈ l → is_Some (balancers r' !! br_Tag br).
Proof.
  induction l as [|x l IH]; intros r r' Hok E br Hin; [by apply elem_of_nil in Hin|]. cbn [add_balancers] in E.
  destruct (balancers r !! br_Tag x) eqn:Eb; [done|]. destruct (Balancing_Build _ _ x) as [b|e|] eqn:Ebuild; [|done|done].
  set (r1 := with_balancers r (<[br_Tag x := b]> (balancers r))) in *.
  assert (Hok1 : router_ok r1).
  { destruct Hok as [H1 H2 H3 H4]. split; [done|done| |apply map_Forall_insert_2; [by eapply Balancing_Build_ok|done]].
    unfold refs_ok in *. eapply Forall_impl; [|exact H3]. cbn. intros rule Hr t Ht. destruct (Hr t Ht) as [y Hy].
    exists y. rewrite lookup_insert_ne; [done|]. intros <-. congruence. }
  apply elem_of_cons in Hin as [->|Hin]; [|by eapply IH].
  pose proof (add_balancers_spec l r1 Hok1) as HB. rewrite E in HB. destruct HB as (_ & _ & _ & _ & Hsub).
  exists b. eapply lookup_weaken; [|exact Hsub]. apply lookup_insert_eq.
Qed.

(** After an append that failed on its rules the balancers of the attempt stay in the map:
    trying again with the rules corrected and the same first balancer is refused as a duplicate. *)
Lemma failed_append_blocks_retry (r r' : router) cfg cfg' e br l : router_ok r →
  reload r cfg true = (Err e, r') → (add_balancers lowerRunes has_obs r (c_BalancingRule cfg)).1 = Ok () →
  br ∈ c_BalancingRule cfg → c_BalancingRule cfg' = br :: l →
  reload r' cfg' true = (Err (ErrMsg "duplicate balancer tag"), r').
Proof.
  intros Hok E Hadd Hin Hcfg. unfold ReloadRules in E.
  destruct (add_balancers lowerRunes has_obs r (c_BalancingRule cfg)) as [res r1] eqn:Ea. cbn [fst] in Hadd. subst res.
  pose proof (add_balancers_in _ _ _ Hok Ea br Hin) as [b Hb].
  pose proof (add_balancers_spec (c_BalancingRule cfg) r Hok) as HB. rewrite Ea in HB. destruct HB as (Hok1 & _).
  pose proof (add_rules_spec (c_Rule cfg) r1 (rules r1) [] 0 ltac:(by rewrite app_nil_r) Hok1 (Forall_nil_2 _) ltac:(lia)) as HA.
  rewrite E in HA. destruct HA as (_ & Eb & _). unfold ReloadRules. rewrite Hcfg. cbn [add_balancers]. by rewrite Eb, Hb.
Qed.

(** A new router. *)
Lemma new_router_ok strategy g : router_ok (mkRouter strategy [] ∅ (mkHooks 0 [] []) g).
Proof. split; [unfold accounted; reflexivity|apply NoDup_nil_2|apply Forall_nil_2|apply map_Forall_empty]. Qed.

End invariant.

(** ** Witnesses *)

#[local] Instance w_float : FloatOps Z := sample_float.
#[local] Instance w_factory : DomainFactory (gmap str LinearAnyMatcher) CompactDomainMatcher := compact_factory (λ _, None) (λ s, s).
#[local] Instance w_ops : DomainMatcherOps CompactDomainMatcher := compact_matcher_ops (λ _ _, true).

Abbreviation w_reload :=
  (ReloadRules (F := gmap str LinearAnyMatcher) (D := CompactDomainMatcher) (T := list Prefix) (Fl := Z)
     (λ _, None) (λ s, s) (λ _ _, Err EOF) sample_load (Err EOF) (λ s, s) false).
Abbreviation w_ok := (router_ok (F := gmap str LinearAnyMatcher) (D := CompactDomainMatcher) (T := list Prefix) (Fl := Z) (λ _, None) (λ _ _, [])).

Definition w_rule (tag ruleTag btag : str) (ips : list IPRule) : RuleConfig :=
  mkRuleConfig (mkRoutingRule [s2b "in"] [] [] None None None None [] [] ips [] [] [] []) tag ruleTag btag (Some (s2b "http://h/")).
Definition w_balancer : BalancingRule (Fl := Z) := mkBalancingRule (s2b "bal") [s2b "p"] [] (Err EOF) [].
Definition w_config : Config (Fl := Z) :=
  mkConfig Config_IpIfNonMatch
    [w_rule (s2b "by-ip") (s2b "r1") [] [IPRule_Custom (mkCIDR [x0a; x00; x00; x00] 8) false]; w_rule [] (s2b "r2") (s2b "bal") []] [w_balancer].
Definition w_bad : Config (Fl := Z) := mkConfig Config_IpIfNonMatch [w_rule [] (s2b "r3") (s2b "nobody") []] [w_balancer].
Abbreviation WRouter := (Router (F := gmap str LinearAnyMatcher) (D := CompactDomainMatcher) (T := list Prefix) (Fl := Z)).
Definition w_new : WRouter := mkRouter Config_IpIfNonMatch [] ∅ (mkHooks 0 [] []) sample_geo.
Definition w_router : WRouter := (w_reload w_new w_config true).2.

Lemma w_new_ok : w_ok w_new.
Proof. apply new_router_ok. Qed.

(** A domain target: no rule by address holds for it as it is, and the second rule catches it. *)
Lemma router_picks_first_witness : ∃ rule c n,
  pickRouteInternal (λ _ _, true) (λ s, s) (λ _ _ _ _ _, Err EOF) 1 (λ _ _, Ok [[x0a; x01; x02; x03]]) w_router (SessionContext sample_session) 0
  = Ok (rule, c, n) ∧ r_RuleTag rule = s2b "r2" ∧ (n ≤ 1)%nat.
Proof.
  pose proof (router_picks_first (λ _ _, true) (λ s, s) (λ _ _ _ _ _, Err EOF) 1 (λ _ _, Ok [[x0a; x01; x02; x03]]) w_router sample_session 0 []
    (s2b "Apple.COM") eq_refl eq_refl ltac:(intros _; split; discriminate)) as H.
  match type of H with outcome _ _ _ ?e _ => assert (Hv : match e with Ok (Some rule) => r_RuleTag rule = s2b "r2" | _ => False end) by (vm_compute; reflexivity);
    destruct e as [[rule|]|err|]; [|destruct Hv..] end.
  destruct H as (c & n & E & _ & Hn). exists rule, c, n. split; [exact E|]. split; [exact Hv|]. apply (proj2 Hn).
Defined.

Lemma failed_reload_witness : ∃ e r', w_reload w_router w_bad false = (Err e, r') ∧ rules r' = [] ∧ w_ok r'.
Proof.
  assert (Hw : w_ok w_router).
  { pose proof (failed_reload (λ _, None) (λ _ _, []) (λ s, s) (λ _ _, Err EOF) sample_load (Err EOF) (λ s, s) false w_new w_config true w_new_ok) as H.
    unfold w_router. destruct (w_reload w_new w_config true). exact (proj1 H). }
  pose proof (failed_reload (λ _, None) (λ _ _, []) (λ s, s) (λ _ _, Err EOF) sample_load (Err EOF) (λ s, s) false w_router w_bad false Hw) as H.
  assert (Hv : (w_reload w_router w_bad false).1 = Err (ErrMsg "balancer not found")) by (vm_compute; reflexivity).
  destruct (w_reload w_router w_bad false) as [res r']. cbn [fst] in Hv. subst res. destruct H as [H1 [H2 _]].
  exists (ErrMsg "balancer not found"), r'. split; [reflexivity|]. split; [exact H2|exact H1].
Defined.

Lemma failed_append_blocks_retry_witness :
  (w_reload (w_reload w_new w_bad true).2 w_config true).1 = Err (ErrMsg "duplicate balancer tag").
Proof.
  destruct (w_reload w_new w_bad true) as [res r'] eqn:E.
  assert (Hv : (w_reload w_new w_bad true).1 = Err (ErrMsg "balancer not found")) by (vm_compute; reflexivity).
  rewrite E in Hv. cbn [fst] in Hv. subst res. cbn [snd].
  rewrite (failed_append_blocks_retry (λ _, None) (λ _ _, []) (λ s, s) (λ _ _, Err EOF) sample_load (Err EOF) (λ s, s) false
             w_new r' w_bad w_config _ w_balancer [] w_new_ok E); [reflexivity|vm_compute; reflexivity|left|reflexivity].
Defined.

Lemma router_runs_witness : w_ok w_router ∧ h_closed (hooks (Router_Close w_router)) ≡ₚ [0; 1]%nat.
Proof.
  destruct (router_runs (λ _, None) (λ _ _, true) (λ _ _, []) (λ s, s) (λ _ _, Err EOF) sample_load (Err EOF) (λ s, s) false
    (λ _ _ _ _ _, Err EOF) 1 (λ _ _, Err EOF) (λ _, 0) None ltac:(intros; lia) w_new w_router w_new_ok) as (H1 & _ & H3).
  - apply rtc_once. exact (step_reload (λ _, None) (λ _ _, true) (λ _ _, []) (λ s, s) (λ _ _, Err EOF) sample_load (Err EOF) (λ s, s) false
      (λ _ _ _ _ _, Err EOF) 1 (λ _ _, Err EOF) (λ _, 0) None w_new w_config true).
  - split; [exact H1|]. assert (Hn : h_next (hooks w_router) = 2%nat) by (vm_compute; reflexivity). rewrite Hn in H3. exact H3.
Defined.
