(* ===== verification/Vision.v ===== *)
(** * XTLS Vision

    Models the padding of [proxy/proxy.go]: [XtlsPadding], [XtlsUnpadding], [XtlsFilterTls],
    [IsCompleteRecord], [ReshapeMultiBuffer], and the reader and writer around them.

    The writer hides the lengths of a TLS handshake: it sends the user's UUID once and then
    blocks, each a header (a command, the length of the content, the length of the padding),
    the content and the padding, until a block says that padding ends or that the rest is
    copied to the raw connection. The reader undoes it on whatever pieces the connection
    delivers.

    Random numbers, the arrays of the buffer pool, what the wrapped reader returns and the
    bytes a TLS connection still holds are arguments. *)

From S2P Require Import Prelude Net Buf StrMatcher.
Import Buffer MultiBuffer.

#[local] Open Scope Z_scope.

Definition Tls13SupportedVersions : list byte := [x00; x2b; x00; x02; x03; x04].
Definition TlsClientHandShakeStart : list byte := [x16; x03].
Definition TlsServerHandShakeStart : list byte := [x16; x03; x03].
Definition TlsApplicationDataStart : list byte := [x17; x03; x03].
(** The keys of [Tls13CipherSuiteDic], and whether the suite is [TLS_AES_128_CCM_8_SHA256]. *)
Definition Tls13CipherSuiteDic (c : Z) : option bool :=
  if decide (0x1301 ≤ c ≤ 0x1304) then Some false else if decide (c = 0x1305) then Some true else None.
Definition TlsHandshakeTypeClientHello : byte := x01.
Definition TlsHandshakeTypeServerHello : byte := x02.
Definition CommandPaddingContinue : byte := x00.
Definition CommandPaddingEnd : byte := x01.
Definition CommandPaddingDirect : byte := x02.

(** The counters of unpadding. *)
Record Unpad := mkUnpad { RemainingCommand : Z; RemainingContent : Z; RemainingPadding : Z; CurrentCommand : Z }.

(** [InboundState] and [OutboundState], which differ in the names of two fields only:
    [ReaderDirectCopy] is [UplinkReaderDirectCopy] or [DownlinkReaderDirectCopy],
    [WriterDirectCopy] is [DownlinkWriterDirectCopy] or [UplinkWriterDirectCopy]. *)
Record LinkState := mkLink {
  WithinPaddingBuffers : bool; ReaderDirectCopy : bool; unpad : Unpad; IsPadding : bool; WriterDirectCopy : bool
}.

Record TrafficState := mkTraffic {
  UserUUID : list byte; NumberOfPacketToFilter : Z; EnableXtls : bool; IsTLS12orAbove : bool; IsTLS : bool;
  Cipher : Z; RemainingServerHello : Z; Inbound : LinkState; Outbound : LinkState
}.

Definition initial_unpad (command : Z) : Unpad := mkUnpad (-1) (-1) (-1) command.
Definition NewLinkState : LinkState := mkLink true false (initial_unpad 0) true false.
Definition NewTrafficState (userUUID : list byte) : TrafficState :=
  mkTraffic userUUID 8 false false false 0 (-1) NewLinkState NewLinkState.

Section vision.
(** What the buffer pool hands out; its content never shows. *)
Context (pooled : list byte).

(** ** Padding *)

(** [rand.Int]: it panics unless the bound is positive. *)
Definition rand_Int (rnd : Z → Z) (max : Z) : go Z := if decide (max ≤ 0) then Panic else Ok (rnd max).

Definition padding_len (rnd : Z → Z) (contentLen : Z) (longPadding : bool) (testseed : list Z) : go Z :=
  t0 ← ok_or_panic (index testseed 0);
  if bool_decide (contentLen < i32 t0) && longPadding then
    t1 ← ok_or_panic (index testseed 1); l ← rand_Int rnd t1;
    t2 ← ok_or_panic (index testseed 2); Ok (i32 (i32 (i32 l + i32 t2) - contentLen))
  else t3 ← ok_or_panic (index testseed 3); l ← rand_Int rnd t3; Ok (i32 l).

(** The padded buffer; [*userUUID] is nil afterwards. *)
Definition XtlsPadding (rnd : Z → Z) (b : option Buffer.t) (command : byte)
    (userUUID : list byte) (longPadding : bool) (testseed : list Z) : go (Buffer.t * list byte) :=
  let contentLen := match b with Some b => Buffer.Len b | None => 0 end in
  paddingLen ← padding_len rnd contentLen longPadding testseed;
  let most := i32 (Size - 21 - contentLen) in
  let paddingLen := if decide (paddingLen > most) then most else paddingLen in
  '(newbuffer, _, _) ← Write (New pooled) userUUID;
  '(newbuffer, _, _) ← Write newbuffer (command :: put_be16 contentLen ++ put_be16 paddingLen);
  newbuffer ← match b with
              | Some b => bs ← Bytes b; '(newbuffer, _, _) ← Write newbuffer bs; Ok newbuffer
              | None => Ok newbuffer
              end;
  newbuffer ← Extend newbuffer paddingLen;
  Ok (newbuffer, []).

(** ** Unpadding *)

Definition header_byte (u : Unpad) (data : byte) : Unpad :=
  let d := byte_to_Z data in
  let '(mkUnpad rc ct pd cc) := u in
  let '(ct, pd, cc) :=
    if decide (rc = 5) then (ct, pd, d)
    else if decide (rc = 4) then (Z.shiftl d 8, pd, cc)
    else if decide (rc = 3) then (Z.lor ct d, pd, cc)
    else if decide (rc = 2) then (ct, Z.shiftl d 8, cc)
    else if decide (rc = 1) then (ct, Z.lor pd d, cc)
    else (ct, pd, cc) in
  mkUnpad (rc - 1) ct pd cc.

(** One turn of the loop before the test whether the block is done: the input and the output
    buffer and the counters; [None] when the loop returns. *)
Definition unpad_step (b newbuffer : Buffer.t) (u : Unpad) : go (option (Buffer.t * Buffer.t * Unpad)) :=
  if decide (RemainingCommand u > 0) then
    '(b, r) ← ReadByte b;
    match r with
    | inr _ => Ok None
    | inl data => Ok (Some (b, newbuffer, header_byte u data))
    end
  else if decide (RemainingContent u > 0) then
    let n := if decide (Buffer.Len b < RemainingContent u) then Buffer.Len b else RemainingContent u in
    '(b, r) ← ReadBytes b n;
    match r with
    | inr _ => Ok None
    | inl data =>
        '(newbuffer, _, _) ← Write newbuffer data;
        Ok (Some (b, newbuffer, mkUnpad (RemainingCommand u) (RemainingContent u - n) (RemainingPadding u) (CurrentCommand u)))
    end
  else
    let n := if decide (Buffer.Len b < RemainingPadding u) then Buffer.Len b else RemainingPadding u in
    Ok (Some (Advance b n, newbuffer, mkUnpad (RemainingCommand u) (RemainingContent u) (RemainingPadding u - n) (CurrentCommand u))).

Definition block_done (u : Unpad) : bool :=
  bool_decide (RemainingCommand u ≤ 0) && bool_decide (RemainingContent u ≤ 0) && bool_decide (RemainingPadding u ≤ 0).

Fixpoint unpad_loop (fuel : nat) (b newbuffer : Buffer.t) (u : Unpad) : go (Buffer.t * Unpad) :=
  match fuel with
  | O => Panic
  | S fuel =>
      if decide (Buffer.Len b > 0) then
        o ← unpad_step b newbuffer u;
        match o with
        | None => Ok (newbuffer, u)
        | Some (b, newbuffer, u) =>
            if block_done u then
              if decide (CurrentCommand u = 0)
              then unpad_loop fuel b newbuffer (mkUnpad 5 (RemainingContent u) (RemainingPadding u) (CurrentCommand u))
              else
                newbuffer ← (if decide (Buffer.Len b > 0)
                             then bs ← Bytes b; '(newbuffer, _, _) ← Write newbuffer bs; Ok newbuffer
                             else Ok newbuffer);
                Ok (newbuffer, initial_unpad (CurrentCommand u))
            else unpad_loop fuel b newbuffer u
        end
      else Ok (newbuffer, u)
  end.

Definition is_initial (u : Unpad) : bool :=
  bool_decide (RemainingCommand u = -1) && bool_decide (RemainingContent u = -1) && bool_decide (RemainingPadding u = -1).

Definition XtlsUnpadding (userUUID : list byte) (b : Buffer.t) (u : Unpad) : go (Buffer.t * Unpad) :=
  let go_on b u := unpad_loop (S (Z.to_nat (Buffer.Len b))) b (New pooled) u in
  if is_initial u then
    h ← (if decide (Buffer.Len b >= 21) then BytesTo b 16 else Ok []);
    if bool_decide (Buffer.Len b >= 21) && bool_decide (userUUID = h)
    then go_on (Advance b 16) (mkUnpad 5 (RemainingContent u) (RemainingPadding u) (CurrentCommand u))
    else Ok (b, u)
  else go_on b u.

(** ** Recognising TLS *)

Definition with_hello (ts : TrafficState) (rsh : Z) : TrafficState :=
  mkTraffic (UserUUID ts) (NumberOfPacketToFilter ts) (EnableXtls ts) (IsTLS12orAbove ts) (IsTLS ts) (Cipher ts) rsh (Inbound ts) (Outbound ts).
Definition with_packets (ts : TrafficState) (n : Z) : TrafficState :=
  mkTraffic (UserUUID ts) n (EnableXtls ts) (IsTLS12orAbove ts) (IsTLS ts) (Cipher ts) (RemainingServerHello ts) (Inbound ts) (Outbound ts).
Definition with_xtls (ts : TrafficState) : TrafficState :=
  mkTraffic (UserUUID ts) (NumberOfPacketToFilter ts) true (IsTLS12orAbove ts) (IsTLS ts) (Cipher ts) (RemainingServerHello ts) (Inbound ts) (Outbound ts).
Definition with_cipher (ts : TrafficState) (c : Z) : TrafficState :=
  mkTraffic (UserUUID ts) (NumberOfPacketToFilter ts) (EnableXtls ts) (IsTLS12orAbove ts) (IsTLS ts) c (RemainingServerHello ts) (Inbound ts) (Outbound ts).
Definition with_tls (ts : TrafficState) (above12 : bool) : TrafficState :=
  mkTraffic (UserUUID ts) (NumberOfPacketToFilter ts) (EnableXtls ts) above12 true (Cipher ts) (RemainingServerHello ts) (Inbound ts) (Outbound ts).

(** The first bytes of a buffer: a server hello, with its length and cipher suite, or a client
    hello. *)
Definition filter_hello (b : Buffer.t) (ts : TrafficState) : go TrafficState :=
  startsBytes ← BytesTo b 6;
  s3 ← ok_or_panic (index startsBytes 3); s4 ← ok_or_panic (index startsBytes 4); s5 ← ok_or_panic (index startsBytes 5);
  if bool_decide (TlsServerHandShakeStart = take 3 startsBytes) && bool_decide (s5 = TlsHandshakeTypeServerHello) then
    let ts := with_tls (with_hello ts (Z.lor (Z.shiftl (byte_to_Z s3) 8) (byte_to_Z s4) + 5)) true in
    if bool_decide (Buffer.Len b >= 79) && bool_decide (RemainingServerHello ts >= 79) then
      sid ← Byte b 43;
      let sessionIdLen := byte_to_Z sid in
      cipherSuite ← BytesRange b (43 + sessionIdLen + 1) (43 + sessionIdLen + 3);
      c0 ← ok_or_panic (index cipherSuite 0); c1 ← ok_or_panic (index cipherSuite 1);
      Ok (with_cipher ts (Z.lor (Z.shiftl (byte_to_Z c0) 8) (byte_to_Z c1)))
    else Ok ts
  else if bool_decide (TlsClientHandShakeStart = take 2 startsBytes) && bool_decide (s5 = TlsHandshakeTypeClientHello)
  then Ok (with_tls ts (IsTLS12orAbove ts))
  else Ok ts.

Fixpoint XtlsFilterTls (buffer : list (option Buffer.t)) (ts : TrafficState) : go TrafficState :=
  match buffer with
  | [] => Ok ts
  | None :: buffer => XtlsFilterTls buffer ts
  | Some b :: buffer =>
      let ts := with_packets ts (NumberOfPacketToFilter ts - 1) in
      ts ← (if decide (Buffer.Len b >= 6) then filter_hello b ts else Ok ts);
      if decide (RemainingServerHello ts > 0) then
        let e := if decide (RemainingServerHello ts > Buffer.Len b) then Buffer.Len b else RemainingServerHello ts in
        let ts := with_hello ts (i32 (RemainingServerHello ts - Buffer.Len b)) in
        bs ← BytesTo b e;
        if StrMatcher.Contains bs Tls13SupportedVersions then
          let ts := match Tls13CipherSuiteDic (Cipher ts) with Some false => with_xtls ts | _ => ts end in
          Ok (with_packets ts 0)
        else if decide (RemainingServerHello ts ≤ 0) then Ok (with_packets ts 0)
        else XtlsFilterTls buffer ts
      else XtlsFilterTls buffer ts
  end.

(** [IsCompleteRecord]: the loop on what is left of the bytes. *)
Fixpoint record_loop (fuel : nat) (b : list byte) (headerLen recordLen : Z) : bool :=
  match fuel with
  | O => false
  | S fuel =>
      match b with
      | [] => bool_decide (headerLen = 5) && bool_decide (recordLen = 0)
      | data :: b' =>
          if decide (headerLen > 0) then
            if bool_decide (headerLen = 5) && negb (bool_decide (data = x17)) then false
            else if bool_decide (headerLen = 4) && negb (bool_decide (data = x03)) then false
            else if bool_decide (headerLen = 3) && negb (bool_decide (data = x03)) then false
            else
              let recordLen := if decide (headerLen = 2) then Z.shiftl (byte_to_Z data) 8
                               else if decide (headerLen = 1) then Z.lor recordLen (byte_to_Z data) else recordLen in
              record_loop fuel b' (headerLen - 1) recordLen
          else if decide (recordLen > 0) then
            if decide (len b < recordLen) then false else record_loop fuel (drop (Z.to_nat recordLen) b) 5 0
          else false
      end
  end.
Definition IsCompleteRecord (buffer : mbuf) : go bool :=
  b ← Copy buffer (MultiBuffer.Len buffer);
  if decide (len b ≠ MultiBuffer.Len buffer) then Panic else Ok (record_loop (S (length b)) b 5 0).

Definition too_long (b : Buffer.t) : bool := bool_decide (Buffer.Len b >= Size - 21).

(** A buffer too long for a header is cut in two. *)
Definition reshape_one (buffer1 : Buffer.t) : go mbuf :=
  if too_long buffer1 then
    bs ← Bytes buffer1;
    let idx := match LastIndex bs TlsApplicationDataStart with Some k => i32 (Z.of_nat k) | None => -1 end in
    let idx := if decide (idx < 21 ∨ idx > Size - 21) then Z.quot Size 2 else idx in
    back ← BytesFrom buffer1 idx;
    '(buffer2, _, _) ← Write (New pooled) back;
    buffer1 ← Resize buffer1 0 idx;
    Ok [buffer1; buffer2]
  else Ok [buffer1].
Fixpoint reshape_loop (buffer : mbuf) : go mbuf :=
  match buffer with
  | [] => Ok []
  | b :: buffer => x ← reshape_one b; rest ← reshape_loop buffer; Ok (x ++ rest)
  end.
Definition ReshapeMultiBuffer (buffer : mbuf) : go mbuf :=
  if existsb too_long buffer then reshape_loop buffer else Ok buffer.

(** ** The reader *)

Definition reader_link (isUplink : bool) (ts : TrafficState) : LinkState := if isUplink then Inbound ts else Outbound ts.
Definition set_reader_link (isUplink : bool) (ts : TrafficState) (l : LinkState) : TrafficState :=
  let '(mkTraffic uuid n x a t c h i o) := ts in
  if isUplink then mkTraffic uuid n x a t c h l o else mkTraffic uuid n x a t c h i l.
Definition writer_link (isUplink : bool) (ts : TrafficState) : LinkState := reader_link (negb isUplink) ts.
Definition set_writer_link (isUplink : bool) (ts : TrafficState) (l : LinkState) : TrafficState := set_reader_link (negb isUplink) ts l.

(** [vr_input] and [vr_rawInput] are what the TLS connection has read ahead; [vr_inbound] tells
    whether the session has an inbound connection; [vr_ob] is [CanSpliceCopy] of the outbound;
    [vr_direct] tells whether [Reader] is the raw connection. *)
Record VisionReader := mkReader {
  vr_isUplink : bool; vr_input : option (list byte); vr_rawInput : option (list byte); vr_inbound : bool;
  vr_ob : option Z; vr_counter : option Z; vr_direct : bool
}.

Fixpoint unpad_buffers (userUUID : list byte) (buffer : mbuf) (u : Unpad) : go (mbuf * Unpad) :=
  match buffer with
  | [] => Ok ([], u)
  | b :: buffer =>
      '(newbuffer, u) ← XtlsUnpadding userUUID b u;
      '(mb2, u) ← unpad_buffers userUUID buffer u;
      Ok (if decide (Buffer.Len newbuffer > 0) then newbuffer :: mb2 else mb2, u)
  end.

Definition after_unpadding (l : LinkState) (u : Unpad) : LinkState :=
  let mk within direct := mkLink within direct u (IsPadding l) (WriterDirectCopy l) in
  if bool_decide (RemainingContent u > 0) || bool_decide (RemainingPadding u > 0) || bool_decide (CurrentCommand u = 0)
  then mk true (ReaderDirectCopy l)
  else if decide (CurrentCommand u = 1) then mk false (ReaderDirectCopy l)
  else if decide (CurrentCommand u = 2) then mk false true
  else mk (WithinPaddingBuffers l) (ReaderDirectCopy l).

(** [buf.ReadFrom] of the bytes a connection holds, appended when there are any. *)
Definition merge_rest (buffer : mbuf) (rest : option (list byte)) : go mbuf :=
  bs ← ok_or_panic rest;
  '(mb, err) ← ReadFrom pooled (mkStream bs EOF);
  match err with
  | None => Ok (if IsEmpty mb then buffer else (MergeMulti buffer mb).1)
  | Some _ => Ok buffer
  end.

(** [read] is what the wrapped reader returns, [readCounter] the counter that
    [UnwrapRawConn] finds. *)
Definition Vision_ReadMultiBuffer (vr : VisionReader) (ts : TrafficState) (read : mbuf * option GoError) (readCounter : option Z)
    : go (mbuf * option GoError * VisionReader * TrafficState) :=
  let '(buffer, err) := read in
  let up := vr_isUplink vr in
  if IsEmpty buffer then Ok (buffer, err, vr, ts)
  else if ReaderDirectCopy (reader_link up ts) then
    Ok (buffer, err, mkReader up (vr_input vr) (vr_rawInput vr) (vr_inbound vr) (vr_ob vr)
                       ((λ c, c + MultiBuffer.Len buffer) <$> vr_counter vr) (vr_direct vr), ts)
  else
    '(buffer, ts) ←
      (let l := reader_link up ts in
       if WithinPaddingBuffers l || bool_decide (NumberOfPacketToFilter ts > 0) then
         '(mb2, u) ← unpad_buffers (UserUUID ts) buffer (unpad l);
         Ok (mb2, set_reader_link up ts (after_unpadding l u))
       else Ok (buffer, ts));
    ts ← (if decide (NumberOfPacketToFilter ts > 0) then XtlsFilterTls (Some <$> buffer) ts else Ok ts);
    if ReaderDirectCopy (reader_link up ts) then
      buffer ← merge_rest buffer (vr_input vr);
      buffer ← merge_rest buffer (vr_rawInput vr);
      let ob := if vr_inbound vr && negb up && bool_decide (vr_ob vr = Some 2) then Some 1 else vr_ob vr in
      Ok (buffer, err, mkReader up None None (vr_inbound vr) ob readCounter true, ts)
    else Ok (buffer, err, vr, ts).

(** ** The writer *)

(** [vw_uuid] is [writeOnceUserUUID]; [vw_inbound] is [CanSpliceCopy] of the session's inbound;
    [vw_direct] tells whether [Writer] is the raw connection. *)
Record VisionWriter := mkWriter {
  vw_isUplink : bool; vw_uuid : list byte; vw_testseed : list Z; vw_inbound : option Z; vw_counter : option Z; vw_direct : bool
}.
Definition NewVisionWriter (ts : TrafficState) (isUplink : bool) (inbound : option Z) (testseed : list Z) : VisionWriter :=
  mkWriter isUplink (UserUUID ts) (if decide (len testseed < 4) then [900; 500; 900; 256] else testseed) inbound None false.

Definition last_command (ts : TrafficState) : byte := if EnableXtls ts then CommandPaddingDirect else CommandPaddingEnd.

(** The loop over the buffers: the padded ones, the UUID still to send, whether padding goes on
    and whether to switch to direct copy. [rnd i] is the source of the [i]th draw. *)
Fixpoint pad_loop (rnd : nat → Z → Z) (ts : TrafficState) (isComplete : bool) (testseed : list Z) (i : nat) (mb : mbuf)
    (uuid : list byte) (isPadding direct longPadding : bool) : go (mbuf * list byte * bool * bool) :=
  match mb with
  | [] => Ok ([], uuid, isPadding, direct)
  | b :: mb' =>
      let is_last := match mb' with [] => true | _ => false end in
      app ← (if IsTLS ts && bool_decide (Buffer.Len b >= 6)
             then h ← BytesTo b 3; Ok (bool_decide (TlsApplicationDataStart = h) && isComplete) else Ok false);
      if app : bool then
        let command := if is_last then last_command ts else CommandPaddingContinue in
        '(nb, uuid) ← XtlsPadding (rnd i) (Some b) command uuid true testseed;
        '(rest, uuid, isPadding, direct) ← pad_loop rnd ts isComplete testseed (S i) mb' uuid false (EnableXtls ts || direct) false;
        Ok (nb :: rest, uuid, isPadding, direct)
      else if negb (IsTLS12orAbove ts) && bool_decide (NumberOfPacketToFilter ts ≤ 1) then
        '(nb, uuid) ← XtlsPadding (rnd i) (Some b) CommandPaddingEnd uuid longPadding testseed;
        Ok (nb :: mb', uuid, false, direct)
      else
        let command := if is_last && negb isPadding then last_command ts else CommandPaddingContinue in
        '(nb, uuid) ← XtlsPadding (rnd i) (Some b) command uuid longPadding testseed;
        '(rest, uuid, isPadding, direct) ← pad_loop rnd ts isComplete testseed (S i) mb' uuid isPadding direct longPadding;
        Ok (nb :: rest, uuid, isPadding, direct)
  end.

(** The padding of one write: of a nil buffer, which asks for padding alone, or of the
    buffers. *)
Definition pad_buffers (rnd : nat → Z → Z) (ts : TrafficState) (testseed : list Z) (mb : mbuf)
    (uuid : list byte) : go (mbuf * list byte * bool * bool) :=
  isComplete ← IsCompleteRecord mb;
  mb ← ReshapeMultiBuffer mb;
  pad_loop rnd ts isComplete testseed 0 mb uuid true false (IsTLS ts).
(** [Copy] of a MultiBuffer with a nil buffer panics. *)
Fixpoint no_nil (mb : list (option Buffer.t)) : option mbuf :=
  match mb with
  | [] => Some []
  | None :: _ => None
  | Some b :: mb => match no_nil mb with Some l => Some (b :: l) | None => None end
  end.
Definition pad_write (rnd : nat → Z → Z) (ts : TrafficState) (testseed : list Z) (mb : list (option Buffer.t))
    (uuid : list byte) : go (list (option Buffer.t) * list byte * bool * bool) :=
  match mb with
  | [None] => '(nb, uuid) ← XtlsPadding (rnd 0%nat) None CommandPaddingContinue uuid true testseed; Ok ([Some nb], uuid, true, false)
  | _ =>
      match no_nil mb with
      | None => Panic
      | Some mb => '(mb, uuid, isPadding, direct) ← pad_buffers rnd ts testseed mb uuid; Ok (fmap (M := list) Some mb, uuid, isPadding, direct)
      end
  end.

(** What is written and whether to the raw connection, the error of that write ([werr]), and
    the writer and traffic state afterwards; [writerCounter] is what [UnwrapRawConn] finds. *)
Definition Vision_WriteMultiBuffer (rnd : nat → Z → Z) (vw : VisionWriter) (ts : TrafficState) (mb : list (option Buffer.t))
    (writerCounter : option Z) (werr : option GoError)
    : go (list (option Buffer.t) * bool * option GoError * VisionWriter * TrafficState) :=
  let up := vw_isUplink vw in
  let l := writer_link up ts in
  let spliceReady := WriterDirectCopy l && negb up && bool_decide (vw_inbound vw = Some 2) in
  let direct := WriterDirectCopy l || vw_direct vw in
  let counter := if WriterDirectCopy l then writerCounter else vw_counter vw in
  let counter := if IsEmpty (omap id mb) then counter else (λ c, c + MultiBuffer.Len (omap id mb)) <$> counter in
  ts ← (if decide (NumberOfPacketToFilter ts > 0) then XtlsFilterTls mb ts else Ok ts);
  '(out, uuid, isPadding, switch) ←
    (if IsPadding l then pad_write rnd ts (vw_testseed vw) mb (vw_uuid vw) else Ok (mb, vw_uuid vw, false, false));
  let ts := set_writer_link up ts (mkLink (WithinPaddingBuffers l) (ReaderDirectCopy l) (unpad l) isPadding switch) in
  let inbound := if bool_decide (werr = None) && spliceReady then Some 1 else vw_inbound vw in
  Ok (out, direct, werr, mkWriter up uuid (vw_testseed vw) inbound counter direct, ts).

End vision.

(** ** Unpadding byte by byte

    [feed] decodes a sequence of bytes at once, with no regard to the pieces it comes in. *)

Definition byte_step (u : Unpad) (c : byte) : list byte * Unpad :=
  if decide (RemainingCommand u > 0) then ([], header_byte u c)
  else if decide (RemainingContent u > 0)
  then ([c], mkUnpad (RemainingCommand u) (RemainingContent u - 1) (RemainingPadding u) (CurrentCommand u))
  else ([], mkUnpad (RemainingCommand u) (RemainingContent u) (RemainingPadding u - 1) (CurrentCommand u)).

Definition prepend (o : list byte) (r : list byte * Unpad) : list byte * Unpad := (o ++ r.1, r.2).

Definition next_block (u : Unpad) : Unpad := mkUnpad 5 (RemainingContent u) (RemainingPadding u) (CurrentCommand u).

Definition continue (feed : Unpad → list byte → list byte * Unpad) (o : list byte) (u : Unpad) (bs : list byte) : list byte * Unpad :=
  if block_done u then
    if decide (CurrentCommand u = 0) then prepend o (feed (next_block u) bs) else (o ++ bs, initial_unpad (CurrentCommand u))
  else prepend o (feed u bs).

Fixpoint feed (u : Unpad) (bs : list byte) : list byte * Unpad :=
  match bs with
  | [] => ([], u)
  | c :: bs => let '(o, u) := byte_step u c in
               if block_done u then
                 if decide (CurrentCommand u = 0) then prepend o (feed (next_block u) bs) else (o ++ bs, initial_unpad (CurrentCommand u))
               else prepend o (feed u bs)
  end.

Lemma feed_cons u c bs : feed u (c :: bs) = continue feed (byte_step u c).1 (byte_step u c).2 bs.
Proof. cbn [feed]. unfold continue. by destruct (byte_step u c). Qed.

(** Inside a block, or between two. *)
Definition live (u : Unpad) : Prop := block_done u = false.
Definition set_content (u : Unpad) (n : Z) : Unpad := mkUnpad (RemainingCommand u) n (RemainingPadding u) (CurrentCommand u).
Definition set_padding (u : Unpad) (n : Z) : Unpad := mkUnpad (RemainingCommand u) (RemainingContent u) n (CurrentCommand u).

Lemma live_iff u : live u ↔ 0 < RemainingCommand u ∨ 0 < RemainingContent u ∨ 0 < RemainingPadding u.
Proof.
  unfold live, block_done. rewrite !andb_false_iff, !bool_decide_eq_false. lia.
Qed.

Lemma live_next u : live (next_block u).
Proof. apply live_iff. left. cbn. lia. Qed.
#[export] Hint Resolve live_next : core.

Lemma prepend_nil r : prepend [] r = r.
Proof. by destruct r. Qed.
Lemma prepend_prepend a b r : prepend a (prepend b r) = prepend (a ++ b) r.
Proof. unfold prepend. cbn. by rewrite app_assoc. Qed.

Lemma continue_prepend o p u bs : prepend o (continue feed p u bs) = continue feed (o ++ p) u bs.
Proof.
  unfold continue. destruct (block_done u); [case_decide|]; rewrite ?prepend_prepend; try done. unfold prepend. cbn. by rewrite app_assoc.
Qed.

(** Content and padding are taken in one go. *)
Lemma feed_content l : ∀ u bs, RemainingCommand u ≤ 0 → l ≠ [] → len l ≤ RemainingContent u →
  feed u (l ++ bs) = continue feed l (set_content u (RemainingContent u - len l)) bs.
Proof.
  induction l as [|c l IH]; intros u bs Hc Hl Hn; [done|]. cbn [app]. rewrite feed_cons. unfold byte_step.
  rewrite len_cons in Hn. pose proof (len_nonneg l) as Hp.
  rewrite (decide_False (P := RemainingCommand u > 0)) by lia. rewrite (decide_True (P := RemainingContent u > 0)) by lia. cbn [fst snd].
  destruct l as [|d l].
  - rewrite len_cons, len_nil. unfold set_content. cbn [app]. replace (1 + 0) with 1 by lia. done.
  - assert (Hd : block_done (set_content u (RemainingContent u - 1)) = false).
    { apply live_iff. right. left. cbn. rewrite len_cons in *. pose proof (len_nonneg l). lia. }
    unfold continue at 1. unfold set_content in Hd. rewrite Hd. fold (set_content u (RemainingContent u - 1)).
    rewrite IH; [|done|done|cbn; lia]. rewrite continue_prepend. cbn [app]. unfold set_content. cbn [RemainingCommand RemainingContent RemainingPadding CurrentCommand].
    f_equal. f_equal. rewrite !len_cons. lia.
Qed.

Lemma feed_padding l : ∀ u bs, RemainingCommand u ≤ 0 → RemainingContent u ≤ 0 → l ≠ [] → len l ≤ RemainingPadding u →
  feed u (l ++ bs) = continue feed [] (set_padding u (RemainingPadding u - len l)) bs.
Proof.
  induction l as [|c l IH]; intros u bs Hc Ht Hl Hn; [done|]. cbn [app]. rewrite feed_cons. unfold byte_step.
  rewrite len_cons in Hn. pose proof (len_nonneg l) as Hp.
  rewrite (decide_False (P := RemainingCommand u > 0)) by lia. rewrite (decide_False (P := RemainingContent u > 0)) by lia. cbn [fst snd].
  destruct l as [|d l].
  - rewrite len_cons, len_nil. unfold set_padding. cbn [app]. replace (1 + 0) with 1 by lia. done.
  - assert (Hd : block_done (set_padding u (RemainingPadding u - 1)) = false).
    { apply live_iff. right. right. cbn. rewrite len_cons in *. pose proof (len_nonneg l). lia. }
    unfold continue at 1. unfold set_padding in Hd. rewrite Hd. fold (set_padding u (RemainingPadding u - 1)).
    rewrite IH; [|done|done|done|cbn; lia]. rewrite prepend_nil. unfold set_padding. cbn [RemainingCommand RemainingContent RemainingPadding CurrentCommand].
    f_equal. f_equal. rewrite !len_cons. lia.
Qed.

(** *** Pieces *)

Definition ended (u : Unpad) : Prop := ∃ cc, cc ≠ 0 ∧ u = initial_unpad cc.

Lemma feed_result bs : ∀ u, live u → live (feed u bs).2 ∨ ended (feed u bs).2.
Proof.
  induction bs as [|c bs IH]; intros u Hu; [by left|]. rewrite feed_cons. unfold continue.
  destruct (block_done _) eqn:E; [case_decide as Hc|]; cbn [prepend snd]; [by apply IH|right; by exists (CurrentCommand (byte_step u c).2)|by apply IH].
Qed.

Lemma ended_not_live u : ended u → ¬ live u.
Proof. intros (cc & _ & ->) H%live_iff. cbn in H. lia. Qed.
Lemma ended_initial u : ended u → is_initial u = true.
Proof. by intros (cc & _ & ->). Qed.
Lemma live_not_initial u : live u → is_initial u = false.
Proof.
  intros H%live_iff. unfold is_initial. rewrite !andb_false_iff, !bool_decide_eq_false. lia.
Qed.

(** What the next bytes add. *)
Definition resume (r : list byte * Unpad) (bs : list byte) : list byte * Unpad :=
  if is_initial r.2 then (r.1 ++ bs, r.2) else prepend r.1 (feed r.2 bs).

Lemma feed_app a : ∀ u b, live u → feed u (a ++ b) = resume (feed u a) b.
Proof.
  induction a as [|c a IH]; intros u b Hu.
  { cbn [app feed]. unfold resume. cbn [fst snd]. rewrite live_not_initial by done. by rewrite prepend_nil. }
  cbn [app]. rewrite !feed_cons. unfold continue. destruct (block_done _) eqn:E; [case_decide as Hc|].
  - rewrite IH by done. unfold resume. cbn [prepend fst snd]. destruct (is_initial _); unfold prepend; cbn [fst snd]; by rewrite app_assoc.
  - unfold resume. cbn [fst snd is_initial initial_unpad]. unfold is_initial. cbn. by rewrite app_assoc.
  - rewrite IH by done. unfold resume. cbn [prepend fst snd]. destruct (is_initial _); unfold prepend; cbn [fst snd]; by rewrite app_assoc.
Qed.

(** *** Blocks *)

Record Block := mkBlock { bl_command : byte; bl_content : list byte; bl_padding : list byte }.
Definition block_header (k : Block) : list byte := bl_command k :: put_be16 (len (bl_content k)) ++ put_be16 (len (bl_padding k)).
Definition block_bytes (k : Block) : list byte := block_header k ++ bl_content k ++ bl_padding k.
Definition block_ok (k : Block) : Prop := len (bl_content k) < 65536 ∧ len (bl_padding k) < 65536.
Definition blocks_bytes (ks : list Block) : list byte := concat (block_bytes <$> ks).
Definition blocks_content (ks : list Block) : list byte := concat (bl_content <$> ks).
Definition plain (k : Block) : Prop := block_ok k ∧ bl_command k = CommandPaddingContinue.

Lemma be16_lor z : is_u16 z → Z.lor (Z.shiftl (byte_to_Z (byte_of_Z (Z.shiftr z 8))) 8) (byte_to_Z (byte_of_Z z)) = z.
Proof.
  intros H. pose proof (be16_put z [] H) as E. cbn in E. injection E as E. by rewrite Z.lor_comm.
Qed.

Lemma feed_head_byte u c bs : 1 < RemainingCommand u → feed u (c :: bs) = feed (header_byte u c) bs.
Proof.
  intros H. rewrite feed_cons. unfold byte_step. rewrite decide_True by lia. unfold continue. cbn [fst snd].
  rewrite (proj2 (live_iff (header_byte u c))); [apply prepend_nil|]. left.
  unfold header_byte. destruct u as [rc ct pd cc]. cbn in *. repeat case_decide; cbn; lia.
Qed.

Lemma feed_header u k bs : RemainingCommand u = 5 → block_ok k →
  feed u (block_header k ++ bs) =
  continue feed [] (mkUnpad 0 (len (bl_content k)) (len (bl_padding k)) (byte_to_Z (bl_command k))) bs.
Proof.
  intros H5 [Hc Hp]. destruct u as [rc ct pd cc]. cbn in H5. subst rc.
  unfold block_header, put_be16. cbn [app]. pose proof (len_nonneg (bl_content k)). pose proof (len_nonneg (bl_padding k)).
  rewrite feed_head_byte by done. change (header_byte _ _) with (mkUnpad 4 ct pd (byte_to_Z (bl_command k))).
  rewrite feed_head_byte by done. set (h := byte_of_Z (Z.shiftr (len (bl_content k)) 8)).
  change (header_byte _ h) with (mkUnpad 3 (Z.shiftl (byte_to_Z h) 8) pd (byte_to_Z (bl_command k))).
  rewrite feed_head_byte by done. set (l := byte_of_Z (len (bl_content k))).
  change (header_byte _ l) with (mkUnpad 2 (Z.lor (Z.shiftl (byte_to_Z h) 8) (byte_to_Z l)) pd (byte_to_Z (bl_command k))).
  subst h l. rewrite be16_lor by (unfold is_u16; lia). rewrite feed_head_byte by done. set (h := byte_of_Z (Z.shiftr (len (bl_padding k)) 8)).
  change (header_byte _ h) with (mkUnpad 1 (len (bl_content k)) (Z.shiftl (byte_to_Z h) 8) (byte_to_Z (bl_command k))).
  rewrite feed_cons. set (l := byte_of_Z (len (bl_padding k))).
  change (byte_step _ l) with (@nil byte, mkUnpad 0 (len (bl_content k)) (Z.lor (Z.shiftl (byte_to_Z h) 8) (byte_to_Z l)) (byte_to_Z (bl_command k))).
  subst h l. by rewrite be16_lor by (unfold is_u16; lia).
Qed.

Lemma feed_block u k bs : RemainingCommand u = 5 → block_ok k →
  feed u (block_bytes k ++ bs) =
  if decide (bl_command k = CommandPaddingContinue) then prepend (bl_content k) (feed (mkUnpad 5 0 0 0) bs)
  else (bl_content k ++ bs, initial_unpad (byte_to_Z (bl_command k))).
Proof.
  intros H5 Hk. unfold block_bytes. rewrite <- !app_assoc, feed_header by done.
  set (cmd := byte_to_Z (bl_command k)).
  assert (Hcmd : cmd = 0 ↔ bl_command k = CommandPaddingContinue).
  { unfold cmd. split; [intros E|by intros ->]. by apply byte_to_Z_inj. }
  assert (Hpad : continue feed (bl_content k) (mkUnpad 0 0 (len (bl_padding k)) cmd) (bl_padding k ++ bs) =
    (if decide (cmd = 0) then prepend (bl_content k) (feed (mkUnpad 5 0 0 0) bs) else (bl_content k ++ bs, initial_unpad cmd))).
  { destruct (bl_padding k) as [|p ps] eqn:Ep.
    - cbn [app]. unfold continue, next_block. cbn. case_decide as E; [by rewrite E|done].
    - unfold continue at 1. rewrite (proj2 (live_iff _)) by (right; right; cbn; rewrite len_cons; pose proof (len_nonneg ps); lia).
      rewrite feed_padding; [|cbn; lia|cbn; lia|done|cbn; lia]. rewrite continue_prepend, app_nil_r. cbn [RemainingPadding].
      rewrite Z.sub_diag. unfold set_padding. cbn [RemainingCommand RemainingContent CurrentCommand].
      unfold continue, next_block. cbn. case_decide as E; [by rewrite E|done]. }
  assert (Hall : continue feed [] (mkUnpad 0 (len (bl_content k)) (len (bl_padding k)) cmd) (bl_content k ++ bl_padding k ++ bs) =
    (if decide (cmd = 0) then prepend (bl_content k) (feed (mkUnpad 5 0 0 0) bs) else (bl_content k ++ bs, initial_unpad cmd))).
  { destruct (bl_content k) as [|c cs] eqn:Ec; [done|].
    unfold continue at 1. rewrite (proj2 (live_iff _)) by (right; left; cbn; rewrite len_cons; pose proof (len_nonneg cs); lia).
    rewrite feed_content; [|cbn; lia|done|cbn; lia]. rewrite continue_prepend. cbn [RemainingContent app].
    rewrite Z.sub_diag. done. }
  rewrite Hall. case_decide as E1; case_decide as E2; [done|by apply Hcmd in E1|by apply Hcmd in E2|done].
Qed.

(** The counters before the first and between later blocks. *)
Definition between (u : Unpad) (ks : list Block) : Unpad := match ks with [] => u | _ => mkUnpad 5 0 0 0 end.

Lemma feed_blocks ks : ∀ u bs, RemainingCommand u = 5 → Forall plain ks →
  feed u (blocks_bytes ks ++ bs) = prepend (blocks_content ks) (feed (between u ks) bs).
Proof.
  induction ks as [|k ks IH]; intros u bs H5 Hks; [by rewrite prepend_nil|].
  apply Forall_cons_1 in Hks as [[Hk Hc] Hks]. unfold blocks_bytes, blocks_content. cbn [fmap list_fmap concat between].
  fold (blocks_bytes ks) (blocks_content ks). rewrite <- app_assoc, feed_block by done. rewrite decide_True by done.
  rewrite IH by done. rewrite prepend_prepend. f_equal. by destruct ks.
Qed.

(** A closing block ends the blocks; what follows is not padded. *)
Definition closing (k : Block) : Prop := block_ok k ∧ bl_command k ≠ CommandPaddingContinue.
Definition framed (ks : list Block) (last : option Block) (tail : list byte) : list byte :=
  blocks_bytes ks ++ match last with None => [] | Some k => block_bytes k ++ tail end.
Definition framed_content (ks : list Block) (last : option Block) (tail : list byte) : list byte :=
  blocks_content ks ++ match last with None => [] | Some k => bl_content k ++ tail end.
Definition framed_end (u : Unpad) (ks : list Block) (last : option Block) : Unpad :=
  match last with None => between u ks | Some k => initial_unpad (byte_to_Z (bl_command k)) end.
Definition framing (ks : list Block) (last : option Block) (tail : list byte) : Prop :=
  Forall plain ks ∧ match last with None => tail = [] | Some k => closing k end.

Lemma feed_framed u ks last tail : RemainingCommand u = 5 → framing ks last tail →
  feed u (framed ks last tail) = (framed_content ks last tail, framed_end u ks last).
Proof.
  intros H5 [Hks Hl]. unfold framed, framed_content, framed_end. rewrite feed_blocks by done.
  destruct last as [k|]; [|done].
  destruct Hl as [Hk Hc]. rewrite feed_block; [|by destruct ks|done]. by rewrite decide_False by done.
Qed.

(** *** Where a piece may end *)

(** Once the command of a closing block is read, it stays, until the block ends. *)
Lemma feed_stuck bs : ∀ u m, CurrentCommand u ≠ 0 → RemainingCommand u ≤ m → m < 5 → 0 ≤ m →
  CurrentCommand (feed u bs).2 = CurrentCommand u ∧ RemainingCommand (feed u bs).2 ≤ m.
Proof.
  induction bs as [|c bs IH]; intros u m Hc Hm H5 H0; [done|]. rewrite feed_cons.
  assert (Hs : CurrentCommand (byte_step u c).2 = CurrentCommand u ∧ RemainingCommand (byte_step u c).2 ≤ m).
  { unfold byte_step, header_byte. destruct u as [rc ct pd cc]. cbn in *. repeat case_decide; cbn; lia. }
  destruct Hs as [Hs Hr]. unfold continue. destruct (block_done _).
  - rewrite decide_False by congruence. cbn. split; [done|lia].
  - cbn [prepend snd]. rewrite <- Hs. apply IH; [congruence|done|done|done].
Qed.

Lemma feed_command bs : ∀ u, live u → RemainingCommand u ≤ 5 → (RemainingCommand u = 5 → CurrentCommand u = 0) →
  RemainingCommand (feed u bs).2 ≤ 5 ∧ (RemainingCommand (feed u bs).2 = 5 → CurrentCommand (feed u bs).2 = 0).
Proof.
  induction bs as [|c bs IH]; intros u Hl H5 Hc; [done|]. rewrite feed_cons.
  assert (Hs : RemainingCommand (byte_step u c).2 < 5).
  { unfold byte_step, header_byte. destruct u as [rc ct pd cc]. cbn in *. repeat case_decide; cbn; try lia. }
  unfold continue. destruct (block_done _) eqn:E; [case_decide as Hd|]; cbn [prepend snd].
  - by apply IH.
  - cbn. lia.
  - apply IH; [done|lia|lia].
Qed.

Lemma closing_state ks k tail p q u : RemainingCommand u = 5 → CurrentCommand u = 0 → framing ks (Some k) tail →
  framed ks (Some k) tail = p ++ q →
  len p ≤ len (blocks_bytes ks) ∨ len (blocks_bytes ks) + 5 ≤ len p →
  CurrentCommand (feed u p).2 = 0 ∨ RemainingCommand (feed u p).2 ≤ 0.
Proof.
  intros H5 H0 [Hks [Hk Hc]] Hw Hp.
  assert (Hu : live u) by (apply live_iff; lia).
  destruct Hp as [Hp|Hp].
  - (* the plain blocks give command 0, and from another command there is no way back *)
    left. destruct (decide (CurrentCommand (feed u p).2 = 0)) as [|Hn]; [done|exfalso].
    unfold framed in Hw. assert (Hpre : ∃ r, blocks_bytes ks = p ++ r).
    { exists (take (length (blocks_bytes ks) - length p) (drop (length p) (blocks_bytes ks))).
      assert (take (length p) (blocks_bytes ks) = p).
      { transitivity (take (length p) (blocks_bytes ks ++ block_bytes k ++ tail)).
        - rewrite take_app_le by (unfold len in *; lia). done.
        - rewrite Hw. apply take_app_length. }
      rewrite take_ge by (rewrite length_drop; lia). rewrite <- (take_drop (length p) (blocks_bytes ks)) at 1. by f_equal. }
    destruct Hpre as [r Hr].
    pose proof (feed_blocks ks u [] H5 Hks) as Hb. rewrite app_nil_r, Hr, feed_app in Hb by done. cbn [feed] in Hb.
    destruct (feed_command p u Hu ltac:(lia) (λ _, H0)) as [Hle H5'].
    unfold resume in Hb. destruct (is_initial (feed u p).2) eqn:Ei.
    + apply (f_equal (λ r, CurrentCommand r.2)) in Hb. cbn in Hb. rewrite Hb in Hn. destruct ks; cbn in Hn; congruence.
    + apply (f_equal (λ r, CurrentCommand r.2)) in Hb. cbn [prepend snd] in Hb.
      destruct (feed_stuck r (feed u p).2 (Z.max 0 (RemainingCommand (feed u p).2))) as [Hst _]; [done|lia| |lia|].
      { destruct (decide (RemainingCommand (feed u p).2 = 5)) as [E|]; [by apply H5' in E|lia]. }
      rewrite Hst in Hb. destruct ks; cbn in Hb; congruence.
  - (* past the header the remaining command is nought *)
    right. unfold framed in Hw. set (h := blocks_bytes ks ++ block_header k) in *.
    assert (Hlh : len h = len (blocks_bytes ks) + 5) by (unfold h; rewrite len_app; done).
    assert (Hpre : ∃ r, p = h ++ r).
    { exists (drop (length h) p). rewrite <- (take_drop (length h) p) at 1. f_equal.
      transitivity (take (length h) (p ++ q)); [by rewrite take_app_le by (unfold len in *; lia)|]. rewrite <- Hw.
      unfold block_bytes. rewrite <- !app_assoc, app_assoc. fold h. apply take_app_length. }
    destruct Hpre as [r ->]. unfold h. rewrite <- app_assoc, feed_blocks by done.
    rewrite feed_header; [|by destruct ks|done]. cbn [prepend snd]. unfold continue.
    destruct (block_done _); [rewrite decide_False|].
    + cbn. lia.
    + intros E. apply Hc. cbn in E. by apply byte_to_Z_inj.
    + cbn [prepend snd]. apply (feed_stuck r _ 0); cbn; try lia. intros E. apply Hc. by apply byte_to_Z_inj.
Qed.

(** *** Unpadding of buffers *)

(** A buffer as the readers of connections fill it. *)
Definition fresh (b : Buffer.t) : Prop := wf b ∧ start b = 0 ∧ len (Buffer.arr b) = Size.

Lemma Write_fits b data : wf b → len data ≤ room b → ∃ b' n e, Write b data = Ok (b', n, e)
  ∧ wf b' ∧ content b' = content b ++ data ∧ room b' = room b - len data ∧ len (Buffer.arr b') = len (Buffer.arr b) ∧ start b' = start b.
Proof.
  intros Hb Hd. destruct (Write_spec b data Hb) as (b' & E & Hw & Hc & Hr & Ha & _).
  rewrite take_ge in Hc, Hr, E by (unfold len in *; lia). exists b', (len data), (if decide (len data < len data) then Some ErrBufferFull else None).
  split; [done|]. split_and!; try done. revert E. unfold Write. case_decide; [|done]. destruct (copy_at _ _ _). by intros [= <- _ _].
Qed.

Section unpadding.
Context (pooled : list byte).

Lemma fresh_New : fresh (New pooled) ∧ room (New pooled) = Size.
Proof.
  assert (Ha : len (Buffer.arr (New pooled)) = Size).
  { unfold New, Buffer.arr, Size. cbn -[Z.to_nat replicate]. case_decide; len_lia. }
  split; [split; [apply wf_New|done]|]. unfold room. rewrite Ha. done.
Qed.

Lemma fresh_eq b b' : fresh b → wf b' → len (Buffer.arr b') = len (Buffer.arr b) → start b' = start b → fresh b'.
Proof. intros (_ & ? & ?) ? ? ?. split; [done|]. split; congruence. Qed.

(** One turn of the loop is [continue] on what it takes. *)
Lemma unpad_step_spec b nb u : wf b → wf nb → live u → content b ≠ [] → len (content b) ≤ room nb →
  ∃ b' nb' u' o, unpad_step b nb u = Ok (Some (b', nb', u')) ∧ wf b' ∧ wf nb' ∧
    feed u (content b) = continue feed o u' (content b') ∧ content nb' = content nb ++ o ∧
    len (content b') < len (content b) ∧ len (content b') ≤ room nb' ∧
    len (Buffer.arr nb') = len (Buffer.arr nb) ∧ start nb' = start nb.
Proof.
  intros Hb Hnb Hu Hne Hroom. unfold unpad_step. rewrite !Len_wf by done. pose proof (len_pos _ Hne) as Hpos.
  case_decide as Hc.
  - destruct (ReadByte_spec b Hb) as (b' & r & -> & Hb' & _ & Hr). destruct (content b) as [|c q] eqn:Ec; [done|].
    destruct Hr as [Hr ->]. cbn [mbind go_bind]. exists b', nb, (header_byte u c), []. rewrite app_nil_r, Hr. rewrite len_cons in *.
    split_and!; try done; try lia. rewrite feed_cons. unfold byte_step. by rewrite decide_True.
  - case_decide as Ht.
    + set (n := if decide (len (content b) < RemainingContent u) then len (content b) else RemainingContent u).
      assert (Hn : 0 < n ≤ len (content b) ∧ n ≤ RemainingContent u) by (unfold n; case_decide; lia).
      destruct (ReadBytes_spec b n Hb ltac:(lia)) as (b' & r & -> & Hb' & _ & Hr). rewrite decide_False in Hr by lia.
      destruct Hr as [Hr ->]. cbn [mbind go_bind]. set (o := take (Z.to_nat n) (content b)) in *.
      assert (Ho : len o = n) by (unfold o, len in *; rewrite length_take; lia).
      destruct (Write_fits nb o Hnb ltac:(lia)) as (nb' & ? & ? & -> & Hnb' & Hcn & Hrn & Ha & Hs). cbn [mbind go_bind].
      exists b', nb', (set_content u (RemainingContent u - n)), o. rewrite Hr, Hrn, Ho.
      assert (len (drop (Z.to_nat n) (content b)) = len (content b) - n) by (unfold len in *; rewrite length_drop; lia).
      split_and!; try done; try lia.
      rewrite <- (take_drop (Z.to_nat n) (content b)) at 1. fold o. rewrite feed_content; [by rewrite Ho|lia| |lia].
      intros E. apply (f_equal len) in E. rewrite Ho, len_nil in E. lia.
    + set (n := if decide (len (content b) < RemainingPadding u) then len (content b) else RemainingPadding u).
      apply live_iff in Hu. assert (Hn : 0 < n ≤ len (content b) ∧ n ≤ RemainingPadding u) by (unfold n; case_decide; lia).
      assert (Hst : start b + n < 2147483648) by (rewrite len_content in Hn by done; unfold wf in Hb; lia).
      destruct (Advance_spec b n Hb ltac:(lia) Hst) as (Hb' & Hr & _). exists (Advance b n), nb, (set_padding u (RemainingPadding u - n)), [].
      rewrite app_nil_r, Hr. set (o := take (Z.to_nat n) (content b)).
      assert (Ho : len o = n) by (unfold o, len in *; rewrite length_take; lia).
      assert (len (drop (Z.to_nat n) (content b)) = len (content b) - n) by (unfold len in *; rewrite length_drop; lia).
      split_and!; try done; try lia.
      rewrite <- (take_drop (Z.to_nat n) (content b)) at 1. fold o. rewrite feed_padding; [by rewrite Ho|lia|lia| |lia].
      intros E. apply (f_equal len) in E. rewrite Ho, len_nil in E. lia.
Qed.

Lemma unpad_loop_spec fuel : ∀ b nb u, wf b → fresh nb → live u → len (content b) < Z.of_nat fuel → len (content b) ≤ room nb →
  ∃ nb', unpad_loop fuel b nb u = Ok (nb', (feed u (content b)).2) ∧ fresh nb' ∧ content nb' = content nb ++ (feed u (content b)).1.
Proof.
  induction fuel as [|fuel IH]; intros b nb u Hb Hf Hu Hlen Hroom; [pose proof (len_nonneg (content b)); lia|].
  cbn [unpad_loop]. rewrite Len_wf by done. pose proof Hf as (Hnb & _ & _). case_decide as Hd.
  - destruct (unpad_step_spec b nb u) as (b' & nb' & u' & o & -> & Hb' & Hnb' & Hfe & Hcn & Hlt & Hr & Ha & Hs); [done..| |done|].
    { intros E. rewrite E, len_nil in Hd. lia. }
    cbn [mbind go_bind]. rewrite Hfe. assert (Hf' : fresh nb') by by eapply fresh_eq. unfold continue.
    assert (Hrec : ∀ v, live v → ∃ nb'', unpad_loop fuel b' nb' v = Ok (nb'', (prepend o (feed v (content b'))).2) ∧ fresh nb'' ∧
      content nb'' = content nb ++ (prepend o (feed v (content b'))).1).
    { intros v Hv. destruct (IH b' nb' v) as (nb'' & -> & ? & Hc''); [done..|lia|done|]. exists nb''. split; [done|]. split; [done|].
      cbn [prepend fst]. by rewrite Hc'', Hcn, app_assoc. }
    destruct (block_done u') eqn:Ed; [case_decide as Hcc|by apply Hrec].
    + apply (Hrec (next_block u') (live_next u')).
    + rewrite Len_wf by done. case_decide as Hl.
      * rewrite Bytes_wf by done. cbn [mbind go_bind]. destruct (Write_fits nb' (content b') Hnb' Hr) as (nb'' & ? & ? & -> & Hnb'' & Hc'' & _ & Ha' & Hs').
        cbn [mbind go_bind]. exists nb''. split; [done|]. split; [by eapply fresh_eq|]. cbn [fst]. by rewrite Hc'', Hcn, app_assoc.
      * cbn [mbind go_bind]. exists nb'. split; [done|]. split; [done|]. cbn [fst]. rewrite Hcn.
        assert (content b' = []) as -> by (apply len_0_nil; pose proof (len_nonneg (content b')); lia). by rewrite app_nil_r.
  - assert (content b = []) as -> by (apply len_0_nil; pose proof (len_nonneg (content b)); lia).
    exists nb. cbn [feed fst snd]. by rewrite app_nil_r.
Qed.

(** One buffer, by its bytes. *)
Definition opens (uuid c : list byte) : Prop := 21 ≤ len c ∧ take 16 c = uuid.
#[export] Instance opens_dec uuid c : Decision (opens uuid c).
Proof. unfold opens. apply _. Defined.
Definition piece_feed (uuid : list byte) (u : Unpad) (c : list byte) : list byte * Unpad :=
  if is_initial u then if decide (opens uuid c) then feed (next_block u) (drop 16 c) else (c, u) else feed u c.

Lemma XtlsUnpadding_spec uuid b u : fresh b → live u ∨ is_initial u = true →
  ∃ nb, XtlsUnpadding pooled uuid b u = Ok (nb, (piece_feed uuid u (content b)).2) ∧ fresh nb ∧ content nb = (piece_feed uuid u (content b)).1.
Proof.
  intros Hfb Hu. pose proof Hfb as (Hb & Hs & Ha). destruct fresh_New as [HfN HrN].
  assert (Hlen : len (content b) ≤ Size) by (rewrite len_content by done; unfold wf in Hb; lia).
  assert (Hgo : ∀ b' v, wf b' → live v → len (content b') ≤ Size → ∃ nb, unpad_loop (S (Z.to_nat (Buffer.Len b'))) b' (New pooled) v
      = Ok (nb, (feed v (content b')).2) ∧ fresh nb ∧ content nb = (feed v (content b')).1).
  { intros b' v Hb' Hv Hl. destruct (unpad_loop_spec (S (Z.to_nat (Buffer.Len b'))) b' (New pooled) v) as (nb & -> & ? & Hc); [done..| |lia|].
    - rewrite Len_wf by done. pose proof (len_nonneg (content b')). lia.
    - exists nb. by rewrite content_New in Hc. }
  unfold XtlsUnpadding, piece_feed. destruct (is_initial u) eqn:Ei.
  - rewrite !Len_wf by done. destruct (decide (opens uuid (content b))) as [[Hl Hh]|Hno].
    + rewrite decide_True by lia. rewrite BytesTo_spec by (done || lia). cbn [mbind go_bind].
      rewrite !bool_decide_eq_true_2; [|done|lia]. cbn [andb]. destruct (Advance_spec b 16 Hb) as (Hb' & Hc' & _); [lia|unfold wf, Size in *; lia|].
      fold (next_block u). destruct (Hgo (Advance b 16) (next_block u)) as (nb & -> & ? & ?); [done..| |].
      * rewrite Hc'. unfold len in *. rewrite length_drop. lia.
      * exists nb. change (Z.to_nat 16) with 16%nat in Hc'. by rewrite <- Hc'.
    + exists b. destruct (decide (len (content b) >= 21)) as [Hl|Hl].
      * rewrite BytesTo_spec by (done || lia). cbn [mbind go_bind]. rewrite (bool_decide_eq_false_2 (uuid = _)); [by rewrite andb_false_r|].
        intros E. apply Hno. split; [lia|by symmetry].
      * cbn [mbind go_bind]. by rewrite bool_decide_eq_false_2 by lia.
  - apply Hgo; [done| |done]. destruct Hu as [|Hu]; [done|congruence].
Qed.

Fixpoint pieces_feed (uuid : list byte) (u : Unpad) (cs : list (list byte)) : list byte * Unpad :=
  match cs with [] => ([], u) | c :: cs => prepend (piece_feed uuid u c).1 (pieces_feed uuid (piece_feed uuid u c).2 cs) end.

Lemma piece_state uuid u c : live u ∨ is_initial u = true → live (piece_feed uuid u c).2 ∨ is_initial (piece_feed uuid u c).2 = true.
Proof.
  intros Hu. assert (Hf : ∀ v bs, live v → live (feed v bs).2 ∨ is_initial (feed v bs).2 = true).
  { intros v bs Hv. destruct (feed_result bs v Hv) as [|He]; [by left|right; by apply ended_initial]. }
  unfold piece_feed. destruct (is_initial u) eqn:E; [|by destruct Hu; [apply Hf|]]. case_decide; [by apply Hf|by right].
Qed.

Lemma unpad_buffers_spec uuid mb : ∀ u, Forall fresh mb → live u ∨ is_initial u = true →
  ∃ mb2, unpad_buffers pooled uuid mb u = Ok (mb2, (pieces_feed uuid u (content <$> mb)).2) ∧ Forall fresh mb2 ∧
    mcontent mb2 = (pieces_feed uuid u (content <$> mb)).1.
Proof.
  induction mb as [|b mb IH]; intros u Hmb Hu; [by exists []|]. apply Forall_cons_1 in Hmb as [Hb Hmb]. cbn [unpad_buffers].
  destruct (XtlsUnpadding_spec uuid b u Hb Hu) as (nb & -> & Hnb & Hc). cbn [mbind go_bind].
  destruct (IH _ Hmb (piece_state uuid u (content b) Hu)) as (mb2 & -> & Hmb2 & Hc2). cbn [mbind go_bind].
  rewrite Len_wf by apply Hnb. eexists. split; [reflexivity|]. cbn [pieces_feed fmap list_fmap prepend fst]. rewrite <- Hc, <- Hc2. case_decide as Hd.
  - split; [by apply Forall_cons_2|]. by rewrite mcontent_cons.
  - split; [done|]. by rewrite (len_0_nil (content nb)) by (pose proof (len_nonneg (content nb)); lia).
Qed.

Lemma pieces_initial uuid cs : ∀ u, is_initial u = true → Forall (λ c, ¬ opens uuid c) cs → pieces_feed uuid u cs = (concat cs, u).
Proof.
  induction cs as [|c cs IH]; intros u Hu Hcs; [done|]. apply Forall_cons_1 in Hcs as [Hc Hcs]. cbn [pieces_feed concat].
  unfold piece_feed. rewrite Hu, decide_False by done. cbn [fst snd]. by rewrite IH by done.
Qed.

(** The pieces do not matter. *)
Lemma pieces_live uuid cs : ∀ u, live u → Forall (λ c, ¬ opens uuid c) cs → pieces_feed uuid u cs = feed u (concat cs).
Proof.
  induction cs as [|c cs IH]; intros u Hu Hcs; [done|]. apply Forall_cons_1 in Hcs as [Hc Hcs]. cbn [pieces_feed concat].
  rewrite feed_app by done. unfold piece_feed, resume. rewrite live_not_initial by done.
  destruct (feed_result c u Hu) as [Hl|He].
  - rewrite IH by done. by rewrite live_not_initial by done.
  - rewrite (ended_initial _ He), pieces_initial by (by apply ended_initial || done). done.
Qed.

Lemma pieces_open uuid c cs p : length uuid = 16%nat → c ++ concat cs = uuid ++ p → 21 ≤ len c → Forall (λ c, ¬ opens uuid c) cs →
  pieces_feed uuid (initial_unpad 0) (c :: cs) = feed (mkUnpad 5 (-1) (-1) 0) p.
Proof.
  intros H16 Hw Hl Hcs. assert (Hc : take 16 c = uuid ∧ drop 16 c ++ concat cs = p).
  { split.
    - transitivity (take 16 (c ++ concat cs)); [by rewrite take_app_le by (unfold len in *; lia)|]. rewrite Hw. rewrite <- H16. apply take_app_length.
    - transitivity (drop 16 (c ++ concat cs)); [by rewrite drop_app_le by (unfold len in *; lia)|]. rewrite Hw. rewrite <- H16. apply drop_app_length. }
  destruct Hc as [Ht Hd]. cbn [pieces_feed]. unfold piece_feed at 1 2. cbn [is_initial initial_unpad]. unfold is_initial. cbn [RemainingCommand RemainingContent RemainingPadding bool_decide andb].
  rewrite decide_True by done. set (u0 := next_block (initial_unpad 0)). change (mkUnpad 5 (-1) (-1) 0) with u0. rewrite <- Hd, feed_app by apply live_next.
  destruct (feed_result (drop 16 c) u0 (live_next _)) as [Hl'|He]; unfold resume.
  - rewrite live_not_initial by done. by rewrite pieces_live by done.
  - rewrite ended_initial by done. rewrite pieces_initial by (by apply ended_initial || done). done.
Qed.

End unpadding.

(** *** Where the closing block ends *)

Lemma feed_in_header bs : ∀ u, len bs < RemainingCommand u → live (feed u bs).2.
Proof.
  induction bs as [|c bs IH]; intros u H; [apply live_iff; rewrite len_nil in H; left; cbn; lia|].
  rewrite len_cons in H. pose proof (len_nonneg bs). rewrite feed_head_byte by lia. apply IH.
  unfold header_byte. destruct u as [rc ct pd cc]. cbn in *. repeat case_decide; cbn; lia.
Qed.

Lemma feed_in_body bs : ∀ u, RemainingCommand u ≤ 0 → 0 ≤ RemainingContent u → 0 ≤ RemainingPadding u →
  len bs < RemainingContent u + RemainingPadding u → live (feed u bs).2.
Proof.
  induction bs as [|c bs IH]; intros u Hc Ht Hp H; [apply live_iff; rewrite len_nil in H; cbn; lia|].
  rewrite len_cons in H. pose proof (len_nonneg bs). rewrite feed_cons. unfold byte_step. rewrite decide_False by lia.
  case_decide as Hd; cbn [fst snd]; unfold continue; rewrite (proj2 (live_iff _)) by (cbn; lia); cbn [prepend snd]; apply IH; cbn; lia.
Qed.

Lemma len_block k : len (block_bytes k) = 5 + len (bl_content k) + len (bl_padding k).
Proof. unfold block_bytes, block_header, put_be16. cbn [app]. rewrite !len_cons, !len_app. lia. Qed.

Definition u0 : Unpad := mkUnpad 5 (-1) (-1) 0.

Lemma take_prefix {A} (a b p q : list A) : a ++ b = p ++ q → len a ≤ len p → ∃ r, p = a ++ r ∧ b = r ++ q.
Proof.
  intros E Hl. exists (drop (length a) p). assert (Ha : take (length a) p = a).
  { transitivity (take (length a) (p ++ q)); [by rewrite take_app_le by (unfold len in *; lia)|]. rewrite <- E. apply take_app_length. }
  assert (Hp : p = a ++ drop (length a) p) by (rewrite <- (take_drop (length a) p) at 1; by rewrite Ha).
  split; [done|]. rewrite Hp, <- app_assoc in E. by apply app_inv_head in E.
Qed.

(** Unpadding is over only behind the closing block. *)
Lemma closing_end ks k tail p q : framing ks (Some k) tail → framed ks (Some k) tail = p ++ q → ended (feed u0 p).2 →
  len (blocks_bytes ks) + len (block_bytes k) ≤ len p.
Proof.
  intros Hfr Hw He. pose proof Hfr as [Hks [Hk Hc]]. assert (Hnl : ¬ live (feed u0 p).2) by by apply ended_not_live.
  destruct (decide (len p < len (blocks_bytes ks))) as [Hp|Hp].
  { destruct He as (cc & Hcc & Eu). destruct (closing_state ks k tail p q u0) as [E|E]; try done; [lia|rewrite Eu in E; cbn in E; congruence|].
    exfalso. pose proof (feed_command p u0 ltac:(apply live_iff; cbn; lia) ltac:(cbn; lia) (λ _, eq_refl)) as _.
    assert (Hpre : ∃ r, blocks_bytes ks = p ++ r).
    { symmetry in Hw. unfold framed in Hw. destruct (take_prefix p q (blocks_bytes ks) _ Hw) as (r & ? & _); [lia|by exists r]. }
    destruct Hpre as [r Hr]. pose proof (feed_blocks ks u0 [] eq_refl Hks) as Hb. rewrite app_nil_r, Hr, feed_app in Hb by (apply live_iff; cbn; lia).
    unfold resume in Hb. rewrite ended_initial in Hb by (by exists cc). apply (f_equal (λ r, RemainingCommand r.2)) in Hb.
    rewrite Eu in Hb. cbn in Hb. destruct ks; cbn in Hb; lia. }
  unfold framed in Hw. destruct (take_prefix _ _ _ _ Hw) as (p2 & -> & Hw2); [lia|]. rewrite len_app in *.
  rewrite feed_blocks in Hnl by done. cbn [prepend snd] in Hnl. set (u1 := between u0 ks) in *.
  assert (H5 : RemainingCommand u1 = 5) by (unfold u1; by destruct ks).
  destruct (decide (len p2 < 5)) as [H2|H2]; [exfalso; apply Hnl, feed_in_header; lia|].
  unfold block_bytes in Hw2. rewrite <- app_assoc in Hw2. destruct (take_prefix _ _ _ _ Hw2) as (p3 & -> & Hw3); [change (len (block_header k)) with 5; lia|].
  rewrite feed_header in Hnl by done. pose proof (len_nonneg (bl_content k)). pose proof (len_nonneg (bl_padding k)). rewrite len_block. rewrite len_app. change (len (block_header k)) with 5.
  destruct (decide (len p3 < len (bl_content k) + len (bl_padding k))) as [H3|]; [exfalso|lia].
  apply Hnl. unfold continue. pose proof (len_nonneg p3). rewrite (proj2 (live_iff _)) by (cbn; lia). cbn [prepend snd]. apply feed_in_body; cbn; lia.
Qed.

(** ** Recognising TLS does not panic and keeps the links *)

(** Direct copy is enabled only for a TLS 1.3 handshake. *)
Definition xtls_ok (ts : TrafficState) : Prop :=
  (EnableXtls ts = true ∨ 0 < RemainingServerHello ts) → IsTLS12orAbove ts = true ∧ IsTLS ts = true.
Definition same_links (ts ts' : TrafficState) : Prop :=
  UserUUID ts' = UserUUID ts ∧ Inbound ts' = Inbound ts ∧ Outbound ts' = Outbound ts.

Lemma same_links_refl ts : same_links ts ts.
Proof. done. Qed.
Lemma same_links_trans a b c : same_links a b → same_links b c → same_links a c.
Proof. unfold same_links. intros (-> & -> & ->) (-> & -> & ->). done. Qed.

Lemma filter_hello_spec b ts : fresh b → 6 ≤ len (content b) →
  ∃ ts', filter_hello b ts = Ok ts' ∧ same_links ts ts' ∧ (xtls_ok ts → xtls_ok ts').
Proof.
  intros (Hb & Hs & Ha) H6. unfold filter_hello. rewrite BytesTo_spec by (done || lia). cbn [mbind go_bind].
  destruct (content b) as [|b0 [|b1 [|b2 [|b3 [|b4 [|b5 rest]]]]]] eqn:Ec; try (unfold len in H6; cbn [length] in H6; lia).
  set (s6 := [b0; b1; b2; b3; b4; b5]). change (take (Z.to_nat 6) _) with s6. change (index s6 3) with (Some b3). change (index s6 4) with (Some b4). change (index s6 5) with (Some b5).
  cbn [ok_or_panic mbind go_bind]. destruct (andb _ _).
  - rewrite Len_wf by done. destruct (andb _ _) eqn:E.
    + apply andb_true_iff in E as [E _]. apply bool_decide_eq_true in E. rewrite len_content in E by done.
      assert (Hl : 79 ≤ end_ b) by lia. unfold Byte. rewrite Hs. rewrite i32_small by (unfold is_i32; lia). unfold index. rewrite decide_True by lia.
      destruct (Buffer.arr b !! Z.to_nat (0 + 43)) as [sid|] eqn:Esid.
      2: { apply lookup_ge_None in Esid. unfold len, Size in *. lia. }
      cbn [ok_or_panic mbind go_bind]. pose proof (byte_to_Z_range sid) as Hsid. unfold is_u8 in Hsid. unfold BytesRange, from_end. rewrite Hs.
      rewrite !decide_False by lia. rewrite !i32_small by (unfold is_i32; lia).
      rewrite slice_Some by (unfold Size in *; lia). cbn [ok_or_panic mbind go_bind].
      set (cs := take _ _). assert (Hcs : length cs = 2%nat).
      { unfold cs. rewrite length_take, length_drop. unfold len, Size in *. lia. }
      destruct cs as [|c0 [|c1 [|]]]; try done. eexists. split; [reflexivity|]. split; [done|]. by intros _ _.
    + eexists. split; [reflexivity|]. split; [done|]. by intros _ _.
  - destruct (andb _ _); (eexists; split; [reflexivity|]; split; [done|]); [|done].
    intros Hx Hy. cbn in *. split; [|done]. by apply Hx.
Qed.

Lemma XtlsFilterTls_spec mb : ∀ ts, Forall fresh (omap id mb) →
  ∃ ts', XtlsFilterTls mb ts = Ok ts' ∧ same_links ts ts' ∧ (xtls_ok ts → xtls_ok ts').
Proof.
  induction mb as [|[b|] mb IH]; intros ts Hmb; [by exists ts| |by apply IH].
  cbn [omap list_omap id] in Hmb. apply Forall_cons_1 in Hmb as [Hb Hmb]. cbn [XtlsFilterTls]. pose proof Hb as (Hwf & _ & _). rewrite !Len_wf by done.
  set (t1 := with_packets ts _).
  assert (Hh : ∃ t2, (if decide (len (content b) >= 6) then filter_hello b t1 else Ok t1) = Ok t2 ∧ same_links ts t2 ∧ (xtls_ok ts → xtls_ok t2)).
  { case_decide; [|by exists t1]. destruct (filter_hello_spec b t1 Hb) as (t2 & -> & Hl & Hx); [lia|]. exists t2. split; [done|]. split; [done|].
    intros H'. apply Hx. exact H'. }
  destruct Hh as (t2 & -> & Hl2 & Hx2). cbn [mbind go_bind]. case_decide as Hr.
  2: { destruct (IH t2 Hmb) as (t3 & -> & Hl3 & Hx3). exists t3. split; [done|]. split; [by eapply same_links_trans|]. by eauto. }
  set (e := if decide (RemainingServerHello t2 > len (content b)) then _ else _). pose proof (len_nonneg (content b)). assert (He : 0 ≤ e ≤ len (content b)) by (unfold e; case_decide; lia).
  rewrite BytesTo_spec by done. cbn [mbind go_bind]. set (t3 := with_hello t2 _).
  assert (Hx3 : xtls_ok ts → IsTLS12orAbove t2 = true ∧ IsTLS t2 = true) by (intros Hx; apply (Hx2 Hx); lia).
  destruct (Contains _ _).
  - eexists. split; [reflexivity|]. split; [by destruct (Tls13CipherSuiteDic _) as [[]|]|]. intros Hx _. apply Hx3 in Hx.
    by destruct (Tls13CipherSuiteDic _) as [[]|].
  - case_decide; [eexists; split; [reflexivity|]; split; [done|]; intros Hx _; by apply Hx3|].
    destruct (IH t3 Hmb) as (t4 & -> & Hl4 & Hx4). exists t4. split; [done|]. split; [by eapply same_links_trans|].
    intros Hx. apply Hx4. intros _. by apply Hx3.
Qed.
