(* ===== verification/VisionStream.v ===== *)
(** * XTLS Vision end to end

    What a Vision reader makes of the stream a Vision writer sends: the reader over any cutting
    of the stream, the writer's framing of any run of writes, and both together. *)

From S2P Require Import Prelude Net Buf StrMatcher Vision.
Import Buffer MultiBuffer.

#[local] Open Scope Z_scope.

(** ** The reader gives back the content *)

Section reader.
Context (pooled : list byte).

Fixpoint read_all (vr : VisionReader) (ts : TrafficState) (reads : list mbuf) : go (list byte * VisionReader * TrafficState) :=
  match reads with
  | [] => Ok ([], vr, ts)
  | mb :: reads =>
      '(out, _, vr, ts) ← Vision_ReadMultiBuffer pooled vr ts (mb, None) None;
      '(rest, vr, ts) ← read_all vr ts reads;
      Ok (mcontent out ++ rest, vr, ts)
  end.

(** The phases of a reader before direct copy. *)
Definition phase_ok (l : LinkState) : Prop :=
  ReaderDirectCopy l = false ∧
  (WithinPaddingBuffers l = true ∧ (live (unpad l) ∨ unpad l = initial_unpad 0) ∨
   WithinPaddingBuffers l = false ∧ unpad l = initial_unpad 1).

Lemma set_get_link up ts l : reader_link up (set_reader_link up ts l) = l.
Proof. by destruct ts, up. Qed.
Lemma same_links_get up ts ts' : same_links ts ts' → reader_link up ts' = reader_link up ts.
Proof. intros (_ & H1 & H2). by destruct up. Qed.

Lemma content_concat mb : concat (content <$> mb) = mcontent mb.
Proof. done. Qed.

Lemma merge_rest_spec buffer bs : ∃ mb, merge_rest pooled buffer (Some bs) = Ok mb ∧ mcontent mb = mcontent buffer ++ bs.
Proof.
  unfold merge_rest. cbn [ok_or_panic mbind go_bind]. unfold ReadFrom.
  destruct (ReadFrom_loop_spec pooled (S (length bs)) [] (mkStream bs EOF)) as (mb & E & Hw & Hc); [done|cbn; lia|].
  cbn [sdata serr] in *. rewrite E. cbn [mbind go_bind]. destruct (MultiBuffer.IsEmpty mb) eqn:Ei; eexists; (split; [reflexivity|]).
  - apply IsEmpty_spec in Ei; [|done]. rewrite Ei in Hc. change (mcontent []) with (@nil byte) in Hc. cbn [app] in Hc. subst bs. by rewrite app_nil_r.
  - cbn [MergeMulti fst]. rewrite mcontent_app, Hc. done.
Qed.

(** What one read does, up to the switch to direct copy. *)
Definition link_after (l : LinkState) (u : Unpad) : LinkState := after_unpadding l u.

Lemma unpadded_read uuid up ts mb : let l := reader_link up ts in
  UserUUID ts = uuid → phase_ok l → Forall fresh mb →
  (unpad l = initial_unpad 1 → Forall (λ c, ¬ opens uuid c) (content <$> mb)) →
  ∃ mb2 l', (if WithinPaddingBuffers l || bool_decide (NumberOfPacketToFilter ts > 0) then
         '(mb2, u) ← unpad_buffers pooled (UserUUID ts) mb (unpad l); Ok (mb2, set_reader_link up ts (after_unpadding l u))
       else Ok (mb, ts)) = Ok (mb2, set_reader_link up ts l') ∧
    Forall fresh mb2 ∧ mcontent mb2 = (pieces_feed uuid (unpad l) (content <$> mb)).1 ∧
    let u := (pieces_feed uuid (unpad l) (content <$> mb)).2 in
    (l' = after_unpadding l u ∨ (l' = l ∧ u = unpad l ∧ u = initial_unpad 1)).
Proof.
  intros l Hu [Hd Hph] Hmb Hop. assert (Hst : live (unpad l) ∨ is_initial (unpad l) = true).
  { destruct Hph as [[_ [|E]]|[_ E]]; [by left|right; by rewrite E|right; by rewrite E]. }
  destruct (WithinPaddingBuffers l || _) eqn:Ew.
  - rewrite Hu. destruct (unpad_buffers_spec pooled uuid mb (unpad l) Hmb Hst) as (mb2 & -> & Hf & Hc). cbn [mbind go_bind].
    exists mb2, (after_unpadding l (pieces_feed uuid (unpad l) (content <$> mb)).2). by eauto.
  - apply orb_false_iff in Ew as [Ew _]. destruct Hph as [[? _]|[_ E]]; [congruence|].
    exists mb, l. split; [|].
    { f_equal. f_equal. unfold l. by destruct ts, up. }
    rewrite pieces_initial by (by rewrite E || by apply Hop). split_and!; try done. right. done.
Qed.

Lemma pieces_empty uuid mb : ∀ u, mcontent mb = [] → pieces_feed uuid u (content <$> mb) = ([], u).
Proof.
  induction mb as [|b mb IH]; intros u Hm; [done|]. rewrite mcontent_cons in Hm. apply app_nil in Hm as [Hb Hm].
  cbn [fmap list_fmap pieces_feed]. rewrite Hb. unfold piece_feed. destruct (is_initial u).
  - rewrite decide_False by (intros [H _]; rewrite len_nil in H; lia). by rewrite IH.
  - by rewrite IH.
Qed.

(** A place where a piece may end. *)
Definition calm (u : Unpad) : Prop :=
  live u ∧ (CurrentCommand u = 0 ∨ RemainingCommand u ≤ 0) ∨ u = initial_unpad 0 ∨ u = initial_unpad 1.

Lemma after_calm l u : ReaderDirectCopy l = false → calm u → phase_ok (after_unpadding l u) ∧ unpad (after_unpadding l u) = u.
Proof.
  intros Hd Hc. unfold after_unpadding.
  assert (Hlive : (bool_decide (RemainingContent u > 0) || bool_decide (RemainingPadding u > 0) || bool_decide (CurrentCommand u = 0)) = true →
    live u ∨ u = initial_unpad 0 → phase_ok (mkLink true (ReaderDirectCopy l) u (IsPadding l) (WriterDirectCopy l))).
  { intros _ Hu. split; [done|]. left. done. }
  destruct (bool_decide _ || _ || _) eqn:E.
  - split; [|done]. apply Hlive; [done|]. destruct Hc as [[? _]|[?|Eu]]; [by left|by right|]. rewrite Eu in E. done.
  - destruct Hc as [[Hl Hc]|[Eu|Eu]]; [|by rewrite Eu in E|subst u].
    { exfalso. rewrite !orb_false_iff, !bool_decide_eq_false in E. apply live_iff in Hl. lia. }
    cbn. split; [split; [done|]|done]. right. done.
Qed.

Lemma after_direct l : after_unpadding l (initial_unpad 2) = mkLink false true (initial_unpad 2) (IsPadding l) (WriterDirectCopy l).
Proof. done. Qed.

Lemma read_step uuid vr ts mb input raw : let up := vr_isUplink vr in let l := reader_link up ts in
  UserUUID ts = uuid → phase_ok l → Forall fresh mb → vr_input vr = Some input → vr_rawInput vr = Some raw →
  (unpad l = initial_unpad 1 → Forall (λ c, ¬ opens uuid c) (content <$> mb)) →
  let '(o, u) := pieces_feed uuid (unpad l) (content <$> mb) in
  calm u ∨ u = initial_unpad 2 →
  ∃ out vr' ts', Vision_ReadMultiBuffer pooled vr ts (mb, None) None = Ok (out, None, vr', ts') ∧ UserUUID ts' = uuid ∧ vr_isUplink vr' = up ∧
    unpad (reader_link up ts') = u ∧
    (calm u → vr' = vr ∧ phase_ok (reader_link up ts') ∧ mcontent out = o) ∧
    (u = initial_unpad 2 → ReaderDirectCopy (reader_link up ts') = true ∧ vr_direct vr' = true ∧ mcontent out = o ++ input ++ raw).
Proof.
  intros up l Hu Hph Hmb Hin Hraw Hop. destruct (pieces_feed uuid (unpad l) (content <$> mb)) as [o u] eqn:Ep. intros Hend.
  assert (H2 : ¬ (calm u ∧ u = initial_unpad 2)).
  { intros [[[Hl%live_iff _]|[E|E]] ->]; [cbn in Hl; lia|done|done]. }
  assert (Hmw : Forall wf mb) by (eapply Forall_impl; [|exact Hmb]; by intros ? []).
  unfold Vision_ReadMultiBuffer. fold up l. destruct (MultiBuffer.IsEmpty mb) eqn:Ee.
  { apply IsEmpty_spec in Ee; [|done]. rewrite pieces_empty in Ep by done. injection Ep as <- <-.
    exists mb, vr, ts. split_and!; try done. intros E2. exfalso. destruct Hph as [_ [[_ [Hl%live_iff|E]]|[_ E]]]; rewrite E2 in *; [cbn in Hl; lia|done|done]. }
  pose proof Hph as [Hd _]. rewrite Hd. cbn zeta.
  destruct (unpadded_read uuid up ts mb Hu Hph Hmb Hop) as (mb2 & l' & Er & Hf2 & Hc2 & Hl'). fold l in Er, Hc2, Hl'. rewrite Ep in Hc2, Hl'. cbn [fst snd] in *.
  rewrite Er. cbn [mbind go_bind]. set (t1 := set_reader_link up ts l').
  assert (Hfil : ∃ t2, (if decide (NumberOfPacketToFilter t1 > 0) then XtlsFilterTls (Some <$> mb2) t1 else Ok t1) = Ok t2 ∧ same_links t1 t2).
  { destruct (decide (NumberOfPacketToFilter t1 > 0)); [|exists t1; split; [done|apply same_links_refl]]. destruct (XtlsFilterTls_spec (Some <$> mb2) t1) as (t2 & -> & Hs & _); [|by exists t2].
    assert (omap id (Some <$> mb2) = mb2) as ->; [|done]. clear. induction mb2; [done|]. cbn. by f_equal. }
  destruct Hfil as (t2 & -> & Hs2). cbn [mbind go_bind]. rewrite (same_links_get up _ _ Hs2). unfold t1 at 1. rewrite set_get_link.
  assert (Hu2 : UserUUID t2 = uuid) by (destruct Hs2 as (-> & _); unfold t1; rewrite <- Hu; by destruct ts, up).
  assert (Hlink : reader_link up t2 = l') by (rewrite (same_links_get up _ _ Hs2); apply set_get_link).
  destruct Hend as [Hcalm|E2].
  - assert (Hl2 : phase_ok l' ∧ unpad l' = u).
    { destruct Hl' as [->|(-> & -> & _)]; [by apply after_calm|done]. }
    destruct Hl2 as [Hl2 Hul]. rewrite (proj1 Hl2). exists mb2, vr, t2. rewrite Hlink. split_and!; try done. intros ->. by destruct H2.
  - destruct Hl' as [->|(_ & _ & E1)]; [|subst u; done]. subst u. rewrite after_direct in *. cbn [ReaderDirectCopy]. rewrite Hin, Hraw.
    destruct (merge_rest_spec mb2 input) as (mb3 & E3 & Hc3). rewrite E3. cbn [mbind go_bind].
    destruct (merge_rest_spec mb3 raw) as (mb4 & E4 & Hc4). rewrite E4. cbn [mbind go_bind].
    eexists _, _, t2. rewrite Hlink. split; [reflexivity|]. split_and!; try done.
    { intros Hx. by destruct H2. }
    intros _. split; [done|]. split; [done|]. by rewrite Hc4, Hc3, Hc2, app_assoc.
Qed.

Lemma read_direct vr : ∀ ts reads, ReaderDirectCopy (reader_link (vr_isUplink vr) ts) = true → vr_counter vr = None →
  read_all vr ts reads = Ok (concat (mcontent <$> reads), vr, ts).
Proof.
  intros ts reads Hd Hc. induction reads as [|mb reads IH]; [done|]. cbn [read_all]. unfold Vision_ReadMultiBuffer.
  assert (Hvr : mkReader (vr_isUplink vr) (vr_input vr) (vr_rawInput vr) (vr_inbound vr) (vr_ob vr)
    ((λ c, c + MultiBuffer.Len mb) <$> vr_counter vr) (vr_direct vr) = vr) by (destruct vr; cbn in *; by subst).
  destruct (MultiBuffer.IsEmpty mb).
  - cbn [mbind go_bind]. by rewrite IH.
  - rewrite Hd, Hvr. cbn [mbind go_bind]. by rewrite IH.
Qed.

(** The last block says that padding ends, or that the raw connection takes over, in which
    case nothing follows it. *)
Definition direct (last : option Block) : bool :=
  match last with Some k => bool_decide (bl_command k = CommandPaddingDirect) | None => false end.
Definition last_ok (last : option Block) (tail : list byte) : Prop :=
  match last with
  | Some k => bl_command k = CommandPaddingEnd ∨ (bl_command k = CommandPaddingDirect ∧ tail = [])
  | None => True
  end.
(** No read ends inside the header of the last block; [n] counts from behind the UUID. *)
Definition boundary_ok (ks : list Block) (last : option Block) (n : Z) : Prop :=
  match last with Some _ => n ≤ len (blocks_bytes ks) ∨ len (blocks_bytes ks) + 5 ≤ n | None => True end.

Lemma live_u0 : live u0.
Proof. apply live_iff. cbn. lia. Qed.

Lemma position_state ks last tail p q : framing ks last tail → last_ok last tail → framed ks last tail = p ++ q → boundary_ok ks last (len p) →
  calm (feed u0 p).2 ∨ ((feed u0 p).2 = initial_unpad 2 ∧ q = [] ∧ direct last = true).
Proof.
  intros Hfr Hlast Hw Hb. pose proof (feed_framed u0 ks last tail eq_refl Hfr) as Hall. rewrite Hw, feed_app in Hall by apply live_u0.
  destruct (feed_result p u0 live_u0) as [Hl|He].
  - left. left. split; [done|]. destruct last as [k|].
    + by eapply (closing_state ks k tail p q u0).
    + assert (Hend : framing ks (Some (mkBlock CommandPaddingEnd [] [])) []) by (destruct Hfr as [Hks _]; repeat split; done).
      apply (closing_state ks (mkBlock CommandPaddingEnd [] []) [] p (q ++ block_bytes (mkBlock CommandPaddingEnd [] [])) u0); [done..| |].
      * unfold framed in *. rewrite app_nil_r in Hw. by rewrite Hw, <- !app_assoc, app_nil_r.
      * left. unfold framed in Hw. rewrite app_nil_r in Hw. rewrite Hw, len_app. pose proof (len_nonneg q). lia.
  - unfold resume in Hall. rewrite ended_initial in Hall by done. injection Hall as _ Hu.
    destruct last as [k|]; cbn [framed_end] in Hu.
    2: { destruct He as (cc & Hcc & E). rewrite E in Hu. apply (f_equal RemainingCommand) in Hu. cbn in Hu. destruct ks; cbn in Hu; lia. }
    destruct Hlast as [Hk|[Hk Ht]].
    + left. right. right. by rewrite Hu, Hk.
    + right. split; [by rewrite Hu, Hk|]. split; [|cbn; by rewrite bool_decide_eq_true_2].
      pose proof (closing_end ks k tail p q Hfr Hw He) as Hlen. subst tail. unfold framed in Hw. rewrite app_nil_r in Hw.
      apply (f_equal len) in Hw. rewrite !len_app in Hw. apply len_0_nil. pose proof (len_nonneg q). lia.
Qed.

Lemma read_counter vr ts mb out e vr' ts' : vr_counter vr = None → Vision_ReadMultiBuffer pooled vr ts (mb, None) None = Ok (out, e, vr', ts') →
  vr_counter vr' = None.
Proof.
  intros Hc. unfold Vision_ReadMultiBuffer. destruct (MultiBuffer.IsEmpty mb); [by intros [= _ _ <- _]|].
  destruct (ReaderDirectCopy _); [intros [= _ _ <- _]; cbn; by rewrite Hc|].
  intros H. apply go_bind_ok in H as ([b1 t1] & _ & H). apply go_bind_ok in H as (t2 & _ & H). destruct (ReaderDirectCopy _).
  - apply go_bind_ok in H as (b2 & _ & H). apply go_bind_ok in H as (b3 & _ & H). by simplify_eq.
  - by simplify_eq.
Qed.

Lemma resume_pieces uuid u mb : live u ∨ u = initial_unpad 1 → Forall (λ c, ¬ opens uuid c) (content <$> mb) → ∀ o,
  resume (o, u) (mcontent mb) = prepend o (pieces_feed uuid u (content <$> mb)).
Proof.
  intros Hu Hop o. unfold resume. cbn [fst snd]. destruct Hu as [Hl| ->].
  - rewrite live_not_initial by done. by rewrite pieces_live by done.
  - by rewrite pieces_initial by done.
Qed.

Lemma reads_rest uuid ks last tail input raw : framing ks last tail → last_ok last tail → ∀ reads p vr ts,
  let up := vr_isUplink vr in
  UserUUID ts = uuid → phase_ok (reader_link up ts) → unpad (reader_link up ts) = (feed u0 p).2 →
  vr_input vr = Some input → vr_rawInput vr = Some raw → vr_counter vr = None →
  Forall (Forall fresh) reads → Forall (λ mb, Forall (λ c, ¬ opens uuid c) (content <$> mb)) reads →
  framed ks last tail = p ++ concat (mcontent <$> reads) →
  (∀ r1 r2, reads = r1 ++ r2 → boundary_ok ks last (len p + len (concat (mcontent <$> r1)))) →
  ∃ out vr' ts', read_all vr ts reads = Ok (out, vr', ts') ∧
    (feed u0 p).1 ++ out = framed_content ks last tail ++ (if direct last then input ++ raw else []) ∧
    ReaderDirectCopy (reader_link up ts') = direct last ∧ vr_isUplink vr' = up ∧ vr_counter vr' = None.
Proof.
  intros Hfr Hlast. induction reads as [|mb reads IH]; intros p vr ts up Hu Hph Hun Hin Hraw Hcnt Hfresh Hop Hw Hb.
  { cbn in Hw. rewrite app_nil_r in Hw. exists [], vr, ts. pose proof (feed_framed u0 ks last tail eq_refl Hfr) as Hf. rewrite Hw in Hf.
    rewrite Hf in Hun |- *. cbn [fst snd] in *. rewrite app_nil_r. destruct Hph as [Hd Hph]. rewrite Hd.
    assert (direct last = false) as ->.
    { destruct last as [k|]; [|done]. cbn. apply bool_decide_eq_false. intros Ek. cbn in Hun. rewrite Ek in Hun.
      rewrite Hun in Hph. destruct Hph as [[_ [Hl%live_iff|E]]|[_ E]]; [cbn in Hl; lia|done|done]. }
    rewrite app_nil_r. done. }
  apply Forall_cons_1 in Hfresh as [Hmb Hfresh]. apply Forall_cons_1 in Hop as [Hop1 Hop]. cbn [fmap list_fmap concat] in Hw.
  set (p' := p ++ mcontent mb). assert (Hw' : framed ks last tail = p' ++ concat (mcontent <$> reads)) by (unfold p'; by rewrite <- app_assoc).
  assert (Hv : live (feed u0 p).2 ∨ (feed u0 p).2 = initial_unpad 1).
  { destruct (feed_result p u0 live_u0) as [|He]; [by left|right]. rewrite <- Hun in He |- *. destruct Hph as [_ [[_ [Hl|E]]|[_ E]]]; [by apply ended_not_live in He| |done].
    destruct He as (cc & Hcc & E'). rewrite E in E'. injection E' as E'. congruence. }
  assert (Hp' : feed u0 p' = prepend (feed u0 p).1 (pieces_feed uuid (feed u0 p).2 (content <$> mb))).
  { unfold p'. rewrite feed_app by apply live_u0. rewrite <- (resume_pieces uuid) by done. by destruct (feed u0 p). }
  pose proof (read_step uuid vr ts mb input raw Hu Hph Hmb Hin Hraw (λ _, Hop1)) as Hstep. cbn zeta in Hstep. fold up in Hstep.
  rewrite Hun in Hstep. destruct (pieces_feed uuid (feed u0 p).2 (content <$> mb)) as [o u] eqn:Epf. unfold prepend in Hp'. cbn [fst snd] in Hp'.
  destruct (position_state ks last tail p' _ Hfr Hlast Hw') as [Hcalm|(E2 & Hq & Hdir)].
  { pose proof (Hb [mb] reads eq_refl) as Hb1. cbn in Hb1. rewrite app_nil_r in Hb1. unfold p'. by rewrite len_app. }
  - rewrite Hp' in Hcalm. cbn [snd] in Hcalm. destruct Hstep as (out & vr' & ts' & Er & Hu' & Hup' & Hun' & Hca & _); [by left|].
    destruct (Hca Hcalm) as (-> & Hph' & Ho). cbn [read_all]. rewrite Er. cbn [mbind go_bind].
    destruct (IH p' vr ts' Hu' Hph') as (rest & vr2 & ts2 & -> & Hres & Hfin); try done.
    + rewrite Hp'. exact Hun'.
    + intros r1 r2 ->. specialize (Hb (mb :: r1) r2 eq_refl). cbn [fmap list_fmap concat] in Hb. unfold p'. rewrite !len_app in *. by rewrite <- Z.add_assoc.
    + cbn [mbind go_bind]. exists (mcontent out ++ rest), vr2, ts2. split; [done|]. split; [|done].
      rewrite Ho, app_assoc. rewrite Hp' in Hres. exact Hres.
  - rewrite Hp' in E2. cbn [snd] in E2. destruct Hstep as (out & vr' & ts' & Er & Hu' & Hup' & Hun' & _ & Hdc); [by right|].
    destruct (Hdc E2) as (Hd' & _ & Ho). cbn [read_all]. rewrite Er. cbn [mbind go_bind].
    assert (Hcnt' : vr_counter vr' = None) by by eapply read_counter.
    rewrite read_direct; [|by rewrite Hup'|done]. cbn [mbind go_bind]. rewrite Hq, app_nil_r. exists (mcontent out), vr', ts'.
    split; [done|]. rewrite Hdir. split; [|done]. pose proof (feed_framed u0 ks last tail eq_refl Hfr) as Hf. rewrite Hw', Hq, app_nil_r, Hp' in Hf.
    injection Hf as Hf _. by rewrite Ho, app_assoc, Hf.
Qed.

Definition quiet (uuid : list byte) (mb : mbuf) : Prop := Forall (λ c, ¬ opens uuid c) (content <$> mb).

(** The reads deliver the stream: in pieces of any size, of which the first holds the UUID and
    a header and no other begins with the UUID. *)
Definition delivered (uuid stream : list byte) (reads : list mbuf) : Prop :=
  Forall (Forall fresh) reads ∧ concat (mcontent <$> reads) = stream ∧
  match reads with
  | (b :: mb) :: reads => 21 ≤ len (content b) ∧ quiet uuid mb ∧ Forall (quiet uuid) reads
  | _ => False
  end.

(** No read ends inside the header of the last block. *)
Definition boundaries (uuid : list byte) (ks : list Block) (last : option Block) (reads : list mbuf) : Prop :=
  ∀ r1 r2, reads = r1 ++ r2 → boundary_ok ks last (len (concat (mcontent <$> r1)) - len uuid).

Lemma read_all_app r1 : ∀ vr ts r2, read_all vr ts (r1 ++ r2) =
  '(o1, vr, ts) ← read_all vr ts r1; '(o2, vr, ts) ← read_all vr ts r2; Ok (o1 ++ o2, vr, ts).
Proof.
  induction r1 as [|mb r1 IH]; intros vr ts r2.
  { cbn [app read_all mbind go_bind]. by destruct (read_all vr ts r2) as [[[]]| |]. }
  cbn [app read_all]. destruct (Vision_ReadMultiBuffer _ _ _ _ _) as [[[[out e] vr1] ts1]| |]; cbn [mbind go_bind]; [|done..]. rewrite IH.
  destruct (read_all vr1 ts1 r1) as [[[o1 vr2] ts2]| |]; cbn [mbind go_bind]; [|done..].
  destruct (read_all vr2 ts2 r2) as [[[o2 vr3] ts3]| |]; cbn [mbind go_bind]; [by rewrite app_assoc|done..].
Qed.

(** The reader gives back the content of any framing, however the connection cuts it. *)
Lemma vision_reads uuid up inb ob input raw ks last tail reads raws : length uuid = 16%nat →
  framing ks last tail → last_ok last tail → delivered uuid (uuid ++ framed ks last tail) reads → boundaries uuid ks last reads →
  (direct last = false → raws = []) →
  ∃ vr' ts', read_all (mkReader up (Some input) (Some raw) inb ob None false) (NewTrafficState uuid) (reads ++ raws) =
      Ok (framed_content ks last tail ++ (if direct last then input ++ raw ++ concat (mcontent <$> raws) else []), vr', ts') ∧
    ReaderDirectCopy (reader_link up ts') = direct last.
Proof.
  intros H16 Hfr Hlast (Hfresh & Hw & Hpieces) Hb Hraws. set (vr := mkReader up (Some input) (Some raw) inb ob None false). set (ts := NewTrafficState uuid).
  destruct reads as [|[|b0 mb0] reads]; [done..|]. destruct Hpieces as (H21 & Hq0 & Hq). apply Forall_cons_1 in Hfresh as [Hf0 Hfresh].
  cbn [fmap list_fmap concat] in Hw. rewrite mcontent_cons in Hw.
  assert (Hp : ∃ p, content b0 ++ mcontent mb0 = uuid ++ p ∧ framed ks last tail = p ++ concat (mcontent <$> reads)).
  { symmetry in Hw. destruct (take_prefix uuid _ (content b0 ++ mcontent mb0) _ Hw) as (p & ? & ?); [|by exists p].
    rewrite len_app. pose proof (len_nonneg (mcontent mb0)). unfold len in *. lia. }
  destruct Hp as (p & Hp & Hfp). assert (Huu : len uuid = 16) by (unfold len; lia).
  assert (Hlink : reader_link up ts = NewLinkState) by by destruct up.
  pose proof (read_step uuid vr ts (b0 :: mb0) input raw eq_refl) as Hstep. cbn zeta in Hstep. change (vr_isUplink vr) with up in Hstep. rewrite Hlink in Hstep.
  change (unpad NewLinkState) with (initial_unpad 0) in Hstep. cbn [fmap list_fmap] in Hstep.
  rewrite (pieces_open uuid (content b0) (content <$> mb0) p H16 Hp H21 Hq0) in Hstep. fold u0 in Hstep.
  assert (Hlp : len (content b0) + len (mcontent mb0) = 16 + len p) by (apply (f_equal len) in Hp; rewrite !len_app in Hp; lia).
  assert (Hbp : boundary_ok ks last (len p)).
  { specialize (Hb [b0 :: mb0] reads eq_refl). cbn [fmap list_fmap concat] in Hb. rewrite app_nil_r, mcontent_cons, len_app, Huu, Hlp in Hb.
    by replace (16 + len p - 16) with (len p) in Hb by lia. }
  assert (Hph : phase_ok NewLinkState) by (split; [done|]; left; split; [done|]; by right).
  destruct (feed u0 p) as [o u] eqn:Ef. destruct Hstep as (out & vr' & ts' & Er & Hu' & Hup' & Hun' & Hca & Hdc); try done.
  { destruct (position_state ks last tail p _ Hfr Hlast Hfp Hbp) as [Hx|[Hx _]]; rewrite Ef in Hx; [by left|by right]. }
  assert (Hrun : ∃ out' vr2 ts2, read_all vr ts ((b0 :: mb0) :: reads) = Ok (out', vr2, ts2) ∧
    out' = framed_content ks last tail ++ (if direct last then input ++ raw else []) ∧
    ReaderDirectCopy (reader_link up ts2) = direct last ∧ vr_isUplink vr2 = up ∧ vr_counter vr2 = None).
  { cbn [read_all]. rewrite Er. cbn [mbind go_bind].
    destruct (position_state ks last tail p _ Hfr Hlast Hfp Hbp) as [Hcalm|(E2 & Hqn & Hdir)].
    - rewrite Ef in Hcalm. destruct (Hca Hcalm) as (-> & Hph' & Ho).
      destruct (reads_rest uuid ks last tail input raw Hfr Hlast reads p vr ts') as (rest & vr2 & ts2 & -> & Hres & Hfin); try done.
      + by rewrite Ef.
      + intros r1 r2 ->. specialize (Hb ((b0 :: mb0) :: r1) r2 eq_refl). cbn [fmap list_fmap concat] in Hb. rewrite mcontent_cons, !len_app, Huu, Hlp in Hb.
        by replace (16 + len p + len (concat (mcontent <$> r1)) - 16) with (len p + len (concat (mcontent <$> r1))) in Hb by lia.
      + rewrite Ef in Hres. cbn [fst] in Hres. cbn [mbind go_bind]. exists (mcontent out ++ rest), vr2, ts2. split; [done|]. split; [by rewrite Ho|done].
    - rewrite Ef in E2. cbn [snd] in E2. destruct (Hdc E2) as (Hd' & _ & Ho). rewrite read_direct; [|by rewrite Hup'|by eapply (read_counter vr); [|exact Er]].
      cbn [mbind go_bind]. rewrite Hqn, app_nil_r, Ho, Hdir. exists (o ++ input ++ raw), vr', ts'. split; [done|]. split; [|split; [done|split; [done|by eapply (read_counter vr); [|exact Er]]]].
      pose proof (feed_framed u0 ks last tail eq_refl Hfr) as Hf. rewrite Hfp, Hqn, app_nil_r, Ef in Hf. by injection Hf as -> _. }
  destruct Hrun as (out' & vr2 & ts2 & E & -> & Hd2 & Hup2 & Hc2). rewrite read_all_app, E. cbn [mbind go_bind].
  destruct (direct last) eqn:Ed.
  - rewrite read_direct by (by rewrite ?Hup2). cbn [mbind go_bind]. exists vr2, ts2. split; [|done]. by rewrite <- !app_assoc.
  - rewrite (Hraws eq_refl). cbn [read_all mbind go_bind]. rewrite !app_nil_r. by exists vr2, ts2.
Qed.

End reader.

(** ** The writer frames what it is given *)

Section writer.
Context (pooled : list byte).

(** Seeds with which the padding is never negative; the default ones are such. *)
Definition seed_ok (s : list Z) : Prop :=
  match s with
  | t0 :: t1 :: t2 :: t3 :: _ => 0 ≤ t0 ≤ t2 + 1 ∧ 0 < t1 < 1073741824 ∧ t2 < 1073741823 ∧ 0 < t3 < 1073741824
  | _ => False
  end.
Definition draws (rnd : Z → Z) : Prop := ∀ m, 0 < m → 0 ≤ rnd m < m.

Lemma padding_len_spec rnd c long s : draws rnd → seed_ok s → 0 ≤ c ≤ Size - 21 → ∃ n, padding_len rnd c long s = Ok n ∧ 0 ≤ n < 2147483648.
Proof.
  intros Hr Hs Hc. destruct s as [|t0 [|t1 [|t2 [|t3 rest]]]]; try done. destruct Hs as (H0 & H1 & H2 & H3). unfold Size in *.
  unfold padding_len. change (index (t0 :: t1 :: t2 :: t3 :: rest) 0) with (Some t0). change (index (t0 :: t1 :: t2 :: t3 :: rest) 1) with (Some t1).
  change (index (t0 :: t1 :: t2 :: t3 :: rest) 2) with (Some t2). change (index (t0 :: t1 :: t2 :: t3 :: rest) 3) with (Some t3).
  cbn [ok_or_panic mbind go_bind]. unfold rand_Int. rewrite (i32_small t0) by (unfold is_i32; lia).
  destruct (bool_decide (c < t0) && long) eqn:E.
  - apply andb_true_iff in E as [E _]. apply bool_decide_eq_true in E. rewrite decide_False by lia. cbn [mbind go_bind]. pose proof (Hr t1 ltac:(lia)).
    rewrite (i32_small (rnd t1)), (i32_small t2) by (unfold is_i32; lia). rewrite (i32_small (rnd t1 + t2)) by (unfold is_i32; lia).
    rewrite i32_small by (unfold is_i32; lia). eexists. split; [done|]. lia.
  - rewrite decide_False by lia. cbn [mbind go_bind]. pose proof (Hr t3 ltac:(lia)). rewrite i32_small by (unfold is_i32; lia). eexists. split; [done|]. lia.
Qed.

(** What a buffer that may be nil holds, and that it leaves room for a header and the UUID. *)
Definition opt_content (b : option Buffer.t) : list byte := match b with Some b => content b | None => [] end.
Definition short (b : Buffer.t) : Prop := wf b ∧ len (content b) ≤ Size - 21.

Lemma XtlsPadding_spec rnd b cmd uuid long s : draws rnd → seed_ok s → len uuid ≤ 16 → (∀ x, b = Some x → short x) →
  ∃ nb k, XtlsPadding pooled rnd b cmd uuid long s = Ok (nb, []) ∧ fresh nb ∧ content nb = uuid ++ block_bytes k ∧
    block_ok k ∧ bl_command k = cmd ∧ bl_content k = opt_content b.
Proof.
  intros Hr Hs Huu Hb. unfold XtlsPadding. set (c := opt_content b).
  assert (Hcl : match b with Some b => Buffer.Len b | None => 0 end = len c ∧ len c ≤ Size - 21).
  { unfold c. destruct b as [b|]; [|by vm_compute]. destruct (Hb b eq_refl) as [Hw Hl]. cbn [opt_content]. by rewrite Len_wf. }
  destruct Hcl as [-> Hcl]. pose proof (len_nonneg c) as Hc0. pose proof (len_nonneg uuid) as Hu0.
  destruct (padding_len_spec rnd (len c) long s Hr Hs ltac:(lia)) as (n0 & -> & Hn0). cbn [mbind go_bind]. unfold Size in Hcl.
  rewrite (i32_small (Size - 21 - len c)) by (unfold is_i32, Size; lia). set (n := if decide _ then _ else _).
  assert (Hn : 0 ≤ n ≤ Size - 21 - len c) by (unfold n, Size; case_decide; unfold Size in *; lia). unfold Size in Hn.
  destruct (fresh_New pooled) as [HfN HrN]. unfold Size in HrN.
  destruct (Write_fits (New pooled) uuid (proj1 HfN) ltac:(lia)) as (b1 & ? & ? & -> & Hw1 & Hc1 & Hr1 & Ha1 & Hs1). cbn [mbind go_bind].
  set (h := cmd :: put_be16 (len c) ++ put_be16 n). assert (Hh : len h = 5) by done.
  destruct (Write_fits b1 h Hw1 ltac:(lia)) as (b2 & ? & ? & -> & Hw2 & Hc2 & Hr2 & Ha2 & Hs2). cbn [mbind go_bind].
  assert (H3 : ∃ b3, match b with
      | Some b => bs ← Bytes b; '(newbuffer, _, _) ← Write b2 bs; Ok newbuffer
      | None => Ok b2 end = Ok b3 ∧ wf b3 ∧ content b3 = content b2 ++ c ∧ room b3 = room b2 - len c ∧
      len (Buffer.arr b3) = len (Buffer.arr b2) ∧ start b3 = start b2).
  { unfold c. destruct b as [b|].
    - destruct (Hb b eq_refl) as [Hw Hl]. rewrite Bytes_wf by done. cbn [mbind go_bind opt_content].
      destruct (Write_fits b2 (content b) Hw2) as (b3 & ? & ? & -> & H3); [cbn in *; lia|]. by exists b3.
    - exists b2. cbn [opt_content]. rewrite len_nil, app_nil_r, Z.sub_0_r. done. }
  destruct H3 as (b3 & -> & Hw3 & Hc3 & Hr3 & Ha3 & Hs3). cbn [mbind go_bind].
  destruct (Extend_spec b3 n Hw3 ltac:(lia)) as (b4 & -> & Hw4 & Hc4 & _ & Ha4 & _ & Hs4 & _). cbn [mbind go_bind].
  assert (Hpad : len (replicate (Z.to_nat n) x00) = n) by (unfold len; rewrite length_replicate; lia).
  exists b4, (mkBlock cmd c (replicate (Z.to_nat n) x00)). split; [done|]. split; [|split; [|split; [|done]]].
  - split; [done|]. split; [by rewrite Hs4, Hs3, Hs2, Hs1|by rewrite Ha4, Ha3, Ha2, Ha1, (proj2 (proj2 HfN))].
  - rewrite Hc4, Hc3, Hc2, Hc1, content_New. unfold block_bytes, block_header. cbn [bl_command bl_content bl_padding app]. rewrite Hpad.
    unfold h. by rewrite <- !app_assoc.
  - unfold block_ok. cbn [bl_content bl_padding]. rewrite Hpad. lia.
Qed.

(** *** Reshaping *)

Lemma BytesFrom_spec b n : wf b → 0 ≤ n ≤ len (content b) → BytesFrom b n = Ok (drop (Z.to_nat n) (content b)).
Proof.
  intros Hb Hn. pose proof (len_content b Hb) as Hl. unfold BytesFrom, from_end. rewrite decide_False by lia. unfold wf in Hb.
  rewrite i32_small by (unfold is_i32; lia). rewrite slice_Some by lia. cbn [ok_or_panic]. f_equal. unfold content.
  rewrite skipn_firstn_comm, drop_drop. f_equal; [lia|f_equal; lia].
Qed.

Lemma Resize_spec b n : wf b → 0 ≤ n ≤ len (content b) → ∃ b', Resize b 0 n = Ok b' ∧ wf b' ∧ content b' = take (Z.to_nat n) (content b).
Proof.
  intros Hb Hn. pose proof (len_content b Hb) as Hl. unfold wf in Hb.
  assert (Hf : ∀ k, 0 ≤ k → from_end b k = k) by (intros k Hk; unfold from_end; by rewrite decide_False by lia).
  unfold Resize. rewrite !Hf by lia. cbn zeta. rewrite (decide_False (P := n < 0)) by lia. rewrite !i32_small by (unfold is_i32; lia).
  assert (Hck : Check (set_window b (start b + 0) (start b + n)) = set_window b (start b + 0) (start b + n)).
  { unfold Check. cbn [start end_ set_window]. cbn zeta. rewrite (decide_False (P := start b + 0 < 0)), (decide_False (P := start b + n < 0)) by lia. by rewrite decide_False by lia. }
  rewrite Hck. cbn [end_ set_window]. rewrite decide_False by lia. eexists. split; [reflexivity|]. split.
  - unfold wf, Buffer.arr. cbn [v start end_ set_window]. fold (Buffer.arr b). lia.
  - unfold content, Buffer.arr. cbn [v start end_ set_window]. rewrite take_take. f_equal; [lia|]. f_equal. lia.
Qed.

Lemma reshape_one_spec b : fresh b → ∃ l, reshape_one pooled b = Ok l ∧ Forall short l ∧ mcontent l = content b ∧ l ≠ [].
Proof.
  intros Hfb. pose proof Hfb as (Hb & Hs & Ha). assert (Hlen : len (content b) ≤ Size) by (rewrite len_content by done; unfold wf in Hb; lia).
  unfold reshape_one, too_long. rewrite Len_wf by done. destruct (bool_decide (len (content b) >= Size - 21)) eqn:E.
  2: { apply bool_decide_eq_false in E. exists [b]. split; [done|]. split; [by apply Forall_singleton; split; [|lia]|]. split; [by rewrite mcontent_cons, app_nil_r|done]. }
  apply bool_decide_eq_true in E. rewrite Bytes_wf by done. cbn [mbind go_bind]. set (i := if decide _ then _ else _).
  assert (Hi : 21 ≤ i ≤ Size - 21) by (unfold i, Size; case_decide; unfold Size in *; [change (Z.quot 8192 2) with 4096|]; lia).
  unfold Size in *. rewrite BytesFrom_spec by (done || lia). cbn [mbind go_bind]. destruct (fresh_New pooled) as [HfN HrN]. unfold Size in HrN.
  set (back := drop (Z.to_nat i) (content b)). assert (Hback : len back = len (content b) - i) by (unfold back, len in *; rewrite length_drop; lia).
  destruct (Write_fits (New pooled) back (proj1 HfN) ltac:(lia)) as (b2 & ? & ? & -> & Hw2 & Hc2 & _). cbn [mbind go_bind]. rewrite content_New in Hc2.
  destruct (Resize_spec b i Hb ltac:(lia)) as (b1 & -> & Hw1 & Hc1). cbn [mbind go_bind]. exists [b1; b2]. split; [done|].
  assert (len (take (Z.to_nat i) (content b)) ≤ 8171) by (unfold len in *; rewrite length_take; lia).
  split_and!; [|rewrite !mcontent_cons, Hc1, Hc2; cbn [app]; rewrite app_nil_r; apply take_drop|done].
  apply Forall_cons_2; [|apply Forall_singleton]; split; unfold Size; rewrite ?Hc1, ?Hc2; cbn [app]; done || lia.
Qed.

Lemma reshape_spec mb : Forall fresh mb → ∃ l, ReshapeMultiBuffer pooled mb = Ok l ∧ Forall short l ∧ mcontent l = mcontent mb ∧ (mb = [] ↔ l = []).
Proof.
  intros Hmb. unfold ReshapeMultiBuffer. destruct (existsb too_long mb) eqn:E.
  - clear E. induction Hmb as [|b mb Hb _ IH]; [by exists []|]. destruct (reshape_one_spec b Hb) as (l & E1 & Hl & Hc & Hne). destruct IH as (l2 & E2 & Hl2 & Hc2 & _).
    cbn [reshape_loop]. rewrite E1. cbn [mbind go_bind]. rewrite E2. cbn [mbind go_bind]. exists (l ++ l2). split; [done|]. split; [by apply Forall_app|].
    split; [by rewrite mcontent_app, mcontent_cons, Hc, Hc2|]. split; [done|]. by intros [? _]%app_nil.
  - exists mb. split; [done|]. split; [|done]. induction Hmb as [|b mb Hb _ IH]; [done|]. cbn [existsb] in E. apply orb_false_iff in E as [E1 E2].
    apply Forall_cons_2; [|by apply IH]. split; [apply Hb|]. unfold too_long in E1. apply bool_decide_eq_false in E1. rewrite Len_wf in E1 by apply Hb. lia.
Qed.

Lemma Copy_all mb : ∀ n, Forall wf mb → len (mcontent mb) ≤ n → n < 2147483648 → Copy mb n = Ok (mcontent mb).
Proof.
  induction mb as [|b mb IH]; intros n Hmb Hn Hn2; [done|]. apply Forall_cons_1 in Hmb as [Hb Hmb]. cbn [Copy]. rewrite Bytes_wf by done. cbn [mbind go_bind].
  rewrite mcontent_cons, len_app in Hn. pose proof (len_nonneg (mcontent mb)). pose proof (len_nonneg (content b)). rewrite take_ge by (unfold len in *; lia). rewrite Len_wf by done.
  rewrite i32_small by (unfold is_i32; lia). rewrite decide_False by lia. rewrite IH by (done || lia). cbn [mbind go_bind]. by rewrite mcontent_cons.
Qed.

Lemma IsCompleteRecord_run mb : Forall wf mb → len (mcontent mb) < 2147483648 →
  IsCompleteRecord mb = Ok (record_loop (S (length (mcontent mb))) (mcontent mb) 5 0).
Proof.
  intros Hmb Hl. unfold IsCompleteRecord. pose proof (len_nonneg (mcontent mb)).
  assert (HL : MultiBuffer.Len mb = len (mcontent mb)) by (unfold MultiBuffer.Len; rewrite Len_loop_spec by (done || lia); lia).
  rewrite HL, Copy_all by (done || lia). cbn [mbind go_bind]. by rewrite decide_False by lia.
Qed.

(** *** One write *)

Lemma framed_cons k ks last tail : framed (k :: ks) last tail = block_bytes k ++ framed ks last tail.
Proof. unfold framed, blocks_bytes. cbn [fmap list_fmap concat]. by rewrite app_assoc. Qed.
Lemma framed_content_cons k ks last tail : framed_content (k :: ks) last tail = bl_content k ++ framed_content ks last tail.
Proof. unfold framed_content, blocks_content. cbn [fmap list_fmap concat]. by rewrite app_assoc. Qed.

Lemma last_command_closing ts k : block_ok k → bl_command k = last_command ts →
  closing k ∧ last_ok (Some k) [] ∧ direct (Some k) = EnableXtls ts.
Proof.
  intros Hk E. unfold closing, last_ok, direct, last_command in *. rewrite E. destruct (EnableXtls ts); (split; [split; [done|by vm_compute]|]); (split; [|done]); [right|left]; done.
Qed.

(** What goes out: the UUID if it is still to be sent, blocks with the content, and where
    padding ends a last block. *)
Definition pads (uuid data : list byte) (r : go (mbuf * list byte * bool * bool)) : Prop :=
  ∃ out ks last tail, r = Ok (out, [], bool_decide (last = None), direct last) ∧
    mcontent out = uuid ++ framed ks last tail ∧ framed_content ks last tail = data ∧ framing ks last tail ∧ last_ok last tail.

Section loop.
Context (rnd : nat → Z → Z) (ts : TrafficState) (isComplete : bool) (seed : list Z).
Hypothesis (Hrnd : ∀ i, draws (rnd i)) (Hseed : seed_ok seed) (Hx : xtls_ok ts).

Abbreviation pad i b cmd uuid long := (XtlsPadding pooled (rnd i) (Some b) cmd uuid long seed).
Abbreviation loop := (pad_loop pooled rnd ts isComplete seed).
Abbreviation padded i b cmd uuid long rest :=
  ('(nb, uuid1) ← pad i b cmd uuid long; '(nbs, uuid2, isPadding, dir) ← rest uuid1; Ok (nb :: nbs, uuid2, isPadding, dir)).

Lemma pad_spec i b cmd uuid long : short b → len uuid ≤ 16 → ∃ nb k, pad i b cmd uuid long = Ok (nb, []) ∧
  content nb = uuid ++ block_bytes k ∧ block_ok k ∧ bl_command k = cmd ∧ bl_content k = content b.
Proof.
  intros Hb Hu. destruct (XtlsPadding_spec (rnd i) (Some b) cmd uuid long seed) as (nb & k & ? & _ & ? & ? & ? & ?); [done..|by intros ? [= <-]|]. by exists nb, k.
Qed.

Lemma pads_plain i b uuid long data (rest : list byte → go (mbuf * list byte * bool * bool)) : short b → len uuid ≤ 16 → pads [] data (rest []) →
  pads uuid (content b ++ data) (padded i b CommandPaddingContinue uuid long rest).
Proof.
  intros Hb Hu (out & ks & last & tail & Er & Ho & Hfc & [Hks Hl] & Hlo).
  destruct (pad_spec i b CommandPaddingContinue uuid long Hb Hu) as (nb & k & -> & Hc & Hk & Hcmd & Hcon). cbn [mbind go_bind]. rewrite Er. cbn [mbind go_bind].
  exists (nb :: out), (k :: ks), last, tail. split; [done|]. split; [rewrite mcontent_cons, Hc, Ho, framed_cons; by rewrite <- !app_assoc|].
  split; [by rewrite framed_content_cons, Hfc, Hcon|]. split; [|done]. split; [by apply Forall_cons_2|done].
Qed.

Lemma pads_last i b uuid long d long' : short b → len uuid ≤ 16 → d = EnableXtls ts →
  pads uuid (content b ++ []) (padded i b (last_command ts) uuid long (λ uuid, loop (S i) [] uuid false d long')).
Proof.
  intros Hb Hu ->. destruct (pad_spec i b (last_command ts) uuid long Hb Hu) as (nb & k & -> & Hc & Hk & Hcmd & Hcon). cbn [mbind go_bind pad_loop].
  destruct (last_command_closing ts k Hk Hcmd) as (Hcl & Hlo & Hdir). exists [nb], [], (Some k), []. rewrite Hdir. split; [done|].
  unfold framed, framed_content, blocks_bytes, blocks_content. cbn [fmap list_fmap concat app]. rewrite mcontent_cons, Hc, Hcon, app_nil_r.
  split; [by rewrite app_nil_r|]. split; [done|]. by split; [split|].
Qed.

Lemma pads_end i b uuid long mb d : short b → len uuid ≤ 16 → EnableXtls ts = false → d = false →
  pads uuid (content b ++ mcontent mb) ('(nb, uuid) ← pad i b CommandPaddingEnd uuid long; Ok (nb :: mb, uuid, false, d)).
Proof.
  intros Hb Hu He ->. destruct (pad_spec i b CommandPaddingEnd uuid long Hb Hu) as (nb & k & -> & Hc & Hk & Hcmd & Hcon). cbn [mbind go_bind].
  exists (nb :: mb), [], (Some k), (mcontent mb). split; [unfold direct; by rewrite Hcmd|].
  unfold framed, framed_content, blocks_bytes, blocks_content. cbn [fmap list_fmap concat app]. rewrite mcontent_cons, Hc, Hcon.
  split; [by rewrite <- app_assoc|]. split; [done|]. split; [|by left]. split; [done|]. split; [done|]. rewrite Hcmd. by vm_compute.
Qed.

Lemma app_data_ok b : wf b → ∃ app : bool, (if IsTLS ts && bool_decide (Buffer.Len b >= 6)
  then h ← BytesTo b 3; Ok (bool_decide (TlsApplicationDataStart = h) && isComplete) else Ok false) = Ok app.
Proof.
  intros Hw. destruct (IsTLS ts && _) eqn:E; [|by eexists]. apply andb_true_iff in E as [_ E]. apply bool_decide_eq_true in E. rewrite Len_wf in E by done.
  rewrite BytesTo_spec by (done || lia). by eexists.
Qed.

(** The flags of the loop agree: before padding ends there is no switch, afterwards there is
    one if the handshake allows it. *)
Lemma pad_loop_spec mb : Forall short mb → ∀ i uuid p d long, len uuid ≤ 16 → (mb ≠ [] ∨ (p = true ∧ uuid = [])) →
  (if p then d = false else d = EnableXtls ts) → pads uuid (mcontent mb) (loop i mb uuid p d long).
Proof.
  induction mb as [|b mb IH]; intros Hmb i uuid p d long Huu Hp Hd.
  { destruct Hp as [?|[-> ->]]; [done|]. rewrite Hd. exists [], [], None, []. by split_and!. }
  apply Forall_cons_1 in Hmb as [Hb Hmb]. specialize (IH Hmb). rewrite mcontent_cons. cbn [pad_loop].
  assert (H0 : len (@nil byte) ≤ 16) by (rewrite len_nil; lia).
  destruct (app_data_ok b (proj1 Hb)) as (app & ->). cbn [mbind go_bind]. destruct app.
  - assert (Hor : EnableXtls ts || d = EnableXtls ts) by (destruct p; rewrite Hd; by destruct (EnableXtls ts)).
    rewrite Hor. destruct mb as [|b2 mb]; [by apply pads_last|].
    apply (pads_plain i b uuid true _ (λ uuid, loop (S i) (b2 :: mb) uuid false (EnableXtls ts) false)); [done..|]. apply IH; [done|by left|done].
  - destruct (negb (IsTLS12orAbove ts) && _) eqn:E12.
    + apply andb_true_iff in E12 as [E12 _]. apply negb_true_iff in E12.
      assert (Hex : EnableXtls ts = false) by (destruct (EnableXtls ts) eqn:Ex; [|done]; destruct (Hx (or_introl Ex)); congruence).
      apply pads_end; [done..|]. destruct p; congruence.
    + destruct mb as [|b2 mb]; cbn [andb].
      * destruct p; cbn [negb]; [|by apply pads_last].
        apply (pads_plain i b uuid long _ (λ uuid, loop (S i) [] uuid true d long)); [done..|]. apply IH; [done|by right|done].
      * apply (pads_plain i b uuid long _ (λ uuid, loop (S i) (b2 :: mb) uuid p d long)); [done..|]. apply IH; [done|by left|done].
Qed.

End loop.

(** The data of a write, and the writes the callers make: buffers, or one nil buffer. *)
Definition wdata (mb : list (option Buffer.t)) : list byte := mcontent (omap id mb).
Definition write_ok (mb : list (option Buffer.t)) : Prop :=
  Forall fresh (omap id mb) ∧ len (wdata mb) < 2147483648 ∧ (mb = [None] ∨ ∃ l, mb = Some <$> l).

Lemma omap_Some {A} (l : list A) : omap id (Some <$> l) = l.
Proof. induction l as [|x l IH]; [done|]. cbn. by f_equal. Qed.
Lemma no_nil_Some l : no_nil (Some <$> l) = Some l.
Proof. induction l as [|x l IH]; [done|]. cbn [fmap list_fmap no_nil]. change (list_fmap _ _ Some l) with (Some <$> l). by rewrite IH. Qed.

Lemma pad_write_spec rnd ts seed mb uuid : (∀ i, draws (rnd i)) → seed_ok seed → xtls_ok ts → len uuid ≤ 16 → write_ok mb → mb ≠ [] →
  ∃ out ks last tail, pad_write pooled rnd ts seed mb uuid = Ok (out, [], bool_decide (last = None), direct last) ∧
    wdata out = uuid ++ framed ks last tail ∧ framed_content ks last tail = wdata mb ∧ framing ks last tail ∧ last_ok last tail.
Proof.
  intros Hr Hs Hx Hu (Hf & Hl & Hmb) Hne. destruct Hmb as [->|[l ->]].
  - destruct (XtlsPadding_spec (rnd 0%nat) None CommandPaddingContinue uuid true seed) as (nb & k & E & _ & Hc & Hk & Hcmd & Hcon); [done..|].
    cbn [pad_write]. rewrite E. cbn [mbind go_bind]. exists [Some nb], [k], None, []. split; [done|]. unfold wdata. cbn [omap list_omap id].
    rewrite mcontent_cons, Hc. unfold framed, framed_content, blocks_bytes, blocks_content. cbn [fmap list_fmap concat app]. rewrite Hcon, !app_nil_r.
    split; [done|]. split; [done|]. split; [|done]. split; [by apply Forall_singleton|done].
  - unfold wdata in *. rewrite omap_Some in *. destruct l as [|b l]; [done|].
    assert (Hwf : Forall wf (b :: l)) by (eapply Forall_impl; [|exact Hf]; by intros ? []).
    unfold pad_write. rewrite no_nil_Some. cbn [fmap list_fmap]. unfold pad_buffers. rewrite IsCompleteRecord_run by done. cbn [mbind go_bind].
    destruct (reshape_spec (b :: l) Hf) as (l2 & -> & Hl2 & Hc2 & Hn2). cbn [mbind go_bind].
    destruct (pad_loop_spec rnd ts (record_loop (S (length (mcontent (b :: l)))) (mcontent (b :: l)) 5 0) seed Hr Hs Hx l2 Hl2 0%nat uuid true false (IsTLS ts) Hu)
      as (out & ks & last & tail & -> & Ho & Hfc & Hfr & Hlo); [|done|].
    { left. intros E. by apply Hn2 in E. }
    cbn [mbind go_bind]. exists (Some <$> out), ks, last, tail. rewrite omap_Some. split; [done|]. split; [done|]. split; [|done]. by rewrite Hfc.
Qed.

(** *** A run of writes *)

Fixpoint write_all (rnd : nat → nat → Z → Z) (n : nat) (vw : VisionWriter) (ts : TrafficState) (writes : list (list (option Buffer.t)))
    : go (list byte * list byte * VisionWriter * TrafficState) :=
  match writes with
  | [] => Ok ([], [], vw, ts)
  | mb :: writes =>
      '(out, dir, _, vw, ts) ← Vision_WriteMultiBuffer pooled (rnd n) vw ts mb None None;
      '(wire, raw, vw, ts) ← write_all rnd (S n) vw ts writes;
      Ok (if dir : bool then wire else wdata out ++ wire, if dir then wdata out ++ raw else raw, vw, ts)
  end.

(** The phases of a writer: padding with [uuid] still to send, or not padding, to the raw
    connection or not. *)
Definition padding_phase (uuid : list byte) (vw : VisionWriter) (ts : TrafficState) : Prop :=
  let l := writer_link (vw_isUplink vw) ts in
  xtls_ok ts ∧ seed_ok (vw_testseed vw) ∧ IsPadding l = true ∧ vw_uuid vw = uuid ∧ WriterDirectCopy l = false ∧ vw_direct vw = false.
Definition plain_phase (dir : bool) (vw : VisionWriter) (ts : TrafficState) : Prop :=
  let l := writer_link (vw_isUplink vw) ts in
  IsPadding l = false ∧ WriterDirectCopy l || vw_direct vw = dir.

Lemma filter_links ts mb : Forall fresh (omap id mb) → ∃ ts', (if decide (NumberOfPacketToFilter ts > 0) then XtlsFilterTls mb ts else Ok ts) = Ok ts' ∧
  same_links ts ts' ∧ (xtls_ok ts → xtls_ok ts').
Proof. intros Hf. case_decide; [by apply XtlsFilterTls_spec|]. exists ts. split; [done|]. split; [apply same_links_refl|done]. Qed.

Lemma xtls_set_link up ts l : xtls_ok ts → xtls_ok (set_writer_link up ts l).
Proof. by destruct ts, up. Qed.

Lemma plain_write rnd dir vw ts mb : plain_phase dir vw ts → Forall fresh (omap id mb) →
  ∃ vw' ts', Vision_WriteMultiBuffer pooled rnd vw ts mb None None = Ok (mb, dir, None, vw', ts') ∧ plain_phase dir vw' ts'.
Proof.
  intros [Hp Hd] Hf. unfold Vision_WriteMultiBuffer. destruct (filter_links ts mb Hf) as (t1 & -> & Hs & _). cbn [mbind go_bind]. rewrite Hp, Hd. cbn [mbind go_bind].
  eexists _, _. split; [reflexivity|]. unfold plain_phase. cbn [vw_isUplink vw_direct]. unfold writer_link, set_writer_link. rewrite set_get_link. done.
Qed.

Lemma plain_writes rnd dir writes : ∀ n vw ts, plain_phase dir vw ts → Forall write_ok writes → ∃ vw' ts',
  write_all rnd n vw ts writes = Ok (if dir then [] else concat (wdata <$> writes), if dir then concat (wdata <$> writes) else [], vw', ts').
Proof.
  induction writes as [|mb writes IH]; intros n vw ts Hph Hw; [exists vw, ts; by destruct dir|]. apply Forall_cons_1 in Hw as [Hmb Hw].
  cbn [write_all]. destruct (plain_write (rnd n) dir vw ts mb Hph (proj1 Hmb)) as (vw1 & ts1 & -> & Hph1). cbn [mbind go_bind].
  destruct (IH (S n) vw1 ts1 Hph1 Hw) as (vw2 & ts2 & ->). cbn [mbind go_bind]. exists vw2, ts2. by destruct dir.
Qed.

Lemma padding_write rnd uuid vw ts mb : (∀ i, draws (rnd i)) → len uuid ≤ 16 → padding_phase uuid vw ts → write_ok mb → mb ≠ [] →
  ∃ out vw' ts' ks last tail, Vision_WriteMultiBuffer pooled rnd vw ts mb None None = Ok (out, false, None, vw', ts') ∧
    wdata out = uuid ++ framed ks last tail ∧ framed_content ks last tail = wdata mb ∧ framing ks last tail ∧ last_ok last tail ∧
    (last = None → padding_phase [] vw' ts') ∧ (last ≠ None → plain_phase (direct last) vw' ts').
Proof.
  intros Hr Hu (Hx & Hs & Hp & Huu & Hd & Hvd) Hmb Hne. unfold Vision_WriteMultiBuffer.
  destruct (filter_links ts mb (proj1 Hmb)) as (t1 & -> & Hs1 & Hx1). cbn [mbind go_bind]. rewrite Hp, Hd, Hvd, Huu.
  destruct (pad_write_spec rnd t1 (vw_testseed vw) mb uuid Hr Hs (Hx1 Hx) Hu Hmb Hne) as (out & ks & last & tail & -> & Ho & Hfc & Hfr & Hlo). cbn [mbind go_bind].
  eexists out, _, _, ks, last, tail. split; [reflexivity|]. split; [done|]. split; [done|]. split; [done|]. split; [done|]. unfold padding_phase, plain_phase.
  cbn [vw_isUplink vw_direct vw_uuid vw_testseed]. unfold writer_link, set_writer_link. rewrite !set_get_link. cbn [IsPadding WriterDirectCopy]. split.
  - intros ->. split_and!; try done. apply xtls_set_link. by apply Hx1.
  - intros Hl. rewrite bool_decide_eq_false_2 by done. split; [done|]. apply orb_false_r.
Qed.

Lemma framed_app ks1 ks2 last tail : framed (ks1 ++ ks2) last tail = blocks_bytes ks1 ++ framed ks2 last tail.
Proof. unfold framed, blocks_bytes. by rewrite fmap_app, concat_app, app_assoc. Qed.
Lemma framed_content_app ks1 ks2 last tail : framed_content (ks1 ++ ks2) last tail = blocks_content ks1 ++ framed_content ks2 last tail.
Proof. unfold framed_content, blocks_content. by rewrite fmap_app, concat_app, app_assoc. Qed.

(** What a run has sent: nothing yet, or a framing of a beginning of the data and the rest on
    the raw connection. *)
Definition sent (uuid data wire raw : list byte) (ks : list Block) (last : option Block) (tail : list byte) : Prop :=
  wire = uuid ++ framed ks last tail ∧ framed_content ks last tail ++ raw = data ∧ framing ks last tail ∧ last_ok last tail ∧
  (direct last = false → raw = []).

Lemma padding_writes rnd writes : (∀ n i, draws (rnd n i)) → Forall write_ok writes → ∀ n uuid vw ts, len uuid ≤ 16 → padding_phase uuid vw ts →
  ∃ wire raw vw' ts', write_all rnd n vw ts writes = Ok (wire, raw, vw', ts') ∧
    ((wire = [] ∧ raw = [] ∧ concat (wdata <$> writes) = []) ∨ ∃ ks last tail, sent uuid (concat (wdata <$> writes)) wire raw ks last tail).
Proof.
  intros Hr Hw. induction Hw as [|mb writes Hmb Hw IH]; intros n uuid vw ts Hu Hph.
  { exists [], [], vw, ts. split; [done|]. by left. }
  cbn [write_all]. destruct (decide (mb = [])) as [->|Hne].
  - assert (Hnil : ∃ vw' ts', Vision_WriteMultiBuffer pooled (rnd n) vw ts [] None None = Ok ([], false, None, vw', ts') ∧ padding_phase uuid vw' ts').
    { destruct Hph as (Hx & Hs & Hp & Huu & Hd & Hvd). unfold Vision_WriteMultiBuffer. destruct (filter_links ts [] ltac:(done)) as (t1 & -> & Hs1 & Hx1).
      cbn [mbind go_bind]. rewrite Hp, Hd, Hvd, Huu. eexists _, _. split; [reflexivity|]. unfold padding_phase. cbn [vw_isUplink vw_direct vw_uuid vw_testseed].
      unfold writer_link, set_writer_link. rewrite !set_get_link. split_and!; try done. apply xtls_set_link. by apply Hx1. }
    destruct Hnil as (vw1 & ts1 & -> & Hph1). cbn [mbind go_bind]. destruct (IH (S n) uuid vw1 ts1 Hu Hph1) as (wire & raw & vw2 & ts2 & -> & Hres).
    cbn [mbind go_bind]. by exists wire, raw, vw2, ts2.
  - destruct (padding_write (rnd n) uuid vw ts mb (Hr n) Hu Hph Hmb Hne) as (out & vw1 & ts1 & ks & last & tail & -> & Ho & Hfc & [Hks Hl] & Hlo & Hpad & Hplain).
    cbn [mbind go_bind]. destruct last as [k|].
    + destruct (plain_writes rnd (direct (Some k)) writes (S n) vw1 ts1 (Hplain ltac:(done)) Hw) as (vw2 & ts2 & ->). cbn [mbind go_bind].
      eexists _, _, vw2, ts2. split; [reflexivity|]. right. rewrite Ho. cbn [fmap list_fmap concat]. rewrite <- Hfc. unfold sent, framed, framed_content in *.
      destruct (direct (Some k)) eqn:Ed.
      * exists ks, (Some k), tail. rewrite app_nil_r. split; [done|]. split; [done|]. split; [by split|]. split; [done|]. congruence.
      * exists ks, (Some k), (tail ++ concat (wdata <$> writes)). split; [by rewrite <- !app_assoc|]. split; [rewrite app_nil_r; by rewrite <- !app_assoc|].
        split; [by split|]. split; [|done]. destruct Hlo as [|[Hk _]]; [by left|]. unfold direct in Ed. by rewrite bool_decide_eq_true_2 in Ed.
    + destruct (IH (S n) [] vw1 ts1 ltac:(rewrite len_nil; lia) (Hpad eq_refl)) as (wire & raw & vw2 & ts2 & -> & Hres). cbn [mbind go_bind].
      eexists _, _, vw2, ts2. split; [reflexivity|]. right. rewrite Ho. cbn [fmap list_fmap concat]. rewrite <- Hfc.
      destruct Hres as [(-> & -> & Hd)|(ks2 & last2 & tail2 & Hw2 & Hd2 & [Hks2 Hl2] & Hlo2 & Hraw2)].
      * exists ks, None, tail. unfold sent. rewrite Hd, !app_nil_r. split; [done|]. split; [done|]. by split; [split|].
      * exists (ks ++ ks2), last2, tail2. unfold sent. rewrite framed_app, framed_content_app, Hw2, <- Hd2.
        assert (framed ks None tail = blocks_bytes ks) as -> by apply app_nil_r. assert (framed_content ks None tail = blocks_content ks) as -> by apply app_nil_r. cbn [app].
        split; [by rewrite <- !app_assoc|]. split; [by rewrite <- !app_assoc|]. split; [|done]. split; [by apply Forall_app|done].
Qed.

End writer.

(** ** Complete records *)

Definition record (p : list byte) : list byte := TlsApplicationDataStart ++ put_be16 (len p) ++ p.
Definition records (ps : list (list byte)) : list byte := concat (record <$> ps).
Definition payload_ok (p : list byte) : Prop := 0 < len p < 65536.

(** One record of the loop. *)
Lemma record_loop_header fuel h l rest : record_loop (S (S (S (S (S fuel))))) (x17 :: x03 :: x03 :: h :: l :: rest) 5 0 =
  record_loop fuel rest 0 (Z.lor (Z.shiftl (byte_to_Z h) 8) (byte_to_Z l)).
Proof. reflexivity. Qed.

Lemma record_loop_body fuel b n : record_loop (S fuel) b 0 n =
  if decide (b ≠ [] ∧ 0 < n ≤ len b) then record_loop fuel (drop (Z.to_nat n) b) 5 0 else false.
Proof.
  cbn [record_loop]. destruct b as [|d b]; [rewrite decide_False by (intros [? _]; done); done|].
  rewrite (decide_False (P := 0 > 0)) by lia. destruct (decide (n > 0)).
  - destruct (decide (len (d :: b) < n)); [by rewrite decide_False by lia|by rewrite decide_True by (split; [done|lia])].
  - by rewrite decide_False by lia.
Qed.

Lemma u16_bytes z : is_u16 z → ∃ h l, put_be16 z = [h; l] ∧ Z.lor (Z.shiftl (byte_to_Z h) 8) (byte_to_Z l) = z.
Proof. intros H. eexists _, _. split; [reflexivity|]. by apply be16_lor. Qed.

Lemma bytes_u16 h l : put_be16 (Z.lor (Z.shiftl (byte_to_Z h) 8) (byte_to_Z l)) = [h; l] ∧ Z.lor (Z.shiftl (byte_to_Z h) 8) (byte_to_Z l) < 65536.
Proof.
  pose proof (byte_to_Z_range h) as Hh. pose proof (byte_to_Z_range l) as Hl. unfold is_u8 in *. rewrite Z.lor_comm, lor_shiftl_add by lia. change (2 ^ 8) with 256.
  split; [|lia]. unfold put_be16. rewrite Z.shiftr_div_pow2 by lia. change (2 ^ 8) with 256.
  replace ((byte_to_Z l + byte_to_Z h * 256) / 256) with (byte_to_Z h) by dlia. rewrite byte_of_to_Z. do 2 f_equal.
  apply byte_to_Z_inj. rewrite byte_to_of_Z. dlia.
Qed.

(** Bytes that end inside a header. *)
Lemma record_loop_cut fuel : ∀ b h n, len b < h ≤ 5 → (h ≠ 5 ∨ b ≠ []) → record_loop fuel b h n = false.
Proof.
  induction fuel as [|fuel IH]; intros b h n Hl Hh; [done|]. cbn [record_loop]. destruct b as [|d b].
  - destruct Hh as [Hh|]; [|done]. by rewrite bool_decide_eq_false_2.
  - rewrite len_cons in Hl. pose proof (len_nonneg b). rewrite decide_True by lia.
    destruct (bool_decide (h = 5) && _); [done|]. destruct (bool_decide (h = 4) && _); [done|]. destruct (bool_decide (h = 3) && _); [done|].
    apply IH; [lia|left; lia].
Qed.

(** Bytes that do not begin with the type and version of a record. *)
Lemma record_loop_other fuel a b c rest : ¬ (a = x17 ∧ b = x03 ∧ c = x03) → record_loop fuel (a :: b :: c :: rest) 5 0 = false.
Proof.
  intros Hno. destruct fuel as [|fuel]; [done|]. cbn -[record_loop]. cbn [record_loop]. rewrite (decide_True (P := 5 > 0)) by lia. rewrite (bool_decide_eq_true_2 (5 = 5)) by done.
  cbn [andb]. case_bool_decide as Ha; cbn [negb]; [|done]. rewrite (bool_decide_eq_false_2 (5 = 4)), (bool_decide_eq_false_2 (5 = 3)) by lia. cbn [andb].
  destruct fuel as [|fuel]; [done|]. cbn [record_loop]. rewrite (decide_True (P := 5 - 1 > 0)) by lia. rewrite (bool_decide_eq_false_2 (5 - 1 = 5)), (bool_decide_eq_true_2 (5 - 1 = 4)) by lia.
  cbn [andb]. case_bool_decide as Hb; cbn [negb]; [|done]. rewrite (bool_decide_eq_false_2 (5 - 1 = 3)) by lia. cbn [andb].
  destruct fuel as [|fuel]; [done|]. cbn [record_loop]. rewrite (decide_True (P := 5 - 1 - 1 > 0)) by lia.
  rewrite (bool_decide_eq_false_2 (5 - 1 - 1 = 5)), (bool_decide_eq_false_2 (5 - 1 - 1 = 4)), (bool_decide_eq_true_2 (5 - 1 - 1 = 3)) by lia.
  cbn [andb]. case_bool_decide as Hc; cbn [negb]; [|done]. by destruct Hno.
Qed.

Lemma record_loop_spec fuel : ∀ b, (length b < fuel)%nat →
  record_loop fuel b 5 0 = true ↔ ∃ ps, Forall payload_ok ps ∧ b = records ps.
Proof.
  induction fuel as [fuel IH] using lt_wf_ind; intros b Hf.
  destruct (decide (b = [])) as [->|Hne].
  { destruct fuel; [lia|]. split; [intros _; by exists []|done]. }
  destruct (decide (length b < 5)%nat) as [Hs|Hs].
  { rewrite record_loop_cut; [|unfold len; lia|by right]. split; [done|]. intros ([|p ps] & _ & ->); [done|]. exfalso. revert Hs.
    unfold records, record, put_be16. cbn [fmap list_fmap concat TlsApplicationDataStart app length]. rewrite !length_app. lia. }
  destruct b as [|a [|b [|c [|h [|l rest]]]]]; try (cbn [length] in Hs; lia). do 6 (destruct fuel as [|fuel]; [cbn [length] in Hf; lia|]).
  destruct (decide (a = x17 ∧ b = x03 ∧ c = x03)) as [(-> & -> & ->)|Hno].
  2: { rewrite record_loop_other by done.
       split; [done|]. intros ([|p ps] & _ & E); [done|]. exfalso. apply Hno. unfold records, record in E. cbn in E. by injection E as -> -> -> _. }
  rewrite record_loop_header, record_loop_body. set (n := Z.lor _ _). destruct (bytes_u16 h l) as [Hhl Hn]. fold n in Hhl, Hn.
  split.
  - case_decide as Hd; [|done]. destruct Hd as [Hr Hd]. intros H. apply IH in H as (ps & Hps & Hrest); [|lia|].
    2: { rewrite length_drop. cbn [length] in Hf. unfold len in Hd. lia. }
    exists (take (Z.to_nat n) rest :: ps). assert (Ht : len (take (Z.to_nat n) rest) = n) by (unfold len in *; rewrite length_take; lia).
    split; [apply Forall_cons_2; [unfold payload_ok; lia|done]|]. change (records (take (Z.to_nat n) rest :: ps)) with (record (take (Z.to_nat n) rest) ++ records ps).
    rewrite <- Hrest. unfold record. rewrite Ht, Hhl. cbn [app TlsApplicationDataStart]. by rewrite take_drop.
  - intros ([|p ps] & Hps & E); [done|]. apply Forall_cons_1 in Hps as [[Hp0 Hp] Hps]. change (records (p :: ps)) with (record p ++ records ps) in E. unfold record in E.
    destruct (u16_bytes (len p)) as (h' & l' & Epl & Enl); [unfold is_u16; lia|]. rewrite Epl in E. cbn [app TlsApplicationDataStart] in E. injection E as -> -> ->.
    subst n. rewrite Enl. rewrite decide_True.
    + apply IH; [lia| |].
      * rewrite to_nat_len, drop_app_length. cbn [length] in Hf. rewrite length_app in Hf. unfold len in *. lia.
      * exists ps. split; [done|]. by rewrite to_nat_len, drop_app_length.
    + split; [|rewrite len_app; pose proof (len_nonneg (records ps)); lia]. intros [-> _]%app_nil. unfold len in Hp0. cbn [length] in Hp0. lia.
Qed.

(** [IsCompleteRecord] holds exactly of a sequence of whole TLS application-data records with
    payloads, however they are spread over buffers, and never panics. *)
Lemma complete_record_exact mb : Forall wf mb → len (mcontent mb) < 2147483648 →
  ∃ c, IsCompleteRecord mb = Ok c ∧ (c = true ↔ ∃ ps, Forall payload_ok ps ∧ mcontent mb = records ps).
Proof. intros Hw Hl. eexists. split; [by apply IsCompleteRecord_run|]. apply record_loop_spec. lia. Qed.

(** ** End to end *)


(** ** A read that ends inside the last header

    Once handshake filtering is over, a read that ends behind the command byte of the last block
    makes the reader leave unpadding: the rest of the header, the content and the padding go to
    the application as they are. *)
Lemma split_header_leaks pooled uuid n up inb ob input raw ks b c : length uuid = 16%nat → n ≤ 0 → Forall plain ks →
  fresh b → content b = uuid ++ blocks_bytes ks ++ [CommandPaddingEnd] → 21 ≤ len (content b) → fresh c → content c ≠ [] →
  let vr := mkReader up (Some input) (Some raw) inb ob None false in
  ∃ ts1 ts2 out, Vision_ReadMultiBuffer pooled vr (with_packets (NewTrafficState uuid) n) ([b], None) None = Ok (out, None, vr, ts1) ∧
    mcontent out = blocks_content ks ∧
    Vision_ReadMultiBuffer pooled vr ts1 ([c], None) None = Ok ([c], None, vr, ts2).
Proof.
  intros H16 Hn Hks Hb Hcb Hl Hc Hcne vr. set (ts := with_packets (NewTrafficState uuid) n).
  assert (Hlink : reader_link up ts = NewLinkState) by by destruct up.
  destruct (unpad_buffers_spec pooled uuid [b] (initial_unpad 0) ltac:(by apply Forall_singleton) ltac:(by right)) as (out & Eu & _ & Ho).
  cbn [fmap list_fmap] in Eu, Ho. rewrite (pieces_open uuid (content b) [] (blocks_bytes ks ++ [CommandPaddingEnd])) in Eu, Ho by (done || by rewrite Hcb; cbn [concat]; rewrite app_nil_r).
  fold u0 in Eu, Ho. rewrite feed_blocks in Eu, Ho by done. cbn [prepend fst snd] in Eu, Ho.
  set (u1 := between u0 ks) in *. assert (Hu1 : RemainingCommand u1 = 5 ∧ RemainingContent u1 ≤ 0 ∧ RemainingPadding u1 ≤ 0 ∧ CurrentCommand u1 = 0) by (unfold u1; by destruct ks).
  destruct u1 as [rc ct pd cc]. cbn in Hu1. destruct Hu1 as (-> & Hct & Hpd & ->).
  set (r := feed (mkUnpad 5 ct pd 0) [CommandPaddingEnd]). assert (Hr : r = ([], mkUnpad 4 ct pd 1)) by reflexivity.
  change (feed _ _) with r in Eu, Ho. rewrite Hr in Eu, Ho. cbn [fst snd] in Eu, Ho. rewrite app_nil_r in Ho.
  set (l1 := mkLink false false (mkUnpad 4 ct pd 1) true false).
  assert (Hl1 : after_unpadding NewLinkState (mkUnpad 4 ct pd 1) = l1).
  { unfold after_unpadding. cbn [RemainingContent RemainingPadding CurrentCommand]. by rewrite !bool_decide_eq_false_2 by lia. }
  assert (Hnb : NumberOfPacketToFilter ts = n) by done.
  assert (Hne : MultiBuffer.IsEmpty [b] = false).
  { destruct (MultiBuffer.IsEmpty [b]) eqn:E; [|done]. apply IsEmpty_spec in E; [|apply Forall_singleton, Hb]. rewrite mcontent_cons in E. apply app_nil in E as [E _]. rewrite E, len_nil in Hl. lia. }
  assert (Hne2 : MultiBuffer.IsEmpty [c] = false).
  { destruct (MultiBuffer.IsEmpty [c]) eqn:E; [|done]. apply IsEmpty_spec in E; [|apply Forall_singleton, Hc]. rewrite mcontent_cons in E. by apply app_nil in E as [E _]. }
  exists (set_reader_link up ts l1), (set_reader_link up ts l1), out. unfold Vision_ReadMultiBuffer. cbn [vr_isUplink vr]. split; [|split; [done|]].
  - rewrite Hne, Hlink. cbn [ReaderDirectCopy NewLinkState WithinPaddingBuffers orb unpad]. change (UserUUID ts) with uuid. rewrite Eu. cbn [mbind go_bind].
    fold NewLinkState. rewrite Hl1. replace (NumberOfPacketToFilter (set_reader_link up ts l1)) with n by by destruct up. rewrite decide_False by lia. cbn [mbind go_bind].
    by rewrite set_get_link.
  - assert (Hn1 : ¬ NumberOfPacketToFilter (set_reader_link up ts l1) > 0) by (replace (NumberOfPacketToFilter _) with n by (by destruct up); lia).
    rewrite Hne2, set_get_link. cbn [ReaderDirectCopy l1 WithinPaddingBuffers orb]. rewrite (bool_decide_eq_false_2 _ Hn1). cbn [mbind go_bind].
    rewrite (decide_False (P := NumberOfPacketToFilter _ > 0)) by done. cbn [mbind go_bind]. by rewrite set_get_link.
Qed.

(** A test seed whose third number is too small makes padding panic. *)
Lemma seed_panics : XtlsPadding [] (λ _, 0) (Some (FromBytes (replicate 100 x41))) CommandPaddingContinue [] true [900; 1; 10; 256] = Panic.
Proof. vm_compute. reflexivity. Qed.

(** ** Witnesses *)

Definition w_uuid : list byte := replicate 16 x41.
Definition w_buffer (bs : list byte) : Buffer.t :=
  match Write (New []) bs with Ok (b, _, _) => b | _ => New [] end.
Definition w_writes : list (list (option Buffer.t)) := [[None]; [Some (w_buffer (s2b "hi"))]].
Definition w_rnd (n i : nat) (m : Z) : Z := 0.
Definition wire_of (r : go (list byte * list byte * VisionWriter * TrafficState)) : option (list byte * list byte) :=
  match r with Ok (w, r, _, _) => Some (w, r) | _ => None end.
Lemma wire_of_ok r w1 r1 w2 r2 vw ts : wire_of r = Some (w1, r1) → r = Ok (w2, r2, vw, ts) → w2 = w1 ∧ r2 = r1.
Proof. intros H ->. by injection H as -> ->. Qed.
Definition w_wire : list byte :=
  match write_all [] w_rnd 0 (NewVisionWriter (NewTrafficState w_uuid) true None [10; 1; 10; 3]) (NewTrafficState w_uuid) w_writes with
  | Ok (wire, _, _, _) => wire | _ => [] end.

Lemma w_buffer_ok bs : len bs ≤ Size → fresh (w_buffer bs) ∧ content (w_buffer bs) = bs.
Proof.
  intros Hl. destruct (fresh_New []) as [Hf Hr]. unfold w_buffer. destruct (Write_fits (New []) bs (proj1 Hf) ltac:(lia)) as (b & n & e & -> & Hw & Hc & _ & Ha & Hs).
  split; [by eapply fresh_eq|]. by rewrite Hc, content_New.
Qed.

Lemma complete_record_exact_witness : ∃ c, IsCompleteRecord [w_buffer (x17 :: x03 :: x03 :: x00 :: x02 :: s2b "hi")] = Ok c ∧ c = true.
Proof.
  destruct (w_buffer_ok (x17 :: x03 :: x03 :: x00 :: x02 :: s2b "hi")) as [Hf Hc]; [by vm_compute|].
  destruct (complete_record_exact [w_buffer (x17 :: x03 :: x03 :: x00 :: x02 :: s2b "hi")]) as (c & E & H).
  - apply Forall_singleton, Hf.
  - rewrite mcontent_cons, Hc. by vm_compute.
  - exists c. split; [exact E|]. apply H. exists [s2b "hi"]. split; [apply Forall_singleton; split; reflexivity|]. rewrite mcontent_cons, Hc. reflexivity.
Defined.

