(* ===== verification/Handlers.v ===== *)
(** * Inbound and outbound managers

    Models [app/proxyman/outbound/outbound.go] and the manager of
    [app/proxyman/inbound/inbound.go]. A handler is known by its tag and an identity; whether it
    starts or closes without an error is a parameter. Go iterates over a map in any order: an
    operation that does takes the order as an argument. Operations hold the manager's lock. *)

From stdpp Require Import sorting.
From S2P Require Import Prelude Net StrMatcher IpMatcher GeoLoader Balancing.

#[local] Open Scope Z_scope.

Record Handler := mkHandler { h_id : nat; h_Tag : str }.
#[global] Instance Handler_eq_dec : EqDecision Handler.
Proof. solve_decision. Defined.

(** Calls to the handlers. *)
Inductive Event := EStart (id : nat) | EClose (id : nat).

(** [strings.Join] with a comma. *)
Definition comma : byte := x2c.
Fixpoint Join (l : list str) : str :=
  match l with [] => [] | s :: l => match l with [] => s | _ => s ++ comma :: Join l end end.

(** [sort.Strings]. *)
Definition str_le (a b : str) : Prop := str_lt b a = false.
#[global] Instance str_le_dec a b : Decision (str_le a b).
Proof. unfold str_le. apply _. Defined.
Definition sort_Strings (l : list str) : list str := merge_sort str_le l.

Section managers.
Context (StartErr CloseErr : Handler → option GoError).

(** [for _, h := range handlers { if err := h.Start(); err != nil { return err } }]. *)
Fixpoint start_all (l : list Handler) : list Event * option GoError :=
  match l with
  | [] => ([], None)
  | h :: l => match StartErr h with
              | Some e => ([EStart (h_id h)], Some e)
              | None => let '(ev, e) := start_all l in (EStart (h_id h) :: ev, e)
              end
  end.
Definition close_all (l : list Handler) : list Event := (λ h, EClose (h_id h)) <$> l.
Definition close_errors (l : list Handler) : list GoError := omap CloseErr l.

(** ** The outbound manager *)

Record Manager := mkManager {
  defaultHandler : option Handler; taggedHandler : gmap str Handler; untaggedHandlers : list Handler;
  running : bool; tagsCache : gmap str (list str)
}.
Definition New : Manager := mkManager None ∅ [] false ∅.

(** [order] lists the tagged handlers. *)
Definition Start (m : Manager) (order : list Handler) : option GoError * list Event * Manager :=
  let m := mkManager (defaultHandler m) (taggedHandler m) (untaggedHandlers m) true (tagsCache m) in
  let '(ev, err) := start_all (order ++ untaggedHandlers m) in (err, ev, m).
(** [errors.Combine] of the errors there are. *)
Definition Close (m : Manager) (order : list Handler) : list GoError * list Event * Manager :=
  let l := order ++ untaggedHandlers m in
  (close_errors l, close_all l, mkManager (defaultHandler m) (taggedHandler m) (untaggedHandlers m) false (tagsCache m)).

Definition GetDefaultHandler (m : Manager) : option Handler := defaultHandler m.
Definition GetHandler (m : Manager) (tag : str) : option Handler := taggedHandler m !! tag.

Definition AddHandler (m : Manager) (h : Handler) : option GoError * list Event * Manager :=
  let default := match defaultHandler m with None => Some h | d => d end in
  let tag := h_Tag h in
  let added :=
    if decide (0 < len tag) then
      match taggedHandler m !! tag with
      | Some _ => None
      | None => Some (mkManager default (<[tag := h]> (taggedHandler m)) (untaggedHandlers m) (running m) ∅)
      end
    else Some (mkManager default (taggedHandler m) (untaggedHandlers m ++ [h]) (running m) ∅) in
  match added with
  | None => (Some (ErrMsg "existing tag found: "), [], mkManager default (taggedHandler m) (untaggedHandlers m) (running m) ∅)
  | Some m => if running m then (StartErr h, [EStart (h_id h)], m) else (None, [], m)
  end.

Definition ErrNoClue : GoError := ErrMsg "not enough information for making a decision".
Definition RemoveHandler (m : Manager) (tag : str) : option GoError * list Event * Manager :=
  if decide (tag = []) then (Some ErrNoClue, [], m)
  else
    (None, [],
     mkManager (match defaultHandler m with Some d => if decide (h_Tag d = tag) then None else Some d | None => None end)
       (delete tag (taggedHandler m)) (untaggedHandlers m) (running m) ∅).

Definition ListHandlers (m : Manager) (order : list Handler) : list Handler := untaggedHandlers m ++ order.

(** The tags that begin with a selector, in the order of the iteration. *)
Definition selected_by (selectors : list str) (tag : str) : bool := existsb (λ s, HasPrefix tag s) selectors.
Definition Select (m : Manager) (order : list str) (selectors : list str) : list str * Manager :=
  let key := Join selectors in
  match tagsCache m !! key with
  | Some cache => (cache, m)
  | None =>
      let tags := sort_Strings (base.filter (λ t, selected_by selectors t = true) order) in
      (tags, mkManager (defaultHandler m) (taggedHandler m) (untaggedHandlers m) (running m) (<[key := tags]> (tagsCache m)))
  end.

End managers.

(** ** The inbound manager *)

Module Inbound.
Section inbound.
Context (StartErr CloseErr : Handler → option GoError).
Record Manager := mkManager { taggedHandlers : gmap str Handler; untaggedHandlers : list Handler; running : bool }.
Definition New : Manager := mkManager ∅ [] false.

Definition AddHandler (m : Manager) (h : Handler) : option GoError * list Event * Manager :=
  let tag := h_Tag h in
  let added :=
    if decide (0 < len tag) then
      match taggedHandlers m !! tag with
      | Some _ => None
      | None => Some (mkManager (<[tag := h]> (taggedHandlers m)) (untaggedHandlers m) (running m))
      end
    else Some (mkManager (taggedHandlers m) (untaggedHandlers m ++ [h]) (running m)) in
  match added with
  | None => (Some (ErrMsg "existing tag found: "), [], m)
  | Some m => if running m then (StartErr h, [EStart (h_id h)], m) else (None, [], m)
  end.
Definition GetHandler (m : Manager) (tag : str) : go Handler :=
  match taggedHandlers m !! tag with Some h => Ok h | None => Err (ErrMsg "handler not found: ") end.
Definition RemoveHandler (m : Manager) (tag : str) : option GoError * list Event * Manager :=
  if decide (tag = []) then (Some ErrNoClue, [], m)
  else match taggedHandlers m !! tag with
       | Some h => (None, [EClose (h_id h)], mkManager (delete tag (taggedHandlers m)) (untaggedHandlers m) (running m))
       | None => (Some ErrNoClue, [], m)
       end.
Definition ListHandlers (m : Manager) (order : list Handler) : list Handler := untaggedHandlers m ++ order.
Definition Start (m : Manager) (order : list Handler) : option GoError * list Event * Manager :=
  let '(ev, err) := start_all StartErr (order ++ untaggedHandlers m) in
  (err, ev, mkManager (taggedHandlers m) (untaggedHandlers m) true).
Definition Close (m : Manager) (order : list Handler) : option GoError * list Event * Manager :=
  let l := order ++ untaggedHandlers m in
  (match close_errors CloseErr l with [] => None | _ => Some (ErrMsg "failed to close all handlers") end, close_all l,
   mkManager (taggedHandlers m) (untaggedHandlers m) false).
End inbound.
End Inbound.

(** ** Selections *)

(** Selectors that a comma cannot confuse. *)
Definition good_selectors (l : list str) : Prop := l ≠ [] ∧ Forall (λ s, comma ∉ s) l.

Lemma split_comma (a b x y : str) : comma ∉ a → comma ∉ b → a ++ comma :: x = b ++ comma :: y → a = b ∧ x = y.
Proof.
  revert b. induction a as [|c a IH]; intros [|d b] Ha Hb E; cbn in E.
  - by injection E as ->.
  - injection E as <- _. destruct Hb. left.
  - injection E as -> _. destruct Ha. left.
  - injection E as <- E. apply not_elem_of_cons in Ha as [_ Ha], Hb as [_ Hb]. destruct (IH b Ha Hb E) as [-> ->]. done.
Qed.

Lemma Join_inj l1 : ∀ l2, good_selectors l1 → good_selectors l2 → Join l1 = Join l2 → l1 = l2.
Proof.
  induction l1 as [|s l1 IH]; intros l2 [H1 F1] [H2 F2] E; [done|]. destruct l2 as [|t l2]; [done|].
  apply Forall_cons_1 in F1 as [Hs F1], F2 as [Ht F2]. cbn [Join] in E. destruct l1 as [|s' l1], l2 as [|t' l2].
  - by subst.
  - subst s. destruct Hs. apply elem_of_app. right. left.
  - subst t. destruct Ht. apply elem_of_app. right. left.
  - apply split_comma in E as [-> E]; [|done|done]. f_equal. apply IH; [done..|exact E].
Qed.

Definition is_selection (tagged : gmap str Handler) (selectors l : list str) : Prop :=
  Sorted str_le l ∧ NoDup l ∧ ∀ t, t ∈ l ↔ is_Some (tagged !! t) ∧ ∃ s, s ∈ selectors ∧ HasPrefix t s = true.

#[local] Instance str_le_total : Total str_le.
Proof.
  intros a b. unfold str_le. destruct (str_lt b a) eqn:E; [|by left]. right. by apply str_lt_asym.
Qed.

(** An order of iteration over the tagged handlers. *)
Definition key_order (tagged : gmap str Handler) (order : list str) : Prop := order ≡ₚ (map_to_list tagged).*1.

Lemma select_fresh tagged order sels : key_order tagged order →
  is_selection tagged sels (sort_Strings (base.filter (λ t, selected_by sels t = true) order)).
Proof.
  intros Ho. unfold sort_Strings. split; [|split].
  - apply (Sorted_merge_sort str_le).
  - rewrite (merge_sort_Permutation str_le). apply list.NoDup_filter. rewrite Ho. apply NoDup_fst_map_to_list.
  - intros t. rewrite (merge_sort_Permutation str_le), list_elem_of_filter, Ho. unfold selected_by. rewrite existsb_iff.
    rewrite list_elem_of_fmap. split.
    + intros [(s & Hs & Hp) ([t' h] & -> & Hin)]. apply elem_of_map_to_list in Hin. cbn. split; [by exists h|]. by exists s.
    + intros [[h Hh] (s & Hs & Hp)]. split; [by exists s|]. exists (t, h). split; [done|]. by apply elem_of_map_to_list.
Qed.

Record manager_ok (m : Manager) : Prop := {
  ok_tagged : map_Forall (λ t h, h_Tag h = t ∧ t ≠ []) (taggedHandler m);
  ok_untagged : Forall (λ h, h_Tag h = []) (untaggedHandlers m);
  ok_cache : map_Forall (λ key l, ∃ sels, good_selectors sels ∧ Join sels = key ∧ is_selection (taggedHandler m) sels l) (tagsCache m)
}.

Section runs.
Context (StartErr CloseErr : Handler → option GoError).

Inductive step : Manager → Manager → Prop :=
| step_add m h : step m (AddHandler StartErr m h).2
| step_remove m tag : step m (RemoveHandler m tag).2
| step_select m order sels : key_order (taggedHandler m) order → good_selectors sels → step m (Select m order sels).2
| step_start m order : step m (Start StartErr m order).2
| step_close m order : step m (Close CloseErr m order).2.

Lemma Select_spec m order sels : manager_ok m → key_order (taggedHandler m) order → good_selectors sels →
  is_selection (taggedHandler m) sels (Select m order sels).1 ∧ manager_ok (Select m order sels).2.
Proof.
  intros [Ht Hu Hc] Ho Hg. unfold Select. destruct (tagsCache m !! Join sels) as [cache|] eqn:E.
  - split; [|by split]. destruct (Hc _ _ E) as (sels' & Hg' & Hj & Hsel). by rewrite (Join_inj sels' sels Hg' Hg Hj) in Hsel.
  - split; [by apply select_fresh|]. split; [done|done|]. cbn [tagsCache taggedHandler]. apply map_Forall_insert_2; [|done].
    exists sels. split; [done|]. split; [done|]. by apply select_fresh.
Qed.

Lemma len_pos_iff (s : str) : 0 < len s ↔ s ≠ [].
Proof. split; [intros H ->; unfold len in H; cbn [length] in H; lia|apply len_pos]. Qed.

Lemma Add_ok m h : manager_ok m → manager_ok (AddHandler StartErr m h).2.
Proof.
  intros [Ht Hu Hc]. unfold AddHandler. case_decide as Hd.
  - apply len_pos_iff in Hd. destruct (taggedHandler m !! h_Tag h) eqn:E.
    + split; [done|done|apply map_Forall_empty].
    + cbn [running]. destruct (running m); (split; cbn [snd taggedHandler untaggedHandlers tagsCache]; [by apply map_Forall_insert_2|done|apply map_Forall_empty]).
  - assert (h_Tag h = []) by (destruct (decide (h_Tag h = [])); [done|]; by destruct Hd; apply len_pos_iff).
    cbn [running]. destruct (running m); (split; cbn [snd taggedHandler untaggedHandlers tagsCache]; [done| |apply map_Forall_empty]; apply Forall_app; split; [done|by apply Forall_singleton]).
Qed.

Lemma mstep_ok m m' : manager_ok m → step m m' → manager_ok m'.
Proof.
  intros Hm Hs. destruct Hs as [m h|m tag|m order sels Ho Hg|m order|m order].
  - by apply Add_ok.
  - unfold RemoveHandler. case_decide; [done|]. destruct Hm as [Ht Hu Hc]. split; cbn [snd taggedHandler untaggedHandlers tagsCache]; [by apply map_Forall_delete|done|apply map_Forall_empty].
  - by apply Select_spec.
  - unfold Start. destruct (start_all _ _). destruct Hm. by split.
  - destruct Hm. by split.
Qed.

Lemma New_ok : manager_ok New.
Proof. split; [apply map_Forall_empty|apply Forall_nil_2|apply map_Forall_empty]. Qed.

Lemma run_ok m : rtc step New m → manager_ok m.
Proof. intros H. pose proof New_ok as Hn. induction H as [|a b c Hab _ IH]; [done|]. apply IH. by eapply mstep_ok. Qed.

(** However handlers are added and removed, selecting by prefixes (cached or not) gives exactly
    the tags of the registered handlers that begin with one of the selectors, in order and without
    repetition, and a handler found by tag carries that tag. *)
Lemma outbound_select_exact m order sels : rtc step New m → key_order (taggedHandler m) order → good_selectors sels →
  is_selection (taggedHandler m) sels (Select m order sels).1 ∧
  (∀ tag h, GetHandler m tag = Some h → h_Tag h = tag ∧ tag ≠ []).
Proof.
  intros Hr Ho Hg. apply run_ok in Hr. split; [by apply Select_spec|]. intros tag h Hh. by apply (ok_tagged m Hr).
Qed.

End runs.

(** ** Balancers over the manager *)

(** A balancer over the outbound manager picks, unless it is overridden or falls back, the tag of
    a registered handler that begins with one of its selectors and that the report does not call
    dead; the router that asks the manager for the tag finds that handler. *)
Lemma balancer_over_manager {Fl : Type} `{HFl : FloatOps Fl} (Compile : str → option GoError) (FindString : str → str → str) (Intn : Z → Z)
    StartErr CloseErr m order (b : Balancer (Fl := Fl)) obs :
  (∀ n, 0 < n → 0 ≤ Intn n < n) → rtc (step StartErr CloseErr) New m → key_order (taggedHandler m) order →
  good_selectors (b_selectors b) → b_override b = [] → strategy_ok Compile FindString (b_strategy b) → report_ok (b_strategy b) obs →
  match (Balancer_PickOutbound Compile FindString Intn (Some (λ sels, (Select m order sels).1)) b obs).1 with
  | Ok tag => (tag = b_fallbackTag b ∧ tag ≠ []) ∨
      ∃ h s, GetHandler m tag = Some h ∧ h_Tag h = tag ∧ s ∈ b_selectors b ∧ HasPrefix tag s = true ∧ reported_alive (b_strategy b) obs tag
  | Err _ => b_fallbackTag b = []
  | Panic => False
  end.
Proof.
  intros Hi Hr Ho Hg Hov Hst Hrep. apply run_ok in Hr.
  pose proof (balancer_pick_ok Compile FindString Intn (Some (λ sels, (Select m order sels).1)) Hi b obs Hst Hrep) as H.
  destruct (Balancer_PickOutbound _ _ _ _ _ _) as [r b']. cbn [fst]. destruct H as [_ H]. destruct r as [tag|e|]; [|done|done].
  destruct H as [[-> Hf]|(cands & Es & Hc)]; [by left|right]. rewrite Hov, decide_False in Hc by (by intros []). destruct Hc as [Hin Hal].
  unfold SelectOutbounds in Es. injection Es as <-. destruct (Select_spec m order _ Hr Ho Hg) as [(_ & _ & Hsel) _].
  apply Hsel in Hin as [[h Hh] (s & Hs & Hp)]. exists h, s. split; [done|]. split; [by apply (ok_tagged m Hr)|]. done.
Qed.

(** ** The life of inbound handlers *)

Definition apply_event (live : gset nat) (e : Event) : gset nat :=
  match e with EStart i => {[i]} ∪ live | EClose i => live ∖ {[i]} end.
Definition apply_events (live : gset nat) (ev : list Event) : gset nat := foldl apply_event live ev.

Definition handlers (m : Inbound.Manager) : list Handler := Inbound.untaggedHandlers m ++ (map_to_list (Inbound.taggedHandlers m)).*2.
Definition ids (m : Inbound.Manager) : gset nat := list_to_set (h_id <$> handlers m).
Definition handler_order (m : Inbound.Manager) (order : list Handler) : Prop := order ≡ₚ (map_to_list (Inbound.taggedHandlers m)).*2.

Section inbound_runs.
Context (StartErr CloseErr : Handler → option GoError).
Hypothesis starts : ∀ h, StartErr h = None.

(** A manager with the handlers that are running: added handlers are new ones. *)
Inductive istep : Inbound.Manager * gset nat → Inbound.Manager * gset nat → Prop :=
| istep_add m live h err ev m' : Inbound.AddHandler StartErr m h = (err, ev, m') → h_id h ∉ ids m →
    istep (m, live) (m', apply_events live ev)
| istep_remove m live tag err ev m' : Inbound.RemoveHandler m tag = (err, ev, m') → istep (m, live) (m', apply_events live ev)
| istep_start m live order err ev m' : handler_order m order → Inbound.Start StartErr m order = (err, ev, m') →
    istep (m, live) (m', apply_events live ev)
| istep_close m live order err ev m' : handler_order m order → Inbound.Close CloseErr m order = (err, ev, m') →
    istep (m, live) (m', apply_events live ev).

Lemma start_all_ok l : start_all StartErr l = ((λ h, EStart (h_id h)) <$> l, None).
Proof. induction l as [|h l IH]; [done|]. cbn [start_all]. by rewrite starts, IH. Qed.

Lemma apply_starts l : ∀ live, apply_events live ((λ h, EStart (h_id h)) <$> l) = list_to_set (h_id <$> l) ∪ live.
Proof.
  induction l as [|h l IH]; intros live; [cbn; set_solver|]. unfold apply_events in *. cbn [fmap list_fmap foldl apply_event list_to_set].
  change (list_fmap _ _ _ l) with ((λ h, EStart (h_id h)) <$> l). rewrite IH. set_solver.
Qed.
Lemma apply_closes l : ∀ live, apply_events live (close_all l) = live ∖ list_to_set (h_id <$> l).
Proof.
  induction l as [|h l IH]; intros live; [cbn; set_solver|]. unfold apply_events, close_all in *. cbn [fmap list_fmap foldl apply_event list_to_set].
  change (list_fmap _ _ _ l) with ((λ h, EClose (h_id h)) <$> l). rewrite IH. set_solver.
Qed.

Lemma ids_insert t h tagged unt r : tagged !! t = None →
  ids (Inbound.mkManager (<[t := h]> tagged) unt r) = {[h_id h]} ∪ ids (Inbound.mkManager tagged unt r).
Proof.
  intros Hn. unfold ids, handlers. cbn. rewrite map_to_list_insert by done. rewrite !fmap_app, !fmap_cons. rewrite !list_to_set_app_L. cbn. set_solver.
Qed.
Lemma ids_snoc h tagged unt r : ids (Inbound.mkManager tagged (unt ++ [h]) r) = {[h_id h]} ∪ ids (Inbound.mkManager tagged unt r).
Proof. unfold ids, handlers. cbn. rewrite !fmap_app, !list_to_set_app_L. cbn. set_solver. Qed.

Record inbound_ok (s : Inbound.Manager * gset nat) : Prop := {
  io_live : s.2 = if Inbound.running s.1 then ids s.1 else ∅;
  io_nodup : NoDup (h_id <$> handlers s.1)
}.

Lemma ids_order m order : handler_order m order → list_to_set (h_id <$> order ++ Inbound.untaggedHandlers m) = ids m.
Proof. intros Ho. unfold ids, handlers. rewrite Ho, !fmap_app, !list_to_set_app_L. set_solver. Qed.

Lemma delete_ids tag h (m : Inbound.Manager) r : NoDup (h_id <$> handlers m) → Inbound.taggedHandlers m !! tag = Some h →
  let m' := Inbound.mkManager (delete tag (Inbound.taggedHandlers m)) (Inbound.untaggedHandlers m) r in
  ids m' = ids m ∖ {[h_id h]} ∧ NoDup (h_id <$> handlers m').
Proof.
  intros Hnd Hh m'.
  assert (Hp : h_id <$> handlers m ≡ₚ h_id h :: (h_id <$> handlers m')).
  { unfold handlers, m'. cbn. rewrite <- (insert_delete_id (Inbound.taggedHandlers m) tag h) at 1 by done.
    rewrite map_to_list_insert by apply lookup_delete_eq. rewrite !fmap_app, !fmap_cons. symmetry. apply Permutation_middle. }
  rewrite Hp in Hnd. apply list.NoDup_cons in Hnd as [Hni Hnd]. split; [|done]. apply set_eq. intros i. unfold ids at 1 2.
  rewrite elem_of_difference, !elem_of_list_to_set, Hp, elem_of_singleton, elem_of_cons. split; [|tauto].
  intros Hi. split; [by right|]. by intros ->.
Qed.

Lemma istep_ok s s' : inbound_ok s → istep s s' → inbound_ok s'.
Proof.
  intros [Hl Hnd] Hs. destruct Hs as [m live h err ev m' E Hf|m live tag err ev m' E|m live order err ev m' Ho E|m live order err ev m' Ho E]; cbn in Hl, Hnd.
  - assert (Hnew : ∀ m1, (Inbound.running m1 = Inbound.running m) → ids m1 = {[h_id h]} ∪ ids m → NoDup (h_id <$> handlers m1) →
      (if Inbound.running m1 then (StartErr h, [EStart (h_id h)], m1) else (None, [], m1)) = (err, ev, m') → inbound_ok (m', apply_events live ev)).
    { intros m1 Hr Hids Hnd1 E1. rewrite Hr in E1. destruct (Inbound.running m) eqn:Er; injection E1 as _ <- <-; split; cbn; rewrite ?Hr, ?Hids, ?Hl; done. }
    assert (Hni : h_id h ∉ (h_id <$> handlers m)) by (intros Hin; by apply Hf, elem_of_list_to_set).
    unfold Inbound.AddHandler in E. case_decide.
    + destruct (Inbound.taggedHandlers m !! h_Tag h) eqn:Et; [injection E as _ <- <-; by split|].
      refine (Hnew _ _ _ _ E); [done|by rewrite ids_insert by done; by destruct m|].
      assert (Hp : handlers (Inbound.mkManager (<[h_Tag h := h]> (Inbound.taggedHandlers m)) (Inbound.untaggedHandlers m) (Inbound.running m)) ≡ₚ h :: handlers m).
      { unfold handlers. cbn. rewrite map_to_list_insert by done. rewrite fmap_cons. symmetry. apply Permutation_middle. }
      rewrite Hp, fmap_cons. by apply list.NoDup_cons.
    + refine (Hnew _ _ _ _ E); [done|by rewrite ids_snoc; by destruct m|].
      assert (Hp : handlers (Inbound.mkManager (Inbound.taggedHandlers m) (Inbound.untaggedHandlers m ++ [h]) (Inbound.running m)) ≡ₚ h :: handlers m).
      { unfold handlers. cbn. rewrite <- app_assoc. symmetry. apply Permutation_middle. }
      rewrite Hp, fmap_cons. by apply list.NoDup_cons.
  - unfold Inbound.RemoveHandler in E. case_decide; [injection E as _ <- <-; by split|].
    destruct (Inbound.taggedHandlers m !! tag) as [h|] eqn:Et; injection E as _ <- <-; [|by split].
    destruct (delete_ids tag h m (Inbound.running m) Hnd Et) as [Hi Hn]. split; [|done]. cbn [fst snd Inbound.running]. unfold apply_events. cbn [foldl apply_event]. rewrite Hi, Hl. destruct (Inbound.running m); set_solver.
  - unfold Inbound.Start in E. rewrite start_all_ok in E. injection E as _ <- <-. split; [|done]. cbn [fst snd Inbound.running]. rewrite apply_starts, ids_order by done. rewrite Hl.
    change (ids (Inbound.mkManager _ _ _)) with (ids m). destruct (Inbound.running m); set_solver.
  - unfold Inbound.Close in E. injection E as _ <- <-. split; [|done]. cbn [fst snd Inbound.running]. rewrite apply_closes, ids_order by done. rewrite Hl. destruct (Inbound.running m); set_solver.
Qed.

(** In every run of the inbound manager whose handlers start without an error, the handlers that
    run are exactly the registered ones while the manager runs, and none when it does not: a removed
    handler has been closed, and so has every handler of a closed manager. *)
Lemma inbound_lifecycle m live : rtc istep (Inbound.New, ∅) (m, live) →
  live = if Inbound.running m then ids m else ∅.
Proof.
  intros H. assert (Hn : inbound_ok (Inbound.New, ∅)) by (split; [done|apply NoDup_nil_2]).
  enough (inbound_ok (m, live)) by by apply (io_live (m, live)).
  remember (Inbound.New, ∅) as s eqn:Es. clear Es. induction H as [|a b c Hab _ IH]; [done|]. apply IH. by eapply istep_ok.
Qed.

End inbound_runs.

(** ** Where the outbound manager differs *)

(** A removed handler is not closed. *)
Lemma outbound_remove_no_close m tag : (RemoveHandler m tag).1.2 = [].
Proof. unfold RemoveHandler. by case_decide. Qed.

(** A handler whose tag is taken is refused, and yet becomes the default handler when there is none. *)
Lemma rejected_becomes_default StartErr m h h' : defaultHandler m = None → taggedHandler m !! h_Tag h = Some h' → h_Tag h ≠ [] →
  ∃ e ev m', AddHandler StartErr m h = (Some e, ev, m') ∧ GetDefaultHandler m' = Some h ∧ GetHandler m' (h_Tag h) = Some h'.
Proof.
  intros Hd Ht Hne. unfold AddHandler. rewrite Hd, Ht, decide_True by by apply len_pos_iff. eexists _, _, _. split; [reflexivity|]. done.
Qed.

(** Selections share the key of the joined selectors: after selecting by "a" and "b", selecting by
    the prefix "a,b" answers with theirs. *)
Lemma select_key_collides : let h := mkHandler 0 (s2b "a1") in
  let m := (AddHandler (λ _, None) New h).2 in
  (Select (Select m [s2b "a1"] [s2b "a"; s2b "b"]).2 [s2b "a1"] [s2b "a,b"]).1 = [s2b "a1"] ∧ HasPrefix (s2b "a1") (s2b "a,b") = false.
Proof. split; vm_compute; reflexivity. Qed.

(** ** Witnesses *)

Definition w_h (i : nat) (t : string) : Handler := mkHandler i (s2b t).
Definition w_add (m : Manager) (h : Handler) : Manager := (AddHandler (λ _, None) m h).2.
Definition w_m : Manager := w_add (w_add New (w_h 0 "proxy-1")) (w_h 1 "direct").

Lemma w_m_run : rtc (step (λ _, None) (λ _, None)) New w_m.
Proof. eapply rtc_l; [|apply rtc_once]; apply (step_add (λ _, None) (λ _, None)). Qed.
Lemma w_order : key_order (taggedHandler w_m) [s2b "direct"; s2b "proxy-1"].
Proof.
  unfold key_order. change (taggedHandler w_m) with (<[s2b "direct" := w_h 1 "direct"]> {[s2b "proxy-1" := w_h 0 "proxy-1"]} : gmap str Handler).
  rewrite map_to_list_insert by done. by rewrite map_to_list_singleton.
Qed.
Lemma w_good : good_selectors [s2b "proxy"].
Proof. split; [done|]. apply Forall_singleton. vm_compute. intros H. repeat (apply elem_of_cons in H as [?|H]; [done|]). by apply elem_of_nil in H. Qed.

Lemma outbound_select_exact_witness : s2b "proxy-1" ∈ (Select w_m [s2b "direct"; s2b "proxy-1"] [s2b "proxy"]).1.
Proof.
  destruct (outbound_select_exact (λ _, None) (λ _, None) w_m _ _ w_m_run w_order w_good) as [(_ & _ & H) _]. apply H.
  split; [by eexists|]. exists (s2b "proxy"). split; [left|reflexivity].
Defined.

#[local] Instance w_float : FloatOps Z := {|
  f_one := 1; f_pos z := bool_decide (0 < z); f_parse _ := None; f_scale v w := v * w; f_ratio_gt a b x := bool_decide (x * b < a) |}.
Lemma balancer_over_manager_witness :
  (Balancer_PickOutbound (λ _, None) (λ _ _, []) (λ _, 0) (Some (λ sels, (Select w_m [s2b "direct"; s2b "proxy-1"] sels).1))
     (mkBalancer [s2b "proxy"] (RandomStrategy (Fl := Z) false) [] []) Obs_error).1 = Ok (s2b "proxy-1") ∧
  ∃ h, GetHandler w_m (s2b "proxy-1") = Some h ∧ h_Tag h = s2b "proxy-1".
Proof.
  pose proof (balancer_over_manager (λ _, None) (λ _ _, []) (λ _, 0) (λ _, None) (λ _, None) w_m _
    (mkBalancer [s2b "proxy"] (RandomStrategy (Fl := Z) false) [] []) Obs_error ltac:(intros; lia) w_m_run w_order w_good eq_refl I ltac:(done)) as H.
  assert (E : (Balancer_PickOutbound (λ _, None) (λ _ _, []) (λ _, 0) (Some (λ sels, (Select w_m [s2b "direct"; s2b "proxy-1"] sels).1))
     (mkBalancer [s2b "proxy"] (RandomStrategy (Fl := Z) false) [] []) Obs_error).1 = Ok (s2b "proxy-1")) by (vm_compute; reflexivity).
  split; [exact E|]. rewrite E in H. destruct H as [[H _]|(h & s & H & Ht & _)]; [discriminate H|]. exists h. split; assumption.
Defined.

Definition w_in (r : bool) : Inbound.Manager := Inbound.mkManager ∅ [w_h 7 ""] r.
Lemma inbound_lifecycle_witness : apply_events ∅ [EStart 7] = ids (w_in true).
Proof.
  apply (inbound_lifecycle (λ _, None) (λ _, None) (λ _, eq_refl) (w_in true)).
  eapply rtc_l; [apply (istep_add (λ _, None) (λ _, None) Inbound.New ∅ (w_h 7 "") None [] (w_in false)); [reflexivity|]|apply rtc_once].
  - apply not_elem_of_empty.
  - apply (istep_start (λ _, None) (λ _, None) (w_in false) ∅ [] None [EStart 7] (w_in true)); [|reflexivity].
    unfold handler_order. cbn [Inbound.taggedHandlers w_in]. rewrite map_to_list_empty. apply Permutation_refl.
Defined.
