(* ===== verification/Lru.v ===== *)
(** * The cache of least recent use

    Models [common/cache/lru.go]. The linked list and the two maps share elements by pointer: an
    element is a number, [elems] holds what it points to, [order] is the list, front first. *)

From S2P Require Import Prelude.

#[local] Open Scope Z_scope.

Section lru.
Context {K V : Type} `{HeK : EqDecision K} `{HcK : !Countable K} `{HeV : EqDecision V} `{HcV : !Countable V}.

Record lru := mkLru {
  capacity : Z; order : list nat; elems : gmap nat (K * V);
  keyToElement : gmap K nat; valueToElement : gmap V nat; next : nat
}.

Definition NewLru (cap : Z) : lru := mkLru cap [] ∅ ∅ ∅ 0.

(** [list.MoveToFront]: nothing for an element that left the list. *)
Definition MoveToFront (l : list nat) (e : nat) : list nat :=
  if decide (e ∈ l) then e :: base.filter (λ x, x ≠ e) l else l.
Definition touch (l : lru) (e : nat) : lru :=
  mkLru (capacity l) (MoveToFront (order l) e) (elems l) (keyToElement l) (valueToElement l) (next l).

Definition Get (l : lru) (key : K) : option V * lru :=
  match keyToElement l !! key with
  | Some e => (snd <$> elems l !! e, touch l e)
  | None => (None, l)
  end.
Definition GetKeyFromValue (l : lru) (value : V) : option K * lru :=
  match valueToElement l !! value with
  | Some e => (fst <$> elems l !! e, touch l e)
  | None => (None, l)
  end.
Definition PeekKeyFromValue (l : lru) (value : V) : option K :=
  match valueToElement l !! value with Some e => fst <$> elems l !! e | None => None end.

(** Remove the back element from the list and what it holds from the maps. *)
Definition evict (l : lru) : lru :=
  match list.last (order l) with
  | None => l
  | Some e =>
      match elems l !! e with
      | None => l
      | Some (k, v) =>
          mkLru (capacity l) (base.filter (λ x, x ≠ e) (order l)) (elems l) (delete k (keyToElement l)) (delete v (valueToElement l)) (next l)
      end
  end.

Definition Put (l : lru) (key : K) (value : V) : lru :=
  match keyToElement l !! key with
  | Some e => touch (mkLru (capacity l) (order l) (<[e := (key, value)]> (elems l)) (keyToElement l) (valueToElement l) (next l)) e
  | None =>
      let e := next l in
      let l := mkLru (capacity l) (e :: order l) (<[e := (key, value)]> (elems l))
                 (<[key := e]> (keyToElement l)) (<[value := e]> (valueToElement l)) (S e) in
      if decide (len (order l) > capacity l) then evict l else l
  end.

(** ** The pairs, most recent first *)

Definition view (l : lru) : list (K * V) := omap (λ e, elems l !! e) (order l).

Record lru_ok (l : lru) : Prop := {
  ok_order : NoDup (order l);
  ok_elems : ∀ e, e ∈ order l → is_Some (elems l !! e);
  ok_keys : ∀ k e, keyToElement l !! k = Some e ↔ e ∈ order l ∧ ∃ v, elems l !! e = Some (k, v);
  ok_values : ∀ v e, valueToElement l !! v = Some e ↔ e ∈ order l ∧ ∃ k, elems l !! e = Some (k, v);
  ok_next : ∀ e, e ∈ order l → (e < next l)%nat;
  ok_size : len (order l) ≤ Z.max 0 (capacity l)
}.

Lemma NewLru_ok cap : lru_ok (NewLru cap).
Proof.
  split; cbn; [apply NoDup_nil_2|by intros e ?%elem_of_nil| | |by intros e ?%elem_of_nil|unfold len; cbn; lia].
  - intros k e. split; [by rewrite lookup_empty|by intros [?%elem_of_nil _]].
  - intros v e. split; [by rewrite lookup_empty|by intros [?%elem_of_nil _]].
Qed.

Lemma elem_of_view l k v : (k, v) ∈ view l ↔ ∃ e, e ∈ order l ∧ elems l !! e = Some (k, v).
Proof. unfold view. by rewrite list_elem_of_omap. Qed.

Lemma view_key l k : lru_ok l → k ∈ (view l).*1 ↔ is_Some (keyToElement l !! k).
Proof.
  intros Hl. rewrite list_elem_of_fmap. split.
  - intros ([k' v] & -> & (e & He & Hv)%elem_of_view). exists e. apply (ok_keys l Hl). split; [done|]. by exists v.
  - intros [e (He & v & Hv)%(ok_keys l Hl)]. exists (k, v). split; [done|]. apply elem_of_view. by exists e.
Qed.
Lemma view_value l v : lru_ok l → v ∈ (view l).*2 ↔ is_Some (valueToElement l !! v).
Proof.
  intros Hl. rewrite list_elem_of_fmap. split.
  - intros ([k v'] & -> & (e & He & Hv)%elem_of_view). exists e. apply (ok_values l Hl). split; [done|]. by exists k.
  - intros [e (He & k & Hv)%(ok_values l Hl)]. exists (k, v). split; [done|]. apply elem_of_view. by exists e.
Qed.

Lemma view_length l : lru_ok l → length (view l) = length (order l).
Proof.
  intros Hl. pose proof (ok_elems l Hl) as He. unfold view. induction (order l) as [|e o IH]; [done|]. cbn [omap list_omap].
  destruct (He e ltac:(left)) as [x ->]. cbn [length]. f_equal. apply IH. intros e' H'. apply He. by right.
Qed.

(** An element takes part in the list by one position. *)
Lemma MoveToFront_perm o e : NoDup o → MoveToFront o e ≡ₚ o.
Proof.
  intros Hnd. unfold MoveToFront. case_decide as He; [|done]. apply NoDup_Permutation; [|done|].
  - apply list.NoDup_cons. split; [|by apply list.NoDup_filter]. rewrite list_elem_of_filter. naive_solver.
  - intros x. rewrite elem_of_cons, list_elem_of_filter. destruct (decide (x = e)); naive_solver.
Qed.

Lemma touch_ok l e : lru_ok l → lru_ok (touch l e).
Proof.
  intros Hl. pose proof (MoveToFront_perm (order l) e (ok_order l Hl)) as Hp. destruct Hl as [H1 H2 H3 H4 H5 H6]. split; cbn.
  - by rewrite Hp.
  - intros x. rewrite Hp. apply H2.
  - intros k x. rewrite Hp. apply H3.
  - intros k x. rewrite Hp. apply H4.
  - intros x. rewrite Hp. apply H5.
  - unfold len in *. by rewrite Hp.
Qed.

(** The pairs a test holds of, and then the others. *)
Definition front (P : K * V → Prop) `{HP : ∀ x, Decision (P x)} (s : list (K * V)) : list (K * V) :=
  base.filter P s ++ base.filter (λ x, ¬ P x) s.

Lemma omap_filter_out o m e (P : K * V → Prop) `{HP : ∀ x, Decision (P x)} : NoDup o →
  (∀ x kv, x ∈ o → m !! x = Some kv → P kv ↔ x = e) →
  omap (λ x, (m : gmap nat (K * V)) !! x) (base.filter (λ x, x ≠ e) o) = base.filter (λ x, ¬ P x) (omap (λ x, m !! x) o).
Proof.
  intros Hnd HPe. induction o as [|x o IH]; [done|]. apply list.NoDup_cons in Hnd as [Hx Hnd].
  assert (IH' := IH Hnd ltac:(intros y kv Hy; apply HPe; by right)). cbn [omap list_omap]. rewrite filter_cons. destruct (m !! x) as [kv|] eqn:E.
  - rewrite filter_cons. pose proof (HPe x kv ltac:(left) E) as Hk. destruct (decide (x ≠ e)), (decide (¬ P kv)); cbn [omap list_omap]; rewrite ?E, ?IH'; tauto || done.
  - destruct (decide (x ≠ e)); cbn [omap list_omap]; rewrite ?E; apply IH'.
Qed.

Lemma filter_one o m e kv (P : K * V → Prop) `{HP : ∀ x, Decision (P x)} : NoDup o → e ∈ o → (m : gmap nat (K * V)) !! e = Some kv →
  (∀ x kv, x ∈ o → m !! x = Some kv → P kv ↔ x = e) → base.filter P (omap (λ x, m !! x) o) = [kv].
Proof.
  intros Hnd He Hm HPe. induction o as [|x o IH]; [by apply elem_of_nil in He|]. apply list.NoDup_cons in Hnd as [Hx Hnd]. cbn [omap list_omap].
  assert (Hrest : ∀ y kv, y ∈ o → m !! y = Some kv → P kv ↔ y = e) by (intros y kv' Hy; apply HPe; by right).
  apply elem_of_cons in He as [<-|He].
  - rewrite Hm, filter_cons. rewrite decide_True by (by apply (HPe e kv ltac:(left) Hm)). f_equal.
    assert (Hno : ∀ o', (∀ y, y ∈ o' → y ≠ e) → (∀ y kv, y ∈ o' → m !! y = Some kv → P kv ↔ y = e) → base.filter P (omap (λ x, m !! x) o') = []).
    { clear. intros o'. induction o' as [|y o' IH]; intros Hne Hiff; [done|]. cbn [omap list_omap].
      assert (H' := IH ltac:(intros z Hz; apply Hne; by right) ltac:(intros z kv Hz; apply Hiff; by right)).
      destruct (m !! y) as [kv|] eqn:E; [|done]. rewrite filter_cons, decide_False; [done|]. rewrite (Hiff y kv ltac:(left) E). apply Hne. left. }
    apply Hno; [|done]. by intros y Hy ->.
  - destruct (m !! x) as [kv'|] eqn:E; [|by apply IH]. rewrite filter_cons, decide_False; [by apply IH|]. rewrite (HPe x kv' ltac:(left) E). by intros ->.
Qed.

Lemma touch_view l e kv (P : K * V → Prop) `{HP : ∀ x, Decision (P x)} : lru_ok l → e ∈ order l → elems l !! e = Some kv →
  (∀ x kv, x ∈ order l → elems l !! x = Some kv → P kv ↔ x = e) → view (touch l e) = front P (view l).
Proof.
  intros Hl He Hm HPe. unfold view, touch, MoveToFront, front. cbn [order elems]. rewrite decide_True by done. cbn [omap list_omap]. rewrite Hm.
  rewrite (omap_filter_out (order l) (elems l) e P (ok_order l Hl) HPe). by rewrite (filter_one (order l) (elems l) e kv P (ok_order l Hl) He Hm HPe).
Qed.

Lemma front_none (P : K * V → Prop) `{HP : ∀ x, Decision (P x)} s : (∀ x, x ∈ s → ¬ P x) → front P s = s.
Proof.
  unfold front. induction s as [|x s IH]; intros H; [done|]. rewrite !filter_cons, decide_False by (apply H; left).
  rewrite decide_True by (apply H; left).
  assert (IH' := IH ltac:(intros y Hy; apply H; by right)). destruct (base.filter P s) as [|y t] eqn:E; [cbn [app] in *; by rewrite IH'|].
  assert (Hy : y ∈ base.filter P s) by (rewrite E; left). apply list_elem_of_filter in Hy as [Hp Hy].
  exfalso. apply (H y); [by right|done].
Qed.

(** ** The abstract cache: a list of pairs *)

Definition assoc_key (s : list (K * V)) (k : K) : option V := snd <$> head (base.filter (λ x, x.1 = k) s).
Definition assoc_value (s : list (K * V)) (v : V) : option K := fst <$> head (base.filter (λ x, x.2 = v) s).

Lemma lru_Get l k : lru_ok l → lru_ok (Get l k).2 ∧ (Get l k).1 = assoc_key (view l) k ∧ view (Get l k).2 = front (λ x, x.1 = k) (view l).
Proof.
  intros Hl. unfold Get. destruct (keyToElement l !! k) as [e|] eqn:E.
  - apply (ok_keys l Hl) in E as Hk. destruct Hk as (He & v & Hv). split; [by apply touch_ok|].
    assert (HP : ∀ x kv, x ∈ order l → elems l !! x = Some kv → kv.1 = k ↔ x = e).
    { intros x [k' v'] Hx Hm. cbn. split; [|intros ->; rewrite Hv in Hm; by injection Hm].
      intros ->. assert (Hk' : keyToElement l !! k = Some x) by (apply (ok_keys l Hl); eauto). congruence. }
    cbn [fst snd]. split; [|by eapply (touch_view l e (k, v) (λ x, x.1 = k))].
    unfold assoc_key, view. rewrite (filter_one (order l) (elems l) e (k, v) (λ x, x.1 = k) (ok_order l Hl) He Hv HP). by rewrite Hv.
  - assert (Hn : ∀ x, x ∈ view l → ¬ x.1 = k).
    { intros [k' v'] (x & Hx & Hm)%elem_of_view Heq. cbn in Heq. subst k'. assert (keyToElement l !! k = Some x) by (apply (ok_keys l Hl); eauto). congruence. }
    split; [done|]. cbn [fst snd]. rewrite front_none by done. split; [|done]. unfold assoc_key.
    destruct (base.filter (λ x, x.1 = k) (view l)) as [|y t] eqn:Ef; [done|]. exfalso.
    assert (Hy : y ∈ base.filter (λ x, x.1 = k) (view l)) by (rewrite Ef; left). apply list_elem_of_filter in Hy as [? ?]. by eapply Hn.
Qed.

Lemma lru_GetKey l v : lru_ok l → lru_ok (GetKeyFromValue l v).2 ∧ (GetKeyFromValue l v).1 = assoc_value (view l) v ∧
  view (GetKeyFromValue l v).2 = front (λ x, x.2 = v) (view l).
Proof.
  intros Hl. unfold GetKeyFromValue. destruct (valueToElement l !! v) as [e|] eqn:E.
  - apply (ok_values l Hl) in E as Hk. destruct Hk as (He & k & Hv). split; [by apply touch_ok|].
    assert (HP : ∀ x kv, x ∈ order l → elems l !! x = Some kv → kv.2 = v ↔ x = e).
    { intros x [k' v'] Hx Hm. cbn. split; [|intros ->; rewrite Hv in Hm; by injection Hm].
      intros ->. assert (Hk' : valueToElement l !! v = Some x) by (apply (ok_values l Hl); eauto). congruence. }
    cbn [fst snd]. split; [|by eapply (touch_view l e (k, v) (λ x, x.2 = v))].
    unfold assoc_value, view. rewrite (filter_one (order l) (elems l) e (k, v) (λ x, x.2 = v) (ok_order l Hl) He Hv HP). by rewrite Hv.
  - assert (Hn : ∀ x, x ∈ view l → ¬ x.2 = v).
    { intros [k' v'] (x & Hx & Hm)%elem_of_view Heq. cbn in Heq. subst v'. assert (valueToElement l !! v = Some x) by (apply (ok_values l Hl); eauto). congruence. }
    split; [done|]. cbn [fst snd]. rewrite front_none by done. split; [|done]. unfold assoc_value.
    destruct (base.filter (λ x, x.2 = v) (view l)) as [|y t] eqn:Ef; [done|]. exfalso.
    assert (Hy : y ∈ base.filter (λ x, x.2 = v) (view l)) by (rewrite Ef; left). apply list_elem_of_filter in Hy as [? ?]. by eapply Hn.
Qed.

Lemma lru_Peek l v : lru_ok l → PeekKeyFromValue l v = assoc_value (view l) v.
Proof.
  intros Hl. destruct (lru_GetKey l v Hl) as (_ & <- & _). unfold PeekKeyFromValue, GetKeyFromValue. by destruct (valueToElement l !! v).
Qed.

(** *** Putting a new pair *)

Definition pushed (l : lru) (k : K) (v : V) : lru :=
  mkLru (capacity l) (next l :: order l) (<[next l := (k, v)]> (elems l)) (<[k := next l]> (keyToElement l)) (<[v := next l]> (valueToElement l)) (S (next l)).

Lemma pushed_elems l k v e : lru_ok l → e ∈ order l → <[next l := (k, v)]> (elems l) !! e = elems l !! e.
Proof. intros Hl He. apply lookup_insert_ne. pose proof (ok_next l Hl e He). lia. Qed.

Lemma view_pushed l k v : lru_ok l → view (pushed l k v) = (k, v) :: view l.
Proof.
  intros Hl. unfold view, pushed. cbn [order elems omap list_omap]. rewrite lookup_insert_eq. f_equal.
  apply list_omap_ext. apply Forall2_same_length_lookup_2; [done|]. intros i x y Hx Hy. rewrite Hx in Hy. injection Hy as <-.
  apply pushed_elems; [done|]. by eapply list_elem_of_lookup_2.
Qed.

(** All of [lru_ok] but the size. *)
Lemma pushed_ok l k v : lru_ok l → k ∉ (view l).*1 → v ∉ (view l).*2 → let l' := pushed l k v in
  NoDup (order l') ∧ (∀ e, e ∈ order l' → is_Some (elems l' !! e)) ∧
  (∀ k e, keyToElement l' !! k = Some e ↔ e ∈ order l' ∧ ∃ v, elems l' !! e = Some (k, v)) ∧
  (∀ v e, valueToElement l' !! v = Some e ↔ e ∈ order l' ∧ ∃ k, elems l' !! e = Some (k, v)) ∧
  (∀ e, e ∈ order l' → (e < next l')%nat).
Proof.
  intros Hl Hk Hv l'. rewrite view_key in Hk by done. rewrite view_value in Hv by done. unfold l', pushed. cbn [order elems keyToElement valueToElement next].
  assert (Hnew : next l ∉ order l) by (intros H; apply (ok_next l Hl) in H; lia).
  split_and!.
  - apply list.NoDup_cons. split; [done|apply Hl].
  - intros e [->|He]%elem_of_cons; [by rewrite lookup_insert_eq|]. rewrite pushed_elems by done. by apply Hl.
  - intros k' e. rewrite elem_of_cons. destruct (decide (k' = k)) as [->|Hne].
    + rewrite lookup_insert_eq. split; [intros [= <-]; split; [by left|]; exists v; by rewrite lookup_insert_eq|].
      intros [[->|He] [v' Hm]]; [done|]. rewrite pushed_elems in Hm by done. destruct Hk. exists e. apply (ok_keys l Hl). eauto.
    + rewrite lookup_insert_ne by done. rewrite (ok_keys l Hl). split.
      * intros [He [v' Hm]]. split; [by right|]. exists v'. by rewrite pushed_elems.
      * intros [[->|He] [v' Hm]]; [rewrite lookup_insert_eq in Hm; congruence|]. rewrite pushed_elems in Hm by done. eauto.
  - intros v' e. rewrite elem_of_cons. destruct (decide (v' = v)) as [->|Hne].
    + rewrite lookup_insert_eq. split; [intros [= <-]; split; [by left|]; exists k; by rewrite lookup_insert_eq|].
      intros [[->|He] [k' Hm]]; [done|]. rewrite pushed_elems in Hm by done. destruct Hv. exists e. apply (ok_values l Hl). eauto.
    + rewrite lookup_insert_ne by done. rewrite (ok_values l Hl). split.
      * intros [He [k' Hm]]. split; [by right|]. exists k'. by rewrite pushed_elems.
      * intros [[->|He] [k' Hm]]; [rewrite lookup_insert_eq in Hm; congruence|]. rewrite pushed_elems in Hm by done. eauto.
  - intros e [->|He]%elem_of_cons; [lia|]. pose proof (ok_next l Hl e He). lia.
Qed.

(** Evicting the back element. *)
Lemma filter_last (o : list nat) e : NoDup (o ++ [e]) → base.filter (λ x, x ≠ e) (o ++ [e]) = o.
Proof.
  intros Hnd. apply list.NoDup_app in Hnd as (_ & He & _). rewrite list.filter_app, filter_cons, decide_False by tauto. rewrite filter_nil, app_nil_r.
  induction o as [|x o IH]; [done|]. rewrite filter_cons, decide_True.
  - f_equal. apply IH. intros y Hy. apply He. by right.
  - intros ->. apply (He e); [left|by apply list_elem_of_singleton].
Qed.

Lemma evict_spec l o e : order l = o ++ [e] → NoDup (order l) → (∀ e, e ∈ order l → is_Some (elems l !! e)) →
  (∀ k e, keyToElement l !! k = Some e ↔ e ∈ order l ∧ ∃ v, elems l !! e = Some (k, v)) →
  (∀ v e, valueToElement l !! v = Some e ↔ e ∈ order l ∧ ∃ k, elems l !! e = Some (k, v)) →
  (∀ e, e ∈ order l → (e < next l)%nat) → len o ≤ Z.max 0 (capacity l) →
  lru_ok (evict l) ∧ view (evict l) = omap (λ x, elems l !! x) o ∧ capacity (evict l) = capacity l.
Proof.
  intros Ho Hnd Hel Hks Hvs Hnx Hsz. unfold evict. rewrite Ho, last_snoc. assert (He : e ∈ order l) by (rewrite Ho; apply elem_of_app; right; by apply list_elem_of_singleton).
  destruct (Hel e He) as [[k v] Hm]. rewrite Hm. rewrite Ho in Hnd. rewrite (filter_last o e Hnd). split; [|done].
  apply list.NoDup_app in Hnd as (Hnd & Hne & _). assert (Hin : ∀ x, x ∈ o → x ∈ order l ∧ x ≠ e).
  { intros x Hx. split; [rewrite Ho; apply elem_of_app; by left|]. intros ->. apply (Hne e Hx). by apply list_elem_of_singleton. }
  assert (Hout : ∀ x, x ∈ order l → x ≠ e → x ∈ o).
  { intros x Hx Hxe. rewrite Ho in Hx. apply elem_of_app in Hx as [|Hx%list_elem_of_singleton]; done. }
  split; cbn [order elems keyToElement valueToElement next capacity]; [done| | | | |done].
  - intros x Hx. by apply Hel, Hin.
  - intros k' x. rewrite lookup_delete_Some, Hks. split.
    + intros (Hk & Hx & v' & Hm'). split; [|eauto]. apply Hout; [done|]. intros ->. congruence.
    + intros (Hx & v' & Hm'). destruct (Hin x Hx) as [Hx' Hxe]. split; [|eauto]. intros <-. apply Hxe.
      assert (keyToElement l !! k = Some x) by (apply Hks; eauto). assert (keyToElement l !! k = Some e) by (apply Hks; eauto). congruence.
  - intros v' x. rewrite lookup_delete_Some, Hvs. split.
    + intros (Hk & Hx & k' & Hm'). split; [|eauto]. apply Hout; [done|]. intros ->. congruence.
    + intros (Hx & k' & Hm'). destruct (Hin x Hx) as [Hx' Hxe]. split; [|eauto]. intros <-. apply Hxe.
      assert (valueToElement l !! v = Some x) by (apply Hvs; eauto). assert (valueToElement l !! v = Some e) by (apply Hvs; eauto). congruence.
  - intros x Hx. by apply Hnx, Hin.
Qed.

Lemma lru_Put l k v : lru_ok l → k ∉ (view l).*1 → v ∉ (view l).*2 →
  lru_ok (Put l k v) ∧ view (Put l k v) = take (Z.to_nat (capacity l)) ((k, v) :: view l) ∧ capacity (Put l k v) = capacity l.
Proof.
  intros Hl Hk Hv. destruct (pushed_ok l k v Hl Hk Hv) as (H1 & H2 & H3 & H4 & H5). pose proof (view_pushed l k v Hl) as Hvp. pose proof (ok_size l Hl) as Hs.
  unfold Put. rewrite view_key in Hk by done. destruct (keyToElement l !! k) as [e|]; [by destruct Hk|]. fold (pushed l k v). cbn zeta.
  change (capacity (pushed l k v)) with (capacity l). pose proof (view_length l Hl) as Hvl. case_decide as Hd.
  - destruct (exists_last (l := order (pushed l k v)) ltac:(done)) as (o & e & Ho).
    assert (Hlen : len o = len (order l)) by (apply (f_equal length) in Ho; cbn [order pushed length] in Ho; rewrite length_app in Ho; cbn [length] in Ho; unfold len; lia).
    destruct (evict_spec (pushed l k v) o e Ho H1 H2 H3 H4 H5) as (Hok & Hview & Hcap); [by rewrite Hlen|]. split; [done|]. split; [|done].
    rewrite Hview, <- Hvp. unfold view. rewrite Ho, omap_app. symmetry.
    assert (Hol : length (omap (λ x, elems (pushed l k v) !! x) o) = Z.to_nat (capacity l)).
    { apply (f_equal length) in Hvp. unfold view in Hvp at 1. rewrite Ho, omap_app, length_app in Hvp.
      destruct (H2 e) as [kv Hkv]; [rewrite Ho; apply elem_of_app; right; by apply list_elem_of_singleton|]. cbn [omap list_omap] in Hvp. rewrite Hkv in Hvp. cbn [length] in Hvp.
      cbn [order pushed] in Hd. rewrite len_cons in Hd. unfold len in *. lia. }
    rewrite <- Hol. apply take_app_length.
  - split; [|split; [|done]].
    + split; [done..|]. cbn [order pushed capacity] in *. lia.
    + rewrite Hvp, take_ge; [done|]. cbn [length]. cbn [order pushed] in Hd. rewrite len_cons in Hd. unfold len in *. lia.
Qed.

(** *** Runs *)

Inductive Op := OGet (k : K) | OGetKey (v : V) | OPeek (v : V) | OPut (k : K) (v : V).
Inductive Res := RValue (o : option V) | RKey (o : option K) | RDone.

Definition run (l : lru) (o : Op) : Res * lru :=
  match o with
  | OGet k => let '(r, l) := Get l k in (RValue r, l)
  | OGetKey v => let '(r, l) := GetKeyFromValue l v in (RKey r, l)
  | OPeek v => (RKey (PeekKeyFromValue l v), l)
  | OPut k v => (RDone, Put l k v)
  end.
(** The cache as a list, most recent first. *)
Definition spec (cap : Z) (s : list (K * V)) (o : Op) : Res * list (K * V) :=
  match o with
  | OGet k => (RValue (assoc_key s k), front (λ x, x.1 = k) s)
  | OGetKey v => (RKey (assoc_value s v), front (λ x, x.2 = v) s)
  | OPeek v => (RKey (assoc_value s v), s)
  | OPut k v => (RDone, take (Z.to_nat cap) ((k, v) :: s))
  end.
(** Only new pairs are put. *)
Definition op_ok (s : list (K * V)) (o : Op) : Prop :=
  match o with OPut k v => (k ∉ s.*1) ∧ (v ∉ s.*2) | _ => True end.

Inductive spec_run (cap : Z) : list (K * V) → list Op → list Res → list (K * V) → Prop :=
| sr_nil s : spec_run cap s [] [] s
| sr_cons s o os rs s' : op_ok s o → spec_run cap (spec cap s o).2 os rs s' → spec_run cap s (o :: os) ((spec cap s o).1 :: rs) s'.
Fixpoint run_all (l : lru) (os : list Op) : list Res * lru :=
  match os with [] => ([], l) | o :: os => let '(r, l) := run l o in let '(rs, l) := run_all l os in (r :: rs, l) end.

Lemma lru_run l o : lru_ok l → op_ok (view l) o →
  lru_ok (run l o).2 ∧ (run l o).1 = (spec (capacity l) (view l) o).1 ∧ view (run l o).2 = (spec (capacity l) (view l) o).2 ∧
  capacity (run l o).2 = capacity l.
Proof.
  intros Hl Ho. destruct o as [k|v|v|k v]; cbn [run spec].
  - destruct (lru_Get l k Hl) as (H1 & H2 & H3). assert (Hc : capacity (Get l k).2 = capacity l) by (unfold Get; by destruct (keyToElement l !! k)).
    destruct (Get l k). cbn [fst snd] in *. by rewrite H2.
  - destruct (lru_GetKey l v Hl) as (H1 & H2 & H3). assert (Hc : capacity (GetKeyFromValue l v).2 = capacity l) by (unfold GetKeyFromValue; by destruct (valueToElement l !! v)).
    destruct (GetKeyFromValue l v). cbn [fst snd] in *. by rewrite H2.
  - cbn [fst snd]. by rewrite lru_Peek.
  - destruct Ho as [Hk Hv]. destruct (lru_Put l k v Hl Hk Hv) as (H1 & H2 & H3). done.
Qed.

(** As long as only new pairs are put, the cache, a linked list and two maps that share elements,
    behaves like a list of pairs, the most recently used first, cut at the capacity: every operation
    returns what the list says, looking up moves the pair to the front, peeking does not, and putting
    into a full cache drops the pair used longest ago. *)
Lemma lru_refines cap os : ∀ rs s', spec_run cap [] os rs s' →
  (run_all (NewLru cap) os).1 = rs ∧ view (run_all (NewLru cap) os).2 = s' ∧ len s' ≤ Z.max 0 cap.
Proof.
  enough (H : ∀ s rs s', spec_run cap s os rs s' → ∀ l, lru_ok l → view l = s → capacity l = cap →
    (run_all l os).1 = rs ∧ view (run_all l os).2 = s' ∧ len s' ≤ Z.max 0 cap).
  { intros rs s' Hr. apply (H [] rs s' Hr); [apply NewLru_ok|done|done]. }
  induction os as [|o os IH]; intros s rs s' Hr l Hl Hv Hc.
  - inversion Hr; subst. split; [done|]. split; [done|]. cbn [run_all snd]. pose proof (ok_size l Hl). unfold len in *. by rewrite view_length.
  - inversion Hr as [|s0 o0 os0 rs0 s0' Hok Hrest]; subst. destruct (lru_run l o Hl Hok) as (H1 & H2 & H3 & H4).
    cbn [run_all]. destruct (run l o) as [r l']. cbn [fst snd] in *. rewrite <- H3 in Hrest. rewrite <- H4 in Hrest at 1.
    destruct (IH _ _ _ ltac:(rewrite <- H4; exact Hrest) l' H1 eq_refl H4) as (E1 & E2 & E3). destruct (run_all l' os) as [rs' l'']. cbn [fst snd] in *. subst. done.
Qed.

End lru.

Arguments lru (K V)%_type {_ _ _ _}.
Arguments Op : clear implicits.
Arguments Res : clear implicits.

Definition demo_ops : list (Op Z Z) := [OPut 1 10; OPut 2 20; OGet 1; OPut 3 30; OPeek 20; OGetKey 30; OPeek 10].

Lemma lru_refines_witness :
  (run_all (NewLru 2) demo_ops).1 = [RDone; RDone; RValue (Some 10); RDone; RKey None; RKey (Some 3); RKey (Some 1)].
Proof.
  refine (proj1 (lru_refines 2 demo_ops _ [(3, 30); (1, 10)] _)).
  repeat (refine (sr_cons _ _ _ _ _ _ _ _); [first [exact I|split; vm_compute; intros H; set_solver]|]). exact (sr_nil _ _).
Defined.

(** [Put] of a new value for a known key leaves [valueToElement] alone: the new value is not found,
    the old one still is, and stays when the pair is evicted, because the eviction deletes the new
    value. *)
Lemma put_keeps_old_value :
  let l := Put (Put (NewLru 1) 1 10) 1 11 in
  (Get l 1).1 = Some 11 ∧ PeekKeyFromValue l 11 = None ∧ PeekKeyFromValue l 10 = Some 1 ∧
  PeekKeyFromValue (Put l 2 20) 10 = Some 1.
Proof. vm_compute. done. Qed.
