(* ===== verification/FakeDns.v ===== *)
(** * Fake DNS

    Models [app/dns/fakedns/fake.go]: a holder lends the addresses of a pool to domains and
    remembers the most recent ones in a cache of least recent use ([Lru]). The clock is an
    argument. A loop that the code bounds by nothing takes fuel, [None] where it runs out. *)

From S2P Require Import Prelude Net StrMatcher IpMatcher GeoLoader Lru.

#[local] Open Scope Z_scope.

#[global] Instance Address_countable : Countable Address.
Proof.
  refine (inj_countable' (λ a, match a with ipv4Address b => inl (inl b) | ipv6Address b => inl (inr b) | domainAddress b => inr b end)
            (λ s, match s with inl (inl b) => ipv4Address b | inl (inr b) => ipv6Address b | inr b => domainAddress b end) _). by intros [].
Defined.

(** ** [math/big] *)

(** [big.Int.SetBytes], and [big.Int.Bytes]: no leading zero. Seventeen bytes hold every sum of an
    address and a 64-bit number. *)
Definition SetBytes (b : list byte) : Z := foldl (λ a c, 256 * a + byte_to_Z c) 0 b.
Fixpoint big_bytes (fuel : nat) (z : Z) (acc : list byte) : list byte :=
  match fuel with
  | O => acc
  | S fuel => if decide (z ≤ 0) then acc else big_bytes fuel (z / 256) (byte_of_Z z :: acc)
  end.
Definition Bytes (z : Z) : list byte := big_bytes 17 z [].

(** ** [net.IPNet] *)

(** A network with the mask [CIDRMask(ones, 8*len(IP))], which is how [ParseCIDR] makes them;
    [Mask.Size] gives [ones] and the number of bits back. *)
Record IPNet := mkIPNet { n_IP : list byte; n_ones : Z }.

Fixpoint CIDRMask (l : nat) (n : Z) : list Z :=
  match l with
  | O => []
  | S l => if decide (8 ≤ n) then 255 :: CIDRMask l (n - 8) else (255 - Z.shiftr 255 n) :: CIDRMask l 0
  end.
Definition Mask_Size (n : IPNet) : Z * Z := (n_ones n, 8 * len (n_IP n)).
Definition rooms_of (n : IPNet) : Z := let '(ones, bits) := Mask_Size n in bits - ones.

Definition mask_bytes (m : list Z) (i : list byte) : list byte := zip_with (λ k c, byte_of_Z (Z.land (byte_to_Z c) k)) m i.

(** [networkNumberAndMask]: an address of four bytes takes the last four bytes of a mask of sixteen. *)
Definition networkNumberAndMask (n : IPNet) : list byte * list Z :=
  let mask := CIDRMask (length (n_IP n)) (n_ones n) in
  match To4 (n_IP n) with
  | Some ip => (ip, drop (length (n_IP n) - 4) mask)
  | None => (n_IP n, mask)
  end.
Definition Contains (n : IPNet) (ip : list byte) : bool :=
  let '(nn, m) := networkNumberAndMask n in
  let ip := match To4 ip with Some x => x | None => ip end in
  bool_decide (length ip = length nn) && bool_decide (mask_bytes m nn = mask_bytes m ip).

(** [net.ParseCIDR], [None] for its errors. *)
Definition ParseCIDR (s : str) : option IPNet :=
  let '(addr, mask, found) := Cut s slash in
  if negb found then None
  else
    match GoText.ParseIP addr with
    | None => None
    | Some addr16 =>
        let ip := if decide (GoText.first_sep addr = Some x2e) then drop 12 addr16 else addr16 in
        match mask, GoText.digits_value 0 mask with
        | _ :: _, Some n =>
            if decide (n > 8 * len ip) then None else Some (mkIPNet (mask_bytes (CIDRMask (length ip) n) ip) n)
        | _, _ => None
        end
    end.

(** ** One pool *)

Record FakeDnsPool := mkFakeDnsPool { IpPool : str; LruSize : Z }.

Abbreviation Cache := (lru str (option Address)).

(** [domainToIP] and [ipRange] are set together by [initialize]; [None] while they are nil. *)
Record Holder := mkHolder { h_config : option FakeDnsPool; h_pool : option (Cache * IPNet) }.

Definition NewFakeDNSHolderConfigOnly (conf : option FakeDnsPool) : Holder := mkHolder conf None.

Section holder.
(** [math.Log2(float64(size)) >= float64(rooms)]. *)
Context (Log2_ge : Z → Z → bool).

Definition initialize (h : Holder) (ipPoolCidr : str) (lruSize : Z) : go Holder :=
  match ParseCIDR ipPoolCidr with
  | None => Err (ErrMsg "Unable to parse CIDR for Fake DNS IP assignment")
  | Some ipRange =>
      if Log2_ge lruSize (rooms_of ipRange) then Err (ErrMsg "LRU size is bigger than subnet size")
      else Ok (mkHolder (h_config h) (Some (NewLru lruSize, ipRange)))
  end.
Definition initializeFromConfig (h : Holder) : go Holder :=
  match h_config h with None => Panic | Some c => initialize h (IpPool c) (LruSize c) end.
Definition configured (h : Holder) : bool :=
  match h_config h with
  | None => false
  | Some c => bool_decide (IpPool c ≠ []) && bool_decide (LruSize c ≠ 0)
  end.
Definition Start (h : Holder) : go Holder :=
  if configured h then initializeFromConfig h else Err (ErrMsg "invalid fakeDNS setting").
Definition FakeIPv4Pool : str := s2b "198.18.0.0/15".
Definition NewFakeDNSHolder : go Holder := initialize (NewFakeDNSHolderConfigOnly None) FakeIPv4Pool 65535.

Definition IsIPInIPPool (h : Holder) (ip : Address) : go bool :=
  if IsDomain (Family ip) then Ok false
  else match h_pool h with None => Panic | Some (_, r) => i ← IP ip; Ok (Contains r i) end.

(** The search for an address that no domain holds. *)
Fixpoint free_ip (fuel : nat) (l : Cache) (r : IPNet) (bigIntIP : Z) : option (option Address) :=
  match fuel with
  | O => None
  | S fuel =>
      let ip := IPAddress (Bytes bigIntIP) in
      match PeekKeyFromValue l ip with
      | None => Some ip
      | Some _ =>
          let bigIntIP := bigIntIP + 1 in
          free_ip fuel l r (if Contains r (Bytes bigIntIP) then bigIntIP else SetBytes (n_IP r))
      end
  end.

(** The clock's value, cut to the pool. *)
Definition time_offset (r : IPNet) (now : Z) : Z :=
  let currentTimeMillis := u64 now in
  if decide (rooms_of r < 64) then currentTimeMillis mod u64 (Z.shiftl 1 (rooms_of r)) else currentTimeMillis.

(** Outside [None] for want of fuel; inside, a nil value in the cache fails the assertion to
    [net.Address]. *)
Definition GetFakeIPForDomain (fuel : nat) (h : Holder) (domain : str) (now : Z) : option (go (list (option Address)) * Holder) :=
  match h_pool h with
  | None => Some (Panic, h)
  | Some (l, r) =>
      match Get l domain with
      | (Some (Some v), l) => Some (Ok [Some v], mkHolder (h_config h) (Some (l, r)))
      | (Some None, l) => Some (Panic, mkHolder (h_config h) (Some (l, r)))
      | (None, l) =>
          match free_ip fuel l r (SetBytes (n_IP r) + time_offset r now) with
          | None => None
          | Some ip => Some (Ok [ip], mkHolder (h_config h) (Some (Put l domain ip, r)))
          end
      end
  end.

Definition GetFakeIPForDomain3 (fuel : nat) (h : Holder) (domain : str) (ipv4 ipv6 : bool) (now : Z) : option (go (list (option Address)) * Holder) :=
  match h_pool h with
  | None => Some (Panic, h)
  | Some (_, r) =>
      let isIPv6 := bool_decide (To4 (n_IP r) = None) in
      if (isIPv6 && ipv6) || (negb isIPv6 && ipv4) then GetFakeIPForDomain fuel h domain now else Some (Ok [], h)
  end.

Definition GetDomainFromFakeDNS (h : Holder) (ip : Address) : go str * Holder :=
  if negb (IsIP (Family ip)) then (Ok [], h)
  else
    match h_pool h, IP ip with
    | Some (l, r), Ok i =>
        if negb (Contains r i) then (Ok [], h)
        else
          match GetKeyFromValue l (Some ip) with
          | (Some k, l) => (Ok k, mkHolder (h_config h) (Some (l, r)))
          | (None, l) => (Ok [], mkHolder (h_config h) (Some (l, r)))
          end
    | _, _ => (Panic, h)
    end.

(** ** Several pools *)

Definition createHolderGroups (pools : list FakeDnsPool) : list Holder := (λ p, NewFakeDNSHolderConfigOnly (Some p)) <$> pools.
Definition NewFakeDNSHolderMulti (pools : list FakeDnsPool) : list Holder := createHolderGroups pools.

Fixpoint Multi_IsIPInIPPool_loop (hs : list Holder) (ip : Address) : go bool :=
  match hs with
  | [] => Ok false
  | h :: hs => b ← IsIPInIPPool h ip; if b : bool then Ok true else Multi_IsIPInIPPool_loop hs ip
  end.
Definition Multi_IsIPInIPPool (hs : list Holder) (ip : Address) : go bool :=
  if IsDomain (Family ip) then Ok false else Multi_IsIPInIPPool_loop hs ip.

(** The holders in turn, each with its own reading of the clock. *)
Fixpoint Multi_each (get : Holder → Z → option (go (list (option Address)) * Holder)) (hs : list Holder) (now : nat → Z) (ret : list (option Address)) :
    option (go (list (option Address)) * list Holder) :=
  match hs with
  | [] => Some (Ok ret, [])
  | h :: hs =>
      match get h (now O) with
      | None => None
      | Some (Ok ips, h) =>
          match Multi_each get hs (λ k, now (S k)) (ret ++ ips) with
          | None => None
          | Some (r, hs) => Some (r, h :: hs)
          end
      | Some (Err e, h) => Some (Err e, h :: hs)
      | Some (Panic, h) => Some (Panic, h :: hs)
      end
  end.
Definition Multi_GetFakeIPForDomain (fuel : nat) (hs : list Holder) (domain : str) (now : nat → Z) :=
  Multi_each (λ h t, GetFakeIPForDomain fuel h domain t) hs now [].
Definition Multi_GetFakeIPForDomain3 (fuel : nat) (hs : list Holder) (domain : str) (ipv4 ipv6 : bool) (now : nat → Z) :=
  Multi_each (λ h t, GetFakeIPForDomain3 fuel h domain ipv4 ipv6 t) hs now [].

Fixpoint Multi_GetDomainFromFakeDNS (hs : list Holder) (ip : Address) : go str * list Holder :=
  match hs with
  | [] => (Ok [], [])
  | h :: hs =>
      match GetDomainFromFakeDNS h ip with
      | (Ok [], h) => let '(r, hs) := Multi_GetDomainFromFakeDNS hs ip in (r, h :: hs)
      | (r, h) => (r, h :: hs)
      end
  end.

Fixpoint Multi_Start (hs : list Holder) : go unit * list Holder :=
  match hs with
  | [] => (Ok tt, [])
  | h :: hs =>
      if configured h then
        match Start h with
        | Ok h => let '(r, hs) := Multi_Start hs in (r, h :: hs)
        | Err _ => (Err (ErrMsg "Cannot start all fake dns pools"), h :: hs)
        | Panic => (Panic, h :: hs)
        end
      else (Err (ErrMsg "invalid fakeDNS setting"), h :: hs)
  end.

End holder.

(** ** Numbers and bytes *)

Lemma SetBytes_cons c b : SetBytes (c :: b) = byte_to_Z c * 256 ^ len b + SetBytes b.
Proof.
  enough (H : ∀ a, foldl (λ a c, 256 * a + byte_to_Z c) a b = a * 256 ^ len b + SetBytes b).
  { unfold SetBytes at 1. cbn [foldl]. rewrite H. lia. }
  unfold SetBytes. induction b as [|d b IH]; intros a; [unfold len; cbn; lia|]. cbn [foldl]. rewrite IH, (IH (256 * 0 + _)).
  rewrite len_cons, Z.pow_add_r by (pose proof (len_nonneg b); lia). lia.
Qed.
Lemma SetBytes_snoc b c : SetBytes (b ++ [c]) = 256 * SetBytes b + byte_to_Z c.
Proof. unfold SetBytes. by rewrite foldl_app. Qed.

Lemma SetBytes_range b : 0 ≤ SetBytes b < 256 ^ len b.
Proof.
  induction b as [|c b IH]; [unfold len; cbn; lia|]. rewrite SetBytes_cons, len_cons, Z.pow_add_r by (pose proof (len_nonneg b); lia).
  pose proof (byte_to_Z_range c) as Hc. unfold is_u8 in Hc. nia.
Qed.
Lemma SetBytes_inj a b : length a = length b → SetBytes a = SetBytes b → a = b.
Proof.
  revert b. induction a as [|c a IH]; intros [|d b] Hl H; try done. injection Hl as Hl. rewrite !SetBytes_cons in H.
  pose proof (SetBytes_range a) as Ha. pose proof (SetBytes_range b) as Hb. assert (Hlen : len a = len b) by (unfold len; lia). rewrite Hlen in *.
  assert (Hcd : byte_to_Z c = byte_to_Z d) by nia. rewrite (byte_to_Z_inj c d Hcd). f_equal. apply IH; [done|]. rewrite Hcd in H. lia.
Qed.
(** A number with a first byte other than zero has as many bytes as it needs. *)
Lemma SetBytes_head b : b ≠ [] → b !! 0%nat ≠ Some x00 → 256 ^ (len b - 1) ≤ SetBytes b.
Proof.
  destruct b as [|c b]; [done|]. intros _ Hc. rewrite SetBytes_cons, len_cons. replace (1 + len b - 1) with (len b) by lia.
  pose proof (SetBytes_range b). assert (Hne : byte_to_Z c ≠ 0).
  { intros H0. apply Hc. cbn. f_equal. by apply byte_to_Z_inj. }
  pose proof (byte_to_Z_range c) as Hr. unfold is_u8 in Hr. nia.
Qed.

Lemma big_bytes_spec fuel : ∀ z acc, 0 ≤ z < 256 ^ Z.of_nat fuel →
  ∃ bs, big_bytes fuel z acc = bs ++ acc ∧ SetBytes bs = z ∧ bs !! 0%nat ≠ Some x00.
Proof.
  induction fuel as [|fuel IH]; intros z acc Hz; cbn [big_bytes]; [exists []; cbn in *; split_and!; [done|lia|done]|].
  case_decide as H0; [exists []; split_and!; [done| |done]; change (0 = z); lia|].
  rewrite Nat2Z.inj_succ, Z.pow_succ_r in Hz by lia.
  destruct (IH (z / 256) (byte_of_Z z :: acc)) as (bs & Hb & Hv & Hh); [split; [apply Z.div_pos; lia|apply Z.div_lt_upper_bound; lia]|].
  exists (bs ++ [byte_of_Z z]). rewrite <- app_assoc. split; [done|]. rewrite SetBytes_snoc, Hv, byte_to_of_Z. split; [pose proof (Z.div_mod z 256); lia|].
  destruct bs as [|c bs]; [|done]. cbn. intros [= Hx]. apply (f_equal byte_to_Z) in Hx. rewrite byte_to_of_Z in Hx. change (byte_to_Z x00) with 0 in Hx.
  change (SetBytes []) with 0 in Hv. pose proof (Z.div_mod z 256). lia.
Qed.

Lemma Bytes_spec z n : 0 < n ≤ 17 → 256 ^ (n - 1) ≤ z < 256 ^ n → len (Bytes z) = n ∧ SetBytes (Bytes z) = z ∧ Bytes z !! 0%nat ≠ Some x00.
Proof.
  intros Hn Hz. assert (H17 : 256 ^ n ≤ 256 ^ 17) by (apply Z.pow_le_mono_r; lia). assert (Hp : 0 < 256 ^ (n - 1)) by (apply Z.pow_pos_nonneg; lia).
  destruct (big_bytes_spec 17 z []) as (bs & Hb & Hv & Hh); [change (Z.of_nat 17) with 17; lia|]. unfold Bytes. rewrite Hb, app_nil_r. split; [|done].
  pose proof (SetBytes_range bs) as Hr. assert (Hne : bs ≠ []) by (intros ->; change (SetBytes []) with 0 in Hv; lia).
  pose proof (SetBytes_head bs Hne Hh) as Hl. rewrite Hv in *. pose proof (len_pos bs Hne).
  assert (n - 1 < len bs) by (apply (Z.pow_lt_mono_r_iff 256); lia). assert (len bs - 1 < n) by (apply (Z.pow_lt_mono_r_iff 256); lia). lia.
Qed.

(** ** Masks *)

Lemma mask_byte n c : 0 ≤ n < 8 → byte_to_Z (byte_of_Z (Z.land (byte_to_Z c) (255 - Z.shiftr 255 n))) = 2 ^ (8 - n) * (byte_to_Z c / 2 ^ (8 - n)).
Proof.
  intros Hn. assert (Hc : n = 0 ∨ n = 1 ∨ n = 2 ∨ n = 3 ∨ n = 4 ∨ n = 5 ∨ n = 6 ∨ n = 7) by lia.
  repeat (destruct Hc as [-> | Hc]; [destruct c; reflexivity|]). subst n. destruct c; reflexivity.
Qed.
Lemma mask_byte_all c : byte_of_Z (Z.land (byte_to_Z c) 255) = c.
Proof. destruct c; reflexivity. Qed.

Lemma mask_length m i : length m = length i → length (mask_bytes m i) = length i.
Proof. intros H. unfold mask_bytes. rewrite length_zip_with. lia. Qed.
Lemma CIDRMask_length l : ∀ n, length (CIDRMask l n) = l.
Proof. induction l as [|l IH]; intros n; [done|]. cbn [CIDRMask]. case_decide; cbn [length]; by rewrite IH. Qed.

Lemma mask_value i : ∀ n, 0 ≤ n ≤ 8 * len i →
  SetBytes (mask_bytes (CIDRMask (length i) n) i) = 2 ^ (8 * len i - n) * (SetBytes i / 2 ^ (8 * len i - n)).
Proof.
  induction i as [|c i IH]; intros n Hn.
  { unfold len in *. cbn [length] in *. replace n with 0 by lia. reflexivity. }
  cbn [length CIDRMask]. pose proof (SetBytes_range i) as Hr. pose proof (len_nonneg i) as Hl. rewrite len_cons in *.
  assert (Hlm : ∀ n, len (mask_bytes (CIDRMask (length i) n) i) = len i).
  { intros k. unfold len. rewrite mask_length by apply CIDRMask_length. done. }
  assert (E8 : 256 ^ len i = 2 ^ (8 * len i)) by (rewrite Z.pow_mul_r by lia; done).
  case_decide as H8; cbn [mask_bytes zip_with]; fold (mask_bytes (CIDRMask (length i) (n - 8)) i); fold (mask_bytes (CIDRMask (length i) 0) i); rewrite !SetBytes_cons, Hlm.
  - rewrite mask_byte_all, IH by lia. replace (8 * (1 + len i) - n) with (8 * len i - (n - 8)) by lia. set (R := 8 * len i - (n - 8)).
    replace (256 ^ len i) with (2 ^ (n - 8) * 2 ^ R) by (rewrite E8, <- Z.pow_add_r by lia; f_equal; lia).
    rewrite Z.mul_assoc, Z.div_add_l by (apply Z.pow_nonzero; lia). lia.
  - rewrite mask_byte by lia. rewrite IH by lia. rewrite Z.sub_0_r, <- E8, (Z.div_small (SetBytes i)) by done.
    replace (2 ^ (8 * (1 + len i) - n)) with (256 ^ len i * 2 ^ (8 - n)) by (rewrite E8, <- Z.pow_add_r by lia; f_equal; lia).
    rewrite <- Z.div_div by (first [apply Z.pow_pos_nonneg|apply Z.pow_nonzero]; lia). rewrite Z.div_add_l by (apply Z.pow_nonzero; lia).
    rewrite (Z.div_small (SetBytes i)) by done. rewrite Z.add_0_r. lia.
Qed.

(** ** The addresses of a pool *)

(** A masked network of four or sixteen bytes whose first byte is not zero. *)
Definition pool_ok (r : IPNet) : Prop :=
  (length (n_IP r) = 4%nat ∨ length (n_IP r) = 16%nat) ∧ n_IP r !! 0%nat ≠ Some x00 ∧ 0 ≤ n_ones r ≤ 8 * len (n_IP r) ∧
  SetBytes (n_IP r) mod 2 ^ rooms_of r = 0.

Definition addr_at (r : IPNet) (k : Z) : option Address := IPAddress (Bytes (SetBytes (n_IP r) + k)).

Lemma To4_big i : i !! 0%nat ≠ Some x00 → match To4 i with Some x => x | None => i end = i.
Proof.
  intros Hh. unfold To4. destruct (decide (length i = 4%nat)); [done|]. destruct (decide _) as [[_ Hp]|]; [|done].
  destruct i as [|c i]; [done|]. exfalso. apply Hh. by injection Hp as ->.
Qed.

Lemma pool_mask r : pool_ok r → networkNumberAndMask r = (n_IP r, CIDRMask (length (n_IP r)) (n_ones r)).
Proof.
  intros (Hl & Hh & _). pose proof (To4_big _ Hh) as H4. unfold networkNumberAndMask. destruct (To4 (n_IP r)) as [x|] eqn:E; [|done].
  rewrite H4. f_equal. unfold To4 in E. destruct (decide (length (n_IP r) = 4%nat)) as [->|Hn]; [done|].
  destruct (decide _) as [[_ Hp]|]; [|done]. exfalso. apply Hh. destruct (n_IP r) as [|c i]; [done|]. by injection Hp as ->.
Qed.

Lemma pool_rooms r : pool_ok r → 0 ≤ rooms_of r ≤ 8 * len (n_IP r).
Proof. intros (_ & _ & Ho & _). unfold rooms_of, Mask_Size. lia. Qed.

Lemma ipnet_Contains r i : pool_ok r → i !! 0%nat ≠ Some x00 →
  Contains r i = bool_decide (length i = length (n_IP r)) && bool_decide (SetBytes i / 2 ^ rooms_of r = SetBytes (n_IP r) / 2 ^ rooms_of r).
Proof.
  intros Hr Hi. unfold Contains. rewrite pool_mask, To4_big by done. destruct (decide (length i = length (n_IP r))) as [El|El].
  2: { by rewrite !(bool_decide_eq_false_2 (length i = length (n_IP r))). }
  f_equal. apply bool_decide_ext. destruct Hr as (_ & _ & Ho & _). assert (Ez : len i = len (n_IP r)) by (unfold len; lia).
  assert (Hp : 0 < 2 ^ rooms_of r) by (apply Z.pow_pos_nonneg; unfold rooms_of, Mask_Size; lia).
  pose proof (mask_value (n_IP r) (n_ones r) Ho) as H1. pose proof (mask_value i (n_ones r) ltac:(lia)) as H2. rewrite El, Ez in H2.
  fold (Mask_Size r) in H1, H2. change (8 * len (n_IP r) - n_ones r) with (rooms_of r) in H1, H2. split.
  - intros E. rewrite E in H1. rewrite H1 in H2. nia.
  - intros E. apply SetBytes_inj; [|by rewrite H1, H2, E]. rewrite !mask_length; [lia|by rewrite CIDRMask_length..].
Qed.

(** The pool's numbers are those between its first address and [2 ^ rooms] further. *)
Lemma pool_bounds r : pool_ok r → let L := len (n_IP r) in 4 ≤ L ≤ 16 ∧ 256 ^ (L - 1) ≤ SetBytes (n_IP r) ∧ SetBytes (n_IP r) + 2 ^ rooms_of r ≤ 256 ^ L.
Proof.
  intros Hr L. pose proof (pool_rooms r Hr) as Hro. destruct Hr as (Hl & Hh & Ho & Hm). assert (HL : 4 ≤ L ≤ 16) by (unfold L, len; lia). split; [done|].
  split; [apply SetBytes_head; [intros E; rewrite E in Hl; cbn in Hl; lia|done]|].
  pose proof (SetBytes_range (n_IP r)) as Hb. fold L in Hb.
  assert (E : 256 ^ L = 2 ^ (8 * L - rooms_of r) * 2 ^ rooms_of r).
  { rewrite <- Z.pow_add_r by lia. replace (8 * L - rooms_of r + rooms_of r) with (8 * L) by lia. by rewrite Z.pow_mul_r by lia. }
  assert (Hp : 0 < 2 ^ rooms_of r) by (apply Z.pow_pos_nonneg; lia). pose proof (Z.div_mod (SetBytes (n_IP r)) (2 ^ rooms_of r)) as Hd. rewrite Hm in Hd.
  assert (Hq : SetBytes (n_IP r) / 2 ^ rooms_of r < 2 ^ (8 * L - rooms_of r)) by (apply Z.div_lt_upper_bound; lia). rewrite E. nia.
Qed.

Lemma pool_bytes r k : pool_ok r → 0 ≤ k < 2 ^ rooms_of r → let b := Bytes (SetBytes (n_IP r) + k) in
  len b = len (n_IP r) ∧ SetBytes b = SetBytes (n_IP r) + k ∧ b !! 0%nat ≠ Some x00.
Proof. intros Hr Hk b. destruct (pool_bounds r Hr) as (HL & Hlo & Hhi). apply Bytes_spec; lia. Qed.

Lemma addr_at_ip r k : pool_ok r → 0 ≤ k < 2 ^ rooms_of r →
  ∃ a, addr_at r k = Some a ∧ IsIP (Family a) = true ∧ IP a = Ok (Bytes (SetBytes (n_IP r) + k)).
Proof.
  intros Hr Hk. destruct (pool_bytes r k Hr Hk) as (Hl & _ & Hh). unfold addr_at, IPAddress. set (b := Bytes _) in *.
  destruct Hr as ([H4|H16] & _); [rewrite decide_True by (unfold len in Hl; lia); eauto|]. rewrite decide_False by (unfold len in Hl; lia).
  rewrite decide_True by (unfold len in Hl; lia). rewrite decide_False; [eauto|]. intros (H10 & _). destruct b as [|c b]; [done|]. apply Hh. by injection H10 as ->.
Qed.

Lemma addr_at_inj r j k : pool_ok r → 0 ≤ j < 2 ^ rooms_of r → 0 ≤ k < 2 ^ rooms_of r → addr_at r j = addr_at r k → j = k.
Proof.
  intros Hr Hj Hk E. destruct (addr_at_ip r j Hr Hj) as (a & Ea & _ & Ia), (addr_at_ip r k Hr Hk) as (b & Eb & _ & Ib).
  rewrite Ea, Eb in E. injection E as ->. rewrite Ia in Ib. injection Ib as Ib. apply (f_equal SetBytes) in Ib.
  destruct (pool_bytes r j Hr Hj) as (_ & Vj & _), (pool_bytes r k Hr Hk) as (_ & Vk & _). lia.
Qed.

Lemma div_block B N k : 0 < N → B mod N = 0 → 0 ≤ k ≤ N → ((B + k) / N = B / N ↔ k < N).
Proof.
  intros HN HB Hk. pose proof (Z.div_mod B N ltac:(lia)) as Hd. rewrite HB in Hd. set (q := B / N) in *. replace (B + k) with (q * N + k) by lia. rewrite Z.div_add_l by lia.
  destruct (decide (k < N)); [rewrite Z.div_small by lia; lia|]. replace k with N by lia. rewrite Z.div_same by lia. lia.
Qed.

Lemma pool_contains r k : pool_ok r → 0 ≤ k ≤ 2 ^ rooms_of r → Contains r (Bytes (SetBytes (n_IP r) + k)) = bool_decide (k < 2 ^ rooms_of r).
Proof.
  intros Hr Hk. destruct (pool_bounds r Hr) as (HL & Hlo & Hhi). pose proof (pool_rooms r Hr). set (L := len (n_IP r)) in *. set (B := SetBytes (n_IP r)) in *.
  assert (HN : 0 < 2 ^ rooms_of r) by (apply Z.pow_pos_nonneg; lia). pose proof (div_block B _ k HN (proj2 (proj2 (proj2 Hr))) Hk) as Hdb.
  destruct (decide (B + k < 256 ^ L)) as [Hin|Hout].
  - destruct (Bytes_spec (B + k) L ltac:(lia) ltac:(lia)) as (Hl & Hv & Hh). rewrite ipnet_Contains, Hv by done.
    rewrite bool_decide_eq_true_2 by (unfold L, len in Hl; lia). cbn [andb]. by apply bool_decide_ext.
  - destruct (Bytes_spec (B + k) (L + 1) ltac:(lia)) as (Hl & Hv & Hh).
    { replace (L + 1 - 1) with L by lia. rewrite Z.pow_add_r, Z.pow_1_r by lia. pose proof (SetBytes_range (n_IP r)) as Hb. fold L B in Hb. clear -Hb Hout Hhi Hk. lia. }
    rewrite ipnet_Contains by done. rewrite bool_decide_eq_false_2 by (unfold L, len in Hl; lia). by rewrite (bool_decide_eq_false_2 (k < _)) by lia.
Qed.

(** ** The search *)

Lemma peek_none (l : Cache) v : lru_ok l → PeekKeyFromValue l v = None ↔ v ∉ (view l).*2.
Proof.
  intros Hl. rewrite view_value by done. unfold PeekKeyFromValue. destruct (valueToElement l !! v) as [e|] eqn:E.
  - apply (ok_values l Hl) in E as (He & k & Hk). rewrite Hk. cbn. split; [done|]. intros []. by exists e.
  - split; [|done]. intros _ []. done.
Qed.

Lemma next_ip r k : pool_ok r → 0 ≤ k < 2 ^ rooms_of r →
  (if Contains r (Bytes (SetBytes (n_IP r) + k + 1)) then SetBytes (n_IP r) + k + 1 else SetBytes (n_IP r)) = SetBytes (n_IP r) + (k + 1) mod 2 ^ rooms_of r.
Proof.
  intros Hr Hk. rewrite <- !Z.add_assoc, pool_contains by (done || lia). case_bool_decide; [by rewrite Z.mod_small by lia|].
  replace (k + 1) with (2 ^ rooms_of r) by lia. rewrite Z.mod_same by lia. lia.
Qed.

Lemma free_ip_some fuel l r : pool_ok r → lru_ok l → ∀ k ip, 0 ≤ k < 2 ^ rooms_of r → free_ip fuel l r (SetBytes (n_IP r) + k) = Some ip →
  (ip ∉ (view l).*2) ∧ ∃ j, 0 ≤ j < 2 ^ rooms_of r ∧ ip = addr_at r j.
Proof.
  intros Hr Hl. induction fuel as [|fuel IH]; intros k ip Hk; cbn [free_ip]; [done|]. destruct (PeekKeyFromValue l _) eqn:E.
  - rewrite next_ip by done. apply IH. apply Z.mod_pos_bound. lia.
  - intros [= <-]. split; [by apply peek_none|]. by exists k.
Qed.

(** What the search saw when it ran out. *)
Lemma free_ip_none fuel l r : pool_ok r → lru_ok l → ∀ k, 0 ≤ k < 2 ^ rooms_of r → free_ip fuel l r (SetBytes (n_IP r) + k) = None →
  ∀ i, 0 ≤ i < Z.of_nat fuel → addr_at r ((k + i) mod 2 ^ rooms_of r) ∈ (view l).*2.
Proof.
  intros Hr Hl. induction fuel as [|fuel IH]; intros k Hk H i Hi; [lia|]. cbn [free_ip] in H. destruct (PeekKeyFromValue l _) eqn:E; [|done].
  destruct (decide (i = 0)) as [->|Hi0].
  - rewrite Z.add_0_r, Z.mod_small by done. fold (addr_at r k) in E. destruct (decide (addr_at r k ∈ (view l).*2)); [done|]. exfalso.
    assert (PeekKeyFromValue l (addr_at r k) = None) by (by apply peek_none). congruence.
  - rewrite next_ip in H by done. replace (k + i) with (k + 1 + (i - 1)) by lia. rewrite Z.add_mod by lia. rewrite <- (Z.mod_mod (k + 1)) by lia. rewrite <- Z.add_mod by lia.
    apply IH; [apply Z.mod_pos_bound; lia|done|lia].
Qed.

(** The pool has more addresses than the cache: the search ends after as many steps as the cache has
    pairs, and one. *)
Lemma free_ip_total fuel l r k : pool_ok r → lru_ok l → 0 ≤ k < 2 ^ rooms_of r → len (view l) < 2 ^ rooms_of r → (length (view l) < fuel)%nat →
  is_Some (free_ip fuel l r (SetBytes (n_IP r) + k)).
Proof.
  intros Hr Hl Hk Hlt Hf. destruct (free_ip fuel l r _) as [ip|] eqn:E; [by eexists|]. exfalso.
  pose proof (free_ip_none fuel l r Hr Hl k Hk E) as Hall. set (N := 2 ^ rooms_of r) in *.
  set (ix := seq 0 (S (length (view l)))). assert (Hnd : NoDup ((λ i : nat, addr_at r ((k + Z.of_nat i) mod N)) <$> ix)).
  { apply NoDup_fmap_2_strong; [|apply NoDup_seq]. intros i j Hi Hj Heq. apply elem_of_seq in Hi, Hj.
    apply addr_at_inj in Heq; [|done|apply Z.mod_pos_bound; lia..]. unfold len in Hlt.
    pose proof (Z.div_mod (k + Z.of_nat i) N ltac:(lia)) as D1. pose proof (Z.div_mod (k + Z.of_nat j) N ltac:(lia)) as D2. rewrite Heq in D1.
    assert ((k + Z.of_nat i) / N = (k + Z.of_nat j) / N); nia. }
  assert (Hsub : (λ i : nat, addr_at r ((k + Z.of_nat i) mod N)) <$> ix ⊆+ (view l).*2).
  { apply NoDup_submseteq; [done|]. intros x (i & -> & Hi%elem_of_seq)%list_elem_of_fmap. apply Hall. lia. }
  apply submseteq_length in Hsub. rewrite !length_fmap in Hsub. unfold ix in Hsub. rewrite length_seq in Hsub. lia.
Qed.

(** ** The holder *)

Record holder_ok (size : Z) (r : IPNet) (l : Cache) : Prop := {
  ho_pool : pool_ok r;
  ho_lru : lru_ok l;
  ho_size : capacity l = size;
  ho_room : Z.max 0 size < 2 ^ rooms_of r;
  ho_addrs : ∀ v, v ∈ (view l).*2 → ∃ k, 0 ≤ k < 2 ^ rooms_of r ∧ v = addr_at r k
}.

(** The domains that hold an address, with it, the most recently used first. *)
Definition live (h : Holder) : list (str * option Address) := match h_pool h with Some (l, _) => view l | None => [] end.

Lemma view_front_elem (P : str * option Address → Prop) `{HP : ∀ x, Decision (P x)} s x : x ∈ front P s ↔ x ∈ s.
Proof. unfold front. rewrite elem_of_app, !list_elem_of_filter. destruct (decide (P x)); tauto. Qed.

Lemma Get_keeps size r l d : holder_ok size r l → holder_ok size r (Get l d).2 ∧ (∀ x, x ∈ view (Get l d).2 ↔ x ∈ view l).
Proof.
  intros Hh. destruct (lru_Get l d (ho_lru _ _ _ Hh)) as (H1 & _ & H3).
  assert (Hx : ∀ x, x ∈ view (Get l d).2 ↔ x ∈ view l) by (intros x; rewrite H3; apply view_front_elem). split; [|done].
  split; [apply Hh|done| |apply Hh|].
  - rewrite <- (ho_size _ _ _ Hh). unfold Get. by destruct (keyToElement l !! d).
  - intros v (y & -> & Hy)%list_elem_of_fmap. apply (ho_addrs _ _ _ Hh). apply list_elem_of_fmap. exists y. by rewrite <- Hx.
Qed.
Lemma GetKey_keeps size r l v : holder_ok size r l → holder_ok size r (GetKeyFromValue l v).2 ∧ (∀ x, x ∈ view (GetKeyFromValue l v).2 ↔ x ∈ view l).
Proof.
  intros Hh. destruct (lru_GetKey l v (ho_lru _ _ _ Hh)) as (H1 & _ & H3).
  assert (Hx : ∀ x, x ∈ view (GetKeyFromValue l v).2 ↔ x ∈ view l) by (intros x; rewrite H3; apply view_front_elem). split; [|done].
  split; [apply Hh|done| |apply Hh|].
  - rewrite <- (ho_size _ _ _ Hh). unfold GetKeyFromValue. by destruct (valueToElement l !! v).
  - intros w (y & -> & Hy)%list_elem_of_fmap. apply (ho_addrs _ _ _ Hh). apply list_elem_of_fmap. exists y. by rewrite <- Hx.
Qed.

Lemma Put_keeps size r l d k : holder_ok size r l → 0 ≤ k < 2 ^ rooms_of r → d ∉ (view l).*1 → addr_at r k ∉ (view l).*2 →
  holder_ok size r (Put l d (addr_at r k)) ∧ view (Put l d (addr_at r k)) = take (Z.to_nat size) ((d, addr_at r k) :: view l).
Proof.
  intros Hh Hk Hd Hv. destruct (lru_Put l d (addr_at r k) (ho_lru _ _ _ Hh) Hd Hv) as (H1 & H2 & H3). rewrite (ho_size _ _ _ Hh) in *. split; [|done].
  split; [apply Hh|done|done|apply Hh|]. intros v (y & -> & Hy)%list_elem_of_fmap. rewrite H2 in Hy. apply elem_of_take in Hy as (i & Hy%list_elem_of_lookup_2 & _).
  apply elem_of_cons in Hy as [->|Hy]; [by exists k|]. apply (ho_addrs _ _ _ Hh). apply list_elem_of_fmap. by exists y.
Qed.

Lemma time_offset_range r now : pool_ok r → 0 ≤ time_offset r now < 2 ^ rooms_of r.
Proof.
  intros Hr. pose proof (pool_rooms r Hr) as H0. unfold time_offset, u64. pose proof (Z.mod_pos_bound now 18446744073709551616) as Hm. case_decide as H.
  - rewrite Z.shiftl_mul_pow2, Z.mul_1_l by lia. assert (Hb : 2 ^ rooms_of r < 2 ^ 64) by (apply Z.pow_lt_mono_r; lia). change (2 ^ 64) with 18446744073709551616 in Hb.
    assert (0 < 2 ^ rooms_of r) by (apply Z.pow_pos_nonneg; lia). rewrite (Z.mod_small (2 ^ rooms_of r)) by lia. apply Z.mod_pos_bound. lia.
  - assert (Hb : 2 ^ 64 ≤ 2 ^ rooms_of r) by (apply Z.pow_le_mono_r; lia). change (2 ^ 64) with 18446744073709551616 in Hb. lia.
Qed.

Lemma key_found (l : Cache) d : lru_ok l → (Get l d).1 = None ↔ d ∉ (view l).*1.
Proof.
  intros Hl. rewrite view_key by done. unfold Get. destruct (keyToElement l !! d) as [e|] eqn:E; cbn.
  - apply (ok_keys l Hl) in E as (He & v & Hv). rewrite Hv. split; [done|]. intros []. by exists e.
  - split; [|done]. intros _ []. done.
Qed.
Lemma key_value (l : Cache) d v : lru_ok l → (Get l d).1 = Some v ↔ (d, v) ∈ view l.
Proof.
  intros Hl. rewrite elem_of_view. unfold Get. destruct (keyToElement l !! d) as [e|] eqn:E; cbn.
  - apply (ok_keys l Hl) in E as H. destruct H as (He & w & Hw). rewrite Hw. cbn. split.
    + intros [= ->]. eauto.
    + intros (e' & He' & Hv). assert (keyToElement l !! d = Some e') by (apply (ok_keys l Hl); eauto). congruence.
  - split; [done|]. intros (e' & He' & Hv). assert (keyToElement l !! d = Some e') by (apply (ok_keys l Hl); eauto). congruence.
Qed.
Lemma value_key (l : Cache) d v : lru_ok l → (GetKeyFromValue l v).1 = Some d ↔ (d, v) ∈ view l.
Proof.
  intros Hl. rewrite elem_of_view. unfold GetKeyFromValue. destruct (valueToElement l !! v) as [e|] eqn:E; cbn.
  - apply (ok_values l Hl) in E as H. destruct H as (He & w & Hw). rewrite Hw. cbn. split.
    + intros [= ->]. eauto.
    + intros (e' & He' & Hv). assert (valueToElement l !! v = Some e') by (apply (ok_values l Hl); eauto). congruence.
  - split; [done|]. intros (e' & He' & Hv). assert (valueToElement l !! v = Some e') by (apply (ok_values l Hl); eauto). congruence.
Qed.

(** ** What the texts parse to *)

Lemma parse_ipv4_length s : ∀ prev val digLen fields f, (length fields ≤ 3)%nat → GoText.parse_ipv4_fields s prev val digLen fields = Some f → length f = 4%nat.
Proof.
  induction s as [|c s IH]; intros prev val digLen fields f Hf; cbn [GoText.parse_ipv4_fields].
  - case_decide; [done|]. intros [= <-]. rewrite length_app. cbn. lia.
  - destruct (GoText.is_digit c).
    + destruct (decide _); [done|]. cbn zeta. destruct (decide _); [done|]. by apply IH.
    + destruct (decide (c = x2e)); [|done]. destruct (decide _); [done|]. destruct (decide (length fields = 3%nat)); [done|].
      apply IH. rewrite length_app. cbn. lia.
Qed.

Lemma parse_ipv6_loop_length fuel : ∀ s i e i' e', (∃ k, (length i = 2 * k)%nat) → (length i ≤ 16)%nat →
  GoText.parse_ipv6_loop fuel s i e = Some (i', e') → (length i' ≤ 16)%nat.
Proof.
  induction fuel as [|fuel IH]; intros s i e i' e' [k Hk] Hi; cbn [GoText.parse_ipv6_loop]; [done|].
  destruct (decide (16 ≤ length i)%nat); [destruct s; [by intros [= <- <-]|done]|].
  destruct (GoText.hex_group s 0 0) as [[[acc off] rest]|]; [|done]. destruct (decide (off = 0)); [done|]. cbn zeta.
  set (j := i ++ _). assert (Hj : length j = (length i + 2)%nat) by (unfold j; by rewrite length_app).
  assert (Hje : ∃ k, (length j = 2 * k)%nat) by (exists (S k); lia).
  destruct rest as [|c rest]; [intros [= <- <-]; lia|]. destruct (decide (c = x2e)) as [->|H2].
  - destruct (decide _); [done|]. destruct (decide (16 < length i + 4)%nat); [done|]. destruct (GoText.parse_ipv4_fields s None 0 0 []) as [f|] eqn:E; [|done].
    intros [= <- <-]. apply parse_ipv4_length in E; [|cbn; lia]. rewrite length_app. lia.
  - destruct (decide (c ≠ x3a)); [done|]. destruct rest as [|d rest]; [done|]. destruct (decide (d ≠ x3a)); [apply IH; [done|lia]|].
    destruct e; [done|]. destruct rest; [intros [= <- <-]; lia|]. apply IH; [done|lia].
Qed.

Lemma ParseIP_length s i : GoText.ParseIP s = Some i → length i = 16%nat.
Proof.
  unfold GoText.ParseIP. destruct (GoText.first_sep s) as [c|]; [|done]. destruct (decide (c = x2e)) as [->|H1].
  - destruct (GoText.parse_ipv4_fields s None 0 0 []) as [f|] eqn:E; [|done]. intros [= <-]. apply parse_ipv4_length in E; [|cbn; lia]. cbn. by rewrite E.
  - destruct (decide (c = x3a)) as [->|H2]; [|done]. destruct (decide _); [done|]. unfold GoText.parse_ipv6.
    assert (Hx : ∀ t e i, match GoText.parse_ipv6_loop 9 t [] e with None => None | Some (ip, ellipsis) =>
      if decide (length ip < 16)%nat then match ellipsis with None => None | Some e => Some (take e ip ++ replicate (16 - length ip) x00 ++ drop e ip) end
      else match ellipsis with Some _ => None | None => Some ip end end = Some i → length i = 16%nat).
    { intros t e i0. destruct (GoText.parse_ipv6_loop 9 t [] e) as [[j e']|] eqn:E; [|done]. apply parse_ipv6_loop_length in E; [|by exists 0%nat|cbn; lia].
      destruct (decide (length j < 16)%nat); destruct e'; try done; intros [= <-]; [|lia]. rewrite !length_app, length_replicate, length_take, length_drop. lia. }
    destruct s as [|c [|d s]]; [apply Hx..|]. destruct (decide _); [|apply Hx]. destruct s; [by intros [= <-]|apply Hx].
Qed.

Lemma ParseCIDR_ok s r : ParseCIDR s = Some r → n_IP r !! 0%nat ≠ Some x00 → pool_ok r.
Proof.
  unfold ParseCIDR. destruct (Cut s slash) as [[addr mask] found]. destruct found; [|done]. cbn [negb].
  destruct (GoText.ParseIP addr) as [addr16|] eqn:E; [|done]. apply ParseIP_length in E. cbn zeta. set (i := if decide _ then _ else _).
  assert (Hi : length i = 4%nat ∨ length i = 16%nat) by (unfold i; destruct (decide _); [left; rewrite length_drop; lia|by right]).
  destruct mask as [|c mask]; [done|]. destruct (GoText.digits_value 0 (c :: mask)) as [n|] eqn:En; [|done].
  apply digits_value_nonneg in En; [|lia]. destruct (decide (n > 8 * len i)); [done|]. intros [= <-] Hh. cbn [n_IP n_ones] in *.
  assert (Hl : len (mask_bytes (CIDRMask (length i) n) i) = len i) by (unfold len; rewrite mask_length; [done|by rewrite CIDRMask_length]).
  unfold pool_ok, rooms_of, Mask_Size. cbn [n_IP n_ones]. rewrite Hl. split; [rewrite mask_length by (by rewrite CIDRMask_length); done|]. split; [done|]. split; [lia|].
  rewrite mask_value by lia. rewrite Z.mul_comm. apply Z.mod_mul. apply Z.pow_nonzero; lia.
Qed.

(** ** Leases *)

Lemma filter_known (l : Cache) d v : lru_ok l → (d, v) ∈ view l → base.filter (λ x, x.1 = d) (view l) = [(d, v)].
Proof.
  intros Hl (e & He & Hv)%elem_of_view. apply (filter_one (order l) (elems l) e (d, v)); [apply Hl|done|done|].
  intros x [d' v'] Hx Hm. cbn. split; [|intros ->; rewrite Hv in Hm; by injection Hm].
  intros ->. assert (keyToElement l !! d = Some x) by (apply (ok_keys l Hl); eauto). assert (keyToElement l !! d = Some e) by (apply (ok_keys l Hl); eauto). congruence.
Qed.
Lemma filter_unknown (l : list (str * option Address)) d : d ∉ l.*1 → base.filter (λ x, x.1 ≠ d) l = l.
Proof.
  induction l as [|x l IH]; intros H; [done|]. cbn [fmap list_fmap] in H. apply not_elem_of_cons in H as [Hx Hl].
  rewrite filter_cons, decide_True by done. by rewrite IH.
Qed.

Lemma take_view size r l : holder_ok size r l → take (Z.to_nat size) (view l) = view l.
Proof.
  intros Hh. apply take_ge. pose proof (ok_size l (ho_lru _ _ _ Hh)) as Hs. rewrite (ho_size _ _ _ Hh) in Hs. rewrite view_length by apply Hh. unfold len in Hs. lia.
Qed.

(** One request. *)
Lemma lease size r l h d now fuel : h_pool h = Some (l, r) → holder_ok size r l → (Z.to_nat size < fuel)%nat →
  ∃ k l', 0 ≤ k < 2 ^ rooms_of r ∧ GetFakeIPForDomain fuel h d now = Some (Ok [addr_at r k], mkHolder (h_config h) (Some (l', r))) ∧ holder_ok size r l' ∧
    view l' = take (Z.to_nat size) ((d, addr_at r k) :: base.filter (λ x, x.1 ≠ d) (view l)) ∧ (∀ d', (d', addr_at r k) ∈ view l' → d' = d).
Proof.
  intros Hp Hh Hf. unfold GetFakeIPForDomain. rewrite Hp. pose proof (ho_lru _ _ _ Hh) as Hl. destruct (lru_Get l d Hl) as (_ & _ & Hv).
  destruct (Get_keeps size r l d Hh) as [Hh' Hx]. pose proof (key_value l d) as Hkv. pose proof (key_found l d Hl) as Hkf. destruct (Get l d) as [[v|] l'] eqn:E; cbn [fst snd] in *.
  - assert (Hin : (d, v) ∈ view l) by (by apply Hkv). destruct (ho_addrs _ _ _ Hh v) as (k & Hk & ->); [apply list_elem_of_fmap; by exists (d, v)|].
    destruct (addr_at_ip r k (ho_pool _ _ _ Hh) Hk) as (a & Ea & _). exists k, l'. rewrite Ea. split; [done|]. split; [done|]. split; [done|]. rewrite <- Ea.
    unfold front in Hv. rewrite (filter_known l d (addr_at r k)) in Hv by done. cbn [app] in Hv. rewrite <- Hv. split; [symmetry; by eapply take_view|].
    intros d' Hd'. apply (value_key l' d' _ (ho_lru _ _ _ Hh')) in Hd'. apply Hx, (value_key l' d _ (ho_lru _ _ _ Hh')) in Hin. congruence.
  - destruct Hkf as [Hkf _]. specialize (Hkf eq_refl).
    assert (Hn : front (λ x, x.1 = d) (view l) = view l) by (apply front_none; intros y Hy Hyd; apply Hkf; apply list_elem_of_fmap; by exists y).
    rewrite Hn in Hv. assert (Hr : pool_ok r) by apply Hh. pose proof (time_offset_range r now Hr) as Ht.
    assert (Hlen : len (view l') ≤ Z.max 0 size).
    { pose proof (ok_size l' (ho_lru _ _ _ Hh')) as Hs. rewrite (ho_size _ _ _ Hh') in Hs. unfold len in *. by rewrite view_length by apply Hh'. }
    destruct (free_ip_total fuel l' r (time_offset r now) Hr (ho_lru _ _ _ Hh') Ht) as [ip Hip]; [pose proof (ho_room _ _ _ Hh); lia|unfold len in Hlen; lia|].
    rewrite Hip. destruct (free_ip_some fuel l' r Hr (ho_lru _ _ _ Hh') _ ip Ht Hip) as (Hfree & k & Hk & ->). rewrite <- Hv in Hkf.
    destruct (Put_keeps size r l' d k Hh' Hk Hkf Hfree) as [Hh'' Hv'']. exists k, (Put l' d (addr_at r k)). split; [done|]. split; [done|]. split; [done|].
    rewrite <- Hv, filter_unknown by done. split; [done|]. intros d' Hd'. rewrite Hv'' in Hd'. apply elem_of_take in Hd' as (i & Hd'%list_elem_of_lookup_2 & _).
    apply elem_of_cons in Hd' as [Hd'|Hd']; [by injection Hd'|]. exfalso. apply Hfree. apply list_elem_of_fmap. by exists (d', addr_at r k).
Qed.

Lemma lease_head size r l d k : holder_ok size r l → 0 < size → view l = take (Z.to_nat size) ((d, addr_at r k) :: base.filter (λ x, x.1 ≠ d) (view l)) → (d, addr_at r k) ∈ view l.
Proof. intros _ Hs ->. destruct (Z.to_nat size) eqn:E; [lia|]. cbn [take]. left. Qed.

(** ** Reachable holders *)

Section reach.
Context (Log2_ge : Z → Z → bool) (size : Z) (pool : str).

Inductive reach : Holder → Prop :=
| reach_start h0 h : initialize Log2_ge h0 pool size = Ok h → reach h
| reach_ip h d fuel now res h' : reach h → GetFakeIPForDomain fuel h d now = Some (res, h') → reach h'
| reach_ip3 h d ipv4 ipv6 fuel now res h' : reach h → GetFakeIPForDomain3 fuel h d ipv4 ipv6 now = Some (res, h') → reach h'
| reach_domain h a : reach h → reach (GetDomainFromFakeDNS h a).2.

(** The comparison of floating-point numbers refuses a cache as large as the pool. *)
Context (Log2_ge_sound : ∀ n k, 0 ≤ k → 2 ^ k ≤ n → Log2_ge n k = true).

Lemma free_ip_more fuel l r : ∀ b ip, free_ip fuel l r b = Some ip → ∀ fuel', (fuel ≤ fuel')%nat → free_ip fuel' l r b = Some ip.
Proof.
  induction fuel as [|fuel IH]; intros b ip H fuel' Hf; [done|]. destruct fuel' as [|fuel']; [lia|]. cbn [free_ip] in *.
  destruct (PeekKeyFromValue l _); [|done]. apply IH; [done|lia].
Qed.
Lemma GetFakeIP_more fuel h d now x : GetFakeIPForDomain fuel h d now = Some x → ∀ fuel', (fuel ≤ fuel')%nat → GetFakeIPForDomain fuel' h d now = Some x.
Proof.
  unfold GetFakeIPForDomain. intros H fuel' Hf. destruct (h_pool h) as [[l r]|]; [|done]. destruct (Get l d) as [[[v|]|] l']; [done..|].
  destruct (free_ip fuel l' r _) as [ip|] eqn:E; [|done]. by rewrite (free_ip_more fuel l' r _ ip E fuel' Hf).
Qed.

Lemma ip_keeps r l h d fuel now res h' : h_pool h = Some (l, r) → holder_ok size r l → GetFakeIPForDomain fuel h d now = Some (res, h') →
  ∃ l', h_pool h' = Some (l', r) ∧ holder_ok size r l'.
Proof.
  intros Hp Hh H. apply GetFakeIP_more with (fuel' := (fuel + S (Z.to_nat size))%nat) in H; [|lia].
  destruct (lease size r l h d now (fuel + S (Z.to_nat size)) Hp Hh ltac:(lia)) as (k & l' & _ & H' & Hh' & _). rewrite H' in H. injection H as <- <-. by exists l'.
Qed.

Lemma reach_ok r h : ParseCIDR pool = Some r → n_IP r !! 0%nat ≠ Some x00 → reach h → ∃ l, h_pool h = Some (l, r) ∧ holder_ok size r l.
Proof.
  intros Hr H0. induction 1 as [h0 h Hi|h d fuel now res h' _ (l & Hp & Hh) H|h d i4 i6 fuel now res h' _ (l & Hp & Hh) H|h a _ (l & Hp & Hh)].
  - unfold initialize in Hi. rewrite Hr in Hi. destruct (Log2_ge size (rooms_of r)) eqn:E; [done|]. injection Hi as <-. exists (NewLru size). split; [done|].
    pose proof (ParseCIDR_ok _ _ Hr H0) as Hok. pose proof (pool_rooms r Hok). split; [done|apply NewLru_ok|done| |by intros v ?%elem_of_nil].
    destruct (decide (2 ^ rooms_of r ≤ size)) as [Hge|Hlt]; [rewrite Log2_ge_sound in E by (done || lia); done|]. assert (0 < 2 ^ rooms_of r) by (apply Z.pow_pos_nonneg; lia). lia.
  - by eapply ip_keeps.
  - unfold GetFakeIPForDomain3 in H. rewrite Hp in H. destruct (_ || _); [by eapply ip_keeps|]. injection H as <- <-. by exists l.
  - unfold GetDomainFromFakeDNS. destruct (negb _); [by exists l|]. rewrite Hp. destruct (IP a) as [i| |]; [|by exists l..]. destruct (negb _); [by exists l|].
    destruct (GetKey_keeps size r l (Some a) Hh) as [Hh' _]. destruct (GetKeyFromValue l (Some a)) as [[k|] l']; cbn [fst snd] in *; by exists l'.
Qed.

Lemma pool_answers r k l c a : holder_ok size r l → 0 ≤ k < 2 ^ rooms_of r → addr_at r k = Some a → let h := mkHolder c (Some (l, r)) in
  IsIPInIPPool h a = Ok true ∧ ∀ d, (d, Some a) ∈ view l → (GetDomainFromFakeDNS h a).1 = Ok d.
Proof.
  intros Hh Hk Ea h. pose proof (ho_pool _ _ _ Hh) as Hr. destruct (addr_at_ip r k Hr Hk) as (a' & Ea' & Hip & Hb). rewrite Ea in Ea'. injection Ea' as <-.
  pose proof (pool_contains r k Hr ltac:(lia)) as Hc. rewrite bool_decide_eq_true_2 in Hc by lia. split.
  - unfold IsIPInIPPool, h. cbn [h_pool]. replace (IsDomain (Family a)) with false by (by destruct a). rewrite Hb. unfold mbind, go_bind. by rewrite Hc.
  - intros d Hd. unfold GetDomainFromFakeDNS, h. cbn [h_pool h_config]. rewrite Hip, Hb. cbn [negb]. rewrite Hc. cbn [negb].
    apply (value_key l d _ (ho_lru _ _ _ Hh)) in Hd. destruct (GetKeyFromValue l (Some a)) as [o l']. cbn in Hd. by subst o.
Qed.

(** C27: in every state of a started holder whose pool does not begin with a zero byte, a request for a
    domain ends, however full the pool and whatever the clock, with one address: it lies in the pool,
    no other live domain holds it, and the request leaves the other leases as they were but for the
    oldest one when the cache is full. Where the cache has a positive size, the address then leads
    back to the domain, and asking again gives the same address. *)
Theorem fake_ip_lease r h d now fuel :
  ParseCIDR pool = Some r → n_IP r !! 0%nat ≠ Some x00 → reach h → (Z.to_nat size < fuel)%nat →
  ∃ a h', GetFakeIPForDomain fuel h d now = Some (Ok [Some a], h') ∧ IsIPInIPPool h' a = Ok true ∧
    live h' = take (Z.to_nat size) ((d, Some a) :: base.filter (λ x, x.1 ≠ d) (live h)) ∧
    (∀ d', (d', Some a) ∈ live h' → d' = d) ∧
    (0 < size → (GetDomainFromFakeDNS h' a).1 = Ok d ∧ ∀ now', ∃ h'', GetFakeIPForDomain fuel h' d now' = Some (Ok [Some a], h'')).
Proof.
  intros Hr H0 Hre Hf. destruct (reach_ok r h Hr H0 Hre) as (l & Hp & Hh).
  destruct (lease size r l h d now fuel Hp Hh Hf) as (k & l' & Hk & Hg & Hh' & Hv & Hu). pose proof (ho_pool _ _ _ Hh) as Hok.
  destruct (addr_at_ip r k Hok Hk) as (a & Ea & _). destruct (pool_answers r k l' (h_config h) a Hh' Hk Ea) as [Hin Hdom]. rewrite Ea in *.
  exists a, (mkHolder (h_config h) (Some (l', r))). unfold live at 2. rewrite Hp. split; [done|]. split; [done|]. split; [done|]. split; [done|]. intros Hs.
  assert (Hd : (d, Some a) ∈ view l') by (rewrite Hv; destruct (Z.to_nat size) eqn:E; [lia|]; cbn [take]; left). split; [by apply Hdom|]. intros now'.
  destruct (key_value l' d (Some a) (ho_lru _ _ _ Hh')) as [_ Hkv]. specialize (Hkv Hd). unfold GetFakeIPForDomain. cbn [h_pool h_config].
  destruct (Get l' d) as [o l'']. cbn in Hkv. subst o. by eexists.
Qed.

End reach.

Definition exact_Log2_ge (n k : Z) : bool := bool_decide (0 < n) && bool_decide (2 ^ k ≤ n).
Definition demo_pool : str := s2b "198.18.0.0/30".
Definition demo_holder : Holder :=
  match initialize exact_Log2_ge (NewFakeDNSHolderConfigOnly None) demo_pool 3 with Ok h => h | _ => NewFakeDNSHolderConfigOnly None end.

Lemma fake_ip_lease_witness : ∃ a h', GetFakeIPForDomain 4 demo_holder (s2b "example.com") 7 = Some (Ok [Some a], h') ∧ IsIPInIPPool h' a = Ok true.
Proof.
  destruct (fake_ip_lease exact_Log2_ge 3 demo_pool) with (r := mkIPNet [xc6; x12; x00; x00] 30) (h := demo_holder) (d := s2b "example.com") (now := 7) (fuel := 4%nat) as (a & h' & H1 & H2 & _).
  - intros n k Hk Hn. unfold exact_Log2_ge. pose proof (Z.pow_pos_nonneg 2 k). rewrite !bool_decide_eq_true_2 by lia. reflexivity.
  - vm_compute. reflexivity.
  - vm_compute. discriminate.
  - apply (reach_start _ _ _ (NewFakeDNSHolderConfigOnly None)). vm_compute. reflexivity.
  - vm_compute. lia.
  - exists a, h'. split; [exact H1|exact H2].
Defined.

(** A pool that begins with a zero byte, such as that of NAT64: [Bytes] drops the zero, the address is
    nil; the domain's second request fails, and another domain's never ends. *)
Definition nat64_pool : str := s2b "64:ff9b::/96".
Definition nat64_holder : Holder :=
  match initialize exact_Log2_ge (NewFakeDNSHolderConfigOnly None) nat64_pool 10 with Ok h => h | _ => NewFakeDNSHolderConfigOnly None end.

Lemma free_ip_stuck (fuel : nat) (l : Cache) r : is_Some (PeekKeyFromValue l None) → IPAddress (Bytes (SetBytes (n_IP r))) = None →
  Contains r (Bytes (SetBytes (n_IP r) + 1)) = false → free_ip fuel l r (SetBytes (n_IP r)) = None.
Proof. intros [k Hk] Hn Hc. induction fuel as [|fuel IH]; [done|]. cbn [free_ip]. by rewrite Hn, Hk, Hc. Qed.

Definition stuck (h : Holder) (d : str) : bool :=
  match h_pool h with
  | None => false
  | Some (l, r) =>
      bool_decide ((Get l d).1 = None) && bool_decide (time_offset r 0 = 0) && bool_decide (PeekKeyFromValue (Get l d).2 None ≠ None) &&
      bool_decide (IPAddress (Bytes (SetBytes (n_IP r))) = None) && negb (Contains r (Bytes (SetBytes (n_IP r) + 1)))
  end.
Lemma stuck_request h d fuel : stuck h d = true → GetFakeIPForDomain fuel h d 0 = None.
Proof.
  unfold stuck, GetFakeIPForDomain. destruct (h_pool h) as [[l r]|]; [|done]. rewrite !andb_true_iff, !bool_decide_eq_true, negb_true_iff.
  intros ((((Hg & Ht) & Hk) & Hn) & Hc). destruct (Get l d) as [o l']. cbn [fst snd] in *. subst o. rewrite Ht, Z.add_0_r, free_ip_stuck; [done| |done..].
  destruct (PeekKeyFromValue l' None); [by eexists|done].
Qed.

Definition nat64_after : Holder := default nat64_holder (snd <$> GetFakeIPForDomain 2 nat64_holder (s2b "a") 0).
Lemma zero_byte_pool : fst <$> GetFakeIPForDomain 2 nat64_holder (s2b "a") 0 = Some (Ok [None]) ∧
  fst <$> GetFakeIPForDomain 2 nat64_after (s2b "a") 0 = Some Panic ∧ ∀ fuel, GetFakeIPForDomain fuel nat64_after (s2b "b") 0 = None.
Proof. split; [vm_compute; reflexivity|]. split; [vm_compute; reflexivity|]. intros fuel. apply stuck_request. vm_compute. reflexivity. Qed.

(** A size below zero passes the check of [Start] and the comparison: nothing is remembered. *)
Lemma negative_size_forgets :
  match initialize exact_Log2_ge (NewFakeDNSHolderConfigOnly None) demo_pool (-1) with
  | Ok h =>
      match GetFakeIPForDomain 1 h (s2b "a") 0 with
      | Some (Ok [Some a], h') => (GetDomainFromFakeDNS h' a).1 = Ok []
      | _ => False
      end
  | _ => False
  end.
Proof. vm_compute. reflexivity. Qed.
