(* ===== verification/UploadQueue.v ===== *)
(** * The upload queue of SplitHTTP

    Models [transport/internet/splithttp/upload_queue.go]: posts come in any order over a channel
    and are put back in order by their sequence numbers, in a heap of [container/heap], whose
    loops are modelled over the slice. Pushing, closing and a reader that blocks are the steps of
    a relation. *)

From S2P Require Import Prelude Net.

#[local] Open Scope Z_scope.

(** The stream of a post that is read as it comes ([httpServerConn]), by number. *)
Record Packet := mkPacket { Reader : option nat; Payload : list byte; Seq : Z }.

(** ** The heap *)

Definition Less (h : list Packet) (i j : nat) : bool :=
  match h !! i, h !! j with Some p, Some q => bool_decide (Seq p < Seq q) | _, _ => false end.
Definition Swap (h : list Packet) (i j : nat) : list Packet :=
  match h !! i, h !! j with Some p, Some q => <[j := p]> (<[i := q]> h) | _, _ => h end.

(** [container/heap]: [up] and [down], which both move along a path of the tree. *)
Fixpoint up (fuel : nat) (h : list Packet) (j : nat) : list Packet :=
  match fuel with
  | O => h
  | S fuel =>
      let i := ((j - 1) / 2)%nat in
      if bool_decide (i = j) || negb (Less h j i) then h else up fuel (Swap h i j) i
  end.
Definition child (h : list Packet) (j1 n : nat) : nat :=
  if bool_decide (j1 + 1 < n)%nat && Less h (j1 + 1) j1 then (j1 + 1)%nat else j1.
Fixpoint down (fuel : nat) (h : list Packet) (i n : nat) : list Packet :=
  match fuel with
  | O => h
  | S fuel =>
      let j1 := (2 * i + 1)%nat in
      if decide (n ≤ j1)%nat then h
      else
        let j := child h j1 n in
        if negb (Less h j i) then h else down fuel (Swap h i j) j n
  end.
(** [heap.Push] and [heap.Pop], with the queue's own [Push] and [Pop] at the end of the slice. *)
Definition heap_Push (h : list Packet) (p : Packet) : list Packet := let h := h ++ [p] in up (length h) h (length h - 1).
Definition heap_Pop (h : list Packet) : option (Packet * list Packet) :=
  match h with
  | [] => None
  | _ =>
      let n := (length h - 1)%nat in
      let h := down (length h) (Swap h 0 n) 0 n in
      match h !! n with Some p => Some (p, take n h) | None => None end
  end.

(** ** The queue *)

(** [b] of a read is its length. [RFirst] waits for a packet with an empty heap, [RMore] for one that
    fills a gap; a return is bytes or an error. *)
Inductive RThread := RIdle | RFirst (b : Z) | RMore (b : Z) | RReturn (bs : list byte) (e : option GoError) | RDelegate (reader : nat) (b : Z).

Record Queue := mkQueue {
  q_reader : option nat; pushedPackets : list Packet; q_heap : list Packet; nextSeq : Z; maxPackets : Z; closed : bool
}.
Definition NewUploadQueue (maxPackets : Z) : Queue := mkQueue None [] [] 0 maxPackets false.

Definition with_heap (q : Queue) (h : list Packet) : Queue := mkQueue (q_reader q) (pushedPackets q) h (nextSeq q) (maxPackets q) (closed q).
Definition with_next (q : Queue) (h : list Packet) (n : Z) : Queue := mkQueue (q_reader q) (pushedPackets q) h n (maxPackets q) (closed q).
Definition with_chan (q : Queue) (c : list Packet) : Queue := mkQueue (q_reader q) c (q_heap q) (nextSeq q) (maxPackets q) (closed q).
Definition with_reader (q : Queue) (r : nat) : Queue := mkQueue (Some r) (pushedPackets q) (q_heap q) (nextSeq q) (maxPackets q) (closed q).

(** The head of [Push]: the reader is taken at most once. *)
Definition Push_reader (q : Queue) (p : Packet) : option Queue :=
  match q_reader q, Reader p with
  | Some _, _ => None
  | None, None => Some q
  | None, Some r => Some (with_reader q r)
  end.
(** The send of [Push], and what it returns then. *)
Definition Push_send (q : Queue) (p : Packet) : Queue * option GoError :=
  (with_chan q (pushedPackets q ++ [p]), if closed q then Some (ErrMsg "packet queue closed") else None).

Definition Close (q : Queue) : Queue := mkQueue (q_reader q) (pushedPackets q) (q_heap q) (nextSeq q) (maxPackets q) true.

(** The loop of [Read] up to where it returns or waits. *)
Fixpoint read_loop (fuel : nat) (q : Queue) (b : Z) : RThread * Queue :=
  match fuel with
  | O => (RReturn [] None, q)
  | S fuel =>
      match heap_Pop (q_heap q) with
      | None => (RReturn [] None, q)
      | Some (packet, h) =>
          if decide (Seq packet = nextSeq q) then
            let n := Z.to_nat (Z.min b (len (Payload packet))) in
            let bs := take n (Payload packet) in
            if decide (n < length (Payload packet))%nat then
              (RReturn bs None, with_heap q (heap_Push h (mkPacket (Reader packet) (drop n (Payload packet)) (Seq packet))))
            else (RReturn bs None, with_next q h (u64 (Seq packet + 1)))
          else if decide (Seq packet > nextSeq q) then
            if decide (len h > maxPackets q) then (RReturn [] (Some (ErrMsg "packet queue is too large")), with_heap q h)
            else (RMore b, with_heap q (heap_Push h packet))
          else read_loop fuel (with_heap q h) b
      end
  end.
Definition Read_loop (q : Queue) (b : Z) : RThread * Queue := read_loop (S (length (q_heap q))) q b.

Definition Read (q : Queue) (b : Z) : RThread * Queue :=
  match q_reader q with
  | Some r => (RDelegate r b, q)
  | None =>
      if closed q then (RReturn [] (Some EOF), q)
      else if decide (q_heap q = []) then (RFirst b, q)
      else Read_loop q b
  end.
(** A packet arrives at a read that waits. *)
Definition Receive_first (q : Queue) (p : Packet) (b : Z) : RThread * Queue :=
  match Reader p with
  | Some r => (RDelegate r b, q)
  | None => Read_loop (with_heap q (heap_Push (q_heap q) p)) b
  end.
Definition Receive_more (q : Queue) (p : Packet) (b : Z) : RThread * Queue :=
  Read_loop (with_heap q (heap_Push (q_heap q) p)) b.

(** ** The heap puts the least number first *)

Definition key (h : list Packet) (i : nat) : Z := match h !! i with Some p => Seq p | None => 0 end.
Definition par (i : nat) : nat := ((i - 1) / 2)%nat.
Definition heap_ok (h : list Packet) : Prop := ∀ i, (0 < i < length h)%nat → key h (par i) ≤ key h i.

Lemma par_lt i : (0 < i)%nat → (par i < i)%nat.
Proof. intros H. unfold par. pose proof (Nat.Div0.div_le_upper_bound (i - 1) 2 (i - 1)). pose proof (Nat.div_mod (i - 1) 2). lia. Qed.
Lemma par_child i j : (0 < j)%nat → par j = i ↔ j = (2 * i + 1)%nat ∨ j = (2 * i + 2)%nat.
Proof. intros Hj. unfold par. pose proof (Nat.div_mod (j - 1) 2). pose proof (Nat.mod_upper_bound (j - 1) 2). lia. Qed.

Lemma Less_key h i j : (i < length h)%nat → (j < length h)%nat → Less h i j = bool_decide (key h i < key h j).
Proof. intros [p Hp]%lookup_lt_is_Some [q Hq]%lookup_lt_is_Some. unfold Less, key. by rewrite Hp, Hq. Qed.

Lemma Swap_length h i j : length (Swap h i j) = length h.
Proof. unfold Swap. destruct (h !! i), (h !! j); [|done..]. by rewrite !length_insert. Qed.
Lemma Swap_key h i j k : (i < length h)%nat → (j < length h)%nat →
  key (Swap h i j) k = if decide (k = j) then key h i else if decide (k = i) then key h j else key h k.
Proof.
  intros Hi Hj. destruct (lookup_lt_is_Some_2 h i Hi) as [p Hp], (lookup_lt_is_Some_2 h j Hj) as [q Hq]. unfold Swap, key. rewrite Hp, Hq.
  destruct (decide (k = j)) as [->|Hkj]; [rewrite list_lookup_insert_eq; [done|by rewrite length_insert]|].
  rewrite list_lookup_insert_ne by done. destruct (decide (k = i)) as [->|Hki]; [by rewrite list_lookup_insert_eq|]. by rewrite list_lookup_insert_ne by done.
Qed.
Lemma Swap_perm h i j : Swap h i j ≡ₚ h.
Proof.
  unfold Swap. destruct (h !! i) as [p|] eqn:Hp; [|done]. destruct (h !! j) as [q|] eqn:Hq; [|done].
  destruct (decide (i = j)) as [->|Hne].
  { rewrite Hp in Hq. injection Hq as ->. by rewrite list_insert_insert_eq, list_insert_id. }
  apply Permutation_inj. rewrite !length_insert. split; [done|]. exists (λ k, if decide (k = i) then j else if decide (k = j) then i else k).
  split; [intros a b; repeat destruct (decide _); congruence|]. intros k. pose proof (lookup_lt_Some _ _ _ Hp). pose proof (lookup_lt_Some _ _ _ Hq).
  destruct (decide (k = i)) as [->|Hki]; [by rewrite list_lookup_insert_ne, list_lookup_insert_eq by done|].
  destruct (decide (k = j)) as [->|Hkj]; [rewrite list_lookup_insert_eq; [done|by rewrite length_insert]|]. by rewrite !list_lookup_insert_ne by done.
Qed.

Lemma up_perm fuel : ∀ h j, up fuel h j ≡ₚ h.
Proof.
  induction fuel as [|fuel IH]; intros h j; cbn [up]; [done|]. destruct (_ || _); [done|]. by rewrite IH, Swap_perm.
Qed.

(** Every edge is in order but that above [j], and what is below [j] is in order with what is above. *)
Lemma up_ok fuel : ∀ h j, (j ≤ fuel)%nat → (j < length h)%nat → (∀ k, (0 < k < length h)%nat → k ≠ j → key h (par k) ≤ key h k) →
  (∀ k, (0 < k < length h)%nat → par k = j → (0 < j)%nat → key h (par j) ≤ key h k) → heap_ok (up fuel h j).
Proof.
  induction fuel as [|fuel IH]; intros h j Hf Hj He Hg; cbn [up]; [intros k Hk; apply He; [done|lia]|].
  fold (par j). destruct (decide (j = 0)%nat) as [->|Hj0]; [rewrite bool_decide_eq_true_2 by done; intros k Hk; apply He; [done|lia]|].
  pose proof (par_lt j ltac:(lia)) as Hp. set (i := par j) in *. rewrite bool_decide_eq_false_2 by lia. cbn [orb]. rewrite Less_key by lia.
  destruct (bool_decide (key h j < key h i)) eqn:El; cbn [negb].
  2: { apply bool_decide_eq_false in El. intros k Hk. destruct (decide (k = j)) as [->|]; [fold i; lia|by apply He]. }
  apply bool_decide_eq_true in El. apply IH; [lia|rewrite Swap_length; lia|..]; rewrite Swap_length.
  - intros k Hk Hki. pose proof (par_lt k ltac:(lia)). pose proof (He k Hk) as H1. pose proof (Hg k Hk) as H2. rewrite !Swap_key by lia.
    destruct (decide (k = j)) as [->|Hkj]; [fold i; rewrite decide_False, decide_True by lia; lia|]. rewrite (decide_False (P := k = i)) by done.
    destruct (decide (par k = j)) as [Epj|]; [fold i in H2; apply H2; [done|lia]|]. specialize (H1 Hkj). destruct (decide (par k = i)) as [Epi|]; [rewrite Epi in H1; lia|done].
  - intros k Hk Hpk Hi0. pose proof (par_lt k ltac:(lia)). pose proof (par_lt i Hi0) as Hpi. pose proof (He i ltac:(lia) ltac:(lia)) as H1. rewrite !Swap_key by lia.
    rewrite (decide_False (P := par i = j)), (decide_False (P := par i = i)) by lia. destruct (decide (k = j)) as [->|Hkj]; [done|]. rewrite decide_False by lia.
    pose proof (He k Hk Hkj) as H2. rewrite Hpk in H2. lia.
Qed.

Lemma key_app h p k : (k < length h)%nat → key (h ++ [p]) k = key h k.
Proof. intros Hk. unfold key. by rewrite lookup_app_l by done. Qed.

Lemma heap_Push_ok h p : heap_ok h → heap_ok (heap_Push h p).
Proof.
  intros Hh. unfold heap_Push. cbn zeta. apply up_ok; rewrite length_app; cbn [length]; [lia|lia| |].
  - intros k Hk Hne. pose proof (par_lt k ltac:(lia)). rewrite !key_app by lia. apply Hh. lia.
  - intros k Hk Hpk _. pose proof (par_lt k ltac:(lia)). lia.
Qed.
Lemma heap_Push_perm h p : heap_Push h p ≡ₚ p :: h.
Proof. unfold heap_Push. cbn zeta. rewrite up_perm. symmetry. apply Permutation_cons_append. Qed.

Lemma heap_Push_nonnil h p : heap_Push h p ≠ [].
Proof. intros E. pose proof (heap_Push_perm h p) as Hp. rewrite E in Hp. by apply Permutation_nil_cons in Hp. Qed.

Lemma down_perm fuel : ∀ h i n, down fuel h i n ≡ₚ h.
Proof.
  induction fuel as [|fuel IH]; intros h i n; cbn [down]; [done|]. destruct (decide _); [done|]. cbn zeta. destruct (negb _); [done|]. by rewrite IH, Swap_perm.
Qed.

(** The lesser child. *)
Lemma child_min h i n : (n ≤ length h)%nat → (2 * i + 1 < n)%nat →
  let j := child h (2 * i + 1) n in
  (j < n)%nat ∧ par j = i ∧ ∀ k, (0 < k < n)%nat → par k = i → key h j ≤ key h k.
Proof.
  intros Hn Hi. unfold child. destruct (decide (2 * i + 1 + 1 < n)%nat) as [H2|H2].
  - rewrite bool_decide_eq_true_2 by done. rewrite Less_key by lia. cbn [andb]. destruct (bool_decide _) eqn:El; [apply bool_decide_eq_true in El|apply bool_decide_eq_false in El].
    + split; [done|]. split; [apply par_child; lia|]. intros k Hk Hp. apply par_child in Hp as [-> | ->]; [lia|replace (2 * i + 2)%nat with (2 * i + 1 + 1)%nat by lia; lia|lia].
    + split; [done|]. split; [apply par_child; lia|]. intros k Hk Hp. apply par_child in Hp as [-> | ->]; [lia|replace (2 * i + 2)%nat with (2 * i + 1 + 1)%nat by lia; lia|lia].
  - rewrite bool_decide_eq_false_2 by done. cbn [andb]. split; [done|]. split; [apply par_child; lia|]. intros k Hk Hp. apply par_child in Hp as [-> | ->]; lia.
Qed.

Lemma down_ok fuel : ∀ h i n, (n ≤ i + fuel)%nat → (n ≤ length h)%nat → (∀ k, (0 < k < n)%nat → par k ≠ i → key h (par k) ≤ key h k) →
  (∀ k, (0 < k < n)%nat → par k = i → (0 < i)%nat → key h (par i) ≤ key h k) →
  (∀ k, (0 < k < n)%nat → key (down fuel h i n) (par k) ≤ key (down fuel h i n) k) ∧ (∀ k, (n ≤ k)%nat → down fuel h i n !! k = h !! k).
Proof.
  induction fuel as [|fuel IH]; intros h i n Hf Hn He Hg; cbn [down].
  { split; [|done]. intros k Hk. apply He; [done|]. pose proof (par_lt k). lia. }
  destruct (decide (n ≤ 2 * i + 1)%nat) as [Hle|Hlt]; [split; [|done]; intros k Hk; apply He; [done|]; intros Hp; apply par_child in Hp; lia|].
  cbn zeta. destruct (child_min h i n Hn ltac:(lia)) as (Hj & Hpj & Hmin). set (j := child h (2 * i + 1) n) in *. rewrite Less_key by lia.
  assert (H0j : (0 < j)%nat) by (unfold j, child; destruct (andb _ _); lia).
  assert (Hij : (i < j)%nat) by (pose proof (proj1 (par_child i j H0j) Hpj); lia).
  destruct (bool_decide (key h j < key h i)) eqn:El; cbn [negb].
  2: { apply bool_decide_eq_false in El. split; [|done]. intros k Hk. destruct (decide (par k = i)) as [Hp|Hp]; [rewrite Hp; pose proof (Hmin k Hk Hp); lia|by apply He]. }
  apply bool_decide_eq_true in El. destruct (IH (Swap h i j) j n) as [H1 H2]; [lia|by rewrite Swap_length|..].
  - intros k Hk Hpk. pose proof (par_lt k ltac:(lia)). rewrite !Swap_key by lia. rewrite (decide_False (P := par k = j)) by done.
    destruct (decide (k = j)) as [->|Hkj]; [rewrite decide_True by done; lia|]. destruct (decide (par k = i)) as [Hp|Hp].
    + rewrite decide_False by (intros ->; lia). by apply Hmin.
    + destruct (decide (k = i)) as [->|Hki]; [apply (Hg j); [lia|done|lia]|by apply He].
  - intros k Hk Hpk Hj0. pose proof (par_lt k ltac:(lia)). rewrite Hpj, !Swap_key by lia. rewrite (decide_False (P := i = j)), (decide_True (P := i = i)) by lia.
    rewrite (decide_False (P := k = j)), (decide_False (P := k = i)) by lia. pose proof (He k Hk ltac:(lia)) as H3. by rewrite Hpk in H3.
  - split; [done|]. intros k Hk. rewrite H2 by done. unfold Swap. destruct (h !! i), (h !! j); [|done..]. by rewrite !list_lookup_insert_ne by lia.
Qed.

Lemma root_min h i : heap_ok h → (i < length h)%nat → key h 0 ≤ key h i.
Proof.
  intros Hh. induction i as [i IH] using lt_wf_ind. intros Hi. destruct (decide (i = 0)%nat) as [->|]; [done|].
  pose proof (par_lt i ltac:(lia)). pose proof (IH (par i) ltac:(done) ltac:(lia)). pose proof (Hh i ltac:(lia)). lia.
Qed.

Lemma key_take h n k : (k < n)%nat → key (take n h) k = key h k.
Proof. intros Hk. unfold key. by rewrite lookup_take_lt. Qed.
Lemma key_elem h p : p ∈ h → ∃ i, (i < length h)%nat ∧ key h i = Seq p.
Proof. intros [i Hi]%list_elem_of_lookup_1. exists i. split; [by eapply lookup_lt_Some|]. unfold key. by rewrite Hi. Qed.

Lemma heap_Pop_some h : heap_ok h → h ≠ [] → ∃ p h', heap_Pop h = Some (p, h') ∧ h ≡ₚ p :: h' ∧ heap_ok h' ∧ ∀ q, q ∈ h → Seq p ≤ Seq q.
Proof.
  intros Hh Hne. assert (Hl : (0 < length h)%nat) by (destruct h; [done|cbn; lia]). unfold heap_Pop. destruct h as [|p0 h0] eqn:Eh; [done|]. rewrite <- Eh in *. clear Hne.
  set (n := (length h - 1)%nat). set (s := Swap h 0 n). assert (Hsl : length s = length h) by apply Swap_length.
  destruct (down_ok (length h) s 0 n ltac:(lia) ltac:(lia)) as [H1 H2].
  { intros k Hk Hp. pose proof (par_lt k ltac:(lia)). unfold s. rewrite !Swap_key by lia. rewrite !decide_False by lia. apply Hh. lia. }
  { intros. lia. }
  set (d := down _ s 0 n) in *. assert (Hd : d ≡ₚ h) by (unfold d; rewrite down_perm; apply Swap_perm).
  assert (Hdl : length d = length h) by (by rewrite Hd). destruct (lookup_lt_is_Some_2 d n ltac:(lia)) as [p Hp]. rewrite Hp. exists p, (take n d). split; [done|].
  assert (Hkey : Seq p = key h 0).
  { rewrite H2 in Hp by done. assert (Hk : key s n = Seq p) by (unfold key; by rewrite Hp). unfold s in Hk. rewrite Swap_key, decide_True in Hk by lia. done. }
  assert (Hsplit : d = take n d ++ [p]) by (rewrite <- (take_drop n d) at 1; f_equal; rewrite (drop_S _ _ _ Hp); rewrite drop_ge by lia; done).
  split; [|split].
  - rewrite <- Hd. rewrite Hsplit at 1. symmetry. apply Permutation_cons_append.
  - intros k Hk. rewrite length_take in Hk. pose proof (par_lt k ltac:(lia)). rewrite !key_take by lia. apply H1. lia.
  - intros q (i & Hi & <-)%key_elem. rewrite Hkey. by apply root_min.
Qed.

Lemma heap_nil_ok : heap_ok [].
Proof. intros i Hi. cbn in Hi. lia. Qed.

(** ** The steps *)

(** The queue, the thread that reads, what it has read, the packets that were pushed, by number
    with the bytes that came last, and the pushes that have not sent their packet yet. *)
Record World := mkWorld { w_q : Queue; w_t : RThread; w_out : list byte; w_sent : gmap Z (list byte); w_push : list Packet }.

Definition lastSeq : Z := 18446744073709551615.

(** A step that begins a push carries its packet. *)
Inductive Label := LPush (p : Packet) | LTau.

(** Any goroutine may push any packet at any time; [Push] looks at the reader, then waits until
    there is room in the channel or the queue is closed (either, where both hold). One goroutine
    reads. A read that was handed to the reader of a streamed post returns what that returns. *)
Inductive step : World → Label → World → Prop :=
| st_push q t out sent ps p q1 : 0 ≤ Seq p ≤ lastSeq → Push_reader q p = Some q1 →
    step (mkWorld q t out sent ps) (LPush p) (mkWorld q1 t out (<[Seq p := Payload p]> sent) (ps ++ [p]))
| st_send q t out sent ps1 p ps2 : len (pushedPackets q) < maxPackets q →
    step (mkWorld q t out sent (ps1 ++ p :: ps2)) LTau (mkWorld (Push_send q p).1 t out sent (ps1 ++ ps2))
| st_push_closed q t out sent ps1 p ps2 : closed q = true →
    step (mkWorld q t out sent (ps1 ++ p :: ps2)) LTau (mkWorld q t out sent (ps1 ++ ps2))
| st_close q t out sent ps : step (mkWorld q t out sent ps) LTau (mkWorld (Close q) t out sent ps)
| st_read q out sent ps b : 0 ≤ b → step (mkWorld q RIdle out sent ps) LTau (mkWorld (Read q b).2 (Read q b).1 out sent ps)
| st_first q out sent ps b p c : pushedPackets q = p :: c →
    let r := Receive_first (with_chan q c) p b in step (mkWorld q (RFirst b) out sent ps) LTau (mkWorld r.2 r.1 out sent ps)
| st_more q out sent ps b p c : pushedPackets q = p :: c →
    let r := Receive_more (with_chan q c) p b in step (mkWorld q (RMore b) out sent ps) LTau (mkWorld r.2 r.1 out sent ps)
| st_first_closed q out sent ps b : closed q = true → step (mkWorld q (RFirst b) out sent ps) LTau (mkWorld q (RReturn [] (Some EOF)) out sent ps)
| st_more_closed q out sent ps b : closed q = true → step (mkWorld q (RMore b) out sent ps) LTau (mkWorld q (RReturn [] (Some EOF)) out sent ps)
| st_delegate q out sent ps r b bs e : step (mkWorld q (RDelegate r b) out sent ps) LTau (mkWorld q (RReturn bs e) out sent ps)
| st_return q out sent ps bs e : step (mkWorld q (RReturn bs e) out sent ps) LTau (mkWorld q RIdle (out ++ bs) sent ps).

(** The pushes the theorem is about: a post that is not streamed, with a number below the last
    one; a number is pushed again only with the same bytes, and not while the earlier packet waits. *)
Definition orderly (w : World) (l : Label) : Prop :=
  match l with
  | LTau => True
  | LPush p => Reader p = None ∧ Seq p < lastSeq ∧
      (w_sent w !! Seq p = None ∨
       w_sent w !! Seq p = Some (Payload p) ∧ Seq p ∉ Seq <$> (q_heap (w_q w) ++ pushedPackets (w_q w) ++ w_push w))
  end.
Definition orderly_step (w w' : World) : Prop := ∃ l, step w l w' ∧ orderly w l.

(** The bytes of the first [n] packets. *)
Definition stream (sent : gmap Z (list byte)) (n : nat) : list byte := concat ((λ i : nat, default [] (sent !! Z.of_nat i)) <$> seq 0 n).

(** ** The invariant *)

Definition flight (q : Queue) : list Packet := q_heap q ++ pushedPackets q.

(** A packet of the queue: [c] is what was read of the packet that comes next. *)
Definition pkt_ok (sent : gmap Z (list byte)) (next : Z) (c : list byte) (p : Packet) : Prop :=
  Reader p = None ∧ 0 ≤ Seq p < lastSeq ∧ ∃ d, sent !! Seq p = Some d ∧ (Seq p = next → d = c ++ Payload p) ∧ (next < Seq p → d = Payload p).

Record core (sent : gmap Z (list byte)) (q : Queue) (n : nat) (c out : list byte) : Prop := {
  co_next : nextSeq q = Z.of_nat n;
  co_out : out = stream sent n ++ c;
  co_sent : ∀ i, (i < n)%nat → is_Some (sent !! Z.of_nat i);
  co_part : c ≠ [] → nextSeq q ∈ Seq <$> q_heap q;
  co_heap : heap_ok (q_heap q);
  co_nodup : NoDup (Seq <$> flight q);
  co_pkts : Forall (pkt_ok sent (nextSeq q) c) (flight q);
  co_reader : q_reader q = None
}.

Lemma stream_S sent n : stream sent (S n) = stream sent n ++ default [] (sent !! Z.of_nat n).
Proof. unfold stream. rewrite seq_S, fmap_app, concat_app. cbn. by rewrite app_nil_r. Qed.
Lemma stream_insert sent n s d : sent !! s = None ∨ sent !! s = Some d → (∀ i, (i < n)%nat → is_Some (sent !! Z.of_nat i)) → stream (<[s := d]> sent) n = stream sent n.
Proof.
  intros Hs Hi. induction n as [|n IH]; [done|]. rewrite !stream_S, IH by (intros i Hlt; apply Hi; lia). f_equal.
  destruct (decide (Z.of_nat n = s)) as [<-|Hne]; [|by rewrite lookup_insert_ne by done]. rewrite lookup_insert_eq.
  destruct Hs as [Hs|Hs]; [|by rewrite Hs]. destruct (Hi n ltac:(lia)) as [x Hx]. congruence.
Qed.

(** Another heap with the same packets. *)
Lemma core_perm sent q n c out h : core sent q n c out → heap_ok h → h ≡ₚ q_heap q → core sent (with_heap q h) n c out.
Proof.
  intros [H1 H2 H3 H4 H5 H6 H7 H8] Hh Hp. split; cbn [with_heap q_heap nextSeq q_reader] in *; [done|done|done|by rewrite Hp|done| | |done].
  - unfold flight in *. cbn [with_heap q_heap pushedPackets] in *. by rewrite Hp.
  - unfold flight in *. cbn [with_heap q_heap pushedPackets] in *. by rewrite Hp.
Qed.

(** The head packet leaves the heap. *)
Lemma core_pop sent q n c out p h : core sent q n c out → q_heap q ≡ₚ p :: h → heap_ok h → Seq p ≠ nextSeq q →
  pkt_ok sent (nextSeq q) c p ∧ core sent (with_heap q h) n c out.
Proof.
  intros [H1 H2 H3 H4 H5 H6 H7 H8] Hp Hh Hne. unfold flight in *. rewrite Hp in H6, H7. cbn [app fmap list_fmap] in H6, H7.
  apply list.NoDup_cons in H6 as [_ H6]. apply Forall_cons_1 in H7 as [Hpk H7]. split; [done|].
  split; cbn [with_heap q_heap nextSeq q_reader pushedPackets]; try done. intros Hc. specialize (H4 Hc). rewrite Hp in H4.
  apply elem_of_cons in H4 as [H4|H4]; [congruence|done].
Qed.

(** The bytes a thread is about to return. *)
Definition returning (t : RThread) : list byte := match t with RReturn bs _ => bs | _ => [] end.
Definition thread_ok (t : RThread) : Prop := match t with RFirst b | RMore b => 0 ≤ b | RDelegate _ _ => False | _ => True end.

Lemma pkt_ok_next sent next next' c c' p : Seq p ≠ next → (next < Seq p → next' ≤ Seq p) → (Seq p < next → Seq p < next') → (Seq p = next' → c' = []) →
  pkt_ok sent next c p → pkt_ok sent next' c' p.
Proof.
  intros Hne Hgt Hlt Hc (H1 & H2 & d & H3 & H4 & H5). split; [done|]. split; [done|]. exists d. split; [done|].
  split; [|intros; apply H5; lia]. intros E. rewrite (Hc E). apply H5. lia.
Qed.

Lemma Forall_impl_elem {A} (P Q : A → Prop) l : Forall P l → (∀ x, x ∈ l → P x → Q x) → Forall Q l.
Proof. rewrite !list.Forall_forall. eauto. Qed.

(** The packet that comes next is read, in part or whole. *)
Lemma read_part sent q n c out p h k : core sent q n c out → q_heap q ≡ₚ p :: h → heap_ok h → Seq p = nextSeq q →
  core sent (with_heap q (heap_Push h (mkPacket (Reader p) (drop k (Payload p)) (Seq p)))) n (c ++ take k (Payload p)) (out ++ take k (Payload p)).
Proof.
  intros [H1 H2 H3 H4 H5 H6 H7 H8] Hp Hh Hs. unfold flight in *. rewrite Hp in H6, H7. cbn [app fmap list_fmap] in H6, H7. apply list.NoDup_cons in H6 as [Hni H6].
  apply Forall_cons_1 in H7 as [(Hr & Hq & d & Hd & Hd1 & _) H7]. split; unfold flight; cbn [with_heap q_heap nextSeq q_reader pushedPackets].
  - done.
  - by rewrite H2, app_assoc.
  - done.
  - intros _. rewrite heap_Push_perm, <- Hs. left.
  - by apply heap_Push_ok.
  - rewrite heap_Push_perm. cbn [app fmap list_fmap]. apply list.NoDup_cons. done.
  - rewrite heap_Push_perm. cbn [app]. apply Forall_cons_2.
    + split; [done|]. split; [done|]. exists d. cbn [Seq Payload Reader]. split; [done|]. split; [|lia]. intros _. rewrite <- app_assoc, take_drop. by apply Hd1.
    + eapply Forall_impl_elem; [exact H7|]. intros x Hx Hpk. assert (Hxs : Seq x ≠ nextSeq q) by (intros E; apply Hni; rewrite Hs, <- E; by apply list_elem_of_fmap_2).
      eapply pkt_ok_next; [exact Hxs|lia|lia| |exact Hpk]. done.
  - done.
Qed.

Lemma read_whole sent q n c out p h : core sent q n c out → q_heap q ≡ₚ p :: h → heap_ok h → Seq p = nextSeq q →
  core sent (with_next q h (u64 (Seq p + 1))) (S n) [] (out ++ Payload p).
Proof.
  intros [H1 H2 H3 H4 H5 H6 H7 H8] Hp Hh Hs. unfold flight in *. rewrite Hp in H6, H7. cbn [app fmap list_fmap] in H6, H7. apply list.NoDup_cons in H6 as [Hni H6].
  apply Forall_cons_1 in H7 as [(Hr & Hq & d & Hd & Hd1 & _) H7]. assert (Hu : u64 (Seq p + 1) = Seq p + 1) by (unfold u64, lastSeq in *; apply Z.mod_small; lia).
  specialize (Hd1 Hs). split; unfold flight; cbn [with_next q_heap nextSeq q_reader pushedPackets]; rewrite ?Hu.
  - lia.
  - rewrite stream_S, app_nil_r, H2, <- app_assoc. f_equal. rewrite <- H1, <- Hs, Hd. done.
  - intros i Hi. destruct (decide (i = n)) as [->|]; [|apply H3; lia]. rewrite <- H1, <- Hs, Hd. by eexists.
  - done.
  - done.
  - done.
  - eapply Forall_impl_elem; [exact H7|]. intros x Hx Hpk. assert (Hxs : Seq x ≠ nextSeq q) by (intros E; apply Hni; rewrite Hs, <- E; by apply list_elem_of_fmap_2).
    eapply pkt_ok_next; [exact Hxs|lia|lia|done|exact Hpk].
  - done.
Qed.

Lemma read_loop_ok fuel : ∀ sent q n c out b, core sent q n c out → 0 ≤ b → let r := read_loop fuel q b in
  thread_ok r.1 ∧ ∃ n' c', core sent r.2 n' c' (out ++ returning r.1).
Proof.
  induction fuel as [|fuel IH]; intros sent q n c out b Hc Hb; cbn [read_loop]; [cbn; rewrite app_nil_r; eauto|].
  destruct (decide (q_heap q = [])) as [E|Hne]; [rewrite E; cbn; rewrite app_nil_r; eauto|].
  destruct (heap_Pop_some (q_heap q) (co_heap _ _ _ _ _ Hc) Hne) as (p & h & -> & Hp & Hh & Hmin). destruct (decide (Seq p = nextSeq q)) as [Hs|Hs].
  - cbn zeta. set (k := Z.to_nat _). destruct (decide (k < length (Payload p))%nat) as [Hk|Hk]; cbn [fst snd thread_ok returning]; (split; [done|]); do 2 eexists.
    + by eapply read_part.
    + rewrite take_ge by lia. by eapply read_whole.
  - destruct (core_pop sent q n c out p h Hc Hp Hh Hs) as [Hpk Hc']. destruct (decide (Seq p > nextSeq q)).
    + destruct (decide (len h > maxPackets q)); cbn [fst snd thread_ok returning]; rewrite app_nil_r; [eauto|]. split; [done|]. exists n, c.
      apply (core_perm sent q n c out); [done|by apply heap_Push_ok|]. by rewrite heap_Push_perm, Hp.
    + by eapply IH.
Qed.

(** A packet moves from the channel to the heap. *)
Lemma core_receive sent q n c out p ch : core sent q n c out → pushedPackets q = p :: ch →
  Reader p = None ∧ core sent (with_heap (with_chan q ch) (heap_Push (q_heap q) p)) n c out.
Proof.
  intros [H1 H2 H3 H4 H5 H6 H7 H8] Hch.
  assert (Hp : flight q ≡ₚ heap_Push (q_heap q) p ++ ch) by (unfold flight; rewrite heap_Push_perm, Hch; cbn [app]; symmetry; apply Permutation_middle).
  split; [rewrite Hp, heap_Push_perm in H7; cbn [app] in H7; by apply Forall_cons_1 in H7 as [(? & _) _]|].
  unfold flight in Hp, H6, H7. split; unfold flight; cbn [with_heap with_chan q_heap nextSeq q_reader pushedPackets]; try done.
  - intros Hc. rewrite heap_Push_perm. right. by apply H4.
  - by apply heap_Push_ok.
  - by rewrite <- Hp.
  - by rewrite <- Hp.
Qed.

(** Fewer packets in the channel, or in another order. *)
Lemma core_chan sent q n c out ch : core sent q n c out → ch ⊆+ pushedPackets q → core sent (with_chan q ch) n c out.
Proof.
  intros [H1 H2 H3 H4 H5 H6 H7 H8] Hs.
  assert (Hf : ∃ r, flight q ≡ₚ flight (with_chan q ch) ++ r).
  { apply submseteq_Permutation. unfold flight. cbn [with_chan q_heap pushedPackets]. by apply submseteq_skips_l. }
  destruct Hf as [r Hf]. rewrite Hf in H6, H7. apply list.Forall_app in H7 as [H7 _].
  rewrite fmap_app in H6. apply list.NoDup_app in H6 as [H6 _]. split; cbn [with_chan q_heap nextSeq q_reader]; done.
Qed.

Lemma core_push sent q n c out p : core sent q n c out → Reader p = None → 0 ≤ Seq p < lastSeq →
  sent !! Seq p = None ∨ sent !! Seq p = Some (Payload p) ∧ Seq p ∉ Seq <$> flight q →
  core (<[Seq p := Payload p]> sent) (with_chan q (pushedPackets q ++ [p])) n c out.
Proof.
  intros [H1 H2 H3 H4 H5 H6 H7 H8] Hr Hs Hf.
  assert (Hni : Seq p ∉ Seq <$> flight q).
  { destruct Hf as [Hf|[_ Hf]]; [|done]. intros (x & Hx & Hin)%list_elem_of_fmap. rewrite list.Forall_forall in H7.
    destruct (H7 x Hin) as (_ & _ & d & Hd & _). rewrite <- Hx in Hd. congruence. }
  assert (Hsame : sent !! Seq p = None ∨ sent !! Seq p = Some (Payload p)) by (destruct Hf as [|[? _]]; auto).
  assert (Hfl : flight (with_chan q (pushedPackets q ++ [p])) = flight q ++ [p]) by (unfold flight; cbn; by rewrite app_assoc).
  split; rewrite ?Hfl; cbn [with_chan q_heap nextSeq q_reader]; try done.
  - by rewrite stream_insert.
  - intros i Hi. destruct (decide (Z.of_nat i = Seq p)) as [->|]; [rewrite lookup_insert_eq; by eexists|rewrite lookup_insert_ne by done; by apply H3].
  - rewrite fmap_app. apply list.NoDup_app. split; [done|]. split; [|apply NoDup_singleton]. intros x Hx Hxp. cbn in Hxp. apply list_elem_of_singleton in Hxp as ->. done.
  - apply list.Forall_app. split.
    + eapply Forall_impl_elem; [exact H7|]. intros x Hx (Hxr & Hxs & d & Hd & Hd'). split; [done|]. split; [done|]. exists d.
      rewrite lookup_insert_ne; [done|]. intros E. apply Hni. rewrite E. by apply list_elem_of_fmap_2.
    + apply Forall_singleton. split; [done|]. split; [done|]. exists (Payload p). rewrite lookup_insert_eq. split; [done|]. split; [|done]. intros E.
      destruct c as [|x c]; [done|]. exfalso. apply Hni. rewrite E. unfold flight. rewrite fmap_app. apply elem_of_app. left. by apply H4.
Qed.

(** A read does not look at the packets of the channel. *)
Lemma read_loop_chan fuel : ∀ q b ch, read_loop fuel (with_chan q ch) b = ((read_loop fuel q b).1, with_chan (read_loop fuel q b).2 ch).
Proof.
  induction fuel as [|fuel IH]; intros q b ch; [done|]. cbn [read_loop with_chan q_heap nextSeq maxPackets].
  destruct (heap_Pop (q_heap q)) as [[p h]|]; [|done]. cbn zeta. repeat destruct (decide _); try done.
  apply (IH (with_heap q h)).
Qed.

(** The invariant is about the queue together with the packets that are still to be sent. *)
Definition later (q : Queue) (ps : list Packet) : Queue := with_chan q (pushedPackets q ++ ps).
Definition world_ok (w : World) : Prop := thread_ok (w_t w) ∧ ∃ n c, core (w_sent w) (later (w_q w) (w_push w)) n c (w_out w ++ returning (w_t w)).

(** The loop of a read, in the invariant. *)
Lemma read_loop_world sent q ps n c out b : core sent (later q ps) n c out → 0 ≤ b →
  world_ok (mkWorld (Read_loop q b).2 (Read_loop q b).1 out sent ps).
Proof.
  intros Hc Hb. pose proof (read_loop_ok (S (length (q_heap q))) sent _ n c out b Hc Hb) as Hr. unfold later in Hr. rewrite read_loop_chan in Hr.
  unfold world_ok, later. cbn [w_q w_t w_out w_sent w_push fst snd] in *. unfold Read_loop.
  assert (E : pushedPackets (read_loop (S (length (q_heap q))) q b).2 = pushedPackets q).
  { pose proof (read_loop_chan (S (length (q_heap q))) q b (pushedPackets q)) as E. replace (with_chan q (pushedPackets q)) with q in E by (by destruct q).
    apply (f_equal (λ r, pushedPackets r.2)) in E. exact E. }
  by rewrite E.
Qed.

Lemma core_receive_later sent q ps n c out p ch : core sent (later q ps) n c out → pushedPackets q = p :: ch →
  Reader p = None ∧ core sent (later (with_heap (with_chan q ch) (heap_Push (q_heap q) p)) ps) n c out.
Proof.
  intros Hc Hch. destruct (core_receive sent (later q ps) n c out p (ch ++ ps) Hc) as [Hr Hc']; [unfold later; cbn; by rewrite Hch|]. done.
Qed.

Lemma upload_step_ok w w' : orderly_step w w' → world_ok w → world_ok w'.
Proof.
  intros (l & Hs & Ho) (Ht & n & c & Hc).
  destruct Hs as [q t out sent ps p q1 Hq H1|q t out sent ps1 p ps2 Hl|q t out sent ps1 p ps2 Hcl|q t out sent ps|q out sent ps b Hb
    |q out sent ps b p ch Hch|q out sent ps b p ch Hch|q out sent ps b Hcl|q out sent ps b Hcl|q out sent ps r b bs e|q out sent ps bs e];
    cbn [w_q w_t w_out w_sent w_push orderly] in *.
  - destruct Ho as (Hr & Hlt & Hf). unfold Push_reader in H1. pose proof (co_reader _ _ _ _ _ Hc) as Hnr. cbn in Hnr. rewrite Hnr, Hr in H1. injection H1 as <-.
    split; [done|]. exists n, c. apply (core_push _ _ _ _ _ p) in Hc; [|done|lia|exact Hf]. unfold later in *. cbn [with_chan pushedPackets] in Hc. by rewrite <- app_assoc in Hc.
  - split; [done|]. exists n, c. cbn [Push_send fst]. unfold later in *. cbn [with_chan pushedPackets w_sent w_out w_t w_q w_push].
    apply (core_chan _ _ _ _ _ ((pushedPackets q ++ [p]) ++ ps1 ++ ps2)) in Hc; [exact Hc|]. cbn. rewrite <- app_assoc. cbn [app].
    apply Permutation_submseteq, Permutation_app_head, Permutation_middle.
  - split; [done|]. exists n, c. unfold later in *. apply (core_chan _ _ _ _ _ (pushedPackets q ++ ps1 ++ ps2)) in Hc; [exact Hc|].
    cbn. apply submseteq_skips_l, submseteq_skips_l. by apply submseteq_cons.
  - split; [done|]. exists n, c. destruct Hc as [? ? ? ? ? ? ? ?]. by split.
  - cbn [returning] in Hc. rewrite app_nil_r in Hc. unfold Read. pose proof (co_reader _ _ _ _ _ Hc) as Hnr. cbn in Hnr. rewrite Hnr.
    destruct (closed q); [split; [done|]; exists n, c; cbn; by rewrite app_nil_r|].
    destruct (decide (q_heap q = [])); [split; [done|]; exists n, c; cbn; by rewrite app_nil_r|]. by eapply read_loop_world.
  - cbn [returning] in Hc. rewrite app_nil_r in Hc. destruct (core_receive_later sent q ps n c out p ch Hc Hch) as [Hr Hc']. unfold r, Receive_first. rewrite Hr. by eapply read_loop_world.
  - cbn [returning] in Hc. rewrite app_nil_r in Hc. destruct (core_receive_later sent q ps n c out p ch Hc Hch) as [Hr Hc']. unfold r, Receive_more. by eapply read_loop_world.
  - split; [done|]. by exists n, c.
  - split; [done|]. by exists n, c.
  - done.
  - split; [done|]. exists n, c. cbn. by rewrite app_nil_r.
Qed.

Definition new_world (maxPackets : Z) : World := mkWorld (NewUploadQueue maxPackets) RIdle [] ∅ [].
Lemma new_world_ok m : world_ok (new_world m).
Proof.
  split; [done|]. exists 0%nat, []. split; cbn; first [done|lia|apply heap_nil_ok|apply NoDup_nil_2|apply Forall_nil_2].
Qed.
Lemma upload_reach_ok m w : rtc orderly_step (new_world m) w → world_ok w.
Proof.
  intros H. pose proof (new_world_ok m) as H0. induction H as [|a b d Hab _ IH]; [done|]. apply IH. by eapply upload_step_ok.
Qed.

(** C23: in whatever order the posts of a session are pushed, by however many goroutines, and
    however their waiting, sending and being turned away interleave with reads of any length and
    with closing, what the reader got is the payloads of the packets 0, 1, 2, ... in their order,
    without a gap, the last one perhaps in part. The run may be any run in which no post is
    streamed, no number is the last of 64 bits, and a number is not pushed again while an earlier
    packet with it waits, nor with other bytes; nothing in the queue itself ensures that. *)
Theorem upload_in_order m w : rtc orderly_step (new_world m) w →
  ∃ n c, w_out w ++ returning (w_t w) = stream (w_sent w) n ++ c ∧ (∀ i, (i < n)%nat → is_Some (w_sent w !! Z.of_nat i)) ∧
    (c = [] ∨ ∃ d, w_sent w !! Z.of_nat n = Some d ∧ c `prefix_of` d).
Proof.
  intros Hr. destruct (upload_reach_ok m w Hr) as (_ & n & c & Hc). exists n, c. split; [apply Hc|]. split; [apply Hc|].
  destruct c as [|x c]; [by left|]. right. pose proof (co_part _ _ _ _ _ Hc ltac:(done)) as (p & Hp & Hin)%list_elem_of_fmap.
  pose proof (co_pkts _ _ _ _ _ Hc) as Hf. rewrite list.Forall_forall in Hf. destruct (Hf p) as (_ & _ & d & Hd & Hd1 & _); [apply elem_of_app; by left|].
  exists d. rewrite <- (co_next _ _ _ _ _ Hc), Hp. split; [done|]. rewrite Hd1 by done. by apply prefix_app_r.
Qed.

(** ** A read gets what is there *)

(** A read that takes packets from the channel as long as it waits and there are any. *)
Fixpoint receive_all (fuel : nat) (r : RThread * Queue) : RThread * Queue :=
  match fuel with
  | O => r
  | S fuel =>
      match r.1, pushedPackets r.2 with
      | RFirst b, p :: ch => receive_all fuel (Receive_first (with_chan r.2 ch) p b)
      | RMore b, p :: ch => receive_all fuel (Receive_more (with_chan r.2 ch) p b)
      | _, _ => r
      end
  end.

Definition no_stale (q : Queue) : Prop := ∀ p, p ∈ flight q → nextSeq q ≤ Seq p.

(** One round of the loop. *)
Lemma Read_loop_progress sent q n c out b : core sent q n c out → no_stale q → 0 ≤ b → q_heap q ≠ [] → len (q_heap q) ≤ maxPackets q + 1 →
  (nextSeq q ∈ Seq <$> q_heap q → ∃ rest q', Read_loop q b = (RReturn (take (Z.to_nat b) rest) None, q') ∧ sent !! nextSeq q = Some (c ++ rest)) ∧
  (nextSeq q ∉ Seq <$> q_heap q → ∃ h, Read_loop q b = (RMore b, with_heap q h) ∧ h ≡ₚ q_heap q ∧ heap_ok h).
Proof.
  intros Hc Hst Hb Hne Hsz. destruct (heap_Pop_some (q_heap q) (co_heap _ _ _ _ _ Hc) Hne) as (p & h & Hpop & Hp & Hh & Hmin).
  assert (Hin : p ∈ flight q) by (unfold flight; rewrite Hp; left). pose proof (co_pkts _ _ _ _ _ Hc) as Hf. rewrite list.Forall_forall in Hf.
  destruct (Hf p Hin) as (_ & _ & d & Hd & Hd1 & _). unfold Read_loop. cbn [read_loop]. rewrite Hpop. split.
  - intros (x & Hx & Hxin)%list_elem_of_fmap. assert (Hs : Seq p = nextSeq q) by (pose proof (Hmin x Hxin); pose proof (Hst p Hin); lia). rewrite (decide_True (P := Seq p = _)) by done.
    exists (Payload p). cbn zeta. assert (Ht : take (Z.to_nat (Z.min b (len (Payload p)))) (Payload p) = take (Z.to_nat b) (Payload p)).
    { destruct (decide (b ≤ len (Payload p))); [by rewrite Z.min_l by done|]. unfold len in *. rewrite !take_ge by lia. done. }
    rewrite Ht, <- Hs, Hd, <- (Hd1 Hs). destruct (decide _); by eexists.
  - intros Hni. assert (Hs : Seq p ≠ nextSeq q) by (intros E; apply Hni; rewrite <- E, Hp; left). pose proof (Hst p Hin).
    rewrite (decide_False (P := Seq p = _)) by done. rewrite decide_True by lia. apply Permutation_length in Hp as Hl. cbn in Hl.
    rewrite decide_False by (unfold len in *; lia). exists (heap_Push h p). split; [done|]. split; [by rewrite heap_Push_perm|by apply heap_Push_ok].
Qed.

Lemma receive_loop_progress ch : ∀ sent q n c out b, core sent q n c out → no_stale q → 0 ≤ b → q_heap q ≠ [] → len (flight q) ≤ maxPackets q + 1 →
  pushedPackets q = ch → nextSeq q ∈ Seq <$> flight q →
  ∃ rest q', receive_all (length ch) (Read_loop q b) = (RReturn (take (Z.to_nat b) rest) None, q') ∧ sent !! nextSeq q = Some (c ++ rest).
Proof.
  induction ch as [|p ch IH]; intros sent q n c out b Hc Hst Hb Hne Hsz Hch Hin.
  all: assert (Hhs : len (q_heap q) ≤ maxPackets q + 1) by (unfold flight in Hsz; rewrite len_app in Hsz; pose proof (len_nonneg (pushedPackets q)); lia).
  all: destruct (Read_loop_progress sent q n c out b Hc Hst Hb Hne Hhs) as [Hyes Hno]; destruct (decide (nextSeq q ∈ Seq <$> q_heap q)) as [Hi|Hi].
  - apply Hyes, Hi.
  - unfold flight in Hin. rewrite Hch, app_nil_r in Hin. done.
  - destruct (Hyes Hi) as (rest & q' & -> & Hr). exists rest, q'. done.
  - destruct (Hno Hi) as (h & -> & Hp & Hh). cbn [length receive_all fst snd]. cbn [with_heap pushedPackets]. rewrite Hch. unfold Receive_more.
    destruct (core_receive sent q n c out p ch Hc Hch) as [_ Hc']. set (q2 := with_heap (with_chan (with_heap q h) ch) _).
    assert (Hfl : flight q2 ≡ₚ flight q) by (unfold flight, q2; cbn [with_heap with_chan q_heap pushedPackets]; rewrite heap_Push_perm, Hp, Hch; cbn [app]; apply Permutation_middle).
    assert (Hc2 : core sent q2 n c out).
    { unfold q2. apply (core_perm sent (with_heap (with_chan q ch) (heap_Push (q_heap q) p)) n c out (heap_Push h p)); [done|by apply heap_Push_ok|]. cbn [with_heap q_heap]. by rewrite !heap_Push_perm, Hp. }
    eapply (IH sent q2 n c out b Hc2); [intros x; rewrite Hfl; apply Hst|done| |unfold len; rewrite Hfl; exact Hsz|done|by rewrite Hfl].
    apply heap_Push_nonnil.
Qed.

(** When the packet that comes next has been pushed, a read of a reachable open queue returns bytes
    of it, the whole rest or as much as fits, whatever packets are before it in the channel: unless
    more packets wait than the queue may hold. *)
Lemma upload_read_progress m w b : rtc orderly_step (new_world m) w → w_t w = RIdle → closed (w_q w) = false → 0 ≤ b →
  len (flight (w_q w)) ≤ maxPackets (w_q w) + 1 → no_stale (w_q w) → nextSeq (w_q w) ∈ Seq <$> flight (w_q w) →
  ∃ n c rest q', w_out w = stream (w_sent w) n ++ c ∧ w_sent w !! Z.of_nat n = Some (c ++ rest) ∧
    receive_all (length (pushedPackets (w_q w))) (Read (w_q w) b) = (RReturn (take (Z.to_nat b) rest) None, q').
Proof.
  intros Hr Ht Hcl Hb Hsz Hst Hin. destruct (upload_reach_ok m w Hr) as (_ & n & c & Hc). destruct w as [q t out sent ps]. cbn [w_q w_t w_out w_sent w_push] in *. subst t.
  cbn [returning] in Hc. rewrite app_nil_r in Hc. apply (core_chan _ _ _ _ _ (pushedPackets q)) in Hc; [|by apply submseteq_inserts_r].
  replace (with_chan (later q ps) (pushedPackets q)) with q in Hc by (by destruct q). exists n, c. rewrite <- (co_next _ _ _ _ _ Hc). unfold Read. rewrite (co_reader _ _ _ _ _ Hc), Hcl.
  destruct (decide (q_heap q = [])) as [E|Hne].
  - destruct (pushedPackets q) as [|p ch] eqn:Hch; [unfold flight in Hin; rewrite E, Hch in Hin; by apply elem_of_nil in Hin|]. cbn [length receive_all fst snd]. rewrite Hch.
    destruct (core_receive sent q n c out p ch Hc Hch) as [Hrd Hc']. unfold Receive_first. rewrite Hrd. cbn [with_chan q_heap]. set (q2 := with_heap _ _) in *.
    assert (Hfl : flight q2 ≡ₚ flight q) by (unfold flight, q2; cbn [with_heap with_chan q_heap pushedPackets]; rewrite heap_Push_perm, Hch; cbn [app]; apply Permutation_middle).
    destruct (receive_loop_progress ch sent q2 n c out b Hc') as (rest & q' & H1 & H2); [intros x; rewrite Hfl; apply Hst|done| |unfold len; rewrite Hfl; exact Hsz|done|by rewrite Hfl|].
    { apply heap_Push_nonnil. }
    exists rest, q'. split; [apply Hc|done].
  - destruct (receive_loop_progress (pushedPackets q) sent q n c out b Hc) as (rest & q' & H1 & H2); try done. exists rest, q'. split; [apply Hc|done].
Qed.

Definition demo_packet (s : Z) (text : string) : Packet := mkPacket None (s2b text) s.
(** Packet 1 is pushed, then packet 0, and both are sent. *)
Definition demo_pushed : World :=
  let q := (Push_send (Push_send (NewUploadQueue 4) (demo_packet 1 "cd")).1 (demo_packet 0 "ab")).1 in
  mkWorld q RIdle [] (<[0 := s2b "ab"]> (<[1 := s2b "cd"]> ∅)) [].

Lemma tau w w' : step w LTau w' → orderly_step w w'.
Proof. intros H. by exists LTau. Qed.

Lemma demo_run : rtc orderly_step (new_world 4) demo_pushed.
Proof.
  eapply rtc_l; [exists (LPush (demo_packet 1 "cd")); split; [by apply st_push|split; [done|split; [done|by left]]]|].
  eapply rtc_l; [exists (LPush (demo_packet 0 "ab")); split; [by apply st_push|split; [done|split; [done|by left]]]|].
  eapply rtc_l; [apply tau, (st_send _ _ _ _ [] (demo_packet 1 "cd") [demo_packet 0 "ab"]); reflexivity|].
  eapply rtc_l; [apply tau, (st_send _ _ _ _ [] (demo_packet 0 "ab") []); reflexivity|]. apply rtc_refl.
Qed.

(** What the reading goroutine does next, with reads of length [b]. *)
Definition reader_next (b : Z) (w : World) : World :=
  let q := w_q w in
  let to r := mkWorld r.2 r.1 (w_out w) (w_sent w) (w_push w) in
  match w_t w, pushedPackets q with
  | RIdle, _ => to (Read q b)
  | RFirst b, p :: c => to (Receive_first (with_chan q c) p b)
  | RMore b, p :: c => to (Receive_more (with_chan q c) p b)
  | RReturn bs _, _ => mkWorld q RIdle (w_out w ++ bs) (w_sent w) (w_push w)
  | _, _ => w
  end.
Lemma reader_next_steps b w : 0 ≤ b → rtc orderly_step w (reader_next b w).
Proof.
  intros Hb. destruct w as [q t out sent ps]. unfold reader_next. cbn [w_q w_t w_out w_sent w_push].
  destruct t; try (apply rtc_once, tau; by constructor); try apply rtc_refl.
  - destruct (pushedPackets q) as [|p c] eqn:E; [apply rtc_refl|]. apply rtc_once, tau, st_first, E.
  - destruct (pushedPackets q) as [|p c] eqn:E; [apply rtc_refl|]. apply rtc_once, tau, st_more, E.
Qed.

(** Three reads, of one byte, of what is left of packet 0, and of one byte again. *)
Definition demo_reads : list Z := [1; 1; 1; 1; 5; 5; 1; 1].
Lemma demo_read_run : rtc orderly_step (new_world 4) (foldl (λ w b, reader_next b w) demo_pushed demo_reads).
Proof.
  eapply transitivity; [exact demo_run|]. generalize demo_pushed. unfold demo_reads.
  intros w. cbn [foldl]. repeat (eapply transitivity; [|apply reader_next_steps; lia]). apply rtc_refl.
Qed.
Definition demo_read : World := Eval vm_compute in foldl (λ w b, reader_next b w) demo_pushed demo_reads.

Lemma upload_in_order_witness : w_out demo_read = s2b "abc" ∧ ∃ n c, s2b "abc" = stream (w_sent demo_read) n ++ c ∧
  (∀ i, (i < n)%nat → is_Some (w_sent demo_read !! Z.of_nat i)) ∧ (c = [] ∨ ∃ d, w_sent demo_read !! Z.of_nat n = Some d ∧ c `prefix_of` d).
Proof.
  split; [reflexivity|]. assert (E : foldl (λ w b, reader_next b w) demo_pushed demo_reads = demo_read) by (vm_compute; reflexivity).
  destruct (upload_in_order 4 _ demo_read_run) as (n & c & H). rewrite E in H. exists n, c. exact H.
Defined.

Lemma upload_read_progress_witness : ∃ n c rest q', w_sent demo_pushed !! Z.of_nat n = Some (c ++ rest) ∧
  receive_all 2 (Read (w_q demo_pushed) 1) = (RReturn (take 1 rest) None, q').
Proof.
  destruct (upload_read_progress 4 demo_pushed 1 demo_run) as (n & c & rest & q' & _ & H1 & H2).
  - reflexivity.
  - reflexivity.
  - lia.
  - vm_compute. discriminate.
  - intros p. vm_compute. intros [->|[->|[]%elem_of_nil]%elem_of_cons]%elem_of_cons; discriminate.
  - vm_compute. right. left.
  - exists n, c, rest, q'. split; [exact H1|exact H2].
Defined.

(** Two packets with the number 1 wait behind packet 0: a read of part of one puts the rest back behind
    the other, whose bytes are then read from the start. *)
Definition read_chunks (q : Queue) (b : Z) (k : nat) : list byte * Queue :=
  Nat.iter k (λ s, let r := receive_all (length (pushedPackets s.2)) (Read s.2 b) in (s.1 ++ returning r.1, r.2)) ([], q).
Lemma duplicate_read_twice :
  let push q p := (Push_send q p).1 in
  let q := push (push (push (NewUploadQueue 4) (demo_packet 1 "cd")) (demo_packet 1 "cd")) (demo_packet 0 "ab") in
  (read_chunks q 1 6).1 = s2b "abccd".
Proof. vm_compute. reflexivity. Qed.
