(* ===== verification/BufReader.v ===== *)
(** * Buffered readers and copying

    Models [common/buf/reader.go] and the loop of [common/buf/copy.go]. A [Reader] is what its calls
    of [ReadMultiBuffer] return, one after the other, and the error that follows; an [io.Reader] the
    bytes and the error of its single reads. *)

From S2P Require Import Prelude Net Buf.
Import Buffer (content, wf).
Import MultiBuffer (mcontent, mcontent_app, mcontent_cons).

#[local] Open Scope Z_scope.

Abbreviation mbuf := (list Buffer.t).
Abbreviation wfs := (Forall wf).

(** ** Readers *)

Record Source := mkSource { src_next : list (mbuf * option GoError); src_end : GoError }.
Definition Source_ReadMultiBuffer (s : Source) : mbuf * option GoError * Source :=
  match src_next s with
  | [] => ([], Some (src_end s), s)
  | (mb, e) :: l => (mb, e, mkSource l (src_end s))
  end.

(** An [io.Reader]: a read of [n] bytes takes what the next result has, and leaves the rest with its
    error for later. *)
Record Conn := mkConn { cn_next : list (list byte * option GoError); cn_end : GoError }.
Definition Conn_Read (c : Conn) (n : Z) : list byte * option GoError * Conn :=
  match cn_next c with
  | [] => ([], Some (cn_end c), c)
  | (bs, e) :: l =>
      if decide (n < len bs) then (take (Z.to_nat n) bs, None, mkConn ((drop (Z.to_nat n) bs, e) :: l) (cn_end c))
      else (bs, e, mkConn l (cn_end c))
  end.

Section pooled.
(** The array of a new buffer. *)
Context (pooled : list byte).

Definition ReadFrom_conn (b : Buffer.t) (c : Conn) : go (Buffer.t * Z * option GoError * Conn) :=
  let n := len (Buffer.arr b) - Buffer.end_ b in
  '(b, k, e) ← Buffer.ReadFrom b (λ n, (Conn_Read c n).1); Ok (b, k, e, (Conn_Read c n).2).

(** [readOneUDP] gives up after 64 empty reads. *)
Fixpoint readOneUDP_loop (i : nat) (b : Buffer.t) (c : Conn) : go (option Buffer.t * option GoError * Conn) :=
  match i with
  | O => Ok (None, Some (ErrMsg "Reader returns too many empty payloads."), c)
  | S i =>
      '(b, _, err, c) ← ReadFrom_conn b c;
      if negb (Buffer.IsEmpty b) then Ok (Some b, None, c)
      else match err with Some e => Ok (None, Some e, c) | None => readOneUDP_loop i b c end
  end.
Definition readOneUDP (c : Conn) : go (option Buffer.t * option GoError * Conn) := readOneUDP_loop 64 (Buffer.New pooled) c.

Definition ReadBuffer (c : Conn) : go (option Buffer.t * option GoError * Conn) :=
  '(b, n, err, c) ← ReadFrom_conn (Buffer.New pooled) c;
  if decide (n > 0) then Ok (Some b, err, c) else Ok (None, err, c).

(** A [MultiBuffer] with a nil buffer counts as empty. *)
Definition SingleReader_ReadMultiBuffer (c : Conn) : go (mbuf * option GoError * Conn) :=
  '(b, err, c) ← ReadBuffer c; Ok (match b with Some b => [b] | None => [] end, err, c).
Definition PacketReader_ReadMultiBuffer (c : Conn) : go (mbuf * option GoError * Conn) :=
  '(b, err, c) ← readOneUDP c;
  match err, b with Some e, _ => Ok ([], Some e, c) | None, Some b => Ok ([b], None, c) | None, None => Ok ([], None, c) end.

(** ** The buffered reader *)

Record BufferedReader := mkBR {
  br_Reader : Source; br_Buffer : mbuf; br_Splitter : option (mbuf → Z → go (mbuf * list byte))
}.
Definition BufferedBytes (r : BufferedReader) : Z := MultiBuffer.Len (br_Buffer r).
Definition with_buffer (r : BufferedReader) (s : Source) (mb : mbuf) : BufferedReader := mkBR s mb (br_Splitter r).
Definition or_nil (mb : mbuf) : mbuf := if MultiBuffer.IsEmpty mb then [] else mb.

(** [Read] into a slice of [n] bytes. *)
Definition Read (r : BufferedReader) (n : Z) : go (list byte * option GoError * BufferedReader) :=
  let spliter := match br_Splitter r with Some f => f | None => MultiBuffer.SplitBytes end in
  if negb (MultiBuffer.IsEmpty (br_Buffer r)) then
    '(buffer, bs) ← spliter (br_Buffer r) n; Ok (bs, None, with_buffer r (br_Reader r) (or_nil buffer))
  else
    let '(mb, err, s) := Source_ReadMultiBuffer (br_Reader r) in
    match err with
    | Some e => Ok ([], Some e, with_buffer r s (br_Buffer r))
    | None =>
        '(mb, bs) ← spliter mb n;
        Ok (bs, None, with_buffer r s (if MultiBuffer.IsEmpty mb then br_Buffer r else mb))
    end.
Definition ReadByte (r : BufferedReader) : go (byte * option GoError * BufferedReader) :=
  '(bs, err, r) ← Read r 1; Ok (match bs with b :: _ => b | [] => x00 end, err, r).

Definition ReadMultiBuffer (r : BufferedReader) : mbuf * option GoError * BufferedReader :=
  if negb (MultiBuffer.IsEmpty (br_Buffer r)) then (br_Buffer r, None, with_buffer r (br_Reader r) [])
  else let '(mb, err, s) := Source_ReadMultiBuffer (br_Reader r) in (mb, err, with_buffer r s (br_Buffer r)).

Definition split_most (r : BufferedReader) (size : Z) : go (mbuf * option GoError * BufferedReader) :=
  '(rb, mb) ← MultiBuffer.SplitSize pooled (br_Buffer r) size; Ok (mb, None, with_buffer r (br_Reader r) (or_nil rb)).
Definition ReadAtMost (r : BufferedReader) (size : Z) : go (mbuf * option GoError * BufferedReader) :=
  if MultiBuffer.IsEmpty (br_Buffer r) then
    let '(mb, err, s) := Source_ReadMultiBuffer (br_Reader r) in
    match err with
    | Some e => if MultiBuffer.IsEmpty mb then Ok ([], Some e, with_buffer r s (br_Buffer r)) else split_most (with_buffer r s mb) size
    | None => split_most (with_buffer r s mb) size
    end
  else split_most r size.

(** [io.ReadFull] of [n] bytes: the bytes, the error, the reader. *)
Fixpoint ReadFull_loop (fuel : nat) (r : BufferedReader) (n : Z) (acc : list byte) : go (option (list byte * option GoError * BufferedReader)) :=
  if decide (n ≤ 0) then Ok (Some (acc, None, r))
  else
    match fuel with
    | O => Ok None
    | S fuel =>
        '(bs, err, r) ← Read r n;
        let acc := acc ++ bs in
        match err with
        | None => ReadFull_loop fuel r (n - len bs) acc
        | Some e =>
            Ok (Some (acc, if decide (n ≤ len bs) then None else Some (match acc, e with _ :: _, EOF => ErrUnexpectedEOF | _, e => e end), r))
        end
    end.
(** Every read gives a byte or takes a result of the reader. *)
Definition ReadFull_fuel (r : BufferedReader) (n : Z) : nat := S (Z.to_nat n + length (src_next (br_Reader r))).
Definition ReadFull (r : BufferedReader) (n : Z) : go (option (list byte * option GoError * BufferedReader)) := ReadFull_loop (ReadFull_fuel r n) r n [].

End pooled.

(** ** Copying *)

Inductive CopyError := readError (e : GoError) | writeError (e : GoError).

Section copy.
Context {W : Type} (write : W → mbuf → W * option GoError).

(** [copyInternal] with a counter as its only handler; it ends when the reader does. *)
Fixpoint copyInternal (fuel : nat) (s : Source) (w : W) (counted : Z) : option (CopyError * W * Z) :=
  match fuel with
  | O => None
  | S fuel =>
      let '(buffer, err, s) := Source_ReadMultiBuffer s in
      let go_on w counted := match err with Some e => Some (readError e, w, counted) | None => copyInternal fuel s w counted end in
      if negb (MultiBuffer.IsEmpty buffer) then
        let counted := counted + MultiBuffer.Len buffer in
        match write w buffer with
        | (w, Some werr) => Some (writeError werr, w, counted)
        | (w, None) => go_on w counted
        end
      else go_on w counted
  end.
(** [errors.Cause(err) == io.EOF], which looks through both kinds of error. *)
Definition is_EOF (e : CopyError) : bool := match e with readError EOF | writeError EOF => true | _ => false end.
(** [Copy]: nil at the end of the stream. *)
Definition Copy (s : Source) (w : W) : option (option CopyError * W * Z) :=
  match copyInternal (S (length (src_next s))) s w 0 with
  | Some (e, w, k) => Some (if is_EOF e then None else Some e, w, k)
  | None => None
  end.
(** [BufferedReader.WriteTo]: the buffer first. *)
Definition WriteTo (r : BufferedReader) (w : W) : option (Z * option CopyError * W) :=
  let copy size w := match Copy (br_Reader r) w with Some (e, w, k) => Some (size + k, e, w) | None => None end in
  match br_Buffer r with
  | [] => copy 0 w
  | _ =>
      match write w (br_Buffer r) with
      | (w, Some e) => Some (0, if is_EOF (writeError e) then None else Some (writeError e), w)
      | (w, None) => copy (MultiBuffer.Len (br_Buffer r)) w
      end
  end.
End copy.

(** ** The bytes still to come *)

Definition source_bytes (s : Source) : list byte := concat ((λ x, mcontent x.1) <$> src_next s).
Definition reader_bytes (r : BufferedReader) : list byte := mcontent (br_Buffer r) ++ source_bytes (br_Reader r).

(** Well-formed buffers that fit 32 bits together, no error with data, the default splitter. *)
Record clean (r : BufferedReader) : Prop := {
  cl_buffer : wfs (br_Buffer r);
  cl_source : Forall (λ x, wfs x.1 ∧ x.2 = None) (src_next (br_Reader r));
  cl_size : len (reader_bytes r) < 2147483648 - Buffer.Size;
  cl_splitter : br_Splitter r = None
}.

Lemma or_nil_ok mb : wfs mb → wfs (or_nil mb) ∧ mcontent (or_nil mb) = mcontent mb.
Proof.
  intros H. unfold or_nil. destruct (MultiBuffer.IsEmpty mb) eqn:E; [|done]. apply MultiBuffer.IsEmpty_spec in E; [|done]. split; [apply Forall_nil_2|by rewrite E].
Qed.
Lemma empty_bytes mb : wfs mb → MultiBuffer.IsEmpty mb = bool_decide (mcontent mb = []).
Proof.
  intros H. apply eq_bool_prop_intro. rewrite bool_decide_spec. rewrite <- MultiBuffer.IsEmpty_spec by done. by destruct (MultiBuffer.IsEmpty mb).
Qed.

Lemma source_cons mb e l en : source_bytes (mkSource ((mb, e) :: l) en) = mcontent mb ++ source_bytes (mkSource l en).
Proof. done. Qed.

Lemma clean_suffix r r' bs : clean r → wfs (br_Buffer r') → Forall (λ x, wfs x.1 ∧ x.2 = None) (src_next (br_Reader r')) → br_Splitter r' = None →
  reader_bytes r = bs ++ reader_bytes r' → clean r'.
Proof.
  intros Hc Hb Hs Hsp E. split; [done|done| |done]. pose proof (cl_size r Hc) as Hz. rewrite E, len_app in Hz. pose proof (len_nonneg bs). lia.
Qed.

Lemma split_bytes (a b : list byte) n : a ++ b = take n a ++ drop n a ++ b.
Proof. by rewrite app_assoc, take_drop. Qed.

(** One read: what it returns and what is left are what there was; without an error it takes a byte or
    a result of the reader. *)
Lemma buffered_Read r n : clean r → 0 < n → ∃ bs e r', Read r n = Ok (bs, e, r') ∧ clean r' ∧ reader_bytes r = bs ++ reader_bytes r' ∧ len bs ≤ n ∧
  src_end (br_Reader r') = src_end (br_Reader r) ∧
  match e with
  | None => (length (src_next (br_Reader r')) < length (src_next (br_Reader r)))%nat ∨ (bs ≠ [] ∧ length (src_next (br_Reader r')) = length (src_next (br_Reader r)))
  | Some e => e = src_end (br_Reader r) ∧ bs = [] ∧ reader_bytes r = []
  end.
Proof.
  intros Hc Hn. pose proof Hc as [Hb Hs _ Hsp]. destruct r as [[nx en] mb sp]. cbn [br_Reader br_Buffer br_Splitter src_next src_end] in *. subst sp.
  unfold Read. cbn [br_Reader br_Buffer br_Splitter]. rewrite empty_bytes by done. case_bool_decide as He; cbn [negb].
  - destruct nx as [|[mb' e] nx]; cbn [Source_ReadMultiBuffer src_next src_end].
    + do 3 eexists. split; [reflexivity|]. split; [exact Hc|]. split; [done|]. split; [unfold len; cbn [length]; lia|]. split; [done|].
      split; [done|]. split; [done|]. unfold reader_bytes. cbn [br_Buffer br_Reader]. by rewrite He.
    + apply Forall_cons_1 in Hs as [[Hmb He'] Hs]. cbn in Hmb, He'. subst e.
      destruct (MultiBuffer.SplitBytes_spec mb' n Hmb ltac:(lia)) as (rest & -> & Hrest & Hcr). cbn [mbind go_bind].
      set (kept := if MultiBuffer.IsEmpty rest then mb else rest). assert (Hk : wfs kept ∧ mcontent kept = mcontent rest).
      { unfold kept. rewrite empty_bytes by done. case_bool_decide as E; [by rewrite He, E|done]. }
      destruct Hk as [Hk1 Hk2]. eexists _, None, _. split; [reflexivity|].
      assert (E : reader_bytes (mkBR (mkSource ((mb', None) :: nx) en) mb None) = take (Z.to_nat n) (mcontent mb') ++ reader_bytes (mkBR (mkSource nx en) kept None)).
      { unfold reader_bytes. cbn [br_Buffer br_Reader]. rewrite He, Hk2, Hcr, source_cons. cbn [app]. apply split_bytes. }
      split; [eapply clean_suffix; [exact Hc|done|done|done|exact E]|]. split; [exact E|]. split; [len_lia|]. split; [done|]. left. cbn. lia.
  - destruct (MultiBuffer.SplitBytes_spec mb n Hb ltac:(lia)) as (rest & -> & Hrest & Hcr). cbn [mbind go_bind].
    destruct (or_nil_ok rest Hrest) as [Ho1 Ho2]. eexists _, None, _. split; [reflexivity|].
    assert (E : reader_bytes (mkBR (mkSource nx en) mb None) = take (Z.to_nat n) (mcontent mb) ++ reader_bytes (mkBR (mkSource nx en) (or_nil rest) None)).
    { unfold reader_bytes. cbn [br_Buffer br_Reader]. rewrite Ho2, Hcr. apply split_bytes. }
    split; [eapply clean_suffix; [exact Hc|done|done|done|exact E]|]. split; [exact E|]. split; [len_lia|]. split; [done|]. right. split; [|done].
    destruct (mcontent mb); [done|]. destruct (Z.to_nat n) eqn:En; [lia|done].
Qed.

(** [io.ReadFull] of what is there. *)
Lemma ReadFull_loop_spec fuel : ∀ r n acc, clean r → 0 ≤ n ≤ len (reader_bytes r) → (Z.to_nat n + length (src_next (br_Reader r)) < fuel)%nat →
  ∃ r', ReadFull_loop fuel r n acc = Ok (Some (acc ++ take (Z.to_nat n) (reader_bytes r), None, r')) ∧ clean r' ∧ reader_bytes r' = drop (Z.to_nat n) (reader_bytes r) ∧
    src_end (br_Reader r') = src_end (br_Reader r).
Proof.
  induction fuel as [|fuel IH]; intros r n acc Hc Hn Hf; [lia|]. cbn [ReadFull_loop]. case_decide as H0.
  { replace n with 0 by lia. cbn [Z.to_nat take drop]. rewrite app_nil_r. eauto. }
  destruct (buffered_Read r n Hc ltac:(lia)) as (bs & e & r' & -> & Hc' & Hall & Hle & Hend & He). cbn [mbind go_bind].
  assert (Hrb : len (reader_bytes r) = len bs + len (reader_bytes r')) by (by rewrite Hall, len_app). pose proof (len_nonneg bs).
  destruct e as [e|]; [destruct He as (_ & -> & Hnil); rewrite Hnil in Hn; unfold len in Hn; cbn [length] in Hn; lia|].
  destruct (IH r' (n - len bs) (acc ++ bs) Hc') as (r'' & -> & Hc'' & Hd & Hend'); [lia|destruct He as [He|[He1 He2]]; [lia|destruct bs; [done|]; rewrite len_cons in *; pose proof (len_nonneg bs); lia]|].
  exists r''. rewrite Hend', Hend, Hall. replace (Z.to_nat n) with (length bs + Z.to_nat (n - len bs))%nat by (unfold len in *; lia).
  rewrite take_app_add, drop_app_add, <- app_assoc. done.
Qed.
Lemma ReadFull_spec r n : clean r → 0 ≤ n ≤ len (reader_bytes r) →
  ∃ r', ReadFull r n = Ok (Some (take (Z.to_nat n) (reader_bytes r), None, r')) ∧ clean r' ∧ reader_bytes r' = drop (Z.to_nat n) (reader_bytes r) ∧
    src_end (br_Reader r') = src_end (br_Reader r).
Proof. intros Hc Hn. apply (ReadFull_loop_spec _ r n []); [done|done|]. unfold ReadFull_fuel. lia. Qed.

(** [io.ReadFull] of more than there is: all of it, and the error. *)
Lemma ReadFull_loop_short fuel : ∀ r n acc, clean r → len (reader_bytes r) < n → (Z.to_nat n + length (src_next (br_Reader r)) < fuel)%nat →
  ∃ e r', ReadFull_loop fuel r n acc = Ok (Some (acc ++ reader_bytes r, Some e, r')) ∧ clean r' ∧ reader_bytes r' = [].
Proof.
  induction fuel as [|fuel IH]; intros r n acc Hc Hn Hf; [lia|]. pose proof (len_nonneg (reader_bytes r)). cbn [ReadFull_loop]. rewrite decide_False by lia.
  destruct (buffered_Read r n Hc ltac:(lia)) as (bs & e & r' & -> & Hc' & Hall & Hle & Hend & He). cbn [mbind go_bind]. pose proof (len_nonneg bs).
  assert (Hrb : len (reader_bytes r) = len bs + len (reader_bytes r')) by (by rewrite Hall, len_app). destruct e as [e|].
  - destruct He as (_ & -> & Hnil). rewrite decide_False by (unfold len; cbn [length]; lia). rewrite Hnil in *. cbn [app] in Hall. do 2 eexists. split; [reflexivity|]. by rewrite <- Hall.
  - destruct (IH r' (n - len bs) (acc ++ bs) Hc') as (e & r'' & -> & Hc'' & Hd); [lia|destruct He as [He|[He1 He2]]; [lia|destruct bs; [done|]; rewrite len_cons in *; pose proof (len_nonneg bs); lia]|].
    exists e, r''. rewrite Hall, <- app_assoc. done.
Qed.
Lemma ReadFull_short r n : clean r → len (reader_bytes r) < n → ∃ e r', ReadFull r n = Ok (Some (reader_bytes r, Some e, r')) ∧ clean r' ∧ reader_bytes r' = [].
Proof. intros Hc Hn. apply (ReadFull_loop_short _ r n []); [done|done|]. unfold ReadFull_fuel. lia. Qed.

Lemma BufferedBytes_spec r : clean r → BufferedBytes r = len (mcontent (br_Buffer r)) ∧ mcontent (br_Buffer r) `prefix_of` reader_bytes r.
Proof.
  intros Hc. split; [|by apply prefix_app_r]. unfold BufferedBytes, MultiBuffer.Len. pose proof (cl_size r Hc) as Hz. unfold reader_bytes in Hz. rewrite len_app in Hz.
  pose proof (len_nonneg (source_bytes (br_Reader r))). unfold Buffer.Size in Hz. by rewrite MultiBuffer.Len_loop_spec by (apply Hc || lia).
Qed.

(** A reader that returns data together with an error, as [io.Reader] may and [SingleReader] passes on:
    [Read] drops the data, [ReadAtMost] drops the error. *)
Definition last_words : BufferedReader := mkBR (mkSource [([Buffer.FromBytes [x61; x62]], Some EOF)] EOF) [] None.
Lemma data_with_error_lost : ∃ r r' mb, Read last_words 2 = Ok ([], Some EOF, r) ∧ reader_bytes r = [] ∧
  ReadAtMost [] last_words 2 = Ok (mb, None, r') ∧ mcontent mb = [x61; x62].
Proof. do 3 eexists. split; [vm_compute; reflexivity|]. split; [done|]. split; [vm_compute; reflexivity|]. vm_compute. reflexivity. Qed.

(** ** Copying delivers everything *)

Section copy_spec.
Context {W : Type} (write : W → mbuf → W * option GoError) (output : W → list byte).
(** A write appends the bytes, or some of them when it fails. *)
Context (write_ok : ∀ w mb w', write w mb = (w', None) → output w' = output w ++ mcontent mb).
Context (write_part : ∀ w mb w' e, write w mb = (w', Some e) → ∃ part, part `prefix_of` mcontent mb ∧ output w' = output w ++ part).

Lemma copyInternal_spec fuel : ∀ s w k, Forall (λ x, wfs x.1 ∧ x.2 = None) (src_next s) → (length (src_next s) < fuel)%nat →
  ∃ e w' k', copyInternal write fuel s w k = Some (e, w', k') ∧
    match e with
    | readError e => e = src_end s ∧ output w' = output w ++ source_bytes s
    | writeError _ => ∃ part, part `prefix_of` source_bytes s ∧ output w' = output w ++ part
    end.
Proof.
  induction fuel as [|fuel IH]; intros [nx en] w k Hs Hf; [cbn in Hf; lia|]. cbn [copyInternal Source_ReadMultiBuffer src_next src_end] in *.
  destruct nx as [|[mb e] nx]; cbn [Source_ReadMultiBuffer src_next src_end].
  { cbn [MultiBuffer.IsEmpty forallb negb]. do 3 eexists. split; [reflexivity|]. cbn. by rewrite app_nil_r. }
  apply Forall_cons_1 in Hs as [[Hmb He] Hs]. cbn in Hmb, He, Hf. subst e. rewrite empty_bytes by done. case_bool_decide as E; cbn [negb].
  - destruct (IH (mkSource nx en) w k Hs ltac:(cbn; lia)) as (e & w' & k' & -> & He). do 3 eexists. split; [reflexivity|]. rewrite source_cons, E. exact He.
  - destruct (write w mb) as [w1 [e1|]] eqn:Ew.
    + do 3 eexists. split; [reflexivity|]. destruct (write_part _ _ _ _ Ew) as (part & Hp & Ho). exists part. split; [|done]. rewrite source_cons. by apply prefix_app_r.
    + destruct (IH (mkSource nx en) w1 (k + MultiBuffer.Len mb) Hs ltac:(cbn; lia)) as (e & w' & k' & -> & He). do 3 eexists. split; [reflexivity|].
      rewrite source_cons. apply write_ok in Ew. destruct e as [e|e].
      * destruct He as [-> He]. split; [done|]. by rewrite He, Ew, <- app_assoc.
      * destruct He as (part & Hp & He). exists (mcontent mb ++ part). split; [by apply prefix_app|]. by rewrite He, Ew, <- app_assoc.
Qed.

(** The copy ends, and unless a write fails the writer has all bytes of the reader. *)
Lemma copy_all s w : Forall (λ x, wfs x.1 ∧ x.2 = None) (src_next s) → src_end s = EOF → (∀ w mb, (write w mb).2 = None) →
  ∃ w' k, Copy write s w = Some (None, w', k) ∧ output w' = output w ++ source_bytes s.
Proof.
  intros Hs He Hw. destruct (copyInternal_spec (S (length (src_next s))) s w 0 Hs ltac:(lia)) as (e & w' & k & H & Hout). unfold Copy. rewrite H.
  destruct e as [e|e]; [destruct Hout as [-> Hout]; rewrite He; by exists w', k|]. exfalso. revert H Hw. clear. generalize 0. generalize (S (length (src_next s))).
  intros fuel. revert s w. induction fuel as [|fuel IH]; intros s w k0 H Hw; [done|]. cbn [copyInternal] in H. destruct (Source_ReadMultiBuffer s) as [[mb er] s'].
  destruct (negb _); [destruct (write w mb) as [w1 [e1|]] eqn:E; [pose proof (Hw w mb) as Hx; rewrite E in Hx; done|]|]; destruct er; try done; eapply IH; eauto.
Qed.
End copy_spec.
