(* ===== verification/CryptoFrame.v ===== *)
(** * Authenticated chunks

    Models [common/crypto/auth.go] and the size parsers of [chunk.go] and of
    [proxy/vmess/encoding/auth.go]: a stream is cut into chunks, each a size, a sealed payload and
    random padding. The ciphers are libraries: an AEAD is a record of functions with what
    [cipher.AEAD] documents as its laws, and the SHAKE output is a function. What seals, masks sizes
    and counts nonces may share state (Shadowsocks seals sizes and payloads with one counter, VMess
    takes padding lengths from its size mask), so the reader and the writer are written against one
    class [Framing] over all of it. *)

From S2P Require Import Prelude Net Buf BufReader.
Import Buffer (content, wf).
Import MultiBuffer (mcontent, mcontent_app, mcontent_cons).

#[local] Open Scope Z_scope.

(** ** Generators of nonces *)

Inductive BytesGenerator :=
| GenerateEmptyBytes
| GenerateStaticBytes (c : list byte)
| GenerateIncreasingNonce (c : list byte)
| GenerateChunkNonce (c : list byte) (count size : Z).

(** The loop that adds one, the first byte least. *)
Fixpoint increase (c : list byte) : list byte :=
  match c with
  | [] => []
  | b :: c => let b := byte_of_Z (byte_to_Z b + 1) in if decide (b ≠ x00) then b :: c else b :: increase c
  end.
Definition GenerateAEADNonceWithSize (nonceSize : Z) : BytesGenerator := GenerateIncreasingNonce (replicate (Z.to_nat nonceSize) xff).

Definition generate (g : BytesGenerator) : go (list byte) * BytesGenerator :=
  match g with
  | GenerateEmptyBytes => (Ok [], g)
  | GenerateStaticBytes c => (Ok c, g)
  | GenerateIncreasingNonce c => let c := increase c in (Ok c, GenerateIncreasingNonce c)
  | GenerateChunkNonce c count size =>
      if decide (len c < 2) then (Panic, g)
      else
        let c := put_be16 count ++ drop 2 c in
        (ok_or_panic (slice c 0 size), GenerateChunkNonce c (u16 (count + 1)) size)
  end.

(** ** Authenticators *)

Record AEAD := mkAEAD {
  NonceSize : Z; Overhead : Z;
  aead_Seal : list byte → list byte → list byte → list byte;
  aead_Open : list byte → list byte → list byte → option (list byte)
}.
(** What [cipher.AEAD] documents. *)
Record AEAD_ok (a : AEAD) : Prop := {
  overhead_ok : 0 ≤ Overhead a ≤ 64;
  seal_length : ∀ n p d, len (aead_Seal a n p d) = len p + Overhead a;
  open_seal : ∀ n p d, aead_Open a n (aead_Seal a n p d) d = Some p
}.

Record Auth := mkAuth { a_AEAD : AEAD; NonceGenerator : BytesGenerator; AdditionalDataGenerator : option BytesGenerator }.

(** The nonce and the additional data of the next call. *)
Definition next_inputs (v : Auth) : go (list byte * list byte) * Auth :=
  let '(iv, g) := generate (NonceGenerator v) in
  let v := mkAuth (a_AEAD v) g (AdditionalDataGenerator v) in
  match iv with
  | Ok iv =>
      if decide (len iv ≠ NonceSize (a_AEAD v)) then (Err (ErrMsg "invalid AEAD nonce size: "), v)
      else
        match AdditionalDataGenerator v with
        | None => (Ok (iv, []), v)
        | Some g2 =>
            let '(ad, g2) := generate g2 in
            let v := mkAuth (a_AEAD v) (NonceGenerator v) (Some g2) in
            (match ad with Ok ad => Ok (iv, ad) | Err e => Err e | Panic => Panic end, v)
        end
  | Err e => (Err e, v)
  | Panic => (Panic, v)
  end.
Definition Auth_Open (v : Auth) (cipherText : list byte) : go (list byte) * Auth :=
  let '(i, v) := next_inputs v in
  (match i with
   | Ok (iv, ad) => match aead_Open (a_AEAD v) iv cipherText ad with Some p => Ok p | None => Err (ErrMsg "message authentication failed") end
   | Err e => Err e
   | Panic => Panic
   end, v).
Definition Auth_Seal (v : Auth) (plainText : list byte) : go (list byte) * Auth :=
  let '(i, v) := next_inputs v in
  (match i with Ok (iv, ad) => Ok (aead_Seal (a_AEAD v) iv plainText ad) | Err e => Err e | Panic => Panic end, v).

(** ** Size parsers *)

(** [PlainChunkSizeParser]. *)
Definition Plain_Encode (size : Z) : list byte := put_be16 size.
Definition Plain_Decode (b : list byte) : go Z := ok_or_panic (be16 b).

(** [AEADChunkSizeParser]: the size without the overhead, sealed. *)
Definition AEADSize_SizeBytes (v : Auth) : Z := 2 + Overhead (a_AEAD v).
Definition AEADSize_Encode (v : Auth) (size : Z) : go (list byte) * Auth :=
  match Auth_Seal v (put_be16 (u16 (size - u16 (Overhead (a_AEAD v))))) with
  | (Ok b, v) => (Ok b, v)
  | (_, v) => (Panic, v)
  end.
Definition AEADSize_Decode (v : Auth) (b : list byte) : go Z * Auth :=
  match Auth_Open v b with
  | (Ok b, v) => (z ← ok_or_panic (be16 b); Ok (u16 (z + u16 (Overhead (a_AEAD v)))), v)
  | (Err e, v) => (Err e, v)
  | (Panic, v) => (Panic, v)
  end.

(** [ShakeSizeParser]: the next two bytes of the SHAKE stream, read [k] times. *)
Section shake.
Context (shake : nat → Z).
Definition Shake_next (k : nat) : Z * nat := (shake k, S k).
Definition Shake_Encode (k : nat) (size : Z) : list byte * nat := let '(mask, k) := Shake_next k in (put_be16 (Z.lxor mask size), k).
Definition Shake_Decode (k : nat) (b : list byte) : go Z * nat :=
  let '(mask, k) := Shake_next k in (size ← ok_or_panic (be16 b); Ok (Z.lxor mask size), k).
Definition Shake_NextPaddingLen (k : nat) : Z * nat := let '(n, k) := Shake_next k in (n mod 64, k).
Definition Shake_MaxPaddingLen : Z := 64.
End shake.

(** ** The interface of reader and writer *)

Class Framing (S : Type) : Type := {
  f_SizeBytes : S → Z;
  f_Overhead : S → Z;
  f_MaxPaddingLen : S → Z;
  f_NextPaddingLen : S → Z * S;
  f_Encode : S → Z → go (list byte) * S;
  f_Decode : S → list byte → go Z * S;
  f_Seal : S → list byte → go (list byte) * S;
  f_Open : S → list byte → go (list byte) * S
}.

(** What one end writes the other end reads, from the same state. *)
Class FramingLaws (S : Type) `{HF : Framing S} : Type := {
  f_good : S → Prop;
  f_bounds s : f_good s → 0 < f_SizeBytes s ≤ 128 ∧ 0 ≤ f_Overhead s ≤ 64 ∧ 0 ≤ f_MaxPaddingLen s ≤ 64;
  f_padding s : f_good s → let '(n, s') := f_NextPaddingLen s in
    0 ≤ n ≤ f_MaxPaddingLen s ∧ f_good s' ∧ f_SizeBytes s' = f_SizeBytes s ∧ f_Overhead s' = f_Overhead s ∧ f_MaxPaddingLen s' = f_MaxPaddingLen s;
  f_sizes s n : f_good s → is_u16 n → ∃ b s', f_Encode s n = (Ok b, s') ∧ f_Decode s b = (Ok n, s') ∧ len b = f_SizeBytes s ∧
    f_good s' ∧ f_SizeBytes s' = f_SizeBytes s ∧ f_Overhead s' = f_Overhead s ∧ f_MaxPaddingLen s' = f_MaxPaddingLen s;
  f_seals s p : f_good s → ∃ c s', f_Seal s p = (Ok c, s') ∧ f_Open s c = (Ok p, s') ∧ len c = len p + f_Overhead s ∧
    f_good s' ∧ f_SizeBytes s' = f_SizeBytes s ∧ f_Overhead s' = f_Overhead s ∧ f_MaxPaddingLen s' = f_MaxPaddingLen s
}.

Section framing.
Context {S : Type} `{HF : Framing S} (pooled : list byte).

(** ** The writer *)

Section writer.
(** The random bytes of the padding. *)
Context (rand : S → Z → list byte).

(** [seal]: the bytes of the new buffer. *)
Definition seal (w : S) (b : list byte) : go (list byte) * S :=
  let encryptedSize := i32 (len b + f_Overhead w) in
  let '(paddingSize, w) := f_NextPaddingLen w in
  let sizeBytes := f_SizeBytes w in
  let totalSize := sizeBytes + encryptedSize + paddingSize in
  if decide (totalSize > Buffer.Size) then (Err (ErrMsg "size too large: "), w)
  else
    match f_Encode w (u16 (encryptedSize + paddingSize)) with
    | (Ok size, w) =>
        match f_Seal w b with
        | (Ok sealed, w) => (Ok (size ++ sealed ++ (if decide (paddingSize > 0) then rand w paddingSize else [])), w)
        | (Err e, w) => (Err e, w)
        | (Panic, w) => (Panic, w)
        end
    | (Err e, w) => (Err e, w)
    | (Panic, w) => (Panic, w)
    end.

(** The loop of [writeStream]: the chunks written. *)
Fixpoint writeStream_loop (fuel : nat) (w : S) (mb : mbuf) (payloadSize : Z) (out : list (list byte)) : option (go (list (list byte)) * S) :=
  match fuel with
  | O => None
  | Datatypes.S fuel =>
      match MultiBuffer.SplitBytes mb payloadSize with
      | Ok (mb, rawBytes) =>
          match seal w rawBytes with
          | (Ok eb, w) => if MultiBuffer.IsEmpty mb then Some (Ok (out ++ [eb]), w) else writeStream_loop fuel w mb payloadSize (out ++ [eb])
          | (Err e, w) => Some (Err e, w)
          | (Panic, w) => Some (Panic, w)
          end
      | Err e => Some (Err e, w)
      | Panic => Some (Panic, w)
      end
  end.
Definition writeStream (fuel : nat) (w : S) (mb : mbuf) : option (go (list (list byte)) * S) :=
  let payloadSize := Buffer.Size - f_Overhead w - f_SizeBytes w - f_MaxPaddingLen w in
  match Buffer.Extend (Buffer.New pooled) payloadSize with
  | Ok _ => writeStream_loop fuel w mb payloadSize []
  | _ => Some (Panic, w)
  end.

(** [writePacket]: a buffer that cannot be sealed is skipped. *)
Fixpoint writePacket (w : S) (mb : mbuf) : go (list (list byte)) * S :=
  match mb with
  | [] => (Ok [], w)
  | b :: mb =>
      if Buffer.IsEmpty b then writePacket w mb
      else
        match Buffer.Bytes b with
        | Ok bs =>
            match seal w bs with
            | (Ok eb, w) => match writePacket w mb with (Ok out, w) => (Ok (eb :: out), w) | r => r end
            | (Err _, w) => writePacket w mb
            | (Panic, w) => (Panic, w)
            end
        | Err e => (Err e, w)
        | Panic => (Panic, w)
        end
  end.

Inductive TransferType := TransferTypeStream | TransferTypePacket.

(** [WriteMultiBuffer]: the chunks that go to the underlying writer; none for [TransferTypePacket]
    when nothing could be sealed. *)
Definition WriteMultiBuffer (fuel : nat) (t : TransferType) (w : S) (mb : mbuf) : option (go (list (list byte)) * S) :=
  if MultiBuffer.IsEmpty mb then
    match seal w [] with
    | (Ok eb, w) => Some (Ok [eb], w)
    | (_, w) => Some (Panic, w)
    end
  else match t with TransferTypeStream => writeStream fuel w mb | TransferTypePacket => Some (writePacket w mb) end.
End writer.

(** ** The reader *)

Record AuthenticationReader := mkAR { ar_s : S; ar_reader : BufferedReader; ar_size : Z; ar_paddingLen : Z; ar_hasSize : bool; ar_done : bool }.
Definition NewAuthenticationReader (s : S) (r : BufferedReader) : AuthenticationReader := mkAR s r 0 0 false false.

Definition with_s (r : AuthenticationReader) (s : S) : AuthenticationReader := mkAR s (ar_reader r) (ar_size r) (ar_paddingLen r) (ar_hasSize r) (ar_done r).
Definition with_reader (r : AuthenticationReader) (b : BufferedReader) : AuthenticationReader := mkAR (ar_s r) b (ar_size r) (ar_paddingLen r) (ar_hasSize r) (ar_done r).
Definition with_size (r : AuthenticationReader) (size padding : Z) (has : bool) : AuthenticationReader := mkAR (ar_s r) (ar_reader r) size padding has (ar_done r).
Definition set_done (r : AuthenticationReader) : AuthenticationReader := mkAR (ar_s r) (ar_reader r) (ar_size r) (ar_paddingLen r) (ar_hasSize r) true.

(** [io.ReadFull(r.reader, ...)]. *)
Definition full (r : AuthenticationReader) (n : Z) : go (list byte) * AuthenticationReader :=
  match ReadFull (ar_reader r) n with
  | Ok (Some (bs, None, b)) => (Ok bs, with_reader r b)
  | Ok (Some (_, Some e, b)) => (Err e, with_reader r b)
  | _ => (Panic, r)
  end.

Definition readSize (r : AuthenticationReader) : go (Z * Z) * AuthenticationReader :=
  if ar_hasSize r then (Ok (ar_size r, ar_paddingLen r), with_size r (ar_size r) (ar_paddingLen r) false)
  else
    match full r (f_SizeBytes (ar_s r)) with
    | (Ok sizeBytes, r) =>
        let '(padding, s) := f_NextPaddingLen (ar_s r) in
        let '(size, s) := f_Decode s sizeBytes in
        (size ← size; Ok (size, padding), with_s r s)
    | (Err e, r) => (Err e, r)
    | (Panic, r) => (Panic, r)
    end.

Definition errSoft : GoError := ErrMsg "waiting for more data".

(** [readBuffer]: [Open] writes the payload over the sealed bytes. *)
Definition readBuffer (r : AuthenticationReader) (size padding : Z) : go Buffer.t * AuthenticationReader :=
  let b := Buffer.New pooled in
  if decide (i32 (Buffer.end_ b + size) > i32 (len (Buffer.arr b))) then (Err (ErrMsg "out of bound: "), r)
  else
    match full r size with
    | (Ok got, r) =>
        let res := '(b, _, _, _) ← Buffer.ReadFullFrom b (mkStream got EOF) size; sealed ← Buffer.BytesTo b (i32 (size - padding)); Ok (b, sealed) in
        match res with
        | Ok (b, sealed) =>
            let '(rb, s) := f_Open (ar_s r) sealed in
            (rb ← rb; Buffer.Resize (Buffer.poke b (Buffer.start b) rb) 0 (i32 (len rb)), with_s r s)
        | Err e => (Err e, r)
        | Panic => (Panic, r)
        end
    | (Err e, r) => (Err e, r)
    | (Panic, r) => (Panic, r)
    end.

(** A chunk larger than a buffer. *)
Definition readLarge (r : AuthenticationReader) (mb : mbuf) (size padding : Z) : go mbuf * AuthenticationReader :=
  match full r size with
  | (Ok payload, r) =>
      match slice payload 0 (u16 (size - padding)) with
      | Some sealed =>
          let '(rb, s) := f_Open (ar_s r) sealed in (rb ← rb; MultiBuffer.MergeBytes pooled mb rb, with_s r s)
      | None => (Panic, r)
      end
  | (Err e, r) => (Err e, r)
  | (Panic, r) => (Panic, r)
  end.

Definition readInternal (soft : bool) (r : AuthenticationReader) (mb : mbuf) : go mbuf * AuthenticationReader :=
  if soft && bool_decide (BufferedBytes (ar_reader r) < f_SizeBytes (ar_s r)) then (Err errSoft, r)
  else if ar_done r then (Err EOF, r)
  else
    match readSize r with
    | (Ok (size, padding), r) =>
        if decide (size = u16 (u16 (f_Overhead (ar_s r)) + padding)) then (Err EOF, set_done r)
        else if soft && bool_decide (size > BufferedBytes (ar_reader r)) then (Err errSoft, with_size r size padding true)
        else if decide (size ≤ Buffer.Size) then
          match readBuffer r size padding with
          | (Ok b, r) => (Ok (mb ++ [b]), r)
          | (Err e, r) => (Err e, r)
          | (Panic, r) => (Panic, r)
          end
        else readLarge r mb size padding
    | (Err e, r) => (Err e, r)
    | (Panic, r) => (Panic, r)
    end.

(** The soft reads after the first one. *)
Fixpoint more_reads (n : nat) (r : AuthenticationReader) (mb : mbuf) : go mbuf * AuthenticationReader :=
  match n with
  | O => (Ok mb, r)
  | Datatypes.S n =>
      match readInternal true r mb with
      | (Ok mb, r) => more_reads n r mb
      | (Err e, r) => if decide (e = errSoft ∨ e = EOF) then (Ok mb, r) else (Err e, r)
      | (Panic, r) => (Panic, r)
      end
  end.
Definition ReadMultiBuffer (r : AuthenticationReader) : go mbuf * AuthenticationReader :=
  match readInternal false r [] with
  | (Ok mb, r) => more_reads 15 r mb
  | (Err e, r) => (Err e, r)
  | (Panic, r) => (Panic, r)
  end.
End framing.

(** ** Chunks *)

Section laws.
Context {S : Type} `{HF : Framing S} `{HL : !FramingLaws S} (pooled : list byte) (rand : S → Z → list byte).
Context (rand_length : ∀ s n, 0 < n → len (rand s n) = n).

Definition same_params (s s' : S) : Prop := f_SizeBytes s' = f_SizeBytes s ∧ f_Overhead s' = f_Overhead s ∧ f_MaxPaddingLen s' = f_MaxPaddingLen s.

(** The sealed payload [c] and the padding, read in state [s]. *)
Record body (s : S) (p c pad : list byte) (s' : S) : Prop := {
  bo_open : f_Open s c = (Ok p, s');
  bo_len : len c = len p + f_Overhead s;
  bo_good : f_good s ∧ f_good s';
  bo_params : same_params s s';
  bo_size : len c + len pad + f_SizeBytes s ≤ Buffer.Size
}.
(** A chunk [eb] of the payload [p]. *)
Definition chunk (s : S) (p eb : list byte) (s' : S) : Prop :=
  ∃ s1 b s2 c pad, f_NextPaddingLen s = (len pad, s1) ∧ f_Decode s1 b = (Ok (len c + len pad), s2) ∧ len b = f_SizeBytes s ∧
    eb = b ++ c ++ pad ∧ body s2 p c pad s' ∧ f_good s ∧ same_params s s2.

Definition payload_size (s : S) : Z := Buffer.Size - f_Overhead s - f_SizeBytes s - f_MaxPaddingLen s.

Lemma seal_chunk s p : f_good s → len p ≤ payload_size s → ∃ eb s', seal rand s p = (Ok eb, s') ∧ chunk s p eb s' ∧ f_good s' ∧ same_params s s'.
Proof.
  intros Hg Hp. unfold seal. pose proof (f_bounds s Hg) as Hb. pose proof (f_padding s Hg) as Hpad. pose proof (len_nonneg p). unfold payload_size, Buffer.Size in Hp.
  destruct (f_NextPaddingLen s) as [n s1] eqn:En. destruct Hpad as (Hn & Hg1 & E1 & E2 & E3). rewrite (i32_small (len p + f_Overhead s)) by (unfold is_i32; lia).
  rewrite decide_False by (unfold Buffer.Size; lia). assert (Hu : is_u16 (len p + f_Overhead s + n)) by (unfold is_u16; lia). rewrite u16_small by done.
  destruct (f_sizes s1 (len p + f_Overhead s + n) Hg1 Hu) as (b & s2 & -> & Hdec & Hlb & Hg2 & F1 & F2 & F3).
  destruct (f_seals s2 p Hg2) as (c & s3 & -> & Hop & Hlc & Hg3 & G1 & G2 & G3). set (pad := if decide (n > 0) then rand s3 n else []).
  assert (Hlp : len pad = n) by (unfold pad; destruct (decide (n > 0)); [apply rand_length; lia|unfold len; cbn; lia]).
  eexists _, _. split; [reflexivity|]. unfold same_params. split; [|split; [done|lia]]. exists s1, b, s2, c, pad. rewrite Hlp.
  split; [done|]. split; [rewrite Hdec; do 2 f_equal; lia|]. split; [lia|]. split; [done|]. split; [|unfold same_params; split; [done|lia]].
  split; [done|done|done|done|unfold Buffer.Size; lia].
Qed.

(** Payloads one after the other. *)
Inductive chunks : S → list (list byte) → list byte → S → Prop :=
| chunks_nil s : chunks s [] [] s
| chunks_cons s p eb s1 ps wire s2 : chunk s p eb s1 → chunks s1 ps wire s2 → chunks s (p :: ps) (eb ++ wire) s2.

Lemma chunks_app s ps w s1 qs w' s2 : chunks s ps w s1 → chunks s1 qs w' s2 → chunks s (ps ++ qs) (w ++ w') s2.
Proof. induction 1 as [|s p eb s3 ps w s4 Hc _ IH]; intros H; [done|]. cbn [app]. rewrite <- app_assoc. econstructor; eauto. Qed.

(** ** What a reader is about to read *)

(** The next chunk has the payload [p], its size read or not; [rest] comes after it. *)
Definition at_chunk (r : AuthenticationReader) (p : list byte) (s' : S) (rest : list byte) : Prop :=
  clean (ar_reader r) ∧ ar_done r = false ∧
  ((ar_hasSize r = false ∧ ∃ eb, chunk (ar_s r) p eb s' ∧ reader_bytes (ar_reader r) = eb ++ rest) ∨
   (ar_hasSize r = true ∧ ∃ c pad, body (ar_s r) p c pad s' ∧ ar_size r = len c + len pad ∧ ar_paddingLen r = len pad ∧
      reader_bytes (ar_reader r) = c ++ pad ++ rest)).

Lemma full_ok (r : AuthenticationReader (S := S)) n : clean (ar_reader r) → 0 ≤ n ≤ len (reader_bytes (ar_reader r)) →
  ∃ b, full r n = (Ok (take (Z.to_nat n) (reader_bytes (ar_reader r))), with_reader r b) ∧ clean b ∧ reader_bytes b = drop (Z.to_nat n) (reader_bytes (ar_reader r)).
Proof.
  intros Hc Hn. destruct (ReadFull_spec _ n Hc Hn) as (b & Hr & Hb & Hd & _). exists b. unfold full. by rewrite Hr.
Qed.
Lemma full_prefix (r : AuthenticationReader (S := S)) a rest : clean (ar_reader r) → reader_bytes (ar_reader r) = a ++ rest →
  ∃ b, full r (len a) = (Ok a, with_reader r b) ∧ clean b ∧ reader_bytes b = rest.
Proof.
  intros Hc E. destruct (full_ok r (len a) Hc) as (b & Hf & Hb & Hd); [rewrite E, len_app; pose proof (len_nonneg rest); pose proof (len_nonneg a); lia|].
  exists b. rewrite Hf, Hd, E, to_nat_len, take_app_length, drop_app_length. done.
Qed.

Lemma readSize_ok r p s' rest : at_chunk r p s' rest → ∃ c pad b s, readSize r = (Ok (len c + len pad, len pad), mkAR s b (ar_size r) (ar_paddingLen r) false false) ∧
  body s p c pad s' ∧ clean b ∧ reader_bytes b = c ++ pad ++ rest ∧ same_params (ar_s r) s.
Proof.
  intros (Hc & Hd & [(Hh & eb & (s1 & b & s2 & c & pad & H1 & H2 & H3 & -> & Hbody & Hg & Hsp) & E)|(Hh & c & pad & Hbody & Hs & Hp & E)]); unfold readSize; rewrite Hh.
  - rewrite <- !app_assoc in E. destruct (full_prefix r b (c ++ pad ++ rest) Hc E) as (br & Hf & Hbr & Hrest). rewrite <- H3, Hf. cbn [with_reader ar_s]. rewrite H1, H2.
    exists c, pad, br, s2. split; [|done]. unfold with_s, with_reader. cbn. by rewrite Hh, Hd.
  - exists c, pad, (ar_reader r), (ar_s r). rewrite Hs, Hp. split; [unfold with_size; by rewrite Hd|]. done.
Qed.

(** [Resize] to the first [n] bytes. *)
Lemma Resize_prefix b n : wf b → 0 ≤ n ≤ len (content b) → ∃ b', Buffer.Resize b 0 n = Ok b' ∧ wf b' ∧ content b' = take (Z.to_nat n) (content b).
Proof.
  intros Hb Hn. pose proof (Buffer.len_content b Hb) as Hl. unfold Buffer.Resize, Buffer.from_end.
  rewrite (decide_False (P := n < 0)), (decide_False (P := 0 < 0)) by lia. rewrite (decide_False (P := n < 0)) by lia.
  assert (Hw := Hb). unfold wf in Hw. rewrite !i32_small by (unfold is_i32; lia). unfold Buffer.Check. cbn [Buffer.set_window Buffer.start Buffer.end_].
  rewrite (decide_False (P := Buffer.start b + 0 < 0)), (decide_False (P := Buffer.start b + n < 0)), (decide_False (P := Buffer.start b + n < Buffer.start b + 0)) by lia. cbn [Buffer.set_window Buffer.start Buffer.end_]. rewrite decide_False by lia.
  eexists. split; [reflexivity|]. split; [unfold wf; cbn; unfold Buffer.arr in *; cbn; lia|]. unfold content. cbn. rewrite take_take. unfold Buffer.arr. cbn.
  rewrite Z.add_0_r. f_equal. lia.
Qed.

Lemma new_room : Buffer.room (Buffer.New pooled) = Buffer.Size ∧ Buffer.end_ (Buffer.New pooled) = 0 ∧ len (Buffer.arr (Buffer.New pooled)) = Buffer.Size.
Proof. unfold Buffer.room, Buffer.New, Buffer.arr, Buffer.Size. cbn -[Z.to_nat replicate]. case_decide; len_lia. Qed.

Lemma readBuffer_ok r p c pad s' rest : body (ar_s r) p c pad s' → clean (ar_reader r) → reader_bytes (ar_reader r) = c ++ pad ++ rest → p ≠ [] →
  ∃ b br, readBuffer pooled r (len c + len pad) (len pad) = (Ok b, with_s (with_reader r br) s') ∧ wf b ∧ content b = p ∧ clean br ∧ reader_bytes br = rest.
Proof.
  intros Hbo Hc E Hp. destruct Hbo as [Ho Hlc [Hg _] _ Hsz]. pose proof (f_bounds _ Hg) as (Hsb & Hov & _). destruct new_room as (Hr & He & Hla).
  pose proof (len_nonneg c). pose proof (len_nonneg pad). pose proof (len_nonneg p). unfold readBuffer. rewrite He, Hla. unfold Buffer.Size in Hsz, Hr |- *.
  rewrite (i32_small (0 + _)) by (unfold is_i32; lia). rewrite (i32_small 8192) by (unfold is_i32; lia). rewrite decide_False by lia.
  rewrite app_assoc in E. destruct (full_prefix r (c ++ pad) rest Hc E) as (br & Hf & Hbr & Hrest). rewrite <- len_app, Hf.
  destruct (Buffer.ReadFullFrom_spec (Buffer.New pooled) (mkStream (c ++ pad) EOF) (len (c ++ pad)) (Buffer.wf_New _)) as (b & -> & Hb & Hcb & _); [rewrite len_app; lia|].
  unfold read_full in Hcb. cbn [sdata] in Hcb. rewrite decide_True in Hcb by lia. cbn [fst snd] in Hcb. rewrite to_nat_len, take_ge, Buffer.content_New in Hcb by lia. cbn [app] in Hcb.
  cbn [mbind go_bind]. rewrite len_app, (i32_small (_ - _)) by (unfold is_i32; lia). replace (len c + len pad - len pad) with (len c) by lia.
  rewrite MultiBuffer.BytesTo_spec by (rewrite ?Hcb, ?len_app; done || lia). cbn [mbind go_bind]. rewrite Hcb, to_nat_len, take_app_length. cbn [with_reader ar_s]. rewrite Ho. cbn [mbind go_bind].
  rewrite (i32_small (len p)) by (unfold is_i32; lia). set (x := take (length p) (c ++ pad)). set (y := drop (length p) (c ++ pad)).
  destruct (Buffer.poke_mid b [] x y p Hb) as (Hw1 & Hc1 & _); [cbn [app]; unfold x, y; by rewrite take_drop, Hcb| |done|].
  { unfold x. unfold len. rewrite length_take, length_app. unfold len in *. lia. }
  unfold len in Hw1, Hc1 at 1. cbn [length Z.of_nat] in Hw1, Hc1. change (len (@nil byte)) with 0 in Hw1, Hc1. rewrite Z.add_0_r in Hw1, Hc1. cbn [app] in Hc1.
  destruct (Resize_prefix (Buffer.poke b (Buffer.start b) p) (len p) Hw1) as (b' & Hrs & Hb' & Hcb'); [rewrite Hc1, len_app; pose proof (len_nonneg y); lia|].
  exists b', br. rewrite Hrs. rewrite Hc1, to_nat_len, take_app_length in Hcb'. done.
Qed.

(** What [readInternal] does with a chunk: hard, it reads it; soft, it may ask to wait, and then still
    has the chunk before it. The empty chunk ends the stream. *)
Lemma readInternal_ok soft r p s' rest mb : at_chunk r p s' rest → wfs mb → let o := readInternal pooled soft r mb in
  (soft = true ∧ o.1 = Err errSoft ∧ at_chunk o.2 p s' rest) ∨
  (p = [] ∧ o.1 = Err EOF ∧ ar_done o.2 = true) ∨
  (p ≠ [] ∧ ∃ b, o.1 = Ok (mb ++ [b]) ∧ wf b ∧ content b = p ∧ ar_done o.2 = false ∧ ar_hasSize o.2 = false ∧ ar_s o.2 = s' ∧ clean (ar_reader o.2) ∧ reader_bytes (ar_reader o.2) = rest).
Proof.
  intros Hat Hmb. unfold readInternal. destruct (andb soft (bool_decide _)) eqn:Es; [left; apply andb_true_iff in Es as [-> _]; done|].
  pose proof Hat as (_ & Hd & _). rewrite Hd. destruct (readSize_ok r p s' rest Hat) as (c & pad & b & s & -> & Hbo & Hb & E & Hsp).
  cbn [ar_s ar_reader]. pose proof (bo_len _ _ _ _ _ Hbo) as Hlc. pose proof (proj1 (bo_good _ _ _ _ _ Hbo)) as Hg. pose proof (f_bounds _ Hg) as (Hsb & Hov & _).
  pose proof (bo_size _ _ _ _ _ Hbo) as Hsz. unfold Buffer.Size in Hsz. pose proof (len_nonneg p). pose proof (len_nonneg pad). pose proof (len_nonneg c).
  rewrite (u16_small (f_Overhead s)) by (unfold is_u16; lia). rewrite (u16_small (_ + len pad)) by (unfold is_u16; lia).
  destruct (decide (len c + len pad = f_Overhead s + len pad)) as [He|He].
  { right. left. split; [apply len_0_nil; lia|]. done. }
  assert (Hp : p ≠ []) by (intros ->; change (len (@nil byte)) with 0 in Hlc; lia).
  clear Es. destruct (andb soft (bool_decide (len c + len pad > BufferedBytes b))) eqn:Ew; [left; apply andb_true_iff in Ew as [-> _]; split; [done|]; split; [done|]|].
  { split; [exact Hb|]. split; [done|]. right. split; [done|]. exists c, pad. done. }
  right. right. split; [done|]. rewrite decide_True by (unfold Buffer.Size; lia).
  destruct (readBuffer_ok (mkAR s b (ar_size r) (ar_paddingLen r) false false) p c pad s' rest Hbo Hb E Hp) as (bf & br & -> & Hwf & Hcf & Hbr & Hrest). by exists bf.
Qed.

(** The payloads [ps], the first of which comes next, and the end of the stream. *)
Definition feed (r : AuthenticationReader) (ps : list (list byte)) : Prop :=
  match ps ++ [[]] with
  | [] => False
  | p :: qs => ∃ s1 s2 rest tail, at_chunk r p s1 (rest ++ tail) ∧ chunks s1 qs rest s2
  end.
Definition ended (r : AuthenticationReader (S := S)) (ps : list (list byte)) : Prop := ar_done r = true ∧ ps = [].

Lemma feed_next (r : AuthenticationReader (S := S)) ps s2 wire tail : clean (ar_reader r) → ar_done r = false → ar_hasSize r = false →
  chunks (ar_s r) (ps ++ [[]]) wire s2 → reader_bytes (ar_reader r) = wire ++ tail → feed r ps.
Proof.
  intros Hc Hd Hh Hch E. unfold feed. destruct (ps ++ [[]]) as [|p qs] eqn:Eq; [by destruct ps|]. inversion Hch as [|s p' eb s1 ps' w s3 Hck Hrest]; subst.
  exists s1, s2, w, tail. split; [|done]. split; [done|]. split; [done|]. left. split; [done|]. exists eb. split; [done|]. by rewrite E, <- app_assoc.
Qed.

Lemma more_reads_ok n : ∀ r mb ps, Forall (λ p, p ≠ []) ps → feed r ps ∨ ended r ps → wfs mb →
  ∃ k mb' r', more_reads pooled n r mb = (Ok mb', r') ∧ wfs mb' ∧ mcontent mb' = mcontent mb ++ concat (take k ps) ∧ (feed r' (drop k ps) ∨ ended r' (drop k ps)).
Proof.
  induction n as [|n IH]; intros r mb ps Hps Hr Hmb; cbn [more_reads].
  { exists 0%nat, mb, r. cbn. by rewrite app_nil_r. }
  destruct Hr as [Hf|[Hd ->]].
  - unfold feed in Hf. destruct (ps ++ [[]]) as [|p qs] eqn:Eq; [done|]. destruct Hf as (s1 & s2 & rest & tail & Hat & Hch).
    pose proof (readInternal_ok true r p s1 (rest ++ tail) mb Hat Hmb) as Ho. destruct (readInternal pooled true r mb) as [o r1]. cbn [fst snd] in Ho.
    destruct Ho as [(_ & -> & Hat')|[(-> & -> & Hd)|(Hp & b & -> & Hwb & Hcb & Hd & Hh & Hs & Hcl & Hrb)]].
    + rewrite decide_True by (by left). exists 0%nat, mb, r1. cbn [take drop concat]. rewrite app_nil_r. split; [done|]. split; [done|]. split; [done|]. left.
      change (drop 0 ps) with ps. unfold feed. rewrite Eq. by exists s1, s2, rest, tail.
    + rewrite decide_True by (by right). destruct ps as [|q ps]; [|cbn in Eq; injection Eq as -> _; apply Forall_cons_1 in Hps as [? _]; done].
      exists 0%nat, mb, r1. cbn. rewrite app_nil_r. split; [done|]. split; [done|]. split; [done|]. right. done.
    + destruct ps as [|q ps]; [cbn in Eq; injection Eq as <- _; done|]. cbn in Eq. injection Eq as -> <-. apply Forall_cons_1 in Hps as [_ Hps]. rewrite <- Hs in Hch.
      destruct (IH r1 (mb ++ [b]) ps Hps (or_introl (feed_next r1 ps s2 rest tail Hcl Hd Hh Hch Hrb))) as (k & mb' & r' & -> & Hw & Hc & Hr'); [by apply MultiBuffer.wfs_snoc|].
      exists (Datatypes.S k), mb', r'. split; [done|]. split; [done|]. split; [|done]. rewrite Hc, mcontent_app, mcontent_cons, Hcb. cbn [take concat]. change (mcontent []) with (@nil byte).
      by rewrite app_nil_r, <- app_assoc.
  - exists 0%nat, mb. unfold readInternal. rewrite Hd. destruct (andb _ _); rewrite decide_True by auto; exists r; cbn; rewrite app_nil_r; (split; [done|]); (split; [done|]); (split; [done|]); by right.
Qed.

(** One [ReadMultiBuffer]: at least one payload, or the end. *)
Lemma ReadMultiBuffer_ok r ps : Forall (λ p, p ≠ []) ps → feed r ps ∨ ended r ps →
  (ps = [] ∧ (ReadMultiBuffer pooled r).1 = Err EOF) ∨
  (ps ≠ [] ∧ ∃ k mb r', ReadMultiBuffer pooled r = (Ok mb, r') ∧ mcontent mb = concat (take (Datatypes.S k) ps) ∧ (feed r' (drop (Datatypes.S k) ps) ∨ ended r' (drop (Datatypes.S k) ps))).
Proof.
  intros Hps [Hf|[Hd ->]]; unfold ReadMultiBuffer.
  2: { left. split; [done|]. unfold readInternal. by rewrite Hd. }
  unfold feed in Hf. destruct (ps ++ [[]]) as [|p qs] eqn:Eq; [done|]. destruct Hf as (s1 & s2 & rest & tail & Hat & Hch).
  pose proof (readInternal_ok false r p s1 (rest ++ tail) [] Hat (Forall_nil_2 _)) as Ho. destruct (readInternal pooled false r []) as [o r1]. cbn [fst snd app] in Ho.
  destruct Ho as [(? & _)|[(-> & -> & Hd)|(Hp & b & -> & Hwb & Hcb & Hd & Hh & Hs & Hcl & Hrb)]]; [done| |].
  - left. destruct ps as [|q ps]; [done|]. cbn in Eq. injection Eq as -> _. apply Forall_cons_1 in Hps as [? _]. done.
  - right. destruct ps as [|q ps]; [cbn in Eq; injection Eq as <- _; done|]. cbn in Eq. injection Eq as -> <-. apply Forall_cons_1 in Hps as [_ Hps]. rewrite <- Hs in Hch.
    destruct (more_reads_ok 15 r1 [b] ps Hps (or_introl (feed_next r1 ps s2 rest tail Hcl Hd Hh Hch Hrb))) as (k & mb' & r' & -> & Hw & Hc & Hr'); [by apply Forall_singleton|].
    split; [done|]. exists k, mb', r'. split; [done|]. split; [|done]. rewrite Hc, mcontent_cons, Hcb. change (mcontent []) with (@nil byte). by rewrite app_nil_r.
Qed.

(** ** The writer makes chunks *)

Lemma writeStream_loop_ok fuel : ∀ s mb n out, f_good s → wfs mb → mcontent mb ≠ [] → 0 < n ≤ payload_size s → (length (mcontent mb) ≤ fuel)%nat →
  ∃ ebs ps s', writeStream_loop rand fuel s mb n out = Some (Ok (out ++ ebs), s') ∧ chunks s ps (concat ebs) s' ∧ concat ps = mcontent mb ∧ Forall (λ p, p ≠ []) ps ∧
    f_good s' ∧ same_params s s'.
Proof.
  induction fuel as [|fuel IH]; intros s mb n out Hg Hmb Hne Hn Hf; [destruct (mcontent mb); cbn in Hf; [done|lia]|]. cbn [writeStream_loop].
  destruct (MultiBuffer.SplitBytes_spec mb n Hmb ltac:(lia)) as (mb' & -> & Hmb' & Hc'). set (p := take (Z.to_nat n) (mcontent mb)).
  assert (Hp : p ≠ []) by (unfold p; destruct (mcontent mb); [done|]; destruct (Z.to_nat n) eqn:E; [lia|done]).
  destruct (seal_chunk s p Hg) as (eb & s1 & -> & Hck & Hg1 & Hsp1); [unfold p; len_lia|]. rewrite empty_bytes by done. case_bool_decide as E.
  - exists [eb], [p], s1. split; [done|]. cbn [concat]. rewrite !app_nil_r. split; [rewrite <- (app_nil_r eb); econstructor; [done|constructor]|].
    split; [unfold p; rewrite <- (take_drop (Z.to_nat n) (mcontent mb)) at 2; by rewrite <- Hc', E, app_nil_r|]. split; [by apply Forall_singleton|done].
  - destruct (IH s1 mb' n (out ++ [eb]) Hg1 Hmb' E) as (ebs & ps & s' & -> & Hch & Hcp & Hps & Hg' & Hsp').
    + unfold payload_size, same_params in *. lia.
    + rewrite Hc', length_drop. destruct (mcontent mb); [done|]. cbn [length] in *. destruct (Z.to_nat n) eqn:En; lia.
    + exists (eb :: ebs), (p :: ps), s'. rewrite <- app_assoc. split; [done|]. split; [cbn [concat]; econstructor; eauto|].
      split; [cbn [concat]; rewrite Hcp, Hc'; unfold p; apply take_drop|]. split; [by apply Forall_cons_2|]. split; [done|]. unfold same_params in *. lia.
Qed.

Lemma WriteMultiBuffer_ok fuel s mb : f_good s → wfs mb → (length (mcontent mb) ≤ fuel)%nat →
  ∃ ebs ps s', WriteMultiBuffer pooled rand fuel TransferTypeStream s mb = Some (Ok ebs, s') ∧ chunks s ps (concat ebs) s' ∧ concat ps = mcontent mb ∧ f_good s' ∧
    (mcontent mb = [] → ps = [[]]) ∧ (mcontent mb ≠ [] → Forall (λ p, p ≠ []) ps).
Proof.
  intros Hg Hmb Hf. unfold WriteMultiBuffer. pose proof (f_bounds s Hg) as Hb. rewrite empty_bytes by done. case_bool_decide as E.
  - destruct (seal_chunk s [] Hg) as (eb & s1 & -> & Hck & Hg1 & _); [unfold payload_size, Buffer.Size, len; cbn [length]; lia|]. exists [eb], [[]], s1. rewrite E. split; [done|].
    cbn [concat]. rewrite app_nil_r. split; [rewrite <- (app_nil_r eb); econstructor; [done|constructor]|]. done.
  - unfold writeStream. fold (payload_size s). destruct new_room as (Hr & _). destruct (Buffer.Extend_spec (Buffer.New pooled) (payload_size s) (Buffer.wf_New _)) as (b & -> & _).
    { unfold payload_size, Buffer.Size in *. lia. }
    destruct (writeStream_loop_ok fuel s mb (payload_size s) [] Hg Hmb E) as (ebs & ps & s' & -> & H1 & H2 & H3 & H4 & _); [unfold payload_size, Buffer.Size; lia|done|].
    exists ebs, ps, s'. done.
Qed.

(** ** Both ends *)

(** Writing several times: the bytes on the wire. *)
Fixpoint write_all (fuel : nat) (s : S) (mbs : list mbuf) : option (go (list byte) * S) :=
  match mbs with
  | [] => Some (Ok [], s)
  | mb :: mbs =>
      match WriteMultiBuffer pooled rand fuel TransferTypeStream s mb with
      | Some (Ok ebs, s) =>
          match write_all fuel s mbs with
          | Some (Ok wire, s) => Some (Ok (concat ebs ++ wire), s)
          | r => r
          end
      | Some (Err e, s) => Some (Err e, s)
      | Some (Panic, s) => Some (Panic, s)
      | None => None
      end
  end.
(** Reading until an error: the bytes and the error. *)
Fixpoint read_all (fuel : nat) (r : AuthenticationReader (S := S)) : option (go (list byte * GoError)) :=
  match fuel with
  | O => None
  | Datatypes.S fuel =>
      match ReadMultiBuffer pooled r with
      | (Ok mb, r) => match read_all fuel r with Some (Ok (bs, e)) => Some (Ok (mcontent mb ++ bs, e)) | x => x end
      | (Err e, _) => Some (Ok ([], e))
      | (Panic, _) => Some Panic
      end
  end.

Lemma read_all_ok fuel : ∀ r ps, Forall (λ p, p ≠ []) ps → feed r ps ∨ ended r ps → (length ps < fuel)%nat → read_all fuel r = Some (Ok (concat ps, EOF)).
Proof.
  induction fuel as [|fuel IH]; intros r ps Hps Hr Hf; [lia|]. cbn [read_all]. destruct (ReadMultiBuffer_ok r ps Hps Hr) as [[-> He]|(Hne & k & mb & r' & -> & Hc & Hr')].
  - destruct (ReadMultiBuffer pooled r) as [o r']. cbn in He. by subst o.
  - rewrite (IH r' (drop (Datatypes.S k) ps)); [|by apply Forall_drop|done|rewrite length_drop; destruct ps; [done|]; cbn in *; lia].
    by rewrite Hc, <- concat_app, take_drop.
Qed.

Lemma write_all_ok fuel mbs : ∀ s, f_good s → Forall wfs mbs → Forall (λ mb, mcontent mb ≠ []) mbs → Forall (λ mb, (length (mcontent mb) ≤ fuel)%nat) mbs →
  ∃ wire ps s', write_all fuel s mbs = Some (Ok wire, s') ∧ chunks s ps wire s' ∧ concat ps = concat (mcontent <$> mbs) ∧ Forall (λ p, p ≠ []) ps ∧ f_good s'.
Proof.
  induction mbs as [|mb mbs IH]; intros s Hg Hw Hne Hf; cbn [write_all].
  { exists [], [], s. split; [done|]. split; [constructor|]. split; [done|]. split; [apply Forall_nil_2|done]. }
  apply Forall_cons_1 in Hw as [Hw1 Hw]. apply Forall_cons_1 in Hne as [Hne1 Hne]. apply Forall_cons_1 in Hf as [Hf1 Hf].
  destruct (WriteMultiBuffer_ok fuel s mb Hg Hw1 Hf1) as (ebs & ps & s1 & -> & H1 & H2 & Hg1 & _ & H3).
  destruct (IH s1 Hg1 Hw Hne Hf) as (wire & qs & s' & -> & G1 & G2 & G3 & Hg'). exists (concat ebs ++ wire), (ps ++ qs), s'. split; [done|].
  split; [by eapply chunks_app|]. split; [rewrite concat_app, H2, G2; done|]. split; [apply list.Forall_app; auto|done].
Qed.

(** C19: whatever buffers are written to an authenticated stream, an empty one at the end, and however the
    network cuts the bytes, a reader that starts from the same keys and counters returns the same
    bytes in order and then the end of the stream: for every cipher that opens what it sealed, every
    way to encode sizes and every padding. The writer's loop ends. *)
Theorem auth_stream_roundtrip s mbs fuel : f_good s → Forall wfs mbs → Forall (λ mb, mcontent mb ≠ []) mbs → Forall (λ mb, (length (mcontent mb) ≤ fuel)%nat) mbs →
  ∃ wire s', write_all fuel s (mbs ++ [[]]) = Some (Ok wire, s') ∧
    ∀ br tail, clean br → reader_bytes br = wire ++ tail → ∃ reads, read_all reads (NewAuthenticationReader s br) = Some (Ok (concat (mcontent <$> mbs), EOF)).
Proof.
  intros Hg Hw Hne Hf. destruct (write_all_ok fuel mbs s Hg Hw Hne Hf) as (wire & ps & s1 & H1 & H2 & H3 & H4 & Hg1).
  destruct (WriteMultiBuffer_ok fuel s1 [] Hg1 (Forall_nil_2 _) (Nat.le_0_l _)) as (ebs & qs & s' & G1 & G2 & _ & _ & G3 & _). specialize (G3 eq_refl). subst qs.
  assert (Hwa : ∀ l s0 w0, write_all fuel s0 l = Some (Ok w0, s1) → write_all fuel s0 (l ++ [[]]) = Some (Ok (w0 ++ concat ebs), s')).
  { clear -G1. intros l. induction l as [|mb l IH]; intros s0 w0 H; cbn [app write_all] in *.
    - injection H as <- ->. rewrite G1. by rewrite app_nil_r.
    - destruct (WriteMultiBuffer pooled rand fuel TransferTypeStream s0 mb) as [[[e| |] s2]|]; try done.
      destruct (write_all fuel s2 l) as [[[w| |] s3]|] eqn:El; try done. injection H as <- ->. rewrite (IH s2 w El). by rewrite app_assoc. }
  exists (wire ++ concat ebs), s'. split; [by apply Hwa|]. intros br tail Hc E. exists (Datatypes.S (length ps)). rewrite <- H3. apply read_all_ok; [done| |lia].
  left. eapply (feed_next (NewAuthenticationReader s br)); [done|done|done| |exact E]. cbn [NewAuthenticationReader ar_s]. by eapply chunks_app.
Qed.

End laws.

(** ** Authenticators open what they sealed *)

(** Generators that always give [n] bytes. *)
Definition gen_good (g : BytesGenerator) (n : Z) : Prop :=
  match g with
  | GenerateEmptyBytes => n = 0
  | GenerateStaticBytes c | GenerateIncreasingNonce c => len c = n
  | GenerateChunkNonce c _ size => size = n ∧ 0 ≤ size ≤ len c ∧ 2 ≤ len c
  end.
Lemma increase_length c : length (increase c) = length c.
Proof. induction c as [|b c IH]; [done|]. cbn [increase]. cbn zeta. destruct (decide _); cbn [length]; [done|by rewrite IH]. Qed.
Lemma generate_good g n : gen_good g n → ∃ bs g', generate g = (Ok bs, g') ∧ len bs = n ∧ gen_good g' n.
Proof.
  destruct g as [|c|c|c count size]; cbn [generate gen_good].
  - intros ->. by exists [], GenerateEmptyBytes.
  - intros <-. by eexists _, _.
  - intros <-. eexists _, _. split; [reflexivity|]. unfold len. cbn [gen_good]. unfold len. by rewrite increase_length.
  - intros (-> & Hn & H2). rewrite decide_False by lia. cbn zeta.
    assert (Hl : len (put_be16 count ++ drop 2 c) = len c) by (unfold len in *; rewrite length_app, length_drop; change (length (put_be16 count)) with 2%nat; lia).
    rewrite slice_Some by lia. eexists _, _. split; [reflexivity|]. cbn [gen_good]. rewrite Hl. split; [|done].
    replace (Z.to_nat 0) with 0%nat by done. rewrite drop_0, Z.sub_0_r. unfold len in *. rewrite length_take. lia.
Qed.

Definition auth_good (v : Auth) : Prop :=
  AEAD_ok (a_AEAD v) ∧ gen_good (NonceGenerator v) (NonceSize (a_AEAD v)) ∧ match AdditionalDataGenerator v with None => True | Some g => ∃ n, gen_good g n end.

Lemma next_inputs_good v : auth_good v → ∃ iv ad v', next_inputs v = (Ok (iv, ad), v') ∧ auth_good v' ∧ a_AEAD v' = a_AEAD v.
Proof.
  intros (Ha & Hn & Hd). unfold next_inputs. destruct (generate_good _ _ Hn) as (iv & g & -> & Hl & Hg). cbn [a_AEAD AdditionalDataGenerator NonceGenerator].
  rewrite decide_False by (rewrite Hl; lia). destruct (AdditionalDataGenerator v) as [g2|] eqn:E.
  - destruct Hd as [m Hd]. destruct (generate_good _ _ Hd) as (ad & g2' & -> & _ & Hg2). eexists _, _, _. split; [reflexivity|]. split; [|done]. split; [done|]. split; [done|]. cbn. eauto.
  - eexists _, _, _. split; [reflexivity|]. split; [|done]. split; [done|]. split; done.
Qed.
Lemma auth_seals v p : auth_good v → ∃ c v', Auth_Seal v p = (Ok c, v') ∧ Auth_Open v c = (Ok p, v') ∧ len c = len p + Overhead (a_AEAD v) ∧ auth_good v' ∧ a_AEAD v' = a_AEAD v.
Proof.
  intros Hv. destruct (next_inputs_good v Hv) as (iv & ad & v' & Hn & Hv' & Ea). unfold Auth_Seal, Auth_Open. rewrite Hn. eexists _, _. split; [reflexivity|].
  pose proof (proj1 Hv') as Hok. rewrite (open_seal _ Hok), (seal_length _ Hok), Ea. done.
Qed.

Lemma be16_put_exact z : is_u16 z → be16 (put_be16 z) = Some z.
Proof. intros H. rewrite <- (be16_put z [] H). done. Qed.

Lemma aead_sizes v n : auth_good v → is_u16 n → ∃ b v', AEADSize_Encode v n = (Ok b, v') ∧ AEADSize_Decode v b = (Ok n, v') ∧ len b = AEADSize_SizeBytes v ∧ auth_good v' ∧ a_AEAD v' = a_AEAD v.
Proof.
  intros Hv Hn. unfold AEADSize_Encode, AEADSize_Decode, AEADSize_SizeBytes. pose proof (overhead_ok _ (proj1 Hv)) as Ho.
  destruct (auth_seals v (put_be16 (u16 (n - u16 (Overhead (a_AEAD v))))) Hv) as (c & v' & -> & H2 & Hl & Hv' & Ea). exists c, v'. split; [done|]. rewrite H2.
  rewrite be16_put_exact by apply u16_range. cbn [ok_or_panic mbind go_bind]. rewrite Ea. split; [|split; [rewrite Hl; done|done]].
  do 2 f_equal. unfold u16, is_u16 in *. rewrite Zplus_mod_idemp_l. replace (n - Overhead (a_AEAD v) mod 65536 + Overhead (a_AEAD v) mod 65536) with n by lia. apply Z.mod_small. lia.
Qed.

(** Shadowsocks: one counter for sizes and payloads. *)
#[export] Instance shadowsocks_framing : Framing Auth := {
  f_SizeBytes := AEADSize_SizeBytes;
  f_Overhead v := Overhead (a_AEAD v);
  f_MaxPaddingLen _ := 0;
  f_NextPaddingLen v := (0, v);
  f_Encode := AEADSize_Encode;
  f_Decode := AEADSize_Decode;
  f_Seal := Auth_Seal;
  f_Open := Auth_Open
}.
#[export] Program Instance shadowsocks_laws : FramingLaws Auth := { f_good := auth_good }.
Next Obligation. intros v Hv. pose proof (overhead_ok _ (proj1 Hv)). cbn. unfold AEADSize_SizeBytes. lia. Qed.
Next Obligation. intros v Hv. cbn. split; [lia|done]. Qed.
Next Obligation.
  intros v n Hv Hn. destruct (aead_sizes v n Hv Hn) as (b & v' & H1 & H2 & H3 & H4 & H5). exists b, v'. cbn. unfold AEADSize_SizeBytes in *. rewrite H5. done.
Qed.
Next Obligation.
  intros v p Hv. destruct (auth_seals v p Hv) as (c & v' & H1 & H2 & H3 & H4 & H5). exists c, v'. cbn. unfold AEADSize_SizeBytes. rewrite H5. done.
Qed.

(** VMess: sizes plain, masked by the SHAKE stream or sealed with a key of their own; padding lengths
    from the same SHAKE stream. *)
Inductive VSizer := VPlain | VShake | VAEAD (lengthAuth : Auth).
Record VMess := mkVMess { vm_auth : Auth; vm_sizer : VSizer; vm_shake : nat; vm_padding : bool }.

Lemma lxor_u16 a b : is_u16 a → is_u16 b → is_u16 (Z.lxor a b).
Proof. apply (lxor_below 16). lia. Qed.

Section vmess.
Context (shake : nat → Z) (shake_range : ∀ k, is_u16 (shake k)).

Definition with_shake (v : VMess) (k : nat) : VMess := mkVMess (vm_auth v) (vm_sizer v) k (vm_padding v).
Definition with_sizer (v : VMess) (z : VSizer) : VMess := mkVMess (vm_auth v) z (vm_shake v) (vm_padding v).
Definition with_auth (v : VMess) (a : Auth) : VMess := mkVMess a (vm_sizer v) (vm_shake v) (vm_padding v).

Definition vmess_framing : Framing VMess := {|
  f_SizeBytes v := match vm_sizer v with VPlain | VShake => 2 | VAEAD a => AEADSize_SizeBytes a end;
  f_Overhead v := Overhead (a_AEAD (vm_auth v));
  f_MaxPaddingLen v := if vm_padding v then Shake_MaxPaddingLen else 0;
  f_NextPaddingLen v := if vm_padding v then let '(n, k) := Shake_NextPaddingLen shake (vm_shake v) in (n, with_shake v k) else (0, v);
  f_Encode v size := match vm_sizer v with
    | VPlain => (Ok (Plain_Encode size), v)
    | VShake => let '(b, k) := Shake_Encode shake (vm_shake v) size in (Ok b, with_shake v k)
    | VAEAD a => let '(b, a) := AEADSize_Encode a size in (b, with_sizer v (VAEAD a)) end;
  f_Decode v b := match vm_sizer v with
    | VPlain => (Plain_Decode b, v)
    | VShake => let '(n, k) := Shake_Decode shake (vm_shake v) b in (n, with_shake v k)
    | VAEAD a => let '(n, a) := AEADSize_Decode a b in (n, with_sizer v (VAEAD a)) end;
  f_Seal v p := let '(c, a) := Auth_Seal (vm_auth v) p in (c, with_auth v a);
  f_Open v c := let '(p, a) := Auth_Open (vm_auth v) c in (p, with_auth v a)
|}.

Definition vmess_good (v : VMess) : Prop := auth_good (vm_auth v) ∧ match vm_sizer v with VAEAD a => auth_good a | _ => True end.

#[local] Existing Instance vmess_framing.

Program Definition vmess_laws : FramingLaws VMess := {| f_good := vmess_good |}.
Next Obligation.
  intros v (Ha & Hz). pose proof (overhead_ok _ (proj1 Ha)). cbn. unfold Shake_MaxPaddingLen. split; [|split; [done|destruct (vm_padding v); lia]].
  destruct (vm_sizer v) as [| |a]; [lia|lia|]. pose proof (overhead_ok _ (proj1 Hz)). unfold AEADSize_SizeBytes. lia.
Qed.
Next Obligation.
  intros v Hv. cbn. unfold Shake_MaxPaddingLen. destruct (vm_padding v) eqn:E; cbn; [|rewrite E; split; [lia|done]].
  rewrite E. split; [|done]. pose proof (Z.mod_pos_bound (shake (vm_shake v)) 64). lia.
Qed.
Next Obligation.
  intros v n (Ha & Hz) Hn. cbn. destruct (vm_sizer v) as [| |a] eqn:E.
  - eexists _, _. split; [reflexivity|]. unfold Plain_Decode, Plain_Encode. rewrite be16_put_exact by done. split; [done|]. split; [done|]. split; [split; [done|by rewrite E]|]. by rewrite E.
  - eexists _, _. split; [reflexivity|]. cbn [Shake_Decode Shake_next Shake_Encode]. rewrite be16_put_exact by (apply lxor_u16; [apply shake_range|done]). cbn [ok_or_panic mbind go_bind].
    rewrite <- Z.lxor_assoc, Z.lxor_nilpotent, Z.lxor_0_l. split; [done|]. split; [done|]. split; [split; [done|by cbn; rewrite E]|]. cbn. by rewrite E.
  - destruct (aead_sizes a n Hz Hn) as (b & a' & -> & H2 & H3 & H4 & H5). eexists _, _. split; [reflexivity|]. rewrite H2. split; [done|]. split; [done|].
    split; [split; done|]. cbn. unfold AEADSize_SizeBytes. by rewrite H5.
Qed.
Next Obligation.
  intros v p (Ha & Hz). destruct (auth_seals (vm_auth v) p Ha) as (c & a & H1 & H2 & H3 & H4 & H5). cbn. rewrite H1. eexists _, _. split; [reflexivity|]. rewrite H2.
  split; [done|]. split; [done|]. split; [split; done|]. cbn. by rewrite H5.
Qed.
End vmess.

(** A cipher that adds one byte, for the examples. *)
Definition toy_aead : AEAD := mkAEAD 12 1 (λ _ p _, p ++ [x5a]) (λ _ c _, if decide (list.last c = Some x5a) then Some (take (length c - 1) c) else None).
Lemma toy_aead_ok : AEAD_ok toy_aead.
Proof.
  split; cbn; [lia|intros n p d; by rewrite len_snoc|]. intros n p d. rewrite last_snoc, decide_True by done. rewrite length_app. cbn [length].
  replace (length p + 1 - 1)%nat with (length p) by lia. by rewrite take_app_length.
Qed.
Definition toy_auth : Auth := mkAuth toy_aead (GenerateAEADNonceWithSize 12) None.
Definition zeros (s : Auth) (n : Z) : list byte := replicate (Z.to_nat n) x00.

Lemma auth_stream_roundtrip_witness : ∃ wire s', write_all [] zeros 2 toy_auth [[Buffer.FromBytes [x68; x69]]; []] = Some (Ok wire, s') ∧
  ∀ br tail, clean br → reader_bytes br = wire ++ tail → ∃ reads, read_all [] reads (NewAuthenticationReader toy_auth br) = Some (Ok ([x68; x69], EOF)).
Proof.
  destruct (auth_stream_roundtrip [] zeros) with (s := toy_auth) (mbs := [[Buffer.FromBytes [x68; x69]]]) (fuel := 2%nat) as (wire & s' & H1 & H2).
  - intros s n Hn. unfold zeros, len. rewrite length_replicate. lia.
  - split; [exact toy_aead_ok|]. split; [reflexivity|exact I].
  - apply Forall_singleton. apply Forall_singleton. unfold wf. vm_compute. repeat split; discriminate.
  - apply Forall_singleton. vm_compute. discriminate.
  - apply Forall_singleton. vm_compute. lia.
  - exists wire, s'. split; [exact H1|exact H2].
Defined.

(** ** What the chunks do not do *)

(** The counter of VMess has sixteen bits: after 65536 chunks under one key the nonce comes again. *)
Lemma chunk_nonce_count k c size : 2 ≤ len c → ∃ c', Nat.iter k (λ g, (generate g).2) (GenerateChunkNonce c 0 size) = GenerateChunkNonce c' (u16 (Z.of_nat k)) size ∧
  drop 2 c' = drop 2 c ∧ len c' = len c.
Proof.
  intros Hc. induction k as [|k IH]; [by exists c|]. destruct IH as (c' & IH & Hd & Hl). rewrite Nat.iter_succ, IH. cbn [generate]. rewrite decide_False by lia.
  cbn [snd]. eexists. split; [f_equal; unfold u16; rewrite Zplus_mod_idemp_l; f_equal; lia|]. split; [done|]. unfold len in *. rewrite length_app, length_drop.
  change (length (put_be16 _)) with 2%nat. lia.
Qed.
Lemma chunk_nonce_repeats c size : 2 ≤ len c → let g := GenerateChunkNonce c 0 size in
  (generate (Nat.iter (Z.to_nat 65536) (λ g, (generate g).2) g)).1 = (generate g).1.
Proof.
  intros Hc g. destruct (chunk_nonce_count (Z.to_nat 65536) c size Hc) as (c' & Hi & Hd & Hl). unfold g. rewrite Hi. cbn [generate]. rewrite !decide_False by lia. cbn [fst].
  rewrite Hd. by rewrite Z2Nat.id by lia.
Qed.

(** A packet too large to seal is dropped by [writePacket], but its padding length was taken: the
    reader's masks no longer fit the writer's. *)
Lemma oversize_takes_padding {S} `{Framing S} (rand : S → Z → list byte) s b : let '(n, s1) := f_NextPaddingLen s in
  f_SizeBytes s1 + i32 (len b + f_Overhead s) + n > Buffer.Size → seal rand s b = (Err (ErrMsg "size too large: "), s1).
Proof. unfold seal. destruct (f_NextPaddingLen s) as [n s1]. intros Hs. by rewrite decide_True by done. Qed.

Definition toy_shake (k : nat) : Z := 1000 * Z.of_nat k mod 65536.
Definition toy_vmess : VMess := mkVMess toy_auth VShake 0 true.
Definition toy_write (b : list byte) (s : VMess) : go (list byte) * VMess := @seal VMess (vmess_framing toy_shake) (λ _ n, replicate (Z.to_nat n) x00) s b.
(** After it, a chunk of two bytes is announced with a size the reader does not understand. *)
Lemma oversize_desyncs : (toy_write (replicate (Z.to_nat 8192) x00) toy_vmess).1 = Err (ErrMsg "size too large: ") ∧
  match toy_write [x68; x69] (toy_write (replicate (Z.to_nat 8192) x00) toy_vmess).2 with
  | (Ok eb, _) => (@f_Decode VMess (vmess_framing toy_shake) (@f_NextPaddingLen VMess (vmess_framing toy_shake) toy_vmess).2 (take 2 eb)).1 ≠
                  Ok (len eb - 2)
  | _ => False
  end.
Proof. split; [vm_compute; reflexivity|]. vm_compute. discriminate. Qed.
