(* ===== verification/ProxyHeaders.v ===== *)
(** * The headers of Trojan and VLESS

    Models [proxy/trojan/protocol.go], [proxy/vless/encoding/encoding.go], the header and packet parts
    of [addons.go] and [proxy/vless/validator.go]. Addresses are those of [AddrCodec]. A header is
    put together in one buffer, whose bytes are then written. The encoding of the VLESS addons is
    protobuf's, a pair of functions. *)

From S2P Require Import Prelude Net Buf AddrCodec BufReader StrMatcher.
Import Buffer (content, wf).

#[local] Open Scope Z_scope.

(** [if err := b.WriteByte(c); err != nil { return err }]. *)
Definition byte_or (b : Buffer.t) (c : byte) : go Buffer.t :=
  '(b, err) ← Buffer.WriteByte b c; match err with Some e => Err e | None => Ok b end.

(** An address that may be nil. *)
Definition write_dest (s : AddressSerializer) (b : Buffer.t) (a : option Address) (port : Port) : go Buffer.t :=
  match a with Some a => WriteAddressPort s b a port | None => Panic end.

(** *** Buffers *)

Lemma fits_new pooled : fits (Buffer.New pooled) 8192.
Proof. split; [apply Buffer.wf_New|]. by rewrite room_new. Qed.

Lemma byte_or_fits (b : Buffer.t) c n : 0 ≤ n → fits b (1 + n) → ∃ b', byte_or b c = Ok b' ∧ output b' = output b ++ [c] ∧ fits b' n.
Proof.
  intros Hn [Hb Hr]. destruct (Buffer.WriteByte_spec b c Hb) as (b' & err & E & Hb' & _ & H). unfold byte_or. rewrite E. cbn [mbind go_bind].
  rewrite decide_False in H by lia. destruct H as (-> & Hc & Hr' & _). exists b'. split; [done|]. split; [done|]. split; [done|lia].
Qed.
Lemma fits_le (b : Buffer.t) n m : fits b n → m ≤ n → fits b m.
Proof. intros [Hb Hn] Hm. split; [done|lia]. Qed.
Lemma bytes_fits (b : Buffer.t) n : fits b n → Buffer.Bytes b = Ok (output b).
Proof. intros [Hb _]. by apply Buffer.Bytes_wf. Qed.

Lemma Byte_single b c : wf b → content b = [c] → Buffer.Byte b 0 = Ok c.
Proof.
  intros Hb Hc. rewrite <- (Buffer.Byte_last b [] c Hb Hc). f_equal. rewrite Buffer.Len_wf, Hc by done. done.
Qed.
Lemma clear_room b : wf b → wf (Buffer.Clear b) ∧ content (Buffer.Clear b) = [] ∧ Buffer.room b ≤ Buffer.room (Buffer.Clear b).
Proof.
  intros Hb. split; [by apply Buffer.wf_Clear|]. split; [apply Buffer.content_Clear|]. unfold Buffer.room, Buffer.Clear. cbn. unfold wf in Hb. rewrite Buffer.arr_set_window. lia.
Qed.

Lemma BytesRange_mid b lo hi : wf b → 0 ≤ lo ≤ hi → hi ≤ len (content b) → Buffer.BytesRange b lo hi = Ok (take (Z.to_nat (hi - lo)) (drop (Z.to_nat lo) (content b))).
Proof.
  intros Hb Hlo Hhi. pose proof (Buffer.len_content b Hb) as Hl. assert (Hw := Hb). unfold wf in Hw. unfold Buffer.BytesRange, Buffer.from_end.
  rewrite (decide_False (P := lo < 0)), (decide_False (P := hi < 0)) by lia. rewrite !i32_small by (unfold is_i32; lia). rewrite slice_Some by lia. cbn [ok_or_panic]. f_equal.
  unfold content. rewrite skipn_firstn_comm, take_take, drop_drop. f_equal; [lia|]. f_equal. lia.
Qed.
Lemma Byte_head b c l : wf b → content b = c :: l → Buffer.Byte b 0 = Ok c.
Proof.
  intros Hb Hc. destruct (Buffer.arr_split b Hb) as (pre & post & Ha & Hp). unfold Buffer.Byte, index. rewrite Ha, Hc, Z.add_0_r. assert (Hw := Hb). unfold wf in Hw.
  rewrite Ha, Hc, !len_app, len_cons in Hw. pose proof (len_nonneg l). pose proof (len_nonneg post). rewrite i32_small by (unfold is_i32; lia).
  rewrite decide_True by lia.
  rewrite <- Hp, to_nat_len. cbn [app]. by rewrite lookup_app_r, Nat.sub_diag by lia.
Qed.

(** An address after what is in the buffer. *)
Lemma write_dest_fits pooled s (b : Buffer.t) a port n : supports (the_parser s) (Family a) → encodable a → is_u16 port → 0 ≤ n → fits b (259 + n) →
  ∃ b' enc, write_dest s b (Some a) port = Ok b' ∧ output b' = output b ++ enc ∧ fits b' n ∧
    ∀ buffer rest e, wf (default (Buffer.New pooled) buffer) → 259 ≤ Buffer.room (default (Buffer.New pooled) buffer) →
      ∃ b', ReadAddressPort pooled s buffer (mkStream (enc ++ rest) e) = Ok (b', mkStream rest e, Some a, port).
Proof.
  intros Hs Ha Hp Hn Hf. pose proof (enc_size_bound a Ha) as Hsz.
  destruct (address_port_ok pooled s b a port n Hs Ha Hp Hn) as (b' & enc & Hw & Hf' & Ho & _ & Hr); [eapply fits_le; [exact Hf|lia]|].
  exists b', enc. split; [done|]. split; [done|]. split; [done|]. intros buffer rest e Hb Hr'. destruct (Hr buffer rest e Hb ltac:(lia)) as (b'' & -> & _). by exists b''.
Qed.

(** ** Trojan *)
Module Trojan.

Definition crlf : list byte := [x0d; x0a].
Definition maxLength : Z := 8192.
Definition commandTCP : byte := x01.
Definition commandUDP : byte := x03.

Section pooled.
Context (pooled : list byte).

(** [writeHeader]: the bytes it writes. *)
Definition writeHeader (key : list byte) (target : Destination) : go (list byte) :=
  let command := if decide (d_Network target = Network_UDP) then commandUDP else commandTCP in
  b ← write_or (Buffer.New pooled) key;
  b ← write_or b crlf;
  b ← byte_or b command;
  b ← write_dest socksParser b (d_Address target) (d_Port target);
  b ← write_or b crlf;
  Buffer.Bytes b.

(** [ConnWriter.Write]: what goes to the connection, the header before the first bytes. *)
Definition ConnWriter_Write (key : list byte) (target : Destination) (headerSent : bool) (p : list byte) : go (list byte * bool) :=
  if headerSent then Ok (p, true)
  else match writeHeader key target with Ok h => Ok (h ++ p, true) | Err _ => Err (ErrMsg "failed to write request header") | Panic => Panic end.
Fixpoint ConnWriter_WriteMultiBuffer (key : list byte) (target : Destination) (headerSent : bool) (mb : mbuf) : go (list byte * bool) :=
  match mb with
  | [] => Ok ([], headerSent)
  | b :: mb =>
      if Buffer.IsEmpty b then ConnWriter_WriteMultiBuffer key target headerSent mb
      else
        bs ← Buffer.Bytes b;
        '(out, sent) ← ConnWriter_Write key target headerSent bs;
        '(out', sent) ← ConnWriter_WriteMultiBuffer key target sent mb;
        Ok (out ++ out', sent)
  end.

(** [io.ReadFull] into an array, with the message of its error. *)
Definition full_or (r : Stream) (n : Z) (m : string) : go (list byte * Stream) :=
  match read_full r n with
  | (bs, None, r) => Ok (bs, r)
  | (_, Some _, _) => Err (ErrMsg m)
  end.

Definition read_dest (s : AddressSerializer) (r : Stream) : go (option Address * Port * Stream) :=
  match ReadAddressPort pooled s None r with
  | Ok (_, r, a, p) => Ok (a, p, r)
  | Err _ => Err (ErrMsg "failed to read address and port")
  | Panic => Panic
  end.

Definition ParseHeader (r : Stream) : go (Destination * Stream) :=
  '(_, r) ← full_or r 56 "failed to read user hash";
  '(_, r) ← full_or r 2 "failed to read crlf";
  '(command, r) ← full_or r 1 "failed to read command";
  let network := if decide (command = [commandUDP]) then Network_UDP else Network_TCP in
  '(addr, port, r) ← read_dest socksParser r;
  '(_, r) ← full_or r 2 "failed to read crlf";
  Ok (mkDestination addr port network, r).

(** [writePacket]: the bytes of one packet. *)
Definition writePacket (payload : list byte) (dest : Destination) : go (list byte) :=
  b ← write_dest socksParser (Buffer.New pooled) (d_Address dest) (d_Port dest);
  b ← write_or b (put_be16 (u16 (len payload)));
  b ← write_or b crlf;
  b ← write_or b payload;
  Buffer.Bytes b.
(** [PacketWriter.WriteMultiBuffer]: a buffer's own destination, or the connection's. *)
Fixpoint PacketWriter_WriteMultiBuffer (target : Destination) (mb : mbuf) : go (list byte) :=
  match mb with
  | [] => Ok []
  | b :: mb =>
      bs ← Buffer.Bytes b;
      p ← writePacket bs (default target (Buffer.UDP b));
      rest ← PacketWriter_WriteMultiBuffer target mb;
      Ok (p ++ rest)
  end.

(** The payload, a buffer at a time. *)
Fixpoint read_payload (fuel : nat) (dest : Destination) (r : Stream) (remain : Z) (mb : mbuf) : go (mbuf * Stream) :=
  match fuel with
  | O => Ok (mb, r)
  | S fuel =>
      if decide (remain ≤ 0) then Ok (mb, r)
      else
        let length := Z.min remain Buffer.Size in
        '(b, r, n, err) ← Buffer.ReadFullFrom (Buffer.set_UDP (Buffer.New pooled) (Some dest)) r length;
        match err with
        | Some _ => Err (ErrMsg "failed to read payload")
        | None => read_payload fuel dest r (remain - n) (mb ++ [b])
        end
  end.
Definition PacketReader_ReadMultiBuffer (r : Stream) : go (mbuf * Stream) :=
  '(addr, port, r) ← read_dest socksParser r;
  '(lengthBuf, r) ← full_or r 2 "failed to read payload length";
  remain ← ok_or_panic (be16 lengthBuf);
  if decide (remain > maxLength) then Err (ErrMsg "oversize payload")
  else
    '(_, r) ← full_or r 2 "failed to read crlf";
    read_payload (S (Z.to_nat remain)) (UDPDestination addr port) r remain [].

End pooled.

(** *** Round trips *)

Lemma full_or_prefix x rest e n m : len x = n → full_or (mkStream (x ++ rest) e) n m = Ok (x, mkStream rest e).
Proof.
  intros <-. unfold full_or, read_full. cbn [sdata serr]. rewrite decide_True by (rewrite len_app; pose proof (len_nonneg rest); lia).
  by rewrite to_nat_len, take_app_length, drop_app_length.
Qed.

Section spec.
Context (pooled : list byte).

(** A destination the header carries. *)
Definition target_ok (d : Destination) : Prop :=
  (d_Network d = Network_TCP ∨ d_Network d = Network_UDP) ∧ is_u16 (d_Port d) ∧ ∃ a, d_Address d = Some a ∧ encodable a.

Lemma header_ok key target : len key = 56 → target_ok target → ∃ h, writeHeader pooled key target = Ok h ∧
  ∀ rest e, ParseHeader pooled (mkStream (h ++ rest) e) = Ok (target, mkStream rest e).
Proof.
  intros Hk (Hn & Hp & a & Ha & Henc). destruct target as [addr port network]. cbn [d_Network d_Port d_Address] in *. subst addr. unfold writeHeader. cbn [d_Network d_Port d_Address].
  destruct (write_or_fits (Buffer.New pooled) key 8136) as (b1 & -> & O1 & F1); [lia|rewrite Hk; apply fits_new|]. cbn [mbind go_bind].
  destruct (write_or_fits b1 crlf 8134) as (b2 & -> & O2 & F2); [lia|exact F1|]. cbn [mbind go_bind]. set (c := if decide (network = Network_UDP) then _ else _).
  destruct (byte_or_fits b2 c 8133) as (b3 & -> & O3 & F3); [lia|exact F2|]. cbn [mbind go_bind].
  destruct (write_dest_fits pooled socksParser b3 a port 7874) as (b4 & enc & -> & O4 & F4 & Hrd); [apply parsers_support; right; left|done|done|lia|exact F3|]. cbn [mbind go_bind].
  destruct (write_or_fits b4 crlf 7872) as (b5 & -> & O5 & F5); [lia|exact F4|]. cbn [mbind go_bind]. rewrite (bytes_fits b5 7872 F5). eexists. split; [reflexivity|].
  intros rest e. rewrite O5, O4, O3, O2, O1. change (output (Buffer.New pooled)) with (content (Buffer.New pooled)). rewrite Buffer.content_New. cbn [app]. rewrite <- !app_assoc.
  unfold ParseHeader. rewrite (full_or_prefix key) by done. cbn [mbind go_bind]. rewrite (full_or_prefix crlf) by done. cbn [mbind go_bind].
  rewrite (full_or_prefix [c]) by done. cbn [mbind go_bind]. unfold read_dest. destruct (Hrd None (crlf ++ rest) e) as (b' & ->); [apply Buffer.wf_New|cbn [default]; rewrite room_new; lia|].
  cbn [mbind go_bind]. rewrite (full_or_prefix crlf) by done. cbn [mbind go_bind]. do 3 f_equal. unfold c. destruct Hn as [-> | ->]; reflexivity.
Qed.

(** A packet: its destination, and at most what a buffer holds after the header. *)
Definition packet_ok (d : Destination) (p : list byte) : Prop := target_ok d ∧ d_Network d = Network_UDP ∧ 0 < len p ≤ 7900.

Lemma packet_written d p : packet_ok d p → ∃ w, writePacket pooled p d = Ok w ∧
  ∀ rest e, ∃ b, PacketReader_ReadMultiBuffer pooled (mkStream (w ++ rest) e) = Ok ([b], mkStream rest e) ∧ content b = p ∧ Buffer.UDP b = Some d.
Proof.
  intros ((Hn & Hp & a & Ha & Henc) & Hu & Hl). destruct d as [addr port network]. cbn [d_Network d_Port d_Address] in *. subst addr network. unfold writePacket. cbn [d_Network d_Port d_Address].
  destruct (write_dest_fits pooled socksParser (Buffer.New pooled) a port 7933) as (b1 & enc & -> & O1 & F1 & Hrd); [apply parsers_support; right; left|done|done|lia|apply fits_new|]. cbn [mbind go_bind].
  destruct (write_or_fits b1 (put_be16 (u16 (len p))) 7931) as (b2 & -> & O2 & F2); [lia|exact F1|]. cbn [mbind go_bind].
  destruct (write_or_fits b2 crlf 7929) as (b3 & -> & O3 & F3); [lia|exact F2|]. cbn [mbind go_bind].
  destruct (write_or_fits b3 p 0) as (b4 & -> & O4 & F4); [lia|eapply fits_le; [exact F3|lia]|]. cbn [mbind go_bind]. rewrite (bytes_fits b4 0 F4). eexists. split; [reflexivity|].
  intros rest e. rewrite O4, O3, O2, O1. change (output (Buffer.New pooled)) with (content (Buffer.New pooled)). rewrite Buffer.content_New. cbn [app]. rewrite <- !app_assoc.
  unfold PacketReader_ReadMultiBuffer, read_dest. destruct (Hrd None (put_be16 (u16 (len p)) ++ crlf ++ p ++ rest) e) as (b' & ->); [apply Buffer.wf_New|cbn [default]; rewrite room_new; lia|].
  cbn [mbind go_bind]. rewrite full_or_prefix by done. cbn [mbind go_bind]. assert (Hu : is_u16 (len p)) by (unfold is_u16; lia). rewrite (u16_small _ Hu).
  pose proof (be16_put (len p) [] Hu) as Hbe. rewrite app_nil_r in Hbe. rewrite Hbe. cbn [ok_or_panic mbind go_bind]. rewrite decide_False by (unfold maxLength; lia).
  rewrite full_or_prefix by done. cbn [mbind go_bind read_payload]. rewrite decide_False by lia. rewrite Z.min_l by (unfold Buffer.Size; lia).
  set (nb := Buffer.set_UDP (Buffer.New pooled) _). assert (Hnb : wf nb ∧ content nb = [] ∧ Buffer.room nb = 8192).
  { split; [exact (Buffer.wf_New pooled)|]. split; [exact (Buffer.content_New pooled)|exact (room_new pooled)]. }
  destruct Hnb as (Hw & Hcn & Hrn). destruct (Buffer.ReadFullFrom_spec nb (mkStream (p ++ rest) e) (len p) Hw) as (b & -> & Hb & Hcb & _ & _ & Hub); [lia|].
  assert (Hrf : read_full (mkStream (p ++ rest) e) (len p) = (p, None, mkStream rest e)).
  { unfold read_full. cbn [sdata serr]. rewrite decide_True by (rewrite len_app; pose proof (len_nonneg rest); lia). by rewrite to_nat_len, take_app_length, drop_app_length. }
  rewrite Hrf in *. cbn [fst snd mbind go_bind] in *. rewrite Z.sub_diag. exists b. split; [|rewrite Hcb, Hcn; done].
  destruct (Z.to_nat (len p)); cbn [read_payload]; [done|]. by rewrite decide_True by lia.
Qed.

(** Packets one after the other. *)
Definition packet_of (target : Destination) (b : Buffer.t) : Destination * list byte := (default target (Buffer.UDP b), content b).
Fixpoint read_packets (n : nat) (r : Stream) : go (list (Destination * list byte) * Stream) :=
  match n with
  | O => Ok ([], r)
  | S n => '(mb, r) ← PacketReader_ReadMultiBuffer pooled r;
           '(ps, r) ← read_packets n r;
           Ok ((packet_of (mkDestination None 0 Network_Unknown) <$> mb) ++ ps, r)
  end.
Lemma packets_ok target mb : Forall wf mb → Forall (λ b, let '(d, p) := packet_of target b in packet_ok d p) mb →
  ∃ w, PacketWriter_WriteMultiBuffer pooled target mb = Ok w ∧ ∀ rest e, read_packets (length mb) (mkStream (w ++ rest) e) = Ok (packet_of target <$> mb, mkStream rest e).
Proof.
  induction mb as [|b mb IH]; intros Hw Hp; cbn [PacketWriter_WriteMultiBuffer]; [by exists []|].
  apply Forall_cons_1 in Hw as [Hb Hw]. apply Forall_cons_1 in Hp as [Hpb Hp]. cbn in Hpb. rewrite Buffer.Bytes_wf by done. cbn [mbind go_bind].
  destruct (packet_written _ _ Hpb) as (p & -> & Hr). cbn [mbind go_bind]. destruct (IH Hw Hp) as (w & -> & Hr'). cbn [mbind go_bind]. exists (p ++ w). split; [done|].
  intros rest e. cbn [length read_packets]. rewrite <- app_assoc. destruct (Hr (w ++ rest) e) as (b' & -> & Hc' & Hu'). cbn [mbind go_bind]. rewrite Hr'. cbn [mbind go_bind].
  cbn [fmap list_fmap app]. unfold packet_of at 1 3. rewrite Hu', Hc'. done.
Qed.

(** A Trojan request header is read as it was written, and the packets of a UDP connection come back
    one by one with their destinations and payloads, whatever follows on the connection. *)
Lemma trojan_roundtrip key target mb : len key = 56 → target_ok target → Forall wf mb → Forall (λ b, let '(d, p) := packet_of target b in packet_ok d p) mb →
  ∃ h w, writeHeader pooled key target = Ok h ∧ PacketWriter_WriteMultiBuffer pooled target mb = Ok w ∧
    ∀ rest e, ∃ r, ParseHeader pooled (mkStream (h ++ w ++ rest) e) = Ok (target, r) ∧
      read_packets (length mb) r = Ok (packet_of target <$> mb, mkStream rest e).
Proof.
  intros Hk Ht Hw Hp. destruct (header_ok key target Hk Ht) as (h & Hh & Hr). destruct (packets_ok target mb Hw Hp) as (w & Hw' & Hr').
  exists h, w. split; [done|]. split; [done|]. intros rest e. exists (mkStream (w ++ rest) e). by rewrite Hr, Hr'.
Qed.
End spec.

Definition demo_target : Destination := mkDestination (Some (domainAddress (s2b "example.com"))) 443 Network_UDP.
Lemma sample_target_ok : target_ok demo_target.
Proof.
  split; [by right|]. split; [unfold is_u16; cbn; lia|]. eexists. split; [reflexivity|]. split; [done|]. split; [vm_compute; split; discriminate|]. split; [reflexivity|]. discriminate.
Qed.
Lemma trojan_roundtrip_witness : ∃ h w, writeHeader [] (replicate 56 x61) demo_target = Ok h ∧ PacketWriter_WriteMultiBuffer [] demo_target [Buffer.FromBytes [x68; x69]] = Ok w.
Proof.
  destruct (trojan_roundtrip [] (replicate 56 x61) demo_target [Buffer.FromBytes [x68; x69]]) as (h & w & H1 & H2 & _).
  - reflexivity.
  - exact sample_target_ok.
  - apply Forall_singleton. unfold wf. vm_compute. repeat split; discriminate.
  - apply Forall_singleton. split; [exact sample_target_ok|]. vm_compute. repeat split; discriminate.
  - exists h, w. split; [exact H1|exact H2].
Defined.

End Trojan.

(** ** VLESS *)
Module Vless.

Definition RequestCommandTCP : byte := x01.
Definition RequestCommandUDP : byte := x02.
Definition RequestCommandMux : byte := x03.
Definition RequestCommandRvs : byte := x04.

Definition XRV : list byte := s2b "xtls-rprx-vision".

(** The user is the sixteen bytes of the account's ID. *)
Record RequestHeader := mkRequest { Version : byte; Command : byte; rh_Port : Port; rh_Address : option Address; rh_User : list byte }.
Record Addons := mkAddons { Flow : list byte; Seed : list byte }.
Definition no_addons : Addons := mkAddons [] [].

Section vless.
Context (pooled : list byte) (Marshal : Addons → list byte) (Unmarshal : list byte → option Addons).

Definition EncodeHeaderAddons (b : Buffer.t) (addons : Addons) : go Buffer.t :=
  if decide (Flow addons = XRV) then
    let bytes := Marshal addons in
    b ← byte_or b (byte_of_Z (len bytes)); write_or b bytes
  else byte_or b x00.

(** [DecodeHeaderAddons] clears the buffer first. *)
Definition DecodeHeaderAddons (b : Buffer.t) (r : Stream) : go (Addons * Buffer.t * Stream) :=
  '(b, r) ← read_or (Buffer.Clear b) r 1;
  l ← Buffer.Byte b 0;
  let length := byte_to_Z l in
  if decide (length ≠ 0) then
    '(b, r) ← read_or (Buffer.Clear b) r length;
    bs ← Buffer.Bytes b;
    match Unmarshal bs with
    | None => Err (ErrMsg "failed to unmarshal addons protobuf value")
    | Some a => Ok (a, b, r)
    end
  else Ok (no_addons, b, r).

Definition EncodeRequestHeader (request : RequestHeader) (addons : Addons) : go (list byte) :=
  b ← byte_or (Buffer.New pooled) (Version request);
  b ← write_or b (rh_User request);
  b ← EncodeHeaderAddons b addons;
  b ← byte_or b (Command request);
  b ← (if decide (Command request ≠ RequestCommandMux ∧ Command request ≠ RequestCommandRvs)
       then write_dest muxParser b (rh_Address request) (rh_Port request) else Ok b);
  Buffer.Bytes b.

(** What [DecodeRequestHeader] returns: the header, the addons and the rest of the stream, or an error and
    whether the connection may fall back. *)
Inductive Decoded := DOk (id : list byte) (request : RequestHeader) (addons : Addons) (r : Stream) | DErr (isfb : bool) (e : GoError).

Definition or_err {A} (m : go A) (isfb : bool) (k : A → go Decoded) : go Decoded :=
  match m with Ok a => k a | Err e => Ok (DErr isfb e) | Panic => Panic end.

(** With a fallback the first buffer has been read from the connection and is shared with the reader:
    what [Advance] takes from it the reader does not see. *)
Definition stream_of (first : option Buffer.t) (r : Stream) : Stream :=
  match first with Some f => mkStream (content f ++ sdata r) (serr r) | None => r end.

Section get.
(** [validator.Get]. *)
Context (Get : list byte → option (list byte)).

(** The address of a command. *)
Definition decode_command (v : byte) (id user : list byte) (addons : Addons) (b : Buffer.t) (r : Stream) (command : byte) : go Decoded :=
  let done addr port r :=
    match addr with
    | None => Ok (DErr false (ErrMsg "invalid request address"))
    | Some a => Ok (DOk id (mkRequest v command port (Some a) user) addons r)
    end in
  if decide (command = RequestCommandMux) then done (Some (DomainAddress (s2b "v1.mux.cool"))) 0 r
  else if decide (command = RequestCommandRvs) then done (Some (DomainAddress (s2b "v1.rvs.cool"))) 0 r
  else if decide (command = RequestCommandTCP ∨ command = RequestCommandUDP) then
    match ReadAddressPort pooled muxParser (Some b) r with
    | Ok (_, r, addr, port) => done addr port r
    | Err _ => done None 0 r
    | Panic => Panic
    end
  else done None 0 r.
(** After the user is known. *)
Definition decode_body (v : byte) (id user : list byte) (b : Buffer.t) (r : Stream) : go Decoded :=
  or_err (DecodeHeaderAddons b r) false (λ '(addons, b, r),
  or_err (read_or (Buffer.Clear b) r 1) false (λ '(b, r),
  command ← Buffer.Byte b 0;
  decode_command v id user addons b r command)).

Definition DecodeRequestHeader (first : option Buffer.t) (r : Stream) : go Decoded :=
  let isfb := match first with Some _ => true | None => false end in
  let b := Buffer.New pooled in
  let version := match first with
    | Some f => v ← Buffer.Byte f 0; Ok (v, b, r)
    | None => '(b, r) ← read_or b r 1; v ← Buffer.Byte b 0; Ok (v, b, r)
    end in
  or_err version false (λ '(v, b, r),
  if decide (v ≠ x00) then Ok (DErr isfb (ErrMsg "invalid request version"))
  else
    let id := match first with
      | Some f => id ← Buffer.BytesRange f 1 17; Ok (id, b, r)
      | None => '(b, r) ← read_or (Buffer.Clear b) r 16; id ← Buffer.Bytes b; Ok (id, b, r)
      end in
    or_err id false (λ '(id, b, r),
    match Get id with
    | None => Ok (DErr isfb (ErrMsg "invalid request user id: "))
    | Some user =>
        decode_body v id user b (match first with Some f => stream_of (Some (Buffer.Advance f 17)) r | None => r end)
    end)).
End get.

Definition EncodeResponseHeader (request : RequestHeader) (addons : Addons) : go (list byte) :=
  b ← byte_or (Buffer.New pooled) (Version request);
  b ← EncodeHeaderAddons b addons;
  Buffer.Bytes b.
Definition DecodeResponseHeader (r : Stream) (request : RequestHeader) : go (Addons * Stream) :=
  '(b, r) ← read_or (Buffer.New pooled) r 1;
  v ← Buffer.Byte b 0;
  if decide (v ≠ Version request) then Err (ErrMsg "unexpected response version. Expecting ")
  else '(addons, _, r) ← DecodeHeaderAddons b r; Ok (addons, r).

(** *** Packets with a length *)

(** [MultiLengthPacketWriter]: one packet per buffer; an empty or a full one is skipped. *)
Fixpoint MultiLength_WriteMultiBuffer (mb : mbuf) : go (list byte) :=
  match mb with
  | [] => Ok []
  | b :: mb =>
      let length := Buffer.Len b in
      if decide (length = 0 ∨ length + 2 > Buffer.Size) then MultiLength_WriteMultiBuffer mb
      else
        bs ← Buffer.Bytes b;
        let packet := eb ← byte_or (Buffer.New pooled) (byte_of_Z (Z.shiftr length 8)); eb ← byte_or eb (byte_of_Z length); eb ← write_or eb bs; Buffer.Bytes eb in
        match packet with
        | Ok p => rest ← MultiLength_WriteMultiBuffer mb; Ok (p ++ rest)
        | Err _ => MultiLength_WriteMultiBuffer mb
        | Panic => Panic
        end
  end.
(** [LengthPacketReader.ReadMultiBuffer]. *)
Fixpoint read_parts (fuel : nat) (r : Stream) (length : Z) (mb : mbuf) : go (mbuf * Stream) :=
  match fuel with
  | O => Ok (mb, r)
  | S fuel =>
      if decide (length ≤ 0) then Ok (mb, r)
      else
        let size := Z.min length Buffer.Size in
        '(b, r, _, err) ← Buffer.ReadFullFrom (Buffer.New pooled) r size;
        match err with
        | Some _ => Err (ErrMsg "failed to read packet payload")
        | None => read_parts fuel r (length - size) (mb ++ [b])
        end
  end.
Definition Length_ReadMultiBuffer (r : Stream) : go (mbuf * Stream) :=
  match read_full r 2 with
  | (cache, None, r) =>
      length ← ok_or_panic (be16 cache); read_parts (S (Z.to_nat length)) r length []
  | (_, Some _, _) => Err (ErrMsg "failed to read packet length")
  end.
End vless.

(** *** Round trips *)

Section spec.
Context (pooled : list byte) (Marshal : Addons → list byte) (Unmarshal : list byte → option Addons).

(** What protobuf documents, and that the addons fit the length byte. *)
Definition addons_ok (a : Addons) : Prop := Flow a = XRV → Unmarshal (Marshal a) = Some a ∧ 0 < len (Marshal a) ≤ 255.
(** Without the flow the addons are not sent. *)
Definition sent_addons (a : Addons) : Addons := if decide (Flow a = XRV) then a else no_addons.

Lemma read_single b (c : byte) rest e : wf b → 1 ≤ Buffer.room b →
  ∃ b', read_or (Buffer.Clear b) (mkStream (c :: rest) e) 1 = Ok (b', mkStream rest e) ∧ wf b' ∧ content b' = [c] ∧ Buffer.room b - 1 ≤ Buffer.room b'.
Proof.
  intros Hb Hr. destruct (clear_room b Hb) as (Hw & Hc & Hr'). destruct (read_or_spec (Buffer.Clear b) [c] rest e 1 Hw eq_refl) as (b' & E & Hb' & Hc' & Hr''); [lia|].
  exists b'. change ([c] ++ rest) with (c :: rest) in E. split; [done|]. split; [done|]. split; [by rewrite Hc', Hc|lia].
Qed.

Lemma addons_roundtrip (b : Buffer.t) a n : addons_ok a → 0 ≤ n → fits b (256 + n) →
  ∃ b' enc, EncodeHeaderAddons Marshal b a = Ok b' ∧ output b' = output b ++ enc ∧ fits b' n ∧
    ∀ buf rest e, wf buf → 256 ≤ Buffer.room buf → ∃ buf', DecodeHeaderAddons Unmarshal buf (mkStream (enc ++ rest) e) = Ok (sent_addons a, buf', mkStream rest e) ∧
      wf buf' ∧ Buffer.room buf - 256 ≤ Buffer.room buf'.
Proof.
  intros Ha Hn Hf. unfold EncodeHeaderAddons, sent_addons. destruct (decide (Flow a = XRV)) as [HX|HX].
  - destruct (Ha HX) as [Hu Hl]. destruct (byte_or_fits b (byte_of_Z (len (Marshal a))) (255 + n)) as (b1 & -> & O1 & F1); [lia|replace (1 + (255 + n)) with (256 + n) by lia; exact Hf|]. cbn [mbind go_bind].
    destruct (write_or_fits b1 (Marshal a) n) as (b2 & -> & O2 & F2); [lia|eapply fits_le; [exact F1|lia]|]. exists b2, (byte_of_Z (len (Marshal a)) :: Marshal a).
    split; [done|]. split; [by rewrite O2, O1, <- app_assoc|]. split; [done|]. intros buf rest e Hb Hr. unfold DecodeHeaderAddons. cbn [app].
    destruct (read_single buf (byte_of_Z (len (Marshal a))) (Marshal a ++ rest) e Hb ltac:(lia)) as (c1 & -> & Hc1 & Hcc & Hr1). cbn [mbind go_bind]. rewrite (Byte_single c1 _ Hc1 Hcc). cbn [mbind go_bind].
    rewrite byte_to_of_Z_small by (unfold is_u8; lia). rewrite decide_True by lia. destruct (clear_room c1 Hc1) as (Hw & Hcl & Hr').
    destruct (read_or_spec (Buffer.Clear c1) (Marshal a) rest e (len (Marshal a)) Hw eq_refl) as (c2 & -> & Hc2 & Hcc2 & Hr2); [lia|]. cbn [mbind go_bind].
    rewrite Buffer.Bytes_wf by done. cbn [mbind go_bind]. rewrite Hcc2, Hcl. cbn [app]. rewrite Hu. exists c2. split; [done|]. split; [done|lia].
  - destruct (byte_or_fits b x00 (255 + n)) as (b1 & -> & O1 & F1); [lia|replace (1 + (255 + n)) with (256 + n) by lia; exact Hf|]. exists b1, [x00].
    split; [done|]. split; [done|]. split; [eapply fits_le; [exact F1|lia]|]. intros buf rest e Hb Hr. unfold DecodeHeaderAddons. cbn [app].
    destruct (read_single buf x00 rest e Hb ltac:(lia)) as (c1 & -> & Hc1 & Hcc & Hr1). cbn [mbind go_bind]. rewrite (Byte_single c1 _ Hc1 Hcc). cbn [mbind go_bind].
    change (byte_to_Z x00) with 0. rewrite decide_False by lia. exists c1. split; [done|]. split; [done|lia].
Qed.

(** A request of the protocol: a command that is known, an address where it needs one. *)
Definition request_ok (q : RequestHeader) : Prop :=
  Version q = x00 ∧ len (rh_User q) = 16 ∧
  (Command q = RequestCommandTCP ∨ Command q = RequestCommandUDP ∨ Command q = RequestCommandMux ∨ Command q = RequestCommandRvs) ∧
  is_u16 (rh_Port q) ∧ ∃ a, rh_Address q = Some a ∧ encodable a.
(** The server's view of it: a fixed domain for mux and reverse connections. *)
Definition received (q : RequestHeader) (user : list byte) : RequestHeader :=
  if decide (Command q = RequestCommandMux) then mkRequest (Version q) (Command q) 0 (Some (DomainAddress (s2b "v1.mux.cool"))) user
  else if decide (Command q = RequestCommandRvs) then mkRequest (Version q) (Command q) 0 (Some (DomainAddress (s2b "v1.rvs.cool"))) user
  else mkRequest (Version q) (Command q) (rh_Port q) (rh_Address q) user.

(** The header is the version, the user and a body that [decode_body] understands. *)
Lemma header_written q addons : request_ok q → addons_ok addons →
  ∃ body, EncodeRequestHeader pooled Marshal q addons = Ok ([x00] ++ rh_User q ++ body) ∧
    ∀ buf user rest e, wf buf → 4096 ≤ Buffer.room buf →
      decode_body pooled Unmarshal x00 (rh_User q) user buf (mkStream (body ++ rest) e) = Ok (DOk (rh_User q) (received q user) (sent_addons addons) (mkStream rest e)).
Proof.
  intros (Hv & Hu & Hcmd & Hp & a & Ha & Henc) Hadd. unfold EncodeRequestHeader. rewrite Hv.
  destruct (byte_or_fits (Buffer.New pooled) x00 8191) as (b1 & -> & O1 & F1); [lia|apply fits_new|]. cbn [mbind go_bind].
  destruct (write_or_fits b1 (rh_User q) 8175) as (b2 & -> & O2 & F2); [lia|rewrite Hu; exact F1|]. cbn [mbind go_bind].
  destruct (addons_roundtrip b2 addons 7919 Hadd) as (b3 & enc & -> & O3 & F3 & Hda); [lia|exact F2|]. cbn [mbind go_bind].
  destruct (byte_or_fits b3 (Command q) 7918) as (b4 & -> & O4 & F4); [lia|exact F3|]. cbn [mbind go_bind].
  assert (Hout : output b4 = [x00] ++ rh_User q ++ enc ++ [Command q]).
  { rewrite O4, O3, O2, O1. change (output (Buffer.New pooled)) with (content (Buffer.New pooled)). rewrite Buffer.content_New. cbn [app]. by rewrite <- !app_assoc. }
  assert (Hdec : ∀ buf user rest e, wf buf → 4096 ≤ Buffer.room buf → ∃ buf', wf buf' ∧ 259 ≤ Buffer.room buf' ∧
    decode_body pooled Unmarshal x00 (rh_User q) user buf (mkStream (enc ++ Command q :: rest) e) = decode_command pooled x00 (rh_User q) user (sent_addons addons) buf' (mkStream rest e) (Command q)).
  { intros buf user rest e Hb Hr. unfold decode_body. destruct (Hda buf (Command q :: rest) e Hb ltac:(lia)) as (c1 & -> & Hc1 & Hr1). cbn [or_err].
    destruct (read_single c1 (Command q) rest e Hc1 ltac:(lia)) as (c2 & -> & Hc2 & Hcc & Hr2). cbn [or_err]. rewrite (Byte_single c2 _ Hc2 Hcc). exists c2. split; [done|]. split; [lia|done]. }
  unfold received. rewrite Hv. destruct (decide (Command q ≠ RequestCommandMux ∧ Command q ≠ RequestCommandRvs)) as [[Hm Hs]|Hms].
  - rewrite Ha. destruct (write_dest_fits pooled muxParser b4 a (rh_Port q) 0) as (b5 & enc' & -> & O5 & F5 & Hrd); [apply parsers_support; left|done|done|lia|eapply fits_le; [exact F4|lia]|].
    cbn [mbind go_bind]. rewrite (bytes_fits b5 0 F5), O5, Hout, <- !app_assoc. eexists. split; [reflexivity|]. intros buf user rest e Hb Hr. rewrite <- !app_assoc. cbn [app].
    destruct (Hdec buf user (enc' ++ rest) e Hb Hr) as (buf' & Hb' & Hr' & ->). unfold decode_command. rewrite !(decide_False (P := Command q = RequestCommandMux)), !(decide_False (P := Command q = RequestCommandRvs)) by done.
    rewrite decide_True by tauto. destruct (Hrd (Some buf') rest e Hb' Hr') as (b' & ->). done.
  - cbn [mbind go_bind]. rewrite (bytes_fits b4 7918 F4), Hout. eexists. split; [reflexivity|]. intros buf user rest e Hb Hr. rewrite <- !app_assoc. cbn [app].
    destruct (Hdec buf user rest e Hb Hr) as (buf' & Hb' & Hr' & ->). unfold decode_command. destruct (decide (Command q = RequestCommandMux)); [done|]. destruct (decide (Command q = RequestCommandRvs)); [done|]. tauto.
Qed.
(** C28: a VLESS request header is read as it was written, with the addons and the address, port and
    command, whether it comes over the connection or has been read ahead into a buffer for a
    fallback, cut there anywhere after the eighteenth byte; the bytes after it stay for the body. *)
Theorem vless_request_roundtrip Get q addons user : request_ok q → addons_ok addons → Get (rh_User q) = Some user →
  ∃ hdr, EncodeRequestHeader pooled Marshal q addons = Ok hdr ∧
    (∀ rest e, DecodeRequestHeader pooled Unmarshal Get None (mkStream (hdr ++ rest) e) = Ok (DOk (rh_User q) (received q user) (sent_addons addons) (mkStream rest e))) ∧
    (∀ f r rest, wf f → 18 ≤ len (content f) → content f ++ sdata r = hdr ++ rest →
      DecodeRequestHeader pooled Unmarshal Get (Some f) r = Ok (DOk (rh_User q) (received q user) (sent_addons addons) (mkStream rest (serr r)))).
Proof.
  intros Hq Ha Hget. destruct (header_written q addons Hq Ha) as (body & Henc & Hdec). pose proof Hq as (Hv & Hu & _). exists ([x00] ++ rh_User q ++ body). split; [done|].
  assert (Hnew : wf (Buffer.New pooled) ∧ Buffer.room (Buffer.New pooled) = 8192) by (split; [apply Buffer.wf_New|apply room_new]). destruct Hnew as [Hwn Hrn]. split.
  - intros rest e. unfold DecodeRequestHeader. cbn [app].
    destruct (read_or_spec (Buffer.New pooled) [x00] ((rh_User q ++ body) ++ rest) e 1 Hwn eq_refl) as (b1 & E1 & Hb1 & Hc1 & Hr1); [lia|]. cbn [app] in E1. rewrite E1. cbn [mbind go_bind].
    rewrite Buffer.content_New in Hc1. rewrite (Byte_single b1 x00 Hb1 Hc1). cbn [mbind go_bind or_err]. rewrite decide_False by (by intros ?).
    destruct (clear_room b1 Hb1) as (Hw & Hcl & Hr'). rewrite <- app_assoc. destruct (read_or_spec (Buffer.Clear b1) (rh_User q) (body ++ rest) e 16 Hw Hu) as (b2 & -> & Hb2 & Hc2 & Hr2); [lia|].
    cbn [mbind go_bind]. rewrite Buffer.Bytes_wf by done. cbn [mbind go_bind or_err]. rewrite Hc2, Hcl. cbn [app]. rewrite Hget. apply Hdec; [done|lia].
  - intros f r rest Hf Hl Hsplit. assert (Hpre : take 17 (content f) = x00 :: rh_User q ∧ drop 17 (content f) ++ sdata r = body ++ rest).
    { assert (H17 : length (x00 :: rh_User q) = 17%nat) by (cbn [length]; unfold len in Hu; lia). rewrite <- (take_drop 17 (content f)), <- app_assoc in Hsplit.
      change ([x00] ++ rh_User q ++ body) with ((x00 :: rh_User q) ++ body) in Hsplit. rewrite <- app_assoc in Hsplit. apply app_inj_1 in Hsplit; [done|]. rewrite length_take. unfold len in Hl. lia. }
    destruct Hpre as [H17 Hrest]. unfold DecodeRequestHeader. destruct (content f) as [|c l] eqn:Ec; [done|]. cbn [take] in H17. injection H17 as -> Hid.
    rewrite (Byte_head f x00 l Hf Ec). cbn [mbind go_bind or_err]. rewrite decide_False by (by intros ?). rewrite BytesRange_mid by (rewrite ?Ec; done || lia). cbn [mbind go_bind or_err].
    rewrite Ec. change (take (Z.to_nat (17 - 1)) (drop (Z.to_nat 1) (x00 :: l))) with (take 16 l). rewrite Hid, Hget.
    assert (Hw := Hf). unfold wf in Hw. destruct (Buffer.Advance_spec f 17 Hf) as (_ & Hca & _); [lia| |].
    { pose proof (Buffer.len_content f Hf) as Hlc. rewrite Ec in Hlc. lia. }
    unfold stream_of. rewrite Hca, Ec. change (Z.to_nat 17) with 17%nat. rewrite Hrest. apply Hdec; [done|lia].
Qed.

(** The response header. *)
Lemma response_roundtrip q addons : addons_ok addons → ∃ hdr, EncodeResponseHeader pooled Marshal q addons = Ok hdr ∧
  ∀ rest e, DecodeResponseHeader pooled Unmarshal (mkStream (hdr ++ rest) e) q = Ok (sent_addons addons, mkStream rest e).
Proof.
  intros Ha. unfold EncodeResponseHeader. destruct (byte_or_fits (Buffer.New pooled) (Version q) 8191) as (b1 & -> & O1 & F1); [lia|apply fits_new|]. cbn [mbind go_bind].
  destruct (addons_roundtrip b1 addons 7935 Ha) as (b2 & enc & -> & O2 & F2 & Hda); [lia|exact F1|]. cbn [mbind go_bind]. rewrite (bytes_fits b2 _ F2). eexists. split; [reflexivity|].
  intros rest e. rewrite O2, O1. change (output (Buffer.New pooled)) with (content (Buffer.New pooled)). rewrite Buffer.content_New. cbn [app]. unfold DecodeResponseHeader.
  destruct (read_or_spec (Buffer.New pooled) [Version q] (enc ++ rest) e 1 (Buffer.wf_New _) eq_refl) as (c1 & E1 & Hc1 & Hcc & Hr1); [rewrite room_new; lia|]. cbn [app] in E1. rewrite E1. cbn [mbind go_bind].
  rewrite Buffer.content_New in Hcc. rewrite (Byte_single c1 _ Hc1 Hcc). cbn [mbind go_bind]. rewrite decide_False by (by intros ?). rewrite room_new in Hr1.
  destruct (Hda c1 rest e Hc1 ltac:(lia)) as (c2 & -> & _). done.
Qed.

(** One packet of a UDP connection: the two bytes of the length and the payload. *)
Lemma length_packet b : wf b → 0 < len (content b) ≤ 8190 → ∃ w, MultiLength_WriteMultiBuffer pooled [b] = Ok w ∧
  ∀ rest e, ∃ b', Length_ReadMultiBuffer pooled (mkStream (w ++ rest) e) = Ok ([b'], mkStream rest e) ∧ content b' = content b.
Proof.
  intros Hb Hl. cbn [MultiLength_WriteMultiBuffer]. rewrite Buffer.Len_wf by done. set (n := len (content b)) in *. rewrite decide_False by (unfold Buffer.Size; lia).
  rewrite Buffer.Bytes_wf by done. cbn [mbind go_bind]. destruct (byte_or_fits (Buffer.New pooled) (byte_of_Z (Z.shiftr n 8)) 8191) as (b1 & -> & O1 & F1); [lia|apply fits_new|]. cbn [mbind go_bind].
  destruct (byte_or_fits b1 (byte_of_Z n) 8190) as (b2 & -> & O2 & F2); [lia|exact F1|]. cbn [mbind go_bind].
  destruct (write_or_fits b2 (content b) 0) as (b3 & -> & O3 & F3); [lia|eapply fits_le; [exact F2|unfold n in Hl; lia]|]. cbn [mbind go_bind]. rewrite (bytes_fits b3 0 F3). eexists. split; [reflexivity|].
  intros rest e. rewrite app_nil_r, O3, O2, O1. change (output (Buffer.New pooled)) with (content (Buffer.New pooled)). rewrite Buffer.content_New. cbn [app].
  change (byte_of_Z (Z.shiftr n 8) :: byte_of_Z n :: content b ++ rest) with (put_be16 n ++ content b ++ rest). unfold Length_ReadMultiBuffer, read_full. cbn [sdata serr].
  rewrite decide_True by (rewrite !len_app; change (len (put_be16 n)) with 2; pose proof (len_nonneg rest); lia). change (Z.to_nat 2) with (length (put_be16 n)). rewrite take_app_length, drop_app_length.
  assert (Hu : is_u16 n) by (unfold is_u16; lia). pose proof (be16_put n [] Hu) as Hbe. rewrite app_nil_r in Hbe. rewrite Hbe. cbn [ok_or_panic mbind go_bind read_parts].
  rewrite decide_False by lia. rewrite Z.min_l by (unfold Buffer.Size; lia).
  destruct (Buffer.ReadFullFrom_spec (Buffer.New pooled) (mkStream (content b ++ rest) e) n (Buffer.wf_New _)) as (c & -> & Hc & Hcc & _); [rewrite room_new; lia|].
  assert (Hrf : read_full (mkStream (content b ++ rest) e) n = (content b, None, mkStream rest e)).
  { unfold read_full, n. cbn [sdata serr]. rewrite decide_True by (rewrite len_app; pose proof (len_nonneg rest); lia). by rewrite to_nat_len, take_app_length, drop_app_length. }
  rewrite Hrf in *. cbn [fst snd mbind go_bind] in *. rewrite Z.sub_diag. exists c. split; [|by rewrite Hcc, Buffer.content_New].
  destruct (Z.to_nat n); cbn [read_parts]; [done|]. by rewrite decide_True by lia.
Qed.

End spec.

(** *** The validator *)

Record MemoryUser := mkUser { Email : list byte; ID : list byte }.
Definition ProcessUUID (id : list byte) : list byte := <[7%nat := x00]> (<[6%nat := x00]> id).
Record MemoryValidator := mkValidator { v_email : gmap (list byte) MemoryUser; v_users : gmap (list byte) MemoryUser }.

Section validator.
Context (strings_ToLower : list byte → list byte).
Definition Add (v : MemoryValidator) (u : MemoryUser) : go MemoryValidator :=
  let store v := Ok (mkValidator (v_email v) (<[ProcessUUID (ID u) := u]> (v_users v))) in
  if decide (Email u ≠ []) then
    match v_email v !! strings_ToLower (Email u) with
    | Some _ => Err (ErrMsg " already exists.")
    | None => store (mkValidator (<[strings_ToLower (Email u) := u]> (v_email v)) (v_users v))
    end
  else store v.
Definition Del (v : MemoryValidator) (e : list byte) : go MemoryValidator :=
  if decide (e = []) then Err (ErrMsg "Email must not be empty.")
  else
    let le := strings_ToLower e in
    match v_email v !! le with
    | None => Err (ErrMsg " not found.")
    | Some u => Ok (mkValidator (delete le (v_email v)) (delete (ProcessUUID (ID u)) (v_users v)))
    end.
Definition Get (v : MemoryValidator) (id : list byte) : option MemoryUser := v_users v !! ProcessUUID id.
Definition GetByEmail (v : MemoryValidator) (email : list byte) : option MemoryUser := v_email v !! strings_ToLower email.
End validator.

(** A known user is found by any ID that differs in the seventh and eighth byte only. *)
Lemma get_added low v u v' id : Add low v u = Ok v' → ProcessUUID id = ProcessUUID (ID u) → Get v' id = Some u.
Proof.
  unfold Add, Get. intros H Hid. destruct (decide _); [destruct (v_email v !! _); [done|]|]; injection H as <-; cbn [v_users]; rewrite Hid; apply lookup_insert_eq.
Qed.

(** Two users may have one ID: the second takes the place of the first, and deleting the first by
    its email takes the second's ID away. *)
Lemma shared_id_deleted (low : list byte → list byte) id : low (s2b "a") ≠ low (s2b "b") →
  let v0 := mkValidator ∅ ∅ in
  ∃ v1 v2 v3, Add low v0 (mkUser (s2b "a") id) = Ok v1 ∧ Add low v1 (mkUser (s2b "b") id) = Ok v2 ∧ Get v2 id = Some (mkUser (s2b "b") id) ∧
    Del low v2 (s2b "a") = Ok v3 ∧ Get v3 id = None ∧ GetByEmail low v3 (s2b "b") = Some (mkUser (s2b "b") id).
Proof.
  intros Hne v0. unfold Add, Del, Get, GetByEmail. cbn [Email ID v_email v_users v0]. rewrite !decide_True by done. rewrite lookup_empty. eexists _, _, _. split; [reflexivity|].
  cbn [v_email v_users]. rewrite lookup_insert_ne, lookup_empty by done. split; [reflexivity|]. cbn [v_email v_users]. rewrite lookup_insert_eq. split; [done|].
  rewrite decide_False by done. rewrite lookup_insert_ne, lookup_insert_eq by done. split; [reflexivity|]. cbn [v_email v_users ID].
  rewrite lookup_delete_eq, lookup_delete_ne, lookup_insert_eq by done. done.
Qed.

Definition demo_request : RequestHeader := mkRequest x00 RequestCommandTCP 443 (Some (domainAddress (s2b "example.com"))) (replicate 16 x11).
Lemma vless_request_roundtrip_witness : ∃ hdr, EncodeRequestHeader [] Flow demo_request (mkAddons XRV []) = Ok hdr ∧
  ∀ rest e, DecodeRequestHeader [] (λ bs, Some (mkAddons bs [])) (λ _, Some []) None (mkStream (hdr ++ rest) e) =
    Ok (DOk (replicate 16 x11) (mkRequest x00 RequestCommandTCP 443 (Some (domainAddress (s2b "example.com"))) []) (mkAddons XRV []) (mkStream rest e)).
Proof.
  destruct (vless_request_roundtrip [] Flow (λ bs, Some (mkAddons bs [])) (λ _, Some []) demo_request (mkAddons XRV []) []) as (hdr & H1 & H2 & _).
  - split; [reflexivity|]. split; [reflexivity|]. split; [by left|]. split; [unfold is_u16; cbn; lia|]. eexists. split; [reflexivity|]. split; [done|].
    split; [vm_compute; split; discriminate|]. split; [reflexivity|]. discriminate.
  - intros _. split; [reflexivity|]. vm_compute. split; [reflexivity|discriminate].
  - reflexivity.
  - exists hdr. split; [exact H1|exact H2].
Defined.

End Vless.
