(* ===== verification/DnsCache.v ===== *)
(** * DNS answers and their cache

    Models [app/dns/dnscommon.go] (records and responses), [cache_controller.go] (the cache with
    its cleaning and its migration to a smaller map), [nameserver_cached.go] (queries over the
    cache), [nameserver_udp.go] (pending requests) and [common/signal/pubsub]. Time is a number
    of nanoseconds; [dnsmessage], which takes messages apart, is an argument. The critical
    sections of the cache are the steps of a relation; its records are only changed under the
    lock, by the cleaning, which never runs while two maps share them, so they are values. *)

From S2P Require Import Prelude Net StrMatcher IpMatcher.

#[local] Open Scope Z_scope.
#[local] Set Warnings "-register-all".

(** ** Errors *)

(** Errors that are compared: [Other] is an error of another package, by its identity, and
    [NewError] is [errors.New(..).Base(e)], a pointer of its own. *)
Inductive DnsError :=
| errRecordNotFound
| ErrEmptyResponse
| RCodeError (code : Z)
| Other (n : nat)
| NewError (m : string) (base : option DnsError)
| multiError (errs : list DnsError).

(** [err == target] of two errors: pointers of [NewError] differ, slices are not compared. *)
Definition same_error (err target : DnsError) : bool :=
  match err, target with
  | errRecordNotFound, errRecordNotFound | ErrEmptyResponse, ErrEmptyResponse => true
  | RCodeError a, RCodeError b => bool_decide (a = b)
  | Other a, Other b => bool_decide (a = b)
  | _, _ => false
  end.

(** [errors.Is], on an error and on a value that may be nil. *)
Fixpoint Is_ (err target : DnsError) : bool :=
  same_error err target || match err with NewError _ (Some b) => Is_ b target | _ => false end.
Definition Is (err : option DnsError) (target : DnsError) : bool :=
  match err with Some e => Is_ e target | None => false end.

Definition Combine (errs : list DnsError) : option DnsError :=
  match errs with [] => None | _ => Some (multiError errs) end.

(** ** Records *)

Definition second : Z := 1000000000.
Definition DefaultTTL : Z := 300.

(** Of the raw header only the truncation is used. *)
Record IPRecord := mkIPRecord { ReqID : Z; r_IP : list ip; Expire : Z; RCode : Z; Truncated : bool }.

Inductive QType := TypeA | TypeAAAA.
#[global] Instance QType_eq_dec : EqDecision QType.
Proof. solve_decision. Defined.
#[global] Instance QType_countable : Countable QType.
Proof.
  refine (inj_countable' (λ t, match t with TypeA => true | TypeAAAA => false end)
            (λ b : bool, if b then TypeA else TypeAAAA) _). by intros [].
Defined.

Record record := mkRecord { rec_A : option IPRecord; rec_AAAA : option IPRecord }.
Definition rec_of (t : QType) (r : record) : option IPRecord := match t with TypeA => rec_A r | TypeAAAA => rec_AAAA r end.

Record IPOption := mkIPOption { IPv4Enable : bool; IPv6Enable : bool; FakeEnable : bool }.

(** [int32(math.Ceil(time.Until(expire).Seconds()))], with the ceiling taken exactly. *)
Definition ttl_at (now expire : Z) : Z := i32 (- ((now - expire) / second)).

Definition getIPs (now : Z) (r : option IPRecord) : list ip * Z * option DnsError :=
  match r with
  | None => ([], 0, Some errRecordNotFound)
  | Some r =>
      let ttl := ttl_at now (Expire r) in
      if decide (RCode r ≠ 0) then ([], ttl, Some (RCodeError (u16 (RCode r))))
      else if decide (len (r_IP r) = 0) then ([], ttl, Some ErrEmptyResponse)
      else (r_IP r, ttl, None)
  end.

Definition Fqdn (domain : str) : str :=
  if decide (0 < len domain ∧ list.last domain = Some dot) then domain else domain ++ [dot].

(** ** Responses *)

(** What [dnsmessage.Parser] makes of the answers: header and body, [None] where the body does not
    parse; the list ends where the section does, or where a header does not parse. *)
Inductive AnswerBody := AnswerA (a : list byte) | AnswerAAAA (a : list byte) | AnswerOther.
Record Answer := mkAnswer { a_TTL : Z; a_type : Z; a_body : option AnswerBody }.
Record Parsed := mkParsed { p_ID : Z; p_RCode : Z; p_Truncated : bool; p_answers : list Answer }.

Definition type_A : Z := 1.
Definition type_AAAA : Z := 28.

(** [net.IPAddress(b).IP()]. *)
Definition ip_of (b : list byte) : go ip :=
  match IPAddress b with Some a => IP a | None => Panic end.

(** The loop of [parseResponse]: the expiry so far, [None] for the zero time, and the addresses. *)
Fixpoint answers_loop (now : Z) (answers : list Answer) (expire : option Z) (ips : list ip) : go (option Z * list ip) :=
  match answers with
  | [] => Ok (expire, ips)
  | ah :: rest =>
      let ttl := if decide (a_TTL ah = 0) then 1 else a_TTL ah in
      let e := now + ttl * second in
      let expire := match expire with Some x => if decide (x > e) then Some e else Some x | None => Some e end in
      if decide (a_type ah = type_A) then
        match a_body ah with
        | Some (AnswerA a) => i ← ip_of a; answers_loop now rest expire (ips ++ [i])
        | _ => Ok (expire, ips)
        end
      else if decide (a_type ah = type_AAAA) then
        match a_body ah with
        | Some (AnswerAAAA a) =>
            newIP ← ip_of a; answers_loop now rest expire (if decide (len newIP = 16) then ips ++ [newIP] else ips)
        | _ => Ok (expire, ips)
        end
      else
        match a_body ah with
        | Some _ => answers_loop now rest expire ips
        | None => Ok (expire, ips)
        end
  end.

Definition parseResponse (now : Z) (p : option Parsed) : go IPRecord :=
  match p with
  | None => Err (ErrMsg "failed to parse DNS response")
  | Some p =>
      '(expire, ips) ← answers_loop now (p_answers p) None [];
      Ok (mkIPRecord (p_ID p) ips (match expire with Some e => e | None => now + DefaultTTL * second end) (p_RCode p) (p_Truncated p))
  end.

(** ** Merging the two families *)

(** One family: the answer where [merge] returns with it, or addresses, TTL and errors so far. *)
Definition merge_one (now : Z) (mergeReq : bool) (r : option IPRecord) (st : list ip * Z * list DnsError) :
    (list ip * Z * option DnsError) + (list ip * Z * list DnsError) :=
  let '(allIPs, rTTL, errs) := st in
  let '(ips, ttl, err) := getIPs now r in
  if negb mergeReq || Is err errRecordNotFound then inl (ips, ttl, err)
  else
    let rTTL := if decide (ttl < rTTL) then ttl else rTTL in
    if decide (0 < len ips) then inr (allIPs ++ ips, rTTL, errs)
    else inr (allIPs, rTTL, errs ++ option_list err).

Definition merge_end (st : list ip * Z * list DnsError) : list ip * Z * option DnsError :=
  let '(allIPs, rTTL, errs) := st in
  if decide (0 < len allIPs) then (allIPs, rTTL, None)
  else
    match errs with
    | [e0; e1] => if Is_ e0 e1 then ([], rTTL, Some e0) else ([], rTTL, Combine errs)
    | _ => ([], rTTL, Combine errs)
    end.

Definition merge (now : Z) (opt : IPOption) (rec4 rec6 : option IPRecord) (errs : list DnsError) : list ip * Z * option DnsError :=
  let mergeReq := IPv4Enable opt && IPv6Enable opt in
  let family (enabled : bool) r (st : _ + _) :=
    match st with
    | inl ans => inl ans
    | inr st => if enabled then merge_one now mergeReq r st else inr st
    end in
  match family (IPv6Enable opt) rec6 (family (IPv4Enable opt) rec4 (inr ([], DefaultTTL, errs))) with
  | inl ans => ans
  | inr st => merge_end st
  end.

(** ** The cache *)

Definition minSizeForEmptyRebuild : Z := 512.
Definition shrinkAbsoluteThreshold : Z := 10240.
Definition migrationBatchSize : nat := Z.to_nat 4096.

Record CacheController := mkCache {
  disableCache : bool;
  serveStale : bool;
  serveExpiredTTL : Z;
  ips : gmap str record;
  dirtyips : option (gmap str record);
  highWatermark : Z;
}.
Definition with_maps (c : CacheController) i d h : CacheController := mkCache (disableCache c) (serveStale c) (serveExpiredTTL c) i d h.

(** [-int32(serveExpiredTTL)] of an unsigned number. *)
Definition NewCacheController (disable stale : bool) (expiredTTL : Z) : CacheController :=
  mkCache disable stale (i32 (- i32 expiredTTL)) ∅ None 0.

(** What counts as now for the cleaning. *)
Definition cutoff (c : CacheController) (now : Z) : Z :=
  if serveStale c && bool_decide (serveExpiredTTL c ≠ 0) then now + serveExpiredTTL c * second else now.
Definition expired (now : Z) (r : option IPRecord) : bool := match r with Some r => bool_decide (Expire r < now) | None => false end.

(** The keys come in the order of the map's range, which nothing depends on. *)
Definition collectExpiredKeys (c : CacheController) (now : Z) : go (list str) :=
  if decide (size (ips c) = 0%nat) then Err (ErrMsg "nothing to do. stopping...")
  else
    match dirtyips c with
    | Some _ => Ok []
    | None => Ok (omap (λ '(domain, r), if expired (cutoff c now) (rec_A r) || expired (cutoff c now) (rec_AAAA r) then Some domain else None)
                       (map_to_list (ips c)))
    end.

Definition clean_record (now : Z) (r : record) : record :=
  mkRecord (if expired now (rec_A r) then None else rec_A r) (if expired now (rec_AAAA r) then None else rec_AAAA r).
Definition clean_key (now : Z) (m : gmap str record) (domain : str) : gmap str record :=
  match m !! domain with
  | None => m
  | Some r =>
      let r := clean_record now r in
      match rec_A r, rec_AAAA r with
      | None, None => delete domain m
      | _, _ => <[domain := r]> m
      end
  end.

(** [writeAndShrink]: the cache, and whether a migration was started. The comparison
    [float64(reduction) > float64(peak) * 0.65] is that of integers. *)
Definition writeAndShrink (c : CacheController) (now : Z) (expiredKeys : list str) : CacheController * bool :=
  match dirtyips c with
  | Some _ => (c, false)
  | None =>
      let lenBefore := Z.of_nat (size (ips c)) in
      let peak := Z.max lenBefore (highWatermark c) in
      let m := foldl (clean_key (cutoff c now)) (ips c) expiredKeys in
      let lenAfter := Z.of_nat (size m) in
      if decide (lenAfter = 0) then
        if decide (minSizeForEmptyRebuild ≤ peak) then (with_maps c ∅ None 0, false) else (with_maps c m None peak, false)
      else
        let reduction := peak - lenAfter in
        if decide (shrinkAbsoluteThreshold < reduction ∧ 13 * peak < 20 * reduction) then (with_maps c ∅ (Some m) lenAfter, true)
        else (with_maps c m None peak, false)
  end.

Definition or_else (a b : option IPRecord) : option IPRecord := match a with Some _ => a | None => b end.
Definition flush_one (m : gmap str record) (dirty : str * record) : gmap str record :=
  match m !! dirty.1 with
  | Some cur => <[dirty.1 := mkRecord (or_else (rec_A cur) (rec_A dirty.2)) (or_else (rec_AAAA cur) (rec_AAAA dirty.2))]> m
  | None => <[dirty.1 := dirty.2]> m
  end.
Definition flush (c : CacheController) (batch : list (str * record)) : CacheController :=
  with_maps c (foldl flush_one (ips c) batch) (dirtyips c) (highWatermark c).

(** A field of a record that may be nil. *)
Definition field (t : QType) (r : option record) : option IPRecord := r ≫= rec_of t.
Definition other (t : QType) : QType := match t with TypeA => TypeAAAA | TypeAAAA => TypeA end.
Definition suffix_of (t : QType) : str := match t with TypeA => s2b "4" | TypeAAAA => s2b "6" end.

Record dnsRequest := mkDnsRequest { reqType : QType; domain : str }.

(** [updateRecord]: the cache, what is published under which name, and whether the cleaning is
    started. *)
Definition updateRecord (c : CacheController) (now : Z) (req : dnsRequest) (rep : IPRecord) :
    CacheController * list (str * IPRecord) * bool :=
  let t := reqType req in
  let published := [(domain req ++ suffix_of t, rep)] in
  if disableCache c then (c, published, false)
  else
    let oldRec := ips c !! domain req in
    let dirtyRec := dirtyips c ≫= lookup (domain req) in
    let kept := field (other t) oldRec in
    let newRec := match t with TypeA => mkRecord (Some rep) kept | TypeAAAA => mkRecord kept (Some rep) end in
    let pubRecord := or_else kept (field (other t) dirtyRec) in
    let published :=
      match pubRecord with
      | None => published
      | Some p =>
          let '(_, ttl, err) := getIPs now pubRecord in
          if decide (ttl > 0) then
            if Is err errRecordNotFound then published else published ++ [(domain req ++ suffix_of (other t), p)]
          else published
      end in
    (with_maps c (<[domain req := newRec]> (ips c)) (dirtyips c) (highWatermark c), published,
     negb (serveStale c) || bool_decide (serveExpiredTTL c ≠ 0)).

Definition findRecords (c : CacheController) (domain : str) : option record :=
  match ips c !! domain with
  | Some r => Some r
  | None => dirtyips c ≫= lookup domain
  end.

(** ** Queries *)

(** What [queryIP] does: answer from the cache, answer with an expired record and ask again in the
    background, or ask. *)
Inductive QueryOutcome :=
| CacheHit (ips : list ip) (ttl : Z) (err : option DnsError)
| CacheOptimiste (ips : list ip) (err : option DnsError)
| Fetch.

(** The answer that a record gives. *)
Definition query_record (c : CacheController) (now : Z) (opt : IPOption) (a aaaa : option IPRecord) : QueryOutcome :=
  let '(ips, ttl, err) := merge now opt a aaaa [] in
  if Is err errRecordNotFound then Fetch
  else if decide (ttl > 0) then CacheHit ips (u32 ttl) err
  else if serveStale c && (bool_decide (serveExpiredTTL c = 0) || bool_decide (serveExpiredTTL c < ttl)) then CacheOptimiste ips err
  else Fetch.

Definition queryIP (c : CacheController) (now : Z) (opt : IPOption) (domain : str) : QueryOutcome :=
  if disableCache c then Fetch
  else
    match findRecords c (Fqdn domain) with
    | Some r => query_record c now opt (rec_A r) (rec_AAAA r)
    | None => Fetch
    end.

(** What the select of [onEvent] takes: the context ended, no response, or a published record. *)
Inductive Event := CtxDone (e : DnsError) | NoResponse (e : DnsError) | Message (r : IPRecord).
Definition onEvent (sub : bool) (ev : Event) : option IPRecord * option DnsError :=
  if sub then
    match ev with
    | CtxDone e | NoResponse e => (None, Some e)
    | Message r => (Some r, None)
    end
  else (None, None).

(** [doFetch], with the events its two subscribers see. *)
Definition doFetch (now : Z) (opt : IPOption) (ev4 ev6 : Event) : list ip * Z * option DnsError :=
  let '(rec4, err4) := onEvent (IPv4Enable opt) ev4 in
  let '(rec6, err6) := onEvent (IPv6Enable opt) ev6 in
  let '(ips, ttl, err) := merge now opt rec4 rec6 (option_list err4 ++ option_list err6) in
  let rTTL := if decide (ttl > 0) then u32 ttl
              else if bool_decide (ttl = 0) && Is err errRecordNotFound then 0 else 1 in
  (ips, rTTL, err).

(** ** The cache at work

    The steps are the critical sections: answers that are stored, the two halves of the cleaning
    ([task.Periodic] runs one at a time; [Starting] is the run inside [Start], whose error
    panics), and the batches of a migration, in any order of the map's range. [stored] is what
    the cache stands for: the last answer of each domain and type. *)
Inductive Cleaner := Stopped | Starting | Waiting | Cleaning (keys : list str).
Inductive Migration := NoMigration | Spawned | Iterating (rest : list (str * record)).

Record World := mkWorld {
  w_cache : CacheController;
  w_now : Z;
  w_cleaner : Cleaner;
  w_migration : Migration;
  w_stored : gmap (str * QType) IPRecord;
  w_panicked : bool;
}.

Definition start_cleaning (start : bool) (k : Cleaner) : Cleaner :=
  match k with Stopped => if start then Starting else Stopped | _ => k end.
Definition starting (k : Cleaner) : bool := match k with Starting => true | _ => false end.

Inductive step : World → World → Prop :=
| clock_ticks w t : w_now w ≤ t →
    step w (mkWorld (w_cache w) t (w_cleaner w) (w_migration w) (w_stored w) (w_panicked w))
| answer_stored w req rep c pub start : disableCache (w_cache w) = false →
    updateRecord (w_cache w) (w_now w) req rep = (c, pub, start) →
    step w (mkWorld c (w_now w) (start_cleaning start (w_cleaner w)) (w_migration w)
              (<[(domain req, reqType req) := rep]> (w_stored w)) (w_panicked w))
| keys_collected w keys : w_cleaner w = Starting ∨ w_cleaner w = Waiting →
    collectExpiredKeys (w_cache w) (w_now w) = Ok keys →
    step w (mkWorld (w_cache w) (w_now w) (match keys with [] => Waiting | _ => Cleaning keys end)
              (w_migration w) (w_stored w) (w_panicked w))
| nothing_to_collect w e : w_cleaner w = Starting ∨ w_cleaner w = Waiting →
    collectExpiredKeys (w_cache w) (w_now w) = Err e →
    step w (mkWorld (w_cache w) (w_now w) Stopped (w_migration w) (w_stored w) (w_panicked w || starting (w_cleaner w)))
| cache_shrunk w keys c start : w_cleaner w = Cleaning keys →
    writeAndShrink (w_cache w) (w_now w) keys = (c, start) →
    step w (mkWorld c (w_now w) Waiting (if start : bool then Spawned else w_migration w) (w_stored w) (w_panicked w))
| migration_started w m rest : w_migration w = Spawned → dirtyips (w_cache w) = Some m → rest ≡ₚ map_to_list m →
    step w (mkWorld (w_cache w) (w_now w) (w_cleaner w) (Iterating rest) (w_stored w) (w_panicked w))
| batch_flushed w rest : w_migration w = Iterating rest → rest ≠ [] →
    step w (mkWorld (flush (w_cache w) (take migrationBatchSize rest)) (w_now w) (w_cleaner w)
              (Iterating (drop migrationBatchSize rest)) (w_stored w) (w_panicked w))
| migration_ended w : w_migration w = Iterating [] →
    step w (mkWorld (with_maps (w_cache w) (ips (w_cache w)) None (highWatermark (w_cache w))) (w_now w) (w_cleaner w)
              NoMigration (w_stored w) (w_panicked w)).

Definition initial (disable stale : bool) (expiredTTL t : Z) : World :=
  mkWorld (NewCacheController disable stale expiredTTL) t Stopped NoMigration ∅ false.

(** What the two maps hold of a domain. *)
Definition view (c : CacheController) (d : str) (t : QType) : option IPRecord :=
  or_else (field t (ips c !! d)) (field t (dirtyips c ≫= lookup d)).

(** Whether answers are ever cleaned. *)
Definition cleans (c : CacheController) : bool := negb (serveStale c) || bool_decide (serveExpiredTTL c ≠ 0).

(** The progress of a migration: what is left is in the old map, and what is not left is in the
    new one. *)
Definition migrating (c : CacheController) (mg : Migration) : Prop :=
  match mg with
  | NoMigration => dirtyips c = None
  | Spawned => ∃ m, dirtyips c = Some m
  | Iterating rest => ∃ m, dirtyips c = Some m ∧ (∀ d r, (d, r) ∈ rest → m !! d = Some r) ∧
      (∀ d r, m !! d = Some r → (d, r) ∈ rest ∨ ∀ t, is_Some (rec_of t r) → is_Some (field t (ips c !! d)))
  end.

Record inv (w : World) : Prop := {
  inv_sound : ∀ d t r, view (w_cache w) d t = Some r → w_stored w !! (d, t) = Some r;
  inv_complete : ∀ d t r, w_stored w !! (d, t) = Some r →
    view (w_cache w) d t = Some r ∨ (cleans (w_cache w) = true ∧ Expire r < cutoff (w_cache w) (w_now w));
  inv_migrating : migrating (w_cache w) (w_migration w);
  inv_cleaner : cleans (w_cache w) = false → w_cleaner w = Stopped;
  inv_starting : w_cleaner w = Starting → ips (w_cache w) ≠ ∅;
  inv_no_panic : w_panicked w = false;
}.

(** ** Lemmas *)

(** What [w_cache] was made with never changes. *)
Definition same_settings (c c' : CacheController) : Prop :=
  serveStale c' = serveStale c ∧ serveExpiredTTL c' = serveExpiredTTL c ∧ disableCache c' = disableCache c.

Lemma settings_cutoff c c' now : same_settings c c' → cutoff c' now = cutoff c now ∧ cleans c' = cleans c.
Proof. unfold cutoff, cleans. by intros (-> & -> & _). Qed.

Lemma cutoff_mono c t t' : t ≤ t' → cutoff c t ≤ cutoff c t'.
Proof. unfold cutoff. destruct (_ && _); lia. Qed.

Lemma field_lookup_insert (t : QType) (d d' : str) (r : record) (m : gmap str record) :
  field t (<[d := r]> m !! d') = if decide (d = d') then rec_of t r else field t (m !! d').
Proof. destruct (decide (d = d')) as [->|]; [by rewrite lookup_insert_eq|by rewrite lookup_insert_ne]. Qed.

Lemma or_else_assoc a b c : or_else (or_else a b) c = or_else a (or_else b c).
Proof. by destruct a. Qed.
Lemma or_else_idem a b : or_else (or_else a b) b = or_else a b.
Proof. by destruct a, b. Qed.
Lemma or_else_none a : or_else a None = a.
Proof. by destruct a. Qed.
Lemma other_ne t : other t ≠ t.
Proof. by destruct t. Qed.

(** Storing an answer changes the view of its domain and type only. *)
Lemma update_view c now req rep c' pub start d t : disableCache c = false →
  updateRecord c now req rep = (c', pub, start) →
  view c' d t = if decide ((domain req, reqType req) = (d, t)) then Some rep else view c d t.
Proof.
  intros Hd Hu. unfold updateRecord in Hu. rewrite Hd in Hu.
  injection Hu as <- _ _. unfold view. cbn [ips dirtyips with_maps]. rewrite field_lookup_insert.
  destruct (decide (domain req = d)) as [->|Hne].
  - destruct (reqType req), t; cbn; try (rewrite decide_True by done; done);
      (rewrite decide_False by congruence); done.
  - rewrite decide_False by congruence. done.
Qed.

(** One entry of a batch fills what the new map lacks. *)
Lemma flush_one_field (m : gmap str record) k r (t : QType) (d : str) :
  field t (flush_one m (k, r) !! d) = if decide (k = d) then or_else (field t (m !! d)) (rec_of t r) else field t (m !! d).
Proof.
  unfold flush_one. cbn [fst snd]. destruct (m !! k) as [cur|] eqn:Hk; rewrite field_lookup_insert.
  - destruct (decide (k = d)) as [<-|]; [|done]. rewrite Hk. by destruct t.
  - destruct (decide (k = d)) as [<-|]; [|done]. by rewrite Hk.
Qed.

Lemma flush_grows batch m d t : is_Some (field t (m !! d)) → is_Some (field t (foldl flush_one m batch !! d)).
Proof.
  revert m. induction batch as [|[k r] batch IH]; intros m Hm; [done|]. cbn. apply IH.
  rewrite flush_one_field. destruct (decide (k = d)); [|done]. destruct Hm as [x ->]. by eexists.
Qed.

Lemma flush_moves batch m d r t : (d, r) ∈ batch → is_Some (rec_of t r) → is_Some (field t (foldl flush_one m batch !! d)).
Proof.
  revert m. induction batch as [|[k x] batch IH]; intros m Hin Hr; [by apply elem_of_nil in Hin|]. cbn.
  apply elem_of_cons in Hin as [[= <- <-]|Hin]; [|by apply IH]. apply flush_grows. rewrite flush_one_field, decide_True by done.
  destruct Hr as [x ->]. destruct (field t (m !! d)); by eexists.
Qed.

Lemma flush_view (batch : list (str * record)) (m old : gmap str record) (d : str) (t : QType) : (∀ k r, (k, r) ∈ batch → old !! k = Some r) →
  or_else (field t (foldl flush_one m batch !! d)) (field t (old !! d)) = or_else (field t (m !! d)) (field t (old !! d)).
Proof.
  revert m. induction batch as [|[k r] batch IH]; intros m Hb; [done|]. cbn. rewrite IH by (intros; apply Hb; set_solver).
  rewrite flush_one_field. destruct (decide (k = d)) as [<-|]; [|done].
  rewrite (Hb k r) by set_solver. apply or_else_idem.
Qed.

(** Cleaning takes expired answers only. *)
Lemma clean_key_field (now : Z) (m : gmap str record) (k d : str) (t : QType) :
  field t (clean_key now m k !! d) =
  if decide (k = d) then (if expired now (field t (m !! d)) then None else field t (m !! d)) else field t (m !! d).
Proof.
  unfold clean_key. destruct (m !! k) as [r|] eqn:Hk.
  2: { destruct (decide (k = d)) as [<-|]; [|done]. by rewrite Hk. }
  destruct (decide (k = d)) as [<-|Hne].
  - assert (Hr : rec_of t (clean_record now r) = if expired now (field t (m !! k)) then None else field t (m !! k))
      by (rewrite Hk; by destruct t). rewrite <- Hr.
    destruct (rec_A (clean_record now r)) eqn:HA; [by rewrite lookup_insert_eq|].
    destruct (rec_AAAA (clean_record now r)) eqn:HB; [by rewrite lookup_insert_eq|].
    rewrite lookup_delete_eq. by destruct t.
  - destruct (rec_A (clean_record now r)), (rec_AAAA (clean_record now r));
      (rewrite ?lookup_insert_ne, ?lookup_delete_ne by done); done.
Qed.

Lemma clean_fields (now : Z) (keys : list str) (m : gmap str record) (t : QType) (d : str) :
  field t (foldl (clean_key now) m keys !! d) = field t (m !! d) ∨
  (field t (foldl (clean_key now) m keys !! d) = None ∧ expired now (field t (m !! d)) = true).
Proof.
  revert m. induction keys as [|k keys IH]; intros m; [by left|]. cbn.
  specialize (IH (clean_key now m k)). rewrite clean_key_field in IH. destruct (decide (k = d)); [|done].
  destruct (expired now (field t (m !! d))) eqn:Hx; [|by rewrite <- Hx].
  destruct IH as [->|[_ He]]; [by right|done].
Qed.

Lemma clean_view c now keys c' start d t : writeAndShrink c now keys = (c', start) →
  (dirtyips c = None → view c' d t = view c d t ∨ (view c' d t = None ∧ expired (cutoff c now) (view c d t) = true)) ∧
  (is_Some (dirtyips c) → c' = c ∧ start = false).
Proof.
  unfold writeAndShrink. intros H. destruct (dirtyips c) as [m|] eqn:Hd.
  { injection H as <- <-. split; [done|]. done. }
  split; [|by intros []]. intros _. set (m := foldl _ _ _) in H.
  assert (Hv : field t (m !! d) = field t (ips c !! d) ∨ (field t (m !! d) = None ∧ expired (cutoff c now) (field t (ips c !! d)) = true))
    by apply clean_fields.
  assert (Hview : view c d t = field t (ips c !! d)) by (unfold view; rewrite Hd; apply or_else_none). rewrite Hview.
  assert (Hall : view c' d t = field t (m !! d)); [|by rewrite Hall].
  unfold view. destruct (decide (Z.of_nat (size m) = 0)) as [Hz|_].
  - assert (Hm : m = ∅) by (apply map_size_empty_inv; lia). rewrite Hm.
    destruct (decide (_ ≤ _)); injection H as <- <-; cbn; rewrite lookup_empty; [done|]. by rewrite Hm, lookup_empty.
  - destruct (decide (_ ∧ _)); injection H as <- <-; cbn.
    + by rewrite lookup_empty.
    + apply or_else_none.
Qed.

Lemma shrink_settings c now keys c' start : writeAndShrink c now keys = (c', start) → same_settings c c'.
Proof.
  unfold writeAndShrink. destruct (dirtyips c); [by intros [= <- _]|].
  destruct (decide _); destruct (decide _); by intros [= <- _].
Qed.

Lemma shrink_migrating c now keys c' start : writeAndShrink c now keys = (c', start) →
  dirtyips c = None → if start then is_Some (dirtyips c') else dirtyips c' = None.
Proof.
  unfold writeAndShrink. intros H Hd. rewrite Hd in H.
  destruct (decide _); destruct (decide _); injection H as <- <-; by cbn.
Qed.

Lemma initial_inv disable stale expiredTTL t : inv (initial disable stale expiredTTL t).
Proof.
  split; by cbn.
Qed.

(** The view before and after a step that keeps it, and the settings. *)
Lemma inv_view w c cl mg : inv w → same_settings (w_cache w) c → (∀ d t, view c d t = view (w_cache w) d t) →
  migrating c mg → (cleans c = false → cl = Stopped) → (cl = Starting → ips c ≠ ∅) →
  inv (mkWorld c (w_now w) cl mg (w_stored w) (w_panicked w)).
Proof.
  intros [Hs Hc Hm Hcl Hst Hp] Hset Hv Hm' Hcl' Hst'.
  destruct (settings_cutoff _ _ (w_now w) Hset) as [Hcut Hcleans].
  split; cbn; try done.
  - intros d t r. rewrite Hv. apply Hs.
  - intros d t r. rewrite Hv, Hcut, Hcleans. apply Hc.
Qed.

Lemma insert_nonempty (m : gmap str record) k r : <[k := r]> m ≠ ∅.
Proof. apply insert_non_empty. Qed.

Lemma update_inv w req rep c pub start : inv w → disableCache (w_cache w) = false →
  updateRecord (w_cache w) (w_now w) req rep = (c, pub, start) →
  inv (mkWorld c (w_now w) (start_cleaning start (w_cleaner w)) (w_migration w) (<[(domain req, reqType req) := rep]> (w_stored w)) (w_panicked w)).
Proof.
  intros [Hs Hc Hm Hcl Hst Hp] Hd Hu.
  assert (Hview := λ d t, update_view _ _ _ _ _ _ _ d t Hd Hu).
  unfold updateRecord in Hu. rewrite Hd in Hu. injection Hu as Hc' _ Hstart.
  assert (Hset : same_settings (w_cache w) c) by (by subst c).
  destruct (settings_cutoff _ _ (w_now w) Hset) as [Hcut Hcleans].
  split; cbn.
  - intros d t r. rewrite Hview. destruct (decide ((domain req, reqType req) = (d, t))) as [<-|Hne].
    + intros [= ->]. by rewrite lookup_insert_eq.
    + rewrite lookup_insert_ne by done. apply Hs.
  - intros d t r. rewrite Hview, Hcut, Hcleans. destruct (decide ((domain req, reqType req) = (d, t))) as [<-|Hne].
    + rewrite lookup_insert_eq. intros [= ->]. by left.
    + rewrite lookup_insert_ne by done. apply Hc.
  - clear Hview Hcut Hcleans Hset. destruct (w_migration w) as [| |rest]; cbn in *.
    + by subst c.
    + by subst c.
    + destruct Hm as (m & Hdm & Hin & Hmoved). exists m. split_and!; [by subst c|done|].
      intros d r Hr. destruct (Hmoved d r Hr) as [?|Hf]; [by left|right]. intros t Ht. specialize (Hf t Ht).
      subst c. cbn. rewrite field_lookup_insert. destruct (decide (domain req = d)) as [<-|]; [|done].
      destruct (reqType req), t; cbn; by eauto.
  - rewrite Hcleans. intros Hn. rewrite (Hcl Hn). cbn. unfold cleans in Hn. by rewrite <- Hstart, Hn.
  - intros _. subst c. apply insert_nonempty.
  - done.
Qed.

Lemma flush_inv w rest : inv w → w_migration w = Iterating rest →
  inv (mkWorld (flush (w_cache w) (take migrationBatchSize rest)) (w_now w) (w_cleaner w) (Iterating (drop migrationBatchSize rest)) (w_stored w) (w_panicked w)).
Proof.
  intros Hinv Hmg. assert (Hm := inv_migrating w Hinv). rewrite Hmg in Hm. destruct Hm as (m & Hd & Hin & Hmoved).
  assert (Htake : ∀ k r, (k, r) ∈ take migrationBatchSize rest → m !! k = Some r)
    by (intros k r H; apply Hin; rewrite <- (take_drop migrationBatchSize rest); apply elem_of_app; by left).
  apply inv_view; try done.
  - intros d t. unfold view. cbn [ips dirtyips flush with_maps]. rewrite Hd. cbn. by apply flush_view.
  - exists m. cbn. split_and!; [done| |].
    + intros d r H. apply Hin. rewrite <- (take_drop migrationBatchSize rest). apply elem_of_app. by right.
    + intros d r Hr. destruct (Hmoved d r Hr) as [Hrest|Hf].
      * rewrite <- (take_drop migrationBatchSize rest) in Hrest. apply elem_of_app in Hrest as [Ht|]; [right|by left].
        intros t Hs. by apply (flush_moves _ _ _ r).
      * right. intros t Hs. apply flush_grows. by apply Hf.
  - apply (inv_cleaner w Hinv).
  - intros Hs. pose proof (inv_starting w Hinv Hs) as Hne. cbn. clear - Hne.
    set (b := take _ _). clearbody b. revert Hne. generalize (ips (w_cache w)). induction b as [|[k r] b IH]; intros i Hne; [done|]. cbn.
    apply IH. unfold flush_one. destruct (i !! _); apply insert_nonempty.
Qed.

Lemma collect_err c now e : collectExpiredKeys c now = Err e → ips c = ∅.
Proof.
  unfold collectExpiredKeys. destruct (decide (size (ips c) = 0%nat)); [|by destruct (dirtyips c)]. intros _. by apply map_size_empty_inv.
Qed.

Lemma shrink_inv w keys c start : inv w → w_cleaner w = Cleaning keys →
  writeAndShrink (w_cache w) (w_now w) keys = (c, start) →
  inv (mkWorld c (w_now w) Waiting (if start : bool then Spawned else w_migration w) (w_stored w) (w_panicked w)).
Proof.
  intros Hinv Hk Hw. assert (Hset := shrink_settings _ _ _ _ _ Hw).
  destruct (settings_cutoff _ _ (w_now w) Hset) as [Hcut Hcleans].
  assert (Hon : cleans (w_cache w) = true).
  { destruct (cleans (w_cache w)) eqn:H; [done|]. by rewrite (inv_cleaner w Hinv H) in Hk. }
  destruct (dirtyips (w_cache w)) as [m|] eqn:Hd.
  { destruct (clean_view _ _ _ _ _ [] TypeA Hw) as [_ H]. rewrite Hd in H. destruct H as [-> ->]; [done|].
    apply inv_view; try done; [apply (inv_migrating w Hinv)|congruence]. }
  assert (Hv := λ d t, proj1 (clean_view _ _ _ _ _ d t Hw) Hd).
  destruct Hinv as [Hs Hc Hm Hcl Hst Hp]. split; cbn; try done.
  - intros d t r H. apply Hs. destruct (Hv d t) as [E|[E _]]; congruence.
  - intros d t r H. rewrite Hcut, Hcleans. destruct (Hc d t r H) as [Hsome|]; [|by right].
    destruct (Hv d t) as [E|[E Hx]]; [left; congruence|right]. split; [done|]. rewrite Hsome in Hx. cbn in Hx.
    by apply bool_decide_eq_true_1 in Hx.
  - pose proof (shrink_migrating _ _ _ _ _ Hw Hd) as H. destruct start; [by destruct H as [m Hm']; exists m|].
    destruct (w_migration w) as [| |rest]; cbn in Hm |- *; [done| |]; destruct Hm as [m ?]; [congruence|]; destruct_and!; congruence.
  - rewrite Hcleans. congruence.
Qed.

Lemma cache_step_inv w w' : step w w' → inv w → inv w'.
Proof.
  intros Hstep Hinv. destruct Hstep as [w t Ht|w req rep c pub start Hd Hu|w keys Hk Hc|w e Hk Hc|w keys c start Hk Hw|w m rest Hm Hd Hp|w rest Hm Hne|w Hm].
  - destruct Hinv as [Hs Hc Hm Hcl Hst Hp]. split; try done. intros d q r H. cbn.
    destruct (Hc d q r H) as [|[? ?]]; [by left|right]. pose proof (cutoff_mono (w_cache w) _ _ Ht). split; [done|lia].
  - by eapply update_inv.
  - assert (cleans (w_cache w) = false → False) by (intros Hn; rewrite (inv_cleaner w Hinv Hn) in Hk; by destruct Hk).
    apply inv_view; try done; [apply (inv_migrating w Hinv)|by destruct keys].
  - assert (Hstart : starting (w_cleaner w) = false).
    { destruct Hk as [Hk|Hk]; rewrite Hk; [|done]. exfalso. by apply (inv_starting w Hinv Hk), (collect_err _ _ _ Hc). }
    rewrite Hstart, orb_false_r. apply inv_view; try done. apply (inv_migrating w Hinv).
  - by eapply shrink_inv.
  - apply inv_view; try done; [|apply (inv_cleaner w Hinv)|apply (inv_starting w Hinv)].
    exists m. split_and!; [done| |]; intros d r H; [|left]; [|rewrite Hp; by apply elem_of_map_to_list].
    apply elem_of_map_to_list. by rewrite <- Hp.
  - by apply flush_inv.
  - assert (Hmg := inv_migrating w Hinv). rewrite Hm in Hmg. destruct Hmg as (m & Hd & _ & Hmoved).
    apply inv_view; try done; [|apply (inv_cleaner w Hinv)|apply (inv_starting w Hinv)].
    intros d t. unfold view. cbn [ips dirtyips with_maps]. rewrite or_else_none, Hd. cbn.
    destruct (m !! d) as [r|] eqn:Hr; [|by rewrite or_else_none]. destruct (Hmoved d r Hr) as [[]%elem_of_nil|Hf].
    cbn. destruct (rec_of t r) eqn:Ht; [|by rewrite or_else_none]. destruct (Hf t) as [x ->]; [by rewrite Ht|done].
Qed.

Lemma cache_reachable_inv w w' : rtc step w w' → inv w → inv w'.
Proof. induction 1; eauto using cache_step_inv. Qed.

(** ** What a query sees *)

(** Times to live that 32 bits hold. *)
Definition in_range (now : Z) (r : IPRecord) : Prop := - 2147483647 * second < Expire r - now ≤ 2147483647 * second.

Lemma ttl_in_range now r : in_range now r → ttl_at now (Expire r) = - ((now - Expire r) / second).
Proof. unfold in_range, ttl_at, second. intros H. apply i32_small. unfold is_i32. dlia. Qed.

(** The window in which a record may be served. *)
Definition servable (c : CacheController) (ttl : Z) : Prop := 0 < ttl ∨ (serveStale c = true ∧ (serveExpiredTTL c = 0 ∨ serveExpiredTTL c < ttl)).

(** No record that may be served is cleaned. *)
Lemma servable_kept c now r : in_range now r → serveExpiredTTL c ≤ 0 →
  cleans c = true → Expire r < cutoff c now → ¬ servable c (ttl_at now (Expire r)).
Proof.
  intros Hr Hneg Hcl Hx. rewrite (ttl_in_range _ _ Hr). unfold servable, cutoff, cleans, second in *.
  destruct (serveStale c); cbn in *.
  - apply bool_decide_eq_true_1 in Hcl. rewrite bool_decide_eq_true_2 in Hx by done.
    intros [?|[_ [?|?]]]; [|done|]; revert Hx; dlia.
  - intros [?|[? _]]; [dlia|done].
Qed.

Definition needed (opt : IPOption) (t : QType) : bool := match t with TypeA => IPv4Enable opt | TypeAAAA => IPv6Enable opt end.
Definition pick (t : QType) (a aaaa : option IPRecord) : option IPRecord := match t with TypeA => a | TypeAAAA => aaaa end.

Lemma servable_mono c x y : servable c x → x ≤ y → servable c y.
Proof. unfold servable. intros [?|[? [?|?]]] ?; [left; lia|right; auto|right; split; [done|right; lia]]. Qed.

Lemma getIPs_ttl now r : (getIPs now (Some r)).1.2 = ttl_at now (Expire r) ∧ Is (getIPs now (Some r)).2 errRecordNotFound = false.
Proof. unfold getIPs. destruct (decide (RCode r ≠ 0)); [done|]. by destruct (decide (len (r_IP r) = 0)). Qed.

Lemma merge_end_ttl st : (merge_end st).1.2 = st.1.2.
Proof.
  destruct st as [[i t] errs]. unfold merge_end. destruct (decide (0 < len i)); [done|].
  destruct errs as [|e0 [|e1 [|]]]; try done. by destruct (Is_ e0 e1).
Qed.

Lemma merge_one_found now r i t errs :
  ∃ i' errs', merge_one now true (Some r) (i, t, errs) = inr (i', Z.min t (ttl_at now (Expire r)), errs').
Proof.
  unfold merge_one. destruct (getIPs_ttl now r) as [Ht Hn]. destruct (getIPs now (Some r)) as [[x y] z]. cbn in Ht, Hn. subst y.
  cbn. rewrite Hn. replace (if decide (_ < t) then _ else t) with (Z.min t (ttl_at now (Expire r))) by (destruct (decide _); lia).
  destruct (decide (0 < len x)); by eauto.
Qed.

(** What [merge] gives: the record of the one family asked for; for both, neither may be missing
    and the earlier expiry counts. *)
Lemma merge_cases now v4 v6 f a aaaa :
  match v4, v6 with
  | false, false => merge now (mkIPOption v4 v6 f) a aaaa [] = ([], DefaultTTL, None)
  | true, false => merge now (mkIPOption v4 v6 f) a aaaa [] = getIPs now a
  | false, true => merge now (mkIPOption v4 v6 f) a aaaa [] = getIPs now aaaa
  | true, true =>
      match a, aaaa with
      | Some r, Some r' => (merge now (mkIPOption v4 v6 f) a aaaa []).1.2 = Z.min (Z.min DefaultTTL (ttl_at now (Expire r))) (ttl_at now (Expire r'))
      | _, _ => merge now (mkIPOption v4 v6 f) a aaaa [] = ([], 0, Some errRecordNotFound)
      end
  end.
Proof.
  unfold merge. destruct v4, v6; cbn [IPv4Enable IPv6Enable andb].
  - destruct a as [r|]; [|done]. destruct (merge_one_found now r [] DefaultTTL []) as (i & es & ->).
    destruct aaaa as [r'|]; [|done].
    destruct (merge_one_found now r' i (Z.min DefaultTTL (ttl_at now (Expire r))) es) as (i' & es' & ->). by rewrite merge_end_ttl.
  - unfold merge_one. by destruct (getIPs now a) as [[? ?] ?].
  - unfold merge_one. by destruct (getIPs now aaaa) as [[? ?] ?].
  - done.
Qed.

(** A query that needs a record that is missing, or is no longer served, asks. *)
Lemma query_fetches c now opt a aaaa t : needed opt t = true →
  match pick t a aaaa with None => True | Some r => ¬ servable c (ttl_at now (Expire r)) end →
  query_record c now opt a aaaa = Fetch.
Proof.
  intros Hn Hp. unfold query_record. destruct (merge now opt a aaaa []) as [[i ttl] err] eqn:Hm.
  assert (H : Is err errRecordNotFound = true ∨ ¬ servable c ttl).
  { destruct opt as [v4 v6 f]. pose proof (merge_cases now v4 v6 f a aaaa) as Hc. rewrite Hm in Hc.
    assert (Hone : ∀ r, (i, ttl, err) = getIPs now r → match r with None => True | Some r => ¬ servable c (ttl_at now (Expire r)) end →
                   Is err errRecordNotFound = true ∨ ¬ servable c ttl).
    { intros [r|] E Hr; [|left; by injection E as -> -> ->]. right. destruct (getIPs_ttl now r) as [Ht _]. rewrite <- E in Ht. cbn in Ht. by subst ttl. }
    destruct v4, v6, t; try done; cbn in Hp; [| |by apply (Hone a)|by apply (Hone aaaa)].
    all: destruct a as [r|], aaaa as [r'|]; try (injection Hc as -> -> ->; by left); right; cbn in Hc.
    all: intros Hs; apply Hp, (servable_mono _ ttl); [done|lia]. }
  destruct (Is err errRecordNotFound); [done|]. destruct H as [?|H]; [done|].
  rewrite decide_False by (intros ?; apply H; left; lia).
  destruct (serveStale c) eqn:Hs; [|done]. cbn. rewrite !bool_decide_eq_false_2; [done| |]; intros ?; apply H; right; auto.
Qed.

(** A family that is not asked for does not matter. *)
Lemma query_unneeded c now opt a aaaa a' aaaa' :
  (∀ t, needed opt t = true → pick t a aaaa = pick t a' aaaa') → query_record c now opt a aaaa = query_record c now opt a' aaaa'.
Proof.
  intros H. unfold query_record, merge. pose proof (H TypeA) as H4. pose proof (H TypeAAAA) as H6. cbn in H4, H6.
  destruct (IPv4Enable opt), (IPv6Enable opt); rewrite ?H4, ?H6 by done; done.
Qed.

Lemma step_settings w w' : step w w' → same_settings (w_cache w) (w_cache w').
Proof.
  intros []; cbn; try done.
  - match goal with H : updateRecord _ _ _ _ = _, H' : disableCache _ = _ |- _ => unfold updateRecord in H; rewrite H' in H; injection H as <- _ _ end. done.
  - by eapply shrink_settings.
Qed.

Lemma reachable_settings w w' : rtc step w w' → same_settings (w_cache w) (w_cache w').
Proof.
  induction 1 as [|w w1 w2 H _ (E1 & E2 & E3)]; [done|]. destruct (step_settings _ _ H) as (F1 & F2 & F3).
  unfold same_settings. by rewrite E1, E2, E3, F1, F2, F3.
Qed.

(** The records a lookup finds are what the two maps hold, except that during a migration it may
    miss what the new map has not taken over yet. *)
Lemma find_view c d t : field t (findRecords c d) = view c d t ∨ (is_Some (dirtyips c) ∧ field t (findRecords c d) = None).
Proof.
  unfold findRecords, view. destruct (ips c !! d) as [r|]; [|by left]. cbn.
  destruct (rec_of t r) eqn:Hr; [by left|]. destruct (dirtyips c) as [m|] eqn:Hd; [right; eauto|by left].
Qed.

Lemma find_cases c opt d :
  (∀ q, needed opt q = true → field q (findRecords c d) = view c d q) ∨
  (∃ q, needed opt q = true ∧ is_Some (dirtyips c) ∧ field q (findRecords c d) = None).
Proof.
  destruct (needed opt TypeA) eqn:N4; [destruct (find_view c d TypeA) as [E4|]; [|right; by exists TypeA]|];
    (destruct (needed opt TypeAAAA) eqn:N6; [destruct (find_view c d TypeAAAA) as [E6|]; [|right; by exists TypeAAAA]|]);
    left; intros []; congruence.
Qed.

Lemma find_query c now opt d : IPv4Enable opt || IPv6Enable opt = true → disableCache c = false →
  queryIP c now opt d = query_record c now opt (field TypeA (findRecords c (Fqdn d))) (field TypeAAAA (findRecords c (Fqdn d))).
Proof.
  intros Ho Hd. unfold queryIP. rewrite Hd. destruct (findRecords c (Fqdn d)) as [r|]; [done|].
  symmetry. apply orb_true_iff in Ho as [Ho|Ho].
  - by apply (query_fetches _ _ _ _ _ TypeA).
  - by apply (query_fetches _ _ _ _ _ TypeAAAA).
Qed.

(** If every needed family agrees with the ideal, or decides for asking in both, so does the query. *)
Lemma query_agrees c now opt a aaaa a' aaaa' :
  (∀ t, needed opt t = true → pick t a aaaa = pick t a' aaaa' ∨
     (pick t a aaaa = None ∧ match pick t a' aaaa' with None => True | Some r => ¬ servable c (ttl_at now (Expire r)) end)) →
  query_record c now opt a aaaa = query_record c now opt a' aaaa'.
Proof.
  intros H.
  assert (Hd : (∀ t, needed opt t = true → pick t a aaaa = pick t a' aaaa') ∨
               (∃ t, needed opt t = true ∧ pick t a aaaa = None ∧ match pick t a' aaaa' with None => True | Some r => ¬ servable c (ttl_at now (Expire r)) end)).
  { destruct (needed opt TypeA) eqn:N4; [destruct (H TypeA N4) as [E4|]; [|right; by exists TypeA]|];
      (destruct (needed opt TypeAAAA) eqn:N6; [destruct (H TypeAAAA N6) as [E6|]; [|right; by exists TypeAAAA]|]);
      left; intros []; congruence. }
  destruct Hd as [Hd|(t & Hn & E & Hs)]; [by apply query_unneeded|].
  rewrite (query_fetches c now opt a aaaa t) by (try done; by rewrite E). symmetry. by apply (query_fetches _ _ _ _ _ t).
Qed.

(** A migration under way can end by its own steps. *)
Lemma migration_can_end w : inv w → ∃ w', rtc step w w' ∧ dirtyips (w_cache w') = None ∧ w_stored w' = w_stored w ∧ w_now w' = w_now w.
Proof.
  assert (Hiter : ∀ n w rest, (length rest < n)%nat → w_migration w = Iterating rest →
    ∃ w', rtc step w w' ∧ dirtyips (w_cache w') = None ∧ w_stored w' = w_stored w ∧ w_now w' = w_now w).
  { induction n as [|n IH]; intros u rest Hl Hm; [lia|]. destruct rest as [|x rest].
    - eexists. split; [apply rtc_once; by apply migration_ended|done].
    - edestruct (IH (mkWorld (flush (w_cache u) (take migrationBatchSize (x :: rest))) (w_now u) (w_cleaner u)
        (Iterating (drop migrationBatchSize (x :: rest))) (w_stored u) (w_panicked u))) as (w' & Hr & Hd & Hs & Ht); [|done|].
      + rewrite length_drop. unfold migrationBatchSize. cbn [length] in *. lia.
      + exists w'. split_and!; [|done..]. eapply rtc_l; [|exact Hr]. by apply batch_flushed. }
  intros Hinv. assert (Hm := inv_migrating w Hinv). destruct (w_migration w) as [| |rest] eqn:Hmg.
  - exists w. by split_and!; [constructor|..].
  - destruct Hm as [m Hd]. edestruct (Hiter (S (length (map_to_list m))) (mkWorld (w_cache w) (w_now w) (w_cleaner w)
      (Iterating (map_to_list m)) (w_stored w) (w_panicked w))) as (w' & Hr & H); [|done|]; [lia|].
    exists w'. split; [|done]. eapply rtc_l; [|exact Hr]. by eapply migration_started.
  - eapply Hiter; [|done]. apply Nat.lt_succ_diag_r.
Qed.

(** C17: the DNS cache is transparent. After any sequence of answers, cleanings and migrations, in
    any interleaving, a query is answered exactly as if every domain's last answers were kept
    for ever (fresh, expired but still served, or not served and asked again); only while a
    migration runs may it ask although it need not. A migration can always run to its end, and
    nothing panics. The setting for expired answers is below 2^31 seconds, and the times left of
    the answers fit 32 bits. *)
Theorem dns_cache_transparent stale expiredTTL t w :
  0 ≤ expiredTTL < 2147483648 → rtc step (initial false stale expiredTTL t) w →
  w_panicked w = false ∧
  (∀ opt d, IPv4Enable opt || IPv6Enable opt = true →
     (∀ q r, w_stored w !! (Fqdn d, q) = Some r → in_range (w_now w) r) →
     queryIP (w_cache w) (w_now w) opt d =
       query_record (w_cache w) (w_now w) opt (w_stored w !! (Fqdn d, TypeA)) (w_stored w !! (Fqdn d, TypeAAAA)) ∨
     (is_Some (dirtyips (w_cache w)) ∧ queryIP (w_cache w) (w_now w) opt d = Fetch)) ∧
  (∃ w', rtc step w w' ∧ dirtyips (w_cache w') = None ∧ w_stored w' = w_stored w ∧ w_now w' = w_now w).
Proof.
  intros Httl Hr. assert (Hinv := cache_reachable_inv _ _ Hr (initial_inv _ _ _ _)).
  destruct (reachable_settings _ _ Hr) as (_ & Hset & Hdis). split; [apply Hinv|]. split; [|by apply migration_can_end].
  assert (Hneg : serveExpiredTTL (w_cache w) ≤ 0).
  { rewrite Hset. cbn. rewrite (i32_small expiredTTL), i32_small; unfold is_i32; lia. }
  intros opt d Ho Hrange. rewrite (find_query _ _ _ _ Ho Hdis).
  destruct (find_cases (w_cache w) opt (Fqdn d)) as [Hfind|(q & Hn & Hd & Hf)].
  2: { right. split; [done|]. apply (query_fetches _ _ _ _ _ q); [done|]. by destruct q; cbn; rewrite Hf. }
  left. apply query_agrees. intros q Hn. specialize (Hfind q Hn).
  replace (pick q (field TypeA _) _) with (view (w_cache w) (Fqdn d) q) by (by destruct q).
  replace (pick q (w_stored w !! _) _) with (w_stored w !! (Fqdn d, q)) by (by destruct q).
  destruct (view (w_cache w) (Fqdn d) q) as [r|] eqn:Hv; [left; symmetry; by apply Hinv|].
  right. split; [done|]. destruct (w_stored w !! (Fqdn d, q)) as [r|] eqn:Hst; [|done].
  destruct (inv_complete _ Hinv _ _ _ Hst) as [?|[? ?]]; [congruence|]. apply servable_kept; eauto.
Qed.

(** An answer that expired fifteen seconds ago, served while it is asked again; and one that is
    asked again because stale answers are served for ten seconds only. *)
Definition sample_request : dnsRequest := mkDnsRequest TypeA (s2b "a.").
Definition sample_answer : IPRecord := mkIPRecord 1 [s2b "1234"] (5 * second) 0 false.
Definition sample_world (expiredTTL : Z) : World :=
  let w := initial false true expiredTTL 0 in
  let c := (updateRecord (w_cache w) 0 sample_request sample_answer).1.1 in
  mkWorld c (20 * second) Waiting NoMigration {[ (s2b "a.", TypeA) := sample_answer ]} false.

Lemma sample_runs expiredTTL : serveExpiredTTL (NewCacheController false true expiredTTL) = -60 →
  rtc step (initial false true expiredTTL 0) (sample_world expiredTTL).
Proof.
  intros Ht. assert (Hc : collectExpiredKeys (updateRecord (NewCacheController false true expiredTTL) 0 sample_request sample_answer).1.1 0 = Ok []).
  { unfold collectExpiredKeys, updateRecord, cutoff. cbn [fst ips with_maps serveStale NewCacheController serveExpiredTTL dirtyips disableCache].
    change (i32 (- i32 expiredTTL)) with (serveExpiredTTL (NewCacheController false true expiredTTL)). rewrite Ht. by vm_compute. }
  eapply rtc_l; [by eapply (answer_stored (initial false true expiredTTL 0) sample_request sample_answer)|].
  assert (Hs : negb (serveStale (NewCacheController false true expiredTTL)) || bool_decide (serveExpiredTTL (NewCacheController false true expiredTTL) ≠ 0) = true) by (rewrite Ht; done).
  change (negb (serveStale (w_cache (initial false true expiredTTL 0))) || _) with
    (negb (serveStale (NewCacheController false true expiredTTL)) || bool_decide (serveExpiredTTL (NewCacheController false true expiredTTL) ≠ 0)).
  rewrite Hs.
  eapply rtc_l; [eapply (keys_collected _ []); [by left|exact Hc]|]. apply rtc_once.
  apply (clock_ticks (mkWorld _ _ _ _ _ _) (20 * second)). by vm_compute.
Qed.

Lemma dns_cache_transparent_witness :
  rtc step (initial false true 60 0) (sample_world 60) ∧
  (queryIP (w_cache (sample_world 60)) (20 * second) (mkIPOption true false false) (s2b "a") = CacheOptimiste [s2b "1234"] None) ∧
  (∃ w', rtc step (sample_world 60) w' ∧ dirtyips (w_cache w') = None ∧ w_stored w' = w_stored (sample_world 60) ∧ w_now w' = w_now (sample_world 60)).
Proof.
  assert (Hr : rtc step (initial false true 60 0) (sample_world 60)) by (by apply sample_runs).
  destruct (dns_cache_transparent true 60 0 (sample_world 60)) as (_ & Hq & Hm); [lia|exact Hr|].
  split_and!; [exact Hr| |exact Hm].
  destruct (Hq (mkIPOption true false false) (s2b "a")) as [H|[[m H] _]]; [done| | |done].
  - intros q r Hst. change (w_stored (sample_world 60)) with ({[ (s2b "a.", TypeA) := sample_answer ]} : gmap (str * QType) IPRecord) in Hst.
    apply lookup_singleton_Some in Hst as [_ <-]. split; by vm_compute.
  - etrans; [exact H|]. by vm_compute.
Defined.

(** ** More about answers *)

(** The error that ended a query is lost: [merge] returns with the record that is missing. *)
Lemma fetch_error_lost now e ev6 v6 : doFetch now (mkIPOption true v6 false) (NoResponse e) ev6 = ([], 0, Some errRecordNotFound).
Proof.
  unfold doFetch. cbn [IPv4Enable IPv6Enable onEvent]. destruct (onEvent v6 ev6) as [rec6 err6].
  unfold merge. cbn [IPv4Enable IPv6Enable andb]. unfold merge_one. cbn. by destruct v6.
Qed.

(** Above 2^31 the time for which expired answers are served is taken for a time before the
    expiry: answers that are still fresh are cleaned. *)
Lemma expired_ttl_wraps : let c := NewCacheController false true 4294967286 in
  serveExpiredTTL c = 10 ∧
  writeAndShrink (updateRecord c 0 sample_request sample_answer).1.1 0 [s2b "a."] = (with_maps c ∅ None 1, false).
Proof. by vm_compute. Qed.

Lemma answers_expiry now answers expire ips e i : Forall (λ a, 0 ≤ a_TTL a) answers →
  (∀ x, expire = Some x → now + second ≤ x) →
  answers_loop now answers expire ips = Ok (e, i) → ∀ x, e = Some x → now + second ≤ x.
Proof.
  intros Hall. revert expire ips. induction Hall as [|a answers Ha _ IH]; intros expire ips He; cbn; [by intros [= <- <-]|].
  set (t := if decide (a_TTL a = 0) then 1 else a_TTL a). assert (Ht : 1 ≤ t) by (unfold t; destruct (decide _); lia).
  assert (Hn : ∀ x, match expire with Some y => if decide (y > now + t * second) then Some (now + t * second) else Some y | None => Some (now + t * second) end = Some x →
                    now + second ≤ x).
  { intros x Hx. unfold second in *. destruct expire as [y|]; [destruct (decide (y > now + t * 1000000000))|]; injection Hx as <-; try lia. by apply He. }
  destruct (decide (a_type a = type_A)); [|destruct (decide (a_type a = type_AAAA))].
  - destruct (a_body a) as [[b|b|]|]; try (by intros [= <- <-]). rewrite go_bind_ok. intros (y & _ & H). by eapply IH.
  - destruct (a_body a) as [[b|b|]|]; try (by intros [= <- <-]). rewrite go_bind_ok. intros (y & _ & H). by eapply IH.
  - destruct (a_body a); [|by intros [= <- <-]]. intros H. by eapply IH.
Qed.

(** A response is fresh for a second at least, whatever its times to live; with none it is for
    five minutes. *)
Lemma parse_response_fresh now p r : Forall (λ a, 0 ≤ a_TTL a) (p_answers p) → parseResponse now (Some p) = Ok r →
  now + second ≤ Expire r ∧ (p_answers p = [] → Expire r = now + DefaultTTL * second ∧ r_IP r = []).
Proof.
  intros Hall. unfold parseResponse. rewrite go_bind_ok. intros ([e i] & H & [= <-]). cbn. split.
  - destruct e as [x|]; [|unfold second, DefaultTTL; lia]. by eapply (answers_expiry now _ None []).
  - intros Hn. rewrite Hn in H. by injection H as <- <-.
Qed.

(** ** Publishing

    [common/signal/pubsub]: subscribers are shared by pointer with those who wait on them. *)
Module PubSub.
Section pubsub.
Context {M : Type}.

Record Subscriber := mkSubscriber { buffer : list M; closed : bool }.
Record Service := mkService { subs : gmap str (list nat); heap : gmap nat Subscriber; next : nat }.

Definition NewService : Service := mkService ∅ ∅ 0%nat.

(** A channel of capacity sixteen; a full one drops the message. *)
Definition push (s : Subscriber) (msg : M) : Subscriber :=
  if decide (len (buffer s) < 16) then mkSubscriber (buffer s ++ [msg]) (closed s) else s.
Definition Sub_Close (s : Service) (id : nat) : Service :=
  mkService (subs s) (alter (λ x, mkSubscriber (buffer x) true) id (heap s)) (next s).
Definition IsClosed (s : Service) (id : nat) : bool := match heap s !! id with Some x => closed x | None => true end.

Definition Subscribe (s : Service) (name : str) : nat * Service :=
  (next s, mkService (<[name := default [] (subs s !! name) ++ [next s]]> (subs s)) (<[next s := mkSubscriber [] false]> (heap s)) (S (next s))).

Definition Publish (s : Service) (name : str) (msg : M) : Service :=
  mkService (subs s)
    (foldl (λ h id, match h !! id with
                    | Some x => if closed x then h else <[id := push x msg]> h
                    | None => h
                    end) (heap s) (default [] (subs s !! name))) (next s).

Definition Cleanup (s : Service) : go Service :=
  if decide (size (subs s) = 0%nat) then Err (ErrMsg "nothing to do")
  else Ok (mkService (omap (λ l, match base.filter (λ id, IsClosed s id = false) l with [] => None | l => Some l end) (subs s)) (heap s) (next s)).

(** Every pointer of the service is below [next], and under one name at most once. *)
Definition wf (s : Service) : Prop :=
  (∀ name l id, subs s !! name = Some l → id ∈ l → (id < next s)%nat ∧ is_Some (heap s !! id)) ∧
  (∀ name l, subs s !! name = Some l → NoDup l) ∧ (∀ id, is_Some (heap s !! id) → (id < next s)%nat).

(** What a subscriber has got. *)
Definition got (s : Service) (id : nat) : list M := match heap s !! id with Some x => buffer x | None => [] end.

Inductive op := OpSubscribe (name : str) | OpPublish (name : str) (msg : M) | OpClose (id : nat) | OpCleanup.
Definition run_op (s : Service) (o : op) : Service :=
  match o with
  | OpSubscribe name => (Subscribe s name).2
  | OpPublish name msg => Publish s name msg
  | OpClose id => Sub_Close s id
  | OpCleanup => match Cleanup s with Ok s => s | _ => s end
  end.

(** The messages under a name. *)
Definition messages (name : str) (ops : list op) : list M :=
  omap (λ o, match o with OpPublish n m => if decide (n = name) then Some m else None | _ => None end) ops.

Lemma publish_loop (msg : M) l (h : gmap nat Subscriber) id : NoDup l →
  foldl (λ h id, match h !! id with Some x => if closed x then h else <[id := push x msg]> h | None => h end) h l !! id =
  if decide (id ∈ l) then (λ x, if closed x then x else push x msg) <$> h !! id else h !! id.
Proof.
  revert h. induction l as [|k l IH]; intros h Hnd; [by rewrite decide_False by (by intros ?%elem_of_nil)|].
  apply list.NoDup_cons in Hnd as [Hk Hnd]. cbn. rewrite (IH _ Hnd). destruct (decide (id = k)) as [->|Hne].
  - rewrite decide_False, decide_True by set_solver. destruct (h !! k) as [x|] eqn:Hx; [|by rewrite Hx].
    cbn. destruct (closed x); [done|by rewrite lookup_insert_eq].
  - replace (match h !! k with Some x => _ | None => h end !! id) with (h !! id); [|].
    + destruct (decide (id ∈ l)); [rewrite decide_True by set_solver|rewrite decide_False by set_solver]; done.
    + destruct (h !! k) as [x|]; [|done]. destruct (closed x); [done|]. by rewrite lookup_insert_ne.
Qed.

(** An open subscriber of a name stays there, and gets the messages while there is room. *)
Definition subscribed (s : Service) (name : str) (id : nat) : Prop :=
  wf s ∧ IsClosed s id = false ∧ (∀ n l, subs s !! n = Some l → id ∈ l → n = name) ∧ ∃ l, subs s !! name = Some l ∧ id ∈ l.

Lemma publish_heap s name msg id : wf s →
  heap (Publish s name msg) !! id = if decide (id ∈ default [] (subs s !! name)) then (λ x, if closed x then x else push x msg) <$> heap s !! id else heap s !! id.
Proof.
  intros (_ & Hnd & _). unfold Publish. cbn [heap]. apply publish_loop. destruct (subs s !! name) eqn:H; [by eapply Hnd|constructor].
Qed.

Lemma publish_closed s name msg id : wf s → IsClosed (Publish s name msg) id = IsClosed s id.
Proof.
  intros Hwf. unfold IsClosed. rewrite publish_heap by done. destruct (decide _); [|done]. destruct (heap s !! id) as [x|]; [|done]. cbn.
  destruct (closed x) eqn:Hc; [done|]. unfold push. by destruct (decide _).
Qed.

Lemma filter_open_elem (s : Service) (l : list nat) id : IsClosed s id = false → id ∈ l → id ∈ base.filter (λ id, IsClosed s id = false) l.
Proof. intros ? ?. by apply list_elem_of_filter. Qed.

Lemma wf_op s o : wf s → wf (run_op s o).
Proof.
  intros Hwf. destruct Hwf as (Hin & Hnd & Hlt) eqn:E. destruct o as [name|name msg|id|]; cbn.
  - split_and!; cbn.
    + intros n l id. destruct (decide (name = n)) as [<-|Hne].
      * rewrite lookup_insert_eq. intros [= <-]. intros [Hi|Hi]%elem_of_app; [|apply list_elem_of_singleton in Hi as ->].
        -- destruct (subs s !! name) eqn:Hs; [|by apply elem_of_nil in Hi]. destruct (Hin _ _ _ Hs Hi) as [? ?].
           split; [lia|]. rewrite lookup_insert_ne by lia. done.
        -- split; [lia|]. by rewrite lookup_insert_eq.
      * rewrite lookup_insert_ne by done. intros Hs Hi. destruct (Hin _ _ _ Hs Hi). split; [lia|]. by rewrite lookup_insert_ne by lia.
    + intros n l. destruct (decide (name = n)) as [<-|Hne]; [|rewrite lookup_insert_ne by done; apply Hnd].
      rewrite lookup_insert_eq. intros [= <-]. apply list.NoDup_app. split_and!; [|intros id Hi Hx; apply list_elem_of_singleton in Hx as ->|apply NoDup_singleton].
      * destruct (subs s !! name) eqn:Hs; [by eapply Hnd|constructor].
      * destruct (subs s !! name) eqn:Hs; [|by apply elem_of_nil in Hi]. destruct (Hin _ _ _ Hs Hi). lia.
    + intros id. destruct (decide (id = next s)) as [->|]; [lia|]. rewrite lookup_insert_ne by done. intros H%Hlt. lia.
  - assert (Hsome : ∀ id, is_Some (heap (Publish s name msg) !! id) ↔ is_Some (heap s !! id)).
    { intros id. rewrite publish_heap by done. destruct (decide _); [|done]. by rewrite fmap_is_Some. }
    split_and!; cbn; [|done|]; intros *; rewrite Hsome; eauto.
  - split_and!; cbn; [|done|]; intros *; rewrite lookup_alter_is_Some; eauto.
  - unfold Cleanup. destruct (decide _) as [|Hz]; [done|]. split_and!; cbn; [| |done]; intros n l.
    + intros id. rewrite lookup_omap. intros Hl Hi. apply bind_Some in Hl as (l0 & Hs & Hl).
      destruct (base.filter _ l0) eqn:Hf; [done|]. injection Hl as <-. rewrite <- Hf in Hi. apply list_elem_of_filter in Hi as [_ Hi]. eauto.
    + rewrite lookup_omap. intros Hl. apply bind_Some in Hl as (l0 & Hs & Hl). destruct (base.filter _ l0) eqn:Hf; [done|].
      injection Hl as <-. rewrite <- Hf. by eapply list.NoDup_filter, Hnd.
Qed.

Lemma subscribed_op s name id o : subscribed s name id → o ≠ OpClose id → len (got s id) ≤ 16 →
  subscribed (run_op s o) name id ∧ got (run_op s o) id = take 16 (got s id ++ messages name [o]).
Proof.
  intros (Hwf & Ho & Huniq & l & Hs & Hi) Hne Hlen. assert (Hwf' := wf_op s o Hwf).
  assert (Hold : got s id = take 16 (got s id ++ [])) by (rewrite app_nil_r, take_ge; [done|unfold len in Hlen; lia]).
  destruct Hwf as (Hin & Hnd & Hlt) eqn:E. destruct (Hin _ _ _ Hs Hi) as [Hid [x Hx]].
  destruct o as [n|n msg|k|]; cbn [run_op messages omap list_omap] in *.
  - assert (Hk : ∀ v, (<[next s := v]> (heap s)) !! id = heap s !! id) by (intros v; by rewrite lookup_insert_ne by lia).
    split; [|unfold got; cbn [heap Subscribe snd]; by rewrite Hk]. split; [done|]. unfold IsClosed in *. cbn [heap subs Subscribe snd] in *. rewrite Hk. split; [done|]. split.
    + intros n' l'. destruct (decide (n = n')) as [<-|]; [|rewrite lookup_insert_ne by done; apply Huniq].
      rewrite lookup_insert_eq. intros [= <-] [Hi'|Hi']%elem_of_app; [|apply list_elem_of_singleton in Hi'; lia].
      destruct (subs s !! n) eqn:Hn; [by eapply Huniq|by apply elem_of_nil in Hi'].
    + destruct (decide (n = name)) as [->|]; [|exists l; by rewrite lookup_insert_ne].
      eexists. rewrite lookup_insert_eq. split; [done|]. rewrite Hs. apply elem_of_app. by left.
  - split; [split; [done|rewrite publish_closed by done; eauto]|]. unfold got. rewrite publish_heap by done.
    unfold IsClosed in Ho. rewrite Hx in *. cbn. destruct (decide (n = name)) as [->|Hn]; cbn.
    + rewrite Hs, decide_True by done. cbn. rewrite Ho. unfold got in Hlen. rewrite Hx in Hlen. unfold push.
      destruct (decide (len (buffer x) < 16)); cbn.
      * rewrite take_ge; [done|]. rewrite length_app. cbn. unfold len in *. lia.
      * rewrite take_app_le, take_ge by (unfold len in *; lia). done.
    + rewrite decide_False; [cbn; unfold got in Hold; rewrite Hx in Hold; exact Hold|].
      intros Hi'. destruct (subs s !! n) eqn:Hsn; [|by apply elem_of_nil in Hi']. apply Hn. by eapply Huniq.
  - assert (Hk : heap (Sub_Close s k) !! id = heap s !! id) by (cbn; apply lookup_alter_ne; congruence).
    split; [|unfold got; by rewrite Hk]. split; [done|]. unfold IsClosed. rewrite Hk. split; [exact Ho|]. cbn. eauto.
  - unfold Cleanup in *. destruct (decide _); [split; [split; [done|eauto]|exact Hold]|]. cbn. split; [|exact Hold].
    split; [done|]. split; [exact Ho|]. cbn. split.
    + intros n' l'. rewrite lookup_omap. intros Hl Hi'. apply bind_Some in Hl as (l0 & Hs0 & Hl).
      destruct (base.filter _ l0) eqn:Hf; [done|]. injection Hl as <-. rewrite <- Hf in Hi'. apply list_elem_of_filter in Hi' as [_ ?]. by eapply Huniq.
    + rewrite lookup_omap, Hs. cbn. pose proof (filter_open_elem s l id Ho Hi) as Hf.
      destruct (base.filter _ l) eqn:Hfl; [by apply elem_of_nil in Hf|]. eexists. split; [done|]. exact Hf.
Qed.

Lemma messages_cons name o ops : messages name (o :: ops) = messages name [o] ++ messages name ops.
Proof. destruct o as [|n m| |]; try done. cbn. by destruct (decide (n = name)). Qed.

(** Whatever else happens, an open subscriber gets the first sixteen messages of its name in the
    order they are published. *)
Lemma subscriber_gets s name id ops : subscribed s name id → OpClose id ∉ ops → len (got s id) ≤ 16 →
  got (foldl run_op s ops) id = take 16 (got s id ++ messages name ops).
Proof.
  revert s. induction ops as [|o ops IH]; intros s Hs Hn Hl; cbn [foldl].
  { cbn. rewrite app_nil_r, take_ge; [done|unfold len in Hl; lia]. }
  destruct (subscribed_op s name id o Hs) as [Hs' Hg]; [set_solver|done|]. rewrite IH; [|done|set_solver|].
  - rewrite Hg, (messages_cons name o ops), (app_assoc (got s id)).
    set (a := got s id ++ messages name [o]). destruct (decide (length a ≤ 16)%nat); [by rewrite (take_ge a)|].
    rewrite (take_app_le (take 16 a)) by (rewrite length_take; lia). by rewrite take_take, take_app_le by lia.
  - rewrite Hg. unfold len. rewrite length_take. lia.
Qed.
End pubsub.
End PubSub.

(** ** Requests over UDP *)

Record udpDnsRequest := mkUdpRequest { u_req : dnsRequest; u_ID : Z; u_additionals : nat; u_expire : Z }.
Record ClassicNameServer := mkClassic { requests : gmap Z udpDnsRequest; reqID : Z }.

(** [uint16(atomic.AddUint32(&s.reqID, 1))]. *)
Definition newReqID (s : ClassicNameServer) : Z * ClassicNameServer :=
  let n := reqID s +32 1 in (u16 n, mkClassic (requests s) n).

Definition addPendingRequest (s : ClassicNameServer) (now : Z) (req : udpDnsRequest) : ClassicNameServer :=
  mkClassic (<[u_ID req := mkUdpRequest (u_req req) (u_ID req) (u_additionals req) (now + 8 * second)]> (requests s)) (reqID s).

Definition RequestsCleanup (s : ClassicNameServer) (now : Z) : go ClassicNameServer :=
  if decide (size (requests s) = 0%nat) then Err (ErrMsg "nothing to do. stopping...")
  else Ok (mkClassic (base.filter (λ p, now ≤ u_expire p.2) (requests s)) (reqID s)).

(** What a response leads to: nothing, the request once more, or an answer to store. *)
Inductive Response := Unknown | Retry (req : udpDnsRequest) | Store (req : dnsRequest) (rec : IPRecord).

Definition HandleResponse (s : ClassicNameServer) (now : Z) (rec : go IPRecord) : ClassicNameServer * Response :=
  match rec with
  | Ok ipRec =>
      match requests s !! ReqID ipRec with
      | None => (s, Unknown)
      | Some req =>
          let s := mkClassic (delete (ReqID ipRec) (requests s)) (reqID s) in
          if Truncated ipRec && bool_decide (u_additionals req = 0%nat) then
            let '(id, s) := newReqID s in
            let newReq := mkUdpRequest (u_req req) id 1 (u_expire req) in
            (addPendingRequest s now newReq, Retry newReq)
          else (s, Store (u_req req) ipRec)
      end
  | _ => (s, Unknown)
  end.

(** [buildReqMsgs], where the name is valid: a request per family, with fresh IDs; [opts] is the
    number of additional records. *)
Definition buildReqMsgs (s : ClassicNameServer) (fqdn : str) (opt : IPOption) (opts : nat) : list udpDnsRequest * ClassicNameServer :=
  let add (enabled : bool) t (st : list udpDnsRequest * ClassicNameServer) :=
    if enabled then let '(id, s) := newReqID st.2 in (st.1 ++ [mkUdpRequest (mkDnsRequest t fqdn) id opts 0], s) else st in
  add (IPv6Enable opt) TypeAAAA (add (IPv4Enable opt) TypeA ([], s)).

(** [sendQuery]: the server, what is dispatched and how many errors are reported; the name may be
    invalid, and a message may fail to pack. *)
Fixpoint send_loop (packs : udpDnsRequest → bool) (s : ClassicNameServer) (now : Z) (reqs : list udpDnsRequest) : ClassicNameServer * list udpDnsRequest * nat :=
  match reqs with
  | [] => (s, [], 0%nat)
  | r :: reqs =>
      let s := addPendingRequest s now r in
      if packs r then let '(s, sent, errs) := send_loop packs s now reqs in (s, r :: sent, errs) else (s, [], 1%nat)
  end.
Definition sendQuery (validName : bool) (packs : udpDnsRequest → bool) (s : ClassicNameServer) (now : Z) (fqdn : str) (opt : IPOption) (opts : nat) :
    ClassicNameServer * list udpDnsRequest * nat :=
  if validName then let '(reqs, s) := buildReqMsgs s fqdn opt opts in send_loop packs s now reqs
  else (s, [], (Nat.b2n (IPv4Enable opt) + Nat.b2n (IPv6Enable opt))%nat).

Lemma newReqID_differs s : (newReqID s).1 ≠ (newReqID (newReqID s).2).1.
Proof. unfold newReqID. cbn. unfold u16, u32. dlia. Qed.

(** What is sent is pending under its ID until it is answered. *)
Lemma sent_pending s now fqdn opt opts s' sent errs r : sendQuery true (λ _, true) s now fqdn opt opts = (s', sent, errs) → r ∈ sent →
  domain (u_req r) = fqdn ∧ needed opt (reqType (u_req r)) = true ∧
  requests s' !! u_ID r = Some (mkUdpRequest (u_req r) (u_ID r) opts (now + 8 * second)).
Proof.
  unfold sendQuery, buildReqMsgs. pose proof (newReqID_differs s) as Hd.
  destruct (newReqID s) as [i1 s1] eqn:E1. cbn [fst snd] in Hd. destruct (newReqID s1) as [i2 s2] eqn:E2. cbn [fst] in Hd.
  destruct opt as [[] [] f]; cbn -[newReqID]; rewrite ?E1; cbn -[newReqID]; rewrite ?E2; cbn; intros [= <- <- _] Hin.
  - apply elem_of_cons in Hin as [->|Hin]; [|apply list_elem_of_singleton in Hin as ->]; cbn; (split; [done|]; split; [done|]).
    + by rewrite lookup_insert_ne, lookup_insert_eq by congruence.
    + by rewrite lookup_insert_eq.
  - apply list_elem_of_singleton in Hin as ->. cbn. by rewrite lookup_insert_eq.
  - apply list_elem_of_singleton in Hin as ->. cbn. by rewrite lookup_insert_eq.
  - by apply elem_of_nil in Hin.
Qed.

(** A reply is stored for the request whose ID it has, once: the same reply again is unknown. *)
Lemma udp_reply_once s now rec req : requests s !! ReqID rec = Some req → Truncated rec = false →
  (HandleResponse s now (Ok rec)).2 = Store (u_req req) rec ∧
  (HandleResponse (HandleResponse s now (Ok rec)).1 now (Ok rec)).2 = Unknown.
Proof. intros H Ht. unfold HandleResponse. rewrite H, Ht. cbn. by rewrite lookup_delete_eq. Qed.

(** A truncated reply is asked again with a larger size, under a new ID, but only once. *)
Lemma udp_truncated_retries s now rec req : requests s !! ReqID rec = Some req → Truncated rec = true →
  if decide (u_additionals req = 0%nat)
  then ∃ r, (HandleResponse s now (Ok rec)).2 = Retry r ∧ u_req r = u_req req ∧ u_additionals r = 1%nat ∧
            requests (HandleResponse s now (Ok rec)).1 !! u_ID r = Some (mkUdpRequest (u_req req) (u_ID r) 1 (now + 8 * second))
  else (HandleResponse s now (Ok rec)).2 = Store (u_req req) rec.
Proof.
  intros H Ht. unfold HandleResponse. rewrite H, Ht. cbn [andb]. destruct (decide (u_additionals req = 0%nat)) as [E|E].
  - rewrite bool_decide_eq_true_2 by done. cbn. eexists. split_and!; [done..|]. cbn. by rewrite lookup_insert_eq.
  - by rewrite bool_decide_eq_false_2.
Qed.

(** IDs come back after 65536 requests: a late reply is then stored for another request. *)
Lemma udp_id_comes_back n m : newReqID (mkClassic m (n +32 65536)) = ((newReqID (mkClassic m n)).1, mkClassic m (n +32 65537)).
Proof. unfold newReqID. cbn. f_equal; [unfold u16, u32; dlia|f_equal; unfold u32; dlia]. Qed.
