(* ===== verification/Dns.v ===== *)
(** * The DNS client

    Models [app/dns/hosts.go] (static hosts), [nameserver.go] (one client: its server, its options
    and its filters), [dns.go] (construction, the choice and order of clients, serial and
    parallel queries, [LookupIP]), [nameserver_fakedns.go] and [config.go]. A name server is the
    answers it gives; a lookup asks each client at most once. Creating servers and building
    matchers are arguments. *)

From stdpp Require Import sorting.
From S2P Require Import Prelude Net StrMatcher StrAutomaton StrMph IpMatcher GeoLoader GeoDomain RouteCond DnsCache.

#[local] Open Scope Z_scope.

Section dns.
Context {D T : Type} `{DomainMatcherOps D} `{NetipxOps T} (lowerRunes : str → str).

Abbreviation lower := (strings_ToLower lowerRunes).

(** What a query returns: addresses, time to live, error. *)
Abbreviation Answer := (list ip * Z * option DnsError)%type.

(** ** Static hosts *)

(** An address, or an [RCodeError], which is an address in the code; its methods panic. *)
Inductive HostAddress := HAddr (a : Address) | HRCode (code : Z).
Definition HFamily (h : HostAddress) : go AddressFamily := match h with HAddr a => Ok (Family a) | HRCode _ => Panic end.

Record HostMapping := mkHostMapping { hm_Domain : DomainRule; hm_Ip : list ip; hm_ProxiedDomain : str }.
Record StaticHosts := mkStaticHosts { responses : list (list HostAddress); h_matcher : option D }.

(** [strconv.Atoi]. *)
Definition Atoi (s : str) : option Z :=
  let number s := match s with [] => None | _ => GoText.digits_value 0 s end in
  let v := match s with
    | c :: rest => if decide (c = x2d) then Z.opp <$> number rest else if decide (c = x2b) then number rest else number s
    | [] => None
    end in
  v ≫= λ n, if decide (-9223372036854775808 ≤ n ≤ 9223372036854775807) then Some n else None.

Definition host_response (m : HostMapping) : go (list HostAddress) :=
  match hm_ProxiedDomain m with
  | c :: rest =>
      if decide (c = x23) then
        match Atoi rest with Some rcode => Ok [HRCode (u16 rcode)] | None => Err (ErrMsg "invalid syntax") end
      else Ok [HAddr (DomainAddress (c :: rest))]
  | [] => Ok (omap (λ i, HAddr <$> IPAddress i) (hm_Ip m))
  end.

Fixpoint host_responses (hosts : list HostMapping) : go (list (list HostAddress)) :=
  match hosts with
  | [] => Ok []
  | m :: hosts => r ← host_response m; rs ← host_responses hosts; Ok (r :: rs)
  end.

Definition NewStaticHosts (BuildDomainMatcher : list DomainRule → go D) (hosts : list HostMapping) : go StaticHosts :=
  reps ← host_responses hosts;
  match hosts with
  | [] => Ok (mkStaticHosts [] None)
  | _ => matcher ← BuildDomainMatcher (hm_Domain <$> hosts); Ok (mkStaticHosts reps (Some matcher))
  end.

Fixpoint filterIP (ips : list HostAddress) (opt : IPOption) : go (list HostAddress) :=
  match ips with
  | [] => Ok []
  | i :: ips =>
      f ← HFamily i;
      rest ← filterIP ips opt;
      Ok (if (IsIPv4 f && IPv4Enable opt) || (IsIPv6 f && IPv6Enable opt) then i :: rest else rest)
  end.

(** The addresses, [None] for a nil slice, or an error. *)
Inductive HostResult := HostErr (e : DnsError) | HostAddrs (addrs : option (list HostAddress)).

Definition rcode_of (rep : list HostAddress) : option Z :=
  head (omap (λ h, match h with HRCode c => Some c | HAddr _ => None end) rep).

Fixpoint lookup_loop (h : StaticHosts) (idxs : list Z) (ips : list HostAddress) (found : bool) : go HostResult :=
  match idxs with
  | [] => Ok (HostAddrs (if found then Some ips else None))
  | idx :: idxs =>
      rep ← ok_or_panic (index (responses h) idx);
      match rcode_of rep with
      | Some code => Ok (HostErr (if decide (code = 0) then ErrEmptyResponse else RCodeError code))
      | None => lookup_loop h idxs (ips ++ rep) true
      end
  end.

Definition lookupInternal (h : StaticHosts) (m : D) (domain : str) : go HostResult :=
  idxs ← dm_Match m domain; lookup_loop h idxs [] false.

Fixpoint hosts_lookup (maxDepth : nat) (h : StaticHosts) (m : D) (domain : str) (opt : IPOption) : go HostResult :=
  r ← lookupInternal h m (lower domain);
  match r with
  | HostErr e => Ok (HostErr e)
  | HostAddrs None => Ok (HostAddrs None)
  | HostAddrs (Some []) => Ok (HostAddrs (Some []))
  | HostAddrs (Some addrs) =>
      alias ← match addrs with
              | [HAddr (domainAddress d)] => Ok (Some d)
              | [a] => _ ← HFamily a; Ok None
              | _ => Ok None
              end;
      match alias with
      | Some d =>
          match maxDepth with
          | O => Ok (HostAddrs (Some addrs))
          | S maxDepth =>
              unwrapped ← hosts_lookup maxDepth h m d opt;
              match unwrapped with
              | HostErr e => Ok (HostErr e)
              | HostAddrs (Some u) => Ok (HostAddrs (Some u))
              | HostAddrs None => Ok (HostAddrs (Some addrs))
              end
          end
      | None => f ← filterIP addrs opt; Ok (HostAddrs (Some f))
      end
  end.

Definition Lookup (h : StaticHosts) (domain : str) (opt : IPOption) : go HostResult :=
  match h_matcher h with None => Ok (HostAddrs None) | Some m => hosts_lookup 5 h m domain opt end.

(** [toNetIP]. *)
Fixpoint toNetIP (addrs : list HostAddress) : go (list ip) :=
  match addrs with
  | [] => Ok []
  | HRCode _ :: _ => Panic
  | HAddr a :: addrs =>
      if IsIP (Family a) then i ← IP a; rest ← toNetIP addrs; Ok (i :: rest)
      else Err (ErrMsg "Failed to convert address to Net IP.")
  end.

(** ** One client *)

(** [Server]: its name, and the answers it gives. *)
Record Server := mkServer { Name : str; IsDisableCache : bool; Server_QueryIP : str → IPOption → Answer }.

Record Client := mkClient {
  server : Server;
  skipFallback : bool;
  expectedIPs : option (IPMatcher (T := T));
  unexpectedIPs : option (IPMatcher (T := T));
  actPrior : bool;
  actUnprior : bool;
  tag : str;
  timeoutMs : Z;
  finalQuery : bool;
  c_ipOption : IPOption;
  checkSystem : bool;
  policyID : Z;
}.

Definition and_option (o : IPOption) (v4 v6 : bool) : IPOption := mkIPOption (IPv4Enable o && v4) (IPv6Enable o && v6) (FakeEnable o).
(** [utils.CheckRoutes] is [routes]. *)
Definition restrict (check : bool) (routes : bool * bool) (own o : IPOption) : IPOption :=
  if check then and_option o routes.1 routes.2 else and_option o (IPv4Enable own) (IPv6Enable own).
Definition no_family (o : IPOption) : bool := negb (IPv4Enable o) && negb (IPv6Enable o).

Definition empty_answer : Answer := ([], 0, Some ErrEmptyResponse).

(** A filter that must leave something, and one that may prefer. *)
Definition must_filter (ips : list ip) (f : option (list ip)) (k : list ip → Answer) : Answer :=
  match f with
  | None => k ips
  | Some ips => if decide (len ips = 0) then empty_answer else k ips
  end.
Definition prefer (ips : list ip) (f : option (list ip)) : list ip :=
  match f with
  | None => ips
  | Some new => if decide (0 < len new) then new else ips
  end.

Definition expected (c : Client) (prior : bool) (ips : list ip) : option (list ip) :=
  match expectedIPs c with Some m => if Bool.eqb (actPrior c) prior then Some (IP_FilterIPs m ips).1 else None | None => None end.
Definition unexpected (c : Client) (unprior : bool) (ips : list ip) : option (list ip) :=
  match unexpectedIPs c with Some m => if Bool.eqb (actUnprior c) unprior then Some (IP_FilterIPs m ips).2 else None | None => None end.

Definition Client_QueryIP (routes : bool * bool) (c : Client) (domain : str) (opt : IPOption) : Answer :=
  let opt := restrict (checkSystem c) routes (c_ipOption c) opt in
  if no_family opt then empty_answer
  else
    let '(ips, ttl, err) := Server_QueryIP (server c) domain opt in
    match err with
    | Some e => ([], 0, Some e)
    | None =>
        if decide (len ips = 0) then empty_answer
        else
          must_filter ips (expected c false ips) (λ ips,
          must_filter ips (unexpected c false ips) (λ ips,
          let ips := prefer ips (expected c true ips) in
          let ips := prefer ips (unexpected c true ips) in
          (ips, ttl, None)))
    end.

(** [FakeDNSServer.QueryIP], over the answers of a fake DNS engine. *)
Definition FakeDNS_QueryIP (engine : option (str → bool → bool → list HostAddress)) (domain : str) (opt : IPOption) : go (list ip * Z) + DnsError :=
  match engine with
  | None => inl (Err (ErrMsg "Unable to locate a fake DNS Engine"))
  | Some get =>
      match toNetIP (get domain (IPv4Enable opt) (IPv6Enable opt)) with
      | Ok [] => inr ErrEmptyResponse
      | Ok ips => inl (Ok (ips, 1))
      | Err _ => inl (Err (ErrMsg "Unable to convert IP to net ip"))
      | Panic => inl Panic
      end
  end.

(** ** The clients of a lookup *)

Record DomainMatcherInfo := mkInfo { clientIdx : Z }.
Record DNS := mkDNS {
  disableFallback : bool;
  disableFallbackIfMatch : bool;
  enableParallelQuery : bool;
  s_ipOption : IPOption;
  hosts : StaticHosts;
  clients : list Client;
  domainMatcher : option D;
  matcherInfos : list DomainMatcherInfo;
  s_checkSystem : bool;
}.

(** The result of a loop of [sortClients]: used marks and clients so far; [inr] returns them. *)
Definition Sorting : Type := (list bool * list nat) + list nat.

(** One candidate: taken unless used; a final one ends the search. *)
Definition take_client (used : list bool) (cl : list nat) (i : nat) (c : Client) : Sorting :=
  if finalQuery c then inr (cl ++ [i]) else inl (<[i := true]> used, cl ++ [i]).

Fixpoint match_loop (s : DNS) (matches : list Z) (used : list bool) (cl : list nat) : go Sorting :=
  match matches with
  | [] => Ok (inl (used, cl))
  | m :: matches =>
      info ← ok_or_panic (index (matcherInfos s) m);
      client ← ok_or_panic (index (clients s) (clientIdx info));
      u ← ok_or_panic (index used (clientIdx info));
      if u : bool then match_loop s matches used cl
      else
        match take_client used cl (Z.to_nat (clientIdx info)) client with
        | inl (used, cl) => match_loop s matches used cl
        | inr cl => Ok (inr cl)
        end
  end.

Fixpoint fallback_loop (cs : list Client) (idx : nat) (used : list bool) (cl : list nat) : go Sorting :=
  match cs with
  | [] => Ok (inl (used, cl))
  | c :: cs =>
      u ← ok_or_panic (used !! idx);
      if u || skipFallback c then fallback_loop cs (S idx) used cl
      else
        match take_client used cl idx c with
        | inl (used, cl) => fallback_loop cs (S idx) used cl
        | inr cl => Ok (inr cl)
        end
  end.

(** [sortClients], as positions in [clients]; [sort.Slice] of numbers is [merge_sort]. *)
Definition sortClients (s : DNS) (domain : str) : go (list nat) :=
  r ← match domainMatcher s with
      | None => Ok (inl (replicate (length (clients s)) false, []))
      | Some m => ms ← dm_Match m (lower domain); match_loop s (merge_sort Z.le ms) (replicate (length (clients s)) false) []
      end;
  match r with
  | inr cl => Ok cl
  | inl (used, cl) =>
      let hasMatch := bool_decide (cl ≠ []) in
      r ← (if negb (disableFallback s || disableFallbackIfMatch s && hasMatch) then fallback_loop (clients s) 0 used cl else Ok (inl (used, cl)));
      match r with
      | inr cl => Ok cl
      | inl (_, []) => Ok (match clients s with [] => [] | _ => [0%nat] end)
      | inl (_, cl) => Ok cl
      end
  end.

(** ** Queries *)

Definition returning (base : option DnsError) : DnsError := NewError "returning nil for domain " base.

(** The loop of [mergeQueryErrors]: the one error beside missing records, [inr] for several. *)
Fixpoint one_error (errs : list DnsError) (noRNF : option DnsError) : option DnsError + unit :=
  match errs with
  | [] => inl noRNF
  | err :: errs =>
      if Is_ err errRecordNotFound then one_error errs noRNF
      else
        match noRNF with
        | None => one_error errs (Some err)
        | Some e => if negb (Is_ err e) then inr tt else one_error errs noRNF
        end
  end.

Definition mergeQueryErrors (errs : list DnsError) : DnsError :=
  match errs with
  | [] => ErrEmptyResponse
  | _ =>
      match one_error errs None with
      | inr _ => returning (Combine errs)
      | inl noRNF =>
          if Is noRNF ErrEmptyResponse then ErrEmptyResponse
          else returning (Some (default errRecordNotFound noRNF))
      end
  end.

(** [strings.EqualFold] on ASCII names. *)
Definition EqualFold (a b : str) : bool := bool_decide (ToLower a = ToLower b).
Definition skipped (opt : IPOption) (c : Client) : bool := negb (FakeEnable opt) && EqualFold (Name (server c)) (s2b "FakeDNS").

Fixpoint serial_loop (routes : bool * bool) (domain : str) (opt : IPOption) (cs : list Client) (errs : list DnsError) : Answer :=
  match cs with
  | [] => ([], 0, Some (mergeQueryErrors errs))
  | c :: cs =>
      if skipped opt c then serial_loop routes domain opt cs errs
      else
        let '(ips, ttl, err) := Client_QueryIP routes c domain opt in
        if decide (0 < len ips) then (ips, ttl, None)
        else serial_loop routes domain opt cs (errs ++ [default ErrEmptyResponse err])
  end.

Definition serialQuery (routes : bool * bool) (domain : str) (opt : IPOption) (cs : list Client) : Answer :=
  serial_loop routes domain opt cs [].

(** [asyncQueryAll]: what each client sends to the channel. *)
Definition async_result (routes : bool * bool) (domain : str) (opt : IPOption) (c : Client) : Answer :=
  if skipped opt c then empty_answer else Client_QueryIP routes c domain opt.

Record group := mkGroup { g_start : nat; g_end : nat }.

(** The loop of [makeGroups] from position [i], the group so far from [s] to [i - 1]. *)
Fixpoint groups_loop (prev : Client) (rest : list Client) (s i : nat) (groups : list group) : list group :=
  match rest with
  | [] => groups ++ [mkGroup s (i - 1)]
  | c :: rest =>
      if decide (policyID prev = policyID c) then groups_loop c rest s (S i) groups
      else groups_loop c rest i (S i) (groups ++ [mkGroup s (i - 1)])
  end.
Definition makeGroups (cs : list Client) : list group :=
  match cs with [] => [] | c :: rest => groups_loop c rest 0 1 [] end.

(** [groupOf]: the group that has the position. *)
Fixpoint groupOf (groups : list group) (i : nat) : nat :=
  match groups with
  | [] => 0%nat
  | g :: groups => if decide (i ≤ g_end g)%nat then 0%nat else S (groupOf groups i)
  end.

Definition success (a : Answer) : bool := let '(ips, _, err) := a in match err with None => bool_decide (0 < len ips) | Some _ => false end.

(** The two loops over a group: the first success there is, and the errors of a group that failed
    ([r.err] of a result that is not there panics). *)
Definition positions (g : group) : list nat := seq (g_start g) (S (g_end g) - g_start g).
Definition group_success (results : list (option Answer)) (g : group) : option Answer :=
  head (omap (λ j, match results !! j with Some (Some r) => if success r then Some r else None | _ => None end) (positions g)).
Fixpoint group_errors (results : list (option Answer)) (js : list nat) : go (list DnsError) :=
  match js with
  | [] => Ok []
  | j :: js =>
      r ← match results !! j with Some (Some r) => Ok r | _ => Panic end;
      rest ← group_errors results js;
      Ok (default ErrEmptyResponse r.2 :: rest)
  end.

(** The inner loop: [groups] from [nextGroup] on. An answer, or where it waits and the errors. *)
Fixpoint race (results : list (option Answer)) (pending : list Z) (groups : list group) (nextGroup : nat) (errs : list DnsError) :
    go (Answer + (nat * list DnsError)) :=
  match groups with
  | [] => Ok (inr (nextGroup, errs))
  | g :: groups =>
      match group_success results g with
      | Some (ips, ttl, _) => Ok (inl (ips, ttl, None))
      | None =>
          p ← ok_or_panic (pending !! nextGroup);
          if decide (0 < p) then Ok (inr (nextGroup, errs))
          else es ← group_errors results (positions g); race results pending groups (S nextGroup) (errs ++ es)
      end
  end.

(** The outer loop over the results in the order they arrive. *)
Fixpoint arrivals (groups : list group) (order : list (nat * Answer)) (results : list (option Answer)) (pending : list Z)
    (nextGroup : nat) (errs : list DnsError) : go Answer :=
  match order with
  | [] => Ok ([], 0, Some (mergeQueryErrors errs))
  | (i, a) :: order =>
      let results := <[i := Some a]> results in
      let pending := alter Z.pred (groupOf groups i) pending in
      r ← race results pending (drop nextGroup groups) nextGroup errs;
      match r with
      | inl a => Ok a
      | inr (nextGroup, errs) => arrivals groups order results pending nextGroup errs
      end
  end.

(** [parallelQuery]; [order] is the order in which the clients answer. *)
Definition parallelQuery (routes : bool * bool) (domain : str) (opt : IPOption) (cs : list Client) (order : list nat) : go Answer :=
  let groups := makeGroups cs in
  let results := omap (λ i, (λ c, (i, async_result routes domain opt c)) <$> cs !! i) order in
  arrivals groups results (replicate (length cs) None) ((λ g, Z.of_nat (g_end g) - Z.of_nat (g_start g) + 1) <$> groups) 0 [].

(** ** [LookupIP] *)

Definition TrimDot (s : str) : str := if decide (list.last s = Some dot) then take (length s - 1) s else s.

(** [order n] is in which order [n] clients answer a parallel query. *)
Definition LookupIP (routes : bool * bool) (order : nat → list nat) (s : DNS) (domain : str) (opt : IPOption) : go Answer :=
  let domain := TrimDot domain in
  if decide (domain = []) then Ok ([], 0, Some (NewError "empty domain name" None))
  else
    let opt := restrict (s_checkSystem s) routes (s_ipOption s) opt in
    if no_family opt then Ok empty_answer
    else
      let servers domain :=
        idx ← sortClients s domain;
        let cs := omap (λ i, clients s !! i) idx in
        if enableParallelQuery s then parallelQuery routes domain opt cs (order (length cs)) else Ok (serialQuery routes domain opt cs) in
      h ← Lookup (hosts s) domain opt;
      match h with
      | HostErr e => if Is_ e ErrEmptyResponse then Ok empty_answer else Ok ([], 0, Some (returning (Some e)))
      | HostAddrs None => servers domain
      | HostAddrs (Some []) => Ok empty_answer
      | HostAddrs (Some [HAddr (domainAddress d)]) => servers d
      | HostAddrs (Some addrs) =>
          match toNetIP addrs with
          | Ok ips => Ok (ips, 10, None)
          | Err _ => Ok ([], 0, Some (NewError "Failed to convert address to Net IP." None))
          | Panic => Panic
          end
      end.

(** ** Construction *)

Inductive QueryStrategy := USE_IP | USE_IP4 | USE_IP6 | USE_SYS.

Definition ResolveIpOptionOverride (q : QueryStrategy) (o : IPOption) : IPOption :=
  match q with
  | USE_IP | USE_SYS => o
  | USE_IP4 => mkIPOption (IPv4Enable o) false false
  | USE_IP6 => mkIPOption false (IPv6Enable o) false
  end.

Record NameServer := mkNameServer {
  ns_Address : str;
  ns_ClientIp : ip;
  ns_SkipFallback : bool;
  ns_Domain : list DomainRule;
  ns_ExpectedIp : list IPRule;
  ns_UnexpectedIp : list IPRule;
  ns_QueryStrategy : QueryStrategy;
  ns_ActPrior : bool;
  ns_ActUnprior : bool;
  ns_Tag : str;
  ns_TimeoutMs : Z;
  ns_DisableCache : option bool;
  ns_ServeStale : option bool;
  ns_ServeExpiredTTL : option Z;
  ns_FinalQuery : bool;
  ns_PolicyID : Z;
}.
Record Config := mkConfig {
  cf_ClientIp : ip;
  cf_QueryStrategy : option QueryStrategy;     (** [None]: a number that names no strategy *)
  cf_StaticHosts : list HostMapping;
  cf_Tag : str;
  cf_NameServer : list NameServer;
  cf_DisableCache : bool;
  cf_ServeStale : bool;
  cf_ServeExpiredTTL : Z;
  cf_DisableFallback : bool;
  cf_DisableFallbackIfMatch : bool;
  cf_EnableParallelQuery : bool;
}.

Section new.
Context (BuildDomainMatcher : list DomainRule → go D) (BuildIPMatcher : list IPRule → go (IPMatcher (T := T))).
(** [NewServer], and whether the server is the local one. *)
Context (NewServer : NameServer → bool → bool → Z → ip → go (Server * bool)).
Context (LocalNameServer : Server) (randomTag : str).

Definition localTLDsAndDotlessDomainsRules : list DomainRule :=
  DomainRule_Custom (mkDomain Domain_Regex (s2b "^[^.]+$") []) ::
  ((λ v, DomainRule_Custom (mkDomain Domain_Domain v [])) <$>
   [s2b "local"; s2b "localdomain"; s2b "localhost"; s2b "lan"; s2b "home.arpa"; s2b "example"; s2b "invalid"; s2b "test"]).

Definition opt_matcher (rules : list IPRule) : go (option (IPMatcher (T := T))) :=
  match rules with [] => Ok None | _ => m ← BuildIPMatcher rules; Ok (Some m) end.

(** [NewClient]: the client and whether its server is local. *)
Definition NewClient (ns : NameServer) (clientIP : ip) (disable stale : bool) (expiredTTL : Z) (tag : str) (ipOption : IPOption) : go (Client * bool) :=
  '(server, isLocalDNS) ← NewServer ns disable stale expiredTTL clientIP;
  expectedMatcher ← opt_matcher (ns_ExpectedIp ns);
  unexpectedMatcher ← opt_matcher (ns_UnexpectedIp ns);
  Ok (mkClient server (ns_SkipFallback ns) expectedMatcher unexpectedMatcher (ns_ActPrior ns) (ns_ActUnprior ns) tag
        (if decide (0 < ns_TimeoutMs ns) then ns_TimeoutMs ns else 4000) (ns_FinalQuery ns) ipOption
        (match ns_QueryStrategy ns with USE_SYS => true | _ => false end) (ns_PolicyID ns), isLocalDNS).

(** The loop over the name servers: clients, rules and what each rule belongs to. *)
Fixpoint new_loop (config : Config) (clientIP : ip) (defaultTag : str) (ipOption : IPOption) (l : list NameServer)
    (cs : list Client) (rules : list DomainRule) (infos : list DomainMatcherInfo) :
    go (list Client * list DomainRule * list DomainMatcherInfo) :=
  match l with
  | [] => Ok (cs, rules, infos)
  | ns :: l =>
      let myClientIP := if decide (len (ns_ClientIp ns) = 4 ∨ len (ns_ClientIp ns) = 16) then ns_ClientIp ns else clientIP in
      let tag := if decide (0 < len (ns_Tag ns)) then ns_Tag ns else defaultTag in
      let option := ResolveIpOptionOverride (ns_QueryStrategy ns) ipOption in
      if no_family option then Err (ErrMsg "no QueryStrategy available for ")
      else
        '(client, isLocal) ← NewClient ns myClientIP (default (cf_DisableCache config) (ns_DisableCache ns)) (default (cf_ServeStale config) (ns_ServeStale ns))
                               (default (cf_ServeExpiredTTL config) (ns_ServeExpiredTTL ns)) tag option;
        let new := (if isLocal : bool then localTLDsAndDotlessDomainsRules else []) ++ ns_Domain ns in
        new_loop config clientIP defaultTag ipOption l (cs ++ [client]) (rules ++ new) (infos ++ ((λ _, mkInfo (u16 (len cs))) <$> new))
  end.

Definition New (config : Config) : go DNS :=
  if decide (len (cf_ClientIp config) ≠ 0 ∧ len (cf_ClientIp config) ≠ 4 ∧ len (cf_ClientIp config) ≠ 16)
  then Err (ErrMsg "unexpected client IP length ")
  else
    match cf_QueryStrategy config with
    | None => Err (ErrMsg "unexpected query strategy ")
    | Some q =>
        let ipOption := ResolveIpOptionOverride q (mkIPOption true true false) in
        h ← NewStaticHosts BuildDomainMatcher (cf_StaticHosts config);
        let defaultTag := if decide (len (cf_Tag config) = 0) then randomTag else cf_Tag config in
        '(cs, rules, infos) ← new_loop config (cf_ClientIp config) defaultTag ipOption (cf_NameServer config) [] [] [];
        m ← match rules with [] => Ok None | _ => m ← BuildDomainMatcher rules; Ok (Some m) end;
        let cs := match cs with
          | [] => [mkClient LocalNameServer false None None false false [] 0 false ipOption false 0]
          | _ => cs
          end in
        Ok (mkDNS (cf_DisableFallback config) (cf_DisableFallbackIfMatch config) (cf_EnableParallelQuery config) ipOption h cs m infos
              (match q with USE_SYS => true | _ => false end))
    end.
End new.

Definition IsOwnLink (s : DNS) (inboundTag : option str) : bool :=
  match inboundTag with
  | None => false
  | Some t => existsb (λ c, bool_decide (tag c = t)) (clients s)
  end.

(** ** The order of clients *)

(** Up to the first final client. *)
Fixpoint cut_final (s : DNS) (l : list nat) : list nat :=
  match l with
  | [] => []
  | i :: l => match clients s !! i with Some c => if finalQuery c then [i] else i :: cut_final s l | None => i :: cut_final s l end
  end.

(** The clients of the rules that match, each once, in the order of the rules; and the other
    clients that may be asked without a rule, in their order. *)
Definition matched_clients (s : DNS) (ms : list Z) : list nat :=
  foldl (λ acc i, if decide (i ∈ acc) then acc else acc ++ [i]) [] (omap (λ m, (λ x, Z.to_nat (clientIdx x)) <$> index (matcherInfos s) m) (merge_sort Z.le ms)).
Definition skips (s : DNS) (i : nat) : bool := match clients s !! i with Some c => skipFallback c | None => true end.
Definition other_clients (s : DNS) (l : list nat) : list nat :=
  base.filter (λ i, (i ∉ l) ∧ skips s i = false) (seq 0 (length (clients s))).

Definition client_order (s : DNS) (ms : list Z) : list nat :=
  let m := matched_clients s ms in
  let fallback := negb (disableFallback s || disableFallbackIfMatch s && bool_decide (m ≠ [])) in
  match cut_final s (m ++ (if fallback then other_clients s m else [])) with
  | [] => match clients s with [] => [] | _ => [0%nat] end
  | l => l
  end.

Definition final (s : DNS) (i : nat) : bool := match clients s !! i with Some c => finalQuery c | None => false end.
Definition no_final (s : DNS) (l : list nat) : Prop := Forall (λ i, final s i = false) l.

Lemma cut_final_cons s i l : cut_final s (i :: l) = if final s i then [i] else i :: cut_final s l.
Proof. cbn. unfold final. by destruct (clients s !! i). Qed.

Lemma cut_final_app s l k : no_final s l → cut_final s (l ++ k) = l ++ cut_final s k.
Proof. induction 1 as [|i l Hi _ IH]; [done|]. cbn [app]. by rewrite cut_final_cons, Hi, IH. Qed.

Lemma cut_final_at s l i k : no_final s l → final s i = true → cut_final s (l ++ i :: k) = l ++ [i].
Proof. intros Hl Hi. by rewrite cut_final_app, cut_final_cons, Hi. Qed.

Lemma cut_final_none s l : no_final s l → cut_final s l = l.
Proof. intros Hl. rewrite <- (app_nil_r l) at 1. rewrite cut_final_app by done. apply app_nil_r. Qed.

(** The marks say which clients have been taken. *)
Definition marks (s : DNS) (used : list bool) (cl : list nat) : Prop :=
  length used = length (clients s) ∧ (∀ i b, used !! i = Some b → b = bool_decide (i ∈ cl)) ∧ Forall (λ i, (i < length (clients s))%nat) cl.

Lemma marks_at s used cl i : marks s used cl → (i < length (clients s))%nat → used !! i = Some (bool_decide (i ∈ cl)).
Proof. intros (Hl & Hb & _) Hi. destruct (lookup_lt_is_Some_2 used i) as [b Hu]; [lia|]. by rewrite Hu, (Hb _ _ Hu). Qed.

Lemma marks_add s used cl i : marks s used cl → (i < length (clients s))%nat → marks s (<[i := true]> used) (cl ++ [i]).
Proof.
  intros Hm Hi. destruct Hm as (Hl & Hb & Hcl) eqn:E. split_and!; [by rewrite length_insert| |by apply Forall_app; split; [|constructor]].
  intros j b. destruct (decide (i = j)) as [<-|Hne].
  - rewrite list_lookup_insert_eq by lia. intros [= <-]. symmetry. apply bool_decide_eq_true_2. set_solver.
  - rewrite list_lookup_insert_ne by done. intros Hj. rewrite (Hb _ _ Hj). apply bool_decide_ext. set_solver.
Qed.

Lemma marks_none s : marks s (replicate (length (clients s)) false) [].
Proof.
  split_and!; [by rewrite length_replicate| |constructor]. intros i b [-> _]%lookup_replicate. symmetry. apply bool_decide_eq_false_2. by intros ?%elem_of_nil.
Qed.

(** Every rule that matches belongs to a client. *)
Definition rule_of (s : DNS) (m : Z) : Prop := ∃ info, index (matcherInfos s) m = Some info ∧ 0 ≤ clientIdx info < len (clients s).

Definition add_new (acc : list nat) (i : nat) : list nat := if decide (i ∈ acc) then acc else acc ++ [i].
Definition clients_of (s : DNS) (ms : list Z) : list nat := omap (λ m, (λ x, Z.to_nat (clientIdx x)) <$> index (matcherInfos s) m) ms.

Lemma add_new_prefix l cl : cl `prefix_of` foldl add_new cl l.
Proof.
  revert cl. induction l as [|i l IH]; intros cl; cbn; [done|]. etrans; [|apply IH]. unfold add_new. destruct (decide _); [done|by eexists].
Qed.

Lemma match_loop_spec s ms used cl : Forall (rule_of s) ms → marks s used cl → no_final s cl →
  let full := foldl add_new cl (clients_of s ms) in
  (no_final s full ∧ ∃ used', match_loop s ms used cl = Ok (inl (used', full)) ∧ marks s used' full) ∨
  (∃ l, match_loop s ms used cl = Ok (inr l) ∧ l ≠ [] ∧ ∀ k, cut_final s (full ++ k) = l).
Proof.
  intros Hms. revert used cl. induction Hms as [|m ms (info & Hi & Hidx) _ IH]; intros used cl Hm Hn; cbn [match_loop].
  { left. split; [done|]. by exists used. }
  unfold clients_of. cbn [omap list_omap]. rewrite Hi. cbn [fmap option_fmap option_map foldl]. fold (clients_of s ms).
  assert (Hlt : (Z.to_nat (clientIdx info) < length (clients s))%nat) by (unfold len in Hidx; lia).
  destruct (lookup_lt_is_Some_2 _ _ Hlt) as [c Hc].
  assert (Hic : index (clients s) (clientIdx info) = Some c) by (unfold index; by rewrite decide_True by lia).
  assert (Hiu : index used (clientIdx info) = Some (bool_decide (Z.to_nat (clientIdx info) ∈ cl)))
    by (unfold index; rewrite decide_True by lia; by apply (marks_at s)).
  cbn [ok_or_panic mbind go_bind]. rewrite Hic. cbn [ok_or_panic mbind go_bind]. rewrite Hiu. cbn [ok_or_panic mbind go_bind].
  change (add_new cl (Z.to_nat (clientIdx info))) with (if decide (Z.to_nat (clientIdx info) ∈ cl) then cl else cl ++ [Z.to_nat (clientIdx info)]).
  destruct (decide (Z.to_nat (clientIdx info) ∈ cl)) as [Hin|Hin].
  { rewrite bool_decide_eq_true_2 by done. by apply IH. }
  rewrite bool_decide_eq_false_2 by done. unfold take_client.
  assert (Hf : final s (Z.to_nat (clientIdx info)) = finalQuery c) by (unfold final; by rewrite Hc).
  destruct (finalQuery c).
  - right. eexists. split; [done|]. split; [by destruct cl|]. intros k. destruct (add_new_prefix (clients_of s ms) (cl ++ [Z.to_nat (clientIdx info)])) as [r ->].
    rewrite <- !app_assoc. by apply cut_final_at.
  - apply IH; [by apply marks_add|]. apply Forall_app. split; [done|]. by constructor.
Qed.

Definition others_from (s : DNS) (cl : list nat) (idx : nat) (n : nat) : list nat :=
  base.filter (λ i, (i ∉ cl) ∧ skips s i = false) (seq idx n).

Lemma others_skip s cl idx j n : (j < idx)%nat → others_from s (cl ++ [j]) idx n = others_from s cl idx n.
Proof.
  revert idx. induction n as [|n IH]; intros idx Hj; [done|]. unfold others_from. cbn [seq].
  rewrite !filter_cons. fold (others_from s (cl ++ [j]) (S idx) n) (others_from s cl (S idx) n). rewrite IH by lia.
  destruct (decide ((idx ∉ cl ++ [j]) ∧ skips s idx = false)) as [[H1 H2]|Hn].
  - rewrite decide_True; [done|]. split; [set_solver|done].
  - rewrite decide_False; [done|]. intros [H1 H2]. apply Hn. split; [|done]. intros [?|Hx]%elem_of_app; [done|].
    apply list_elem_of_singleton in Hx. lia.
Qed.

Lemma fallback_loop_spec s cs idx used cl : cs = drop idx (clients s) → marks s used cl → no_final s cl →
  let full := cl ++ others_from s cl idx (length cs) in
  (no_final s full ∧ ∃ used', fallback_loop cs idx used cl = Ok (inl (used', full))) ∨
  (fallback_loop cs idx used cl = Ok (inr (cut_final s full)) ∧ cut_final s full ≠ []).
Proof.
  revert idx used cl. induction cs as [|c cs IH]; intros idx used cl Hcs Hm Hn; cbn [fallback_loop length].
  { left. unfold others_from. cbn. rewrite app_nil_r. split; [done|]. by exists used. }
  assert (Hc : clients s !! idx = Some c) by (by rewrite <- (Nat.add_0_r idx), <- lookup_drop, <- Hcs).
  assert (Hlt : (idx < length (clients s))%nat) by (by apply lookup_lt_Some in Hc).
  assert (Hrest : cs = drop (S idx) (clients s)) by (rewrite <- Nat.add_1_r, <- drop_drop, <- Hcs; done).
  rewrite (marks_at _ _ _ _ Hm Hlt). cbn [ok_or_panic mbind go_bind].
  assert (Hskip : skips s idx = skipFallback c) by (unfold skips; by rewrite Hc).
  unfold others_from. cbn [seq]. rewrite filter_cons. fold (others_from s cl (S idx) (length cs)). rewrite Hskip.
  destruct (bool_decide (idx ∈ cl) || skipFallback c) eqn:E.
  { rewrite decide_False; [by apply IH|]. intros [H1 H2]. rewrite H2, bool_decide_eq_false_2 in E by done. done. }
  apply orb_false_iff in E as [Ein Esk]. apply bool_decide_eq_false_1 in Ein. rewrite decide_True by done.
  assert (Hf : final s idx = finalQuery c) by (unfold final; by rewrite Hc). unfold take_client. destruct (finalQuery c).
  - right. rewrite cut_final_at by done. split; [done|]. by destruct cl.
  - destruct (IH (S idx) (<[idx := true]> used) (cl ++ [idx])) as [[Hnf (u & Hu)]|[Hu Hne]]; [done|by apply marks_add| |..].
    + apply Forall_app. split; [done|]. by constructor.
    + rewrite others_skip, <- app_assoc in Hnf, Hu by lia. left. split; [done|]. by exists u.
    + rewrite others_skip, <- app_assoc in Hu, Hne by lia. by right.
Qed.

Lemma matched_fold s ms : matched_clients s ms = foldl add_new [] (clients_of s (merge_sort Z.le ms)).
Proof. done. Qed.

Lemma sorted_rules s ms : Forall (rule_of s) ms → Forall (rule_of s) (merge_sort Z.le ms).
Proof. intros Hm. by rewrite merge_sort_Permutation. Qed.

(** What the second half of [sortClients] makes of the matched clients. *)
Lemma fallback_spec s used cl : marks s used cl → no_final s cl →
  (r ← (if negb (disableFallback s || disableFallbackIfMatch s && bool_decide (cl ≠ [])) then fallback_loop (clients s) 0 used cl else Ok (inl (used, cl)));
   match r with
   | inr cl => Ok cl
   | inl (_, []) => Ok (match clients s with [] => [] | _ => [0%nat] end)
   | inl (_, cl) => Ok cl
   end) =
  Ok (match cut_final s (cl ++ (if negb (disableFallback s || disableFallbackIfMatch s && bool_decide (cl ≠ [])) then other_clients s cl else [])) with
      | [] => match clients s with [] => [] | _ => [0%nat] end
      | l => l
      end).
Proof.
  intros Hm Hn. destruct (negb _).
  - change (other_clients s cl) with (others_from s cl 0 (length (clients s))).
    destruct (fallback_loop_spec s (clients s) 0 used cl) as [[Hnf (u & Hu)]|[Hu Hne]]; [done..| |]; rewrite Hu; cbn [mbind go_bind].
    + rewrite cut_final_none by done. by destruct (cl ++ _).
    + by destruct (cut_final s _).
  - cbn [mbind go_bind]. rewrite app_nil_r, cut_final_none by done. by destruct cl.
Qed.

Lemma sort_clients_spec s domain : (∀ m, domainMatcher s = Some m → ∃ ms, dm_Match m (lower domain) = Ok ms ∧ Forall (rule_of s) ms) →
  ∃ ms, (match domainMatcher s with Some m => dm_Match m (lower domain) = Ok ms | None => ms = [] end) ∧
    sortClients s domain = Ok (client_order s ms).
Proof.
  intros Hmatch. unfold sortClients, client_order. destruct (domainMatcher s) as [m|].
  2: { exists []. split; [done|]. cbn [mbind go_bind]. change (matched_clients s []) with (@nil nat). apply fallback_spec; [apply marks_none|constructor]. }
  destruct (Hmatch m eq_refl) as (ms & Hms & Hrules). exists ms. split; [done|]. rewrite Hms. cbn [mbind go_bind].
  rewrite matched_fold. apply sorted_rules in Hrules.
  destruct (match_loop_spec s (merge_sort Z.le ms) _ [] Hrules (marks_none s)) as [(Hnf & u & Hu & Hm)|(l & Hu & Hne & Hl)]; [constructor| |];
    rewrite Hu; cbn [mbind go_bind].
  - by apply fallback_spec.
  - rewrite Hl. by destruct l.
Qed.

(** *** Properties of the order *)

Lemma cut_final_prefix s l : cut_final s l `prefix_of` l.
Proof.
  induction l as [|i l IH]; [done|]. rewrite cut_final_cons. destruct (final s i); [by exists l|by apply prefix_cons].
Qed.

Lemma NoDup_prefix (l k : list nat) : l `prefix_of` k → NoDup k → NoDup l.
Proof. intros [r ->]. by intros [? _]%list.NoDup_app. Qed.

Lemma add_new_NoDup l cl : NoDup cl → NoDup (foldl add_new cl l).
Proof.
  revert cl. induction l as [|i l IH]; intros cl Hcl; [done|]. cbn. apply IH. unfold add_new. destruct (decide (i ∈ cl)); [done|].
  apply list.NoDup_app. split_and!; [done| |apply NoDup_singleton]. intros j Hj Hx. apply list_elem_of_singleton in Hx as ->. done.
Qed.

Lemma add_new_Forall (P : nat → Prop) l cl : Forall P l → Forall P cl → Forall P (foldl add_new cl l).
Proof.
  intros Hl. revert cl. induction Hl as [|i l Hi _ IH]; intros cl Hcl; [done|]. cbn. apply IH. unfold add_new. destruct (decide (i ∈ cl)); [done|].
  apply Forall_app. split; [done|by constructor].
Qed.

Lemma clients_of_range s ms : Forall (rule_of s) ms → Forall (λ i, (i < length (clients s))%nat) (clients_of s ms).
Proof.
  induction 1 as [|m ms (info & Hi & Hidx) _ IH]; [constructor|]. unfold clients_of. cbn. rewrite Hi. constructor; [|exact IH].
  unfold len in Hidx. lia.
Qed.

Lemma client_order_ok s ms : Forall (rule_of s) ms →
  NoDup (client_order s ms) ∧ Forall (λ i, (i < length (clients s))%nat) (client_order s ms) ∧ (clients s ≠ [] → client_order s ms ≠ []).
Proof.
  intros Hr. unfold client_order. rewrite matched_fold. apply sorted_rules, clients_of_range in Hr.
  set (m := foldl add_new [] (clients_of s (merge_sort Z.le ms))). set (fb := negb _).
  assert (Hm : NoDup m) by (apply add_new_NoDup; constructor).
  assert (Hmr : Forall (λ i, (i < length (clients s))%nat) m) by (apply add_new_Forall; [done|constructor]).
  assert (Hall : NoDup (m ++ (if fb then other_clients s m else [])) ∧ Forall (λ i, (i < length (clients s))%nat) (m ++ (if fb then other_clients s m else []))).
  { destruct fb; [|by rewrite app_nil_r]. unfold other_clients. split.
    - apply list.NoDup_app. split_and!; [done| |apply list.NoDup_filter, NoDup_seq]. by intros i Hi [[? _] _]%list_elem_of_filter.
    - apply Forall_app. split; [done|]. apply list.Forall_forall. intros i [_ Hi]%list_elem_of_filter. apply elem_of_seq in Hi. lia. }
  destruct Hall as [H1 H2]. destruct (cut_final_prefix s (m ++ (if fb then other_clients s m else []))) as [r Hp].
  destruct (cut_final s _) as [|i l].
  - destruct (clients s) as [|c cs]; [split; [constructor|split; [constructor|done]]|]. split_and!; [apply NoDup_singleton|by constructor; [cbn; lia|constructor]|done].
  - rewrite Hp in H1, H2. apply list.NoDup_app in H1 as [H1 _]. apply Forall_app in H2 as [H2 _]. by split_and!.
Qed.

(** *** What [New] makes *)

Section made.
Context (BuildDomainMatcher : list DomainRule → go D) (BuildIPMatcher : list IPRule → go (IPMatcher (T := T))).
Context (NewServer : NameServer → bool → bool → Z → ip → go (Server * bool)) (LocalNameServer : Server) (randomTag : str).
Abbreviation new := (New BuildDomainMatcher BuildIPMatcher NewServer LocalNameServer randomTag).

(** The rules [New] builds a matcher for: those of the hosts, and those of the name servers. *)
Definition ns_rules (config : Config) (ns : NameServer) : list DomainRule :=
  let myClientIP := if decide (len (ns_ClientIp ns) = 4 ∨ len (ns_ClientIp ns) = 16) then ns_ClientIp ns else cf_ClientIp config in
  match NewServer ns (default (cf_DisableCache config) (ns_DisableCache ns)) (default (cf_ServeStale config) (ns_ServeStale ns))
          (default (cf_ServeExpiredTTL config) (ns_ServeExpiredTTL ns)) myClientIP with
  | Ok (_, true) => localTLDsAndDotlessDomainsRules
  | _ => []
  end ++ ns_Domain ns.
Definition configured (config : Config) : list (list DomainRule) :=
  [hm_Domain <$> cf_StaticHosts config; cf_NameServer config ≫= ns_rules config].

Lemma new_loop_rules config dtag o l cs rules infos cs' rules' infos' :
  new_loop BuildIPMatcher NewServer config (cf_ClientIp config) dtag o l cs rules infos = Ok (cs', rules', infos') →
  rules' = rules ++ (l ≫= ns_rules config).
Proof.
  revert cs rules infos. induction l as [|ns l IH]; intros cs rules infos; cbn [new_loop].
  { intros [= _ <- _]. by rewrite app_nil_r. }
  intros Hn. destruct (no_family _) in Hn; [done|]. apply go_bind_ok in Hn as ([client isLocal] & Hc & Hn).
  apply IH in Hn as ->. rewrite bind_cons, <- app_assoc. f_equal. f_equal.
  unfold NewClient in Hc. apply go_bind_ok in Hc as ([sv isl] & Hs & Hc).
  apply go_bind_ok in Hc as (e & _ & Hc). apply go_bind_ok in Hc as (u & _ & [= _ ->]).
  unfold ns_rules. rewrite Hs. by destruct isLocal.
Qed.

Lemma new_loop_spec config clientIP dtag o l cs rules infos cs' rules' infos' :
  new_loop BuildIPMatcher NewServer config clientIP dtag o l cs rules infos = Ok (cs', rules', infos') →
  len cs + len l ≤ 65536 → len rules = len infos → Forall (λ i, 0 ≤ clientIdx i < len cs) infos →
  len rules' = len infos' ∧ Forall (λ i, 0 ≤ clientIdx i < len cs') infos' ∧ len cs' = len cs + len l.
Proof.
  revert cs rules infos. induction l as [|ns l IH]; intros cs rules infos; cbn [new_loop].
  { intros [= <- <- <-] _ ? ?. change (len (@nil NameServer)) with 0. split_and!; [done..|lia]. }
  intros Hn Hlen Hr Hi. rewrite len_cons in *. pose proof (len_nonneg l). pose proof (len_nonneg cs).
  destruct (no_family _) in Hn; [done|]. apply go_bind_ok in Hn as ([client isLocal] & _ & Hn).
  apply IH in Hn as (E1 & E2 & E3).
  - split_and!; [done..|]. rewrite len_snoc in E3. lia.
  - rewrite len_snoc. lia.
  - unfold len in *. rewrite !(length_app rules), !(length_app infos), length_fmap. lia.
  - apply Forall_app. split.
    + eapply list.Forall_impl; [exact Hi|]. cbn. intros i Hx. rewrite len_snoc. lia.
    + apply Forall_fmap, list.Forall_forall. intros x _. cbn. rewrite u16_small, len_snoc by (unfold is_u16; lia). lia.
Qed.

(** On a domain, the matchers of the configuration answer with numbers of rules. *)
Definition numbers (m : D) (n : Z) (input : str) : Prop := ∃ ms, dm_Match m input = Ok ms ∧ Forall (λ v, 0 ≤ v < n) ms.
Definition numbers_rules (config : Config) (domain : str) : Prop := ∀ rules m,
  rules ∈ configured config → rules ≠ [] → BuildDomainMatcher rules = Ok m → numbers m (len rules) (lower domain).

Lemma new_rules config s m domain : new config = Ok s → len (cf_NameServer config) ≤ 65536 → numbers_rules config domain →
  domainMatcher s = Some m → ∃ ms, dm_Match m (lower domain) = Ok ms ∧ Forall (rule_of s) ms.
Proof.
  intros Hnew Hlen Hnum Hm. unfold New in Hnew. destruct (decide _) in Hnew; [done|]. destruct (cf_QueryStrategy config) as [q|]; [|done].
  apply go_bind_ok in Hnew as (h & _ & Hnew). apply go_bind_ok in Hnew as ([[cs rules] infos] & Hloop & Hnew).
  apply go_bind_ok in Hnew as (mo & Hmo & Hnew). injection Hnew as <-. cbn in Hm |- *. subst mo.
  assert (Hin : rules ∈ configured config) by (apply new_loop_rules in Hloop as ->; right; left).
  apply new_loop_spec in Hloop as (H1 & H2 & H3); [|change (len (@nil Client)) with 0; lia|done|constructor].
  destruct rules as [|r rules]; [done|]. apply go_bind_ok in Hmo as (m' & Hb & [= ->]).
  destruct (Hnum _ _ Hin ltac:(done) Hb) as (ms & Hms & Hv). exists ms. split; [done|].
  eapply list.Forall_impl; [exact Hv|]. intros v Hr. cbn in Hr. unfold rule_of. cbn.
  destruct (lookup_lt_is_Some_2 infos (Z.to_nat v)) as [info Hinfo]; [unfold len in *; lia|].
  exists info. split; [unfold index; by rewrite decide_True by lia|].
  assert (Hx := proj1 (list.Forall_forall _ _) H2 info (list_elem_of_lookup_2 _ _ _ Hinfo)). cbn in Hx. destruct cs; [|done]. unfold len in Hx. cbn in Hx. lia.
Qed.

Lemma new_clients config s : new config = Ok s → clients s ≠ [].
Proof.
  intros Hnew. unfold New in Hnew. destruct (decide _) in Hnew; [done|]. destruct (cf_QueryStrategy config) as [q|]; [|done].
  apply go_bind_ok in Hnew as (h & _ & Hnew). apply go_bind_ok in Hnew as ([[cs rules] infos] & Hloop & Hnew).
  apply go_bind_ok in Hnew as (mo & Hmo & Hnew). injection Hnew as <-. by destruct cs.
Qed.

(** Which clients a lookup asks, and in which order, is what the configuration says. For
    any name servers (up to 65536) and any domain, nothing is indexed out of range, and the
    clients are those of the rules that match, in the order of the rules, then the others that
    do not skip the fallback, unless the fallback is off, up to the first that is final; each at
    most once; and the first one where that leaves none. *)
Lemma dns_client_order config s domain :
  new config = Ok s → len (cf_NameServer config) ≤ 65536 → numbers_rules config domain →
  ∃ ms, (match domainMatcher s with Some m => dm_Match m (lower domain) = Ok ms | None => ms = [] end) ∧
    sortClients s domain = Ok (client_order s ms) ∧ NoDup (client_order s ms) ∧
    Forall (λ i, (i < length (clients s))%nat) (client_order s ms) ∧ client_order s ms ≠ [].
Proof.
  intros Hnew Hlen Hnum. assert (Hr := λ m, new_rules config s m domain Hnew Hlen Hnum).
  destruct (sort_clients_spec s domain Hr) as (ms & Hms & Hs). exists ms. split; [done|]. split; [done|].
  assert (Hrules : Forall (rule_of s) ms).
  { destruct (domainMatcher s) as [m|]; [|subst ms; constructor]. destruct (Hr m eq_refl) as (ms' & Hms' & ?). rewrite Hms in Hms'. by injection Hms' as <-. }
  destruct (client_order_ok s ms Hrules) as (H1' & H2 & H3). split_and!; [done..|]. apply H3. by apply (new_clients config).
Qed.

End made.

(** ** Parallel queries *)

(** Groups that cover the positions from [k] to [n] without a gap. *)
Fixpoint covers (k : nat) (gs : list group) (n : nat) : Prop :=
  match gs with
  | [] => k = n
  | g :: gs => g_start g = k ∧ (k ≤ g_end g)%nat ∧ covers (S (g_end g)) gs n
  end.

Lemma groups_loop_covers prev rest s i groups : (s < i)%nat →
  ∃ gs, groups_loop prev rest s i groups = groups ++ gs ∧ covers s gs (i + length rest).
Proof.
  revert prev s i groups. induction rest as [|c rest IH]; intros prev s i groups Hs; cbn [groups_loop length].
  - eexists. split; [done|]. cbn. split_and!; [done|lia..].
  - destruct (decide (policyID prev = policyID c)).
    + destruct (IH c s (S i) groups) as (gs & -> & Hg); [lia|]. exists gs. split; [done|]. by rewrite Nat.add_succ_r.
    + destruct (IH c i (S i) (groups ++ [mkGroup s (i - 1)])) as (gs & -> & Hg); [lia|].
      exists (mkGroup s (i - 1) :: gs). split; [by rewrite <- app_assoc|]. cbn. split_and!; [done|lia|].
      replace (S (i - 1)) with i by lia. by rewrite Nat.add_succ_r.
Qed.

Lemma makeGroups_covers cs : covers 0 (makeGroups cs) (length cs).
Proof.
  destruct cs as [|c cs]; [done|]. cbn. destruct (groups_loop_covers c cs 0 1 []) as (gs & -> & Hg); [lia|]. done.
Qed.

Lemma covers_le k gs n : covers k gs n → (k ≤ n)%nat.
Proof. revert k. induction gs as [|g gs IH]; cbn; intros k H'; [lia|]. destruct H' as (? & ? & Hg%IH). lia. Qed.

Lemma covers_positions k gs n j : covers k gs n → (k ≤ j < n)%nat → ∃ g, gs !! groupOf gs j = Some g ∧ j ∈ positions g.
Proof.
  revert k. induction gs as [|g gs IH]; cbn; intros k Hc Hj; [lia|]. destruct Hc as (Hs & Hle & Hc).
  destruct (decide (j ≤ g_end g)%nat).
  - exists g. split; [done|]. unfold positions. apply elem_of_seq. lia.
  - apply (IH _ Hc). lia.
Qed.

(** A position is in one group only. *)
Lemma covers_unique k gs n i g j : covers k gs n → gs !! i = Some g → j ∈ positions g → i = groupOf gs j ∧ (k ≤ j)%nat.
Proof.
  revert k i. induction gs as [|g' gs IH]; cbn; intros k i Hc Hg Hj; [done|]. destruct Hc as (Hs & Hle & Hc).
  destruct i as [|i]; cbn in Hg.
  - injection Hg as ->. unfold positions in Hj. apply elem_of_seq in Hj. rewrite decide_True by lia. split; [done|lia].
  - destruct (IH _ _ Hc Hg Hj) as [-> ?]. rewrite decide_False by lia. split; [done|lia].
Qed.

Section arrive.
Context (answers : list Answer).

Definition fails (j : nat) : Prop := ∀ a, answers !! j = Some a → success a = false.
Definition errors_to (k : nat) : list DnsError := (λ a : Answer, default ErrEmptyResponse a.2) <$> take k answers.

(** What has arrived is in [results], and [pending] counts what has not. *)
Definition missing (arrived : list nat) (g : group) : Z := len (base.filter (λ j, j ∉ arrived) (positions g)).
Definition arrived_ok (groups : list group) (arrived : list nat) (results : list (option Answer)) (pending : list Z) : Prop :=
  (∀ j, results !! j = (λ a, if decide (j ∈ arrived) then Some a else None) <$> answers !! j) ∧ pending = missing arrived <$> groups.

Lemma group_success_spec arrived groups results pending g : arrived_ok groups arrived results pending →
  match group_success results g with
  | Some a => ∃ j, j ∈ positions g ∧ answers !! j = Some a ∧ success a = true
  | None => ∀ j, j ∈ positions g → j ∈ arrived → fails j
  end.
Proof.
  intros [Hr _]. unfold group_success.
  set (f := λ j, match results !! j with Some (Some r) => if success r then Some r else None | _ => None end).
  assert (Hf : ∀ j a, f j = Some a → answers !! j = Some a ∧ success a = true).
  { intros j a. unfold f. rewrite Hr. destruct (answers !! j) as [x|]; cbn; [|done]. destruct (decide _); [|done].
    destruct (success x) eqn:E; [|done]. by intros [= ->]. }
  destruct (head (omap f (positions g))) as [a|] eqn:Eh.
  - destruct (omap f (positions g)) as [|b l] eqn:El; [done|]. injection Eh as ->.
    assert (Hin : a ∈ omap f (positions g)) by (rewrite El; set_solver). apply list_elem_of_omap in Hin as (j & Hj & Hfj). exists j. split; [done|by apply Hf].
  - intros j Hj Ha a Hx. destruct (success a) eqn:E; [|done]. exfalso.
    assert (Hin : a ∈ omap f (positions g)).
    { apply list_elem_of_omap. exists j. split; [done|]. unfold f. rewrite Hr, Hx. cbn. rewrite decide_True by done. by rewrite E. }
    destruct (omap f (positions g)); [by apply elem_of_nil in Hin|done].
Qed.

Lemma group_errors_spec arrived groups results pending k n : arrived_ok groups arrived results pending →
  (∀ j, (k ≤ j < k + n)%nat → j ∈ arrived ∧ (j < length answers)%nat) →
  group_errors results (seq k n) = Ok ((λ a : Answer, default ErrEmptyResponse a.2) <$> take n (drop k answers)).
Proof.
  intros [Hr Hp]. revert k. induction n as [|n IH]; intros k Hk; cbn [seq group_errors]; [done|].
  destruct (Hk k) as [Hin Hlt]; [lia|]. destruct (lookup_lt_is_Some_2 _ _ Hlt) as [a Ha].
  rewrite Hr, Ha. cbn [fmap option_fmap option_map]. rewrite decide_True by done. cbn [mbind go_bind].
  rewrite IH by (intros j Hj; apply Hk; lia). cbn [mbind go_bind]. by rewrite (drop_S _ _ _ Ha).
Qed.

Lemma errors_to_add k n : errors_to k ++ ((λ a : Answer, default ErrEmptyResponse a.2) <$> take n (drop k answers)) = errors_to (k + n).
Proof. unfold errors_to. rewrite <- fmap_app. f_equal. by rewrite take_take_drop. Qed.

Lemma missing_zero arrived g : ¬ 0 < missing arrived g → ∀ j, j ∈ positions g → j ∈ arrived.
Proof.
  intros Hm j Hj. destruct (decide (j ∈ arrived)); [done|]. exfalso. apply Hm. unfold missing. apply len_pos.
  intros E. assert (Hx : j ∈ base.filter (λ j, j ∉ arrived) (positions g)) by (by apply list_elem_of_filter). rewrite E in Hx. by apply elem_of_nil in Hx.
Qed.

Lemma missing_pos arrived g : 0 < missing arrived g → ∃ j, j ∈ positions g ∧ j ∉ arrived.
Proof.
  unfold missing. destruct (base.filter _ _) as [|j l] eqn:E; [unfold len; cbn; lia|]. intros _. exists j.
  assert (Hx : j ∈ base.filter (λ j, j ∉ arrived) (positions g)) by (rewrite E; set_solver). by apply list_elem_of_filter in Hx as [??].
Qed.

(** What a query may return: a success of a group before which all failed, without its error. *)
Definition wins (groups : list group) (ans : Answer) : Prop :=
  ∃ g j ips ttl, g ∈ groups ∧ j ∈ positions g ∧ answers !! j = Some (ips, ttl, None) ∧ 0 < len ips ∧
    ans = (ips, ttl, None) ∧ ∀ j', (j' < g_start g)%nat → fails j'.

Lemma success_inv a : success a = true → ∃ ips ttl, a = (ips, ttl, None) ∧ 0 < len ips.
Proof. destruct a as [[ips ttl] [e|]]; cbn; [done|]. intros Hd%bool_decide_eq_true_1. by exists ips, ttl. Qed.

(** The state of the outer loop: the groups before [k] have arrived and failed. *)
Definition waiting (groups : list group) (arrived : list nat) (gi k : nat) (errs : list DnsError) : Prop :=
  covers k (drop gi groups) (length answers) ∧ (∀ j, (j < k)%nat → j ∈ arrived ∧ fails j) ∧ errs = errors_to k ∧ (gi ≤ length groups)%nat.

Lemma race_spec groups arrived results pending gs gi k errs : arrived_ok groups arrived results pending →
  gs = drop gi groups → waiting groups arrived gi k errs →
  ∃ r, race results pending gs gi errs = Ok r ∧
    match r with
    | inl ans => wins groups ans
    | inr (gi', errs') => ∃ k', waiting groups arrived gi' k' errs' ∧ (k' = length answers ∨ ∃ j, (j < length answers)%nat ∧ j ∉ arrived)
    end.
Proof.
  intros Hok. revert gi k errs. induction gs as [|g gs IH]; intros gi k errs Hgs (Hc & Hk & He & Hgi); cbn [race].
  { eexists. split; [done|]. exists k. split; [done|]. left. by rewrite <- Hgs in Hc. }
  assert (Hg : groups !! gi = Some g) by (by rewrite <- (Nat.add_0_r gi), <- lookup_drop, <- Hgs).
  assert (Hrest : gs = drop (S gi) groups) by (rewrite <- Nat.add_1_r, <- drop_drop, <- Hgs; done).
  rewrite <- Hgs in Hc. destruct Hc as (Hs & Hle & Hc). pose proof (covers_le _ _ _ Hc) as Hend.
  pose proof (group_success_spec arrived groups results pending g Hok) as Hsucc.
  destruct (group_success results g) as [[[ips ttl] e]|].
  { destruct Hsucc as (j & Hj & Ha & Hs'). apply success_inv in Hs' as (? & ? & [= -> -> ->] & Hlen).
    eexists. split; [done|]. exists g, j, x, x0. split_and!; [by apply list_elem_of_lookup_2 in Hg|done..|]. intros j' Hj'. apply Hk. lia. }
  assert (Hpend : pending !! gi = Some (missing arrived g)) by (destruct Hok as [_ ->]; by rewrite list_lookup_fmap, Hg).
  rewrite Hpend. cbn [ok_or_panic mbind go_bind].
  destruct (decide (0 < missing arrived g)) as [Hm|Hm].
  - eexists. split; [done|]. exists k. split; [split_and!; [rewrite <- Hgs; by cbn|done..]|]. right.
    destruct (missing_pos _ _ Hm) as (j & Hj & Hn). exists j. split; [|done]. unfold positions in Hj. apply elem_of_seq in Hj. lia.
  - assert (Hall := missing_zero _ _ Hm).
    assert (Hin : ∀ j, (g_start g ≤ j < g_start g + (S (g_end g) - g_start g))%nat → j ∈ arrived ∧ (j < length answers)%nat).
    { intros j Hj. split; [|lia]. apply Hall. unfold positions. by apply elem_of_seq. }
    unfold positions at 1. rewrite (group_errors_spec arrived groups results pending) by done.
    cbn [mbind go_bind]. rewrite He, Hs, errors_to_add. apply (IH (S gi) (k + (S (g_end g) - k))%nat); [done|].
    split_and!; [rewrite <- Hrest; by replace (k + (S (g_end g) - k))%nat with (S (g_end g)) by lia| |done|apply lookup_lt_Some in Hg; lia].
    intros j Hj. destruct (decide (j < k)%nat); [by apply Hk|]. assert (j ∈ positions g) by (unfold positions; apply elem_of_seq; lia).
    split; [by apply Hall|]. apply Hsucc; [done|by apply Hall].
Qed.

Lemma missing_arrive arrived i (l : list nat) : NoDup l → i ∉ arrived →
  len (base.filter (λ j, j ∉ i :: arrived) l) = len (base.filter (λ j, j ∉ arrived) l) - (if decide (i ∈ l) then 1 else 0).
Proof.
  intros Hnd Hi. induction Hnd as [|x l Hx _ IH]; [by rewrite decide_False by (by intros ?%elem_of_nil)|].
  rewrite !filter_cons. destruct (decide (i = x)) as [<-|Hne].
  - rewrite decide_False by set_solver. rewrite (decide_True (P := i ∉ arrived)) by done. rewrite decide_True by set_solver.
    rewrite IH, decide_False, len_cons by done. lia.
  - destruct (decide (x ∉ i :: arrived)) as [H1'|H1']; [rewrite (decide_True (P := x ∉ arrived)) by set_solver|rewrite (decide_False (P := x ∉ arrived)) by set_solver];
      rewrite ?len_cons, IH; (destruct (decide (i ∈ l)); [rewrite (decide_True (P := i ∈ x :: l)) by set_solver|rewrite (decide_False (P := i ∈ x :: l)) by set_solver]); lia.
Qed.

Lemma arrive_ok groups arrived results pending i a : arrived_ok groups arrived results pending →
  covers 0 groups (length answers) → answers !! i = Some a → i ∉ arrived →
  arrived_ok groups (i :: arrived) (<[i := Some a]> results) (alter Z.pred (groupOf groups i) pending).
Proof.
  intros [Hr ->] Hc Ha Hi. assert (Hlt := lookup_lt_Some _ _ _ Ha). split.
  - intros j. destruct (decide (i = j)) as [<-|Hne].
    + rewrite Ha. cbn. rewrite decide_True by set_solver. apply list_lookup_insert_eq.
      apply lookup_lt_is_Some. rewrite Hr, Ha. by eexists.
    + rewrite list_lookup_insert_ne by done. rewrite Hr. destruct (answers !! j) as [b|]; [|done]. cbn. f_equal.
      destruct (decide (j ∈ arrived)); [rewrite decide_True by set_solver|rewrite decide_False by set_solver]; done.
  - destruct (covers_positions _ _ _ i Hc) as (g & Hg & Hin); [lia|]. apply list_eq. intros gi. rewrite list_lookup_fmap.
    destruct (decide (groupOf groups i = gi)) as [<-|Hne].
    + rewrite list_lookup_alter_eq, list_lookup_fmap, Hg. cbn. f_equal. unfold missing.
      rewrite missing_arrive by (try done; apply NoDup_seq). rewrite decide_True by done. lia.
    + rewrite list_lookup_alter_ne, list_lookup_fmap by done. destruct (groups !! gi) as [g'|] eqn:Hg'; [|done]. cbn. f_equal. unfold missing.
      rewrite missing_arrive by (try done; apply NoDup_seq). rewrite decide_False; [lia|]. intros Hin'. apply Hne.
      by destruct (covers_unique _ _ _ _ _ _ Hc Hg' Hin').
Qed.

Definition outcome (groups : list group) (ans : Answer) : Prop :=
  wins groups ans ∨ ((∀ j, fails j) ∧ ans = ([], 0, Some (mergeQueryErrors (errors_to (length answers))))).

Lemma arrivals_spec groups order arrived results pending gi k errs :
  arrived_ok groups arrived results pending → covers 0 groups (length answers) → waiting groups arrived gi k errs →
  (k = length answers ∨ ∃ j, (j < length answers)%nat ∧ j ∉ arrived) →
  Forall (λ p, answers !! p.1 = Some p.2) order → NoDup (order.*1 ++ arrived) → (∀ j, (j < length answers)%nat → j ∈ order.*1 ++ arrived) →
  ∃ ans, arrivals groups order results pending gi errs = Ok ans ∧ outcome groups ans.
Proof.
  revert arrived results pending gi k errs. induction order as [|[i a] order IH]; intros arrived results pending gi k errs Hok Hc Hw Hd Ho Hnd Hall; cbn [arrivals].
  - eexists. split; [done|]. right. destruct Hw as (_ & Hk & -> & _). destruct Hd as [->|(j & Hj & Hn)]; [|by apply Hall in Hj].
    split; [|done]. intros j. destruct (decide (j < length answers)%nat) as [Hj|Hj]; [by apply Hk|]. intros a Ha. apply lookup_lt_Some in Ha. lia.
  - apply Forall_cons_1 in Ho as [Ha Ho]. cbn in Ha, Hnd. apply list.NoDup_cons in Hnd as [Hi Hnd].
    assert (Hok' : arrived_ok groups (i :: arrived) (<[i := Some a]> results) (alter Z.pred (groupOf groups i) pending)) by (apply arrive_ok; [done..|set_solver]).
    destruct (race_spec groups (i :: arrived) _ _ (drop gi groups) gi k errs Hok' eq_refl) as (r & Hr & Hres).
    { destruct Hw as (? & Hk & ? & ?). split_and!; [done| |done..]. intros j Hj. destruct (Hk j Hj). split; [set_solver|done]. }
    rewrite Hr. cbn [mbind go_bind]. destruct r as [ans|[gi' errs']]; [exists ans; split; [done|by left]|].
    destruct Hres as (k' & Hw' & Hd'). apply (IH (i :: arrived) _ _ _ k'); [done..| |].
    + rewrite <- Permutation_middle. by constructor.
    + intros j Hj. specialize (Hall j Hj). cbn in Hall. set_solver.
Qed.
End arrive.

(** The groups are the longest runs of clients with one policy. *)
Lemma groups_loop_runs (pol : nat → Z) prev rest s i groups : (s < i)%nat → policyID prev = pol (i - 1)%nat →
  (∀ j c, rest !! j = Some c → policyID c = pol (i + j)%nat) → (∀ j, (s ≤ j < i)%nat → pol j = pol s) →
  ∃ gs, groups_loop prev rest s i groups = groups ++ gs ∧
    Forall (λ g, (∀ j, j ∈ positions g → pol j = pol (g_start g)) ∧ (g_start g = s ∨ pol (g_start g - 1)%nat ≠ pol (g_start g))) gs.
Proof.
  revert prev s i groups. induction rest as [|c rest IH]; intros prev s i groups Hs Hp Hr Hrun; cbn [groups_loop].
  { eexists. split; [done|]. constructor; [|constructor]. cbn. split; [|by left]. intros j Hj. unfold positions in Hj. apply elem_of_seq in Hj. apply Hrun. cbn in Hj. lia. }
  assert (Hc : policyID c = pol i) by (rewrite (Hr 0%nat c eq_refl); f_equal; lia).
  assert (Hr' : ∀ j c', rest !! j = Some c' → policyID c' = pol (S i + j)%nat).
  { intros j c' Hj. rewrite (Hr (S j) c' Hj). f_equal. lia. }
  destruct (decide (policyID prev = policyID c)) as [E|E].
  - destruct (IH c s (S i) groups) as (gs & -> & Hg); [lia|by replace (S i - 1)%nat with i by lia|done| |by exists gs].
    intros j Hj. destruct (decide (j = i)) as [->|]; [|apply Hrun; lia]. rewrite <- Hc, <- E, Hp. apply Hrun. lia.
  - destruct (IH c i (S i) (groups ++ [mkGroup s (i - 1)])) as (gs & -> & Hg); [lia|by replace (S i - 1)%nat with i by lia|done| |].
    + intros j Hj. f_equal. lia.
    + exists (mkGroup s (i - 1) :: gs). split; [by rewrite <- app_assoc|]. constructor.
      * cbn. split; [|by left]. intros j Hj. unfold positions in Hj. apply elem_of_seq in Hj. apply Hrun. cbn in Hj. lia.
      * eapply list.Forall_impl; [exact Hg|]. cbn. intros g [H1' [H2|H2]]; split; [done| |done|by right]. right. rewrite H2, <- Hp, <- Hc. done.
Qed.

Lemma groups_are_runs cs pol : (∀ j c, cs !! j = Some c → policyID c = pol j) →
  Forall (λ g, (∀ j, j ∈ positions g → pol j = pol (g_start g)) ∧ (g_start g = 0%nat ∨ pol (g_start g - 1)%nat ≠ pol (g_start g))) (makeGroups cs).
Proof.
  intros Hp. destruct cs as [|c cs]; [constructor|]. cbn [makeGroups].
  destruct (groups_loop_runs pol c cs 0 1 []) as (gs & -> & Hg); [lia|by apply (Hp 0%nat)|by intros j c' Hj; apply (Hp (S j))| |done].
  intros j Hj. f_equal. lia.
Qed.

(** *** One client *)

Lemma client_query_shape routes c domain opt ips ttl err : Client_QueryIP routes c domain opt = (ips, ttl, err) → 0 < len ips ↔ success (ips, ttl, err) = true.
Proof.
  intros Hq. cbn. split; [|by destruct err; [|intros ?%bool_decide_eq_true_1]]. intros Hl.
  assert (He : err = None); [|subst err; by apply bool_decide_eq_true_2].
  assert (Hempty : (ips, ttl, err) ≠ empty_answer) by (intros [= -> _ _]; unfold len in Hl; cbn in Hl; lia).
  unfold Client_QueryIP in Hq. destruct (no_family _); [by rewrite Hq in Hempty|]. destruct (Server_QueryIP _ _ _) as [[i t] [e|]].
  { injection Hq as <- _ _. unfold len in Hl. cbn in Hl. lia. }
  destruct (decide (len i = 0)); [by rewrite Hq in Hempty|]. unfold must_filter in Hq.
  destruct (expected c false i) as [l|]; [destruct (decide (len l = 0)); [by rewrite Hq in Hempty|]|].
  - destruct (unexpected c false l) as [l'|]; [destruct (decide (len l' = 0)); [by rewrite Hq in Hempty|]|]; by injection Hq as _ _ <-.
  - destruct (unexpected c false i) as [l'|]; [destruct (decide (len l' = 0)); [by rewrite Hq in Hempty|]|]; by injection Hq as _ _ <-.
Qed.

(** *** Serial queries *)

Section serial.
Context (routes : bool * bool) (domain : str) (opt : IPOption).
Abbreviation async := (async_result routes domain opt).
Abbreviation errs_of cs := ((λ a : Answer, default ErrEmptyResponse a.2) <$> (async <$> cs)).

Lemma serial_fails cs errs : Forall (λ c, skipped opt c = false) cs → (∀ j, fails (async <$> cs) j) →
  serial_loop routes domain opt cs errs = ([], 0, Some (mergeQueryErrors (errs ++ errs_of cs))).
Proof.
  intros Hs. revert errs. induction Hs as [|c cs Hc _ IH]; intros errs Hf; cbn [serial_loop]; [by rewrite app_nil_r|].
  rewrite Hc. assert (H1' := Hf 0%nat _ eq_refl). unfold async_result in H1'. rewrite Hc in H1'.
  cbn [fmap list_fmap]. unfold async_result at 1. rewrite Hc.
  destruct (Client_QueryIP routes c domain opt) as [[ips ttl] err] eqn:Eq. rewrite decide_False.
  - rewrite IH by (intros j; apply (Hf (S j))). cbn. by rewrite <- app_assoc.
  - intros Hl. apply (client_query_shape _ _ _ _ _ _ _ Eq) in Hl. congruence.
Qed.

Lemma serial_wins cs errs j ips ttl : Forall (λ c, skipped opt c = false) cs →
  (async <$> cs) !! j = Some (ips, ttl, None) → 0 < len ips → (∀ j', (j' < j)%nat → fails (async <$> cs) j') →
  serial_loop routes domain opt cs errs = (ips, ttl, None).
Proof.
  intros Hs. revert errs j. induction Hs as [|c cs Hc _ IH]; intros errs j Hj Hl Hf; [done|]. cbn [serial_loop]. rewrite Hc.
  destruct j as [|j]; cbn in Hj.
  - unfold async_result in Hj. rewrite Hc in Hj. injection Hj as ->. by rewrite decide_True.
  - assert (H1' := Hf 0%nat ltac:(lia) _ eq_refl). unfold async_result in H1'. rewrite Hc in H1'.
    destruct (Client_QueryIP routes c domain opt) as [[i t] err] eqn:Eq. rewrite decide_False.
    + apply (IH _ j); [done..|]. intros j' Hj'. apply (Hf (S j')). lia.
    + intros Hl'. apply (client_query_shape _ _ _ _ _ _ _ Eq) in Hl'. congruence.
Qed.
End serial.

(** *** Parallel queries from the start *)

Lemma covers_range k gs n g : covers k gs n → g ∈ gs → (g_start g ≤ g_end g < n)%nat.
Proof.
  revert k. induction gs as [|g' gs IH]; cbn; intros k Hc Hg; [by apply elem_of_nil in Hg|]. destruct Hc as (<- & Hle & Hc).
  pose proof (covers_le _ _ _ Hc). apply elem_of_cons in Hg as [->|Hg]; [lia|by eapply IH].
Qed.

Lemma missing_all g : (g_start g ≤ g_end g)%nat → missing [] g = Z.of_nat (g_end g) - Z.of_nat (g_start g) + 1.
Proof.
  intros Hle. unfold missing. assert (Hf : ∀ l : list nat, base.filter (λ j, j ∉ []) l = l).
  { intros l. induction l as [|x l IH]; [done|]. rewrite filter_cons, decide_True by (by intros ?%elem_of_nil). by rewrite IH. }
  rewrite Hf. unfold positions, len. rewrite length_seq. lia.
Qed.

Lemma arrived_none (answers : list Answer) groups : (∀ g, g ∈ groups → (g_start g ≤ g_end g)%nat) →
  arrived_ok answers groups [] (replicate (length answers) None) ((λ g, Z.of_nat (g_end g) - Z.of_nat (g_start g) + 1) <$> groups).
Proof.
  intros Hg. split.
  - intros j. destruct (answers !! j) as [a|] eqn:Ha; cbn.
    + rewrite decide_False by (by intros ?%elem_of_nil). apply lookup_replicate. split; [done|by apply lookup_lt_Some in Ha].
    + apply lookup_ge_None. rewrite length_replicate. by apply lookup_ge_None.
  - apply list_fmap_ext. intros i g Hi. symmetry. apply missing_all, Hg. by apply list_elem_of_lookup_2 in Hi.
Qed.

Lemma arrival_list routes domain opt cs (order : list nat) : Forall (λ i, (i < length cs)%nat) order →
  let l := omap (λ i, (λ c, (i, async_result routes domain opt c)) <$> cs !! i) order in
  l.*1 = order ∧ Forall (λ p, (async_result routes domain opt <$> cs) !! p.1 = Some p.2) l.
Proof.
  induction 1 as [|i order Hi _ [IH1 IH2]]; [done|]. cbn. destruct (lookup_lt_is_Some_2 _ _ Hi) as [c Hc]. rewrite Hc. cbn.
  split; [by f_equal|]. constructor; [|done]. cbn. by rewrite list_lookup_fmap, Hc.
Qed.

Lemma parallel_outcome routes domain opt cs order : order ≡ₚ seq 0 (length cs) →
  ∃ ans, parallelQuery routes domain opt cs order = Ok ans ∧ outcome (async_result routes domain opt <$> cs) (makeGroups cs) ans.
Proof.
  intros Ho. assert (Hc := makeGroups_covers cs). unfold parallelQuery.
  destruct (arrival_list routes domain opt cs order) as [H1' H2].
  { rewrite Ho. apply list.Forall_forall. intros i Hi. apply elem_of_seq in Hi. lia. }
  rewrite <- (length_fmap (async_result routes domain opt) cs) in *. apply (arrivals_spec _ _ _ [] _ _ 0 0).
  - apply arrived_none. intros g Hg. by apply (covers_range _ _ _ _ Hc) in Hg as [? _].
  - done.
  - split_and!; [done|lia|done|lia].
  - destruct (length (async_result routes domain opt <$> cs)) as [|n]; [by left|right; exists 0%nat; split; [lia|by intros ?%elem_of_nil]].
  - done.
  - rewrite H1', app_nil_r, Ho. apply NoDup_seq.
  - intros j Hj. rewrite H1', app_nil_r, Ho. apply elem_of_seq. lia.
Qed.

(** C20: a parallel query answers by the groups, whatever the order in which the clients answer.
    It never panics; where some client succeeds, the answer is that of a client of the first
    group that has one, all clients of the groups before it having failed; where none does, the
    errors are merged in the clients' order. Where neighbours never share a policy and none is
    skipped, the answer is exactly that of the serial query. *)
Theorem dns_parallel_exact routes domain opt cs order :
  order ≡ₚ seq 0 (length cs) →
  ∃ ans, parallelQuery routes domain opt cs order = Ok ans ∧
    outcome (async_result routes domain opt <$> cs) (makeGroups cs) ans ∧
    ((∀ j c c', cs !! j = Some c → cs !! S j = Some c' → policyID c ≠ policyID c') → Forall (λ c, skipped opt c = false) cs →
     ans = serialQuery routes domain opt cs).
Proof.
  intros Ho. destruct (parallel_outcome routes domain opt cs order Ho) as (ans & Hp & Hout). exists ans. split; [done|]. split; [done|].
  intros Hpol Hsk. unfold serialQuery. destruct Hout as [(g & j & ips & ttl & Hg & Hj & Ha & Hl & -> & Hbefore)|[Hf ->]].
  - symmetry. apply (serial_wins _ _ _ _ _ j); [done..|]. intros j' Hj'. apply Hbefore.
    assert (Hr := groups_are_runs cs (λ j, match cs !! j with Some c => policyID c | None => 0 end)).
    rewrite list.Forall_forall in Hr. destruct (Hr ltac:(by intros ? ? ->) g Hg) as [Hsame _].
    destruct (covers_range _ _ _ _ (makeGroups_covers cs) Hg) as [Hle Hend].
    assert (Hs : g_start g = g_end g).
    { destruct (decide (g_start g = g_end g)); [done|]. exfalso.
      destruct (lookup_lt_is_Some_2 cs (g_start g)) as [c Hc]; [lia|]. destruct (lookup_lt_is_Some_2 cs (S (g_start g))) as [c' Hc']; [lia|].
      apply (Hpol _ _ _ Hc Hc'). specialize (Hsame (S (g_start g))). cbn in Hsame. rewrite Hc, Hc' in Hsame. symmetry. apply Hsame.
      unfold positions. apply elem_of_seq. lia. }
    unfold positions in Hj. apply elem_of_seq in Hj. lia.
  - symmetry. rewrite serial_fails by done. unfold errors_to. by rewrite take_ge.
Qed.

(** ** Static hosts *)

(** What a lookup in the hosts may give: nothing, a replacement, or addresses of the families
    asked for. *)
Definition allowed (opt : IPOption) (h : HostAddress) : Prop :=
  ∃ a, h = HAddr a ∧ ((IsIPv4 (Family a) = true ∧ IPv4Enable opt = true) ∨ (IsIPv6 (Family a) = true ∧ IPv6Enable opt = true)).
(** The names the domain matchers are meant for. *)
Abbreviation readable d := (ldh (lower d)).
Definition host_ok (opt : IPOption) (r : HostResult) : Prop :=
  match r with HostAddrs (Some l) => (∃ d, l = [HAddr (domainAddress d)] ∧ readable d) ∨ Forall (allowed opt) l | _ => True end.

Definition readable_host (h : HostAddress) : Prop := ∀ d, h = HAddr (domainAddress d) → readable d.
Definition plain (h : HostAddress) : Prop := readable_host h ∧ ∃ a, h = HAddr a.

Lemma rcode_none rep : Forall readable_host rep → rcode_of rep = None → Forall plain rep.
Proof.
  unfold rcode_of. induction 1 as [|[a|c] rep Hr _ IH]; cbn; intros Hn; [constructor|constructor; [by split; [|exists a]|by apply IH]|done].
Qed.

Lemma lookup_loop_ok h idxs ips found : Forall (Forall readable_host) (responses h) →
  Forall (λ v, 0 ≤ v < len (responses h)) idxs → Forall plain ips →
  ∃ r, lookup_loop h idxs ips found = Ok r ∧ match r with HostAddrs (Some l) => Forall plain l | _ => True end.
Proof.
  intros Hh Hi. revert ips found. induction Hi as [|v idxs Hv _ IH]; intros ips found Hp; cbn [lookup_loop].
  { eexists. split; [done|]. by destruct found. }
  destruct (lookup_lt_is_Some_2 (responses h) (Z.to_nat v)) as [rep Hrep]; [unfold len in Hv; lia|].
  unfold index. rewrite decide_True, Hrep by lia. cbn [ok_or_panic mbind go_bind].
  destruct (rcode_of rep) eqn:Hc; [by eexists|]. apply IH. apply Forall_app. split; [done|]. apply rcode_none; [|done].
  exact (proj1 (list.Forall_forall _ _) Hh rep (list_elem_of_lookup_2 _ _ _ Hrep)).
Qed.

Lemma filterIP_ok l opt : Forall plain l → ∃ f, filterIP l opt = Ok f ∧ Forall (allowed opt) f.
Proof.
  induction 1 as [|h l [_ [a ->]] _ (f & Hf & Ha)]; [by eexists|]. cbn [filterIP HFamily mbind go_bind]. rewrite Hf. cbn.
  eexists. split; [done|]. destruct (_ || _) eqn:E; [|done]. constructor; [|done]. exists a. split; [done|].
  apply orb_true_iff in E as [E|E]; apply andb_true_iff in E; auto.
Qed.

Lemma hosts_lookup_ok n h m domain opt : (∀ d, readable d → numbers m (len (responses h)) (lower d)) →
  Forall (Forall readable_host) (responses h) → readable domain →
  ∃ r, hosts_lookup n h m domain opt = Ok r ∧ host_ok opt r.
Proof.
  intros Hm Hh. assert (Hint : ∀ d, readable d → ∃ r, lookupInternal h m (lower d) = Ok r ∧ match r with HostAddrs (Some l) => Forall plain l | _ => True end).
  { intros d Hd. destruct (Hm d Hd) as (ms & Hms & Hv). unfold lookupInternal. rewrite Hms. cbn. by apply lookup_loop_ok. }
  revert domain. induction n as [|n IH]; intros domain Hd; cbn [hosts_lookup]; destruct (Hint domain Hd) as (r & -> & Hr); cbn [mbind go_bind];
    (destruct r as [e|[l|]]; [by eexists| |by eexists]); (destruct l as [|h1 l]; [eexists; split; [done|by right; constructor]|]);
    assert (Hf : ∃ f, filterIP (h1 :: l) opt = Ok f ∧ Forall (allowed opt) f) by (by apply filterIP_ok); destruct Hf as (f & Hf & Ha);
    apply Forall_cons_1 in Hr as [[Hrd [a ->]] Hr]; destruct l as [|h2 l];
    try (rewrite Hf; eexists; split; [by destruct a|by right]).
  - destruct a as [b|b|d]; cbn [mbind go_bind HFamily]; [rewrite Hf; eexists; split; [done|by right]..|].
    eexists. split; [done|]. left. exists d. split; [done|by apply Hrd].
  - destruct a as [b|b|d]; cbn [mbind go_bind HFamily]; [rewrite Hf; eexists; split; [done|by right]..|].
    destruct (IH d (Hrd d eq_refl)) as (r & -> & Hr'). cbn. destruct r as [e|[u|]]; eexists; (split; [done|]); [done|done|]. left. exists d. split; [done|by apply Hrd].
Qed.

Lemma toNetIP_ok opt l : Forall (allowed opt) l → l ≠ [] → ∃ ips, toNetIP l = Ok ips ∧ ips ≠ [].
Proof.
  intros Hl Hne. assert (Hall : ∃ ips, toNetIP l = Ok ips ∧ length ips = length l).
  { clear Hne. induction Hl as [|h l (a & -> & Ha) _ (ips & Hi & IH)]; [by eexists|]. cbn [toNetIP].
    destruct a as [b|b|d]; cbn; rewrite ?Hi; [eexists; split; [done|by cbn; f_equal]..|]. by destruct Ha as [[? _]|[? _]]. }
  destruct Hall as (ips & Hi & Hlen). exists ips. split; [done|]. intros ->. by destruct l.
Qed.

(** ** [LookupIP] *)

(** Addresses or an error, never both and never neither. *)
Definition answered (a : Answer) : Prop := match a.2 with None => a.1.1 ≠ [] | Some _ => a.1.1 = [] end.

Lemma serial_answered routes domain opt cs errs : answered (serial_loop routes domain opt cs errs).
Proof.
  revert errs. induction cs as [|c cs IH]; intros errs; cbn [serial_loop]; [done|]. destruct (skipped opt c); [apply IH|].
  destruct (Client_QueryIP routes c domain opt) as [[ips ttl] err]. destruct (decide (0 < len ips)); [|apply IH].
  unfold answered. cbn. intros ->. unfold len in *. cbn in *. lia.
Qed.

Lemma outcome_answered answers groups ans : outcome answers groups ans → answered ans.
Proof.
  intros [(g & j & ips & ttl & _ & _ & _ & Hl & -> & _)|[_ ->]]; [|done]. unfold answered. cbn. intros ->. unfold len in Hl. cbn in Hl. lia.
Qed.

Section lookup.
Context (BuildDomainMatcher : list DomainRule → go D) (BuildIPMatcher : list IPRule → go (IPMatcher (T := T))).
Context (NewServer : NameServer → bool → bool → Z → ip → go (Server * bool)) (LocalNameServer : Server) (randomTag : str).
Abbreviation new := (New BuildDomainMatcher BuildIPMatcher NewServer LocalNameServer randomTag).

Lemma host_responses_len hs reps : host_responses hs = Ok reps → length reps = length hs.
Proof.
  revert reps. induction hs as [|h hs IH]; intros reps; cbn; [by intros [= <-]|]. rewrite go_bind_ok. intros (r & _ & Hr).
  apply go_bind_ok in Hr as (rs & Hrs & [= <-]). cbn. f_equal. by apply IH.
Qed.

(** The names the hosts replace a domain with. *)
Definition readable_hosts (config : Config) : Prop := ∀ m d,
  m ∈ cf_StaticHosts config → host_response m = Ok [HAddr (domainAddress d)] → readable d.

Lemma host_response_readable m l : (∀ d, host_response m = Ok [HAddr (domainAddress d)] → readable d) →
  host_response m = Ok l → Forall readable_host l.
Proof.
  intros Hm E. pose proof E as E'. unfold host_response in E. destruct (hm_ProxiedDomain m) as [|c rest].
  - injection E as <-. apply list.Forall_forall. intros h (i & Hi & Hh)%list_elem_of_omap d ->.
    unfold IPAddress in Hh. repeat case_match; try done; by destruct (take _ _).
  - destruct (decide (c = x23)).
    + destruct (Atoi rest); [|done]. injection E as <-. by apply Forall_singleton.
    + injection E as <-. apply Forall_singleton. intros d [= Hd]. apply Hm. by rewrite E', Hd.
Qed.

Lemma host_responses_readable hs reps : (∀ m d, m ∈ hs → host_response m = Ok [HAddr (domainAddress d)] → readable d) →
  host_responses hs = Ok reps → Forall (Forall readable_host) reps.
Proof.
  revert reps. induction hs as [|h hs IH]; intros reps Hm; cbn; [intros [= <-]; constructor|]. rewrite go_bind_ok. intros (r & Hr & Hrs).
  apply go_bind_ok in Hrs as (rs & Hrs & [= <-]). constructor.
  - eapply host_response_readable; [|done]. intros d. apply Hm. left.
  - apply IH; [|done]. intros m d Hin. apply Hm. by right.
Qed.

Lemma new_hosts config s domain opt : new config = Ok s → readable_hosts config →
  (∀ d, readable d → numbers_rules BuildDomainMatcher NewServer config d) → readable domain →
  ∃ r, Lookup (hosts s) domain opt = Ok r ∧ host_ok opt r.
Proof.
  intros Hnew Hhosts Hnum Hd. unfold New in Hnew. destruct (decide _) in Hnew; [done|]. destruct (cf_QueryStrategy config) as [q|]; [|done].
  apply go_bind_ok in Hnew as (h & Hh & Hnew). apply go_bind_ok in Hnew as ([[cs rules] infos] & _ & Hnew).
  apply go_bind_ok in Hnew as (mo & _ & Hnew). injection Hnew as <-. cbn [hosts]. unfold Lookup.
  unfold NewStaticHosts in Hh. apply go_bind_ok in Hh as (reps & Hreps & Hh).
  pose proof (host_responses_readable _ _ Hhosts Hreps) as Hread. apply host_responses_len in Hreps.
  destruct (cf_StaticHosts config) as [|x l] eqn:El; [injection Hh as <-; by eexists|].
  apply go_bind_ok in Hh as (m & Hm & [= <-]). cbn [h_matcher]. apply hosts_lookup_ok; [|done|done]. intros d Hrd.
  destruct (Hnum d Hrd (hm_Domain <$> x :: l) m) as (ms & Hms & Hv); [unfold configured; rewrite El; left|done|done|].
  exists ms. split; [done|]. eapply list.Forall_impl; [exact Hv|]. cbn. intros v Hr.
  unfold len in *. rewrite length_cons, length_fmap in Hr. rewrite Hreps. cbn. lia.
Qed.

Lemma lookup_servers config s routes order domain opt : new config = Ok s → len (cf_NameServer config) ≤ 65536 →
  numbers_rules BuildDomainMatcher NewServer config domain → (∀ n, order n ≡ₚ seq 0 n) →
  ∃ ans, (idx ← sortClients s domain;
          let cs := omap (λ i, clients s !! i) idx in
          if enableParallelQuery s then parallelQuery routes domain opt cs (order (length cs)) else Ok (serialQuery routes domain opt cs)) = Ok ans ∧ answered ans.
Proof.
  intros Hnew Hlen Hnum Ho. destruct (sort_clients_spec s domain) as (ms & _ & ->).
  { intros m. by apply (new_rules BuildDomainMatcher BuildIPMatcher NewServer LocalNameServer randomTag config). }
  cbn [mbind go_bind]. set (cs := omap _ _). destruct (enableParallelQuery s); [|eexists; split; [done|apply serial_answered]].
  destruct (parallel_outcome routes domain opt cs (order (length cs)) (Ho _)) as (ans & -> & Hout). exists ans. split; [done|by eapply outcome_answered].
Qed.

Lemma lookup_answered config s routes order domain opt :
  new config = Ok s → len (cf_NameServer config) ≤ 65536 → readable_hosts config →
  (∀ d, readable d → numbers_rules BuildDomainMatcher NewServer config d) → (∀ n, order n ≡ₚ seq 0 n) → readable (TrimDot domain) →
  ∃ ans, LookupIP routes order s domain opt = Ok ans ∧ answered ans.
Proof.
  intros Hnew Hlen Hhosts Hnum Ho Hd. unfold LookupIP. destruct (decide (TrimDot domain = [])); [by eexists|]. destruct (no_family _); [by eexists|].
  set (o := restrict _ _ _ _). destruct (new_hosts config s (TrimDot domain) o Hnew Hhosts Hnum Hd) as (r & Hr & Hok). rewrite Hr. cbn [mbind go_bind].
  assert (Hserv := λ d Hrd, lookup_servers config s routes order d o Hnew Hlen (Hnum d Hrd) Ho).
  destruct r as [e|[l|]]; [destruct (Is_ e ErrEmptyResponse); by eexists| |by apply Hserv].
  destruct Hok as [(d & -> & Hrd)|Hall]; [by apply Hserv|]. destruct l as [|h l]; [by eexists|].
  destruct (toNetIP_ok o (h :: l) Hall) as (ips & Hi & Hne); [done|].
  apply Forall_cons_1 in Hall as [(a & -> & Ha) _]. rewrite Hi. exists (ips, 10, None). split; [|done].
  destruct a as [b|b|d]; [by destruct l..|]. by destruct Ha as [[? _]|[? _]].
Qed.

(** The client that routing asks, [LookupIP] with both families and no fake addresses. *)
Definition routing_client (routes : bool * bool) (order : nat → list nat) (s : DNS) (domain : str) : go (list ip) :=
  a ← LookupIP routes order s domain (mkIPOption true true false);
  match a with (ips, _, None) => Ok ips | (_, _, Some _) => Err (ErrMsg "failed to look up") end.

(** *** With the matchers of a factory *)

Context (Compile : str → option GoError) (MatchString : str → str → bool) {F : Type} `{HF : DomainFactory F D}.
Context `{HS : !DomainFactorySpec Compile MatchString lowerRunes F D} (load : Load).
(** Every matcher comes from the factory, with whatever its cache then holds. *)
Hypothesis Hbuild : ∀ rules, ∃ f, factory_inv load f ∧ BuildDomainMatcher rules = (BuildMatcher load f rules).1.

(** The rules of the configuration, as the factory wants them. *)
Definition config_fit (config : Config) : Prop := ∀ rules, rules ∈ configured NewServer config → rules ≠ [] →
  ∃ mss, rules_fit Compile lowerRunes load rules mss ∧ suits mss.

Lemma factory_numbers config domain : config_fit config → readable domain → numbers_rules BuildDomainMatcher NewServer config domain.
Proof.
  intros Hfit Hd rules m Hin Hne Hm. destruct (Hbuild rules) as (f & Hf & Eb). rewrite Eb in Hm.
  destruct (Hfit rules Hin Hne) as (mss & Hr & Hs).
  destruct (build_answers HS load f rules mss Hf Hr Hs) as (g & f' & E & _ & Ha). rewrite E in Hm. injection Hm as ->.
  destruct (Ha _ Hd) as (r & b & Er & _ & Hv & _). exists r. split; [done|]. apply list.Forall_forall. intros v Hin'.
  apply Hv in Hin' as (k & ms & Hk & -> & _). apply lookup_lt_Some in Hk.
  rewrite <- (rules_matchers_length _ _ _ _ _ (rf_load _ _ _ _ _ Hr)) in Hk. unfold len. lia.
Qed.

(** C24: a lookup always ends with addresses or with an error, never with neither. Take a
    configuration that [New] accepts, with up to 65536 name servers whose queries return, whose
    domain rules, of the hosts and of the servers, load and fit the domain factory that builds
    their matchers (lower-case domains without commas or separators in custom values and names;
    at most 65536 keywords for the compact factory, a seed for every bucket for the perfect-hash
    one), and whose hosts replace names only by names of letters, digits, hyphens and dots. For
    any name of such characters, any families asked for, any answers of the servers in any
    order, serial or parallel, nothing panics, an answer without an error has addresses, and one
    with an error has none. So the client is what routing assumes of it. *)
Theorem dns_lookup_answers config s routes order :
  new config = Ok s → len (cf_NameServer config) ≤ 65536 → config_fit config → readable_hosts config → (∀ n, order n ≡ₚ seq 0 n) →
  (∀ domain opt, readable (TrimDot domain) → ∃ ans, LookupIP routes order s domain opt = Ok ans ∧ answered ans) ∧
  (∀ domain n, readable (TrimDot domain) → client_ok (λ _, routing_client routes order s) domain n).
Proof.
  intros Hnew Hlen Hfit Hhosts Ho.
  assert (Hl := λ d o, lookup_answered config s routes order d o Hnew Hlen Hhosts (λ d, factory_numbers config d Hfit) Ho).
  split; [intros d o; apply Hl|]. intros d n Hd _. unfold routing_client. destruct (Hl d (mkIPOption true true false) Hd) as ([[ips ttl] err] & -> & Ha).
  cbn. destruct err; [done|]. unfold answered in Ha. cbn in Ha. split; [done|]. by intros [= ->].
Qed.
End lookup.
End dns.

(** ** Samples *)

(** Matchers of the compact factory. *)
#[local] Instance sample_ops : DomainMatcherOps CompactDomainMatcher := compact_matcher_ops (λ _ _, false).
#[local] Instance sample_factory : DomainFactory (gmap str LinearAnyMatcher) CompactDomainMatcher := compact_factory (λ _, None) (λ s, s).
#[local] Instance sample_spec : DomainFactorySpec (λ _, None) (λ _ _, false) (λ s, s) (gmap str LinearAnyMatcher) CompactDomainMatcher :=
  compact_spec (λ _, None) (λ _ _, false) (λ s, s) sample_hash.
Definition sample_build (rules : list DomainRule) : go CompactDomainMatcher := (BuildMatcher sample_load newDomainMatcherFactory rules).1.

Lemma sample_built rules : ∃ f, factory_inv sample_load f ∧ sample_build rules = (BuildMatcher sample_load f rules).1.
Proof. exists newDomainMatcherFactory. split; [apply (new_factory_inv sample_spec)|done]. Qed.

Definition sample_ip : ip := [x01; x02; x03; x04].
(** The first server finds nothing, the others find an address. *)
Definition sample_servers (ns : NameServer) (_ _ : bool) (_ : Z) (_ : ip) : go (Server * bool) :=
  Ok (mkServer (ns_Address ns) false (λ _ _, if decide (ns_Address ns = s2b "one") then ([], 0, Some (RCodeError 3)) else ([sample_ip], 60, None)), false).
Definition sample_ns (name : string) (rules : list DomainRule) (policy : Z) : NameServer :=
  mkNameServer (s2b name) [] false rules [] [] USE_IP false false [] 0 None None None false policy.
Definition full (v : string) : DomainRule := DomainRule_Custom (mkDomain Domain_Full (s2b v) []).
Definition sample_config (parallel : bool) : Config :=
  mkConfig [] (Some USE_IP) [mkHostMapping (full "h") [] (s2b "x")] [] [sample_ns "one" [] 1; sample_ns "two" [full "x"] 2; sample_ns "three" [] 3] false false 0 false false parallel.
Definition sample_new (parallel : bool) : go (DNS (D := CompactDomainMatcher) (T := list Prefix)) :=
  New sample_build (λ _, Err EOF) sample_servers (mkServer [] true (λ _ _, empty_answer)) (s2b "tag") (sample_config parallel).
Definition sample_dns (parallel : bool) : DNS := match sample_new parallel with Ok s => s | _ => mkDNS false false false (mkIPOption true true false) (mkStaticHosts [] None) [] None [] false end.

Lemma sample_made parallel : sample_new parallel = Ok (sample_dns parallel).
Proof. by destruct parallel. Qed.

Lemma full_fit v : v = "h"%string ∨ v = "x"%string → rules_fit (λ _, None) (λ s, s) sample_load [full v] [[FullMatcher (s2b v)]].
Proof.
  intros Hv. split.
  - discriminate.
  - by destruct Hv as [-> | ->].
  - repeat (apply Forall_cons_2; [|apply Forall_nil_2]). split; [exact I|]. destruct Hv as [-> | ->]; split; [reflexivity|discriminate|reflexivity|discriminate].
  - apply Forall_cons_2; [|apply Forall_nil_2]. split; [|reflexivity]. destruct Hv as [-> | ->]; apply (bool_decide_eq_true (comma_ ∉ _)); reflexivity.
  - by vm_compute.
Qed.

Lemma sample_config_fit parallel : config_fit (λ s, s) sample_servers (λ _, None) (λ _ _, false) sample_load (sample_config parallel).
Proof.
  intros rules Hin _. change (rules ∈ [[full "h"]; [full "x"]]) in Hin. rewrite !elem_of_cons, elem_of_nil in Hin.
  destruct Hin as [-> |[-> |[]]].
  - exists [[FullMatcher (s2b "h")]]. split; [apply full_fit; by left|by vm_compute].
  - exists [[FullMatcher (s2b "x")]]. split; [apply full_fit; by right|by vm_compute].
Qed.

Lemma sample_readable parallel : readable_hosts (λ s, s) (sample_config parallel).
Proof.
  intros m d Hin. cbn in Hin. apply list_elem_of_singleton in Hin as ->. cbn. intros [= <-].
  apply Forall_cons_2; [reflexivity|apply Forall_nil_2].
Qed.

Lemma dns_client_order_witness : sortClients (λ s, s) (sample_dns false) (s2b "X") = Ok [1; 0; 2]%nat ∧ NoDup [1; 0; 2]%nat.
Proof.
  destruct (dns_client_order (λ s, s) sample_build (λ _, Err EOF) sample_servers (mkServer [] true (λ _ _, empty_answer)) (s2b "tag") (sample_config false) (sample_dns false) (s2b "X"))
    as (ms & Hms & Hs & Hnd & _ & _); [apply sample_made|by vm_compute|apply (factory_numbers (λ s, s) sample_build sample_servers (λ _, None) (λ _ _, false) sample_load sample_built); [apply sample_config_fit|apply Forall_cons_2; [reflexivity|apply Forall_nil_2]]|].
  assert (Hm : ms = [0]) by (cbn in Hms; injection Hms as <-; by vm_compute). subst ms.
  change (client_order (sample_dns false) [0]) with [1; 0; 2]%nat in Hs, Hnd. done.
Defined.

Lemma dns_parallel_exact_witness :
  parallelQuery (true, true) (s2b "x") (mkIPOption true true false) (clients (sample_dns true)) [2; 0; 1]%nat =
  Ok (serialQuery (true, true) (s2b "x") (mkIPOption true true false) (clients (sample_dns true))).
Proof.
  destruct (dns_parallel_exact (true, true) (s2b "x") (mkIPOption true true false) (clients (sample_dns true)) [2; 0; 1]%nat) as (ans & -> & _ & Hserial).
  - change (seq 0 (length (clients (sample_dns true)))) with ([0; 1] ++ [2])%nat. change [2; 0; 1]%nat with ([2] ++ [0; 1])%nat. apply Permutation_app_comm.
  - f_equal. apply Hserial.
    + assert (Hp : policyID <$> clients (sample_dns true) = [1; 2; 3]) by done.
      intros j c c' Hj Hj' E. apply (f_equal (fmap policyID)) in Hj, Hj'. rewrite <- list_lookup_fmap, Hp in Hj, Hj'.
      destruct j as [|[|[|j]]]; cbn in Hj, Hj'; congruence.
    + repeat constructor.
Defined.

Lemma dns_lookup_answers_witness :
  (∃ ans, LookupIP (λ s, s) (true, true) (seq 0) (sample_dns true) (s2b "h.") (mkIPOption true true false) = Ok ans ∧ answered ans) ∧
  LookupIP (λ s, s) (true, true) (seq 0) (sample_dns true) (s2b "h.") (mkIPOption true true false) = Ok ([sample_ip], 60, None).
Proof.
  destruct (dns_lookup_answers (λ s, s) sample_build (λ _, Err EOF) sample_servers (mkServer [] true (λ _ _, empty_answer)) (s2b "tag")
    (λ _, None) (λ _ _, false) sample_load sample_built (sample_config true) (sample_dns true) (true, true) (seq 0))
    as [Hl _]; [apply sample_made|by vm_compute|apply sample_config_fit|apply sample_readable|done|].
  split; [apply Hl|by vm_compute]. apply Forall_cons_2; [reflexivity|apply Forall_nil_2].
Defined.

(** A client that is skipped counts as an empty answer in a parallel query and not in a serial one:
    a server that does not answer is an error in one and an empty answer in the other. *)
Lemma skipped_counts_in_parallel :
  let fake := mkClient (T := list Prefix) (mkServer (s2b "FakeDNS") true (λ _ _, empty_answer)) false None None false false [] 0 false (mkIPOption true true false) false 0 in
  let silent := mkClient (mkServer (s2b "udp") true (λ _ _, ([], 0, Some errRecordNotFound))) false None None false false [] 0 false (mkIPOption true true false) false 1 in
  parallelQuery (true, true) (s2b "x") (mkIPOption true true false) [fake; silent] [0; 1]%nat = Ok ([], 0, Some ErrEmptyResponse) ∧
  serialQuery (true, true) (s2b "x") (mkIPOption true true false) [fake; silent] = ([], 0, Some (returning (Some errRecordNotFound))).
Proof. by vm_compute. Qed.
