(* ===== verification/Sniff.v ===== *)
(** * Sniffing

    Models what finds the protocol and the domain of a connection in its first bytes:
    [common/protocol/tls/sniff.go], [quic/sniff.go], [http/sniff.go] with [ParseHost] of
    [http/headers.go], [bittorrent/bittorrent.go], and [app/dispatcher/sniffer.go] with
    [fakednssniffer.go], which try them in turn. The bytes come from a stranger: every index and
    every slice is checked, and a [Panic] is one that fails. Key derivation, AES, AES-GCM and the
    variable-length integers of QUIC are arguments with their laws. *)

From S2P Require Import Prelude Net StrMatcher GeoLoader.

#[local] Open Scope Z_scope.

(** ** Errors and bytes *)

Definition ErrNoClue : GoError := ErrMsg "not enough information for making a decision".
Definition ErrProtoNeedMoreData : GoError := ErrMsg "protocol matches, but need more data to complete sniffing".

(** [d[i]] as a number, [d[n:]], [d[:n]], and the big-endian number at [i]. *)
Definition at_ (d : list byte) (i : Z) : go Z := b ← ok_or_panic (index d i); Ok (byte_to_Z b).
Definition from_ (d : list byte) (n : Z) : go (list byte) := ok_or_panic (slice d n (len d)).
Definition upto (d : list byte) (n : Z) : go (list byte) := ok_or_panic (slice d 0 n).
Definition u16_at (d : list byte) (i : Z) : go Z :=
  a ← at_ d i; b ← at_ d (i + 1); Ok (Z.lor (Z.shiftl a 8) b).

(** *** Reading within bounds *)

Lemma at_ok d i : 0 ≤ i < len d → ∃ z, at_ d i = Ok z ∧ is_u8 z.
Proof.
  intros Hi. unfold at_, index. rewrite decide_True by lia.
  destruct (lookup_lt_is_Some_2 d (Z.to_nat i)) as [b ->]; [unfold len in Hi; lia|]. exists (byte_to_Z b). split; [done|apply byte_to_Z_range].
Qed.

Lemma u16_at_ok d i : 0 ≤ i → i + 2 ≤ len d → ∃ z, u16_at d i = Ok z ∧ is_u16 z.
Proof.
  intros Hi Hl. unfold u16_at. destruct (at_ok d i) as (a & -> & Ha); [lia|]. destruct (at_ok d (i + 1)) as (b & -> & Hb); [lia|].
  eexists. split; [done|]. unfold is_u8, is_u16 in *. rewrite Z.lor_comm, lor_shiftl_add by lia. lia.
Qed.

Lemma from_ok d n : 0 ≤ n ≤ len d → from_ d n = Ok (drop (Z.to_nat n) d).
Proof.
  intros Hn. unfold from_. rewrite slice_Some by lia. cbn. f_equal. apply take_ge. rewrite length_drop. unfold len. lia.
Qed.

Lemma upto_ok d n : 0 ≤ n ≤ len d → upto d n = Ok (take (Z.to_nat n) d).
Proof. intros Hn. unfold upto. rewrite slice_Some by lia. cbn. by rewrite Z.sub_0_r. Qed.

Lemma len_drop_Z {A} (d : list A) n : 0 ≤ n ≤ len d → len (drop (Z.to_nat n) d) = len d - n.
Proof. unfold len. rewrite length_drop. lia. Qed.

Lemma at_drop d n i : 0 ≤ n → 0 ≤ i → at_ (drop (Z.to_nat n) d) i = at_ d (n + i).
Proof. intros Hn Hi. unfold at_, index. rewrite !decide_True by lia. rewrite lookup_drop. by replace (Z.to_nat n + Z.to_nat i)%nat with (Z.to_nat (n + i)) by lia. Qed.
Lemma u16_at_drop d n i : 0 ≤ n → 0 ≤ i → u16_at (drop (Z.to_nat n) d) i = u16_at d (n + i).
Proof. intros Hn Hi. unfold u16_at. rewrite !at_drop by lia. by rewrite Z.add_assoc. Qed.

(** What a writer put there. *)
Lemma at_cons x d : at_ (x :: d) 0 = Ok (byte_to_Z x).
Proof. done. Qed.
Lemma at_cons1 x y d : at_ (x :: y :: d) (0 + 1) = Ok (byte_to_Z y).
Proof. done. Qed.

Lemma at_app p x d n : n = len p → at_ (p ++ x :: d) n = Ok (byte_to_Z x).
Proof.
  intros ->. unfold at_, index. rewrite decide_True by apply len_nonneg. rewrite to_nat_len. by rewrite list_lookup_middle.
Qed.

Lemma from_app p d n : n = len p → from_ (p ++ d) n = Ok d.
Proof.
  intros ->. rewrite from_ok by (rewrite len_app; pose proof (len_nonneg p); pose proof (len_nonneg d); lia). by rewrite to_nat_len, drop_app_length.
Qed.

Lemma upto_app p d n : n = len p → upto (p ++ d) n = Ok p.
Proof.
  intros ->. rewrite upto_ok by (rewrite len_app; pose proof (len_nonneg p); pose proof (len_nonneg d); lia). by rewrite to_nat_len, take_app_length.
Qed.

Lemma u16_at_put n d : is_u16 n → u16_at (put_be16 n ++ d) 0 = Ok n.
Proof.
  intros Hn. unfold u16_at, put_be16. cbn [app]. rewrite at_cons. cbn [mbind go_bind].
  rewrite at_cons1. cbn [mbind go_bind]. pose proof (be16_put n d Hn) as Hb. cbn in Hb. injection Hb as Hb. by rewrite Z.lor_comm, Hb.
Qed.

Lemma u16_at_app p n d i : is_u16 n → i = len p → u16_at (p ++ put_be16 n ++ d) i = Ok n.
Proof.
  intros Hn ->. pose proof (u16_at_put n d Hn) as H. unfold u16_at, put_be16 in *. cbn [app] in *.
  rewrite (at_app p _ _ (len p) eq_refl). rewrite at_cons in H. cbn [mbind go_bind] in *.
  rewrite at_cons1 in H. rewrite cons_middle, app_assoc, (at_app (p ++ [_])) by (rewrite len_snoc; lia). exact H.
Qed.

Lemma u16_at_cons x n d : is_u16 n → u16_at (x :: put_be16 n ++ d) 1 = Ok n.
Proof. intros Hn. by apply (u16_at_app [x]). Qed.

(** ** TLS *)

Module Tls.

Definition errNotTLS : GoError := ErrMsg "not TLS header".
Definition errNotClientHello : GoError := ErrMsg "not client hello".
Definition IsValidTLSVersion (major minor : byte) : bool := bool_decide (major = x03).

(** The bytes of a server name: none up to the space, which a hello in pieces has where a piece is
    missing, and no dot at the end. *)
Definition check_name (name : list byte) : go (list byte) :=
  if existsb (λ b, bool_decide (byte_to_Z b ≤ 32)) name then Err ErrProtoNeedMoreData
  else if decide (list.last name = Some x2e) then Err errNotClientHello
  else Ok name.

(** The loop over the names of the extension, [None] where it ends without one. *)
Fixpoint names_loop (fuel : nat) (d : list byte) : go (option (list byte)) :=
  match fuel with
  | O => Panic
  | S fuel =>
      if decide (len d > 0) then
        if decide (len d < 3) then Err errNotClientHello
        else
          nameType ← at_ d 0;
          nameLen ← u16_at d 1;
          d ← from_ d 3;
          if decide (len d < nameLen) then Err errNotClientHello
          else if decide (nameType = 0) then name ← upto d nameLen; name ← check_name name; Ok (Some name)
          else d ← from_ d nameLen; names_loop fuel d
      else Ok None
  end.

Definition server_name (d : list byte) : go (option (list byte)) :=
  if decide (len d < 2) then Err errNotClientHello
  else
    namesLen ← u16_at d 0;
    d ← from_ d 2;
    if decide (len d ≠ namesLen) then Err errNotClientHello else names_loop (S (length d)) d.

Fixpoint extensions_loop (fuel : nat) (data : list byte) : go (list byte) :=
  match fuel with
  | O => Panic
  | S fuel =>
      if decide (len data ≠ 0) then
        if decide (len data < 4) then Err errNotClientHello
        else
          extension ← u16_at data 0;
          length ← u16_at data 2;
          data ← from_ data 4;
          if decide (len data < length) then Err errNotClientHello
          else
            name ← (if decide (extension = 0) then d ← upto data length; server_name d else Ok None);
            match name with
            | Some name => Ok name
            | None => data ← from_ data length; extensions_loop fuel data
            end
      else Err errNotTLS
  end.

(** [ReadClientHello]: the server name. *)
Definition ReadClientHello (data : list byte) : go (list byte) :=
  if decide (len data < 42) then Err ErrNoClue
  else
    sessionIDLen ← at_ data 38;
    if decide (sessionIDLen > 32 ∨ len data < 39 + sessionIDLen) then Err ErrNoClue
    else
      data ← from_ data (39 + sessionIDLen);
      if decide (len data < 2) then Err ErrNoClue
      else
        cipherSuiteLen ← u16_at data 0;
        if decide (cipherSuiteLen mod 2 = 1 ∨ len data < 2 + cipherSuiteLen) then Err errNotClientHello
        else
          data ← from_ data (2 + cipherSuiteLen);
          if decide (len data < 1) then Err ErrNoClue
          else
            compressionMethodsLen ← at_ data 0;
            if decide (len data < 1 + compressionMethodsLen) then Err ErrNoClue
            else
              data ← from_ data (1 + compressionMethodsLen);
              if decide (len data < 2) then Err errNotClientHello
              else
                extensionsLength ← u16_at data 0;
                data ← from_ data 2;
                if decide (extensionsLength ≠ len data) then Err errNotClientHello
                else extensions_loop (S (length data)) data.

Definition SniffTLS (b : list byte) : go (list byte) :=
  if decide (len b < 5) then Err ErrNoClue
  else
    t ← at_ b 0;
    if decide (t ≠ 22) then Err errNotTLS
    else
      major ← ok_or_panic (index b 1);
      minor ← ok_or_panic (index b 2);
      if negb (IsValidTLSVersion major minor) then Err errNotTLS
      else
        headerLen ← u16_at b 3;
        if decide (5 + headerLen > len b) then Err ErrNoClue
        else d ← ok_or_panic (slice b 5 (5 + headerLen)); ReadClientHello d.

(** *** A hello, as a client writes it *)

Definition vec8 (l : list byte) : list byte := byte_of_Z (len l) :: l.
Definition vec16 (l : list byte) : list byte := put_be16 (len l) ++ l.
Definition extension (t : Z) (body : list byte) : list byte := put_be16 t ++ vec16 body.
(** Names of other types before the host name. *)
Definition other_names (l : list (byte * list byte)) : list byte := concat ((λ p, p.1 :: vec16 p.2) <$> l).
Definition sni_body (others : list (byte * list byte)) (name after : list byte) : list byte := vec16 (other_names others ++ x00 :: vec16 name ++ after).
Definition extensions (before : list (Z * list byte)) (sni : list byte) (after : list byte) : list byte :=
  concat ((λ p, extension p.1 p.2) <$> before) ++ extension 0 sni ++ after.
(** Type, length, version and random are the first 38 bytes. *)
Definition client_hello (start sessionID suites methods exts : list byte) : list byte :=
  start ++ vec8 sessionID ++ vec16 suites ++ vec8 methods ++ vec16 exts.
Definition tls_record (minor : byte) (hello : list byte) : list byte := [x16; x03; minor] ++ vec16 hello.

(** *** No panic *)

Lemma check_name_safe name : check_name name ≠ Panic.
Proof. unfold check_name. destruct (existsb _ _); [done|]. by destruct (decide _). Qed.

Lemma names_loop_safe fuel d : (length d < fuel)%nat → names_loop fuel d ≠ Panic.
Proof.
  revert d. induction fuel as [|fuel IH]; intros d Hf; [lia|]. cbn [names_loop].
  destruct (decide (len d > 0)); [|done]. destruct (decide (len d < 3)); [done|].
  destruct (at_ok d 0) as (t & -> & _); [lia|]. destruct (u16_at_ok d 1) as (sz & -> & Hn); [lia..|]. cbn [mbind go_bind].
  rewrite from_ok by lia. cbn [mbind go_bind]. set (d' := drop _ d). assert (Hd' : len d' = len d - 3) by (apply len_drop_Z; lia).
  destruct (decide (len d' < sz)); [done|]. unfold is_u16 in Hn. destruct (decide (t = 0)).
  - rewrite upto_ok by lia. cbn [mbind go_bind]. pose proof (check_name_safe (take (Z.to_nat sz) d')). by destruct (check_name _).
  - rewrite from_ok by lia. cbn [mbind go_bind]. apply IH. pose proof (len_drop_Z d' sz). unfold len in *. lia.
Qed.

Lemma server_name_safe d : server_name d ≠ Panic.
Proof.
  unfold server_name. destruct (decide (len d < 2)); [done|]. destruct (u16_at_ok d 0) as (sz & -> & _); [lia..|]. cbn [mbind go_bind].
  rewrite from_ok by lia. cbn [mbind go_bind]. destruct (decide _); [done|]. apply names_loop_safe. lia.
Qed.

Lemma extensions_loop_safe fuel d : (length d < fuel)%nat → extensions_loop fuel d ≠ Panic.
Proof.
  revert d. induction fuel as [|fuel IH]; intros d Hf; [lia|]. cbn [extensions_loop].
  destruct (decide (len d ≠ 0)); [|done]. destruct (decide (len d < 4)); [done|].
  destruct (u16_at_ok d 0) as (t & -> & _); [lia..|]. destruct (u16_at_ok d 2) as (sz & -> & Hn); [lia..|]. cbn [mbind go_bind].
  rewrite from_ok by lia. cbn [mbind go_bind]. set (d' := drop _ d). assert (Hd' : len d' = len d - 4) by (apply len_drop_Z; lia).
  destruct (decide (len d' < sz)); [done|]. unfold is_u16 in Hn.
  assert (Hrest : (data ← from_ d' sz; extensions_loop fuel data) ≠ Panic).
  { rewrite from_ok by lia. cbn [mbind go_bind]. apply IH. pose proof (len_drop_Z d' sz). unfold len in *. lia. }
  destruct (decide (t = 0)); [|exact Hrest]. rewrite upto_ok by lia. cbn [mbind go_bind].
  pose proof (server_name_safe (take (Z.to_nat sz) d')). destruct (server_name _) as [[name|]|er|]; [done|exact Hrest|done|done].
Qed.

Lemma ReadClientHello_safe data : ReadClientHello data ≠ Panic.
Proof.
  unfold ReadClientHello. destruct (decide (len data < 42)); [done|]. destruct (at_ok data 38) as (sz & -> & Hn); [lia|]. cbn [mbind go_bind].
  unfold is_u8 in Hn. destruct (decide (sz > 32 ∨ len data < 39 + sz)) as [|H1]; [done|]. rewrite from_ok by lia. cbn [mbind go_bind].
  set (d := drop _ data). destruct (decide (len d < 2)); [done|]. destruct (u16_at_ok d 0) as (c & -> & Hc); [lia..|]. cbn [mbind go_bind].
  unfold is_u16 in Hc. destruct (decide (c mod 2 = 1 ∨ len d < 2 + c)) as [|H2]; [done|]. rewrite from_ok by lia. cbn [mbind go_bind].
  set (d2 := drop _ d). destruct (decide (len d2 < 1)); [done|]. destruct (at_ok d2 0) as (m & -> & Hm); [lia|]. cbn [mbind go_bind].
  unfold is_u8 in Hm. destruct (decide (len d2 < 1 + m)); [done|]. rewrite from_ok by lia. cbn [mbind go_bind].
  set (d3 := drop _ d2). destruct (decide (len d3 < 2)); [done|]. destruct (u16_at_ok d3 0) as (x & -> & _); [lia..|]. cbn [mbind go_bind].
  rewrite from_ok by lia. cbn [mbind go_bind]. destruct (decide _); [done|]. apply extensions_loop_safe. lia.
Qed.

Lemma SniffTLS_safe b : SniffTLS b ≠ Panic.
Proof.
  unfold SniffTLS. destruct (decide (len b < 5)); [done|]. destruct (at_ok b 0) as (t & -> & _); [lia|]. cbn [mbind go_bind].
  destruct (decide (t ≠ 22)); [done|].
  destruct b as [|b0 [|b1 [|b2 [|b3 [|b4 b]]]]]; try (unfold len in *; cbn in *; lia).
  set (d := b0 :: b1 :: b2 :: b3 :: b4 :: b) in *. change (index d 1) with (Some b1). change (index d 2) with (Some b2). cbn [ok_or_panic mbind go_bind].
  destruct (negb (IsValidTLSVersion b1 b2)); [done|]. destruct (u16_at_ok d 3) as (sz & -> & Hn); [lia..|].
  cbn [mbind go_bind]. destruct (decide (5 + sz > len d)); [done|]. rewrite slice_Some; [|unfold is_u16 in Hn; lia..]. apply ReadClientHello_safe.
Qed.

(** *** A hello is read as it was written *)

Definition good_name (name : list byte) : Prop := Forall (λ b, 32 < byte_to_Z b) name ∧ list.last name ≠ Some x2e.
Definition small (l : list byte) : Prop := len l < 65536.

Lemma small_u16 l : small l → is_u16 (len l).
Proof. unfold small, is_u16. pose proof (len_nonneg l). lia. Qed.

Lemma check_good name : good_name name → check_name name = Ok name.
Proof.
  intros [Hn Hl]. unfold check_name. assert (He : existsb (λ b, bool_decide (byte_to_Z b ≤ 32)) name = false).
  { induction Hn as [|b name Hb _ IH]; [done|]. cbn. rewrite bool_decide_eq_false_2 by lia. apply IH. by destruct name. }
  rewrite He. by rewrite decide_False.
Qed.

Lemma len_vec16 l : len (vec16 l) = 2 + len l.
Proof. unfold vec16. rewrite len_app. done. Qed.

Lemma names_loop_finds fuel others name after : good_name name → small name →
  Forall (λ p, p.1 ≠ x00 ∧ small p.2) others → (length others < fuel)%nat →
  names_loop fuel (other_names others ++ x00 :: vec16 name ++ after) = Ok (Some name).
Proof.
  intros Hg Hs Ho. revert fuel. induction Ho as [|[t o] others [Ht Hso] _ IH]; intros fuel Hf; (destruct fuel as [|fuel]; [cbn in Hf; lia|]); cbn [names_loop].
  - cbn [other_names concat fmap list_fmap app]. pose proof (len_nonneg after). pose proof (len_nonneg name).
    assert (Hlen : len (x00 :: vec16 name ++ after) = 3 + len name + len after) by (rewrite len_cons, len_app, len_vec16; lia).
    rewrite decide_True, decide_False by lia. rewrite at_cons. cbn [mbind go_bind]. unfold vec16. rewrite <- app_assoc.
    rewrite u16_at_cons by (by apply small_u16). cbn [mbind go_bind].
    rewrite app_comm_cons, (from_app (x00 :: put_be16 (len name))) by done. cbn [mbind go_bind].
    rewrite decide_False by (rewrite len_app; lia). rewrite decide_True by done. rewrite upto_app by done. cbn [mbind go_bind]. by rewrite check_good.
  - change (other_names ((t, o) :: others)) with ((t :: vec16 o) ++ other_names others). rewrite <- app_assoc. set (rest := other_names others ++ _) in *.
    pose proof (len_nonneg rest). pose proof (len_nonneg o).
    assert (Hlen : len ((t :: vec16 o) ++ rest) = 3 + len o + len rest) by (rewrite len_app, len_cons, len_vec16; lia).
    rewrite decide_True, decide_False by lia. cbn [app]. rewrite at_cons. cbn [mbind go_bind]. unfold vec16. rewrite <- app_assoc.
    rewrite u16_at_cons by (by apply small_u16). cbn [mbind go_bind].
    rewrite app_comm_cons, (from_app (t :: put_be16 (len o))) by done. cbn [mbind go_bind].
    rewrite decide_False by (rewrite len_app; lia). rewrite decide_False.
    + rewrite from_app by done. cbn [mbind go_bind]. apply IH. cbn in Hf. lia.
    + intros E. cbn in Ht. apply Ht, byte_to_Z_inj. rewrite E. done.
Qed.

Lemma server_name_vec d : small d → server_name (vec16 d) = names_loop (S (length d)) d.
Proof.
  intros Hs. unfold server_name. rewrite decide_False by (rewrite len_vec16; pose proof (len_nonneg d); lia). unfold vec16.
  rewrite u16_at_put by (by apply small_u16). cbn [mbind go_bind]. rewrite from_app by done. cbn [mbind go_bind]. by rewrite decide_False by (by intros []).
Qed.

Lemma server_name_finds others name after : good_name name → Forall (λ p, p.1 ≠ x00 ∧ small p.2) others →
  small (other_names others ++ x00 :: vec16 name ++ after) → server_name (sni_body others name after) = Ok (Some name).
Proof.
  intros Hg Ho Hs. unfold sni_body. rewrite server_name_vec by done. set (d := other_names others ++ _) in *.
  apply names_loop_finds; [done| |done|].
  - unfold small in *. unfold d in Hs. rewrite len_app, len_cons, len_app, len_vec16 in Hs.
    pose proof (len_nonneg (other_names others)). pose proof (len_nonneg after). lia.
  - unfold d. rewrite length_app. clear. induction others as [|[t o] others IH]; cbn; [lia|].
    change (concat _) with (other_names others). rewrite length_app. cbn in IH. lia.
Qed.

Lemma len_extension t body : len (extension t body) = 4 + len body.
Proof. unfold extension. rewrite len_app, len_vec16. unfold len at 1. cbn. lia. Qed.

Lemma extensions_loop_step fuel t body rest : is_u16 t → small body →
  extensions_loop (S fuel) (extension t body ++ rest) =
  (name ← (if decide (t = 0) then server_name body else Ok None);
   match name with Some name => Ok name | None => extensions_loop fuel rest end).
Proof.
  intros Ht Hs. cbn [extensions_loop]. pose proof (len_nonneg rest). pose proof (len_nonneg body).
  rewrite decide_True, decide_False by (rewrite len_app, len_extension; lia).
  unfold extension, vec16. rewrite <- !app_assoc. rewrite u16_at_put by done. cbn [mbind go_bind].
  rewrite (u16_at_app (put_be16 t)) by (try done; by apply small_u16). cbn [mbind go_bind].
  rewrite (app_assoc (put_be16 t)), from_app by done. cbn [mbind go_bind]. rewrite decide_False by (rewrite len_app; lia).
  rewrite upto_app, from_app by done. done.
Qed.

Lemma extensions_loop_finds fuel before sni name after :
  Forall (λ p, p.1 ≠ 0 ∧ is_u16 p.1 ∧ small p.2) before → small sni → server_name sni = Ok (Some name) → (length before < fuel)%nat →
  extensions_loop fuel (extensions before sni after) = Ok name.
Proof.
  intros Hb Hs Hn. revert fuel. unfold extensions. induction Hb as [|[t body] before (Ht & Hu & Hbody) _ IH]; intros fuel Hf;
    (destruct fuel as [|fuel]; [cbn in Hf; lia|]).
  - cbn [concat fmap list_fmap app]. rewrite extensions_loop_step by (try done; unfold is_u16; lia). by rewrite decide_True, Hn.
  - cbn [concat fmap list_fmap fst snd] in *. rewrite <- app_assoc, extensions_loop_step by done. rewrite decide_False by done.
    cbn [mbind go_bind]. apply IH. cbn in Hf. lia.
Qed.

Lemma length_before before sni after : (length before < S (length (extensions before sni after)))%nat.
Proof.
  unfold extensions. rewrite length_app. induction before as [|[t b] before IH]; cbn; [lia|]. rewrite length_app. cbn in IH. lia.
Qed.

Lemma ReadClientHello_finds start sessionID suites methods before sni name after :
  let exts := extensions before sni after in
  length start = 38%nat → len sessionID ≤ 32 → len suites mod 2 = 0 → small suites → len methods < 256 → small exts →
  Forall (λ p, p.1 ≠ 0 ∧ is_u16 p.1 ∧ small p.2) before → small sni → server_name sni = Ok (Some name) →
  ReadClientHello (client_hello start sessionID suites methods exts) = Ok name.
Proof.
  intros exts Hst Hid Hev Hsu Hme Hex Hb Hs Hn. unfold ReadClientHello, client_hello.
  pose proof (len_nonneg sessionID). pose proof (len_nonneg suites). pose proof (len_nonneg methods). pose proof (len_nonneg exts).
  set (d3 := vec16 exts). set (d2 := vec8 methods ++ d3). set (d1 := vec16 suites ++ d2).
  assert (L3 : len d3 = 2 + len exts) by apply len_vec16.
  assert (L2 : len d2 = 1 + len methods + len d3) by (unfold d2, vec8; rewrite len_app, len_cons; lia).
  assert (L1 : len d1 = 2 + len suites + len d2) by (unfold d1; rewrite len_app, len_vec16; lia).
  assert (Hst' : len start = 38) by (unfold len; lia).
  assert (Hall : len (start ++ vec8 sessionID ++ d1) = 39 + len sessionID + len d1) by (unfold vec8; rewrite !len_app, len_cons; lia).
  assert (U0 : at_ (start ++ vec8 sessionID ++ d1) 38 = Ok (len sessionID)).
  { unfold vec8. cbn [app]. rewrite (at_app start) by done. by rewrite byte_to_of_Z_small by (unfold is_u8; lia). }
  assert (F0 : from_ (start ++ vec8 sessionID ++ d1) (39 + len sessionID) = Ok d1).
  { rewrite app_assoc. apply from_app. unfold vec8. rewrite len_app, len_cons. lia. }
  assert (U1 : u16_at d1 0 = Ok (len suites)) by (unfold d1, vec16; rewrite <- app_assoc; apply u16_at_put; by apply small_u16).
  assert (F1 : from_ d1 (2 + len suites) = Ok d2) by (unfold d1; apply from_app; by rewrite len_vec16).
  assert (U2 : at_ d2 0 = Ok (len methods)) by (unfold d2, vec8; cbn [app]; rewrite at_cons; by rewrite byte_to_of_Z_small by (unfold is_u8; lia)).
  assert (F2 : from_ d2 (1 + len methods) = Ok d3) by (unfold d2; apply from_app; unfold vec8; by rewrite len_cons).
  assert (U3 : u16_at d3 0 = Ok (len exts)) by (unfold d3, vec16; apply u16_at_put; by apply small_u16).
  assert (F3 : from_ d3 2 = Ok exts) by (unfold d3, vec16; by apply from_app).
  rewrite decide_False, U0 by lia. cbn [mbind go_bind]. rewrite decide_False, F0 by lia. cbn [mbind go_bind].
  rewrite decide_False, U1 by lia. cbn [mbind go_bind]. rewrite decide_False, F1 by lia. cbn [mbind go_bind].
  rewrite decide_False, U2 by lia. cbn [mbind go_bind]. rewrite decide_False, F2 by lia. cbn [mbind go_bind].
  rewrite decide_False, U3 by lia. cbn [mbind go_bind]. rewrite F3. cbn [mbind go_bind]. rewrite decide_False by (by intros []).
  apply extensions_loop_finds; [done..|apply length_before].
Qed.

Lemma SniffTLS_header m k body : is_u16 k →
  SniffTLS ([x16; x03; m] ++ put_be16 k ++ body) = if decide (k > len body) then Err ErrNoClue else ReadClientHello (take (Z.to_nat k) body).
Proof.
  intros Hk. unfold SniffTLS. pose proof (len_nonneg body). set (d := [x16; x03; m] ++ put_be16 k ++ body).
  assert (Hl : len d = 5 + len body).
  { unfold d. rewrite !len_app. change (len (put_be16 k)) with 2. change (len [x16; x03; m]) with 3. lia. }
  rewrite decide_False by lia. change (at_ d 0) with (Ok 22). cbn [mbind go_bind]. rewrite decide_False by (by intros []).
  change (index d 1) with (Some x03). change (index d 2) with (Some m). cbn [ok_or_panic mbind go_bind].
  change (negb (IsValidTLSVersion x03 m)) with false. cbv iota.
  assert (Hu : u16_at d 3 = Ok k) by (by apply (u16_at_app [x16; x03; m])). rewrite Hu. cbn [mbind go_bind].
  unfold is_u16 in Hk. destruct (decide (k > len body)); [by rewrite decide_True by lia|]. rewrite decide_False by lia.
  rewrite slice_Some by lia. cbn [ok_or_panic mbind go_bind]. by replace (5 + k - 5) with k by lia.
Qed.

(** The parts of a hello. *)
Record Hello := mkHello {
  h_start : list byte; h_session : list byte; h_suites : list byte; h_methods : list byte;
  h_before : list (Z * list byte); h_others : list (byte * list byte); h_name : list byte; h_names : list byte; h_after : list byte;
}.
Definition hello_exts (h : Hello) : list byte := extensions (h_before h) (sni_body (h_others h) (h_name h) (h_names h)) (h_after h).
Definition hello_bytes (h : Hello) : list byte := client_hello (h_start h) (h_session h) (h_suites h) (h_methods h) (hello_exts h).
Definition hello_ok (h : Hello) : Prop :=
  length (h_start h) = 38%nat ∧ len (h_session h) ≤ 32 ∧ len (h_suites h) mod 2 = 0 ∧ len (h_methods h) < 256 ∧
  Forall (λ p, p.1 ≠ 0 ∧ is_u16 p.1 ∧ small p.2) (h_before h) ∧ Forall (λ p, p.1 ≠ x00 ∧ small p.2) (h_others h) ∧
  good_name (h_name h) ∧ small (hello_bytes h).

Lemma hello_parts_small h : hello_ok h →
  small (h_suites h) ∧ small (hello_exts h) ∧ small (sni_body (h_others h) (h_name h) (h_names h)) ∧
  small (other_names (h_others h) ++ x00 :: vec16 (h_name h) ++ h_names h).
Proof.
  intros (_ & _ & _ & _ & _ & _ & _ & Hs). unfold small, hello_bytes, client_hello, hello_exts, extensions, sni_body in *. unfold vec8 in Hs.
  set (names := other_names (h_others h) ++ _) in *. set (b := concat _) in *. set (e := b ++ _) in *.
  rewrite !len_app, !len_cons, !len_vec16 in Hs. unfold e in Hs |- *. rewrite !len_app, len_extension, len_vec16 in Hs. rewrite !len_app, len_extension, len_vec16.
  pose proof (len_nonneg (h_start h)). pose proof (len_nonneg (h_session h)). pose proof (len_nonneg (h_suites h)). pose proof (len_nonneg (h_methods h)).
  pose proof (len_nonneg b). pose proof (len_nonneg (h_after h)). pose proof (len_nonneg names). lia.
Qed.

Lemma hello_read h : hello_ok h → ReadClientHello (hello_bytes h) = Ok (h_name h).
Proof.
  intros Hok. destruct (hello_parts_small h Hok) as (S1 & S2 & S3 & S4). destruct Hok as (H1 & H2 & H3 & H4 & H5 & H6 & H7 & H8).
  apply ReadClientHello_finds; try done. by apply server_name_finds.
Qed.

(** *** Parts of a hello *)

(** What the lengths in a hello that is read say of its size. *)
Lemma ReadClientHello_size data name : ReadClientHello data = Ok name → ∃ sid cs cm el,
  at_ data 38 = Ok sid ∧ u16_at data (39 + sid) = Ok cs ∧ at_ data (41 + sid + cs) = Ok cm ∧ u16_at data (42 + sid + cs + cm) = Ok el ∧
  0 ≤ sid ∧ 0 ≤ cs ∧ 0 ≤ cm ∧ 0 ≤ el ∧ len data = 44 + sid + cs + cm + el.
Proof.
  unfold ReadClientHello. destruct (decide (len data < 42)); [done|]. destruct (at_ok data 38) as (sid & E0 & Hn); [lia|]. rewrite E0. cbn [mbind go_bind].
  unfold is_u8 in Hn. destruct (decide (sid > 32 ∨ len data < 39 + sid)) as [|H1]; [done|]. rewrite from_ok by lia. cbn [mbind go_bind].
  set (d := drop _ data). assert (Ld : len d = len data - (39 + sid)) by (apply len_drop_Z; lia).
  destruct (decide (len d < 2)); [done|]. destruct (u16_at_ok d 0) as (c & E1 & Hc); [lia..|]. rewrite E1. cbn [mbind go_bind].
  unfold is_u16 in Hc. destruct (decide (c mod 2 = 1 ∨ len d < 2 + c)) as [|H2]; [done|]. rewrite from_ok by lia. cbn [mbind go_bind].
  set (d2 := drop _ d). assert (Ld2 : len d2 = len d - (2 + c)) by (apply len_drop_Z; lia).
  destruct (decide (len d2 < 1)); [done|]. destruct (at_ok d2 0) as (m & E2 & Hm); [lia|]. rewrite E2. cbn [mbind go_bind].
  unfold is_u8 in Hm. destruct (decide (len d2 < 1 + m)); [done|]. rewrite from_ok by lia. cbn [mbind go_bind].
  set (d3 := drop _ d2). assert (Ld3 : len d3 = len d2 - (1 + m)) by (apply len_drop_Z; lia).
  destruct (decide (len d3 < 2)); [done|]. destruct (u16_at_ok d3 0) as (x & E3 & Hx); [lia..|]. rewrite E3. cbn [mbind go_bind].
  rewrite from_ok by lia. cbn [mbind go_bind]. destruct (decide _) as [|Hex]; [done|]. intros _. rewrite len_drop_Z in Hex by lia. unfold is_u16 in Hx.
  unfold d3 in E3. rewrite u16_at_drop in E3 by lia. unfold d2 in E2, E3. rewrite at_drop in E2 by lia. rewrite u16_at_drop in E3 by lia.
  unfold d in E1, E2, E3. rewrite u16_at_drop in E1 by lia. rewrite at_drop in E2 by lia. rewrite u16_at_drop in E3 by lia.
  exists sid, c, m, x. split; [done|]. rewrite <- E1, <- E2, <- E3. split; [f_equal; lia|]. split; [f_equal; lia|]. split; [f_equal; lia|]. lia.
Qed.

(** The part of a hello before its extensions, up to their length. *)
Definition hello_front (h : Hello) : Z := 44 + len (h_session h) + len (h_suites h) + len (h_methods h).

Lemma hello_fields h : hello_ok h → let b := hello_bytes h in
  at_ b 38 = Ok (len (h_session h)) ∧ u16_at b (39 + len (h_session h)) = Ok (len (h_suites h)) ∧
  at_ b (41 + len (h_session h) + len (h_suites h)) = Ok (len (h_methods h)) ∧
  u16_at b (42 + len (h_session h) + len (h_suites h) + len (h_methods h)) = Ok (len (hello_exts h)) ∧
  len b = hello_front h + len (hello_exts h).
Proof.
  intros Hok b. destruct (hello_parts_small h Hok) as (S1 & S2 & _). destruct Hok as (H1 & H2 & _ & H4 & _).
  assert (L0 : len (h_start h) = 38) by (unfold len; lia). pose proof (len_nonneg (h_session h)). pose proof (len_nonneg (h_methods h)).
  unfold b, hello_bytes, client_hello, hello_front, vec8. cbn [app]. split; [|split; [|split; [|split]]].
  - rewrite (at_app (h_start h)) by done. by rewrite byte_to_of_Z_small by (unfold is_u8; lia).
  - unfold vec16 at 1. rewrite (app_comm_cons (h_session h)), app_assoc, <- (app_assoc (put_be16 _)).
    apply u16_at_app; [by apply small_u16|]. rewrite len_app, len_cons. lia.
  - rewrite (app_comm_cons (h_session h)), (app_assoc (h_start h)), app_assoc. cbn [app].
    rewrite at_app by (rewrite !len_app, len_cons, len_vec16; lia). by rewrite byte_to_of_Z_small by (unfold is_u8; lia).
  - rewrite (app_comm_cons (h_session h)), (app_assoc (h_start h)), app_assoc. cbn [app]. rewrite (app_comm_cons (h_methods h)), app_assoc.
    unfold vec16 at 2. apply (u16_at_app _ _ (hello_exts h)); [by apply small_u16|]. rewrite !len_app, !len_cons, len_vec16. lia.
  - rewrite !len_app, len_cons, !len_app, len_cons, !len_app, !len_vec16. lia.
Qed.

(** Data of a hello that has not all come: shorter than the hello, and without a gap before its
    extensions; as of the pieces of a hello that come in their order. *)
Definition unfinished (h : Hello) (c : list byte) : Prop :=
  len c < len (hello_bytes h) ∧ ∀ i, 0 ≤ i < hello_front h → i < len c → index c i = index (hello_bytes h) i.

Lemma prefix_unfinished h c : c `prefix_of` hello_bytes h → c ≠ hello_bytes h → unfinished h c.
Proof.
  intros [r E] Hne. unfold unfinished. rewrite E. split.
  - rewrite len_app. destruct r as [|x r]; [by rewrite app_nil_r in E|]. rewrite len_cons. pose proof (len_nonneg r). lia.
  - intros i Hi Hl. unfold index. rewrite !decide_True by lia. rewrite lookup_app_l; [done|]. unfold len in Hl. lia.
Qed.

Lemma at_len d i z : at_ d i = Ok z → i < len d.
Proof.
  unfold at_, index. case_decide; [|done]. destruct (d !! Z.to_nat i) as [b|] eqn:E; [|done]. apply lookup_lt_Some in E. unfold len. lia.
Qed.
Lemma u16_at_len d i z : u16_at d i = Ok z → i + 1 < len d.
Proof. unfold u16_at. intros (a & _ & H)%go_bind_ok. apply go_bind_ok in H as (b & H & _). by eapply at_len. Qed.

(** Nothing is read from it. *)
Lemma unfinished_unread h c name : hello_ok h → unfinished h c → ReadClientHello c ≠ Ok name.
Proof.
  intros Hok [Hlen Hag] Hr. destruct (ReadClientHello_size c name Hr) as (sid & cs & cm & el & A0 & A1 & A2 & A3 & H0 & H1 & H2 & H3 & Hl).
  destruct (hello_fields h Hok) as (B0 & B1 & B2 & B3 & Hb).
  pose proof (len_nonneg (h_session h)). pose proof (len_nonneg (h_suites h)). pose proof (len_nonneg (h_methods h)).
  assert (Hat : ∀ i, 0 ≤ i < hello_front h → i < len c → at_ c i = at_ (hello_bytes h) i) by (intros i Hi Hli; unfold at_; by rewrite Hag).
  assert (Hu : ∀ i, 0 ≤ i → i + 1 < hello_front h → i + 1 < len c → u16_at c i = u16_at (hello_bytes h) i) by (intros i Hi Hf Hli; unfold u16_at; by rewrite !Hat by lia).
  pose proof (at_len _ _ _ A0). pose proof (u16_at_len _ _ _ A1). pose proof (at_len _ _ _ A2). pose proof (u16_at_len _ _ _ A3). unfold hello_front in *.
  rewrite Hat, B0 in A0 by lia. injection A0 as <-. rewrite Hu, B1 in A1 by lia. injection A1 as <-.
  rewrite Hat, B2 in A2 by lia. injection A2 as <-. rewrite Hu, B3 in A3 by lia. injection A3 as <-. lia.
Qed.

(** The server name of a TLS hello is found. Whatever the session ID, the cipher suites, the
    extensions before and after and the names of other types, for a name of printable bytes
    without a dot at the end the sniffer finds exactly it, also with more bytes behind the
    record; on every proper prefix of the record it says that it has no clue yet, so a name is
    never taken from a part of the hello. *)
Lemma tls_hello_sniffed h minor rest :
  hello_ok h →
  SniffTLS (tls_record minor (hello_bytes h) ++ rest) = Ok (h_name h) ∧
  ∀ n, (n < length (tls_record minor (hello_bytes h)))%nat → SniffTLS (take n (tls_record minor (hello_bytes h))) = Err ErrNoClue.
Proof.
  intros Hok. assert (Hs : small (hello_bytes h)) by apply Hok. unfold tls_record, vec16. split.
  - rewrite <- !app_assoc, SniffTLS_header by (by apply small_u16). rewrite decide_False by (rewrite len_app; pose proof (len_nonneg rest); lia).
    rewrite to_nat_len, take_app_length. by apply hello_read.
  - intros n Hn. destruct (decide (n < 5)%nat) as [H5|H5].
    + unfold SniffTLS. rewrite decide_True; [done|]. unfold len. rewrite length_take. lia.
    + replace n with (3 + (2 + (n - 5)))%nat by lia. rewrite take_app_add' by done. rewrite take_app_add' by done.
      rewrite SniffTLS_header by (by apply small_u16). rewrite decide_True; [done|]. unfold len. rewrite length_take.
      rewrite !length_app in Hn. cbn in Hn. lia.
Qed.

(** The hello of a client for the name [a.b], without a session, with one suite and one extension before the name. *)
Definition example_hello : Hello := mkHello (replicate 38 x00) [] [x13; x01] [x00] [(23, [])] [] (s2b "a.b") [] [].

Lemma example_fits : hello_ok example_hello.
Proof.
  split; [done|]. split; [by apply Z.leb_le|]. split; [done|]. split; [by apply Z.ltb_lt|]. split; [|split; [done|split; [split|]]].
  - apply Forall_cons_2; [|done]. split; [done|]. split; [split; by apply Z.leb_le || apply Z.ltb_lt|by apply Z.ltb_lt].
  - repeat (apply Forall_cons_2; [by apply Z.ltb_lt|]). done.
  - done.
  - by apply Z.ltb_lt.
Qed.

End Tls.

(** ** QUIC *)

(** What the libraries do: HKDF, one block of AES, AES-GCM with the nonce mask of TLS 1.3, and the
    variable-length integers. *)
Class QuicOps := {
  Extract : list byte → list byte → list byte;
  Expand : list byte → list byte → Z → list byte;
  aes_Encrypt : list byte → list byte → list byte;
  aead_Open : list byte → list byte → list byte → list byte → list byte → option (list byte);
  quicvarint_Read : list byte → go (Z * list byte)
}.

(** [hkdf.Expand] fills what it is asked for; a block has sixteen bytes; an integer takes a byte at
    least and is not negative; [quicvarint.Append] and [Seal] write what [Read] and [Open] read,
    and a seal is sixteen bytes longer. *)
Class QuicLaws `{QuicOps} := {
  quicvarint_Append : Z → list byte;
  aead_Seal : list byte → list byte → list byte → list byte → list byte → list byte;
  Expand_length secret info n : 0 ≤ n ≤ 64 → len (Expand secret info n) = n;
  aes_length key block : len (aes_Encrypt key block) = 16;
  varint_shorter b v rest : quicvarint_Read b = Ok (v, rest) → 0 ≤ v ∧ ∃ x l, b = (x :: l) ++ rest;
  varint_safe b : quicvarint_Read b ≠ Panic;
  varint_roundtrip n rest : 0 ≤ n < 65536 → quicvarint_Read (quicvarint_Append n ++ rest) = Ok (n, rest);
  seal_open key mask nonce plain aad : aead_Open key mask nonce (aead_Seal key mask nonce plain aad) aad = Some plain;
  seal_length key mask nonce plain aad : len (aead_Seal key mask nonce plain aad) = len plain + 16
}.

Module Quic.
Section quic.
Context `{QuicOps}.

Definition errNotQuic : GoError := ErrMsg "not quic".
Definition errNotQuicInitial : GoError := ErrMsg "not initial packet".
Definition ErrShortBuffer : GoError := ErrMsg "short buffer".
Definition versionDraft29 : Z := 0xff00001d.
Definition version1 : Z := 1.
Definition quicSaltOld : list byte := [xaf; xbf; xec; x28; x99; x93; xd2; x4c; x9e; x97; x86; xf1; x9c; x61; x11; xe0; x43; x90; xa8; x99].
Definition quicSalt : list byte := [x38; x76; x2c; xf7; xf5; x59; x34; xb3; x4d; x17; x9a; xe6; xa4; xc8; x0c; xad; xcc; xbb; x7f; x0a].

(** The unread bytes of a [buf.FromBytes] buffer: [ReadByte] and [ReadBytes]. *)
Definition ReadByte_ (b : list byte) : go (Z * list byte) := match b with [] => Err EOF | x :: b => Ok (byte_to_Z x, b) end.
Definition ReadBytes (b : list byte) (n : Z) : go (list byte * list byte) :=
  if decide (len b < n) then Err EOF else Ok (take (Z.to_nat n) b, drop (Z.to_nat n) b).

Definition readShortQuicVarint (b : list byte) : go (Z * list byte) :=
  '(v, b) ← quicvarint_Read b;
  if decide (v > 65535) then Err errNotQuicInitial else Ok (v, b).

(** Every error becomes [e]. *)
Definition or_error {A} (e : GoError) (m : go A) : go A := match m with Err _ => Err e | m => m end.

Definition hkdfExpandLabel (secret context : list byte) (label : string) (length : Z) : go (list byte) :=
  let l := s2b label in
  let b := put_be16 (u16 length) ++ [byte_of_Z (6 + len l)] ++ s2b "tls13 " ++ l ++ [byte_of_Z (len context)] ++ context in
  let out := Expand secret b length in
  if decide (len out = length) then Ok out else Panic.

(** *** The header of a packet *)

Record Header := mkHeader { q_version : Z; q_destConnID : list byte; q_initial : bool; q_hdrLen : Z; q_packetLen : Z }.

Definition read_header (b : list byte) : go Header :=
  '(typeByte, buffer) ← or_error errNotQuic (ReadByte_ b);
  if decide (Z.land typeByte 128 = 0 ∨ Z.land typeByte 64 = 0) then Err errNotQuicInitial
  else
    '(vb, buffer) ← or_error errNotQuic (ReadBytes buffer 4);
    versionNumber ← ok_or_panic (be32 vb);
    if decide (versionNumber ≠ 0 ∧ Z.land typeByte 64 = 0) then Err errNotQuic
    else if decide (versionNumber ≠ versionDraft29 ∧ versionNumber ≠ version1) then Err errNotQuic
    else
      let isQuicInitial := bool_decide (Z.shiftr (Z.land typeByte 48) 4 = 0) in
      '(l, buffer) ← or_error errNotQuic (ReadByte_ buffer);
      '(destConnID, buffer) ← or_error errNotQuic (ReadBytes buffer l);
      '(l, buffer) ← or_error errNotQuic (ReadByte_ buffer);
      '(_, buffer) ← or_error errNotQuic (ReadBytes buffer l);
      buffer ← (if isQuicInitial then
                  '(tokenLen, buffer) ← or_error errNotQuic (readShortQuicVarint buffer);
                  if decide (tokenLen > len b) then Err errNotQuic
                  else '(_, buffer) ← or_error errNotQuic (ReadBytes buffer tokenLen); Ok buffer
                else Ok buffer);
      '(packetLen, buffer) ← or_error errNotQuic (readShortQuicVarint buffer);
      if decide (packetLen < 4) then Err errNotQuic
      else
        let hdrLen := len b - len buffer in
        if decide (len b < hdrLen + packetLen) then Err ErrNoClue
        else Ok (mkHeader versionNumber destConnID isQuicInitial hdrLen packetLen).

(** *** Decryption *)

Definition xor_byte (a b : byte) : byte := byte_of_Z (Z.lxor (byte_to_Z a) (byte_to_Z b)).
Definition set_byte (b : list byte) (i : Z) (v : byte) : go (list byte) :=
  if decide (0 ≤ i < len b) then Ok (<[Z.to_nat i := v]> b) else Panic.

(** [b[hdrLen+i] ^= mask[i+1]] for [i] below [n]. *)
Fixpoint unmask (b mask : list byte) (hdrLen : Z) (n : nat) (i : Z) : go (list byte) :=
  match n with
  | O => Ok b
  | S n =>
      x ← ok_or_panic (index b (hdrLen + i));
      m ← ok_or_panic (index mask (i + 1));
      b ← set_byte b (hdrLen + i) (xor_byte x m);
      unmask b mask hdrLen n (i + 1)
  end.

Record Keys := mkKeys { k_hp : list byte; k_key : list byte; k_iv : list byte }.
Definition initial_keys (version : Z) (destConnID : list byte) : go Keys :=
  let salt := if decide (version = version1) then quicSalt else quicSaltOld in
  let initialSecret := Extract destConnID salt in
  secret ← hkdfExpandLabel initialSecret [] "client in" 32;
  hpKey ← hkdfExpandLabel secret [] "quic hp" 16;
  key ← hkdfExpandLabel secret [] "quic key" 16;
  iv ← hkdfExpandLabel secret [] "quic iv" 12;
  Ok (mkKeys hpKey key iv).

(** The nonce of eight bytes: the packet number at its end. *)
Definition nonce_of (pn : list byte) : list byte := replicate (8 - length pn) x00 ++ pn.

Definition unprotect (b : list byte) (h : Header) : go (list byte) :=
  let hdrLen := q_hdrLen h in
  ks ← initial_keys (q_version h) (q_destConnID h);
  if decide (len b < hdrLen + 4 + 16) then Err errNotQuic
  else
    sample ← ok_or_panic (slice b (hdrLen + 4) (hdrLen + 4 + 16));
    let mask := aes_Encrypt (k_hp ks) sample in
    b0 ← ok_or_panic (index b 0);
    m0 ← ok_or_panic (index mask 0);
    let b0 := byte_of_Z (Z.lxor (byte_to_Z b0) (Z.land (byte_to_Z m0) 15)) in
    b ← set_byte b 0 b0;
    let packetNumberLength := Z.land (byte_to_Z b0) 3 + 1 in
    b ← unmask b mask hdrLen (Z.to_nat packetNumberLength) 0;
    pn ← ok_or_panic (slice b hdrLen (hdrLen + packetNumberLength));
    let extHdrLen := hdrLen + packetNumberLength in
    data ← ok_or_panic (slice b extHdrLen (q_packetLen h + hdrLen));
    aad ← upto b extHdrLen;
    match aead_Open (k_key ks) (k_iv ks) (nonce_of pn) data aad with
    | Some plain => Ok plain
    | None => Err (ErrMsg "cipher: message authentication failed")
    end.

(** *** Frames *)

(** The capacity of [buf.NewWithSize(32767)]. *)
Definition cryptoCap : Z := 32768.

(** The type of the next frame that is not padding; at the end of the data, padding. *)
Fixpoint frame_type (b : list byte) : byte * list byte :=
  match b with
  | [] => (x00, [])
  | x :: rest => if decide (x = x00 ∧ rest ≠ []) then frame_type rest else (x, rest)
  end.

Fixpoint skip_varints (n : nat) (b : list byte) : go (list byte) :=
  match n with
  | O => Ok b
  | S n => '(_, b) ← or_error ErrUnexpectedEOF (readShortQuicVarint b); skip_varints n b
  end.

(** A piece of the crypto data at its offset; what is not there yet is zero. *)
Definition put_crypto (crypto : list byte) (offset : Z) (data : list byte) : go (list byte) :=
  let current := offset + len data in
  let grown := if decide (len crypto < current)
    then if decide (cryptoCap < current) then Err ErrShortBuffer else Ok (crypto ++ replicate (Z.to_nat (current - len crypto)) x00)
    else Ok crypto in
  crypto ← grown;
  _ ← ok_or_panic (slice crypto offset current);
  Ok (take (Z.to_nat offset) crypto ++ data ++ drop (Z.to_nat current) crypto).

Definition crypto_frame (b crypto : list byte) : go (list byte * list byte) :=
  '(offset, b) ← or_error ErrUnexpectedEOF (readShortQuicVarint b);
  '(length, b) ← or_error ErrUnexpectedEOF (readShortQuicVarint b);
  if decide (length > len b) then Err ErrUnexpectedEOF
  else
    crypto ← put_crypto crypto offset (take (Z.to_nat length) b);
    if decide (b = []) then Err ErrUnexpectedEOF else Ok (drop (Z.to_nat length) b, crypto).

Definition ack_frame (ecn : bool) (b : list byte) : go (list byte) :=
  b ← skip_varints 2 b;
  '(ackRangeCount, b) ← or_error ErrUnexpectedEOF (readShortQuicVarint b);
  b ← skip_varints 1 b;
  b ← skip_varints (Z.to_nat (2 * ackRangeCount)) b;
  if ecn then skip_varints 3 b else Ok b.

Definition close_frame (b : list byte) : go (list byte) :=
  b ← skip_varints 2 b;
  '(length, b) ← or_error ErrUnexpectedEOF (readShortQuicVarint b);
  '(_, b) ← or_error ErrUnexpectedEOF (ReadBytes b length);
  Ok b.

Fixpoint frames_loop (fuel : nat) (b crypto : list byte) : go (list byte) :=
  match fuel with
  | O => Panic
  | S fuel =>
      if decide (b = []) then Ok crypto
      else
        let '(frameType, b) := frame_type b in
        if decide (frameType = x00 ∨ frameType = x01) then frames_loop fuel b crypto
        else if decide (frameType = x02 ∨ frameType = x03) then b ← ack_frame (bool_decide (frameType = x03)) b; frames_loop fuel b crypto
        else if decide (frameType = x06) then '(b, crypto) ← crypto_frame b crypto; frames_loop fuel b crypto
        else if decide (frameType = x1c) then b ← close_frame b; frames_loop fuel b crypto
        else Err errNotQuicInitial
  end.

(** *** Packets *)

Fixpoint packets_loop (fuel : nat) (b crypto : list byte) : go (list byte) :=
  match fuel with
  | O => Panic
  | S fuel =>
      if decide (b = []) then Err ErrProtoNeedMoreData
      else
        h ← read_header b;
        restPayload ← from_ b (q_hdrLen h + q_packetLen h);
        if negb (q_initial h) then packets_loop fuel restPayload crypto
        else
          plain ← unprotect b h;
          crypto ← frames_loop (S (length plain)) plain crypto;
          match Tls.ReadClientHello crypto with
          | Ok domain => Ok domain
          | Err _ => packets_loop fuel restPayload crypto
          | Panic => Panic
          end
  end.

Definition SniffQUIC (b : list byte) : go (list byte) :=
  if decide (len b = 0) then Err ErrNoClue else packets_loop (S (length b)) b [].

(** *** No panic

    [post m P]: [m] does not panic, and what it returns satisfies [P]. *)
Definition post {A} (m : go A) (P : A → Prop) : Prop := match m with Ok a => P a | Err _ => True | Panic => False end.

Lemma post_bind {A B} (m : go A) (f : A → go B) (P : A → Prop) (Q : B → Prop) :
  post m P → (∀ a, P a → post (f a) Q) → post (m ≫= f) Q.
Proof. destruct m as [a| |]; cbn; auto. Qed.

Lemma post_weaken {A} (m : go A) (P Q : A → Prop) : post m P → (∀ a, P a → Q a) → post m Q.
Proof. destruct m; cbn; auto. Qed.

Lemma post_or_error {A} e (m : go A) P : post m P → post (or_error e m) P.
Proof. by destruct m. Qed.

Lemma post_safe {A} (m : go A) P : post m P → m ≠ Panic.
Proof. by destruct m. Qed.

Lemma safe_post {A} (m : go A) : m ≠ Panic → post m (λ _, True).
Proof. by destruct m. Qed.

Lemma ReadByte_post b : post (ReadByte_ b) (λ r, is_u8 r.1 ∧ len r.2 + 1 = len b).
Proof. destruct b as [|x b]; [done|]. cbn. split; [apply byte_to_Z_range|rewrite len_cons; lia]. Qed.

Lemma ReadBytes_post b n : 0 ≤ n → post (ReadBytes b n) (λ r, len r.1 = n ∧ len r.2 + n = len b).
Proof.
  intros Hn. unfold ReadBytes. destruct (decide (len b < n)); [done|]. cbn. unfold len in *. rewrite length_take, length_drop. lia.
Qed.

Context `{!QuicLaws}.

Lemma readShort_post b : post (readShortQuicVarint b) (λ r, 0 ≤ r.1 ≤ 65535 ∧ len r.2 < len b).
Proof.
  unfold readShortQuicVarint. apply (post_bind _ _ (λ r, 0 ≤ r.1 ∧ len r.2 < len b)).
  - pose proof (varint_safe b). destruct (quicvarint_Read b) as [[v rest]| |] eqn:E; [|done..]. cbn.
    destruct (varint_shorter _ _ _ E) as (Hv & x & l & ->). split; [done|]. rewrite len_app, len_cons. pose proof (len_nonneg l). lia.
  - intros [v rest] [Hv Hl]. cbn in Hv, Hl. destruct (decide (v > 65535)); [done|]. cbn. lia.
Qed.

Lemma skip_varints_post n b : post (skip_varints n b) (λ r, len r ≤ len b).
Proof.
  revert b. induction n as [|n IH]; intros b; cbn [skip_varints]; [cbn; lia|].
  eapply post_bind; [apply post_or_error, readShort_post|]. intros [v rest] [_ Hl]. cbn in Hl.
  eapply post_weaken; [apply IH|]. cbn. lia.
Qed.

Lemma put_crypto_post crypto offset data : 0 ≤ offset → post (put_crypto crypto offset data) (λ _, True).
Proof.
  intros Ho. unfold put_crypto. pose proof (len_nonneg data). set (cur := offset + len data).
  apply (post_bind _ _ (λ c, cur ≤ len c)).
  - destruct (decide (len crypto < cur)); [|cbn; lia]. destruct (decide (cryptoCap < cur)); [done|]. cbn.
    unfold len in *. rewrite length_app, length_replicate. lia.
  - intros c Hc. unfold cur in *. rewrite slice_Some by lia. done.
Qed.

Lemma crypto_frame_post b crypto : post (crypto_frame b crypto) (λ r, len r.1 < len b).
Proof.
  unfold crypto_frame. eapply post_bind; [apply post_or_error, readShort_post|]. intros [off b1] [Ho H1]. cbn in Ho, H1.
  eapply post_bind; [apply post_or_error, readShort_post|]. intros [n b2] [Hn H2]. cbn in Hn, H2.
  destruct (decide (n > len b2)); [done|]. eapply post_bind; [apply put_crypto_post; lia|]. intros c _.
  destruct (decide (b2 = [])); [done|]. cbn. unfold len in *. rewrite length_drop. lia.
Qed.

Lemma ack_frame_post ecn b : post (ack_frame ecn b) (λ r, len r ≤ len b).
Proof.
  unfold ack_frame. eapply post_bind; [apply skip_varints_post|]. intros b1 H1. cbn in H1.
  eapply post_bind; [apply post_or_error, readShort_post|]. intros [c b2] [_ H2]. cbn in H2.
  eapply post_bind; [apply skip_varints_post|]. intros b3 H3. cbn in H3.
  eapply post_bind; [apply skip_varints_post|]. intros b4 H4. cbn in H4.
  destruct ecn; [|cbn; lia]. eapply post_weaken; [apply skip_varints_post|]. cbn. lia.
Qed.

Lemma close_frame_post b : post (close_frame b) (λ r, len r ≤ len b).
Proof.
  unfold close_frame. eapply post_bind; [apply skip_varints_post|]. intros b1 H1. cbn in H1.
  eapply post_bind; [apply post_or_error, readShort_post|]. intros [n b2] [Hn H2]. cbn in Hn, H2.
  eapply post_bind; [apply post_or_error, ReadBytes_post; lia|]. intros [x b3] [_ H3]. cbn in H3 |- *. lia.
Qed.

Lemma frame_type_len b : b ≠ [] → len (frame_type b).2 < len b.
Proof.
  induction b as [|x b IH]; [done|]. intros _. cbn [frame_type]. rewrite len_cons. destruct (decide (x = x00 ∧ b ≠ [])) as [[_ Hb]|]; [|cbn; lia].
  specialize (IH Hb). lia.
Qed.

Lemma frames_loop_post fuel b crypto : len b < Z.of_nat fuel → post (frames_loop fuel b crypto) (λ _, True).
Proof.
  revert b crypto. induction fuel as [|fuel IH]; intros b crypto Hf; [pose proof (len_nonneg b); lia|]. cbn [frames_loop].
  destruct (decide (b = [])) as [|Hb]; [done|]. pose proof (frame_type_len b Hb) as Hl. destruct (frame_type b) as [t b']. cbn in Hl.
  destruct (decide (t = x00 ∨ t = x01)); [apply IH; lia|].
  destruct (decide (t = x02 ∨ t = x03)). { eapply post_bind; [apply ack_frame_post|]. intros b2 H2. cbn in H2. apply IH. lia. }
  destruct (decide (t = x06)). { eapply post_bind; [apply crypto_frame_post|]. intros [b2 c] H2. cbn in H2. apply IH. lia. }
  destruct (decide (t = x1c)); [|done]. eapply post_bind; [apply close_frame_post|]. intros b2 H2. cbn in H2. apply IH. lia.
Qed.

Lemma read_header_post b : post (read_header b) (λ h, 0 < q_hdrLen h ∧ 4 ≤ q_packetLen h ∧ q_hdrLen h + q_packetLen h ≤ len b).
Proof.
  unfold read_header. eapply post_bind; [apply post_or_error, ReadByte_post|]. intros [t b1] [Ht H1]. cbn in Ht, H1.
  destruct (decide (_ ∨ _)); [done|]. eapply post_bind; [apply post_or_error, (ReadBytes_post b1 4); lia|]. intros [vb b2] [Hv H2]. cbn in Hv, H2.
  apply (post_bind _ _ (λ _, True)).
  { destruct vb as [|v0 [|v1 [|v2 [|v3 vb]]]]; try (unfold len in Hv; cbn in Hv; lia). done. }
  intros version _. destruct (decide (version ≠ 0 ∧ _)); [done|]. destruct (decide (_ ∧ _)); [done|].
  eapply post_bind; [apply post_or_error, ReadByte_post|]. intros [l b3] [Hl H3]. cbn in Hl, H3. unfold is_u8 in Hl.
  eapply post_bind; [apply post_or_error, (ReadBytes_post b3 l); lia|]. intros [dcid b4] [_ H4]. cbn in H4.
  eapply post_bind; [apply post_or_error, ReadByte_post|]. intros [l' b5] [Hl' H5]. cbn in Hl', H5. unfold is_u8 in Hl'.
  eapply post_bind; [apply post_or_error, (ReadBytes_post b5 l'); lia|]. intros [scid b6] [_ H6]. cbn in H6.
  apply (post_bind _ _ (λ b7, len b7 ≤ len b6)).
  { destruct (bool_decide _); [|cbn; lia]. eapply post_bind; [apply post_or_error, readShort_post|]. intros [tl b7] [Htl H7]. cbn in Htl, H7.
    destruct (decide (tl > len b)); [done|]. eapply post_bind; [apply post_or_error, (ReadBytes_post b7 tl); lia|]. intros [x b8] [_ H8]. cbn in H8 |- *. lia. }
  intros b7 H7. eapply post_bind; [apply post_or_error, readShort_post|]. intros [pl b8] [Hpl H8]. cbn in Hpl, H8.
  destruct (decide (pl < 4)); [done|]. destruct (decide (len b < _)); [done|]. cbn. lia.
Qed.

Lemma hkdf_post secret context label n : 0 ≤ n ≤ 64 → post (hkdfExpandLabel secret context label n) (λ _, True).
Proof. intros Hn. unfold hkdfExpandLabel. rewrite decide_True; [done|]. by apply Expand_length. Qed.

Lemma initial_keys_post version dcid : post (initial_keys version dcid) (λ _, True).
Proof.
  unfold initial_keys. repeat (eapply post_bind; [apply hkdf_post; lia|]; intros ? _). done.
Qed.

Lemma set_byte_post b i v : 0 ≤ i < len b → post (set_byte b i v) (λ b', len b' = len b).
Proof. intros Hi. unfold set_byte. rewrite decide_True by done. cbn. unfold len. by rewrite length_insert. Qed.

Lemma unmask_post b mask hdrLen n i : 0 ≤ i → 0 ≤ hdrLen → hdrLen + i + Z.of_nat n ≤ len b → i + 1 + Z.of_nat n ≤ len mask →
  post (unmask b mask hdrLen n i) (λ b', len b' = len b).
Proof.
  revert b i. induction n as [|n IH]; intros b i Hi Hh Hb Hm; [done|]. cbn [unmask].
  destruct (lookup_lt_is_Some_2 b (Z.to_nat (hdrLen + i))) as [x Hx]; [unfold len in Hb; lia|].
  destruct (lookup_lt_is_Some_2 mask (Z.to_nat (i + 1))) as [m Hmm]; [unfold len in Hm; lia|].
  unfold index. rewrite !decide_True, Hx, Hmm by lia. cbn [ok_or_panic mbind go_bind].
  eapply post_bind; [apply set_byte_post; lia|]. intros b' Hb'. cbn in Hb'. eapply post_weaken; [apply IH; lia|]. cbn. lia.
Qed.

Lemma unprotect_post b h : 0 < q_hdrLen h → 4 ≤ q_packetLen h → q_hdrLen h + q_packetLen h ≤ len b → post (unprotect b h) (λ _, True).
Proof.
  intros Hh Hp Hb. unfold unprotect. eapply post_bind; [apply initial_keys_post|]. intros ks _.
  destruct (decide (len b < q_hdrLen h + 4 + 16)); [done|]. rewrite slice_Some by lia. cbn [ok_or_panic mbind go_bind].
  set (sample := take _ _). pose proof (aes_length (k_hp ks) sample) as Hmask. set (mask := aes_Encrypt _ _) in *.
  destruct (lookup_lt_is_Some_2 b 0) as [b0 Hb0]; [unfold len in *; lia|]. destruct (lookup_lt_is_Some_2 mask 0) as [m0 Hm0]; [unfold len in *; lia|].
  change (index b 0) with (b !! 0%nat). change (index mask 0) with (mask !! 0%nat). rewrite Hb0, Hm0. cbn [ok_or_panic mbind go_bind].
  set (v := byte_of_Z _). eapply post_bind; [apply (set_byte_post b 0 v); lia|]. intros b' Hb'. cbn in Hb'.
  assert (Hpn : 0 ≤ Z.land (byte_to_Z v) 3 ≤ 3).
  { change (Z.land (byte_to_Z v) 3) with (Z.land (byte_to_Z v) (Z.ones 2)). rewrite Z.land_ones by lia. change (2 ^ 2) with 4. dlia. }
  set (pnl := Z.land (byte_to_Z v) 3 + 1) in *. eapply post_bind; [apply unmask_post; lia|]. intros b2 H2. cbn in H2.
  rewrite !slice_Some by lia. cbn [ok_or_panic mbind go_bind]. rewrite upto_ok by lia. cbn [mbind go_bind].
  by destruct (aead_Open _ _ _ _ _).
Qed.

Lemma packets_loop_post fuel b crypto : len b < Z.of_nat fuel → post (packets_loop fuel b crypto) (λ _, True).
Proof.
  revert b crypto. induction fuel as [|fuel IH]; intros b crypto Hf; [pose proof (len_nonneg b); lia|]. cbn [packets_loop].
  destruct (decide (b = [])); [done|]. eapply post_bind; [apply read_header_post|]. intros h (Hh & Hp & Hb).
  rewrite from_ok by lia. cbn [mbind go_bind]. assert (Hrest : ∀ c, post (packets_loop fuel (drop (Z.to_nat (q_hdrLen h + q_packetLen h)) b) c) (λ _, True)).
  { intros c. apply IH. rewrite len_drop_Z by lia. lia. }
  destruct (negb _); [apply Hrest|]. eapply post_bind; [by apply unprotect_post|]. intros plain _.
  eapply post_bind; [apply frames_loop_post; unfold len; lia|]. intros c _.
  pose proof (Tls.ReadClientHello_safe c). destruct (Tls.ReadClientHello c); [done|apply Hrest|done].
Qed.

Lemma SniffQUIC_safe b : SniffQUIC b ≠ Panic.
Proof.
  unfold SniffQUIC. destruct (decide (len b = 0)); [done|]. apply (post_safe _ (λ _, True)), packets_loop_post. unfold len. lia.
Qed.

(** *** Frames as a client writes them *)

Inductive Frame := Padding | Ping | CryptoData (offset : Z) (data : list byte).
Definition frame_bytes (f : Frame) : list byte :=
  match f with
  | Padding => [x00]
  | Ping => [x01]
  | CryptoData offset data => x06 :: quicvarint_Append offset ++ quicvarint_Append (len data) ++ data
  end.
Definition frames_bytes (fs : list Frame) : list byte := concat (frame_bytes <$> fs).
Definition frame_ok (f : Frame) : Prop :=
  match f with CryptoData offset data => 0 ≤ offset ∧ data ≠ [] ∧ offset + len data ≤ cryptoCap | _ => True end.

(** The crypto data after a frame. *)
Definition overlay (crypto : list byte) (f : Frame) : list byte :=
  match f with
  | CryptoData offset data =>
      let grown := crypto ++ replicate (Z.to_nat (offset + len data - len crypto)) x00 in
      take (Z.to_nat offset) grown ++ data ++ drop (Z.to_nat (offset + len data)) grown
  | _ => crypto
  end.

Lemma put_crypto_overlay crypto offset data : 0 ≤ offset → offset + len data ≤ cryptoCap →
  put_crypto crypto offset data = Ok (overlay crypto (CryptoData offset data)).
Proof.
  intros Ho Hc. unfold put_crypto, overlay. pose proof (len_nonneg data). set (cur := offset + len data).
  destruct (decide (len crypto < cur)) as [Hl|Hl].
  - rewrite decide_False by (unfold cur; lia). cbn [mbind go_bind]. rewrite slice_Some; [done|unfold cur; lia..|].
    unfold cur, len in *. rewrite length_app, length_replicate. lia.
  - replace (Z.to_nat (cur - len crypto)) with 0%nat by lia. cbn [replicate]. rewrite app_nil_r. cbn [mbind go_bind].
    rewrite slice_Some; [done|unfold cur; lia..].
Qed.

Lemma readShort_append n rest : 0 ≤ n < 65536 → readShortQuicVarint (quicvarint_Append n ++ rest) = Ok (n, rest).
Proof. intros Hn. unfold readShortQuicVarint. rewrite varint_roundtrip by done. cbn. by rewrite decide_False by lia. Qed.

Lemma crypto_frame_read crypto offset data rest : frame_ok (CryptoData offset data) →
  crypto_frame (quicvarint_Append offset ++ quicvarint_Append (len data) ++ data ++ rest) crypto = Ok (rest, overlay crypto (CryptoData offset data)).
Proof.
  intros (Ho & Hne & Hc). pose proof (len_nonneg data). pose proof (len_nonneg rest). unfold cryptoCap in Hc. unfold crypto_frame.
  rewrite readShort_append by lia. cbn [or_error mbind go_bind]. rewrite readShort_append by lia. cbn [or_error mbind go_bind].
  rewrite decide_False by (rewrite len_app; lia). rewrite to_nat_len, take_app_length, put_crypto_overlay by (unfold cryptoCap; lia).
  cbn [mbind go_bind]. rewrite decide_False, drop_app_length by (by destruct data). done.
Qed.

Lemma frames_loop_zero fuel rest crypto : rest ≠ [] → frames_loop (S fuel) (x00 :: rest) crypto = frames_loop (S fuel) rest crypto.
Proof.
  intros Hr. cbn [frames_loop]. rewrite !decide_False by done. cbn [frame_type]. by rewrite decide_True by done.
Qed.

Lemma frames_read fs fuel crypto : Forall frame_ok fs → (length (frames_bytes fs) < fuel)%nat →
  frames_loop fuel (frames_bytes fs) crypto = Ok (foldl overlay crypto fs).
Proof.
  intros Hfs. revert fuel crypto. induction Hfs as [|f fs Hf _ IH]; intros fuel crypto Hl; (destruct fuel as [|fuel]; [lia|]); [done|].
  change (frames_bytes (f :: fs)) with (frame_bytes f ++ frames_bytes fs) in *. rewrite length_app in Hl. destruct f as [| |offset data]; cbn [frame_bytes app length foldl overlay] in *.
  - destruct (decide (frames_bytes fs = [])) as [E|E].
    + rewrite E in *. cbn [frames_loop]. rewrite decide_False by done. cbn [frame_type]. rewrite decide_False by (by intros [_ ?]).
      rewrite decide_True by auto. apply IH. cbn in *. lia.
    + rewrite frames_loop_zero by done. apply IH. lia.
  - cbn [frames_loop]. rewrite decide_False by done. cbn [frame_type]. rewrite decide_False by (by intros [? _]). rewrite decide_True by auto. apply IH. lia.
  - cbn [frames_loop]. rewrite decide_False by done. cbn [frame_type]. rewrite decide_False by (by intros [? _]).
    rewrite !decide_False by (by intros [?|?]). rewrite decide_True by done. rewrite <- !app_assoc, crypto_frame_read by done.
    cbn [mbind go_bind]. apply IH. rewrite !length_app in Hl. lia.
Qed.

(** *** Pieces in any order *)

Definition piece_of (hello : list byte) (f : Frame) : Prop :=
  match f with CryptoData offset data => 0 ≤ offset ∧ data ≠ [] ∧ take (length data) (drop (Z.to_nat offset) hello) = data | _ => True end.
Definition covers_byte (f : Frame) (i : nat) : Prop :=
  match f with CryptoData offset data => offset ≤ Z.of_nat i < offset + len data | _ => False end.

Lemma overlay_lookup crypto offset data i : 0 ≤ offset →
  overlay crypto (CryptoData offset data) !! i =
  if decide (offset ≤ Z.of_nat i < offset + len data) then data !! (i - Z.to_nat offset)%nat
  else if decide (i < length crypto)%nat then crypto !! i
  else if decide (Z.of_nat i < offset) then Some x00 else None.
Proof.
  intros Ho. cbn [overlay]. set (g := crypto ++ _). pose proof (len_nonneg data).
  assert (Hg : len g = Z.max (len crypto) (offset + len data)) by (unfold g; unfold len in *; rewrite length_app, length_replicate; lia).
  assert (Hgl : (i < length crypto)%nat → g !! i = crypto !! i) by (intros Hi; unfold g; by rewrite lookup_app_l).
  assert (Hgz : (length crypto ≤ i)%nat → Z.of_nat i < offset + len data → g !! i = Some x00).
  { intros Hi Hx. unfold g. rewrite lookup_app_r by done. apply lookup_replicate. split; [done|]. unfold len in *. lia. }
  assert (Htl : length (take (Z.to_nat offset) g) = Z.to_nat offset) by (rewrite length_take; unfold len in *; lia).
  destruct (decide (Z.of_nat i < offset)) as [E1|E1].
  - rewrite (decide_False (P := offset ≤ _ < _)) by lia. rewrite lookup_app_l, lookup_take by lia. rewrite decide_True by lia.
    destruct (decide (i < length crypto)%nat); [by apply Hgl|]. apply Hgz; lia.
  - rewrite lookup_app_r, Htl by lia. destruct (decide (offset ≤ Z.of_nat i < offset + len data)) as [E2|E2].
    + rewrite lookup_app_l; [done|]. unfold len in *. lia.
    + rewrite lookup_app_r by (unfold len in *; lia). rewrite lookup_drop.
      replace (Z.to_nat (offset + len data) + (i - Z.to_nat offset - length data))%nat with i by (unfold len in *; lia).
      destruct (decide (i < length crypto)%nat) as [E3|E3]; [by apply Hgl|]. apply lookup_ge_None. unfold len in *. lia.
Qed.

Lemma overlay_pieces hello fs crypto (seen : nat → Prop) : Forall (piece_of hello) fs →
  (length crypto ≤ length hello)%nat → (∀ i, seen i → (i < length crypto)%nat ∧ crypto !! i = hello !! i) →
  (length (foldl overlay crypto fs) ≤ length hello)%nat ∧
  ∀ i, seen i ∨ Exists (λ f, covers_byte f i) fs → (i < length (foldl overlay crypto fs))%nat ∧ foldl overlay crypto fs !! i = hello !! i.
Proof.
  intros Hfs. revert crypto seen. induction Hfs as [|f fs Hf _ IH]; intros crypto seen Hl Hs; cbn [foldl].
  { split; [done|]. intros i [Hi|Hi]; [by apply Hs|by apply Exists_nil in Hi]. }
  assert (Hcase : (∃ offset data, f = CryptoData offset data) ∨ (overlay crypto f = crypto ∧ ∀ i, ¬ covers_byte f i)).
  { destruct f as [| |o d]; [right; split; [done|by intros i []]..|left; by exists o, d]. }
  destruct Hcase as [(offset & data & ->)|[Hskip Hnone]].
  2: { rewrite Hskip. destruct (IH crypto seen Hl Hs) as [L1 L2]. split; [done|]. intros i [Hi|Hi]; [by apply L2; left|].
       apply Exists_cons in Hi as [Hi|Hi]; [by apply Hnone in Hi|by apply L2; right]. }
  destruct Hf as (Ho & Hne & Hd).
  assert (Hfit : (Z.to_nat offset + length data ≤ length hello)%nat).
  { apply (f_equal length) in Hd. rewrite length_take, length_drop in Hd. assert (0 < length data)%nat by (destruct data; [done|cbn; lia]). lia. }
  assert (Hlen : length (overlay crypto (CryptoData offset data)) = Nat.max (length crypto) (Z.to_nat offset + length data)).
  { cbn. rewrite !length_app, length_take, length_drop, !length_app, length_replicate. unfold len in *. lia. }
  destruct (IH (overlay crypto (CryptoData offset data)) (λ i, seen i ∨ covers_byte (CryptoData offset data) i)) as [L1 L2].
  - rewrite Hlen. lia.
  - intros i Hi. rewrite Hlen, overlay_lookup by done. destruct (decide (offset ≤ Z.of_nat i < offset + len data)) as [E|E].
    + split; [unfold len in E; lia|]. rewrite <- Hd at 1. rewrite lookup_take, decide_True, lookup_drop by (unfold len in E; lia). f_equal. lia.
    + destruct Hi as [Hi|Hi]; [|by cbn in Hi]. destruct (Hs i Hi) as [K1 K2]. rewrite decide_True by done. split; [lia|done].
  - split; [done|]. intros i Hi. apply L2. destruct Hi as [Hi|Hi]; [by left; left|]. apply Exists_cons in Hi as [Hi|Hi]; [by left; right|by right].
Qed.

(** Pieces of a hello that cover it make it, in any order and with any overlap. *)
Lemma pieces_make hello fs : Forall (piece_of hello) fs → (∀ i, (i < length hello)%nat → Exists (λ f, covers_byte f i) fs) →
  foldl overlay [] fs = hello.
Proof.
  intros Hp Hc. destruct (overlay_pieces hello fs [] (λ _, False) Hp) as [L1 L2]; [cbn; lia|done|].
  apply list_eq. intros i. destruct (decide (i < length hello)%nat) as [Hi|Hi].
  - apply L2. right. by apply Hc.
  - rewrite !lookup_ge_None_2 by lia. done.
Qed.

(** *** An initial packet as a client writes it *)

Record Initial := mkInitial { i_version : Z; i_dcid : list byte; i_scid : list byte; i_token : list byte; i_pn : list byte }.
Definition initial_ok (i : Initial) (plain : list byte) : Prop :=
  (i_version i = version1 ∨ i_version i = versionDraft29) ∧ len (i_dcid i) < 256 ∧ len (i_scid i) < 256 ∧ len (i_token i) < 65536 ∧
  1 ≤ len (i_pn i) ≤ 4 ∧ 4 ≤ len (i_pn i) + len plain ∧ len (i_pn i) + len plain + 16 < 65536.

(** The first byte: long header, initial, and the length of the packet number less one. *)
Definition first_byte (i : Initial) : byte := byte_of_Z (192 + (len (i_pn i) - 1)).
(** The header after its first byte, for a packet of [n] bytes. *)
Definition header_tail (i : Initial) (n : Z) : list byte :=
  put_be32 (i_version i) ++ Tls.vec8 (i_dcid i) ++ Tls.vec8 (i_scid i) ++ quicvarint_Append (len (i_token i)) ++ i_token i ++ quicvarint_Append n.
Definition packet_len (i : Initial) (plain : list byte) : Z := len (i_pn i) + len plain + 16.
Definition sealed (ks : Keys) (i : Initial) (plain : list byte) : list byte :=
  aead_Seal (k_key ks) (k_iv ks) (nonce_of (i_pn i)) plain (first_byte i :: header_tail i (packet_len i plain) ++ i_pn i).
Definition mask_of (ks : Keys) (i : Initial) (plain : list byte) : list byte :=
  aes_Encrypt (k_hp ks) (take 16 (drop (4 - length (i_pn i)) (sealed ks i plain))).
Definition mask_first (b m : byte) : byte := byte_of_Z (Z.lxor (byte_to_Z b) (Z.land (byte_to_Z m) 15)).
Definition initial_packet (ks : Keys) (i : Initial) (plain : list byte) : list byte :=
  let mask := mask_of ks i plain in
  mask_first (first_byte i) (default x00 (head mask)) :: header_tail i (packet_len i plain) ++ zip_with xor_byte (i_pn i) (tail mask) ++ sealed ks i plain.

Lemma ReadByte_cons x b : ReadByte_ (x :: b) = Ok (byte_to_Z x, b).
Proof. done. Qed.

Lemma ReadBytes_app a b n : n = len a → ReadBytes (a ++ b) n = Ok (a, b).
Proof.
  intros ->. unfold ReadBytes. rewrite decide_False by (rewrite len_app; pose proof (len_nonneg b); lia).
  by rewrite to_nat_len, take_app_length, drop_app_length.
Qed.

(** The bits of a masked first byte that say what packet it is. *)
Lemma masked_bits pnl m : 1 ≤ pnl ≤ 4 →
  let b := mask_first (byte_of_Z (192 + (pnl - 1))) m in
  Z.land (byte_to_Z b) 128 ≠ 0 ∧ Z.land (byte_to_Z b) 64 ≠ 0 ∧ Z.land (byte_to_Z b) 48 = 0 ∧
  mask_first b m = byte_of_Z (192 + (pnl - 1)) ∧ Z.land (byte_to_Z (byte_of_Z (192 + (pnl - 1)))) 3 + 1 = pnl.
Proof.
  intros Hp. unfold mask_first. assert (Hn : 0 ≤ Z.land (byte_to_Z m) 15 < 16).
  { change 15 with (Z.ones 4). rewrite Z.land_ones by lia. change (2 ^ 4) with 16. dlia. }
  set (n := Z.land (byte_to_Z m) 15) in *. clearbody n.
  assert (Hall : forallb (λ p, forallb (λ n, let b := byte_of_Z (Z.lxor (byte_to_Z (byte_of_Z (192 + p))) n) in
    bool_decide (Z.land (byte_to_Z b) 128 ≠ 0 ∧ Z.land (byte_to_Z b) 64 ≠ 0 ∧ Z.land (byte_to_Z b) 48 = 0 ∧
    byte_of_Z (Z.lxor (byte_to_Z b) n) = byte_of_Z (192 + p) ∧ Z.land (byte_to_Z (byte_of_Z (192 + p))) 3 + 1 = p + 1)) (seqZ 0 16)) (seqZ 0 4) = true)
    by (vm_compute; reflexivity).
  rewrite forallb_forall in Hall. specialize (Hall (pnl - 1)). rewrite forallb_forall in Hall.
  specialize (Hall ltac:(apply list_elem_of_In, elem_of_seqZ; lia) n ltac:(apply list_elem_of_In, elem_of_seqZ; lia)). apply bool_decide_eq_true_1 in Hall.
  replace (pnl - 1 + 1) with pnl in Hall by lia. done.
Qed.

Lemma version_u32 i plain : initial_ok i plain → is_u32 (i_version i) ∧ i_version i ≠ 0.
Proof. intros ([-> | ->] & _); (split; [split; by vm_compute|done]). Qed.

Lemma header_read i plain b0 body : initial_ok i plain → Z.land (byte_to_Z b0) 128 ≠ 0 → Z.land (byte_to_Z b0) 64 ≠ 0 → Z.land (byte_to_Z b0) 48 = 0 →
  packet_len i plain ≤ len body →
  read_header (b0 :: header_tail i (packet_len i plain) ++ body) =
  Ok (mkHeader (i_version i) (i_dcid i) true (1 + len (header_tail i (packet_len i plain))) (packet_len i plain)).
Proof.
  intros Hok H1 H2 H3 Hbody. destruct (version_u32 _ _ Hok) as [Hv Hv0]. destruct Hok as (Hver & Hd & Hs & Ht & Hpn & Hmin & Hmax).
  set (b := b0 :: header_tail i (packet_len i plain) ++ body).
  assert (Hlen : len b = 1 + len (header_tail i (packet_len i plain)) + len body) by (unfold b; rewrite len_cons, len_app; lia).
  assert (Htok : len (i_token i) ≤ len b) by (rewrite Hlen; unfold header_tail; rewrite !len_app; pose proof (len_nonneg (put_be32 (i_version i)));
    pose proof (len_nonneg (Tls.vec8 (i_dcid i))); pose proof (len_nonneg (Tls.vec8 (i_scid i))); pose proof (len_nonneg (quicvarint_Append (len (i_token i))));
    pose proof (len_nonneg (quicvarint_Append (packet_len i plain))); pose proof (len_nonneg body); lia).
  pose proof (len_nonneg (i_dcid i)). pose proof (len_nonneg (i_scid i)). pose proof (len_nonneg (i_token i)). pose proof (len_nonneg plain).
  unfold read_header. change (ReadByte_ b) with (Ok (byte_to_Z b0, header_tail i (packet_len i plain) ++ body)). cbn [or_error mbind go_bind].
  rewrite decide_False by (by intros [?|?]). unfold header_tail at 1. rewrite <- !app_assoc.
  rewrite (ReadBytes_app (put_be32 (i_version i))) by done. cbn [or_error mbind go_bind].
  rewrite <- (app_nil_r (put_be32 (i_version i))), be32_put by done. cbn [ok_or_panic mbind go_bind].
  rewrite decide_False by (by intros [_ ?]). rewrite decide_False by (intros [? ?]; by destruct Hver). rewrite H3.
  rewrite bool_decide_eq_true_2 by done. unfold Tls.vec8 at 1. cbn [app]. rewrite ReadByte_cons. cbn [or_error mbind go_bind].
  rewrite byte_to_of_Z_small by (unfold is_u8; lia). rewrite ReadBytes_app by done. cbn [or_error mbind go_bind].
  unfold Tls.vec8 at 1. cbn [app]. rewrite ReadByte_cons. cbn [or_error mbind go_bind].
  rewrite byte_to_of_Z_small by (unfold is_u8; lia). rewrite ReadBytes_app by done. cbn [or_error mbind go_bind].
  rewrite readShort_append by lia. cbn [or_error mbind go_bind]. rewrite decide_False by lia. rewrite ReadBytes_app by done. cbn [or_error mbind go_bind].
  unfold packet_len in *. rewrite readShort_append by lia. cbn [or_error mbind go_bind].
  rewrite decide_False by lia. rewrite decide_False by lia. do 2 f_equal. lia.
Qed.

Lemma lxor_u8 a b : is_u8 a → is_u8 b → is_u8 (Z.lxor a b).
Proof. apply (lxor_below 8). lia. Qed.

Lemma xor_byte_twice a m : xor_byte (xor_byte a m) m = a.
Proof.
  unfold xor_byte. rewrite byte_to_of_Z_small by (apply lxor_u8; apply byte_to_Z_range).
  rewrite Z.lxor_assoc, Z.lxor_nilpotent, Z.lxor_0_r. apply byte_of_to_Z.
Qed.

Lemma xor_bytes_twice a m : (length a ≤ length m)%nat → zip_with xor_byte (zip_with xor_byte a m) m = a.
Proof.
  revert m. induction a as [|x a IH]; intros [|y m] Hl; cbn in *; [done..|lia|]. rewrite xor_byte_twice, IH by lia. done.
Qed.

(** [unmask] over the packet number alone. *)
Lemma unmask_zip hd seen todo rest mask : (length seen + length todo < length mask)%nat →
  unmask (hd ++ seen ++ todo ++ rest) mask (len hd) (length todo) (len seen) =
  Ok (hd ++ seen ++ zip_with xor_byte todo (drop (S (length seen)) mask) ++ rest).
Proof.
  revert seen. induction todo as [|x todo IH]; intros seen Hl; [done|]. cbn [length unmask] in *.
  assert (Hi : (hd ++ seen ++ (x :: todo) ++ rest) = (hd ++ seen) ++ x :: (todo ++ rest)) by by rewrite <- app_assoc.
  rewrite Hi, <- len_app.
  assert (Hix : index ((hd ++ seen) ++ x :: todo ++ rest) (len (hd ++ seen)) = Some x).
  { unfold index. rewrite decide_True by apply len_nonneg. by rewrite to_nat_len, list_lookup_middle. }
  rewrite Hix. cbn [ok_or_panic mbind go_bind]. destruct (lookup_lt_is_Some_2 mask (S (length seen))) as [m Hm]; [lia|].
  assert (Hidx : index mask (len seen + 1) = Some m).
  { unfold index. rewrite decide_True by (pose proof (len_nonneg seen); lia). rewrite <- Hm. f_equal. unfold len. lia. }
  rewrite Hidx. cbn [ok_or_panic mbind go_bind]. unfold set_byte. rewrite decide_True.
  2: { rewrite (len_app (hd ++ seen)), len_cons. pose proof (len_nonneg (hd ++ seen)). pose proof (len_nonneg (todo ++ rest)). lia. }
  cbn [mbind go_bind]. rewrite to_nat_len. replace (length (hd ++ seen)) with (length (hd ++ seen) + 0)%nat by lia. rewrite insert_app_r. cbn [insert list_insert].
  specialize (IH (seen ++ [xor_byte x m])). rewrite length_app, len_app in IH. cbn [length] in IH. change (len [xor_byte x m]) with 1 in IH.
  replace (length seen + 1)%nat with (S (length seen)) in IH by lia. rewrite <- !app_assoc in IH. cbn [app] in IH. rewrite <- !app_assoc, IH by lia.
  rewrite (drop_S mask m (S (length seen))) by done. done.
Qed.

Lemma slice_mid {A} (a b c : list A) lo hi : lo = len a → hi = lo + len b → slice (a ++ b ++ c) lo hi = Some b.
Proof.
  intros -> ->. pose proof (len_nonneg a). pose proof (len_nonneg b). pose proof (len_nonneg c).
  rewrite slice_Some by (rewrite ?len_app; lia). rewrite to_nat_len, drop_app_length. replace (len a + len b - len a) with (len b) by lia.
  by rewrite to_nat_len, take_app_length.
Qed.

Lemma mask_parts ks i plain : ∃ m ms, mask_of ks i plain = m :: ms ∧ length ms = 15%nat.
Proof.
  unfold mask_of. set (s := take 16 _). pose proof (aes_length (k_hp ks) s) as Hm. destruct (aes_Encrypt (k_hp ks) s) as [|m ms]; [done|].
  exists m, ms. split; [done|]. rewrite len_cons in Hm. unfold len in Hm. lia.
Qed.

(** The sample is the same with the packet number masked and with it open. *)
Lemma sample_taken ks i plain pn rest : initial_ok i plain → length pn = length (i_pn i) →
  take 16 (drop 4 (pn ++ sealed ks i plain ++ rest)) = take 16 (drop (4 - length (i_pn i)) (sealed ks i plain)).
Proof.
  intros (_ & _ & _ & _ & Hpn & Hmin & _) Hl. pose proof (seal_length (k_key ks) (k_iv ks) (nonce_of (i_pn i)) plain (first_byte i :: header_tail i (packet_len i plain) ++ i_pn i)) as Hs.
  fold (sealed ks i plain) in Hs. unfold len in *. rewrite drop_app_ge by lia. rewrite Hl, drop_app_le by lia. apply take_app_le. rewrite length_drop. lia.
Qed.

Lemma unprotect_packet ks i plain rest : initial_ok i plain → initial_keys (i_version i) (i_dcid i) = Ok ks →
  unprotect (initial_packet ks i plain ++ rest)
    (mkHeader (i_version i) (i_dcid i) true (1 + len (header_tail i (packet_len i plain))) (packet_len i plain)) = Ok plain.
Proof.
  intros Hok Hks. destruct (mask_parts ks i plain) as (m & ms & Hmask & Hms). unfold initial_packet. rewrite Hmask. cbn [head tail]. change (default x00 (Some m)) with m.
  pose proof (sample_taken ks i plain (zip_with xor_byte (i_pn i) ms) rest Hok) as Hsample.
  pose proof (seal_length (k_key ks) (k_iv ks) (nonce_of (i_pn i)) plain (first_byte i :: header_tail i (packet_len i plain) ++ i_pn i)) as Hseal. fold (sealed ks i plain) in Hseal.
  destruct Hok as (_ & _ & _ & _ & Hpn & Hmin & _). destruct (masked_bits (len (i_pn i)) m Hpn) as (_ & _ & _ & Hb & Hpnl).
  set (tl := header_tail i (packet_len i plain)) in *. set (b0 := mask_first (first_byte i) m) in *. set (C := sealed ks i plain) in *.
  assert (Hzl : length (zip_with xor_byte (i_pn i) ms) = length (i_pn i)) by (rewrite length_zip_with; unfold len in *; lia).
  specialize (Hsample Hzl). set (P := zip_with xor_byte (i_pn i) ms) in *.
  assert (HP : len P = len (i_pn i)) by (unfold len; lia). pose proof (len_nonneg rest). pose proof (len_nonneg tl). pose proof (len_nonneg plain).
  assert (Hbeq : (b0 :: tl ++ P ++ C) ++ rest = (b0 :: tl) ++ P ++ C ++ rest) by (cbn; by rewrite <- !app_assoc).
  rewrite Hbeq. unfold unprotect. cbn [q_hdrLen q_packetLen q_version q_destConnID]. rewrite Hks. cbn [mbind go_bind].
  assert (Hhd : ∀ x, 1 + len tl = len (x :: tl)) by (intros x; rewrite len_cons; lia).
  rewrite (Hhd b0). rewrite decide_False by (rewrite !len_app; lia). rewrite slice_Some by (rewrite ?len_app; pose proof (len_nonneg (b0 :: tl)); lia).
  replace (len (b0 :: tl) + 4 + 16 - (len (b0 :: tl) + 4)) with 16 by lia. replace (Z.to_nat (len (b0 :: tl) + 4)) with (length (b0 :: tl) + 4)%nat by (unfold len; lia).
  rewrite drop_app_add. change (Z.to_nat 16) with 16%nat. rewrite Hsample. cbn [ok_or_panic mbind go_bind]. 
  change (aes_Encrypt _ (take 16 (drop _ C))) with (mask_of ks i plain). rewrite Hmask.
  change (index ((b0 :: tl) ++ P ++ C ++ rest) 0) with (Some b0). change (index (m :: ms) 0) with (Some m). cbn [ok_or_panic mbind go_bind].
  fold (mask_first b0 m). replace (mask_first b0 m) with (first_byte i) by (symmetry; exact Hb).
  unfold set_byte. rewrite decide_True by (rewrite len_app, len_cons; pose proof (len_nonneg (P ++ C ++ rest)); lia). change (Z.to_nat 0) with 0%nat.
  cbn [app insert list_insert mbind go_bind]. replace (Z.land (byte_to_Z (first_byte i)) 3 + 1) with (len (i_pn i)) by (symmetry; exact Hpnl).
  set (f := first_byte i) in *. rewrite <- (Hhd b0), (Hhd f).
  pose proof (unmask_zip (f :: tl) [] P (C ++ rest) (m :: ms)) as Hun. cbn [length app drop] in Hun. change (len (@nil byte)) with 0 in Hun.
  rewrite <- HP at 1. rewrite to_nat_len, Hun by (unfold len in *; lia). cbn [mbind go_bind]. clear Hun. unfold P at 1 2 3.
  rewrite drop_0, xor_bytes_twice by (unfold len in Hpn; lia). change (f :: tl ++ i_pn i ++ C ++ rest) with ((f :: tl) ++ i_pn i ++ C ++ rest).
  rewrite (slice_mid (f :: tl) (i_pn i) (C ++ rest) _ _ eq_refl eq_refl). cbn [ok_or_panic mbind go_bind].
  rewrite (app_assoc (f :: tl)), (slice_mid ((f :: tl) ++ i_pn i) C rest) by (rewrite ?len_app; unfold packet_len in *; lia).
  cbn [ok_or_panic mbind go_bind]. rewrite upto_app by (by rewrite len_app). cbn [mbind go_bind].
  unfold C, sealed. fold tl f. cbn [app]. by rewrite seal_open.
Qed.

Lemma len_initial ks i plain : len (initial_packet ks i plain) = 1 + len (header_tail i (packet_len i plain)) + packet_len i plain ∨ 16 ≤ len (i_pn i).
Proof.
  destruct (decide (16 ≤ len (i_pn i))) as [|Hp]; [by right|left]. destruct (mask_parts ks i plain) as (m & ms & Hmask & Hms). unfold initial_packet. rewrite Hmask. cbn [head tail].
  rewrite len_cons, !len_app. unfold sealed at 1. rewrite seal_length.
  assert (Hz : len (zip_with xor_byte (i_pn i) ms) = len (i_pn i)) by (unfold len in *; rewrite length_zip_with; lia). rewrite Hz. unfold packet_len. lia.
Qed.

Lemma packet_header ks i plain rest : initial_ok i plain →
  read_header (initial_packet ks i plain ++ rest) =
  Ok (mkHeader (i_version i) (i_dcid i) true (1 + len (header_tail i (packet_len i plain))) (packet_len i plain)).
Proof.
  intros Hok. assert (Hpn : 1 ≤ len (i_pn i) ≤ 4) by apply Hok. destruct (len_initial ks i plain) as [Hlen|]; [|lia].
  destruct (mask_parts ks i plain) as (m & ms & Hmask & Hms). unfold initial_packet in *. rewrite Hmask in *. cbn [head tail app] in *. change (default x00 (Some m)) with m in *.
  destruct (masked_bits (len (i_pn i)) m Hpn) as (B1 & B2 & B3 & _). rewrite <- app_assoc. apply header_read; [done..|].
  rewrite len_cons, len_app in Hlen. rewrite len_app. pose proof (len_nonneg rest). lia.
Qed.

(** One step of the loop over the packets of a datagram, at an initial packet. *)
Lemma packets_step fuel ks i plain rest crypto : initial_ok i plain → initial_keys (i_version i) (i_dcid i) = Ok ks →
  packets_loop (S fuel) (initial_packet ks i plain ++ rest) crypto =
  (crypto ← frames_loop (S (length plain)) plain crypto;
   match Tls.ReadClientHello crypto with Ok domain => Ok domain | Err _ => packets_loop fuel rest crypto | Panic => Panic end).
Proof.
  intros Hok Hks. cbn [packets_loop]. rewrite decide_False by done. rewrite packet_header by done. cbn [mbind go_bind q_hdrLen q_packetLen q_initial negb].
  assert (Hpn : 1 ≤ len (i_pn i) ≤ 4) by apply Hok. destruct (len_initial ks i plain) as [Hlen|]; [|lia].
  rewrite from_app by (by rewrite Hlen). cbn [mbind go_bind]. by rewrite unprotect_packet.
Qed.

(** *** A datagram *)

(** Initial packets, each with its frames. *)
Definition Packet : Type := Initial * list Frame.
Definition packet_bytes (p : Packet) : list byte :=
  match initial_keys (i_version p.1) (i_dcid p.1) with Ok ks => initial_packet ks p.1 (frames_bytes p.2) | _ => [] end.
Definition datagram (ps : list Packet) : list byte := concat (packet_bytes <$> ps).
Definition all_frames (ps : list Packet) : list Frame := concat (snd <$> ps).
Definition packet_ok (p : Packet) : Prop := initial_ok p.1 (frames_bytes p.2) ∧ Forall frame_ok p.2.
(** No name can be read from the crypto data yet. *)
Definition unread (crypto : list byte) : Prop := ∀ name, Tls.ReadClientHello crypto ≠ Ok name.

Lemma hkdf_ok secret context label n : 0 ≤ n ≤ 64 → ∃ out, hkdfExpandLabel secret context label n = Ok out.
Proof. intros Hn. unfold hkdfExpandLabel. eexists. by rewrite decide_True by (by apply Expand_length). Qed.

Lemma initial_keys_ok v d : ∃ ks, initial_keys v d = Ok ks.
Proof.
  unfold initial_keys. set (salt := if decide _ then _ else _). destruct (hkdf_ok (Extract d salt) [] "client in" 32) as [s ->]; [lia|]. cbn [mbind go_bind].
  destruct (hkdf_ok s [] "quic hp" 16) as [hp ->]; [lia|]. destruct (hkdf_ok s [] "quic key" 16) as [k ->]; [lia|].
  destruct (hkdf_ok s [] "quic iv" 12) as [iv ->]; [lia|]. by eexists.
Qed.

Lemma packet_run fuel p rest crypto : packet_ok p →
  packets_loop (S fuel) (packet_bytes p ++ rest) crypto =
  match Tls.ReadClientHello (foldl overlay crypto p.2) with Ok domain => Ok domain | Err _ => packets_loop fuel rest (foldl overlay crypto p.2) | Panic => Panic end.
Proof.
  intros [Hi Hf]. unfold packet_bytes. destruct (initial_keys_ok (i_version p.1) (i_dcid p.1)) as [ks Hks]. rewrite Hks.
  rewrite packets_step by done. by rewrite frames_read by (done || lia).
Qed.

(** The first packet after which a name can be read ends the loop. *)
Lemma packets_outcome fuel ps rest crypto : Forall packet_ok ps →
  let data k := foldl overlay crypto (all_frames (take k ps)) in
  (∃ k name, (0 < k ≤ length ps)%nat ∧ (∀ j, (0 < j < k)%nat → unread (data j)) ∧ Tls.ReadClientHello (data k) = Ok name ∧
     packets_loop (length ps + fuel) (datagram ps ++ rest) crypto = Ok name) ∨
  ((∀ k, (0 < k ≤ length ps)%nat → unread (data k)) ∧
   packets_loop (length ps + fuel) (datagram ps ++ rest) crypto = packets_loop fuel rest (foldl overlay crypto (all_frames ps))).
Proof.
  intros Hps. revert crypto. induction Hps as [|p ps Hp _ IH]; intros crypto; [right; split; [cbn; lia|done]|]. cbn zeta.
  change (datagram (p :: ps)) with (packet_bytes p ++ datagram ps). rewrite <- app_assoc. cbn [length Nat.add]. rewrite packet_run by done.
  assert (Hshift : ∀ k, foldl overlay crypto (all_frames (take (S k) (p :: ps))) = foldl overlay (foldl overlay crypto p.2) (all_frames (take k ps))).
  { intros k. cbn [take]. change (all_frames (p :: take k ps)) with (p.2 ++ all_frames (take k ps)). by rewrite foldl_app. }
  assert (H1 : foldl overlay crypto (all_frames (take 1 (p :: ps))) = foldl overlay crypto p.2) by (rewrite Hshift; by destruct ps).
  pose proof (Tls.ReadClientHello_safe (foldl overlay crypto p.2)) as Hs.
  destruct (Tls.ReadClientHello (foldl overlay crypto p.2)) as [d|e|] eqn:E; [left; exists 1%nat, d; rewrite H1; split; [lia|]; split; [lia|done]| |done].
  assert (Hu1 : unread (foldl overlay crypto (all_frames (take 1 (p :: ps))))) by (rewrite H1; intros n; by rewrite E).
  change (all_frames (p :: ps)) with (p.2 ++ all_frames ps). rewrite foldl_app.
  destruct (IH (foldl overlay crypto p.2)) as [(k & name & Hk & Hu & Hr & Hl)|[Hu Hl]].
  - left. exists (S k), name. rewrite Hshift. split; [lia|]. split; [|done]. intros j Hj.
    destruct (decide (j = 1)%nat) as [->|]; [done|]. destruct j as [|j]; [lia|]. rewrite Hshift. apply Hu. lia.
  - right. split; [|done]. intros k Hk. destruct (decide (k = 1)%nat) as [->|]; [done|]. destruct k as [|k]; [lia|]. rewrite Hshift. apply Hu. lia.
Qed.

Lemma datagram_length ps : Forall packet_ok ps → (length ps ≤ length (datagram ps))%nat.
Proof.
  induction 1 as [|p ps [Hi _] _ IH]; [cbn; lia|]. change (datagram (p :: ps)) with (packet_bytes p ++ datagram ps). rewrite length_app. unfold packet_bytes.
  destruct (initial_keys_ok (i_version p.1) (i_dcid p.1)) as [ks ->]. cbn. lia.
Qed.

Lemma datagram_app a b : datagram (a ++ b) = datagram a ++ datagram b.
Proof. unfold datagram. by rewrite fmap_app, concat_app. Qed.
Lemma all_frames_app a b : all_frames (a ++ b) = all_frames a ++ all_frames b.
Proof. unfold all_frames. by rewrite fmap_app, concat_app. Qed.

Lemma SniffQUIC_loop b n : b ≠ [] → (n ≤ length b)%nat → SniffQUIC b = packets_loop (n + S (length b - n)) b [].
Proof.
  intros Hb Hn. unfold SniffQUIC. rewrite decide_False by (destruct b as [|x l]; [done|rewrite len_cons; pose proof (len_nonneg l); lia]). f_equal. lia.
Qed.

Lemma pieces_ok hello fs : len hello ≤ cryptoCap → Forall (piece_of hello) fs → Forall frame_ok fs.
Proof.
  intros Hc Hfs. eapply list.Forall_impl; [exact Hfs|]. intros [| |o d] Hf; [done..|]. destruct Hf as (Ho & Hne & Hd). split; [done|]. split; [done|].
  apply (f_equal length) in Hd. rewrite length_take, length_drop in Hd. assert (0 < length d)%nat by (destruct d; [done|cbn; lia]). unfold len in *. lia.
Qed.

(** C9: the server name of a QUIC connection is found. A client hello is cut into pieces and spread over
    the CRYPTO frames of several initial packets in any order, with overlaps, padding and pings, each
    packet sealed and its header protected as RFC 9001 has it; the last packet completes the hello. The
    sniffer opens the packets, puts the pieces together, with zeros where nothing has come yet, and
    answers with the name it reads after the first packet after which it can read one, whatever follows
    in the datagram; when that is the last packet, the answer is exactly the name of the hello. It is the
    last one when what comes before is shorter than the hello and has no gap before the extensions, as
    for pieces in their order: then the name is found with the last packet, and without it the sniffer
    asks for more data. *)
Theorem quic_hello_sniffed h (ps : list Packet) (p : Packet) rest :
  Tls.hello_ok h → len (Tls.hello_bytes h) ≤ cryptoCap →
  Forall (λ p : Packet, initial_ok p.1 (frames_bytes p.2) ∧ Forall (piece_of (Tls.hello_bytes h)) p.2) (ps ++ [p]) →
  (∀ i, (i < length (Tls.hello_bytes h))%nat → Exists (λ f, covers_byte f i) (all_frames (ps ++ [p]))) →
  let data k := foldl overlay [] (all_frames (take k (ps ++ [p]))) in
  (∃ k name, (0 < k ≤ S (length ps))%nat ∧ (∀ j, (0 < j < k)%nat → unread (data j)) ∧ Tls.ReadClientHello (data k) = Ok name ∧
     SniffQUIC (datagram (ps ++ [p]) ++ rest) = Ok name ∧ (k = S (length ps) → name = Tls.h_name h)) ∧
  ((∀ k, (0 < k ≤ length ps)%nat → Tls.unfinished h (data k)) →
   SniffQUIC (datagram (ps ++ [p]) ++ rest) = Ok (Tls.h_name h) ∧ (ps ≠ [] → SniffQUIC (datagram ps) = Err ErrProtoNeedMoreData)).
Proof.
  intros Hh Hc Hps Hcov data.
  assert (Hok : Forall packet_ok (ps ++ [p])) by (eapply list.Forall_impl; [exact Hps|]; intros q [? ?]; split; [done|by eapply pieces_ok]).
  assert (Hmake : data (S (length ps)) = Tls.hello_bytes h).
  { unfold data. rewrite take_ge by (rewrite length_app; cbn; lia). apply pieces_make; [|done]. unfold all_frames. clear -Hps. induction Hps as [|q l [_ Hq] _ IH]; [done|]. cbn. by apply Forall_app_2. }
  assert (Hfirst : ∃ k name, (0 < k ≤ S (length ps))%nat ∧ (∀ j, (0 < j < k)%nat → unread (data j)) ∧ Tls.ReadClientHello (data k) = Ok name ∧
     SniffQUIC (datagram (ps ++ [p]) ++ rest) = Ok name ∧ (k = S (length ps) → name = Tls.h_name h)).
  { assert (Hln : length (ps ++ [p]) = S (length ps)) by (rewrite length_app; cbn; lia). pose proof (datagram_length _ Hok) as Hl.
    assert (Hl2 : (length (ps ++ [p]) ≤ length (datagram (ps ++ [p]) ++ rest))%nat) by (rewrite (length_app (datagram _)); lia).
    rewrite (SniffQUIC_loop _ (length (ps ++ [p]))); [|intros E; rewrite E, Hln in Hl2; cbn in Hl2; lia|done].
    destruct (packets_outcome (S (length (datagram (ps ++ [p]) ++ rest) - length (ps ++ [p]))) (ps ++ [p]) rest [] Hok) as [(k & name & Hk & Hu & Hr & Hl')|[Hu _]].
    - exists k, name. rewrite Hln in Hk. split; [done|]. split; [done|]. split; [done|]. split; [done|]. intros ->. unfold data in Hmake. rewrite Hmake, Tls.hello_read in Hr by done. by injection Hr.
    - exfalso. apply (Hu (S (length ps)) ltac:(lia) (Tls.h_name h)). unfold data in Hmake. rewrite Hmake. by apply Tls.hello_read. }
  split; [exact Hfirst|]. intros Hun. destruct Hfirst as (k & name & Hk & Hu & Hr & Hs & Hname).
  assert (k = S (length ps)) as ->.
  { destruct (decide (k = S (length ps))) as [|Hne]; [done|]. by destruct (Tls.unfinished_unread h (data k) name Hh (Hun k ltac:(lia))). }
  rewrite Hs, Hname by done. split; [done|]. intros Hne. apply Forall_app in Hok as [Hok _]. pose proof (datagram_length ps Hok) as Hl.
  rewrite (SniffQUIC_loop _ (length ps)); [|intros E; rewrite E in Hl; destruct ps; cbn in Hl; [done|lia]|done].
  rewrite <- (app_nil_r (datagram ps)) at 2. destruct (packets_outcome (S (length (datagram ps) - length ps)) ps [] [] Hok) as [(j & n & Hj & _ & Hjr & _)|[_ ->]]; [|done].
  exfalso. apply (Tls.unfinished_unread h (data j) n Hh (Hun j Hj)). unfold data. rewrite take_app_le by lia. exact Hjr.
Qed.
End quic.
End Quic.

(** *** Libraries that satisfy the laws *)

Module QuicExample.
(** Integers as RFC 9000 has them: two bits say how many bytes follow. *)
Definition varint_more (x : byte) : nat :=
  match Z.shiftr (byte_to_Z x) 6 with 0 => 0%nat | 1 => 1%nat | 2 => 3%nat | _ => 7%nat end.
Definition varint_read (b : list byte) : go (Z * list byte) :=
  match b with
  | [] => Err EOF
  | x :: rest =>
      if decide (length rest < varint_more x)%nat then Err EOF
      else Ok (foldl (λ a y, a * 256 + byte_to_Z y) (byte_to_Z x mod 64) (take (varint_more x) rest), drop (varint_more x) rest)
  end.
(** Always the form of four bytes. *)
Definition varint_append (n : Z) : list byte := [x80; x00; byte_of_Z (n / 256); byte_of_Z (n mod 256)].

#[local] Instance ops : QuicOps := {|
  Extract _ _ := []; Expand _ _ n := replicate (Z.to_nat n) x00; aes_Encrypt _ _ := replicate 16 x5a;
  aead_Open _ _ _ data _ := if decide (len data < 16) then None else Some (take (length data - 16) data);
  quicvarint_Read := varint_read
|}.

Lemma foldl_nonneg l a : 0 ≤ a → 0 ≤ foldl (λ a y, a * 256 + byte_to_Z y) a l.
Proof. revert a. induction l as [|y l IH]; intros a Ha; [done|]. cbn. apply IH. pose proof (byte_to_Z_range y). unfold is_u8 in *. lia. Qed.

Lemma varint_read_shorter b v rest : varint_read b = Ok (v, rest) → 0 ≤ v ∧ ∃ x l, b = (x :: l) ++ rest.
Proof.
  destruct b as [|x b]; [done|]. unfold varint_read. destruct (decide (length b < varint_more x)%nat); [done|]. intros [= <- <-].
  split; [apply foldl_nonneg; dlia|]. exists x, (take (varint_more x) b). cbn. by rewrite take_drop.
Qed.

Lemma varint_read_append n rest : 0 ≤ n < 65536 → varint_read (varint_append n ++ rest) = Ok (n, rest).
Proof.
  intros Hn. unfold varint_read, varint_append. cbn [app]. change (varint_more x80) with 3%nat. rewrite decide_False by (cbn; lia). cbn [take drop foldl].
  change (byte_to_Z x80 mod 64) with 0. change (byte_to_Z x00) with 0.
  rewrite (byte_to_of_Z_small (n / 256)), (byte_to_of_Z_small (n mod 256)) by (unfold is_u8; dlia).
  pose proof (Z.div_mod n 256 ltac:(lia)). do 2 f_equal. rewrite take_0. cbn [foldl]. lia.
Qed.

#[local] Instance laws : QuicLaws.
Proof.
  refine {| quicvarint_Append := varint_append; aead_Seal _ _ _ plain _ := plain ++ replicate 16 x00 |}.
  - intros s i n Hn. unfold len. cbn. rewrite length_replicate. lia.
  - done.
  - apply varint_read_shorter.
  - intros [|x b]; [done|]. cbn. by destruct (decide _).
  - apply varint_read_append.
  - intros k m no p a. cbn [aead_Open ops]. rewrite decide_False by (rewrite len_app; pose proof (len_nonneg p); change (len (replicate 16 x00)) with 16; lia).
    rewrite length_app. cbn [length replicate]. by rewrite Nat.add_sub, take_app_length.
  - intros k m no p a. by rewrite len_app.
Defined.

Definition hello : Tls.Hello := Tls.example_hello.
Definition piece (lo n : nat) : Quic.Frame := Quic.CryptoData (Z.of_nat lo) (take n (drop lo (Tls.hello_bytes hello))).
(** Two packets: one with the start and a piece from the middle, with padding and a ping; then one with the end, the
    start again and what is missing. *)
Definition first_packet : Quic.Packet := (Quic.mkInitial 1 [x01; x02] [x03] [] [x00], [piece 50 8; Quic.Padding; Quic.Ping; piece 0 48]).
Definition second_packet : Quic.Packet := (Quic.mkInitial 1 [x01; x02] [x03] [] [x00; x01], [piece 55 100; Quic.Padding; piece 0 52]).

Lemma quic_hello_sniffed_witness : Quic.SniffQUIC (Quic.datagram [first_packet; second_packet] ++ [x00]) = Ok (s2b "a.b") ∧
  Quic.SniffQUIC (Quic.datagram [first_packet]) = Err ErrProtoNeedMoreData.
Proof.
  assert (Hok : ∀ p, p = first_packet ∨ p = second_packet → Quic.initial_ok p.1 (Quic.frames_bytes p.2) ∧ Forall (Quic.piece_of (Tls.hello_bytes hello)) p.2).
  { intros p [-> | ->]; (split; [split; [by left|]; repeat split; by vm_compute|]; repeat (apply Forall_cons_2; [by repeat split|]); done). }
  destruct (Quic.quic_hello_sniffed hello [first_packet] second_packet [x00]) as [_ W]; [apply Tls.example_fits|by vm_compute| | |].
  - apply Forall_cons_2; [apply Hok; by left|]. apply Forall_cons_2; [apply Hok; by right|done].
  - intros i Hi. change (Quic.all_frames _) with [piece 50 8; Quic.Padding; Quic.Ping; piece 0 48; piece 55 100; Quic.Padding; piece 0 52].
    assert (L : length (Tls.hello_bytes hello) = 63%nat) by reflexivity. rewrite L in Hi.
    destruct (decide (55 ≤ i)%nat); [do 4 apply Exists_cons_tl; apply Exists_cons_hd|destruct (decide (50 ≤ i)%nat); [apply Exists_cons_hd|do 6 apply Exists_cons_tl; apply Exists_cons_hd]];
      unfold Quic.covers_byte, piece, len; rewrite length_take, length_drop, L; lia.
  - destruct W as [W1 W2].
    + intros k Hk. assert (k = 1%nat) as -> by (cbn in Hk; lia). split; [by vm_compute|].
      intros i Hi _. assert (Hf : Tls.hello_front hello = 47) by reflexivity. rewrite Hf in Hi.
      assert (E : take 47 (foldl Quic.overlay [] (Quic.all_frames (take 1 ([first_packet] ++ [second_packet])))) = take 47 (Tls.hello_bytes hello)) by (vm_compute; reflexivity).
      unfold index. rewrite !decide_True by lia.
      rewrite <- (lookup_take_lt (foldl _ _ _) 47), <- (lookup_take_lt (Tls.hello_bytes hello) 47), E by lia. reflexivity.
    + split; [exact W1|by apply W2].
Defined.
End QuicExample.
