(* ===== verification/SniffHttp.v ===== *)
(** * Sniffing HTTP and BitTorrent

    Models [common/protocol/http/sniff.go] with [ParseHost] of [common/protocol/http/headers.go]
    and [net.SplitHostPort], and [common/protocol/bittorrent/bittorrent.go]. The content of the
    session is its attributes, which the HTTP sniffer fills; [strings.ToLower] beyond ASCII and the
    clock are arguments. *)

From S2P Require Import Prelude Net StrMatcher IpMatcher GeoLoader RouteCond FakeDns Dns Sniff.
Import GoText.

#[local] Open Scope Z_scope.

Module Http.
Section http.
Context (lowerRunes : str → str).
#[local] Abbreviation lower := (strings_ToLower lowerRunes).

Definition colon : byte := x3a.
Definition newline : byte := x0a.
Definition space : byte := x20.

(** ** Hosts *)

(** [strings.IndexByte] and [LastIndexByte], [None] for -1. *)
Fixpoint IndexByte (s : str) (c : byte) : option nat :=
  match s with
  | [] => None
  | x :: s => if decide (x = c) then Some 0%nat else S <$> IndexByte s c
  end.
Fixpoint LastIndexByte (s : str) (c : byte) : option nat :=
  match s with
  | [] => None
  | x :: s => match LastIndexByte s c with Some i => Some (S i) | None => if decide (x = c) then Some 0%nat else None end
  end.

(** The texts of [net.AddrError]. *)
Inductive AddrError := MissingPort | TooManyColons | MissingBracket | UnexpectedOpen | UnexpectedClose.

(** [net.SplitHostPort]. *)
Definition SplitHostPort (hostport : str) : AddrError + str * str :=
  match LastIndexByte hostport colon with
  | None => inl MissingPort
  | Some i =>
      let finish host j k :=
        if decide (x5b ∈ drop j hostport) then inl UnexpectedOpen
        else if decide (x5d ∈ drop k hostport) then inl UnexpectedClose
        else inr (host, drop (S i) hostport) in
      if decide (head hostport = Some x5b) then
        match IndexByte hostport x5d with
        | None => inl MissingBracket
        | Some e =>
            if decide (S e = length hostport) then inl MissingPort
            else if decide (S e = i) then finish (take (e - 1) (drop 1 hostport)) 1%nat (S e)
            else if decide (hostport !! S e = Some colon) then inl TooManyColons
            else inl MissingPort
        end
      else
        let host := take i hostport in
        if decide (colon ∈ host) then inl TooManyColons else finish host 0%nat 0%nat
  end.

Definition ParseHost (rawHost : str) (defaultPort : Z) : go Destination :=
  '(host, port) ← match SplitHostPort rawHost with
    | inl MissingPort => Ok (rawHost, defaultPort)
    | inl _ => Err (ErrMsg "address error")
    | inr (host, rawPort) =>
        if decide (0 < len rawPort) then
          match Atoi rawPort with Some intPort => Ok (host, u16 intPort) | None => Err (ErrMsg "strconv.Atoi: parsing") end
        else Ok (host, defaultPort)
    end;
  Ok (TCPDestination (ParseAddress host) port).

(** [Address.String]. *)
Definition Address_String (a : Address) : str :=
  match a with
  | ipv4Address i => IP_String i
  | ipv6Address i => s2b "[" ++ IP_String i ++ s2b "]"
  | domainAddress d => d
  end.

(** ** Requests *)

Definition methods : list str := s2b <$> ["get"; "post"; "head"; "put"; "delete"; "options"; "connect"]%string.
Definition errNotHTTPMethod : GoError := ErrMsg "not an HTTP method".

(** [strings.EqualFold] with a word of ASCII letters: a string of as many bytes equals it only byte by byte. *)
Definition equal_fold (s m : str) : bool := bool_decide (ToLower s = m).

Fixpoint begin_loop (b : str) (ms : list str) : go unit :=
  match ms with
  | [] => Err errNotHTTPMethod
  | m :: ms =>
      if bool_decide (len m ≤ len b) && equal_fold (take (length m) b) m then Ok ()
      else if decide (len b < len m) then Err ErrNoClue
      else begin_loop b ms
  end.
Definition beginWithHTTPMethod (b : str) : go unit := begin_loop b methods.

(** The attributes of the content; [None] where the context has no content. *)
Abbreviation Attributes := (option (gmap str str)).
Definition set_attr (on : bool) (name value : str) (content : Attributes) : Attributes :=
  if on then <[name := value]> <$> content else content.

(** [bytes.SplitN(header, ":", 2)], where it has two parts. *)
Definition header_parts (header : str) : option (str * str) := let '(a, b, found) := Cut header colon in if found : bool then Some (a, b) else None.

(** The loop over the lines after the first: the host so far. *)
Fixpoint headers_loop (on : bool) (headers : list str) (host : str) (content : Attributes) : go str * Attributes :=
  match headers with
  | [] => (Ok host, content)
  | header :: headers =>
      if decide (len header = 0) then (Ok host, content)
      else
        match header_parts header with
        | None => headers_loop on headers host content
        | Some (k, v) =>
            let key := lower k in
            let value := trim_space v in
            let content := set_attr on key value content in
            if decide (key = s2b "host") then
              match ParseHost (lower value) 80 with
              | Ok dest =>
                  match d_Address dest with
                  | Some a => headers_loop on headers (Address_String a) content
                  | None => (Panic, content)
                  end
              | Err e => (Err e, content)
              | Panic => (Panic, content)
              end
            else headers_loop on headers host content
        end
  end.

Definition request_line (on : bool) (line : str) (content : Attributes) : Attributes :=
  match Split line space with
  | [method; path; _] => set_attr on (s2b ":path") path (set_attr on (s2b ":method") method content)
  | _ => content
  end.

(** [SniffHTTP]: the host, and the content after it. *)
Definition SniffHTTP (b : str) (content : Attributes) : go str * Attributes :=
  let ShouldSniffAttr := match content with None => false | Some m => bool_decide (m = ∅) end in
  match beginWithHTTPMethod b with
  | Err e => (Err e, content)
  | Panic => (Panic, content)
  | Ok _ =>
      match Split b newline with
      | [] => (Panic, content)
      | first :: headers =>
          match headers_loop ShouldSniffAttr headers [] content with
          | (Ok host, content) =>
              let content := request_line ShouldSniffAttr first content in
              (if decide (0 < len host) then Ok host else Err ErrNoClue, content)
          | r => r
          end
      end
  end.

(** ** No panic *)

Lemma ParseAddress_Some s : is_Some (ParseAddress s).
Proof.
  unfold ParseAddress. match goal with |- context [ParseIP ?x] => destruct (ParseIP x) as [i|] eqn:E end; [|by eexists].
  apply ParseIP_length in E. unfold IPAddress. rewrite decide_False by lia. rewrite decide_True by done. by destruct (decide _); eexists.
Qed.

Lemma ParseHost_address raw port d : ParseHost raw port = Ok d → is_Some (d_Address d).
Proof.
  unfold ParseHost. set (m := match SplitHostPort raw with inl _ => _ | inr _ => _ end). destruct m as [[host port']| |]; [|done|done].
  intros [= <-]. apply ParseAddress_Some.
Qed.

Lemma ParseHost_safe raw port : ParseHost raw port ≠ Panic.
Proof.
  unfold ParseHost. destruct (SplitHostPort raw) as [[]|[host rawPort]]; try done. destruct (decide (0 < len rawPort)); [|done]. by destruct (Atoi rawPort).
Qed.

Lemma headers_loop_safe on hs host c : (headers_loop on hs host c).1 ≠ Panic.
Proof.
  revert host c. induction hs as [|h hs IH]; intros host c; [done|]. cbn [headers_loop]. destruct (decide (len h = 0)); [done|].
  destruct (header_parts h) as [[k v]|]; [|apply IH]. destruct (decide (lower k = s2b "host")); [|apply IH].
  pose proof (ParseHost_safe (lower (trim_space v)) 80). destruct (ParseHost _ 80) as [d| |] eqn:E; [|done|done].
  destruct (ParseHost_address _ _ _ E) as [a ->]. apply IH.
Qed.

Lemma begin_loop_safe b ms : begin_loop b ms ≠ Panic.
Proof. induction ms as [|m ms IH]; [done|]. cbn [begin_loop]. destruct (_ && _); [done|]. by destruct (decide _). Qed.

Lemma Split_cons s sep : ∃ l ls, Split s sep = l :: ls.
Proof. induction s as [|c s (l & ls & IH)]; [by eexists _, _|]. cbn. destruct (decide (c = sep)); [by eexists _, _|]. rewrite IH. by eexists _, _. Qed.

Lemma SniffHTTP_safe b c : (SniffHTTP b c).1 ≠ Panic.
Proof.
  unfold SniffHTTP. pose proof (begin_loop_safe b methods) as Hb. unfold beginWithHTTPMethod. destruct (begin_loop b methods) as [[]| |]; [|done|done].
  destruct (Split_cons b newline) as (l & ls & ->). set (on := match c with None => _ | Some _ => _ end).
  pose proof (headers_loop_safe on ls [] c) as Hl. destruct (headers_loop on ls [] c) as [[host| |] c']; [|done|done]. cbn. by destruct (decide _).
Qed.

(** ** A request is read as it was written *)

Lemma Split_app l rest sep : sep ∉ l → Split (l ++ sep :: rest) sep = l :: Split rest sep.
Proof.
  induction l as [|c l IH]; intros Hn; cbn; [by rewrite decide_True|]. rewrite decide_False by (intros ->; apply Hn; left).
  rewrite IH; [done|]. intros Hin. apply Hn. by right.
Qed.
Lemma Split_none l sep : sep ∉ l → Split l sep = [l].
Proof.
  induction l as [|c l IH]; intros Hn; cbn; [done|]. rewrite decide_False by (intros ->; apply Hn; left).
  rewrite IH; [done|]. intros Hin. apply Hn. by right.
Qed.

Definition lines_bytes (ls : list str) : str := concat ((λ l, l ++ [newline]) <$> ls).
Lemma Split_lines ls rest : Forall (λ l, newline ∉ l) ls → Split (lines_bytes ls ++ rest) newline = ls ++ Split rest newline.
Proof.
  induction 1 as [|l ls Hl _ IH]; [done|]. change (lines_bytes (l :: ls)) with ((l ++ [newline]) ++ lines_bytes ls). rewrite <- !app_assoc. cbn [app].
  by rewrite Split_app, IH.
Qed.

(** The attributes the lines set. *)
Definition line_attr (on : bool) (c : Attributes) (h : str) : Attributes :=
  match header_parts h with Some (k, v) => set_attr on (lower k) (trim_space v) c | None => c end.
Definition not_host (h : str) : Prop := ∀ k v, header_parts h = Some (k, v) → lower k ≠ s2b "host".

Lemma line_attr_parts on c h k v : header_parts h = Some (k, v) → line_attr on c h = set_attr on (lower k) (trim_space v) c.
Proof. intros E. unfold line_attr. by rewrite E. Qed.

Lemma line_attr_none on c h : header_parts h = None → line_attr on c h = c.
Proof. intros E. unfold line_attr. by rewrite E. Qed.

Lemma headers_loop_skip on ls rest host c : Forall (λ h, h ≠ [] ∧ not_host h) ls →
  headers_loop on (ls ++ rest) host c = headers_loop on rest host (foldl (line_attr on) c ls).
Proof.
  intros Hls. revert c. induction Hls as [|h ls [Hne Hh] _ IH]; intros c; [done|]. cbn [app headers_loop foldl].
  rewrite decide_False by (destruct h; [done|rewrite len_cons; pose proof (len_nonneg h); lia]). unfold line_attr at 2.
  destruct (header_parts h) as [[k v]|] eqn:E; [|apply IH]. rewrite decide_False by (by eapply Hh). apply IH.
Qed.

(** A request: its lines have no line feed inside and keep their carriage returns. *)
Record Request := mkRequest { rq_line : str; rq_before : list str; rq_key : str; rq_value : str; rq_after : list str; rq_body : str }.
Definition host_line (r : Request) : str := rq_key r ++ colon :: rq_value r.
Definition request_bytes (r : Request) : str := lines_bytes (rq_line r :: rq_before r ++ host_line r :: rq_after r) ++ rq_body r.
Definition request_ok (r : Request) : Prop :=
  Exists (λ m, len m ≤ len (rq_line r) ∧ equal_fold (take (length m) (rq_line r)) m = true) methods ∧
  Forall (λ l, newline ∉ l) (rq_line r :: rq_before r ++ host_line r :: rq_after r) ∧ (newline ∉ rq_body r) ∧
  Forall (λ h, h ≠ [] ∧ not_host h) (rq_before r ++ rq_after r) ∧ not_host (rq_body r) ∧
  (colon ∉ rq_key r) ∧ lower (rq_key r) = s2b "host".

Lemma begin_finds line rest ms : Exists (λ m, len m ≤ len line ∧ equal_fold (take (length m) line) m = true) ms →
  Forall (λ m, 3 ≤ len m ≤ 7) ms → 7 ≤ len (line ++ rest) → begin_loop (line ++ rest) ms = Ok ().
Proof.
  intros He Hms Hl. induction He as [m ms [Hm Hf]|m ms _ IH]; cbn [begin_loop]; pose proof (Forall_cons_1 _ _ _ Hms) as [Hm7 Hms'].
  - rewrite take_app_le by (unfold len in *; lia). rewrite Hf, bool_decide_eq_true_2; [done|lia].
  - destruct (_ && _); [done|]. rewrite decide_False by lia. by apply IH.
Qed.

Lemma methods_short : Forall (λ m, 3 ≤ len m ≤ 7) methods.
Proof. repeat (apply Forall_cons_2; [split; by apply Z.leb_le|]). done. Qed.

Lemma header_of_host r : (colon ∉ rq_key r) → header_parts (host_line r) = Some (rq_key r, rq_value r).
Proof. intros Hc. unfold header_parts, host_line. by rewrite Cut_found. Qed.

Lemma lower_host_length k : lower k = s2b "host" → k ≠ [].
Proof. by intros H ->. Qed.

(** The lines after the first, with the body as the last of them. *)
Lemma headers_of_request on r dest a c : request_ok r → ParseHost (lower (trim_space (rq_value r))) 80 = Ok dest → d_Address dest = Some a →
  headers_loop on (rq_before r ++ host_line r :: rq_after r ++ [rq_body r]) [] c =
  (Ok (Address_String a), foldl (line_attr on) c (rq_before r ++ host_line r :: rq_after r ++ [rq_body r])).
Proof.
  intros (_ & _ & _ & Hls & Hb & Hc & Hk) Hp Ha. apply Forall_app in Hls as [Hls1 Hls2].
  rewrite headers_loop_skip by done. cbn [headers_loop]. rewrite decide_False.
  2: { unfold host_line. rewrite len_app, len_cons. pose proof (len_nonneg (rq_key r)). pose proof (len_nonneg (rq_value r)). lia. }
  rewrite header_of_host by done. rewrite decide_True by done. rewrite Hp, Ha. rewrite headers_loop_skip by done.
  rewrite foldl_app. cbn [foldl]. rewrite foldl_app, (line_attr_parts _ _ (host_line r) _ _ (header_of_host r Hc)). cbn [foldl headers_loop].
  destruct (decide (len (rq_body r) = 0)) as [E|E].
  - assert (rq_body r = []) as -> by (destruct (rq_body r) as [|x l]; [done|rewrite len_cons in E; pose proof (len_nonneg l); lia]). done.
  - destruct (header_parts (rq_body r)) as [[k v]|] eqn:Eb; [|by rewrite line_attr_none].
    rewrite decide_False by (by eapply Hb). by rewrite (line_attr_parts _ _ (rq_body r) k v Eb).
Qed.

Lemma attrs_off line ls c : request_line false line (foldl (line_attr false) c ls) = c.
Proof.
  assert (Hf : foldl (line_attr false) c ls = c).
  { induction ls as [|h ls IH]; [done|]. cbn [foldl]. unfold line_attr at 2. by destruct (header_parts h) as [[k v]|]. }
  rewrite Hf. unfold request_line. by destruct (Split line space) as [|m [|p [|v [|]]]].
Qed.

(** C11: the host of an HTTP request is found. For a request whose first line starts with one of the
    methods in any case, with one host line whose value names an address, with or without a port,
    any other lines before and after it that are not empty and not host lines, and a body of one
    line that is not a host line either, the sniffer finds exactly the address of that line; and
    where the session has no attributes yet it sets one for every header and the method and the
    path, which the rules on attributes match. *)
Theorem http_host_sniffed r dest a content :
  request_ok r → ParseHost (lower (trim_space (rq_value r))) 80 = Ok dest → d_Address dest = Some a → Address_String a ≠ [] →
  SniffHTTP (request_bytes r) content =
  (Ok (Address_String a),
   match content with
   | None => None
   | Some m => if decide (m = ∅) then request_line true (rq_line r) (foldl (line_attr true) (Some ∅) (rq_before r ++ host_line r :: rq_after r ++ [rq_body r]))
               else Some m
   end).
Proof.
  intros Hok Hp Ha Hne. destruct Hok as (Hm & Hl & Hbody & Hrest). pose proof (conj Hm (conj Hl (conj Hbody Hrest))) as Hok. unfold SniffHTTP.
  assert (Hb : beginWithHTTPMethod (request_bytes r) = Ok ()).
  { unfold request_bytes. change (lines_bytes (rq_line r :: _)) with ((rq_line r ++ [newline]) ++ lines_bytes (rq_before r ++ host_line r :: rq_after r)). rewrite <- !app_assoc.
    apply begin_finds; [done|apply methods_short|].
    assert (H3 : 3 ≤ len (rq_line r)).
    { pose proof methods_short as Hs. apply Exists_exists in Hm as (m & Hin & Hlen & _). rewrite list.Forall_forall in Hs. specialize (Hs m (proj2 (list_elem_of_In _ _) Hin)). lia. }
    rewrite !len_app. change (len [newline]) with 1. unfold lines_bytes. rewrite fmap_app, concat_app, len_app. cbn [fmap list_fmap concat].
    rewrite !len_app. unfold host_line. rewrite len_app, len_cons. destruct Hrest as (_ & _ & _ & Hk). pose proof (lower_host_length _ Hk) as Hkn.
    destruct (rq_key r) as [|x k]; [done|]. rewrite len_cons. change (len [newline]) with 1. pose proof (len_nonneg k). pose proof (len_nonneg (rq_value r)).
    pose proof (len_nonneg (rq_body r)). repeat match goal with |- context [len (concat ?l)] => pose proof (len_nonneg (concat l)); generalize dependent (len (concat l)); intros end. lia. }
  rewrite Hb. unfold request_bytes. rewrite Split_lines, Split_none by done. cbn [app]. rewrite <- app_assoc. cbn [app].
  rewrite (headers_of_request _ r dest a) by done. rewrite decide_True by (destruct (Address_String a) as [|x l]; [done|rewrite len_cons; pose proof (len_nonneg l); lia]).
  f_equal. destruct content as [m|]; [|by rewrite attrs_off]. destruct (decide (m = ∅)) as [->|Hm0].
  - by rewrite bool_decide_eq_true_2.
  - by rewrite bool_decide_eq_false_2, attrs_off.
Qed.
End http.

(** A request for [Example.com] on a port, with a header before and one after. *)
Definition sample : Request :=
  mkRequest (s2b "GET /a HTTP/1.1" ++ [x0d]) [s2b "Accept: x" ++ [x0d]] (s2b "Host") (s2b " Example.com:8080" ++ [x0d]) [s2b "User-Agent: y" ++ [x0d]; [x0d]] [].

Lemma sample_request_ok : request_ok (λ s, s) sample.
Proof.
  split; [|split; [|split; [|split; [|split; [|split]]]]].
  - apply Exists_cons_hd. split; [by apply Z.leb_le|by vm_compute].
  - apply (bool_decide_unpack _). by vm_compute.
  - apply (bool_decide_unpack _). by vm_compute.
  - change (rq_before sample ++ rq_after sample) with [s2b "Accept: x" ++ [x0d]; s2b "User-Agent: y" ++ [x0d]; [x0d]].
    repeat (apply Forall_cons_2; [split; [done|]; intros k v E; vm_compute in E; inversion E; subst; by vm_compute|]). done.
  - intros k v E. vm_compute in E. by inversion E.
  - apply (bool_decide_unpack _). by vm_compute.
  - by vm_compute.
Qed.

Lemma http_host_sniffed_witness : (SniffHTTP (λ s, s) (request_bytes sample) None).1 = Ok (s2b "example.com").
Proof. rewrite (http_host_sniffed (λ s, s) sample (TCPDestination (Some (domainAddress (s2b "example.com"))) 8080) (domainAddress (s2b "example.com")) None); [done|apply sample_request_ok|by vm_compute|done|done]. Defined.

(** With lines that end as HTTP has them the empty line is a carriage return, which the loop takes
    for a header line: it reads on in the body, where a line can name another host. *)
Lemma body_names_the_host :
  (SniffHTTP (λ s, s) (request_bytes (mkRequest (rq_line sample) [] (s2b "Host") (s2b " a.b" ++ [x0d]) [[x0d]] (s2b "host: evil.c"))) None).1 = Ok (s2b "evil.c").
Proof. by vm_compute. Qed.

(** A request that comes in two reads: the first sets the attributes of its part, and the second,
    which has them all, sets none, for it takes those for the attributes of an inbound. *)
Lemma second_read_sets_nothing :
  let part := s2b "GET /a HTTP/1.1" ++ [newline] ++ s2b "Accept: x" ++ [newline] in
  let all := part ++ s2b "Host: a.b" ++ [newline] in
  (SniffHTTP (λ s, s) part (Some ∅)).1 = Err ErrNoClue ∧
  (SniffHTTP (λ s, s) all (SniffHTTP (λ s, s) part (Some ∅)).2).1 = Ok (s2b "a.b") ∧
  ((SniffHTTP (λ s, s) all (SniffHTTP (λ s, s) part (Some ∅)).2).2 ≫= λ m, m !! s2b "host") = None ∧
  ((SniffHTTP (λ s, s) all (Some ∅)).2 ≫= λ m, m !! s2b "host") = Some (s2b "a.b").
Proof. by vm_compute. Qed.
End Http.

(** ** BitTorrent *)

Module Bittorrent.
Definition errNotBittorrent : GoError := ErrMsg "not bittorrent header".

Definition SniffBittorrent (b : list byte) : go unit :=
  if decide (len b < 20) then Err ErrNoClue
  else
    b0 ← at_ b 0;
    name ← ok_or_panic (slice b 1 20);
    if decide (b0 = 19 ∧ name = s2b "BitTorrent protocol") then Ok () else Err errNotBittorrent.

(** A byte of the buffer, [Err ErrNoClue] at its end. *)
Definition read8 (b : list byte) : go (Z * list byte) := match b with [] => Err ErrNoClue | x :: b => Ok (byte_to_Z x, b) end.
Definition skip (b : list byte) (n : Z) : go (list byte) := if decide (len b < n) then Err ErrNoClue else Ok (drop (Z.to_nat n) b).

(** The loop over the extensions. *)
Fixpoint utp_extensions (fuel : nat) (extension : Z) (b : list byte) : go (list byte) :=
  if decide (extension ≠ 0) then
    match fuel with
    | O => Panic
    | S fuel =>
        if decide (extension ≠ 1) then Err errNotBittorrent
        else
          '(extension, b) ← read8 b;
          '(length, b) ← read8 b;
          b ← skip b length;
          utp_extensions fuel extension b
    end
  else Ok b.

(** [24*time.Hour], in nanoseconds; the clock [now] is in microseconds since 1970. *)
Definition day : Z := 24 * 3600 * 1000000000.

Definition SniffUTP (now : Z) (b : list byte) : go unit :=
  if decide (len b < 20) then Err ErrNoClue
  else
    '(_, buffer) ← read8 b;
    b0 ← at_ b 0;
    if decide (Z.land (Z.shiftr b0 4) 15 > 4 ∨ Z.land b0 15 ≠ 1) then Err errNotBittorrent
    else
      '(extension, buffer) ← read8 buffer;
      if decide (extension ≠ 0 ∧ extension ≠ 1) then Err errNotBittorrent
      else
        buffer ← utp_extensions (S (length buffer)) extension buffer;
        buffer ← skip buffer 2;
        match be32 buffer with
        | None => Err ErrNoClue
        | Some timestamp => if decide (Z.abs (now - timestamp) > day) then Err errNotBittorrent else Ok ()
        end.

Lemma SniffBittorrent_safe b : SniffBittorrent b ≠ Panic.
Proof.
  unfold SniffBittorrent. destruct (decide (len b < 20)); [done|]. destruct (at_ok b 0) as (z & -> & _); [lia|]. cbn [mbind go_bind].
  rewrite slice_Some by lia. cbn [ok_or_panic mbind go_bind]. by destruct (decide _).
Qed.

Lemma utp_extensions_safe fuel e b : (length b < fuel)%nat → utp_extensions fuel e b ≠ Panic.
Proof.
  revert e b. induction fuel as [|fuel IH]; intros e b Hf; [lia|]. cbn [utp_extensions]. destruct (decide (e ≠ 0)); [|done]. destruct (decide (e ≠ 1)); [done|].
  destruct b as [|x [|y b]]; [done..|]. cbn [read8 mbind go_bind]. unfold skip. destruct (decide (len b < byte_to_Z y)); [done|]. cbn [mbind go_bind].
  apply IH. rewrite length_drop. cbn in Hf. lia.
Qed.

Lemma SniffUTP_safe now b : SniffUTP now b ≠ Panic.
Proof.
  unfold SniffUTP. destruct (decide (len b < 20)); [done|]. destruct b as [|x [|y b]]; [done..|]. cbn [read8 mbind go_bind].
  rewrite at_cons. cbn [mbind go_bind]. destruct (decide _); [done|]. destruct (decide _); [done|].
  pose proof (utp_extensions_safe (S (length b)) (byte_to_Z y) b ltac:(lia)). destruct (utp_extensions _ _ _) as [r| |]; [|done|done]. cbn [mbind go_bind].
  unfold skip. destruct (decide _); [done|]. cbn [mbind go_bind]. destruct (be32 _); [|done]. by destruct (decide _).
Qed.

Lemma BitTorrent_sniffed rest : SniffBittorrent (x13 :: s2b "BitTorrent protocol" ++ rest) = Ok ().
Proof.
  unfold SniffBittorrent. rewrite decide_False by (rewrite len_cons, len_app; change (len (s2b "BitTorrent protocol")) with 19; pose proof (len_nonneg rest); lia).
  rewrite at_cons. cbn [mbind go_bind]. change (x13 :: s2b "BitTorrent protocol" ++ rest) with ([x13] ++ s2b "BitTorrent protocol" ++ rest).
  by rewrite (Quic.slice_mid [x13]).
Qed.

(** A thousand days after 1970 no packet passes: the clock counts microseconds, the time stamp of a
    packet is below [2^32] of them, and the bound on their difference is a day in nanoseconds. *)
Lemma utp_never_sniffed now b : day + 4294967296 ≤ now → SniffUTP now b ≠ Ok ().
Proof.
  intros Hnow. unfold SniffUTP. destruct (decide (len b < 20)); [done|]. destruct b as [|x [|y b]]; [done..|]. cbn [read8 mbind go_bind].
  rewrite at_cons. cbn [mbind go_bind]. destruct (decide _); [done|]. destruct (decide _); [done|].
  destruct (utp_extensions _ _ _) as [r| |]; [|done|done]. cbn [mbind go_bind]. destruct (skip r 2) as [r'| |]; [|done|done]. cbn [mbind go_bind].
  destruct (be32 r') as [t|] eqn:E; [|done]. apply be32_range in E. unfold is_u32 in E. rewrite decide_True by lia. done.
Qed.
End Bittorrent.

(** C10: sniffing does not crash. Whatever bytes a stranger sends, none of the sniffers of the dispatcher
    reads or slices beyond them, and each returns. *)
Theorem sniffers_never_panic `{QuicLaws} lowerRunes content now (b : list byte) :
  (Http.SniffHTTP lowerRunes b content).1 ≠ Panic ∧ Tls.SniffTLS b ≠ Panic ∧ Bittorrent.SniffBittorrent b ≠ Panic ∧
  Quic.SniffQUIC b ≠ Panic ∧ Bittorrent.SniffUTP now b ≠ Panic.
Proof.
  split; [apply Http.SniffHTTP_safe|]. split; [apply Tls.SniffTLS_safe|]. split; [apply Bittorrent.SniffBittorrent_safe|].
  split; [apply Quic.SniffQUIC_safe|apply Bittorrent.SniffUTP_safe].
Qed.

Lemma sniffers_never_panic_witness : Quic.SniffQUIC (H := QuicExample.ops) [xc3; x00; x00; x00; x01; xff] ≠ Panic.
Proof. exact (proj1 (proj2 (proj2 (proj2 (sniffers_never_panic (H0 := QuicExample.laws) (λ s, s) None 0 [xc3; x00; x00; x00; x01; xff]))))). Defined.
