(* ===== verification/Dispatch.v ===== *)
(** * The dispatcher

    Models [app/dispatcher]: [sniffer.go] and [fakednssniffer.go], which try the sniffers in turn,
    and of [default.go] the [cachedReader] that keeps what was read for sniffing, the loop of
    [sniffer], [shouldOverride], the change of the target in [Dispatch] and [DispatchLink], and
    [routedDispatch], which hands the link to an outbound handler. The fake DNS engine is an
    interface that the holder of [FakeDns] implements; the router is an argument; the clock and
    the end of the context are arguments; logging, and the links with their statistics, are left
    out. *)

From S2P Require Import Prelude Net Buf StrMatcher IpMatcher GeoLoader GeoDomain RouteCond Handlers FakeDns BufReader Sniff SniffHttp.
Import MultiBuffer (mcontent, mcontent_app).

#[local] Open Scope Z_scope.

(** ** Results *)

Inductive SniffResult :=
| RHttp (host : str)
| RTls (domain : str)
| RBittorrent
| RQuic (domain : str)
| RFakeDNS (domainName : str)
| RDNSThenOthers (domainName protocolOriginalName : str)
| RComposite (domainResult protocolResult : SniffResult).

Fixpoint Protocol (r : SniffResult) : str :=
  match r with
  | RHttp _ => s2b "http1"
  | RTls _ => s2b "tls"
  | RBittorrent => s2b "bittorrent"
  | RQuic _ => s2b "quic"
  | RFakeDNS _ => s2b "fakedns"
  | RDNSThenOthers _ _ => s2b "fakedns+others"
  | RComposite _ p => Protocol p
  end.
Fixpoint ResultDomain (r : SniffResult) : str :=
  match r with
  | RHttp d | RTls d | RQuic d | RFakeDNS d | RDNSThenOthers d _ => d
  | RBittorrent => []
  | RComposite d _ => ResultDomain d
  end.
(** [result.(SnifferResultComposite)] and [result.(SnifferIsProtoSubsetOf)]. *)
Definition ProtocolForDomainResult (r : SniffResult) : option str :=
  match r with RComposite d _ => Some (Protocol d) | _ => None end.
Definition IsProtoSubsetOf (r : SniffResult) : option (str → bool) :=
  match r with RDNSThenOthers _ original => Some (λ protocolName, HasPrefix protocolName original) | _ => None end.

(** ** The fake DNS engine *)

(** [dns.FakeDNSEngine]; [in_pool] is [None] for one that is not a [FakeDNSEngineRev0]. *)
Class FakeDNSEngine (E : Type) := {
  GetDomain : E → Address → go str * E;
  in_pool : option (E → Address → go bool)
}.
#[global] Instance holder_engine : FakeDNSEngine Holder := {| GetDomain := GetDomainFromFakeDNS; in_pool := Some IsIPInIPPool |}.

Section dispatcher.
Context `{QuicOps} (lowerRunes : str → str) (now : Z).
Context {E : Type} `{FakeDNSEngine E}.

(** What sniffers change: the attributes of the content, and the engine. *)
Record St := mkSt { attrs : gmap str str; engine : option E }.

Inductive Kind := KHttp | KTls | KBittorrent | KQuic | KUtp | KFakeDNS | KFakeDNSThenOthers.
Record Entry := mkEntry { en_kind : Kind; metadataSniffer : bool; en_network : Network }.

Definition others : list Entry :=
  [mkEntry KHttp false Network_TCP; mkEntry KTls false Network_TCP; mkEntry KBittorrent false Network_TCP;
   mkEntry KQuic false Network_UDP; mkEntry KUtp false Network_UDP].
(** A struct that does not name the network has the zero one. *)
Definition NewSniffer (s : St) : list Entry :=
  match engine s with
  | None => others
  | Some _ => mkEntry KFakeDNSThenOthers false Network_Unknown :: others ++ [mkEntry KFakeDNS true Network_Unknown]
  end.

Definition go_map {A B} (f : A → B) (m : go A) : go B := match m with Ok a => Ok (f a) | Err e => Err e | Panic => Panic end.

(** The sniffers of [others], which read the payload; a nil payload is [None]. *)
Definition run_other (k : Kind) (payload : option (list byte)) (s : St) : go SniffResult * St :=
  let b := default [] payload in
  match k with
  | KHttp => let '(r, a) := Http.SniffHTTP lowerRunes b (Some (attrs s)) in (go_map RHttp r, mkSt (default ∅ a) (engine s))
  | KTls => (go_map RTls (Tls.SniffTLS b), s)
  | KBittorrent => (go_map (λ _, RBittorrent) (Bittorrent.SniffBittorrent b), s)
  | KQuic => (go_map RQuic (Quic.SniffQUIC b), s)
  | KUtp => (go_map (λ _, RBittorrent) (Bittorrent.SniffUTP now b), s)
  | _ => (Panic, s)
  end.

(** The address of the target; a method of a nil one panics. *)
Definition ask {A} (target : Destination) (f : Address → go A) : go A := a ← ok_or_panic (d_Address target); f a.

(** The fake DNS sniffer, and whether it set [addressInRange] of the option, if there is one. *)
Definition run_fake (target : Destination) (opt : bool) (s : St) : go SniffResult * option bool * St :=
  match engine s with
  | None => (Panic, None, s)
  | Some e =>
      let after (s : St) :=
        if opt then
          match in_pool with
          | Some f => match ask target (f (default e (engine s))) with
                      | Ok inPool => (Err ErrNoClue, Some inPool, s)
                      | Err er => (Err er, None, s)
                      | Panic => (Panic, None, s)
                      end
          | None => (Err ErrNoClue, None, s)
          end
        else (Err ErrNoClue, None, s) in
      if decide (d_Network target = Network_TCP ∨ d_Network target = Network_UDP) then
        match d_Address target with
        | None => (Panic, None, s)
        | Some a =>
            let '(r, e) := GetDomain e a in
            let s := mkSt (attrs s) (Some e) in
            match r with
            | Ok domain => if decide (domain ≠ []) then (Ok (RFakeDNS domain), None, s) else after s
            | Err er => (Err er, None, s)
            | Panic => (Panic, None, s)
            end
        end
      else after s
  end.

Fixpoint try_others (l : list Entry) (payload : option (list byte)) (s : St) : go SniffResult * St :=
  match l with
  | [] => (Err ErrNoClue, s)
  | v :: l =>
      if metadataSniffer v || bool_decide (is_Some payload) then
        match run_other (en_kind v) payload s with
        | (Ok result, s) => (Ok (RDNSThenOthers (ResultDomain result) (Protocol result)), s)
        | (Err _, s) => try_others l payload s
        | (Panic, s) => (Panic, s)
        end
      else try_others l payload s
  end.

Definition run (target : Destination) (en : Entry) (payload : option (list byte)) (s : St) : go SniffResult * St :=
  match en_kind en with
  | KFakeDNS => let '(r, _, s) := run_fake target false s in (r, s)
  | KFakeDNSThenOthers =>
      match run_fake target true s with
      | (Ok result, _, s) => (Ok result, s)
      | (Panic, _, s) => (Panic, s)
      | (Err _, Some true, s) => try_others others payload s
      | (Err _, _, s) => (Err ErrNoClue, s)
      end
  | k => run_other k payload s
  end.

(** ** The sniffers in turn *)

Definition errUnknownContent : GoError := ErrMsg "unknown content".

(** [Sniff]: the result, the sniffers that are left, and the state. *)
Fixpoint sniff_loop (target : Destination) (network : Network) (payload : list byte) (l pending : list Entry) (s : St) :
    go SniffResult * option (list Entry) * St :=
  match l with
  | [] => match pending with
          | [] => (Err errUnknownContent, None, s)
          | _ => (Err ErrNoClue, Some pending, s)
          end
  | si :: l =>
      if metadataSniffer si || negb (bool_decide (en_network si = network)) then sniff_loop target network payload l pending s
      else
        match run target si (Some payload) s with
        | (Ok result, s) => (Ok result, None, s)
        | (Err e, s) =>
            if decide (e = ErrNoClue) then sniff_loop target network payload l (pending ++ [si]) s
            else if decide (e = ErrProtoNeedMoreData) then (Err e, Some [si], s)
            else sniff_loop target network payload l pending s
        | (Panic, s) => (Panic, None, s)
        end
  end.
Definition Sniff (target : Destination) (sniffer : list Entry) (payload : list byte) (network : Network) (s : St) : go SniffResult * list Entry * St :=
  let '(r, l, s) := sniff_loop target network payload sniffer [] s in (r, default sniffer l, s).

Fixpoint metadata_loop (target : Destination) (l pending : list Entry) (s : St) : go SniffResult * option (list Entry) * St :=
  match l with
  | [] => match pending with
          | [] => (Err errUnknownContent, None, s)
          | _ => (Err ErrNoClue, Some pending, s)
          end
  | si :: l =>
      if negb (metadataSniffer si) then metadata_loop target l (pending ++ [si]) s
      else
        match run target si None s with
        | (Ok result, s) => (Ok result, None, s)
        | (Err e, s) => if decide (e = ErrNoClue) then metadata_loop target l (pending ++ [si]) s else metadata_loop target l pending s
        | (Panic, s) => (Panic, None, s)
        end
  end.
Definition SniffMetadata (target : Destination) (sniffer : list Entry) (s : St) : go SniffResult * list Entry * St :=
  let '(r, l, s) := metadata_loop target sniffer [] s in (r, default sniffer l, s).

(** ** The reader that keeps what was sniffed *)

Record cachedReader := mkCached { reader : Source; cache : mbuf }.

(** The capacity of the payload, [buf.NewWithSize(32767)]. *)
Definition payloadCap : Z := 32768.

(** [Cache]: the payload after it. *)
Definition Cache (r : cachedReader) : go (list byte) * cachedReader :=
  let '(mb, err, src) := Source_ReadMultiBuffer (reader r) in
  match err with
  | Some e => (Err e, mkCached src (cache r))
  | None =>
      let cache := if MultiBuffer.IsEmpty mb then cache r else (MultiBuffer.MergeMulti (cache r) mb).1 in
      (Ok (take (Z.to_nat (Z.min (MultiBuffer.Len cache) payloadCap)) (mcontent cache)), mkCached src cache)
  end.
Definition readInternal (r : cachedReader) : option mbuf * cachedReader :=
  if MultiBuffer.IsEmpty (cache r) then (None, r) else (Some (cache r), mkCached (reader r) []).
(** [ReadMultiBuffer]; [ReadMultiBufferTimeout] differs in the call it makes on the reader. *)
Definition Cached_ReadMultiBuffer (r : cachedReader) : mbuf * option GoError * cachedReader :=
  match readInternal r with
  | (Some mb, r) => (mb, None, r)
  | (None, r) => let '(mb, err, src) := Source_ReadMultiBuffer (reader r) in (mb, err, mkCached src (cache r))
  end.
Definition Cached_Interrupt (r : cachedReader) : cachedReader := mkCached (reader r) [].

(** ** Sniffing a connection *)

Definition errSniffingTimeout : GoError := ErrMsg "timeout on sniffing".

(** The loop of [sniffer]: [elapsed n] is the time the [n]th [Cache] takes, in milliseconds,
    [done n] says whether the context has ended before it. Each turn takes a result of the reader. *)
Fixpoint content_loop (fuel n : nat) (elapsed : nat → Z) (done : nat → option GoError) (target : Destination) (network : Network)
    (sniffer : list Entry) (deadline totalAttempt : Z) (r : cachedReader) (s : St) : go SniffResult * cachedReader * St :=
  match fuel with
  | O => (Panic, r, s)
  | S fuel =>
      match done n with
      | Some e => (Err e, r, s)
      | None =>
          let '(p, r) := Cache r in
          match p with
          | Err e => (Err e, r, s)
          | Panic => (Panic, r, s)
          | Ok payload =>
              let deadline := deadline - elapsed n in
              let next sniffer totalAttempt s :=
                if decide (totalAttempt >= 2 ∨ deadline <= 0) then (Err errSniffingTimeout, r, s)
                else content_loop fuel (S n) elapsed done target network sniffer deadline totalAttempt r s in
              if decide (payload ≠ []) then
                match Sniff target sniffer payload network s with
                | (Err e, sniffer, s) =>
                    if decide (e = ErrNoClue) then next sniffer (totalAttempt + 1) s
                    else if decide (e = ErrProtoNeedMoreData) then next sniffer totalAttempt s
                    else (Err e, r, s)
                | (result, _, s) => (result, r, s)
                end
              else next sniffer (totalAttempt + 1) s
          end
      end
  end.

Definition sniffer (elapsed : nat → Z) (done : nat → option GoError) (target : Destination) (metadataOnly : bool) (network : Network)
    (r : cachedReader) (s : St) : go SniffResult * cachedReader * St :=
  let '(meta, sniffers, s) := SniffMetadata target (NewSniffer s) s in
  match meta with
  | Panic => (Panic, r, s)
  | _ =>
      if metadataOnly then (meta, r, s)
      else
        let '(content, r, s) := content_loop (S (length (src_next (reader r)))) 0 elapsed done target network sniffers 200 0 r s in
        match content, meta with
        | Panic, _ => (Panic, r, s)
        | Err _, Ok m => (Ok m, r, s)
        | Ok c, Ok m => (Ok (RComposite m c), r, s)
        | _, _ => (content, r, s)
        end
  end.

(** ** The target *)

Context {D T : Type} `{DomainMatcherOps D} `{NetipxOps T}.

Record SniffingRequest := mkSniffing {
  ExcludeForDomain : option D; ExcludeForIP : option (IPMatcher (T := T)); OverrideDestinationForProtocol : list str;
  Enabled : bool; MetadataOnly : bool; RouteOnly : bool
}.

(** The loop over the protocols that override the destination. *)
Fixpoint override_loop (e : option E) (result : SniffResult) (protocolString : str) (destination : Destination) (l : list str) : go bool :=
  match l with
  | [] => Ok false
  | p :: l =>
      if HasPrefix protocolString p || HasPrefix p protocolString then Ok true
      else
        fake ← (match e, in_pool with
                | Some e, Some f => if bool_decide (protocolString ≠ s2b "bittorrent") && bool_decide (p = s2b "fakedns") then ask destination (f e) else Ok false
                | _, _ => Ok false
                end);
        if fake : bool then Ok true
        else if match IsProtoSubsetOf result with Some f => f p | None => false end then Ok true
        else override_loop e result protocolString destination l
  end.

Definition protocol_of (result : SniffResult) : str := default (Protocol result) (ProtocolForDomainResult result).

Definition shouldOverride (e : option E) (result : SniffResult) (request : SniffingRequest) (destination : Destination) : go bool :=
  let domain := ResultDomain result in
  if decide (domain = []) then Ok false
  else
    excluded ← match ExcludeForDomain request with Some m => dm_MatchAny m (strings_ToLower lowerRunes domain) | None => Ok false end;
    if excluded : bool then Ok false
    else
      excluded ← match ExcludeForIP request with
        | Some m => a ← ok_or_panic (d_Address destination); if IsIP (Family a) then i ← IP a; Ok (IP_Match m i) else Ok false
        | None => Ok false
        end;
      if excluded : bool then Ok false
      else override_loop e result (protocol_of result) destination (OverrideDestinationForProtocol request).

(** ** The session *)

Record Ob := mkOb { ob_OriginalTarget : Destination; ob_Target : Destination; ob_RouteTarget : Destination; ob_Tag : str }.
Definition no_dest : Destination := mkDestination None 0 Network_Unknown.
Definition new_ob : Ob := mkOb no_dest no_dest no_dest [].
(** [Attributes] is [None] where the map is nil. *)
Record DContent := mkDContent { dc_Protocol : str; dc_Sniffing : SniffingRequest; dc_Attributes : option (gmap str str); dc_SkipDNS : bool }.
Definition new_content : DContent := mkDContent [] (mkSniffing None None [] false false false) None false.
Record DSession := mkDSession { ds_Inbound : option Inbound; ds_outbounds : list Ob; ds_content : option DContent }.

Definition Attribute (c : DContent) (name : str) : str := default [] (dc_Attributes c ≫= λ m, m !! name).
Definition SetAttribute (c : DContent) (name value : str) : DContent :=
  mkDContent (dc_Protocol c) (dc_Sniffing c) (Some (<[name := value]> (default ∅ (dc_Attributes c)))) (dc_SkipDNS c).
Definition GetForcedOutboundTag (s : DSession) : str := match ds_content s with None => [] | Some c => Attribute c (s2b "forcedOutboundTag") end.
Definition SetForcedOutboundTag (s : DSession) (tag : str) : DSession :=
  mkDSession (ds_Inbound s) (ds_outbounds s) (Some (SetAttribute (default new_content (ds_content s)) (s2b "forcedOutboundTag") tag)).

(** The outbound of the session is the last one. *)
Definition ob_of (s : DSession) : Ob := default new_ob (list.last (ds_outbounds s)).
Definition set_ob (s : DSession) (o : Ob) : DSession :=
  mkDSession (ds_Inbound s) (take (length (ds_outbounds s) - 1) (ds_outbounds s) ++ [o]) (ds_content s).
Definition set_content (s : DSession) (c : DContent) : DSession := mkDSession (ds_Inbound s) (ds_outbounds s) (Some c).

(** [routing_session.AsRoutingContext]; the attributes are listed in some order. *)
Definition AsRoutingContext (s : DSession) : Session :=
  mkSession (ds_Inbound s) (Some (mkOutbound (ob_Target (ob_of s)) (ob_RouteTarget (ob_of s))))
    ((λ c, mkContent (dc_Protocol c) (map_to_list <$> dc_Attributes c) (dc_SkipDNS c)) <$> ds_content s).

(** ** Routing *)

(** What becomes of a link: it goes to a handler, or its writer is closed and its reader interrupted. *)
Inductive Outcome := Dispatched (h : Handler) | Closed.

(** The router, if there is one: the tag of the outbound and of the rule. *)
Context (PickRoute : option (Session → go (str * str))) (ohm : Handlers.Manager).

Definition hand_over (handler : option Handler) (s : DSession) : go Outcome * DSession :=
  let handler := match handler with Some h => Some h | None => GetDefaultHandler ohm end in
  match handler with
  | None => (Ok Closed, s)
  | Some h => let o := ob_of s in (Ok (Dispatched h), set_ob s (mkOb (ob_OriginalTarget o) (ob_Target o) (ob_RouteTarget o) (h_Tag h)))
  end.

Definition routedDispatch (s : DSession) : go Outcome * DSession :=
  let routingLink := AsRoutingContext s in
  let forcedOutboundTag := GetForcedOutboundTag s in
  if decide (forcedOutboundTag ≠ []) then
    let s := SetForcedOutboundTag s [] in
    match GetHandler ohm forcedOutboundTag with
    | Some h => hand_over (Some h) s
    | None => (Ok Closed, s)
    end
  else
    match PickRoute with
    | None => hand_over None s
    | Some pick =>
        match pick routingLink with
        | Ok (outTag, ruleTag) => match GetHandler ohm outTag with Some h => hand_over (Some h) s | None => (Ok Closed, s) end
        | Err _ => hand_over None s
        | Panic => (Panic, s)
        end
    end.

(** ** Dispatch *)

(** The session when the dispatcher has set its target. *)
Definition prepare (s : DSession) (destination : Destination) : DSession :=
  let o := ob_of s in
  let s := set_ob s (mkOb destination destination (ob_RouteTarget o) (ob_Tag o)) in
  match ds_content s with None => set_content s new_content | Some _ => s end.

(** What a result of the sniffers changes. *)
Definition redirect (e : option E) (request : SniffingRequest) (destination : Destination) (result : SniffResult) (s : DSession) : go DSession :=
  override ← shouldOverride e result request destination;
  if override : bool then
    let destination := mkDestination (ParseAddress (ResultDomain result)) (d_Port destination) (d_Network destination) in
    let protocol := protocol_of result in
    let o := ob_of s in
    isFakeIP ← match e, in_pool with Some e, Some f => ask (ob_Target o) (f e) | _, _ => Ok false end;
    if RouteOnly request && bool_decide (protocol ≠ s2b "fakedns") && bool_decide (protocol ≠ s2b "fakedns+others") && negb isFakeIP
    then Ok (set_ob s (mkOb (ob_OriginalTarget o) (ob_Target o) destination (ob_Tag o)))
    else Ok (set_ob s (mkOb (ob_OriginalTarget o) destination (ob_RouteTarget o) (ob_Tag o)))
  else Ok s.

(** The attributes after sniffing; a map that was nil stays nil as long as nothing is set. *)
Definition put_attrs (c : DContent) (m : gmap str str) : DContent :=
  mkDContent (dc_Protocol c) (dc_Sniffing c) (if decide (dc_Attributes c = None ∧ m = ∅) then None else Some m) (dc_SkipDNS c).

(** [Dispatch] with what its goroutine does, and [DispatchLink]: both do this with the reader of the
    link, and end in [routedDispatch]. *)
Definition dispatch_sniffed (elapsed : nat → Z) (done : nat → option GoError) (destination : Destination) (r : cachedReader) (e : option E) (s : DSession) :
    go Outcome * cachedReader * DSession :=
  let s := prepare s destination in
  let c := default new_content (ds_content s) in
  let request := dc_Sniffing c in
  if negb (Enabled request) then let '(o, s) := routedDispatch s in (o, r, s)
  else
    let '(result, r, st) := sniffer elapsed done (ob_Target (ob_of s)) (MetadataOnly request) (d_Network destination) r (mkSt (default ∅ (dc_Attributes c)) e) in
    let c := put_attrs c (attrs st) in
    match result with
    | Panic => (Panic, r, set_content s c)
    | Err _ => let '(o, s) := routedDispatch (set_content s c) in (o, r, s)
    | Ok result =>
        let s := set_content s (mkDContent (Protocol result) (dc_Sniffing c) (dc_Attributes c) (dc_SkipDNS c)) in
        match redirect (engine st) request destination result s with
        | Ok s => let '(o, s) := routedDispatch s in (o, r, s)
        | Err er => (Err er, r, s)
        | Panic => (Panic, r, s)
        end
    end.

Definition Dispatch elapsed done destination r e s :=
  if negb (IsValid destination) then (Panic, r, s) else dispatch_sniffed elapsed done destination r e s.
Definition DispatchLink elapsed done destination r e s :=
  if negb (IsValid destination) then (Err (ErrMsg "Dispatcher: Invalid destination."), r, s) else dispatch_sniffed elapsed done destination r e s.

(** ** What was sniffed is not lost *)

(** The bytes of all results; a result with an error carries none. *)
Definition src_bytes (s : Source) : list byte := concat ((λ x, mcontent x.1) <$> src_next s).
Definition clean (s : Source) : Prop := Forall (λ x, wfs x.1 ∧ (is_Some x.2 → mcontent x.1 = [])) (src_next s).
Definition reader_ok (r : cachedReader) : Prop := clean (reader r) ∧ wfs (cache r).
Definition stream (r : cachedReader) : list byte := mcontent (cache r) ++ src_bytes (reader r).

Lemma Source_read s mb err s' : clean s → Source_ReadMultiBuffer s = (mb, err, s') →
  clean s' ∧ wfs mb ∧ (is_Some err → mcontent mb = []) ∧ src_bytes s = mcontent mb ++ src_bytes s' ∧ length (src_next s') = pred (length (src_next s)).
Proof.
  intros Hc. unfold Source_ReadMultiBuffer. destruct (src_next s) as [|[mb' e'] l] eqn:El; intros [= <- <- <-].
  - rewrite El. split; [done|]. split; [done|]. by split.
  - unfold clean in Hc. rewrite El in Hc. pose proof (Forall_cons_1 _ _ _ Hc) as [[W1 W2] W3]. split; [done|]. split; [done|]. split; [done|].
    unfold src_bytes. by rewrite El.
Qed.

Lemma IsEmpty_content mb : wfs mb → MultiBuffer.IsEmpty mb = true → mcontent mb = [].
Proof. intros Hw He. by apply (MultiBuffer.IsEmpty_spec mb Hw). Qed.

(** The reader still has everything. *)
Definition keeps (r r' : cachedReader) : Prop :=
  reader_ok r' ∧ stream r' = stream r ∧ (length (src_next (reader r')) ≤ length (src_next (reader r)))%nat.
Lemma keeps_refl r : reader_ok r → keeps r r.
Proof. by split. Qed.
Lemma keeps_trans r1 r2 r3 : keeps r1 r2 → keeps r2 r3 → keeps r1 r3.
Proof. intros (A1 & A2 & A3) (B1 & B2 & B3). split; [done|]. split; [congruence|lia]. Qed.

Lemma Cache_keeps r p r' : reader_ok r → Cache r = (p, r') → keeps r r'.
Proof.
  intros [Hc Hw]. unfold Cache. destruct (Source_ReadMultiBuffer (reader r)) as [[mb err] src] eqn:Es. destruct (Source_read _ _ _ _ Hc Es) as (C1 & C2 & C3 & C4 & C5).
  unfold keeps, stream. rewrite C4. destruct err as [e|].
  - intros [= <- <-]. rewrite C3 by done. repeat split; [done..|cbn; lia].
  - destruct (MultiBuffer.IsEmpty mb) eqn:Em; intros [= <- <-]; cbn [reader cache].
    + rewrite (IsEmpty_content mb) by done. repeat split; [done..|lia].
    + cbn [MultiBuffer.MergeMulti fst]. rewrite mcontent_app, <- app_assoc. split; [split; [done|by apply Forall_app_2]|split; [done|lia]].
Qed.

Lemma content_loop_keeps fuel n elapsed done_ target network sn dl ta r s res r' s' : reader_ok r →
  content_loop fuel n elapsed done_ target network sn dl ta r s = (res, r', s') → keeps r r'.
Proof.
  revert n sn dl ta r s. induction fuel as [|fuel IH]; intros n sn dl ta r s Hr; cbn [content_loop]; pose proof (keeps_refl r Hr) as Hk; [by intros [= <- <- <-]|].
  destruct (done_ n); [by intros [= <- <- <-]|]. destruct (Cache r) as [p r1] eqn:Ec. pose proof (Cache_keeps _ _ _ Hr Ec) as Hc.
  destruct p as [payload| |]; [|by intros [= <- <- <-]..]. intros Hres. apply (keeps_trans _ _ _ Hc). revert Hres. assert (R1 : reader_ok r1) by apply Hc. pose proof (keeps_refl r1 R1) as Hk1.
  assert (Hnext : ∀ sn ta s, (if decide (ta >= 2 ∨ dl - elapsed n <= 0) then (Err errSniffingTimeout, r1, s)
      else content_loop fuel (S n) elapsed done_ target network sn (dl - elapsed n) ta r1 s) = (res, r', s') → keeps r1 r').
  { intros sn' ta' s1. destruct (decide _); [by intros [= <- <- <-]|]. by apply IH. }
  destruct (decide (payload ≠ [])); [|apply Hnext]. destruct (Sniff target sn payload network s) as [[[result|er|] sn'] s1]; [by intros [= <- <- <-]| |by intros [= <- <- <-]].
  destruct (decide (er = ErrNoClue)); [apply Hnext|]. destruct (decide (er = ErrProtoNeedMoreData)); [apply Hnext|]. by intros [= <- <- <-].
Qed.

Lemma sniffer_keeps elapsed done_ target mo network r s res r' s' : reader_ok r →
  sniffer elapsed done_ target mo network r s = (res, r', s') → keeps r r'.
Proof.
  intros Hr. pose proof (keeps_refl r Hr) as Hk. unfold sniffer. destruct (SniffMetadata target (NewSniffer s) s) as [[meta sn] s1].
  destruct (content_loop _ _ _ _ _ _ _ _ _ _ _) as [[content r1] s2] eqn:El. apply content_loop_keeps in El; [|done].
  destruct meta as [m| |]; [| |by intros [= <- <- <-]]; (destruct mo; [by intros [= <- <- <-]|]); destruct content; by intros [= <- <- <-].
Qed.

(** What [n] reads give. *)
Fixpoint drain (n : nat) (r : cachedReader) : list byte :=
  match n with
  | O => []
  | S n => let '(mb, _, r) := Cached_ReadMultiBuffer r in mcontent mb ++ drain n r
  end.

Lemma drain_source n r : clean (reader r) → MultiBuffer.IsEmpty (cache r) = true → (length (src_next (reader r)) ≤ n)%nat → drain n r = src_bytes (reader r).
Proof.
  revert r. induction n as [|n IH]; intros r Hc He Hl.
  - unfold src_bytes. destruct (src_next (reader r)); [done|cbn in Hl; lia].
  - cbn [drain]. unfold Cached_ReadMultiBuffer, readInternal. rewrite He.
    destruct (Source_ReadMultiBuffer (reader r)) as [[mb err] s'] eqn:Es. destruct (Source_read _ _ _ _ Hc Es) as (C1 & _ & _ & C4 & C5).
    rewrite C4. f_equal. apply (IH (mkCached s' (cache r))); [done..|cbn; lia].
Qed.

Lemma drain_stream n r : reader_ok r → (length (src_next (reader r)) < n)%nat → drain n r = stream r.
Proof.
  intros [Hc Hw] Hl. destruct n as [|n]; [lia|]. unfold stream. destruct (MultiBuffer.IsEmpty (cache r)) eqn:Em.
  - rewrite (IsEmpty_content (cache r)) by done. apply drain_source; [done..|lia].
  - cbn [drain]. unfold Cached_ReadMultiBuffer, readInternal. rewrite Em. f_equal. apply (drain_source n (mkCached (reader r) [])); [done..|cbn; lia].
Qed.

Lemma dispatch_keeps elapsed done_ destination r e s o r' s' : reader_ok r → dispatch_sniffed elapsed done_ destination r e s = (o, r', s') → keeps r r'.
Proof.
  intros Hr. pose proof (keeps_refl r Hr) as Hk. unfold dispatch_sniffed. set (s1 := prepare s destination). set (c := default new_content (ds_content s1)).
  destruct (negb (Enabled (dc_Sniffing c))); [destruct (routedDispatch s1); by intros [= <- <- <-]|].
  destruct (sniffer _ _ _ _ _ _ _) as [[result r1] st] eqn:Es. apply sniffer_keeps in Es; [|done].
  destruct result as [result|er|]; [|destruct (routedDispatch _); by intros [= <- <- <-]|by intros [= <- <- <-]].
  destruct (redirect _ _ _ _ _) as [s2| |]; [destruct (routedDispatch s2)|..]; by intros [= <- <- <-].
Qed.

(** C7: sniffing does not change the stream. Whatever the sniffers do, with however many reads, timeouts
    and errors of the reader (an error brings no data with it), the handler that gets the link reads
    exactly the bytes the client sent, in their order, each once. *)
Theorem sniffing_keeps_stream elapsed done_ destination src e s o r' s' n :
  clean src → Dispatch elapsed done_ destination (mkCached src []) e s = (o, r', s') → (length (src_next src) < n)%nat →
  drain n r' = src_bytes src.
Proof.
  intros Hc Hd Hn. assert (Hr : reader_ok (mkCached src [])) by (by split). assert (Hk : keeps (mkCached src []) r').
  { unfold Dispatch in Hd. destruct (negb (IsValid destination)); [|by eapply dispatch_keeps]. injection Hd as _ <- _. by apply keeps_refl. }
  destruct Hk as (Hr' & Hs & Hl). rewrite drain_stream; [by rewrite Hs|done|cbn in Hl; lia].
Qed.

(** ** No header chooses the outbound *)

Definition forced : str := s2b "forcedOutboundTag".
Definition not_upper (c : byte) : Prop := ¬ (65 ≤ byte_to_Z c ≤ 90).
(** [strings.ToLower] leaves no upper-case ASCII letter. *)
Hypothesis lower_law : ∀ x, Forall not_upper (lowerRunes x).

Lemma lower_not_upper c : not_upper (StrMatcher.lower c).
Proof.
  unfold not_upper, StrMatcher.lower. destruct (decide (65 ≤ byte_to_Z c ≤ 90)); [|done].
  rewrite byte_to_of_Z_small by (unfold is_u8; lia). lia.
Qed.

Lemma lowered_not_forced k : strings_ToLower lowerRunes k ≠ forced.
Proof.
  intros Hk. assert (Hall : Forall not_upper (strings_ToLower lowerRunes k)).
  { unfold strings_ToLower. destruct (isASCII k); [|apply lower_law]. unfold ToLower. apply Forall_fmap. apply list.Forall_forall. intros c _. apply lower_not_upper. }
  rewrite Hk in Hall. rewrite list.Forall_forall in Hall. apply (Hall x4f); [apply (bool_decide_unpack _); by vm_compute|done].
Qed.

Lemma set_attr_forced on name value m : name ≠ forced → ∃ m', Http.set_attr on name value (Some m) = Some m' ∧ m' !! forced = m !! forced.
Proof. intros Hn. destruct on; cbn; eexists; (split; [done|]); [by rewrite lookup_insert_ne|done]. Qed.

Lemma headers_forced on hs host m r c : Http.headers_loop lowerRunes on hs host (Some m) = (r, c) → ∃ m', c = Some m' ∧ m' !! forced = m !! forced.
Proof.
  revert host m. induction hs as [|h hs IH]; intros host m; cbn [Http.headers_loop]; [intros [= <- <-]; by eexists|].
  destruct (decide (len h = 0)); [intros [= <- <-]; by eexists|]. destruct (Http.header_parts h) as [[k v]|]; [|apply IH].
  destruct (set_attr_forced on (strings_ToLower lowerRunes k) (GoText.trim_space v) m (lowered_not_forced k)) as (m1 & -> & H1').
  rewrite <- H1'. destruct (decide (strings_ToLower lowerRunes k = s2b "host")); [|apply IH].
  destruct (Http.ParseHost _ 80) as [d| |]; [|intros [= <- <-]; by eexists..]. destruct (d_Address d); [apply IH|]. intros [= <- <-]; by eexists.
Qed.

Lemma request_line_forced on line m : ∃ m', Http.request_line on line (Some m) = Some m' ∧ m' !! forced = m !! forced.
Proof.
  unfold Http.request_line. destruct (Split line Http.space) as [|a [|p [|v [|]]]]; try by eexists.
  destruct (set_attr_forced on (s2b ":method") a m) as (m1 & -> & <-); [done|]. by apply set_attr_forced.
Qed.

Lemma SniffHTTP_forced b m r c : Http.SniffHTTP lowerRunes b (Some m) = (r, c) → ∃ m', c = Some m' ∧ m' !! forced = m !! forced.
Proof.
  unfold Http.SniffHTTP. destruct (Http.beginWithHTTPMethod b); [|intros [= <- <-]; by eexists..]. destruct (Split b Http.newline) as [|first hs]; [intros [= <- <-]; by eexists|].
  destruct (Http.headers_loop _ _ _ _ _) as [host c1] eqn:Eh. destruct (headers_forced _ _ _ _ _ _ Eh) as (m1 & -> & <-).
  destruct host as [host| |]; [|intros [= <- <-]; by eexists..]. intros [= <- <-]. apply request_line_forced.
Qed.

Definition same (s s' : St) : Prop := attrs s' !! forced = attrs s !! forced.

Lemma run_other_same k payload s r s' : run_other k payload s = (r, s') → same s s'.
Proof.
  unfold same. destruct k; cbn [run_other]; try by intros [= <- <-].
  destruct (Http.SniffHTTP _ _ _) as [r1 c] eqn:Eh. destruct (SniffHTTP_forced _ _ _ _ Eh) as (m' & -> & <-). by intros [= <- <-].
Qed.

Lemma run_fake_same target opt s r b s' : run_fake target opt s = (r, b, s') → attrs s' = attrs s.
Proof.
  unfold run_fake. destruct (engine s) as [e|]; [|by intros [= <- <- <-]].
  destruct (decide _) as [Hn|Hn].
  - destruct (d_Address target) as [a|]; [|by intros [= <- <- <-]]. destruct (GetDomain e a) as [[dom| |] e']; [|by intros [= <- <- <-]..].
    destruct (decide (dom ≠ [])); [by intros [= <- <- <-]|]. destruct opt; [|by intros [= <- <- <-]]. destruct in_pool as [f|]; [|by intros [= <- <- <-]].
    destruct (ask _ _); by intros [= <- <- <-].
  - destruct opt; [|by intros [= <- <- <-]]. destruct in_pool as [f|]; [|by intros [= <- <- <-]]. destruct (ask _ _); by intros [= <- <- <-].
Qed.

Lemma try_others_same l payload s r s' : try_others l payload s = (r, s') → same s s'.
Proof.
  revert s. induction l as [|v l IH]; intros s; cbn [try_others]; [by intros [= <- <-]|]. destruct (_ || _); [|apply IH].
  destruct (run_other _ _ _) as [r1 s1] eqn:Er. apply run_other_same in Er. unfold same in *. rewrite <- Er.
  destruct r1; [by intros [= <- <-]|apply IH|by intros [= <- <-]].
Qed.

Lemma run_same target en payload s r s' : run target en payload s = (r, s') → same s s'.
Proof.
  unfold run. destruct (en_kind en) eqn:Ek; try apply run_other_same.
  - destruct (run_fake target false s) as [[r1 b1] s1] eqn:Er. apply run_fake_same in Er. intros [= <- <-]. unfold same. by rewrite Er.
  - destruct (run_fake target true s) as [[r1 b1] s1] eqn:Er. apply run_fake_same in Er. unfold same. rewrite <- Er.
    destruct r1 as [x|x|]; [by intros [= <- <-]| |by intros [= <- <-]]. destruct b1 as [[]|]; [apply try_others_same|by intros [= <- <-]..].
Qed.

Lemma sniff_loop_same target network payload l pending s r o s' : sniff_loop target network payload l pending s = (r, o, s') → same s s'.
Proof.
  revert pending s. induction l as [|si l IH]; intros pending s; cbn [sniff_loop]; [destruct pending; by intros [= <- <- <-]|].
  destruct (_ || _); [apply IH|]. destruct (run _ _ _ _) as [r1 s1] eqn:Er. apply run_same in Er. unfold same in *. rewrite <- Er.
  destruct r1 as [x|er|]; [by intros [= <- <- <-]| |by intros [= <- <- <-]].
  destruct (decide (er = ErrNoClue)); [apply IH|]. destruct (decide (er = ErrProtoNeedMoreData)); [by intros [= <- <- <-]|apply IH].
Qed.

Lemma metadata_loop_same target l pending s r o s' : metadata_loop target l pending s = (r, o, s') → same s s'.
Proof.
  revert pending s. induction l as [|si l IH]; intros pending s; cbn [metadata_loop]; [destruct pending; by intros [= <- <- <-]|].
  destruct (negb _); [apply IH|]. destruct (run _ _ _ _) as [r1 s1] eqn:Er. apply run_same in Er. unfold same in *. rewrite <- Er.
  destruct r1 as [x|er|]; [by intros [= <- <- <-]| |by intros [= <- <- <-]]. destruct (decide (er = ErrNoClue)); apply IH.
Qed.

Lemma content_loop_same fuel n elapsed done_ target network sn dl ta r s res r' s' :
  content_loop fuel n elapsed done_ target network sn dl ta r s = (res, r', s') → same s s'.
Proof.
  revert n sn dl ta r s. induction fuel as [|fuel IH]; intros n sn dl ta r s; cbn [content_loop]; [by intros [= <- <- <-]|].
  destruct (done_ n); [by intros [= <- <- <-]|]. destruct (Cache r) as [p r1]. destruct p as [payload| |]; [|by intros [= <- <- <-]..].
  assert (Hnext : ∀ sn ta s1, (if decide (ta >= 2 ∨ dl - elapsed n <= 0) then (Err errSniffingTimeout, r1, s1)
      else content_loop fuel (S n) elapsed done_ target network sn (dl - elapsed n) ta r1 s1) = (res, r', s') → same s1 s').
  { intros sn' ta' s1. destruct (decide _); [by intros [= <- <- <-]|]. by apply IH. }
  destruct (decide (payload ≠ [])); [|apply Hnext]. unfold Sniff. destruct (sniff_loop _ _ _ _ _ _) as [[result o] s1] eqn:Es. apply sniff_loop_same in Es. unfold same in *.
  rewrite <- Es. destruct result as [result|er|]; [by intros [= <- <- <-]| |by intros [= <- <- <-]].
  destruct (decide (er = ErrNoClue)); [apply Hnext|]. destruct (decide (er = ErrProtoNeedMoreData)); [apply Hnext|]. by intros [= <- <- <-].
Qed.

Lemma sniffer_same elapsed done_ target mo network r s res r' s' : sniffer elapsed done_ target mo network r s = (res, r', s') → same s s'.
Proof.
  unfold sniffer, SniffMetadata. destruct (metadata_loop _ _ _ _) as [[meta o] s1] eqn:Em. apply metadata_loop_same in Em. unfold same in *. rewrite <- Em.
  destruct (content_loop _ _ _ _ _ _ _ _ _ _ _) as [[content r1] s2] eqn:El. apply content_loop_same in El.
  destruct meta as [m| |]; [| |by intros [= <- <- <-]]; (destruct mo; [by intros [= <- <- <-]|]); unfold same in El; rewrite <- El; destruct content; by intros [= <- <- <-].
Qed.

(** The handler of a tag, or none: there is no way from a tag without a handler to the default one. *)
Definition by_tag (tag : str) : Outcome := match GetHandler ohm tag with Some h => Dispatched h | None => Closed end.
Definition by_default : Outcome := match GetDefaultHandler ohm with Some h => Dispatched h | None => Closed end.
(** What the dispatcher promises for a session with the forced tag [tag], routed as [s]. *)
Definition promised (tag : str) (s : DSession) : go Outcome :=
  if decide (tag ≠ []) then Ok (by_tag tag)
  else match PickRoute with
       | None => Ok by_default
       | Some pick => match pick (AsRoutingContext s) with Ok (outTag, _) => Ok (by_tag outTag) | Err _ => Ok by_default | Panic => Panic end
       end.

Lemma routed_promised s : (routedDispatch s).1 = promised (GetForcedOutboundTag s) s.
Proof.
  unfold routedDispatch, promised, by_tag, by_default, hand_over. destruct (decide (GetForcedOutboundTag s ≠ [])).
  - by destruct (GetHandler ohm (GetForcedOutboundTag s)).
  - destruct PickRoute as [pick|]; [|by destruct (GetDefaultHandler ohm)]. destruct (pick (AsRoutingContext s)) as [[outTag ruleTag]| |]; [|by destruct (GetDefaultHandler ohm)|done].
    by destruct (GetHandler ohm outTag).
Qed.

Lemma forced_put_attrs s c m : m !! forced = default ∅ (dc_Attributes c) !! forced →
  GetForcedOutboundTag (set_content s (put_attrs c m)) = Attribute c forced.
Proof.
  intros Hm. unfold GetForcedOutboundTag, Attribute. cbn [ds_content set_content put_attrs dc_Attributes]. fold forced.
  destruct (decide (dc_Attributes c = None ∧ m = ∅)) as [[-> ->]|]; [done|].
  cbn [mbind option_bind]. rewrite Hm. by destruct (dc_Attributes c).
Qed.

Lemma prepare_forced s d : Attribute (default new_content (ds_content (prepare s d))) forced = GetForcedOutboundTag s ∧ GetForcedOutboundTag (prepare s d) = GetForcedOutboundTag s.
Proof.
  assert (Hc : ds_content (prepare s d) = Some (default new_content (ds_content s))).
  { unfold prepare. cbn [set_ob ds_content]. by destruct (ds_content s) eqn:Ec. }
  unfold GetForcedOutboundTag. rewrite Hc. by destruct (ds_content s).
Qed.

Lemma redirect_content e request d result s s' : redirect e request d result s = Ok s' → ds_content s' = ds_content s.
Proof.
  unfold redirect. destruct (shouldOverride _ _ _ _) as [[]| |]; [|by intros [= <-]|done|done]. cbn [mbind go_bind].
  destruct (match e with Some _ => _ | None => _ end) as [fake| |]; [|done|done]. cbn [mbind go_bind]. destruct (_ && _); by intros [= <-].
Qed.

Lemma ob_set s o : ob_of (set_ob s o) = o.
Proof. unfold ob_of, set_ob. cbn [ds_outbounds]. by rewrite last_snoc. Qed.

(** [s1] is the session [s] on its way to [destination]: sniffing may have put a name in the place of
    the address. *)
Definition on_its_way (s : DSession) (destination : Destination) (s1 : DSession) : Prop :=
  ds_Inbound s1 = ds_Inbound s ∧ ob_OriginalTarget (ob_of s1) = destination ∧
  d_Port (ob_Target (ob_of s1)) = d_Port destination ∧ d_Network (ob_Target (ob_of s1)) = d_Network destination.

Lemma prepare_ob s d : ds_Inbound (prepare s d) = ds_Inbound s ∧ ob_of (prepare s d) = mkOb d d (ob_RouteTarget (ob_of s)) (ob_Tag (ob_of s)).
Proof. rewrite <- (ob_set s (mkOb d d _ _)). unfold prepare. by destruct (ds_content _). Qed.

Lemma prepare_way s d : on_its_way s d (prepare s d).
Proof. destruct (prepare_ob s d) as [H1' H2']. unfold on_its_way. by rewrite H2'. Qed.

Lemma redirect_way e request d result s s1 s2 : on_its_way s d s1 → redirect e request d result s1 = Ok s2 → on_its_way s d s2.
Proof.
  intros (W1 & W2 & W3 & W4). unfold redirect. destruct (shouldOverride _ _ _ _) as [[]| |]; [|by intros [= <-]|done|done]. cbn [mbind go_bind].
  destruct (match e with Some _ => _ | None => _ end) as [fake| |]; [|done|done]. cbn [mbind go_bind].
  destruct (_ && _); intros [= <-]; unfold on_its_way; by rewrite ob_set.
Qed.

(** C6: routing is obeyed. Where a link goes is decided by the tag the session was forced to, else by what
    the router says of the session on its way to the destination, else it is the default outbound:
    nothing a client sends, neither a header named like the attribute that forces an outbound nor
    anything else the sniffers read, can force it, and a tag that no handler has closes the link
    instead of falling back to the default outbound. *)
Theorem dispatch_obeys_router elapsed done_ destination r e s o r' s' :
  Dispatch elapsed done_ destination r e s = (Ok o, r', s') →
  ∃ s1, on_its_way s destination s1 ∧ promised (GetForcedOutboundTag s) s1 = Ok o.
Proof.
  unfold Dispatch. destruct (negb (IsValid destination)); [done|]. unfold dispatch_sniffed. destruct (prepare_forced s destination) as [F1 F2].
  pose proof (prepare_way s destination) as Hway. set (s1 := prepare s destination) in *. set (c := default new_content (ds_content s1)) in *.
  assert (Hend : ∀ s2 rr, on_its_way s destination s2 → GetForcedOutboundTag s2 = GetForcedOutboundTag s →
    (let '(oo, ss) := routedDispatch s2 in (oo, rr, ss)) = (Ok o, r', s') → ∃ s1, on_its_way s destination s1 ∧ promised (GetForcedOutboundTag s) s1 = Ok o).
  { intros s2 rr Hw Hf Hd. exists s2. split; [done|]. rewrite <- Hf, <- routed_promised. destruct (routedDispatch s2). by injection Hd as -> _ _. }
  destruct (negb (Enabled (dc_Sniffing c))); [by apply Hend|].
  destruct (sniffer _ _ _ _ _ _ _) as [[result r1] st] eqn:Es. apply sniffer_same in Es. unfold same in Es. cbn [attrs] in Es.
  pose proof (forced_put_attrs s1 c (attrs st) Es) as Hput. rewrite F1 in Hput.
  destruct result as [result|er|]; [|by apply Hend|done].
  destruct (redirect _ _ _ _ _) as [s2| |] eqn:Er; [|done|done]. apply Hend; [eapply redirect_way; [|exact Er]; exact Hway|]. apply redirect_content in Er.
  unfold GetForcedOutboundTag at 1. rewrite Er. rewrite <- Hput. done.
Qed.

(** ** A hello in one or two reads *)

Lemma begin_not_tls b ms : Forall (λ m, ∃ x m', m = x :: m' ∧ x ≠ x16) ms → Http.begin_loop (x16 :: b) ms = Err ErrNoClue ∨ Http.begin_loop (x16 :: b) ms = Err Http.errNotHTTPMethod.
Proof.
  induction 1 as [|m ms (x & m' & -> & Hx) _ IH]; cbn [Http.begin_loop]; [by right|].
  assert (Hf : Http.equal_fold (take (length (x :: m')) (x16 :: b)) (x :: m') = false).
  { apply bool_decide_eq_false_2. cbn. change (StrMatcher.lower x16) with x16. congruence. }
  rewrite Hf, andb_false_r. destruct (decide _); [by left|done].
Qed.

Lemma http_not_tls b c : ∃ er, Http.SniffHTTP lowerRunes (x16 :: b) c = (Err er, c) ∧ (er = ErrNoClue ∨ er = Http.errNotHTTPMethod).
Proof.
  unfold Http.SniffHTTP, Http.beginWithHTTPMethod. assert (Hm : Forall (λ m, ∃ x m', m = x :: m' ∧ x ≠ x16) Http.methods).
  { repeat (apply Forall_cons_2; [by eexists _, _|]). done. }
  destruct (begin_not_tls b _ Hm) as [-> | ->]; eexists; (split; [done|]); auto.
Qed.

Lemma bittorrent_not_tls b : ∃ er, Bittorrent.SniffBittorrent (x16 :: b) = Err er ∧ (er = ErrNoClue ∨ er = Bittorrent.errNotBittorrent).
Proof.
  unfold Bittorrent.SniffBittorrent. destruct (decide (len (x16 :: b) < 20)); [eexists; split; [done|]; by left|].
  rewrite at_cons. cbn [mbind go_bind]. rewrite slice_Some by lia. cbn [ok_or_panic mbind go_bind]. rewrite decide_False; [|by intros [? ?]].
  eexists; split; [done|]. by right.
Qed.

(** The sniffers that are left while a hello comes in. *)
Definition waiting (a c u : bool) : list Entry :=
  (if a then [mkEntry KHttp false Network_TCP] else []) ++ mkEntry KTls false Network_TCP ::
  (if c then [mkEntry KBittorrent false Network_TCP] else []) ++
  (if u then [mkEntry KQuic false Network_UDP; mkEntry KUtp false Network_UDP] else []).

Lemma run_http_tls target b s : ∃ er, run target (mkEntry KHttp false Network_TCP) (Some (x16 :: b)) s = (Err er, s) ∧ (er = ErrNoClue ∨ er = Http.errNotHTTPMethod).
Proof.
  destruct (http_not_tls b (Some (attrs s))) as (er & Hh & Her). exists er. split; [|done].
  change (run target _ _ s) with (let '(r, a) := Http.SniffHTTP lowerRunes (x16 :: b) (Some (attrs s)) in (go_map RHttp r, mkSt (default ∅ a) (engine s))).
  rewrite Hh. by destruct s.
Qed.
Lemma run_bittorrent_tls target b s : ∃ er, run target (mkEntry KBittorrent false Network_TCP) (Some (x16 :: b)) s = (Err er, s) ∧ (er = ErrNoClue ∨ er = Bittorrent.errNotBittorrent).
Proof.
  destruct (bittorrent_not_tls b) as (er & Hh & Her). exists er. split; [|done].
  change (run target _ _ s) with (go_map (λ _, RBittorrent) (Bittorrent.SniffBittorrent (x16 :: b)), s). by rewrite Hh.
Qed.

Lemma sniff_step target b k l pending s er : run target (mkEntry k false Network_TCP) (Some b) s = (Err er, s) → er ≠ ErrProtoNeedMoreData →
  sniff_loop target Network_TCP b (mkEntry k false Network_TCP :: l) pending s =
  sniff_loop target Network_TCP b l (if decide (er = ErrNoClue) then pending ++ [mkEntry k false Network_TCP] else pending) s.
Proof.
  intros Hr Hne. cbn [sniff_loop metadataSniffer en_network orb]. rewrite bool_decide_eq_true_2 by done. cbn [negb]. rewrite Hr.
  destruct (decide (er = ErrNoClue)); [done|]. by rewrite decide_False.
Qed.

Lemma sniff_found target a c u b s name : Tls.SniffTLS (x16 :: b) = Ok name →
  ∃ l, Sniff target (waiting a c u) (x16 :: b) Network_TCP s = (Ok (RTls name), l, s).
Proof.
  intros Ht. unfold Sniff, waiting. destruct (run_http_tls target b s) as (er & Hh & Her).
  assert (Htls : ∀ l pending, sniff_loop target Network_TCP (x16 :: b) (mkEntry KTls false Network_TCP :: l) pending s = (Ok (RTls name), None, s)).
  { intros l pending. cbn [sniff_loop metadataSniffer en_network orb]. rewrite bool_decide_eq_true_2 by done. cbn [negb].
    change (run target _ _ s) with (go_map RTls (Tls.SniffTLS (x16 :: b)), s). by rewrite Ht. }
  destruct a; cbn [app]; eexists; [|by rewrite Htls]. rewrite (sniff_step _ _ _ _ _ _ _ Hh) by (by destruct Her as [-> | ->]). by rewrite Htls.
Qed.

Lemma sniff_waits target a c u b s : Tls.SniffTLS (x16 :: b) = Err ErrNoClue →
  ∃ a' c', Sniff target (waiting a c u) (x16 :: b) Network_TCP s = (Err ErrNoClue, waiting a' c' false, s).
Proof.
  intros Ht. unfold Sniff. destruct (run_http_tls target b s) as (er & Hh & Her). destruct (run_bittorrent_tls target b s) as (er2 & Hb & Her2).
  assert (Htls : run target (mkEntry KTls false Network_TCP) (Some (x16 :: b)) s = (Err ErrNoClue, s)).
  { change (run target _ _ s) with (go_map RTls (Tls.SniffTLS (x16 :: b)), s). by rewrite Ht. }
  exists (a && bool_decide (er = ErrNoClue)), (c && bool_decide (er2 = ErrNoClue)).
  assert (Hne : er ≠ ErrProtoNeedMoreData) by (by destruct Her as [-> | ->]). assert (Hne2 : er2 ≠ ErrProtoNeedMoreData) by (by destruct Her2 as [-> | ->]).
  destruct a, c, u; cbn [waiting app]; rewrite ?(sniff_step _ _ _ _ _ _ _ Hh Hne), (sniff_step _ _ _ _ _ _ _ Htls), ?(sniff_step _ _ _ _ _ _ _ Hb Hne2) by done;
    destruct (decide (er = ErrNoClue)) as [He|He], (decide (er2 = ErrNoClue)) as [He2|He2];
    rewrite ?(bool_decide_eq_true_2 (er = ErrNoClue)), ?(bool_decide_eq_false_2 (er = ErrNoClue)), ?(bool_decide_eq_true_2 (er2 = ErrNoClue)), ?(bool_decide_eq_false_2 (er2 = ErrNoClue)) by done; done.
Qed.

Lemma Cache_reads mb l en c : wfs mb → wfs c → len (mcontent c ++ mcontent mb) ≤ payloadCap →
  ∃ c', Cache (mkCached (mkSource ((mb, None) :: l) en) c) = (Ok (mcontent c ++ mcontent mb), mkCached (mkSource l en) c') ∧ wfs c' ∧ mcontent c' = mcontent c ++ mcontent mb.
Proof.
  intros Hmb Hc Hl. unfold Cache. cbn [Source_ReadMultiBuffer reader src_next src_end cache].
  set (c' := if MultiBuffer.IsEmpty mb then c else _). assert (Hc' : wfs c' ∧ mcontent c' = mcontent c ++ mcontent mb).
  { unfold c'. destruct (MultiBuffer.IsEmpty mb) eqn:Em; [by rewrite (IsEmpty_content mb), app_nil_r by done|]. cbn [MultiBuffer.MergeMulti fst].
    rewrite mcontent_app. split; [by apply Forall_app_2|done]. }
  destruct Hc' as [Hw Hm]. exists c'. split; [|done]. unfold payloadCap in *. rewrite <- Hm in *. pose proof (len_nonneg (mcontent c')).
  unfold MultiBuffer.Len. rewrite MultiBuffer.Len_loop_spec by (done || lia). rewrite take_ge; [done|]. unfold len in *. lia.
Qed.

Lemma metadata_others target s : engine s = None → SniffMetadata target (NewSniffer s) s = (Err ErrNoClue, waiting true true true, s).
Proof. intros He. unfold SniffMetadata, NewSniffer. rewrite He. done. Qed.

Lemma record_head minor hello : ∃ t, Tls.tls_record minor hello = x16 :: t.
Proof. by eexists. Qed.

(** The sniffers find the name in the first read or in the second. *)
Lemma sniffer_finds_tls h minor rest mb1 mb2 l en elapsed done_ target s :
  Tls.hello_ok h → wfs mb1 → wfs mb2 → mcontent mb1 ≠ [] → mcontent mb1 ++ mcontent mb2 = Tls.tls_record minor (Tls.hello_bytes h) ++ rest →
  len (mcontent mb1 ++ mcontent mb2) ≤ payloadCap → done_ 0%nat = None → done_ 1%nat = None → elapsed 0%nat < 200 → engine s = None →
  ∃ r', sniffer elapsed done_ target false Network_TCP (mkCached (mkSource ((mb1, None) :: (mb2, None) :: l) en) []) s = (Ok (RTls (Tls.h_name h)), r', s).
Proof.
  intros Hh Hw1 Hw2 Hne Heq Hl Hd0 Hd1 He Hen. unfold sniffer. rewrite metadata_others by done. cbn [reader src_next length]. set (rec := Tls.tls_record minor (Tls.hello_bytes h)) in *.
  destruct (record_head minor (Tls.hello_bytes h)) as [t Ht]. fold rec in Ht.
  destruct (mcontent mb1) as [|x p1] eqn:E1; [done|]. assert (x = x16) as -> by (rewrite Ht in Heq; cbn in Heq; congruence).
  cbn [content_loop]. rewrite Hd0. destruct (Cache_reads mb1 ((mb2, None) :: l) en []) as (c1 & -> & Wc1 & Ec1); [done..| |].
  { rewrite E1. change (mcontent []) with (@nil byte). cbn [app]. rewrite len_app in Hl. pose proof (len_nonneg (mcontent mb2)). lia. }
  rewrite E1 in *. change (mcontent [] ++ x16 :: p1) with (x16 :: p1) in *. rewrite decide_True by done.
  destruct (decide (length rec ≤ length (x16 :: p1))%nat) as [Hlong|Hshort].
  - assert (Hp1 : x16 :: p1 = rec ++ take (length (x16 :: p1) - length rec) rest).
    { apply (f_equal (take (length (x16 :: p1)))) in Heq. rewrite take_app_length in Heq. etrans; [exact Heq|]. rewrite take_app. f_equal. by apply take_ge. }
    destruct (sniff_found target true true true p1 s (Tls.h_name h)) as [ln Hs]; [rewrite Hp1; by apply Tls.tls_hello_sniffed|]. rewrite Hs. by eexists.
  - destruct (sniff_waits target true true true p1 s) as (a' & c' & Hs).
    { assert (Hp1 : x16 :: p1 = take (length (x16 :: p1)) rec).
      { apply (f_equal (take (length (x16 :: p1)))) in Heq. rewrite take_app_length in Heq. etrans; [exact Heq|]. by rewrite take_app_le by lia. }
      rewrite Hp1. apply (Tls.tls_hello_sniffed h minor [] Hh). fold rec. lia. }
    rewrite Hs, decide_True by done. rewrite decide_False by lia. cbn [content_loop]. rewrite Hd1.
    destruct (Cache_reads mb2 l en c1) as (c2 & Hc2 & _); [done..|by rewrite Ec1|]. rewrite Hc2, Ec1, Heq, Ht. cbn [app]. rewrite decide_True by done.
    destruct (sniff_found target a' c' false (t ++ rest) s (Tls.h_name h)) as [ln Hs2].
    { change (x16 :: t ++ rest) with ((x16 :: t) ++ rest). rewrite <- Ht. by apply Tls.tls_hello_sniffed. }
    rewrite Hs2. by eexists.
Qed.

(** C8: the rules see the sniffed name. A TLS connection to an address whose client hello arrives in the
    first read or the first two, cut anywhere, on an inbound that lets TLS override the
    destination: the dispatcher routes the session with the protocol [tls] and the name of the
    hello as its domain, to the same port; with [RouteOnly] the connection still goes to the
    address, without it to the name. *)
Theorem tls_hello_routed h minor rest mb1 mb2 l en elapsed done_ destination s c :
  Tls.hello_ok h → wfs mb1 → wfs mb2 → mcontent mb1 ≠ [] → mcontent mb1 ++ mcontent mb2 = Tls.tls_record minor (Tls.hello_bytes h) ++ rest →
  len (mcontent mb1 ++ mcontent mb2) ≤ payloadCap → done_ 0%nat = None → done_ 1%nat = None → elapsed 0%nat < 200 →
  d_Network destination = Network_TCP → ParseAddress (Tls.h_name h) = Some (domainAddress (Tls.h_name h)) →
  IsValid (ob_RouteTarget (ob_of s)) = false → ds_content s = Some c → Enabled (dc_Sniffing c) = true → MetadataOnly (dc_Sniffing c) = false →
  shouldOverride None (RTls (Tls.h_name h)) (dc_Sniffing c) destination = Ok true →
  ∃ r' s1,
    Dispatch elapsed done_ destination (mkCached (mkSource ((mb1, None) :: (mb2, None) :: l) en) []) None s = (let '(o, s2) := routedDispatch s1 in (o, r', s2)) ∧
    on_its_way s destination s1 ∧ GetTargetDomain (AsRoutingContext s1) = Ok (Tls.h_name h) ∧ GetProtocol (AsRoutingContext s1) = s2b "tls" ∧
    d_Address (ob_Target (ob_of s1)) = (if RouteOnly (dc_Sniffing c) then d_Address destination else Some (domainAddress (Tls.h_name h))).
Proof.
  intros Hh Hw1 Hw2 Hne Heq Hl Hd0 Hd1 He Hnet Hparse Hrt Hc Hon Hmo Hover. unfold Dispatch, IsValid. rewrite bool_decide_eq_true_2 by (by rewrite Hnet). cbn [negb]. unfold dispatch_sniffed.
  pose proof (prepare_way s destination) as Hway. assert (Hp : ds_content (prepare s destination) = Some c) by (unfold prepare; cbn [set_ob ds_content]; by rewrite Hc).
  rewrite Hp. change (default new_content (Some c)) with c. rewrite Hon, Hmo, Hnet. cbn [negb].
  destruct (sniffer_finds_tls h minor rest mb1 mb2 l en elapsed done_ (ob_Target (ob_of (prepare s destination))) (mkSt (default ∅ (dc_Attributes c)) None)
    Hh Hw1 Hw2 Hne Heq Hl Hd0 Hd1 He eq_refl) as [r' ->].
  set (s0 := set_content _ _). assert (Hw0 : on_its_way s destination s0) by exact Hway.
  unfold redirect. cbn [engine]. rewrite Hover. cbn [mbind go_bind ResultDomain]. rewrite Hparse.
  set (dest' := mkDestination _ _ _). change (protocol_of (RTls (Tls.h_name h))) with (s2b "tls"). rewrite !bool_decide_eq_true_2 by done. rewrite !andb_true_r.
  assert (Ho : ob_of s0 = mkOb destination destination (ob_RouteTarget (ob_of s)) (ob_Tag (ob_of s))) by apply (prepare_ob s destination).
  rewrite Ho. cbn [ob_OriginalTarget ob_Target ob_RouteTarget ob_Tag]. exists r'.
  destruct (RouteOnly (dc_Sniffing c)); (eexists; split; [reflexivity|]); unfold on_its_way, AsRoutingContext, GetTargetDomain; cbn [s_Outbound out_Target out_RouteTarget]; rewrite ob_set;
    cbn [ob_OriginalTarget ob_Target ob_RouteTarget]; unfold IsValid, dest'; cbn [d_Network d_Address d_Port]; rewrite !Hnet; (split; [by split; [apply Hway|]|]); [done|].
  unfold IsValid in Hrt. by rewrite Hrt.
Qed.
End dispatcher.

(** ** Examples *)

#[local] Existing Instance QuicExample.ops.
#[local] Instance no_domains : DomainMatcherOps unit := {| dm_Match _ _ := Ok []; dm_MatchAny _ _ := Ok false |}.

(** An inbound that lets TLS override the destination. *)
Definition w_content (routeOnly : bool) : DContent (D := unit) (T := list Prefix) :=
  mkDContent [] (mkSniffing None None [s2b "tls"] true false routeOnly) None false.
Definition w_session (routeOnly : bool) : DSession (D := unit) (T := list Prefix) := mkDSession None [] (Some (w_content routeOnly)).
Definition w_dest : Destination := TCPDestination (Some (ipv4Address [x01; x02; x03; x04])) 443.
Definition w_record : list byte := Tls.tls_record x01 (Tls.hello_bytes Tls.example_hello).
Definition w_part (lo n : nat) : mbuf := [Buffer.FromBytes (take n (drop lo w_record))].
Definition w_source : Source := mkSource [(w_part 0 20, None); (w_part 20 100, None)] EOF.
Definition w_pick (s : Session) : go (str * str) :=
  match GetTargetDomain s with Ok d => if decide (d = s2b "a.b") then Ok (s2b "out", []) else Err Sniff.ErrNoClue | _ => Panic end.
Definition w_manager : Manager := (AddHandler (λ _, None) (AddHandler (λ _, None) New (mkHandler 1 (s2b "direct"))).2 (mkHandler 2 (s2b "out"))).2.
Abbreviation w_Dispatch := (Dispatch (λ s, s) 0 (E := Holder) (Some w_pick) w_manager (λ _, 1) (λ _, None)).

Lemma w_parts_ok lo n : wfs (w_part lo n).
Proof.
  apply Forall_cons_2; [|done]. apply Buffer.wf_FromBytes. unfold len. rewrite length_take, length_drop. change (length w_record) with 68%nat. lia.
Qed.

Lemma sniffing_keeps_stream_witness : ∃ o r' s', w_Dispatch w_dest (mkCached w_source []) None (w_session true) = (o, r', s') ∧ drain 3 r' = w_record.
Proof.
  assert (Hc : clean w_source) by (repeat (apply Forall_cons_2; [split; [apply w_parts_ok|by intros [? [=]]]|]); done).
  destruct (w_Dispatch w_dest (mkCached w_source []) None (w_session true)) as [[o r'] s'] eqn:Ed. exists o, r', s'. split; [done|].
  etrans; [apply (sniffing_keeps_stream (λ s, s) 0 (Some w_pick) w_manager _ _ _ _ _ _ _ _ _ 3 Hc Ed); cbn; lia|by vm_compute].
Defined.

Lemma dispatch_obeys_router_witness : (w_Dispatch w_dest (mkCached w_source []) None (w_session true)).1.1 = Ok (Dispatched (mkHandler 2 (s2b "out"))) ∧
  ∃ s1, promised (D := unit) (T := list Prefix) (Some w_pick) w_manager [] s1 = Ok (Dispatched (mkHandler 2 (s2b "out"))).
Proof.
  assert (Ho : (Dispatch (λ _, []) 0 (E := Holder) (Some w_pick) w_manager (λ _, 1) (λ _, None) w_dest (mkCached w_source []) None (w_session true)).1.1 = Ok (Dispatched (mkHandler 2 (s2b "out")))) by (by vm_compute).
  split; [by vm_compute|]. destruct (Dispatch (λ _, []) 0 (Some w_pick) w_manager _ _ w_dest _ None (w_session true)) as [[o r'] s'] eqn:Ed. cbn in Ho. subst o.
  destruct (dispatch_obeys_router (λ _, []) 0 (Some w_pick) w_manager ltac:(by intros x; constructor) _ _ _ _ _ _ _ _ _ Ed) as (s1 & _ & Hp). by exists s1.
Defined.

Lemma tls_hello_routed_witness : ∃ r' s1,
  w_Dispatch w_dest (mkCached w_source []) None (w_session true) = (let '(o, s2) := routedDispatch (Some w_pick) w_manager s1 in (o, r', s2)) ∧
  GetTargetDomain (AsRoutingContext s1) = Ok (s2b "a.b") ∧ d_Address (ob_Target (ob_of s1)) = d_Address w_dest.
Proof.
  destruct (tls_hello_routed (λ s, s) 0 (E := Holder) (Some w_pick) w_manager Tls.example_hello x01 [] (w_part 0 20) (w_part 20 100) [] EOF (λ _, 1) (λ _, None) w_dest (w_session true) (w_content true))
    as (r' & s1 & W1 & _ & W3 & _ & W5); [apply Tls.example_fits|apply w_parts_ok..|done|by vm_compute|by vm_compute|done|done|done|done|by vm_compute|done|done|done|done|by vm_compute|].
  exists r', s1. split; [exact W1|]. split; [exact W3|exact W5].
Defined.

(** The sniffer of fake DNS with the others is never run on data: it is entered without a network,
    and [Sniff] skips what is not of the network of the connection. *)
Lemma then_others_skipped target network payload (s : St (E := Holder)) : network = Network_TCP ∨ network = Network_UDP →
  sniff_loop (λ s, s) 0 target network payload (mkEntry KFakeDNSThenOthers false Network_Unknown :: others) [] s = sniff_loop (λ s, s) 0 target network payload others [] s.
Proof. intros [-> | ->]; done. Qed.

(** A read that gives data together with an error: the data is in no later read. *)
Lemma cache_drops_last_data : ∃ src, src_bytes src = w_record ∧ drain 3 (Cache (mkCached src [])).2 = [].
Proof. exists (mkSource [(w_part 0 100, Some EOF)] EOF). split; by vm_compute. Qed.
