(* ===== verification/Socks.v ===== *)
(** * The SOCKS protocol

    Models [proxy/socks/protocol.go] with [HasAccount] of [config.go]: the handshakes of server
    (SOCKS 4, 4a and 5) and client, and the packets of UDP. A handshake is a program that reads
    and writes a connection: it can be run on a stream, and two of them can be run against each
    other, with a queue of bytes in each direction. Listening for UDP and the remote address are
    arguments. *)

From S2P Require Import Prelude Net Buf AddrCodec BufReader StrMatcher ProxyHeaders.
Import Buffer (content, wf).

#[local] Open Scope Z_scope.

(** ** Programs over a connection *)

(** [ReadN n k err]: read [n] bytes in full, or go on with the error; [Put bs k]: write all bytes. *)
Inductive Prog (A : Type) :=
| Ret (r : go A)
| ReadN (n : Z) (k : list byte → Prog A) (err : GoError → Prog A)
| Put (bs : list byte) (k : option GoError → Prog A).
Arguments Ret {A}. Arguments ReadN {A}. Arguments Put {A}.

Fixpoint pbind {A B} (p : Prog A) (f : A → Prog B) : Prog B :=
  match p with
  | Ret (Ok a) => f a
  | Ret (Err e) => Ret (Err e)
  | Ret Panic => Ret Panic
  | ReadN n k err => ReadN n (λ bs, pbind (k bs) f) (λ e, pbind (err e) f)
  | Put bs k => Put bs (λ e, pbind (k e) f)
  end.
#[export] Instance Prog_bind : MBind Prog := λ A B f p, pbind p f.
Definition ret {A} (a : A) : Prog A := Ret (Ok a).
Definition fail {A} (m : string) : Prog A := Ret (Err (ErrMsg m)).
Definition lift {A} (m : go A) : Prog A := Ret m.
(** Reading where an error gets a message, or is returned as it is. *)
Definition readFull (n : Z) (m : string) : Prog (list byte) := ReadN n ret (λ _, fail m).
Definition readAll (n : Z) : Prog (list byte) := ReadN n ret (λ e, Ret (Err e)).
(** [if err := write(...); err != nil { return err }], and a write whose error is not looked at. *)
Definition putOr (bs : list byte) : Prog unit := Put bs (λ e, match e with None => ret () | Some e => Ret (Err e) end).
Definition putIgnore (bs : list byte) : Prog unit := Put bs (λ _, ret ()).

(** [errors.New(m).Base(err)] for every error of a program. *)
Fixpoint with_message {A} (m : string) (p : Prog A) : Prog A :=
  match p with
  | Ret (Err _) => fail m
  | Ret r => Ret r
  | ReadN n k err => ReadN n (λ bs, with_message m (k bs)) (λ e, with_message m (err e))
  | Put bs k => Put bs (λ e, with_message m (k e))
  end.

(** A run on a stream, where the [i]th write may fail: the result, the stream, what was written and
    the number of writes. *)
Fixpoint exec {A} (wfail : nat → option GoError) (p : Prog A) (s : Stream) (i : nat) : go A * Stream * list byte * nat :=
  match p with
  | Ret r => (r, s, [], i)
  | ReadN n k err =>
      match read_full s n with
      | (bs, None, s) => exec wfail (k bs) s i
      | (_, Some e, s) => exec wfail (err e) s i
      end
  | Put bs k => let '(r, s, out, i) := exec wfail (k (wfail i)) s (S i) in (r, s, bs ++ out, i)
  end.

(** ** The wire *)

Definition socks5Version : byte := x05.
Definition socks4Version : byte := x04.
Definition cmdTCPConnect : byte := x01.
Definition cmdTCPBind : byte := x02.
Definition cmdUDPAssociate : byte := x03.
Definition cmdTorResolve : byte := xf0.
Definition cmdTorResolvePTR : byte := xf1.
Definition socks4RequestGranted : byte := x5a.
Definition socks4RequestRejected : byte := x5b.
Definition authNotRequired : byte := x00.
Definition authPassword : byte := x02.
Definition authNoMatchingMethod : byte := xff.
Definition statusSuccess : byte := x00.
Definition statusCmdNotSupport : byte := x07.
Definition AnyIP : Address := ipv4Address [x00; x00; x00; x00].

Inductive RequestCommand := RequestCommandTCP | RequestCommandUDP.
#[export] Instance RequestCommand_eq_dec : EqDecision RequestCommand.
Proof. solve_decision. Defined.
Record RequestHeader := mkRequest { Version : byte; Command : RequestCommand; User : option str; rq_Address : option Address; rq_Port : Port }.

Record ServerConfig := mkServerConfig { AuthPassword : bool; Accounts : option (gmap str str); UdpEnabled : bool; cfg_Address : option IPOrDomain }.
Record ServerSession := mkServerSession { config : ServerConfig; s_address : option Address; s_port : Port; s_localAddress : option Address }.

Definition HasAccount (c : ServerConfig) (username password : str) : bool :=
  match Accounts c with
  | None => false
  | Some m => match m !! username with Some stored => bool_decide (stored = password) | None => false end
  end.

Definition hasAuthMethod (expectedAuth : byte) (authCandidates : list byte) : bool := existsb (λ a, bool_decide (a = expectedAuth)) authCandidates.

Section socks.
Context (pooled : list byte).

(** [common.Must2(b.Write(bs))]. *)
Definition must_write (b : Buffer.t) (bs : list byte) : go Buffer.t := match write_or b bs with Ok b => Ok b | _ => Panic end.

Definition socks5_response (errCode : byte) (address : option Address) (port : Port) : go (list byte) :=
  b ← must_write (Buffer.New pooled) [socks5Version; errCode; x00];
  b ← write_dest socksParser b address port;
  Buffer.Bytes b.
Definition writeSocks5Response (errCode : byte) (address : option Address) (port : Port) : Prog unit := bs ← lift (socks5_response errCode address port); putOr bs.
(** Where the error is not looked at; the address is [AnyIP]. *)
Definition rejectSocks5 (errCode : byte) : Prog unit :=
  match socks5_response errCode (Some AnyIP) 0 with Ok bs => putIgnore bs | Err _ => ret () | Panic => Ret Panic end.
Definition socks4_response (errCode : byte) : list byte := [x00; errCode] ++ put_be16 0 ++ [x00; x00; x00; x00].
Definition writeSocks5AuthenticationResponse (version auth : byte) : list byte := [version; auth].

(** [ReadUntilNull]: [n] is the room of the buffer. *)
Fixpoint ReadUntilNull (n : nat) (acc : list byte) : Prog str :=
  match n with
  | O => fail "buffer overrun"
  | S n =>
      bs ← readAll 1;
      c ← lift (ok_or_panic (head bs));
      if decide (c = x00) then ret acc else ReadUntilNull n (acc ++ [c])
  end.
Definition bufSize : nat := Z.to_nat 8192.

Definition ReadUsernamePassword : Prog (str * str) :=
  b ← readAll 2;
  nUsername ← lift (ok_or_panic (index b 1));
  username ← readAll (byte_to_Z nUsername);
  b ← readAll 1;
  nPassword ← lift (ok_or_panic (index b 0));
  password ← readAll (byte_to_Z nPassword);
  ret (username, password).

(** [ReadAddressPort] of the address parser with an empty buffer, as a program. [tb] is the byte of
    the type, which is in the buffer: [BytesFrom(-0)] is the whole buffer. *)
Definition read_domain (tb : list byte) : Prog (option Address) :=
  lb ← readAll 1;
  l ← lift (ok_or_panic (head lb));
  bs ← readAll (byte_to_Z l);
  let domain := if decide (byte_to_Z l = 0) then tb ++ lb else bs in
  c ← lift (ok_or_panic (index domain 0));
  match (if maybeIPPrefix c then ParseAddress domain else Some (DomainAddress domain)) with
  | None => Ret Panic
  | Some a =>
      if IsIP (Family a) then ret (Some a)
      else if negb (isValidDomain domain) then fail "invalid domain name: "
      else ret (Some (DomainAddress domain))
  end.
Definition read_family (tb : list byte) (addrFamily : Z) : Prog (option Address) :=
  if decide (addrFamily = afInvalid) then fail "unknown address type: "
  else if decide (addrFamily = AddressFamilyIPv4) then ip ← readAll 4; ret (IPAddress ip)
  else if decide (addrFamily = AddressFamilyIPv6) then ip ← readAll 16; ret (IPAddress ip)
  else if decide (addrFamily = AddressFamilyDomain) then read_domain tb
  else Ret Panic.
Definition read_address : Prog (option Address) :=
  tb ← readAll 1;
  t ← lift (ok_or_panic (head tb));
  if decide (16 ≤ byte_to_Z t) then fail "unknown address type: "
  else
    addrFamily ← lift (ok_or_panic (index (addrTypeMap (the_parser socksParser)) (byte_to_Z t)));
    read_family tb addrFamily.
Definition read_address_port : Prog (option Address * Port) :=
  a ← read_address;
  bs ← readAll 2;
  p ← lift (PortFromBytes bs);
  ret (a, p).

(** ** The server *)

(** [internet.ListenSystemPacket] on an address: the port; the remote end of the connection. *)
Context (ListenSystemPacket : list byte → go Port) (RemoteIP : list byte).

(** What [NewTempUDPConn] gets: the port of the hub and the expected remote. *)
Record TempUDPConn := mkTempUDPConn { udp_port : Port; expected_IP : list byte; expected_Port : Port }.

Definition handshake4 (s : ServerSession) (cmd : byte) : Prog RequestHeader :=
  if AuthPassword (config s) then
    _ ← putIgnore (socks4_response socks4RequestRejected); fail "socks 4 is not allowed when auth is required."
  else
    b ← readFull 6 "insufficient header";
    port ← lift (PortFromBytes (take 2 b));
    let address := IPAddress (drop 2 b) in
    _ ← ReadUntilNull bufSize [];
    a ← lift (ok_or_panic address);
    ip ← lift (IP a);
    c ← lift (ok_or_panic (index ip 0));
    address ← (if decide (c = x00) then
                 domain ← with_message "failed to read domain for socks 4a" (ReadUntilNull bufSize []);
                 ret (ParseAddress domain)
               else ret address);
    if decide (cmd = cmdTCPConnect) then
      _ ← putOr (socks4_response socks4RequestGranted);
      ret (mkRequest socks4Version RequestCommandTCP None address port)
    else
      _ ← putIgnore (socks4_response socks4RequestRejected); fail "unsupported command: ".

Definition check_account (s : ServerSession) : Prog str :=
  '(username, password) ← with_message "failed to read username and password for authentication" ReadUsernamePassword;
  if negb (HasAccount (config s) username password) then
    _ ← putIgnore (writeSocks5AuthenticationResponse x01 xff); fail "invalid username or password"
  else
    _ ← with_message "failed to write auth response" (putOr (writeSocks5AuthenticationResponse x01 x00));
    ret username.

Definition auth5 (s : ServerSession) (nMethod : byte) : Prog str :=
  methods ← readFull (byte_to_Z nMethod) "failed to read auth methods";
  let expectedAuth := if AuthPassword (config s) then authPassword else authNotRequired in
  if negb (hasAuthMethod expectedAuth methods) then
    _ ← putIgnore (writeSocks5AuthenticationResponse socks5Version authNoMatchingMethod); fail "no matching auth method"
  else
    _ ← with_message "failed to write auth response" (putOr (writeSocks5AuthenticationResponse socks5Version expectedAuth));
    if decide (expectedAuth = authPassword) then check_account s else ret [].

(** The command of a request, or what is answered to one that is not supported. *)
Definition read_command (s : ServerSession) (cmd : byte) : Prog RequestCommand :=
  if decide (cmd = cmdTCPConnect ∨ cmd = cmdTorResolve ∨ cmd = cmdTorResolvePTR) then ret RequestCommandTCP
  else if decide (cmd = cmdUDPAssociate) then
    if negb (UdpEnabled (config s)) then _ ← rejectSocks5 statusCmdNotSupport; fail "UDP is not enabled."
    else ret RequestCommandUDP
  else if decide (cmd = cmdTCPBind) then _ ← rejectSocks5 statusCmdNotSupport; fail "TCP bind is not supported."
  else _ ← rejectSocks5 statusCmdNotSupport; fail "unknown command ".

(** [net.IP.IsUnspecified]. *)
Definition IsUnspecified (ip : list byte) : bool := bool_decide (ip = replicate 4 x00 ∨ ip = replicate 16 x00).

(** The hub for UDP: the address and port of the response, and the connection. *)
Definition udp_hub (s : ServerSession) (addr : option Address) (port : Port) : go (option Address * Port * TempUDPConn) :=
  responseAddress ← match cfg_Address (config s) with Some a => AsAddress (Some a) | None => Ok (s_localAddress s) end;
  ra ← ok_or_panic responseAddress;
  ip ← IP ra;
  responsePort ← match ListenSystemPacket ip with Ok p => Ok p | Err _ => Err (ErrMsg "failed to create UDP listener") | Panic => Panic end;
  a ← ok_or_panic addr;
  expected ← (if IsDomain (Family a) then Ok (RemoteIP, 0)
              else i ← IP a; Ok (if IsUnspecified i then (RemoteIP, 0) else (i, port)));
  Ok (responseAddress, responsePort, mkTempUDPConn responsePort expected.1 expected.2).

(** [handshake5] after [auth5]. *)
Definition serve_request (s : ServerSession) (username : str) : Prog (RequestHeader * option TempUDPConn) :=
  b ← readFull 3 "failed to read request";
  cmd ← lift (ok_or_panic (index b 1));
  command ← read_command s cmd;
  '(addr, port) ← with_message "failed to read address" read_address_port;
  let request := mkRequest socks5Version command (if decide (username ≠ []) then Some username else None) addr port in
  '(responseAddress, responsePort, temp) ←
    (if decide (command = RequestCommandUDP) then '(ra, rp, t) ← lift (udp_hub s addr port); ret (ra, rp, Some t)
     else ret (s_address s, s_port s, None));
  _ ← writeSocks5Response statusSuccess responseAddress responsePort;
  ret (request, temp).

Definition handshake5 (s : ServerSession) (nMethod : byte) : Prog (RequestHeader * option TempUDPConn) :=
  username ← auth5 s nMethod; serve_request s username.

Definition Handshake (s : ServerSession) : Prog (RequestHeader * option TempUDPConn) :=
  b ← readFull 2 "insufficient header";
  version ← lift (ok_or_panic (index b 0));
  cmd ← lift (ok_or_panic (index b 1));
  if decide (version = socks4Version) then h ← handshake4 s cmd; ret (h, None)
  else if decide (version = socks5Version) then handshake5 s cmd
  else fail "unknown Socks version: ".

(** ** The client *)

Record Account := mkAccount { Username : str; Password : str }.
(** A request of the client: the account of its user, if it has one. *)
Record ClientRequest := mkClientRequest { c_User : option Account; c_Command : RequestCommand; c_Address : option Address; c_Port : Port }.

Definition account_message (a : Account) : go (list byte) :=
  b ← must_write (Buffer.New pooled) [x01];
  b ← must_write b [byte_of_Z (len (Username a))];
  b ← must_write b (Username a);
  b ← must_write b [byte_of_Z (len (Password a))];
  b ← must_write b (Password a);
  Buffer.Bytes b.

Definition request_message (r : ClientRequest) : go (list byte) :=
  let udp := bool_decide (c_Command r = RequestCommandUDP) in
  let command := if udp then cmdUDPAssociate else cmdTCPConnect in
  b ← must_write (Buffer.New pooled) [socks5Version; command; x00];
  b ← (if udp then must_write b [x01; x00; x00; x00; x00; x00; x00] else write_dest socksParser b (c_Address r) (c_Port r));
  Buffer.Bytes b.

(** The parts of [ClientHandshake], the last first: the response, the request, the account, the
    method. *)
Definition client_response (r : ClientRequest) : Prog (option RequestHeader) :=
  b ← readAll 3;
  resp ← lift (ok_or_panic (index b 1));
  if decide (resp ≠ x00) then fail "server rejects request: "
  else
    '(address, port) ← read_address_port;
    if decide (c_Command r = RequestCommandUDP) then ret (Some (mkRequest socks5Version RequestCommandUDP None address port)) else ret None.
Definition client_request (r : ClientRequest) : Prog (option RequestHeader) :=
  bs ← lift (request_message r); _ ← putOr bs; client_response r.
Definition account_response (r : ClientRequest) : Prog (option RequestHeader) :=
  b ← readAll 2;
  status ← lift (ok_or_panic (index b 1));
  if decide (status ≠ x00) then fail "server rejects account: " else client_request r.
Definition client_account (r : ClientRequest) (a : Account) : Prog (option RequestHeader) :=
  bs ← lift (account_message a); _ ← putOr bs; account_response r.
Definition auth_byte (r : ClientRequest) : byte := match c_User r with Some _ => authPassword | None => authNotRequired end.
Definition client_method (r : ClientRequest) : Prog (option RequestHeader) :=
  b ← readAll 2;
  version ← lift (ok_or_panic (index b 0));
  if decide (version ≠ socks5Version) then fail "unexpected server version: "
  else
    method ← lift (ok_or_panic (index b 1));
    if decide (method ≠ auth_byte r) then fail "auth method not supported."
    else match c_User r with Some a => client_account r a | None => client_request r end.
Definition ClientHandshake (r : ClientRequest) : Prog (option RequestHeader) :=
  _ ← putOr [socks5Version; x01; auth_byte r]; client_method r.

(** ** UDP packets *)

(** The request, and the packet less its header. *)
Definition DecodeUDPPacket (packet : Buffer.t) : go (RequestHeader * Buffer.t) :=
  if decide (Buffer.Len packet < 5) then Err (ErrMsg "insufficient length of packet.")
  else
    frag ← Buffer.Byte packet 2;
    if decide (frag ≠ x00) then Err (ErrMsg "discarding fragmented payload.")
    else
      let packet := Buffer.Advance packet 3 in
      data ← Buffer.Bytes packet;
      match ReadAddressPort pooled socksParser None (mkStream data EOF) with
      | Ok (_, s, addr, port) =>
          Ok (mkRequest socks5Version RequestCommandUDP None addr port, Buffer.Advance packet (len data - len (sdata s)))
      | Err _ => Err (ErrMsg "failed to read UDP header")
      | Panic => Panic
      end.

Definition EncodeUDPPacket (address : option Address) (port : Port) (data : list byte) : go Buffer.t :=
  b ← must_write (Buffer.New pooled) [x00; x00; x00];
  b ← write_dest socksParser b address port;
  if decide (Buffer.Available b < len data) then Ok (Buffer.Clear b) else must_write b data.

(** [UDPReader]: the packet with its destination. *)
Definition UDPReader_ReadMultiBuffer (c : Conn) : go (mbuf * option GoError * Conn) :=
  '(buffer, _, err, c) ← ReadFrom_conn (Buffer.New pooled) c;
  match err with
  | Some e => Ok ([], Some e, c)
  | None =>
      match DecodeUDPPacket buffer with
      | Ok (u, buffer) => Ok ([Buffer.set_UDP buffer (Some (UDPDestination (rq_Address u) (rq_Port u)))], None, c)
      | Err e => Ok ([], Some e, c)
      | Panic => Panic
      end
  end.

(** [UDPWriter]: the packets written. *)
Fixpoint UDPWriter_WriteMultiBuffer (address : option Address) (port : Port) (mb : mbuf) : go (list (list byte)) :=
  match mb with
  | [] => Ok []
  | b :: mb =>
      let '(address', port') := match Buffer.UDP b with Some d => (d_Address d, d_Port d) | None => (address, port) end in
      bs ← Buffer.Bytes b;
      packet ← EncodeUDPPacket address' port' bs;
      p ← Buffer.Bytes packet;
      ps ← UDPWriter_WriteMultiBuffer address port mb;
      Ok (p :: ps)
  end.
End socks.

(** ** Two programs on one connection *)

(** One step of a program with the bytes [q] that have come: it writes, or reads when all bytes it
    wants are there. The program after it, the bytes left and what it wrote. *)
Definition pstep {A} (p : Prog A) (q : list byte) : option (Prog A * list byte * list byte) :=
  match p with
  | Ret _ => None
  | Put bs k => Some (k None, q, bs)
  | ReadN n k _ => if decide (n ≤ len q) then Some (k (take (Z.to_nat n) q), drop (Z.to_nat n) q, []) else None
  end.

Lemma pstep_more {A} (p : Prog A) q p' q' out x : pstep p q = Some (p', q', out) → pstep p (q ++ x) = Some (p', q' ++ x, out).
Proof.
  destruct p as [r|n k err|bs k]; cbn; [done| |by intros [= <- <- <-]]. destruct (decide (n ≤ len q)) as [Hn|]; [|done]. intros [= <- <- <-].
  rewrite decide_True by (rewrite len_app; pose proof (len_nonneg x); lia). unfold len in Hn. by rewrite take_app_le, drop_app_le by lia.
Qed.

Section duel.
Context {A B : Type}.
Record Duel := mkDuel { client : Prog A; server : Prog B; to_server : list byte; to_client : list byte }.

Inductive dstep : Duel → Duel → Prop :=
| client_step c s ts tc c' tc' out : pstep c tc = Some (c', tc', out) → dstep (mkDuel c s ts tc) (mkDuel c' s (ts ++ out) tc')
| server_step c s ts tc s' ts' out : pstep s ts = Some (s', ts', out) → dstep (mkDuel c s ts tc) (mkDuel c s' ts' (tc ++ out)).

(** Every run from [x] is finite and ends in [z]. *)
Inductive ends : Duel → Duel → Prop :=
| ends_here z : nf dstep z → ends z z
| ends_next x z : red dstep x → (∀ y, dstep x y → ends y z) → ends x z.

(** The sides do not disturb each other: what one may do it may still do after a step of the other. *)
Lemma dstep_diamond x y z : dstep x y → dstep x z → y = z ∨ ∃ w, dstep y w ∧ dstep z w.
Proof.
  intros [c s ts tc c1 tc1 o1 H1|c s ts tc s1 ts1 o1 H1] H2; inversion H2 as [? ? ? ? c2 tc2 o2 H2'|? ? ? ? s2 ts2 o2 H2']; subst.
  - left. congruence.
  - right. eexists. split; [apply server_step, (pstep_more _ _ _ _ _ o1 H2')|apply client_step, (pstep_more _ _ _ _ _ o2 H1)].
  - right. eexists. split; [apply client_step, (pstep_more _ _ _ _ _ o1 H2')|apply server_step, (pstep_more _ _ _ _ _ o2 H1)].
  - left. congruence.
Qed.

Lemma nsteps_next n x z : nsteps dstep n x z → nf dstep z → ∀ y, dstep x y → ∃ m, n = S m ∧ nsteps dstep m y z.
Proof.
  revert x. induction n as [n IH] using lt_wf_ind. intros x Hn Hz y Hy. destruct Hn as [x|m x x1 z Hx1 Hm]; [by destruct Hz; exists y|].
  exists m. split; [done|]. destruct (dstep_diamond x y x1 Hy Hx1) as [->|(w & Hw1 & Hw2)]; [done|].
  destruct (IH m ltac:(lia) x1 Hm Hz w Hw2) as (m' & -> & Hw). by econstructor.
Qed.

(** One run to the end is enough: all runs end there. *)
Lemma run_ends x z : rtc dstep x z → nf dstep z → ends x z.
Proof.
  intros [n Hn]%rtc_nsteps_1 Hz. revert x Hn. induction n as [|n IH]; intros x Hn.
  - inversion Hn; subst. by apply ends_here.
  - inversion Hn as [|? ? x1 ? Hx1 Hm]; subst. apply ends_next; [by exists x1|]. intros y Hy.
    destruct (nsteps_next _ _ _ Hn Hz y Hy) as (m & [= <-] & Hm'). by apply IH.
Qed.
End duel.

(** ** Running one side as far as it gets *)

Fixpoint advance {A} (p : Prog A) (q : list byte) : Prog A * list byte * list byte :=
  match p with
  | Ret _ => (p, q, [])
  | Put bs k => let '(p, q, out) := advance (k None) q in (p, q, bs ++ out)
  | ReadN n k _ => if decide (n ≤ len q) then advance (k (take (Z.to_nat n) q)) (drop (Z.to_nat n) q) else (p, q, [])
  end.

Lemma client_advances {A B} (c : Prog A) (s : Prog B) ts tc c' tc' out : advance c tc = (c', tc', out) →
  rtc dstep (mkDuel c s ts tc) (mkDuel c' s (ts ++ out) tc').
Proof.
  revert ts tc out. induction c as [r|n k IHk err _|bs k IH]; intros ts tc out; cbn [advance].
  - intros [= <- <- <-]. by rewrite app_nil_r.
  - destruct (decide (n ≤ len tc)) as [Hn|]; [|intros [= <- <- <-]; by rewrite app_nil_r]. intros Ha. eapply rtc_l; [|by apply IHk].
    rewrite <- (app_nil_r ts) at 2. apply client_step. cbn. by rewrite decide_True.
  - destruct (advance (k None) tc) as [[p q] o] eqn:Ea. intros [= <- <- <-]. eapply rtc_l; [by apply client_step|]. rewrite app_assoc. by apply IH.
Qed.
Lemma server_advances {A B} (c : Prog A) (s : Prog B) ts tc s' ts' out : advance s ts = (s', ts', out) →
  rtc dstep (mkDuel c s ts tc) (mkDuel c s' ts' (tc ++ out)).
Proof.
  revert ts tc out. induction s as [r|n k IHk err _|bs k IH]; intros ts tc out; cbn [advance].
  - intros [= <- <- <-]. by rewrite app_nil_r.
  - destruct (decide (n ≤ len ts)) as [Hn|]; [|intros [= <- <- <-]; by rewrite app_nil_r]. intros Ha. eapply rtc_l; [|by apply IHk].
    rewrite <- (app_nil_r tc) at 2. apply server_step. cbn. by rewrite decide_True.
  - destruct (advance (k None) ts) as [[p q] o] eqn:Ea. intros [= <- <- <-]. eapply rtc_l; [by apply server_step|]. rewrite app_assoc. by apply IH.
Qed.

(** A program that is done with these bytes: its value, the bytes left, what it wrote. *)
Fixpoint feed {A} (p : Prog A) (q : list byte) : option (A * list byte * list byte) :=
  match p with
  | Ret (Ok a) => Some (a, q, [])
  | Ret _ => None
  | Put bs k => match feed (k None) q with Some (a, q, out) => Some (a, q, bs ++ out) | None => None end
  | ReadN n k _ => if decide (n ≤ len q) then feed (k (take (Z.to_nat n) q)) (drop (Z.to_nat n) q) else None
  end.

Lemma advance_bind {A B} (p : Prog A) (f : A → Prog B) q a q' out : feed p q = Some (a, q', out) →
  advance (p ≫= f) q = (let '(r, q'', o) := advance (f a) q' in (r, q'', out ++ o)).
Proof.
  revert q out. induction p as [r|n k IHk err _|bs k IH]; intros q out; cbn.
  - destruct r; try done. intros [= <- <- <-]. by destruct (advance (f a0) q) as [[? ?] ?].
  - destruct (decide (n ≤ len q)); [|done]. apply IHk.
  - destruct (feed (k None) q) as [[[a' q1] o1]|] eqn:Ef; [|done]. intros [= <- <- <-].
    specialize (IH None q o1 Ef). unfold mbind, Prog_bind in IH. rewrite IH. destruct (advance (f a') q1) as [[? ?] ?]. by rewrite app_assoc.
Qed.

Lemma advance_bind2 {A B C} (p : Prog A) (f : A → Prog B) (g : B → Prog C) q a q' out : feed p q = Some (a, q', out) →
  advance ((p ≫= f) ≫= g) q = (let '(r, q'', o) := advance (f a ≫= g) q' in (r, q'', out ++ o)).
Proof.
  revert q out. induction p as [r|n k IHk err _|bs k IH]; intros q out; cbn.
  - destruct r; try done. intros [= <- <- <-]. unfold mbind, Prog_bind. by destruct (advance (pbind (f a0) g) q) as [[? ?] ?].
  - destruct (decide (n ≤ len q)); [|done]. apply IHk.
  - destruct (feed (k None) q) as [[[a' q1] o1]|] eqn:Ef; [|done]. intros [= <- <- <-].
    specialize (IH None q o1 Ef). unfold mbind, Prog_bind in IH |- *. rewrite IH. destruct (advance (pbind (f a') g) q1) as [[? ?] ?]. by rewrite app_assoc.
Qed.

Lemma feed_bind {A B} (p : Prog A) (f : A → Prog B) q a q' out : feed p q = Some (a, q', out) →
  feed (p ≫= f) q = match feed (f a) q' with Some (b, q'', o) => Some (b, q'', out ++ o) | None => None end.
Proof.
  revert q out. induction p as [r|n k IHk err _|bs k IH]; intros q out; cbn.
  - destruct r; try done. intros [= <- <- <-]. by destruct (feed (f a0) q) as [[[? ?] ?]|].
  - destruct (decide (n ≤ len q)); [|done]. apply IHk.
  - destruct (feed (k None) q) as [[[a' q1] o1]|] eqn:Ef; [|done]. intros [= <- <- <-].
    specialize (IH None q o1 Ef). unfold mbind, Prog_bind in IH. rewrite IH. destruct (feed (f a') q1) as [[[? ?] ?]|]; [|done]. by rewrite app_assoc.
Qed.

Lemma feed_readAll n x rest : len x = n → feed (readAll n) (x ++ rest) = Some (x, rest, []).
Proof.
  intros <-. cbn. rewrite decide_True by (rewrite len_app; pose proof (len_nonneg rest); lia). by rewrite to_nat_len, take_app_length, drop_app_length.
Qed.
Lemma feed_readFull n x rest m : len x = n → feed (readFull n m) (x ++ rest) = Some (x, rest, []).
Proof.
  intros <-. cbn. rewrite decide_True by (rewrite len_app; pose proof (len_nonneg rest); lia). by rewrite to_nat_len, take_app_length, drop_app_length.
Qed.
Lemma feed_message {A} m (p : Prog A) q r : feed p q = Some r → feed (with_message m p) q = Some r.
Proof.
  revert q r. induction p as [[| |]|n k IHk err _|bs k IH]; intros q r; cbn; try done.
  - destruct (decide (n ≤ len q)); [|done]. apply IHk.
  - destruct (feed (k None) q) as [[[a q1] o1]|] eqn:Ef; [|done]. intros [= <-]. by rewrite (IH _ _ _ Ef).
Qed.

(** ** Addresses on the wire *)

Definition fam_byte (a : Address) : Z := match a with ipv4Address _ => 1 | ipv6Address _ => 4 | domainAddress _ => 3 end.
Definition wire (a : Address) (port : Port) : list byte := enc_address (fam_byte a) a ++ put_be16 port.

Lemma dest_written (b : Buffer.t) a port n : encodable a → is_u16 port → 0 ≤ n → fits b (259 + n) →
  ∃ b', write_dest socksParser b (Some a) port = Ok b' ∧ output b' = output b ++ wire a port ∧ fits b' n.
Proof.
  intros Ha Hp Hn Hf. unfold write_dest, socksParser, WriteAddressPort. set (ap := mkAddressParser _ _ _).
  pose proof (enc_size_bound a Ha) as Hsz.
  destruct (writeAddress_spec ap b a (fam_byte a) (2 + n) Ha) as (b1 & -> & Ho1 & Hf1); [by destruct a|destruct a; cbn; lia|lia|eapply fits_le; [exact Hf|lia]|].
  cbn [mbind go_bind]. unfold writePort. destruct (write_or_fits b1 (put_be16 port) n Hn Hf1) as (b2 & -> & Ho2 & Hf2).
  exists b2. split; [done|]. split; [|done]. unfold wire. by rewrite Ho2, Ho1, app_assoc.
Qed.

Lemma feed_domain tb d rest : domain_ok d → feed (read_domain tb) (byte_of_Z (len d) :: d ++ rest) = Some (Some (domainAddress d), rest, []).
Proof.
  intros (Hlen & Hval & Hhd). unfold read_domain. change (byte_of_Z (len d) :: d ++ rest) with ([byte_of_Z (len d)] ++ d ++ rest).
  rewrite (feed_bind _ _ _ _ _ _ (feed_readAll 1 [byte_of_Z (len d)] (d ++ rest) eq_refl)).
  cbn [head ok_or_panic lift mbind Prog_bind pbind].
  rewrite !byte_to_of_Z_small by (unfold is_u8; lia). rewrite (feed_bind _ _ _ _ _ _ (feed_readAll (len d) d rest eq_refl)). cbv beta zeta. rewrite decide_False by lia.
  destruct d as [|c d]; [cbn in Hlen; lia|]. change (index (c :: d) 0) with (Some c). cbn [ok_or_panic lift mbind Prog_bind pbind].
  destruct (maybeIPPrefix c).
  - destruct (Hhd eq_refl) as [d' ->]. change (IsIP (Family (domainAddress d'))) with false. by rewrite Hval.
  - change (IsIP (Family (DomainAddress (c :: d)))) with false. by rewrite Hval.
Qed.

Lemma feed_address a rest : encodable a → feed read_address (enc_address (fam_byte a) a ++ rest) = Some (Some a, rest, []).
Proof.
  intros [Hwf Hdom].
  assert (Hfam : ∀ t x fam, byte_to_Z t < 16 → index (addrTypeMap (the_parser socksParser)) (byte_to_Z t) = Some fam →
    feed read_address (t :: x) = feed (read_family [t] fam) x).
  { intros t x fam Ht Hi. unfold read_address. change (t :: x) with ([t] ++ x). rewrite (feed_bind _ _ _ _ _ _ (feed_readAll 1 [t] x eq_refl)).
    cbn [head ok_or_panic lift mbind Prog_bind pbind]. rewrite decide_False by lia. rewrite Hi. cbn [ok_or_panic pbind]. by destruct (feed _ _) as [[[? ?] ?]|]. }
  destruct a as [l|l|d]; cbn [fam_byte enc_address app].
  - rewrite (Hfam (byte_of_Z 1) _ 0) by done. change (read_family [byte_of_Z 1] 0) with (ip ← readAll 4; ret (IPAddress ip)).
    rewrite (feed_bind _ _ _ _ _ _ (feed_readAll 4 l rest ltac:(unfold len; cbn in Hwf; lia))). cbn. by rewrite (IPAddress_IP (ipv4Address l) l Hwf eq_refl).
  - rewrite (Hfam (byte_of_Z 4) _ 1) by done. change (read_family [byte_of_Z 4] 1) with (ip ← readAll 16; ret (IPAddress ip)).
    rewrite (feed_bind _ _ _ _ _ _ (feed_readAll 16 l rest ltac:(unfold len; cbn in Hwf; lia))). cbn -[IPAddress]. by rewrite (IPAddress_IP (ipv6Address l) l Hwf eq_refl).
  - rewrite (Hfam (byte_of_Z 3) _ 2) by done. change (read_family [byte_of_Z 3] 2) with (read_domain [byte_of_Z 3]). by apply feed_domain.
Qed.

Lemma feed_address_port a port rest : encodable a → is_u16 port → feed read_address_port (wire a port ++ rest) = Some ((Some a, port), rest, []).
Proof.
  intros Ha Hp. unfold read_address_port, wire. rewrite <- app_assoc. rewrite (feed_bind _ _ _ _ _ _ (feed_address a (put_be16 port ++ rest) Ha)).
  rewrite (feed_bind _ _ _ _ _ _ (feed_readAll 2 (put_be16 port) rest eq_refl)). unfold PortFromBytes. rewrite <- (app_nil_r (put_be16 port)), be16_put by done. done.
Qed.

Lemma exec_bind {A B} wfail (p : Prog A) (f : A → Prog B) s i : exec wfail (p ≫= f) s i =
  match exec wfail p s i with
  | (Ok a, s, o, j) => let '(r, s, o', k) := exec wfail (f a) s j in (r, s, o ++ o', k)
  | (Err e, s, o, j) => (Err e, s, o, j)
  | (Panic, s, o, j) => (Panic, s, o, j)
  end.
Proof.
  revert s i. induction p as [[a|e|]|n k IHk err IHe|bs k IH]; intros s i; cbn; try done.
  - by destruct (exec wfail (f a) s i) as [[[? ?] ?] ?].
  - destruct (read_full s n) as [[b [e|]] s']; [apply IHe|apply IHk].
  - specialize (IH (wfail i) s (S i)). unfold mbind, Prog_bind in IH. rewrite IH. destruct (exec wfail (k (wfail i)) s (S i)) as [[[[a|e|] s'] o] j]; try done.
    destruct (exec wfail (f a) s' j) as [[[? ?] ?] ?]. by rewrite app_assoc.
Qed.

(** *** The program reads what the codec reads *)

Lemma read_or_full b r n : wf b → 0 ≤ n ≤ Buffer.room b →
  match read_full r n with
  | (bs, None, r') => ∃ b', read_or b r n = Ok (b', r') ∧ wf b' ∧ content b' = content b ++ bs ∧ Buffer.room b' = Buffer.room b - n ∧ len bs = n
  | (_, Some e, _) => read_or b r n = Err e
  end.
Proof.
  intros Hb Hn. destruct (Buffer.ReadFullFrom_spec b r n Hb Hn) as (b' & Er & Hb' & Hc & Hr & _). unfold read_or. rewrite Er. cbn [mbind go_bind].
  destruct (read_full r n) as [[bs [e|]] r'] eqn:Ef; cbn [fst snd] in *; [done|]. exists b'.
  assert (Hl : len bs = n).
  { unfold read_full in Ef. destruct (decide (n ≤ len (sdata r))); [|done]. injection Ef as <- _. unfold len in *. rewrite length_take. lia. }
  split; [done|]. split; [done|]. split; [done|]. split; [lia|done].
Qed.

(** [exec] of a program that only reads, as an outcome of the codec. *)
Definition reads {A} (p : Prog A) (r : Stream) : go (A * Stream) :=
  match exec (λ _, None) p r 0 with (Ok a, r, _, _) => Ok (a, r) | (Err e, _, _, _) => Err e | (Panic, _, _, _) => Panic end.

Lemma reads_full {A} n (f : list byte → Prog A) r : reads (readAll n ≫= f) r =
  match read_full r n with (bs, None, r') => reads (f bs) r' | (_, Some e, _) => Err e end.
Proof. unfold reads. cbn. by destruct (read_full r n) as [[bs [e|]] r']. Qed.

Lemma reads_bind {A B} (p : Prog A) (f : A → Prog B) r : (∀ st i, (exec (λ _, None) p st i).2 = i) → reads (p ≫= f) r = ('(a, r) ← reads p r; reads (f a) r).
Proof.
  intros Hi. unfold reads. rewrite exec_bind. pose proof (Hi r 0%nat) as H0. destruct (exec _ p r 0) as [[[[a|e|] r1] o] j]; cbn in H0; try done. subst j. cbn.
  by destruct (exec (λ _, None) (f a) r1 0) as [[[[b|e|] r2] o2] j2].
Qed.
(** The result of the codec, and of the program. *)
Definition agrees (m : go (Buffer.t * Stream * option Address)) (x : go (option Address * Stream)) : Prop :=
  match m with
  | Ok (b, r, a) => x = Ok (a, r) ∧ wf b ∧ 2 ≤ Buffer.room b
  | Err e => x = Err e
  | Panic => x = Panic
  end.

Lemma agrees_read b r n (f : Buffer.t → Stream → go (Buffer.t * Stream * option Address)) (g : list byte → Prog (option Address)) :
  wf b → 0 ≤ n ≤ Buffer.room b →
  (∀ b' bs r', wf b' → content b' = content b ++ bs → Buffer.room b' = Buffer.room b - n → len bs = n → agrees (f b' r') (reads (g bs) r')) →
  agrees ('(b, r) ← read_or b r n; f b r) (reads (readAll n ≫= g) r).
Proof.
  intros Hb Hn Hf. rewrite reads_full. pose proof (read_or_full b r n Hb Hn) as H. destruct (read_full r n) as [[bs [e|]] r']; [by rewrite H|].
  destruct H as (b' & -> & Hb' & Hc & Hr & Hl). cbn [mbind go_bind]. by apply Hf.
Qed.

Lemma codec_address b r : wf b → content b = [] → 300 ≤ Buffer.room b → agrees (readAddress (the_parser socksParser) b r) (reads read_address r).
Proof.
  intros Hb Hc Hr. unfold readAddress, read_address. apply agrees_read; [done|lia|]. intros b1 tb r1 W1 C1 R1 L1. rewrite Hc in C1. cbn [app] in C1.
  destruct tb as [|t [|]]; try (unfold len in L1; cbn in L1; lia). rewrite (Buffer.Byte_last b1 [] t W1 C1). cbn [mbind go_bind].
  change (typeParser (the_parser socksParser)) with (@None (Z → Z)). cbv iota. cbn [head ok_or_panic lift mbind Prog_bind pbind].
  destruct (decide (16 ≤ byte_to_Z t)); [done|]. destruct (index (addrTypeMap (the_parser socksParser)) (byte_to_Z t)) as [fam|]; [|done]. cbn [ok_or_panic pbind mbind go_bind].
  unfold read_family. destruct (decide (fam = afInvalid)); [done|]. destruct (decide (fam = AddressFamilyIPv4)).
  { apply agrees_read; [done|lia|]. intros b2 x r2 W2 C2 R2 L2. rewrite (Buffer.BytesFrom_neg b2 (-4) (content b1) x) by (done || lia). cbn. by split; [|split; [|lia]]. }
  destruct (decide (fam = AddressFamilyIPv6)).
  { apply agrees_read; [done|lia|]. intros b2 x r2 W2 C2 R2 L2. rewrite (Buffer.BytesFrom_neg b2 (-16) (content b1) x) by (done || lia). cbn. by split; [|split; [|lia]]. }
  destruct (decide (fam = AddressFamilyDomain)); [|done]. unfold read_domain. apply agrees_read; [done|lia|]. intros b2 lb r2 W2 C2 R2 L2.
  destruct lb as [|l [|]]; try (unfold len in L2; cbn in L2; lia). rewrite (Buffer.Byte_last b2 (content b1) l W2 C2). cbn [mbind go_bind head ok_or_panic lift Prog_bind pbind].
  pose proof (byte_to_Z_range l) as Hl. unfold is_u8 in Hl. apply agrees_read; [done|lia|]. intros b3 d r3 W3 C3 R3 L3.
  assert (Hd : Buffer.BytesFrom b3 (- byte_to_Z l) = Ok (if decide (byte_to_Z l = 0) then [t] ++ [l] else d)).
  { destruct (decide (byte_to_Z l = 0)) as [E0|E0].
    - assert (d = []) as -> by (destruct d; [done|rewrite len_cons in L3; pose proof (len_nonneg d); lia]). rewrite app_nil_r in C3.
      rewrite E0, <- C1, <- C2, <- C3. unfold Buffer.BytesFrom, Buffer.from_end. rewrite decide_False by lia. unfold wf, Buffer.wf in W3.
      rewrite i32_small by (unfold is_i32; lia). rewrite slice_Some by lia. cbn. unfold content, Buffer.content. by rewrite Z.add_0_r.
    - apply (Buffer.BytesFrom_neg b3 (- byte_to_Z l) (content b2) d); [done|done|lia..]. }
  rewrite Hd. cbn [mbind go_bind]. set (domain := if decide (byte_to_Z l = 0) then _ else _). destruct (index domain 0) as [c|]; [|done]. cbn [ok_or_panic pbind mbind go_bind].
  destruct (if maybeIPPrefix c then ParseAddress domain else Some (DomainAddress domain)) as [a|]; [|done]. destruct (IsIP (Family a)); [split; [done|split; [done|lia]]|].
  destruct (negb (isValidDomain domain)); [done|]. split; [done|split; [done|lia]].
Qed.
(** A program that writes nothing. *)
Fixpoint quiet {A} (p : Prog A) : Prop :=
  match p with Ret _ => True | ReadN _ k err => (∀ bs, quiet (k bs)) ∧ (∀ e, quiet (err e)) | Put _ _ => False end.

Lemma quiet_bind {A B} (p : Prog A) (f : A → Prog B) : quiet p → (∀ a, quiet (f a)) → quiet (p ≫= f).
Proof.
  intros Hp Hf. revert Hp. induction p as [[a|e|]|n k IHk err IHe|bs k IH]; try done; [intros _; apply Hf|].
  intros [Hk He]. split; [intros bs; by apply IHk|intros e; by apply IHe].
Qed.

Lemma quiet_exec {A} (p : Prog A) st i : quiet p → (exec (λ _, None) p st i).2 = i.
Proof. revert st i. induction p as [[a|e|]|n k IHk err IHe|bs k IH]; try done. intros st i [Hk He]. cbn. destruct (read_full st n) as [[bs [e|]] st']; auto. Qed.

Lemma quiet_lift {A} (m : go A) : quiet (lift m).
Proof. by destruct m. Qed.

Lemma quiet_readAll n : quiet (readAll n).
Proof. done. Qed.

Lemma quiet_address : quiet read_address.
Proof.
  unfold read_address, read_family, read_domain.
  repeat first [done | intros ? | apply quiet_lift | apply quiet_readAll | apply quiet_bind | case_match].
Qed.

(** The program is the parser of the addresses, with the buffer of the function. *)
Lemma read_address_port_codec pooled r :
  match ReadAddressPort pooled socksParser None r with
  | Ok (_, r', a, p) => reads read_address_port r = Ok ((a, p), r')
  | Err e => reads read_address_port r = Err e
  | Panic => reads read_address_port r = Panic
  end.
Proof.
  unfold read_address_port. rewrite (reads_bind read_address) by (intros st i; apply quiet_exec, quiet_address).
  pose proof (codec_address (Buffer.New pooled) r (Buffer.wf_New _) (Buffer.content_New _) ltac:(rewrite room_new; lia)) as Ha.
  unfold ReadAddressPort. change (default (Buffer.New pooled) None) with (Buffer.New pooled). change socksParser with (portLastAddressParser (the_parser socksParser)). cbn iota zeta.
  revert Ha. generalize (readAddress (the_parser socksParser) (Buffer.New pooled) r). intros m Ha. destruct m as [[[b r1] a]|e|]; cbn [agrees] in Ha; [|cbn [mbind go_bind]; by rewrite Ha..]. destruct Ha as (-> & Hb & Hroom). cbn [mbind go_bind].
  rewrite reads_full. unfold readPort. pose proof (read_or_full b r1 2 Hb ltac:(lia)) as H2. destruct (read_full r1 2) as [[bs [e|]] r2]; [by rewrite H2|].
  destruct H2 as (b' & -> & Hb' & Hc & _ & Hl). cbn [mbind go_bind]. rewrite (Buffer.BytesFrom_neg b' (-2) (content b) bs) by (done || lia). cbn [mbind go_bind].
  by destruct (PortFromBytes bs) as [p|e|].
Qed.

(** ** Messages *)

Section agree.
Context (pooled : list byte) (ListenSystemPacket : list byte → go Port) (RemoteIP : list byte).

Lemma must_fits (b : Buffer.t) bs n : 0 ≤ n → fits b (len bs + n) → ∃ b', must_write b bs = Ok b' ∧ output b' = output b ++ bs ∧ fits b' n.
Proof. intros Hn Hf. destruct (write_or_fits b bs n Hn Hf) as (b' & Hw & Ho & Hf'). exists b'. unfold must_write. by rewrite Hw. Qed.

Definition account_ok (a : Account) : Prop := len (Username a) < 256 ∧ len (Password a) < 256.
Definition account_bytes (a : Account) : list byte :=
  [x01; byte_of_Z (len (Username a))] ++ Username a ++ [byte_of_Z (len (Password a))] ++ Password a.

Lemma account_written a : account_ok a → account_message pooled a = Ok (account_bytes a).
Proof.
  intros [Hu Hp]. unfold account_message. pose proof (len_nonneg (Username a)). pose proof (len_nonneg (Password a)).
  destruct (must_fits (Buffer.New pooled) [x01] 8191) as (b1 & -> & O1 & F1); [lia|apply fits_new|]. cbn [mbind go_bind].
  destruct (must_fits b1 [byte_of_Z (len (Username a))] 8190) as (b2 & -> & O2 & F2); [lia|exact F1|]. cbn [mbind go_bind].
  destruct (must_fits b2 (Username a) (8190 - len (Username a))) as (b3 & -> & O3 & F3); [lia|eapply fits_le; [exact F2|lia]|]. cbn [mbind go_bind].
  destruct (must_fits b3 [byte_of_Z (len (Password a))] (8189 - len (Username a))) as (b4 & -> & O4 & F4); [lia|eapply fits_le; [exact F3|change (len [_]) with 1; lia]|]. cbn [mbind go_bind].
  destruct (must_fits b4 (Password a) 0) as (b5 & -> & O5 & F5); [lia|eapply fits_le; [exact F4|lia]|]. cbn [mbind go_bind].
  rewrite (bytes_fits b5 0 F5), O5, O4, O3, O2, O1. change (output (Buffer.New pooled)) with (content (Buffer.New pooled)). rewrite Buffer.content_New. unfold account_bytes.
  by rewrite <- !app_assoc.
Qed.

Lemma account_read a rest : account_ok a → feed ReadUsernamePassword (account_bytes a ++ rest) = Some ((Username a, Password a), rest, []).
Proof.
  intros [Hu Hp]. pose proof (len_nonneg (Username a)). pose proof (len_nonneg (Password a)). unfold ReadUsernamePassword, account_bytes. rewrite <- !app_assoc.
  rewrite (feed_bind _ _ _ _ _ _ (feed_readAll 2 [x01; byte_of_Z (len (Username a))] _ eq_refl)). change (index [x01; byte_of_Z (len (Username a))] 1) with (Some (byte_of_Z (len (Username a)))).
  cbn [ok_or_panic lift mbind Prog_bind pbind]. rewrite byte_to_of_Z_small by (unfold is_u8; lia).
  rewrite (feed_bind _ _ _ _ _ _ (feed_readAll _ (Username a) _ eq_refl)). cbn [ok_or_panic lift mbind Prog_bind pbind].
  rewrite (feed_bind _ _ _ _ _ _ (feed_readAll 1 [byte_of_Z (len (Password a))] _ eq_refl)). change (index [byte_of_Z (len (Password a))] 0) with (Some (byte_of_Z (len (Password a)))).
  cbn [ok_or_panic lift mbind Prog_bind pbind]. rewrite byte_to_of_Z_small by (unfold is_u8; lia).
  rewrite (feed_bind _ _ _ _ _ _ (feed_readAll _ (Password a) rest eq_refl)). done.
Qed.

Lemma head_and_address c a port : encodable a → is_u16 port →
  (b ← must_write (Buffer.New pooled) [socks5Version; c; x00]; b ← write_dest socksParser b (Some a) port; Buffer.Bytes b) = Ok ([socks5Version; c; x00] ++ wire a port).
Proof.
  intros Ha Hp. destruct (must_fits (Buffer.New pooled) [socks5Version; c; x00] 8189) as (b1 & -> & O1 & F1); [lia|apply fits_new|]. cbn [mbind go_bind].
  destruct (dest_written b1 a port 7930 Ha Hp) as (b2 & -> & O2 & F2); [lia|exact F1|]. cbn [mbind go_bind].
  rewrite (bytes_fits b2 _ F2), O2, O1. change (output (Buffer.New pooled)) with (content (Buffer.New pooled)). by rewrite Buffer.content_New.
Qed.

(** ** The handshakes against each other *)

Abbreviation Server := (Handshake pooled ListenSystemPacket RemoteIP).
Abbreviation serve := (serve_request pooled ListenSystemPacket RemoteIP).
Abbreviation Client := (ClientHandshake pooled).
Definition expected_auth (s : ServerSession) : byte := if AuthPassword (config s) then authPassword else authNotRequired.

Lemma server_greets s m : advance (Server s) [socks5Version; x01; m] =
  if decide (m = expected_auth s) then (if AuthPassword (config s) then check_account s ≫= serve s else serve s [], [], [socks5Version; m])
  else (fail "no matching auth method", [], [socks5Version; authNoMatchingMethod]).
Proof.
  unfold Handshake, expected_auth. change [socks5Version; x01; m] with ([socks5Version; x01] ++ [m]). rewrite (advance_bind _ _ _ _ _ _ (feed_readFull 2 [socks5Version; x01] [m] _ eq_refl)).
  change (advance _ [m]) with (advance (handshake5 pooled ListenSystemPacket RemoteIP s x01) [m]). unfold handshake5, auth5.
  rewrite (advance_bind2 _ _ _ _ _ _ _ (feed_readFull 1 [m] [] _ eq_refl)). cbv zeta.
  assert (Hh : ∀ e, hasAuthMethod e [m] = bool_decide (m = e)) by (intros e; apply orb_false_r). rewrite Hh.
  destruct (decide (m = if AuthPassword (config s) then authPassword else authNotRequired)) as [->|Hm].
  - rewrite bool_decide_eq_true_2 by done. by destruct (AuthPassword (config s)).
  - rewrite bool_decide_eq_false_2 by done. done.
Qed.

Lemma client_greets r : advance (Client r) [] = (client_method pooled r, [], [socks5Version; x01; auth_byte r]).
Proof. done. Qed.

Lemma server_checks s a : account_ok a → advance (check_account s ≫= serve s) (account_bytes a) =
  if HasAccount (config s) (Username a) (Password a) then (serve s (Username a), [], [x01; x00]) else (fail "invalid username or password", [], [x01; xff]).
Proof.
  intros Ha. rewrite <- (app_nil_r (account_bytes a)). set (q := account_bytes a ++ []).
  assert (Hf : feed (with_message "failed to read username and password for authentication" ReadUsernamePassword) q = Some ((Username a, Password a), [], [])) by (by apply feed_message, account_read).
  unfold check_account. rewrite (advance_bind2 _ _ _ _ _ _ _ Hf). cbv beta iota. by destruct (HasAccount (config s) (Username a) (Password a)).
Qed.

(** A request to connect that can be written, and a server that can answer. *)
Definition connect_ok (r : ClientRequest) (a : Address) : Prop :=
  c_Command r = RequestCommandTCP ∧ c_Address r = Some a ∧ encodable a ∧ is_u16 (c_Port r).
Definition server_ok (s : ServerSession) (a : Address) : Prop := s_address s = Some a ∧ encodable a ∧ is_u16 (s_port s).

Lemma client_asks r a : connect_ok r a → advance (client_request pooled r) [] = (client_response r, [], [socks5Version; cmdTCPConnect; x00] ++ wire a (c_Port r)).
Proof.
  intros (Hc & Ha & He & Hp). unfold client_request, request_message. rewrite Hc, Ha. rewrite bool_decide_eq_false_2 by done.
  rewrite (head_and_address cmdTCPConnect a (c_Port r) He Hp). set (m := _ ++ wire a _).
  change (advance _ []) with (client_response r, @nil byte, m ++ []). by rewrite app_nil_r.
Qed.

Definition user_of (username : str) : option str := if decide (username ≠ []) then Some username else None.

Lemma server_serves s r a sa username : connect_ok r a → server_ok s sa →
  advance (serve s username) ([socks5Version; cmdTCPConnect; x00] ++ wire a (c_Port r)) =
  (ret (mkRequest socks5Version RequestCommandTCP (user_of username) (Some a) (c_Port r), None), [], [socks5Version; statusSuccess; x00] ++ wire sa (s_port s)).
Proof.
  intros (Hc & Ha & He & Hp) (Hsa & Hse & Hsp). unfold serve_request.
  rewrite (advance_bind _ _ _ _ _ _ (feed_readFull 3 [socks5Version; cmdTCPConnect; x00] _ _ eq_refl)). change (index [socks5Version; cmdTCPConnect; x00] 1) with (Some cmdTCPConnect).
  cbn [ok_or_panic lift mbind Prog_bind pbind]. change (read_command pooled s cmdTCPConnect) with (ret RequestCommandTCP).
  rewrite (advance_bind (ret RequestCommandTCP) _ _ _ _ _ eq_refl).
  rewrite <- (app_nil_r (wire a (c_Port r))). rewrite (advance_bind _ _ _ _ _ _ (feed_message "failed to read address" _ _ _ (feed_address_port a (c_Port r) [] He Hp))).
  cbv beta iota zeta. rewrite (decide_False (P := RequestCommandTCP = RequestCommandUDP)) by done.
  rewrite (advance_bind (ret (s_address s, s_port s, None)) _ _ _ _ _ eq_refl). cbv beta iota. unfold writeSocks5Response, socks5_response.
  rewrite Hsa, (head_and_address statusSuccess sa (s_port s) Hse Hsp). set (m := [socks5Version; statusSuccess; x00] ++ wire sa (s_port s)).
  change (advance _ []) with (ret (mkRequest socks5Version RequestCommandTCP (user_of username) (Some a) (c_Port r), @None TempUDPConn), @nil byte, m ++ []). by rewrite app_nil_r.
Qed.

Lemma client_ends r sa port : c_Command r = RequestCommandTCP → encodable sa → is_u16 port →
  advance (client_response r) ([socks5Version; statusSuccess; x00] ++ wire sa port) = (ret None, [], []).
Proof.
  intros Hc He Hp. unfold client_response. rewrite (advance_bind _ _ _ _ _ _ (feed_readAll 3 [socks5Version; statusSuccess; x00] _ eq_refl)).
  change (index [socks5Version; statusSuccess; x00] 1) with (Some x00). cbn [ok_or_panic lift mbind Prog_bind pbind]. rewrite decide_False by (intros Hx; by apply Hx).
  rewrite <- (app_nil_r (wire sa port)). rewrite (advance_bind _ _ _ _ _ _ (feed_address_port sa port [] He Hp)). cbv beta iota. by rewrite decide_False by (by rewrite Hc).
Qed.

(** How a handshake ends: what client and server return. *)
Definition verdict (s : ServerSession) (r : ClientRequest) (a : Address) : Prog (option RequestHeader) * Prog (RequestHeader * option TempUDPConn) :=
  let granted username := (ret None, ret (mkRequest socks5Version RequestCommandTCP (user_of username) (Some a) (c_Port r), None)) in
  match c_User r, AuthPassword (config s) with
  | None, false => granted []
  | Some acc, true =>
      if HasAccount (config s) (Username acc) (Password acc) then granted (Username acc)
      else (fail "server rejects account: ", fail "invalid username or password")
  | _, _ => (fail "auth method not supported.", fail "no matching auth method")
  end.

Lemma client_goes {A B} (c c' : Prog A) (s : Prog B) ts ts' tc tc' out : advance c tc = (c', tc', out) → ts' = ts ++ out → rtc dstep (mkDuel c s ts tc) (mkDuel c' s ts' tc').
Proof. intros Ha ->. by apply client_advances. Qed.
Lemma server_goes {A B} (c : Prog A) (s s' : Prog B) ts tc ts' tc' out : advance s ts = (s', ts', out) → tc' = tc ++ out → rtc dstep (mkDuel c s ts tc) (mkDuel c s' ts' tc').
Proof. intros Ha ->. by apply server_advances. Qed.

Lemma connected s r a sa username : connect_ok r a → server_ok s sa →
  rtc dstep (mkDuel (client_request pooled r) (serve s username) [] [])
    (mkDuel (ret None) (ret (mkRequest socks5Version RequestCommandTCP (user_of username) (Some a) (c_Port r), None)) [] []).
Proof.
  intros Hr Hs. etrans; [by apply (client_goes _ _ _ [] _ [] _ _ (client_asks r a Hr) eq_refl)|].
  etrans; [by apply (server_goes _ _ _ _ [] _ _ _ (server_serves s r a sa username Hr Hs) eq_refl)|].
  destruct Hr as (Hc & _). destruct Hs as (_ & Hse & Hsp). by apply (client_goes _ _ _ [] _ _ _ _ (client_ends r sa (s_port s) Hc Hse Hsp) eq_refl).
Qed.

Lemma returned_nf {A B} (x : go A) (y : go B) ts tc : nf dstep (mkDuel (Ret x) (Ret y) ts tc).
Proof. intros [z Hz]. by inversion Hz. Qed.

Lemma method_account r acc : c_User r = Some acc → pstep (client_method pooled r) [socks5Version; authPassword] = Some (client_account pooled r acc, [], []).
Proof. intros Hu. unfold client_method, auth_byte. cbn. by rewrite Hu. Qed.
Lemma method_none r : c_User r = None → pstep (client_method pooled r) [socks5Version; authNotRequired] = Some (client_request pooled r, [], []).
Proof. intros Hu. unfold client_method, auth_byte. cbn. by rewrite Hu. Qed.
Lemma method_refused r : advance (client_method pooled r) [socks5Version; authNoMatchingMethod] = (fail "auth method not supported.", [], []).
Proof. unfold client_method, auth_byte. cbn. by destruct (c_User r). Qed.
Lemma client_accounts r acc : account_ok acc → advance (client_account pooled r acc) [] = (account_response pooled r, [], account_bytes acc).
Proof. intros Ha. unfold client_account. rewrite account_written by done. change (advance _ []) with (account_response pooled r, @nil byte, account_bytes acc ++ []). by rewrite app_nil_r. Qed.

(** C13: client and server of SOCKS 5 understand each other about connecting. For any CONNECT request for
    an address that can be written and any server with such an address of its own, the client with
    no account or with one whose name and password are below 256 bytes, in every interleaving of the
    two over a connection the handshake ends, never with one side waiting for the other: with the
    request of the client, under the name of its account, when both have an account or neither has
    and the server knows the one of the client, and otherwise with an error on both sides; no byte
    is left in between, so that what follows is the payload. *)
Theorem socks_handshake_agrees s r a sa :
  connect_ok r a → server_ok s sa → (∀ acc, c_User r = Some acc → account_ok acc) →
  ends (mkDuel (Client r) (Server s) [] []) (mkDuel (verdict s r a).1 (verdict s r a).2 [] []).
Proof.
  intros Hr Hs Hacc. apply run_ends.
  2: { unfold verdict. destruct (c_User r) as [acc|], (AuthPassword (config s)); try apply returned_nf. destruct (HasAccount _ _ _); apply returned_nf. }
  etrans; [by apply (client_goes _ _ _ [] _ [] _ _ (client_greets r) eq_refl)|].
  assert (Hb : auth_byte r = match c_User r with Some _ => authPassword | None => authNotRequired end) by done. rewrite Hb. unfold verdict.
  pose proof (server_greets s (match c_User r with Some _ => authPassword | None => authNotRequired end)) as Hg. unfold expected_auth in Hg.
  destruct (c_User r) as [acc|] eqn:Eu, (AuthPassword (config s)) eqn:Ea.
  - rewrite decide_True in Hg by done. etrans; [by apply (server_goes _ _ _ _ [] _ _ _ Hg eq_refl)|]. eapply rtc_l; [by apply client_step, (method_account r acc Eu)|].
    specialize (Hacc acc eq_refl). etrans; [by apply (client_goes _ _ _ [] _ [] _ _ (client_accounts r acc Hacc) eq_refl)|].
    pose proof (server_checks s acc Hacc) as Hc. destruct (HasAccount (config s) (Username acc) (Password acc)).
    + etrans; [by apply (server_goes _ _ _ _ [] _ _ _ Hc eq_refl)|]. eapply rtc_l; [by apply client_step|]. by apply (connected s r a sa).
    + etrans; [by apply (server_goes _ _ _ _ [] _ _ _ Hc eq_refl)|]. eapply rtc_l; [by apply client_step|]. done.
  - rewrite decide_False in Hg by done. etrans; [by apply (server_goes _ _ _ _ [] _ _ _ Hg eq_refl)|]. by apply (client_goes _ _ _ [] _ _ _ _ (method_refused r) eq_refl).
  - rewrite decide_False in Hg by done. etrans; [by apply (server_goes _ _ _ _ [] _ _ _ Hg eq_refl)|]. by apply (client_goes _ _ _ [] _ _ _ _ (method_refused r) eq_refl).
  - rewrite decide_True in Hg by done. etrans; [by apply (server_goes _ _ _ _ [] _ _ _ Hg eq_refl)|]. eapply rtc_l; [by apply client_step, (method_none r Eu)|]. by apply (connected s r a sa).
Qed.

(** ** No way in without an account *)

Lemma bind_returns {A B} wfail (p : Prog A) (f : A → Prog B) s i b s' o j : exec wfail (p ≫= f) s i = (Ok b, s', o, j) →
  ∃ a s1 o1 j1 o2, exec wfail p s i = (Ok a, s1, o1, j1) ∧ exec wfail (f a) s1 j1 = (Ok b, s', o2, j).
Proof.
  rewrite exec_bind. destruct (exec wfail p s i) as [[[[a|e|] s1] o1] j1]; [|done|done]. destruct (exec wfail (f a) s1 j1) as [[[r s2] o2] j2] eqn:Ef.
  intros [= -> -> _ ->]. by exists a, s1, o1, j1, o2.
Qed.

Lemma message_returns {A} wfail m (p : Prog A) s i a s' o j : exec wfail (with_message m p) s i = (Ok a, s', o, j) → exec wfail p s i = (Ok a, s', o, j).
Proof.
  revert s i o. induction p as [[|e|]|n k IHk err IHe|bs k IH]; intros s i o; cbn; try done.
  - destruct (read_full s n) as [[b [e|]] s1]; [apply IHe|apply IHk].
  - destruct (exec wfail (with_message m (k (wfail i))) s (S i)) as [[[r1 s1] o1] j1] eqn:Ew. intros [= -> -> <- ->]. by rewrite (IH _ _ _ _ Ew).
Qed.

Lemma read_returns wfail n (e : GoError → Prog (list byte)) s i a s' o j : 0 ≤ n → (∀ er, ∃ er', e er = Ret (Err er')) →
  exec wfail (ReadN n ret e) s i = (Ok a, s', o, j) → sdata s = a ++ sdata s' ∧ len a = n.
Proof.
  intros Hn He. cbn. unfold read_full. destruct (decide (n ≤ len (sdata s))) as [Hl|Hl].
  - cbn. intros [= <- <- _ _]. cbn. rewrite take_drop. split; [done|]. unfold len in *. rewrite length_take. lia.
  - match goal with |- context [e ?x] => destruct (He x) as [er' ->] end. done.
Qed.
Lemma lift_returns {A} wfail (m : go A) s i a s' o j : exec wfail (lift m) s i = (Ok a, s', o, j) → m = Ok a ∧ s' = s ∧ j = i.
Proof. cbn. by intros [= -> -> _ ->]. Qed.

Lemma put_returns wfail bs s i x s' o j : exec wfail (putOr bs) s i = (Ok x, s', o, j) → s' = s.
Proof. cbn. destruct (wfail i); cbn; [done|]. intros Hx. by inversion Hx. Qed.

Lemma account_returns wfail s i u pw s' o j : exec wfail ReadUsernamePassword s i = (Ok (u, pw), s', o, j) →
  ∃ v nu np, sdata s = [v; nu] ++ u ++ [np] ++ pw ++ sdata s' ∧ byte_to_Z nu = len u ∧ byte_to_Z np = len pw.
Proof.
  unfold ReadUsernamePassword. intros (b & s1 & o1 & j1 & o1' & R1 & H1)%bind_returns. apply read_returns in R1 as [R1 L1]; [|lia|by eexists].
  apply bind_returns in H1 as (nu & s2 & o2 & j2 & o2' & (I2 & -> & _)%lift_returns & H2). apply bind_returns in H2 as (u' & s3 & o3 & j3 & o3' & R3 & H3).
  pose proof (byte_to_Z_range nu) as Hnu. unfold is_u8 in Hnu. apply read_returns in R3 as [R3 L3]; [|lia|by eexists].
  apply bind_returns in H3 as (b4 & s4 & o4 & j4 & o4' & R4 & H4). apply read_returns in R4 as [R4 L4]; [|lia|by eexists].
  apply bind_returns in H4 as (np & s5 & o5 & j5 & o5' & (I5 & -> & _)%lift_returns & H5). apply bind_returns in H5 as (p' & s6 & o6 & j6 & o6' & R6 & H6).
  pose proof (byte_to_Z_range np) as Hnp. unfold is_u8 in Hnp. apply read_returns in R6 as [R6 L6]; [|lia|by eexists]. cbn in H6. injection H6 as <- <- <- _ _.
  destruct b as [|v [|nu' [|]]]; try (unfold len in L1; cbn in L1; lia). destruct b4 as [|np' [|]]; try (unfold len in L4; cbn in L4; lia).
  cbn in I2, I5. injection I2 as ->. injection I5 as ->. exists v, nu, np. split; [|by split]. by rewrite R1, R3, R4, R6.
Qed.

Lemma serve_returns wfail s u st i req t st' o j : exec wfail (serve s u) st i = (Ok (req, t), st', o, j) → User req = user_of u.
Proof.
  unfold serve_request. intros (b & s1 & o1 & j1 & o1' & _ & H1)%bind_returns. apply bind_returns in H1 as (cmd & s2 & o2 & j2 & o2' & _ & H2).
  apply bind_returns in H2 as (command & s3 & o3 & j3 & o3' & _ & H3). apply bind_returns in H3 as ([addr port] & s4 & o4 & j4 & o4' & _ & H4).
  apply bind_returns in H4 as ([[ra rp] tmp] & s5 & o5 & j5 & o5' & _ & H5). apply bind_returns in H5 as (x & s6 & o6 & j6 & o6' & _ & H6).
  cbn in H6. by injection H6 as <- _ _ _ _.
Qed.

Lemma check_returns wfail s st i u st' o j : exec wfail (check_account s) st i = (Ok u, st', o, j) →
  ∃ pw v nu np, sdata st = [v; nu] ++ u ++ [np] ++ pw ++ sdata st' ∧ byte_to_Z nu = len u ∧ byte_to_Z np = len pw ∧ HasAccount (config s) u pw = true.
Proof.
  unfold check_account. intros ([u' pw] & s1 & o1 & j1 & o1' & R1%message_returns & H1)%bind_returns.
  apply account_returns in R1 as (v & nu & np & E & L1 & L2). destruct (HasAccount (config s) u' pw) eqn:Eh; cbn [negb] in H1.
  - apply bind_returns in H1 as ([] & s2 & o2 & j2 & o2' & R2%message_returns & H2). cbn in H2. injection H2 as -> <- _ _. exists pw, v, nu, np.
    apply put_returns in R2 as ->. done.
  - apply bind_returns in H1 as ([] & s2 & o2 & j2 & o2' & _ & H2). done.
Qed.

(** C12: a server that asks for accounts lets nobody in without one. Whatever bytes a client sends and
    whatever writes fail, the handshake returns a request only if the bytes offer the method of
    passwords and contain the name and the password of an account, and the request bears that
    name; SOCKS 4, which has no passwords, gets nothing. *)
Theorem socks_needs_account wfail s st req t st' o j :
  AuthPassword (config s) = true → exec wfail (Server s) st 0 = (Ok (req, t), st', o, j) →
  ∃ n ms v nu u np pw rest, sdata st = [socks5Version; n] ++ ms ++ [v; nu] ++ u ++ [np] ++ pw ++ rest ∧ authPassword ∈ ms ∧
    byte_to_Z nu = len u ∧ byte_to_Z np = len pw ∧ HasAccount (config s) u pw = true ∧ User req = user_of u.
Proof.
  intros Ha. unfold Handshake. intros (b & s1 & o1 & j1 & o1' & R1 & H1)%bind_returns. apply read_returns in R1 as [R1 L1]; [|lia|by eexists].
  destruct b as [|ver [|n [|]]]; try (unfold len in L1; cbn in L1; lia). change (index [ver; n] 0) with (Some ver) in H1. change (index [ver; n] 1) with (Some n) in H1.
  cbn [ok_or_panic lift mbind Prog_bind pbind] in H1. destruct (decide (ver = socks4Version)).
  { unfold handshake4 in H1. rewrite Ha in H1. done. }
  destruct (decide (ver = socks5Version)) as [->|]; [|done]. apply bind_returns in H1 as (u & s2 & o2 & j2 & o2' & R2 & H2). apply serve_returns in H2.
  unfold auth5 in R2. apply bind_returns in R2 as (ms & s3 & o3 & j3 & o3' & R3 & H3). pose proof (byte_to_Z_range n) as Hn. unfold is_u8 in Hn.
  apply read_returns in R3 as [R3 L3]; [|lia|by eexists]. rewrite Ha in H3. destruct (hasAuthMethod authPassword ms) eqn:Em; [|done]. cbn [negb] in H3.
  apply bind_returns in H3 as ([] & s4 & o4 & j4 & o4' & R4%message_returns & H4). rewrite decide_True in H4 by done.
  apply put_returns in R4 as ->.
  apply check_returns in H4 as (pw & v & nu & np & E & L1' & L2' & Hh). exists n, ms, v, nu, u, np, pw, (sdata s2). split; [by rewrite R1, R3, E|]. split; [|done].
  unfold hasAuthMethod in Em. apply existsb_exists in Em as (x & Hin & Hx). apply bool_decide_eq_true_1 in Hx as ->. by apply list_elem_of_In.
Qed.

(** ** Packets *)

Lemma Byte_index b p c l : wf b → content b = p ++ c :: l → Buffer.Byte b (len p) = Ok c.
Proof.
  intros Hb Hc. destruct (Buffer.arr_split b Hb) as (pre & post & Ha & Hp). unfold Buffer.Byte, index. assert (Hw := Hb). unfold wf in Hw.
  rewrite Ha, Hc, !len_app, len_cons in Hw. pose proof (len_nonneg l). pose proof (len_nonneg post). pose proof (len_nonneg p). rewrite i32_small by (unfold is_i32; lia).
  rewrite decide_True by lia. rewrite <- Hp, <- len_app, to_nat_len, Ha, Hc. cbn [ok_or_panic].
  assert (Hl : (pre ++ (p ++ c :: l) ++ post) !! length (pre ++ p) = Some c) by (rewrite <- !app_assoc, app_assoc; cbn [app]; by rewrite list_lookup_middle).
  by rewrite Hl.
Qed.

Lemma address_read a port rest e : encodable a → is_u16 port →
  ReadAddressPort pooled socksParser None (mkStream (wire a port ++ rest) e) = Ok (None, mkStream rest e, Some a, port).
Proof.
  intros Ha Hp. destruct (dest_written (Buffer.New pooled) a port 0 Ha Hp) as (b & Hw & Ho & _); [lia|eapply fits_le; [apply fits_new|lia]|].
  destruct (address_port_ok pooled socksParser (Buffer.New pooled) a port 0) as (b' & enc & Hw' & _ & Ho' & _ & Hr); [|done|done|lia| |].
  { apply parsers_support. by right; left. }
  { pose proof (enc_size_bound a Ha). eapply fits_le; [apply fits_new|lia]. }
  unfold write_dest in Hw. rewrite Hw' in Hw. injection Hw as ->. rewrite Ho' in Ho. apply app_inv_head in Ho as ->.
  pose proof (enc_size_bound a Ha). destruct (Hr None rest e) as (b2 & -> & Hn); [apply Buffer.wf_New|cbn [default]; rewrite room_new; lia|]. by rewrite Hn.
Qed.

(** A packet that fits is read back with its destination, from any buffer that holds it. *)
Lemma udp_roundtrip a port data : encodable a → is_u16 port → len data ≤ 7930 →
  ∃ b, EncodeUDPPacket pooled (Some a) port data = Ok b ∧ ∀ packet, wf packet → content packet = output b →
    ∃ packet', DecodeUDPPacket pooled packet = Ok (mkRequest socks5Version RequestCommandUDP None (Some a) port, packet') ∧ content packet' = data.
Proof.
  intros Ha Hp Hd. pose proof (len_nonneg data). unfold EncodeUDPPacket. destruct (must_fits (Buffer.New pooled) [x00; x00; x00] 8189) as (b1 & -> & O1 & F1); [lia|apply fits_new|]. cbn [mbind go_bind].
  destruct (dest_written b1 a port 7930 Ha Hp) as (b2 & -> & O2 & F2); [lia|exact F1|]. cbn [mbind go_bind].
  assert (Hav : ¬ Buffer.Available b2 < len data).
  { destruct F2 as [W2 R2]. unfold wf in W2. unfold Buffer.room in R2. unfold Buffer.Available. rewrite (i32_small (len _)), i32_small by (unfold is_i32; lia). lia. }
  rewrite decide_False by done. destruct (must_fits b2 data 0) as (b3 & Hw3 & O3 & F3); [lia|eapply fits_le; [exact F2|lia]|]. exists b3. split; [done|].
  intros packet Wp Cp. rewrite O3, O2, O1 in Cp. change (output (Buffer.New pooled)) with (content (Buffer.New pooled)) in Cp. rewrite Buffer.content_New in Cp. cbn [app] in Cp.
  assert (Hwl : 5 ≤ len (wire a port)).
  { unfold wire. rewrite len_app, len_enc_address by done. change (len (put_be16 port)) with 2. pose proof (enc_size_bound a Ha). lia. }
  unfold DecodeUDPPacket. rewrite Buffer.Len_wf by done. rewrite decide_False by (rewrite Cp, !len_cons, len_app; lia).
  change 2 with (len [x00; x00]) at 1. rewrite (Byte_index packet [x00; x00] x00 _ Wp Cp). cbn [mbind go_bind]. rewrite decide_False by (intros Hx; by apply Hx).
  assert (Hb : Buffer.start packet + len (content packet) < 2147483648) by (rewrite Buffer.len_content by done; unfold wf in Wp; lia).
  rewrite Cp, !len_cons, !len_app in Hb. destruct (Buffer.Advance_spec packet 3 Wp) as (W1 & C1 & E1 & A1 & _); [lia..|]. rewrite Cp in C1. change (drop (Z.to_nat 3) _) with (wire a port ++ data) in C1.
  rewrite (Buffer.Bytes_wf _ W1), C1. cbn [mbind go_bind]. rewrite address_read by done. eexists. split; [reflexivity|]. cbn [sdata].
  assert (Hb1 : Buffer.start (Buffer.Advance packet 3) + len (content (Buffer.Advance packet 3)) < 2147483648) by (rewrite Buffer.len_content by done; unfold wf in W1; lia).
  rewrite C1, len_app in Hb1. destruct (Buffer.Advance_spec (Buffer.Advance packet 3) (len (wire a port ++ data) - len data) W1) as (_ & C2 & _); [rewrite len_app; lia..|].
  rewrite C2, C1, len_app. replace (len (wire a port) + len data - len data) with (len (wire a port)) by lia. by rewrite to_nat_len, drop_app_length.
Qed.
End agree.

(** ** Examples *)

Definition w_account : Account := mkAccount (s2b "u") (s2b "p").
Definition w_session : ServerSession := mkServerSession (mkServerConfig true (Some {[s2b "u" := s2b "p"]}) true None) (Some (ipv4Address [x0a; x00; x00; x01])) 1080 None.
Definition w_request : ClientRequest := mkClientRequest (Some w_account) RequestCommandTCP (Some (domainAddress (s2b "a.b"))) 443.

Lemma w_encodable : encodable (domainAddress (s2b "a.b")) ∧ encodable (ipv4Address [x0a; x00; x00; x01]).
Proof.
  split; [|done]. split; [done|]. split; [split; by apply Z.leb_le|]. by split.
Qed.

Lemma socks_handshake_agrees_witness :
  ends (mkDuel (ClientHandshake [] w_request) (Handshake [] (λ _, Ok 1) [] w_session) [] [])
    (mkDuel (ret None) (ret (mkRequest socks5Version RequestCommandTCP (Some (s2b "u")) (Some (domainAddress (s2b "a.b"))) 443, None)) [] []).
Proof.
  apply (socks_handshake_agrees [] (λ _, Ok 1) [] w_session w_request (domainAddress (s2b "a.b")) (ipv4Address [x0a; x00; x00; x01])).
  - split; [done|]. split; [done|]. split; [apply w_encodable|]. split; [by apply Z.leb_le|by apply Z.ltb_lt].
  - split; [done|]. split; [apply w_encodable|]. split; [by apply Z.leb_le|by apply Z.ltb_lt].
  - intros acc [= <-]. split; by apply Z.ltb_lt.
Defined.

(** What a client with the account sends. *)
Definition w_stream : Stream := mkStream ([x05; x01; x02] ++ account_bytes w_account ++ [x05; x01; x00] ++ wire (ipv4Address [x01; x02; x03; x04]) 80) EOF.

Lemma socks_needs_account_witness : ∃ req t st' o j, exec (λ _, None) (Handshake [] (λ _, Ok 1) [] w_session) w_stream 0 = (Ok (req, t), st', o, j) ∧
  ∃ u pw, HasAccount (config w_session) u pw = true ∧ User req = user_of u.
Proof.
  destruct (exec (λ _, None) (Handshake [] (λ _, Ok 1) [] w_session) w_stream 0) as [[[r st'] o] j] eqn:Ee.
  assert (Hr : ∃ req t, r = Ok (req, t)) by (assert (Hx : (exec (λ _, None) (Handshake [] (λ _, Ok 1) [] w_session) w_stream 0).1.1.1 = r) by (by rewrite Ee); vm_compute in Hx; subst r; by eexists _, _).
  destruct Hr as (req & t & ->). exists req, t, st', o, j. split; [done|].
  destruct (socks_needs_account [] (λ _, Ok 1) [] (λ _, None) w_session w_stream req t st' o j eq_refl Ee) as (n & ms & v & nu & u & np & pw & rest & _ & _ & _ & _ & Hh & Hu).
  exists u, pw. split; [exact Hh|exact Hu].
Defined.

(** A configured address that is a name, not an IP: a request for UDP panics. *)
Lemma domain_address_panics :
  (exec (λ _, None) (Handshake [] (λ _, Ok 1) [] (mkServerSession (mkServerConfig false None true (Some (IPOrDomain_Domain (s2b "a.b")))) None 0 None))
     (mkStream ([x05; x01; x00; x05; x03; x00] ++ wire AnyIP 0) EOF) 0).1.1.1 = Panic.
Proof. by vm_compute. Qed.
