(* ===== verification/MuxWorker.v ===== *)
(** * Mux workers

    Models [common/mux/server.go], [common/mux/client.go], the readers of [reader.go] and the chunk
    reader of [common/crypto/chunk.go] they use: the loop that takes the frames of a mux connection
    apart, opens a session for a new one, hands the data to the session's link and closes sessions,
    and the choice of a connection for a new session.

    The reader of a mux connection is the stream of its bytes together with the numbers of bytes that
    are at hand at its next reads of a payload. The links that the dispatcher opens are numbered; of
    each the model keeps what was written to it and whether it still takes data. Sessions, managers
    and the table of UDP sessions are those of [MuxSession]; a process has a manager for each worker,
    and one store. *)

From S2P Require Import MuxSession Prelude Net Buf AddrCodec BufReader MuxFrame.
Import Buffer MultiBuffer.

#[local] Open Scope Z_scope.

Abbreviation mbuf := (list Buffer.t).
Abbreviation TransferType := MuxWriter.TransferType.
Abbreviation TransferTypeStream := MuxWriter.TransferTypeStream.
Abbreviation TransferTypePacket := MuxWriter.TransferTypePacket.

(** ** Reading the data of a frame *)

Record Link := mkLink { lk_stream : Stream; lk_cuts : list nat }.
Definition drained (l : Link) : Link := mkLink (mkStream [] (serr (lk_stream l))) (lk_cuts l).

(** [BufferedReader.ReadAtMost]: at most [size] bytes of those at hand. *)
Definition ReadAtMost (l : Link) (size : Z) : mbuf * option GoError * Link :=
  let data := sdata (lk_stream l) in
  let '(hand, cuts) := match lk_cuts l with [] => (length data, []) | c :: cuts => (c, cuts) end in
  let n := Nat.min hand (Z.to_nat size) in
  match data with
  | [] => ([], Some (serr (lk_stream l)), mkLink (lk_stream l) cuts)
  | _ => ([Buffer.FromBytes (take n data)], None, mkLink (mkStream (drop n data) (serr (lk_stream l))) cuts)
  end.

(** [NewStreamReader] is a chunk reader of one chunk; [NewPacketReader] reads one packet. *)
Inductive FrameReader :=
| StreamReader (leftOverSize numChunk : Z)
| PacketFrameReader (eof : bool) (dest : option Destination).
Definition NewStreamReader : FrameReader := StreamReader 0 0.
Definition NewPacketReader (dest : Destination) : FrameReader := PacketFrameReader false (Some dest).
Definition maxNumChunk : Z := 1.

(** The rest of [ChunkStreamReader.ReadMultiBuffer], once the size is known. *)
Definition read_chunk (l : Link) (size numChunk : Z) : mbuf * option GoError * FrameReader * Link :=
  let '(mb, err, l) := ReadAtMost l size in
  if negb (MultiBuffer.IsEmpty mb) then (mb, None, StreamReader (size - MultiBuffer.Len mb) numChunk, l)
  else ([], err, StreamReader size numChunk, l).
Definition ChunkStreamReader_ReadMultiBuffer (l : Link) (leftOverSize numChunk : Z) : go (mbuf * option GoError * FrameReader * Link) :=
  if decide (leftOverSize = 0) then
    let numChunk := u32 (numChunk + 1) in
    if decide (maxNumChunk < numChunk) then Ok ([], Some EOF, StreamReader 0 numChunk, l)
    else
      let '(bs, err, s) := read_full (lk_stream l) 2 in
      let l := mkLink s (lk_cuts l) in
      match err with
      | Some e => Ok ([], Some e, StreamReader 0 numChunk, l)
      | None =>
          nextSize ← ok_or_panic (be16 bs);
          if decide (nextSize = 0) then Ok ([], Some EOF, StreamReader 0 numChunk, l)
          else Ok (read_chunk l nextSize numChunk)
      end
  else Ok (read_chunk l leftOverSize numChunk).

(** ** The context of a connection *)

(** What the handlers look at: the network that is allowed, the inbound (its user is a pointer, here
    the email), and whether the content has attributes. *)
Record CtxInbound := mkCtxInbound { ci_Source : Destination; ci_Local : Destination; ci_User : option (list byte) }.
Record Context := mkContext { cx_network : Network; cx_inbound : option CtxInbound; cx_attributes : bool }.

(** [session.SubContextFromMuxInbound] panics on attributes. *)
Definition SubContextFromMuxInbound (ctx : Context) : go Context := if cx_attributes ctx then Panic else Ok ctx.

(** The addresses of a frame of a reverse connection replace those of the inbound. *)
Definition frame_inbound (ctx : Context) (meta : FrameMetadata) : Context :=
  match f_Inbound meta, cx_inbound ctx with
  | Some i, Some inbound =>
      if IsValid (Source i) && IsValid (Local i)
      then mkContext (cx_network ctx) (Some (mkCtxInbound (Source i) (Local i) (ci_User inbound))) (cx_attributes ctx)
      else ctx
  | _, _ => ctx
  end.

(** [log.AccessMessage]; reading the email of a user that is not set panics. *)
Record AccessMessage := mkAccess { a_From : option Destination; a_To : Destination; a_Email : list byte }.
Definition access_message (ctx : Context) (meta : FrameMetadata) : go AccessMessage :=
  match cx_inbound ctx with
  | Some inbound =>
      if IsValid (ci_Source inbound)
      then email ← ok_or_panic (ci_User inbound); Ok (mkAccess (Some (ci_Source inbound)) (Target meta) email)
      else Ok (mkAccess None (Target meta) [])
  | None => Ok (mkAccess None (Target meta) [])
  end.

(** A context in which a new session does not panic: no attributes, and an inbound, if there is one, with
    a user. *)
Definition ctx_ok (ctx : Context) : Prop :=
  cx_attributes ctx = false ∧ match cx_inbound ctx with Some inbound => is_Some (ci_User inbound) | None => True end.

Lemma ctx_passes ctx meta : ctx_ok ctx →
  SubContextFromMuxInbound ctx = Ok ctx ∧ (∃ msg, access_message (frame_inbound ctx meta) meta = Ok msg) ∧
  cx_network (frame_inbound ctx meta) = cx_network ctx.
Proof.
  intros [Ha Hi]. unfold SubContextFromMuxInbound. rewrite Ha. split; [done|].
  assert (Hf : (match cx_inbound (frame_inbound ctx meta) with Some i => is_Some (ci_User i) | None => True end) ∧
               cx_network (frame_inbound ctx meta) = cx_network ctx).
  { unfold frame_inbound. destruct (f_Inbound meta) as [i|]; [|done]. destruct (cx_inbound ctx) as [inb|] eqn:Ei; [|by rewrite Ei].
    destruct (_ && _); [done|by rewrite Ei]. }
  destruct Hf as [Hu Hn]. split; [|done]. unfold access_message. destruct (cx_inbound (frame_inbound ctx meta)) as [inb|]; [|by eexists].
  destruct Hu as [u ->]. destruct (IsValid _); by eexists.
Qed.

Section worker.
Context (pooled : list byte).

(** A packet that cannot be read ends the connection, or is at its end: what is left does not matter. *)
Definition ReadFrame (r : FrameReader) (l : Link) : go (mbuf * option GoError * FrameReader * Link) :=
  match r with
  | StreamReader size num => ChunkStreamReader_ReadMultiBuffer l size num
  | PacketFrameReader eof dest =>
      match PacketReader.ReadMultiBuffer pooled (PacketReader.mk (lk_stream l) eof dest) with
      | Ok (p, mb) => Ok (mb, None, PacketFrameReader (PacketReader.eof p) dest, mkLink (PacketReader.reader p) (lk_cuts l))
      | Err e => Ok ([], Some e, r, if eof then l else drained l)
      | Panic => Panic
      end
  end.

(** [buf.Copy] from a frame to a writer. Each read takes a cut of the link; without cuts one read
    takes the payload and one finds its end, or two errors. *)
Section copy.
Context {W : Type} (write : W → mbuf → W * option GoError).
Fixpoint copy_loop (fuel : nat) (r : FrameReader) (l : Link) (w : W) : go (CopyError * FrameReader * Link * W) :=
  match fuel with
  | O => Panic
  | S fuel =>
      '(mb, err, r, l) ← ReadFrame r l;
      let go_on w := match err with Some e => Ok (readError e, r, l, w) | None => copy_loop fuel r l w end in
      if negb (MultiBuffer.IsEmpty mb) then
        match write w mb with
        | (w, Some e) => Ok (writeError e, r, l, w)
        | (w, None) => go_on w
        end
      else go_on w
  end.
Definition Copy (r : FrameReader) (l : Link) (w : W) : go (option CopyError * FrameReader * Link * W) :=
  '(e, r, l, w) ← copy_loop (3 + length (lk_cuts l)) r l w;
  Ok (if is_EOF e then None else Some e, r, l, w).
End copy.

Definition err_of (e : CopyError) : GoError := match e with readError e | writeError e => e end.
Definition IsWriteError (e : CopyError) : bool := match e with writeError _ => true | readError _ => false end.

(** [buf.Copy(r, buf.Discard)]. *)
Definition discard_write (w : unit) (mb : mbuf) : unit * option GoError := (w, None).
Definition discard (r : FrameReader) (l : Link) : go (option GoError * Link) :=
  '(e, _, l, _) ← Copy discard_write r l ();
  Ok (option_map err_of e, l).

(** ** The process *)

Record Out := mkOut { o_target : Destination; o_got : mbuf; o_open : bool }.
Definition out_write (o : Out) (mb : mbuf) : Out * option GoError :=
  if o_open o then (mkOut (o_target o) (o_got o ++ mb) true, None) else (o, Some ErrClosedPipe).
Definition out_close (o : Out) : Out := mkOut (o_target o) (o_got o) false.

(** [base] is the world of [MuxSession] but for the manager, which is the worker's. [parents],
    [links] and [kinds] are fields of the sessions. *)
Record Proc := mkProc {
  managers : gmap nat SessionManager;
  base : World;
  parents : gmap nat nat;
  links : gmap nat nat;
  kinds : gmap nat TransferType;
  outs : gmap nat Out;
  sent : gmap nat (list mbuf)
}.

Definition focus (p : Proc) (i : nat) : World := set_mgr (base p) (default NewSessionManager (managers p !! i)).
Definition unfocus (p : Proc) (i : nat) (w : World) : Proc :=
  mkProc (<[i := mgr w]> (managers p)) w (parents p) (links p) (kinds p) (outs p) (sent p).
Definition with_outs (p : Proc) (o : gmap nat Out) : Proc := mkProc (managers p) (base p) (parents p) (links p) (kinds p) o (sent p).
Definition with_base (p : Proc) (w : World) : Proc := mkProc (managers p) w (parents p) (links p) (kinds p) (outs p) (sent p).
Definition send (p : Proc) (i : nat) (mbs : list mbuf) : Proc :=
  mkProc (managers p) (base p) (parents p) (links p) (kinds p) (outs p) (<[i := default [] (sent p !! i) ++ mbs]> (sent p)).

Definition close_out (p : Proc) (k : nat) : Proc := with_outs p (alter out_close k (outs p)).
(** What closing sessions does to their links. *)
Definition apply_event (p : Proc) (e : Event) : Proc :=
  match e with
  | EvCloseOutput r => match links p !! r with Some k => close_out p k | None => p end
  | _ => p
  end.
Definition apply_events (p : Proc) (i : nat) (w : World) : Proc :=
  foldl apply_event (unfocus p i w) (drop (length (events (base p))) (events w)).

(** [s.Close(false)]: a session without a parent cannot be closed. *)
Definition close_session (now : Z) (p : Proc) (r : nat) : go Proc :=
  i ← ok_or_panic (parents p !! r);
  w ← MuxSession.Session_Close now (focus p i) r;
  Ok (apply_events p i w).
(** [w.sessionManager.Close()]. *)
Definition close_manager (now : Z) (p : Proc) (i : nat) : go Proc :=
  w ← MuxSession.Manager_Close now (focus p i);
  Ok (apply_events p i w).
(** One tick of [monitor]: whether the worker is done. *)
Definition tick (p : Proc) (i : nat) (checkSize checkCount : Z) : Proc * bool :=
  let '(w, b) := MuxSession.CloseIfNoSessionAndIdle (focus p i) checkSize checkCount in (unfocus p i w, b).

(** A session of worker [i] on link [k], not yet in the manager. *)
Definition new_session (p : Proc) (i k : nat) (id : Z) (kind : TransferType) (x : option nat) : Proc * nat :=
  let r := fresh (dom (store (base p))) in
  (mkProc (managers p) (set_session (base p) r (mkSession id false None x)) (<[r := i]> (parents p)) (<[r := k]> (links p))
     (<[r := kind]> (kinds p)) (outs p) (sent p), r).
Definition add_session (p : Proc) (i r : nat) : go (Proc * bool) :=
  '(w, ok) ← MuxSession.Add (focus p i) r; Ok (unfocus p i w, ok).

(** The dispatcher: an error, or a new link. *)
Context (dispatch : Destination → option GoError).
Definition Dispatch (p : Proc) (target : Destination) : Proc * (GoError + nat) :=
  match dispatch target with
  | Some e => (p, inl e)
  | None => let k := fresh (dom (outs p)) in (with_outs p (<[k := mkOut target [] true]> (outs p)), inr k)
  end.

(** ** The handlers of the server *)

Abbreviation result := (go (Proc * Link * option GoError)).

Definition handleStatusKeepAlive (p : Proc) (meta : FrameMetadata) (l : Link) : result :=
  if Bitmask.Has (Option meta) OptionData then '(e, l) ← discard NewStreamReader l; Ok (p, l, e) else Ok (p, l, None).

Definition session_reader (kind : TransferType) (dest : Destination) : FrameReader :=
  if decide (kind = TransferTypeStream) then NewStreamReader else NewPacketReader dest.

(** The data of a frame goes to the link of session [r]; where the link does not take it, the session
    is closed and the rest of the data is thrown away. *)
Definition copy_to_session (now : Z) (p : Proc) (r : nat) (meta : FrameMetadata) (l : Link) : result :=
  kind ← ok_or_panic (kinds p !! r);
  k ← ok_or_panic (links p !! r);
  o ← ok_or_panic (outs p !! k);
  '(err, rr, l, o) ← Copy out_write (session_reader kind (Target meta)) l o;
  let p := with_outs p (<[k := o]> (outs p)) in
  match err with
  | None => Ok (p, l, None)
  | Some e =>
      if IsWriteError e then p ← close_session now p r; '(e, l) ← discard rr l; Ok (p, l, e)
      else Ok (p, l, Some (err_of e))
  end.

Definition handleStatusKeep (now : Z) (p : Proc) (i : nat) (meta : FrameMetadata) (l : Link) : result :=
  if negb (Bitmask.Has (Option meta) OptionData) then Ok (p, l, None)
  else
    match MuxSession.Get (focus p i) (SessionID meta) with
    | None =>
        mbs ← MuxWriter.Close accept pooled (MuxWriter.NewResponseWriter (SessionID meta) TransferTypeStream) [];
        '(e, l) ← discard NewStreamReader l; Ok (send p i mbs, l, e)
    | Some r => copy_to_session now p r meta l
    end.

Definition handleStatusEnd (now : Z) (p : Proc) (i : nat) (meta : FrameMetadata) (l : Link) : result :=
  p ← (match MuxSession.Get (focus p i) (SessionID meta) with Some r => close_session now p r | None => Ok p end);
  if Bitmask.Has (Option meta) OptionData then '(e, l) ← discard NewStreamReader l; Ok (p, l, e) else Ok (p, l, None).

Definition set_status (p : Proc) (x : nat) (v : XUDP) (st : XStatus) : Proc := with_base p (set_xudp (base p) x (mkXUDP (x_GlobalID v) st (x_Expire v) (x_Mux v))).
Definition set_mux (p : Proc) (x : nat) (v : XUDP) (r : nat) : Proc := with_base p (set_xudp (base p) x (mkXUDP (x_GlobalID v) Active (x_Expire v) r)).
Definition with_xmap (p : Proc) (m : gmap (list byte) nat) : Proc :=
  with_base p (mkWorld (mgr (base p)) (store (base p)) (xudps (base p)) m (events (base p))).

(** The entry of a global ID: a new one, whose session is nil, or the one that is there. *)
Definition new_xudp (p : Proc) (gid : list byte) : Proc * nat * XUDP :=
  let x := fresh (dom (xudps (base p))) in
  let v := mkXUDP gid Initializing 0 (fresh (dom (store (base p)))) in
  (with_xmap (with_base p (set_xudp (base p) x v)) (<[gid := x]> (xmap (base p))), x, v).

(** The packet [mb] goes to the link of the entry's session, which is detached from its connection;
    the packet is given back where the link does not take it. *)
Definition reattach (now : Z) (p : Proc) (x : nat) (v : XUDP) (mb : mbuf) : go (Proc * nat * option mbuf) :=
  let p := set_status p x v Initializing in
  p ← close_session now p (x_Mux v);
  k ← ok_or_panic (links p !! x_Mux v);
  o ← ok_or_panic (outs p !! k);
  let '(o, err) := out_write o mb in
  let p := with_outs p (<[k := o]> (outs p)) in
  match err with
  | Some _ => Ok (close_out p k, k, Some mb)
  | None => Ok (p, k, None)
  end.
(** A new link for the packet, or the entry is deleted. *)
Definition dispatch_packet (p : Proc) (v : XUDP) (target : Destination) (mb : mbuf) : Proc * (GoError + nat) :=
  match Dispatch p target with
  | (p, inl e) => (with_xmap p (delete (x_GlobalID v) (xmap (base p))), inl e)
  | (p, inr k) => (with_outs p (alter (λ o, (out_write o mb).1) k (outs p)), inr k)
  end.
Definition attach (now : Z) (p : Proc) (i : nat) (meta : FrameMetadata) (x : nat) (v : XUDP) (k : nat) (l : Link) : result :=
  let '(p, r) := new_session p i k (SessionID meta) TransferTypePacket (Some x) in
  let p := set_mux p x v r in
  '(p, ok) ← add_session p i r;
  if ok : bool then Ok (p, l, None)
  else p ← close_session now p r; Ok (p, l, Some (ErrMsg "failed to add new session")).

Definition new_xudp_session (now : Z) (p : Proc) (i : nat) (meta : FrameMetadata) (l : Link) : result :=
  '(mb, err, _, l) ← ReadFrame (NewPacketReader (Target meta)) l;
  match err with
  | Some e => Ok (p, l, Some e)
  | None =>
      let fresh_link p x v :=
        match dispatch_packet p v (Target meta) mb with
        | (p, inl e) => Ok (p, l, Some e)
        | (p, inr k) => attach now p i meta x v k l
        end in
      match xmap (base p) !! GlobalID meta with
      | None => let '(p, x, v) := new_xudp p (GlobalID meta) in fresh_link p x v
      | Some x =>
          v ← ok_or_panic (xudps (base p) !! x);
          if decide (x_Status v = Initializing) then Ok (p, l, None)
          else
            '(p, k, mb) ← reattach now p x v mb;
            match mb with Some _ => fresh_link p x v | None => attach now p i meta x v k l end
      end
  end.

Definition new_plain_session (now : Z) (p : Proc) (i : nat) (meta : FrameMetadata) (l : Link) : result :=
  match Dispatch p (Target meta) with
  | (p, inl e) =>
      if Bitmask.Has (Option meta) OptionData then '(_, l) ← discard NewStreamReader l; Ok (p, l, Some e) else Ok (p, l, Some e)
  | (p, inr k) =>
      let kind := if decide (d_Network (Target meta) = Network_UDP) then TransferTypePacket else TransferTypeStream in
      let '(p, r) := new_session p i k (SessionID meta) kind None in
      '(p, ok) ← add_session p i r;
      if negb ok then p ← close_session now p r; Ok (p, l, Some (ErrMsg "failed to add new session"))
      else if negb (Bitmask.Has (Option meta) OptionData) then Ok (p, l, None)
      else copy_to_session now p r meta l
  end.

Definition handleStatusNew (ctx : Context) (now : Z) (p : Proc) (i : nat) (meta : FrameMetadata) (l : Link) : result :=
  ctx ← SubContextFromMuxInbound ctx;
  let ctx := frame_inbound ctx meta in
  _ ← access_message ctx meta;
  if decide (cx_network ctx ≠ Network_Unknown ∧ d_Network (Target meta) ≠ cx_network ctx) then Ok (p, l, Some (ErrMsg "unexpected network "))
  else if decide (GlobalID meta ≠ replicate 8 x00) then new_xudp_session now p i meta l
  else new_plain_session now p i meta l.

Definition dispatch_frame (ctx : Context) (now : Z) (p : Proc) (i : nat) (meta : FrameMetadata) (l : Link) : result :=
  if decide (SessionStatus meta = SessionStatusKeepAlive) then handleStatusKeepAlive p meta l
  else if decide (SessionStatus meta = SessionStatusEnd) then handleStatusEnd now p i meta l
  else if decide (SessionStatus meta = SessionStatusNew) then handleStatusNew ctx now p i meta l
  else if decide (SessionStatus meta = SessionStatusKeep) then handleStatusKeep now p i meta l
  else Ok (p, l, Some (ErrMsg "unknown status: ")).
Definition handleFrame (ctx : Context) (reverse : bool) (now : Z) (p : Proc) (i : nat) (l : Link) : result :=
  match Unmarshal pooled zero_frame (lk_stream l) reverse with
  | Panic => Panic
  | Err e => Ok (p, l, Some e)
  | Ok (meta, s) => dispatch_frame ctx now p i meta (mkLink s (lk_cuts l))
  end.

(** ** The handlers of the client *)

(** A new session of the peer is thrown away. The other handlers read like the server's. *)
Definition client_handleStatusNew (p : Proc) (meta : FrameMetadata) (l : Link) : result :=
  if Bitmask.Has (Option meta) OptionData then '(e, l) ← discard NewStreamReader l; Ok (p, l, e) else Ok (p, l, None).
(** One round of [fetchOutput]; [meta] is the variable of the loop. *)
Definition fetch_frame (now : Z) (p : Proc) (i : nat) (meta : FrameMetadata) (l : Link) : go (Proc * FrameMetadata * Link * option GoError) :=
  match Unmarshal pooled meta (lk_stream l) false with
  | Panic => Panic
  | Err e => Ok (p, meta, l, Some e)
  | Ok (meta, s) =>
      let l := mkLink s (lk_cuts l) in
      '(p, l, err) ←
        (if decide (SessionStatus meta = SessionStatusKeepAlive) then handleStatusKeepAlive p meta l
         else if decide (SessionStatus meta = SessionStatusEnd) then handleStatusEnd now p i meta l
         else if decide (SessionStatus meta = SessionStatusNew) then client_handleStatusNew p meta l
         else if decide (SessionStatus meta = SessionStatusKeep) then handleStatusKeep now p i meta l
         else Ok (p, l, Some (ErrMsg "unknown status: ")));
      Ok (p, meta, l, err)
  end.
End worker.

(** ** Picking a connection *)

Record ClientWorker := mkClient { cw_world : World; cw_done : bool }.
(** The workers are shared by reference; [p_workers] is the list of the picker. *)
Record Picker := mkPicker { p_clients : gmap nat ClientWorker; p_workers : list nat }.

Section picker.
Context (strategy : ClientStrategy).
(** [Factory.Create]: an error, or a new connection. *)
Context (create : option GoError).

Definition IsClosing (w : ClientWorker) : bool :=
  bool_decide (MaxConnection strategy > 0 ∧ MaxConnection strategy ≤ MuxSession.Count (cw_world w)).
Definition IsFull (w : ClientWorker) : bool :=
  IsClosing w || cw_done w || bool_decide (MaxConcurrency strategy > 0 ∧ MaxConcurrency strategy ≤ MuxSession.Size (cw_world w)).
(** [ClientWorker.Dispatch]: whether the worker took the link, and its session. *)
Definition Worker_Dispatch (w : ClientWorker) : go (ClientWorker * option nat) :=
  if IsFull w then Ok (w, None)
  else '(wd, s) ← MuxSession.Allocate (cw_world w) strategy; Ok (mkClient wd (cw_done w), s).

Definition is_full (p : Picker) (i : nat) : bool := match p_clients p !! i with Some w => IsFull w | None => true end.
Definition is_closed (p : Picker) (i : nat) : bool := match p_clients p !! i with Some w => cw_done w | None => true end.
Definition with_workers (p : Picker) (l : list nat) : Picker := mkPicker (p_clients p) l.

Definition cleanup (p : Picker) : Picker := with_workers p (base.filter (λ i, is_closed p i = false) (p_workers p)).
Definition cleanupFunc (p : Picker) : Picker * option GoError :=
  match p_workers p with [] => (p, Some (ErrMsg "no worker")) | _ => (cleanup p, None) end.

Fixpoint find_loop (p : Picker) (idx : nat) (l : list nat) : option nat :=
  match l with [] => None | i :: l => if negb (is_full p i) then Some idx else find_loop p (S idx) l end.
Definition findAvailable (p : Picker) : option nat := find_loop p 0 (p_workers p).

(** The swap comes before the element of the index is returned. *)
Definition swap (l : list nat) (a b : nat) : list nat :=
  match l !! a, l !! b with Some x, Some y => <[b := x]> (<[a := y]> l) | _, _ => l end.
Definition pickInternal (p : Picker) : go (Picker * (GoError + nat)) :=
  match findAvailable p with
  | Some idx =>
      let n := length (p_workers p) in
      let p := if decide (1 < n ∧ idx ≠ n - 1)%nat then with_workers p (swap (p_workers p) (n - 1) idx) else p in
      i ← ok_or_panic (p_workers p !! idx);
      Ok (p, inr i)
  | None =>
      let p := cleanup p in
      match create with
      | Some e => Ok (p, inl e)
      | None =>
          let i := fresh (dom (p_clients p)) in
          Ok (mkPicker (<[i := mkClient MuxSession.initial false]> (p_clients p)) (p_workers p ++ [i]), inr i)
      end
  end.

(** [ClientManager.Dispatch]: the worker and the session, after at most sixteen picks. *)
Fixpoint dispatch_loop (tries : nat) (p : Picker) : go (Picker * (GoError + nat * nat)) :=
  match tries with
  | O => Ok (p, inl (ErrMsg "unable to find an available mux client"))
  | S tries =>
      '(p, picked) ← pickInternal p;
      match picked with
      | inl e => Ok (p, inl e)
      | inr i =>
          w ← ok_or_panic (p_clients p !! i);
          '(w, s) ← Worker_Dispatch w;
          let p := mkPicker (<[i := w]> (p_clients p)) (p_workers p) in
          match s with Some s => Ok (p, inr (i, s)) | None => dispatch_loop tries p end
      end
  end.
Definition Manager_Dispatch (p : Picker) : go (Picker * (GoError + nat * nat)) := dispatch_loop 16 p.
End picker.

(** ** A new session finds its connection *)

Section picks.
Context (strategy : ClientStrategy) (create : option GoError).

(** A worker whose connection stands has an open manager. *)
Definition sound_worker (w : ClientWorker) : Prop :=
  cw_done w = false → MuxSession.closed (mgr (cw_world w)) = false ∧ sessions (mgr (cw_world w)) ≠ None.
Definition sound (p : Picker) : Prop :=
  (∀ i, i ∈ p_workers p → is_Some (p_clients p !! i)) ∧ ∀ i w, p_clients p !! i = Some w → sound_worker w.

Lemma not_full_allocates w : 0 ≤ MaxConnection strategy < 65536 → sound_worker w → IsFull strategy w = false →
  cw_done w = false ∧ ∃ wd s, MuxSession.Allocate (cw_world w) strategy = Ok (wd, Some s).
Proof.
  intros Hm Hw Hf. unfold IsFull, IsClosing in Hf. apply orb_false_iff in Hf as [[Hc Hd]%orb_false_iff Hs]. apply bool_decide_eq_false in Hc, Hs.
  destruct (Hw Hd) as [Ho Hn]. split; [done|]. unfold MuxSession.Allocate. rewrite u16_small by done.
  rewrite decide_False by (intros [H|[[H1 H2]|[H1 H2]]]; [congruence|by apply Hs|by apply Hc]).
  destruct (sessions (mgr (cw_world w))) as [m|]; [|done]. eexists _, _. reflexivity.
Qed.

Lemma find_loop_spec p l : ∀ idx,
  match find_loop strategy p idx l with
  | Some j => ∃ k i, j = (idx + k)%nat ∧ l !! k = Some i ∧ is_full strategy p i = false
  | None => ∀ i, i ∈ l → is_full strategy p i = true
  end.
Proof.
  induction l as [|i l IH]; intros idx; cbn [find_loop]; [by intros i ?%elem_of_nil|]. destruct (is_full strategy p i) eqn:Ei; cbn [negb].
  - specialize (IH (S idx)). destruct (find_loop strategy p (S idx) l) as [j|].
    + destruct IH as (k & i' & -> & Hk & Hf). exists (S k), i'. split; [lia|done].
    + intros i' [->|Hin]%elem_of_cons; auto.
  - exists 0%nat, i. split; [lia|done].
Qed.

Lemma swap_spec (l : list nat) a b x y : l !! a = Some x → l !! b = Some y → a ≠ b →
  swap l a b ≡ₚ l ∧ swap l a b !! a = Some y ∧ swap l a b !! b = Some x ∧ length (swap l a b) = length l.
Proof.
  intros Ha Hb Hne. unfold swap. rewrite Ha, Hb. split; [by apply Permutation_insert_swap|].
  pose proof (lookup_lt_Some _ _ _ Ha). pose proof (lookup_lt_Some _ _ _ Hb).
  rewrite list_lookup_insert_ne by done. rewrite !list_lookup_insert_eq by (rewrite ?length_insert; lia). by rewrite !length_insert.
Qed.

Lemma workers_only p l i : is_full strategy (with_workers p l) i = is_full strategy p i.
Proof. done. Qed.

(** A pick with a worker at hand: a worker of the list, after which the last of the list has room. *)
Lemma pick_some p : (∃ i, i ∈ p_workers p ∧ is_full strategy p i = false) →
  ∃ l j z, pickInternal strategy create p = Ok (with_workers p l, inr j) ∧ l ≡ₚ p_workers p ∧ j ∈ p_workers p ∧
    list.last l = Some z ∧ is_full strategy p z = false ∧
    (∀ x, list.last (p_workers p) = Some x → is_full strategy p x = false → j = x).
Proof.
  intros (i0 & Hi0 & Hf0). unfold pickInternal, findAvailable. pose proof (find_loop_spec p (p_workers p) 0) as Hfind.
  destruct (find_loop strategy p 0 (p_workers p)) as [idx|]; [|rewrite (Hfind i0 Hi0) in Hf0; done]. destruct Hfind as (k & i & -> & Hk & Hf). cbn [plus Nat.add].
  pose proof (lookup_lt_Some _ _ _ Hk) as Hlt. set (n := length (p_workers p)) in *.
  assert (is_Some (p_workers p !! (n - 1)%nat)) as [x Hx] by (apply lookup_lt_is_Some_2; lia).
  assert (Hlast : list.last (p_workers p) = Some x) by (rewrite last_lookup; unfold n in *; by replace (pred (length (p_workers p))) with (length (p_workers p) - 1)%nat by lia).
  destruct (decide (1 < n ∧ k ≠ n - 1)%nat) as [Hsw|Hsw].
  - destruct (swap_spec (p_workers p) (n - 1) k x i Hx Hk ltac:(lia)) as (Hp & H1 & H2 & Hlen). cbv zeta. cbn [p_workers with_workers]. rewrite H2. cbn [ok_or_panic mbind go_bind].
    exists (swap (p_workers p) (n - 1) k), x, i. split; [done|]. split; [done|]. split; [by eapply list_elem_of_lookup_2|].
    split; [rewrite last_lookup, Hlen; fold n; by replace (pred n) with (n - 1)%nat by lia|]. split; [done|]. intros x' Hx' _. congruence.
  - assert (k = (n - 1)%nat) as -> by lia. cbv zeta. rewrite Hk. cbn [ok_or_panic mbind go_bind]. exists (p_workers p), i, i.
    split; [by destruct p|]. split; [done|]. split; [by eapply list_elem_of_lookup_2|]. assert (x = i) as -> by congruence. split; [done|]. split; [done|]. congruence.
Qed.

Lemma dispatch_picked n p l i : pickInternal strategy create p = Ok (with_workers p l, inr i) → dispatch_loop strategy create (S n) p =
  (w ← ok_or_panic (p_clients p !! i); '(w, s) ← Worker_Dispatch strategy w;
   match s with Some s => Ok (mkPicker (<[i := w]> (p_clients p)) l, inr (i, s)) | None => dispatch_loop strategy create n (mkPicker (<[i := w]> (p_clients p)) l) end).
Proof. intros H. cbn [dispatch_loop]. by rewrite H. Qed.

Lemma full_tries p i w tries : p_clients p !! i = Some w → IsFull strategy w = true → ∀ l,
  (w ← ok_or_panic (p_clients p !! i); '(w, s) ← Worker_Dispatch strategy w;
   match s with Some s => Ok (mkPicker (<[i := w]> (p_clients p)) l, inr (i, s)) | None => dispatch_loop strategy create tries (mkPicker (<[i := w]> (p_clients p)) l) end)
  = dispatch_loop strategy create tries (with_workers p l).
Proof.
  intros Hi Hf l. rewrite Hi. cbn [ok_or_panic mbind go_bind]. unfold Worker_Dispatch. rewrite Hf. cbn [mbind go_bind]. by rewrite insert_id.
Qed.

Lemma room_takes p i w tries l : 0 ≤ MaxConnection strategy < 65536 → sound p → p_clients p !! i = Some w → IsFull strategy w = false →
  ∃ wd s, MuxSession.Allocate (cw_world w) strategy = Ok (wd, Some s) ∧
  (w ← ok_or_panic (p_clients p !! i); '(w, s) ← Worker_Dispatch strategy w;
   match s with Some s => Ok (mkPicker (<[i := w]> (p_clients p)) l, inr (i, s)) | None => dispatch_loop strategy create tries (mkPicker (<[i := w]> (p_clients p)) l) end)
  = Ok (mkPicker (<[i := mkClient wd false]> (p_clients p)) l, inr (i, s)).
Proof.
  intros Hm [_ Hs] Hi Hf. destruct (not_full_allocates w Hm (Hs i w Hi) Hf) as (Hd & wd & s & E). exists wd, s. split; [done|].
  rewrite Hi. cbn [ok_or_panic mbind go_bind]. unfold Worker_Dispatch. rewrite Hf, E. cbn [mbind go_bind]. by rewrite Hd.
Qed.

Lemma full_worker p i : is_full strategy p i = false → ∃ w, p_clients p !! i = Some w ∧ IsFull strategy w = false.
Proof. unfold is_full. destruct (p_clients p !! i) as [w|]; [by exists w|done]. Qed.

(** With a worker that has room, the second pick at the latest is one. *)
Lemma dispatch_reuses n p : 0 ≤ MaxConnection strategy < 65536 → sound p → (∃ i, i ∈ p_workers p ∧ is_full strategy p i = false) →
  ∃ i w wd s l, i ∈ p_workers p ∧ p_clients p !! i = Some w ∧ IsFull strategy w = false ∧ MuxSession.Allocate (cw_world w) strategy = Ok (wd, Some s) ∧
    l ≡ₚ p_workers p ∧ dispatch_loop strategy create (S (S n)) p = Ok (mkPicker (<[i := mkClient wd false]> (p_clients p)) l, inr (i, s)).
Proof.
  intros Hm Hs Hav. destruct (pick_some p Hav) as (l & j & z & E & Hp & Hj & Hz & Hfz & _). rewrite (dispatch_picked (S n) p l j E). destruct (proj1 Hs j Hj) as [wj Hwj]. destruct (IsFull strategy wj) eqn:Ej.
  - rewrite (full_tries p j wj (S n) Hwj Ej l). assert (Hzl : z ∈ l) by (rewrite last_lookup in Hz; by eapply list_elem_of_lookup_2).
    destruct (pick_some (with_workers p l)) as (l2 & j2 & z2 & E2 & Hp2 & Hj2 & _ & _ & Hz2); [exists z; by rewrite workers_only|].
    assert (j2 = z) as -> by (by apply Hz2). rewrite (dispatch_picked n (with_workers p l) l2 z E2). cbn [p_clients p_workers with_workers] in *.
    destruct (full_worker p z Hfz) as (w & Hw & Hfw). destruct (room_takes p z w n l2 Hm Hs Hw Hfw) as (wd & s & Ea & ->).
    exists z, w, wd, s, l2. split; [by rewrite <- Hp|]. split; [done|]. split; [done|]. split; [done|]. split; [by rewrite Hp2|done].
  - destruct (room_takes p j wj (S n) l Hm Hs Hwj Ej) as (wd & s & Ea & ->). exists j, wj, wd, s, l. done.
Qed.

Lemma none_available p : existsb (λ i, negb (is_full strategy p i)) (p_workers p) = false → findAvailable strategy p = None.
Proof.
  intros H. unfold findAvailable. pose proof (find_loop_spec p (p_workers p) 0) as Hf. destruct (find_loop strategy p 0 (p_workers p)) as [idx|]; [|done].
  destruct Hf as (k & i & _ & Hk & Hi). assert (existsb (λ i, negb (is_full strategy p i)) (p_workers p) = true); [|congruence].
  apply existsb_exists. exists i. split; [by apply list_elem_of_In, (list_elem_of_lookup_2 _ k)|by rewrite Hi].
Qed.

Lemma dispatch_creates n p : 0 ≤ MaxConnection strategy < 65536 → findAvailable strategy p = None → create = None →
  ∃ i wd s, p_clients p !! i = None ∧ MuxSession.Allocate MuxSession.initial strategy = Ok (wd, Some s) ∧
    dispatch_loop strategy create (S n) p = Ok (mkPicker (<[i := mkClient wd false]> (p_clients p)) (p_workers (cleanup p) ++ [i]), inr (i, s)).
Proof.
  intros Hm Hf ->. set (w := mkClient MuxSession.initial false). assert (Hw : IsFull strategy w = false).
  { unfold IsFull, IsClosing. cbn -[MuxSession.Size]. change (MuxSession.Size MuxSession.initial) with 0. rewrite !bool_decide_eq_false_2; [done|lia..]. }
  destruct (not_full_allocates w Hm) as (_ & wd & s & E); [by intros _|done|]. set (i := fresh (dom (p_clients p))). exists i, wd, s.
  split; [apply not_elem_of_dom, is_fresh|]. split; [done|]. cbn [dispatch_loop]. unfold pickInternal. rewrite Hf. cbn [mbind go_bind p_clients p_workers cleanup with_workers].
  fold i w. rewrite lookup_insert_eq. cbn [ok_or_panic mbind go_bind]. unfold Worker_Dispatch. rewrite Hw, E. cbn [mbind go_bind]. by rewrite insert_insert_eq.
Qed.
End picks.

(** Where the first worker has room and the last has none, the pick is the last: the elements of the
    list are swapped before the one of the index is returned. *)
Lemma pick_takes_full strategy create p a b : p_workers p = [a; b] → is_full strategy p a = false → is_full strategy p b = true →
  pickInternal strategy create p = Ok (with_workers p [b; a], inr b).
Proof. intros Hl Ha Hb. unfold pickInternal, findAvailable. rewrite Hl. cbn [find_loop]. by rewrite Ha. Qed.

(** A new session finds its mux connection. Where the open workers have open managers, and whatever
    the order of the list: if some worker has room, [ClientManager.Dispatch] opens the session on a worker
    that has room, opens no connection and changes no other worker; otherwise it forgets the closed workers
    and opens the session on one new connection, or reports why there is none. It never panics, and never
    gives up after its sixteen picks. *)
Lemma mux_dispatch_finds strategy create p : 0 ≤ MaxConnection strategy < 65536 → sound p →
  if existsb (λ i, negb (is_full strategy p i)) (p_workers p) then
    ∃ i w wd s l, i ∈ p_workers p ∧ p_clients p !! i = Some w ∧ IsFull strategy w = false ∧ MuxSession.Allocate (cw_world w) strategy = Ok (wd, Some s) ∧
      l ≡ₚ p_workers p ∧ Manager_Dispatch strategy create p = Ok (mkPicker (<[i := mkClient wd false]> (p_clients p)) l, inr (i, s))
  else
    match create with
    | Some e => Manager_Dispatch strategy create p = Ok (cleanup p, inl e)
    | None => ∃ i wd s, p_clients p !! i = None ∧ MuxSession.Allocate MuxSession.initial strategy = Ok (wd, Some s) ∧
        Manager_Dispatch strategy create p = Ok (mkPicker (<[i := mkClient wd false]> (p_clients p)) (p_workers (cleanup p) ++ [i]), inr (i, s))
    end.
Proof.
  intros Hm Hs. destruct (existsb _ _) eqn:He.
  - apply dispatch_reuses; [done|done|]. apply existsb_exists in He as (i & Hi & Hf). exists i. split; [by apply list_elem_of_In|]. by apply negb_true_iff.
  - apply none_available in He. destruct create as [e|]; [|by apply dispatch_creates]. unfold Manager_Dispatch. change 16%nat with (S 15). cbn [dispatch_loop]. unfold pickInternal. by rewrite He.
Qed.

Definition demo_strategy : ClientStrategy := mkStrategy 1 0.
Definition demo_full : ClientWorker := mkClient (mkWorld (mkManager (Some {[ 1 := 0%nat ]}) 1 false) {[ 0%nat := mkSession 1 false (Some false) None ]} ∅ ∅ []) false.
Definition demo_picker : Picker := mkPicker {[ 0%nat := mkClient MuxSession.initial false; 1%nat := demo_full ]} [0%nat; 1%nat].

Lemma mux_dispatch_finds_witness : ∃ i s q, Manager_Dispatch demo_strategy None demo_picker = Ok (q, inr (i, s)) ∧ p_workers q ≡ₚ [0%nat; 1%nat].
Proof.
  destruct (mux_dispatch_finds demo_strategy None demo_picker) as (i & w & wd & s & l & _ & _ & _ & _ & Hp & E).
  - cbn. lia.
  - split.
    + intros i [->|[->|[]%elem_of_nil]%elem_of_cons]%elem_of_cons; vm_compute; eauto.
    + intros i w Hi _. unfold demo_picker in Hi. cbn [p_clients] in Hi. apply lookup_insert_Some in Hi as [[_ <-]|[_ [_ <-]%lookup_singleton_Some]]; by split.
  - exists i, s, (mkPicker (<[i:=mkClient wd false]> (p_clients demo_picker)) l). split; [exact E|exact Hp].
Defined.

(** ** The data of one frame *)

(** What a frame's data is to a session: bytes, or one packet. *)
Definition data_units (kind : TransferType) (d : list byte) : list (list byte) := match kind with MuxWriter.TransferTypeStream => (λ c, [c]) <$> d | MuxWriter.TransferTypePacket => [d] end.
Definition got_units (kind : TransferType) (mb : mbuf) : list (list byte) :=
  match kind with MuxWriter.TransferTypeStream => (λ c, [c]) <$> mcontent mb | MuxWriter.TransferTypePacket => content <$> mb end.

Lemma got_units_app kind a b : got_units kind (a ++ b) = got_units kind a ++ got_units kind b.
Proof. destruct kind; cbn; [by rewrite mcontent_app, fmap_app|by rewrite fmap_app]. Qed.

Section copying.
Context (pooled : list byte).

(** A read inside a chunk takes a part of what is left of it, and a cut of the link. *)
Lemma read_chunk_spec d rest e cuts num : 0 < len d < 65536 →
  ∃ mb d1 d2 cuts', read_chunk (mkLink (mkStream (d ++ rest) e) cuts) (len d) num
      = (mb, None, StreamReader (len d2) num, mkLink (mkStream (d2 ++ rest) e) cuts') ∧
    d = d1 ++ d2 ∧ MultiBuffer.IsEmpty mb = bool_decide (d1 = []) ∧ mcontent mb = d1 ∧
    (length cuts' < length cuts ∨ cuts = [] ∧ cuts' = [] ∧ d2 = [])%nat.
Proof.
  intros Hd. unfold read_chunk, ReadAtMost. cbn [lk_stream lk_cuts sdata serr].
  set (hc := match cuts with [] => (length (d ++ rest), []) | c :: cs => (c, cs) end). destruct hc as [hand cuts'] eqn:Eh.
  set (n := Nat.min hand (Z.to_nat (len d))). assert (Hn : (n ≤ length d)%nat) by (unfold n, len; lia).
  assert (Hcut : (length cuts' < length cuts ∨ cuts = [] ∧ cuts' = [] ∧ drop n d = [])%nat).
  { destruct cuts as [|c cs]; injection Eh as <- <-; [right|left; cbn; lia]. split; [done|]. split; [done|]. apply drop_ge. unfold n, len. rewrite length_app. lia. }
  clearbody n. clear Eh hc.
  destruct (d ++ rest) as [|x xs] eqn:Ed; [destruct d; [unfold len in Hd; cbn in Hd; lia|done]|]. rewrite <- Ed.
  rewrite take_app_le, drop_app_le by done. destruct (wf_FromBytes (take n d)) as [Hw Hc]; [unfold len; rewrite length_take; unfold len in Hd; lia|].
  assert (Hm : mcontent [Buffer.FromBytes (take n d)] = take n d) by (rewrite mcontent_cons, Hc; change (mcontent []) with (@nil byte); by rewrite app_nil_r).
  assert (He : MultiBuffer.IsEmpty [Buffer.FromBytes (take n d)] = bool_decide (take n d = [])) by (rewrite empty_bytes by (by apply Forall_singleton); by rewrite Hm).
  rewrite He. case_bool_decide as Hz; cbn [negb].
  - exists [], [], d, cuts'. assert (n = 0%nat) as -> by (apply (f_equal length) in Hz; rewrite length_take in Hz; cbn in Hz; unfold len in Hd; lia).
    rewrite drop_0. split; [done|]. split; [done|]. split; [done|]. split; [done|]. rewrite drop_0 in Hcut. done.
  - exists [Buffer.FromBytes (take n d)], (take n d), (drop n d), cuts'. split; [|split; [by rewrite take_drop|split; [by rewrite bool_decide_false|split; [done|exact Hcut]]]].
    do 3 f_equal. f_equal. unfold MultiBuffer.Len. rewrite Len_loop_spec.
    + rewrite Hm. unfold len. rewrite length_take, length_drop. lia.
    + by apply Forall_singleton.
    + lia.
    + rewrite Hm. unfold len in *. rewrite length_take. lia.
Qed.

(** A copy of what is left of the chunk to a writer that takes everything. *)
Lemma copy_accepting {W} (write : W → mbuf → W * option GoError) rest e : (∀ w mb, (write w mb).2 = None) →
  ∀ fuel d cuts w, len d < 65536 → (length cuts + (if decide (d = []) then 0 else 1) < fuel)%nat →
  ∃ mbs cuts' r, copy_loop pooled write fuel (StreamReader (len d) 1) (mkLink (mkStream (d ++ rest) e) cuts) w
      = Ok (readError EOF, r, mkLink (mkStream rest e) cuts', foldl (λ w mb, (write w mb).1) w mbs) ∧ mcontent (concat mbs) = d.
Proof.
  intros Hw fuel. induction fuel as [|fuel IH]; intros d cuts w Hd Hf; [lia|]. cbn [copy_loop ReadFrame]. unfold ChunkStreamReader_ReadMultiBuffer.
  destruct (decide (len d = 0)) as [E0|E0].
  { apply len_0_nil in E0 as ->. change (u32 (1 + 1)) with 2. rewrite decide_True by (unfold maxNumChunk; lia). cbn. exists [], cuts, (StreamReader 0 2). done. }
  pose proof (len_nonneg d). destruct (read_chunk_spec d rest e cuts 1 ltac:(lia)) as (mb & d1 & d2 & cuts' & -> & -> & He & Hm & Hc). cbn [mbind go_bind]. rewrite He.
  assert (Hf2 : (length cuts' + (if decide (d2 = []) then 0 else 1) < fuel)%nat).
  { rewrite decide_False in Hf by (intros Hz; rewrite Hz in E0; done). destruct Hc as [Hc|(-> & -> & ->)]; [destruct (decide (d2 = [])); lia|rewrite decide_True by done; cbn in *; lia]. }
  rewrite len_app in Hd. pose proof (len_nonneg d1). case_bool_decide as Hz; cbn [negb].
  - clear Hm. subst d1. cbn [app]. by apply IH; [lia|].
  - specialize (Hw w mb) as Hwm. destruct (write w mb) as [w' o] eqn:Ew. cbn in Hwm. subst o. destruct (IH d2 cuts' w' ltac:(lia) Hf2) as (mbs & cuts2 & r & E & Hd2).
    exists (mb :: mbs), cuts2, r. split; [by cbn [foldl]; rewrite Ew|]. cbn [concat]. by rewrite mcontent_app, Hm, Hd2.
Qed.

(** A copy to a closed link stops inside the chunk. *)
Lemma copy_closed o rest e : o_open o = false → ∀ fuel d cuts, 0 < len d < 65536 → (length cuts + 1 < fuel)%nat →
  ∃ d2 cuts', copy_loop pooled out_write fuel (StreamReader (len d) 1) (mkLink (mkStream (d ++ rest) e) cuts) o
      = Ok (writeError ErrClosedPipe, StreamReader (len d2) 1, mkLink (mkStream (d2 ++ rest) e) cuts', o) ∧ len d2 < 65536.
Proof.
  intros Ho fuel. induction fuel as [|fuel IH]; intros d cuts Hd Hf; [lia|]. cbn [copy_loop ReadFrame]. unfold ChunkStreamReader_ReadMultiBuffer.
  rewrite decide_False by lia. destruct (read_chunk_spec d rest e cuts 1 Hd) as (mb & d1 & d2 & cuts' & -> & -> & He & Hm & Hc). cbn [mbind go_bind]. rewrite He.
  rewrite len_app in Hd. pose proof (len_nonneg d1). case_bool_decide as Hz; cbn [negb].
  - clear Hm. subst d1. apply IH; [change (len []) with 0 in Hd; cbn [app]; lia|]. destruct Hc as [Hc|(-> & -> & ->)]; [lia|]. change (len []) with 0 in Hd. lia.
  - unfold out_write. rewrite Ho. exists d2, cuts'. split; [done|lia].
Qed.

(** The size comes first. *)
Lemma read_size d rest e cuts : 0 < len d < 65536 →
  ReadFrame pooled NewStreamReader (mkLink (mkStream (put_be16 (len d) ++ d ++ rest) e) cuts) = ReadFrame pooled (StreamReader (len d) 1) (mkLink (mkStream (d ++ rest) e) cuts).
Proof.
  intros Hd. cbn [ReadFrame NewStreamReader]. unfold ChunkStreamReader_ReadMultiBuffer. rewrite decide_True by done. change (u32 (0 + 1)) with 1. rewrite decide_False by (unfold maxNumChunk; lia).
  pose proof (ReadUint16_put (len d) (d ++ rest) e ltac:(unfold is_u16; lia)) as Hr. unfold ReadUint16 in Hr. cbn [lk_stream lk_cuts].
  destruct (read_full (mkStream (put_be16 (len d) ++ d ++ rest) e) 2) as [[bs [er|]] s]; [done|]. destruct (be16 bs) as [z|]; [|done]. cbn in Hr. injection Hr as -> ->.
  cbn [ok_or_panic mbind go_bind]. rewrite !decide_False by lia. done.
Qed.

Lemma discard_rest d rest e cuts : len d < 65536 →
  ∃ cuts', discard pooled (StreamReader (len d) 1) (mkLink (mkStream (d ++ rest) e) cuts) = Ok (None, mkLink (mkStream rest e) cuts').
Proof.
  intros Hd. unfold discard, Copy. destruct (copy_accepting discard_write rest e (λ _ _, eq_refl) (3 + length cuts) d cuts () Hd) as (mbs & cuts' & r & E & _); [case_decide; lia|].
  cbn [lk_cuts]. rewrite E. cbn. by exists cuts'.
Qed.

Lemma discard_frame d rest e cuts : 0 < len d < 65536 →
  ∃ cuts', discard pooled NewStreamReader (mkLink (mkStream (put_be16 (len d) ++ d ++ rest) e) cuts) = Ok (None, mkLink (mkStream rest e) cuts').
Proof.
  intros Hd. destruct (discard_rest d rest e cuts ltac:(lia)) as [cuts' E]. exists cuts'. rewrite <- E. unfold discard, Copy. cbn [lk_cuts Nat.add copy_loop]. by rewrite read_size.
Qed.

Lemma read_packet d rest e cuts target : 0 < len d ≤ 8192 →
  ∃ b, ReadFrame pooled (NewPacketReader target) (mkLink (mkStream (put_be16 (len d) ++ d ++ rest) e) cuts)
      = Ok ([b], None, PacketFrameReader true (Some target), mkLink (mkStream rest e) cuts) ∧ wf b ∧ content b = d.
Proof.
  intros Hd. cbn [ReadFrame NewPacketReader]. unfold PacketReader.ReadMultiBuffer. cbn [PacketReader.eof PacketReader.reader lk_stream lk_cuts].
  rewrite ReadUint16_put by (unfold is_u16; lia). cbn [mbind go_bind]. rewrite decide_False by (unfold Size; lia).
  destruct (read_or_spec (New pooled) d rest e (len d) (wf_New _) eq_refl) as (b & -> & Hb & Hc & _); [rewrite room_new; lia|]. cbn [mbind go_bind PacketReader.dest PacketReader.reader PacketReader.eof].
  rewrite content_New in Hc. case_decide; eexists; by (split; [reflexivity|]).
Qed.

(** The data of a frame reaches an open link, and the link is left at the next frame. *)
Lemma copy_delivers kind target o d rest e cuts : o_open o = true → 0 < len d ≤ 8192 →
  ∃ mb r cuts', Copy pooled out_write (session_reader kind target) (mkLink (mkStream (put_be16 (len d) ++ d ++ rest) e) cuts) o
      = Ok (None, r, mkLink (mkStream rest e) cuts', mkOut (o_target o) (o_got o ++ mb) true) ∧ got_units kind mb = data_units kind d.
Proof.
  intros Ho Hd. unfold Copy, session_reader. cbn [lk_cuts]. destruct kind.
  - rewrite decide_True by done.
    set (wr := λ (o : Out) (mb : mbuf), (mkOut (o_target o) (o_got o ++ mb) true, @None GoError)).
    assert (Hext : ∀ fuel r l o, o_open o = true → copy_loop pooled out_write fuel r l o = copy_loop pooled wr fuel r l o).
    { induction fuel as [|fuel IH]; intros r l o1 H1; [done|]. cbn [copy_loop]. destruct (ReadFrame pooled r l) as [[[[mb err] r'] l']|?|]; try done. cbn [mbind go_bind].
      unfold out_write. rewrite H1. unfold wr at 1. destruct err; destruct (negb _); try done; by apply IH. }
    rewrite Hext by done. destruct (copy_accepting wr rest e (λ _ _, eq_refl) (3 + length cuts) d cuts o ltac:(lia)) as (mbs & cuts' & r & E & Hm); [case_decide; lia|].
    exists (concat mbs), r, cuts'. cbn [Nat.add copy_loop] in E |- *. rewrite read_size by lia. rewrite E. cbn [mbind go_bind is_EOF]. split; [|cbn; by rewrite Hm].
    do 2 f_equal. clear -Ho. destruct o as [t g op]. cbn in Ho. subst op. revert g. induction mbs as [|mb mbs IH]; intros g; cbn [foldl concat]; [by rewrite app_nil_r|].
    change (wr (mkOut t g true) mb).1 with (mkOut t (g ++ mb) true). rewrite IH. cbn. by rewrite app_assoc.
  - rewrite decide_False by done. destruct (read_packet d rest e cuts target Hd) as (b & E & Hb & Hc). cbn [Nat.add copy_loop]. rewrite E. cbn [mbind go_bind].
    rewrite empty_bytes by (by apply Forall_singleton). rewrite bool_decide_false by (rewrite mcontent_cons, Hc; change (mcontent []) with (@nil byte); rewrite app_nil_r; intros ->; change (len []) with 0 in Hd; lia).
    unfold out_write. rewrite Ho. cbn. exists [b], (PacketFrameReader true (Some target)), cuts. split; [done|]. cbn. by rewrite Hc.
Qed.

(** A closed link takes nothing, and the rest of the data can be thrown away. *)
Lemma copy_blocked kind target o d rest e cuts : o_open o = false → 0 < len d ≤ 8192 →
  ∃ r l' cuts', Copy pooled out_write (session_reader kind target) (mkLink (mkStream (put_be16 (len d) ++ d ++ rest) e) cuts) o
      = Ok (Some (writeError ErrClosedPipe), r, l', o) ∧ discard pooled r l' = Ok (None, mkLink (mkStream rest e) cuts').
Proof.
  intros Ho Hd. unfold Copy, session_reader. cbn [lk_cuts]. destruct kind.
  - rewrite decide_True by done. destruct (copy_closed o rest e Ho (3 + length cuts) d cuts ltac:(lia) ltac:(lia)) as (d2 & cuts1 & E & Hd2).
    destruct (discard_rest d2 rest e cuts1 Hd2) as [cuts' Hdis]. eexists _, _, cuts'. cbn [Nat.add copy_loop] in E |- *. rewrite read_size by lia. rewrite E. split; [done|exact Hdis].
  - rewrite decide_False by done. destruct (read_packet d rest e cuts target Hd) as (b & E & Hb & Hc). cbn [Nat.add copy_loop]. rewrite E. cbn [mbind go_bind].
    rewrite empty_bytes by (by apply Forall_singleton). rewrite bool_decide_false by (rewrite mcontent_cons, Hc; change (mcontent []) with (@nil byte); rewrite app_nil_r; intros ->; change (len []) with 0 in Hd; lia).
    unfold out_write. rewrite Ho. cbn. eexists _, _, cuts. split; [done|]. done.
Qed.
End copying.

(** ** The server as a table of sessions *)

(** What the server knows of a session: whether it is closed, its kind, and its link. *)
Record View := mkView { v_closed : bool; v_kind : TransferType; v_out : Out }.
Definition closed_view (v : View) : View := mkView true (v_kind v) (out_close (v_out v)).

(** The process, with one worker, holds the sessions [A] by their IDs. *)
Record holds (p : Proc) (A : gmap Z View) : Prop := {
  h_mgr : ∃ m, managers p !! 0%nat = Some m ∧
    if MuxSession.closed m then ∀ id v, A !! id = Some v → v_closed v = true
    else ∃ mp, sessions m = Some mp ∧ ∀ id r, mp !! id = Some r ↔ ∃ se, store (base p) !! r = Some se ∧ s_ID se = id ∧ s_closed se = false;
  h_store : ∀ r se, store (base p) !! r = Some se → s_XUDP se = None ∧ parents p !! r = Some 0%nat ∧
    ∃ k o kind, links p !! r = Some k ∧ outs p !! k = Some o ∧ kinds p !! r = Some kind ∧ A !! s_ID se = Some (mkView (s_closed se) kind o);
  h_view : ∀ id v, A !! id = Some v → ∃ r se, store (base p) !! r = Some se ∧ s_ID se = id;
  h_ids : ∀ r1 r2 s1 s2, store (base p) !! r1 = Some s1 → store (base p) !! r2 = Some s2 → s_ID s1 = s_ID s2 → r1 = r2;
  h_links : ∀ r1 r2 k, is_Some (store (base p) !! r1) → is_Some (store (base p) !! r2) → links p !! r1 = Some k → links p !! r2 = Some k → r1 = r2
}.

Lemma holds_out p A r se k o o' : holds p A → store (base p) !! r = Some se → links p !! r = Some k → outs p !! k = Some o →
  holds (with_outs p (<[k := o']> (outs p))) (alter (λ v, mkView (v_closed v) (v_kind v) o') (s_ID se) A).
Proof.
  intros H Hr Hk Ho. destruct (h_store _ _ H r se Hr) as (_ & _ & k' & o1 & kind & Hk' & Ho1 & Hkind & HA). assert (k' = k) as -> by congruence.
  split; cbn [managers base parents links kinds outs with_outs].
  - destruct (h_mgr _ _ H) as (m & Hm & Hc). exists m. split; [done|]. destruct (MuxSession.closed m); [|done].
    intros id v. destruct (decide (id = s_ID se)) as [->|Hne]; [|rewrite lookup_alter_ne by done; apply Hc]. rewrite lookup_alter_eq, HA. intros [= <-]. cbn. by apply (Hc _ _ HA).
  - intros r2 s2 H2. destruct (h_store _ _ H r2 s2 H2) as (Hx & Hp & k2 & o2 & kind2 & Hk2 & Ho2 & Hkind2 & HA2). split; [done|]. split; [done|].
    destruct (decide (r2 = r)) as [->|Hne].
    + assert (s2 = se) as -> by congruence. exists k, o', kind. rewrite lookup_insert_eq, lookup_alter_eq, HA. done.
    + exists k2, o2, kind2. assert (k2 ≠ k) by (intros ->; apply Hne; by apply (h_links _ _ H r2 r k)). assert (s_ID s2 ≠ s_ID se) by (intros E; apply Hne; by apply (h_ids _ _ H r2 r s2 se)).
      by rewrite lookup_insert_ne, lookup_alter_ne by done.
  - intros id v Hv. apply lookup_alter_Some in Hv as [(<- & v0 & Hv & _)|[_ Hv]]; by apply (h_view _ _ H _ _ Hv).
  - apply (h_ids _ _ H).
  - apply (h_links _ _ H).
Qed.

Lemma close_session_eq now p r se k : store (base p) !! r = Some se → s_XUDP se = None → parents p !! r = Some 0%nat → links p !! r = Some k →
  close_session now p r = Ok (if s_closed se then unfocus p 0 (focus p 0)
    else close_out (unfocus p 0 (MuxSession.Remove (emit (set_session (focus p 0) r (mkSession (s_ID se) true ((λ _, true) <$> s_done se) (s_XUDP se))) [EvInterruptInput r; EvCloseOutput r]) (s_ID se))) k).
Proof.
  intros Hr Hx Hp Hk. unfold close_session. rewrite Hp. cbn [ok_or_panic mbind go_bind]. unfold MuxSession.Session_Close. change (store (focus p 0)) with (store (base p)). rewrite Hr.
  cbn [ok_or_panic mbind go_bind]. destruct (s_closed se).
  - cbn [mbind go_bind]. unfold apply_events. change (events (focus p 0)) with (events (base p)). by rewrite drop_all.
  - rewrite Hx. cbn [mbind go_bind]. unfold apply_events. set (w := MuxSession.Remove _ _). assert (Hev : events w = events (base p) ++ [EvInterruptInput r; EvCloseOutput r]) by (unfold w, MuxSession.Remove; by destruct (MuxSession.closed _)).
    rewrite Hev, drop_app_length. cbn [foldl apply_event unfocus links]. by rewrite Hk.
Qed.

(** Closing a session closes its link, and touches no other. *)
Lemma close_session_holds now p A r se : holds p A → store (base p) !! r = Some se →
  ∃ p', close_session now p r = Ok p' ∧ holds p' (if s_closed se then A else alter closed_view (s_ID se) A).
Proof.
  intros H Hr. destruct (h_store _ _ H r se Hr) as (Hx & Hp & k & o & kind & Hk & Ho & Hkind & HA). rewrite (close_session_eq now p r se k Hr Hx Hp Hk). eexists. split; [done|].
  destruct (h_mgr _ _ H) as (m & Hm & Hc). destruct (s_closed se) eqn:Es.
  { split; try apply H. exists m. cbn. rewrite Hm, lookup_insert_eq. cbn. done. }
  assert (Hmc : MuxSession.closed m = false) by (destruct (MuxSession.closed m); [apply Hc in HA; cbn in HA; congruence|done]). rewrite Hmc in Hc. destruct Hc as (mp & Hmp & Hreg).
  unfold MuxSession.Remove. cbn [mgr emit set_session focus set_mgr]. rewrite Hm. cbn [default]. change (id m) with m. rewrite Hmc. set (se' := mkSession _ true _ _).
  assert (Hother : ∀ r2 s2, <[r := se']> (store (base p)) !! r2 = Some s2 → r2 = r ∧ s2 = se' ∨ r2 ≠ r ∧ s_ID s2 ≠ s_ID se ∧ store (base p) !! r2 = Some s2).
  { intros r2 s2 [[<- <-]|[Hne H2]]%lookup_insert_Some; [by left|right]. split; [done|]. split; [|done]. intros E. apply Hne. symmetry. by apply (h_ids _ _ H r2 r s2 se). }
  split; cbn [close_out with_outs unfocus managers base parents links kinds outs store mgr set_mgr emit set_session].
  - eexists. rewrite lookup_insert_eq. split; [done|]. cbn [MuxSession.closed sessions]. exists (delete (s_ID se) mp). rewrite Hmp. split; [done|]. intros i r2. rewrite lookup_delete_Some, Hreg. split.
    + intros (Hne & s2 & H2 & <- & Ho2). exists s2. rewrite lookup_insert_ne; [done|]. intros ->. congruence.
    + intros (s2 & [[-> ->]|(Hne & Hid & H2)]%Hother & <- & Ho2); [done|]. split; [done|]. by exists s2.
  - intros r2 s2 [[-> ->]|(Hne & Hid & H2)]%Hother.
    + split; [done|]. split; [done|]. exists k, (out_close o), kind. cbn. rewrite !lookup_alter_eq, Ho, HA. done.
    + destruct (h_store _ _ H r2 s2 H2) as (Hx2 & Hp2 & k2 & o2 & kind2 & Hk2 & Ho2 & Hkind2 & HA2). split; [done|]. split; [done|]. exists k2, o2, kind2.
      assert (k2 ≠ k) by (intros ->; apply Hne; by apply (h_links _ _ H r2 r k)). split; [done|]. split; [by rewrite lookup_alter_ne|]. split; [done|]. by rewrite lookup_alter_ne.
  - intros i v Hv. assert (∃ v, A !! i = Some v) as [v0 Hv0] by (apply lookup_alter_Some in Hv as [(<- & v0 & ? & _)|[_ ?]]; eauto).
    destruct (h_view _ _ H i v0 Hv0) as (r2 & s2 & H2 & Hi). destruct (decide (r2 = r)) as [->|Hne].
    + exists r, se'. split; [apply lookup_insert_eq|]. cbn. congruence.
    + exists r2, s2. by rewrite lookup_insert_ne by done.
  - intros r1 r2 s1 s2 [[-> ->]|(Hn1 & Hi1 & H1)]%Hother [[-> ->]|(Hn2 & Hi2 & H2)]%Hother E; cbn in E; try done. by eapply (h_ids _ _ H).
  - intros r1 r2 k0 H1 H2. apply (h_links _ _ H); [destruct (decide (r1 = r)) as [->|Hn]|destruct (decide (r2 = r)) as [->|Hn]]; rewrite ?Hr; eauto; by rewrite lookup_insert_ne in * by done.
Qed.

Lemma holds_new p A p' r k se o kind :
  holds p A → store (base p) !! r = None → outs p !! k = None → A !! s_ID se = None → s_XUDP se = None →
  store (base p') = <[r := se]> (store (base p)) → parents p' = <[r := 0%nat]> (parents p) → links p' = <[r := k]> (links p) → kinds p' = <[r := kind]> (kinds p) → outs p' = <[k := o]> (outs p) →
  (∃ m m', managers p !! 0%nat = Some m ∧ managers p' !! 0%nat = Some m' ∧ MuxSession.closed m' = MuxSession.closed m ∧
     if MuxSession.closed m then s_closed se = true else s_closed se = false ∧ ∃ mp, sessions m = Some mp ∧ sessions m' = Some (<[s_ID se := r]> mp)) →
  holds p' (<[s_ID se := mkView (s_closed se) kind o]> A).
Proof.
  intros H Hr Hk HA Hx Es Ep El Ekd Eo (m & m' & Hm & Hm' & Hcl & Hc).
  assert (Hid : ∀ r2 s2, store (base p) !! r2 = Some s2 → s_ID s2 ≠ s_ID se) by (intros r2 s2 H2 E; destruct (h_store _ _ H r2 s2 H2) as (_ & _ & ? & ? & ? & _ & _ & _ & HA2); congruence).
  assert (Hkk : ∀ r2 s2, store (base p) !! r2 = Some s2 → links p !! r2 ≠ Some k).
  { intros r2 s2 H2 E. destruct (h_store _ _ H r2 s2 H2) as (_ & _ & k2 & o2 & ? & Hk2 & Ho2 & _). congruence. }
  assert (Hs : ∀ r2 s2, store (base p') !! r2 = Some s2 → r2 = r ∧ s2 = se ∨ r2 ≠ r ∧ store (base p) !! r2 = Some s2).
  { rewrite Es. intros r2 s2 [[<- <-]|[Hne H2]]%lookup_insert_Some; [by left|by right]. }
  split; rewrite ?El, ?Ep, ?Ekd, ?Eo.
  - exists m'. split; [done|]. rewrite Hcl. destruct (h_mgr _ _ H) as (m1 & Hm1 & Hc1). assert (m1 = m) as -> by congruence. destruct (MuxSession.closed m).
    + intros i v [[<- <-]|[_ Hv]]%lookup_insert_Some; [done|by apply (Hc1 i)].
    + destruct Hc as (Hsc & mp & Hmp & Hmp'), Hc1 as (mp1 & Hmp1 & Hreg). assert (mp1 = mp) as -> by congruence. exists (<[s_ID se := r]> mp). split; [done|]. intros i r2.
      rewrite lookup_insert_Some, Hreg. split.
      * intros [[<- <-]|(Hne & s2 & H2 & <- & Ho2)]; [exists se; rewrite Es, lookup_insert_eq; done|]. exists s2. rewrite Es, lookup_insert_ne; [done|]. intros ->. congruence.
      * intros (s2 & [[-> ->]|[Hne H2]]%Hs & <- & Ho2); [by left|]. right. split; [intros E; by apply (Hid r2 s2 H2)|]. by exists s2.
  - intros r2 s2 [[-> ->]|[Hne H2]]%Hs.
    + split; [done|]. split; [apply lookup_insert_eq|]. exists k, o, kind. by rewrite !lookup_insert_eq.
    + destruct (h_store _ _ H r2 s2 H2) as (Hx2 & Hp2 & k2 & o2 & kind2 & Hk2 & Ho2 & Hkind2 & HA2). split; [done|]. rewrite !lookup_insert_ne by done. split; [done|]. exists k2, o2, kind2.
      split; [done|]. split; [rewrite lookup_insert_ne; congruence|]. split; [done|]. rewrite lookup_insert_ne; [done|]. intros E. by apply (Hid r2 s2 H2).
  - intros i v [[<- <-]|[_ Hv]]%lookup_insert_Some; [exists r, se; by rewrite Es, lookup_insert_eq|]. destruct (h_view _ _ H i v Hv) as (r2 & s2 & H2 & Hi). exists r2, s2.
    rewrite Es, lookup_insert_ne; [done|]. intros ->. congruence.
  - intros r1 r2 s1 s2 [[-> ->]|[Hn1 H1]]%Hs [[-> ->]|[Hn2 H2]]%Hs E; [done|by destruct (Hid r2 s2 H2)|by destruct (Hid r1 s1 H1)|by eapply (h_ids _ _ H)].
  - intros r1 r2 k0 [s1 H1] [s2 H2]. apply Hs in H1 as [[-> ->]|[Hn1 H1]], H2 as [[-> ->]|[Hn2 H2]]; rewrite ?lookup_insert_eq, ?lookup_insert_ne by done; [done| | |].
    + intros [= <-] E. by destruct (Hkk r2 s2 H2).
    + intros E [= <-]. by destruct (Hkk r1 s1 H1).
    + by apply (h_links _ _ H).
Qed.

Lemma Get_holds p A i : holds p A →
  match MuxSession.Get (focus p 0) i with
  | Some r => ∃ se, store (base p) !! r = Some se ∧ s_ID se = i ∧ s_closed se = false
  | None => ∀ v, A !! i = Some v → v_closed v = true
  end.
Proof.
  intros H. unfold MuxSession.Get, focus. cbn [mgr set_mgr]. destruct (h_mgr _ _ H) as (m & Hm & Hc). rewrite Hm. cbn [default]. change (id m) with m. destruct (MuxSession.closed m).
  - intros v. apply Hc.
  - destruct Hc as (mp & -> & Hreg). cbn [mbind option_bind]. destruct (mp !! i) as [r|] eqn:E; [by apply Hreg in E|].
    intros v Hv. destruct (h_view _ _ H i v Hv) as (r & se & Hr & Hi). destruct (h_store _ _ H r se Hr) as (_ & _ & k & o & kind & _ & _ & _ & HA). rewrite Hi, Hv in HA. injection HA as ->. cbn.
    destruct (s_closed se) eqn:Ec; [done|]. assert (mp !! i = Some r) by (apply Hreg; by exists se). congruence.
Qed.

(** The data [d] of a frame of session [i] reaches the link of the session where both are open; a
    session whose link is closed is closed. *)
Definition delivered (i : Z) (d : list byte) (A A' : gmap Z View) : Prop :=
  match A !! i with
  | None => A' = A
  | Some v =>
      if v_closed v then A' = A
      else if o_open (v_out v) then
        ∃ mb, got_units (v_kind v) mb = data_units (v_kind v) d ∧ A' = <[i := mkView false (v_kind v) (mkOut (o_target (v_out v)) (o_got (v_out v) ++ mb) true)]> A
      else A' = alter closed_view i A
  end.

Section serving.
Context (pooled : list byte) (dispatch : Destination → option GoError) (ctx : Context) (reverse : bool).
Hypothesis Hctx : ctx_ok ctx.

Lemma copy_to_session_holds now p A r se meta d rest e cuts : holds p A → store (base p) !! r = Some se → s_closed se = false → 0 < len d ≤ 8192 →
  ∃ p' A' cuts', copy_to_session pooled now p r meta (mkLink (mkStream (put_be16 (len d) ++ d ++ rest) e) cuts) = Ok (p', mkLink (mkStream rest e) cuts', None) ∧
    holds p' A' ∧ delivered (s_ID se) d A A'.
Proof.
  intros H Hr Hs Hd. destruct (h_store _ _ H r se Hr) as (_ & _ & k & o & kind & Hk & Ho & Hkind & HA). unfold copy_to_session. rewrite Hkind, Hk. cbn [ok_or_panic mbind go_bind]. rewrite Ho. cbn [ok_or_panic mbind go_bind].
  unfold delivered. rewrite HA. cbn [v_closed v_kind v_out]. rewrite Hs. destruct (o_open o) eqn:Eo.
  - destruct (copy_delivers pooled kind (Target meta) o d rest e cuts Eo Hd) as (mb & rr & cuts' & -> & Hu). cbn [mbind go_bind]. eexists _, _, cuts'. split; [done|].
    split; [by apply (holds_out p A r se k o)|]. exists mb. split; [done|]. apply map_eq. intros j. destruct (decide (j = s_ID se)) as [->|Hne].
    + rewrite lookup_alter_eq, lookup_insert_eq, HA. cbn. by rewrite Hs.
    + by rewrite lookup_alter_ne, lookup_insert_ne by done.
  - destruct (copy_blocked pooled kind (Target meta) o d rest e cuts Eo Hd) as (rr & l' & cuts' & -> & Hdis). cbn [mbind go_bind IsWriteError].
    assert (with_outs p (<[k:=o]> (outs p)) = p) as -> by (destruct p; unfold with_outs; cbn in *; by rewrite insert_id).
    destruct (close_session_holds now p A r se H Hr) as (p' & -> & H'). rewrite Hs in H'. cbn [mbind go_bind]. rewrite Hdis. cbn [mbind go_bind]. by exists p', (alter closed_view (s_ID se) A), cuts'.
Qed.

Lemma meta_written f : frame_ok f None → ∃ b, WriteTo f (New pooled) = Ok b ∧ content b = put_be16 (len (enc_meta f None)) ++ enc_meta f None.
Proof.
  intros Hf. pose proof (len_enc_target f None Hf). pose proof (len_enc_meta f None). change None with (UDP (New pooled)) in Hf.
  destruct (WriteTo_appends f (New pooled) Hf (wf_New _)) as (b & -> & _ & Hc & _); [change (UDP (New pooled)) with (@None Destination); rewrite room_new; lia|].
  exists b. split; [done|]. rewrite content_New in Hc. exact Hc.
Qed.

(** The frame that ends session [i]. *)
Definition end_frame (i : Z) (failed : bool) : FrameMetadata := mkFrame no_destination i (if failed then Bitmask.Set_ 0 OptionError else 0) SessionStatusEnd (replicate 8 x00) None.
Lemma end_frame_ok i failed : is_u16 i → frame_ok (end_frame i failed) None.
Proof. intros Hi. by destruct failed; split; try done; unfold is_u8; cbn; lia. Qed.

(** A frame with data of a session that is known or not. *)
Lemma keep_holds now p A meta d rest e cuts : holds p A → is_u16 (SessionID meta) → Bitmask.Has (Option meta) OptionData = true → 0 < len d ≤ 8192 →
  ∃ p' A' cuts', handleStatusKeep pooled now p 0 meta (mkLink (mkStream (put_be16 (len d) ++ d ++ rest) e) cuts) = Ok (p', mkLink (mkStream rest e) cuts', None) ∧
    holds p' A' ∧ delivered (SessionID meta) d A A'.
Proof.
  intros H Hi Ho Hd. unfold handleStatusKeep. rewrite Ho. cbn [negb]. pose proof (Get_holds p A (SessionID meta) H) as Hg. destruct (MuxSession.Get (focus p 0) (SessionID meta)) as [r|].
  - destruct Hg as (se & Hr & Hid & Hs). destruct (copy_to_session_holds now p A r se meta d rest e cuts H Hr Hs Hd) as (p' & A' & cuts' & E & H' & Hd'). exists p', A', cuts'. by rewrite Hid in Hd'.
  - unfold MuxWriter.Close. cbn [MuxWriter.id MuxWriter.hasError MuxWriter.NewResponseWriter]. fold (end_frame (SessionID meta) false).
    destruct (meta_written _ (end_frame_ok (SessionID meta) false Hi)) as (b & -> & _). cbn [mbind go_bind]. destruct (discard_frame pooled d rest e cuts ltac:(lia)) as [cuts' ->]. cbn [mbind go_bind].
    eexists _, A, cuts'. split; [done|]. split; [by split; apply H|]. unfold delivered. destruct (A !! SessionID meta) as [v|]; [|done]. by rewrite (Hg v eq_refl).
Qed.

Definition ended (i : Z) (A : gmap Z View) : gmap Z View := alter (λ v, if v_closed v then v else closed_view v) i A.

Lemma end_holds now p A meta l : holds p A → Bitmask.Has (Option meta) OptionData = false →
  ∃ p', handleStatusEnd pooled now p 0 meta l = Ok (p', l, None) ∧ holds p' (ended (SessionID meta) A).
Proof.
  intros H Ho. unfold handleStatusEnd. rewrite Ho. pose proof (Get_holds p A (SessionID meta) H) as Hg. destruct (MuxSession.Get (focus p 0) (SessionID meta)) as [r|].
  - destruct Hg as (se & Hr & Hid & Hs). destruct (close_session_holds now p A r se H Hr) as (p' & -> & H'). rewrite Hs, Hid in H'. exists p'. split; [done|].
    destruct (h_store _ _ H r se Hr) as (_ & _ & k & o & kind & _ & _ & _ & HA). replace (ended (SessionID meta) A) with (alter closed_view (SessionID meta) A); [done|].
    unfold ended. apply map_eq. intros j. destruct (decide (j = SessionID meta)) as [->|Hne]; [|by rewrite !lookup_alter_ne by done]. rewrite !lookup_alter_eq. rewrite Hid in HA. rewrite HA. cbn. by rewrite Hs.
  - exists p. split; [done|]. replace (ended (SessionID meta) A) with A; [done|]. unfold ended. apply map_eq. intros j. destruct (decide (j = SessionID meta)) as [->|Hne]; [|by rewrite lookup_alter_ne by done].
    rewrite lookup_alter_eq. destruct (A !! SessionID meta) as [v|]; [|done]. cbn. by rewrite (Hg v eq_refl).
Qed.

Definition kind_of (target : Destination) : TransferType := if decide (d_Network target = Network_UDP) then TransferTypePacket else TransferTypeStream.
Definition frame_payload (d : option (list byte)) : list byte := match d with Some d => put_be16 (len d) ++ d | None => [] end.
Definition payload_ok (d : option (list byte)) : Prop := match d with Some d => 0 < len d ≤ 8192 | None => True end.

(** A frame that opens session [i]: the session is there with what the frame carried, or the
    connection ends and at most a closed session was added. *)
Definition opened (i : Z) (target : Destination) (d : option (list byte)) (A A' : gmap Z View) : Prop :=
  ∃ mb, A' = <[i := mkView false (kind_of target) (mkOut target mb true)]> A ∧ got_units (kind_of target) mb = match d with Some d => data_units (kind_of target) d | None => [] end.

Lemma new_holds now p A meta d rest e cuts : holds p A → A !! SessionID meta = None → GlobalID meta = replicate 8 x00 →
  Bitmask.Has (Option meta) OptionData = bool_decide (is_Some d) → payload_ok d →
  ∃ p' A' l' err, handleStatusNew pooled dispatch ctx now p 0 meta (mkLink (mkStream (frame_payload d ++ rest) e) cuts) = Ok (p', l', err) ∧ holds p' A' ∧
    match err with
    | None => (∃ cuts', l' = mkLink (mkStream rest e) cuts') ∧ opened (SessionID meta) (Target meta) d A A'
    | Some _ => A' = A ∨ A' = <[SessionID meta := mkView true (kind_of (Target meta)) (mkOut (Target meta) [] false)]> A
    end.
Proof.
  intros H HA Hg Ho Hd. unfold handleStatusNew. destruct (ctx_passes ctx meta Hctx) as (-> & (msg & Emsg) & _). cbn [mbind go_bind]. rewrite Emsg. cbn [mbind go_bind].
  destruct (decide (cx_network _ ≠ Network_Unknown ∧ _)); [eexists p, A, _, _; split; [done|]; by split; [|left]|].
  rewrite decide_False by (intros Hn; by apply Hn). unfold new_plain_session, Dispatch. destruct (dispatch (Target meta)) as [er|].
  { exists p, A. destruct (Bitmask.Has (Option meta) OptionData); [|eexists _, _; split; [done|]; by split; [|left]]. destruct d as [d|]; [|done]. cbn [frame_payload] in *. rewrite <- app_assoc.
    destruct (discard_frame pooled d rest e cuts ltac:(cbn in Hd; lia)) as [cuts' ->]. cbn [mbind go_bind]. eexists _, _. split; [done|]. by split; [|left]. }
  set (k := fresh (dom (outs p))). assert (Hk : outs p !! k = None) by apply not_elem_of_dom, is_fresh. fold (kind_of (Target meta)).
  unfold new_session. cbn [base with_outs managers parents links kinds outs sent]. set (r := fresh (dom (store (base p)))). assert (Hr : store (base p) !! r = None) by apply not_elem_of_dom, is_fresh.
  destruct (h_mgr _ _ H) as (m & Hm & Hc). unfold add_session, MuxSession.Add, focus. cbn [mgr set_mgr managers base store set_session]. rewrite Hm. cbn [default]. change (id m) with m.
  destruct (MuxSession.closed m) eqn:Hcl.
  - cbn [mbind go_bind negb]. unfold unfocus. cbn [mgr set_mgr managers base parents links kinds outs sent]. set (p1 := mkProc _ _ _ _ _ _ _).
    rewrite (close_session_eq now p1 r (mkSession (SessionID meta) false None None) k); cbn; rewrite ?lookup_insert_eq; try done. cbn [mbind go_bind]. eexists _, _, _, _. split; [reflexivity|]. split; [|by right].
    eapply (holds_new p A _ r k (mkSession (SessionID meta) true None None) (mkOut (Target meta) [] false) (kind_of (Target meta))); try done.
    all: assert (HR : MuxSession.closed (mgr (focus p1 0)) = true) by (unfold focus; cbn; by rewrite lookup_insert_eq).
    all: unfold MuxSession.Remove; cbn [mgr emit set_session]; rewrite HR; cbn [close_out with_outs unfocus managers base outs store mgr set_mgr emit set_session focus].
    + unfold p1. cbn. apply insert_insert_eq.
    + unfold p1. cbn [outs]. apply map_eq. intros j. destruct (decide (j = k)) as [->|Hne]; [by rewrite lookup_alter_eq, !lookup_insert_eq|by rewrite lookup_alter_ne, !lookup_insert_ne by done].
    + exists m, m. rewrite Hcl. split; [done|]. rewrite lookup_insert_eq. unfold p1. cbn. by rewrite lookup_insert_eq.
  - destruct Hc as (mp & Hmp & Hreg). rewrite lookup_insert_eq. cbn [ok_or_panic mbind go_bind s_ID]. rewrite Hmp. cbn [map_set mbind go_bind negb]. set (p1 := unfocus _ 0 _).
    set (se := mkSession (SessionID meta) false None None). set (A1 := <[SessionID meta := mkView false (kind_of (Target meta)) (mkOut (Target meta) [] true)]> A).
    assert (H1 : holds p1 A1).
    { apply (holds_new p A p1 r k se (mkOut (Target meta) [] true) (kind_of (Target meta))); try done. eexists m, _. split; [done|]. cbn. rewrite lookup_insert_eq. split; [done|]. cbn. rewrite Hcl. split; [done|]. split; [done|]. by exists mp. }
    assert (Hr1 : store (base p1) !! r = Some se) by (cbn; apply lookup_insert_eq). destruct d as [d|]; rewrite Ho.
    + cbn [negb bool_decide]. rewrite bool_decide_true by (by exists d). cbn [negb frame_payload]. rewrite <- app_assoc.
      destruct (copy_to_session_holds now p1 A1 r se meta d rest e cuts H1 Hr1 eq_refl Hd) as (p' & A' & cuts' & -> & H' & Hdel). eexists p', A', _, None. split; [done|]. split; [done|]. split; [by exists cuts'|].
      unfold delivered in Hdel. cbn [s_ID se] in Hdel. unfold A1 in Hdel. rewrite lookup_insert_eq in Hdel. cbn in Hdel. destruct Hdel as (mb & Hmb & ->). exists mb. by rewrite insert_insert_eq.
    + rewrite bool_decide_false by (by intros [? ?]). cbn [negb frame_payload app]. eexists p1, A1, _, None. split; [done|]. split; [done|]. split; [by exists cuts|]. exists []. by destruct (kind_of (Target meta)).
Qed.

(** ** Frames on the wire *)

Record Fr := mkFr { fr_meta : FrameMetadata; fr_data : option (list byte); fr_bytes : list byte }.
Definition fr_id (f : Fr) : Z := SessionID (fr_meta f).
Definition fr_st (f : Fr) : Z := SessionStatus (fr_meta f).

Record fr_ok (target : Destination) (f : Fr) : Prop := {
  fk_read : ∀ rest e, Unmarshal pooled zero_frame (mkStream (fr_bytes f ++ rest) e) reverse = Ok (fr_meta f, mkStream (frame_payload (fr_data f) ++ rest) e);
  fk_bytes : fr_bytes f ≠ [];
  fk_id : is_u16 (fr_id f);
  fk_gid : GlobalID (fr_meta f) = replicate 8 x00;
  fk_opt : Bitmask.Has (Option (fr_meta f)) OptionData = bool_decide (is_Some (fr_data f));
  fk_data : payload_ok (fr_data f);
  fk_st : fr_st f = SessionStatusNew ∧ Target (fr_meta f) = target ∨ fr_st f = SessionStatusKeep ∨ fr_st f = SessionStatusEnd ∧ fr_data f = None
}.

(** What a frame does to the sessions. *)
Definition effect (f : Fr) (A A' : gmap Z View) : Prop :=
  if decide (fr_st f = SessionStatusNew) then opened (fr_id f) (Target (fr_meta f)) (fr_data f) A A'
  else if decide (fr_st f = SessionStatusKeep) then match fr_data f with Some d => delivered (fr_id f) d A A' | None => A' = A end
  else A' = ended (fr_id f) A.

(** The server takes a frame off the wire and does to the sessions what the frame says, or ends. *)
Lemma frame_holds now p A target f rest e cuts : holds p A → fr_ok target f → (fr_st f = SessionStatusNew → A !! fr_id f = None) →
  ∃ p' A' l' err, handleFrame pooled dispatch ctx reverse now p 0 (mkLink (mkStream (fr_bytes f ++ rest) e) cuts) = Ok (p', l', err) ∧ holds p' A' ∧
    match err with
    | None => (∃ cuts', l' = mkLink (mkStream rest e) cuts') ∧ effect f A A'
    | Some _ => A' = A ∨ fr_st f = SessionStatusNew ∧ A' = <[fr_id f := mkView true (kind_of target) (mkOut target [] false)]> A
    end.
Proof.
  intros H Hf Hnew. unfold handleFrame. cbn [lk_stream lk_cuts]. rewrite (fk_read _ _ Hf). unfold dispatch_frame. fold (fr_st f). pose proof (fk_st _ _ Hf) as Hst.
  destruct Hst as [[Hst Ht]|[Hst|[Hst Hn]]]; rewrite Hst.
  - do 2 rewrite decide_False by done. rewrite decide_True by done.
    destruct (new_holds now p A (fr_meta f) (fr_data f) rest e cuts H (Hnew Hst) (fk_gid _ _ Hf) (fk_opt _ _ Hf) (fk_data _ _ Hf)) as (p' & A' & l' & err & -> & H' & Hr).
    exists p', A', l', err. split; [done|]. split; [done|]. destruct err as [er|]; [|unfold effect; rewrite Hst, decide_True by done; exact Hr]. rewrite Ht in Hr. destruct Hr as [->| ->]; [by left|by right].
  - do 3 rewrite decide_False by done. rewrite decide_True by done. destruct (fr_data f) as [d|] eqn:Ed.
    + cbn [frame_payload]. rewrite <- app_assoc. pose proof (fk_data _ _ Hf) as Hd. pose proof (fk_opt _ _ Hf) as Ho. rewrite Ed in Hd, Ho.
      destruct (keep_holds now p A (fr_meta f) d rest e cuts H (fk_id _ _ Hf) Ho Hd) as (p' & A' & cuts' & -> & H' & Hdel). eexists p', A', _, None. split; [done|]. split; [done|]. split; [by exists cuts'|]. unfold effect. rewrite Hst, Ed. exact Hdel.
    + unfold handleStatusKeep. rewrite (fk_opt _ _ Hf), Ed. cbn. eexists p, A, _, None. split; [done|]. split; [done|]. split; [by exists cuts|]. unfold effect. by rewrite Hst, Ed.
  - rewrite decide_False by done. rewrite decide_True by done. rewrite Hn. cbn [frame_payload app].
    destruct (end_holds now p A (fr_meta f) (mkLink (mkStream rest e) cuts) H) as (p' & -> & H'); [by rewrite (fk_opt _ _ Hf), Hn|]. eexists p', _, _, None. split; [done|]. split; [exact H'|]. split; [by exists cuts|]. unfold effect. by rewrite Hst.
Qed.

(** The frames of a writer. *)
Definition zero_writer (w : MuxWriter.t) : Prop := MuxWriter.globalID w = replicate 8 x00 ∧ bool_decide (MuxWriter.inbound w ≠ None) = reverse ∧ writer_ok w.

Lemma frame_bytes f udp d : frame_ok f udp → agree f udp reverse → len (enc_meta f udp) ≤ 512 → ∀ rest e,
  Unmarshal pooled zero_frame (mkStream ((put_be16 (len (enc_meta f udp)) ++ enc_meta f udp ++ d) ++ rest) e) reverse = Ok (read_back f udp reverse, mkStream (d ++ rest) e).
Proof. intros Hf Ha Hl rest e. rewrite <- !app_assoc, Unmarshal_spec by done. by rewrite decide_True. Qed.

Lemma bytes_not_nil z (d : list byte) : put_be16 z ++ d ≠ [].
Proof. done. Qed.

Lemma read_back_zero f udp : GlobalID f = replicate 8 x00 → GlobalID (read_back f udp reverse) = replicate 8 x00.
Proof. intros H. unfold read_back. cbn [GlobalID]. by destruct (_ && _). Qed.

Lemma writer_agrees w udp new : zero_writer w → agree (meta_for w new) udp reverse.
Proof. intros (_ & <- & _). unfold agree. cbn. destruct (MuxWriter.inbound w); [by left|done]. Qed.

(** A chunk becomes one frame, new for the first of the session. *)
Lemma data_frame w chunk : zero_writer w → Forall wf chunk → udp_ok (chunk_udp chunk) → 0 < len (mcontent chunk) ≤ 8192 →
  ∃ f out, MuxWriter.writeData accept pooled w [] chunk = Ok (MuxWriter.set_followup w, out, None) ∧ mcontent (concat out) = fr_bytes f ∧ fr_ok (MuxWriter.dest w) f ∧
    fr_id f = MuxWriter.id w ∧ fr_data f = Some (mcontent chunk) ∧ fr_st f = if MuxWriter.followup w then SessionStatusKeep else SessionStatusNew.
Proof.
  intros Hz Hc Hu Hl. destruct Hz as (Hg & Hr & Hw) eqn:Ez. clear Ez. destruct (writeData_spec pooled w [] chunk Hw Hc Hu ltac:(lia)) as (frame & -> & Hframe).
  set (m := meta_for w (negb (MuxWriter.followup w))) in *. pose proof (meta_for_ok w _ Hw Hu) as Hfo. pose proof (meta_for_small w _ Hw Hu) as Hsm. fold m in Hfo, Hsm.
  set (bs := put_be16 (len (enc_meta m (chunk_udp chunk))) ++ enc_meta m (chunk_udp chunk) ++ put_be16 (len (mcontent chunk)) ++ mcontent chunk).
  exists (mkFr (read_back m (chunk_udp chunk) reverse) (Some (mcontent chunk)) bs). eexists. split; [done|]. cbn [app concat]. rewrite app_nil_r, mcontent_cons, Hframe. split; [unfold bs; by rewrite <- !app_assoc|].
  split; [|split; [done|split; [done|unfold m; by destruct (MuxWriter.followup w)]]]. split; cbn [fr_bytes fr_meta fr_data fr_id].
  - apply frame_bytes; [done|by apply writer_agrees|done].
  - apply bytes_not_nil.
  - apply Hfo.
  - by apply read_back_zero.
  - done.
  - done.
  - unfold fr_st, m. cbn. destruct (MuxWriter.followup w); [by right; left|by left].
Qed.

Lemma meta_frame w : zero_writer w →
  ∃ f out, MuxWriter.writeMetaOnly accept pooled w [] = Ok (MuxWriter.set_followup w, out, None) ∧ mcontent (concat out) = fr_bytes f ∧ fr_ok (MuxWriter.dest w) f ∧
    fr_id f = MuxWriter.id w ∧ fr_data f = None ∧ fr_st f = if MuxWriter.followup w then SessionStatusKeep else SessionStatusNew.
Proof.
  intros (Hg & Hr & Hw). unfold MuxWriter.writeMetaOnly, MuxWriter.getNextFrameMeta. set (m := mkFrame _ _ _ _ _ _).
  pose proof (meta_for_ok w None Hw I) as Hfo. assert (Hfm : frame_ok m None) by (unfold m; destruct (MuxWriter.followup w); split; try apply Hfo; unfold is_u8; cbn; lia).
  assert (Hem : len (enc_meta m None) = len (enc_meta (meta_for w (negb (MuxWriter.followup w))) None)) by (unfold m; by destruct (MuxWriter.followup w)).
  destruct (meta_written m Hfm) as (b & -> & Hb). cbn [accept]. exists (mkFr (read_back m None reverse) None (content b)). eexists. split; [done|].
  split; [exact (app_nil_r (content b))|]. split; [|split; [done|split; [done|unfold m, fr_st; by destruct (MuxWriter.followup w)]]]. rewrite Hb. split; cbn [fr_bytes fr_meta fr_data fr_id frame_payload app].
  - intros rest e. rewrite <- (app_nil_r (enc_meta m None)) at 2. rewrite frame_bytes; [done|done| |rewrite Hem; by apply meta_for_small].
    pose proof (writer_agrees w None true (conj Hg (conj Hr Hw))) as Ha. unfold agree in *. unfold m. cbn in *. exact Ha.
  - apply bytes_not_nil.
  - apply Hfm.
  - by apply read_back_zero.
  - done.
  - done.
  - unfold fr_st, m. cbn. destruct (MuxWriter.followup w); [by right; left|by left].
Qed.

Lemma over_frame w target : is_u16 (MuxWriter.id w) →
  ∃ f out, MuxWriter.Close accept pooled w [] = Ok out ∧ mcontent (concat out) = fr_bytes f ∧ fr_ok target f ∧ fr_id f = MuxWriter.id w ∧ fr_data f = None ∧ fr_st f = SessionStatusEnd.
Proof.
  intros Hi. unfold MuxWriter.Close. fold (end_frame (MuxWriter.id w) (MuxWriter.hasError w)). set (m := end_frame _ _). pose proof (end_frame_ok (MuxWriter.id w) (MuxWriter.hasError w) Hi) as Hfo. fold m in Hfo.
  destruct (meta_written m Hfo) as (b & -> & Hb). exists (mkFr (read_back m None reverse) None (content b)). eexists. split; [done|]. split; [exact (app_nil_r (content b))|].
  split; [|done]. rewrite Hb. split; cbn [fr_bytes fr_meta fr_data fr_id frame_payload app]; try done.
  - intros rest e. rewrite <- (app_nil_r (enc_meta m None)) at 2. rewrite frame_bytes; [done|done| |].
    + unfold agree. destruct reverse; [by right|done].
    + rewrite len_enc_meta. unfold enc_target. rewrite decide_False by done. change (4 + 0 ≤ 512). lia.
  - unfold m. cbn. by destruct (MuxWriter.hasError w).
  - right. by right.
Qed.
End serving.

(** ** Sessions closed by the server *)

Lemma break_holds p A r se k o : holds p A → store (base p) !! r = Some se → links p !! r = Some k → outs p !! k = Some o →
  holds (close_out p k) (alter (λ v, mkView (v_closed v) (v_kind v) (out_close o)) (s_ID se) A) ∧ ∃ v, A !! s_ID se = Some v ∧ v_out v = o.
Proof.
  intros H Hr Hk Ho. destruct (h_store _ _ H r se Hr) as (_ & _ & k' & o' & kind & Hk' & Ho' & _ & HA). split; [|eexists; split; [exact HA|cbn; congruence]].
  replace (close_out p k) with (with_outs p (<[k := out_close o]> (outs p))); [by apply (holds_out p A r se k o)|]. unfold close_out. f_equal. apply map_eq. intros j.
  destruct (decide (j = k)) as [->|Hne]; [by rewrite lookup_insert_eq, lookup_alter_eq, Ho|by rewrite lookup_insert_ne, lookup_alter_ne by done].
Qed.

Lemma tick_holds p A a b : holds p A → holds (tick p 0 a b).1 A.
Proof.
  intros H. unfold tick, MuxSession.CloseIfNoSessionAndIdle. cbn [mgr focus set_mgr]. destruct (h_mgr _ _ H) as (m & Hm & Hc). rewrite Hm. cbn [default]. change (id m) with m.
  destruct (MuxSession.closed m) eqn:Hcl.
  { split; try apply H. exists m. cbn. rewrite lookup_insert_eq, Hm, Hcl. done. }
  destruct Hc as (mp & Hmp & Hreg). case_decide as Hd.
  { split; try apply H. exists m. cbn. rewrite lookup_insert_eq, Hm, Hcl. split; [done|]. by exists mp. }
  split; try apply H. eexists. cbn. rewrite lookup_insert_eq. split; [done|]. cbn. intros i v Hv. destruct (h_view _ _ H i v Hv) as (r & se & Hr & Hi).
  destruct (h_store _ _ H r se Hr) as (_ & _ & k & o & kind & _ & _ & _ & HA). rewrite Hi, Hv in HA. injection HA as ->. cbn. destruct (s_closed se) eqn:Es; [done|].
  assert (Hin : mp !! i = Some r) by (apply Hreg; by exists se). exfalso. apply Hd. left. unfold MuxSession.Size. cbn [mgr focus set_mgr]. rewrite Hm. cbn. rewrite Hmp. cbn. change (id mp) with mp.
  intros E. assert (mp = ∅) as -> by (apply map_size_empty_inv; lia). by rewrite lookup_empty in Hin.
Qed.

(** [close_all] with the manager closed: each session that was open is closed, with its events. *)
Lemma close_all_world now rs : ∀ w, MuxSession.closed (mgr w) = true → (∀ r, r ∈ rs → ∃ se, store w !! r = Some se ∧ s_XUDP se = None) →
  ∃ w' evs, MuxSession.close_all now w rs = Ok w' ∧ mgr w' = mgr w ∧ closes rs (store w) (store w') ∧ events w' = events w ++ evs ∧
    ∀ r, EvCloseOutput r ∈ evs ↔ r ∈ rs ∧ ∃ se, store w !! r = Some se ∧ s_closed se = false.
Proof.
  induction rs as [|r rs IH]; intros w Hc Hrs.
  { exists w, []. split; [done|]. split; [done|]. split; [intros r; destruct (store w !! r); [|done]; split; [done|]; split; [done|]; rewrite elem_of_nil; tauto|].
    split; [by rewrite app_nil_r|]. intros r. rewrite !elem_of_nil. tauto. }
  destruct (Hrs r) as (se & Hr & Hx); [apply elem_of_cons; by left|]. destruct (Session_Close_spec now w r se Hr Hx) as (w1 & E1 & C1 & M1). cbn [close_all]. rewrite E1. cbn [mbind go_bind].
  assert (M1' : mgr w1 = mgr w) by (rewrite M1; destruct (s_closed se); [done|]; unfold MuxSession.Remove; by rewrite Hc).
  destruct (IH w1) as (w2 & evs & -> & M2 & C2 & Ev2 & Hev); [by rewrite M1'| |].
  { intros r' Hr'. destruct (Hrs r') as (s' & Hs' & Hx'); [apply elem_of_cons; by right|]. specialize (C1 r'). rewrite Hs' in C1. destruct (store w1 !! r') as [s1|]; [|done]. exists s1. split; [done|]. destruct C1 as (_ & -> & _). done. }
  assert (Ev1 : events w1 = events w ++ if s_closed se then [] else [EvInterruptInput r; EvCloseOutput r]).
  { revert E1. unfold MuxSession.Session_Close. rewrite Hr. cbn [ok_or_panic mbind go_bind]. destruct (s_closed se); [intros [= <-]; by rewrite app_nil_r|]. rewrite Hx. cbn [mbind go_bind]. intros [= <-].
    unfold MuxSession.Remove. cbn [mgr emit set_session]. by rewrite Hc. }
  eexists w2, _. split; [done|]. split; [congruence|]. split; [by eapply closes_trans|]. split; [by rewrite Ev2, Ev1, <- app_assoc|]. intros r2. rewrite elem_of_app, Hev, elem_of_cons.
  assert (H1 : EvCloseOutput r2 ∈ (if s_closed se then [] else [EvInterruptInput r; EvCloseOutput r]) ↔ r2 = r ∧ s_closed se = false).
  { destruct (s_closed se); [rewrite elem_of_nil; by split; [|intros []]|]. rewrite !elem_of_cons, elem_of_nil. split; [intros [?|[[= ->]|[]]]; done|intros [-> _]; by right; left]. }
  rewrite H1. specialize (C1 r2). split.
  - intros [[-> Hs]|(Hin & s1 & Hs1 & Ho1)]; [split; [by left|by exists se]|]. split; [by right|]. rewrite Hs1 in C1. destruct (store w !! r2) as [s2|]; [|done]. destruct C1 as (_ & _ & Hcl). exists s2. split; [done|].
    destruct (s_closed s2); [|done]. rewrite (proj2 Hcl) in Ho1; [done|by left].
  - intros (Hin & s2 & Hs2 & Ho2). destruct (decide (r2 = r)) as [->|Hne]; [left; split; [done|congruence]|]. right. destruct Hin as [|Hin]; [done|]. split; [done|].
    rewrite Hs2 in C1. destruct (store w1 !! r2) as [s1|]; [|done]. destruct C1 as (_ & _ & Hcl). exists s1. split; [done|]. destruct (s_closed s1); [|done]. rewrite list_elem_of_singleton in Hcl. destruct (proj1 Hcl eq_refl); congruence.
Qed.

Lemma events_apply evs : ∀ p, let p' := foldl apply_event p evs in
  managers p' = managers p ∧ base p' = base p ∧ parents p' = parents p ∧ links p' = links p ∧ kinds p' = kinds p ∧
  ∀ k o, outs p !! k = Some o → ∃ o', outs p' !! k = Some o' ∧
    ((∃ r, EvCloseOutput r ∈ evs ∧ links p !! r = Some k) ∧ o' = out_close o ∨ (∀ r, EvCloseOutput r ∈ evs → links p !! r ≠ Some k) ∧ o' = o).
Proof.
  induction evs as [|ev evs IH]; intros p; cbn [foldl].
  { do 5 (split; [done|]). intros k o Ho. exists o. split; [done|]. right. split; [|done]. intros r []%elem_of_nil. }
  specialize (IH (apply_event p ev)). cbn in IH. destruct IH as (I1 & I2 & I3 & I4 & I5 & IO). rewrite I1, I2, I3, I4, I5.
  assert (E : managers (apply_event p ev) = managers p ∧ base (apply_event p ev) = base p ∧ parents (apply_event p ev) = parents p ∧ links (apply_event p ev) = links p ∧ kinds (apply_event p ev) = kinds p).
  { destruct ev as [r|r|r|r]; try done. cbn. by destruct (links p !! r). }
  destruct E as (E1 & E2 & E3 & E4 & E5). rewrite E1, E2, E3, E4, E5. do 5 (split; [done|]). intros k o Ho. rewrite E4 in IO.
  assert (Ho1 : ∃ o1, outs (apply_event p ev) !! k = Some o1 ∧ ((∃ r, ev = EvCloseOutput r ∧ links p !! r = Some k) ∧ o1 = out_close o ∨ (∀ r, ev = EvCloseOutput r → links p !! r ≠ Some k) ∧ o1 = o)).
  { destruct ev as [r|r|r|r]; try (exists o; split; [done|right; by split]). cbn. destruct (links p !! r) as [k'|] eqn:El.
    - cbn. destruct (decide (k' = k)) as [->|Hne].
      + rewrite lookup_alter_eq, Ho. exists (out_close o). split; [done|]. left. split; [by exists r|done].
      + rewrite lookup_alter_ne by done. exists o. split; [done|]. right. split; [|done]. intros r' [= <-]. congruence.
    - exists o. split; [done|]. right. split; [|done]. intros r' [= <-]. congruence. }
  destruct Ho1 as (o1 & Ho1 & Hc). destruct (IO k o1 Ho1) as (o' & Ho' & Hc'). exists o'. split; [done|].
  destruct Hc' as [((r & Hin & Hl) & ->)|[Hn ->]], Hc as [((r0 & -> & Hl0) & ->)|[Hn0 ->]].
  - left. split; [exists r; split; [by apply elem_of_cons; right|done]|by destruct o].
  - left. split; [exists r; split; [by apply elem_of_cons; right|done]|done].
  - left. split; [exists r0; split; [by apply elem_of_cons; left|done]|done].
  - right. split; [|done]. intros r [Hr|Hr]%elem_of_cons; [by apply Hn0|by apply Hn].
Qed.

Lemma close_manager_holds now p A : holds p A → ∃ p', close_manager now p 0 = Ok p' ∧ holds p' ((λ v, if v_closed v then v else closed_view v) <$> A).
Proof.
  intros H. destruct (h_mgr _ _ H) as (m & Hm & Hc). unfold close_manager, MuxSession.Manager_Close. cbn [mgr focus set_mgr]. rewrite Hm. cbn [default]. change (id m) with m. destruct (MuxSession.closed m) eqn:Hcl.
  { cbn [mbind go_bind]. eexists. split; [done|]. unfold apply_events. change (events (focus p 0)) with (events (base p)). rewrite drop_all. cbn [foldl].
    replace (_ <$> A) with A by (apply map_eq; intros i; rewrite lookup_fmap; destruct (A !! i) as [v|] eqn:Ev; [cbn; by rewrite (Hc i v Ev)|done]).
    split; try apply H. exists m. cbn. rewrite Hm, lookup_insert_eq, Hcl. done. }
  destruct Hc as (mp & Hmp & Hreg). rewrite Hmp. cbn [default]. change (id mp) with mp. set (rs := (map_to_list mp).*2). set (w0 := set_mgr _ _).
  assert (Hrs : ∀ r, r ∈ rs ↔ ∃ se, store (base p) !! r = Some se ∧ s_closed se = false).
  { intros r. unfold rs. rewrite list_elem_of_fmap. split.
    - intros ([i r'] & -> & (se & ? & _ & ?)%elem_of_map_to_list%Hreg). by exists se.
    - intros (se & Hr & Ho). exists (s_ID se, r). split; [done|]. apply elem_of_map_to_list, Hreg. by exists se. }
  destruct (close_all_world now rs w0) as (w1 & evs & -> & M & C & Ev & Hev); [done| |].
  { intros r (se & Hr & _)%Hrs. exists se. split; [done|]. by apply (h_store _ _ H r). }
  cbn [mbind go_bind]. eexists. split; [done|]. unfold apply_events. cbn [events set_mgr]. rewrite Ev. change (events w0) with (events (base p)). rewrite drop_app_length.
  set (p1 := unfocus _ _ _). destruct (events_apply evs p1) as (E1 & E2 & E3 & E4 & E5 & Eo).
  assert (Hclose : ∀ r se', store w1 !! r = Some se' → ∃ se, store (base p) !! r = Some se ∧ s_ID se' = s_ID se ∧ s_XUDP se' = s_XUDP se ∧ s_closed se' = true).
  { intros r se' Hr'. destruct (closes_lookup _ _ _ _ _ C Hr') as (se & Hr & Hi & Hx & Hcc). exists se. split; [done|]. split; [done|]. split; [done|]. apply Hcc. destruct (s_closed se) eqn:Ec; [by left|right]. apply Hrs. by exists se. }
  split; rewrite ?E1, ?E2, ?E3, ?E4, ?E5.
  - eexists. cbn. rewrite lookup_insert_eq. split; [done|]. cbn. intros i v. rewrite lookup_fmap. intros (v0 & Hv0 & ->)%fmap_Some. by destruct (v_closed v0) eqn:E.
  - intros r se' Hr'. cbn in Hr'. destruct (Hclose r se' Hr') as (se & Hr & Hi & Hx & Hcc). destruct (h_store _ _ H r se Hr) as (Hx0 & Hp & k & o & kind & Hk & Ho & Hkind & HA). split; [congruence|]. split; [done|].
    destruct (Eo k o Ho) as (o' & Ho' & Hcase). exists k, o', kind. split; [done|]. split; [done|]. split; [done|]. rewrite Hi, Hcc, lookup_fmap, HA. cbn. f_equal. destruct Hcase as [((r2 & Hin & Hl) & ->)|[Hn ->]].
    + apply Hev in Hin as (_ & s2 & Hs2 & Ho2). cbn in Hl. assert (r2 = r) as -> by (apply (h_links _ _ H r2 r k); [by exists s2|by exists se|done|done]). assert (s2 = se) as -> by (cbn in Hs2; congruence). by rewrite Ho2.
    + destruct (s_closed se) eqn:Ec; [done|]. exfalso. apply (Hn r); [|done]. apply Hev. split; [apply Hrs; by exists se|by exists se].
  - intros i v. rewrite lookup_fmap. intros (v0 & Hv0 & _)%fmap_Some. destruct (h_view _ _ H i v0 Hv0) as (r & se & Hr & Hi). specialize (C r). cbn in C. rewrite Hr in C. cbn. destruct (store w1 !! r) as [se'|] eqn:E; [|done].
    exists r, se'. split; [exact E|]. destruct C as [-> _]. done.
  - intros r1 r2 s1 s2 H1 H2 E. cbn in H1, H2. destruct (Hclose _ _ H1) as (t1 & T1 & I1 & _), (Hclose _ _ H2) as (t2 & T2 & I2 & _). apply (h_ids _ _ H r1 r2 t1 t2 T1 T2). congruence.
  - intros r1 r2 k [s1 H1] [s2 H2]. cbn in H1, H2. destruct (Hclose _ _ H1) as (t1 & T1 & _), (Hclose _ _ H2) as (t2 & T2 & _). apply (h_links _ _ H); by eexists.
Qed.

(** ** A client and a server *)

(** A session of the client: its writer, the data it wrote, frame by frame, and whether it is over. *)
Record CSession := mkCSession { c_writer : MuxWriter.t; c_written : list (list byte); c_over : bool }.
Definition c_kind (c : CSession) : TransferType := MuxWriter.transferType (c_writer c).
Definition c_units (c : CSession) : list (list byte) := concat (data_units (c_kind c) <$> c_written c).

(** [wire] is what the client wrote and the server did not read. [running]: the server still reads
    frames; [healthy]: no error ended it and it was not closed; [spoiled]: the sessions that the
    server's side ended, or whose link it broke. *)
Record Sys := mkSys {
  clients : gmap Z CSession; wire : list byte; server : Proc; running : bool; healthy : bool; spoiled : gset Z
}.
Definition with_client (s : Sys) (i : Z) (c : CSession) (bs : list byte) : Sys :=
  mkSys (<[i := c]> (clients s)) (wire s ++ bs) (server s) (running s) (healthy s) (spoiled s).
Definition with_server (s : Sys) (p : Proc) (h : bool) (l : gset Z) : Sys := mkSys (clients s) (wire s) p (running s) (healthy s && h) (spoiled s ∪ l).
Definition set_error (w : MuxWriter.t) (b : bool) : MuxWriter.t :=
  MuxWriter.mk (MuxWriter.dest w) (MuxWriter.id w) (MuxWriter.followup w) b (MuxWriter.transferType w) (MuxWriter.globalID w) (MuxWriter.inbound w).

Definition init_proc : Proc := mkProc {[ 0%nat := NewSessionManager ]} MuxSession.initial ∅ ∅ ∅ ∅ ∅.
Definition init_sys : Sys := mkSys ∅ [] init_proc true true ∅.

Section system.
Context (pooled : list byte) (dispatch : Destination → option GoError) (ctx : Context) (reverse : bool).
Hypothesis Hctx : ctx_ok ctx.

(** Frames of different sessions may come in any order; so may what the server's side does. *)
Inductive step : Sys → Sys → Prop :=
| step_open s i target inb : clients s !! i = None →
    zero_writer reverse (MuxWriter.NewWriter i target (kind_of target) (replicate 8 x00) inb) →
    step s (with_client s i (mkCSession (MuxWriter.NewWriter i target (kind_of target) (replicate 8 x00) inb) [] false) [])
| step_write s i c chunk w out : clients s !! i = Some c → c_over c = false →
    Forall wf chunk → udp_ok (chunk_udp chunk) → 0 < len (mcontent chunk) ≤ 8192 →
    MuxWriter.writeData accept pooled (c_writer c) [] chunk = Ok (w, out, None) →
    step s (with_client s i (mkCSession w (c_written c ++ [mcontent chunk]) false) (mcontent (concat out)))
| step_meta s i c w out : clients s !! i = Some c → c_over c = false →
    MuxWriter.writeMetaOnly accept pooled (c_writer c) [] = Ok (w, out, None) →
    step s (with_client s i (mkCSession w (c_written c) false) (mcontent (concat out)))
| step_over s i c failed out : clients s !! i = Some c → c_over c = false →
    MuxWriter.Close accept pooled (set_error (c_writer c) failed) [] = Ok out →
    step s (with_client s i (mkCSession (set_error (c_writer c) failed) (c_written c) true) (mcontent (concat out)))
| step_serve s now cuts p l err : running s = true → wire s ≠ [] →
    handleFrame pooled dispatch ctx reverse now (server s) 0 (mkLink (mkStream (wire s) EOF) cuts) = Ok (p, l, err) →
    step s (mkSys (clients s) (sdata (lk_stream l)) p (bool_decide (err = None)) (healthy s && bool_decide (err = None)) (spoiled s))
| step_break s r se k : store (base (server s)) !! r = Some se → links (server s) !! r = Some k →
    step s (with_server s (close_out (server s) k) true {[ s_ID se ]})
| step_stop s now r se p : store (base (server s)) !! r = Some se → close_session now (server s) r = Ok p →
    step s (with_server s p true {[ s_ID se ]})
| step_close s now p : close_manager now (server s) 0 = Ok p → step s (with_server s p false ∅)
| step_tick s a b p d : tick (server s) 0 a b = (p, d) → step s (with_server s p (negb d) ∅).

Inductive reachable : Sys → Prop :=
| reachable_init : reachable init_sys
| reachable_step s s' : reachable s → step s s' → reachable s'.

(** *** The invariant *)

Definition fr_units (kind : TransferType) (f : Fr) : list (list byte) := match fr_data f with Some d => data_units kind d | None => [] end.
Definition pending (kind : TransferType) (q : list Fr) : list (list byte) := concat (fr_units kind <$> q).
Definition of_session (i : Z) (fs : list Fr) : list Fr := base.filter (λ f, fr_id f = i) fs.

(** What the client wrote to a session is what reached the session's link and what is on the wire, in
    this order, unless the server's side stopped the session. *)
Definition lossless (c : CSession) (v : View) (q : list Fr) : Prop :=
  got_units (c_kind c) (o_got (v_out v)) ++ pending (c_kind c) q = c_units c ∧ (v_closed v = false ∧ o_open (v_out v) = true ∨ q = [] ∧ c_over c = true).
Definition stopped (c : CSession) (v : View) : Prop :=
  got_units (c_kind c) (o_got (v_out v)) `prefix_of` c_units c ∧ (v_closed v = true ∨ o_open (v_out v) = false).
Definition flow (good : bool) (ov : option View) (c : CSession) (q : list Fr) : Prop :=
  match ov with
  | None => pending (c_kind c) q = c_units c ∧
      if MuxWriter.followup (c_writer c) then ∃ f q', q = f :: q' ∧ fr_st f = SessionStatusNew ∧ Forall (λ f, fr_st f ≠ SessionStatusNew) q'
      else Forall (λ f, fr_st f = SessionStatusEnd) q
  | Some v => MuxWriter.followup (c_writer c) = true ∧ Forall (λ f, fr_st f ≠ SessionStatusNew) q ∧ (lossless c v q ∨ good = false ∧ stopped c v)
  end ∧ (∀ q1 f q2, q = q1 ++ f :: q2 → fr_st f = SessionStatusEnd → q2 = [] ∧ c_over c = true).

Definition view_ok (s : Sys) (i : Z) (v : View) : Prop := ∃ c, clients s !! i = Some c ∧ v_kind v = c_kind c ∧ o_target (v_out v) = MuxWriter.dest (c_writer c) ∧
  got_units (c_kind c) (o_got (v_out v)) `prefix_of` c_units c.
Definition client_ok (i : Z) (c : CSession) : Prop := zero_writer reverse (c_writer c) ∧ MuxWriter.id (c_writer c) = i ∧ c_kind c = kind_of (MuxWriter.dest (c_writer c)).
Record flows (s : Sys) (A : gmap Z View) (fs : list Fr) : Prop := {
  f_wire : wire s = concat (fr_bytes <$> fs);
  f_frames : Forall (λ f, ∃ c, clients s !! fr_id f = Some c ∧ fr_ok pooled reverse (MuxWriter.dest (c_writer c)) f) fs;
  f_flow : ∀ i c, clients s !! i = Some c → flow (healthy s && bool_decide (i ∉ spoiled s)) (A !! i) c (of_session i fs)
}.
Record sys_inv (s : Sys) : Prop := {
  si_clients : ∀ i c, clients s !! i = Some c → client_ok i c;
  si_healthy : healthy s = true → running s = true;
  si_server : ∃ A, holds (server s) A ∧ (∀ i v, A !! i = Some v → view_ok s i v) ∧ (running s = true → ∃ fs, flows s A fs)
}.

Lemma of_session_snoc i fs f : of_session i (fs ++ [f]) = of_session i fs ++ (if decide (fr_id f = i) then [f] else []).
Proof. unfold of_session. rewrite list.filter_app, filter_cons. by destruct (decide (fr_id f = i)). Qed.

Lemma pending_app kind a b : pending kind (a ++ b) = pending kind a ++ pending kind b.
Proof. unfold pending. by rewrite fmap_app, concat_app. Qed.

Lemma flow_no_end good ov c q : flow good ov c q → c_over c = false → Forall (λ f, fr_st f ≠ SessionStatusEnd) q.
Proof. intros [_ He] Ho. apply list.Forall_forall. intros f (q1 & q2 & ->)%list_elem_of_split Hf. destruct (He q1 f q2 eq_refl Hf). congruence. Qed.

(** The client appends a frame to a session that is not over. *)
Lemma flow_append good ov c c' q f : flow good ov c q → c_over c = false → c_kind c' = c_kind c → c_units c' = c_units c ++ fr_units (c_kind c) f →
  (fr_st f = SessionStatusEnd ∧ c_over c' = true ∧ MuxWriter.followup (c_writer c') = MuxWriter.followup (c_writer c) ∨
   fr_st f = (if MuxWriter.followup (c_writer c) then SessionStatusKeep else SessionStatusNew) ∧ MuxWriter.followup (c_writer c') = true) →
  flow good ov c' (q ++ [f]).
Proof.
  intros Hfl Ho Hk Hu Hst. pose proof (flow_no_end _ _ _ _ Hfl Ho) as Hne. destruct Hfl as [Hfl He].
  assert (Hp : pending (c_kind c') (q ++ [f]) = pending (c_kind c) q ++ fr_units (c_kind c) f) by (rewrite pending_app, Hk; unfold pending; cbn; by rewrite app_nil_r).
  assert (Hnn : MuxWriter.followup (c_writer c) = true → fr_st f ≠ SessionStatusNew) by (intros Hf; rewrite Hf in Hst; destruct Hst as [[-> _]|[-> _]]; done). split.
  - destruct ov as [v|].
    + destruct Hfl as (Hf & Hq & Hl). split; [destruct Hst as [(_ & _ & ->)|[_ ->]]; done|]. split; [apply Forall_app; split; [done|by apply Forall_singleton, Hnn]|].
      destruct Hl as [[Hl Hop]|[Hg [Hpre Hcl]]].
      * left. split; [rewrite Hk in *; rewrite Hp, app_assoc, Hl; congruence|]. left. destruct Hop as [?|[_ ?]]; [done|congruence].
      * right. split; [done|]. split; [|done]. rewrite Hk, Hu. by apply prefix_app_r.
    + destruct Hfl as [Hpd Hq]. split; [rewrite Hp, Hpd; congruence|]. destruct (MuxWriter.followup (c_writer c)) eqn:Ef.
      * assert (MuxWriter.followup (c_writer c') = true) as -> by (destruct Hst as [(_ & _ & ->)|[_ ->]]; done). destruct Hq as (g & q' & -> & Hg & Hq'). exists g, (q' ++ [f]). split; [done|]. split; [done|].
        apply Forall_app. split; [done|]. by apply Forall_singleton, Hnn.
      * assert (q = []) as -> by (destruct q as [|g q]; [done|]; apply Forall_cons_1 in Hq as [? _], Hne as [? _]; done). cbn [app]. destruct Hst as [(Hs & _ & ->)|[Hs ->]]; [by apply Forall_singleton|]. exists f, []. split; [done|]. split; [done|]. apply Forall_nil_2.
  - intros q1 g q2 E Hg. destruct q2 as [|x q2 _] using rev_ind.
    + apply app_inj_tail in E as [_ <-]. split; [done|]. destruct Hst as [(_ & ? & _)|[Hs _]]; [done|]. rewrite Hs in Hg. by destruct (MuxWriter.followup (c_writer c)).
    + rewrite app_comm_cons, app_assoc in E. apply app_inj_tail in E as [-> _]. destruct (He q1 g q2 eq_refl Hg). congruence.
Qed.

Lemma append_inv s i c c' f : sys_inv s → clients s !! i = Some c → c_over c = false → client_ok i c' → MuxWriter.dest (c_writer c') = MuxWriter.dest (c_writer c) → c_kind c' = c_kind c →
  fr_id f = i → fr_ok pooled reverse (MuxWriter.dest (c_writer c)) f → c_units c' = c_units c ++ fr_units (c_kind c) f →
  (fr_st f = SessionStatusEnd ∧ c_over c' = true ∧ MuxWriter.followup (c_writer c') = MuxWriter.followup (c_writer c) ∨
   fr_st f = (if MuxWriter.followup (c_writer c) then SessionStatusKeep else SessionStatusNew) ∧ MuxWriter.followup (c_writer c') = true) →
  sys_inv (with_client s i c' (fr_bytes f)).
Proof.
  intros H Hc Ho Hok Hd Hk Hi Hf Hu Hst. split; cbn [with_client clients wire server running healthy spoiled].
  - intros j d [[<- <-]|[_ Hj]]%lookup_insert_Some; [done|by apply (si_clients _ H)].
  - apply (si_healthy _ H).
  - destruct (si_server _ H) as (A & Hh & Hv & Hfl). exists A. split; [done|]. split.
    + intros j v Hj. destruct (Hv j v Hj) as (d & Hjd & H1 & H2 & H3). unfold view_ok. cbn [clients with_client]. destruct (decide (j = i)) as [->|Hne]; [|exists d; by rewrite lookup_insert_ne by done].
      assert (d = c) as -> by congruence. exists c'. rewrite lookup_insert_eq, Hk, Hd, Hu. split; [done|]. split; [done|]. split; [done|]. by apply prefix_app_r.
    + intros Hr. destruct (Hfl Hr) as (fs & [Hw Hfs Hflow]). exists (fs ++ [f]). split; cbn [with_client clients wire healthy spoiled].
      * rewrite fmap_app, concat_app. cbn. by rewrite app_nil_r, Hw.
      * apply Forall_app. split; [|apply Forall_singleton; exists c'; rewrite Hi, lookup_insert_eq, Hd; done]. eapply list.Forall_impl; [exact Hfs|]. intros g (d & Hg & Hgok).
        destruct (decide (fr_id g = i)) as [E|Hne]; [|exists d; by rewrite lookup_insert_ne]. exists c'. rewrite E, lookup_insert_eq, Hd. split; [done|]. by assert (d = c) as -> by congruence.
      * intros j d Hj. rewrite of_session_snoc, Hi. apply lookup_insert_Some in Hj as [[<- <-]|[Hne Hj]].
        -- rewrite decide_True by done. apply (flow_append _ _ c); [by apply Hflow|done..].
        -- rewrite decide_False by done. rewrite app_nil_r. by apply Hflow.
Qed.

(** The server's side stops sessions: [v'] is [v] with the session or its link closed. *)
Definition stops (v v' : View) : Prop := v_kind v' = v_kind v ∧ o_target (v_out v') = o_target (v_out v) ∧ o_got (v_out v') = o_got (v_out v) ∧ (v_closed v' = true ∨ o_open (v_out v') = false).

Lemma flow_stops good good' v v' c q : flow good (Some v) c q → stops v v' → good' = false → flow good' (Some v') c q.
Proof.
  intros [(Hf & Hq & Hl) He] (_ & _ & Hg & Hs) ->. split; [|done]. split; [done|]. split; [done|]. right. split; [done|]. unfold stopped. rewrite Hg. split; [|done].
  destruct Hl as [[Hl _]|[_ [Hl _]]]; [|done]. rewrite <- Hl. by eexists.
Qed.

Lemma flow_worse good good' ov c q : flow good ov c q → (good' = true → good = true) → flow good' ov c q.
Proof.
  intros [H He] Hg. split; [|done]. destruct ov as [v|]; [|done]. destruct H as (Hf & Hq & Hl). split; [done|]. split; [done|]. destruct Hl as [Hl|[-> Hl]]; [by left|right].
  split; [|done]. destruct good'; [by specialize (Hg eq_refl)|done].
Qed.

Lemma server_inv s A p A' h l : sys_inv s → (∀ i v, A !! i = Some v → view_ok s i v) → (running s = true → ∃ fs, flows s A fs) → holds p A' →
  (∀ i, A' !! i = A !! i ∨ (h = false ∨ i ∈ l) ∧ ∃ v v', A !! i = Some v ∧ A' !! i = Some v' ∧ stops v v') → sys_inv (with_server s p h l).
Proof.
  intros H Hv Hfl Hp HA. split; cbn [with_server clients wire server running healthy spoiled].
  - apply (si_clients _ H).
  - intros [Hh _]%andb_true_iff. by apply (si_healthy _ H).
  - exists A'. split; [done|]. split.
    + intros i v' Hi. destruct (HA i) as [E|[_ (v & v2 & Ev & Ev' & Hk & Ht & Hg & _)]]; [rewrite E in Hi; by apply Hv|]. assert (v2 = v') as -> by congruence.
      destruct (Hv i v Ev) as (c & Hc & H1 & H2 & H3). exists c. rewrite Hk, Ht, Hg. done.
    + intros Hr. destruct (Hfl Hr) as (fs & [Hw Hfs Hflow]). exists fs. split; [done|done|]. intros i c Hc. specialize (Hflow i c Hc). cbn [with_server healthy spoiled].
      destruct (HA i) as [E|[Hbad (v & v' & Ev & Ev' & Hs)]].
      * rewrite E. eapply flow_worse; [exact Hflow|]. rewrite !andb_true_iff, !bool_decide_eq_true. intros [[Hh _] Hn]. split; [done|]. set_solver.
      * rewrite Ev'. rewrite Ev in Hflow. eapply flow_stops; [exact Hflow|done|]. destruct Hbad as [->|Hin]; [by rewrite andb_false_r|]. rewrite bool_decide_false by set_solver. by rewrite andb_false_r.
Qed.

Lemma stops_alter (A : gmap Z View) (i : Z) (g : View → View) : (∀ v, A !! i = Some v → stops v (g v)) → ∀ h (l : gset Z), h = false ∨ i ∈ l →
  ∀ j, alter g i A !! j = A !! j ∨ (h = false ∨ j ∈ l) ∧ ∃ v v', A !! j = Some v ∧ alter g i A !! j = Some v' ∧ stops v v'.
Proof.
  intros Hg h l Hb j. destruct (decide (j = i)) as [->|Hne]; [|left; by rewrite lookup_alter_ne]. rewrite lookup_alter_eq. destruct (A !! i) as [v|] eqn:E; [|by left]. right. split; [done|]. exists v, (g v). auto.
Qed.

Lemma break_inv s r se k : sys_inv s → store (base (server s)) !! r = Some se → links (server s) !! r = Some k → sys_inv (with_server s (close_out (server s) k) true {[ s_ID se ]}).
Proof.
  intros H Hr Hk. destruct (si_server _ H) as (A & Hh & Hv & Hfl). destruct (h_store _ _ Hh r se Hr) as (_ & _ & k' & o & kind & Hk' & Ho & _ & _). assert (k' = k) as -> by congruence.
  destruct (break_holds _ _ _ _ _ _ Hh Hr Hk Ho) as [Hh' (v0 & Hv0 & Hvo)]. eapply server_inv; [done|exact Hv|exact Hfl|exact Hh'|]. apply stops_alter; [|right; set_solver]. intros v Hvv. assert (v = v0) as -> by congruence.
  subst o. split; [done|]. split; [done|]. split; [done|]. by right.
Qed.

Lemma stop_inv s now r se p : sys_inv s → store (base (server s)) !! r = Some se → close_session now (server s) r = Ok p → sys_inv (with_server s p true {[ s_ID se ]}).
Proof.
  intros H Hr E. destruct (si_server _ H) as (A & Hh & Hv & Hfl). destruct (close_session_holds now (server s) A r se Hh Hr) as (p' & E' & Hh'). rewrite E in E'. injection E' as <-.
  eapply server_inv; [done|exact Hv|exact Hfl|exact Hh'|]. destruct (s_closed se); [by left|]. apply stops_alter; [|right; set_solver]. intros v _. split; [done|]. split; [done|]. split; [done|]. by left.
Qed.

Lemma close_inv s now p : sys_inv s → close_manager now (server s) 0 = Ok p → sys_inv (with_server s p false ∅).
Proof.
  intros H E. destruct (si_server _ H) as (A & Hh & Hv & Hfl). destruct (close_manager_holds now (server s) A Hh) as (p' & E' & Hh'). rewrite E in E'. injection E' as <-.
  eapply server_inv; [done|exact Hv|exact Hfl|exact Hh'|]. intros i. rewrite lookup_fmap. destruct (A !! i) as [v|]; [|by left]. cbn. destruct (v_closed v); [by left|]. right. split; [by left|]. eexists _, _. split; [done|]. split; [done|].
  split; [done|]. split; [done|]. split; [done|]. by left.
Qed.

Lemma tick_inv s a b p d : sys_inv s → tick (server s) 0 a b = (p, d) → sys_inv (with_server s p (negb d) ∅).
Proof.
  intros H E. destruct (si_server _ H) as (A & Hh & Hv & Hfl). pose proof (tick_holds (server s) A a b Hh) as Hh'. rewrite E in Hh'. eapply server_inv; [done|exact Hv|exact Hfl|exact Hh'|]. intros i. by left.
Qed.

Lemma pending_cons kind f q : pending kind (f :: q) = fr_units kind f ++ pending kind q.
Proof. done. Qed.

Lemma ends_tail c f q : (∀ q1 g q2, f :: q = q1 ++ g :: q2 → fr_st g = SessionStatusEnd → q2 = [] ∧ c_over c = true) →
  ∀ q1 g q2, q = q1 ++ g :: q2 → fr_st g = SessionStatusEnd → q2 = [] ∧ c_over c = true.
Proof. intros H q1 g q2 ->. by apply (H (f :: q1)). Qed.

(** The frame at the front of a session's frames moves its data to the session's link. *)
Lemma flow_serve good A A' c f q : effect f A A' → fr_ok pooled reverse (MuxWriter.dest (c_writer c)) f → c_kind c = kind_of (MuxWriter.dest (c_writer c)) →
  (∀ v, A !! fr_id f = Some v → v_kind v = c_kind c) → flow good (A !! fr_id f) c (f :: q) → flow good (A' !! fr_id f) c q.
Proof.
  intros He Hf Hk Hv [Hfl Hends]. split; [|exact (ends_tail c f q Hends)]. unfold effect in He. destruct (fk_st _ _ _ _ Hf) as [[Hst Ht]|[Hst|[Hst Hn]]]; rewrite Hst in He.
  - rewrite decide_True in He by done. rewrite Ht in He. destruct He as (mb & -> & Hmb). rewrite <- Hk in Hmb. rewrite lookup_insert_eq. destruct (A !! fr_id f) as [v|].
    + destruct Hfl as (_ & Hq & _). by apply Forall_cons_1 in Hq as [? _].
    + destruct Hfl as [Hp Hq]. destruct (MuxWriter.followup (c_writer c)) eqn:Ef; [|apply Forall_cons_1 in Hq as [Hx _]; by rewrite Hst in Hx]. destruct Hq as (g & q' & [= <- <-] & _ & Hq').
      split; [done|]. split; [done|]. left. split; [|by left]. cbn. rewrite Hmb. rewrite pending_cons in Hp. exact Hp.
  - rewrite decide_False, decide_True in He by done. destruct (A !! fr_id f) as [v|] eqn:EA.
    2:{ destruct Hfl as [_ Hq]. destruct (MuxWriter.followup (c_writer c)); [destruct Hq as (g & q' & [= <- <-] & Hx & _); by rewrite Hst in Hx|apply Forall_cons_1 in Hq as [Hx _]; by rewrite Hst in Hx]. }
    destruct Hfl as (Hfo & [_ Hq]%Forall_cons_1 & Hl). unfold lossless in Hl. rewrite pending_cons in Hl. unfold fr_units in Hl. destruct (fr_data f) as [d|].
    2:{ subst A'. rewrite EA. split; [done|]. split; [done|]. destruct Hl as [[Hl Hop]|Hl]; [left|by right]. split; [exact Hl|]. left. by destruct Hop as [?|[? _]]. }
    unfold delivered in He. rewrite EA in He. destruct (v_closed v) eqn:Ec.
    { subst A'. rewrite EA. split; [done|]. split; [done|]. right. destruct Hl as [[_ [[Hx _]|[Hx _]]]|Hl]; [congruence|done|exact Hl]. }
    destruct (o_open (v_out v)) eqn:Eo.
    + destruct He as (mb & Hmb & ->). rewrite lookup_insert_eq. split; [done|]. split; [done|]. left. destruct Hl as [[Hl _]|[_ [_ [?|?]]]]; [|congruence..]. split; [|by left]. cbn. rewrite got_units_app.
      rewrite (Hv v eq_refl) in Hmb. rewrite Hmb, <- app_assoc. exact Hl.
    + subst A'. rewrite lookup_alter_eq, EA. cbn. split; [done|]. split; [done|]. right. destruct Hl as [[_ [[_ Hx]|[Hx _]]]|[Hg [Hl _]]]; [congruence|done|]. split; [done|]. split; [exact Hl|by left].
  - do 2 rewrite decide_False in He by done. subst A'. destruct (Hends [] f q eq_refl Hst) as [-> Hover]. unfold ended. rewrite lookup_alter_eq. destruct (A !! fr_id f) as [v|].
    + cbn. destruct Hfl as (Hfo & _ & Hl). split; [done|]. split; [apply Forall_nil_2|]. unfold lossless in Hl. rewrite pending_cons in Hl. unfold fr_units in Hl. rewrite Hn in Hl.
      destruct (v_closed v) eqn:Ec; destruct Hl as [[Hl Hop]|[Hg [Hl Hop]]]; try (left; split; [exact Hl|by right]); right; (split; [done|]); split; [exact Hl|by left|exact Hl|by left].
    + cbn. destruct Hfl as [Hp Hq]. rewrite pending_cons in Hp. unfold fr_units in Hp. rewrite Hn in Hp. split; [exact Hp|]. destruct (MuxWriter.followup (c_writer c)); [|apply Forall_nil_2].
      destruct Hq as (g & q' & [= <- <-] & Hx & _). by rewrite Hst in Hx.
Qed.

Lemma effect_kind f A A' target v : effect f A A' → fr_ok pooled reverse target f → A' !! fr_id f = Some v →
  (∃ v0, A !! fr_id f = Some v0 ∧ v_kind v = v_kind v0 ∧ o_target (v_out v) = o_target (v_out v0)) ∨ v_kind v = kind_of target ∧ o_target (v_out v) = target.
Proof.
  intros He Hf. unfold effect in He. destruct (fk_st _ _ _ _ Hf) as [[Hst Ht]|[Hst|[Hst Hn]]]; rewrite Hst in He.
  - rewrite decide_True in He by done. destruct He as (mb & -> & _). rewrite lookup_insert_eq. intros [= <-]. right. by rewrite Ht.
  - rewrite decide_False, decide_True in He by done. destruct (fr_data f) as [d|]; [|subst A'; intros Hv; left; by exists v]. unfold delivered in He.
    destruct (A !! fr_id f) as [v0|] eqn:EA; [|subst A'; congruence]. destruct (v_closed v0); [subst A'; rewrite EA; intros [= <-]; left; by exists v0|].
    destruct (o_open (v_out v0)); [destruct He as (mb & _ & ->); rewrite lookup_insert_eq|subst A'; rewrite lookup_alter_eq, EA]; intros [= <-]; left; by exists v0.
  - do 2 rewrite decide_False in He by done. subst A'. unfold ended. rewrite lookup_alter_eq. destruct (A !! fr_id f) as [v0|]; [|done]. cbn. intros [= <-]. left. exists v0. by destruct (v_closed v0).
Qed.

Lemma effect_other f A A' j : effect f A A' → j ≠ fr_id f → A' !! j = A !! j.
Proof.
  intros He Hj. unfold effect in He. repeat case_decide; [destruct He as (mb & -> & _); by rewrite lookup_insert_ne| |subst A'; unfold ended; by rewrite lookup_alter_ne].
  destruct (fr_data f); [|by subst A']. unfold delivered in He. destruct (A !! fr_id f) as [v|]; [|by subst A']. destruct (v_closed v); [by subst A'|].
  destruct (o_open (v_out v)); [destruct He as (mb & _ & ->); by rewrite lookup_insert_ne|subst A'; by rewrite lookup_alter_ne].
Qed.

Lemma flow_prefix good v c q : flow good (Some v) c q → got_units (c_kind c) (o_got (v_out v)) `prefix_of` c_units c.
Proof. intros [(_ & _ & [[<- _]|[_ [Hl _]]]) _]; [by eexists|done]. Qed.

(** The wire begins with a frame that the server can read. *)
Lemma serve_frame s now cuts : sys_inv s → running s = true → wire s ≠ [] →
  ∃ p l err, handleFrame pooled dispatch ctx reverse now (server s) 0 (mkLink (mkStream (wire s) EOF) cuts) = Ok (p, l, err) ∧
    sys_inv (mkSys (clients s) (sdata (lk_stream l)) p (bool_decide (err = None)) (healthy s && bool_decide (err = None)) (spoiled s)).
Proof.
  intros H Hr Hw. destruct (si_server _ H) as (A & Hh & Hv & Hfl). destruct (Hfl Hr) as (fs & [Hwire Hfs Hflow]). destruct fs as [|f fs]; [by rewrite Hwire in Hw|]. apply Forall_cons_1 in Hfs as [(c & Hc & Hf) Hfs].
  rewrite Hwire. cbn [fmap list_fmap concat]. pose proof (Hflow (fr_id f) c Hc) as Hfc. assert (Hq : of_session (fr_id f) (f :: fs) = f :: of_session (fr_id f) fs) by (unfold of_session; by rewrite filter_cons_True). rewrite Hq in Hfc.
  destruct (si_clients _ H _ _ Hc) as (_ & _ & Hk). assert (Hvk : ∀ v, A !! fr_id f = Some v → v_kind v = c_kind c) by (intros v HA; destruct (Hv _ _ HA) as (c1 & Hc1 & Hk1 & _); congruence).
  destruct (frame_holds pooled dispatch ctx reverse Hctx now (server s) A (MuxWriter.dest (c_writer c)) f (concat (fr_bytes <$> fs)) EOF cuts Hh Hf) as (p & A' & l & err & E & Hh' & Herr).
  { intros Hst. destruct (A !! fr_id f) as [v|]; [|done]. destruct Hfc as [(_ & Hn & _) _]. by apply Forall_cons_1 in Hn as [? _]. }
  exists p, l, err. split; [exact E|]. split; cbn [clients wire server running healthy spoiled]; [apply (si_clients _ H)|by intros [_ ?]%andb_true_iff|]. exists A'. split; [done|]. destruct err as [er|].
  - split; [|done]. intros i v Hi. destruct Herr as [->|[Hst ->]]; [by apply Hv|]. apply lookup_insert_Some in Hi as [[<- <-]|[_ Hi]]; [|by apply Hv]. exists c. split; [done|]. split; [by rewrite Hk|]. split; [done|].
    cbn. destruct (c_kind c); apply prefix_nil.
  - destruct Herr as [[cuts' ->] He]. pose proof (flow_serve _ _ _ _ _ _ He Hf Hk Hvk Hfc) as Hfc'. split.
    + intros i v Hi. destruct (decide (i = fr_id f)) as [->|Hne]; [|rewrite (effect_other _ _ _ _ He Hne) in Hi; by apply Hv]. exists c. split; [done|]. rewrite Hi in Hfc'.
      destruct (effect_kind _ _ _ _ _ He Hf Hi) as [(v0 & Hv0 & E1 & E2)|[E1 E2]].
      * destruct (Hv _ _ Hv0) as (c1 & Hc1 & Hk1 & Ht1 & _). assert (c1 = c) as -> by congruence. split; [congruence|]. split; [congruence|]. by eapply flow_prefix.
      * split; [congruence|]. split; [done|]. by eapply flow_prefix.
    + intros _. exists fs. split; [done|done|]. cbn [clients healthy spoiled]. intros i c1 Hc1. rewrite bool_decide_true, andb_true_r by done. destruct (decide (i = fr_id f)) as [->|Hne].
      * assert (c1 = c) as -> by congruence. exact Hfc'.
      * rewrite (effect_other _ _ _ _ He Hne). specialize (Hflow i c1 Hc1). unfold of_session in *. by rewrite filter_cons_False in Hflow by done.
Qed.

Lemma open_inv s i target inb : sys_inv s → clients s !! i = None → zero_writer reverse (MuxWriter.NewWriter i target (kind_of target) (replicate 8 x00) inb) →
  sys_inv (with_client s i (mkCSession (MuxWriter.NewWriter i target (kind_of target) (replicate 8 x00) inb) [] false) []).
Proof.
  intros H Hi Hz. destruct (si_server _ H) as (A & Hh & Hv & Hfl). set (c := mkCSession _ _ _). assert (HA : A !! i = None) by (destruct (A !! i) as [v|] eqn:E; [destruct (Hv i v E) as (c1 & ? & _); congruence|done]).
  split; cbn [with_client clients wire server running healthy spoiled].
  - intros j d [[<- <-]|[_ Hj]]%lookup_insert_Some; [done|by apply (si_clients _ H)].
  - apply (si_healthy _ H).
  - exists A. split; [done|]. split.
    + intros j v Hj. destruct (Hv j v Hj) as (d & Hd & Hrest). exists d. cbn. rewrite lookup_insert_ne by congruence. done.
    + intros Hr. destruct (Hfl Hr) as (fs & [Hw Hfs Hflow]). exists fs. split; cbn [with_client clients wire healthy spoiled].
      * by rewrite app_nil_r.
      * eapply list.Forall_impl; [exact Hfs|]. intros g (d & Hd & Hg). exists d. rewrite lookup_insert_ne by congruence. done.
      * intros j d [[<- <-]|[_ Hj]]%lookup_insert_Some; [|by apply Hflow]. rewrite HA. assert (of_session i fs = []) as ->; [|by split; [split; [|apply Forall_nil_2]|intros [|? ?]]].
        unfold of_session. destruct (base.filter (λ f, fr_id f = i) fs) as [|g q] eqn:Eq; [done|].
        assert (Hg : g ∈ base.filter (λ f, fr_id f = i) fs) by (rewrite Eq; apply elem_of_cons; by left). apply list_elem_of_filter in Hg as [Hgi Hg].
        rewrite list.Forall_forall in Hfs. destruct (Hfs g Hg) as (d & Hd & _). congruence.
Qed.

Lemma zero_followup w : zero_writer reverse w → zero_writer reverse (MuxWriter.set_followup w).
Proof. intros (Hg & Hr & Hw). split; [done|]. split; [done|]. constructor; try apply Hw. done. Qed.

Lemma zero_error w b : zero_writer reverse w → zero_writer reverse (set_error w b).
Proof. intros (Hg & Hr & Hw). split; [done|]. split; [done|]. constructor; apply Hw. Qed.

Lemma units_nil c f : fr_data f = None → c_units c = c_units c ++ fr_units (c_kind c) f.
Proof. intros E. unfold fr_units. rewrite E. by rewrite app_nil_r. Qed.

Lemma sys_step_inv s s' : sys_inv s → step s s' → sys_inv s'.
Proof.
  intros H. destruct 1 as [s i target inb Hi Hz|s i c chunk w out Hi Ho Hc Hu Hl E|s i c w out Hi Ho E|s i c failed out Hi Ho E|s now cuts p l err Hr Hw E|s r se k Hr Hk|s now r se p Hr E|s now p E|s a b p d E].
  - by apply open_inv.
  - destruct (si_clients _ H _ _ Hi) as (Hz & Hid & Hkd). destruct (data_frame pooled reverse (c_writer c) chunk Hz Hc Hu Hl) as (f & out' & E' & Hb & Hf & Hfi & Hd & Hst). rewrite E in E'. injection E' as -> ->. rewrite Hb.
    apply (append_inv s i c _ f); try done; [by split; [apply zero_followup|]|congruence| |by right].
    unfold c_units, fr_units, c_kind. cbn. rewrite Hd, fmap_app, concat_app. cbn. by rewrite app_nil_r.
  - destruct (si_clients _ H _ _ Hi) as (Hz & Hid & Hkd). destruct (meta_frame pooled reverse (c_writer c) Hz) as (f & out' & E' & Hb & Hf & Hfi & Hd & Hst). rewrite E in E'. injection E' as -> ->. rewrite Hb.
    apply (append_inv s i c _ f); try done; [by split; [apply zero_followup|]|congruence|exact (units_nil c f Hd)|by right].
  - destruct (si_clients _ H _ _ Hi) as (Hz & Hid & Hkd). destruct Hz as (Hg & Hrv & Hw). destruct (over_frame pooled reverse (set_error (c_writer c) failed) (MuxWriter.dest (c_writer c)) (wo_id _ Hw)) as (f & out' & E' & Hb & Hf & Hfi & Hd & Hst).
    rewrite E in E'. injection E' as ->. rewrite Hb.
    apply (append_inv s i c _ f); try done; [by split; [apply zero_error|]|rewrite Hfi; exact Hid|exact (units_nil c f Hd)|by left].
  - destruct (serve_frame s now cuts H Hr Hw) as (p' & l' & err' & E' & Hs'). rewrite E in E'. injection E' as <- <- <-. exact Hs'.
  - by apply (break_inv s r se k).
  - by apply (stop_inv s now r se p).
  - by apply (close_inv s now p).
  - by apply (tick_inv s a b p d).
Qed.

Lemma sys_init_inv : sys_inv init_sys.
Proof.
  split; cbn; [intros i c; by rewrite lookup_empty|done|]. exists ∅. split; [|split; [intros i v; by rewrite lookup_empty|intros _; exists []; split; [done|apply Forall_nil_2|intros i c; by rewrite lookup_empty]]].
  split; cbn; try (intros *; by rewrite lookup_empty).
  - exists NewSessionManager. split; [done|]. cbn. exists ∅. split; [done|]. intros i r. rewrite lookup_empty. split; [done|]. intros (se & Hse & _). by rewrite lookup_empty in Hse.
Qed.

Lemma sys_reachable_inv s : reachable s → sys_inv s.
Proof. induction 1 as [|s s' _ IH Hs]; [apply sys_init_inv|by eapply sys_step_inv]. Qed.
End system.

(** C4: sessions of a mux connection do not mix. A client opens TCP and UDP sessions, each under an ID of
    its own that it does not use again and without a global ID, and sends data, empty frames and ends of
    sessions with its writers, the frames of different sessions in any order; the server takes them off
    the connection, however the bytes are cut on the way, while its side breaks links, stops sessions, or
    closes the worker. The inbound of the connection, if it has one, has a user, and its content has no
    attributes. Then none of these frames makes the server panic; what it wrote to the link of a session
    is a prefix of what the client wrote to the session of the same ID (byte by byte for a stream, packet
    by packet for UDP), and the link leads to the session's target; and once the connection is read, every
    session that the server's side did not stop has got everything, whatever happened to the others.
    Frames that no such client writes, and sessions with a global ID, are not covered. *)
Theorem mux_sessions_apart pooled dispatch ctx reverse s : ctx_ok ctx → reachable pooled dispatch ctx reverse s →
  (running s = true → wire s ≠ [] → ∀ now cuts, ∃ p l err,
     handleFrame pooled dispatch ctx reverse now (server s) 0 (mkLink (mkStream (wire s) EOF) cuts) = Ok (p, l, err)) ∧
  (∀ r se k o, store (base (server s)) !! r = Some se → links (server s) !! r = Some k → outs (server s) !! k = Some o →
     ∃ c, clients s !! s_ID se = Some c ∧ o_target o = MuxWriter.dest (c_writer c) ∧ got_units (c_kind c) (o_got o) `prefix_of` c_units c) ∧
  (healthy s = true → wire s = [] → ∀ i c, clients s !! i = Some c → i ∉ spoiled s → c_units c ≠ [] →
     ∃ r se k o, store (base (server s)) !! r = Some se ∧ s_ID se = i ∧ links (server s) !! r = Some k ∧ outs (server s) !! k = Some o ∧ got_units (c_kind c) (o_got o) = c_units c).
Proof.
  intros Hctx Hre. pose proof (sys_reachable_inv pooled dispatch ctx reverse Hctx s Hre) as H. destruct (si_server _ _ _ H) as (A & Hh & Hv & Hfl). split; [|split].
  - intros Hr Hw now cuts. destruct (serve_frame pooled dispatch ctx reverse Hctx s now cuts H Hr Hw) as (p & l & err & E & _). by exists p, l, err.
  - intros r se k o Hr Hk Ho. destruct (h_store _ _ Hh r se Hr) as (_ & _ & k' & o' & kind & Hk' & Ho' & _ & HA). assert (k' = k) as -> by congruence. assert (o' = o) as -> by congruence.
    destruct (Hv _ _ HA) as (c & Hc & _ & Ht & Hp). by exists c.
  - intros Hhe Hw i c Hc Hs Hn. destruct (Hfl (si_healthy _ _ _ H Hhe)) as (fs & [Hwire Hfs Hflow]). assert (fs = []) as ->.
    { destruct fs as [|f fs]; [done|]. rewrite Hwire in Hw. cbn in Hw. apply app_eq_nil in Hw as [Hw _]. apply Forall_cons_1 in Hfs as [(c1 & _ & Hf) _]. by destruct (fk_bytes _ _ _ _ Hf). }
    specialize (Hflow i c Hc). rewrite Hhe, bool_decide_true in Hflow by done. cbn in Hflow. destruct Hflow as [Hfc _]. destruct (A !! i) as [v|] eqn:EA.
    + destruct Hfc as (_ & _ & [[Hl _]|[Hx _]]); [|done]. cbn in Hl. rewrite app_nil_r in Hl. destruct (h_view _ _ Hh i v EA) as (r & se & Hr & Hid).
      destruct (h_store _ _ Hh r se Hr) as (_ & _ & k & o & kind & Hk & Ho & _ & HA). rewrite Hid, EA in HA. injection HA as ->. by exists r, se, k, o.
    + destruct Hfc as [Hu Hq]. by destruct Hn.
Qed.

(** An inbound with a valid source but no user: every frame that opens a session makes the server panic. *)
Lemma no_user_panics pooled dispatch ctx inbound now p i meta l : cx_attributes ctx = false →
  cx_inbound ctx = Some inbound → IsValid (ci_Source inbound) = true → ci_User inbound = None →
  handleStatusNew pooled dispatch ctx now p i meta l = Panic.
Proof.
  intros Ha Hi Hs Hu. unfold handleStatusNew, SubContextFromMuxInbound. rewrite Ha. cbn [mbind go_bind].
  assert (Hm : access_message (frame_inbound ctx meta) meta = Panic); [|by rewrite Hm].
  unfold frame_inbound, access_message. rewrite Hi. destruct (f_Inbound meta) as [j|]; [destruct (IsValid (Source j)) eqn:Es, (IsValid (Local j))|];
    cbn [andb cx_inbound]; rewrite ?Hi; cbn [ci_Source ci_User]; by rewrite ?Es, ?Hs, Hu.
Qed.

(** Steps as functions, to run the system. *)
Definition demo_ctx : Context := mkContext Network_Unknown (Some (mkCtxInbound (mkDestination (Some (ipv4Address [x05; x06; x07; x08])) 9 Network_TCP) no_destination (Some []))) false.
Definition do_write (s : Sys) (i : Z) (chunk : mbuf) : Sys :=
  match clients s !! i with
  | Some c => if c_over c then s else match MuxWriter.writeData accept [] (c_writer c) [] chunk with
      | Ok (w, out, None) => with_client s i (mkCSession w (c_written c ++ [mcontent chunk]) false) (mcontent (concat out)) | _ => s end
  | None => s
  end.
Definition do_serve (s : Sys) (cuts : list nat) : Sys :=
  if running s && negb (bool_decide (wire s = [])) then
    match handleFrame [] (λ _, None) demo_ctx false 0 (server s) 0 (mkLink (mkStream (wire s) EOF) cuts) with
    | Ok (p, l, err) => mkSys (clients s) (sdata (lk_stream l)) p (bool_decide (err = None)) (healthy s && bool_decide (err = None)) (spoiled s)
    | _ => s
    end
  else s.

Abbreviation demo_reachable := (reachable [] (λ _, None) demo_ctx false).

Lemma do_write_reachable s i chunk : demo_reachable s → Forall wf chunk → udp_ok (chunk_udp chunk) → 0 < len (mcontent chunk) ≤ 8192 → demo_reachable (do_write s i chunk).
Proof.
  intros H Hc Hu Hl. unfold do_write. destruct (clients s !! i) as [c|] eqn:E; [|done]. destruct (c_over c) eqn:Eo; [done|]. destruct (MuxWriter.writeData accept [] (c_writer c) [] chunk) as [[[w out] [e|]]|e|] eqn:Ew; try done.
  eapply reachable_step; [exact H|]. by eapply step_write.
Qed.

Lemma do_serve_reachable s cuts : demo_reachable s → demo_reachable (do_serve s cuts).
Proof.
  intros H. unfold do_serve. destruct (running s) eqn:Er; [|done]. case_bool_decide as Hw; [done|]. cbn [negb andb]. destruct (handleFrame _ _ _ _ _ _ _ _) as [[[p l] err]|e|] eqn:E; try done.
  eapply reachable_step; [exact H|]. by eapply step_serve.
Qed.

Definition web : Destination := mkDestination (Some (ipv4Address [x01; x02; x03; x04])) 80 Network_TCP.
Definition web_writer (i : Z) : MuxWriter.t := MuxWriter.NewWriter i web (kind_of web) (replicate 8 x00) None.
Definition web_chunk (s : string) : mbuf := [FromBytes (s2b s)].
(** Two sessions that send in turn; the server reads the first frames in pieces. *)
Definition web_opened : Sys := with_client (with_client init_sys 1 (mkCSession (web_writer 1) [] false) []) 2 (mkCSession (web_writer 2) [] false) [].
Definition web_written : Sys := do_write (do_write (do_write web_opened 1 (web_chunk "ab")) 2 (web_chunk "xyz")) 1 (web_chunk "cd").
Definition web_run : Sys := do_serve (do_serve (do_serve web_written [1%nat]) [0%nat; 2%nat]) [].

Lemma web_chunk_ok s : len (s2b s) < 2147483648 → Forall wf (web_chunk s) ∧ mcontent (web_chunk s) = s2b s.
Proof. intros H. destruct (wf_FromBytes (s2b s) H) as [Hw Hc]. split; [by apply Forall_singleton|]. unfold web_chunk. rewrite mcontent_cons, Hc. apply app_nil_r. Qed.

Lemma web_writer_ok i : is_u16 i → zero_writer false (web_writer i).
Proof. intros Hi. split; [done|]. split; [done|]. split; try done; by left. Qed.

Lemma web_reachable : demo_reachable web_run.
Proof.
  assert (Hone : ∀ t, len (s2b t) < 2147483648 → 0 < len (s2b t) ≤ 8192 → Forall wf (web_chunk t) ∧ udp_ok (chunk_udp (web_chunk t)) ∧ 0 < len (mcontent (web_chunk t)) ≤ 8192).
  { intros t Ht Hl. destruct (web_chunk_ok t Ht) as [Hw ->]. done. }
  destruct (Hone "ab") as (A1 & A2 & A3); [done..|]. destruct (Hone "xyz") as (B1 & B2 & B3); [done..|]. destruct (Hone "cd") as (C1 & C2 & C3); [done..|].
  assert (H1 : demo_reachable (with_client init_sys 1 (mkCSession (web_writer 1) [] false) [])).
  { eapply reachable_step; [apply reachable_init|]. apply (step_open _ _ _ _ init_sys 1 web None); [done|]. apply web_writer_ok. unfold is_u16. lia. }
  assert (H2 : demo_reachable web_opened).
  { eapply reachable_step; [exact H1|]. apply (step_open _ _ _ _ _ 2 web None); [done|]. apply web_writer_ok. unfold is_u16. lia. }
  unfold web_run. do 3 apply do_serve_reachable. exact (do_write_reachable _ _ _ (do_write_reachable _ _ _ (do_write_reachable _ _ _ H2 A1 A2 A3) B1 B2 B3) C1 C2 C3).
Qed.

Lemma mux_sessions_apart_witness : ∃ r se k o, store (base (server web_run)) !! r = Some se ∧ s_ID se = 1 ∧
  links (server web_run) !! r = Some k ∧ outs (server web_run) !! k = Some o ∧ got_units TransferTypeStream (o_got o) = [[x61]; [x62]; [x63]; [x64]].
Proof.
  destruct (mux_sessions_apart [] (λ _, None) demo_ctx false web_run (conj eq_refl (ex_intro _ [] eq_refl)) web_reachable) as (_ & _ & H).
  destruct (H ltac:(vm_compute; reflexivity) ltac:(vm_compute; reflexivity) 1 (mkCSession (MuxWriter.set_followup (web_writer 1)) [s2b "ab"; s2b "cd"] false)) as (r & se & k & o & H1 & H2 & H3 & H4 & H5).
  - vm_compute. reflexivity.
  - apply (bool_decide_unpack _). vm_compute. exact I.
  - vm_compute. discriminate.
  - exists r, se, k, o. split; [exact H1|]. split; [exact H2|]. split; [exact H3|]. split; [exact H4|]. exact H5.
Defined.

(** ** UDP sessions that survive their connection *)

(** A new frame with a global ID that is known, and whose link takes the packet: the packet goes to the
    link the ID had before, no link is dispatched, and the new session is on the link. *)
Lemma xudp_keeps_link pooled dispatch now p i meta d rest e cuts x v r se k o m : xmap (base p) !! GlobalID meta = Some x → xudps (base p) !! x = Some v → x_Status v ≠ Initializing →
  x_Mux v = r → store (base p) !! r = Some se → s_closed se = true → is_Some (parents p !! r) → links p !! r = Some k → outs p !! k = Some o → o_open o = true →
  managers p !! i = Some m → MuxSession.closed m = false → is_Some (sessions m) → parents p !! r ≠ Some i → 0 < len d ≤ 8192 →
  ∃ p' b, new_xudp_session pooled dispatch now p i meta (mkLink (mkStream (put_be16 (len d) ++ d ++ rest) e) cuts) = Ok (p', mkLink (mkStream rest e) cuts, None) ∧
    outs p' = <[k := mkOut (o_target o) (o_got o ++ [b]) true]> (outs p) ∧ content b = d ∧
    ∃ r', MuxSession.Get (focus p' i) (SessionID meta) = Some r' ∧ links p' !! r' = Some k.
Proof.
  intros Hx Hv Hst Hr Hse Hcl [j Hj] Hk Ho Hop Hm Hmc [mp Hmp] Hij Hd. unfold new_xudp_session. destruct (read_packet pooled d rest e cuts (Target meta) Hd) as (b & -> & Hb & Hc). cbn [mbind go_bind].
  rewrite Hx, Hv. cbn [ok_or_panic mbind go_bind]. rewrite decide_False by done. unfold reattach. rewrite Hr. set (p1 := set_status p x v Initializing).
  unfold close_session. change (parents p1) with (parents p). rewrite Hj. cbn [ok_or_panic mbind go_bind]. unfold MuxSession.Session_Close. change (store (focus p1 j)) with (store (base p)). rewrite Hse. cbn [ok_or_panic mbind go_bind]. rewrite Hcl. cbn [mbind go_bind].
  unfold apply_events. change (events (focus p1 j)) with (events (base p1)). rewrite drop_all. cbn [foldl links unfocus outs set_status with_base p1]. rewrite Hk. cbn [ok_or_panic mbind go_bind]. rewrite Ho. cbn [ok_or_panic mbind go_bind].
  unfold out_write. rewrite Hop. cbn [mbind go_bind]. unfold attach, new_session. set (r' := fresh _). unfold add_session, MuxSession.Add, focus, set_mux, with_base, with_outs. cbn [mgr set_mgr managers base store set_xudp set_session unfocus].
  assert (Hij' : j ≠ i) by congruence. rewrite lookup_insert_ne by done. change (managers p1) with (managers p). rewrite Hm. cbn [default]. change (id m) with m. rewrite Hmc, lookup_insert_eq, Hmp. cbn [ok_or_panic mbind go_bind s_ID map_set].
  eexists _, b. split; [reflexivity|]. split; [done|]. split; [done|]. exists r'. unfold MuxSession.Get, focus. cbn [mgr set_mgr managers unfocus base links]. rewrite lookup_insert_eq. cbn. by rewrite !lookup_insert_eq.
Qed.

(** A peer that opens a session with the ID of one that is open: closing the older one takes the newer
    one out of the manager, which is still open. *)
Definition twice_new : FrameMetadata := mkFrame web 1 0 SessionStatusNew (replicate 8 x00) None.
Definition twice : go Proc :=
  '(p, l, _) ← new_plain_session [] (λ _, None) 0 init_proc 0 twice_new (mkLink (mkStream [] EOF) []);
  '(p, _, _) ← new_plain_session [] (λ _, None) 0 p 0 twice_new l;
  close_session 0 p 0.
Lemma reused_id_lost : ∃ p se, twice = Ok p ∧ store (base p) !! 1%nat = Some se ∧ s_ID se = 1 ∧ s_closed se = false ∧ MuxSession.Get (focus p 0) 1 = None.
Proof. eexists _, _. split; [vm_compute; reflexivity|]. by vm_compute. Qed.
