(* ===== verification/Vmess.v ===== *)
(** * VMess headers

    Models the headers of VMess: [proxy/vmess/aead] (key derivation, authentication IDs, sealed
    headers), [proxy/vmess/encoding] (request and response headers, the history of sessions), the
    filter of [common/antireplay], and the users of [proxy/vmess/validator.go]. Hashes with keys and
    ciphers are the classes [VmessOps] and [VmessLaws]; the two checksums are computed. Times are in
    nanoseconds. Random bytes are arguments. A refused connection is drained before it is closed; what
    is read then is not modelled. *)

From S2P Require Import Prelude Net Buf AddrCodec MuxFrame ProxyHeaders.
Import Buffer (content, wf).

#[local] Open Scope Z_scope.
Abbreviation bytes := (list byte).

(** ** Checksums *)

(** [crc32.ChecksumIEEE], bit by bit. *)
Definition crc32_bit (c : Z) : Z := if Z.odd c then Z.lxor (Z.shiftr c 1) 3988292384 else Z.shiftr c 1.
Definition crc32_byte (c : Z) (b : byte) : Z := Nat.iter 8 crc32_bit (Z.lxor c (byte_to_Z b)).
Definition crc32 (bs : bytes) : Z := Z.lxor (foldl crc32_byte 4294967295 bs) 4294967295.
(** [fnv.New32a]. *)
Definition fnv1a (bs : bytes) : Z := foldl (λ h b, u32 (Z.lxor h (byte_to_Z b) * 16777619)) 2166136261 bs.

Definition put_be64 (z : Z) : bytes := put_be32 (u32 (Z.shiftr z 32)) ++ put_be32 (u32 z).
(** The signed number of eight bytes. *)
Definition be64_signed (bs : bytes) : option Z :=
  hi ← be32 bs; lo ← be32 (drop 4 bs); Some (let z := hi * 4294967296 + lo in if decide (z < 9223372036854775808) then z else z - 18446744073709551616).

(** ** Ciphers *)

Class VmessOps := {
  sha256 : bytes → bytes;
  md5 : bytes → bytes;
  hmac : (bytes → bytes) → bytes → bytes → bytes;
  aes_encrypt : bytes → bytes → bytes;
  aes_decrypt : bytes → bytes → bytes;
  gcm_seal : bytes → bytes → bytes → bytes → bytes;
  gcm_open : bytes → bytes → bytes → bytes → option bytes
}.
Class VmessLaws `{VmessOps} := {
  sha256_len x : len (sha256 x) = 32;
  md5_len x : len (md5 x) = 16;
  hmac_len h k m : (∀ x, len (h x) = 32) → len (hmac h k m) = 32;
  aes_len k b : len b = 16 → len (aes_encrypt k b) = 16;
  aes_dec_len k b : len b = 16 → len (aes_decrypt k b) = 16;
  aes_inverse k b : len k = 16 → len b = 16 → aes_decrypt k (aes_encrypt k b) = b;
  gcm_len k n p a : len (gcm_seal k n p a) = len p + 16;
  gcm_inverse k n p a : len k = 16 → len n = 12 → gcm_open k n (gcm_seal k n p a) a = Some p;
  gcm_open_len k n c a p : gcm_open k n c a = Some p → len c = len p + 16
}.

Section vmess.
Context `{VmessOps} (pooled : bytes).

(** [KDF]: each part of the path keys a code over the one before. *)
Definition KDF (key : bytes) (path : list bytes) : bytes := foldl hmac (hmac sha256 (s2b "VMess AEAD KDF")) path key.
Definition KDF16 (key : bytes) (path : list bytes) : bytes := take 16 (KDF key path).
Definition KDF12 (key : bytes) (path : list bytes) : bytes := take 12 (KDF key path).

Definition KDFSaltConstAuthIDEncryptionKey := s2b "AES Auth ID Encryption".
Definition KDFSaltConstAEADRespHeaderLenKey := s2b "AEAD Resp Header Len Key".
Definition KDFSaltConstAEADRespHeaderLenIV := s2b "AEAD Resp Header Len IV".
Definition KDFSaltConstAEADRespHeaderPayloadKey := s2b "AEAD Resp Header Key".
Definition KDFSaltConstAEADRespHeaderPayloadIV := s2b "AEAD Resp Header IV".
Definition KDFSaltConstVMessHeaderPayloadAEADKey := s2b "VMess Header AEAD Key".
Definition KDFSaltConstVMessHeaderPayloadAEADIV := s2b "VMess Header AEAD Nonce".
Definition KDFSaltConstVMessHeaderPayloadLengthAEADKey := s2b "VMess Header AEAD Key_Length".
Definition KDFSaltConstVMessHeaderPayloadLengthAEADIV := s2b "VMess Header AEAD Nonce_Length".

(** ** Authentication IDs *)

Definition auth_key (cmdKey : bytes) : bytes := KDF16 cmdKey [KDFSaltConstAuthIDEncryptionKey].
Definition CreateAuthID (cmdKey : bytes) (time : Z) (rand4 : bytes) : bytes :=
  let buf := put_be64 time ++ rand4 in
  aes_encrypt (auth_key cmdKey) (buf ++ put_be32 (crc32 buf)).
(** The time, the checksum, and the block. *)
Definition Decode (cmdKey data : bytes) : go (Z * Z * bytes) :=
  let d := aes_decrypt (auth_key cmdKey) data in
  t ← ok_or_panic (be64_signed d);
  zero ← ok_or_panic (be32 (drop 12 d));
  Ok (t, zero, d).

(** [ReplayFilter]. *)
Record ReplayFilter := mkFilter { poolA : gset bytes; poolB : gset bytes; lastClean : Z }.
Definition second : Z := 1000000000.
Definition filter_interval : Z := 120 * second.
Definition Check (f : ReplayFilter) (now : Z) (sum : bytes) : ReplayFilter * bool :=
  let f := if decide (filter_interval ≤ now - lastClean f) then mkFilter ∅ (poolA f) now else f in
  if decide (sum ∈ poolA f ∨ sum ∈ poolB f) then (f, false) else (mkFilter ({[ sum ]} ∪ poolA f) (poolB f) (lastClean f), true).

Record MemoryUser := mkUser { u_Email : bytes; u_ID : bytes }.
#[export] Instance MemoryUser_eq_dec : EqDecision MemoryUser.
Proof. solve_decision. Defined.
Definition CmdKey (u : MemoryUser) : bytes := md5 (u_ID u ++ s2b "c48619fe-8f02-49e0-b9e9-edf763e17e21").

Definition ErrNotFound := ErrMsg "user do not exist".
Definition ErrNeagtiveTime := ErrMsg "timestamp is negative".
Definition ErrInvalidTime := ErrMsg "invalid timestamp, perhaps unsynchronized time".
Definition ErrReplay := ErrMsg "replayed request".
Definition Unix (now : Z) : Z := now / second.

(** [AuthIDDecoderHolder.Match] over the decoders [ds], in some order. The difference of times is
    computed in floating point: below 2^53 it is exact, and above no time is near. *)
Fixpoint Match (ds : list (bytes * MemoryUser)) (f : ReplayFilter) (now : Z) (authID : bytes) : go (ReplayFilter * (GoError + MemoryUser)) :=
  match ds with
  | [] => Ok (f, inl ErrNotFound)
  | (key, ticket) :: ds =>
      '(t, z, d) ← Decode key authID;
      if decide (z ≠ crc32 (take 12 d)) then Match ds f now authID
      else if decide (t < 0) then Ok (f, inl ErrNeagtiveTime)
      else if decide (120 < Z.abs (t - Unix now)) then Ok (f, inl ErrInvalidTime)
      else
        let '(f, fresh) := Check f now authID in
        Ok (f, if fresh then inr ticket else inl ErrReplay)
  end.

(** ** Sealed headers *)

Definition header_path (salt authID nonce : bytes) : list bytes := [salt; authID; nonce].
Definition SealVMessAEADHeader (key data : bytes) (now : Z) (rand4 nonce : bytes) : bytes :=
  let authID := CreateAuthID key (Unix now) rand4 in
  let seal k iv p := gcm_seal (KDF16 key (header_path k authID nonce)) (KDF12 key (header_path iv authID nonce)) p authID in
  authID
  ++ seal KDFSaltConstVMessHeaderPayloadLengthAEADKey KDFSaltConstVMessHeaderPayloadLengthAEADIV (put_be16 (u16 (len data)))
  ++ nonce
  ++ seal KDFSaltConstVMessHeaderPayloadAEADKey KDFSaltConstVMessHeaderPayloadAEADIV data.

(** [io.ReadFull]. *)
Definition full_or (r : Stream) (n : Z) : go (bytes * Stream) := match read_full r n with (bs, None, r) => Ok (bs, r) | (_, Some e, _) => Err e end.
Definition open_or (o : option bytes) : go bytes := match o with Some p => Ok p | None => Err (ErrMsg "cipher: message authentication failed") end.
(** The length is sixteen bits wide, also with the sixteen bytes of the tag. *)
Definition OpenVMessAEADHeader (key authid : bytes) (r : Stream) : go (bytes * Stream) :=
  '(encryptedLength, r) ← full_or r 18;
  '(nonce, r) ← full_or r 8;
  let opened k iv c := open_or (gcm_open (KDF16 key (header_path k authid nonce)) (KDF12 key (header_path iv authid nonce)) c authid) in
  lb ← opened KDFSaltConstVMessHeaderPayloadLengthAEADKey KDFSaltConstVMessHeaderPayloadLengthAEADIV encryptedLength;
  length ← ok_or_panic (be16 lb);
  '(encrypted, r) ← full_or r (u16 (length + 16));
  data ← opened KDFSaltConstVMessHeaderPayloadAEADKey KDFSaltConstVMessHeaderPayloadAEADIV encrypted;
  Ok (data, r).

(** ** Requests *)

Record RequestHeader := mkRequest {
  Version : byte; Command : byte; Option : byte; Security : Z; rq_Port : Port; rq_Address : option Address; rq_User : MemoryUser
}.
Definition RequestCommandTCP : byte := x01.
Definition RequestCommandUDP : byte := x02.
Definition RequestCommandMux : byte := x03.
Definition SecurityType_UNKNOWN : Z := 0.
Definition SecurityType_AUTO : Z := 2.
Definition SecurityType_AES128_GCM : Z := 3.
Definition SecurityType_CHACHA20_POLY1305 : Z := 4.
Definition parseSecurityType (b : Z) : Z :=
  if decide (b = 0 ∨ b = 2 ∨ b = 3 ∨ b = 4) then (if decide (b = SecurityType_UNKNOWN) then SecurityType_AUTO else b) else SecurityType_UNKNOWN.

(** The keys of a session, of the client or of the server. *)
Record SessionKeys := mkKeys { requestBodyKey : bytes; requestBodyIV : bytes; responseHeader : byte }.

Definition must (m : go Buffer.t) : go Buffer.t := match m with Err _ => Panic | m => m end.
Definition mux_domain : Address := domainAddress (s2b "v1.mux.cool").

(** [EncodeRequestHeader] with [padding], at time [now]. *)
Definition request_plain (c : SessionKeys) (header : RequestHeader) (padding : bytes) : go Buffer.t :=
  b ← must (byte_or (Buffer.New pooled) x01);
  b ← must (write_or b (requestBodyIV c));
  b ← must (write_or b (requestBodyKey c));
  b ← must (byte_or b (responseHeader c));
  b ← must (byte_or b (Option header));
  let security := Z.lor (u8 (Z.shiftl (len padding) 4)) (u8 (Security header)) in
  b ← must (write_or b [byte_of_Z security; x00; Command header]);
  b ← (if decide (Command header ≠ RequestCommandMux) then write_dest muxParser b (rq_Address header) (rq_Port header) else Ok b);
  b ← (if decide (0 < len padding) then must (write_or b padding) else Ok b);
  bs ← Buffer.Bytes b;
  must (write_or b (put_be32 (fnv1a bs))).
Definition EncodeRequestHeader (c : SessionKeys) (header : RequestHeader) (padding : bytes) (now : Z) (rand4 nonce : bytes) : go bytes :=
  b ← request_plain c header padding;
  bs ← Buffer.Bytes b;
  Ok (SealVMessAEADHeader (CmdKey (rq_User header)) bs now rand4 nonce).

(** [SessionHistory]. *)
Record SessionID := mkSID { sid_user : bytes; sid_key : bytes; sid_nonce : bytes }.
#[export] Instance SessionID_eq_dec : EqDecision SessionID.
Proof. solve_decision. Defined.
#[export] Instance SessionID_countable : Countable SessionID.
Proof. refine (inj_countable' (λ s, (sid_user s, sid_key s, sid_nonce s)) (λ '(u, k, n), mkSID u k n) _). by intros []. Defined.
Definition SessionHistory := gmap SessionID Z.
Definition addIfNotExits (h : SessionHistory) (now : Z) (session : SessionID) : SessionHistory * bool :=
  match h !! session with
  | Some expire => if decide (now < expire) then (h, false) else (<[session := now + 180 * second]> h, true)
  | None => (<[session := now + 180 * second]> h, true)
  end.
Definition removeExpiredEntries (h : SessionHistory) (now : Z) : SessionHistory := base.filter (λ p, now ≤ p.2) h.

(** What the connections of a server share. *)
Record Server := mkServer { decoders : gmap bytes MemoryUser; users : list MemoryUser; replays : ReplayFilter; history : SessionHistory }.
Definition with_replays (s : Server) (f : ReplayFilter) : Server := mkServer (decoders s) (users s) f (history s).
Definition with_history (s : Server) (h : SessionHistory) : Server := mkServer (decoders s) (users s) (replays s) h.

Inductive Outcome := Refused (e : GoError) | Accepted (q : RequestHeader) (keys : SessionKeys) (rest : Stream).
(** An error ends the connection; the server's state stays as it is by then. *)
Definition refusing {A} (s : Server) (m : go A) (k : A → go (Server * Outcome)) : go (Server * Outcome) :=
  match m with Ok a => k a | Err e => Ok (s, Refused e) | Panic => Panic end.

(** The address, the padding and the checksum that follow the first 38 bytes in the buffer [b]. Where
    the address cannot be read the request is refused, here at once; the source reads on, and refuses it for
    its padding or its checksum, or in the end for the address it has not got. *)
Definition read_sum (b : Buffer.t) (r : Stream) (paddingLen : Z) (addr : option Address) (port : Port) : go (Address * Port) :=
  '(b, r) ← (if decide (0 < paddingLen) then read_or b r paddingLen else Ok (b, r));
  '(b, r) ← read_or b r 4;
  body ← Buffer.BytesTo b (-4);
  sum ← Buffer.BytesFrom b (-4);
  expectedHash ← ok_or_panic (be32 sum);
  if decide (fnv1a body ≠ expectedHash) then Err (ErrMsg "invalid auth, but this is a AEAD request")
  else match addr with Some a => Ok (a, port) | None => Err (ErrMsg "invalid remote address") end.
Definition read_tail (b : Buffer.t) (decryptor : Stream) (command : byte) (paddingLen : Z) : go (Address * Port) :=
  if decide (command = RequestCommandMux) then read_sum b decryptor paddingLen (Some mux_domain) 0
  else if decide (command = RequestCommandTCP ∨ command = RequestCommandUDP) then
    '(b', r, a, p) ← ReadAddressPort pooled muxParser (Some b) decryptor;
    b' ← ok_or_panic b';
    read_sum b' r paddingLen a p
  else read_sum b decryptor paddingLen None 0.

(** The request in the decrypted header [data]. *)
Definition read_request (s : Server) (now : Z) (user : MemoryUser) (data : bytes) (rest : Stream) : go (Server * Outcome) :=
  refusing s (read_or (Buffer.New pooled) (mkStream data EOF) 38) (λ '(b, decryptor),
  version ← Buffer.Byte b 0;
  iv ← Buffer.BytesRange b 1 17;
  key ← Buffer.BytesRange b 17 33;
  let '(h, fresh) := addIfNotExits (history s) now (mkSID (u_ID user) key iv) in
  let s := with_history s h in
  if negb fresh then Ok (s, Refused (ErrMsg "duplicated session id, possibly under replay attack, but this is a AEAD request"))
  else
    response ← Buffer.Byte b 33;
    option ← Buffer.Byte b 34;
    b35 ← Buffer.Byte b 35;
    command ← Buffer.Byte b 37;
    let paddingLen := Z.shiftr (byte_to_Z b35) 4 in
    let security := parseSecurityType (Z.land (byte_to_Z b35) 15) in
    refusing s (read_tail b decryptor command paddingLen) (λ '(addr, port),
    if decide (security = SecurityType_UNKNOWN ∨ security = SecurityType_AUTO) then Ok (s, Refused (ErrMsg "unknown security type: "))
    else Ok (s, Accepted (mkRequest version command option security port (Some addr) user) (mkKeys key iv response) rest))).

(** [DecodeRequestHeader], with the decoders in the order [ds]. *)
Definition DecodeRequestHeader (ds : list (bytes * MemoryUser)) (now : Z) (s : Server) (r : Stream) : go (Server * Outcome) :=
  refusing s (read_or (Buffer.New pooled) r 16) (λ '(b, r),
  authid ← Buffer.Bytes b;
  '(f, found) ← Match ds (replays s) now authid;
  let s := with_replays s f in
  match found with
  | inl e => Ok (s, Refused e)
  | inr user => refusing s (OpenVMessAEADHeader (CmdKey user) authid r) (λ '(data, r), read_request s now user data r)
  end).

(** ** Users *)

Context (EqualFold : bytes → bytes → bool).
Definition Add (s : Server) (u : MemoryUser) : Server := mkServer (<[CmdKey u := u]> (decoders s)) (users s ++ [u]) (replays s) (history s).
(** The last user takes the place of the removed one. *)
Fixpoint find_email (email : bytes) (l : list MemoryUser) : option (nat * MemoryUser) :=
  match l with [] => None | u :: l => if EqualFold (u_Email u) email then Some (0%nat, u) else '(i, v) ← find_email email l; Some (S i, v) end.
Definition Remove (s : Server) (email : bytes) : Server * bool :=
  match find_email email (users s) with
  | None => (s, false)
  | Some (i, u) =>
      let l := match list.last (users s) with Some z => <[i := z]> (users s) | None => users s end in
      (mkServer (delete (CmdKey u) (decoders s)) (take (length (users s) - 1) l) (replays s) (history s), true)
  end.

(** ** Responses *)

Definition responseBodyKey (c : SessionKeys) : bytes := take 16 (sha256 (requestBodyKey c)).
Definition responseBodyIV (c : SessionKeys) : bytes := take 16 (sha256 (requestBodyIV c)).
(** No command is known: its place is two zero bytes. *)
Definition EncodeResponseHeader (c : SessionKeys) (option : byte) : bytes :=
  let plain := [responseHeader c; option; x00; x00] in
  let seal k iv p := gcm_seal (KDF16 (responseBodyKey c) [k]) (KDF12 (responseBodyIV c) [iv]) p [] in
  seal KDFSaltConstAEADRespHeaderLenKey KDFSaltConstAEADRespHeaderLenIV (put_be16 (u16 (len plain)))
  ++ seal KDFSaltConstAEADRespHeaderPayloadKey KDFSaltConstAEADRespHeaderPayloadIV plain.
(** [DecodeResponseHeader]: the option; a command is read and left out. *)
Definition DecodeResponseHeader (c : SessionKeys) (r : Stream) : go (byte * Stream) :=
  let opened k iv p := open_or (gcm_open (KDF16 (responseBodyKey c) [k]) (KDF12 (responseBodyIV c) [iv]) p []) in
  '(encryptedLength, r) ← full_or r 18;
  lb ← opened KDFSaltConstAEADRespHeaderLenKey KDFSaltConstAEADRespHeaderLenIV encryptedLength;
  length ← ok_or_panic (be16 lb);
  '(encrypted, r) ← full_or r (length + 16);
  data ← opened KDFSaltConstAEADRespHeaderPayloadKey KDFSaltConstAEADRespHeaderPayloadIV encrypted;
  '(b, response) ← read_or (Buffer.New pooled) (mkStream data EOF) 4;
  first ← Buffer.Byte b 0;
  if decide (first ≠ responseHeader c) then Err (ErrMsg "unexpected response header. Expecting ")
  else
    option ← Buffer.Byte b 1;
    cmdID ← Buffer.Byte b 2;
    dataLen ← Buffer.Byte b 3;
    if decide (cmdID ≠ x00) then _ ← read_or (Buffer.Clear b) response (byte_to_Z dataLen); Ok (option, r) else Ok (option, r).
End vmess.

(** ** The parts *)

Example crc32_check : crc32 (s2b "123456789") = 3421780262.
Proof. vm_compute. reflexivity. Qed.
Example fnv1a_check : fnv1a (s2b "foobar") = 3214735720.
Proof. vm_compute. reflexivity. Qed.

Lemma crc32_range bs : is_u32 (crc32 bs).
Proof.
  assert (Hbit : ∀ c, is_u32 c → is_u32 (crc32_bit c)).
  { intros c Hc. assert (Hs : is_u32 (Z.shiftr c 1)) by (unfold is_u32 in *; rewrite Z.shiftr_div_pow2 by lia; change (2 ^ 1) with 2; dlia).
    unfold crc32_bit. destruct (Z.odd c); [|done]. apply (lxor_below 32); [lia|done|lia]. }
  assert (Hbyte : ∀ c b, is_u32 c → is_u32 (crc32_byte c b)).
  { intros c b Hc. assert (Hx : is_u32 (Z.lxor c (byte_to_Z b))) by (apply (lxor_below 32); [lia|done|pose proof (byte_to_Z_range b) as Hb; unfold is_u8 in Hb; lia]).
    unfold crc32_byte. cbn [Nat.iter nat_rect]. by repeat apply Hbit. }
  unfold crc32. apply (lxor_below 32); [lia| |lia]. cut (∀ l c, is_u32 c → is_u32 (foldl crc32_byte c l)); [intros Hf; apply Hf; unfold is_u32; lia|].
  induction l as [|b l IH]; intros c Hc; [done|]. apply IH. by apply Hbyte.
Qed.

Lemma fnv1a_range bs : is_u32 (fnv1a bs).
Proof.
  unfold fnv1a. cut (∀ l h, is_u32 h → is_u32 (foldl (λ h b, u32 (Z.lxor h (byte_to_Z b) * 16777619)) h l)); [intros Hf; apply Hf; unfold is_u32; lia|].
  induction l as [|b l IH]; intros h Hh; [done|]. apply IH. apply u32_range.
Qed.

Lemma be64_put t rest : 0 ≤ t < 9223372036854775808 → be64_signed (put_be64 t ++ rest) = Some t.
Proof.
  intros Ht. unfold be64_signed, put_be64. rewrite <- app_assoc. rewrite be32_put by apply u32_range. cbn [mbind option_bind]. change 4%nat with (length (put_be32 (u32 (Z.shiftr t 32)))).
  rewrite drop_app_length, be32_put by apply u32_range. cbn [mbind option_bind]. assert (E : u32 (Z.shiftr t 32) * 4294967296 + u32 t = t).
  { rewrite Z.shiftr_div_pow2 by lia. change (2 ^ 32) with 4294967296. unfold u32. rewrite (Z.mod_small (t / 4294967296)) by dlia. dlia. }
  rewrite E. by rewrite decide_True by lia.
Qed.

Section laws.
Context `{HL : VmessLaws} (pooled : bytes).

Lemma KDF_len key path : len (KDF key path) = 32.
Proof.
  unfold KDF. cut (∀ h, (∀ x, len (h x) = 32) → len (foldl hmac h path key) = 32).
  { intros Hf. apply Hf. intros x. apply hmac_len, sha256_len. }
  induction path as [|v path IH]; intros h Hh; [apply Hh|]. apply IH. intros x. by apply hmac_len.
Qed.
Lemma KDF16_len key path : len (KDF16 key path) = 16.
Proof. unfold KDF16. pose proof (KDF_len key path). unfold len in *. rewrite length_take. lia. Qed.
Lemma KDF12_len key path : len (KDF12 key path) = 12.
Proof. unfold KDF12. pose proof (KDF_len key path). unfold len in *. rewrite length_take. lia. Qed.

Lemma CreateAuthID_len key t rand4 : len rand4 = 4 → len (CreateAuthID key t rand4) = 16.
Proof. intros Hr. unfold CreateAuthID. apply aes_len. rewrite !len_app, Hr. reflexivity. Qed.

(** An authentication ID is read with the key it was made with. *)
Lemma Decode_own key t rand4 : len rand4 = 4 → 0 ≤ t < 9223372036854775808 →
  ∃ d, Decode key (CreateAuthID key t rand4) = Ok (t, crc32 (take 12 d), d).
Proof.
  intros Hr Ht. unfold Decode, CreateAuthID, auth_key. set (buf := put_be64 t ++ rand4). assert (Hb : len buf = 12) by (unfold buf; rewrite len_app, Hr; reflexivity).
  rewrite aes_inverse by (rewrite ?KDF16_len, ?len_app, ?Hb; done). exists (buf ++ put_be32 (crc32 buf)).
  assert (H12 : length buf = 12%nat) by (unfold len in Hb; lia). assert (Hbe : be64_signed (buf ++ put_be32 (crc32 buf)) = Some t) by (unfold buf; rewrite <- app_assoc; by apply be64_put).
  assert (Hz : be32 (drop 12 (buf ++ put_be32 (crc32 buf))) = Some (crc32 buf)) by (rewrite <- H12, drop_app_length, <- (app_nil_r (put_be32 _)); apply be32_put, crc32_range).
  rewrite Hbe, Hz. cbn [ok_or_panic mbind go_bind]. by rewrite <- H12, take_app_length.
Qed.

Lemma Decode_total key a : len a = 16 → ∃ t z d, Decode key a = Ok (t, z, d).
Proof.
  intros Ha. unfold Decode. pose proof (aes_dec_len (auth_key key) a Ha) as Hd. set (d := aes_decrypt _ a) in *. unfold len in Hd.
  do 16 (destruct d as [|? d]; [cbn in Hd; lia|]). destruct d; [|cbn in Hd; lia]. cbn. eauto.
Qed.

(** The order in which the decoders are tried does not matter where only one of them fits. *)
Definition only_fits (ds : list (bytes * MemoryUser)) (key authID : bytes) : Prop :=
  ∀ k u t z d, (k, u) ∈ ds → k ≠ key → Decode k authID = Ok (t, z, d) → z ≠ crc32 (take 12 d).

Lemma Match_own ds f now key u t rand4 : let authID := CreateAuthID key t rand4 in
  len rand4 = 4 → 0 ≤ t < 9223372036854775808 → Z.abs (t - Unix now) ≤ 120 →
  NoDup ds.*1 → (key, u) ∈ ds → only_fits ds key authID → (Check f now authID).2 = true →
  Match ds f now authID = Ok ((Check f now authID).1, inr u).
Proof.
  intros authID Hr Ht Hnow Hnd Hin Hfit Hc. induction ds as [|[k v] ds IH]; [by apply elem_of_nil in Hin|]. cbn [Match]. apply list.NoDup_cons in Hnd as [Hk Hnd]. destruct (decide (k = key)) as [->|Hne].
  - destruct (Decode_own key t rand4 Hr Ht) as (d & Eown). fold authID in Eown. rewrite Eown. cbn [mbind go_bind]. rewrite decide_False by (intros Hn; by apply Hn). rewrite !decide_False by lia.
    destruct (Check f now authID) as [f' fr] eqn:E. cbn in Hc. subst fr. cbn. apply elem_of_cons in Hin as [[= <-]|Hin]; [done|]. destruct Hk. apply list_elem_of_fmap. by exists (key, u).
  - destruct (Decode_total k authID (CreateAuthID_len key t rand4 Hr)) as (t' & z & d & E). rewrite E. cbn [mbind go_bind]. rewrite decide_True by (apply (Hfit k v t' z d); [apply elem_of_cons; by left|done|done]).
    apply IH; [done| |]; [by apply elem_of_cons in Hin as [[= -> _]|?]|]. intros k' u' t2 z2 d2 Hin'. apply (Hfit k' u'), elem_of_cons. by right.
Qed.

Lemma full_or_app a rest e n : len a = n → full_or (mkStream (a ++ rest) e) n = Ok (a, mkStream rest e).
Proof.
  intros <-. unfold full_or, read_full. cbn [sdata serr]. rewrite decide_True by (rewrite len_app; pose proof (len_nonneg rest); lia). by rewrite to_nat_len, take_app_length, drop_app_length.
Qed.

Lemma be16_exact z : is_u16 z → be16 (put_be16 z) = Some z.
Proof. intros Hz. by rewrite <- (app_nil_r (put_be16 z)), be16_put. Qed.

(** A sealed header is the authentication ID and what [OpenVMessAEADHeader] opens. *)
Lemma Open_sealed key data now rand4 nonce : len rand4 = 4 → len nonce = 8 → len data < 65520 →
  let authID := CreateAuthID key (Unix now) rand4 in
  ∃ body, SealVMessAEADHeader key data now rand4 nonce = authID ++ body ∧
    ∀ rest e, OpenVMessAEADHeader key authID (mkStream (body ++ rest) e) = Ok (data, mkStream rest e).
Proof.
  intros Hr Hn Hd authID. unfold SealVMessAEADHeader. fold authID. cbv zeta. eexists. split; [reflexivity|]. intros rest e. unfold OpenVMessAEADHeader. rewrite <- !app_assoc. pose proof (len_nonneg data).
  rewrite full_or_app by (rewrite gcm_len; done). cbn [mbind go_bind]. rewrite full_or_app by done. cbn [mbind go_bind]. rewrite gcm_inverse by (apply KDF16_len || apply KDF12_len). cbn [open_or mbind go_bind].
  rewrite u16_small by (unfold is_u16; lia). rewrite be16_exact by (unfold is_u16; lia). cbn [ok_or_panic mbind go_bind]. rewrite u16_small by (unfold is_u16; lia).
  rewrite full_or_app by (rewrite gcm_len; done). cbn [mbind go_bind]. rewrite gcm_inverse by (apply KDF16_len || apply KDF12_len). done.
Qed.
End laws.

(** ** Reading keeps what it read in the buffer *)

Lemma read_or_appends b r n c r' : wf b → 0 ≤ n < 2147483648 → read_or b r n = Ok (c, r') →
  ∃ bs, wf c ∧ content c = content b ++ bs ∧ sdata r = bs ++ sdata r' ∧ Buffer.room c = Buffer.room b - len bs ∧ len bs = n.
Proof.
  intros Hb Hn E. unfold read_or in E. destruct (decide (n ≤ Buffer.room b)) as [Hr|Hr].
  - destruct (Buffer.ReadFullFrom_spec b r n Hb ltac:(lia)) as (b' & Ef & Hb' & Hc & Hroom & _). rewrite Ef in E. cbn [mbind go_bind] in E. destruct (read_full r n) as [[bs [e|]] r1] eqn:Er; cbn [fst snd] in *; [done|].
    injection E as <- <-. exists bs. unfold read_full in Er. destruct (decide (n ≤ len (sdata r))) as [Hl|]; [|done]. injection Er as <- <-. cbn. split; [done|]. split; [done|]. split; [by rewrite take_drop|].
    split; [done|]. unfold len in *. rewrite length_take. lia.
  - exfalso. unfold Buffer.ReadFullFrom in E. unfold Buffer.room in Hr. assert (Hw := Hb). unfold wf in Hw. rewrite (i32_small (len (Buffer.arr b))) in E by (unfold is_i32; lia).
    destruct (decide (Buffer.end_ b + n < 2147483648)) as [Hs|Hs].
    + rewrite (i32_small (Buffer.end_ b + n)), decide_True in E by (unfold is_i32; lia). done.
    + assert (Hneg : i32 (Buffer.end_ b + n) < 0) by (unfold i32; dlia). rewrite decide_False in E by lia. unfold slice in E. rewrite decide_False in E by lia. done.
Qed.

Lemma readPort_appends b r c r' p : wf b → readPort b r = Ok (c, r', p) → ∃ bs, wf c ∧ content c = content b ++ bs ∧ sdata r = bs ++ sdata r' ∧ Buffer.room c = Buffer.room b - len bs.
Proof.
  intros Hb E. unfold readPort in E. destruct (read_or b r 2) as [[c1 r1]|er|] eqn:E1; try done. cbn [mbind go_bind] in E. destruct (Buffer.BytesFrom c1 (-2)) as [bs|er|]; try done. cbn [mbind go_bind] in E.
  destruct (PortFromBytes bs) as [q|er|]; try done. cbn [mbind go_bind] in E. injection E as <- <- _. destruct (read_or_appends b r 2 c1 r1 Hb ltac:(lia) E1) as (x & ? & ? & ? & ? & _). by exists x.
Qed.

Lemma readAddress_appends ap b r c r' a : wf b → readAddress ap b r = Ok (c, r', a) → ∃ bs, wf c ∧ content c = content b ++ bs ∧ sdata r = bs ++ sdata r' ∧ Buffer.room c = Buffer.room b - len bs.
Proof.
  intros Hb E. unfold readAddress in E. destruct (read_or b r 1) as [[b1 r1]|er|] eqn:E1; try done. cbn [mbind go_bind] in E. destruct (read_or_appends b r 1 b1 r1 Hb ltac:(lia) E1) as (x1 & W1 & C1 & S1 & R1 & _).
  destruct (Buffer.Byte b1 _) as [t|er|]; try done. cbn [mbind go_bind] in E. set (z := match typeParser ap with Some f => _ | None => _ end) in E.
  assert (Hgo : ∀ n b2 r2, 0 ≤ n < 2147483648 → read_or b1 r1 n = Ok (b2, r2) → ∃ bs, wf b2 ∧ content b2 = content b ++ bs ∧ sdata r = bs ++ sdata r2 ∧ Buffer.room b2 = Buffer.room b - len bs).
  { intros n b2 r2 Hn E2. destruct (read_or_appends _ _ _ _ _ W1 Hn E2) as (x2 & W2 & C2 & S2 & R2 & _). exists (x1 ++ x2). rewrite C2, C1, S1, S2, len_app, !app_assoc. split; [done|]. split; [done|]. split; [done|lia]. }
  destruct (decide (16 ≤ z)); [done|]. destruct (index (addrTypeMap ap) z) as [fam|]; [|done]. cbn [ok_or_panic mbind go_bind] in E. destruct (decide (fam = afInvalid)); [done|].
  destruct (decide (fam = AddressFamilyIPv4)).
  { destruct (read_or b1 r1 4) as [[b2 r2]|er|] eqn:E2; try done. cbn [mbind go_bind] in E. destruct (Buffer.BytesFrom b2 _) as [bs|er|]; try done. cbn [mbind go_bind] in E. injection E as <- <- _. by apply (Hgo 4). }
  destruct (decide (fam = AddressFamilyIPv6)).
  { destruct (read_or b1 r1 16) as [[b2 r2]|er|] eqn:E2; try done. cbn [mbind go_bind] in E. destruct (Buffer.BytesFrom b2 _) as [bs|er|]; try done. cbn [mbind go_bind] in E. injection E as <- <- _. by apply (Hgo 16). }
  destruct (decide (fam = AddressFamilyDomain)); [|done]. destruct (read_or b1 r1 1) as [[b2 r2]|er|] eqn:E2; try done. cbn [mbind go_bind] in E. destruct (Hgo 1 b2 r2 ltac:(lia) E2) as (x2 & W2 & C2 & S2 & R2).
  destruct (Buffer.Byte b2 _) as [l|er|]; try done. cbn [mbind go_bind] in E. destruct (read_or b2 r2 (byte_to_Z l)) as [[b3 r3]|er|] eqn:E3; try done. cbn [mbind go_bind] in E.
  pose proof (byte_to_Z_range l) as Hl. unfold is_u8 in Hl. destruct (read_or_appends b2 r2 (byte_to_Z l) b3 r3 W2 ltac:(lia) E3) as (x3 & W3 & C3 & S3 & R3 & _).
  assert (c = b3 ∧ r' = r3) as [-> ->].
  { destruct (Buffer.BytesFrom b3 _) as [d|er|]; try done. cbn [mbind go_bind] in E. destruct (index d 0) as [h|]; [|done]. cbn [ok_or_panic mbind go_bind] in E.
    destruct (if maybeIPPrefix h then ParseAddress d else Some (DomainAddress d)) as [ad|]; [|done]. destruct (IsIP (Family ad)); [by injection E as <- <- _|]. destruct (negb (isValidDomain d)); [done|]. by injection E as <- <- _. }
  exists (x2 ++ x3). rewrite C3, C2, S2, S3, len_app, !app_assoc. split; [done|]. split; [done|]. split; [done|lia].
Qed.

Lemma ReadAddressPort_appends pooled ap b r c r' a p : wf b → ReadAddressPort pooled (portFirstAddressParser ap) (Some b) r = Ok (c, r', a, p) →
  ∃ b' bs, c = Some b' ∧ wf b' ∧ content b' = content b ++ bs ∧ sdata r = bs ++ sdata r' ∧ Buffer.room b' = Buffer.room b - len bs.
Proof.
  intros Hb E. cbn [ReadAddressPort default] in E. change (id b) with b in E. destruct (readPort b r) as [[[b1 r1] q]|er|] eqn:E1; try done. cbn [mbind go_bind] in E.
  destruct (readPort_appends _ _ _ _ _ Hb E1) as (x1 & W1 & C1 & S1 & R1). destruct (readAddress ap b1 r1) as [[[b2 r2] ad]|er|] eqn:E2; try done. cbn [mbind go_bind] in E.
  destruct (readAddress_appends _ _ _ _ _ _ W1 E2) as (x2 & W2 & C2 & S2 & R2). injection E as <- <- _ _. exists b2, (x1 ++ x2). rewrite C2, C1, S1, S2, len_app, !app_assoc. split; [done|]. split; [done|]. split; [done|]. split; [done|lia].
Qed.

(** ** Requests *)

Definition keys_ok (c : SessionKeys) : Prop := len (requestBodyKey c) = 16 ∧ len (requestBodyIV c) = 16.
Record request_ok (q : RequestHeader) : Prop := {
  ro_command : Command q = RequestCommandTCP ∨ Command q = RequestCommandUDP ∨ Command q = RequestCommandMux;
  ro_security : Security q = SecurityType_AES128_GCM ∨ Security q = SecurityType_CHACHA20_POLY1305;
  ro_port : is_u16 (rq_Port q);
  ro_address : ∃ a, rq_Address q = Some a ∧ encodable a
}.
(** What the server makes of the request [q], for the user [u]. *)
Definition received (q : RequestHeader) (u : MemoryUser) : RequestHeader :=
  let mux := bool_decide (Command q = RequestCommandMux) in
  mkRequest x01 (Command q) (Option q) (Security q) (if mux then 0 else rq_Port q) (if mux then Some mux_domain else rq_Address q) u.

Section requests.
Context `{HL : VmessLaws} (pooled : bytes).

Definition sec_byte (q : RequestHeader) (padding : bytes) : byte := byte_of_Z (Z.lor (u8 (Z.shiftl (len padding) 4)) (u8 (Security q))).
Definition head38 (c : SessionKeys) (q : RequestHeader) (padding : bytes) : bytes :=
  [x01] ++ requestBodyIV c ++ requestBodyKey c ++ [responseHeader c; Option q; sec_byte q padding; x00; Command q].

Lemma must_write_fits (b : Buffer.t) bs n : 0 ≤ n → fits b (len bs + n) → ∃ b', must (write_or b bs) = Ok b' ∧ output b' = output b ++ bs ∧ fits b' n.
Proof. intros Hn Hf. destruct (write_or_fits b bs n Hn Hf) as (b' & Hw & Ho & Hf'). exists b'. unfold must. by rewrite Hw. Qed.
Lemma must_byte_fits (b : Buffer.t) c n : 0 ≤ n → fits b (1 + n) → ∃ b', must (byte_or b c) = Ok b' ∧ output b' = output b ++ [c] ∧ fits b' n.
Proof. intros Hn Hf. destruct (byte_or_fits b c n Hn Hf) as (b' & Hw & Ho & Hf'). exists b'. unfold must. by rewrite Hw. Qed.

Lemma read_sum_ok b (tail padding : bytes) a p : wf b → 4096 ≤ Buffer.room b → len padding < 16 → content b = tail →
  read_sum b (mkStream (padding ++ put_be32 (fnv1a (tail ++ padding))) EOF) (len padding) (Some a) p = Ok (a, p).
Proof.
  intros Hb Hr Hp Hc. unfold read_sum. set (sum := put_be32 (fnv1a (tail ++ padding))).
  assert (∃ b1, (if decide (0 < len padding) then read_or b (mkStream (padding ++ sum) EOF) (len padding) else Ok (b, mkStream (padding ++ sum) EOF)) = Ok (b1, mkStream sum EOF) ∧ wf b1 ∧ content b1 = tail ++ padding ∧ 4080 ≤ Buffer.room b1) as (b1 & -> & W1 & C1 & R1).
  { pose proof (len_nonneg padding). destruct (decide (0 < len padding)) as [Hpos|Hz].
    - destruct (read_or_spec b padding sum EOF (len padding) Hb eq_refl) as (b1 & -> & W1 & C1 & R1); [lia|]. exists b1. split; [done|]. split; [done|]. split; [by rewrite C1, Hc|lia].
    - assert (padding = []) as -> by (apply len_0_nil; lia). exists b. cbn [app]. rewrite app_nil_r. split; [done|]. split; [done|]. split; [done|lia]. }
  cbn [mbind go_bind]. rewrite <- (app_nil_r sum) at 1. destruct (read_or_spec b1 sum [] EOF 4 W1 eq_refl) as (b2 & -> & W2 & C2 & R2); [lia|]. cbn [mbind go_bind].
  assert (Hto : Buffer.BytesTo b2 (-4) = Ok (tail ++ padding)).
  { pose proof (len_nonneg (content b1)). assert (Hl2 : len (content b2) = len (content b1) + 4) by (rewrite C2, len_app; done). pose proof (Buffer.len_content b2 W2) as Hlc. assert (Hw := W2). unfold wf in Hw.
    assert (Hfe : Buffer.from_end b2 (-4) = Buffer.from_end b2 (len (content b1))).
    { unfold Buffer.from_end. rewrite decide_True, decide_False by lia. rewrite Buffer.Len_wf by done. rewrite i32_small by (unfold is_i32; lia). lia. }
    transitivity (Buffer.BytesTo b2 (len (content b1))); [unfold Buffer.BytesTo; by rewrite Hfe|]. rewrite MultiBuffer.BytesTo_spec by (done || lia). by rewrite C2, to_nat_len, take_app_length, C1. }
  rewrite Hto. cbn [mbind go_bind]. rewrite (Buffer.BytesFrom_neg b2 (-4) (content b1) sum) by done. cbn [mbind go_bind].
  assert (Hbe : be32 sum = Some (fnv1a (tail ++ padding))) by (unfold sum; rewrite <- (app_nil_r (put_be32 _)); apply be32_put, fnv1a_range). rewrite Hbe. cbn [ok_or_panic mbind go_bind].
  rewrite decide_False by (intros Hn; by apply Hn). done.
Qed.

(** What is written of the address is read back, and the padding and the checksum fit. *)
Definition the_address (q : RequestHeader) : Address := match rq_Address (received q (rq_User q)) with Some a => a | None => mux_domain end.
Definition the_port (q : RequestHeader) : Port := rq_Port (received q (rq_User q)).

Lemma address_written (b : Buffer.t) q n : request_ok q → 0 ≤ n → fits b (259 + n) →
  ∃ b' enc, (if decide (Command q ≠ RequestCommandMux) then write_dest muxParser b (rq_Address q) (rq_Port q) else Ok b) = Ok b' ∧ output b' = output b ++ enc ∧ fits b' n ∧ len enc ≤ 259 ∧
    ∀ c padding, wf c → 4500 ≤ Buffer.room c → len padding < 16 →
      read_tail pooled c (mkStream (enc ++ padding ++ put_be32 (fnv1a (content c ++ enc ++ padding))) EOF) (Command q) (len padding) = Ok (the_address q, the_port q).
Proof.
  intros Hq Hn Hf. unfold the_address, the_port, received. destruct (ro_address _ Hq) as (a & Ea & Ha). destruct (decide (Command q ≠ RequestCommandMux)) as [Hm|Hm].
  - rewrite Ea. pose proof (enc_size_bound a Ha) as Hsz. destruct (address_port_ok pooled muxParser b a (rq_Port q) n) as (b' & enc & E & F & O & Hl & Hrd); [apply parsers_support; left|done|apply Hq|done|by eapply fits_le; [exact Hf|lia]|].
    exists b', enc. split; [exact E|]. split; [done|]. split; [done|]. split; [lia|]. intros c padding Hc Hr Hp. unfold read_tail. rewrite decide_False by done.
    rewrite decide_True by (destruct (ro_command _ Hq) as [?|[?|?]]; [by left|by right|done]). destruct (Hrd (Some c) (padding ++ put_be32 (fnv1a (content c ++ enc ++ padding))) EOF Hc) as (c' & Er & _); [cbn; lia|].
    rewrite Er. cbn [mbind go_bind]. change muxParser with (portFirstAddressParser (the_parser muxParser)) in Er. destruct (ReadAddressPort_appends _ _ _ _ _ _ _ _ Hc Er) as (c1 & bs & -> & W1 & C1 & S1 & R1).
    cbn [ok_or_panic mbind go_bind]. cbn [sdata] in S1. apply app_inj_2 in S1 as [-> _]; [|done]. rewrite (bool_decide_false (Command q = RequestCommandMux)) by done. cbn [rq_Address rq_Port]. rewrite app_assoc. apply read_sum_ok; [done|lia|done|done].
  - assert (Hmux : Command q = RequestCommandMux) by (destruct (decide (Command q = RequestCommandMux)); [done|by destruct Hm]). exists b, []. rewrite app_nil_r. split; [done|]. split; [done|]. split; [eapply fits_le; [exact Hf|lia]|]. split; [done|].
    intros c padding Hc Hr Hp. unfold read_tail. rewrite decide_True by done. rewrite bool_decide_true by done. cbn [app rq_Address rq_Port]. apply read_sum_ok; [done|lia|done|done].
Qed.

Lemma plain_written c q padding : keys_ok c → request_ok q → len padding < 16 →
  ∃ b enc, request_plain pooled c q padding = Ok b ∧ wf b ∧ content b = head38 c q padding ++ enc ++ padding ++ put_be32 (fnv1a (head38 c q padding ++ enc ++ padding)) ∧ len enc ≤ 259 ∧
    ∀ d, wf d → content d = head38 c q padding → 4500 ≤ Buffer.room d →
      read_tail pooled d (mkStream (enc ++ padding ++ put_be32 (fnv1a (head38 c q padding ++ enc ++ padding))) EOF) (Command q) (len padding) = Ok (the_address q, the_port q).
Proof.
  intros [Hk Hi] Hq Hp. pose proof (len_nonneg padding). unfold request_plain.
  destruct (must_byte_fits (Buffer.New pooled) x01 8191) as (b1 & -> & O1 & F1); [lia|apply fits_new|]. cbn [mbind go_bind].
  destruct (must_write_fits b1 (requestBodyIV c) 8175) as (b2 & -> & O2 & F2); [lia|by rewrite Hi|]. cbn [mbind go_bind].
  destruct (must_write_fits b2 (requestBodyKey c) 8159) as (b3 & -> & O3 & F3); [lia|by rewrite Hk|]. cbn [mbind go_bind].
  destruct (must_byte_fits b3 (responseHeader c) 8158) as (b4 & -> & O4 & F4); [lia|done|]. cbn [mbind go_bind].
  destruct (must_byte_fits b4 (Option q) 8157) as (b5 & -> & O5 & F5); [lia|done|]. cbn [mbind go_bind]. fold (sec_byte q padding).
  destruct (must_write_fits b5 [sec_byte q padding; x00; Command q] 8154) as (b6 & -> & O6 & F6); [lia|done|]. cbn [mbind go_bind].
  destruct (address_written b6 q 7895 Hq) as (b7 & enc & -> & O7 & F7 & Hle & Hrd); [lia|done|]. cbn [mbind go_bind].
  assert (∃ b8, (if decide (0 < len padding) then must (write_or b7 padding) else Ok b7) = Ok b8 ∧ output b8 = output b7 ++ padding ∧ fits b8 4) as (b8 & -> & O8 & F8).
  { destruct (decide (0 < len padding)); [apply must_write_fits; [lia|eapply fits_le; [exact F7|lia]]|]. assert (padding = []) as -> by (apply len_0_nil; lia). exists b7. rewrite app_nil_r. split; [done|]. split; [done|]. eapply fits_le; [exact F7|lia]. }
  cbn [mbind go_bind]. rewrite (bytes_fits b8 4 F8). cbn [mbind go_bind].
  assert (Hout : output b8 = head38 c q padding ++ enc ++ padding).
  { rewrite O8, O7, O6, O5, O4, O3, O2, O1. change (output (Buffer.New pooled)) with (content (Buffer.New pooled)). rewrite Buffer.content_New. unfold head38. cbn [app]. by rewrite <- !app_assoc. }
  destruct (must_write_fits b8 (put_be32 (fnv1a (output b8))) 0) as (b9 & -> & O9 & [W9 _]); [lia|done|]. exists b9, enc. split; [done|]. split; [done|]. split; [change (content b9) with (output b9); by rewrite O9, Hout, <- !app_assoc|]. split; [done|].
  intros d Hd Hc Hr. rewrite <- Hc. by apply Hrd.
Qed.

Lemma sec_byte_parts q padding : request_ok q → len padding < 16 → Z.shiftr (byte_to_Z (sec_byte q padding)) 4 = len padding ∧ Z.land (byte_to_Z (sec_byte q padding)) 15 = Security q.
Proof.
  intros Hq Hp. pose proof (len_nonneg padding). unfold sec_byte. assert (Hall : ∀ n, 0 ≤ n < 16 → ∀ z, z = 3 ∨ z = 4 → Z.shiftr (byte_to_Z (byte_of_Z (Z.lor (u8 (Z.shiftl n 4)) (u8 z)))) 4 = n ∧ Z.land (byte_to_Z (byte_of_Z (Z.lor (u8 (Z.shiftl n 4)) (u8 z)))) 15 = z).
  { intros n Hn z Hz. assert (Hm : n ∈ seqZ 0 16) by (apply elem_of_seqZ; lia). clear Hn. cbn in Hm. destruct Hz as [-> | ->]; repeat (apply elem_of_cons in Hm as [->|Hm]; [done|]); by apply elem_of_nil in Hm. }
  apply Hall; [lia|]. destruct (ro_security _ Hq); auto.
Qed.

Lemma security_known q : request_ok q → parseSecurityType (Security q) = Security q ∧ ¬ (Security q = SecurityType_UNKNOWN ∨ Security q = SecurityType_AUTO).
Proof. intros Hq. destruct (ro_security _ Hq) as [-> | ->]; split; try done; intros [?|?]; done. Qed.
End requests.

(** ** A request is received *)

Section received.
Context `{HL : VmessLaws} (pooled : bytes).

Lemma len_head38 c q padding : keys_ok c → len (head38 c q padding) = 38.
Proof. intros [Hk Hi]. unfold head38. rewrite !len_app, Hk, Hi. reflexivity. Qed.

(** The fields of the first 38 bytes. *)
Lemma head38_fields d c q padding : keys_ok c → wf d → content d = head38 c q padding →
  Buffer.Byte d 0 = Ok x01 ∧ Buffer.BytesRange d 1 17 = Ok (requestBodyIV c) ∧ Buffer.BytesRange d 17 33 = Ok (requestBodyKey c) ∧
  Buffer.Byte d 33 = Ok (responseHeader c) ∧ Buffer.Byte d 34 = Ok (Option q) ∧ Buffer.Byte d 35 = Ok (sec_byte q padding) ∧ Buffer.Byte d 37 = Ok (Command q).
Proof.
  intros Hc Hd E. pose proof (len_head38 c q padding Hc) as Hl. destruct Hc as [Hk Hi]. assert (Hk' : length (requestBodyKey c) = 16%nat) by (unfold len in Hk; lia). assert (Hi' : length (requestBodyIV c) = 16%nat) by (unfold len in Hi; lia).
  assert (Htail : ∀ i x, [responseHeader c; Option q; sec_byte q padding; x00; Command q] !! i = Some x → content d !! (33 + i)%nat = Some x).
  { intros i x Hx. rewrite E. unfold head38. rewrite lookup_app_r by (cbn; lia). rewrite lookup_app_r by (cbn; lia). rewrite lookup_app_r by (cbn; lia). rewrite Hk', Hi'. cbn [length]. by replace (33 + i - 1 - 16 - 16)%nat with i by lia. }
  assert (Hmid : ∀ lo hi, 0 ≤ lo ≤ hi → hi ≤ 38 → Buffer.BytesRange d lo hi = Ok (take (Z.to_nat (hi - lo)) (drop (Z.to_nat lo) (head38 c q padding)))).
  { intros lo hi H1 H2. rewrite BytesRange_mid by (rewrite ?E; done || lia). by rewrite E. }
  split; [apply Byte_at; [done|by rewrite E|lia]|]. split; [|split].
  - rewrite Hmid by lia. unfold head38. change (Z.to_nat (17 - 1)) with 16%nat. change (Z.to_nat 1) with (length [x01]). by rewrite drop_app_length, <- Hi', take_app_length.
  - rewrite Hmid by lia. unfold head38. rewrite app_assoc. change (Z.to_nat (33 - 17)) with 16%nat. replace (Z.to_nat 17) with (length ([x01] ++ requestBodyIV c)) by (rewrite length_app, Hi'; done). by rewrite drop_app_length, <- Hk', take_app_length.
  - split_and!; (apply Byte_at; [done| |lia]); [by apply (Htail 0%nat)|by apply (Htail 1%nat)|by apply (Htail 2%nat)|by apply (Htail 4%nat)].
Qed.

(** The decrypted header of a request gives the request, and its session enters the history. *)
Lemma read_request_plain s now u c q padding rest : keys_ok c → request_ok q → len padding < 16 →
  let sid := mkSID (u_ID u) (requestBodyKey c) (requestBodyIV c) in
  (addIfNotExits (history s) now sid).2 = true →
  ∃ b data, request_plain pooled c q padding = Ok b ∧ Buffer.Bytes b = Ok data ∧ len data < 1000 ∧
    read_request pooled s now u data rest = Ok (with_history s (addIfNotExits (history s) now sid).1, Accepted (received q u) c rest).
Proof.
  intros Hc Hq Hp sid Hfresh. destruct (plain_written pooled c q padding Hc Hq Hp) as (b & enc & Hb & Wb & Cb & Hle & Hrd). exists b, (content b). split; [done|]. split; [by apply Buffer.Bytes_wf|].
  pose proof (len_head38 c q padding Hc) as Hl. split; [rewrite Cb, !len_app; change (len (put_be32 _)) with 4; lia|]. rewrite Cb. unfold read_request.
  destruct (read_or_spec (Buffer.New pooled) (head38 c q padding) (enc ++ padding ++ put_be32 (fnv1a (head38 c q padding ++ enc ++ padding))) EOF 38 (Buffer.wf_New _) Hl) as (d & -> & Wd & Cd & Rd); [rewrite room_new; lia|]. cbn [refusing].
  rewrite Buffer.content_New in Cd. cbn [app] in Cd. destruct (head38_fields d c q padding Hc Wd Cd) as (-> & -> & -> & -> & -> & -> & ->). cbn [mbind go_bind]. fold sid. destruct (addIfNotExits (history s) now sid) as [h fr]. cbn [snd fst] in *. subst fr. cbn [negb].
  destruct (sec_byte_parts q padding Hq Hp) as [-> ->]. rewrite room_new in Rd. rewrite Hrd by (done || lia). cbn [refusing]. destruct (security_known q Hq) as [-> Hsec]. rewrite decide_False by done.
  do 2 f_equal. destruct c. unfold the_address, the_port, received. destruct (ro_address _ Hq) as (a & -> & _). cbn. by destruct (bool_decide _).
Qed.

(** C34: A request of VMess arrives as it was sent. Let a user of the server have the sender's ID, let no
    other decoder fit the authentication ID, let the clocks differ by two minutes at most, and let neither
    the authentication ID nor the session be known to the server. Then the sender's header is built, the
    server accepts it whatever follows in the stream and in whatever order it tries its decoders, with the
    version, command, option, security, address and port that were sent, with the keys of the client's
    session, and the rest of the stream is left as it was. *)
Theorem vmess_request_roundtrip c q padding now rand4 nonce s ds u now' rest e :
  let key := CmdKey (rq_User q) in
  let authID := CreateAuthID key (Unix now) rand4 in
  let sid := mkSID (u_ID u) (requestBodyKey c) (requestBodyIV c) in
  keys_ok c → request_ok q → len padding < 16 → len rand4 = 4 → len nonce = 8 →
  decoders s !! key = Some u → ds ≡ₚ map_to_list (decoders s) → only_fits ds key authID → u_ID u = u_ID (rq_User q) →
  0 ≤ Unix now < 9223372036854775808 → Z.abs (Unix now - Unix now') ≤ 120 →
  (Check (replays s) now' authID).2 = true → (addIfNotExits (history s) now' sid).2 = true →
  ∃ bs, EncodeRequestHeader pooled c q padding now rand4 nonce = Ok bs ∧
    DecodeRequestHeader pooled ds now' s (mkStream (bs ++ rest) e) =
      Ok (with_history (with_replays s (Check (replays s) now' authID).1) (addIfNotExits (history s) now' sid).1, Accepted (received q u) c (mkStream rest e)).
Proof.
  intros key authID sid Hc Hq Hp Hr Hn Hu Hds Hfit Hid Ht Hclock Hcheck Hfresh.
  destruct (read_request_plain (with_replays s (Check (replays s) now' authID).1) now' u c q padding (mkStream rest e) Hc Hq Hp Hfresh) as (b & data & Eb & Ed & Hl & Hrq).
  destruct (Open_sealed key data now rand4 nonce Hr Hn) as (body & Eseal & Hopen); [lia|]. fold authID in Eseal, Hopen. exists (authID ++ body). split.
  { unfold EncodeRequestHeader. rewrite Eb. cbn [mbind go_bind]. rewrite Ed. cbn [mbind go_bind]. by rewrite <- Eseal. }
  unfold DecodeRequestHeader. rewrite <- app_assoc. assert (Hal : len authID = 16) by (by apply CreateAuthID_len).
  destruct (read_or_spec (Buffer.New pooled) authID (body ++ rest) e 16 (Buffer.wf_New _) Hal) as (d & -> & Wd & Cd & _); [rewrite room_new; lia|]. cbn [refusing]. rewrite Buffer.content_New in Cd.
  rewrite Buffer.Bytes_wf, Cd by done. cbn [mbind go_bind app]. assert (Hm : Match ds (replays s) now' authID = Ok ((Check (replays s) now' authID).1, inr u)).
  { apply Match_own; try done; [rewrite Hds; apply NoDup_fst_map_to_list|rewrite Hds; by apply elem_of_map_to_list]. }
  rewrite Hm. cbn [mbind go_bind]. assert (Hku : CmdKey u = key) by (unfold key, CmdKey; by rewrite Hid). rewrite Hku, Hopen. cbn [refusing]. exact Hrq.
Qed.
End received.

(** ** Responses and users *)

Section responses.
Context `{HL : VmessLaws} (pooled : bytes) (EqualFold : bytes → bytes → bool).

(** The header of a response gives the client the server's option. *)
Lemma response_header_roundtrip c option rest e : DecodeResponseHeader pooled c (mkStream (EncodeResponseHeader c option ++ rest) e) = Ok (option, mkStream rest e).
Proof.
  unfold DecodeResponseHeader, EncodeResponseHeader. rewrite <- app_assoc. set (plain := [responseHeader c; option; x00; x00]). assert (Hp : len plain = 4) by done.
  rewrite full_or_app by (rewrite gcm_len; done). cbn [mbind go_bind]. rewrite gcm_inverse by (apply KDF16_len || apply KDF12_len). cbn [open_or mbind go_bind].
  rewrite be16_exact by apply u16_range. cbn [ok_or_panic mbind go_bind]. rewrite full_or_app by (rewrite gcm_len, Hp; done). cbn [mbind go_bind]. rewrite gcm_inverse by (apply KDF16_len || apply KDF12_len). cbn [open_or mbind go_bind].
  rewrite <- (app_nil_r plain). destruct (read_or_spec (Buffer.New pooled) plain [] EOF 4 (Buffer.wf_New _) Hp) as (b & -> & Wb & Cb & _); [rewrite room_new; lia|]. cbn [mbind go_bind]. rewrite Buffer.content_New in Cb. cbn [app] in Cb.
  rewrite (Byte_at b 0 (responseHeader c)), (Byte_at b 1 option), (Byte_at b 2 x00), (Byte_at b 3 x00) by (rewrite ?Cb; done). cbn [mbind go_bind]. rewrite decide_False by (intros Hn; by apply Hn). by rewrite decide_False by (intros Hn; by apply Hn).
Qed.

(** Of two users with one ID, the later one is found, and removing either takes the decoder of both. *)
Lemma shared_id_removed s u v email : u_ID u = u_ID v → find_email EqualFold email (users s ++ [u; v]) = Some (length (users s), u) →
  decoders (Add (Add s u) v) !! CmdKey u = Some v ∧ decoders (Remove EqualFold (Add (Add s u) v) email).1 !! CmdKey v = None ∧ users (Remove EqualFold (Add (Add s u) v) email).1 = users s ++ [v].
Proof.
  intros Hid Hf. assert (Hk : CmdKey u = CmdKey v) by (unfold CmdKey; by rewrite Hid). split; [cbn; by rewrite Hk, lookup_insert_eq|]. unfold Remove. cbn [Add users decoders]. rewrite <- app_assoc. cbn [app]. rewrite Hf. cbn [fst decoders users].
  split; [by rewrite Hk, lookup_delete_eq|]. assert (Hlast : list.last (users s ++ [u; v]) = Some v) by (change [u; v] with ([u] ++ [v]); by rewrite app_assoc, last_snoc).
  assert (Hins : <[length (users s) := v]> (users s ++ [u; v]) = users s ++ [v; v]) by (rewrite insert_app_r_alt by lia; by rewrite Nat.sub_diag). rewrite Hlast, Hins, length_app. cbn [length].
  replace (length (users s) + 2 - 1)%nat with (length (users s) + 1)%nat by lia. by rewrite take_app_add.
Qed.
End responses.

(** ** A session is not accepted again *)

(** The operations of a server: a connection, the clean-up of the history, and changes of users. The
    clock does not go back. *)
Inductive served `{VmessOps} (pooled : bytes) (EqualFold : bytes → bytes → bool) : Z → Server → Z → Server → Prop :=
  | served_conn t s t' ds r s' o : t ≤ t' → ds ≡ₚ map_to_list (decoders s) → DecodeRequestHeader pooled ds t' s r = Ok (s', o) → served pooled EqualFold t s t' s'
  | served_expire t s t' : t ≤ t' → served pooled EqualFold t s t' (with_history s (removeExpiredEntries (history s) t'))
  | served_add t s t' u : t ≤ t' → served pooled EqualFold t s t' (Add s u)
  | served_remove t s t' email : t ≤ t' → served pooled EqualFold t s t' (Remove EqualFold s email).1.
Inductive serves `{VmessOps} (pooled : bytes) (EqualFold : bytes → bytes → bool) (t : Z) (s : Server) : Z → Server → Prop :=
  | serves_refl : serves pooled EqualFold t s t s
  | serves_step t1 s1 t2 s2 : serves pooled EqualFold t s t1 s1 → served pooled EqualFold t1 s1 t2 s2 → serves pooled EqualFold t s t2 s2.
Definition started (t : Z) : Server := mkServer ∅ [] (mkFilter ∅ ∅ t) ∅.

Section replay.
Context `{HO : VmessOps} (pooled : bytes) (EqualFold : bytes → bytes → bool).

(** An accepted connection: the decoder that fits, its time, and where the keys of the session are. *)
Record accepted_by (ds : list (bytes * MemoryUser)) (now : Z) (s : Server) (r : Stream) (s' : Server) (q : RequestHeader) (k : SessionKeys) : Prop := {
  ab_block : ∃ b r1 key t z d, read_or (Buffer.New pooled) r 16 = Ok (b, r1) ∧ (key, rq_User q) ∈ ds ∧ Decode key (content b) = Ok (t, z, d) ∧ Z.abs (t - Unix now) ≤ 120 ∧
    ∃ data r2 b2 r3, OpenVMessAEADHeader (CmdKey (rq_User q)) (content b) r1 = Ok (data, r2) ∧ read_or (Buffer.New pooled) (mkStream data EOF) 38 = Ok (b2, r3) ∧
      Buffer.BytesRange b2 1 17 = Ok (requestBodyIV k) ∧ Buffer.BytesRange b2 17 33 = Ok (requestBodyKey k);
  ab_fresh : let sid := mkSID (u_ID (rq_User q)) (requestBodyKey k) (requestBodyIV k) in
    (addIfNotExits (history s) now sid).2 = true ∧ history s' = (addIfNotExits (history s) now sid).1
}.

Lemma Match_found ds f now a f' u : Match ds f now a = Ok (f', inr u) → ∃ key t z d, (key, u) ∈ ds ∧ Decode key a = Ok (t, z, d) ∧ Z.abs (t - Unix now) ≤ 120.
Proof.
  induction ds as [|[k v] ds IH]; cbn [Match]; [done|]. destruct (Decode k a) as [[[t z] d]|er|] eqn:E; try done. cbn [mbind go_bind]. destruct (decide (z ≠ _)).
  { intros Hm. destruct (IH Hm) as (k' & t' & z' & d' & Hin & Hrest). exists k', t', z', d'. split; [by apply elem_of_cons; right|done]. }
  destruct (decide (t < 0)); [done|]. destruct (decide (120 < _)) as [|Hle]; [done|]. destruct (Check f now a) as [f2 []]; [|done]. intros [= _ <-]. exists k, t, z, d. split; [by apply elem_of_cons; left|]. split; [done|lia].
Qed.

Lemma refusing_inv {A} s (m : go A) f s' o : refusing s m f = Ok (s', o) → (∃ a, m = Ok a ∧ f a = Ok (s', o)) ∨ (s' = s ∧ ∃ e, o = Refused e).
Proof. destruct m as [a|er|]; cbn; [by left; exists a|intros [= <- <-]; right; eauto|done]. Qed.

(** What reading the request changes of the server. *)
Lemma read_request_inv s now u data rest s' o : read_request pooled s now u data rest = Ok (s', o) →
  decoders s' = decoders s ∧ (history s' = history s ∨ ∃ sid, history s' = (addIfNotExits (history s) now sid).1) ∧
  ∀ q k r, o = Accepted q k r → rq_User q = u ∧
    (∃ b2 r3, read_or (Buffer.New pooled) (mkStream data EOF) 38 = Ok (b2, r3) ∧ Buffer.BytesRange b2 1 17 = Ok (requestBodyIV k) ∧ Buffer.BytesRange b2 17 33 = Ok (requestBodyKey k)) ∧
    let sid := mkSID (u_ID u) (requestBodyKey k) (requestBodyIV k) in (addIfNotExits (history s) now sid).2 = true ∧ history s' = (addIfNotExits (history s) now sid).1.
Proof.
  unfold read_request. intros Hr. apply refusing_inv in Hr as [([b r3] & Eb & Hr)|(-> & er & ->)]; [|split; [done|]; split; [by left|done]].
  destruct (Buffer.Byte b 0) as [v|er|]; try done. cbn [mbind go_bind] in Hr. destruct (Buffer.BytesRange b 1 17) as [iv|er|] eqn:Eiv; try done. cbn [mbind go_bind] in Hr. destruct (Buffer.BytesRange b 17 33) as [key|er|] eqn:Ek; try done. cbn [mbind go_bind] in Hr.
  set (sid := mkSID (u_ID u) key iv) in Hr. destruct (addIfNotExits (history s) now sid) as [h fr] eqn:Eh. assert (Hh : h = (addIfNotExits (history s) now sid).1) by (by rewrite Eh).
  destruct fr; cbn [negb] in Hr; [|injection Hr as <- <-; split; [done|]; split; [right; by exists sid|done]].
  destruct (Buffer.Byte b 33) as [b33|er|]; try done. cbn [mbind go_bind] in Hr. destruct (Buffer.Byte b 34) as [b34|er|]; try done. cbn [mbind go_bind] in Hr. destruct (Buffer.Byte b 35) as [b35|er|]; try done. cbn [mbind go_bind] in Hr.
  destruct (Buffer.Byte b 37) as [b37|er|]; try done. cbn [mbind go_bind] in Hr. apply refusing_inv in Hr as [([a p] & _ & Hr)|(-> & er & ->)]; [|split; [done|]; split; [right; by exists sid|done]].
  destruct (decide (_ ∨ _)); injection Hr as <- <-; (split; [done|]; split; [right; by exists sid|]); [done|]. intros q k r [= <- <- _]. cbn. split; [done|]. split; [by exists b, r3|]. fold sid. by rewrite Eh.
Qed.

Lemma DecodeRequestHeader_inv ds now s r s' o : DecodeRequestHeader pooled ds now s r = Ok (s', o) →
  decoders s' = decoders s ∧ (history s' = history s ∨ ∃ sid, history s' = (addIfNotExits (history s) now sid).1) ∧ ∀ q k rest, o = Accepted q k rest → accepted_by ds now s r s' q k.
Proof.
  unfold DecodeRequestHeader. intros Hr. apply refusing_inv in Hr as [([b r1] & Eb & Hr)|(-> & er & ->)]; [|split; [done|]; split; [by left|done]].
  destruct (read_or_appends (Buffer.New pooled) r 16 b r1 (Buffer.wf_New pooled) ltac:(lia) Eb) as (bs & Wb & _ & _). rewrite Buffer.Bytes_wf in Hr by done. cbn [mbind go_bind] in Hr.
  destruct (Match ds (replays s) now (content b)) as [[f [er|u]]|er|] eqn:Em; cbn [mbind go_bind] in Hr; try done; [injection Hr as <- <-; split; [done|]; split; [by left|done]|].
  apply refusing_inv in Hr as [([data r2] & Eo & Hr)|(-> & er & ->)]; [|split; [done|]; split; [by left|done]]. apply read_request_inv in Hr as (Hd & Hh & Hacc). cbn [with_replays history decoders] in *.
  split; [done|]. split; [done|]. intros q k rest Ho. destruct (Hacc q k rest Ho) as (Hu & (b2 & r3 & H1 & H2 & H3) & Hfresh). destruct (Match_found _ _ _ _ _ _ Em) as (key & t & z & d & Hin & Hdec & Hclock). split; [|by rewrite Hu].
  exists b, r1, key, t, z, d. rewrite Hu. split; [done|]. split; [done|]. split; [done|]. split; [done|]. by exists data, r2, b2, r3.
Qed.

(** A session stays in the history until it expires. *)
Lemma addIfNotExits_keeps h now sid sid' x : h !! sid = Some x → now < x → ∃ y, x ≤ y ∧ (addIfNotExits h now sid').1 !! sid = Some y.
Proof.
  intros Hx Hn. unfold addIfNotExits, SessionHistory in *. destruct (decide (sid' = sid)) as [->|Hne]; [rewrite Hx, decide_True by done; by exists x|].
  exists x. split; [done|]. destruct (h !! sid') as [e|]; [destruct (decide (now < e))|]; cbn [fst]; [done|by rewrite lookup_insert_ne..].
Qed.

Lemma addIfNotExits_enters h now sid : (addIfNotExits h now sid).2 = true → (addIfNotExits h now sid).1 !! sid = Some (now + 180 * second).
Proof. unfold addIfNotExits, SessionHistory in *. destruct (h !! sid) as [ex|]; [destruct (decide (now < ex)); [done|]|]; intros _; apply lookup_insert_eq. Qed.
Lemma addIfNotExits_known h now sid x : h !! sid = Some x → now < x → (addIfNotExits h now sid).2 = false.
Proof. intros Hx Hn. unfold addIfNotExits, SessionHistory in *. by rewrite Hx, decide_True. Qed.

Lemma served_keeps t s t' s' sid x : served pooled EqualFold t s t' s' → history s !! sid = Some x → t' < x → ∃ y, x ≤ y ∧ history s' !! sid = Some y.
Proof.
  intros Hs Hx Hlt. destruct Hs as [t s t' ds r s' o Ht Hds Hdec|t s t' Ht|t s t' u Ht|t s t' email Ht].
  - destruct (DecodeRequestHeader_inv _ _ _ _ _ _ Hdec) as (_ & [->|(sid' & ->)] & _); [by exists x|by apply addIfNotExits_keeps].
  - exists x. split; [done|]. cbn. apply map_lookup_filter_Some. split; [done|]. cbn. lia.
  - by exists x.
  - exists x. split; [done|]. unfold Remove. by destruct (find_email _ _ _) as [[i u]|].
Qed.

Lemma serves_later t s t' s' : serves pooled EqualFold t s t' s' → t ≤ t'.
Proof. induction 1 as [|t1 s1 t2 s2 _ IH Hs]; [done|]. enough (t1 ≤ t2) by lia. by destruct Hs. Qed.

Lemma serves_keeps t s t' s' sid x : serves pooled EqualFold t s t' s' → history s !! sid = Some x → t' < x → ∃ y, x ≤ y ∧ history s' !! sid = Some y.
Proof.
  induction 1 as [|t1 s1 t2 s2 Hss IH Hs]; intros Hx Hlt; [by exists x|]. assert (t1 ≤ t2) by (by destruct Hs). destruct IH as (y & Hy & Ey); [done|lia|].
  destruct (served_keeps _ _ _ _ _ _ Hs Ey) as (y' & ? & ?); [lia|]. exists y'. split; [lia|done].
Qed.

(** A decoder is under the key of its user. *)
Definition keyed (s : Server) : Prop := ∀ key u, decoders s !! key = Some u → CmdKey u = key.
Lemma serves_keyed t s t' s' : serves pooled EqualFold t s t' s' → keyed s → keyed s'.
Proof.
  induction 1 as [|t1 s1 t2 s2 Hss IH Hs]; [done|]. intros Hk. specialize (IH Hk). destruct Hs as [t1 s1 t2 ds r s2 o Ht Hds Hdec|t1 s1 t2 Ht|t1 s1 t2 u Ht|t1 s1 t2 email Ht].
  - destruct (DecodeRequestHeader_inv _ _ _ _ _ _ Hdec) as (Hd & _). intros key u. rewrite Hd. apply IH.
  - done.
  - intros key v. cbn. rewrite lookup_insert_Some. intros [[<- <-]|[_ Hv]]; [done|by apply IH].
  - unfold Remove. destruct (find_email _ _ _) as [[i u]|]; [|done]. intros key v. cbn. rewrite lookup_delete_Some. intros [_ Hv]. by apply IH.
Qed.

(** C31: A header is not accepted again in time to matter. Let a server run from its start, and let it
    accept a stream; let it then serve any connections, clean its history and change its users, in any
    order, and accept the same stream again for a user of the same ID. Then three minutes have passed since
    the first time, at most four minutes and a second have, and the time written in the header was a
    minute or more ahead of the server's clock when the header was first accepted. *)
Theorem vmess_no_replay t00 t01 t0 s0 ds0 r s1 q0 k0 rest0 t11 t1 s2 ds1 s3 q1 k1 rest1 :
  serves pooled EqualFold t00 (started t00) t01 s0 → t01 ≤ t0 → ds0 ≡ₚ map_to_list (decoders s0) →
  DecodeRequestHeader pooled ds0 t0 s0 r = Ok (s1, Accepted q0 k0 rest0) →
  serves pooled EqualFold t0 s1 t11 s2 → t11 ≤ t1 → ds1 ≡ₚ map_to_list (decoders s2) →
  DecodeRequestHeader pooled ds1 t1 s2 r = Ok (s3, Accepted q1 k1 rest1) →
  u_ID (rq_User q1) = u_ID (rq_User q0) →
  t0 + 180 * second ≤ t1 ∧ t1 < t0 + 241 * second ∧
  ∃ b r' t z d, read_or (Buffer.New pooled) r 16 = Ok (b, r') ∧ Decode (CmdKey (rq_User q0)) (content b) = Ok (t, z, d) ∧ Unix t0 + 60 ≤ t.
Proof.
  intros Hs0 _ Hds0 H0 Hs Hle Hds1 H1 Hid. assert (Hk0 : keyed s0) by (by eapply serves_keyed; [exact Hs0|intros ? ? E0; cbn in E0; by rewrite lookup_empty in E0]).
  assert (Hk1 : keyed s1) by (destruct (DecodeRequestHeader_inv _ _ _ _ _ _ H0) as (Hd & _); intros key u; rewrite Hd; apply Hk0). assert (Hk2 : keyed s2) by (by eapply serves_keyed).
  destruct (DecodeRequestHeader_inv _ _ _ _ _ _ H0) as (_ & _ & Hacc). destruct (Hacc _ _ _ eq_refl) as [(b & r1 & key & t & z & d & Eb & Hin & Edec & Hclk & data & r2 & b2 & r3 & Eo & E38 & Eiv & Ekey) [Hf0 Hh0]]. clear Hacc.
  destruct (DecodeRequestHeader_inv _ _ _ _ _ _ H1) as (_ & _ & Hacc). destruct (Hacc _ _ _ eq_refl) as [(b' & r1' & key' & t' & z' & d' & Eb' & Hin' & Edec' & Hclk' & data' & r2' & b2' & r3' & Eo' & E38' & Eiv' & Ekey') [Hf1 Hh1]]. clear Hacc.
  assert (Hck : CmdKey (rq_User q1) = CmdKey (rq_User q0)) by (unfold CmdKey; by rewrite Hid). rewrite Hds0, elem_of_map_to_list in Hin. rewrite Hds1, elem_of_map_to_list in Hin'. apply Hk0 in Hin as <-. apply Hk2 in Hin' as <-.
  rewrite Hck in *. rewrite Hid in *. assert (b' = b) as -> by congruence. assert (t' = t) as -> by congruence.
  assert (requestBodyKey k1 = requestBodyKey k0) as Ek by congruence. assert (requestBodyIV k1 = requestBodyIV k0) as Ei by congruence. rewrite Ek, Ei in *. set (sid := mkSID _ _ _) in *.
  assert (Hx : history s1 !! sid = Some (t0 + 180 * second)).
  { rewrite Hh0. by apply addIfNotExits_enters. }
  assert (Ht : t0 + 180 * second ≤ t1).
  { destruct (decide (t0 + 180 * second ≤ t1)) as [|Hlt]; [done|]. destruct (serves_keeps _ _ _ _ _ _ Hs Hx) as (y & Hy & Ey); [lia|]. rewrite (addIfNotExits_known _ _ _ _ Ey) in Hf1 by lia. done. }
  split; [done|]. unfold Unix, second in *. split; [dlia|]. exists b, r1, t, z, d. split; [done|]. split; [done|]. dlia.
Qed.
End replay.

(** ** Concrete runs *)

(** Ciphers that hide nothing, with the lengths of the real ones. *)
Definition zeros (n : nat) : bytes := replicate n x00.
#[local] Instance plain_ops : VmessOps := {|
  sha256 x := take 32 (x ++ zeros 32);
  md5 x := take 16 (x ++ zeros 16);
  hmac h k m := take 32 (m ++ zeros 32);
  aes_encrypt k b := b;
  aes_decrypt k b := b;
  gcm_seal k n p a := p ++ zeros 16;
  gcm_open k n c a := if decide (16 ≤ len c) then Some (take (length c - 16) c) else None
|}.
Lemma take_zeros (n : nat) (x : bytes) : len (take n (x ++ zeros n)) = Z.of_nat n.
Proof. unfold len, zeros. rewrite length_take, length_app, length_replicate. lia. Qed.
#[local] Instance plain_laws : VmessLaws.
Proof.
  split; cbn -[zeros]; intros; try done; try apply take_zeros; [by rewrite len_app| |].
  - rewrite decide_True by (rewrite len_app; change (len (zeros 16)) with 16; pose proof (len_nonneg p); lia). f_equal. rewrite length_app. change (length (zeros 16)) with 16%nat. rewrite Nat.add_sub. apply take_app_length.
  - destruct (decide (16 ≤ len c)) as [Hc|]; [|done]. simplify_eq. unfold len in *. rewrite length_take. lia.
Qed.

Definition ex_user : MemoryUser := mkUser (s2b "a@b") (zeros 16).
Definition ex_request : RequestHeader := mkRequest x01 RequestCommandTCP x01 SecurityType_AES128_GCM 443 (Some (domainAddress (s2b "example.com"))) ex_user.
Definition ex_keys (b : byte) : SessionKeys := mkKeys (replicate 16 b) (zeros 16) x07.
Definition ex_server : Server := Add (started 0) ex_user.
Definition ex_ds : list (bytes * MemoryUser) := [(CmdKey ex_user, ex_user)].
(** The header of a client whose clock shows [now]. *)
Definition ex_header (b : byte) (now : Z) : bytes :=
  match EncodeRequestHeader [] (ex_keys b) ex_request (zeros 3) now (replicate 4 b) (zeros 8) with Ok bs => bs | _ => [] end.
Abbreviation ex_decode now s bs := (DecodeRequestHeader [] ex_ds now s (mkStream bs EOF)).
Definition ex_state (m : go (Server * Outcome)) : Server := match m with Ok (s, _) => s | _ => ex_server end.
Abbreviation ex_accepted b := (Accepted (received ex_request ex_user) (ex_keys b) (mkStream [] EOF)).
Definition ex_s1 : Server := Eval vm_compute in ex_state (ex_decode (119 * second) ex_server (ex_header x01 (239 * second))).
Definition ex_s2 : Server := Eval vm_compute in ex_state (ex_decode (120 * second) ex_s1 (ex_header x02 (120 * second))).
Definition ex_s3 : Server := Eval vm_compute in ex_state (ex_decode (299 * second) ex_s2 (ex_header x01 (239 * second))).

(** A header from a clock two minutes ahead is accepted, and three minutes later it is accepted again: the
    history has let its session go, a connection in between has made the filter forget it, and its time is
    still near. *)
Lemma late_replay_accepted :
  ex_decode (119 * second) ex_server (ex_header x01 (239 * second)) = Ok (ex_s1, ex_accepted x01) ∧
  ex_decode (120 * second) ex_s1 (ex_header x02 (120 * second)) = Ok (ex_s2, ex_accepted x02) ∧
  ex_decode (299 * second) ex_s2 (ex_header x01 (239 * second)) = Ok (ex_s3, ex_accepted x01).
Proof. split_and!; match goal with |- _ = ?x => vm_cast_no_check (eq_refl x) end. Qed.

Lemma vmess_request_roundtrip_witness :
  ∃ bs, EncodeRequestHeader [] (ex_keys x01) ex_request (zeros 3) (239 * second) (replicate 4 x01) (zeros 8) = Ok bs ∧
    (∃ s', DecodeRequestHeader [] ex_ds (119 * second) ex_server (mkStream (bs ++ s2b "rest") EOF) = Ok (s', Accepted (received ex_request ex_user) (ex_keys x01) (mkStream (s2b "rest") EOF))).
Proof.
  destruct (vmess_request_roundtrip [] (ex_keys x01) ex_request (zeros 3) (239 * second) (replicate 4 x01) (zeros 8) ex_server ex_ds ex_user (119 * second) (s2b "rest") EOF) as (bs & He & Hd);
    [done|split; [by left|by left|vm_compute; split; congruence|eexists; split; [reflexivity|by vm_compute]]|done..| | | |done|vm_compute; split; congruence|vm_compute; congruence|by vm_compute|by vm_compute|by eauto].
  - by vm_compute.
  - by vm_compute.
  - intros k u t z d Hin Hk _. apply list_elem_of_singleton in Hin. by injection Hin as -> _.
Defined.

Lemma vmess_no_replay_witness : 119 * second + 180 * second ≤ 299 * second ∧ 299 * second < 119 * second + 241 * second.
Proof.
  assert (S0 : serves [] (λ x y, bool_decide (x = y)) 0 (started 0) 0 ex_server) by (eapply serves_step; [apply serves_refl|apply served_add; by vm_compute]).
  assert (P0 : ex_ds ≡ₚ map_to_list (decoders ex_server)) by (by vm_compute). assert (P1 : ex_ds ≡ₚ map_to_list (decoders ex_s1)) by (by vm_compute). assert (P2 : ex_ds ≡ₚ map_to_list (decoders ex_s2)) by (by vm_compute).
  assert (T0 : 0 ≤ 119 * second) by (by vm_compute). assert (T1 : 119 * second ≤ 120 * second) by (by vm_compute). assert (T2 : 120 * second ≤ 299 * second) by (by vm_compute).
  destruct late_replay_accepted as (H1 & H2 & H3).
  pose proof (serves_step _ _ _ _ _ _ _ _ (serves_refl [] (λ x y, bool_decide (x = y)) (119 * second) ex_s1) (served_conn _ _ _ _ _ _ _ _ _ T1 P1 H2)) as S1.
  destruct (vmess_no_replay _ _ _ _ _ _ _ _ _ _ _ _ _ _ _ _ _ _ _ _ S0 T0 P0 H1 S1 T2 P2 H3 eq_refl) as (Ha & Hb & _). exact (conj Ha Hb).
Defined.
