(* ===== verification/Shadowsocks.v ===== *)
(** * Shadowsocks accounts and packets

    Models [proxy/shadowsocks]: accounts with their ciphers and keys ([config.go]), the users of a server
    ([validator.go]), and the packets of UDP ([protocol.go]). Hashes, key derivation and the ciphers are the
    classes [SsOps] and [SsLaws]. Random bytes are arguments. All ciphers of an account authenticate, so
    the branches for the others are left out. The sealed stream of TCP is in [CryptoFrame]. *)

From S2P Require Import Prelude Net Buf AddrCodec BufReader ProxyHeaders Socks.
Import Buffer (content, wf).

#[local] Open Scope Z_scope.
Abbreviation bytes := (list byte).

(** ** Ciphers and accounts *)

(** The constructors of ciphers ([AEADAuthCreator]). *)
Inductive AEADAuthCreator := createAesGcm | createChaCha20Poly1305 | createXChaCha20Poly1305.
Definition NonceSize (a : AEADAuthCreator) : nat := match a with createXChaCha20Poly1305 => 24 | _ => 12 end.
Definition Overhead : Z := 16.
(** The sizes of keys a cipher takes. *)
Definition key_fits (a : AEADAuthCreator) (n : Z) : Prop := match a with createAesGcm => n = 16 ∨ n = 32 | _ => n = 32 end.

Class SsOps := {
  ss_md5 : bytes → bytes;
  hkdfSHA1 : bytes → bytes → Z → bytes;
  aead_seal : AEADAuthCreator → bytes → bytes → bytes → bytes;
  aead_open : AEADAuthCreator → bytes → bytes → bytes → option bytes
}.
Class SsLaws `{SsOps} := {
  ss_md5_len x : len (ss_md5 x) = 16;
  hkdf_len s t n : 0 ≤ n → len (hkdfSHA1 s t n) = n;
  seal_len a k n p : len (aead_seal a k n p) = len p + Overhead;
  open_seal a k n p : key_fits a (len k) → length n = NonceSize a → aead_open a k n (aead_seal a k n p) = Some p;
  open_len a k n c p : aead_open a k n c = Some p → len c = len p + Overhead
}.

Record AEADCipher := mkCipher { KeyBytes : Z; IVBytes : Z; AuthCreator : AEADAuthCreator }.
Definition IsAEAD (c : AEADCipher) : bool := true.
Definition KeySize (c : AEADCipher) : Z := KeyBytes c.
Definition IVSize (c : AEADCipher) : Z := IVBytes c.

Inductive CipherType := UNKNOWN | AES_128_GCM | AES_256_GCM | CHACHA20_POLY1305 | XCHACHA20_POLY1305.
Definition getCipher (t : CipherType) : go AEADCipher :=
  match t with
  | AES_128_GCM => Ok (mkCipher 16 16 createAesGcm)
  | AES_256_GCM => Ok (mkCipher 32 32 createAesGcm)
  | CHACHA20_POLY1305 => Ok (mkCipher 32 32 createChaCha20Poly1305)
  | XCHACHA20_POLY1305 => Ok (mkCipher 32 32 createXChaCha20Poly1305)
  | UNKNOWN => Err (ErrMsg "Unsupported cipher.")
  end.

Record MemoryAccount := mkAccount { Cipher : AEADCipher; ac_CipherType : CipherType; Key : bytes; ac_Password : bytes }.
Record MemoryUser := mkUser { Email : bytes; Account : MemoryAccount }.

Section shadowsocks.
Context `{SsOps} (pooled : bytes).

Fixpoint key_loop (fuel : nat) (password : bytes) (keySize : Z) (md5Sum key : bytes) : bytes :=
  match fuel with
  | O => key
  | S fuel => if decide (len key < keySize) then let md5Sum := ss_md5 (md5Sum ++ password) in key_loop fuel password keySize md5Sum (key ++ md5Sum) else key
  end.
Definition passwordToCipherKey (password : bytes) (keySize : Z) : bytes :=
  key_loop (Z.to_nat keySize) password keySize (ss_md5 password) (ss_md5 password).
Definition AsAccount (t : CipherType) (password : bytes) : go MemoryAccount :=
  c ← getCipher t; Ok (mkAccount c t (passwordToCipherKey password (KeySize c)) password).

(** ** Users *)

Context (EqualFold : bytes → bytes → bool) (ToLower : bytes → bytes).
Definition Add (users : list MemoryUser) (u : MemoryUser) : go (list MemoryUser) :=
  if decide (IsAEAD (Cipher (Account u)) = false ∧ 0 < len users) then Err (ErrMsg "The cipher is not support Single-port Multi-user") else Ok (users ++ [u]).
Fixpoint find_email (email : bytes) (l : list MemoryUser) : option nat :=
  match l with [] => None | u :: l => if EqualFold (Email u) email then Some 0%nat else S <$> find_email email l end.
(** The last user takes the place of the removed one. *)
Definition Del (users : list MemoryUser) (email : bytes) : go (list MemoryUser) :=
  if decide (email = []) then Err (ErrMsg "Email must not be empty.")
  else match find_email (ToLower email) users, list.last users with
    | Some i, Some z => Ok (take (length users - 1) (<[i := z]> users))
    | _, _ => Err (ErrMsg "User ")
    end.
Definition GetByEmail (users : list MemoryUser) (email : bytes) : option MemoryUser :=
  if decide (email = []) then None else i ← find_email (ToLower email) users; users !! i.

(** The cipher of a packet or of a stream, and the nonce it starts with. *)
Definition subkey (a : MemoryAccount) (iv : bytes) : bytes := hkdfSHA1 (Key a) iv (KeyBytes (Cipher a)).
Definition first_nonce (a : MemoryAccount) : bytes := replicate (NonceSize (AuthCreator (Cipher a))) x00.
Definition seal_first (a : MemoryAccount) (iv plain : bytes) : bytes := aead_seal (AuthCreator (Cipher a)) (subkey a iv) (first_nonce a) plain.
Definition open_first (a : MemoryAccount) (iv c : bytes) : option bytes := aead_open (AuthCreator (Cipher a)) (subkey a iv) (first_nonce a) c.

Inductive RequestCommand := RequestCommandTCP | RequestCommandUDP.
Definition ErrNotFound := ErrMsg "Not Found".
(** [Get]: the first user whose key opens the packet, or the first size of a stream; what it opens to, and
    the length of the IV. *)
Fixpoint Get (users : list MemoryUser) (bs : bytes) (command : RequestCommand) : go (MemoryUser * bytes * Z) :=
  match users with
  | [] => Err ErrNotFound
  | user :: users =>
      if decide (len bs < 32) then Get users bs command
      else
        let account := Account user in
        let ivLen := IVSize (Cipher account) in
        iv ← ok_or_panic (slice bs 0 ivLen);
        c ← ok_or_panic (match command with RequestCommandTCP => slice bs ivLen (ivLen + 18) | RequestCommandUDP => slice bs ivLen (len bs) end);
        match open_first account iv c with
        | Some ret => Ok (user, ret, ivLen)
        | None => Get users bs command
        end
  end.

(** ** Packets *)

(** [EncodePacket]: sealed in place, behind the IV. *)
Definition EncodePacket (a : MemoryAccount) (b : Buffer.t) : go Buffer.t :=
  let ivLen := IVSize (Cipher a) in
  let payloadLen := Buffer.Len b in
  iv ← Buffer.BytesTo b ivLen;
  b ← Buffer.Extend b Overhead;
  plain ← Buffer.BytesRange b ivLen payloadLen;
  Ok (Buffer.poke b (Buffer.start b + ivLen) (seal_first a iv plain)).

(** [EncodeUDPPacket] with the random [iv]. The payload is written as far as it fits. *)
Definition EncodeUDPPacket (a : MemoryAccount) (address : option Address) (port : Port) (iv payload : bytes) : go Buffer.t :=
  b ← (if decide (0 < IVSize (Cipher a)) then must_write (Buffer.New pooled) iv else Ok (Buffer.New pooled));
  b ← write_dest ssParser b address port;
  '(b, _, _) ← Buffer.Write b payload;
  EncodePacket a b.

Record UDPRequest := mkUDPRequest { rq_User : MemoryUser; rq_Address : option Address; rq_Port : Port }.

(** What is left of a buffer after [n] bytes were read from it. *)
Definition after_read (b : Buffer.t) (n : Z) : Buffer.t := if decide (n = Buffer.Len b) then Buffer.Clear b else Buffer.set_window b (i32 (Buffer.start b + i32 n)) (Buffer.end_ b).

Definition DecodeUDPPacket (users : list MemoryUser) (payload : Buffer.t) : go (UDPRequest * Buffer.t) :=
  rawPayload ← Buffer.Bytes payload;
  '(user, d, _) ← Get users rawPayload RequestCommandUDP;
  '(payload, _, _) ← Buffer.Write (Buffer.Clear payload) d;
  b0 ← Buffer.Byte payload 0;
  payload ← Buffer.SetByte payload 0 (byte_of_Z (Z.land (byte_to_Z b0) 15));
  data ← Buffer.Bytes payload;
  '(_, s, addr, port) ← ReadAddressPort pooled ssParser None (mkStream data EOF);
  Ok (mkUDPRequest user addr port, after_read payload (len data - len (sdata s))).

(** [UDPReader]: the packet with its destination. *)
Definition UDPReader_ReadMultiBuffer (u : MemoryUser) (c : Conn) : go (mbuf * option GoError * Conn) :=
  '(buffer, _, err, c) ← ReadFrom_conn (Buffer.New pooled) c;
  match err with
  | Some e => Ok ([], Some e, c)
  | None =>
      match (users ← Add [] u; DecodeUDPPacket users buffer) with
      | Ok (q, payload) => Ok ([Buffer.set_UDP payload (Some (UDPDestination (rq_Address q) (rq_Port q)))], None, c)
      | Err e => Ok ([], Some e, c)
      | Panic => Panic
      end
  end.

(** [UDPWriter]: the packets written, with the IVs [ivs], and the error that stopped it. *)
Fixpoint UDPWriter_WriteMultiBuffer (a : MemoryAccount) (address : option Address) (port : Port) (ivs : nat → bytes) (mb : mbuf) : go (list bytes * option GoError) :=
  match mb with
  | [] => Ok ([], None)
  | b :: mb =>
      let '(address', port') := match Buffer.UDP b with Some d => (d_Address d, d_Port d) | None => (address, port) end in
      bs ← Buffer.Bytes b;
      match EncodeUDPPacket a address' port' (ivs 0%nat) bs with
      | Ok packet =>
          p ← Buffer.Bytes packet;
          '(ps, err) ← UDPWriter_WriteMultiBuffer a address port (λ n, ivs (S n)) mb;
          Ok (p :: ps, err)
      | Err e => Ok ([], Some e)
      | Panic => Panic
      end
  end.
End shadowsocks.

(** ** Keys *)

Definition account_sound (a : MemoryAccount) : Prop := ∃ t, getCipher t = Ok (Cipher a).
Lemma account_sizes a : account_sound a → (IVBytes (Cipher a) = 16 ∨ IVBytes (Cipher a) = 32) ∧ key_fits (AuthCreator (Cipher a)) (KeyBytes (Cipher a)) ∧ 0 ≤ KeyBytes (Cipher a).
Proof. intros [t Ht]. destruct t; cbn in Ht; try done; injection Ht as <-; cbn; lia. Qed.

(** A buffer that is written from its start on: what it holds and its room are its size. *)
#[local] Program Instance whole_Writer : Writer Buffer.t :=
  {| output := Buffer.content; fits b n := wf b ∧ n ≤ Buffer.room b ∧ Buffer.room b + len (content b) = 8192 ∧ len (Buffer.arr b) = 8192 |}.
Next Obligation.
  intros b bs n Hn (Hwf & Hfit & Hsum & Harr). destruct (Buffer.Write_spec b bs Hwf) as (b' & E & Hw & Hc & Hr & Ha & _). pose proof (len_nonneg bs). rewrite (take_ge bs) in * by (unfold len in *; lia).
  exists b'. cbn [write Buffer_WriterOps]. rewrite E. cbn [mbind go_bind]. rewrite decide_False by lia. split; [done|]. split; [done|]. split; [done|]. split; [lia|]. rewrite Hr, Hc, Ha, len_app. lia.
Qed.

Section keys.
Context `{HL : SsLaws}.

Lemma key_loop_len fuel password n sum key : len sum = 16 → n ≤ len key + 16 * Z.of_nat fuel → len key < n + 16 → n mod 16 = 0 → len key mod 16 = 0 → 0 < n → len key ≤ n →
  len (key_loop fuel password n sum key) = n.
Proof.
  revert sum key. induction fuel as [|fuel IH]; intros sum key Hs Hf Hk Hn Hkm Hpos Hle; cbn [key_loop]; [lia|]. destruct (decide (len key < n)) as [Hlt|]; [|lia].
  assert (len key + 16 ≤ n) by dlia. apply IH; rewrite ?len_app, ?ss_md5_len; try done; try lia. dlia.
Qed.

(** The key of an account is as long as its cipher says. *)
Lemma AsAccount_key t password a : AsAccount t password = Ok a → account_sound a ∧ len (Key a) = KeyBytes (Cipher a).
Proof.
  unfold AsAccount. destruct (getCipher t) as [c|e|] eqn:E; try done. cbn [mbind go_bind]. intros [= <-]. split; [by exists t|]. cbn [Key Cipher]. unfold passwordToCipherKey, KeySize.
  assert (Hc : KeyBytes c = 16 ∨ KeyBytes c = 32) by (destruct t; cbn in E; try done; injection E as <-; cbn; auto). destruct Hc as [-> | ->]; apply key_loop_len; rewrite ?ss_md5_len; done || lia.
Qed.

Lemma open_first_seal a iv plain : account_sound a → open_first a iv (seal_first a iv plain) = Some plain.
Proof.
  intros Ha. destruct (account_sizes a Ha) as (_ & Hk & Hn). unfold open_first, seal_first. apply open_seal; [unfold subkey; by rewrite hkdf_len|]. unfold first_nonce. apply length_replicate.
Qed.

(** ** Packets *)

Lemma EncodePacket_fits a b iv plain : account_sound a → wf b → content b = iv ++ plain → len iv = IVSize (Cipher a) → Overhead ≤ Buffer.room b →
  ∃ b', EncodePacket a b = Ok b' ∧ wf b' ∧ content b' = iv ++ seal_first a iv plain.
Proof.
  intros Ha Hb Hc Hiv Hr. unfold EncodePacket. rewrite <- Hiv. pose proof (len_nonneg iv). pose proof (len_nonneg plain). rewrite MultiBuffer.BytesTo_spec by (rewrite ?Hc, ?len_app; done || lia).
  rewrite Hc, to_nat_len, take_app_length. cbn [mbind go_bind]. destruct (Buffer.Extend_spec b Overhead Hb) as (b1 & -> & W1 & C1 & _); [unfold Overhead in *; lia|]. cbn [mbind go_bind].
  rewrite Buffer.Len_wf, Hc by done. rewrite Hc, <- app_assoc in C1. rewrite BytesRange_mid by (rewrite ?C1, ?len_app; try done; try pose proof (len_nonneg (replicate (Z.to_nat Overhead) x00)); lia).
  rewrite C1, len_app, to_nat_len, drop_app_length. replace (Z.to_nat (len iv + len plain - len iv)) with (length plain) by (unfold len; lia). rewrite take_app_length. cbn [mbind go_bind].
  assert (Hs : len (seal_first a iv plain) = len plain + Overhead) by apply seal_len.
  destruct (Buffer.poke_mid b1 iv (plain ++ replicate (Z.to_nat Overhead) x00) [] (seal_first a iv plain) W1) as (W2 & C2 & _).
  { by rewrite C1, app_nil_r. } { rewrite Hs, len_app. reflexivity. } { intros E. rewrite E in Hs. unfold Overhead in Hs. change (len []) with 0 in Hs. lia. }
  eexists. split; [reflexivity|]. split; [done|]. by rewrite C2, app_nil_r.
Qed.

(** No room for the tag, and the process ends. *)
Lemma EncodePacket_full a b : account_sound a → wf b → IVSize (Cipher a) ≤ len (content b) → Buffer.room b < Overhead → len (Buffer.arr b) < 1000000 → EncodePacket a b = Panic.
Proof.
  intros Ha Hb Hc Hr Hsz. destruct (account_sizes a Ha) as (Hiv & _). unfold EncodePacket. unfold IVSize in *. rewrite MultiBuffer.BytesTo_spec by (done || lia). cbn [mbind go_bind]. unfold Buffer.Extend, Overhead, Buffer.room in *. assert (Hw := Hb). unfold wf in Hw.
  rewrite !i32_small by (unfold is_i32; lia). by rewrite decide_True by lia.
Qed.
End keys.

Section packets.
Context `{HL : SsLaws} (pooled : bytes).

Lemma len_wire a port : encodable a → len (wire a port) = enc_size a + 2.
Proof. intros Ha. unfold wire. by rewrite len_app, len_enc_address. Qed.

Lemma whole_new : fits (Writer := whole_Writer) (Buffer.New pooled) 8192.
Proof.
  split; [apply Buffer.wf_New|]. rewrite room_new, Buffer.content_New. split; [done|]. split; [done|]. pose proof (room_new pooled) as Hr. unfold Buffer.room in Hr. change (Buffer.end_ (Buffer.New pooled)) with 0 in Hr. lia.
Qed.

Lemma ss_dest_written (b : Buffer.t) a port n : encodable a → 0 ≤ n → fits (Writer := whole_Writer) b (len (wire a port) + n) →
  ∃ b', write_dest ssParser b (Some a) port = Ok b' ∧ content b' = content b ++ wire a port ∧ fits (Writer := whole_Writer) b' n.
Proof.
  intros Ha Hn Hf. rewrite len_wire in Hf by done. unfold write_dest. change ssParser with (portLastAddressParser (the_parser ssParser)). cbn [WriteAddressPort].
  destruct (writeAddress_spec (W := Buffer.t) (the_parser ssParser) b a (fam_byte a) (2 + n) Ha) as (b1 & -> & Ho1 & Hf1); [by destruct a|destruct a; cbn; lia|lia|by rewrite Z.add_assoc|].
  cbn [mbind go_bind]. unfold writePort. destruct (write_or_fits (W := Buffer.t) b1 (put_be16 port) n Hn Hf1) as (b2 & -> & Ho2 & Hf2).
  exists b2. split; [done|]. split; [|done]. unfold wire. cbn [output whole_Writer] in *. by rewrite Ho2, Ho1, app_assoc.
Qed.

Lemma ss_address_read a port rest e : encodable a → is_u16 port → ReadAddressPort pooled ssParser None (mkStream (wire a port ++ rest) e) = Ok (None, mkStream rest e, Some a, port).
Proof.
  intros Ha Hp. pose proof (enc_size_bound a Ha). destruct (ss_dest_written (Buffer.New pooled) a port 0 Ha) as (b & Hw & Ho & _); [lia| |].
  { destruct whole_new as (? & ? & ?). split; [done|]. split; [rewrite len_wire by done; lia|done]. }
  destruct (address_port_ok (W := Buffer.t) pooled ssParser (Buffer.New pooled) a port 0) as (b' & enc & Hw' & _ & Ho' & _ & Hr); [apply parsers_support; by right; right; left|done|done|lia| |].
  { destruct whole_new as (? & ? & ?). split; [done|]. split; [lia|done]. }
  unfold write_dest in Hw. rewrite Hw' in Hw. injection Hw as ->. cbn [output whole_Writer] in Ho'. rewrite Ho' in Ho. apply app_inv_head in Ho as ->.
  destruct (Hr None rest e) as (b2 & -> & Hn); [apply Buffer.wf_New|cbn [default]; rewrite room_new; lia|]. by rewrite Hn.
Qed.

(** A packet is built where it fits a buffer with its tag, and otherwise the process ends. *)
Lemma EncodeUDPPacket_exact a addr port iv payload : account_sound a → encodable addr → len iv = IVSize (Cipher a) →
  let total := len iv + len (wire addr port) + len payload + Overhead in
  (total ≤ 8192 → ∃ b, EncodeUDPPacket pooled a (Some addr) port iv payload = Ok b ∧ wf b ∧ content b = iv ++ seal_first a iv (wire addr port ++ payload)) ∧
  (8192 < total → EncodeUDPPacket pooled a (Some addr) port iv payload = Panic).
Proof.
  intros Ha Hd Hiv total. destruct (account_sizes a Ha) as (Hsz & _). pose proof (enc_size_bound addr Hd). pose proof (len_wire addr port Hd) as Hlw. pose proof (len_nonneg payload).
  unfold EncodeUDPPacket. unfold IVSize in *. rewrite decide_True by lia. unfold must_write.
  destruct (write_or_fits (W := Buffer.t) (Buffer.New pooled) iv (8192 - len iv)) as (b1 & -> & O1 & F1); [lia|replace (len iv + (8192 - len iv)) with 8192 by lia; apply whole_new|]. cbn [mbind go_bind].
  destruct (ss_dest_written b1 addr port (8192 - len iv - len (wire addr port)) Hd) as (b2 & -> & C2 & W2 & R2 & S2 & A2); [lia|by replace (len (wire addr port) + (8192 - len iv - len (wire addr port))) with (8192 - len iv) by lia|]. cbn [mbind go_bind].
  cbn [output whole_Writer] in O1. rewrite Buffer.content_New in O1. cbn [app] in O1. rewrite O1 in C2. assert (Hroom : Buffer.room b2 = 8192 - len iv - len (wire addr port)) by (rewrite C2, len_app in S2; lia).
  destruct (Buffer.Write_spec b2 payload W2) as (b3 & -> & W3 & C3 & R3 & A3 & _). cbn [mbind go_bind]. unfold total, Overhead. split; intros Ht.
  - rewrite take_ge in C3, R3 by (unfold len in *; lia). destruct (EncodePacket_fits a b3 iv (wire addr port ++ payload) Ha W3) as (b4 & -> & W4 & C4); [by rewrite C3, C2, app_assoc|done|unfold Overhead; lia|]. by exists b4.
  - apply EncodePacket_full; [done|done|rewrite C3, C2, !len_app; pose proof (len_nonneg (take (Z.to_nat (Buffer.room b2)) payload)); unfold IVSize; lia| |lia]. rewrite R3. unfold Overhead. unfold len at 1. rewrite length_take. unfold len in *. lia.
Qed.

(** The key of [u] does not open the packet [bs]. *)
Definition does_not_open (bs : bytes) (u : MemoryUser) : Prop :=
  let iv := Z.to_nat (IVSize (Cipher (Account u))) in account_sound (Account u) ∧ open_first (Account u) (take iv bs) (drop iv bs) = None.

Lemma Get_finds before u after iv plain : account_sound (Account u) → len iv = IVSize (Cipher (Account u)) → 16 ≤ len iv →
  let bs := iv ++ seal_first (Account u) iv plain in Forall (does_not_open bs) before →
  Get (before ++ u :: after) bs RequestCommandUDP = Ok (u, plain, IVSize (Cipher (Account u))).
Proof.
  intros Hu Hiv H16 bs Hbefore. assert (Hbs : 32 ≤ len bs) by (unfold bs, seal_first; rewrite len_app, seal_len; unfold Overhead; pose proof (len_nonneg plain); lia). induction Hbefore as [|v before [Hv Hno] _ IH]; cbn [app Get]; rewrite decide_False by lia.
  - pose proof (len_nonneg (seal_first (Account u) iv plain)). rewrite <- Hiv, !slice_Some by (unfold bs; rewrite ?len_app; lia). cbn [ok_or_panic mbind go_bind]. change (Z.to_nat 0) with 0%nat. rewrite drop_0, Z.sub_0_r. unfold bs at 1. rewrite to_nat_len, take_app_length.
    rewrite take_ge by (rewrite length_drop; unfold len; lia). unfold bs. rewrite drop_app_length, open_first_seal by done. done.
  - destruct (account_sizes _ Hv) as (Hsz & _). unfold IVSize in *. rewrite !slice_Some by lia. cbn [ok_or_panic mbind go_bind]. change (Z.to_nat 0) with 0%nat. rewrite drop_0, Z.sub_0_r, (take_ge (drop _ _)) by (rewrite length_drop; unfold len; lia). by rewrite Hno.
Qed.
End packets.

Section decoded.
Context `{HL : SsLaws} (pooled : bytes).

(** The first byte of an address has no high bits to clear. *)
Lemma SetByte_same b c l : wf b → content b = c :: l → ∃ b', Buffer.SetByte b 0 c = Ok b' ∧ wf b' ∧ content b' = c :: l ∧ Buffer.start b' = Buffer.start b.
Proof.
  intros Hb Hc. destruct (Buffer.arr_split b Hb) as (pre & post & Ha & Hp). assert (Hw := Hb). unfold wf in Hw. pose proof (Buffer.len_content b Hb) as Hl. rewrite Hc, len_cons in Hl. pose proof (len_nonneg l).
  unfold Buffer.SetByte. rewrite Z.add_0_r, i32_small by (unfold is_i32; lia). rewrite decide_True by lia. assert (Hi : <[Z.to_nat (Buffer.start b) := c]> (Buffer.arr b) = Buffer.arr b).
  { apply list_insert_id. rewrite <- Hp, to_nat_len, Ha, Hc. cbn [app]. by rewrite list_lookup_middle. }
  assert (Hs : Buffer.set_arr b (Buffer.arr b) = b) by (by destruct b as [[v|] ? ? ? ?]).
  rewrite Hi, Hs. eexists. split; [reflexivity|]. split; [exact Hb|]. split; [exact Hc|done].
Qed.

Lemma after_read_content b x rest : wf b → content b = x ++ rest → wf (after_read b (len x)) ∧ content (after_read b (len x)) = rest.
Proof.
  intros Hb Hc. pose proof (Buffer.len_content b Hb) as Hl. pose proof (len_nonneg x). pose proof (len_nonneg rest). rewrite Hc, len_app in Hl. assert (Hw := Hb). unfold wf in Hw. unfold after_read. rewrite Buffer.Len_wf, Hc, len_app by done.
  destruct (decide (len x = len x + len rest)) as [E|Hne].
  { split; [by apply Buffer.wf_Clear|]. rewrite Buffer.content_Clear. symmetry. apply len_0_nil. lia. }
  rewrite (i32_small (len x)), i32_small by (unfold is_i32; lia). split; [unfold wf in *; cbn [Buffer.start Buffer.end_ Buffer.set_window]; rewrite Buffer.arr_set_window; lia|].
  destruct (Buffer.arr_split b Hb) as (pre & post & Ha & Hp). unfold content. rewrite Buffer.arr_set_window, Ha, Hc. cbn [Buffer.start Buffer.end_ Buffer.set_window]. rewrite <- Hp, <- len_app, to_nat_len. rewrite <- !app_assoc, (app_assoc pre x), drop_app_length.
  replace (Z.to_nat (Buffer.end_ b - len (pre ++ x))) with (length rest) by (rewrite len_app; unfold len in *; lia). apply take_app_length.
Qed.

(** C40: A Shadowsocks packet of UDP is read back by a server of many users. Where the packet fits a buffer
    with its IV, address and tag, it is built, and a server that tries its users in any order, of whom none
    before the sender's account opens it, finds the sender, the destination and the payload, from any buffer
    that holds the packet. Where it does not fit, building it ends the process. *)
Theorem ss_udp_packets u addr port iv payload :
  account_sound (Account u) → encodable addr → is_u16 port → len iv = IVSize (Cipher (Account u)) →
  let total := len iv + len (wire addr port) + len payload + Overhead in
  (8192 < total → EncodeUDPPacket pooled (Account u) (Some addr) port iv payload = Panic) ∧
  (total ≤ 8192 → ∃ b bs, EncodeUDPPacket pooled (Account u) (Some addr) port iv payload = Ok b ∧ Buffer.Bytes b = Ok bs ∧
    ∀ before after packet, Forall (does_not_open bs) before → wf packet → content packet = bs →
      ∃ packet', DecodeUDPPacket pooled (before ++ u :: after) packet = Ok (mkUDPRequest u (Some addr) port, packet') ∧ wf packet' ∧ content packet' = payload).
Proof.
  intros Hu Ha Hp Hiv total. destruct (EncodeUDPPacket_exact pooled (Account u) addr port iv payload Hu Ha Hiv) as [Hok Hfull]. split; [exact Hfull|]. intros Ht. destruct (Hok Ht) as (b & E & Wb & Cb). exists b, (content b). split; [done|]. split; [by apply Buffer.Bytes_wf|].
  intros before after packet Hbefore Wp Cp. destruct (account_sizes _ Hu) as (Hsz & _). unfold DecodeUDPPacket. rewrite Buffer.Bytes_wf, Cp, Cb by done. cbn [mbind go_bind]. rewrite Cb in Hbefore.
  rewrite Get_finds by (done || (unfold IVSize in Hiv; lia)). cbn [mbind go_bind]. set (d := wire addr port ++ payload). pose proof (Buffer.wf_Clear packet Wp) as Wc.
  assert (Hroom : len d ≤ Buffer.room (Buffer.Clear packet)).
  { unfold Buffer.room. change (Buffer.arr (Buffer.Clear packet)) with (Buffer.arr packet). change (Buffer.end_ (Buffer.Clear packet)) with 0. pose proof (Buffer.len_content packet Wp) as Hl. assert (Hw := Wp). unfold wf in Hw. rewrite Cp, Cb, len_app in Hl. unfold seal_first in Hl. rewrite seal_len in Hl. fold d in Hl. unfold Overhead in Hl. pose proof (len_nonneg iv). lia. }
  destruct (Buffer.Write_spec (Buffer.Clear packet) d Wc) as (b1 & -> & W1 & C1 & _). cbn [mbind go_bind]. rewrite take_ge, Buffer.content_Clear in C1 by (unfold len in Hroom; lia). cbn [app] in C1.
  assert (∃ l, d = byte_of_Z (fam_byte addr) :: l) as (l & Hd) by (unfold d, wire; destruct addr; eexists; reflexivity). rewrite Hd in C1.
  rewrite (Byte_index b1 [] (byte_of_Z (fam_byte addr)) l W1 C1 : Buffer.Byte b1 0 = _). cbn [mbind go_bind]. replace (byte_of_Z (Z.land (byte_to_Z (byte_of_Z (fam_byte addr))) 15)) with (byte_of_Z (fam_byte addr)) by (by destruct addr).
  destruct (SetByte_same b1 _ l W1 C1) as (b2 & -> & W2 & C2 & _). cbn [mbind go_bind]. rewrite Buffer.Bytes_wf, C2, <- Hd by done. cbn [mbind go_bind]. rewrite (ss_address_read pooled addr port payload EOF Ha Hp : ReadAddressPort pooled ssParser None (mkStream d EOF) = _). cbn [mbind go_bind sdata].
  rewrite <- Hd in C2. destruct (after_read_content b2 (wire addr port) payload W2 C2) as [W3 C3]. replace (len d - len payload) with (len (wire addr port)) by (unfold d; rewrite len_app; lia). eexists. split; [reflexivity|]. done.
Qed.
End decoded.

(** ** Users *)

(** Removing takes out one user, of the email, and keeps all others. *)
Lemma Del_removes EqualFold ToLower l email l' : Del EqualFold ToLower l email = Ok l' → ∃ u, EqualFold (Email u) (ToLower email) = true ∧ l ≡ₚ u :: l'.
Proof.
  unfold Del. destruct (decide (email = [])); [done|]. destruct (find_email EqualFold (ToLower email) l) as [i|] eqn:Ei; [|done]. destruct (list.last l) as [z|] eqn:Ez; [|done]. intros [= <-].
  assert (∃ u, l !! i = Some u ∧ EqualFold (Email u) (ToLower email) = true) as (u & Hu & He).
  { clear Ez. revert i Ei. induction l as [|v l IH]; cbn [find_email]; [done|]. intros i. destruct (EqualFold (Email v) _) eqn:E; [intros [= <-]; by exists v|]. destruct (find_email _ _ l) as [j|]; [|done]. intros [= <-]. by apply (IH j). }
  exists u. split; [done|]. apply last_Some in Ez as (p & ->). rewrite length_app. cbn [length]. rewrite Nat.add_sub. apply lookup_app_Some in Hu as [Hu|[Hge Hu]].
  - pose proof (lookup_lt_Some _ _ _ Hu). rewrite insert_app_l, take_app_length' by (rewrite ?length_insert; done).
    rewrite <- (take_drop_middle p i u Hu) at 1. rewrite insert_take_drop by done. solve_Permutation.
  - assert (i = length p) as -> by (apply lookup_lt_Some in Hu; cbn in Hu; lia). rewrite Nat.sub_diag in Hu. injection Hu as <-. rewrite insert_app_r_alt, take_app_length by lia. solve_Permutation.
Qed.

(** ** Concrete runs *)

(** A cipher whose tag is the key. *)
#[local] Instance plain_ss : SsOps := {|
  ss_md5 x := take 16 (x ++ replicate 16 x00);
  hkdfSHA1 s t n := take (Z.to_nat n) (s ++ replicate (Z.to_nat n) x00);
  aead_seal a k n p := p ++ take 16 (k ++ replicate 16 x00);
  aead_open a k n c := let m := (length c - 16)%nat in if decide (16 ≤ len c ∧ drop m c = take 16 (k ++ replicate 16 x00)) then Some (take m c) else None
|}.
Lemma take_padded (n : nat) (x : bytes) : length (take n (x ++ replicate n x00)) = n.
Proof. rewrite length_take, length_app, length_replicate. lia. Qed.
#[local] Instance plain_ss_laws : SsLaws.
Proof.
  split; cbn -[replicate take]; intros; unfold len in *; rewrite ?length_app, ?take_padded; try (unfold Overhead; lia).
  - rewrite Nat.add_sub, drop_app_length, take_app_length. rewrite decide_True; [done|]. split; [lia|done].
  - destruct (decide _) as [[Hl _]|]; [|done]. simplify_eq. unfold Overhead. rewrite length_take. lia.
Qed.

Definition ex_account (password : string) : MemoryAccount := match AsAccount AES_128_GCM (s2b password) with Ok a => a | _ => mkAccount (mkCipher 0 0 createAesGcm) UNKNOWN [] [] end.
Definition ex_alice : MemoryUser := mkUser (s2b "alice") (ex_account "wonderland").
Definition ex_bob : MemoryUser := mkUser (s2b "bob") (ex_account "builder").
Definition ex_iv : bytes := replicate 16 x07.
Definition ex_packet : bytes := Eval vm_compute in ex_iv ++ seal_first (Account ex_bob) ex_iv (wire (ipv4Address [x01; x02; x03; x04]) 53 ++ s2b "query").

(** A packet of the writer is what the reader of the same user gives back. *)
Example udp_written_and_read :
  UDPWriter_WriteMultiBuffer [] (Account ex_bob) (Some (ipv4Address [x01; x02; x03; x04])) 53 (λ _, ex_iv) [Buffer.FromBytes (s2b "query")] = Ok ([ex_packet], None) ∧
  match UDPReader_ReadMultiBuffer [] ex_bob (mkConn [(ex_packet, None)] EOF) with
  | Ok ([b], None, _) => content b = s2b "query" ∧ Buffer.UDP b = Some (UDPDestination (Some (ipv4Address [x01; x02; x03; x04])) 53)
  | _ => False
  end.
Proof. vm_compute. repeat split. Qed.

Lemma ss_udp_packets_witness : ∃ packet', DecodeUDPPacket [] [ex_alice; ex_bob] (Buffer.FromBytes ex_packet) = Ok (mkUDPRequest ex_bob (Some (ipv4Address [x01; x02; x03; x04])) 53, packet') ∧ content packet' = s2b "query".
Proof.
  assert (Hs : account_sound (Account ex_bob)) by (by exists AES_128_GCM). assert (Hsa : account_sound (Account ex_alice)) by (by exists AES_128_GCM).
  destruct (ss_udp_packets [] ex_bob (ipv4Address [x01; x02; x03; x04]) 53 ex_iv (s2b "query") Hs) as [_ Hok]; [done|vm_compute; split; congruence|by vm_compute|].
  destruct Hok as (b & bs & E & B & Hdec); [vm_compute; congruence|].
  assert (Hbs : (b ← EncodeUDPPacket [] (Account ex_bob) (Some (ipv4Address [x01; x02; x03; x04])) 53 ex_iv (s2b "query"); Buffer.Bytes b) = Ok ex_packet) by (vm_compute; reflexivity).
  rewrite E in Hbs. cbn [mbind go_bind] in Hbs. rewrite B in Hbs. injection Hbs as ->.
  destruct (Hdec [ex_alice] [] (Buffer.FromBytes ex_packet)) as (p' & Hd & _ & Hc); [apply Forall_cons_2; [split; [exact Hsa|by vm_compute]|by apply list.Forall_nil]|apply Buffer.wf_FromBytes; by vm_compute|apply Buffer.wf_FromBytes; by vm_compute|].
  exact (ex_intro _ p' (conj Hd Hc)).
Defined.
